(* ===== verification/_CoqProject ===== *)
-Q . S2P
Prelude.v
Json.v
Bytes.v
ModuleEvents.v
OperationRecord.v
OperationSpec.v
SourceModes.v
NodeRequests.v
Transition.v
OperationControl.v
ControlTheorems.v
OperationViews.v
RecordInvariants.v
Registry.v
Supervisor.v
SupervisedExecution.v
RegistryInvariant.v
RegistrySweep.v
RegistryMethods.v
RegistryIngest.v
RegistryTheorems.v
StatusRanks.v
SupervisorSystem.v
SupervisorInvariant.v
SupervisorReducer.v
SupervisorTheorems.v
IdlTypes.v
Borsh.v
BorshSpec.v
EntityIds.v
TextLemmas.v
ImportOptions.v
InstructionCodec.v
InstructionWire.v
InstructionVariants.v
Reports.v
Preparation.v
PreparationTheorems.v
SortedRecords.v
CatalogModel.v
ChannelOps.v
CatalogEngine.v
CatalogStore.v
CatalogValidity.v
CatalogCommit.v
CatalogRepair.v
CatalogPages.v
CatalogTallies.v
ZoneClassification.v
InstructionTarget.v
RuntimeRequest.v
RequestTheorems.v
RuntimeOperations.v
StartTheorems.v
LocalState.v
DiskLogic.v
LocalStateTheorems.v
LocalStateAtomic.v
LocalStateLive.v
BackupImport.v
BackupImportTheorems.v
ImportSafety.v
Witnesses.v
DecodeWitnesses.v
WalletWitnesses.v
CatalogWitnesses.v
SupervisorWitnesses.v
RequestWitnesses.v
ChannelConfig.v
ChannelConfigTheorems.v
ChannelStore.v
ChannelStoreTheorems.v
BackupPlan.v
SettingsBackup.v
BackupCatalog.v
BackupCatalogTheorems.v
BackupPlanTheorems.v
BackupTheorems.v
LocalStateWitnesses.v
SettingsWitnesses.v
