(* ===== verification/Prelude.v ===== *)
(** * Logos Inspector: a verification development

    Logos Inspector is a desktop inspector for a network of blockchain, storage
    and messaging nodes.  Seven parts of its Rust code decide whether what it
    shows and sends can be trusted, and are modelled here: the _runtime
    operations_ (every long call the user starts: its request, its record and
    life cycle, its event log, the module events that settle it and the
    supervisor that runs it), the _import of settings backups_ (which must not
    change settings under a running operation), the _local state_ (three files
    that are replaced together, whatever fails meanwhile), the _settings_ kept in
    it (the sources configured for every channel, and the backups made of all
    three files), the _decoders_ (account data, events and instruction words
    against an IDL, and the reports made of them),
    the _wallet instructions_ (planned and prepared from the same IDL), and the
    _zone catalog_ (the record of every channel seen in finalized blocks, with
    the ranges of blocks it covers).

    ** The program and its model

    A bridge call or a JSON object becomes a typed request, which is validated
    and bound to its target.  Starting it takes an id and a permit, inserts a
    record in the registry and queues the request with the supervisor, whose
    reducer runs it as a task under a control that stop requests act on.
    Adapters report transitions on the record (started, progress, completed,
    accepted, failed, cancelled, timed out, ...), modules report events that
    settle accepted operations, and the user interface polls snapshots and event
    pages.  An import of settings closes a gate to the operations it affects,
    looks for live ones, and commits through the store of backups, which plans
    what to write from the backup and the current files and replaces the files of
    the local state in one transaction.  The settings file also holds the sources
    of every channel; a change of them is prepared, attested by the source and
    committed to exactly what it was prepared for.
    Accounts and instructions fetched from the chain are decoded by type
    expressions of an IDL; typed text is parsed by the same expressions and
    serialized into instruction words, which is how the wallet prepares an
    instruction.  The catalog reads pages of finalized blocks from an L1 source;
    its engine reduces them to batches of records, and its store validates the
    batches and applies them to the snapshot it holds.

    - [Prelude] (this file): record update, [anyhow] results as message chains,
      the state and error monad [M] with its weakest-precondition rules
      ([wp]), machine integers, strings as UTF-8 bytes, IEEE binary64, sorting.
      The clocks are a [World] that every reading takes the next value from.
    - [Json]: [serde_json] values, objects as sorted association lists; printing
      and parsing text is the class [SerdeJson].
    - [Bytes]: little-endian digits, two's complement, UTF-8, integer parsing;
      the classes [HexCrate] and [LeeAccounts] for the [hex] crate and the
      account ids of the [lee] package, with their documented laws.

    Operations (src/inspector/commands/operations, src/source_routing):
    - [ModuleEvents]: source_routing/operation.rs and outcome.rs.
    - [OperationRecord]: identity.rs, policy.rs, the data of record.rs, the
      event log ([push_runtime_operation_event_locked] with redaction,
      coalescing and eviction) and the record's invariant [record_wf].  The
      request is the class [OperationRequest].
    - [Transition]: transition.rs, the reducer and the ingress of module events;
      the order on statuses, [evolves], the correlation invariant.
    - [OperationViews]: the JSON views of record.rs and transition.rs.
    - [RecordInvariants]: sizes of what a record retains.
    - [Registry]: the registry of record.rs: one definition per method, with the
      early-event journals, the replay, and the terminal history.  A method
      takes the mutex for its whole duration, so it is one step of the state.
    - [RegistryInvariant], [RegistrySweep], [RegistryMethods], [RegistryIngest],
      [RegistryTheorems]: the registry's invariant [registry_wf], the sweep, the
      two mutating methods, early events, the step relation [registry_step] over
      all methods and its reachability theorem.
    - [Witnesses]: a run of the registry, and the theorems at it.

    The supervisor (supervisor.rs, support/work_tracker.rs):
    - [OperationControl], [ControlTheorems]: the control shared by a task and
      those who stop it, access by atomic access, with the interleavings of its
      calls.
    - [Supervisor]: admission, the reducer with one definition per arm of its
      loop, task exits, external waits, deadlines, closing and recovery.
    - [SupervisedExecution]: the race of an adapter with its stop, poll by poll.
    - [SupervisorSystem], [SupervisorInvariant], [SupervisorReducer],
      [SupervisorTheorems]: the step relation [system_step] of all threads, cut
      where they take a lock, use a control or await, with the steps of the
      reducer on the operation it has in hand ([hand_step]); its invariant
      [system_wf] and what follows from it; the permits and owners of operations
      are a ledger beside the state.  A run ends where the reducer fails; what
      its watcher then does is proved from any state.  [StatusRanks]: what a live record
      keeps of its request, and that its status never moves back.
    - [SupervisorWitnesses]: a run of the system.

    Requests (spec.rs, request.rs, entrypoint.rs, mod.rs, the method modules;
    src/source_routing):
    - [OperationSpec]: the table of operations, routes, arguments, entry points
      against the class [OperationRunner].
    - [SourceModes]: the tables of source modes, tokens, fallbacks, selection.
    - [NodeRequests]: adapter initializations, node requests and the plans of
      storage and delivery operations; the file system is a class.
    - [InstructionTarget]: the Active Zone context of an instruction and the
      target it is bound to; the resolver is a class.
    - [RuntimeRequest]: request.rs and the validation and context of each method,
      as instances of [OperationRequest] and [SupervisedRequest], the interfaces
      the registry and the supervisor are proved against.
    - [RuntimeOperations]: mod.rs, starting, observing and cancelling.
    - [TextLemmas], [RequestTheorems], [StartTheorems]: what validation
      guarantees, and a start as steps of the supervisor system.

    The import of settings backups (backup_import.rs,
    support/settings_backup/import_options.rs):
    - [ImportOptions]: the options of an import and their aliases.
    - [BackupImport]: the gate, the lease, the plan and [apply]; the store is a
      class, and so is what the other threads do between two accesses.
    - [BackupImportTheorems], [ImportSafety]: waits end; the import among threads
      that take steps of the supervisor system.
    - [RequestWitnesses]: requests, a start and imports at concrete inputs.

    The local state (support/local_state.rs):
    - [LocalState]: files, write sets, the rollback journal and its text,
      sessions, commits, rollback and recovery, as programs of the monad [IO] on
      a disk.  A name on the disk has the node that is seen and the nodes that a
      loss of power may bring back; a call of the system works, fails, or fails
      after its effect, as the class [Environment] says.
    - [DiskLogic]: weakest preconditions over the disk, for every environment.
    - [LocalStateTheorems]: the invariant of a transaction: a disk is [guarded]
      by a durable journal, or its targets are [uniform].
    - [LocalStateAtomic]: the text of a journal, whole sessions and restarts
      after losses of power; the laws of the packages ([LocalStateLaws]).
    - [LocalStateLive]: total correctness when nothing fails.
    - [LocalStateWitnesses]: instances with their laws proved, a commit and a
      recovery that are interrupted, and a restart that trusts a lost journal.

    Channel sources (source_routing/channel_sources/config.rs and store.rs):
    - [ChannelConfig]: targets, configurations and attestations, their
      normalization and their JSON; the [url] crate is the class [UrlCrate].
    - [ChannelConfigTheorems]: normalization is idempotent, what normalized
      configurations satisfy ([configs_ok]), their JSON reads back.
    - [ChannelStore]: the settings document, user settings, defaults and imports;
      the preparation, attestation and commit of a mutation; the promotion of a
      network identity, all in the monad [IO] of the local state.
    - [ChannelStoreTheorems]: what a committed mutation is, and where
      attestations come from.

    Settings backups (support/settings_backup.rs, settings_backup/import_plan.rs
    and merge_engine.rs, support/state_store.rs, support/backup_catalog.rs):
    - [BackupPlan]: the merges of an import, its warnings, its plan and summary;
      the files of the host are the class [HostFiles].
    - [SettingsBackup]: the IDL and wallet states, what a backup holds, its
      envelope and encryption (the class [BackupCrates]), export, validation,
      preview and restoration.
    - [BackupCatalog]: the catalog of backup files, its validation, the
      transactions that install payloads and catalogs, and the recording, repair,
      attachment and reading of backups, on a disk of two directories.
    - [BackupCatalogTheorems]: weakest preconditions for it, histories of requests
      and losses of power, and the readability of listed backups.
    - [BackupPlanTheorems], [BackupTheorems]: merges, plans, restorations across
      failures and restarts, exports.  [SettingsWitnesses]: instances of the
      classes, a channel that gets a source, an export, an interrupted
      restoration, and a catalog that loses the power and one that loses its
      backups to a failing [stat].

    Decoders (src/decode, src/support/entity_id.rs):
    - [IdlTypes]: idl_type.rs.  [Borsh]: borsh.rs.  [BorshSpec]: the wire format
      as relations ([type_format]) and the refinement.
    - [EntityIds]: entity_id.rs.
    - [InstructionCodec], [InstructionWire]: instruction_codec.rs, the wire
      format of its values and the round trip; the serializer is the class
      [Serializer].  [InstructionVariants]: instruction_variant.rs.
    - [Reports]: reports.rs, with the rows of support/json_value.rs.
    - [DecodeWitnesses]: instances of the classes with their laws proved, and the
      theorems at concrete inputs.

    Wallet instructions (src/wallet/instruction):
    - [Preparation]: the plan of a request, the resolution of its accounts, its
      preparation and report, and the signer check before submission; the file
      system is a predicate, the derivation of accounts the class [PdaCrates].
    - [PreparationTheorems], [WalletWitnesses]: its theorems, which use those of
      the decoders, and concrete requests; three of these show a disagreement in
      the code.

    The zone catalog (src/inspection/catalog, src/blockchain):
    - [SortedRecords]: key order, [BTreeMap] iteration, [binary_search_by] and
      vectors sorted by a key.
    - [CatalogModel]: model.rs, with the result type [Res] of typed errors.
    - [ChannelOps]: channel_operations.rs; Sequencer blocks are a class.
    - [CatalogEngine]: engine.rs, every reduction; the L1 source of source.rs is
      a function from block ids.
    - [CatalogStore]: store.rs without the database tables.
    - [CatalogValidity], [CatalogCommit]: batches of records
      applied to sorted vectors, what a valid snapshot is, and that incremental
      validation decides it.
    - [CatalogRepair]: the ancestry repair.  [CatalogPages]: working catalogs and
      committed pages.  [CatalogTallies]: what a zone says of its evidence.
    - [ZoneClassification]: inspection/zones/classification.rs.
    - [CatalogWitnesses]: a run of the catalog from its creation to a repair.

    ** What the theorems show

    - The registry: its invariant holds after any sequence of calls
      ([registry_always_consistent]); the sweep bounds the history
      ([sweep_bounds_history]); calls are atomic and keep the records and
      journaled events of the other operations, apart from what a sweep forgets
      ([registry_transition_atomic]); events reach the operation they correlate
      with, or are kept for an operation that may still turn out to be theirs
      ([registry_ingest_routes]), and early completions are not missed
      ([early_event_settles]).
    - The life cycle: records only move forward ([transition_lifecycle]),
      settling transitions have their documented outcome
      ([settling_transition_outcome]); logs are contiguous and bounded, and
      polling has no gaps ([event_log_append], [event_page_exact]).
    - The supervisor: its books balance in every state that the interleaved steps
      of all threads reach before a failure of the reducer
      ([supervisor_books_balance]) and its own checks never fail
      ([bookkeeping_never_fails]); an operation it has taken is not forgotten
      before it is settled ([taken_operation_never_forgotten]); cancellations are not lost
      ([acknowledged_cancellation_not_lost]); the shutdown and the recovery leave
      nothing behind ([drained_reducer_leaves_only_admissions],
      [recovery_leaves_nothing_supervised]).  Executions start at most once
      ([execution_starts_once_or_never]), are cut off only after their grace
      ([execution_cut_off_only_after_grace]) and return when stopped
      ([stopped_execution_returns]); calls on a control return
      ([calls_return_in_bounded_steps]).
    - Requests: what validation accepts gets a record with the inputs its policy
      requires ([accepted_request_has_record]) and runs on the source it
      announces, if the adapter is given as an object
      ([requested_source_is_executed]); a start is all or nothing, up to what a
      sweep forgets of settled records, and refines the supervisor system
      ([start_all_or_nothing]).
    - Imports: nothing affected is live when the store is called
      ([import_commits_quietly]), and the gate that is left agrees with the
      outcome ([import_gate_follows_outcome]).
    - The local state: commits are atomic across failures, losses of power and
      interrupted recoveries ([commit_atomic_across_restarts]); a restart that
      nothing disturbs recovers ([undisturbed_restart_recovers]) and a commit
      that nothing disturbs succeeds ([undisturbed_commit_succeeds]).
    - Backups: a restoration writes the plan that the current files give, all of
      it or nothing ([restore_atomic_across_restarts]), and does so when nothing
      disturbs it ([undisturbed_restore_applies_plan]); the plan is the one that
      was previewed ([applied_plan_is_previewed]); merges keep what is there and
      add what was selected ([merge_keeps_and_adds]); what was exported is what is
      restored ([exported_backup_restores]), if the exported states are plain:
      ASCII texts, no negative and no floating-point numbers, and within the
      nesting that [serde_json] reads.  On a system whose failed calls have done
      nothing and which can tell whether the catalog is a file ([Honest]), with
      ASCII labels, providers and directory names, every backup that the catalog
      lists can be read and has its digest ([listed_backups_readable]), no request
      takes one out ([requests_only_add]), and a payload that is plain in the same
      sense reads back right after it was recorded ([recorded_backup_reads_back]).
      Without [Honest] backups can be lost ([failing_stat_loses_backups]).
    - Channel sources: a mutation is committed to exactly the configuration it was
      prepared for ([mutation_commits_exactly]), no source counts as attested
      unless its attestor said so ([no_attestation_without_attestor]), and
      accepted settings are stable ([settings_document_roundtrip]).
    - The decoders: the Borsh decoder is exactly the format
      ([borsh_decoder_refines_format]), which is self-delimiting
      ([borsh_encoding_unambiguous]); arguments survive the way to the chain and
      back ([argument_roundtrip]), if their types are among those the decoder
      shows (primitives, arrays of u32 and options of these, not too deep) and
      their texts are UTF-8.
    - Wallet instructions: prepared words decode back under the same conditions
      ([prepared_words_decode_back]) and prepared instructions are well formed
      ([prepared_instruction_wf]).
    - The catalog's store: incremental validation is full validation, so commits
      keep the catalog valid ([incremental_validation_is_full],
      [commit_keeps_catalog_valid]).
    - The catalog's engine: whatever the source answers, repairs end with what the
      reductions accept, with a circle of ids, or with an error that a wrong
      answer justifies, and they find the ancestry that is served
      ([repair_ends_with_accepted_outcome], [repair_finds_served_ancestry]);
      batches carry the working catalog ([batch_carries_working_catalog]); a
      committed page advances the cursor along the chain
      ([page_commit_advances_cursor]); tallies stay exact ([ingest_keeps_tallies]);
      the kind of a zone is justified by its evidence and its coverage
      ([zone_kind_justified]).

    ** Bounds and fuel

    Loops that are not structural take fuel and are proved to have enough: the
    eviction and purge loops of the sweep (one round per tracked record, two per
    payload; [sweep_bounds_history] gives the final state with no fuel left to
    ask for), trimming (the length of the text), labels, validation and parsing
    of type expressions (their depth: [idl_type_label_fuel], [validate_fuel],
    [parse_fuel]).  The decoders recurse on the number of levels the depth
    counter still allows, which is the counter itself ([decode_borsh_type_eq]).
    A repair has one round per block it may fetch and one more, and never runs
    out ([repair_ends_with_accepted_outcome]); a binary search has the length of
    the vector ([binary_search_spec]).  A wait of an import has 82 rounds of 25
    milliseconds for its two seconds, which is enough on a monotonic clock
    ([wait_rounds_enough]).  The wait of a blocking call has no bound in the code:
    one round of it is modelled.
    [usize] is 64 bits wide; byte strings are at most [isize::MAX] long, as the
    language guarantees.  Texts and values that enter a registry are assumed to
    be below 2^56 bytes, so that no sum of retained sizes saturates.  A catalog of
    backups has seen at most 10^16 requests and losses of power, so that its ids
    stay within their 128 bytes.

    ** Not modelled

    The disk of the local state holds whole files, since their contents are
    synchronized before they are renamed; a restart follows a loss of power.
    Error values keep the messages this code adds; the message of a foreign
    error below a [context] is dropped.  Mutex poisoning, the asynchronous
    notification itself and panics of the allocator are left out.  The catalog's
    database (tables, record versions and their encoding) and the clients of its
    L1 source are input and output.  Its worker and service, L2 resolution, zone
    summaries, network profiles and capabilities are not modelled.  The
    execution of an operation (dispatch.rs and the transports of source_routing)
    talks to nodes: the model ends with its plan and goes on with its outcome.
    Local node processes, network clients, the command line, the user interface and
    the foreign bindings are input and output. *)

From stdpp Require Export base gmap strings list pretty sorting.
From Stdlib Require Export ZArith Lia.
From Corelib Require Export SpecFloat.

#[export] Set Default Proof Using "Type".
Declare Scope inspector_scope.
Delimit Scope inspector_scope with inspector.
Open Scope inspector_scope.
Open Scope Z_scope.

(** ** Record update

    [r <| field := v |>] is [r] with one field replaced, the assignment
    [r.field = v] of the code; [r <| field ::= f |>] updates the field with a
    function.  A record has updates once its eta-expansion is an instance of
    [Eta]; the setter of a field abstracts that expansion over the field's
    projection. *)
Class Eta (R : Type) : Type := eta : R → R.
Class Setter {R E : Type} (getter : R → E) : Type := update_field : (E → E) → R → R.
Arguments update_field {R E} getter {_} f r : simpl nomatch.

Ltac solve_setter R g :=
  let i := constr:(@eta R _) in
  let e := eval hnf in i in
  lazymatch eval pattern g in e with
  | ?f _ =>
      let b := eval cbv beta in (fun upd => f (fun r => upd (g r))) in
      exact b
  end.
#[export] Hint Extern 1 (@Setter ?R ?E ?g) => solve_setter R g : typeclass_instances.

Notation "r <| g := v |>" := (update_field g (λ _, v) r)
  (at level 1, left associativity, g constr at level 9, v at level 200,
   format "r  <| g  :=  v |>") : inspector_scope.
Notation "r <| g ::= f |>" := (update_field g f r)
  (at level 1, left associativity, g constr at level 9, f at level 200,
   format "r  <| g  ::=  f |>") : inspector_scope.

(** ** Fallible results

    [anyhow::Error] is the chain of its messages, the outermost context
    first; [bail!] starts a chain and [context] pushes onto it. *)
Definition Error : Type := list string.

Inductive Result (A : Type) : Type :=
  | Ok (a : A)
  | Err (e : Error).
Arguments Ok {A} a.
Arguments Err {A} e.

#[export] Instance Result_ret : MRet Result := λ A, Ok.
#[export] Instance Result_bind : MBind Result := λ A B k m,
  match m with Ok a => k a | Err e => Err e end.
#[export] Instance Result_fmap : FMap Result := λ A B f m,
  match m with Ok a => Ok (f a) | Err e => Err e end.

Definition bail {A} (msg : string) : Result A := Err [msg].

(** [Result::context] and [Option::context]. *)
Definition context {A} (msg : string) (r : Result A) : Result A :=
  match r with Ok a => Ok a | Err e => Err (msg :: e) end.

Definition ok_or {A} (msg : string) (o : option A) : Result A :=
  match o with Some a => Ok a | None => Err [msg] end.

Definition is_ok {A} (r : Result A) : bool :=
  match r with Ok _ => true | Err _ => false end.

Lemma bind_Ok {A B} (m : Result A) (f : A → Result B) b :
  (a ← m; f a) = Ok b ↔ ∃ a, m = Ok a ∧ f a = Ok b.
Proof. destruct m; simpl; naive_solver. Qed.

Lemma Ok_bind {A B} (a : A) (f : A → Result B) : (x ← Ok a; f x) = f a.
Proof. reflexivity. Qed.

Lemma ok_or_Ok {A} msg (o : option A) a : ok_or msg o = Ok a ↔ o = Some a.
Proof. destruct o; simpl; naive_solver. Qed.

Lemma context_Ok {A} msg (r : Result A) a : context msg r = Ok a ↔ r = Ok a.
Proof. destruct r; simpl; naive_solver. Qed.

(** ** Stateful, fallible code

    A method on [&mut S] that returns [Result<A>] is a computation of [M S A].
    A failing computation keeps the state it has reached, as a Rust method
    that returns early with [?] does: nothing is rolled back unless the code
    rolls it back.  The world is the system clock, read by [now_millis], and
    the monotonic clock, read by [instant_now]: the [n]-th reading is
    [w_clock n] or [w_instant n], with no assumption on the readings. *)
Record World : Type := mkWorld { w_clock : nat → Z; w_instant : nat → Z; w_reads : nat }.

Definition M (S A : Type) : Type := S → World → Result A * S * World.

#[export] Instance M_ret S : MRet (M S) := λ A a s w, (Ok a, s, w).
#[export] Instance M_bind S : MBind (M S) := λ A B k m s w,
  match m s w with
  | (Ok a, s', w') => k a s' w'
  | (Err e, s', w') => (Err e, s', w')
  end.

Definition lift {S A} (r : Result A) : M S A := λ s w, (r, s, w).
Definition get {S} : M S S := λ s w, (Ok s, s, w).
Definition put {S} (s : S) : M S () := λ _ w, (Ok (), s, w).
Definition modify {S} (f : S → S) : M S () := λ s w, (Ok (), f s, w).
Definition throw {S A} (msg : string) : M S A := lift (bail msg).

(** The outcome of a computation as a value, as [match apply(record)] or
    [let result = (|| ...)()] observes it. *)
Definition attempt {S A} (m : M S A) : M S (Result A) := λ s w,
  match m s w with (r, s', w') => (Ok r, s', w') end.

(** ** Machine integers

    [u64] and, on the 64-bit targets the project builds for, [usize]. *)
Definition u64_max : Z := 18446744073709551615.
Definition usize_max : Z := 18446744073709551615.
Definition i64_max : Z := 9223372036854775807.

Definition in_u64 (z : Z) : Prop := 0 ≤ z ≤ u64_max.

Definition checked_add (a b : Z) : option Z :=
  if a + b <=? u64_max then Some (a + b) else None.
Definition checked_sub (a b : Z) : option Z :=
  if b <=? a then Some (a - b) else None.
Definition saturating_add (a b : Z) : Z := Z.min (a + b) u64_max.
Definition saturating_sub (a b : Z) : Z := Z.max (a - b) 0.

Definition zlen {A} (l : list A) : Z := Z.of_nat (length l).
Definition str_len (s : string) : Z := Z.of_nat (String.length s).

(** [support/time.rs]: milliseconds since the epoch, clamped to [u64]. *)
Definition now_millis {S} : M S Z := λ s w,
  let raw := w_clock w (w_reads w) in
  let millis := if raw <? 0 then 0 else if raw <=? u64_max then raw else u64_max in
  (Ok millis, s, mkWorld (w_clock w) (w_instant w) (Datatypes.S (w_reads w))).

(** [Instant::now], in nanoseconds. *)
Definition instant_now {S} : M S Z := λ s w,
  (Ok (w_instant w (w_reads w)), s,
   mkWorld (w_clock w) (w_instant w) (Datatypes.S (w_reads w))).

(** ** Strings

    A Rust string is its UTF-8 bytes.  [str::trim] removes the characters with
    the Unicode property [White_Space]; on valid UTF-8 a match of one of their
    encodings at either end is a match of the whole character. *)
Definition str_of_bytes (bs : list nat) : string :=
  foldr (λ b s, String (Ascii.ascii_of_nat b) s) EmptyString bs.

Definition white_space : list string :=
  map str_of_bytes
    [[9]; [10]; [11]; [12]; [13]; [32]; [194; 133]; [194; 160]; [225; 154; 128];
     [226; 128; 128]; [226; 128; 129]; [226; 128; 130]; [226; 128; 131];
     [226; 128; 132]; [226; 128; 133]; [226; 128; 134]; [226; 128; 135];
     [226; 128; 136]; [226; 128; 137]; [226; 128; 138]; [226; 128; 168];
     [226; 128; 169]; [226; 128; 175]; [226; 129; 159]; [227; 128; 128]]%nat.

Fixpoint strip_prefix (p s : string) : option string :=
  match p, s with
  | EmptyString, _ => Some s
  | String a p', String b s' => if Ascii.eqb a b then strip_prefix p' s' else None
  | String _ _, EmptyString => None
  end.

Definition strip_any (ps : list string) (s : string) : option string :=
  foldr (λ p acc, match strip_prefix p s with Some s' => Some s' | None => acc end) None ps.

(** Each round drops at least one byte, so the length of the string is fuel
    enough. *)
Fixpoint strip_all (fuel : nat) (ps : list string) (s : string) : string :=
  match fuel with
  | O => s
  | S n => match strip_any ps s with Some s' => strip_all n ps s' | None => s end
  end.

Definition str_rev (s : string) : string :=
  String.string_of_list_ascii (reverse (String.list_ascii_of_string s)).

Definition trim_start (s : string) : string := strip_all (String.length s) white_space s.
Definition trim_end (s : string) : string :=
  str_rev (strip_all (String.length s) (map str_rev white_space) (str_rev s)).
Definition trim (s : string) : string := trim_end (trim_start s).

Definition is_empty (s : string) : bool :=
  match s with EmptyString => true | String _ _ => false end.

Definition starts_with (p s : string) : bool :=
  match strip_prefix p s with Some _ => true | None => false end.
Definition ends_with (p s : string) : bool := starts_with (str_rev p) (str_rev s).

(** [Ord for str]: byte-wise lexicographic. *)
Definition str_leb (a b : string) : bool :=
  match String.compare a b with Gt => false | _ => true end.

(** [Vec::sort_by] on strings, as insertion sort: the order is total, so the
    sorted list does not depend on the algorithm. *)
Fixpoint str_insert (x : string) (l : list string) : list string :=
  match l with
  | [] => [x]
  | y :: l' => if str_leb x y then x :: l else y :: str_insert x l'
  end.
Definition str_sort (l : list string) : list string := foldr str_insert [] l.

(** ** Binary64

    [f64] is the IEEE 754 binary64 of the standard library's executable
    specification. *)
Definition f64 : Type := spec_float.
Definition f64_prec : Z := 53.
Definition f64_emax : Z := 1024.
Definition f64_of_Z (z : Z) : f64 := binary_normalize f64_prec f64_emax z 0 false.
Definition f64_div (x y : f64) : f64 := SFdiv f64_prec f64_emax x y.
Definition f64_sub (x y : f64) : f64 := SFsub f64_prec f64_emax x y.
Definition f64_zero : f64 := S754_zero false.
Definition f64_one : f64 := f64_of_Z 1.
(** The literal [0.01]: the binary64 nearest to one hundredth. *)
Definition f64_hundredth : f64 := S754_finite false 5764607523034235 (-59).

Definition f64_is_nan (x : f64) : bool :=
  match x with S754_nan => true | _ => false end.

(** [f64::max] and [f64::min] return the other argument when one is NaN. *)
Definition f64_max (x y : f64) : f64 :=
  if f64_is_nan x then y else if f64_is_nan y then x
  else if SFltb x y then y else x.
Definition f64_min (x y : f64) : f64 :=
  if f64_is_nan x then y else if f64_is_nan y then x
  else if SFltb y x then y else x.

(** ** Generic lemmas *)

(** *** The order on [f64]

    Comparison of non-NaN values is the lexicographic order of their ranks. *)
Definition f64_rank (x : f64) : Z * Z * Z :=
  match x with
  | S754_infinity true => (-2, 0, 0)
  | S754_finite true m e => (-1, - e, Z.neg m)
  | S754_finite false m e => (1, e, Z.pos m)
  | S754_infinity false => (2, 0, 0)
  | S754_zero _ | S754_nan => (0, 0, 0)
  end.

Definition rank_le (r1 r2 : Z * Z * Z) : Prop :=
  let '(a1, b1, c1) := r1 in let '(a2, b2, c2) := r2 in
  a1 < a2 ∨ a1 = a2 ∧ (b1 < b2 ∨ b1 = b2 ∧ c1 ≤ c2).

Lemma SFleb_rank x y :
  SFleb x y = true ↔
  f64_is_nan x = false ∧ f64_is_nan y = false ∧ rank_le (f64_rank x) (f64_rank y).
Proof.
  unfold SFleb, SFcompare.
  destruct x as [sx|[]| |[] mx ex], y as [sy|[]| |[] my ey]; simpl;
    try (split; [discriminate || (intros _; repeat split; lia) | intros (?&?&?); congruence || lia]);
    destruct (Z.compare_spec ex ey); simpl;
    rewrite ?Pos.compare_cont_spec; unfold Pos.switch_Eq;
    try destruct (Pos.compare_spec mx my); simpl;
    split; (discriminate || (intros (_&_&?); lia) || (intros _; repeat split; lia) || done).
Qed.

Lemma SFltb_false_leb x y :
  f64_is_nan x = false → f64_is_nan y = false → SFltb x y = false → SFleb y x = true.
Proof.
  unfold SFltb, SFleb, SFcompare.
  destruct x as [sx|[]| |[] mx ex], y as [sy|[]| |[] my ey]; simpl; try done;
    intros _ _; rewrite (Z.compare_antisym ex ey); destruct (ex ?= ey) eqn:?; simpl; try done;
    change (Pos.compare_cont Eq) with Pos.compare in *;
    rewrite (Pos.compare_antisym mx my); destruct (mx ?= my)%positive; done.
Qed.

Lemma SFltb_leb x y : SFltb x y = true → SFleb x y = true.
Proof. unfold SFltb, SFleb. by destruct (SFcompare x y) as [[]|]. Qed.

Lemma SFleb_refl x : f64_is_nan x = false → SFleb x x = true.
Proof. intros. apply SFleb_rank. destruct (f64_rank x) as [[]]; simpl; intuition lia. Qed.

Lemma SFleb_trans x y z : SFleb x y = true → SFleb y z = true → SFleb x z = true.
Proof.
  rewrite !SFleb_rank. intros (?&_&H1) (_&?&H2). repeat split; auto.
  destruct (f64_rank x) as [[]], (f64_rank y) as [[]], (f64_rank z) as [[]]; simpl in *; lia.
Qed.

Lemma f64_max_not_nan x y : f64_is_nan x = false → f64_is_nan (f64_max x y) = false.
Proof.
  intros Hx. unfold f64_max. rewrite Hx.
  destruct (f64_is_nan y) eqn:?; [done|]. by destruct (SFltb x y).
Qed.

Lemma f64_max_ge_l x y : f64_is_nan x = false → SFleb x (f64_max x y) = true.
Proof.
  intros Hx. unfold f64_max. rewrite Hx.
  destruct (f64_is_nan y); [by apply SFleb_refl|].
  destruct (SFltb x y) eqn:?; [by apply SFltb_leb | by apply SFleb_refl].
Qed.

Lemma f64_min_le_r x y : f64_is_nan y = false → SFleb (f64_min x y) y = true.
Proof.
  intros Hy. unfold f64_min. rewrite Hy.
  destruct (f64_is_nan x) eqn:Hx; [by apply SFleb_refl|].
  destruct (SFltb y x) eqn:?; [by apply SFleb_refl|]. by apply SFltb_false_leb.
Qed.

Lemma f64_min_not_nan x y : f64_is_nan y = false → f64_is_nan (f64_min x y) = false.
Proof. intros Hy. apply f64_min_le_r with (x := x) in Hy. apply SFleb_rank in Hy. tauto. Qed.

(** *** Weakest preconditions for [M]

    [wp m Q s]: from state [s], whatever the clock shows, [m] ends with an
    outcome and a state that satisfy [Q].  Failing outcomes are covered, and so
    is the state they leave behind. *)
Definition wp {S A} (m : M S A) (Q : Result A → S → Prop) (s : S) : Prop :=
  ∀ w, match m s w with (r, s', _) => Q r s' end.

(** Some run of the computation from [s] ends so. *)
Definition may_run {S A} (m : M S A) (s : S) (r : Result A) (s' : S) : Prop :=
  ∃ w w', m s w = (r, s', w').

Section wp_rules.
Context {S : Type}.
Implicit Types s : S.

Lemma wp_may_run {A} (m : M S A) s : wp m (may_run m s) s.
Proof. intros w. destruct (m s w) as [[r s'] w'] eqn:E. by exists w, w'. Qed.

Lemma wp_run {A} (m : M S A) Q s w r s' w' :
  wp m Q s → m s w = (r, s', w') → Q r s'.
Proof. intros H E. specialize (H w). by rewrite E in H. Qed.

Lemma wp_bind {A B} (m : M S A) (k : A → M S B) Q s :
  wp m (λ r s', match r with Ok a => wp (k a) Q s' | Err e => Q (Err e) s' end) s →
  wp (m ≫= k) Q s.
Proof.
  intros H w. specialize (H w). unfold mbind, M_bind.
  destruct (m s w) as [[[a|e] s'] w']; [apply H | done].
Qed.

Lemma wp_ret {A} (a : A) (Q : Result A → S → Prop) s : Q (Ok a) s → wp (mret a) Q s.
Proof. by intros H w. Qed.
Lemma wp_lift {A} (r : Result A) (Q : Result A → S → Prop) s : Q r s → wp (lift r) Q s.
Proof. by intros H w. Qed.
Lemma wp_throw {A} msg (Q : Result A → S → Prop) s : Q (Err [msg]) s → wp (throw msg) Q s.
Proof. by intros H w. Qed.
Lemma wp_get (Q : Result S → S → Prop) s : Q (Ok s) s → wp get Q s.
Proof. by intros H w. Qed.
Lemma wp_put (Q : Result () → S → Prop) s s' : Q (Ok ()) s' → wp (put s') Q s.
Proof. by intros H w. Qed.
Lemma wp_modify f (Q : Result () → S → Prop) s : Q (Ok ()) (f s) → wp (modify f) Q s.
Proof. by intros H w. Qed.

Lemma wp_now_millis (Q : Result Z → S → Prop) s :
  (∀ n, in_u64 n → Q (Ok n) s) → wp now_millis Q s.
Proof.
  intros H w. unfold now_millis. apply H. unfold in_u64, u64_max.
  destruct (Z.ltb_spec (w_clock w (w_reads w)) 0); [lia|].
  destruct (Z.leb_spec (w_clock w (w_reads w)) 18446744073709551615); lia.
Qed.

Lemma wp_instant_now (Q : Result Z → S → Prop) s :
  (∀ n, Q (Ok n) s) → wp instant_now Q s.
Proof. intros H w. apply H. Qed.

Lemma wp_attempt {A} (m : M S A) (Q : Result (Result A) → S → Prop) s :
  wp m (λ r s', Q (Ok r) s') s → wp (attempt m) Q s.
Proof.
  intros H w. specialize (H w). unfold attempt. by destruct (m s w) as [[r s'] w'].
Qed.

Lemma wp_mono {A} (m : M S A) (Q1 Q2 : Result A → S → Prop) s :
  wp m Q1 s → (∀ r s', Q1 r s' → Q2 r s') → wp m Q2 s.
Proof.
  intros H HQ w. specialize (H w). destruct (m s w) as [[r s'] w']; auto.
Qed.

Lemma wp_and {A} (m : M S A) (Q1 Q2 : Result A → S → Prop) s :
  wp m Q1 s → wp m Q2 s → wp m (λ r s', Q1 r s' ∧ Q2 r s') s.
Proof. intros H1 H2 w. specialize (H1 w); specialize (H2 w). by destruct (m s w) as [[]]. Qed.

Lemma wp_true {A} (m : M S A) s : wp m (λ _ _, True) s.
Proof. intros w. by destruct (m s w) as [[]]. Qed.

(** Two common postconditions: one that holds of every state reached, and one
    that holds of the state a successful run ends in. *)
Lemma wp_keep_bind {A B} (P : S → Prop) (m : M S A) (k : A → M S B) s :
  wp m (λ _ s', P s') s → (∀ a s', P s' → wp (k a) (λ _ s', P s') s') →
  wp (m ≫= k) (λ _ s', P s') s.
Proof. intros Hm Hk. apply wp_bind. eapply wp_mono; [done|]. intros [a|e] s'; auto. Qed.

Lemma wp_ok_then {A B} (P : S → Prop) (m : M S A) (b : B) s :
  wp m (λ out s', is_ok out = true → P s') s →
  wp (m ;; mret b) (λ out s', is_ok out = true → P s') s.
Proof. intros Hm. apply wp_bind. eapply wp_mono; [done|]. intros [a|e] s' HP; [by apply wp_ret | done]. Qed.

Lemma wp_ok_then_eq {A B} (P : S → Prop) (m : M S A) (b : B) s :
  wp m (λ out s', is_ok out = true → P s') s →
  wp (m ;; mret b) (λ out s', is_ok out = true → out = Ok b ∧ P s') s.
Proof.
  intros Hm. apply wp_bind. eapply wp_mono; [done|].
  intros [a|e] s' HP; [|done]. apply wp_ret. auto.
Qed.

(** A computation moves along [R] when every outcome, failing ones included,
    leaves a state related to the first. *)
Definition steps {A} (R : S → S → Prop) (m : M S A) : Prop :=
  ∀ s, wp m (λ _ s', R s s') s.

Lemma steps_bind {A B} R `{!Transitive R} (m : M S A) (k : A → M S B) :
  steps R m → (∀ a, steps R (k a)) → steps R (m ≫= k).
Proof.
  intros Hm Hk s. apply wp_bind. eapply wp_mono; [apply Hm|].
  intros [a|e] s' Hs; [|done]. eapply wp_mono; [apply Hk|]. intros. by etrans.
Qed.
Lemma steps_ret {A} R `{!Reflexive R} (a : A) : steps R (mret a).
Proof. intros s. by apply wp_ret. Qed.
Lemma steps_lift {A} R `{!Reflexive R} (r : Result A) : steps R (lift r).
Proof. intros s. by apply wp_lift. Qed.
Lemma steps_get R `{!Reflexive R} : steps R get.
Proof. intros s. by apply wp_get. Qed.
Lemma steps_now_millis R `{!Reflexive R} : steps R now_millis.
Proof. intros s. apply wp_now_millis. done. Qed.
Lemma steps_modify R f : (∀ s, R s (f s)) → steps R (modify f).
Proof. intros H s. by apply wp_modify. Qed.
End wp_rules.

(** One rule of the calculus at a time; [wp_go] runs straight-line code. *)
Ltac wp_step :=
  lazymatch goal with
  | |- wp (_ ≫= _) _ _ => apply wp_bind
  | |- wp (mret _) _ _ => apply wp_ret
  | |- wp (lift _) _ _ => apply wp_lift
  | |- wp (throw _) _ _ => apply wp_throw
  | |- wp get _ _ => apply wp_get
  | |- wp (put _) _ _ => apply wp_put
  | |- wp (modify _) _ _ => apply wp_modify
  | |- wp (attempt _) _ _ => apply wp_attempt
  | |- wp now_millis _ _ => apply wp_now_millis; intros ? ?
  | |- wp instant_now _ _ => apply wp_instant_now; intros ?
  end; cbv beta iota zeta.
Ltac wp_go := repeat wp_step.

(** From a claim about one run to the calculus. *)
Ltac start_wp :=
  lazymatch goal with
  | |- ?m ?s ?w = (?o, ?s', ?w') → ?P =>
      let Q := eval pattern o, s' in P in
      lazymatch Q with ?F _ _ => refine (wp_run m F s w o s' w' _) end
  end; cbv beta.

(** Case on the first test of a conditional in the goal. *)
Ltac case_if E :=
  match goal with |- context [if ?b then _ else _] => destruct b eqn:E end.

(** *** Sorting strings *)
Lemma str_compare_refl s : String.compare s s = Eq.
Proof. pose proof (String.compare_antisym s s). by destruct (String.compare s s). Qed.

Lemma str_leb_total a b : str_leb a b = true ∨ str_leb b a = true.
Proof.
  unfold str_leb. rewrite (String.compare_antisym b a).
  destruct (String.compare a b); simpl; auto.
Qed.

Lemma str_insert_perm x l : str_insert x l ≡ₚ x :: l.
Proof.
  induction l as [|y l IH]; simpl; [done|].
  destruct (str_leb x y); [done|]. rewrite IH. apply Permutation_swap.
Qed.

Lemma str_sort_perm l : str_sort l ≡ₚ l.
Proof. induction l as [|x l IH]; simpl; [done|]. by rewrite str_insert_perm, IH. Qed.

Lemma str_insert_sorted x l :
  Sorted (λ a b, str_leb a b = true) l → Sorted (λ a b, str_leb a b = true) (str_insert x l).
Proof.
  induction 1 as [|y l Hl IH Hd]; simpl; [repeat constructor|].
  destruct (str_leb x y) eqn:E; [by repeat constructor|].
  constructor; [done|].
  destruct (str_leb_total x y) as [?|Hyx]; [congruence|].
  destruct l as [|z l]; simpl; [by constructor|].
  destruct (str_leb x z); constructor; [done|]. by inversion Hd.
Qed.

Lemma str_sort_sorted l : Sorted (λ a b, str_leb a b = true) (str_sort l).
Proof. induction l; simpl; [constructor|]. by apply str_insert_sorted. Qed.

Lemma elem_of_str_sort x l : x ∈ str_sort l ↔ x ∈ l.
Proof. by rewrite str_sort_perm. Qed.

Lemma length_str_sort l : length (str_sort l) = length l.
Proof. by rewrite str_sort_perm. Qed.

(** *** Arithmetic *)
Lemma checked_add_Some a b c : checked_add a b = Some c ↔ c = a + b ∧ a + b ≤ u64_max.
Proof.
  unfold checked_add. destruct (Z.leb_spec (a + b) u64_max); split;
    intros; simplify_eq; intuition (lia || congruence).
Qed.

Lemma checked_sub_Some a b c : checked_sub a b = Some c ↔ c = a - b ∧ b ≤ a.
Proof.
  unfold checked_sub. destruct (Z.leb_spec b a); split;
    intros; simplify_eq; intuition (lia || congruence).
Qed.

Lemma zlen_nonneg {A} (l : list A) : 0 ≤ zlen l.
Proof. unfold zlen. lia. Qed.
Lemma zlen_app {A} (l1 l2 : list A) : zlen (l1 ++ l2) = zlen l1 + zlen l2.
Proof. unfold zlen. rewrite length_app. lia. Qed.

Lemma str_len_nonneg s : 0 ≤ str_len s.
Proof. unfold str_len. lia. Qed.

(** The lemmas that close routine arithmetic side conditions. *)
Create HintDb inspector.
Create Rewrite HintDb inspector_rw.
#[export] Hint Resolve zlen_nonneg str_len_nonneg f64_max_not_nan f64_max_ge_l
  f64_min_not_nan SFleb_refl : inspector.
