(* ===== verification/Json.v ===== *)
(** * JSON values

    The [serde_json] values the code builds, stores and inspects, with the
    accessors it uses.  Objects are [BTreeMap<String, Value>] (the
    [preserve_order] feature is off): association lists that insertion keeps in
    key order.  Printing and parsing text are the package's own code, so they
    are the operations of a class the clients are proved against. *)

From S2P Require Import Prelude.

Inductive Number : Type :=
  | PosInt (n : Z)
  | NegInt (n : Z)
  | Float (x : f64).

#[local] Set Warnings "-register-all".
Inductive Value : Type :=
  | VNull
  | VBool (b : bool)
  | VNumber (n : Number)
  | VString (s : string)
  | VArray (items : list Value)
  | VObject (entries : list (string * Value)).

Definition Map : Type := list (string * Value).

(** ** Text

    [to_string] is the compact serialization ([Value::to_string],
    [serde_json::to_vec]); [from_str] is the parser. *)
Class SerdeJson : Type := {
  to_string : Value → string;
  from_str : string → option Value;
}.

(** ** Objects *)
Fixpoint map_get (k : string) (m : Map) : option Value :=
  match m with
  | [] => None
  | (k', v) :: m' => if String.eqb k k' then Some v else map_get k m'
  end.

Fixpoint map_insert (k : string) (v : Value) (m : Map) : Map :=
  match m with
  | [] => [(k, v)]
  | (k', v') :: m' =>
      match String.compare k k' with
      | Eq => (k, v) :: m'
      | Lt => (k, v) :: m
      | Gt => (k', v') :: map_insert k v m'
      end
  end.

Fixpoint map_remove (k : string) (m : Map) : Map :=
  match m with
  | [] => []
  | (k', v) :: m' => if String.eqb k k' then m' else (k', v) :: map_remove k m'
  end.

Definition map_contains_key (k : string) (m : Map) : bool :=
  match map_get k m with Some _ => true | None => false end.

(** [m.get(k1).or_else(|| m.get(k2))...]: the first present key, whatever its value. *)
Fixpoint get_first (keys : list string) (m : Map) : option Value :=
  match keys with
  | [] => None
  | k :: keys' => match map_get k m with Some v => Some v | None => get_first keys' m end
  end.

(** The object literals of [json!]. *)
Definition json_object (fields : list (string * Value)) : Value :=
  VObject (foldl (λ m kv, map_insert kv.1 kv.2 m) [] fields).

(** ** Accessors *)
Definition as_str (v : Value) : option string :=
  match v with VString s => Some s | _ => None end.
Definition as_bool (v : Value) : option bool :=
  match v with VBool b => Some b | _ => None end.
Definition as_object (v : Value) : option Map :=
  match v with VObject m => Some m | _ => None end.
Definition as_array (v : Value) : option (list Value) :=
  match v with VArray l => Some l | _ => None end.
(** The payload of [PosInt] is a [u64]: no other integer is representable. *)
Definition as_u64 (v : Value) : option Z :=
  match v with
  | VNumber (PosInt n) => if (0 <=? n) && (n <=? u64_max) then Some n else None
  | _ => None
  end.
Definition value_get (k : string) (v : Value) : option Value :=
  match v with VObject m => map_get k m | _ => None end.

(** ** Conversions of [json!] *)
Definition json_u64 (n : Z) : Value := VNumber (PosInt n).
Definition json_f64 (x : f64) : Value :=
  match x with
  | S754_nan | S754_infinity _ => VNull
  | _ => VNumber (Float x)
  end.
Definition json_option {A} (f : A → Value) (o : option A) : Value :=
  match o with Some a => f a | None => VNull end.

(** ** Lemmas *)
Lemma as_u64_range v n : as_u64 v = Some n → in_u64 n.
Proof.
  destruct v as [| |[n'| |]| | |]; simpl; try done.
  destruct (Z.leb_spec 0 n'), (Z.leb_spec n' u64_max); simpl; try done.
  intros [= <-]. by split.
Qed.

Lemma map_get_insert_eq k v m : map_get k (map_insert k v m) = Some v.
Proof.
  induction m as [|[k' v'] m IH]; simpl; [by rewrite String.eqb_refl|].
  destruct (String.compare k k') eqn:E; simpl; rewrite ?String.eqb_refl; try done.
  destruct (String.eqb_spec k k') as [->|]; [|done].
  by rewrite str_compare_refl in E.
Qed.

Lemma map_get_insert_ne k k' v m : k ≠ k' → map_get k (map_insert k' v m) = map_get k m.
Proof.
  intros Hne. induction m as [|[k2 v2] m IH]; simpl.
  - by destruct (String.eqb_spec k k').
  - destruct (String.compare k' k2) eqn:E; simpl.
    + apply String.compare_eq_iff in E as ->.
      by destruct (String.eqb_spec k k2).
    + by destruct (String.eqb_spec k k').
    + by rewrite IH.
Qed.

Lemma map_get_insert k k' v m :
  map_get k (map_insert k' v m) = if decide (k = k') then Some v else map_get k m.
Proof.
  case_decide; subst; [apply map_get_insert_eq | by apply map_get_insert_ne].
Qed.
#[export] Hint Rewrite map_get_insert_eq : inspector_rw.
#[export] Hint Rewrite map_get_insert_ne using congruence : inspector_rw.
