(* ===== verification/Bytes.v ===== *)
(** * Bytes, words and text

    What the decoders use of the language and its standard library: fixed-width
    little-endian integers over bytes and 32-bit words, two's complement, UTF-8
    validation, the parsing of decimal integers and splitting.  The [hex] crate
    and the [AccountId] of the [lee] package are not part of the repository:
    they are classes, with the documented behaviour the clients rely on as a
    second class of laws. *)

From Stdlib Require Import Ascii.
From S2P Require Import Prelude.

(** ** Digits in base [2^w]

    A byte is a digit of width 8, an instruction word a digit of width 32. *)
Definition digit (w x : Z) : Prop := 0 ≤ x < 2 ^ w.
Definition digits (w : Z) (l : list Z) : Prop := Forall (digit w) l.
Abbreviation is_bytes := (digits 8).
Abbreviation is_words := (digits 32).

Fixpoint le_value (w : Z) (l : list Z) : Z :=
  match l with
  | [] => 0
  | x :: l' => x + 2 ^ w * le_value w l'
  end.

Fixpoint le_digits (w : Z) (count : nat) (n : Z) : list Z :=
  match count with
  | O => []
  | S count' => n mod 2 ^ w :: le_digits w count' (n / 2 ^ w)
  end.

(** [value |= u128::from(x) << (w * index)] over the digits from [index] on. *)
Fixpoint or_shifted (w index value : Z) (l : list Z) : Z :=
  match l with
  | [] => value
  | x :: l' => or_shifted w (index + 1) (Z.lor value (Z.shiftl x (w * index) mod 2 ^ 128)) l'
  end.

(** The signed reading of an unsigned integer of [bits] bits, and back. *)
Definition to_signed (bits n : Z) : Z := if n <? 2 ^ (bits - 1) then n else n - 2 ^ bits.
Definition to_unsigned (bits n : Z) : Z := n mod 2 ^ bits.

Definition div_ceil (a b : Z) : Z := (a + b - 1) / b.

(** ** Text and bytes *)
Definition as_bytes (s : string) : list Z :=
  map (λ a, Z.of_nat (Ascii.nat_of_ascii a)) (String.list_ascii_of_string s).
Definition text_of (bs : list Z) : string := str_of_bytes (map Z.to_nat bs).

Definition in_range (lo hi x : Z) : bool := (lo <=? x) && (x <=? hi).
Definition continuation (x : Z) : bool := in_range 128 191 x.

(** [std::str::from_utf8]: no overlong forms, no surrogates, at most U+10FFFF. *)
Fixpoint utf8_valid (bs : list Z) : bool :=
  match bs with
  | [] => true
  | a :: bs1 =>
      if in_range 0 127 a then utf8_valid bs1
      else match bs1 with
      | [] => false
      | b :: bs2 =>
          if in_range 194 223 a then continuation b && utf8_valid bs2
          else match bs2 with
          | [] => false
          | c :: bs3 =>
              if in_range 224 239 a then
                in_range (if a =? 224 then 160 else 128) (if a =? 237 then 159 else 191) b
                && continuation c && utf8_valid bs3
              else match bs3 with
              | [] => false
              | d :: bs4 =>
                  in_range 240 244 a
                  && in_range (if a =? 240 then 144 else 128) (if a =? 244 then 143 else 191) b
                  && continuation c && continuation d && utf8_valid bs4
              end
          end
      end
  end.

Definition from_utf8 (bs : list Z) : option string :=
  if utf8_valid bs then Some (text_of bs) else None.

(** ** Characters *)
Definition is_ascii_hexdigit (a : Ascii.ascii) : bool :=
  let x := Z.of_nat (Ascii.nat_of_ascii a) in
  in_range 48 57 x || in_range 65 70 x || in_range 97 102 x.
Definition all_hexdigits (s : string) : bool :=
  forallb is_ascii_hexdigit (String.list_ascii_of_string s).

Definition ascii_lower (a : Ascii.ascii) : Ascii.ascii :=
  let n := Ascii.nat_of_ascii a in
  if in_range 65 90 (Z.of_nat n) then Ascii.ascii_of_nat (n + 32) else a.
Definition to_ascii_lowercase (s : string) : string :=
  String.string_of_list_ascii (map ascii_lower (String.list_ascii_of_string s)).

(** [chars().filter(|ch| !ch.is_whitespace())]. *)
Fixpoint drop_white_space (fuel : nat) (s : string) : string :=
  match fuel with
  | O => s
  | S n =>
      match strip_any white_space s with
      | Some s' => drop_white_space n s'
      | None => match s with
                | EmptyString => EmptyString
                | String a s' => String a (drop_white_space n s')
                end
      end
  end.

(** [str::split] on one character. *)
Fixpoint str_split (sep : Ascii.ascii) (s : string) : list string :=
  match s with
  | EmptyString => [EmptyString]
  | String a s' =>
      match str_split sep s' with
      | [] => []
      | part :: parts =>
          if Ascii.eqb a sep then EmptyString :: part :: parts else String a part :: parts
      end
  end.

Definition str_replace (a b : Ascii.ascii) (s : string) : string :=
  String.string_of_list_ascii
    (map (λ c, if Ascii.eqb c a then b else c) (String.list_ascii_of_string s)).

(** ** Decimal integers: [str::parse] of the integer types *)
Fixpoint parse_digits (acc : Z) (s : string) : option Z :=
  match s with
  | EmptyString => Some acc
  | String a s' =>
      let x := Z.of_nat (Ascii.nat_of_ascii a) in
      if in_range 48 57 x then parse_digits (10 * acc + (x - 48)) s' else None
  end.

Definition parse_int (lo hi : Z) (s : string) : option Z :=
  let magnitude s := if is_empty s then None else parse_digits 0 s in
  n ← match s with
      | String "+"%char s' => magnitude s'
      | String "-"%char s' => if lo <? 0 then Z.opp <$> magnitude s' else None
      | _ => magnitude s
      end;
  if in_range lo hi n then Some n else None.

Definition parse_unsigned (bits : Z) : string → option Z := parse_int 0 (2 ^ bits - 1).
Definition parse_signed (bits : Z) : string → option Z :=
  parse_int (- 2 ^ (bits - 1)) (2 ^ (bits - 1) - 1).

(** ** The packages the decoders call *)
(** [sha2::Sha256] over the concatenated updates. *)
Class Sha2Crate : Type := { sha256 : list Z → list Z }.

Class HexCrate : Type := {
  hex_encode : list Z → string;
  hex_decode : string → option (list Z);
}.

Class HexLaws `{HexCrate} : Prop := {
  hex_decode_encode bs : is_bytes bs → hex_decode (hex_encode bs) = Some bs;
  hex_encode_decode s bs : hex_decode s = Some bs → hex_encode bs = to_ascii_lowercase s;
  hex_decode_bytes s bs : hex_decode s = Some bs → is_bytes bs;
  hex_decode_length s bs : hex_decode s = Some bs → str_len s = 2 * zlen bs;
  hex_decode_total s : all_hexdigits s = true → Z.even (str_len s) = true → is_Some (hex_decode s);
  hex_encode_digits bs : is_bytes bs → all_hexdigits (hex_encode bs) = true;
}.

(** An [AccountId] is its 32 bytes. *)
Definition AccountId : Type := list Z.
Definition account_wf (a : AccountId) : Prop := is_bytes a ∧ length a = 32%nat.

Class LeeAccounts : Type := {
  account_to_string : AccountId → string;
  account_parse : string → option AccountId;
}.

(** The text of an account id is the base58 of its bytes. *)
Definition is_base58 (a : Ascii.ascii) : bool :=
  let x := Z.of_nat (Ascii.nat_of_ascii a) in
  in_range 49 57 x || (in_range 65 90 x && negb (x =? 73) && negb (x =? 79))
  || (in_range 97 122 x && negb (x =? 108)).

Class LeeAccountLaws `{LeeAccounts} : Prop := {
  account_parse_to_string a : account_wf a → account_parse (account_to_string a) = Some a;
  account_parse_wf s a : account_parse s = Some a → account_wf a;
  account_text_base58 a :
    account_wf a → forallb is_base58 (String.list_ascii_of_string (account_to_string a)) = true;
  account_text_length a : account_wf a → 32 ≤ str_len (account_to_string a) ≤ 44;
}.

(** ** Lemmas: digits *)
Lemma digit_pow w n : 0 ≤ w → digit w (n mod 2 ^ w).
Proof. intros Hw. pose proof (Z.pow_pos_nonneg 2 w). apply Z.mod_pos_bound. lia. Qed.

Lemma length_le_digits w count n : length (le_digits w count n) = count.
Proof. revert n. induction count; simpl; auto. Qed.

Lemma le_digits_wf w count n : 0 ≤ w → digits w (le_digits w count n).
Proof.
  intros Hw. revert n. induction count as [|count IH]; intros n; simpl; [constructor|].
  constructor; [by apply digit_pow | apply IH].
Qed.

Lemma le_value_range w l : 0 ≤ w → digits w l → 0 ≤ le_value w l < 2 ^ (w * zlen l).
Proof.
  intros Hw. unfold zlen. induction 1 as [|x l Hx Hl IH]; simpl length; simpl le_value; [lia|].
  rewrite Nat2Z.inj_succ, Z.mul_succ_r, (Z.add_comm _ w), Z.pow_add_r by lia.
  unfold digit in Hx. nia.
Qed.

Lemma le_digits_value w l : 0 ≤ w → digits w l → le_digits w (length l) (le_value w l) = l.
Proof.
  intros Hw. induction 1 as [|x l Hx Hl IH]; simpl; [done|].
  unfold digit in Hx. f_equal.
  - rewrite Z.mul_comm, Z.mod_add by lia. by apply Z.mod_small.
  - rewrite Z.mul_comm, Z.div_add by lia. rewrite Z.div_small by lia. simpl. exact IH.
Qed.

Lemma le_value_digits w count n :
  0 ≤ w → 0 ≤ n < 2 ^ (w * Z.of_nat count) → le_value w (le_digits w count n) = n.
Proof.
  intros Hw. revert n. induction count as [|count IH]; intros n; simpl le_digits; simpl le_value.
  - rewrite Z.mul_0_r. simpl. lia.
  - rewrite Nat2Z.inj_succ, Z.mul_succ_r, (Z.add_comm _ w), Z.pow_add_r by lia. intros Hn.
    pose proof (Z.pow_pos_nonneg 2 w). rewrite IH.
    + pose proof (Z.div_mod n (2 ^ w)). lia.
    + split; [apply Z.div_pos; lia|]. apply Z.div_lt_upper_bound; lia.
Qed.

(** The disjunction of shifted digits is their little-endian value: no shift
    loses a bit as long as the whole integer has at most 128. *)
Lemma lor_shift_add v x k :
  0 ≤ k → 0 ≤ v < 2 ^ k → 0 ≤ x → Z.lor v (Z.shiftl x k) = v + 2 ^ k * x.
Proof.
  intros Hk Hv Hx. rewrite (Z.mul_comm (2 ^ k)), <- Z.shiftl_mul_pow2 by lia.
  assert (Hland : Z.land v (Z.shiftl x k) = 0);
    [|by rewrite Z.add_nocarry_lxor, Z.lxor_lor].
  apply Z.bits_inj'. intros n Hn.
  rewrite Z.land_spec, Z.bits_0, andb_false_iff, Z.shiftl_spec by lia.
  destruct (Z.ltb_spec n k); [right; apply Z.testbit_neg_r; lia|left].
  destruct (decide (v = 0)) as [->|]; [apply Z.bits_0|].
  apply Z.bits_above_log2; [lia|]. apply Z.log2_lt_pow2; [lia|].
  pose proof (Z.pow_le_mono_r 2 k n). lia.
Qed.

Lemma or_shifted_from w i v l :
  0 ≤ w → 0 ≤ i → 0 ≤ v < 2 ^ (w * i) → digits w l → w * (i + zlen l) ≤ 128 →
  or_shifted w i v l = v + 2 ^ (w * i) * le_value w l.
Proof.
  intros Hw Hi Hv Hl. revert i v Hi Hv.
  induction Hl as [|x l Hx Hl IH]; intros i v Hi Hv Hb; simpl or_shifted; simpl le_value; [lia|].
  unfold digit in Hx. unfold zlen in *. rewrite length_cons, Nat2Z.inj_succ in Hb.
  assert (Hpow : 2 ^ (w * (i + 1)) = 2 ^ (w * i) * 2 ^ w) by (rewrite <- Z.pow_add_r; f_equal; lia).
  rewrite Z.mod_small, lor_shift_add by (rewrite ?Z.shiftl_mul_pow2; nia || lia || (
    split; [nia|]; apply Z.lt_le_trans with (2 ^ (w * (i + 1))); [rewrite Hpow; nia|];
    apply Z.pow_le_mono_r; nia)).
  rewrite IH; rewrite ?Hpow; try nia. 
Qed.

Lemma or_shifted_value w l :
  0 ≤ w → digits w l → w * zlen l ≤ 128 → or_shifted w 0 0 l = le_value w l.
Proof.
  intros Hw Hl Hb. rewrite or_shifted_from; rewrite ?Z.mul_0_r; simpl; try done; lia.
Qed.

Lemma le_value_app w l1 l2 :
  0 ≤ w → le_value w (l1 ++ l2) = le_value w l1 + 2 ^ (w * zlen l1) * le_value w l2.
Proof.
  intros Hw. unfold zlen. induction l1 as [|x l1 IH]; simpl app; simpl le_value; simpl length.
  - rewrite Z.mul_0_r. lia.
  - rewrite IH, Nat2Z.inj_succ, Z.mul_succ_r, (Z.add_comm _ w), Z.pow_add_r by lia. ring.
Qed.

Lemma le_value_zeros w k : le_value w (replicate k 0) = 0.
Proof. induction k; simpl; lia. Qed.

Lemma le_value_ones w k : 0 ≤ w → le_value w (replicate k (2 ^ w - 1)) = 2 ^ (w * Z.of_nat k) - 1.
Proof.
  intros Hw. induction k as [|k IH]; simpl replicate; simpl le_value; [by rewrite Z.mul_0_r|].
  rewrite IH, Nat2Z.inj_succ, Z.mul_succ_r, (Z.add_comm _ w), Z.pow_add_r by lia. ring.
Qed.

Lemma land_top_bit w x : 0 < w → digit w x → Z.land x (2 ^ (w - 1)) = 0 ↔ x < 2 ^ (w - 1).
Proof.
  intros Hw [Hx0 Hx]. assert (Hp : 2 ^ w = 2 * 2 ^ (w - 1)) by (rewrite <- Z.pow_succ_r by lia; f_equal; lia).
  split.
  - intros Hl. destruct (Z.lt_ge_cases x (2 ^ (w - 1))); [done|exfalso].
    assert (Hbit : Z.testbit (Z.land x (2 ^ (w - 1))) (w - 1) = true).
    { rewrite Z.land_spec, Z.pow2_bits_true, andb_true_r by lia.
      rewrite Z.testbit_true by lia. rewrite <- (Z.div_unique x (2 ^ (w - 1)) 1 (x - 2 ^ (w - 1))); [done|lia|lia]. }
    by rewrite Hl, Z.bits_0 in Hbit.
  - intros Hlt. apply Z.bits_inj'. intros n Hn. rewrite Z.land_spec, Z.bits_0.
    destruct (decide (n = w - 1)) as [->|]; [|rewrite Z.pow2_bits_false by lia; apply andb_false_r].
    rewrite andb_false_iff. left. rewrite Z.testbit_false by lia. by rewrite Z.div_small.
Qed.

(** ** Lemmas: two's complement *)
Lemma pow2_half bits : 0 < bits → 2 ^ bits = 2 * 2 ^ (bits - 1).
Proof. intros. rewrite <- Z.pow_succ_r by lia. f_equal. lia. Qed.

Lemma to_signed_range bits n :
  0 < bits → 0 ≤ n < 2 ^ bits → - 2 ^ (bits - 1) ≤ to_signed bits n < 2 ^ (bits - 1).
Proof.
  intros Hb Hn. pose proof (pow2_half _ Hb). unfold to_signed.
  destruct (Z.ltb_spec n (2 ^ (bits - 1))); lia.
Qed.

Lemma to_signed_unsigned bits n :
  0 < bits → - 2 ^ (bits - 1) ≤ n < 2 ^ (bits - 1) → to_signed bits (to_unsigned bits n) = n.
Proof.
  intros Hb Hn. pose proof (pow2_half _ Hb). unfold to_signed, to_unsigned.
  destruct (Z.lt_ge_cases n 0).
  - rewrite <- (Z.mod_unique_pos n (2 ^ bits) (-1) (n + 2 ^ bits)) by lia.
    destruct (Z.ltb_spec (n + 2 ^ bits) (2 ^ (bits - 1))); lia.
  - rewrite Z.mod_small by lia. destruct (Z.ltb_spec n (2 ^ (bits - 1))); lia.
Qed.

Lemma to_unsigned_signed bits n :
  0 < bits → 0 ≤ n < 2 ^ bits → to_unsigned bits (to_signed bits n) = n.
Proof.
  intros Hb Hn. pose proof (pow2_half _ Hb). unfold to_signed, to_unsigned.
  destruct (Z.ltb_spec n (2 ^ (bits - 1))); [by apply Z.mod_small|].
  symmetry. apply Z.mod_unique_pos with (q := -1); lia.
Qed.

(** Filling an integer up to a wider one with copies of its sign keeps its
    signed reading; the arithmetic of it, for low digits [v] below [P], a top
    digit [h] below [2 * A] and [K - 1] as the value of the copies. *)
Lemma signed_extension_arith v h P A K :
  0 ≤ v < P → 0 ≤ h < 2 * A → 1 ≤ K →
  let n := v + P * h in
  let m := n + P * (2 * A) * (if h <? A then 0 else K - 1) in
  (if m <? P * A * K then m else m - P * (2 * A) * K) = (if n <? P * A then n else n - P * (2 * A)).
Proof.
  intros Hv Hh HK n m. subst n m.
  assert (0 < P * A) by nia. assert (0 ≤ P * A * (K - 1)) by nia.
  destruct (Z.ltb_spec h A).
  - assert (P * h ≤ P * (A - 1)) by nia.
    rewrite Z.mul_0_r, Z.add_0_r, !(proj2 (Z.ltb_lt _ _)) by lia. done.
  - assert (P * A ≤ P * h) by nia.
    rewrite !(proj2 (Z.ltb_ge _ _)) by lia. ring.
Qed.

Lemma sign_extend w l h k :
  0 < w → digits w (l ++ [h]) →
  let fill := if Z.land h (2 ^ (w - 1)) =? 0 then 0 else 2 ^ w - 1 in
  to_signed (w * (zlen (l ++ [h]) + Z.of_nat k)) (le_value w ((l ++ [h]) ++ replicate k fill))
  = to_signed (w * zlen (l ++ [h])) (le_value w (l ++ [h])).
Proof.
  intros Hw Hd fill. apply Forall_app in Hd as [Hl Hh].
  apply Forall_inv in Hh. pose proof (le_value_range w l ltac:(lia) Hl) as Hv.
  assert (Hn : zlen (l ++ [h]) = zlen l + 1) by (unfold zlen; rewrite length_app; simpl; lia).
  assert (0 ≤ zlen l) by apply zlen_nonneg.
  assert (Hfill : le_value w (replicate k fill) = if h <? 2 ^ (w - 1) then 0 else 2 ^ (w * Z.of_nat k) - 1).
  { pose proof (land_top_bit w h Hw Hh). subst fill.
    destruct (Z.eqb_spec (Z.land h (2 ^ (w - 1))) 0), (Z.ltb_spec h (2 ^ (w - 1))); try lia.
    - apply le_value_zeros.
    - apply le_value_ones. lia. }
  rewrite le_value_app, Hfill, Hn, (le_value_app w l [h]) by lia.
  simpl (le_value w [h]). rewrite Z.mul_0_r, Z.add_0_r. unfold to_signed.
  assert (H2 : 2 ^ (w * (zlen l + 1)) = 2 ^ (w * zlen l) * (2 * 2 ^ (w - 1)))
    by (rewrite <- pow2_half, <- Z.pow_add_r by nia; f_equal; lia).
  assert (H3 : 2 ^ (w * (zlen l + 1 + Z.of_nat k)) = 2 ^ (w * (zlen l + 1)) * 2 ^ (w * Z.of_nat k))
    by (rewrite <- Z.pow_add_r by nia; f_equal; lia).
  assert (H4 : 2 ^ (w * (zlen l + 1) - 1) = 2 ^ (w * zlen l) * 2 ^ (w - 1))
    by (rewrite <- Z.pow_add_r by nia; f_equal; lia).
  assert (H5 : 2 ^ (w * (zlen l + 1 + Z.of_nat k) - 1)
               = 2 ^ (w * zlen l) * 2 ^ (w - 1) * 2 ^ (w * Z.of_nat k))
    by (rewrite <- H4, <- Z.pow_add_r by nia; f_equal; lia).
  rewrite H5, H3, H4, H2. apply signed_extension_arith; [done| |].
  - by rewrite <- pow2_half.
  - pose proof (Z.pow_pos_nonneg 2 (w * Z.of_nat k)). lia.
Qed.

(** ** Lemmas: text *)
Lemma zlen_as_bytes s : zlen (as_bytes s) = str_len s.
Proof. unfold zlen, str_len, as_bytes. rewrite length_map. f_equal. induction s; simpl; auto. Qed.

Lemma as_bytes_wf s : is_bytes (as_bytes s).
Proof.
  apply Forall_map, Forall_true. intros a. pose proof (Ascii.nat_ascii_bounded a).
  unfold digit. change (2 ^ 8) with 256. lia.
Qed.

Lemma text_of_as_bytes s : text_of (as_bytes s) = s.
Proof.
  unfold text_of, as_bytes, str_of_bytes. rewrite map_map.
  induction s as [|a s IH]; simpl; [done|].
  by rewrite Nat2Z.id, Ascii.ascii_nat_embedding, IH.
Qed.

Lemma as_bytes_text_of bs : is_bytes bs → as_bytes (text_of bs) = bs.
Proof.
  unfold text_of, as_bytes, str_of_bytes. induction 1 as [|b bs Hb _ IH]; simpl; [done|].
  unfold digit in Hb. change (2 ^ 8) with 256 in Hb.
  by rewrite Ascii.nat_ascii_embedding, Z2Nat.id, IH by lia.
Qed.

(** ** Lemmas: parsed integers *)
Lemma in_range_spec lo hi x : in_range lo hi x = true ↔ lo ≤ x ≤ hi.
Proof. unfold in_range. rewrite andb_true_iff, !Z.leb_le. done. Qed.

Lemma parse_int_range lo hi s n : parse_int lo hi s = Some n → lo ≤ n ≤ hi.
Proof.
  unfold parse_int. destruct (match s with EmptyString => _ | String _ _ => _ end) as [m|]; simpl; [|done].
  destruct (in_range lo hi m) eqn:E; [|done]. intros [= <-]. by apply in_range_spec.
Qed.

Lemma parse_unsigned_range bits s n : parse_unsigned bits s = Some n → 0 ≤ n < 2 ^ bits.
Proof. intros ?%parse_int_range. lia. Qed.
Lemma parse_signed_range bits s n :
  parse_signed bits s = Some n → - 2 ^ (bits - 1) ≤ n < 2 ^ (bits - 1).
Proof. intros ?%parse_int_range. lia. Qed.

(** ** Lemmas: plain ASCII text

    Text of characters that are neither white space nor the last byte of an
    encoded white-space character is not changed by trimming. *)
Definition plain (a : Ascii.ascii) : bool := in_range 33 126 (Z.of_nat (Ascii.nat_of_ascii a)).
Definition all_plain (s : string) : Prop := Forall (λ a, plain a = true) (String.list_ascii_of_string s).

Lemma strip_any_plain (ps : list string) a s :
  plain a = true →
  Forall (λ p, match p with EmptyString => False | String b _ => plain b = false end) ps →
  strip_any ps (String a s) = None.
Proof.
  intros Ha. induction 1 as [|p ps Hp Hps IH]; [done|]. unfold strip_any in *. simpl.
  destruct p as [|b p]; [done|]. simpl. destruct (Ascii.eqb_spec b a) as [->|]; [congruence|].
  exact IH.
Qed.

Lemma strip_all_plain ps fuel s :
  Forall (λ p, match p with EmptyString => False | String b _ => plain b = false end) ps →
  match s with EmptyString => True | String a _ => plain a = true end →
  strip_all fuel ps s = s.
Proof.
  intros Hps Hs. destruct fuel as [|fuel]; [done|]. simpl. destruct s as [|a s].
  - destruct (strip_any ps EmptyString) eqn:E; [|done]. exfalso. revert E.
    unfold strip_any. clear Hs. induction Hps as [|p ps Hp Hps IH]; simpl; [done|]. by destruct p.
  - by rewrite strip_any_plain.
Qed.

Lemma list_of_str_rev s : String.list_ascii_of_string (str_rev s) = reverse (String.list_ascii_of_string s).
Proof. unfold str_rev. apply String.list_ascii_of_string_of_list_ascii. Qed.

Lemma str_rev_involutive s : str_rev (str_rev s) = s.
Proof.
  rewrite <- (String.string_of_list_ascii_of_string s) at 2.
  unfold str_rev at 1. by rewrite list_of_str_rev, reverse_involutive.
Qed.

Lemma trim_plain s : all_plain s → trim s = s.
Proof.
  intros Hs. assert (Hhead : ∀ t, all_plain t → match t with EmptyString => True | String a _ => plain a = true end).
  { intros [|a t] Ht; [done|]. by apply Forall_inv in Ht. }
  unfold trim, trim_start, trim_end.
  rewrite (strip_all_plain white_space);
    [|repeat constructor|by apply Hhead].
  rewrite strip_all_plain; [apply str_rev_involutive|repeat constructor|].
  apply Hhead. unfold all_plain. rewrite list_of_str_rev. by apply Forall_reverse.
Qed.

Lemma forallb_plain f s :
  (∀ a, f a = true → plain a = true) →
  forallb f (String.list_ascii_of_string s) = true → all_plain s.
Proof.
  intros Hf. unfold all_plain. induction (String.list_ascii_of_string s) as [|a l IH]; simpl; [constructor|].
  rewrite andb_true_iff. intros [Ha Hl]. constructor; auto.
Qed.

Lemma hexdigit_plain a : is_ascii_hexdigit a = true → plain a = true.
Proof. destruct a as [[] [] [] [] [] [] [] []]; by vm_compute. Qed.
Lemma base58_plain a : is_base58 a = true → plain a = true.
Proof. destruct a as [[] [] [] [] [] [] [] []]; by vm_compute. Qed.
Lemma hexdigit_lower a : is_ascii_hexdigit a = true → is_ascii_hexdigit (ascii_lower a) = true.
Proof. destruct a as [[] [] [] [] [] [] [] []]; by vm_compute. Qed.
Lemma ascii_lower_idemp a : ascii_lower (ascii_lower a) = ascii_lower a.
Proof. destruct a as [[] [] [] [] [] [] [] []]; by vm_compute. Qed.

Lemma plain_utf8 s : all_plain s → utf8_valid (as_bytes s) = true.
Proof.
  unfold all_plain, as_bytes. induction 1 as [|a l Ha _ IH]; [done|]. simpl map. simpl utf8_valid.
  unfold plain in Ha. apply in_range_spec in Ha.
  by rewrite (proj2 (in_range_spec 0 127 _)) by lia.
Qed.

Lemma plain_append s t : all_plain s → all_plain t → all_plain (s +:+ t).
Proof.
  unfold all_plain. induction s as [|c s IH]; simpl; [done|]. intros Hs Ht.
  inversion Hs; subst. constructor; [done|by apply IH].
Qed.

Lemma hex_encode_length `{HexLaws} bs : is_bytes bs → str_len (hex_encode bs) = 2 * zlen bs.
Proof. intros Hb. by apply hex_decode_length, hex_decode_encode. Qed.
