(* ===== verification/ModuleEvents.v ===== *)
(** * Module events and operation correlations

    [src/src/source_routing/operation.rs]: the identities a module call hands
    back, the contract that says which module events settle an operation, the
    dispatch receipt, and the envelope of an incoming module event with the
    facts read from it. *)

From S2P Require Import Prelude Json.

(** ** Identities *)
Definition nonempty_text (value : string) : option string :=
  let value := trim value in
  if is_empty value then None else Some value.

Record ModuleSessionId : Type := mkModuleSessionId { session_str : string }.
Record ModuleRequestId : Type := mkModuleRequestId { request_str : string }.
Record BridgeCallbackId : Type := mkBridgeCallbackId { callback_value : Z }.

Definition ModuleSessionId_parse (value : string) : option ModuleSessionId :=
  mkModuleSessionId <$> nonempty_text value.
Definition ModuleRequestId_parse (value : string) : option ModuleRequestId :=
  mkModuleRequestId <$> nonempty_text value.

Inductive ModuleEventCorrelationKind : Type := KSession | KRequest.
#[export] Instance ModuleEventCorrelationKind_eq_dec : EqDecision ModuleEventCorrelationKind.
Proof. solve_decision. Defined.

Definition correlation_kind_str (k : ModuleEventCorrelationKind) : string :=
  match k with KSession => "module_session" | KRequest => "module_request" end.

Record ModuleCorrelation : Type := mkModuleCorrelation {
  mc_bridge_callback_id : option BridgeCallbackId;
  mc_session_id : option ModuleSessionId;
  mc_request_id : option ModuleRequestId;
}.

Definition with_bridge_callback (c : ModuleCorrelation) (id : BridgeCallbackId) : ModuleCorrelation :=
  mkModuleCorrelation (Some id) (mc_session_id c) (mc_request_id c).
Definition with_session (id : ModuleSessionId) : ModuleCorrelation :=
  mkModuleCorrelation None (Some id) None.
Definition with_request (id : ModuleRequestId) : ModuleCorrelation :=
  mkModuleCorrelation None None (Some id).

Definition identity_for (c : ModuleCorrelation) (k : ModuleEventCorrelationKind) : option string :=
  match k with
  | KSession => session_str <$> mc_session_id c
  | KRequest => request_str <$> mc_request_id c
  end.

(** ** The contract of a terminal event *)
Record ModuleTerminalEventContract : Type := mkContract {
  ct_module : string;
  ct_progress_event : option string;
  ct_success_event : string;
  ct_success_event_alias : option string;
  ct_failure_event : option string;
  ct_correlation : ModuleEventCorrelationKind;
}.

Definition contract_new (module : string) (progress_event : option string)
    (success_event : string) (failure_event : option string)
    (correlation : ModuleEventCorrelationKind) : ModuleTerminalEventContract :=
  mkContract module progress_event success_event None failure_event correlation.

Definition with_success_event_alias (c : ModuleTerminalEventContract) (event : string)
    : ModuleTerminalEventContract :=
  mkContract (ct_module c) (ct_progress_event c) (ct_success_event c) (Some event)
    (ct_failure_event c) (ct_correlation c).

(** ** The event envelope *)
Record ModuleEventEnvelope : Type := mkEnvelope {
  me_module_name : string;
  me_event_name : string;
  me_args : list Value;
  me_first_payload : Value;
}.

Definition opt_str_eqb (o : option string) (s : string) : bool :=
  match o with Some t => String.eqb t s | None => false end.

Definition recognizes (c : ModuleTerminalEventContract) (e : ModuleEventEnvelope) : bool :=
  String.eqb (ct_module c) (me_module_name e)
  && (opt_str_eqb (ct_progress_event c) (me_event_name e)
      || String.eqb (ct_success_event c) (me_event_name e)
      || opt_str_eqb (ct_success_event_alias c) (me_event_name e)
      || opt_str_eqb (ct_failure_event c) (me_event_name e)).

Definition value_text (v : Value) : option string := as_str v ≫= nonempty_text.

(** The first of [keys] for which the lookup followed by [f] succeeds. *)
Fixpoint find_map_keys {A} (keys : list string) (m : Map) (f : Value → option A) : option A :=
  match keys with
  | [] => None
  | k :: keys' =>
      match map_get k m ≫= f with
      | Some a => Some a
      | None => find_map_keys keys' m f
      end
  end.

Definition object_text (m : Map) (keys : list string) : option string :=
  find_map_keys keys m value_text.

Definition role_id {A} (v : Value) (keys : list string) (parse : string → option A) : option A :=
  match as_str v with
  | Some text => parse text
  | None =>
      m ← as_object v;
      find_map_keys keys m (λ v, as_str v ≫= parse)
  end.

Definition required_object_text (m : Map) (key label : string) : Result string :=
  ok_or ("runtime module event " +:+ label +:+ " is required")
    ((map_get key m ≫= as_str) ≫= nonempty_text).

Section envelope.
Context `{SerdeJson}.

Definition parsed_value (v : Value) : Value :=
  match v with
  | VString text =>
      let text := trim text in
      let structured :=
        (starts_with "{" text && ends_with "}" text)
        || (starts_with "[" text && ends_with "]" text) in
      if structured then default v (from_str text) else v
  | _ => v
  end.

Definition envelope_new (module_name event_name : string) (args : list Value)
    : Result ModuleEventEnvelope :=
  module_name ← ok_or "runtime module event module name is required" (nonempty_text module_name);
  event_name ← ok_or "runtime module event event name is required" (nonempty_text event_name);
  let first_payload := match args with [] => VNull | v :: _ => parsed_value v end in
  Ok (mkEnvelope module_name event_name args first_payload).

Definition envelope_from_value (v : Value) : Result ModuleEventEnvelope :=
  object ← ok_or "runtime module event must be an object" (as_object v);
  module_name ← required_object_text object "moduleName" "module name";
  event_name ← required_object_text object "eventName" "event name";
  let args :=
    match map_get "args" object with
    | Some (VArray values) => values
    | Some VNull | None => []
    | Some value => [value]
    end in
  envelope_new module_name event_name args.

(** The byte counter the tuple is serialized into fails past [usize::MAX]. *)
Definition retained_serialized_bytes (e : ModuleEventEnvelope) : Result Z :=
  let bytes := str_len (to_string
    (VArray [VString (me_module_name e); VString (me_event_name e);
             VArray (me_args e); me_first_payload e])) in
  if bytes <=? usize_max then Ok bytes
  else bail "failed to measure runtime module event: serialized module event byte count overflow".

Definition event_result (e : ModuleEventEnvelope) : Value :=
  match me_args e with
  | [] => VNull
  | [_] => me_first_payload e
  | values => VArray (map parsed_value values)
  end.
End envelope.

Definition object_payload (e : ModuleEventEnvelope) : option Map := as_object (me_first_payload e).

Definition correlation_value (e : ModuleEventEnvelope) (k : ModuleEventCorrelationKind) : option string :=
  match k with
  | KSession => m ← object_payload e; object_text m ["sessionId"; "session_id"]
  | KRequest =>
      match (m ← object_payload e; object_text m ["requestId"; "request_id"]) with
      | Some t => Some t
      | None => head (me_args e) ≫= value_text
      end
  end.

Definition event_failed (e : ModuleEventEnvelope) (c : ModuleTerminalEventContract) : bool :=
  if opt_str_eqb (ct_failure_event c) (me_event_name e) then true
  else match object_payload e with
       | None => false
       | Some m =>
           match map_get "success" m ≫= as_bool with Some false => true | _ => false end
           || match map_get "error" m ≫= value_text with
              | Some error => negb (is_empty error)
              | None => false
              end
       end.

Definition event_error (e : ModuleEventEnvelope) : option string :=
  match
    match (m ← object_payload e; map_get "error" m ≫= value_text) with
    | Some t => Some t
    | None => me_args e !! 2%nat ≫= value_text
    end
  with
  | Some error => if is_empty error then None else Some error
  | None => None
  end.

Definition event_progress (e : ModuleEventEnvelope) : option Z * option Z :=
  match object_payload e with
  | None => (None, None)
  | Some m =>
      (get_first ["bytes"; "byteCount"; "byte_count"] m ≫= as_u64,
       get_first ["totalBytes"; "total_bytes"; "contentLength"; "content_length"] m ≫= as_u64)
  end.

(** The byte counts read from an event are [u64]s. *)
Lemma event_progress_range e bytes content_length :
  event_progress e = (bytes, content_length) →
  (∀ n, bytes = Some n → in_u64 n) ∧ (∀ n, content_length = Some n → in_u64 n).
Proof.
  unfold event_progress. destruct (object_payload e); intros [= <- <-]; [|done].
  split; intros n (v & _ & Hv)%bind_Some; by eapply as_u64_range.
Qed.

(** ** Dispatch receipts *)
Inductive ModuleDispatchIdentityRole : Type := RoleNone | RoleSession | RoleRequest.

Inductive ModuleDispatchIdentity : Type :=
  | IdentityNone
  | IdentitySession (id : option ModuleSessionId)
  | IdentityRequest (id : option ModuleRequestId).

Record ModuleDispatchReceipt : Type := mkReceipt {
  rc_acknowledgement : Value;
  rc_identity : ModuleDispatchIdentity;
  rc_bridge_callback_id : option BridgeCallbackId;
}.

Definition receipt_new (acknowledgement raw_value : Value) (role : ModuleDispatchIdentityRole)
    : ModuleDispatchReceipt :=
  let identity :=
    match role with
    | RoleNone => IdentityNone
    | RoleSession =>
        IdentitySession (role_id raw_value ["sessionId"; "session_id"] ModuleSessionId_parse)
    | RoleRequest =>
        IdentityRequest (role_id raw_value ["requestId"; "request_id"] ModuleRequestId_parse)
    end in
  let acknowledgement :=
    match acknowledgement, identity with
    | VObject m, IdentitySession (Some id) =>
        VObject (map_insert "sessionId" (VString (session_str id)) m)
    | VObject m, IdentityRequest (Some id) =>
        VObject (map_insert "requestId" (VString (request_str id)) m)
    | _, _ => acknowledgement
    end in
  mkReceipt acknowledgement identity None.

Definition receipt_with_bridge_callback (r : ModuleDispatchReceipt) (id : BridgeCallbackId)
    : ModuleDispatchReceipt :=
  mkReceipt
    (match rc_acknowledgement r with
     | VObject m => VObject (map_insert "bridgeCallbackId" (json_u64 (callback_value id)) m)
     | v => v
     end)
    (rc_identity r) (Some id).

Definition attach_bridge_callback (r : ModuleDispatchReceipt) (c : ModuleCorrelation)
    : ModuleCorrelation :=
  match rc_bridge_callback_id r with
  | Some id => with_bridge_callback c id
  | None => c
  end.

Definition session_correlation (r : ModuleDispatchReceipt) : option ModuleCorrelation :=
  match rc_identity r with
  | IdentitySession (Some id) => Some (attach_bridge_callback r (with_session id))
  | _ => None
  end.

Definition request_correlation (r : ModuleDispatchReceipt) : option ModuleCorrelation :=
  match rc_identity r with
  | IdentityRequest (Some id) => Some (attach_bridge_callback r (with_request id))
  | _ => None
  end.

Record ObservableOperationAcceptance : Type := mkAcceptance {
  ac_acknowledgement : Value;
  ac_correlation : ModuleCorrelation;
  ac_terminal_event : ModuleTerminalEventContract;
}.

(** [NodeOperationOutcome], and [RuntimeOperationOutcome] with the same
    constructors: [From] maps each to itself. *)
Inductive NodeOperationOutcome : Type :=
  | NodeCompleted (result : Value)
  | NodeAccepted (acceptance : ObservableOperationAcceptance)
  | NodeDispatched (acknowledgement : Value).

Inductive RuntimeOperationOutcome : Type :=
  | Completed (result : Value)
  | Accepted (acceptance : ObservableOperationAcceptance)
  | Dispatched (acknowledgement : Value).

Definition outcome_from_node (o : NodeOperationOutcome) : RuntimeOperationOutcome :=
  match o with
  | NodeCompleted r => Completed r
  | NodeAccepted a => Accepted a
  | NodeDispatched a => Dispatched a
  end.

(** ** Receipts and events agree on identities *)
Lemma find_map_keys_fmap {A B} (g : A → B) keys m (f : Value → option A) (h : Value → option B) :
  (∀ v, h v = g <$> f v) → find_map_keys keys m h = g <$> find_map_keys keys m f.
Proof.
  intros Hh. induction keys as [|k keys IH]; simpl; [done|].
  destruct (map_get k m) as [v|]; simpl; [|done]. rewrite Hh. by destruct (f v).
Qed.

(** The role a receipt must be asked for, its correlation and the key of the
    acknowledgement, for each correlation kind. *)
Definition role_of (k : ModuleEventCorrelationKind) : ModuleDispatchIdentityRole :=
  match k with KSession => RoleSession | KRequest => RoleRequest end.
Definition receipt_correlation (r : ModuleDispatchReceipt) (k : ModuleEventCorrelationKind)
    : option ModuleCorrelation :=
  match k with KSession => session_correlation r | KRequest => request_correlation r end.
Definition acknowledgement_key (k : ModuleEventCorrelationKind) : string :=
  match k with KSession => "sessionId" | KRequest => "requestId" end.

Lemma role_id_identity k m :
  receipt_correlation (receipt_new VNull (VObject m) (role_of k)) k ≫= (λ c, identity_for c k)
  = object_text m (match k with
                   | KSession => ["sessionId"; "session_id"]
                   | KRequest => ["requestId"; "request_id"]
                   end).
Proof.
  unfold object_text. destruct k; cbn [receipt_correlation role_of identity_for].
  - unfold session_correlation, receipt_new, role_id. cbn [as_str as_object mbind option_bind rc_identity].
    rewrite (find_map_keys_fmap mkModuleSessionId _ _ value_text)
      by (intros []; try done; unfold value_text; simpl; unfold ModuleSessionId_parse; done).
    by destruct (find_map_keys ["sessionId"; "session_id"] m value_text).
  - unfold request_correlation, receipt_new, role_id. cbn [as_str as_object mbind option_bind rc_identity].
    rewrite (find_map_keys_fmap mkModuleRequestId _ _ value_text)
      by (intros []; try done; unfold value_text; simpl; unfold ModuleRequestId_parse; done).
    by destruct (find_map_keys ["requestId"; "request_id"] m value_text).
Qed.

(** A dispatch receipt and the module's later event name the same identity:
    when the module answers a dispatch with an object, the correlation the
    receipt registers is the one an event with that payload is matched by, the
    acknowledgement carries it and is otherwise unchanged. *)
Theorem dispatch_identity_matches_event k a m e :
  me_first_payload e = VObject m → head (me_args e) ≫= value_text = None →
  let r := receipt_new (VObject a) (VObject m) (role_of k) in
  (receipt_correlation r k ≫= λ c, identity_for c k) = correlation_value e k
  ∧ (∀ key, value_get key (rc_acknowledgement r)
       = match correlation_value e k with
         | Some id => if decide (key = acknowledgement_key k) then Some (VString id) else map_get key a
         | None => map_get key a
         end).
Proof.
  intros Hp Ha r.
  assert (Hid : (receipt_correlation r k ≫= λ c, identity_for c k) = correlation_value e k).
  { transitivity (receipt_correlation (receipt_new VNull (VObject m) (role_of k)) k
                    ≫= λ c, identity_for c k); [by destruct k|].
    rewrite role_id_identity. unfold correlation_value, object_payload. rewrite Hp.
    destruct k; simpl; [done|]. by destruct (object_text m ["requestId"; "request_id"]). }
  split; [done|]. intros key. rewrite <- Hid. clear. subst r. destruct k; simpl.
  - unfold session_correlation, receipt_new. cbn [rc_identity rc_acknowledgement role_of].
    destruct (role_id _ _ ModuleSessionId_parse) as [id|]; simpl; [apply map_get_insert|done].
  - unfold request_correlation, receipt_new. cbn [rc_identity rc_acknowledgement role_of].
    destruct (role_id _ _ ModuleRequestId_parse) as [id|]; simpl; [apply map_get_insert|done].
Qed.
