(* ===== verification/OperationRecord.v ===== *)
(** * Runtime operation records and their event log

    [src/src/inspector/commands/operations/identity.rs], [policy.rs] and the
    record half of [record.rs]: the operation a client started, the bounded log
    of events it is polled through, and [push_runtime_operation_event_locked],
    the only function that appends to the log. *)

From S2P Require Import Prelude Json ModuleEvents.

(** ** Identities ([identity.rs]) *)
Abbreviation RuntimeOperationId := string (only parsing).
Definition ClientRequestId : Type := string.
Definition EventCursor : Type := Z.

Definition RuntimeOperationId_parse (value : string) : Result RuntimeOperationId :=
  let value := trim value in
  if is_empty value then bail "runtime operation id is required" else Ok value.

Definition RuntimeOperationId_allocated (domain method : string) (sequence : Z) : RuntimeOperationId :=
  domain +:+ "-" +:+ method +:+ "-" +:+ pretty sequence.

Definition ClientRequestId_parse (value : string) : Result ClientRequestId :=
  let value := trim value in
  if is_empty value then bail "client request id cannot be empty" else Ok value.

Definition EventCursor_next (c : EventCursor) : Result EventCursor :=
  ok_or "runtime operation event cursor is exhausted" (checked_add c 1).

(** [fetch_update] on the counter: the previous value is returned and the
    counter advances, or neither happens. *)
Definition allocate_sequence (counter : Z) : Result Z * Z :=
  match checked_add counter 1 with
  | Some next => (Ok counter, next)
  | None => (bail "runtime operation id space is exhausted", counter)
  end.

(** ** Operation definitions ([spec.rs]) as far as a record keeps them *)
Inductive OperationExclusiveGroup : Type := GDownload | GRemove | GUpload.
#[export] Instance OperationExclusiveGroup_eq_dec : EqDecision OperationExclusiveGroup.
Proof. solve_decision. Defined.

Inductive OperationClass : Type :=
  | Destructive | Lifecycle | Mutating | ReadPoll | SigningSubmission.

Definition class_str (c : OperationClass) : string :=
  match c with
  | Destructive => "destructive"
  | Lifecycle => "lifecycle"
  | Mutating => "mutating"
  | ReadPoll => "read_poll"
  | SigningSubmission => "signing_submission"
  end.

Inductive RestartPolicy : Type := ManualRequired | SafeReadPolling.

Definition restart_policy_str (p : RestartPolicy) : string :=
  match p with
  | ManualRequired => "manual_required"
  | SafeReadPolling => "safe_read_polling"
  end.

Inductive AffectedContextKey : Type :=
  | KeySource | KeyEndpoint | KeyCid | KeyPath | KeyFilename | KeyBackupCatalogId
  | KeyDownloadScope | KeySlotRange | KeyBlockId | KeyTransactionId.

Inductive ContextPresence : Type := Required | Optional.

Record AffectedContextField : Type := mkContextField {
  cf_key : AffectedContextKey;
  cf_presence : ContextPresence;
}.

Record OperationPolicyDefinition : Type := mkPolicyDefinition {
  pd_class : OperationClass;
  pd_affected_context_fields : list AffectedContextField;
  pd_restart_policy : RestartPolicy;
  pd_confirmation_required : bool;
}.

Definition policy_definition_new (class : OperationClass) : OperationPolicyDefinition :=
  let '(restart_policy, confirmation_required) :=
    match class with
    | ReadPoll => (SafeReadPolling, false)
    | Destructive | Lifecycle | Mutating | SigningSubmission => (ManualRequired, true)
    end in
  mkPolicyDefinition class [] restart_policy confirmation_required.

Definition context_key_str (k : AffectedContextKey) : string :=
  match k with
  | KeySource => "source"
  | KeyEndpoint => "endpoint"
  | KeyCid => "cid"
  | KeyPath => "path"
  | KeyFilename => "filename"
  | KeyBackupCatalogId => "backupCatalogId"
  | KeyDownloadScope => "downloadScope"
  | KeySlotRange => "slotRange"
  | KeyBlockId => "blockId"
  | KeyTransactionId => "transactionId"
  end.

(** ** What a record needs from a request ([request.rs])

    The record is built from these observations of the typed request and keeps
    the request itself only to restart the operation. *)
Class OperationRequest (Request : Type) : Type := {
  req_client_request_id : Request → option ClientRequestId;
  req_domain_name : Request → string;
  req_method_name : Request → string;
  req_label : Request → string;
  req_cancellable : Request → bool;
  req_exclusive_group : Request → option OperationExclusiveGroup;
  req_policy_definition : Request → OperationPolicyDefinition;
  req_backend : Request → string;
  req_pending_module : Request → option string;
  req_context : Request → Result Value;
}.

(** ** Policy facts ([policy.rs]) *)
Record AffectedInput : Type := mkAffectedInput { ai_key : string; ai_value : string }.

Record RuntimeOperationPolicy : Type := mkPolicy {
  pol_class : OperationClass;
  pol_affected_inputs : list AffectedInput;
  pol_restart_policy : RestartPolicy;
  pol_confirmation_required : bool;
}.

Definition push_input (inputs : list AffectedInput) (key value : string) : list AffectedInput :=
  let trimmed := trim value in
  if is_empty trimmed then inputs else inputs ++ [mkAffectedInput key trimmed].

Fixpoint affected_context_inputs (ctx : Map) (fields : list AffectedContextField)
    (inputs : list AffectedInput) : Result (list AffectedInput) :=
  match fields with
  | [] => Ok inputs
  | field :: fields' =>
      let key := context_key_str (cf_key field) in
      match map_get key ctx with
      | None =>
          match cf_presence field with
          | Optional => affected_context_inputs ctx fields' inputs
          | Required =>
              bail ("runtime operation context is missing required affected input `"
                    +:+ key +:+ "`")
          end
      | Some value =>
          value ← ok_or ("runtime operation affected input `" +:+ key +:+ "` must be a string")
                        (as_str value);
          if is_empty (trim value)
          then bail ("runtime operation affected input `" +:+ key +:+ "` must not be empty")
          else affected_context_inputs ctx fields' (push_input inputs key value)
      end
  end.

Definition affected_inputs (domain_name method_name : string) (ctx : Value)
    (fields : list AffectedContextField) : Result (list AffectedInput) :=
  let inputs := push_input (push_input [] "domain" domain_name) "method" method_name in
  ctx ← ok_or "runtime operation context must be a JSON object" (as_object ctx);
  affected_context_inputs ctx fields inputs.

Definition policy_from_request `{OperationRequest Request} (request : Request) (ctx : Value)
    : Result RuntimeOperationPolicy :=
  let definition := req_policy_definition request in
  inputs ← affected_inputs (req_domain_name request) (req_method_name request) ctx
             (pd_affected_context_fields definition);
  Ok (mkPolicy (pd_class definition) inputs (pd_restart_policy definition)
        (pd_confirmation_required definition)).

Definition affected_input_value (i : AffectedInput) : Value :=
  json_object [("key", VString (ai_key i)); ("value", VString (ai_value i))].

Definition policy_value (p : RuntimeOperationPolicy) : Value :=
  json_object [
    ("operationClass", VString (class_str (pol_class p)));
    ("affectedInputs", VArray (map affected_input_value (pol_affected_inputs p)));
    ("restartPolicy", VString (restart_policy_str (pol_restart_policy p)));
    ("confirmationRequired", VBool (pol_confirmation_required p));
    ("provenance", VArray [VString "runtime_operation_policy"])].

Definition safe_to_restart (p : RuntimeOperationPolicy) : bool :=
  match pol_restart_policy p with SafeReadPolling => true | ManualRequired => false end.

(** ** Operations, events and records ([record.rs]) *)
Inductive RuntimeOperationStatus : Type :=
  | StRunning | StAwaitingExternal | StCanceling | StCompleted | StDispatched
  | StFailed | StCanceled | StTimedOut.
#[export] Instance RuntimeOperationStatus_eq_dec : EqDecision RuntimeOperationStatus.
Proof. solve_decision. Defined.

Definition status_str (s : RuntimeOperationStatus) : string :=
  match s with
  | StRunning => "running"
  | StAwaitingExternal => "awaiting_external"
  | StCanceling => "canceling"
  | StCompleted => "completed"
  | StDispatched => "dispatched"
  | StFailed => "failed"
  | StCanceled => "canceled"
  | StTimedOut => "timed_out"
  end.

Definition is_terminal (s : RuntimeOperationStatus) : bool :=
  match s with
  | StCompleted | StDispatched | StFailed | StCanceled | StTimedOut => true
  | StRunning | StAwaitingExternal | StCanceling => false
  end.

Inductive RuntimeOperationEventClass : Type := ClassProgress | ClassTerminal | ClassEvidence.
#[export] Instance RuntimeOperationEventClass_eq_dec : EqDecision RuntimeOperationEventClass.
Proof. solve_decision. Defined.

(** A reading of the monotonic clock, in nanoseconds. *)
Definition Instant : Type := Z.

Record RuntimeOperation : Type := mkOperation {
  op_operation_id : RuntimeOperationId;
  op_client_request_id : option ClientRequestId;
  op_bridge_callback_id : option BridgeCallbackId;
  op_module_session_id : option ModuleSessionId;
  op_module_request_id : option ModuleRequestId;
  op_terminal_event : option ModuleTerminalEventContract;
  op_event_cursor : EventCursor;
  op_domain : string;
  op_backend : string;
  op_method : string;
  op_status : RuntimeOperationStatus;
  op_label : string;
  op_policy : RuntimeOperationPolicy;
  op_context : Value;
  op_acknowledgement : option Value;
  op_progress : option f64;
  op_bytes_written : Z;
  op_content_length : option Z;
  op_result : option Value;
  op_error : option string;
  op_terminal_reason : option string;
  op_cancellable : bool;
  op_exclusive_group : option OperationExclusiveGroup;
  op_started_at : Z;
  op_updated_at : Z;
}.

#[export] Instance RuntimeOperation_eta : Eta RuntimeOperation := λ o,
  mkOperation (op_operation_id o) (op_client_request_id o) (op_bridge_callback_id o)
    (op_module_session_id o) (op_module_request_id o) (op_terminal_event o)
    (op_event_cursor o) (op_domain o) (op_backend o) (op_method o) (op_status o)
    (op_label o) (op_policy o) (op_context o) (op_acknowledgement o) (op_progress o)
    (op_bytes_written o) (op_content_length o) (op_result o) (op_error o)
    (op_terminal_reason o) (op_cancellable o) (op_exclusive_group o)
    (op_started_at o) (op_updated_at o).

Record RuntimeOperationEvent : Type := mkEvent {
  ev_cursor : EventCursor;
  ev_operation_id : RuntimeOperationId;
  ev_client_request_id : option ClientRequestId;
  ev_bridge_callback_id : option BridgeCallbackId;
  ev_module_session_id : option ModuleSessionId;
  ev_module_request_id : option ModuleRequestId;
  ev_domain : string;
  ev_method : string;
  ev_phase : string;
  ev_message : string;
  ev_progress : option f64;
  ev_result : option Value;
  ev_error : option string;
  ev_timestamp : Z;
  ev_class : RuntimeOperationEventClass;
  ev_redacted_payload_bytes : Z;
  ev_serialized_bytes : Z;
}.

#[export] Instance RuntimeOperationEvent_eta : Eta RuntimeOperationEvent := λ e,
  mkEvent (ev_cursor e) (ev_operation_id e) (ev_client_request_id e)
    (ev_bridge_callback_id e) (ev_module_session_id e) (ev_module_request_id e)
    (ev_domain e) (ev_method e) (ev_phase e) (ev_message e) (ev_progress e)
    (ev_result e) (ev_error e) (ev_timestamp e) (ev_class e)
    (ev_redacted_payload_bytes e) (ev_serialized_bytes e).

Record RuntimeOperationRecord (Request : Type) : Type := mkRecord {
  rec_operation : RuntimeOperation;
  rec_restart_request : option Request;
  rec_events : list RuntimeOperationEvent;
  rec_pending_module_name : option string;
  rec_next_event_cursor : EventCursor;
  rec_retained_event_bytes : Z;
  rec_dropped_event_count : Z;
  rec_coalesced_event_count : Z;
  rec_history_truncated : bool;
  rec_terminal_at : option Z;
  rec_terminal_expires_at : option Instant;
  rec_retained_terminal_payload_bytes : Z;
  rec_result_purged : bool;
  rec_acknowledgement_purged : bool;
  rec_error_redacted_bytes : Z;
}.
Arguments mkRecord {Request} _ _ _ _ _ _ _ _ _ _ _ _ _ _ _.
Arguments rec_operation {Request} _.
Arguments rec_restart_request {Request} _.
Arguments rec_events {Request} _.
Arguments rec_pending_module_name {Request} _.
Arguments rec_next_event_cursor {Request} _.
Arguments rec_retained_event_bytes {Request} _.
Arguments rec_dropped_event_count {Request} _.
Arguments rec_coalesced_event_count {Request} _.
Arguments rec_history_truncated {Request} _.
Arguments rec_terminal_at {Request} _.
Arguments rec_terminal_expires_at {Request} _.
Arguments rec_retained_terminal_payload_bytes {Request} _.
Arguments rec_result_purged {Request} _.
Arguments rec_acknowledgement_purged {Request} _.
Arguments rec_error_redacted_bytes {Request} _.

#[export] Instance RuntimeOperationRecord_eta Request : Eta (RuntimeOperationRecord Request) := λ r,
  mkRecord (rec_operation r) (rec_restart_request r) (rec_events r)
    (rec_pending_module_name r) (rec_next_event_cursor r) (rec_retained_event_bytes r)
    (rec_dropped_event_count r) (rec_coalesced_event_count r) (rec_history_truncated r)
    (rec_terminal_at r) (rec_terminal_expires_at r)
    (rec_retained_terminal_payload_bytes r) (rec_result_purged r)
    (rec_acknowledgement_purged r) (rec_error_redacted_bytes r).

Definition MAX_RETAINED_EVENTS_PER_OPERATION : Z := 256.
Definition MAX_RETAINED_EVENT_BYTES_PER_OPERATION : Z := 256 * 1024.
Definition MAX_INLINE_EVENT_PAYLOAD_BYTES : Z := 16 * 1024.
Definition PROGRESS_COALESCE_INTERVAL_MILLIS : Z := 250.
Definition PROGRESS_COALESCE_DELTA : f64 := f64_hundredth.
Definition MAX_WIRE_EVENT_CURSOR : Z := 9007199254740991.

(** ** Event classes, locations and bounds *)
Definition runtime_operation_event_class (phase : string) : RuntimeOperationEventClass :=
  if bool_decide (phase ∈ ["progress"; "external_progress"]) then ClassProgress
  else if bool_decide (phase ∈ ["completed"; "external_completion"; "external_failure";
                                "dispatched"; "failed"; "canceled"; "timed_out"])
  then ClassTerminal
  else ClassEvidence.

Definition event_payload_location (phase : string) : option string :=
  if bool_decide (phase ∈ ["accepted"; "dispatched"]) then Some "operation.acknowledgement"
  else if bool_decide (phase ∈ ["completed"; "external_completion"]) then Some "operation.result"
  else if bool_decide (phase ∈ ["failed"; "external_failure"; "canceled"; "timed_out"])
  then Some "operation.error"
  else None.

Definition checked_next_event_cursor (cursor : EventCursor) : Result EventCursor :=
  next ← EventCursor_next cursor;
  if MAX_WIRE_EVENT_CURSOR <? next
  then bail "runtime operation event cursor exceeds JavaScript safe integer range"
  else Ok next.

Definition increment_wire_counter (value : Z) : Z :=
  Z.min (saturating_add value 1) MAX_WIRE_EVENT_CURSOR.

Definition should_coalesce_progress (previous : RuntimeOperationEvent) (progress : option f64)
    (timestamp : Z) : bool :=
  if bool_decide (ev_class previous = ClassProgress) then
    let elapsed := saturating_sub timestamp (ev_timestamp previous) in
    let delta :=
      match ev_progress previous, progress with
      | Some previous, Some current => SFabs (f64_sub current previous)
      | None, None => f64_zero
      | Some _, None | None, Some _ => S754_infinity false
      end in
    (elapsed <? PROGRESS_COALESCE_INTERVAL_MILLIS) && SFltb delta PROGRESS_COALESCE_DELTA
  else false.

Definition operation_progress (bytes_written : Z) (content_length : option Z) : option f64 :=
  match content_length with
  | Some total =>
      if 0 <? total
      then Some (f64_min (f64_div (f64_of_Z bytes_written) (f64_of_Z total)) f64_one)
      else None
  | None => None
  end.

Definition monotonic_progress (previous candidate : option f64) : option f64 :=
  match previous, candidate with
  | Some previous, Some candidate => Some (f64_max previous candidate)
  | Some previous, None => Some previous
  | None, candidate => candidate
  end.

Definition runtime_operation_event_value (e : RuntimeOperationEvent) : Value :=
  json_object [
    ("seq", json_u64 (ev_cursor e));
    ("eventCursor", json_u64 (ev_cursor e));
    ("operationId", VString (ev_operation_id e));
    ("clientRequestId", json_option VString (ev_client_request_id e));
    ("bridgeCallbackId", json_option (λ i, json_u64 (callback_value i)) (ev_bridge_callback_id e));
    ("moduleSessionId", json_option (λ i, VString (session_str i)) (ev_module_session_id e));
    ("moduleRequestId", json_option (λ i, VString (request_str i)) (ev_module_request_id e));
    ("externalCorrelation", VNull);
    ("externalSessionId", json_option (λ i, VString (session_str i)) (ev_module_session_id e));
    ("requestId", json_option (λ i, VString (request_str i)) (ev_module_request_id e));
    ("domain", VString (ev_domain e));
    ("method", VString (ev_method e));
    ("phase", VString (ev_phase e));
    ("message", VString (ev_message e));
    ("payloadLocation", json_option VString (event_payload_location (ev_phase e)));
    ("progress", json_option json_f64 (ev_progress e));
    ("result", json_option id (ev_result e));
    ("error", json_option VString (ev_error e));
    ("timestamp", json_u64 (ev_timestamp e));
    ("payloadRedacted", VBool (0 <? ev_redacted_payload_bytes e));
    ("redactedPayloadBytes", json_u64 (ev_redacted_payload_bytes e))].

(** [bounded_inline_event_error] and [bounded_terminal_operation_error] differ
    only in the text that replaces an oversized message. *)
Definition bounded_inline_event_error (error : option string) : option string * Z :=
  match error with
  | None => (None, 0)
  | Some error =>
      let bytes := str_len error in
      if bytes <=? MAX_INLINE_EVENT_PAYLOAD_BYTES then (Some error, 0)
      else (Some ("runtime operation evidence redacted: " +:+ pretty bytes +:+
                  " bytes exceeded " +:+ pretty MAX_INLINE_EVENT_PAYLOAD_BYTES +:+
                  "-byte inline limit"), bytes)
  end.

Definition bounded_terminal_operation_error (error : option string) : option string * Z :=
  match error with
  | None => (None, 0)
  | Some error =>
      let bytes := str_len error in
      if bytes <=? MAX_INLINE_EVENT_PAYLOAD_BYTES then (Some error, 0)
      else (Some ("runtime operation error redacted: " +:+ pretty bytes +:+
                  " bytes exceeded " +:+ pretty MAX_INLINE_EVENT_PAYLOAD_BYTES +:+
                  "-byte retained limit"), bytes)
  end.

Section event_log.
Context `{SerdeJson} {Request : Type}.
Abbreviation Record_ := (RuntimeOperationRecord Request).

Definition serialized_value_bytes (v : Value) : Z := str_len (to_string v).

Definition bounded_inline_event_result (result : option Value) (payload_location : string)
    : option Value * Z :=
  match result with
  | None => (None, 0)
  | Some result =>
      let bytes := serialized_value_bytes result in
      if bytes <=? MAX_INLINE_EVENT_PAYLOAD_BYTES then (Some result, 0)
      else (Some (json_object [
              ("redacted", VBool true);
              ("reason", VString "inline_payload_limit");
              ("originalBytes", json_u64 bytes);
              ("limitBytes", json_u64 MAX_INLINE_EVENT_PAYLOAD_BYTES);
              ("payloadLocation", VString payload_location)]), bytes)
  end.

Definition serialized_event_bytes (e : RuntimeOperationEvent) : Z :=
  str_len (to_string (runtime_operation_event_value e)).

Definition finalize_event_size (e : RuntimeOperationEvent) : Result RuntimeOperationEvent :=
  let e := e <| ev_serialized_bytes := serialized_event_bytes e |> in
  if ev_serialized_bytes e <=? MAX_RETAINED_EVENT_BYTES_PER_OPERATION then Ok e
  else
    let original_bytes := ev_serialized_bytes e in
    let e := e <| ev_client_request_id := None |> <| ev_bridge_callback_id := None |>
               <| ev_module_session_id := None |> <| ev_module_request_id := None |>
               <| ev_result := Some (json_object [
                    ("redacted", VBool true);
                    ("reason", VString "event_metadata_limit");
                    ("originalBytes", json_u64 original_bytes);
                    ("limitBytes", json_u64 MAX_RETAINED_EVENT_BYTES_PER_OPERATION);
                    ("payloadLocation", VString
                       (default "event.metadata" (event_payload_location (ev_phase e))))]) |>
               <| ev_error := None |>
               <| ev_redacted_payload_bytes ::= λ b, saturating_add b original_bytes |> in
    let e := e <| ev_serialized_bytes := serialized_event_bytes e |> in
    if MAX_RETAINED_EVENT_BYTES_PER_OPERATION <? ev_serialized_bytes e
    then bail "runtime operation event metadata exceeds retained byte limit"
    else Ok e.

(** The eviction loop: structural, since every iteration drops the oldest
    event or breaks. *)
Fixpoint evict_events (events : list RuntimeOperationEvent) (r : Record_) : Record_ :=
  if (MAX_RETAINED_EVENTS_PER_OPERATION <? zlen events)
     || (MAX_RETAINED_EVENT_BYTES_PER_OPERATION <? rec_retained_event_bytes r)
  then
    match events with
    | [] => r
    | removed :: events' =>
        evict_events events'
          (r <| rec_events := events' |>
             <| rec_retained_event_bytes ::= λ b, saturating_sub b (ev_serialized_bytes removed) |>
             <| rec_dropped_event_count ::= increment_wire_counter |>
             <| rec_history_truncated := true |>)
    end
  else r.
Definition enforce_event_retention (r : Record_) : Record_ := evict_events (rec_events r) r.

Definition push_runtime_operation_event_locked (phase message : string)
    (progress : option f64) (result : option Value) (error : option string) : M Record_ () :=
  now ← now_millis;
  record ← get;
  let operation := rec_operation record in
  let timestamp := Z.max now (op_updated_at operation) in
  let progress :=
    (λ candidate, match op_progress operation with
                  | None => candidate
                  | Some previous => f64_max previous candidate
                  end) <$> progress in
  let class := runtime_operation_event_class phase in
  if bool_decide (class = ClassEvidence) && is_terminal (op_status operation)
     && existsb (λ e, bool_decide (ev_class e = ClassTerminal)) (rec_events record)
  then
    put (record <| rec_operation ::= λ o, o <| op_updated_at := timestamp |> |>
                <| rec_dropped_event_count ::= increment_wire_counter |>
                <| rec_history_truncated := true |>)
  else if bool_decide (class = ClassProgress)
     && match last (rec_events record) with
        | Some previous => should_coalesce_progress previous progress timestamp
        | None => false
        end
  then
    put (record <| rec_operation ::= λ o,
                     (match progress with Some v => o <| op_progress := Some v |> | None => o end)
                     <| op_updated_at := timestamp |> |>
                <| rec_coalesced_event_count ::= increment_wire_counter |>
                <| rec_history_truncated := true |>)
  else
    let '(result, result_redacted_bytes) :=
      bounded_inline_event_result result (default "event.result" (event_payload_location phase)) in
    let '(error, error_redacted_bytes) := bounded_inline_event_error error in
    let redacted_payload_bytes := saturating_add result_redacted_bytes error_redacted_bytes in
    let cursor := rec_next_event_cursor record in
    next_event_cursor ← lift (checked_next_event_cursor cursor);
    event ← lift (finalize_event_size
      (mkEvent cursor (op_operation_id operation) (op_client_request_id operation)
         (op_bridge_callback_id operation) (op_module_session_id operation)
         (op_module_request_id operation) (op_domain operation) (op_method operation)
         phase message progress result error timestamp class redacted_payload_bytes 0));
    put (enforce_event_retention
      (record <| rec_operation ::= λ o,
                   (match progress with Some v => o <| op_progress := Some v |> | None => o end)
                   <| op_updated_at := timestamp |> <| op_event_cursor := cursor |> |>
              <| rec_next_event_cursor := next_event_cursor |>
              <| rec_retained_event_bytes ::= λ b, saturating_add b (ev_serialized_bytes event) |>
              <| rec_history_truncated ::= λ t, t || (0 <? ev_redacted_payload_bytes event) |>
              <| rec_events ::= λ es, es ++ [event] |>)).

Definition oldest_retained_event_cursor (r : Record_) : EventCursor :=
  match rec_events r with [] => rec_next_event_cursor r | e :: _ => ev_cursor e end.

Definition active_operation_in_exclusive_group (r : Record_) (group : OperationExclusiveGroup) : bool :=
  bool_decide (op_exclusive_group (rec_operation r) = Some group)
  && negb (is_terminal (op_status (rec_operation r))).

Definition running_runtime_operation_record `{!OperationRequest Request}
    (operation_id : RuntimeOperationId) (request : Request) (now : Z) : Result Record_ :=
  ctx ← req_context request;
  policy ← policy_from_request request ctx;
  Ok (mkRecord
    (mkOperation operation_id (req_client_request_id request) None None None None 0
       (req_domain_name request) (req_backend request) (req_method_name request)
       StRunning (req_label request) policy ctx None None 0 None None None None
       (req_cancellable request) (req_exclusive_group request) now now)
    (Some request) [] (req_pending_module request) 1 0 0 0 false None None 0 false false 0).
End event_log.

(** ** The event log invariant

    The retained events carry consecutive cursors that end just before the next
    one; both retention bounds hold and the byte count is exact; whatever is
    missing from the log is counted as dropped and flagged as truncated. *)
Definition sum_sizes (events : list RuntimeOperationEvent) : Z :=
  foldr (λ e acc, ev_serialized_bytes e + acc) 0 events.

Record log_linked (events : list RuntimeOperationEvent) (next bytes : Z) : Prop := {
  ll_cursors : ev_cursor <$> events = seqZ (next - zlen events) (zlen events);
  ll_bytes : bytes = sum_sizes events;
  ll_sizes : Forall (λ e, 0 ≤ ev_serialized_bytes e ≤ MAX_RETAINED_EVENT_BYTES_PER_OPERATION) events;
}.

Definition progress_ok (p : option f64) : Prop :=
  match p with Some x => f64_is_nan x = false | None => True end.

Record record_wf {Request} (r : RuntimeOperationRecord Request) : Prop := {
  wf_next : 1 ≤ rec_next_event_cursor r ≤ MAX_WIRE_EVENT_CURSOR;
  wf_cursor : op_event_cursor (rec_operation r) = rec_next_event_cursor r - 1;
  wf_linked : log_linked (rec_events r) (rec_next_event_cursor r) (rec_retained_event_bytes r);
  wf_count : zlen (rec_events r) ≤ MAX_RETAINED_EVENTS_PER_OPERATION;
  wf_bytes : rec_retained_event_bytes r ≤ MAX_RETAINED_EVENT_BYTES_PER_OPERATION;
  wf_dropped : rec_next_event_cursor r - 1 - zlen (rec_events r)
               ≤ rec_dropped_event_count r ≤ MAX_WIRE_EVENT_CURSOR;
  wf_truncated : 0 < rec_dropped_event_count r → rec_history_truncated r = true;
  wf_dropped_nonneg : 0 ≤ rec_dropped_event_count r;
  wf_progress : progress_ok (op_progress (rec_operation r));
  wf_written : in_u64 (op_bytes_written (rec_operation r));
}.

Lemma sum_sizes_app l1 l2 : sum_sizes (l1 ++ l2) = sum_sizes l1 + sum_sizes l2.
Proof. induction l1; simpl; lia. Qed.

Lemma sum_sizes_nonneg events next bytes : log_linked events next bytes → 0 ≤ sum_sizes events.
Proof. intros [_ _ Hs]. induction Hs; simpl; lia. Qed.

Lemma log_linked_nil next : log_linked [] next 0.
Proof. by split. Qed.

Lemma log_linked_tail e events next bytes :
  log_linked (e :: events) next bytes →
  log_linked events next (bytes - ev_serialized_bytes e).
Proof.
  intros [Hc Hb Hs]. inversion Hs; subst. split; [|simpl; lia|done].
  unfold zlen in *. rewrite fmap_cons, length_cons, seqZ_cons in Hc by lia.
  injection Hc as Hhd Htl. rewrite Htl. f_equal; lia.
Qed.

(** Evicting the oldest event never underflows the byte count. *)
Lemma log_linked_saturating_sub e events next bytes :
  log_linked (e :: events) next bytes →
  saturating_sub bytes (ev_serialized_bytes e) = bytes - ev_serialized_bytes e.
Proof.
  intros Hl. pose proof (sum_sizes_nonneg _ _ _ (log_linked_tail _ _ _ _ Hl)) as Hn.
  pose proof (ll_bytes _ _ _ Hl) as Hb. unfold sum_sizes in *. simpl in Hb.
  unfold saturating_sub. lia.
Qed.

Lemma log_linked_head e events next bytes :
  log_linked (e :: events) next bytes → ev_cursor e = next - zlen (e :: events).
Proof.
  intros [Hc _ _]. unfold zlen in *.
  rewrite fmap_cons, length_cons, seqZ_cons in Hc by lia. injection Hc as Hhd _.
  rewrite length_cons. lia.
Qed.

Lemma log_linked_snoc e events next bytes :
  log_linked events next bytes → ev_cursor e = next →
  0 ≤ ev_serialized_bytes e ≤ MAX_RETAINED_EVENT_BYTES_PER_OPERATION →
  log_linked (events ++ [e]) (next + 1) (bytes + ev_serialized_bytes e).
Proof.
  intros [Hc Hb Hs] He Hsz. split.
  - unfold zlen in *. rewrite fmap_app, Hc, length_app. simpl.
    replace (Z.of_nat (length events + 1)) with (Z.of_nat (length events) + 1) by lia.
    rewrite seqZ_app by lia. f_equal; [f_equal; lia|].
    unfold seqZ. simpl. f_equal. lia.
  - rewrite sum_sizes_app. simpl. lia.
  - apply Forall_app. split; [done|]. by constructor.
Qed.

(** Everything the eviction loop preserves or establishes, next to the fields it
    leaves alone. *)
Record evicted {Request} (r r' : RuntimeOperationRecord Request) : Prop := {
  evt_operation : rec_operation r' = rec_operation r;
  evt_restart : rec_restart_request r' = rec_restart_request r;
  evt_pending : rec_pending_module_name r' = rec_pending_module_name r;
  evt_next : rec_next_event_cursor r' = rec_next_event_cursor r;
  evt_coalesced : rec_coalesced_event_count r' = rec_coalesced_event_count r;
  evt_terminal_at : rec_terminal_at r' = rec_terminal_at r;
  evt_expires : rec_terminal_expires_at r' = rec_terminal_expires_at r;
  evt_payload : rec_retained_terminal_payload_bytes r' = rec_retained_terminal_payload_bytes r;
  evt_result_purged : rec_result_purged r' = rec_result_purged r;
  evt_ack_purged : rec_acknowledgement_purged r' = rec_acknowledgement_purged r;
  evt_redacted : rec_error_redacted_bytes r' = rec_error_redacted_bytes r;
  evt_suffix : rec_events r' `suffix_of` rec_events r;
}.

Lemma evicted_refl {Request} (r : RuntimeOperationRecord Request) : evicted r r.
Proof. by split. Qed.

Lemma evict_events_frame {Request} events (r : RuntimeOperationRecord Request) :
  rec_events r = events → evicted r (evict_events events r).
Proof.
  revert r. induction events as [|e events IH]; intros r Hr; simpl.
  - case_if E; apply evicted_refl.
  - case_if E; [|apply evicted_refl].
    match goal with |- evicted _ (evict_events _ ?r') => specialize (IH r' eq_refl) end.
    destruct IH; simpl in *. split; simpl; try done.
    rewrite Hr. by apply suffix_cons_r.
Qed.

Lemma increment_wire_counter_spec d :
  0 ≤ d ≤ MAX_WIRE_EVENT_CURSOR →
  increment_wire_counter d = Z.min (d + 1) MAX_WIRE_EVENT_CURSOR.
Proof. unfold increment_wire_counter, saturating_add, u64_max, MAX_WIRE_EVENT_CURSOR. lia. Qed.

(** The retained suffix is within both bounds and the accounting stays exact. *)
Lemma evict_events_wf {Request} events (r : RuntimeOperationRecord Request) :
  rec_events r = events →
  log_linked events (rec_next_event_cursor r) (rec_retained_event_bytes r) →
  1 ≤ rec_next_event_cursor r ≤ MAX_WIRE_EVENT_CURSOR →
  rec_next_event_cursor r - 1 - zlen events ≤ rec_dropped_event_count r →
  0 ≤ rec_dropped_event_count r ≤ MAX_WIRE_EVENT_CURSOR →
  (0 < rec_dropped_event_count r → rec_history_truncated r = true) →
  op_event_cursor (rec_operation r) = rec_next_event_cursor r - 1 →
  progress_ok (op_progress (rec_operation r)) →
  in_u64 (op_bytes_written (rec_operation r)) →
  record_wf (evict_events events r).
Proof.
  revert r. induction events as [|e events IH]; intros r Hev Hl Hn Hd Hd' Ht Hc Hp Hw; simpl.
  - assert (Hz : rec_retained_event_bytes r = 0) by apply (ll_bytes _ _ _ Hl).
    rewrite Hz. simpl.
    split; rewrite ?Hev, ?Hz; try done; lia.
  - case_if E.
    + apply IH; simpl; try done.
      * erewrite log_linked_saturating_sub by done. by apply log_linked_tail.
      * rewrite increment_wire_counter_spec by done.
        unfold zlen in *. simpl in *. lia.
      * rewrite increment_wire_counter_spec by done. unfold MAX_WIRE_EVENT_CURSOR in *. lia.
    + apply orb_false_iff in E as [E1%Z.ltb_ge E2%Z.ltb_ge].
      split; rewrite ?Hev; try done; lia.
Qed.

(** The newest event is never evicted: alone it is within both bounds. *)
Lemma evict_events_last {Request} pre e (r : RuntimeOperationRecord Request) :
  rec_events r = pre ++ [e] →
  log_linked (pre ++ [e]) (rec_next_event_cursor r) (rec_retained_event_bytes r) →
  last (rec_events (evict_events (pre ++ [e]) r)) = Some e.
Proof.
  revert r. induction pre as [|e' pre IH]; intros r Hev Hl; simpl.
  - assert (Hb : rec_retained_event_bytes r = ev_serialized_bytes e + 0) by apply (ll_bytes _ _ _ Hl).
    pose proof (ll_sizes _ _ _ Hl) as Hs. inversion Hs as [|?? Hsz]; subst.
    rewrite Hb. rewrite (proj2 (Z.ltb_ge _ _)) by lia. simpl. by rewrite Hev.
  - case_if E.
    + apply IH; [done|]. simpl.
      erewrite log_linked_saturating_sub by done. by apply log_linked_tail.
    + rewrite Hev. apply last_snoc with (l := e' :: pre).
Qed.

(** ** What appending an event can change

    [erase_log] blanks the fields an append touches: the log and its counters,
    the progress, the timestamp and the last cursor.  Two records with the same
    core agree on everything else. *)
Definition erase_log {Request} (r : RuntimeOperationRecord Request) : RuntimeOperationRecord Request :=
  r <| rec_events := [] |> <| rec_next_event_cursor := 0 |> <| rec_retained_event_bytes := 0 |>
    <| rec_dropped_event_count := 0 |> <| rec_coalesced_event_count := 0 |>
    <| rec_history_truncated := false |>
    <| rec_operation ::= λ o, o <| op_progress := None |> <| op_updated_at := 0 |>
                                <| op_event_cursor := 0 |> |>.

Definition same_core {Request} (r r' : RuntimeOperationRecord Request) : Prop :=
  erase_log r = erase_log r'.

#[export] Instance same_core_equiv {Request} : Equivalence (@same_core Request).
Proof. split; [done | by intros ?? | intros ??? E1 E2; unfold same_core in *; congruence]. Qed.

Section same_core.
Context {Request : Type} (r r' : RuntimeOperationRecord Request) (E : same_core r r').

Lemma same_core_status : op_status (rec_operation r') = op_status (rec_operation r).
Proof using E. symmetry. exact (f_equal (λ r, op_status (rec_operation r)) E). Qed.
Lemma same_core_result : op_result (rec_operation r') = op_result (rec_operation r).
Proof using E. symmetry. exact (f_equal (λ r, op_result (rec_operation r)) E). Qed.
Lemma same_core_error : op_error (rec_operation r') = op_error (rec_operation r).
Proof using E. symmetry. exact (f_equal (λ r, op_error (rec_operation r)) E). Qed.
Lemma same_core_ack : op_acknowledgement (rec_operation r') = op_acknowledgement (rec_operation r).
Proof using E. symmetry. exact (f_equal (λ r, op_acknowledgement (rec_operation r)) E). Qed.
Lemma same_core_reason : op_terminal_reason (rec_operation r') = op_terminal_reason (rec_operation r).
Proof using E. symmetry. exact (f_equal (λ r, op_terminal_reason (rec_operation r)) E). Qed.
Lemma same_core_contract : op_terminal_event (rec_operation r') = op_terminal_event (rec_operation r).
Proof using E. symmetry. exact (f_equal (λ r, op_terminal_event (rec_operation r)) E). Qed.
Lemma same_core_session : op_module_session_id (rec_operation r') = op_module_session_id (rec_operation r).
Proof using E. symmetry. exact (f_equal (λ r, op_module_session_id (rec_operation r)) E). Qed.
Lemma same_core_request : op_module_request_id (rec_operation r') = op_module_request_id (rec_operation r).
Proof using E. symmetry. exact (f_equal (λ r, op_module_request_id (rec_operation r)) E). Qed.
Lemma same_core_bytes : op_bytes_written (rec_operation r') = op_bytes_written (rec_operation r).
Proof using E. symmetry. exact (f_equal (λ r, op_bytes_written (rec_operation r)) E). Qed.
Lemma same_core_group : op_exclusive_group (rec_operation r') = op_exclusive_group (rec_operation r).
Proof using E. symmetry. exact (f_equal (λ r, op_exclusive_group (rec_operation r)) E). Qed.
Lemma same_core_id : op_operation_id (rec_operation r') = op_operation_id (rec_operation r).
Proof using E. symmetry. exact (f_equal (λ r, op_operation_id (rec_operation r)) E). Qed.
Lemma same_core_pending : rec_pending_module_name r' = rec_pending_module_name r.
Proof using E. symmetry. exact (f_equal rec_pending_module_name E). Qed.
Lemma same_core_restart : rec_restart_request r' = rec_restart_request r.
Proof using E. symmetry. exact (f_equal rec_restart_request E). Qed.
Lemma same_core_terminal_at : rec_terminal_at r' = rec_terminal_at r.
Proof using E. symmetry. exact (f_equal rec_terminal_at E). Qed.
Lemma same_core_payload :
  rec_retained_terminal_payload_bytes r' = rec_retained_terminal_payload_bytes r.
Proof using E. symmetry. exact (f_equal rec_retained_terminal_payload_bytes E). Qed.
End same_core.

Lemma evicted_same_core {Request} (r r' : RuntimeOperationRecord Request) :
  evicted r r' → same_core r r'.
Proof.
  intros []. unfold same_core, erase_log. destruct r, r'; simpl in *. by subst.
Qed.

(** Progress never goes back. *)
Definition progress_le (p q : option f64) : Prop :=
  match p, q with
  | None, _ => True
  | Some x, Some y => x = y ∨ SFleb x y = true
  | Some _, None => False
  end.

#[export] Instance progress_le_preorder : PreOrder progress_le.
Proof.
  split; [intros [?|]; simpl; auto|].
  intros [x|] [y|] [z|]; simpl; try done.
  intros [->|H1] [->|H2]; eauto using SFleb_trans.
Qed.

Definition join_progress (p : option f64) (candidate : option f64) : option f64 :=
  match candidate with
  | None => p
  | Some c => Some (match p with None => c | Some previous => f64_max previous c end)
  end.

Lemma join_progress_le p c : progress_ok p → progress_le p (join_progress p c).
Proof. destruct p, c; simpl; auto using f64_max_ge_l. Qed.
Lemma join_progress_ok p c : progress_ok p → progress_ok c → progress_ok (join_progress p c).
Proof. destruct p, c; simpl; auto using f64_max_not_nan. Qed.
Lemma operation_progress_ok b c : progress_ok (operation_progress b c).
Proof. destruct c as [t|]; simpl; [|done]. destruct (0 <? t); [|done]. by apply f64_min_not_nan. Qed.
Lemma monotonic_progress_join p c : monotonic_progress p c = join_progress p c.
Proof. by destruct p, c. Qed.
#[export] Hint Resolve join_progress_le join_progress_ok operation_progress_ok : inspector.

Section push_lemmas.
Context `{SerdeJson} {Request : Type}.
Implicit Types r : RuntimeOperationRecord Request.

Lemma finalize_event_size_spec e e' :
  finalize_event_size e = Ok e' →
  0 ≤ ev_serialized_bytes e' ≤ MAX_RETAINED_EVENT_BYTES_PER_OPERATION
  ∧ ev_cursor e' = ev_cursor e ∧ ev_phase e' = ev_phase e ∧ ev_class e' = ev_class e
  ∧ ev_progress e' = ev_progress e ∧ ev_timestamp e' = ev_timestamp e.
Proof.
  unfold finalize_event_size. simpl. intros E.
  repeat case_match; simplify_eq; simpl in *;
    repeat match goal with
      | H : (_ <=? _) = true |- _ => apply Z.leb_le in H
      | H : (_ <? _) = false |- _ => apply Z.ltb_ge in H
      end;
    repeat split; auto; unfold serialized_event_bytes; eauto with inspector.
Qed.

Lemma checked_next_event_cursor_spec c n :
  checked_next_event_cursor c = Ok n → n = c + 1 ∧ n ≤ MAX_WIRE_EVENT_CURSOR.
Proof.
  unfold checked_next_event_cursor, EventCursor_next, ok_or, mbind, Result_bind.
  destruct (checked_add c 1) as [m|] eqn:E; [|done].
  apply checked_add_Some in E as [-> _].
  destruct (Z.ltb_spec MAX_WIRE_EVENT_CURSOR (c + 1)); [done|]. intros [= <-]. lia.
Qed.

(** An append changes the log fields only, and a failed one changes nothing. *)
Lemma push_frame phase message p res err r :
  wp (push_runtime_operation_event_locked phase message p res err)
     (λ out r', same_core r r' ∧ (is_ok out = false → r' = r)) r.
Proof.
  unfold push_runtime_operation_event_locked. wp_go.
  case_if E1; [by wp_go|]. case_if E2; [wp_go; by destruct p|].
  destruct (bounded_inline_event_result _ _) as [res' n1], (bounded_inline_event_error _) as [err' n2].
  wp_go. destruct (checked_next_event_cursor _) as [next|] eqn:En; [|done].
  wp_go. destruct (finalize_event_size _) as [e|] eqn:Ef; [|done].
  wp_go. split; [|done].
  etrans; [|apply evicted_same_core, evict_events_frame; reflexivity].
  unfold same_core, erase_log. simpl. by destruct p.
Qed.

(** The record the append hands to the eviction loop. *)
Lemma append_wf r (e : RuntimeOperationEvent) (f : RuntimeOperation → RuntimeOperation) :
  record_wf r →
  op_event_cursor (f (rec_operation r)) = rec_next_event_cursor r →
  progress_ok (op_progress (f (rec_operation r))) →
  op_bytes_written (f (rec_operation r)) = op_bytes_written (rec_operation r) →
  0 ≤ ev_serialized_bytes e ≤ MAX_RETAINED_EVENT_BYTES_PER_OPERATION →
  ev_cursor e = rec_next_event_cursor r →
  rec_next_event_cursor r + 1 ≤ MAX_WIRE_EVENT_CURSOR →
  record_wf (enforce_event_retention
    (r <| rec_operation ::= f |>
       <| rec_next_event_cursor := rec_next_event_cursor r + 1 |>
       <| rec_retained_event_bytes ::= λ b, saturating_add b (ev_serialized_bytes e) |>
       <| rec_history_truncated ::= λ t, t || (0 <? ev_redacted_payload_bytes e) |>
       <| rec_events ::= λ es, es ++ [e] |>)).
Proof.
  intros [] Hf Hp Hw Hsz Hc Hn. unfold enforce_event_retention.
  apply evict_events_wf; simpl; rewrite ?Hw; try done; try lia.
  - replace (saturating_add _ _) with (rec_retained_event_bytes r + ev_serialized_bytes e).
    + by apply log_linked_snoc.
    + unfold saturating_add, u64_max, MAX_RETAINED_EVENT_BYTES_PER_OPERATION in *. lia.
  - unfold zlen in *. rewrite length_app. simpl. lia.
  - intros Hd. by rewrite wf_truncated0.
Qed.

Lemma push_wf phase message p res err r :
  record_wf r → progress_ok p →
  wp (push_runtime_operation_event_locked phase message p res err)
     (λ _ r', record_wf r'
              ∧ progress_le (op_progress (rec_operation r)) (op_progress (rec_operation r'))
              ∧ rec_next_event_cursor r ≤ rec_next_event_cursor r'
              ∧ op_updated_at (rec_operation r) ≤ op_updated_at (rec_operation r')) r.
Proof.
  intros Hwf Hp. pose proof Hwf as [].
  assert (Hj : progress_ok (join_progress (op_progress (rec_operation r)) p)) by auto with inspector.
  assert (Hle : progress_le (op_progress (rec_operation r))
                  (join_progress (op_progress (rec_operation r)) p)) by auto with inspector.
  unfold push_runtime_operation_event_locked. wp_go.
  case_if E1.
  { wp_go. rewrite ?increment_wire_counter_spec by lia.
    split; [split; simpl; rewrite ?increment_wire_counter_spec by lia; try done;
            unfold MAX_WIRE_EVENT_CURSOR in *; lia |].
    simpl. split; [done|]. lia. }
  case_if E2.
  { wp_go. split; [split; destruct p; simpl in *; try done; lia |].
    destruct p; simpl in *; (split; [done|]); lia. }
  destruct (bounded_inline_event_result _ _) as [res' n1], (bounded_inline_event_error _) as [err' n2].
  wp_go. destruct (checked_next_event_cursor _) as [next|] eqn:En; [|done].
  apply checked_next_event_cursor_spec in En as [-> En].
  wp_go. destruct (finalize_event_size _) as [e|] eqn:Ef; [|done].
  apply finalize_event_size_spec in Ef as (Hsz & Hc & _). simpl in Hc. wp_go.
  match goal with |- context [enforce_event_retention ?r'] =>
    pose proof (evict_events_frame (rec_events r') r' eq_refl) as Hev end.
  split.
  - apply append_wf; try done; destruct p; simpl in *; done.
  - unfold enforce_event_retention. rewrite (evt_operation _ _ Hev), (evt_next _ _ Hev).
    destruct p; simpl in *; (split; [done|]); lia.
Qed.

(** A terminal phase, or evidence on a live operation, is always appended: it
    takes the next cursor and is the newest retained event. *)
Lemma push_appends phase message p res err r :
  record_wf r → progress_ok p →
  runtime_operation_event_class phase = ClassTerminal
  ∨ runtime_operation_event_class phase = ClassEvidence
    ∧ is_terminal (op_status (rec_operation r)) = false →
  wp (push_runtime_operation_event_locked phase message p res err)
     (λ out r', is_ok out = true →
        rec_next_event_cursor r' = rec_next_event_cursor r + 1
        ∧ op_progress (rec_operation r') = join_progress (op_progress (rec_operation r)) p
        ∧ ∃ e, last (rec_events r') = Some e ∧ ev_cursor e = rec_next_event_cursor r
               ∧ ev_phase e = phase ∧ ev_class e = runtime_operation_event_class phase) r.
Proof.
  intros Hwf Hp Hcl. pose proof Hwf as [].
  unfold push_runtime_operation_event_locked. wp_go.
  case_if E1.
  { destruct Hcl as [Hcl|[Hcl Ht]]; rewrite Hcl, ?Ht in E1; by rewrite ?andb_false_r in E1. }
  case_if E2.
  { by destruct Hcl as [Hcl|[Hcl Ht]]; rewrite Hcl in E2. }
  destruct (bounded_inline_event_result _ _) as [res' n1], (bounded_inline_event_error _) as [err' n2].
  wp_go. destruct (checked_next_event_cursor _) as [next|] eqn:En; [|done].
  apply checked_next_event_cursor_spec in En as [-> En].
  wp_go. destruct (finalize_event_size _) as [e|] eqn:Ef; [|done].
  apply finalize_event_size_spec in Ef as (Hsz & Hc & Hph & Hcls & _).
  simpl in Hc, Hph, Hcls. wp_go. intros _. unfold enforce_event_retention.
  match goal with |- context [evict_events _ ?r'] =>
    pose proof (evict_events_frame (rec_events r') r' eq_refl) as Hev end.
  rewrite (evt_operation _ _ Hev), (evt_next _ _ Hev). simpl.
  split; [done|]. split; [by destruct p|]. exists e. split; [|done].
  apply evict_events_last; [done|]. simpl.
  replace (saturating_add _ _) with (rec_retained_event_bytes r + ev_serialized_bytes e).
  - by apply log_linked_snoc.
  - unfold saturating_add, u64_max, MAX_RETAINED_EVENT_BYTES_PER_OPERATION in *. lia.
Qed.

(** The event log: every append, whatever its phase and payload, keeps the
    record well formed (contiguous cursors, at most 256 events and 256 KiB,
    counted exactly) and changes nothing but the log, the progress and the
    update time; a failed append changes nothing; terminal events, and evidence
    on a live operation, always become the newest retained event. *)
Theorem event_log_append phase message p res err r w out r' w' :
  record_wf r → progress_ok p →
  push_runtime_operation_event_locked phase message p res err r w = (out, r', w') →
  record_wf r' ∧ same_core r r' ∧ (is_ok out = false → r' = r)
  ∧ (runtime_operation_event_class phase = ClassTerminal
     ∨ runtime_operation_event_class phase = ClassEvidence
       ∧ is_terminal (op_status (rec_operation r)) = false →
     is_ok out = true →
     rec_next_event_cursor r' = rec_next_event_cursor r + 1
     ∧ ∃ e, last (rec_events r') = Some e ∧ ev_cursor e = rec_next_event_cursor r
            ∧ ev_phase e = phase).
Proof.
  intros Hwf Hp E.
  pose proof (wp_run _ _ _ _ _ _ _ (push_wf phase message p res err r Hwf Hp) E) as [Hwf' _].
  pose proof (wp_run _ _ _ _ _ _ _ (push_frame phase message p res err r) E) as [Hcore Hfail].
  split_and!; try done. intros Hcl Hok.
  pose proof (wp_run _ _ _ _ _ _ _ (push_appends phase message p res err r Hwf Hp Hcl) E Hok)
    as (Hn & _ & e & Hl & Hc & Hph & _). eauto.
Qed.
End push_lemmas.
