(* ===== verification/OperationSpec.v ===== *)
(** * The table of runtime operations and its entry points

    [src/src/inspector/commands/operations/spec.rs] with the definitions the
    method modules contribute ([storage.rs], [delivery.rs], [local_nodes.rs],
    [wallet.rs], [blockchain.rs], [lez.rs]), the positional arguments of
    [support/args.rs], and [entrypoint.rs], which routes the names the bridge is
    called with.  What an entry point calls is the class [OperationRunner]. *)

From S2P Require Import Prelude Json Bytes OperationRecord.
From Stdlib Require Import Ascii.

(** Durations are nanoseconds. *)
Definition from_secs (seconds : Z) : Z := seconds * 1000000000.

Definition READ_OPERATION_DEADLINE : Z := from_secs 30.
Definition MUTATING_OPERATION_DEADLINE : Z := from_secs (5 * 60).
Definition SIGNING_OPERATION_DEADLINE : Z := from_secs (10 * 60).

(** ** Domains, methods and commands *)
Inductive OperationDomain : Type :=
  | DomainStorage | DomainDelivery | DomainLocalNodes | DomainWallet | DomainBlockchain
  | DomainExecution.
#[export] Instance OperationDomain_eq_dec : EqDecision OperationDomain.
Proof. solve_decision. Defined.

Definition domain_str (domain : OperationDomain) : string :=
  match domain with
  | DomainStorage => "storage"
  | DomainDelivery => "delivery"
  | DomainLocalNodes => "localNodes"
  | DomainWallet => "wallet"
  | DomainBlockchain => "blockchain"
  | DomainExecution => "execution"
  end.

Inductive OperationMethod : Type :=
  | StorageManifests | StorageDownloadManifest | StorageFetch | StorageUploadUrl
  | StorageUploadPayload | StorageUploadBackupCatalogEntry | StorageDownloadBackupCatalogEntry
  | StorageDownloadToUrl | StorageRemove | DeliverySubscribe | DeliveryUnsubscribe
  | DeliverySend | DeliveryCreateNode | DeliveryStart | DeliveryStop | DeliveryStoreQuery
  | LocalNodesAction | ChannelIndexerAction | LocalModulePackageInstall
  | LocalWalletCreateAccount | LocalWalletSendTransaction | LocalWalletInstructionSubmit
  | LocalWalletCommand | LocalWalletDeployProgram | LocalWalletSyncPrivate
  | LocalWalletAccounts | BlockchainNode | BlockchainBlocks | BlockchainFinalizedBlocks
  | BlockchainLiveBlocks | BlockchainBlock | BlockchainTransaction.
#[export] Instance OperationMethod_eq_dec : EqDecision OperationMethod.
Proof. solve_decision. Defined.

(** The derived [Debug]. *)
Definition method_debug (method : OperationMethod) : string :=
  match method with
  | StorageManifests => "StorageManifests"
  | StorageDownloadManifest => "StorageDownloadManifest"
  | StorageFetch => "StorageFetch"
  | StorageUploadUrl => "StorageUploadUrl"
  | StorageUploadPayload => "StorageUploadPayload"
  | StorageUploadBackupCatalogEntry => "StorageUploadBackupCatalogEntry"
  | StorageDownloadBackupCatalogEntry => "StorageDownloadBackupCatalogEntry"
  | StorageDownloadToUrl => "StorageDownloadToUrl"
  | StorageRemove => "StorageRemove"
  | DeliverySubscribe => "DeliverySubscribe"
  | DeliveryUnsubscribe => "DeliveryUnsubscribe"
  | DeliverySend => "DeliverySend"
  | DeliveryCreateNode => "DeliveryCreateNode"
  | DeliveryStart => "DeliveryStart"
  | DeliveryStop => "DeliveryStop"
  | DeliveryStoreQuery => "DeliveryStoreQuery"
  | LocalNodesAction => "LocalNodesAction"
  | ChannelIndexerAction => "ChannelIndexerAction"
  | LocalModulePackageInstall => "LocalModulePackageInstall"
  | LocalWalletCreateAccount => "LocalWalletCreateAccount"
  | LocalWalletSendTransaction => "LocalWalletSendTransaction"
  | LocalWalletInstructionSubmit => "LocalWalletInstructionSubmit"
  | LocalWalletCommand => "LocalWalletCommand"
  | LocalWalletDeployProgram => "LocalWalletDeployProgram"
  | LocalWalletSyncPrivate => "LocalWalletSyncPrivate"
  | LocalWalletAccounts => "LocalWalletAccounts"
  | BlockchainNode => "BlockchainNode"
  | BlockchainBlocks => "BlockchainBlocks"
  | BlockchainFinalizedBlocks => "BlockchainFinalizedBlocks"
  | BlockchainLiveBlocks => "BlockchainLiveBlocks"
  | BlockchainBlock => "BlockchainBlock"
  | BlockchainTransaction => "BlockchainTransaction"
  end.

Inductive StorageCommand : Type :=
  | Storage_Manifests | Storage_DownloadManifest | Storage_Fetch | Storage_UploadUrl
  | Storage_UploadPayload | Storage_UploadBackupCatalogEntry
  | Storage_DownloadBackupCatalogEntry | Storage_DownloadToUrl | Storage_Remove.
#[export] Instance StorageCommand_eq_dec : EqDecision StorageCommand.
Proof. solve_decision. Defined.

Definition StorageCommand_method (command : StorageCommand) : OperationMethod :=
  match command with
  | Storage_Manifests => StorageManifests
  | Storage_DownloadManifest => StorageDownloadManifest
  | Storage_Fetch => StorageFetch
  | Storage_UploadUrl => StorageUploadUrl
  | Storage_UploadPayload => StorageUploadPayload
  | Storage_UploadBackupCatalogEntry => StorageUploadBackupCatalogEntry
  | Storage_DownloadBackupCatalogEntry => StorageDownloadBackupCatalogEntry
  | Storage_DownloadToUrl => StorageDownloadToUrl
  | Storage_Remove => StorageRemove
  end.

Inductive DeliveryCommand : Type :=
  | Delivery_Subscribe | Delivery_Unsubscribe | Delivery_Send | Delivery_CreateNode
  | Delivery_Start | Delivery_Stop | Delivery_StoreQuery.
#[export] Instance DeliveryCommand_eq_dec : EqDecision DeliveryCommand.
Proof. solve_decision. Defined.

Definition DeliveryCommand_method (command : DeliveryCommand) : OperationMethod :=
  match command with
  | Delivery_Subscribe => DeliverySubscribe
  | Delivery_Unsubscribe => DeliveryUnsubscribe
  | Delivery_Send => DeliverySend
  | Delivery_CreateNode => DeliveryCreateNode
  | Delivery_Start => DeliveryStart
  | Delivery_Stop => DeliveryStop
  | Delivery_StoreQuery => DeliveryStoreQuery
  end.

Inductive LocalNodesCommand : Type :=
  | LocalNodes_Action | LocalNodes_ChannelIndexerAction | LocalNodes_ModulePackageInstall.
#[export] Instance LocalNodesCommand_eq_dec : EqDecision LocalNodesCommand.
Proof. solve_decision. Defined.

Definition LocalNodesCommand_method (command : LocalNodesCommand) : OperationMethod :=
  match command with
  | LocalNodes_Action => LocalNodesAction
  | LocalNodes_ChannelIndexerAction => ChannelIndexerAction
  | LocalNodes_ModulePackageInstall => LocalModulePackageInstall
  end.

Inductive WalletCommand : Type :=
  | Wallet_CreateAccount | Wallet_SendTransaction | Wallet_Command | Wallet_SyncPrivate
  | Wallet_Accounts.
#[export] Instance WalletCommand_eq_dec : EqDecision WalletCommand.
Proof. solve_decision. Defined.

Definition WalletCommand_method (command : WalletCommand) : OperationMethod :=
  match command with
  | Wallet_CreateAccount => LocalWalletCreateAccount
  | Wallet_SendTransaction => LocalWalletSendTransaction
  | Wallet_Command => LocalWalletCommand
  | Wallet_SyncPrivate => LocalWalletSyncPrivate
  | Wallet_Accounts => LocalWalletAccounts
  end.

Inductive BlockchainCommand : Type :=
  | Blockchain_Node | Blockchain_Blocks | Blockchain_FinalizedBlocks | Blockchain_LiveBlocks
  | Blockchain_Block | Blockchain_Transaction.
#[export] Instance BlockchainCommand_eq_dec : EqDecision BlockchainCommand.
Proof. solve_decision. Defined.

Definition BlockchainCommand_method (command : BlockchainCommand) : OperationMethod :=
  match command with
  | Blockchain_Node => BlockchainNode
  | Blockchain_Blocks => BlockchainBlocks
  | Blockchain_FinalizedBlocks => BlockchainFinalizedBlocks
  | Blockchain_LiveBlocks => BlockchainLiveBlocks
  | Blockchain_Block => BlockchainBlock
  | Blockchain_Transaction => BlockchainTransaction
  end.

Inductive ExecutionCommand : Type :=
  | Execution_DeployProgram | Execution_SubmitInstruction.
#[export] Instance ExecutionCommand_eq_dec : EqDecision ExecutionCommand.
Proof. solve_decision. Defined.

Definition ExecutionCommand_method (command : ExecutionCommand) : OperationMethod :=
  match command with
  | Execution_DeployProgram => LocalWalletDeployProgram
  | Execution_SubmitInstruction => LocalWalletInstructionSubmit
  end.

Inductive OperationCommand : Type :=
  | CmdStorage (command : StorageCommand)
  | CmdDelivery (command : DeliveryCommand)
  | CmdLocalNodes (command : LocalNodesCommand)
  | CmdWallet (command : WalletCommand)
  | CmdBlockchain (command : BlockchainCommand)
  | CmdExecution (command : ExecutionCommand).
#[export] Instance OperationCommand_eq_dec : EqDecision OperationCommand.
Proof. solve_decision. Defined.

Definition command_method (command : OperationCommand) : OperationMethod :=
  match command with
  | CmdStorage command => StorageCommand_method command
  | CmdDelivery command => DeliveryCommand_method command
  | CmdLocalNodes command => LocalNodesCommand_method command
  | CmdWallet command => WalletCommand_method command
  | CmdBlockchain command => BlockchainCommand_method command
  | CmdExecution command => ExecutionCommand_method command
  end.

Definition command_domain (command : OperationCommand) : OperationDomain :=
  match command with
  | CmdStorage _ => DomainStorage
  | CmdDelivery _ => DomainDelivery
  | CmdLocalNodes _ => DomainLocalNodes
  | CmdWallet _ => DomainWallet
  | CmdBlockchain _ => DomainBlockchain
  | CmdExecution _ => DomainExecution
  end.

(** ** Definitions *)
Record OperationRoute : Type := mkRoute {
  rt_domain : OperationDomain;
  rt_method : OperationMethod;
  rt_label : string;
  rt_start_async : bool;
}.

Record OperationDefinition : Type := mkDefinition {
  od_command : OperationCommand;
  od_name : string;
  od_label : string;
  od_cancellable : bool;
  od_exclusive_group : option OperationExclusiveGroup;
  od_deadline : Z;
  od_policy : OperationPolicyDefinition;
}.
#[export] Instance eta_definition : Eta OperationDefinition :=
  λ r, mkDefinition (od_command r) (od_name r) (od_label r) (od_cancellable r)
         (od_exclusive_group r) (od_deadline r) (od_policy r).
#[export] Instance eta_policy_definition : Eta OperationPolicyDefinition :=
  λ r, mkPolicyDefinition (pd_class r) (pd_affected_context_fields r) (pd_restart_policy r)
         (pd_confirmation_required r).

Definition required (key : AffectedContextKey) : AffectedContextField := mkContextField key Required.
Definition optional (key : AffectedContextKey) : AffectedContextField := mkContextField key Optional.

Definition operation_definition_new (command : OperationCommand) (name label : string)
    (class : OperationClass) : OperationDefinition :=
  mkDefinition command name label false None
    match class with
    | ReadPoll => READ_OPERATION_DEADLINE
    | Destructive | Lifecycle | Mutating => MUTATING_OPERATION_DEADLINE
    | SigningSubmission => SIGNING_OPERATION_DEADLINE
    end
    (policy_definition_new class).

Definition with_context_inputs (fields : list AffectedContextField) (d : OperationDefinition)
    : OperationDefinition :=
  d <| od_policy ::= λ p, p <| pd_affected_context_fields := fields |> |>.

Definition cancellable (group : OperationExclusiveGroup) (d : OperationDefinition) : OperationDefinition :=
  d <| od_cancellable := true |> <| od_exclusive_group := Some group |>.

Definition exclusive (group : OperationExclusiveGroup) (d : OperationDefinition) : OperationDefinition :=
  d <| od_exclusive_group := Some group |>.

Definition od_method (d : OperationDefinition) : OperationMethod := command_method (od_command d).
Definition od_domain (d : OperationDefinition) : OperationDomain := command_domain (od_command d).

Definition definition_route (start_async : bool) (d : OperationDefinition) : OperationRoute :=
  mkRoute (od_domain d) (od_method d) (od_label d) start_async.

Definition storage_OPERATION_DEFINITIONS : list OperationDefinition := [
  with_context_inputs [required KeySource; optional KeyEndpoint]
    (operation_definition_new (CmdStorage Storage_Manifests) "storageManifests"
    "Storage manifests" ReadPoll);
  with_context_inputs [required KeySource; optional KeyEndpoint; required KeyCid]
    (operation_definition_new (CmdStorage Storage_DownloadManifest) "storageDownloadManifest"
    "Storage manifest" ReadPoll);
  with_context_inputs [required KeySource; optional KeyEndpoint; required KeyCid]
    (operation_definition_new (CmdStorage Storage_Fetch) "storageFetch"
    "Storage fetch" Mutating);
  exclusive GUpload (with_context_inputs [required KeySource; optional KeyEndpoint; required KeyPath]
    (operation_definition_new (CmdStorage Storage_UploadUrl) "storageUploadUrl"
    "Storage upload" Mutating));
  exclusive GUpload (with_context_inputs [required KeySource; optional KeyEndpoint; required KeyFilename]
    (operation_definition_new (CmdStorage Storage_UploadPayload) "storageUploadPayload"
    "Storage payload upload" Mutating));
  exclusive GUpload (with_context_inputs [required KeySource; optional KeyEndpoint; required KeyBackupCatalogId]
    (operation_definition_new (CmdStorage Storage_UploadBackupCatalogEntry) "storageUploadBackupCatalogEntry"
    "Backup upload" Mutating));
  cancellable GDownload (with_context_inputs [required KeySource; optional KeyEndpoint; required KeyCid; required KeyDownloadScope]
    (operation_definition_new (CmdStorage Storage_DownloadBackupCatalogEntry) "storageDownloadBackupCatalogEntry"
    "Backup download" Mutating));
  cancellable GDownload (with_context_inputs [required KeySource; optional KeyEndpoint; required KeyCid; required KeyPath]
    (operation_definition_new (CmdStorage Storage_DownloadToUrl) "storageDownloadToUrl"
    "Storage download" Mutating));
  exclusive GRemove (with_context_inputs [required KeySource; optional KeyEndpoint; required KeyCid]
    (operation_definition_new (CmdStorage Storage_Remove) "storageRemove"
    "Storage remove" Destructive))].

Definition delivery_OPERATION_DEFINITIONS : list OperationDefinition := [
  with_context_inputs [required KeySource; optional KeyEndpoint]
    (operation_definition_new (CmdDelivery Delivery_Subscribe) "deliverySubscribe"
    "Delivery subscribe" Mutating);
  with_context_inputs [required KeySource; optional KeyEndpoint]
    (operation_definition_new (CmdDelivery Delivery_Unsubscribe) "deliveryUnsubscribe"
    "Delivery unsubscribe" Mutating);
  with_context_inputs [required KeySource; optional KeyEndpoint]
    (operation_definition_new (CmdDelivery Delivery_Send) "deliverySend"
    "Delivery send" Mutating);
  with_context_inputs [required KeySource]
    (operation_definition_new (CmdDelivery Delivery_CreateNode) "deliveryCreateNode"
    "Delivery create node" Lifecycle);
  with_context_inputs [required KeySource]
    (operation_definition_new (CmdDelivery Delivery_Start) "deliveryStart"
    "Delivery start" Lifecycle);
  with_context_inputs [required KeySource]
    (operation_definition_new (CmdDelivery Delivery_Stop) "deliveryStop"
    "Delivery stop" Lifecycle);
  with_context_inputs [required KeySource; optional KeyEndpoint]
    (operation_definition_new (CmdDelivery Delivery_StoreQuery) "deliveryStoreQuery"
    "Delivery store query" ReadPoll)].

Definition localnodes_OPERATION_DEFINITIONS : list OperationDefinition := [
  operation_definition_new (CmdLocalNodes LocalNodes_Action) "localNodesAction"
    "Local node action" Lifecycle;
  operation_definition_new (CmdLocalNodes LocalNodes_ChannelIndexerAction) "channelIndexerAction"
    "Channel Indexer action" Lifecycle;
  operation_definition_new (CmdLocalNodes LocalNodes_ModulePackageInstall) "localModulePackageInstall"
    "Install module package" Mutating].

Definition wallet_OPERATION_DEFINITIONS : list OperationDefinition := [
  operation_definition_new (CmdWallet Wallet_CreateAccount) "localWalletCreateAccount"
    "Wallet account" SigningSubmission;
  operation_definition_new (CmdWallet Wallet_SendTransaction) "localWalletSendTransaction"
    "Wallet send" SigningSubmission;
  operation_definition_new (CmdWallet Wallet_Command) "localWalletCommand"
    "Wallet command" SigningSubmission;
  operation_definition_new (CmdWallet Wallet_SyncPrivate) "localWalletSyncPrivate"
    "Private sync" SigningSubmission;
  operation_definition_new (CmdWallet Wallet_Accounts) "localWalletAccounts"
    "Wallet accounts" ReadPoll].

Definition blockchain_OPERATION_DEFINITIONS : list OperationDefinition := [
  with_context_inputs [required KeySource; optional KeyEndpoint]
    (operation_definition_new (CmdBlockchain Blockchain_Node) "blockchainNode"
    "Blockchain node" ReadPoll);
  with_context_inputs [required KeySource; optional KeyEndpoint; required KeySlotRange]
    (operation_definition_new (CmdBlockchain Blockchain_Blocks) "blockchainBlocks"
    "Blockchain blocks" ReadPoll);
  with_context_inputs [required KeySource; optional KeyEndpoint; required KeySlotRange]
    (operation_definition_new (CmdBlockchain Blockchain_FinalizedBlocks) "blockchainFinalizedBlocks"
    "Blockchain finalized blocks" ReadPoll);
  with_context_inputs [required KeySource; optional KeyEndpoint; required KeySlotRange]
    (operation_definition_new (CmdBlockchain Blockchain_LiveBlocks) "blockchainLiveBlocks"
    "Blockchain live blocks" ReadPoll);
  with_context_inputs [required KeySource; optional KeyEndpoint; required KeyBlockId]
    (operation_definition_new (CmdBlockchain Blockchain_Block) "blockchainBlock"
    "Blockchain block" ReadPoll);
  with_context_inputs [required KeySource; optional KeyEndpoint; required KeyTransactionId]
    (operation_definition_new (CmdBlockchain Blockchain_Transaction) "blockchainTransaction"
    "Blockchain transaction" ReadPoll)].

Definition execution_OPERATION_DEFINITIONS : list OperationDefinition := [
  operation_definition_new (CmdExecution Execution_DeployProgram) "localWalletDeployProgram"
    "Program deploy" SigningSubmission;
  with_context_inputs [required KeySource; required KeyEndpoint]
    (operation_definition_new (CmdExecution Execution_SubmitInstruction) "localWalletInstructionSubmit"
    "IDL instruction" SigningSubmission)].

Definition OPERATION_DEFINITION_SETS : list (list OperationDefinition) :=
  [storage_OPERATION_DEFINITIONS; delivery_OPERATION_DEFINITIONS;
   localnodes_OPERATION_DEFINITIONS; wallet_OPERATION_DEFINITIONS;
   blockchain_OPERATION_DEFINITIONS; execution_OPERATION_DEFINITIONS].

Definition operation_definitions : list OperationDefinition := concat OPERATION_DEFINITION_SETS.

Definition operation_definition (method : OperationMethod) : option OperationDefinition :=
  find (λ d, bool_decide (od_method d = method)) operation_definitions.

Definition OperationMethod_from_str (method : string) : option OperationMethod :=
  od_method <$> find (λ d, String.eqb (od_name d) method) operation_definitions.

Definition STORAGE_DOWNLOAD_START_ALIAS : string := "storageDownloadStart".
Definition STORAGE_RESTORE_SETTINGS_ALIAS : string := "storageRestoreSettings".

Definition operation_route (method : string) : option OperationRoute :=
  if String.eqb method STORAGE_DOWNLOAD_START_ALIAS
  then definition_route true <$> operation_definition StorageDownloadToUrl
  else if String.eqb method STORAGE_RESTORE_SETTINGS_ALIAS
  then definition_route false <$> operation_definition StorageDownloadBackupCatalogEntry
  else method ← OperationMethod_from_str method;
       definition_route false <$> operation_definition method.

(** Every character that is not an ASCII letter or digit becomes one dash: the
    continuation bytes of a longer character go with its first byte. *)
Definition is_ascii_alphanumeric (a : Ascii.ascii) : bool :=
  let x := Z.of_nat (Ascii.nat_of_ascii a) in
  in_range 48 57 x || in_range 65 90 x || in_range 97 122 x.
Definition is_continuation_byte (a : Ascii.ascii) : bool :=
  in_range 128 191 (Z.of_nat (Ascii.nat_of_ascii a)).

Definition normalized_operation_method (method : string) : string :=
  let normalized := String.string_of_list_ascii
    (flat_map (λ a, if is_ascii_alphanumeric a then [ascii_lower a]
                    else if is_continuation_byte a then [] else ["-"%char])
       (String.list_ascii_of_string method)) in
  if is_empty normalized then "operation" else normalized.

(** ** Arguments of bridge calls ([support/args.rs]) *)
Definition Args : Type := list Value.

Definition Args_new (value : Value) : Result Args :=
  ok_or "bridge args must be a JSON array" (as_array value).

Definition args_value (args : Args) (index : nat) : option Value := args !! index.

Definition trimmed_nonempty (value : string) : option string :=
  let value := trim value in if is_empty value then None else Some value.

Definition args_optional_string (args : Args) (index : nat) : option string :=
  value ← args_value args index; value ← as_str value; trimmed_nonempty value.

Definition args_string (args : Args) (index : nat) (label : string) : Result string :=
  ok_or (label +:+ " is required") (args_optional_string args index).

Definition args_optional_bool (args : Args) (index : nat) : bool :=
  match args_value args index with
  | Some (VBool value) => value
  | Some (VString value) =>
      existsb (String.eqb (to_ascii_lowercase (trim value))) ["1"; "true"; "yes"; "on"]
  | _ => false
  end.

Definition all_digits (s : string) : bool :=
  forallb (λ a, in_range 48 57 (Z.of_nat (Ascii.nat_of_ascii a))) (String.list_ascii_of_string s).

Definition args_canonical_decimal_u64 (args : Args) (index : nat) (label : string) : Result Z :=
  value ← ok_or (label +:+ " is required") (args_value args index);
  match as_u64 value with
  | Some value => Ok value
  | None =>
      match as_str value with
      | None => bail ("invalid " +:+ label)
      | Some raw =>
          if String.eqb raw "0" || (negb (is_empty raw) && negb (starts_with "0" raw) && all_digits raw)
          then ok_or ("invalid " +:+ label) (parse_unsigned 64 raw)
          else bail ("invalid " +:+ label)
      end
  end.

Definition args_json_or_empty_array `{SerdeJson} (args : Args) (index : nat) : Result Value :=
  match args_value args index with
  | None => Ok (VArray [])
  | Some (VString raw) =>
      if is_empty (trim raw) then Ok (VArray [])
      else ok_or "failed to parse JSON argument" (from_str raw)
  | Some value => Ok value
  end.

(** ** Entry points ([entrypoint.rs]) *)
Class OperationRunner (S : Type) : Type := {
  runner_start_from_value : Value → M S Value;
  runner_ingest_module_event : Value → M S Value;
  runner_status : string → M S Value;
  runner_events : string → Z → M S Value;
  runner_cancel : string → M S Value;
  runner_run_operation : OperationMethod → Value → string → M S Value;
  runner_start_operation : OperationMethod → Value → string → M S Value;
  runner_preview_backup_import : string → option Value → option Value → M S Value;
  runner_apply_backup_import : string → option Value → option Value → M S Value;
}.

Inductive OperationBridgeCommand : Type :=
  | RuntimeOperationStart | RuntimeOperationModuleEvent | RuntimeOperationStatusCommand
  | RuntimeOperationEvents | RuntimeOperationCancel | StorageOperationStatus
  | StorageOperationCancel | SettingsBackupImportPreview | SettingsBackupImportApply
  | Route (route : OperationRoute).

Definition OPERATION_CONTROL_METHODS : list (string * OperationBridgeCommand) := [
  ("nodeOperationStart", RuntimeOperationStart);
  ("runtimeOperationStart", RuntimeOperationStart);
  ("runtimeOperationModuleEvent", RuntimeOperationModuleEvent);
  ("nodeOperationStatus", RuntimeOperationStatusCommand);
  ("runtimeOperationStatus", RuntimeOperationStatusCommand);
  ("nodeOperationEvents", RuntimeOperationEvents);
  ("runtimeOperationEvents", RuntimeOperationEvents);
  ("nodeOperationCancel", RuntimeOperationCancel);
  ("runtimeOperationCancel", RuntimeOperationCancel);
  ("storageOperationStatus", StorageOperationStatus);
  ("storageOperationCancel", StorageOperationCancel);
  ("settingsBackupImportPreview", SettingsBackupImportPreview);
  ("settingsBackupImportApply", SettingsBackupImportApply)].

Definition operation_bridge_command (method : string) : option OperationBridgeCommand :=
  match find (λ entry, String.eqb entry.1 method) OPERATION_CONTROL_METHODS with
  | Some (_, command) => Some command
  | None => Route <$> operation_route method
  end.

Section entrypoint.
Context {S : Type} `{!OperationRunner S}.

Definition runtime_operation_start (args : Value) : M S Value :=
  args ← lift (Args_new args);
  value ← lift (ok_or "runtime operation request is required" (args_value args 0));
  runner_start_from_value value.

Definition runtime_operation_module_event (args : Value) : M S Value :=
  args ← lift (Args_new args);
  event ← lift (ok_or "runtime module event is required" (args_value args 0));
  if negb (zlen args =? 1) then throw "runtime module event accepts exactly one object argument"
  else match as_object event with
       | None => throw "runtime module event must be an object"
       | Some _ => runner_ingest_module_event event
       end.

Definition runtime_operation_status (args : Value) : M S Value :=
  args ← lift (Args_new args);
  id ← lift (args_string args 0 "runtime operation id");
  runner_status id.

Definition runtime_operation_events (args : Value) : M S Value :=
  args ← lift (Args_new args);
  let argument_count := zlen args in
  if negb ((1 <=? argument_count) && (argument_count <=? 2))
  then throw "runtime operation events accepts an operation id and optional cursor"
  else
    operation_id ← lift (args_string args 0 "runtime operation id");
    after_seq ← match args_value args 1 with
                | Some value =>
                    lift (ok_or "runtime operation event cursor must be an unsigned integer" (as_u64 value))
                | None => mret 0
                end;
    if MAX_WIRE_EVENT_CURSOR <? after_seq
    then throw "runtime operation event cursor exceeds JavaScript safe integer range"
    else runner_events operation_id after_seq.

Definition runtime_operation_cancel (args : Value) : M S Value :=
  args ← lift (Args_new args);
  id ← lift (args_string args 0 "runtime operation id");
  runner_cancel id.

Definition storage_operation_status (args : Value) : M S Value :=
  args ← lift (Args_new args);
  id ← lift (args_string args 0 "storage operation id");
  runner_status id.

Definition storage_operation_cancel (args : Value) : M S Value :=
  args ← lift (Args_new args);
  id ← lift (args_string args 0 "storage operation id");
  runner_cancel id.

Definition settings_backup_import_preview (args : Value) : M S Value :=
  args ← lift (Args_new args);
  id ← lift (args_string args 0 "backup catalog id");
  runner_preview_backup_import id (args_value args 1) (args_value args 2).

Definition settings_backup_import_apply (args : Value) : M S Value :=
  args ← lift (Args_new args);
  id ← lift (args_string args 0 "backup catalog id");
  runner_apply_backup_import id (args_value args 1) (args_value args 2).

Definition handle_operation_command (command : OperationBridgeCommand) (args : Value) : M S Value :=
  match command with
  | RuntimeOperationStart => runtime_operation_start args
  | RuntimeOperationModuleEvent => runtime_operation_module_event args
  | RuntimeOperationStatusCommand => runtime_operation_status args
  | RuntimeOperationEvents => runtime_operation_events args
  | RuntimeOperationCancel => runtime_operation_cancel args
  | StorageOperationStatus => storage_operation_status args
  | StorageOperationCancel => storage_operation_cancel args
  | SettingsBackupImportPreview => settings_backup_import_preview args
  | SettingsBackupImportApply => settings_backup_import_apply args
  | Route route =>
      if rt_start_async route then runner_start_operation (rt_method route) args (rt_label route)
      else runner_run_operation (rt_method route) args (rt_label route)
  end.
End entrypoint.

(** ** The table is exact

    Both lookups take the first row that fits, so a row could shadow another;
    every method and every name has exactly one. *)
Lemma definition_methods_unique : NoDup (map od_method operation_definitions).
Proof. apply (bool_decide_unpack _). by vm_compute. Qed.

Lemma definition_names_unique :
  NoDup (map fst OPERATION_CONTROL_METHODS ++ map od_name operation_definitions
         ++ [STORAGE_DOWNLOAD_START_ALIAS; STORAGE_RESTORE_SETTINGS_ALIAS]).
Proof. apply (bool_decide_unpack _). by vm_compute. Qed.

Lemma operation_definition_total method :
  ∃ d, operation_definition method = Some d ∧ od_method d = method ∧ d ∈ operation_definitions.
Proof. destruct method; eexists; split_and!; try done; vm_compute; set_solver. Qed.

(** All names of the bridge with the commands they reach. *)
Definition bridge_table : list (string * OperationBridgeCommand) :=
  OPERATION_CONTROL_METHODS
  ++ map (λ d, (od_name d, Route (definition_route false d))) operation_definitions
  ++ omap (λ alias : string * OperationMethod * bool,
             let '(name, method, start_async) := alias in
             (λ d, (name, Route (definition_route start_async d))) <$> operation_definition method)
       [(STORAGE_DOWNLOAD_START_ALIAS, StorageDownloadToUrl, true);
        (STORAGE_RESTORE_SETTINGS_ALIAS, StorageDownloadBackupCatalogEntry, false)].

Lemma bridge_table_found : Forall (λ entry, operation_bridge_command entry.1 = Some entry.2) bridge_table.
Proof. vm_compute. repeat constructor. Qed.

Lemma find_elem {A} (f : A → bool) (l : list A) x : find f l = Some x → x ∈ l ∧ f x = true.
Proof. intros [Hx Hf]%find_some. by rewrite list_elem_of_In. Qed.

Lemma route_in_table name d :
  find (λ d, String.eqb (od_name d) name) operation_definitions = Some d →
  operation_definition (od_method d) = Some d.
Proof.
  intros [Hd _]%find_elem. assert (Hall : Forall (λ d, operation_definition (od_method d) = Some d) operation_definitions)
    by (vm_compute; repeat constructor). rewrite Forall_forall in Hall. by apply Hall.
Qed.

(** The bridge reaches exactly the commands of [bridge_table], each by its own
    name. *)
Theorem bridge_names_exact name command :
  operation_bridge_command name = Some command ↔ (name, command) ∈ bridge_table.
Proof.
  split.
  - unfold operation_bridge_command. destruct (find _ OPERATION_CONTROL_METHODS) as [[n c]|] eqn:Ef.
    { apply find_elem in Ef as [Hin Hn%String.eqb_eq]. cbn in Hn. subst n. intros [= <-]. unfold bridge_table. apply elem_of_app. by left. }
    unfold operation_route. destruct (String.eqb_spec name STORAGE_DOWNLOAD_START_ALIAS) as [->|_].
    { intros Hc. unfold bridge_table. do 2 (apply elem_of_app; right). apply list_elem_of_omap.
      exists (STORAGE_DOWNLOAD_START_ALIAS, StorageDownloadToUrl, true). split; [by left|].
      revert Hc. destruct (operation_definition StorageDownloadToUrl); simpl; [by intros [= <-]|done]. }
    destruct (String.eqb_spec name STORAGE_RESTORE_SETTINGS_ALIAS) as [->|_].
    { intros Hc. unfold bridge_table. do 2 (apply elem_of_app; right). apply list_elem_of_omap.
      exists (STORAGE_RESTORE_SETTINGS_ALIAS, StorageDownloadBackupCatalogEntry, false). split; [by right; left|].
      revert Hc. destruct (operation_definition StorageDownloadBackupCatalogEntry); simpl; [by intros [= <-]|done]. }
    unfold OperationMethod_from_str. destruct (find _ operation_definitions) as [d|] eqn:Ed; [|done]. simpl.
    rewrite (route_in_table name d Ed). simpl. intros [= <-]. apply find_elem in Ed as [Hin Hn%String.eqb_eq].
    unfold bridge_table. apply elem_of_app. right. apply elem_of_app. left. apply list_elem_of_fmap. exists d. by rewrite Hn.
  - intros Hin. pose proof bridge_table_found as Hall. rewrite Forall_forall in Hall. by apply (Hall _ Hin).
Qed.
