(* ===== verification/SourceModes.v ===== *)
(** * Source modes and endpoints

    [src/src/source_routing/adapter.rs] and [policy.rs]: the tables of modes a
    node can be reached by ([core/layer.rs], [storage/layer.rs],
    [delivery/layer.rs], [channel_sources/sequencer.rs] and [indexer.rs]), the
    tokens that name them, the fallbacks, the adapters selected from them, and
    [selection.rs] for the source of a bridge call. *)

From S2P Require Import Prelude Json Bytes OperationRecord OperationSpec.

(** ** Policies ([adapter.rs]) *)
Inductive AdapterConnectionType : Type :=
  | ConnectionModule | ConnectionLogoscoreCli | ConnectionRpc | ConnectionRest | ConnectionMetrics
  | ConnectionNetworkMonitor.

Record AdapterInputPolicy : Type := mkInput {
  inp_key : string;
  inp_label : string;
  inp_required : bool;
}.

Record SourceAdapterPolicy : Type := mkAdapterPolicy {
  ap_connector_id : string;
  ap_connection_type : AdapterConnectionType;
  ap_target : string;
  ap_module_id : option string;
  ap_inputs : list AdapterInputPolicy;
  ap_capabilities : list string;
  ap_supports_cid_probe : bool;
  ap_supports_mutating_diagnostics : bool;
  ap_capability_scopes : list string;
  ap_endpoint_role : option string;
}.

Record SourceModePolicy : Type := mkMode {
  md_key : string;
  md_aliases : list string;
  md_effective : string;
  md_label_key : string;
  md_label : string;
  md_source_label : string;
  md_summary : string;
  md_implemented : bool;
  md_adapter : SourceAdapterPolicy;
}.

(** ** The modes of each family *)
Definition BLOCKCHAIN_MODULE : string := "blockchain_module".
Definition STORAGE_MODULE : string := "storage_module".
Definition DELIVERY_MODULE : string := "delivery_module".
Definition SEQUENCER_MODULE_ID : string := "lez_core".
Definition INDEXER_MODULE_ID : string := "lez_indexer_module".

Definition core_RPC_INPUTS : list AdapterInputPolicy :=
  [mkInput "rpc_endpoint" "RPC URL" true].
Definition core_RPC_BEDROCK_CAPABILITIES : list string :=
  ["l1.blocks.read"; "l1.transactions.read"; "l1.channels.read"; "l1.wallet_balance.read";
   "l1.live_blocks.observe"].
Definition core_MODULE_BEDROCK_CAPABILITIES : list string :=
  ["l1.blocks.read"; "l1.transactions.read"; "l1.channels.read"; "l1.wallet_balance.read";
   "l1.live_blocks.observe"].

Definition BEDROCK_SOURCE_MODES : list SourceModePolicy := [
  mkMode "rpc"
    ["rpc"; "direct-rpc"; "direct rpc"; "standalone"; "standalone-rpc"; "standalone rpc"]
    "rpc" "direct_rpc" "Direct RPC"
    "Direct RPC" "Use configured standalone RPC endpoint" true
    (mkAdapterPolicy "direct_l1_rpc" ConnectionRpc "rpc_endpoint" None
       core_RPC_INPUTS core_RPC_BEDROCK_CAPABILITIES false false ["l1"] (Some "node_url"));
  mkMode "module"
    ["module"; "basecamp"; "basecamp-module"; "basecamp module"]
    "module" "basecamp_module" "Basecamp module"
    "Basecamp module" "Use the host-provided Bedrock module API" true
    (mkAdapterPolicy BLOCKCHAIN_MODULE ConnectionModule "module" (Some BLOCKCHAIN_MODULE)
       [] core_MODULE_BEDROCK_CAPABILITIES false true ["l1"; "wallet.l1"] None);
  mkMode "logoscore_cli"
    ["logoscore_cli"; "logoscore-cli"; "logoscore cli"]
    "module" "logoscore_cli" "LogosCore CLI"
    "LogosCore CLI (Bedrock)" "Call blockchain_module with logoscore call" true
    (mkAdapterPolicy "logoscore_cli_blockchain_module" ConnectionLogoscoreCli "module" (Some BLOCKCHAIN_MODULE)
       [] core_MODULE_BEDROCK_CAPABILITIES false true ["l1"; "wallet.l1"] None)].

Definition storage_REST_INPUTS : list AdapterInputPolicy :=
  [mkInput "rest_endpoint" "REST URL" true;
   mkInput "metrics_endpoint" "Metrics URL" false].
Definition storage_METRICS_INPUTS : list AdapterInputPolicy :=
  [mkInput "metrics_endpoint" "Metrics URL" true].
Definition storage_MODULE_CAPABILITIES : list string :=
  ["storage.identity.read"; "storage.space.read"; "storage.manifests.read";
   "storage.content.exists"; "storage.content.read_by_cid"; "storage.content.upload";
   "storage.backup.sync_read_by_cid"; "storage.backup.sync_upload";
   "storage.content.download_to_file"; "storage.content.remove"].
Definition storage_LOGOSCORE_CLI_CAPABILITIES : list string :=
  ["storage.identity.read"; "storage.space.read"; "storage.manifests.read";
   "storage.content.exists"; "storage.content.read_by_cid"; "storage.content.upload";
   "storage.backup.sync_read_by_cid"; "storage.backup.sync_upload";
   "storage.shared_idl.sync_read"; "storage.shared_idl.sync_upload";
   "storage.content.download_to_file"; "storage.content.remove"].
Definition storage_REST_CAPABILITIES : list string :=
  ["storage.identity.read"; "storage.space.read"; "storage.manifests.read";
   "storage.content.exists"; "storage.content.read_by_cid"; "storage.content.upload";
   "storage.backup.sync_read_by_cid"; "storage.backup.sync_upload";
   "storage.shared_idl.sync_read"; "storage.shared_idl.sync_upload";
   "storage.rest.read_by_cid"; "storage.rest.upload"; "storage.content.download_to_file";
   "storage.content.remove"; "storage.metrics.read"].
Definition storage_METRICS_CAPABILITIES : list string :=
  ["storage.metrics.read"].

Definition STORAGE_SOURCE_MODES : list SourceModePolicy := [
  mkMode "module"
    ["module"; "basecamp"; "basecamp-module"; "basecamp module"]
    "module" "storage_module" "Storage module"
    "Storage module" "Use the host-provided Storage module API" true
    (mkAdapterPolicy STORAGE_MODULE ConnectionModule "module" (Some STORAGE_MODULE)
       [] storage_MODULE_CAPABILITIES true true ["storage"] None);
  mkMode "logoscore_cli"
    ["logoscore_cli"; "logoscore-cli"; "logoscore cli"]
    "module" "logoscore_cli" "LogosCore CLI"
    "LogosCore CLI (Storage)" "Call storage_module with logoscore call" true
    (mkAdapterPolicy "logoscore_cli_storage_module" ConnectionLogoscoreCli "module" (Some STORAGE_MODULE)
       [] storage_LOGOSCORE_CLI_CAPABILITIES true true ["storage"] None);
  mkMode "rest"
    ["rest"; "standalone"; "standalone-rest"; "standalone rest"; "direct-rest"; "direct rest"]
    "rest" "storage_rest" "Standalone REST"
    "Standalone REST" "Inspect Storage through its REST API and optional metrics endpoint" true
    (mkAdapterPolicy "direct_storage_rest" ConnectionRest "rest_endpoint" None
       storage_REST_INPUTS storage_REST_CAPABILITIES true true ["storage"] (Some "storage_rest_url"));
  mkMode "metrics"
    ["metrics"; "metrics-only"; "metrics only"]
    "metrics" "metrics_only" "Metrics only"
    "Metrics only" "Scrape a Prometheus/OpenMetrics endpoint" true
    (mkAdapterPolicy "storage_metrics" ConnectionMetrics "metrics_endpoint" None
       storage_METRICS_INPUTS storage_METRICS_CAPABILITIES false false ["storage"] (Some "storage_metrics_url"))].

Definition delivery_REST_INPUTS : list AdapterInputPolicy :=
  [mkInput "rest_endpoint" "Waku REST URL" true;
   mkInput "metrics_endpoint" "Metrics URL" false].
Definition delivery_METRICS_INPUTS : list AdapterInputPolicy :=
  [mkInput "metrics_endpoint" "Metrics URL" true].
Definition delivery_STORE_INPUTS : list AdapterInputPolicy :=
  [mkInput "store_peer_addr" "Store provider multiaddress" false].
Definition delivery_MODULE_CAPABILITIES : list string :=
  ["delivery.identity.read"; "delivery.store.query"; "delivery.subscribe";
   "delivery.unsubscribe"; "delivery.send"; "delivery.node.start"; "delivery.node.stop"].
Definition delivery_LOGOSCORE_CLI_CAPABILITIES : list string :=
  ["delivery.identity.read"; "delivery.store.query"; "delivery.subscribe";
   "delivery.unsubscribe"; "delivery.send"; "delivery.node.start"; "delivery.node.stop"].
Definition delivery_REST_CAPABILITIES : list string :=
  ["delivery.identity.read"; "delivery.store.query"; "delivery.subscribe";
   "delivery.unsubscribe"; "delivery.send"; "delivery.metrics.read"].
Definition delivery_METRICS_CAPABILITIES : list string :=
  ["delivery.metrics.read"].
Definition delivery_MONITOR_CAPABILITIES : list string :=
  ["delivery.identity.read"; "delivery.topics.read"; "delivery.network_monitor.read";
   "delivery.metrics.read"].

Definition MESSAGING_SOURCE_MODES : list SourceModePolicy := [
  mkMode "module"
    ["module"; "basecamp"; "basecamp-module"; "basecamp module"]
    "module" "delivery_module" "Delivery module"
    "Delivery module" "Use the host-provided Delivery module API" true
    (mkAdapterPolicy DELIVERY_MODULE ConnectionModule "module" (Some DELIVERY_MODULE)
       delivery_STORE_INPUTS delivery_MODULE_CAPABILITIES false true ["delivery"] None);
  mkMode "logoscore_cli"
    ["logoscore_cli"; "logoscore-cli"; "logoscore cli"]
    "module" "logoscore_cli" "LogosCore CLI"
    "LogosCore CLI (Delivery)" "Call delivery_module with logoscore call" true
    (mkAdapterPolicy "logoscore_cli_delivery_module" ConnectionLogoscoreCli "module" (Some DELIVERY_MODULE)
       delivery_STORE_INPUTS delivery_LOGOSCORE_CLI_CAPABILITIES false true ["delivery"] None);
  mkMode "rest"
    ["rest"; "direct-rest"; "direct waku rest"; "waku-rest"]
    "rest" "delivery_rest" "Direct Waku REST"
    "Direct Waku REST" "Inspect Delivery through Waku REST and optional metrics" true
    (mkAdapterPolicy "direct_delivery_rest" ConnectionRest "rest_endpoint" None
       delivery_REST_INPUTS delivery_REST_CAPABILITIES false true ["delivery"] (Some "messaging_rest_url"));
  mkMode "metrics"
    ["metrics"; "metrics-only"; "metrics only"]
    "metrics" "metrics_only" "Metrics only"
    "Metrics only" "Scrape a Prometheus/OpenMetrics endpoint" true
    (mkAdapterPolicy "delivery_metrics" ConnectionMetrics "metrics_endpoint" None
       delivery_METRICS_INPUTS delivery_METRICS_CAPABILITIES false false ["delivery"] (Some "messaging_metrics_url"));
  mkMode "network-monitor"
    ["network-monitor"; "delivery-network-monitor"; "delivery network monitor";
     "discovery-crawler"; "discovery crawler"]
    "network-monitor" "delivery_network_monitor" "Delivery Network Monitor"
    "Delivery Network Monitor" "Inspect Delivery fleet topology and optional metrics" true
    (mkAdapterPolicy "delivery_network_monitor" ConnectionNetworkMonitor "rest_endpoint" None
       delivery_REST_INPUTS delivery_MONITOR_CAPABILITIES false false ["delivery"] (Some "messaging_rest_url"))].

Definition sequencer_RPC_INPUTS : list AdapterInputPolicy :=
  [mkInput "rpc_endpoint" "RPC URL" true].
Definition sequencer_CAPABILITIES : list string :=
  ["execution_zone.head.read"; "execution_zone.blocks.read";
   "execution_zone.transactions.read"; "execution_zone.accounts.current.read";
   "execution_zone.accounts.nonces.read"; "execution_zone.commitments.proof.read";
   "execution_zone.programs.read"].

Definition SEQUENCER_SOURCE_MODES : list SourceModePolicy := [
  mkMode "rpc"
    ["rpc"]
    "rpc" "sequencer_rpc" "Sequencer RPC"
    "Sequencer RPC" "Inspect provisional Channel state through Sequencer RPC" true
    (mkAdapterPolicy "direct_sequencer_rpc" ConnectionRpc "rpc_endpoint" None
       sequencer_RPC_INPUTS sequencer_CAPABILITIES false false [] None);
  mkMode "module"
    ["module"]
    "module" "sequencer_module" "Sequencer module"
    "Sequencer module" "Use the Channel-owned Sequencer module" false
    (mkAdapterPolicy SEQUENCER_MODULE_ID ConnectionModule "module" (Some SEQUENCER_MODULE_ID)
       [] [] false false ["wallet.l2"] None)].

Definition indexer_RPC_INPUTS : list AdapterInputPolicy :=
  [mkInput "rpc_endpoint" "RPC URL" true].
Definition indexer_CAPABILITIES : list string :=
  ["execution_zone.head.read"; "execution_zone.blocks.read";
   "execution_zone.blocks.by_hash.read"; "execution_zone.transactions.read";
   "execution_zone.accounts.historical.read"; "execution_zone.accounts.activity.read";
   "execution_zone.transfers.read"].

Definition INDEXER_SOURCE_MODES : list SourceModePolicy := [
  mkMode "rpc"
    ["rpc"]
    "rpc" "indexer_rpc" "Indexer RPC"
    "Indexer RPC" "Inspect finalized Channel history through Indexer RPC" true
    (mkAdapterPolicy "direct_indexer_rpc" ConnectionRpc "rpc_endpoint" None
       indexer_RPC_INPUTS indexer_CAPABILITIES false false [] None);
  mkMode "module"
    ["module"]
    "module" "indexer_module" "Indexer module"
    "Indexer module" "Use the Channel-owned Indexer module" true
    (mkAdapterPolicy INDEXER_MODULE_ID ConnectionModule "module" (Some INDEXER_MODULE_ID)
       [] indexer_CAPABILITIES false false [] None)].

(** ** Tokens ([policy.rs]) *)
Inductive SourceFamily : Type :=
  | FamilyCore | FamilyDelivery | FamilyStorage | FamilyExecutionZoneSequencer
  | FamilyExecutionZoneIndexer.

Definition family_modes (family : SourceFamily) : list SourceModePolicy :=
  match family with
  | FamilyCore => BEDROCK_SOURCE_MODES
  | FamilyDelivery => MESSAGING_SOURCE_MODES
  | FamilyStorage => STORAGE_SOURCE_MODES
  | FamilyExecutionZoneSequencer => SEQUENCER_SOURCE_MODES
  | FamilyExecutionZoneIndexer => INDEXER_SOURCE_MODES
  end.

Definition family_from_domain (domain : string) : option SourceFamily :=
  if String.eqb domain "delivery" then Some FamilyDelivery
  else if String.eqb domain "storage" then Some FamilyStorage
  else None.

Definition normalized (value : string) : string := to_ascii_lowercase (trim value).

Definition mode_named (value : string) (mode : SourceModePolicy) : bool :=
  String.eqb (md_key mode) value || existsb (λ alias, String.eqb alias value) (md_aliases mode).

Definition source_mode_matches (mode : SourceModePolicy) (value : string) : bool :=
  mode_named (normalized value) mode.

(** [mode_for_token] of [adapter.rs]. *)
Definition mode_for_token (modes : list SourceModePolicy) (value : string) : option SourceModePolicy :=
  let value := to_ascii_lowercase (trim value) in
  find (mode_named value) modes.

Definition mode_policy_for_token (family : SourceFamily) (value : string) : option SourceModePolicy :=
  find (λ mode, source_mode_matches mode value) (family_modes family).

Definition EMERGENCY_SOURCE_MODE : SourceModePolicy :=
  mkMode "rpc" [] "rpc" "direct_rpc" "Direct RPC" "Direct RPC"
    "Use configured standalone RPC endpoint" false
    (mkAdapterPolicy "unconfigured" ConnectionRpc "rpc_endpoint" None [] [] false false [] None).

Definition fallback_source_mode_key (family : SourceFamily) : string :=
  match family with
  | FamilyCore | FamilyExecutionZoneSequencer | FamilyExecutionZoneIndexer => "rpc"
  | FamilyDelivery | FamilyStorage => "rest"
  end.

Definition mode_with_key (key : string) (modes : list SourceModePolicy) : option SourceModePolicy :=
  find (λ mode, String.eqb (md_key mode) key) modes.

Definition fallback_source_mode (family : SourceFamily) : SourceModePolicy :=
  match mode_with_key (fallback_source_mode_key family) (family_modes family) with
  | Some mode => mode
  | None => default EMERGENCY_SOURCE_MODE (head (family_modes family))
  end.

Definition fallback_mode_policy (family : SourceFamily) : SourceModePolicy :=
  default (fallback_source_mode family)
    (mode_with_key (fallback_source_mode_key family) (family_modes family)).

Definition mode_policy (family : SourceFamily) (value : string) : SourceModePolicy :=
  default (fallback_mode_policy family) (mode_policy_for_token family value).

Definition normalized_source_mode (family : SourceFamily) (value : string) : string :=
  md_key (mode_policy family value).
Definition effective_source_mode (family : SourceFamily) (value : string) : string :=
  md_effective (mode_policy family value).
Definition source_mode_is_token (family : SourceFamily) (value : string) : bool :=
  existsb (λ mode, source_mode_matches mode value) (family_modes family).

Definition DEFAULT_NODE_ENDPOINT : string := "http://127.0.0.1:8080/".
Definition DEFAULT_DELIVERY_REST_ENDPOINT : string := "http://127.0.0.1:8645".
Definition DEFAULT_DELIVERY_METRICS_ENDPOINT : string := "http://127.0.0.1:8008/metrics".
Definition DEFAULT_STORAGE_REST_ENDPOINT : string := "http://127.0.0.1:8080/api/storage/v1".
Definition DEFAULT_STORAGE_METRICS_ENDPOINT : string := "http://127.0.0.1:8008/metrics".

Definition default_source_mode_for_domain (domain : string) : string :=
  match family_from_domain domain with
  | Some (FamilyDelivery | FamilyStorage) => "rest"
  | _ => "rpc"
  end.

Definition default_endpoint_for_domain (domain : string) : string :=
  match family_from_domain domain with
  | Some FamilyDelivery => DEFAULT_DELIVERY_REST_ENDPOINT
  | Some FamilyStorage => DEFAULT_STORAGE_REST_ENDPOINT
  | _ => ""
  end.

Definition adapter_for_connector (families : list (list SourceModePolicy)) (connector_id : string)
    : option SourceAdapterPolicy :=
  md_adapter <$> find (λ mode, String.eqb (ap_connector_id (md_adapter mode)) connector_id) (concat families).

Definition network_adapter_policy_for_connector (connector_id : string) : option SourceAdapterPolicy :=
  adapter_for_connector [BEDROCK_SOURCE_MODES; STORAGE_SOURCE_MODES; MESSAGING_SOURCE_MODES] connector_id.

Definition capability_provider_mode_policies : list SourceModePolicy :=
  List.filter (λ mode, match ap_capability_scopes (md_adapter mode) with [] => false | _ => true end)
    (concat [BEDROCK_SOURCE_MODES; STORAGE_SOURCE_MODES; MESSAGING_SOURCE_MODES;
             SEQUENCER_SOURCE_MODES; INDEXER_SOURCE_MODES]).

(** ** Typed modes *)
Inductive ModuleTransportKind : Type := TransportModule | TransportLogoscoreCli.
#[export] Instance ModuleTransportKind_eq_dec : EqDecision ModuleTransportKind.
Proof. solve_decision. Defined.

Inductive CoreSourceMode : Type := CoreRpc | CoreModule | CoreLogoscoreCli.
Inductive CoreEndpointMode : Type := EndpointRpc | EndpointModule | EndpointLogoscoreCli.
Inductive DeliverySourceMode : Type :=
  | DeliveryModeModule | DeliveryModeLogoscoreCli | DeliveryModeRest | DeliveryModeMetrics
  | DeliveryModeNetworkMonitor | DeliveryModeUnsupported.
Inductive StorageSourceMode : Type :=
  | StorageModeModule | StorageModeLogoscoreCli | StorageModeRest | StorageModeMetrics
  | StorageModeUnsupported.

(** [match policy.key { ... }]: the value of the first key that fits. *)
Definition match_key {A} (cases : list (string * A)) (key : string) : option A :=
  snd <$> find (λ case, String.eqb case.1 key) cases.

Definition CoreSourceMode_from_token (value : string) : option CoreSourceMode :=
  policy ← mode_policy_for_token FamilyCore value;
  match_key [("rpc", CoreRpc); ("module", CoreModule); ("logoscore_cli", CoreLogoscoreCli)] (md_key policy).

Definition CoreSourceMode_normalized (mode : CoreSourceMode) : string :=
  match mode with
  | CoreRpc => "rpc"
  | CoreModule => "module"
  | CoreLogoscoreCli => "logoscore_cli"
  end.

Definition CoreSourceMode_effective (mode : CoreSourceMode) : CoreEndpointMode :=
  match mode with
  | CoreModule => EndpointModule
  | CoreLogoscoreCli => EndpointLogoscoreCli
  | CoreRpc => EndpointRpc
  end.

Definition CoreEndpointMode_str (mode : CoreEndpointMode) : string :=
  match mode with
  | EndpointRpc => "rpc"
  | EndpointModule => "module"
  | EndpointLogoscoreCli => "logoscore_cli"
  end.

Definition normalized_core_source_mode (value : string) : string :=
  default "rpc" (CoreSourceMode_normalized <$> CoreSourceMode_from_token value).

Definition DeliverySourceMode_from_token (value : string) : DeliverySourceMode :=
  default DeliveryModeUnsupported
    (policy ← mode_policy_for_token FamilyDelivery value;
     match_key [("module", DeliveryModeModule); ("logoscore_cli", DeliveryModeLogoscoreCli);
                ("rest", DeliveryModeRest); ("metrics", DeliveryModeMetrics);
                ("network-monitor", DeliveryModeNetworkMonitor)] (md_key policy)).

Definition DeliverySourceMode_str (mode : DeliverySourceMode) : string :=
  match mode with
  | DeliveryModeModule => "module"
  | DeliveryModeLogoscoreCli => "logoscore_cli"
  | DeliveryModeRest => "rest"
  | DeliveryModeMetrics => "metrics"
  | DeliveryModeNetworkMonitor => "network-monitor"
  | DeliveryModeUnsupported => "unsupported"
  end.

Definition StorageSourceMode_from_token (value : string) : StorageSourceMode :=
  default StorageModeUnsupported
    (policy ← mode_policy_for_token FamilyStorage value;
     match_key [("module", StorageModeModule); ("logoscore_cli", StorageModeLogoscoreCli);
                ("rest", StorageModeRest); ("metrics", StorageModeMetrics)] (md_key policy)).

Definition StorageSourceMode_str (mode : StorageSourceMode) : string :=
  match mode with
  | StorageModeModule => "module"
  | StorageModeLogoscoreCli => "logoscore_cli"
  | StorageModeRest => "rest"
  | StorageModeMetrics => "metrics"
  | StorageModeUnsupported => "unsupported"
  end.

(** ** Adapters of the reports ([storage/layer.rs], [delivery/layer.rs]) *)
Definition present (value : option string) : option string := value ≫= trimmed_nonempty.

Inductive StorageAdapter : Type :=
  | StorageAdapterModule (transport : ModuleTransportKind)
  | StorageAdapterRest (endpoint : string) (metrics_endpoint : option string)
  | StorageAdapterMetrics (endpoint : string)
  | StorageAdapterUnsupported (mode : string).

Definition StorageAdapter_select (source_mode : string) (rest_endpoint metrics_endpoint : option string)
    : StorageAdapter :=
  match StorageSourceMode_from_token source_mode with
  | StorageModeModule => StorageAdapterModule TransportModule
  | StorageModeLogoscoreCli => StorageAdapterModule TransportLogoscoreCli
  | StorageModeRest =>
      StorageAdapterRest (default DEFAULT_STORAGE_REST_ENDPOINT (present rest_endpoint))
        (present metrics_endpoint)
  | StorageModeMetrics =>
      StorageAdapterMetrics (default DEFAULT_STORAGE_METRICS_ENDPOINT (present metrics_endpoint))
  | StorageModeUnsupported => StorageAdapterUnsupported source_mode
  end.

Inductive MessagingAdapter : Type :=
  | MessagingAdapterModule (transport : ModuleTransportKind)
  | MessagingAdapterRest (endpoint : string) (metrics_endpoint : option string)
  | MessagingAdapterMetrics (endpoint : string)
  | MessagingAdapterNetworkMonitor (endpoint : string) (metrics_endpoint : option string)
  | MessagingAdapterUnsupported (mode : string).

Definition MessagingAdapter_select (source_mode : string) (rest_endpoint metrics_endpoint : option string)
    : MessagingAdapter :=
  match DeliverySourceMode_from_token source_mode with
  | DeliveryModeModule => MessagingAdapterModule TransportModule
  | DeliveryModeLogoscoreCli => MessagingAdapterModule TransportLogoscoreCli
  | DeliveryModeRest =>
      MessagingAdapterRest (default DEFAULT_DELIVERY_REST_ENDPOINT (present rest_endpoint))
        (present metrics_endpoint)
  | DeliveryModeMetrics =>
      MessagingAdapterMetrics (default DEFAULT_DELIVERY_METRICS_ENDPOINT (present metrics_endpoint))
  | DeliveryModeNetworkMonitor =>
      MessagingAdapterNetworkMonitor (default DEFAULT_DELIVERY_REST_ENDPOINT (present rest_endpoint))
        (present metrics_endpoint)
  | DeliveryModeUnsupported => MessagingAdapterUnsupported source_mode
  end.

(** ** The source of a bridge call ([selection.rs]) *)
Inductive BedrockAdapter : Type :=
  | BedrockRpc (endpoint : string)
  | BedrockModule (transport : ModuleTransportKind).

Record SourceEndpoint : Type := mkSourceEndpoint {
  se_mode : CoreEndpointMode;
  se_endpoint : string;
  se_next_index : nat;
  se_module : string;
}.

Definition source_endpoint_adapter (source : SourceEndpoint) : BedrockAdapter :=
  match se_mode source with
  | EndpointRpc => BedrockRpc (se_endpoint source)
  | EndpointModule => BedrockModule TransportModule
  | EndpointLogoscoreCli => BedrockModule TransportLogoscoreCli
  end.

Definition source_endpoint_from_adapter (adapter : BedrockAdapter) (next_index : nat) (module : string)
    : SourceEndpoint :=
  match adapter with
  | BedrockRpc endpoint => mkSourceEndpoint EndpointRpc endpoint next_index module
  | BedrockModule transport =>
      mkSourceEndpoint
        match transport with
        | TransportModule => EndpointModule
        | TransportLogoscoreCli => EndpointLogoscoreCli
        end
        "" next_index module
  end.

Definition args_source_endpoint (args : Args) (index : nat) (label : string) : Result SourceEndpoint :=
  first ← args_string args index label;
  match CoreSourceMode_from_token first with
  | Some mode =>
      adapter ← match mode with
                | CoreRpc => endpoint ← args_string args (index + 1) label; Ok (BedrockRpc endpoint)
                | CoreModule => Ok (BedrockModule TransportModule)
                | CoreLogoscoreCli => Ok (BedrockModule TransportLogoscoreCli)
                end;
      Ok (source_endpoint_from_adapter adapter
            match mode with
            | CoreRpc => index + 2
            | CoreModule | CoreLogoscoreCli => index + 1
            end%nat
            BLOCKCHAIN_MODULE)
  | None => Ok (source_endpoint_from_adapter (BedrockRpc first) (index + 1) BLOCKCHAIN_MODULE)
  end.

