(* ===== verification/NodeRequests.v ===== *)
(** * Requests to storage and delivery nodes

    [NodeOperationRequest] and [AdapterInitialization] of
    [src/src/source_routing/adapter.rs], the identifiers of [storage/mod.rs],
    and the plans [storage/operations.rs] and [delivery/operations.rs] make of a
    request.  The file system is a class, and so is the random request id of a
    Store query.

    The structures are decoded by the derived deserializers of [serde]: an
    object supplies fields by name and its other entries are ignored, an array
    supplies them by position and may stop before fields that have a default. *)

From S2P Require Import Prelude Json Bytes ModuleEvents OperationRecord OperationSpec SourceModes.
From Stdlib Require Import Ascii.

(** ** Derived deserializers *)
Definition struct_fields (names : list string) (value : Value) : option (list (option Value)) :=
  match value with
  | VObject entries => Some (map (λ name, map_get name entries) names)
  | VArray items =>
      if bool_decide (length items ≤ length names)%nat
      then Some (map Some items ++ replicate (length names - length items) None)
      else None
  | _ => None
  end.

Definition de_field {A} (decode : Value → option A) (field : option Value) : option A :=
  field ≫= decode.
Definition de_field_or {A} (d : A) (decode : Value → option A) (field : option Value) : option A :=
  match field with Some value => decode value | None => Some d end.

Definition de_value (value : Value) : option Value := Some value.

(** [BTreeMap<String, String>]: an object whose entries are all strings. *)
Definition de_text_map (value : Value) : option (list (string * string)) :=
  entries ← as_object value;
  mapM (λ entry, text ← as_str entry.2; Some (entry.1, text)) entries.

(** ** Adapter initializations *)
Record AdapterInitialization : Type := mkInitialization {
  ini_source_mode : string;
  ini_inputs : list (string * string);
}.

Definition de_initialization (value : Value) : option AdapterInitialization :=
  match struct_fields ["source_mode"; "inputs"] value with
  | Some [source_mode; inputs] =>
      source_mode ← de_field_or "" as_str source_mode;
      inputs ← de_field_or [] de_text_map inputs;
      Some (mkInitialization source_mode inputs)
  | _ => None
  end.

Definition text_get (key : string) (inputs : list (string * string)) : option string :=
  snd <$> find (λ entry, String.eqb entry.1 key) inputs.

Definition initialization_input (i : AdapterInitialization) (key : string) : option string :=
  text_get key (ini_inputs i) ≫= trimmed_nonempty.

Definition accepts_input (mode : SourceModePolicy) (key : string) : bool :=
  existsb (λ input, String.eqb (inp_key input) key) (ap_inputs (md_adapter mode)).

Definition normalize_inputs (mode : SourceModePolicy) (i : AdapterInitialization)
    : Result AdapterInitialization :=
  match find (λ entry, negb (accepts_input mode entry.1)) (ini_inputs i) with
  | Some (key, _) =>
      bail ("adapter `" +:+ ap_connector_id (md_adapter mode) +:+ "` does not accept input `"
            +:+ key +:+ "`")
  | None =>
      match find (λ input, inp_required input && bool_decide (initialization_input i (inp_key input) = None))
                 (ap_inputs (md_adapter mode)) with
      | Some input => bail (inp_label input +:+ " is required")
      | None =>
          Ok (mkInitialization (ini_source_mode i)
                (List.filter (λ entry, negb (is_empty (trim entry.2))) (ini_inputs i)))
      end
  end.

Definition initialization_parse (value : Value) (modes : list SourceModePolicy) (default_mode : string)
    : Result AdapterInitialization :=
  initialization ← ok_or "adapter initialization must be an object" (de_initialization value);
  let requested_mode :=
    default default_mode (trimmed_nonempty (ini_source_mode initialization)) in
  mode ← ok_or ("unsupported source mode `" +:+ requested_mode +:+ "`") (mode_for_token modes requested_mode);
  normalize_inputs mode (mkInitialization (md_key mode) (ini_inputs initialization)).

(** ** Node operation requests *)
Record NodeOperationRequest : Type := mkNodeRequest {
  nr_adapter : Value;
  nr_payload : Value;
  nr_mutating_enabled : bool;
}.

Definition de_node_request (value : Value) : option NodeOperationRequest :=
  match struct_fields ["adapter"; "payload"; "mutating_enabled"] value with
  | Some [adapter; payload; mutating_enabled] =>
      adapter ← de_field de_value adapter;
      payload ← de_field_or VNull de_value payload;
      mutating_enabled ← de_field_or false as_bool mutating_enabled;
      Some (mkNodeRequest adapter payload mutating_enabled)
  | _ => None
  end.

Definition node_request_from_value (value : Value) : Result NodeOperationRequest :=
  request ← ok_or "node operation request must be an object" (de_node_request value);
  Ok (mkNodeRequest (nr_adapter request) (nr_payload request) true).

Definition node_request_from_bridge_args (args : Args) : Result NodeOperationRequest :=
  value ← ok_or "node operation request is required" (args_value args 0);
  if negb (zlen args =? 1) then bail "node operation accepts one structured request"
  else node_request_from_value value.

Definition node_payload {A} (decode : Value → option A) (request : NodeOperationRequest) (label : string)
    : Result A :=
  ok_or (label +:+ " payload is invalid") (decode (nr_payload request)).

(** The adapter as the request itself sees it: by name, so an object. *)
Definition node_source_mode (request : NodeOperationRequest) : string :=
  default "direct"
    (mode ← value_get "source_mode" (nr_adapter request); mode ← as_str mode; trimmed_nonempty mode).

Definition node_input (request : NodeOperationRequest) (key : string) : option string :=
  inputs ← value_get "inputs" (nr_adapter request);
  value ← value_get key inputs; value ← as_str value; trimmed_nonempty value.

(** ** Texts shared by both domains *)
Definition required_text (value label : string) : Result string :=
  ok_or (label +:+ " is required") (trimmed_nonempty value).
Definition optional_text (value : string) : option string := trimmed_nonempty value.

Definition context_map (values : list (string * string)) : Map :=
  foldl (λ m kv, map_insert kv.1 (VString kv.2) m) [] values.

(** ** Content identifiers ([storage/mod.rs]) *)
Definition STORAGE_CID_MAX_BYTES : Z := 256.

Definition is_cid_byte (a : ascii) : bool :=
  is_ascii_alphanumeric a || Ascii.eqb a "-"%char || Ascii.eqb a "_"%char.

Definition validate_cid (value label : string) : Result () :=
  if is_empty value then bail (label +:+ " is required")
  else if STORAGE_CID_MAX_BYTES <? str_len value
  then bail (label +:+ " exceeds " +:+ pretty STORAGE_CID_MAX_BYTES +:+ " byte limit")
  else if negb (forallb is_cid_byte (String.list_ascii_of_string value))
  then bail (label +:+ " must contain only ASCII letters, digits, `-`, or `_`")
  else Ok ().

Definition parse_storage_cid (value : string) : Result string :=
  let value := trim value in
  _ ← validate_cid value "storage CID"; Ok value.
Definition parse_backup_cid (value : string) : Result string :=
  let value := trim value in
  _ ← validate_cid value "backup CID"; Ok value.

(** ** Paths

    [Path] on Unix, for absolute paths: trailing separators and [.] components
    do not count; the last component names a file unless it is [..]. *)
Definition path_is_absolute (path : string) : bool := starts_with "/" path.

Fixpoint path_trim_end (reversed : list ascii) : list ascii :=
  match reversed with
  | c :: ((c' :: _) as rest) =>
      if Ascii.eqb c "/"%char then path_trim_end rest
      else if Ascii.eqb c "."%char && Ascii.eqb c' "/"%char then path_trim_end rest
      else reversed
  | _ => reversed
  end.

(** The last component of a trimmed reversed path and what is before it. *)
Fixpoint path_split_last (reversed name : list ascii) : list ascii * list ascii :=
  match reversed with
  | [] => (name, [])
  | c :: rest => if Ascii.eqb c "/"%char then (name, reversed) else path_split_last rest (c :: name)
  end.

Definition path_last_component (path : string) : list ascii * list ascii :=
  path_split_last (path_trim_end (rev (String.list_ascii_of_string path))) [].

Definition path_file_name (path : string) : option string :=
  let name := String.string_of_list_ascii (path_last_component path).1 in
  if is_empty name || String.eqb name ".." then None else Some name.

Definition path_parent (path : string) : option string :=
  let '(name, before) := path_last_component path in
  match name with
  | [] => None
  | _ => Some (String.string_of_list_ascii (rev (path_trim_end before)))
  end.

Class FileSystem : Type := {
  metadata_is_dir : string → option bool;
  path_exists : string → bool;
}.

Definition parse_download_path `{FileSystem} (value : string) : Result string :=
  value ← required_text value "download path";
  if negb (path_is_absolute value) then bail "storage download path must be absolute"
  else match path_file_name value with
       | None => bail "storage download path must name a file"
       | Some _ =>
           parent ← ok_or "storage download path has no parent directory" (path_parent value);
           is_dir ← ok_or ("failed to inspect storage download target directory `" +:+ parent +:+ "`")
                      (metadata_is_dir parent);
           if negb is_dir
           then bail ("storage download target parent is not a directory: `" +:+ parent +:+ "`")
           else if path_exists value
           then bail ("storage download target already exists: `" +:+ value +:+ "`")
           else Ok value
       end.

(** ** Storage plans ([storage/operations.rs]) *)
Inductive StorageOperation : Type :=
  | OpManifests | OpDownloadManifest | OpFetch | OpUpload | OpDownload | OpRemove.

Inductive StorageOperationAdapter : Type :=
  | StorageViaModule (transport : ModuleTransportKind)
  | StorageViaRest (endpoint : string).
Definition StorageClient : Type := StorageOperationAdapter.

Definition storage_client_from_initialization (value : Value) : Result StorageClient :=
  initialization ← initialization_parse value STORAGE_SOURCE_MODES "rest";
  match StorageSourceMode_from_token (ini_source_mode initialization) with
  | StorageModeModule => Ok (StorageViaModule TransportModule)
  | StorageModeLogoscoreCli => Ok (StorageViaModule TransportLogoscoreCli)
  | StorageModeRest =>
      endpoint ← ok_or "Storage REST URL is required" (initialization_input initialization "rest_endpoint");
      Ok (StorageViaRest endpoint)
  | StorageModeMetrics =>
      bail "Storage data actions require storage REST or module source, not metrics"
  | StorageModeUnsupported =>
      bail ("storage source mode `" +:+ ini_source_mode initialization +:+ "` is not supported")
  end.

Definition storage_client_source (client : StorageClient) : string :=
  match client with
  | StorageViaModule TransportModule => "module storage_module"
  | StorageViaModule TransportLogoscoreCli => "logoscore call storage_module"
  | StorageViaRest endpoint => endpoint
  end.

Definition confirms_backup_download_stop (client : StorageClient) : bool :=
  match client with
  | StorageViaModule (TransportModule | TransportLogoscoreCli) => true
  | StorageViaRest _ => false
  end.
Definition confirms_backup_upload_stop (client : StorageClient) : bool :=
  match client with StorageViaModule TransportModule => true | _ => false end.

Definition from_millis (millis : Z) : Z := millis * 1000000.
Definition BACKUP_DOWNLOAD_TERMINATION_HANDSHAKE_GRACE : Z := from_millis 18000.
Definition STORAGE_DOWNLOAD_TERMINATION_HANDSHAKE_GRACE : Z := from_secs 8.

Definition backup_download_termination_handshake_grace (client : StorageClient) : option Z :=
  match client with
  | StorageViaModule (TransportModule | TransportLogoscoreCli) =>
      Some BACKUP_DOWNLOAD_TERMINATION_HANDSHAKE_GRACE
  | StorageViaRest _ => None
  end.

Record StorageDownloadRequest : Type := mkDownload {
  dl_endpoint : string;
  dl_cid : string;
  dl_path : string;
  dl_local_only : bool;
}.

Inductive StorageRestOperation : Type :=
  | RestManifests (endpoint : string)
  | RestDownloadManifest (endpoint cid : string)
  | RestFetch (endpoint cid : string)
  | RestUpload (endpoint path : string) (block_size : Z)
  | RestDownload (request : StorageDownloadRequest)
  | RestRemove (endpoint cid : string).

Inductive StorageOperationPlan : Type :=
  | StoragePlanModule (transport : ModuleTransportKind) (method : string) (args : list Value)
      (context : list (string * string)) (dispatch : bool)
  | StoragePlanRest (operation : StorageRestOperation).

Definition DEFAULT_BLOCK_SIZE : Z := 65536.

Definition de_empty_payload (value : Value) : option () :=
  match struct_fields [] value with Some [] => Some () | _ => None end.

Definition de_cid_payload (value : Value) : option string :=
  match struct_fields ["cid"] value with Some [cid] => de_field as_str cid | _ => None end.

Definition de_upload_payload (value : Value) : option (string * Z) :=
  match struct_fields ["path"; "block_size"] value with
  | Some [path; block_size] =>
      path ← de_field as_str path;
      block_size ← de_field_or DEFAULT_BLOCK_SIZE as_u64 block_size;
      Some (path, block_size)
  | _ => None
  end.

Record DownloadPayload : Type := mkDownloadPayload {
  dp_cid : string;
  dp_path : string;
  dp_local_only : bool;
  dp_block_size : Z;
}.

Definition de_download_payload (value : Value) : option DownloadPayload :=
  match struct_fields ["cid"; "path"; "local_only"; "block_size"] value with
  | Some [cid; path; local_only; block_size] =>
      cid ← de_field as_str cid;
      path ← de_field as_str path;
      local_only ← de_field_or false as_bool local_only;
      block_size ← de_field_or DEFAULT_BLOCK_SIZE as_u64 block_size;
      Some (mkDownloadPayload cid path local_only block_size)
  | _ => None
  end.

Definition value_string (values : list Value) (index : nat) : string :=
  default "" (values !! index ≫= as_str).

Definition plan_for_client (client : StorageClient) (method : string) (args : list Value)
    (context : list (string * string)) (dispatch : bool) : Result (StorageOperationPlan * Map) :=
  let ctx := context_map context in
  match client with
  | StorageViaModule transport => Ok (StoragePlanModule transport method args context dispatch, ctx)
  | StorageViaRest endpoint =>
      operation ←
        (if String.eqb method "manifests" then Ok (RestManifests endpoint)
         else if String.eqb method "downloadManifest"
         then Ok (RestDownloadManifest endpoint (value_string args 0))
         else if String.eqb method "fetch" then Ok (RestFetch endpoint (value_string args 0))
         else if String.eqb method "uploadUrl"
         then Ok (RestUpload endpoint (value_string args 0)
                    (default DEFAULT_BLOCK_SIZE (args !! 1%nat ≫= as_u64)))
         else if String.eqb method "remove" then Ok (RestRemove endpoint (value_string args 0))
         else bail ("storage REST operation `" +:+ method +:+ "` is not supported"));
      Ok (StoragePlanRest operation, map_insert "endpoint" (VString endpoint) ctx)
  end.

Definition local_or_network (local_only : bool) : string := if local_only then "local" else "network".

Section storage.
Context `{FileSystem}.

Definition storage_operation_plan (request : NodeOperationRequest) (operation : StorageOperation)
    (client : StorageClient) : Result (StorageOperationPlan * Map) :=
  match operation with
  | OpManifests =>
      _ ← node_payload de_empty_payload request "storage manifests";
      plan_for_client client "manifests" [] [] false
  | OpDownloadManifest =>
      cid ← node_payload de_cid_payload request "storage manifest";
      cid ← parse_storage_cid cid;
      plan_for_client client "downloadManifest" [VString cid] [("cid", cid)] true
  | OpFetch =>
      cid ← node_payload de_cid_payload request "storage fetch";
      cid ← parse_storage_cid cid;
      plan_for_client client "fetch" [VString cid] [("cid", cid)] true
  | OpUpload =>
      '(path, block_size) ← node_payload de_upload_payload request "storage upload";
      path ← required_text path "file path";
      if starts_with "http://" path || starts_with "https://" path
      then bail "storage REST upload expects a local file path"
      else
        let block_size := Z.max block_size 1 in
        plan_for_client client "uploadUrl" [VString path; json_u64 block_size] [("path", path)] true
  | OpDownload =>
      payload ← node_payload de_download_payload request "storage download";
      cid ← parse_storage_cid (dp_cid payload);
      path ← parse_download_path (dp_path payload);
      let ctx := map_insert "source" (VString (local_or_network (dp_local_only payload)))
                   (context_map [("cid", cid); ("path", path)]) in
      match client with
      | StorageViaModule transport =>
          Ok (StoragePlanModule transport "downloadToUrl"
                [VString cid; VString path; VBool (dp_local_only payload);
                 json_u64 (Z.max (dp_block_size payload) 1)]
                [("cid", cid); ("path", path)] true, ctx)
      | StorageViaRest endpoint =>
          Ok (StoragePlanRest (RestDownload (mkDownload endpoint cid path (dp_local_only payload))), ctx)
      end
  | OpRemove =>
      cid ← node_payload de_cid_payload request "storage remove";
      cid ← parse_storage_cid cid;
      plan_for_client client "remove" [VString cid] [("cid", cid)] true
  end.

Record StorageOperationRequest : Type := mkStorageRequest {
  sr_plan : StorageOperationPlan;
  sr_context : Map;
}.

Definition storage_request_parse (request : NodeOperationRequest) (operation : StorageOperation)
    : Result StorageOperationRequest :=
  client ← storage_client_from_initialization (nr_adapter request);
  '(plan, ctx) ← storage_operation_plan request operation client;
  Ok (mkStorageRequest plan ctx).
End storage.

Definition storage_request_termination_handshake_grace (request : StorageOperationRequest) : option Z :=
  match sr_plan request with
  | StoragePlanModule TransportLogoscoreCli method _ _ _ =>
      if String.eqb method "downloadToUrl" then Some STORAGE_DOWNLOAD_TERMINATION_HANDSHAKE_GRACE else None
  | _ => None
  end.

(** The requests that are not one call of the node. *)
Record StorageExistsRequest : Type := mkExists { ex_client : StorageClient; ex_cid : string }.

Definition storage_exists_parse (args : Args) : Result StorageExistsRequest :=
  request ← node_request_from_bridge_args args;
  cid ← node_payload de_cid_payload request "storage exists";
  client ← storage_client_from_initialization (nr_adapter request);
  cid ← parse_storage_cid cid;
  Ok (mkExists client cid).

Record StorageBackupUploadRequest : Type := mkBackupUpload {
  bu_client : StorageClient;
  bu_backup_catalog_id : string;
  bu_block_size : Z;
}.

Definition de_backup_upload_payload (value : Value) : option (string * Z) :=
  match struct_fields ["backup_catalog_id"; "block_size"] value with
  | Some [id; block_size] =>
      id ← de_field as_str id;
      block_size ← de_field_or DEFAULT_BLOCK_SIZE as_u64 block_size;
      Some (id, block_size)
  | _ => None
  end.

Definition backup_upload_parse_request (request : NodeOperationRequest) : Result StorageBackupUploadRequest :=
  '(id, block_size) ← node_payload de_backup_upload_payload request "settings backup";
  client ← storage_client_from_initialization (nr_adapter request);
  id ← required_text id "backup catalog id";
  Ok (mkBackupUpload client id (Z.max block_size 1)).

Record StoragePayloadUploadRequest : Type := mkPayloadUpload {
  pu_client : StorageClient;
  pu_filename : string;
  pu_payload : Value;
  pu_block_size : Z;
}.

Definition de_payload_upload_payload (value : Value) : option (string * Value * Z) :=
  match struct_fields ["filename"; "payload"; "block_size"] value with
  | Some [filename; payload; block_size] =>
      filename ← de_field as_str filename;
      payload ← de_field de_value payload;
      block_size ← de_field_or DEFAULT_BLOCK_SIZE as_u64 block_size;
      Some (filename, payload, block_size)
  | _ => None
  end.

Definition payload_upload_parse_request (request : NodeOperationRequest)
    : Result StoragePayloadUploadRequest :=
  '(filename, payload, block_size) ←
    node_payload de_payload_upload_payload request "storage payload upload";
  client ← storage_client_from_initialization (nr_adapter request);
  filename ← required_text filename "payload filename";
  Ok (mkPayloadUpload client filename payload (Z.max block_size 1)).

Record StorageBackupDownloadRequest : Type := mkBackupDownload {
  bd_client : StorageClient;
  bd_cid : string;
  bd_local_only : bool;
}.

Definition de_restore_payload (value : Value) : option (string * bool) :=
  match struct_fields ["cid"; "local_only"] value with
  | Some [cid; local_only] =>
      cid ← de_field as_str cid;
      local_only ← de_field_or false as_bool local_only;
      Some (cid, local_only)
  | _ => None
  end.

Definition backup_download_parse_request (request : NodeOperationRequest)
    : Result StorageBackupDownloadRequest :=
  '(cid, local_only) ← node_payload de_restore_payload request "settings backup download";
  cid ← parse_backup_cid cid;
  client ← storage_client_from_initialization (nr_adapter request);
  Ok (mkBackupDownload client cid local_only).

Definition download_scope (request : StorageBackupDownloadRequest) : string :=
  local_or_network (bd_local_only request).

(** What a dispatch of the storage module ends with. *)
Definition storage_module_dispatch_outcome (method : string) (receipt : ModuleDispatchReceipt)
    : Result NodeOperationOutcome :=
  let accepted :=
    if String.eqb method "uploadUrl" then
      correlation ← session_correlation receipt;
      Some (correlation, contract_new STORAGE_MODULE (Some "storageUploadProgress") "storageUploadDone"
                           None KSession)
    else None in
  let acknowledgement := rc_acknowledgement receipt in
  match accepted with
  | Some (correlation, terminal_event) =>
      Ok (NodeAccepted (mkAcceptance acknowledgement correlation terminal_event))
  | None =>
      if String.eqb method "uploadUrl"
      then bail ("storage module `" +:+ method +:+ "` returned no session ID")
      else Ok (NodeDispatched acknowledgement)
  end.

(** ** Delivery plans ([delivery/operations.rs]) *)
Inductive DeliveryOperation : Type :=
  | OpSubscribe | OpUnsubscribe | OpSend | OpCreateNode | OpStart | OpStop | OpStoreQuery.

Inductive MessagingOperationAdapter : Type :=
  | MessagingViaModule (transport : ModuleTransportKind) (store_peer_addr : option string)
  | MessagingViaRest (endpoint : string).

Inductive DeliveryRestOperation : Type :=
  | RestSubscription (endpoint topic : string) (subscribe : bool)
  | RestSend (endpoint topic payload : string)
  | RestStoreQuery (endpoint : string) (peer_addr content_topics pubsub_topic cursor : option string)
      (page_size : Z) (ascending include_data : bool).

Inductive DeliveryOperationPlan : Type :=
  | DeliveryPlanModule (transport : ModuleTransportKind) (method : string) (args : list Value)
      (context : list (string * string)) (dispatch : bool)
  | DeliveryPlanModuleStoreQuery (transport : ModuleTransportKind) (peer_addr : string) (query : Value)
      (page_size : Z) (include_data : bool)
  | DeliveryPlanRest (operation : DeliveryRestOperation).

Record DeliveryOperationRequest : Type := mkDeliveryRequest {
  dr_plan : DeliveryOperationPlan;
  dr_context : Map;
}.

Definition MAX_STORE_PAGE_SIZE : Z := 100.

Definition de_topic_payload (value : Value) : option string :=
  match struct_fields ["topic"] value with Some [topic] => de_field as_str topic | _ => None end.

Definition de_send_payload (value : Value) : option (string * string) :=
  match struct_fields ["topic"; "payload"] value with
  | Some [topic; payload] =>
      topic ← de_field as_str topic; payload ← de_field as_str payload; Some (topic, payload)
  | _ => None
  end.

Definition de_create_node_payload (value : Value) : option string :=
  match struct_fields ["config"] value with Some [config] => de_field as_str config | _ => None end.

Record StoreQueryPayload : Type := mkStoreQuery {
  sq_peer_addr : string;
  sq_content_topics : string;
  sq_pubsub_topic : string;
  sq_cursor : string;
  sq_page_size : Z;
  sq_ascending : bool;
  sq_include_data : bool;
}.

Definition de_store_query_payload (value : Value) : option StoreQueryPayload :=
  match struct_fields ["peer_addr"; "content_topics"; "pubsub_topic"; "cursor"; "page_size";
                       "ascending"; "include_data"] value with
  | Some [peer_addr; content_topics; pubsub_topic; cursor; page_size; ascending; include_data] =>
      peer_addr ← de_field_or "" as_str peer_addr;
      content_topics ← de_field_or "" as_str content_topics;
      pubsub_topic ← de_field_or "" as_str pubsub_topic;
      cursor ← de_field_or "" as_str cursor;
      page_size ← de_field_or 20 as_u64 page_size;
      ascending ← de_field_or false as_bool ascending;
      include_data ← de_field_or false as_bool include_data;
      Some (mkStoreQuery peer_addr content_topics pubsub_topic cursor page_size ascending include_data)
  | _ => None
  end.

(** [getrandom] and [hex::encode] of its bytes: the id of a Store query. *)
Class StoreRequestIds : Type := { new_delivery_store_request_id : Result string }.

Definition insert_option (key : string) (value : option Value) (m : Map) : Map :=
  match value with Some value => map_insert key value m | None => m end.

Definition delivery_store_query_request (request_id : string)
    (content_topics pubsub_topic cursor : option string) (page_size : Z) (ascending include_data : bool)
    : Value :=
  VObject
    (insert_option "paginationCursor" (VString <$> cursor)
    (insert_option "pubsubTopic" (VString <$> pubsub_topic)
    (insert_option "contentTopics" ((λ topic, VArray [VString topic]) <$> content_topics)
    (map_insert "paginationLimit" (json_u64 page_size)
    (map_insert "paginationForward" (VBool ascending)
    (map_insert "includeData" (VBool include_data)
    (map_insert "requestId" (VString request_id) []))))))).

Definition delivery_parse_adapter (value : Value) : Result MessagingOperationAdapter :=
  initialization ← initialization_parse value MESSAGING_SOURCE_MODES "rest";
  let store_peer_addr := initialization_input initialization "store_peer_addr" in
  match DeliverySourceMode_from_token (ini_source_mode initialization) with
  | DeliveryModeModule => Ok (MessagingViaModule TransportModule store_peer_addr)
  | DeliveryModeLogoscoreCli => Ok (MessagingViaModule TransportLogoscoreCli store_peer_addr)
  | DeliveryModeRest =>
      endpoint ← ok_or "Waku REST URL is required" (initialization_input initialization "rest_endpoint");
      Ok (MessagingViaRest endpoint)
  | DeliveryModeMetrics =>
      bail "Delivery message actions require delivery REST or module source, not metrics"
  | DeliveryModeNetworkMonitor =>
      bail "Delivery message actions require delivery REST or module source, not network monitor"
  | DeliveryModeUnsupported =>
      bail ("delivery source mode `" +:+ ini_source_mode initialization +:+ "` is not supported")
  end.

Definition require_module_adapter (adapter : MessagingOperationAdapter) : Result () :=
  match adapter with
  | MessagingViaModule _ _ => Ok ()
  | MessagingViaRest _ => bail "delivery node lifecycle actions require delivery module source"
  end.

Definition module_transport_kind (adapter : MessagingOperationAdapter) : Result ModuleTransportKind :=
  match adapter with
  | MessagingViaModule transport _ => Ok transport
  | MessagingViaRest _ => bail "delivery node lifecycle actions require delivery module source"
  end.

Section delivery.
Context `{StoreRequestIds}.

Definition delivery_subscription_plan (request : NodeOperationRequest)
    (adapter : MessagingOperationAdapter) (subscribe : bool) : Result (DeliveryOperationPlan * Map) :=
  topic ← node_payload de_topic_payload request "delivery subscription";
  topic ← required_text topic "content topic";
  match adapter with
  | MessagingViaModule transport _ =>
      Ok (DeliveryPlanModule transport (if subscribe then "subscribe" else "unsubscribe")
            [VString topic] [] false,
          context_map [("contentTopic", topic)])
  | MessagingViaRest endpoint =>
      Ok (DeliveryPlanRest (RestSubscription endpoint topic subscribe),
          map_insert "endpoint" (VString endpoint) (context_map [("contentTopic", topic)]))
  end.

Definition delivery_send_plan (request : NodeOperationRequest) (adapter : MessagingOperationAdapter)
    : Result (DeliveryOperationPlan * Map) :=
  '(topic, message) ← node_payload de_send_payload request "delivery send";
  topic ← required_text topic "content topic";
  message ← required_text message "message payload";
  let bytes := pretty (str_len message) in
  let ctx := [("contentTopic", topic); ("bytes", bytes)] in
  match adapter with
  | MessagingViaModule transport _ =>
      Ok (DeliveryPlanModule transport "send" [VString topic; VString message] ctx true, context_map ctx)
  | MessagingViaRest endpoint =>
      Ok (DeliveryPlanRest (RestSend endpoint topic message),
          map_insert "endpoint" (VString endpoint) (context_map ctx))
  end.

Definition delivery_lifecycle_plan (request : NodeOperationRequest) (adapter : MessagingOperationAdapter)
    (method : string) : Result (DeliveryOperationPlan * Map) :=
  _ ← require_module_adapter adapter;
  _ ← node_payload de_empty_payload request "delivery node lifecycle";
  transport ← module_transport_kind adapter;
  Ok (DeliveryPlanModule transport method [] [] true, []).

Definition delivery_create_node_plan (request : NodeOperationRequest) (adapter : MessagingOperationAdapter)
    : Result (DeliveryOperationPlan * Map) :=
  _ ← require_module_adapter adapter;
  config ← node_payload de_create_node_payload request "delivery node creation";
  config ← required_text config "node config";
  transport ← module_transport_kind adapter;
  Ok (DeliveryPlanModule transport "createNode" [VString config] [] false, []).

Definition delivery_store_query_plan (request : NodeOperationRequest) (adapter : MessagingOperationAdapter)
    : Result (DeliveryOperationPlan * Map) :=
  payload ← node_payload de_store_query_payload request "Delivery Store query";
  let content_topics := optional_text (sq_content_topics payload) in
  let ctx := insert_option "contentTopic" (VString <$> content_topics) [] in
  let pubsub_topic := optional_text (sq_pubsub_topic payload) in
  let cursor := optional_text (sq_cursor payload) in
  let page_size := Z.min (Z.max (sq_page_size payload) 1) MAX_STORE_PAGE_SIZE in
  match adapter with
  | MessagingViaModule transport store_peer_addr =>
      peer_addr ← ok_or "Store provider multiaddress is required for Delivery"
                    (match optional_text (sq_peer_addr payload) with
                     | Some peer_addr => Some peer_addr
                     | None => store_peer_addr
                     end);
      request_id ← new_delivery_store_request_id;
      let query := delivery_store_query_request request_id content_topics pubsub_topic cursor page_size
                     (sq_ascending payload) (sq_include_data payload) in
      Ok (DeliveryPlanModuleStoreQuery transport peer_addr query page_size (sq_include_data payload),
          map_insert "storePeer" (VString peer_addr) ctx)
  | MessagingViaRest endpoint =>
      Ok (DeliveryPlanRest
            (RestStoreQuery endpoint (optional_text (sq_peer_addr payload)) content_topics pubsub_topic
               cursor page_size (sq_ascending payload) (sq_include_data payload)),
          map_insert "endpoint" (VString endpoint) ctx)
  end.

Definition delivery_operation_plan (request : NodeOperationRequest) (adapter : MessagingOperationAdapter)
    (operation : DeliveryOperation) : Result (DeliveryOperationPlan * Map) :=
  match operation with
  | OpSubscribe => delivery_subscription_plan request adapter true
  | OpUnsubscribe => delivery_subscription_plan request adapter false
  | OpSend => delivery_send_plan request adapter
  | OpCreateNode => delivery_create_node_plan request adapter
  | OpStart => delivery_lifecycle_plan request adapter "start"
  | OpStop => delivery_lifecycle_plan request adapter "stop"
  | OpStoreQuery => delivery_store_query_plan request adapter
  end.

Definition delivery_request_parse (request : NodeOperationRequest) (operation : DeliveryOperation)
    : Result DeliveryOperationRequest :=
  adapter ← delivery_parse_adapter (nr_adapter request);
  '(plan, ctx) ← delivery_operation_plan request adapter operation;
  Ok (mkDeliveryRequest plan ctx).
End delivery.

Definition delivery_module_dispatch_outcome (method : string) (receipt : ModuleDispatchReceipt)
    : Result NodeOperationOutcome :=
  let accepted :=
    if String.eqb method "send" then
      correlation ← request_correlation receipt;
      Some (correlation,
            with_success_event_alias
              (contract_new DELIVERY_MODULE None "messagePropagated" (Some "messageError") KRequest)
              "messageSent")
    else None in
  let acknowledgement := rc_acknowledgement receipt in
  match accepted with
  | Some (correlation, terminal_event) =>
      Ok (NodeAccepted (mkAcceptance acknowledgement correlation terminal_event))
  | None =>
      if String.eqb method "send" then bail "delivery module `send` returned no request ID"
      else Ok (NodeDispatched acknowledgement)
  end.
