(* ===== verification/Transition.v ===== *)
(** * Operation transitions and module event ingress

    [src/src/inspector/commands/operations/transition.rs]: the reducer that
    moves one operation along its lifecycle and the matching of an incoming
    module event to the operation that waits for it.  The records are the
    [HashMap] of the registry; a mutation that fails is rolled back by
    [apply_record_mutation]. *)

From S2P Require Import Prelude Json ModuleEvents OperationRecord.

Inductive RuntimeOperationTransition : Type :=
  | Started
  | Progress (bytes_written : Z) (content_length : option Z)
  | Resolved (outcome : RuntimeOperationOutcome)
  | ExecutionFailed (error : string)
  | CancelRequested
  | CancellationConfirmed (error : option string)
  | CancellationUnconfirmed (error : string)
  | CleanupUnconfirmed (error : string)
  | TimedOut (error : string)
  | Shutdown (error : string)
  | CleanupFailed (error : string)
  | TaskPanicked (error : string)
  | TaskAborted (error : string)
  | AdapterClosed (error : string).

Inductive TransitionDisposition : Type :=
  | Applied | EvidenceOnly | Stale | DuplicateCorrelation.
#[export] Instance TransitionDisposition_eq_dec : EqDecision TransitionDisposition.
Proof. solve_decision. Defined.

Inductive ModuleEventIngressResult : Type :=
  | IngressApplied (operation_id : RuntimeOperationId)
  | IngressStale (operation_id : RuntimeOperationId)
  | IngressDeferred (operation_ids : list RuntimeOperationId)
  | IngressUnknown
  | IngressUncorrelated (operation_ids : list RuntimeOperationId)
  | IngressAmbiguous (operation_ids : list RuntimeOperationId).

Definition ingress_str (i : ModuleEventIngressResult) : string :=
  match i with
  | IngressApplied _ => "applied"
  | IngressStale _ => "stale"
  | IngressDeferred _ => "deferred"
  | IngressUnknown => "unknown"
  | IngressUncorrelated _ => "uncorrelated"
  | IngressAmbiguous _ => "ambiguous"
  end.

Definition ingress_operation_id (i : ModuleEventIngressResult) : option RuntimeOperationId :=
  match i with
  | IngressApplied id | IngressStale id => Some id
  | IngressDeferred [id] => Some id
  | IngressDeferred _ | IngressUnknown | IngressUncorrelated _ | IngressAmbiguous _ => None
  end.

Definition stale_transition_message (t : RuntimeOperationTransition) : string :=
  match t with
  | Started => "start arrived after terminal state"
  | Progress _ _ => "progress arrived after terminal state"
  | Resolved _ => "execution result arrived after terminal state"
  | ExecutionFailed _ => "execution failure arrived after terminal state"
  | CancelRequested => "cancel request arrived after terminal state"
  | CancellationConfirmed _ => "cancellation confirmation arrived after terminal state"
  | CancellationUnconfirmed _ => "unconfirmed cancellation arrived after terminal state"
  | CleanupUnconfirmed _ => "unconfirmed cleanup arrived after terminal state"
  | TimedOut _ => "timeout arrived after terminal state"
  | Shutdown _ => "shutdown arrived after terminal state"
  | CleanupFailed _ => "cleanup failure arrived after terminal state"
  | TaskPanicked _ => "task panic arrived after terminal state"
  | TaskAborted _ => "task abort arrived after terminal state"
  | AdapterClosed _ => "adapter close arrived after terminal state"
  end.

Inductive TerminalProgress : Type := Preserve | Complete.

Inductive AcceptedCorrelationProblem : Type := Missing | Duplicate.

Definition operation_correlation_value (o : RuntimeOperation) (k : ModuleEventCorrelationKind)
    : option string :=
  match k with
  | KSession => session_str <$> op_module_session_id o
  | KRequest => request_str <$> op_module_request_id o
  end.

(** [content_length.max], keeping the first length seen. *)
Definition max_content_length (current : option Z) (candidate : option Z) : option Z :=
  match candidate with
  | Some content_length =>
      Some (match current with None => content_length | Some c => Z.max c content_length end)
  | None => current
  end.

Section transitions.
Context `{SerdeJson} {Request : Type}.
Abbreviation Record_ := (RuntimeOperationRecord Request).
Abbreviation Records := (gmap RuntimeOperationId (RuntimeOperationRecord Request)).
Abbreviation push := (push_runtime_operation_event_locked (Request := Request)).

Definition set_operation (f : RuntimeOperation → RuntimeOperation) : M Record_ () :=
  modify (λ r, r <| rec_operation ::= f |>).

Definition apply_record_mutation {A} (apply : M Record_ A) : M Record_ A :=
  previous_record ← get;
  outcome ← attempt apply;
  match outcome with
  | Ok value => mret value
  | Err error => put previous_record ;; lift (Err error)
  end.

Definition terminalize (status : RuntimeOperationStatus) (result : option Value)
    (error : option string) (terminal_reason phase message : string)
    (terminal_progress : TerminalProgress) : M Record_ () :=
  record ← get;
  let progress :=
    match terminal_progress with
    | Preserve => op_progress (rec_operation record)
    | Complete => Some f64_one
    end in
  let '(error, error_redacted_bytes) := bounded_terminal_operation_error error in
  set_operation (λ o, o <| op_status := status |> <| op_result := result |>
                        <| op_error := error |>
                        <| op_terminal_reason := Some terminal_reason |>) ;;
  modify (λ r, r <| rec_error_redacted_bytes := error_redacted_bytes |>
                 <| rec_restart_request := None |> <| rec_pending_module_name := None |>) ;;
  push phase message progress None None.

Definition apply_cancel_requested : M Record_ TransitionDisposition :=
  record ← get;
  if negb (op_cancellable (rec_operation record)) then
    push "cancel_ignored" "operation is not cancellable" None None None ;;
    mret EvidenceOnly
  else if bool_decide (op_status (rec_operation record) = StCanceling) then
    push "cancel_duplicate" "operation cancellation was already requested" None None None ;;
    mret EvidenceOnly
  else
    set_operation (λ o, o <| op_status := StCanceling |>) ;;
    push "canceling" "cancel requested" None None None ;;
    mret Applied.

Definition apply_outcome (outcome : RuntimeOperationOutcome) : M Record_ TransitionDisposition :=
  modify (λ r, r <| rec_pending_module_name := None |>) ;;
  match outcome with
  | Completed result =>
      terminalize StCompleted (Some result) None "completed" "completed"
        "operation completed" Complete
  | Accepted acceptance =>
      let correlation := ac_correlation acceptance in
      set_operation (λ o,
        let o := o <| op_bridge_callback_id := mc_bridge_callback_id correlation |>
                   <| op_module_session_id := mc_session_id correlation |>
                   <| op_module_request_id := mc_request_id correlation |>
                   <| op_terminal_event := Some (ac_terminal_event acceptance) |>
                   <| op_acknowledgement := Some (ac_acknowledgement acceptance) |>
                   <| op_result := None |> <| op_error := None |>
                   <| op_terminal_reason := None |> in
        if bool_decide (op_status o = StCanceling) then o
        else o <| op_status := StAwaitingExternal |>) ;;
      record ← get;
      push "accepted" "operation accepted; awaiting correlated module event"
        (op_progress (rec_operation record)) None None
  | Dispatched acknowledgement =>
      set_operation (λ o, o <| op_acknowledgement := Some acknowledgement |>) ;;
      terminalize StDispatched None None "completion_unobservable" "dispatched"
        "operation dispatched without observable completion" Preserve
  end ;;
  mret Applied.

Definition apply_module_event_progress (event : ModuleEventEnvelope) (accumulate : bool)
    : M Record_ () :=
  let '(bytes, content_length) := event_progress event in
  set_operation (λ o,
    let o :=
      match bytes with
      | Some bytes =>
          o <| op_bytes_written ::= λ b,
                 if accumulate then saturating_add b bytes else Z.max b bytes |>
      | None => o
      end in
    let o := o <| op_content_length ::= λ c, max_content_length c content_length |> in
    o <| op_progress := monotonic_progress (op_progress o)
           (operation_progress (op_bytes_written o) (op_content_length o)) |>).

Definition apply_correlated_module_event (event : ModuleEventEnvelope) : M Record_ () :=
  record ← get;
  contract ← lift (ok_or "correlated operation has no terminal event contract"
                     (op_terminal_event (rec_operation record)));
  let result := event_result event in
  if opt_str_eqb (ct_progress_event contract) (me_event_name event) then
    apply_module_event_progress event true ;;
    record ← get;
    push "external_progress" "correlated module progress"
      (op_progress (rec_operation record)) (Some result) (event_error event)
  else
    apply_module_event_progress event false ;;
    if event_failed event contract then
      let error := default ("module event `" +:+ me_event_name event +:+ "` reported failure")
                     (event_error event) in
      terminalize StFailed None (Some error) "external_failure" "failed"
        "correlated module event failed" Preserve
    else
      terminalize StCompleted (Some result) None "external_completion" "completed"
        "correlated module event completed operation" Complete.

Definition apply_deferred_module_event (event : ModuleEventEnvelope) : M Record_ bool :=
  apply_record_mutation (
    record ← get;
    match op_terminal_event (rec_operation record) with
    | None =>
        push "deferred_module_event_ignored"
          "deferred module event has no observable completion contract"
          None (Some (event_result event)) (event_error event) ;;
        mret false
    | Some contract =>
        let expected := operation_correlation_value (rec_operation record) (ct_correlation contract) in
        let actual := correlation_value event (ct_correlation contract) in
        if negb (recognizes contract event) || bool_decide (expected ≠ actual) then
          push "deferred_module_event_uncorrelated"
            "deferred module event did not match registered correlation"
            None (Some (event_result event)) (event_error event) ;;
          mret false
        else if is_terminal (op_status (rec_operation record)) then
          push "stale_module_event" "deferred module event arrived after terminal state"
            None (Some (event_result event)) (event_error event) ;;
          mret true
        else
          apply_correlated_module_event event ;;
          mret true
    end).

(** [records.get_mut(operation_id)] followed by a mutation of the record. *)
Definition on_record {A} (operation_id : RuntimeOperationId) (missing : string)
    (m : M Record_ A) : M Records A := λ records w,
  match records !! operation_id with
  | None => (bail missing, records, w)
  | Some record =>
      match m record w with
      | (out, record', w') => (out, <[operation_id := record']> records, w')
      end
  end.

Definition accepted_correlation_problem (records : Records) (operation_id : RuntimeOperationId)
    (correlation : ModuleCorrelation) (terminal_event : ModuleTerminalEventContract)
    : option AcceptedCorrelationProblem :=
  match identity_for correlation (ct_correlation terminal_event) with
  | None => Some Missing
  | Some identity =>
      let duplicate :=
        existsb (λ '(candidate_id, candidate),
          bool_decide (candidate_id ≠ operation_id)
          && match op_terminal_event (rec_operation candidate) with
             | None => false
             | Some candidate_contract =>
                 String.eqb (ct_module candidate_contract) (ct_module terminal_event)
                 && bool_decide (ct_correlation candidate_contract = ct_correlation terminal_event)
                 && bool_decide (operation_correlation_value (rec_operation candidate)
                                   (ct_correlation candidate_contract) = Some identity)
             end) (map_to_list records) in
      if duplicate then Some Duplicate else None
  end.

(** The rejection of an acceptance whose correlation is missing or taken. *)
Definition reject_acceptance (problem : AcceptedCorrelationProblem)
    (acceptance : ObservableOperationAcceptance) : M Record_ TransitionDisposition :=
  set_operation (λ o, o <| op_acknowledgement := Some (ac_acknowledgement acceptance) |>) ;;
  modify (λ r, r <| rec_pending_module_name := None |>) ;;
  let '(error, disposition) :=
    match problem with
    | Missing =>
        ("accepted operation has no correlation required by its terminal event contract", Applied)
    | Duplicate => ("accepted operation reused an external correlation", DuplicateCorrelation)
    end in
  terminalize StFailed None (Some error) "invalid_external_correlation" "failed"
    "operation correlation rejected" Preserve ;;
  mret disposition.

Definition fail_with (status : RuntimeOperationStatus) (error terminal_reason phase message : string)
    : M Record_ TransitionDisposition :=
  terminalize status None (Some error) terminal_reason phase message Preserve ;;
  mret Applied.

(** The transition of a live operation whose acceptance, if any, is sound. *)
Definition apply_live_transition (transition : RuntimeOperationTransition)
    : M Record_ TransitionDisposition :=
  match transition with
  | Started =>
      push "started" "operation started" (Some f64_zero) None None ;;
      mret Applied
  | Progress bytes_written content_length =>
      set_operation (λ o,
        o <| op_bytes_written ::= λ b, Z.max b bytes_written |>
          <| op_content_length ::= λ c, max_content_length c content_length |>) ;;
      record ← get;
      let operation := rec_operation record in
      let progress :=
        monotonic_progress (op_progress operation)
          (operation_progress (op_bytes_written operation) (op_content_length operation)) in
      push "progress" "operation progress" progress None None ;;
      mret Applied
  | Resolved outcome => apply_outcome outcome
  | ExecutionFailed error =>
      modify (λ r, r <| rec_pending_module_name := None |>) ;;
      fail_with StFailed error "execution_failed" "failed" "operation failed"
  | CancelRequested => apply_cancel_requested
  | CancellationConfirmed error =>
      fail_with StCanceled (default "runtime operation canceled" error) "canceled" "canceled"
        "operation cancellation confirmed"
  | CancellationUnconfirmed error =>
      record ← get;
      disposition ←
        (if bool_decide (op_status (rec_operation record) = StCanceling)
         then mret EvidenceOnly
         else apply_cancel_requested);
      record ← get;
      push "cancellation_unconfirmed" "adapter cleanup lacks remote termination evidence"
        (op_progress (rec_operation record)) None (Some error) ;;
      mret disposition
  | CleanupUnconfirmed error =>
      record ← get;
      let canceling := bool_decide (op_status (rec_operation record) = StCanceling) in
      (if canceling then mret ()
       else set_operation (λ o, o <| op_status := StCanceling |>)) ;;
      (match op_error (rec_operation record) with
       | Some _ => mret ()
       | None =>
           let '(retained, redacted_bytes) := bounded_terminal_operation_error (Some error) in
           set_operation (λ o, o <| op_error := retained |>) ;;
           modify (λ r, r <| rec_error_redacted_bytes := redacted_bytes |>)
       end) ;;
      push "cleanup_unconfirmed" "adapter cleanup lacks remote termination evidence"
        (op_progress (rec_operation record)) None (Some error) ;;
      mret (if canceling then EvidenceOnly else Applied)
  | TimedOut error => fail_with StTimedOut error "timeout" "timed_out" "operation timed out"
  | Shutdown error =>
      fail_with StFailed error "shutdown" "failed" "operation stopped during shutdown"
  | CleanupFailed error =>
      fail_with StFailed error "cleanup_failed" "failed" "operation cleanup failed"
  | TaskPanicked error =>
      fail_with StFailed error "task_panicked" "failed" "operation task panicked"
  | TaskAborted error =>
      fail_with StFailed error "task_aborted" "failed" "operation task was aborted"
  | AdapterClosed error =>
      fail_with StFailed error "adapter_closed" "failed" "operation adapter closed"
  end.

Definition apply_runtime_operation_transition (operation_id : RuntimeOperationId)
    (transition : RuntimeOperationTransition) : M Records TransitionDisposition :=
  let disappeared := "runtime operation disappeared during transition" in
  records ← get;
  match records !! operation_id with
  | None => mret EvidenceOnly
  | Some record =>
      if is_terminal (op_status (rec_operation record)) then
        on_record operation_id disappeared
          (push "stale_transition" (stale_transition_message transition) None None None) ;;
        mret Stale
      else
        let acceptance_problem :=
          match transition with
          | Resolved (Accepted acceptance) =>
              (λ problem, (problem, acceptance)) <$>
                accepted_correlation_problem records operation_id
                  (ac_correlation acceptance) (ac_terminal_event acceptance)
          | _ => None
          end in
        on_record operation_id disappeared (apply_record_mutation (
          match acceptance_problem with
          | Some (problem, acceptance) => reject_acceptance problem acceptance
          | None => apply_live_transition transition
          end))
  end.

(** The two scans of the ingress loop over the records: the operations whose
    contract names the event, and among them the one it correlates with. *)
Definition record_recognizes (event : ModuleEventEnvelope) (record : Record_) : bool :=
  match op_terminal_event (rec_operation record) with
  | Some contract => recognizes contract event
  | None => false
  end.

Definition record_correlates (event : ModuleEventEnvelope) (record : Record_) : bool :=
  match op_terminal_event (rec_operation record) with
  | Some contract =>
      recognizes contract event
      && match operation_correlation_value (rec_operation record) (ct_correlation contract),
               correlation_value event (ct_correlation contract) with
         | Some expected, Some actual => String.eqb expected actual
         | _, _ => false
         end
  | None => false
  end.

Definition ids_where (p : Record_ → bool) (records : Records) : list RuntimeOperationId :=
  str_sort (map fst (List.filter (λ kv, p kv.2) (map_to_list records))).

Definition apply_module_event_ingress (event : ModuleEventEnvelope)
    : M Records ModuleEventIngressResult :=
  records ← get;
  let recognized := ids_where (record_recognizes event) records in
  let correlated := ids_where (record_correlates event) records in
  match correlated with
  | _ :: _ :: _ => mret (IngressAmbiguous correlated)
  | [] =>
      match recognized with
      | [] => mret IngressUnknown
      | _ => mret (IngressUncorrelated recognized)
      end
  | [operation_id] =>
      let disappeared := "correlated runtime operation disappeared" in
      record ← lift (ok_or disappeared (records !! operation_id));
      if is_terminal (op_status (rec_operation record)) then
        on_record operation_id disappeared
          (push "stale_module_event" "module event arrived after terminal state" None
             (Some (event_result event)) (event_error event)) ;;
        mret (IngressStale operation_id)
      else
        on_record operation_id disappeared
          (apply_record_mutation (apply_correlated_module_event event)) ;;
        mret (IngressApplied operation_id)
  end.
End transitions.

(** ** The lifecycle of an operation

    The abstract machine: an operation runs, may await an external completion,
    may be cancelling, and then settles in one terminal status for good. *)
Definition status_rank (s : RuntimeOperationStatus) : Z :=
  match s with
  | StRunning => 0
  | StAwaitingExternal => 1
  | StCanceling => 2
  | StCompleted | StDispatched | StFailed | StCanceled | StTimedOut => 3
  end.

Definition status_le (s s' : RuntimeOperationStatus) : Prop :=
  s = s' ∨ status_rank s < status_rank s'.

#[export] Instance status_le_preorder : PreOrder status_le.
Proof.
  split; [by left|]. intros s1 s2 s3 [->|H1] [->|H2]; unfold status_le; auto. right; lia.
Qed.

Lemma status_le_terminal s s' : is_terminal s' = true → is_terminal s = false → status_le s s'.
Proof. destruct s, s'; try done; by right. Qed.

(** What identifies an operation, and what its settlement consists of. *)
Definition op_static (o : RuntimeOperation) :=
  (op_operation_id o, op_client_request_id o, op_domain o, op_backend o, op_method o,
   op_label o, op_policy o, op_context o, op_cancellable o, op_exclusive_group o,
   op_started_at o).

Definition op_settlement (o : RuntimeOperation) :=
  (op_status o, op_result o, op_error o, op_terminal_reason o, op_acknowledgement o,
   op_terminal_event o, op_module_session_id o, op_module_request_id o,
   op_bridge_callback_id o).

Definition retention_part {Request} (r : RuntimeOperationRecord Request) :=
  (rec_terminal_at r, rec_terminal_expires_at r, rec_retained_terminal_payload_bytes r,
   rec_result_purged r, rec_acknowledgement_purged r).

(** [evolves r0 r]: [r] is a later version of the record [r0]. *)
Record evolves {Request} (r0 r : RuntimeOperationRecord Request) : Prop := {
  evo_static : op_static (rec_operation r) = op_static (rec_operation r0);
  evo_status : status_le (op_status (rec_operation r0)) (op_status (rec_operation r));
  evo_settled : is_terminal (op_status (rec_operation r0)) = true →
                op_settlement (rec_operation r) = op_settlement (rec_operation r0);
  evo_bytes : op_bytes_written (rec_operation r0) ≤ op_bytes_written (rec_operation r);
  evo_progress : progress_le (op_progress (rec_operation r0)) (op_progress (rec_operation r));
  evo_cursor : rec_next_event_cursor r0 ≤ rec_next_event_cursor r;
  evo_updated : op_updated_at (rec_operation r0) ≤ op_updated_at (rec_operation r);
  evo_pending : rec_pending_module_name r = rec_pending_module_name r0
                ∨ rec_pending_module_name r = None;
  evo_restart : is_terminal (op_status (rec_operation r)) = false →
                rec_restart_request r = rec_restart_request r0;
  evo_retention : retention_part r = retention_part r0;
}.

#[export] Instance evolves_preorder {Request} : PreOrder (@evolves Request).
Proof.
  split.
  - intros r. split; try done. by left.
  - intros r1 r2 r3 [] []. split; try congruence; try lia; try (by etrans).
    + intros Ht. specialize (evo_settled0 Ht). rewrite evo_settled1; [done|].
      unfold op_settlement in evo_settled0.
      by replace (op_status (rec_operation r2)) with (op_status (rec_operation r1)) by congruence.
    + destruct evo_pending1 as [->|]; auto.
    + intros Hl. rewrite evo_restart1 by done. apply evo_restart0.
      destruct evo_status1 as [->|Hlt]; [done|]. destruct (op_status (rec_operation r2)), (op_status (rec_operation r3)); done.
Qed.

Section transition_lemmas.
Context `{SerdeJson} {Request : Type}.
Implicit Types r : RuntimeOperationRecord Request.
Abbreviation push := (push_runtime_operation_event_locked (Request := Request)).

(** The invariant of a mutation that started from [r0]. *)
Definition in_progress (r0 r : RuntimeOperationRecord Request) : Prop := record_wf r ∧ evolves r0 r.

Lemma wp_push_inv phase message p res err r0 r :
  in_progress r0 r → progress_ok p →
  wp (push phase message p res err) (λ _ r', in_progress r0 r') r.
Proof.
  intros [Hwf Hev] Hp.
  eapply wp_mono; [apply wp_and; [apply push_frame | by apply push_wf]|].
  intros out r' [[Hc _] (Hwf' & Hpr & Hn & Hu)]. split; [done|].
  etrans; [done|]. pose proof (f_equal (λ r, op_static (rec_operation r)) Hc) as E1.
  pose proof (f_equal (λ r, op_settlement (rec_operation r)) Hc) as E2.
  pose proof (f_equal retention_part Hc) as E3.
  split; try done.
  - rewrite (same_core_status _ _ Hc). by left.
  - by rewrite (same_core_bytes _ _ Hc).
  - rewrite (same_core_pending _ _ Hc). by left.
  - intros _. apply (same_core_restart _ _ Hc).
Qed.

(** An update of a live operation that keeps the log, does not take back
    bytes or progress and moves the status forward. *)
Lemma update_inv r0 r r' :
  in_progress r0 r →
  is_terminal (op_status (rec_operation r0)) = false →
  op_static (rec_operation r') = op_static (rec_operation r) →
  op_event_cursor (rec_operation r') = op_event_cursor (rec_operation r) →
  op_updated_at (rec_operation r') = op_updated_at (rec_operation r) →
  op_bytes_written (rec_operation r) ≤ op_bytes_written (rec_operation r') ≤ u64_max →
  progress_ok (op_progress (rec_operation r')) →
  progress_le (op_progress (rec_operation r)) (op_progress (rec_operation r')) →
  (rec_events r', rec_next_event_cursor r', rec_retained_event_bytes r',
   rec_dropped_event_count r', rec_history_truncated r')
  = (rec_events r, rec_next_event_cursor r, rec_retained_event_bytes r,
     rec_dropped_event_count r, rec_history_truncated r) →
  rec_pending_module_name r' = rec_pending_module_name r
  ∨ rec_pending_module_name r' = None →
  retention_part r' = retention_part r →
  (is_terminal (op_status (rec_operation r')) = false →
     is_terminal (op_status (rec_operation r)) = false ∧ rec_restart_request r' = rec_restart_request r) →
  status_le (op_status (rec_operation r0)) (op_status (rec_operation r')) →
  in_progress r0 r'.
Proof.
  intros [[] []] Hlive Hst Hc Hu Hb Hp Hpl Hlog Hpend Hret Hre Hs.
  injection Hlog as E1 E2 E3 E4 E5.
  split; split; rewrite ?E1, ?E2, ?E3, ?E4, ?E5, ?Hc, ?Hu; try done; try congruence; try lia.
  - unfold in_u64 in *. lia.
  - by etrans.
  - destruct Hpend as [->|]; auto.
  - intros [Hl ->]%Hre. auto.
Qed.

Lemma live_written r0 r : in_progress r0 r → op_bytes_written (rec_operation r) ≤ u64_max.
Proof. intros [[] _]. unfold in_u64 in *. lia. Qed.

Lemma live_terminal_le r0 r s :
  in_progress r0 r → is_terminal (op_status (rec_operation r0)) = false → is_terminal s = true →
  status_le (op_status (rec_operation r0)) s.
Proof. intros _ ? ?. by apply status_le_terminal. Qed.

Lemma live_keeps_status r0 r :
  in_progress r0 r → status_le (op_status (rec_operation r0)) (op_status (rec_operation r)).
Proof. by intros [_ []]. Qed.

Lemma live_progress_ok r0 r : in_progress r0 r → progress_ok (op_progress (rec_operation r)).
Proof. by intros [[] _]. Qed.

(** Field updates, with the shared facts about the record they start from. *)
Ltac solve_update Hi :=
  eapply update_inv; [exact Hi | done | ..]; simpl;
  repeat match goal with H : ?b = _ |- context [if ?b then _ else _] => rewrite H; simpl end;
  try done;
  try exact (live_progress_ok _ _ Hi); try exact (live_keeps_status _ _ Hi);
  eauto using live_terminal_le;
  try (split; [lia | exact (live_written _ _ Hi)]); try (intros ?; split; congruence).

Lemma wp_terminalize_inv status result error reason phase message tp r0 r :
  in_progress r0 r → is_terminal (op_status (rec_operation r0)) = false →
  is_terminal status = true →
  wp (terminalize status result error reason phase message tp) (λ _ r', in_progress r0 r') r.
Proof.
  intros Hi Hlive Hs. unfold terminalize, set_operation. wp_go.
  destruct (bounded_terminal_operation_error error) as [e n]. wp_go.
  apply wp_push_inv.
  - solve_update Hi.
  - destruct tp; [by eapply live_progress_ok | done].
Qed.

Lemma wp_cancel_requested_inv r0 r :
  in_progress r0 r → is_terminal (op_status (rec_operation r0)) = false →
  is_terminal (op_status (rec_operation r)) = false →
  wp apply_cancel_requested (λ _ r', in_progress r0 r') r.
Proof.
  intros Hi Hlive Hnow. unfold apply_cancel_requested, set_operation. wp_go.
  assert (Hp : ∀ phase msg r', in_progress r0 r' → ∀ d : TransitionDisposition,
    wp (push phase msg None None None ;; mret d) (λ _ r', in_progress r0 r') r').
  { intros phase msg r' Hi' d. apply wp_bind.
    eapply wp_mono; [by apply wp_push_inv|]. by intros [] ? ?; wp_go. }
  case_if E1; [by apply Hp|]. case_if E2; [by apply Hp|]. wp_step. wp_step. apply Hp.
  solve_update Hi. pose proof (live_keeps_status _ _ Hi) as [Hs|Hs].
  - rewrite Hs. by destruct (op_status (rec_operation r)); try done; (by left) || by right.
  - destruct (op_status (rec_operation r)), (op_status (rec_operation r0)); simpl in *;
      try lia; try done; (by left) || by right.
Qed.

(** Sequencing: a later computation starts from whatever the first one left. *)
Lemma wp_inv_bind {A B} r0 r (m : M (RuntimeOperationRecord Request) A)
    (k : A → M (RuntimeOperationRecord Request) B) :
  wp m (λ _ r', in_progress r0 r') r →
  (∀ a r', in_progress r0 r' → wp (k a) (λ _ r', in_progress r0 r') r') →
  wp (m ≫= k) (λ _ r', in_progress r0 r') r.
Proof. intros Hm Hk. apply wp_bind. eapply wp_mono; [done|]. intros [a|e] r'; auto. Qed.

Lemma wp_inv_ret {A} (a : A) r0 r :
  in_progress r0 r → wp (mret a) (λ _ r', in_progress r0 r') r.
Proof. intros. by wp_go. Qed.

Lemma live_awaiting_le r0 r :
  in_progress r0 r → is_terminal (op_status (rec_operation r0)) = false →
  bool_decide (op_status (rec_operation r) = StCanceling) = false →
  is_terminal (op_status (rec_operation r)) = false →
  status_le (op_status (rec_operation r0)) StAwaitingExternal.
Proof.
  intros Hi Hlive Hc Ht. apply bool_decide_eq_false in Hc.
  pose proof (live_keeps_status _ _ Hi) as Hs. unfold status_le in *.
  destruct (op_status (rec_operation r)), (op_status (rec_operation r0));
    simpl in *; destruct Hs; try done; try lia; auto; right; lia.
Qed.

Lemma wp_outcome_inv outcome r0 :
  record_wf r0 → is_terminal (op_status (rec_operation r0)) = false →
  wp (apply_outcome outcome) (λ _ r', in_progress r0 r') r0.
Proof.
  intros Hwf Hlive. unfold apply_outcome, set_operation. wp_step. wp_step.
  assert (Hi : in_progress r0 (r0 <| rec_pending_module_name := None |>)).
  { assert (Hi : in_progress r0 r0) by (by split). solve_update Hi. }
  apply wp_inv_bind; [|intros; by apply wp_inv_ret].
  destruct outcome as [v|acc|v].
  - by apply wp_terminalize_inv.
  - wp_step. wp_step. wp_step. wp_step. simpl. case_if E; simpl in *; apply wp_push_inv.
    + solve_update Hi.
    + simpl. rewrite ?E. apply (wf_progress _ Hwf).
    + solve_update Hi. by eapply live_awaiting_le.
    + simpl. rewrite ?E. apply (wf_progress _ Hwf).
  - wp_step. wp_step. apply wp_terminalize_inv; [|done..]. solve_update Hi.
Qed.

Lemma wp_event_progress_inv event accumulate r0 r :
  in_progress r0 r → is_terminal (op_status (rec_operation r0)) = false →
  wp (apply_module_event_progress event accumulate) (λ _ r', in_progress r0 r') r.
Proof.
  intros Hi Hlive. unfold apply_module_event_progress, set_operation.
  destruct (event_progress event) as [bytes len] eqn:E.
  apply event_progress_range in E as [Hb _].
  pose proof (live_progress_ok _ _ Hi). pose proof (live_written _ _ Hi).
  assert (0 ≤ op_bytes_written (rec_operation r)) by (destruct Hi as [[] _]; unfold in_u64 in *; lia).
  wp_go. destruct bytes as [n|]; solve_update Hi;
    rewrite ?monotonic_progress_join; auto with inspector.
  specialize (Hb n eq_refl). unfold in_u64, saturating_add in *. case_if Ea; lia.
Qed.

Lemma wp_correlated_event_inv event r0 :
  record_wf r0 → is_terminal (op_status (rec_operation r0)) = false →
  wp (apply_correlated_module_event event) (λ _ r', in_progress r0 r') r0.
Proof.
  intros Hwf Hlive. assert (Hi : in_progress r0 r0) by (by split).
  unfold apply_correlated_module_event. wp_step. wp_step. wp_step. wp_step.
  destruct (op_terminal_event (rec_operation r0)) as [contract|]; simpl; [|done].
  case_if E1; (apply wp_inv_bind; [by apply wp_event_progress_inv|]); intros [] r' Hi'.
  - wp_step. wp_step. apply wp_push_inv; [done|]. by eapply live_progress_ok.
  - case_if E2; by apply wp_terminalize_inv.
Qed.

(** The byte count a transition carries is a [u64]. *)
Definition transition_ok (t : RuntimeOperationTransition) : Prop :=
  match t with Progress bytes_written _ => in_u64 bytes_written | _ => True end.

Lemma wp_fail_with_inv status error reason phase message r0 r :
  in_progress r0 r → is_terminal (op_status (rec_operation r0)) = false →
  is_terminal status = true →
  wp (fail_with status error reason phase message) (λ _ r', in_progress r0 r') r.
Proof.
  intros Hi Hl Hs. unfold fail_with.
  apply wp_inv_bind; [by apply wp_terminalize_inv | intros; by apply wp_inv_ret].
Qed.

Lemma wp_reject_inv problem acceptance r0 :
  record_wf r0 → is_terminal (op_status (rec_operation r0)) = false →
  wp (reject_acceptance problem acceptance) (λ _ r', in_progress r0 r') r0.
Proof.
  intros Hwf Hl. assert (Hi : in_progress r0 r0) by (by split).
  unfold reject_acceptance, set_operation. wp_step. wp_step. wp_step. wp_step.
  destruct problem; (apply wp_inv_bind; [|intros; by apply wp_inv_ret]);
    (apply wp_terminalize_inv; [|done..]); solve_update Hi.
Qed.

Lemma live_canceling_le r0 :
  is_terminal (op_status (rec_operation r0)) = false →
  status_le (op_status (rec_operation (Request := Request) r0)) StCanceling.
Proof. destruct (op_status (rec_operation r0)); try done; (by left) || by right. Qed.

Lemma wp_cleanup_unconfirmed_inv error r0 :
  record_wf r0 → is_terminal (op_status (rec_operation r0)) = false →
  wp (apply_live_transition (CleanupUnconfirmed error)) (λ _ r', in_progress r0 r') r0.
Proof.
  intros Hwf Hl. assert (Hi : in_progress r0 r0) by (by split).
  unfold apply_live_transition, set_operation. wp_step. wp_step. apply wp_inv_bind.
  { case_if E; wp_go; [done|]. solve_update Hi. by apply live_canceling_le. }
  intros _ r' Hi'. apply wp_inv_bind.
  { destruct (op_error (rec_operation r0)); [by wp_go|].
    destruct (bounded_terminal_operation_error _) as [e n]. wp_go. solve_update Hi'. }
  intros _ r'' Hi''. apply wp_inv_bind; [|intros; by apply wp_inv_ret].
  apply wp_push_inv; [done|]. apply (wf_progress _ Hwf).
Qed.

Lemma wp_live_inv t r0 :
  record_wf r0 → is_terminal (op_status (rec_operation r0)) = false → transition_ok t →
  wp (apply_live_transition t) (λ _ r', in_progress r0 r') r0.
Proof.
  intros Hwf Hl Ht. assert (Hi : in_progress r0 r0) by (by split).
  destruct t as [|b len|o|e| |e|e|e|e|e|e|e|e|e]; cbn [apply_live_transition];
    lazymatch goal with
    | |- wp (fail_with _ _ _ _ _) _ _ => by apply wp_fail_with_inv
    | _ => idtac
    end.
  - apply wp_inv_bind; [by apply wp_push_inv | intros; by apply wp_inv_ret].
  - unfold apply_live_transition, set_operation. wp_step. wp_step. wp_step. wp_step.
    apply wp_inv_bind; [|intros; by apply wp_inv_ret]. apply wp_push_inv.
    + pose proof (live_written _ _ Hi). simpl in Ht. unfold in_u64 in Ht. solve_update Hi. lia.
    + rewrite monotonic_progress_join. pose proof (live_progress_ok _ _ Hi). auto with inspector.
  - by apply wp_outcome_inv.
  - unfold apply_live_transition. wp_step. wp_step. apply wp_fail_with_inv; [|done..].
    solve_update Hi.
  - by apply wp_cancel_requested_inv.
  - unfold apply_live_transition. wp_step. wp_step. apply wp_inv_bind.
    { case_if E; [by wp_go | by apply wp_cancel_requested_inv]. }
    intros d r' Hi'. wp_step. wp_step. apply wp_inv_bind; [|intros; by apply wp_inv_ret].
    apply wp_push_inv; [done|]. by eapply live_progress_ok.
  - by apply wp_cleanup_unconfirmed_inv.
Qed.

Lemma wp_record_mutation {A} (m : M (RuntimeOperationRecord Request) A) Q r :
  wp m (λ out r', match out with Ok a => Q (Ok a) r' | Err e => Q (Err e) r end) r →
  wp (apply_record_mutation m) Q r.
Proof.
  intros Hm. unfold apply_record_mutation. wp_step. wp_step. wp_step. wp_step.
  eapply wp_mono; [exact Hm|]. intros [a|e] r' Hq; by wp_go.
Qed.

Lemma wp_mutation_post {A} (m : M (RuntimeOperationRecord Request) A) Q r :
  (∀ e, Q (Err e) r) → wp m Q r → wp (apply_record_mutation m) Q r.
Proof.
  intros He Hm. apply wp_record_mutation. eapply wp_mono; [exact Hm|]. intros [a|e] r' Hq; auto.
Qed.

(** Rolled back or applied: a mutation leaves a later version of the record,
    and the very same record when it fails. *)
Lemma wp_record_mutation_inv {A} (m : M (RuntimeOperationRecord Request) A) r0 :
  record_wf r0 → wp m (λ _ r', in_progress r0 r') r0 →
  wp (apply_record_mutation m) (λ out r', in_progress r0 r' ∧ (is_ok out = false → r' = r0)) r0.
Proof.
  intros Hwf Hm. apply wp_record_mutation. eapply wp_mono; [exact Hm|].
  intros [a|e] r' Hi; [done|]. split; [|done]. by split.
Qed.

(** *** Settled records

    The newest event of a settled record is the one that settled it. *)
Definition settled_wf (r : RuntimeOperationRecord Request) : Prop :=
  is_terminal (op_status (rec_operation r)) = true →
  ∃ e, last (rec_events r) = Some e ∧ ev_class e = ClassTerminal.

Definition live (r : RuntimeOperationRecord Request) : Prop :=
  is_terminal (op_status (rec_operation r)) = false.

Lemma live_settled r : live r → settled_wf r.
Proof. unfold live, settled_wf. congruence. Qed.

Lemma wp_push_live phase message p res err r :
  live r → wp (push phase message p res err) (λ _ r', live r') r.
Proof.
  intros Hl. eapply wp_mono; [apply push_frame|]. intros out r' [Hc _].
  unfold live. by rewrite (same_core_status _ _ Hc).
Qed.

Lemma wp_terminalize status result error reason phase message tp r :
  record_wf r → runtime_operation_event_class phase = ClassTerminal →
  wp (terminalize status result error reason phase message tp)
     (λ out r', is_ok out = true →
        op_status (rec_operation r') = status ∧ op_result (rec_operation r') = result
        ∧ op_error (rec_operation r') = (bounded_terminal_operation_error error).1
        ∧ op_terminal_reason (rec_operation r') = Some reason
        ∧ op_acknowledgement (rec_operation r') = op_acknowledgement (rec_operation r)
        ∧ op_terminal_event (rec_operation r') = op_terminal_event (rec_operation r)
        ∧ rec_pending_module_name r' = None ∧ rec_restart_request r' = None
        ∧ ∃ e, last (rec_events r') = Some e ∧ ev_phase e = phase ∧ ev_class e = ClassTerminal) r.
Proof.
  intros Hwf Hph. unfold terminalize, set_operation. wp_go.
  destruct (bounded_terminal_operation_error error) as [e n]. wp_go.
  eapply wp_mono; [apply wp_and; [apply push_frame | apply push_appends]|].
  - destruct Hwf. by split.
  - destruct tp; [apply (wf_progress _ Hwf) | done].
  - by left.
  - intros out r' [[Hc _] Ha] Hok. destruct (Ha Hok) as (_ & _ & ev & Hlast & _ & Hp & Hcls).
    rewrite (same_core_status _ _ Hc), (same_core_result _ _ Hc), (same_core_error _ _ Hc),
      (same_core_reason _ _ Hc), (same_core_pending _ _ Hc), (same_core_restart _ _ Hc),
      (same_core_ack _ _ Hc), (same_core_contract _ _ Hc).
    simpl. repeat split; try done. exists ev. by rewrite Hcls, Hph.
Qed.

Lemma wp_terminalize_settled status result error reason phase message tp r :
  record_wf r → runtime_operation_event_class phase = ClassTerminal →
  wp (terminalize status result error reason phase message tp)
     (λ out r', is_ok out = true → settled_wf r') r.
Proof.
  intros Hwf Hph. eapply wp_mono; [by apply wp_terminalize|].
  intros out r' Hr Hok. destruct (Hr Hok) as (_ & _ & _ & _ & _ & _ & _ & _ & e & He & _ & Hcl).
  intros _. by exists e.
Qed.

Lemma wp_cancel_requested_live r : live r → wp apply_cancel_requested (λ _ r', live r') r.
Proof.
  intros Hl. unfold apply_cancel_requested, set_operation. wp_step. wp_step.
  case_if E1; [|case_if E2; [|wp_step; wp_step]];
    (apply wp_keep_bind; [by apply wp_push_live | intros; by wp_go]).
Qed.

Lemma wp_live_of {A} (m : M (RuntimeOperationRecord Request) A) r :
  wp m (λ _ r', live r') r → wp m (λ out r', is_ok out = true → settled_wf r') r.
Proof. intros Hm. eapply wp_mono; [exact Hm|]. intros. by apply live_settled. Qed.

Lemma wp_outcome_settled outcome r :
  record_wf r → live r → wp (apply_outcome outcome) (λ out r', is_ok out = true → settled_wf r') r.
Proof.
  intros Hwf Hl. unfold apply_outcome, set_operation. wp_step. wp_step. apply wp_ok_then.
  destruct outcome as [v|acc|v].
  - apply wp_terminalize_settled; [|done]. destruct Hwf. by split.
  - apply wp_live_of. wp_step. wp_step. wp_step. wp_step. apply wp_push_live.
    unfold live. simpl. by case_if E.
  - wp_step. wp_step. apply wp_terminalize_settled; [|done]. destruct Hwf. by split.
Qed.

Lemma wp_live_transition_settled t r :
  record_wf r → live r →
  wp (apply_live_transition t) (λ out r', is_ok out = true → settled_wf r') r.
Proof.
  intros Hwf Hl.
  destruct t as [|b len|o|e| |e|e|e|e|e|e|e|e|e]; cbn [apply_live_transition];
    lazymatch goal with
    | |- wp (fail_with _ _ _ _ _) _ _ => apply wp_ok_then; by apply wp_terminalize_settled
    | _ => idtac
    end; unfold set_operation.
  - apply wp_ok_then, wp_live_of. by apply wp_push_live.
  - wp_step. wp_step. wp_step. wp_step. apply wp_ok_then, wp_live_of. by apply wp_push_live.
  - by apply wp_outcome_settled.
  - wp_step. wp_step. apply wp_ok_then, wp_terminalize_settled; [|done]. destruct Hwf. by split.
  - apply wp_live_of. by apply wp_cancel_requested_live.
  - apply wp_live_of. wp_step. wp_step.
    apply wp_keep_bind; [case_if E; [by wp_go | by apply wp_cancel_requested_live]|].
    intros d r' Hl'. wp_step. wp_step.
    apply wp_keep_bind; [by apply wp_push_live | intros; by wp_go].
  - apply wp_live_of. wp_step. wp_step. apply wp_keep_bind; [case_if E; by wp_go|].
    intros _ r' Hl'. apply wp_keep_bind.
    { destruct (op_error (rec_operation r)); [by wp_go|].
      destruct (bounded_terminal_operation_error _). by wp_go. }
    intros _ r'' Hl''. apply wp_keep_bind; [by apply wp_push_live | intros; by wp_go].
Qed.

Lemma wp_reject_settled problem acceptance r :
  record_wf r →
  wp (reject_acceptance problem acceptance) (λ out r', is_ok out = true → settled_wf r') r.
Proof.
  intros Hwf. unfold reject_acceptance, set_operation. wp_step. wp_step. wp_step. wp_step.
  destruct problem; (apply wp_ok_then, wp_terminalize_settled; [|done]); destruct Hwf; by split.
Qed.

Lemma wp_correlated_event_settled event r :
  record_wf r → live r →
  wp (apply_correlated_module_event event) (λ out r', is_ok out = true → settled_wf r') r.
Proof.
  intros Hwf Hl. unfold apply_correlated_module_event. wp_step. wp_step. wp_step. wp_step.
  destruct (op_terminal_event (rec_operation r)) as [contract|]; simpl; [|done].
  assert (Hp : ∀ b, wp (apply_module_event_progress event b)
                       (λ _ r', record_wf r' ∧ live r') r).
  { intros b. apply wp_and.
    - eapply wp_mono; [by apply wp_event_progress_inv with (r0 := r)|]. by intros ? ? [].
    - unfold apply_module_event_progress, set_operation.
      destruct (event_progress event) as [[n|] len]; by wp_go. }
  case_if E1; (apply wp_bind; eapply wp_mono; [apply Hp|]; intros [[]|] r' [Hwf' Hl']; [|done]).
  - apply wp_live_of. wp_step. wp_step. by apply wp_push_live.
  - case_if E2; by apply wp_terminalize_settled.
Qed.

(** *** Claimed correlations

    The module, role and identity an accepted operation waits on. *)
Definition claimed_correlation (r : RuntimeOperationRecord Request)
    : option (string * ModuleEventCorrelationKind * string) :=
  match op_terminal_event (rec_operation r) with
  | Some contract =>
      (λ identity, (ct_module contract, ct_correlation contract, identity)) <$>
        operation_correlation_value (rec_operation r) (ct_correlation contract)
  | None => None
  end.

Lemma same_core_claim r r' : same_core r r' → claimed_correlation r' = claimed_correlation r.
Proof. intros E. symmetry. exact (f_equal claimed_correlation E). Qed.

Lemma wp_push_claim k phase message p res err r :
  claimed_correlation r = k →
  wp (push phase message p res err) (λ _ r', claimed_correlation r' = k) r.
Proof.
  intros <-. eapply wp_mono; [apply push_frame|]. intros out r' [Hc _]. by apply same_core_claim.
Qed.

Lemma wp_terminalize_claim k status result error reason phase message tp r :
  claimed_correlation r = k →
  wp (terminalize status result error reason phase message tp)
     (λ _ r', claimed_correlation r' = k) r.
Proof.
  intros <-. unfold terminalize, set_operation. wp_go.
  destruct (bounded_terminal_operation_error error). wp_go. by apply wp_push_claim.
Qed.

Lemma wp_cancel_requested_claim k r :
  claimed_correlation r = k →
  wp apply_cancel_requested (λ _ r', claimed_correlation r' = k) r.
Proof.
  intros <-. unfold apply_cancel_requested, set_operation. wp_step. wp_step.
  case_if E1; [|case_if E2; [|wp_step; wp_step]];
    (apply wp_keep_bind; [by apply wp_push_claim | intros; by wp_go]).
Qed.

(** Only an acceptance changes what an operation waits on. *)
Lemma wp_live_claim t r :
  (∀ acceptance, t ≠ Resolved (Accepted acceptance)) →
  wp (apply_live_transition t) (λ _ r', claimed_correlation r' = claimed_correlation r) r.
Proof.
  intros Ht. assert (Hret : ∀ (d : TransitionDisposition) r',
    claimed_correlation r' = claimed_correlation r →
    wp (mret d) (λ _ r'', claimed_correlation r'' = claimed_correlation r) r') by (intros; by wp_go).
  destruct t as [|b len|o|e| |e|e|e|e|e|e|e|e|e]; cbn [apply_live_transition];
    lazymatch goal with
    | |- wp (fail_with _ _ _ _ _) _ _ =>
        apply wp_keep_bind; [by apply wp_terminalize_claim | intros; by apply Hret]
    | _ => idtac
    end; unfold set_operation.
  - apply wp_keep_bind; [by apply wp_push_claim | intros; by apply Hret].
  - wp_step. wp_step. wp_step. wp_step.
    apply wp_keep_bind; [by apply wp_push_claim | intros; by apply Hret].
  - unfold apply_outcome, set_operation. wp_step. wp_step.
    apply wp_keep_bind; [|intros; by apply Hret].
    destruct o as [v|acc|v]; [by apply wp_terminalize_claim | by destruct (Ht acc) |].
    wp_step. wp_step. by apply wp_terminalize_claim.
  - wp_step. wp_step. apply wp_keep_bind; [by apply wp_terminalize_claim | intros; by apply Hret].
  - by apply wp_cancel_requested_claim.
  - wp_step. wp_step.
    apply wp_keep_bind; [case_if E; [by wp_go | by apply wp_cancel_requested_claim]|].
    intros d r' Hk. wp_step. wp_step.
    apply wp_keep_bind; [by apply wp_push_claim | intros; by apply Hret].
  - wp_step. wp_step. apply wp_keep_bind; [case_if E; by wp_go|].
    intros _ r' Hk. apply wp_keep_bind.
    { destruct (op_error (rec_operation r)); [by wp_go|].
      destruct (bounded_terminal_operation_error _). by wp_go. }
    intros _ r'' Hk'. apply wp_keep_bind; [by apply wp_push_claim | intros; by apply Hret].
Qed.

Lemma wp_reject_claim problem acceptance r :
  wp (reject_acceptance problem acceptance)
     (λ _ r', claimed_correlation r' = claimed_correlation r) r.
Proof.
  unfold reject_acceptance, set_operation. wp_step. wp_step. wp_step. wp_step.
  destruct problem; (apply wp_keep_bind; [by apply wp_terminalize_claim | intros; by wp_go]).
Qed.

Lemma wp_correlated_event_claim event r :
  wp (apply_correlated_module_event event)
     (λ _ r', claimed_correlation r' = claimed_correlation r) r.
Proof.
  unfold apply_correlated_module_event. wp_step. wp_step. wp_step. wp_step.
  destruct (op_terminal_event (rec_operation r)) as [contract|]; simpl; [|done].
  case_if E1;
    (apply wp_keep_bind;
     [unfold apply_module_event_progress, set_operation;
      destruct (event_progress event) as [[n|] len]; by wp_go|]); intros [] r' Hk.
  - wp_step. wp_step. by apply wp_push_claim.
  - case_if E2; by apply wp_terminalize_claim.
Qed.

(** An acceptance makes the operation wait on the identity it carries. *)
Lemma wp_accept_claim acceptance identity r :
  identity_for (ac_correlation acceptance) (ct_correlation (ac_terminal_event acceptance))
    = Some identity →
  wp (apply_outcome (Accepted acceptance))
     (λ out r', is_ok out = true →
        claimed_correlation r'
        = Some (ct_module (ac_terminal_event acceptance),
                ct_correlation (ac_terminal_event acceptance), identity)) r.
Proof.
  intros Hid. unfold apply_outcome, set_operation. wp_step. wp_step. apply wp_ok_then.
  wp_step. wp_step. wp_step. wp_step.
  eapply wp_mono; [apply wp_push_claim; reflexivity|]. intros out r' -> _.
  unfold claimed_correlation. simpl.
  case_if E; simpl; revert Hid; unfold identity_for, operation_correlation_value;
    simpl; by destruct (ct_correlation (ac_terminal_event acceptance)); intros ->.
Qed.
End transition_lemmas.

(** ** The reducer on the registry's records *)
Section reducer.
Context `{SerdeJson} {Request : Type}.
Abbreviation Record_ := (RuntimeOperationRecord Request).
Abbreviation Records := (gmap RuntimeOperationId (RuntimeOperationRecord Request)).
Implicit Types records : gmap RuntimeOperationId (RuntimeOperationRecord Request).
Implicit Types r : RuntimeOperationRecord Request.

(** Every record is well formed, filed under its own id, and settled records
    end with the event that settled them. *)
Definition entry_wf (id : RuntimeOperationId) (r : Record_) : Prop :=
  record_wf r ∧ settled_wf r ∧ op_operation_id (rec_operation r) = id.
Definition records_wf (records : Records) : Prop := map_Forall entry_wf records.

Definition correlations_unique (records : Records) : Prop :=
  ∀ i j ri rj key, records !! i = Some ri → records !! j = Some rj →
    claimed_correlation ri = Some key → claimed_correlation rj = Some key → i = j.

Lemma wp_on_record {A} id missing (m : M Record_ A) Q records r :
  records !! id = Some r →
  wp m (λ out r', Q out (<[id := r']> records)) r →
  wp (on_record id missing m) Q records.
Proof.
  intros Hr Hm w. specialize (Hm w). unfold on_record. rewrite Hr.
  by destruct (m r w) as [[out r'] w'].
Qed.

(** One pass over the reducer: what holds of the record it rewrites holds of
    the map it returns. *)
Lemma wp_transition id t Q records :
  (records !! id = None → Q (Ok EvidenceOnly) records) →
  (∀ r, records !! id = Some r → is_terminal (op_status (rec_operation r)) = true →
     wp (push_runtime_operation_event_locked "stale_transition" (stale_transition_message t)
           None None None)
        (λ out r', Q ((λ _, Stale) <$> out) (<[id := r']> records)) r) →
  (∀ r, records !! id = Some r → live r →
     (∀ problem acceptance, t = Resolved (Accepted acceptance) →
        accepted_correlation_problem records id (ac_correlation acceptance)
          (ac_terminal_event acceptance) = Some problem →
        wp (apply_record_mutation (reject_acceptance problem acceptance))
           (λ out r', Q out (<[id := r']> records)) r)
     ∧ ((∀ acceptance, t = Resolved (Accepted acceptance) →
           accepted_correlation_problem records id (ac_correlation acceptance)
             (ac_terminal_event acceptance) = None) →
        wp (apply_record_mutation (apply_live_transition t))
           (λ out r', Q out (<[id := r']> records)) r)) →
  wp (apply_runtime_operation_transition id t) Q records.
Proof.
  intros Hnone Hterm Hlive. unfold apply_runtime_operation_transition. wp_step. wp_step.
  destruct (records !! id) as [r|] eqn:Hr; [|by wp_go; apply Hnone].
  case_if Et.
  - wp_step. eapply wp_on_record; [done|]. eapply wp_mono; [by apply Hterm|].
    intros [[]|e] r' HQ; [by wp_go | done].
  - destruct (Hlive r eq_refl Et) as [Hrej Happ]. eapply wp_on_record; [done|].
    destruct t as [| |[|acceptance|]| | | | | | | | | | |]; cbv beta iota;
      lazymatch goal with
      | |- context [accepted_correlation_problem] => idtac
      | _ => apply Happ; by intros
      end.
    destruct (accepted_correlation_problem _ _ _ _) as [problem|] eqn:Ep;
      cbv [fmap option_fmap option_map]; cbv beta iota.
    + by eapply Hrej.
    + apply Happ. by intros ? [= <-].
Qed.

(** [records'] is a later version of [records]: no operation appears or
    disappears, and each record has only evolved. *)
Definition records_evolve (records records' : Records) : Prop :=
  dom records' = dom records
  ∧ ∀ id r, records !! id = Some r → ∃ r', records' !! id = Some r' ∧ evolves r r'.

#[export] Instance records_evolve_preorder : PreOrder records_evolve.
Proof.
  split.
  - intros records. split; [done|]. intros id r Hr. by exists r.
  - intros m1 m2 m3 [D1 E1] [D2 E2]. split; [congruence|].
    intros id r Hr. destruct (E1 _ _ Hr) as (r2 & Hr2 & ?).
    destruct (E2 _ _ Hr2) as (r3 & ? & ?). exists r3. split; [done|]. by etrans.
Qed.

Lemma evolves_id r r' : evolves r r' →
  op_operation_id (rec_operation r') = op_operation_id (rec_operation r).
Proof. intros [Hst]. unfold op_static in Hst. congruence. Qed.

Lemma insert_evolve records id r r' :
  records_wf records → records !! id = Some r →
  record_wf r' → settled_wf r' → evolves r r' →
  records_wf (<[id := r']> records) ∧ records_evolve records (<[id := r']> records).
Proof.
  intros Hwf Hr Hw Hs Hev. split.
  - apply map_Forall_insert_2; [|done]. split_and!; [done..|].
    rewrite (evolves_id _ _ Hev). by apply (Hwf _ _ Hr).
  - split; [rewrite dom_insert_lookup_L; [done|by exists r]|].
    intros id' r0 Hr0. destruct (decide (id' = id)) as [->|Hne].
    + simplify_eq. exists r'. by rewrite lookup_insert_eq.
    + exists r0. by rewrite lookup_insert_ne.
Qed.

(** A late event on a settled record is not appended: it is counted. *)
Lemma wp_push_settled phase message p res err r :
  record_wf r → settled_wf r → is_terminal (op_status (rec_operation r)) = true →
  runtime_operation_event_class phase = ClassEvidence →
  wp (push_runtime_operation_event_locked phase message p res err)
     (λ out r', out = Ok () ∧ record_wf r' ∧ settled_wf r' ∧ evolves r r'
                ∧ same_core r r' ∧ rec_events r' = rec_events r
                ∧ rec_next_event_cursor r' = rec_next_event_cursor r
                ∧ rec_history_truncated r' = true
                ∧ rec_dropped_event_count r'
                  = Z.min (rec_dropped_event_count r + 1) MAX_WIRE_EVENT_CURSOR) r.
Proof.
  intros Hwf Hs Ht Hcl. destruct (Hs Ht) as (e & Hlast & Hec).
  unfold push_runtime_operation_event_locked. wp_go. rewrite Ht, Hcl.
  assert (Hex : existsb (λ e, bool_decide (ev_class e = ClassTerminal)) (rec_events r) = true).
  { apply existsb_exists. exists e. split; [|by apply bool_decide_eq_true].
    apply last_Some in Hlast as [l ->]. apply in_or_app. simpl. auto. }
  rewrite Hex. simpl. wp_go. pose proof Hwf as [].
  split; [done|]. split.
  { split; simpl; rewrite ?increment_wire_counter_spec by lia; try done;
      unfold MAX_WIRE_EVENT_CURSOR in *; lia. }
  split; [done|]. split; [split; simpl; try done; try lia; by left|].
  simpl. by rewrite increment_wire_counter_spec by lia.
Qed.

(** *** The scans of the ingress loop *)
Lemma elem_of_ids_where p records id :
  id ∈ ids_where p records ↔ ∃ r, records !! id = Some r ∧ p r = true.
Proof.
  unfold ids_where. rewrite elem_of_str_sort, list_elem_of_In, in_map_iff.
  setoid_rewrite filter_In. split.
  - intros ([id' r] & <- & Hin & Hp). exists r. split; [|done].
    apply elem_of_map_to_list. by apply list_elem_of_In.
  - intros (r & Hr & Hp). exists (id, r). split; [done|]. split; [|done].
    apply list_elem_of_In. by apply elem_of_map_to_list.
Qed.

Lemma ids_where_NoDup p records : NoDup (ids_where p records).
Proof.
  unfold ids_where. rewrite str_sort_perm.
  pose proof (NoDup_fst_map_to_list records) as Hnd.
  induction (map_to_list records) as [|[id r] l IH]; simpl; [constructor|].
  simpl in Hnd. apply NoDup_cons in Hnd as [Hni Hnd].
  destruct (p r); simpl; [|by apply IH].
  apply NoDup_cons. split; [|by apply IH].
  intros Hin. apply Hni. apply list_elem_of_In in Hin. apply in_map_iff in Hin as ([i' r'] & <- & Hf).
  apply filter_In in Hf as [Hf _]. apply list_elem_of_fmap. exists (i', r').
  split; [done|]. by apply list_elem_of_In.
Qed.

(** One pass over the ingress: only the single correlated operation is
    rewritten. *)
Lemma wp_ingress event Q records :
  (ids_where (record_correlates event) records = [] →
   Q (Ok (match ids_where (record_recognizes event) records with
          | [] => IngressUnknown | ids => IngressUncorrelated ids end)) records) →
  (∀ i j ids, ids_where (record_correlates event) records = i :: j :: ids →
     Q (Ok (IngressAmbiguous (i :: j :: ids))) records) →
  (∀ id r, ids_where (record_correlates event) records = [id] →
     records !! id = Some r → record_correlates event r = true →
     is_terminal (op_status (rec_operation r)) = true →
     wp (push_runtime_operation_event_locked "stale_module_event"
           "module event arrived after terminal state" None
           (Some (event_result event)) (event_error event))
        (λ out r', Q ((λ _, IngressStale id) <$> out) (<[id := r']> records)) r) →
  (∀ id r, ids_where (record_correlates event) records = [id] →
     records !! id = Some r → record_correlates event r = true → live r →
     wp (apply_record_mutation (apply_correlated_module_event event))
        (λ out r', Q ((λ _, IngressApplied id) <$> out) (<[id := r']> records)) r) →
  wp (apply_module_event_ingress event) Q records.
Proof.
  intros Hnil Hamb Hterm Hlive. unfold apply_module_event_ingress. wp_step. wp_step.
  destruct (ids_where (record_correlates event) records) as [|id [|j ids]] eqn:E.
  - destruct (ids_where (record_recognizes event) records); wp_go; by apply Hnil.
  - assert (Hin : id ∈ ids_where (record_correlates event) records) by (rewrite E; set_solver).
    apply elem_of_ids_where in Hin as (r & Hr & Hp). rewrite Hr. wp_step. wp_step. simpl.
    case_if Et; wp_step; (eapply wp_on_record; [done|]).
    + eapply wp_mono; [by apply Hterm|]. intros [[]|e] r' HQ; [by wp_go | done].
    + eapply wp_mono; [by apply Hlive|]. intros [[]|e] r' HQ; [by wp_go | done].
  - wp_go. by apply Hamb.
Qed.
End reducer.

(** ** Theorems *)
Section reducer_theorems.
Context `{SerdeJson} {Request : Type}.
Abbreviation Record_ := (RuntimeOperationRecord Request).
Abbreviation Records := (gmap RuntimeOperationId (RuntimeOperationRecord Request)).
#[local] Opaque push_runtime_operation_event_locked reject_acceptance.

(** C2. Lifecycle: every transition, applied or failed, keeps the records well
    formed and only moves them forward.  No operation appears or disappears;
    its identity is fixed; its status follows running, awaiting, cancelling,
    settled and never turns back; once settled, its outcome is fixed; bytes,
    progress, cursors and timestamps never decrease. *)
Theorem transition_lifecycle (records : Records) id t w out records' w' :
  records_wf records → transition_ok t →
  apply_runtime_operation_transition id t records w = (out, records', w') →
  records_wf records' ∧ records_evolve records records'.
Proof.
  intros Hwf Ht. start_wp. apply wp_transition.
  - by intros _.
  - intros r Hr Hterm. destruct (Hwf _ _ Hr) as (Hw & Hs & _).
    eapply wp_mono; [by apply wp_push_settled|].
    intros ? r' (_ & ? & ? & ? & _). by eapply insert_evolve.
  - intros r Hr Hl. destruct (Hwf _ _ Hr) as (Hw & Hs & _).
    assert (Hgo : ∀ m : M Record_ TransitionDisposition,
      wp m (λ _ r', in_progress r r') r → wp m (λ out r', is_ok out = true → settled_wf r') r →
      wp (apply_record_mutation m)
         (λ _ r', records_wf (<[id := r']> records)
                  ∧ records_evolve records (<[id := r']> records)) r).
    { intros m H1 H2. apply wp_record_mutation.
      eapply wp_mono; [apply wp_and; [exact H1 | exact H2]|].
      intros [d|e] r' [[] Hset]; eapply insert_evolve; eauto. done. }
    split; intros; apply Hgo.
    + by apply wp_reject_inv.
    + by apply wp_reject_settled.
    + by apply wp_live_inv.
    + by apply wp_live_transition_settled.
Qed.

(** Atomicity: a transition that fails leaves every record as it was, and
    one that succeeds touches only the operation it names. *)
Theorem transition_atomic (records : Records) id t w out records' w' :
  apply_runtime_operation_transition id t records w = (out, records', w') →
  (is_ok out = false → records' = records)
  ∧ ∀ id', id' ≠ id → records' !! id' = records !! id'.
Proof.
  start_wp. apply wp_transition.
  - done.
  - intros r Hr _. eapply wp_mono; [apply push_frame|]. intros o r' [_ Hf]. split.
    + intros Ho. rewrite Hf by (by destruct o). by apply insert_id.
    + intros. by rewrite lookup_insert_ne.
  - intros r Hr Hl.
    assert (Hgo : ∀ m : M Record_ TransitionDisposition,
      wp (apply_record_mutation m)
         (λ o r', (is_ok o = false → <[id := r']> records = records)
                  ∧ ∀ id', id' ≠ id → <[id := r']> records !! id' = records !! id') r).
    { intros m. apply wp_record_mutation.
      eapply wp_mono; [apply wp_true|].
      intros [d|e] r' _; split; try done; intros; rewrite ?insert_id, ?lookup_insert_ne by done; done. }
    split; intros; apply Hgo.
Qed.

(** The first settlement wins: any transition that reaches a settled
    operation answers [Stale] and cannot fail.  The outcome, the log and the
    next cursor stay as they are; the late transition is only counted. *)
Theorem first_settlement_wins (records : Records) id r t w out records' w' :
  records_wf records → records !! id = Some r →
  is_terminal (op_status (rec_operation r)) = true →
  apply_runtime_operation_transition id t records w = (out, records', w') →
  out = Ok Stale
  ∧ ∃ r', records' = <[id := r']> records
      ∧ op_settlement (rec_operation r') = op_settlement (rec_operation r)
      ∧ rec_events r' = rec_events r
      ∧ rec_next_event_cursor r' = rec_next_event_cursor r
      ∧ rec_history_truncated r' = true
      ∧ rec_dropped_event_count r' = Z.min (rec_dropped_event_count r + 1) MAX_WIRE_EVENT_CURSOR.
Proof.
  intros Hwf Hr Ht. start_wp. apply wp_transition; intros; simplify_eq; [|unfold live in *; congruence].
  destruct (Hwf _ _ Hr) as (Hw & Hs & _).
  eapply wp_mono; [by apply wp_push_settled|].
  intros o r' (-> & _ & _ & _ & Hc & Hev & Hn & Htr & Hd). split; [done|]. exists r'.
  split; [done|]. split; [|done].
  symmetry. exact (f_equal (λ r, op_settlement (rec_operation r)) Hc).
Qed.

(** The status, reason, phase, error and result a settling transition is
    documented to leave. *)
Definition settles_as (t : RuntimeOperationTransition)
    : option (RuntimeOperationStatus * string * string * option string * option Value) :=
  match t with
  | Resolved (Completed v) => Some (StCompleted, "completed", "completed", None, Some v)
  | Resolved (Dispatched _) =>
      Some (StDispatched, "completion_unobservable", "dispatched", None, None)
  | ExecutionFailed e => Some (StFailed, "execution_failed", "failed", Some e, None)
  | CancellationConfirmed e =>
      Some (StCanceled, "canceled", "canceled", Some (default "runtime operation canceled" e), None)
  | TimedOut e => Some (StTimedOut, "timeout", "timed_out", Some e, None)
  | Shutdown e => Some (StFailed, "shutdown", "failed", Some e, None)
  | CleanupFailed e => Some (StFailed, "cleanup_failed", "failed", Some e, None)
  | TaskPanicked e => Some (StFailed, "task_panicked", "failed", Some e, None)
  | TaskAborted e => Some (StFailed, "task_aborted", "failed", Some e, None)
  | AdapterClosed e => Some (StFailed, "adapter_closed", "failed", Some e, None)
  | _ => None
  end.

Definition settled_by (r : Record_)
    (effect : RuntimeOperationStatus * string * string * option string * option Value) : Prop :=
  let '(status, reason, phase, error, result) := effect in
  op_status (rec_operation r) = status
  ∧ op_terminal_reason (rec_operation r) = Some reason
  ∧ op_error (rec_operation r) = (bounded_terminal_operation_error error).1
  ∧ op_result (rec_operation r) = result
  ∧ rec_pending_module_name r = None ∧ rec_restart_request r = None
  ∧ ∃ e, last (rec_events r) = Some e ∧ ev_phase e = phase ∧ ev_class e = ClassTerminal.

Lemma wp_terminalize_settled_by status result error reason phase message tp r :
  record_wf r → runtime_operation_event_class phase = ClassTerminal →
  wp (terminalize (Request := Request) status result error reason phase message tp)
     (λ out r', is_ok out = true → settled_by r' (status, reason, phase, error, result)) r.
Proof.
  intros Hwf Hph. eapply wp_mono; [by apply wp_terminalize|].
  intros out r' Hr Hok.
  destruct (Hr Hok) as (? & ? & ? & ? & _ & _ & ? & ? & ?). by repeat split.
Qed.

Lemma wp_live_settles t effect r :
  record_wf r → settles_as t = Some effect →
  wp (apply_live_transition (Request := Request) t)
     (λ out r', is_ok out = true → out = Ok Applied ∧ settled_by r' effect) r.
Proof.
  intros Hwf He.
  destruct t as [| |[v|a|v]| | | | | | | | | | |]; try discriminate He; injection He as <-;
    cbn [apply_live_transition];
    lazymatch goal with
    | |- wp (fail_with _ _ _ _ _) _ _ => apply wp_ok_then_eq; by apply wp_terminalize_settled_by
    | _ => idtac
    end; unfold apply_outcome, set_operation; wp_step; wp_step; apply wp_ok_then_eq.
  - apply wp_terminalize_settled_by; [|done]. destruct Hwf. by split.
  - wp_step. wp_step. apply wp_terminalize_settled_by; [|done]. destruct Hwf. by split.
  - apply wp_terminalize_settled_by; [|done]. destruct Hwf. by split.
Qed.

(** Settling transitions: on a live operation each of them, when it
    succeeds, answers [Applied] and leaves exactly the documented status,
    reason, error and result; nothing is pending or restartable any more and
    the newest event carries the terminal phase. *)
Theorem settling_transition_outcome (records : Records) id r t effect w out records' w' :
  records_wf records → records !! id = Some r → live r → settles_as t = Some effect →
  apply_runtime_operation_transition id t records w = (out, records', w') →
  is_ok out = true →
  out = Ok Applied ∧ ∃ r', records' = <[id := r']> records ∧ settled_by r' effect.
Proof.
  intros Hwf Hr Hl He. start_wp. destruct (Hwf _ _ Hr) as (Hw & _ & _).
  apply wp_transition; intros; simplify_eq; [unfold live in *; congruence|].
  split; [by intros ? ? ->|]. intros _. apply wp_record_mutation.
  eapply wp_mono; [by apply wp_live_settles|].
  intros [d|e] r' Hs; [|done]. intros _. destruct (Hs eq_refl). eauto.
Qed.

(** *** Correlations *)

(** An acceptance is sound when it carries the identity its contract asks for
    and no other operation waits on the same module, role and identity. *)
Lemma accepted_correlation_sound (records : Records) id correlation contract :
  accepted_correlation_problem records id correlation contract = None →
  ∃ identity, identity_for correlation (ct_correlation contract) = Some identity
    ∧ ∀ id' r', records !! id' = Some r' → id' ≠ id →
        claimed_correlation r' ≠ Some (ct_module contract, ct_correlation contract, identity).
Proof.
  unfold accepted_correlation_problem.
  destruct (identity_for _ _) as [identity|]; [|done]. case_if Ed; [done|]. intros _.
  exists identity. split; [done|]. intros id' r' Hr Hne Hk.
  apply not_true_iff_false in Ed. apply Ed. apply existsb_exists. exists (id', r').
  split; [by apply list_elem_of_In, elem_of_map_to_list|].
  rewrite bool_decide_true by done. unfold claimed_correlation in Hk.
  destruct (op_terminal_event (rec_operation r')) as [c|]; [|done].
  destruct (operation_correlation_value _ _) as [i|] eqn:Ei; [|done].
  simpl in Hk. injection Hk as -> <- ->.
  by rewrite String.eqb_refl, !bool_decide_true.
Qed.

Lemma insert_claim_unique (records : Records) id r' :
  correlations_unique records →
  (∀ key id' r, claimed_correlation r' = Some key → records !! id' = Some r → id' ≠ id →
     claimed_correlation r ≠ Some key) →
  correlations_unique (<[id := r']> records).
Proof.
  intros Hu Hk i j ri rj key Hi Hj Ki Kj.
  apply lookup_insert_Some in Hi as [[<- <-]|[Hi' Hi]], Hj as [[<- <-]|[Hj' Hj]].
  - done.
  - exfalso. by eapply (Hk key j rj).
  - exfalso. by eapply (Hk key i ri).
  - by eapply Hu.
Qed.

Lemma insert_same_claim (records : Records) id r r' :
  correlations_unique records → records !! id = Some r →
  claimed_correlation r' = claimed_correlation r →
  correlations_unique (<[id := r']> records).
Proof.
  intros Hu Hr Hc. apply insert_claim_unique; [done|].
  intros key id' r2 Hk Hr2 Hne Hk2. rewrite Hc in Hk. by destruct Hne; eapply Hu.
Qed.

Lemma wp_unique_mutation {A} (m : M Record_ A) (records : Records) id r :
  correlations_unique records → records !! id = Some r →
  wp m (λ out r', is_ok out = true → correlations_unique (<[id := r']> records)) r →
  wp (apply_record_mutation m) (λ _ r', correlations_unique (<[id := r']> records)) r.
Proof.
  intros Hu Hr Hm. apply wp_record_mutation. eapply wp_mono; [exact Hm|].
  intros [a|e] r' Hr'; [by apply Hr' | by eapply insert_same_claim].
Qed.

Lemma wp_same_claim {A} (m : M Record_ A) (records : Records) id r :
  correlations_unique records → records !! id = Some r →
  wp m (λ _ r', claimed_correlation r' = claimed_correlation r) r →
  wp m (λ out r', is_ok out = true → correlations_unique (<[id := r']> records)) r.
Proof.
  intros Hu Hr Hm. eapply wp_mono; [exact Hm|]. intros out r' Hc _.
  by eapply insert_same_claim.
Qed.

Lemma wp_transition_unique (records : Records) id t :
  correlations_unique records →
  wp (apply_runtime_operation_transition id t)
     (λ _ records', correlations_unique records') records.
Proof.
  intros Hu. apply wp_transition.
  - done.
  - intros r Hr _. eapply wp_mono; [by apply (wp_push_claim (claimed_correlation r))|].
    intros o r' Hk. by eapply insert_same_claim.
  - intros r Hr Hl. split; intros; apply wp_unique_mutation; try done.
    { apply wp_same_claim; [done..|]. apply wp_reject_claim. }
    destruct t as [| |[|acceptance|]| | | | | | | | | | |];
      try (apply wp_same_claim; [done..|]; by apply wp_live_claim).
    match goal with Hs : ∀ _, _ → accepted_correlation_problem _ _ _ _ = None |- _ =>
      destruct (accepted_correlation_sound _ _ _ _ (Hs acceptance eq_refl)) as (identity & Hid & Hfree) end.
    cbn [apply_live_transition]. eapply wp_mono; [by apply wp_accept_claim|].
    intros o r' Hk Hok. apply insert_claim_unique; [done|].
    intros key id2 r2 Hkey Hr2 Hne Hk2. rewrite (Hk Hok) in Hkey.
    injection Hkey as <-. by eapply (Hfree id2 r2).
Qed.

(** No two operations ever wait on the same module, role and identity: a
    transition, an acceptance included, never makes a correlation ambiguous. *)
Theorem transition_correlations_unique (records : Records) id t w out records' w' :
  correlations_unique records →
  apply_runtime_operation_transition id t records w = (out, records', w') →
  correlations_unique records'.
Proof. intros Hu. start_wp. by apply wp_transition_unique. Qed.

(** What a sound acceptance leaves: the operation waits on the identity it was
    given, keeps a cancellation in flight, and has no outcome yet. *)
Definition awaits (r r' : Record_) (acceptance : ObservableOperationAcceptance) : Prop :=
  op_status (rec_operation r')
    = (if bool_decide (op_status (rec_operation r) = StCanceling) then StCanceling
       else StAwaitingExternal)
  ∧ op_terminal_event (rec_operation r') = Some (ac_terminal_event acceptance)
  ∧ op_acknowledgement (rec_operation r') = Some (ac_acknowledgement acceptance)
  ∧ op_result (rec_operation r') = None ∧ op_error (rec_operation r') = None
  ∧ (∀ k, operation_correlation_value (rec_operation r') k
          = identity_for (ac_correlation acceptance) k)
  ∧ rec_pending_module_name r' = None
  ∧ ∃ e, last (rec_events r') = Some e ∧ ev_phase e = "accepted".

Lemma wp_accept_awaits acceptance (r : Record_) :
  record_wf r → live r →
  wp (apply_outcome (Accepted acceptance))
     (λ out r', is_ok out = true → out = Ok Applied ∧ awaits r r' acceptance) r.
Proof.
  intros Hwf Hl. unfold apply_outcome, set_operation. wp_step. wp_step. apply wp_ok_then_eq.
  wp_step. wp_step. wp_step. wp_step.
  match goal with |- wp _ _ ?r1 => assert (Hr1 : record_wf r1 ∧ live r1) end.
  { unfold live in *. destruct Hwf. split; [|simpl; by case_if E].
    split; simpl; try done; by case_if E. }
  destruct Hr1 as [Hwf1 Hl1].
  eapply wp_mono; [apply wp_and; [apply push_frame | apply push_appends]; try done|].
  - apply (wf_progress _ Hwf1).
  - by right.
  - intros out r' [[Hc _] Ha] Hok. destruct (Ha Hok) as (_ & _ & e & He & _ & Hp & _).
    unfold awaits. simpl in *.
    rewrite (same_core_status _ _ Hc), (same_core_result _ _ Hc), (same_core_error _ _ Hc),
      (same_core_pending _ _ Hc), (same_core_ack _ _ Hc), (same_core_contract _ _ Hc).
    simpl. split_and!; try done; try (by case_if E); [| |eauto].
    { case_if E; [by apply bool_decide_eq_true in E | done]. }
    intros []; unfold operation_correlation_value; simpl;
      rewrite ?(same_core_session _ _ Hc), ?(same_core_request _ _ Hc); simpl; by case_if E.
Qed.

Lemma wp_reject_settles problem acceptance (r : Record_) :
  record_wf r →
  wp (reject_acceptance problem acceptance)
     (λ out r', is_ok out = true →
        out = Ok (match problem with Missing => Applied | Duplicate => DuplicateCorrelation end)
        ∧ settled_by r'
            (StFailed, "invalid_external_correlation", "failed",
             Some (match problem with
                   | Missing => "accepted operation has no correlation required by its terminal event contract"
                   | Duplicate => "accepted operation reused an external correlation"
                   end), None)) r.
Proof.
  intros Hwf. with_strategy transparent [reject_acceptance] unfold reject_acceptance, set_operation.
  wp_step. wp_step. wp_step. wp_step.
  destruct problem; (apply wp_ok_then_eq, wp_terminalize_settled_by; [|done]); destruct Hwf; by split.
Qed.

(** Acceptance: a live operation whose acceptance carries a fresh identity
    waits on exactly that identity; one whose identity is missing or already
    waited on fails for good, and says which of the two it was. *)
Theorem acceptance_outcome (records : Records) id r acceptance w out records' w' :
  records_wf records → records !! id = Some r → live r →
  apply_runtime_operation_transition id (Resolved (Accepted acceptance)) records w
    = (out, records', w') →
  is_ok out = true →
  ∃ r', records' = <[id := r']> records
  ∧ match accepted_correlation_problem records id (ac_correlation acceptance)
            (ac_terminal_event acceptance) with
    | None => out = Ok Applied ∧ awaits r r' acceptance
    | Some Missing =>
        out = Ok Applied
        ∧ settled_by r' (StFailed, "invalid_external_correlation", "failed",
            Some "accepted operation has no correlation required by its terminal event contract", None)
    | Some Duplicate =>
        out = Ok DuplicateCorrelation
        ∧ settled_by r' (StFailed, "invalid_external_correlation", "failed",
            Some "accepted operation reused an external correlation", None)
    end.
Proof.
  intros Hwf Hr Hl. start_wp. destruct (Hwf _ _ Hr) as (Hw & _ & _).
  apply wp_transition; intros; simplify_eq; [unfold live in *; congruence|]. split.
  - intros problem a [= <-] Hp. rewrite Hp. apply wp_record_mutation.
    eapply wp_mono; [by apply wp_reject_settles|].
    intros [d|e] r' Hs; [|done]. intros _. exists r'. split; [done|].
    destruct problem; by apply Hs.
  - intros Hs. rewrite (Hs acceptance eq_refl). apply wp_record_mutation.
    cbn [apply_live_transition]. eapply wp_mono; [by apply wp_accept_awaits|].
    intros [d|e] r' Ha; [|done]. intros _. exists r'. split; [done|]. by apply Ha.
Qed.

(** *** Module event ingress *)

(** Ingress lifecycle: a module event keeps the records well formed and the
    correlations unique, moves records only forward, and changes nothing when
    it fails. *)
Theorem ingress_lifecycle (records : Records) event w out records' w' :
  records_wf records → correlations_unique records →
  apply_module_event_ingress event records w = (out, records', w') →
  records_wf records' ∧ correlations_unique records' ∧ records_evolve records records'
  ∧ (is_ok out = false → records' = records).
Proof.
  intros Hwf Hu. start_wp. apply wp_ingress.
  - by intros _.
  - by intros.
  - intros id r _ Hr _ Ht. destruct (Hwf _ _ Hr) as (Hw & Hs & _).
    eapply wp_mono; [apply wp_and; [by apply wp_push_settled
      | by apply (wp_push_claim (claimed_correlation r))]|].
    intros o r' [(-> & ? & ? & ? & _) Hk].
    destruct (insert_evolve records id r r'); [done..|].
    split_and!; try done. by eapply insert_same_claim.
  - intros id r _ Hr _ Hl. destruct (Hwf _ _ Hr) as (Hw & Hs & _).
    apply wp_record_mutation.
    eapply wp_mono; [apply wp_and; [by apply wp_correlated_event_inv
      | apply wp_and; [by apply wp_correlated_event_settled | apply wp_correlated_event_claim]]|].
    intros [a|e] r' ([] & Hset & Hk); [|by rewrite insert_id].
    destruct (insert_evolve records id r r'); [by auto..|].
    split_and!; try done. by eapply insert_same_claim.
Qed.

(** What the answer of the ingress says about the records it was given. *)
Definition ingress_answers (event : ModuleEventEnvelope) (records records' : Records)
    (answer : ModuleEventIngressResult) : Prop :=
  match answer with
  | IngressApplied id =>
      ∃ r r', records !! id = Some r ∧ live r ∧ records' = <[id := r']> records
        ∧ ∀ i, (∃ ri, records !! i = Some ri ∧ record_correlates event ri = true) ↔ i = id
  | IngressStale id =>
      ∃ r r', records !! id = Some r ∧ is_terminal (op_status (rec_operation r)) = true
        ∧ records' = <[id := r']> records
        ∧ op_settlement (rec_operation r') = op_settlement (rec_operation r)
        ∧ rec_events r' = rec_events r
        ∧ ∀ i, (∃ ri, records !! i = Some ri ∧ record_correlates event ri = true) ↔ i = id
  | IngressAmbiguous ids =>
      records' = records ∧ NoDup ids ∧ (2 ≤ length ids)%nat
        ∧ ∀ i, i ∈ ids ↔ ∃ ri, records !! i = Some ri ∧ record_correlates event ri = true
  | IngressUncorrelated ids =>
      records' = records ∧ NoDup ids ∧ ids ≠ []
        ∧ (∀ i, i ∈ ids ↔ ∃ ri, records !! i = Some ri ∧ record_recognizes event ri = true)
        ∧ ∀ i ri, records !! i = Some ri → record_correlates event ri = false
  | IngressUnknown =>
      records' = records ∧ ∀ i ri, records !! i = Some ri → record_recognizes event ri = false
  | IngressDeferred _ => False
  end.

Lemma ids_where_nil p (records : Records) i ri :
  ids_where p records = [] → records !! i = Some ri → p ri = false.
Proof.
  intros E Hr. destruct (p ri) eqn:Hp; [|done].
  assert (Hin : i ∈ ids_where p records) by (apply elem_of_ids_where; eauto).
  rewrite E in Hin. by apply elem_of_nil in Hin.
Qed.

Lemma ids_where_single p (records : Records) id :
  ids_where p records = [id] →
  ∀ i, (∃ ri, records !! i = Some ri ∧ p ri = true) ↔ i = id.
Proof. intros E i. rewrite <- elem_of_ids_where, E, list_elem_of_singleton. done. Qed.

(** Ingress answers: an event is applied only to the one live operation it
    correlates with, counted only against the one settled operation it
    correlates with, and otherwise leaves every record alone while the answer
    lists exactly the operations that recognize or correlate with it. *)
Theorem ingress_answer_exact (records : Records) event w answer records' w' :
  records_wf records →
  apply_module_event_ingress event records w = (Ok answer, records', w') →
  ingress_answers event records records' answer.
Proof.
  intros Hwf E.
  cut (wp (apply_module_event_ingress event)
         (λ out records', ∀ a, out = Ok a → ingress_answers event records records' a) records).
  { intros Hwp. exact (wp_run _ _ _ _ _ _ _ Hwp E _ eq_refl). }
  clear E. apply wp_ingress.
  - intros Ec a [= <-]. destruct (ids_where (record_recognizes event) records) as [|i ids] eqn:Er.
    + split; [done|]. intros. by eapply ids_where_nil.
    + split_and!; [done| rewrite <- Er; apply ids_where_NoDup |done| |].
      * intros j. rewrite <- Er. apply elem_of_ids_where.
      * intros. by eapply ids_where_nil.
  - intros i j ids Ec a [= <-]. split_and!; [done| rewrite <- Ec; apply ids_where_NoDup| simpl; lia|].
    intros k. rewrite <- Ec. apply elem_of_ids_where.
  - intros id r Ec Hr _ Ht. destruct (Hwf _ _ Hr) as (Hw & Hs & _).
    eapply wp_mono; [by apply wp_push_settled|].
    intros o r' (-> & _ & _ & _ & Hc & Hev & _) a [= <-]. exists r, r'.
    split_and!; try done; [|by apply ids_where_single].
    symmetry. exact (f_equal (λ r, op_settlement (rec_operation r)) Hc).
  - intros id r Ec Hr _ Hl. apply wp_record_mutation.
    eapply wp_mono; [apply wp_true|]. intros [[]|e] r' _ a; [|done]. intros [= <-].
    exists r, r'. split_and!; try done. by apply ids_where_single.
Qed.

Lemma correlates_claim event (r : Record_) :
  record_correlates event r = true →
  ∃ k v, correlation_value event k = Some v
         ∧ claimed_correlation r = Some (me_module_name event, k, v).
Proof.
  unfold record_correlates, claimed_correlation, recognizes.
  destruct (op_terminal_event (rec_operation r)) as [c|]; [|done].
  destruct (operation_correlation_value _ _) as [v|]; [|by rewrite andb_false_r].
  destruct (correlation_value event (ct_correlation c)) as [v'|] eqn:Ev; [|by rewrite andb_false_r].
  intros [[Hm _]%andb_true_iff Hv]%andb_true_iff.
  apply String.eqb_eq in Hm, Hv. subst. exists (ct_correlation c), v'. by rewrite Hm.
Qed.

(** Ambiguity has one cause: when correlations are unique, an ambiguous
    event names exactly two operations, one by its session and one by its
    request. *)
Theorem ambiguity_spans_roles (records : Records) event w ids records' w' :
  correlations_unique records →
  apply_module_event_ingress event records w = (Ok (IngressAmbiguous ids), records', w') →
  ∃ i j ri rj s q, ids ≡ₚ [i; j] ∧ records !! i = Some ri ∧ records !! j = Some rj
    ∧ claimed_correlation ri = Some (me_module_name event, KSession, s)
    ∧ claimed_correlation rj = Some (me_module_name event, KRequest, q)
    ∧ correlation_value event KSession = Some s ∧ correlation_value event KRequest = Some q.
Proof.
  intros Hu E.
  assert (Hids : ids_where (record_correlates event) records = ids ∧ (2 ≤ length ids)%nat).
  { revert E. unfold apply_module_event_ingress, mbind, M_bind, get, lift, ok_or, mret, M_ret, on_record.
    destruct (ids_where (record_correlates event) records) as [|i [|j l]];
      repeat case_match; intros; simplify_eq; simpl; auto with lia. }
  destruct Hids as [Hids Hlen].
  assert (Hin : ∀ i, i ∈ ids → ∃ ri k v, records !! i = Some ri
    ∧ claimed_correlation ri = Some (me_module_name event, k, v)
    ∧ correlation_value event k = Some v).
  { intros i Hi. rewrite <- Hids in Hi. apply elem_of_ids_where in Hi as (ri & Hr & Hc).
    destruct (correlates_claim _ _ Hc) as (k & v & ? & ?). eauto 10. }
  assert (Hnd : NoDup ids) by (rewrite <- Hids; apply ids_where_NoDup).
  destruct ids as [|i [|j l]]; simpl in Hlen; [lia..|].
  destruct (Hin i) as (ri & ki & vi & Hri & Hci & Hvi); [set_solver|].
  destruct (Hin j) as (rj & kj & vj & Hrj & Hcj & Hvj); [set_solver|].
  apply NoDup_cons in Hnd as [Hi Hnd]. apply NoDup_cons in Hnd as [Hj _].
  assert (Hij : ki ≠ kj).
  { intros ->. simplify_eq. apply Hi. rewrite (Hu i j ri rj _ Hri Hrj Hci Hcj). set_solver. }
  destruct l as [|k l].
  - destruct ki, kj; try done; [exists i, j, ri, rj, vi, vj | exists j, i, rj, ri, vj, vi];
      split_and!; try done. apply Permutation_swap.
  - exfalso. destruct (Hin k) as (rk & kk & vk & Hrk & Hck & Hvk); [set_solver|].
    assert (kk = ki ∨ kk = kj) as [->| ->] by (destruct kk, ki, kj; auto; done); simplify_eq.
    + apply Hi. rewrite (Hu i k ri rk _ Hri Hrk Hci Hck). set_solver.
    + apply Hj. rewrite (Hu j k rj rk _ Hrj Hrk Hcj Hck). set_solver.
Qed.

(** What a correlated event does to the operation that waits for it. *)
Definition event_effect (event : ModuleEventEnvelope) (contract : ModuleTerminalEventContract)
    (r r' : Record_) : Prop :=
  if opt_str_eqb (ct_progress_event contract) (me_event_name event) then
    op_settlement (rec_operation r') = op_settlement (rec_operation r)
    ∧ op_bytes_written (rec_operation r')
      = saturating_add (op_bytes_written (rec_operation r)) (default 0 (event_progress event).1)
  else if event_failed event contract then
    settled_by r' (StFailed, "external_failure", "failed",
      Some (default ("module event `" +:+ me_event_name event +:+ "` reported failure")
              (event_error event)), None)
  else
    settled_by r' (StCompleted, "external_completion", "completed", None,
      Some (event_result event)).

Lemma wp_event_progress_core event accumulate (r : Record_) :
  record_wf r → live r →
  wp (apply_module_event_progress event accumulate)
     (λ out r', out = Ok () ∧ record_wf r'
        ∧ op_settlement (rec_operation r') = op_settlement (rec_operation r)
        ∧ (accumulate = true →
           op_bytes_written (rec_operation r')
           = saturating_add (op_bytes_written (rec_operation r))
               (default 0 (event_progress event).1))) r.
Proof.
  intros Hwf Hl.
  assert (Hrun : wp (apply_module_event_progress event accumulate)
    (λ out r', out = Ok ()
       ∧ op_settlement (rec_operation r') = op_settlement (rec_operation r)
       ∧ (accumulate = true →
          op_bytes_written (rec_operation r')
          = saturating_add (op_bytes_written (rec_operation r))
              (default 0 (event_progress event).1))) r).
  { unfold apply_module_event_progress, set_operation.
    destruct (event_progress event) as [[n|] len]; wp_go; (split; [done|]); (split; [done|]);
      intros ->; simpl; [done|].
    destruct Hwf. unfold saturating_add, in_u64 in *. lia. }
  eapply wp_mono; [apply wp_and; [by apply wp_event_progress_inv with (r0 := r) | exact Hrun]|].
  intros out r' [[Hw _] (-> & ? & ?)]. done.
Qed.

Lemma wp_correlated_event_effect event contract (r : Record_) :
  record_wf r → live r → op_terminal_event (rec_operation r) = Some contract →
  wp (apply_correlated_module_event event)
     (λ out r', is_ok out = true → event_effect event contract r r') r.
Proof.
  intros Hwf Hl Hc. unfold apply_correlated_module_event, event_effect.
  wp_step. wp_step. wp_step. wp_step. rewrite Hc. simpl.
  case_if E1.
  - wp_step. eapply wp_mono; [by apply (wp_event_progress_core event true)|].
    intros o r1 (-> & Hw1 & Hs1 & Hb1). wp_step. wp_step.
    eapply wp_mono; [apply push_frame|]. intros o r' [Hcore _] _.
    rewrite (same_core_bytes _ _ Hcore), (Hb1 eq_refl). split; [|done].
    rewrite <- Hs1. symmetry. exact (f_equal (λ r, op_settlement (rec_operation r)) Hcore).
  - wp_step. eapply wp_mono; [by apply (wp_event_progress_core event false)|].
    intros o r1 (-> & Hw1 & _ & _). case_if E2; by apply wp_terminalize_settled_by.
Qed.

(** A correlated event: progress adds its bytes without settling the
    operation; a failure settles it as failed with the module's error; any
    other recognized event completes it with the event's payload. *)
Theorem correlated_event_outcome (records : Records) event id r contract w records' w' :
  records_wf records → records !! id = Some r →
  op_terminal_event (rec_operation r) = Some contract →
  apply_module_event_ingress event records w = (Ok (IngressApplied id), records', w') →
  ∃ r', records' = <[id := r']> records ∧ event_effect event contract r r'.
Proof.
  intros Hwf Hr Hc E.
  cut (wp (apply_module_event_ingress event) (λ out records', out = Ok (IngressApplied id) →
         ∃ r', records' = <[id := r']> records ∧ event_effect event contract r r') records).
  { intros Hwp. exact (wp_run _ _ _ _ _ _ _ Hwp E eq_refl). }
  clear E. apply wp_ingress; try done.
  - intros _. by destruct (ids_where _ _).
  - intros i ri _ _ _ _. eapply wp_mono; [apply wp_true|]. by intros [[]|] r' _.
  - intros i ri _ Hi _ Hl. destruct (decide (i = id)) as [->|Hne].
    + simplify_eq. destruct (Hwf _ _ Hr) as (Hw & _ & _). apply wp_record_mutation.
      eapply wp_mono; [by apply wp_correlated_event_effect|].
      intros [[]|e] r' He; [|done]. intros _. exists r'. split; [done|]. by apply He.
    + eapply wp_mono; [apply wp_true|]. intros [[]|] r' _; [|done]. by intros [=].
Qed.
End reducer_theorems.
