(* ===== verification/OperationControl.v ===== *)
(** * The control of a supervised operation

    [OperationControl] of
    [src/src/inspector/commands/operations/supervisor.rs] and the work tracker
    of [src/src/support/work_tracker.rs].  A control is shared by the thread
    that asks for a cancellation, the reducer of the supervisor and the task
    that executes the operation; they agree through two atomic cells, a stop
    reason and an execution state, and a cancellation token.

    The methods are given twice: as the functions of the code, which is what a
    caller that runs alone observes, and as calls that perform one atomic
    access per step, so that any number of calls can be interleaved. *)

From S2P Require Import Prelude Json ModuleEvents OperationRecord.

Definition EXECUTION_QUEUED : Z := 0.
Definition EXECUTION_STARTED : Z := 1.
Definition EXECUTION_STOPPED_BEFORE_START : Z := 2.
Definition DEFAULT_TERMINATION_HANDSHAKE_GRACE : Z := 1000000000.

Inductive OperationStopReason : Type := StopCancelRequested | StopDeadlineExceeded | StopShutdown.
#[export] Instance OperationStopReason_eq_dec : EqDecision OperationStopReason.
Proof. solve_decision. Defined.

(** The discriminants of the enumeration, [reason as u8]. *)
Definition stop_reason_code (reason : OperationStopReason) : Z :=
  match reason with
  | StopCancelRequested => 1
  | StopDeadlineExceeded => 2
  | StopShutdown => 3
  end.

Inductive TerminationEvidence : Type := Confirmed | LocalOnly.
#[export] Instance TerminationEvidence_eq_dec : EqDecision TerminationEvidence.
Proof. solve_decision. Defined.

Record OperationInterrupted : Type := mkInterrupted {
  oi_reason : OperationStopReason;
  oi_evidence : TerminationEvidence;
  oi_message : string;
}.

Definition interrupted_confirmed (reason : OperationStopReason) (message : string) : OperationInterrupted :=
  mkInterrupted reason Confirmed message.
Definition interrupted_local_only (reason : OperationStopReason) (message : string) : OperationInterrupted :=
  mkInterrupted reason LocalOnly message.

Definition local_only_interruption (reason : OperationStopReason) : OperationInterrupted :=
  interrupted_local_only reason
    match reason with
    | StopCancelRequested =>
        "runtime operation stopped after cancellation; adapter termination is unconfirmed"
    | StopDeadlineExceeded => "runtime operation deadline elapsed; adapter termination is unconfirmed"
    | StopShutdown => "runtime operation stopped during shutdown; adapter termination is unconfirmed"
    end.

Definition not_started_interruption (reason : OperationStopReason) : OperationInterrupted :=
  interrupted_confirmed reason
    match reason with
    | StopCancelRequested => "runtime operation was canceled before adapter execution started"
    | StopDeadlineExceeded => "runtime operation deadline elapsed before adapter execution started"
    | StopShutdown => "runtime operation stopped during shutdown before adapter execution started"
    end.

(** ** Blocking work ([work_tracker.rs])

    The state is behind a mutex; each method is one critical section.  A
    poisoned mutex is entered like any other. *)
Record BlockingWorkState : Type := mkWork { bw_accepting : bool; bw_active : Z }.
#[export] Instance BlockingWorkState_eta : Eta BlockingWorkState := λ s, mkWork (bw_accepting s) (bw_active s).

Definition tracker_new : BlockingWorkState := mkWork true 0.

Definition worker_guard (s : BlockingWorkState) : Result () * BlockingWorkState :=
  if negb (bw_accepting s) then (bail "blocking work tracker is closed", s)
  else
    match checked_add (bw_active s) 1 with
    | None => (bail "blocking work tracker capacity overflow", s)
    | Some active => (Ok (), s <| bw_active := active |>)
    end.

Definition stop_accepting (s : BlockingWorkState) : BlockingWorkState := s <| bw_accepting := false |>.

(** [Drop for BlockingWorkGuard]. *)
Definition guard_drop (s : BlockingWorkState) : BlockingWorkState :=
  if bool_decide (bw_active s ≠ 0) then s <| bw_active := bw_active s - 1 |> else s.

(** [wait_idle] returns exactly in the states without active work. *)
Definition is_idle (s : BlockingWorkState) : bool := bool_decide (bw_active s = 0).

(** ** The control *)
Record OperationDisposableFile : Type := mkDisposable { df_path : string; df_created : bool }.
#[export] Instance OperationDisposableFile_eta : Eta OperationDisposableFile := λ f,
  mkDisposable (df_path f) (df_created f).

Record OperationControl : Type := mkControl {
  oc_cancelled : bool;
  oc_settled : bool;
  oc_deadline : Instant;
  oc_stop_reason : Z;
  oc_disposable_file : option OperationDisposableFile;
  oc_blocking_work : BlockingWorkState;
  oc_commit_active : bool;
  oc_execution_state : Z;
  oc_termination_handshake_grace : Z;
}.
#[export] Instance OperationControl_eta : Eta OperationControl := λ c,
  mkControl (oc_cancelled c) (oc_settled c) (oc_deadline c) (oc_stop_reason c) (oc_disposable_file c)
    (oc_blocking_work c) (oc_commit_active c) (oc_execution_state c) (oc_termination_handshake_grace c).

(** [OperationControl::new] with [with_termination_handshake_grace]; the token
    is a child of the supervisor's root token. *)
Definition control_new (deadline : Instant) (disposable_file : option OperationDisposableFile)
    (grace : Z) : OperationControl :=
  mkControl false false deadline 0 disposable_file tracker_new false EXECUTION_QUEUED grace.

(** A child token is cancelled with its parent. *)
Definition is_cancelled (root_cancelled : bool) (c : OperationControl) : bool :=
  oc_cancelled c || root_cancelled.

Definition stop_reason_of (code : Z) : option OperationStopReason :=
  if code =? 1 then Some StopCancelRequested
  else if code =? 2 then Some StopDeadlineExceeded
  else if code =? 3 then Some StopShutdown
  else None.
Definition stop_reason (c : OperationControl) : option OperationStopReason :=
  stop_reason_of (oc_stop_reason c).

(** [AtomicU8::compare_exchange]: the previous value of the cell, as [Ok] when
    the exchange took place. *)
Definition compare_exchange (cell current new : Z) : (Z + Z) * Z :=
  if cell =? current then (inl cell, new) else (inr cell, cell).

Definition stop_before_execution (c : OperationControl) : OperationControl :=
  c <| oc_execution_state :=
         (compare_exchange (oc_execution_state c) EXECUTION_QUEUED EXECUTION_STOPPED_BEFORE_START).2 |>.

Definition cancel_token (c : OperationControl) : OperationControl := c <| oc_cancelled := true |>.

Definition request_cancel (c : OperationControl) : OperationControl :=
  let c := c <| oc_stop_reason :=
    (compare_exchange (oc_stop_reason c) 0 (stop_reason_code StopCancelRequested)).2 |> in
  cancel_token (stop_before_execution c).

(** The value of the cell after which the loop of a stop request breaks. *)
Definition stop_is_final (code : Z) : bool :=
  (code =? stop_reason_code StopDeadlineExceeded) || (code =? stop_reason_code StopShutdown).

(** The loop of [request_deadline] and [request_shutdown] on a cell no other
    thread writes: the first exchange succeeds. *)
Definition raise_stop (reason : OperationStopReason) (c : OperationControl) : OperationControl :=
  if stop_is_final (oc_stop_reason c) then c
  else c <| oc_stop_reason :=
         (compare_exchange (oc_stop_reason c) (oc_stop_reason c) (stop_reason_code reason)).2 |>.

Definition request_deadline (c : OperationControl) : OperationControl :=
  cancel_token (stop_before_execution (raise_stop StopDeadlineExceeded c)).
Definition request_shutdown (c : OperationControl) : OperationControl :=
  cancel_token (stop_before_execution (raise_stop StopShutdown c)).

Definition control_settle (c : OperationControl) : OperationControl := c <| oc_settled := true |>.

Definition mark_disposable_file_created (c : OperationControl) : OperationControl :=
  c <| oc_disposable_file ::= λ f, (λ file, file <| df_created := true |>) <$> f |>.

Inductive BeginError : Type := NotStarted (interrupted : OperationInterrupted) | AlreadyStarted.

Definition begin_execution (now : Instant) (root_cancelled : bool) (c : OperationControl)
    : option BeginError * OperationControl :=
  let c :=
    if oc_deadline c <=? now then request_deadline c
    else if is_cancelled root_cancelled c then stop_before_execution c
    else c in
  match compare_exchange (oc_execution_state c) EXECUTION_QUEUED EXECUTION_STARTED with
  | (inl _, state) => (None, c <| oc_execution_state := state |>)
  | (inr state, _) =>
      if state =? EXECUTION_STOPPED_BEFORE_START
      then (Some (NotStarted (not_started_interruption (default StopCancelRequested (stop_reason c)))), c)
      else (Some AlreadyStarted, c)
  end.

Definition begin_non_cancellable_commit (c : OperationControl) : Result () * OperationControl :=
  if oc_commit_active c then (bail "runtime operation commit phase is already active", c)
  else (Ok (), c <| oc_commit_active := true |>).
(** [Drop for OperationCommitGuard]. *)
Definition commit_guard_drop (c : OperationControl) : OperationControl := c <| oc_commit_active := false |>.

(** ** Interleaved calls

    A call is at one of its atomic accesses.  [Resume] says where a stop
    request goes on: it returns to its caller, or it was made by
    [begin_execution]. *)
Inductive Resume : Type := ResumeReturn | ResumeBegin.
#[export] Instance Resume_eq_dec : EqDecision Resume.
Proof. solve_decision. Defined.

Inductive CallResult : Type :=
  | ReturnedUnit
  | ReturnedStarted
  | ReturnedNotStarted (reason : OperationStopReason)
  | ReturnedAlreadyStarted
  | ReturnedCommitDropped
  | ReturnedCommitRefused.
#[export] Instance CallResult_eq_dec : EqDecision CallResult.
Proof. solve_decision. Defined.

Inductive Call : Type :=
  | CallCancel                                              (* [request_cancel]: the exchange 0 -> 1 *)
  | CallStopLoad (reason : OperationStopReason) (k : Resume)            (* the first load of a stop loop *)
  | CallStopLoop (reason : OperationStopReason) (current : Z) (k : Resume)  (* its test and weak exchange *)
  | CallStopExecution (k : Resume)                          (* [stop_before_execution] of a stop request *)
  | CallCancelToken (k : Resume)
  | CallBegin                                               (* [begin_execution]: the clock *)
  | CallBeginToken                                          (* its token *)
  | CallBeginStop                                           (* its own [stop_before_execution] *)
  | CallBeginExchange
  | CallBeginReason                                         (* the load of the stop reason *)
  | CallCommit                                              (* [begin_non_cancellable_commit] *)
  | CallCommitHeld                                          (* the guard is alive; it is dropped next *)
  | Returned (result : CallResult).
#[export] Instance Call_eq_dec : EqDecision Call.
Proof. solve_decision. Defined.

Definition call_request_cancel : Call := CallCancel.
Definition call_request_deadline : Call := CallStopLoad StopDeadlineExceeded ResumeReturn.
Definition call_request_shutdown : Call := CallStopLoad StopShutdown ResumeReturn.
Definition call_begin_execution : Call := CallBegin.
Definition call_commit : Call := CallCommit.

(** What a step observes from outside: the clock, the root token, and whether
    a weak exchange fails spuriously. *)
Record StepEnv : Type := mkEnv { env_now : Instant; env_root : bool; env_spurious : bool }.

Definition resume (k : Resume) : Call :=
  match k with ResumeReturn => Returned ReturnedUnit | ResumeBegin => CallBeginExchange end.

Definition step_call (e : StepEnv) (c : OperationControl) (t : Call) : OperationControl * Call :=
  match t with
  | CallCancel =>
      (c <| oc_stop_reason := (compare_exchange (oc_stop_reason c) 0 (stop_reason_code StopCancelRequested)).2 |>,
       CallStopExecution ResumeReturn)
  | CallStopLoad reason k => (c, CallStopLoop reason (oc_stop_reason c) k)
  | CallStopLoop reason current k =>
      if stop_is_final current then (c, CallStopExecution k)
      else if env_spurious e then (c, CallStopLoop reason (oc_stop_reason c) k)
      else
        match compare_exchange (oc_stop_reason c) current (stop_reason_code reason) with
        | (inl _, code) => (c <| oc_stop_reason := code |>, CallStopExecution k)
        | (inr updated, _) => (c, CallStopLoop reason updated k)
        end
  | CallStopExecution k => (stop_before_execution c, CallCancelToken k)
  | CallCancelToken k => (cancel_token c, resume k)
  | CallBegin =>
      (c, if oc_deadline c <=? env_now e then CallStopLoad StopDeadlineExceeded ResumeBegin
          else CallBeginToken)
  | CallBeginToken => (c, if is_cancelled (env_root e) c then CallBeginStop else CallBeginExchange)
  | CallBeginStop => (stop_before_execution c, CallBeginExchange)
  | CallBeginExchange =>
      match compare_exchange (oc_execution_state c) EXECUTION_QUEUED EXECUTION_STARTED with
      | (inl _, state) => (c <| oc_execution_state := state |>, Returned ReturnedStarted)
      | (inr state, _) =>
          (c, if state =? EXECUTION_STOPPED_BEFORE_START then CallBeginReason
              else Returned ReturnedAlreadyStarted)
      end
  | CallBeginReason => (c, Returned (ReturnedNotStarted (default StopCancelRequested (stop_reason c))))
  | CallCommit =>
      if oc_commit_active c then (c, Returned ReturnedCommitRefused)
      else (c <| oc_commit_active := true |>, CallCommitHeld)
  | CallCommitHeld => (commit_guard_drop c, Returned ReturnedCommitDropped)
  | Returned result => (c, Returned result)
  end.

(** A configuration is the control and the calls on it, returned ones
    included; a schedule says which call moves and what it observes. *)
Definition Config : Type := OperationControl * list Call.

Definition is_returned (t : Call) : bool := match t with Returned _ => true | _ => false end.

Definition step_config (i : nat) (e : StepEnv) (s : Config) : option Config :=
  match s.2 !! i with
  | Some t =>
      if is_returned t then None
      else let '(c, t') := step_call e s.1 t in Some (c, <[i := t']> s.2)
  | None => None
  end.

Definition control_step (s s' : Config) : Prop := ∃ i e, step_config i e s = Some s'.

Fixpoint run_schedule (schedule : list (nat * StepEnv)) (s : Config) : option Config :=
  match schedule with
  | [] => Some s
  | (i, e) :: schedule' => s' ← step_config i e s; run_schedule schedule' s'
  end.

(** The configurations the program starts from. *)
Definition is_entry (t : Call) : bool :=
  match t with
  | CallCancel | CallBegin | CallCommit => true
  | CallStopLoad (StopDeadlineExceeded | StopShutdown) ResumeReturn => true
  | _ => false
  end.

Definition initial_config (s : Config) : Prop :=
  (∃ deadline file grace, s.1 = control_new deadline file grace) ∧ Forall (λ t, is_entry t = true) s.2.

(** ** Running alone

    Without interference and spurious failures a call is the function of the
    code. *)
Definition run_alone (n : nat) (e : StepEnv) (c : OperationControl) (t : Call) : OperationControl * Call :=
  Nat.iter n (λ s, step_call e s.1 s.2) (c, t).

Arguments run_alone : simpl never.

(** The method a call makes, with its result. *)
Definition method_of (e : StepEnv) (c : OperationControl) (t : Call) : OperationControl * Call :=
  match t with
  | CallCancel => (request_cancel c, Returned ReturnedUnit)
  | CallStopLoad StopDeadlineExceeded _ => (request_deadline c, Returned ReturnedUnit)
  | CallStopLoad StopShutdown _ => (request_shutdown c, Returned ReturnedUnit)
  | CallBegin =>
      let '(out, c') := begin_execution (env_now e) (env_root e) c in
      (c', Returned match out with
                    | None => ReturnedStarted
                    | Some (NotStarted interrupted) => ReturnedNotStarted (oi_reason interrupted)
                    | Some AlreadyStarted => ReturnedAlreadyStarted
                    end)
  | CallCommit =>
      let '(out, c') := begin_non_cancellable_commit c in
      match out with
      | Ok _ => (commit_guard_drop c', Returned ReturnedCommitDropped)
      | Err _ => (c', Returned ReturnedCommitRefused)
      end
  | t => (c, t)
  end.

Lemma run_alone_add n m e c t :
  run_alone (n + m) e c t = run_alone m e (run_alone n e c t).1 (run_alone n e c t).2.
Proof.
  unfold run_alone. rewrite Nat.add_comm, Nat.iter_add.
  by destruct (Nat.iter n _ (c, t)).
Qed.

Lemma run_alone_S n e c t :
  run_alone (S n) e c t = run_alone n e (step_call e c t).1 (step_call e c t).2.
Proof. apply (run_alone_add 1 n). Qed.

Lemma run_alone_returned n e c r : run_alone n e c (Returned r) = (c, Returned r).
Proof. unfold run_alone. induction n as [|n IH]; [done|]. simpl. by rewrite IH. Qed.

Lemma run_stop_alone e c reason k :
  env_spurious e = false →
  run_alone 4 e c (CallStopLoad reason k) = (cancel_token (stop_before_execution (raise_stop reason c)), resume k).
Proof.
  intros Hs. unfold run_alone, raise_stop. simpl.
  destruct (stop_is_final (oc_stop_reason c)) eqn:Hf; [done|].
  rewrite Hs. unfold compare_exchange. by rewrite Z.eqb_refl.
Qed.

(** The part of [begin_execution] after its checks. *)
Lemma run_exchange_alone e c :
  run_alone 2 e c CallBeginExchange =
  match compare_exchange (oc_execution_state c) EXECUTION_QUEUED EXECUTION_STARTED with
  | (inl _, state) => (c <| oc_execution_state := state |>, Returned ReturnedStarted)
  | (inr state, _) =>
      if state =? EXECUTION_STOPPED_BEFORE_START
      then (c, Returned (ReturnedNotStarted (default StopCancelRequested (stop_reason c))))
      else (c, Returned ReturnedAlreadyStarted)
  end.
Proof.
  unfold run_alone. simpl. destruct (compare_exchange _ _ _) as [[x|x] y]; [done|].
  by destruct (x =? EXECUTION_STOPPED_BEFORE_START).
Qed.

(** Alone, a call does what the method it is made from says: the atomic
    accesses of a call that is not interleaved compose to the method, with the
    same result. *)
Theorem calls_alone_are_methods e c t :
  env_spurious e = false → is_entry t = true →
  run_alone 7 e c t = method_of e c t.
Proof.
  intros Hs Ht. destruct t as [|r k|r cur k|k|k| | | | | | | |res]; try discriminate Ht.
  - reflexivity.
  - rewrite (run_alone_add 4 3), run_stop_alone by done. by destruct r, k.
  - rewrite run_alone_S. cbn [step_call fst snd method_of]. unfold begin_execution.
    destruct (oc_deadline c <=? env_now e).
    + rewrite (run_alone_add 4 2), run_stop_alone by done. cbn [fst snd resume].
      rewrite run_exchange_alone. fold (request_deadline c).
      destruct (compare_exchange _ _ _) as [[x|x] y]; [done|].
      by destruct (x =? EXECUTION_STOPPED_BEFORE_START).
    + rewrite run_alone_S. cbn [step_call fst snd].
      assert (Hend : ∀ c1, run_alone 4 e c1 CallBeginExchange = run_alone 2 e c1 CallBeginExchange).
      { intros c1. rewrite (run_alone_add 2 2), run_exchange_alone.
        destruct (compare_exchange _ _ _) as [[x|x] y]; [done|].
        by destruct (x =? EXECUTION_STOPPED_BEFORE_START). }
      destruct (is_cancelled (env_root e) c).
      * rewrite run_alone_S. cbn [step_call fst snd]. rewrite Hend, run_exchange_alone.
        destruct (compare_exchange _ _ _) as [[x|x] y]; [done|].
        by destruct (x =? EXECUTION_STOPPED_BEFORE_START).
      * rewrite (run_alone_add 4 1), Hend, run_exchange_alone.
        destruct (compare_exchange _ _ _) as [[x|x] y]; [done|].
        by destruct (x =? EXECUTION_STOPPED_BEFORE_START).
  - rewrite run_alone_S. cbn [step_call method_of]. unfold begin_non_cancellable_commit.
    destruct (oc_commit_active c); cbn [fst snd]; [apply run_alone_returned|].
    rewrite run_alone_S. apply run_alone_returned.
Qed.
