(* ===== verification/ControlTheorems.v ===== *)
(** * Interleaved calls on a control agree

    What holds of [OperationControl] however the calls of different threads are
    interleaved, and however often a weak exchange fails: an execution starts at
    most once and never after a caller was told that it will not, the first
    deadline or shutdown is final, commits exclude each other, and every call
    returns within a bounded number of steps. *)

From S2P Require Import Prelude Json ModuleEvents OperationRecord OperationControl.

(** ** Lists of calls *)
Lemma sum_list_insert {A} (f : A → nat) l i x y :
  l !! i = Some x → (sum_list_with f (<[i := y]> l) + f x = sum_list_with f l + f y)%nat.
Proof.
  revert i. induction l as [|z l IH]; intros [|i] Hi; simpl in *; simplify_eq; [lia|].
  specialize (IH _ Hi). lia.
Qed.

Lemma sum_list_le {A} (f g : A → nat) l n :
  (∀ x, (f x ≤ g x + n)%nat) → (sum_list_with f l ≤ sum_list_with g l + n * length l)%nat.
Proof. intros Hf. induction l as [|x l IH]; simpl; [lia|]. specialize (Hf x). lia. Qed.

Lemma sum_list_zero {A} (f : A → nat) l x : sum_list_with f l = 0%nat → x ∈ l → f x = 0%nat.
Proof.
  intros Hs. induction 1 as [x l|x y l Hx IH]; simpl in Hs; [lia|]. apply IH. lia.
Qed.

Lemma sum_list_one {A} (f : A → nat) l i j x y :
  sum_list_with f l = 1%nat → l !! i = Some x → l !! j = Some y → f x = 1%nat → f y = 1%nat → i = j.
Proof.
  revert i j. induction l as [|z l IH]; intros [|i] [|j] Hs Hi Hj Fx Fy; simpl in *; simplify_eq; try done.
  - apply list_elem_of_lookup_2 in Hj. assert (f y = 0%nat) by (eapply sum_list_zero; [|done]; lia). lia.
  - apply list_elem_of_lookup_2 in Hi. assert (f x = 0%nat) by (eapply sum_list_zero; [|done]; lia). lia.
  - f_equal. eapply IH; try done. destruct (decide (f z = 0%nat)); [lia|].
    apply list_elem_of_lookup_2 in Hi. assert (f x = 0%nat) by (eapply sum_list_zero; [|done]; lia). lia.
Qed.

(** ** What never changes back *)
Record control_le (c c' : OperationControl) : Prop := {
  cl_execution : oc_execution_state c ≠ EXECUTION_QUEUED → oc_execution_state c' = oc_execution_state c;
  cl_final : stop_is_final (oc_stop_reason c) = true → oc_stop_reason c' = oc_stop_reason c;
  cl_stopped : oc_stop_reason c ≠ 0 → oc_stop_reason c' ≠ 0;
  cl_cancelled : oc_cancelled c = true → oc_cancelled c' = true;
}.

#[export] Instance control_le_preorder : PreOrder control_le.
Proof.
  split; [by intros c; split|]. intros c1 c2 c3 [] []. split; intros; naive_solver congruence.
Qed.

(** What a call at its present access relies on. *)
Definition call_ok (c : OperationControl) (t : Call) : Prop :=
  match t with
  | CallStopLoad r _ => r ≠ StopCancelRequested
  | CallStopLoop r cur _ => r ≠ StopCancelRequested ∧ (stop_is_final cur = true → oc_stop_reason c = cur)
  | CallStopExecution _ => oc_stop_reason c ≠ 0
  | CallCancelToken _ => oc_stop_reason c ≠ 0 ∧ oc_execution_state c ≠ EXECUTION_QUEUED
  | Returned ReturnedUnit =>
      oc_stop_reason c ≠ 0 ∧ oc_execution_state c ≠ EXECUTION_QUEUED ∧ oc_cancelled c = true
  | CallBeginReason | Returned (ReturnedNotStarted _) => oc_execution_state c = EXECUTION_STOPPED_BEFORE_START
  | Returned (ReturnedStarted | ReturnedAlreadyStarted) => oc_execution_state c = EXECUTION_STARTED
  | _ => True
  end.

Lemma call_ok_mono c c' t : control_le c c' → call_ok c t → call_ok c' t.
Proof.
  intros [He Hf Hs Hc].
  assert (Hkeep : ∀ x, x ≠ EXECUTION_QUEUED → oc_execution_state c = x → oc_execution_state c' = x)
    by (intros x ? <-; by apply He).
  destruct t as [|r k|r cur k|k|k| | | | | | | |[| |r| | |]]; simpl; try done;
    try (by apply Hkeep); try (by apply Hs).
  - intros [? Hk]. split; [done|]. intros Hcur. specialize (Hk Hcur). rewrite Hf; congruence.
  - intros [? ?]. split; [auto|]. by rewrite He.
  - intros (? & ? & ?). split; [auto|]. split; [by rewrite He | by apply Hc].
Qed.

Definition started (t : Call) : nat := match t with Returned ReturnedStarted => 1 | _ => 0 end.
Definition holds_commit (t : Call) : nat := match t with CallCommitHeld => 1 | _ => 0 end.

Definition is_started (c : OperationControl) : bool := oc_execution_state c =? EXECUTION_STARTED.

Record config_wf (s : Config) : Prop := {
  cw_stop : 0 ≤ oc_stop_reason s.1 ≤ 3;
  cw_execution : 0 ≤ oc_execution_state s.1 ≤ 2;
  cw_calls : Forall (call_ok s.1) s.2;
  cw_started : sum_list_with started s.2 = Nat.b2n (is_started s.1);
  cw_commit : sum_list_with holds_commit s.2 = Nat.b2n (oc_commit_active s.1);
}.

Lemma initial_config_wf s : initial_config s → config_wf s.
Proof.
  intros [(deadline & file & grace & Hc) Hts]. destruct s as [c ts]. simpl in *. subst c.
  split; simpl; try done.
  - eapply Forall_impl; [exact Hts|]. intros [|[] []| | | | | | | | | | |]; done.
  - induction Hts as [|t ts Ht _ IH]; [done|]. simpl. rewrite IH. by destruct t.
  - induction Hts as [|t ts Ht _ IH]; [done|]. simpl. rewrite IH. by destruct t.
Qed.

#[local] Ltac step_done :=
  split_and!; simpl; try reflexivity; try done; try lia; try (split; simpl; intros; done || lia || congruence).

(** One access: the control only moves forward, the call's next access may
    rely on what it needs, and the two counts are kept. *)
Lemma step_call_ok e c t c' t' :
  0 ≤ oc_stop_reason c ≤ 3 → 0 ≤ oc_execution_state c ≤ 2 → call_ok c t → is_returned t = false →
  (holds_commit t = 1%nat → oc_commit_active c = true) →
  step_call e c t = (c', t') →
  control_le c c' ∧ call_ok c' t' ∧ 0 ≤ oc_stop_reason c' ≤ 3 ∧ 0 ≤ oc_execution_state c' ≤ 2
  ∧ (started t' + Nat.b2n (is_started c) = Nat.b2n (is_started c') + started t)%nat
  ∧ (holds_commit t' + Nat.b2n (oc_commit_active c) = Nat.b2n (oc_commit_active c') + holds_commit t)%nat.
Proof.
  intros Hs He Hok Hr Hheld. destruct c as [ca se dl sr df bw cm ex gr]; simpl in *.
  destruct t as [|r k|r cur k|k|k| | | | | | | |res]; cbn [step_call]; try discriminate Hr;
    unfold is_started, stop_before_execution, cancel_token, commit_guard_drop, compare_exchange,
      EXECUTION_QUEUED, EXECUTION_STARTED, EXECUTION_STOPPED_BEFORE_START in *; simpl in *.
  - intros [= <- <-]. simpl. destruct (Z.eqb_spec sr 0) as [->|]; step_done.
  - intros [= <- <-]. step_done.
  - destruct Hok as [Hr0 Hcur]. destruct (stop_is_final cur) eqn:Ef.
    { intros [= <- <-]. simpl. rewrite Hcur by done. step_done. by intros ->. }
    destruct (env_spurious e); [intros [= <- <-]; step_done|].
    destruct (Z.eqb_spec sr cur) as [->|Hne]; intros [= <- <-]; simpl; [|step_done].
    destruct r; step_done.
  - intros [= <- <-]. simpl. destruct (Z.eqb_spec ex 0) as [->|]; step_done.
  - destruct Hok. intros [= <- <-]. destruct k; step_done.
  - intros [= <- <-]. destruct (dl <=? env_now e); step_done.
  - intros [= <- <-]. destruct (is_cancelled _ _); step_done.
  - intros [= <- <-]. simpl. destruct (Z.eqb_spec ex 0) as [->|]; step_done.
  - destruct (Z.eqb_spec ex 0) as [->|H0]; intros [= <- <-]; simpl; [step_done|].
    destruct (Z.eqb_spec ex 2) as [->|]; [step_done|]. assert (ex = 1) as -> by lia. step_done.
  - intros [= <- <-]. step_done.
  - destruct cm; intros [= <- <-]; step_done.
  - rewrite (Hheld eq_refl). intros [= <- <-]. step_done.
Qed.

Lemma step_config_wf i e s s' :
  config_wf s → step_config i e s = Some s' → config_wf s' ∧ control_le s.1 s'.1.
Proof.
  intros [Hs He Hc Hst Hcm] Hstep. unfold step_config in Hstep. destruct s as [c ts]; simpl in *.
  destruct (ts !! i) as [t|] eqn:Hi; [|done]. destruct (is_returned t) eqn:Hr; [done|].
  destruct (step_call e c t) as [c' t'] eqn:Et. injection Hstep as <-. simpl.
  assert (Hheld : holds_commit t = 1%nat → oc_commit_active c = true).
  { intros Ht. destruct (oc_commit_active c); [done|].
    pose proof (sum_list_zero _ _ t Hcm (list_elem_of_lookup_2 _ _ _ Hi)). lia. }
  assert (Hcall : call_ok c t) by (by eapply Forall_lookup_1).
  destruct (step_call_ok e c t c' t' Hs He Hcall Hr Hheld Et) as (Hle & Hok & Hs' & He' & Hst' & Hcm').
  split; [|done]. split; simpl; try done.
  - apply Forall_insert; [|done]. eapply Forall_impl; [exact Hc|]. intros x. by apply call_ok_mono.
  - pose proof (sum_list_insert started ts i t t' Hi). lia.
  - pose proof (sum_list_insert holds_commit ts i t t' Hi). lia.
Qed.

Lemma run_config_wf s s' : rtc control_step s s' → config_wf s → config_wf s' ∧ control_le s.1 s'.1.
Proof.
  induction 1 as [s|s1 s2 s3 (i & e & Hs) _ IH]; intros Hw; [done|].
  destruct (step_config_wf i e s1 s2 Hw Hs) as [Hw2 Hle]. destruct (IH Hw2) as [? ?].
  split; [done|]. by etrans.
Qed.

Lemma started_count s i :
  s.2 !! i = Some (Returned ReturnedStarted) → config_wf s → oc_execution_state s.1 = EXECUTION_STARTED.
Proof. intros Hi [_ _ Hc _ _]. exact (Forall_lookup_1 _ _ _ _ Hc Hi). Qed.

(** An execution that has been stopped never starts. *)
Lemma stopped_never_starts s s' :
  config_wf s → oc_execution_state s.1 ≠ EXECUTION_QUEUED → oc_execution_state s.1 ≠ EXECUTION_STARTED →
  rtc control_step s s' → Returned ReturnedStarted ∉ s'.2.
Proof.
  intros Hw Hq Hn Hr Hin. apply list_elem_of_lookup in Hin as [i Hi].
  destruct (run_config_wf _ _ Hr Hw) as [Hw' Hle]. apply started_count in Hi; [|done].
  by rewrite (cl_execution _ _ Hle Hq) in Hi.
Qed.

(** C28. Whatever calls are made on a control and however they interleave, the
    execution starts at most once; once a caller has been told that it was
    stopped before it started, or a cancellation, deadline or shutdown request
    has returned while it had not started, it never starts. *)
Theorem execution_starts_once_or_never s s' s'' :
  initial_config s → rtc control_step s s' → rtc control_step s' s'' →
  (∀ i j, s'.2 !! i = Some (Returned ReturnedStarted) → s'.2 !! j = Some (Returned ReturnedStarted) → i = j)
  ∧ (∀ i reason, s'.2 !! i = Some (Returned (ReturnedNotStarted reason)) →
       Returned ReturnedStarted ∉ s''.2)
  ∧ (∀ i, s'.2 !! i = Some (Returned ReturnedUnit) → Returned ReturnedStarted ∉ s'.2 →
       Returned ReturnedStarted ∉ s''.2).
Proof.
  intros Hi Hr Hr'. destruct (run_config_wf _ _ Hr (initial_config_wf _ Hi)) as [Hw _].
  pose proof (cw_calls _ Hw) as Hc. pose proof (cw_started _ Hw) as Hst. split_and!.
  - intros i j Hsi Hsj. pose proof (started_count _ _ Hsi Hw) as Hex.
    unfold is_started in Hst. rewrite Hex in Hst. by eapply (sum_list_one started).
  - intros i reason Hn. pose proof (Forall_lookup_1 _ _ _ _ Hc Hn) as Hex. simpl in Hex.
    eapply stopped_never_starts; try done; by rewrite Hex.
  - intros i Hu Hno. destruct (Forall_lookup_1 _ _ _ _ Hc Hu) as (_ & Hq & _).
    eapply stopped_never_starts; try done. intros Hex.
    unfold is_started in Hst. rewrite Hex in Hst. simpl in Hst.
    apply Hno. clear -Hst. induction s'.2 as [|t ts IH]; simpl in Hst; [done|].
    destruct (decide (t = Returned ReturnedStarted)) as [->|Hne]; [by left|]. right. apply IH.
    destruct t as [| | | | | | | | | | | |[]]; done.
Qed.

(** The reason for a stop is stable: whatever follows, a deadline or a
    shutdown is never replaced, a cancellation only by one of these, and no
    reason is ever withdrawn; and a stop request that has returned has left a
    reason and a cancelled token. *)
Theorem stop_reason_is_stable s s' s'' :
  initial_config s → rtc control_step s s' → rtc control_step s' s'' →
  (∀ reason, stop_reason s'.1 = Some reason → reason ≠ StopCancelRequested → stop_reason s''.1 = Some reason)
  ∧ (is_Some (stop_reason s'.1) → is_Some (stop_reason s''.1))
  ∧ (Returned ReturnedUnit ∈ s'.2 → is_Some (stop_reason s''.1) ∧ oc_cancelled s''.1 = true).
Proof.
  intros Hi Hr Hr'. destruct (run_config_wf _ _ Hr (initial_config_wf _ Hi)) as [Hw _].
  destruct (run_config_wf _ _ Hr' Hw) as [Hw' [_ Hf Hs Hc]].
  assert (Hsome : ∀ c, 0 ≤ oc_stop_reason c ≤ 3 → is_Some (stop_reason c) ↔ oc_stop_reason c ≠ 0).
  { intros c Hc'. unfold stop_reason, stop_reason_of.
    destruct (Z.eqb_spec (oc_stop_reason c) 1), (Z.eqb_spec (oc_stop_reason c) 2),
      (Z.eqb_spec (oc_stop_reason c) 3); split; try lia; done. }
  pose proof (cw_stop _ Hw) as Hb. pose proof (cw_stop _ Hw') as Hb'. split_and!.
  - intros reason Hre Hne. unfold stop_reason in *. rewrite Hf; [done|].
    unfold stop_reason_of in Hre. unfold stop_is_final. simpl.
    destruct (oc_stop_reason s'.1 =? 1), (oc_stop_reason s'.1 =? 2), (oc_stop_reason s'.1 =? 3); try done; naive_solver.
  - rewrite !Hsome by done. exact Hs.
  - intros [i Hu]%list_elem_of_lookup.
    destruct (Forall_lookup_1 _ _ _ _ (cw_calls _ Hw) Hu) as (H0 & _ & Hcan).
    rewrite Hsome by done. auto.
Qed.

(** Commits exclude each other: at most one guard is alive, and it is alive
    exactly while the flag is set. *)
Theorem commits_exclude_each_other s s' :
  initial_config s → rtc control_step s s' →
  (oc_commit_active s'.1 = true ↔ CallCommitHeld ∈ s'.2)
  ∧ ∀ i j, s'.2 !! i = Some CallCommitHeld → s'.2 !! j = Some CallCommitHeld → i = j.
Proof.
  intros Hi Hr. destruct (run_config_wf _ _ Hr (initial_config_wf _ Hi)) as [[_ _ _ _ Hc] _].
  assert (Hin : CallCommitHeld ∈ s'.2 → oc_commit_active s'.1 = true).
  { intros Hin. destruct (oc_commit_active s'.1); [done|].
    by pose proof (sum_list_zero _ _ _ Hc Hin). }
  split; [split; [|done]|].
  - intros Ha. rewrite Ha in Hc. clear -Hc. induction s'.2 as [|t ts IH]; [done|]. simpl in Hc.
    destruct (decide (t = CallCommitHeld)) as [->|]; [by left|]. right. apply IH. by destruct t.
  - intros i j Hi' Hj. rewrite (Hin (list_elem_of_lookup_2 _ _ _ Hi')) in Hc.
    by eapply (sum_list_one holds_commit).
Qed.

(** ** Every call returns *)
Definition resume_steps (k : Resume) : nat := match k with ResumeReturn => 0 | ResumeBegin => 2 end.

(** The accesses a call still makes if the stop reason does not change; a call
    whose [current] is out of date makes one more. *)
Definition steps_left (code : Z) (t : Call) : nat :=
  match t with
  | CallCancel => 3
  | CallStopLoad _ k => 4 + resume_steps k
  | CallStopLoop _ cur k =>
      (if stop_is_final cur || (code =? cur)%Z then 3 else 4) + resume_steps k
  | CallStopExecution k => 2 + resume_steps k
  | CallCancelToken k => 1 + resume_steps k
  | CallBegin => 7
  | CallBeginToken => 4
  | CallBeginStop => 3
  | CallBeginExchange => 2
  | CallBeginReason => 1
  | CallCommit => 2
  | CallCommitHeld => 1
  | Returned _ => 0
  end.

(** The changes of the stop reason that are still possible. *)
Definition changes_left (code : Z) : nat :=
  if code =? 0 then 2 else if stop_is_final code then 0 else 1.

Definition potential (s : Config) : nat :=
  let code := oc_stop_reason s.1 in
  (sum_list_with (steps_left code) s.2 + length s.2 * changes_left code)%nat.

Lemma steps_left_stale code code' t : (steps_left code' t ≤ steps_left code t + 1)%nat.
Proof.
  destruct t; simpl; try lia.
  destruct (stop_is_final current || (code' =? current)), (stop_is_final current || (code =? current)); lia.
Qed.

(** A step of a call that does not change the reason, and one that does. *)
Lemma step_call_cost e c t c' t' :
  0 ≤ oc_stop_reason c ≤ 3 → call_ok c t → is_returned t = false → step_call e c t = (c', t') →
  (oc_stop_reason c' = oc_stop_reason c
   ∧ (steps_left (oc_stop_reason c) t' + 1 ≤ steps_left (oc_stop_reason c) t + Nat.b2n (env_spurious e))%nat)
  ∨ ((changes_left (oc_stop_reason c') + 1 ≤ changes_left (oc_stop_reason c))%nat
     ∧ (steps_left (oc_stop_reason c') t' < steps_left (oc_stop_reason c) t ≤ steps_left (oc_stop_reason c') t)%nat).
Proof.
  intros Hs Hok Hr. destruct c as [ca se dl sr df bw cm ex gr]; simpl in *.
  destruct t as [|r k|r cur k|k|k| | | | | | | |res]; cbn [step_call]; try discriminate Hr;
    unfold stop_before_execution, cancel_token, commit_guard_drop, compare_exchange in *; simpl in *.
  - destruct (Z.eqb_spec sr 0) as [->|]; intros [= <- <-]; simpl; [right | left]; split; done || lia.
  - intros [= <- <-]. left. simpl. rewrite Z.eqb_refl, orb_true_r. split; [done|lia].
  - destruct Hok as [Hr0 Hcur]. destruct (stop_is_final cur) eqn:Ef.
    { intros [= <- <-]. left. simpl. split; [done|]. lia. }
    destruct (env_spurious e).
    { intros [= <- <-]. left. simpl. rewrite Z.eqb_refl, orb_true_r. split; [done|].
      destruct (sr =? cur); simpl; lia. }
    destruct (Z.eqb_spec sr cur) as [->|Hne]; intros [= <- <-]; simpl.
    + right. rewrite ?Ef, ?Z.eqb_refl. simpl. split; [|case_match; lia]. unfold changes_left at 2. rewrite Ef. destruct r; [done|..];
        destruct (cur =? 0); simpl; lia.
    + left. rewrite Z.eqb_refl, orb_true_r. split; [done|lia].
  - intros [= <- <-]. left. simpl. split; [done|lia].
  - intros [= <- <-]. left. destruct k; simpl; split; done || lia.
  - intros [= <- <-]. left. destruct (dl <=? env_now e); simpl; split; done || lia.
  - intros [= <- <-]. left. destruct (is_cancelled _ _); simpl; split; done || lia.
  - intros [= <- <-]. left. simpl. split; [done|lia].
  - destruct (ex =? EXECUTION_QUEUED); intros [= <- <-]; left; [simpl; split; [done|lia]|].
    destruct (ex =? EXECUTION_STOPPED_BEFORE_START); simpl; split; done || lia.
  - intros [= <- <-]. left. simpl. split; [done|lia].
  - destruct cm; intros [= <- <-]; left; simpl; split; done || lia.
  - intros [= <- <-]. left. simpl. split; [done|lia].
Qed.

Lemma step_config_cost i e s s' :
  config_wf s → step_config i e s = Some s' →
  length s'.2 = length s.2 ∧ (potential s' + 1 ≤ potential s + Nat.b2n (env_spurious e))%nat.
Proof.
  intros [Hs _ Hc _ _] Hstep. unfold step_config in Hstep. destruct s as [c ts]; simpl in *.
  destruct (ts !! i) as [t|] eqn:Hi; [|done]. destruct (is_returned t) eqn:Hr; [done|].
  destruct (step_call e c t) as [c' t'] eqn:Et. injection Hstep as <-. simpl.
  rewrite length_insert. split; [done|]. unfold potential. simpl. rewrite length_insert.
  pose proof (lookup_lt_Some _ _ _ Hi) as Hlen.
  destruct (step_call_cost e c t c' t' Hs (Forall_lookup_1 _ _ _ _ Hc Hi) Hr Et) as [[Heq Hle]|[Hch Hlt]].
  - rewrite Heq. pose proof (sum_list_insert (steps_left (oc_stop_reason c)) ts i t t' Hi). lia.
  - pose proof (sum_list_insert (steps_left (oc_stop_reason c')) ts i t t' Hi) as H1.
    pose proof (sum_list_le _ _ ts 1 (steps_left_stale (oc_stop_reason c) (oc_stop_reason c'))) as H2. nia.
Qed.

Lemma initial_potential s : initial_config s → (potential s ≤ 9 * length s.2)%nat.
Proof.
  intros [(deadline & file & grace & Hc) Hts]. destruct s as [c ts]. simpl in *. subst c.
  unfold potential. cbn [fst snd control_new oc_stop_reason].
  enough (sum_list_with (steps_left 0) ts ≤ 7 * length ts)%nat by (unfold changes_left; simpl; lia).
  induction Hts as [|t ts Ht _ IH]; [done|]. simpl.
  assert (steps_left 0 t ≤ 7)%nat by (destruct t as [|[] []| | | | | | | | | | |]; try discriminate Ht; simpl; lia).
  lia.
Qed.

Lemma run_schedule_cost schedule s s' :
  config_wf s → run_schedule schedule s = Some s' →
  (length schedule + potential s' ≤ potential s + sum_list_with (λ x, Nat.b2n (env_spurious x.2)) schedule)%nat.
Proof.
  revert s. induction schedule as [|[i e] schedule IH]; intros s Hw Hrun; simpl in *.
  { injection Hrun as <-. lia. }
  apply bind_Some in Hrun as (s1 & Hs1 & Hrun).
  destruct (step_config_wf _ _ _ _ Hw Hs1) as [Hw1 _].
  destruct (step_config_cost _ _ _ _ Hw Hs1) as [_ Hcost]. specialize (IH s1 Hw1 Hrun). lia.
Qed.

(** C32. Calls on a control are lock free: in any interleaving of [n] calls, the
    number of steps is at most nine per call and one for each spurious failure
    of a weak exchange; and as long as a call has not returned it can move. *)
Theorem calls_return_in_bounded_steps schedule s s' :
  initial_config s → run_schedule schedule s = Some s' →
  (length schedule ≤ 9 * length s.2 + length (filter (λ x, env_spurious x.2 = true) schedule))%nat
  ∧ ∀ i t, s'.2 !! i = Some t → is_returned t = false → ∀ e, is_Some (step_config i e s').
Proof.
  intros Hi Hrun. pose proof (run_schedule_cost _ _ _ (initial_config_wf _ Hi) Hrun) as Hc.
  pose proof (initial_potential _ Hi) as Hp. split.
  - enough (sum_list_with (λ x, Nat.b2n (env_spurious x.2)) schedule
            = length (filter (λ x, env_spurious x.2 = true) schedule))%nat by lia.
    clear. induction schedule as [|[i e] l IH]; [done|]. rewrite filter_cons. simpl.
    destruct (env_spurious e); [rewrite decide_True by done | rewrite decide_False by done]; simpl; lia.
  - intros i t Ht Hr e. unfold step_config. rewrite Ht, Hr. by destruct (step_call e s'.1 t).
Qed.

(** ** Blocking work

    Guards are taken and dropped by workers; the supervisor closes the tracker
    and waits until it is idle. *)
Inductive work_step : BlockingWorkState * nat → BlockingWorkState * nat → Prop :=
  | work_guard s s' n : worker_guard s = (Ok (), s') → work_step (s, n) (s', S n)
  | work_drop s n : work_step (s, S n) (guard_drop s, n)
  | work_close s n : work_step (s, n) (stop_accepting s, n).

Lemma work_exact s s' :
  rtc work_step s s' → bw_active s.1 = Z.of_nat s.2 →
  bw_active s'.1 = Z.of_nat s'.2
  ∧ (bw_accepting s.1 = false → bw_accepting s'.1 = false ∧ (s'.2 ≤ s.2)%nat).
Proof.
  induction 1 as [s|s1 s2 s3 Hs _ IH]; intros Ha; [done|].
  assert (Hone : bw_active s2.1 = Z.of_nat s2.2
    ∧ (bw_accepting s1.1 = false → bw_accepting s2.1 = false ∧ (s2.2 ≤ s1.2)%nat)).
  { destruct Hs as [s s' n Hg|s n|s n]; simpl in *.
    - unfold worker_guard in Hg. destruct (bw_accepting s) eqn:Eacc; [|done]. simpl in Hg.
      unfold checked_add in Hg. destruct (_ <=? _); [|done]. injection Hg as <-. simpl.
      split; [lia|]. congruence.
    - unfold guard_drop. rewrite bool_decide_true by lia. simpl. split; [lia|]. intros ->. split; [done|lia].
    - split; [lia|]. intros _. split; [done|lia]. }
  destruct Hone as [Ha2 Hcl]. destruct (IH Ha2) as [Ha3 Hcl3]. split; [done|].
  intros Hc. destruct (Hcl Hc) as [Hc2 ?]. destruct (Hcl3 Hc2) as [Hc3 ?]. split; [done|lia].
Qed.

(** The barrier of the supervisor: once a closed tracker is idle no worker
    holds a guard, and none ever does again. *)
Theorem work_barrier_holds s s' s'' n :
  rtc work_step (tracker_new, 0%nat) (s, n) → bw_accepting s = false → is_idle s = true →
  rtc work_step (s, n) (s', s'') → n = 0%nat ∧ s'' = 0%nat.
Proof.
  intros Hr Hc Hi Hr'. apply bool_decide_eq_true in Hi.
  destruct (work_exact _ _ Hr eq_refl) as [Ha _]. simpl in Ha.
  destruct (work_exact _ _ Hr' Ha) as [_ Hle]. destruct (Hle Hc) as [_ ?]. simpl in *. lia.
Qed.
