(* ===== verification/OperationViews.v ===== *)
(** * Wire views of operations

    The JSON the clients poll: [runtime_operation_value],
    [runtime_operation_record_value] and [terminal_event_contract_value] of
    [src/src/inspector/commands/operations/record.rs], and the answer of the
    module event ingress ([ModuleEventIngressResult::as_value] of
    [transition.rs]). *)

From S2P Require Import Prelude Json ModuleEvents OperationRecord Transition.

Definition terminal_event_contract_value (c : ModuleTerminalEventContract) : Value :=
  json_object [
    ("moduleName", VString (ct_module c));
    ("progressEvent", json_option VString (ct_progress_event c));
    ("successEvent", VString (ct_success_event c));
    ("failureEvent", json_option VString (ct_failure_event c));
    ("correlation", VString (correlation_kind_str (ct_correlation c)));
    ("contextKey", VNull)].

(** The object literal of [runtime_operation_value], before the location keys
    are copied to its top level. *)
Definition operation_fields (o : RuntimeOperation) : list (string * Value) :=
  [("operationId", VString (op_operation_id o));
   ("clientRequestId", json_option VString (op_client_request_id o));
   ("bridgeCallbackId", json_option (λ i, json_u64 (callback_value i)) (op_bridge_callback_id o));
   ("moduleSessionId", json_option (λ i, VString (session_str i)) (op_module_session_id o));
   ("moduleRequestId", json_option (λ i, VString (request_str i)) (op_module_request_id o));
   ("externalCorrelation", VNull);
   ("externalSessionId", json_option (λ i, VString (session_str i)) (op_module_session_id o));
   ("requestId", json_option (λ i, VString (request_str i)) (op_module_request_id o));
   ("eventCursor", json_u64 (op_event_cursor o));
   ("domain", VString (op_domain o));
   ("backend", VString (op_backend o));
   ("method", VString (op_method o));
   ("status", VString (status_str (op_status o)));
   ("label", VString (op_label o));
   ("policyFacts", policy_value (op_policy o));
   ("terminalEventContract", json_option terminal_event_contract_value (op_terminal_event o));
   ("acknowledgement", json_option id (op_acknowledgement o));
   ("progress", json_option json_f64 (op_progress o));
   ("bytesWritten", json_u64 (op_bytes_written o));
   ("contentLength", json_option json_u64 (op_content_length o));
   ("result", json_option id (op_result o));
   ("error", json_option VString (op_error o));
   ("terminalReason", json_option VString (op_terminal_reason o));
   ("cancellable", VBool (op_cancellable o && negb (is_terminal (op_status o))));
   ("startedAt", json_u64 (op_started_at o));
   ("updatedAt", json_u64 (op_updated_at o));
   ("context", op_context o)].

Definition location_keys : list string := ["cid"; "path"; "endpoint"; "source"].

Definition copy_keys (keys : list string) (source : Map) (target : Map) : Map :=
  foldl (λ target key,
    match map_get key source with
    | Some v => map_insert key v target
    | None => target
    end) target keys.

Definition copy_missing_keys (keys : list string) (source : Map) (target : Map) : Map :=
  foldl (λ target key,
    if map_contains_key key target then target
    else match map_get key source with
         | Some v => map_insert key v target
         | None => target
         end) target keys.

Definition runtime_operation_value (o : RuntimeOperation) : Value :=
  let value := json_object (operation_fields o) in
  let value :=
    match value, op_context o with
    | VObject target, VObject ctx => VObject (copy_keys location_keys ctx target)
    | _, _ => value
    end in
  match value, op_result o with
  | VObject target, Some (VObject result) => VObject (copy_missing_keys location_keys result target)
  | _, _ => value
  end.

Section record_view.
Context {Request : Type}.
Abbreviation Record_ := (RuntimeOperationRecord Request).
Abbreviation Records := (gmap RuntimeOperationId (RuntimeOperationRecord Request)).

Definition retention_fields (r : Record_) : list (string * Value) :=
  [("oldestSeq", json_u64 (oldest_retained_event_cursor r));
   ("nextSeq", json_u64 (rec_next_event_cursor r));
   ("droppedCount", json_u64 (rec_dropped_event_count r));
   ("coalescedCount", json_u64 (rec_coalesced_event_count r));
   ("retainedCount", json_u64 (zlen (rec_events r)));
   ("retainedBytes", json_u64 (rec_retained_event_bytes r));
   ("historyTruncated", VBool (rec_history_truncated r));
   ("terminalAt", json_option json_u64 (rec_terminal_at r));
   ("resultPurged", VBool (rec_result_purged r));
   ("acknowledgementPurged", VBool (rec_acknowledgement_purged r));
   ("retainedPayloadBytes", json_u64 (rec_retained_terminal_payload_bytes r));
   ("errorRedacted", VBool (0 <? rec_error_redacted_bytes r));
   ("redactedErrorBytes", json_u64 (rec_error_redacted_bytes r))].

Definition runtime_operation_record_value (r : Record_) : Value :=
  match runtime_operation_value (rec_operation r) with
  | VObject target => VObject (foldl (λ m kv, map_insert kv.1 kv.2 m) target (retention_fields r))
  | value => value
  end.

Definition ingress_operation_ids (i : ModuleEventIngressResult) : list RuntimeOperationId :=
  match i with
  | IngressDeferred ids | IngressUncorrelated ids | IngressAmbiguous ids => ids
  | IngressApplied _ | IngressStale _ | IngressUnknown => []
  end.

Definition ingress_as_value (i : ModuleEventIngressResult) (records : Records) : Value :=
  let operation_id := ingress_operation_id i in
  let operation :=
    runtime_operation_record_value <$> (operation_id ≫= λ id, records !! id) in
  json_object [
    ("disposition", VString (ingress_str i));
    ("operationId", json_option VString operation_id);
    ("candidateOperationIds", VArray (map VString (ingress_operation_ids i)));
    ("operation", json_option id operation)].
End record_view.

(** ** Lemmas *)
Lemma map_get_inserts k fields m :
  map_get k (foldl (λ m kv, map_insert kv.1 kv.2 m) m fields)
  = match map_get k (reverse fields) with Some v => Some v | None => map_get k m end.
Proof.
  revert m. induction fields as [|[k' v] fields IH]; intros m; [done|].
  simpl. rewrite IH, reverse_cons.
  assert (Happ : ∀ l : Map, map_get k (l ++ [(k', v)])
    = match map_get k l with Some v => Some v | None => if String.eqb k k' then Some v else None end).
  { induction l as [|[k2 v2] l IHl]; simpl; [done|]. by destruct (String.eqb k k2). }
  rewrite Happ. destruct (map_get k (reverse fields)); [done|].
  destruct (String.eqb_spec k k') as [->|]; [apply map_get_insert_eq | by apply map_get_insert_ne].
Qed.

Lemma map_get_copy_keys k keys source target :
  map_get k (copy_keys keys source target)
  = if bool_decide (k ∈ keys) then
      match map_get k source with Some v => Some v | None => map_get k target end
    else map_get k target.
Proof.
  revert target. induction keys as [|key keys IH]; intros target; [done|].
  unfold copy_keys in *. simpl. rewrite IH. clear IH.
  destruct (decide (k = key)) as [->|Hne].
  - rewrite (bool_decide_true (key ∈ key :: keys)) by set_solver.
    destruct (map_get key source) eqn:E; rewrite ?map_get_insert_eq; by destruct (bool_decide _).
  - rewrite (bool_decide_ext (k ∈ key :: keys) (k ∈ keys)) by (rewrite elem_of_cons; naive_solver).
    destruct (map_get key source); rewrite ?map_get_insert_ne by done; done.
Qed.

Lemma map_get_copy_missing_keys k keys source target :
  map_get k (copy_missing_keys keys source target)
  = match map_get k target with
    | Some v => Some v
    | None => if bool_decide (k ∈ keys) then map_get k source else None
    end.
Proof.
  revert target. induction keys as [|key keys IH]; intros target; simpl.
  - by destruct (map_get k target).
  - unfold copy_missing_keys in *. simpl. rewrite IH. clear IH. unfold map_contains_key.
    destruct (decide (k = key)) as [->|Hne].
    + rewrite (bool_decide_true (key ∈ key :: keys)) by set_solver.
      destruct (map_get key target) eqn:Et; rewrite ?Et; [done|].
      destruct (map_get key source) eqn:Es; rewrite ?map_get_insert_eq; [done|]. rewrite Et.
      by destruct (bool_decide _).
    + rewrite (bool_decide_ext (k ∈ key :: keys) (k ∈ keys)) by (rewrite elem_of_cons; naive_solver).
      destruct (map_get key target); [done|].
      destruct (map_get key source); rewrite ?map_get_insert_ne by done; done.
Qed.

(** The view of an operation: every key is the literal's, except the
    location keys, which come from the request's context and, where that has
    none, from the result; no location key hides a field of the literal. *)
Theorem runtime_operation_value_get k o :
  value_get k (runtime_operation_value o)
  = match (if bool_decide (k ∈ location_keys) then
             match value_get k (op_context o) with
             | Some v => Some v
             | None => value_get k (default VNull (op_result o))
             end else None) with
    | Some v => Some v
    | None => value_get k (json_object (operation_fields o))
    end.
Proof.
  assert (Hfree : k ∈ location_keys → value_get k (json_object (operation_fields o)) = None).
  { intros Hk. unfold json_object, value_get. rewrite map_get_inserts.
    unfold location_keys in Hk. by repeat (apply elem_of_cons in Hk as [->|Hk]; [done|]);
    apply elem_of_nil in Hk. }
  unfold runtime_operation_value.
  assert (Hobj : ∃ m, json_object (operation_fields o) = VObject m) by (by eexists).
  destruct Hobj as [m Hm]. rewrite Hm in *. clear Hm.
  destruct (decide (k ∈ location_keys)) as [Hk|Hk].
  - specialize (Hfree Hk). simpl in Hfree.
    destruct (op_context o) eqn:Ec, (op_result o) as [[]|] eqn:Er;
      cbn [value_get default from_option id];
      rewrite ?map_get_copy_missing_keys, ?map_get_copy_keys, ?Hfree, ?bool_decide_true by done;
      repeat case_match; congruence.
  - destruct (op_context o) eqn:Ec, (op_result o) as [[]|] eqn:Er;
      cbn [value_get default from_option id];
      rewrite ?map_get_copy_missing_keys, ?map_get_copy_keys, ?bool_decide_false by done;
      repeat case_match; congruence.
Qed.
