(* ===== verification/RecordInvariants.v ===== *)
(** * What a record holds

    The invariant of a single record the registry relies on beyond
    [record_wf]: the payloads it retains are bounded, and an operation that
    still waits to be accepted is live and has no contract yet.  Every mutation
    of [transition.rs] keeps it, the replay of an early module event included. *)

From S2P Require Import Prelude Json ModuleEvents OperationRecord Transition.

(** Text held in memory: the address space of a 64-bit process is below
    [2 ^ 56] bytes, so byte counts of a few texts never saturate a [usize]. *)
Definition text_bound : Z := 72057594037927936.
Definition text_fits (s : string) : Prop := str_len s ≤ text_bound.

(** ** The text that replaces an oversized error is short *)
Lemma length_pretty_go (k : nat) n s :
  (n < 10 ^ N.of_nat k)%N → (String.length (pretty_N_go n s) ≤ k + String.length s)%nat.
Proof.
  revert n s. induction k as [|k IH]; intros n s Hn.
  - simpl in Hn. replace n with 0%N by lia. rewrite pretty_N_go_0. lia.
  - destruct (decide (n = 0%N)) as [->|Hz]; [rewrite pretty_N_go_0; lia|].
    rewrite pretty_N_go_step by lia. etrans; [apply IH|simpl; lia].
    apply N.Div0.div_lt_upper_bound. rewrite <- N.pow_succ_r by lia.
    by replace (N.succ (N.of_nat k)) with (N.of_nat (S k)) by lia.
Qed.

Lemma str_len_app s t : str_len (s +:+ t) = str_len s + str_len t.
Proof.
  unfold str_len. rewrite <- Nat2Z.inj_add. f_equal.
  induction s as [|c s IH]; simpl; [done|]. by f_equal.
Qed.

Lemma pretty_N_short n : (n < 10 ^ 17)%N → (String.length (pretty n) ≤ 17)%nat.
Proof.
  intros Hn. unfold pretty, pretty_N. case_decide; [simpl; lia|].
  pose proof (length_pretty_go 17 n "" Hn) as Hl. simpl in Hl. lia.
Qed.

Lemma pretty_short n : 0 ≤ n ≤ text_bound → str_len (pretty n) ≤ 17.
Proof.
  intros Hn. assert (Hl : (String.length (pretty n) ≤ 17)%nat); [|unfold str_len; lia].
  destruct n as [|p|p]; [simpl; lia| |lia].
  change (pretty (Z.pos p)) with (pretty (N.pos p)). apply pretty_N_short.
  assert ((10 ^ 17)%N = Z.to_N 100000000000000000) as -> by done.
  unfold text_bound in Hn. lia.
Qed.

Lemma terminal_error_bounded error e :
  (∀ s, error = Some s → text_fits s) →
  (bounded_terminal_operation_error error).1 = Some e →
  str_len e ≤ MAX_INLINE_EVENT_PAYLOAD_BYTES.
Proof.
  intros Hf. destruct error as [s|]; [|done]. simpl. specialize (Hf s eq_refl).
  destruct (Z.leb_spec (str_len s) MAX_INLINE_EVENT_PAYLOAD_BYTES); intros [= <-]; [done|].
  rewrite !str_len_app. pose proof (pretty_short (str_len s)) as Hp.
  unfold text_fits in Hf. pose proof (str_len_nonneg s).
  specialize (Hp ltac:(lia)).
  vm_compute (str_len (pretty MAX_INLINE_EVENT_PAYLOAD_BYTES)).
  vm_compute (str_len "runtime operation error redacted: ").
  vm_compute (str_len " bytes exceeded ").
  vm_compute (str_len "-byte retained limit"). unfold MAX_INLINE_EVENT_PAYLOAD_BYTES. lia.
Qed.

Section payload.
Context `{SerdeJson} {Request : Type}.
Abbreviation Record_ := (RuntimeOperationRecord Request).
Implicit Types r : RuntimeOperationRecord Request.
Abbreviation push := (push_runtime_operation_event_locked (Request := Request)).

Definition value_fits (v : Value) : Prop := serialized_value_bytes v ≤ text_bound.

Record payload_wf (r : Record_) : Prop := {
  pw_result : ∀ v, op_result (rec_operation r) = Some v → value_fits v;
  pw_ack : ∀ v, op_acknowledgement (rec_operation r) = Some v → value_fits v;
  pw_error : ∀ e, op_error (rec_operation r) = Some e → str_len e ≤ MAX_INLINE_EVENT_PAYLOAD_BYTES;
  pw_pending : rec_pending_module_name r ≠ None →
               live r ∧ op_terminal_event (rec_operation r) = None;
}.

(** The values and texts a transition or an event carries fit in memory. *)
Definition transition_fits (t : RuntimeOperationTransition) : Prop :=
  match t with
  | Resolved (Completed v) | Resolved (Dispatched v) => value_fits v
  | Resolved (Accepted acceptance) => value_fits (ac_acknowledgement acceptance)
  | ExecutionFailed e | CancellationUnconfirmed e | CleanupUnconfirmed e | TimedOut e
  | Shutdown e | CleanupFailed e | TaskPanicked e | TaskAborted e | AdapterClosed e => text_fits e
  | CancellationConfirmed e => text_fits (default "runtime operation canceled" e)
  | Started | Progress _ _ | CancelRequested => True
  end.

Definition event_fits (event : ModuleEventEnvelope) : Prop :=
  value_fits (event_result event)
  ∧ text_fits (default ("module event `" +:+ me_event_name event +:+ "` reported failure")
                 (event_error event)).

Lemma same_core_payload_wf r r' : same_core r r' → payload_wf r → payload_wf r'.
Proof.
  intros Hc []. split.
  - by rewrite (same_core_result _ _ Hc).
  - by rewrite (same_core_ack _ _ Hc).
  - by rewrite (same_core_error _ _ Hc).
  - unfold live. by rewrite (same_core_pending _ _ Hc), (same_core_status _ _ Hc), (same_core_contract _ _ Hc).
Qed.

Lemma wp_push_payload phase message p res err r :
  payload_wf r → wp (push phase message p res err) (λ _ r', payload_wf r') r.
Proof.
  intros Hw. eapply wp_mono; [apply push_frame|]. intros out r' [Hc _].
  by eapply same_core_payload_wf.
Qed.

Lemma wp_terminalize_payload status result error reason phase message tp r :
  payload_wf r → (∀ v, result = Some v → value_fits v) → (∀ s, error = Some s → text_fits s) →
  wp (terminalize status result error reason phase message tp) (λ _ r', payload_wf r') r.
Proof.
  intros [] Hv He. unfold terminalize, set_operation. wp_go.
  destruct (bounded_terminal_operation_error error) as [e n] eqn:Eb. wp_go.
  apply wp_push_payload. split; simpl; try done.
  intros s ->. eapply terminal_error_bounded; [done|]. by rewrite Eb.
Qed.

Lemma wp_cancel_payload r :
  payload_wf r → wp apply_cancel_requested (λ _ r', payload_wf r') r.
Proof.
  intros Hw. unfold apply_cancel_requested, set_operation. wp_step. wp_step.
  case_if E1; [|case_if E2; [|wp_step; wp_step]];
    (apply wp_keep_bind; [apply wp_push_payload | intros; by wp_go]); try done.
  destruct Hw. split; simpl; try done. intros Hp. by destruct (pw_pending0 Hp).
Qed.

Lemma wp_outcome_payload outcome r :
  payload_wf r → transition_fits (Resolved outcome) →
  wp (apply_outcome outcome) (λ _ r', payload_wf r') r.
Proof.
  intros [] Ht. unfold apply_outcome, set_operation. wp_step. wp_step.
  apply wp_keep_bind; [|intros; by wp_go]. destruct outcome as [v|a|v]; simpl in Ht.
  - apply wp_terminalize_payload; [by split | by intros ? [= <-] | done].
  - wp_step. wp_step. wp_step. wp_step. apply wp_push_payload.
    split; simpl; case_if E; simpl; try done; by intros ? [= <-].
  - wp_step. wp_step. apply wp_terminalize_payload; try done.
    split; simpl; try done. by intros ? [= <-].
Qed.

Lemma wp_reject_payload problem acceptance r :
  payload_wf r → value_fits (ac_acknowledgement acceptance) →
  wp (reject_acceptance problem acceptance) (λ _ r', payload_wf r') r.
Proof.
  intros [] Hf. unfold reject_acceptance, set_operation. wp_step. wp_step. wp_step. wp_step.
  destruct problem; (apply wp_keep_bind; [|intros; by wp_go]);
    (apply wp_terminalize_payload;
     [split; simpl; try done; by intros ? [= <-] | done | by intros ? [= <-]]).
Qed.

Lemma wp_live_payload t r :
  payload_wf r → live r → transition_fits t →
  wp (apply_live_transition t) (λ _ r', payload_wf r') r.
Proof.
  intros Hw Hl Ht. pose proof Hw as [].
  destruct t as [|b len|o|e| |e|e|e|e|e|e|e|e|e]; cbn [apply_live_transition]; simpl in Ht;
    lazymatch goal with
    | |- wp (fail_with _ _ _ _ _) _ _ =>
        (apply wp_keep_bind; [|intros; by wp_go]);
        apply wp_terminalize_payload; try done; by intros ? [= <-]
    | _ => idtac
    end; unfold set_operation.
  - apply wp_keep_bind; [by apply wp_push_payload | intros; by wp_go].
  - wp_step. wp_step. wp_step. wp_step. apply wp_keep_bind; [|intros; by wp_go].
    apply wp_push_payload. by split.
  - by apply wp_outcome_payload.
  - wp_step. wp_step. apply wp_keep_bind; [|intros; by wp_go].
    apply wp_terminalize_payload; [by split | done | by intros ? [= <-]].
  - by apply wp_cancel_payload.
  - wp_step. wp_step. apply wp_keep_bind; [case_if E; [by wp_go | by apply wp_cancel_payload]|].
    intros d r' Hw'. wp_step. wp_step.
    apply wp_keep_bind; [by apply wp_push_payload | intros; by wp_go].
  - wp_step. wp_step. apply wp_keep_bind.
    { case_if E; wp_go; [done|]. split; simpl; try done. intros Hp. by destruct (pw_pending0 Hp). }
    intros _ r' Hw'. apply wp_keep_bind.
    { destruct (op_error (rec_operation r)); [by wp_go|].
      destruct (bounded_terminal_operation_error (Some e)) as [s n] eqn:Eb. wp_go.
      destruct Hw'. split; simpl; try done. intros s' ->.
      eapply terminal_error_bounded with (error := Some e); [by intros ? [= <-]|]. by rewrite Eb. }
    intros _ r'' Hw''. apply wp_keep_bind; [by apply wp_push_payload | intros; by wp_go].
Qed.

Lemma wp_correlated_event_payload event r :
  payload_wf r → event_fits event →
  wp (apply_correlated_module_event event) (λ _ r', payload_wf r') r.
Proof.
  intros Hw [Hv He]. unfold apply_correlated_module_event. wp_step. wp_step. wp_step. wp_step.
  destruct (op_terminal_event (rec_operation r)) as [contract|] eqn:Ec; simpl; [|done].
  assert (Hp : ∀ b, wp (apply_module_event_progress event b) (λ _ r', payload_wf r') r).
  { intros b. unfold apply_module_event_progress, set_operation.
    destruct (event_progress event) as [[n|] len]; wp_go; destruct Hw; by split. }
  case_if E1; (apply wp_keep_bind; [apply Hp|]); intros [] r' Hw'.
  - wp_step. wp_step. by apply wp_push_payload.
  - case_if E2; apply wp_terminalize_payload; try done; by intros ? [= <-].
Qed.

(** ** One record, from one version to the next *)
Definition entry_ok (r : Record_) : Prop := record_wf r ∧ settled_wf r ∧ payload_wf r.

(** [r'] may replace [r]: it is well formed, later, waits on the same
    correlation, and is [r] itself when the mutation failed. *)
Definition replaces {A} (r : Record_) (out : Result A) (r' : Record_) : Prop :=
  entry_ok r' ∧ evolves r r' ∧ (is_ok out = false → r' = r).

Lemma replaces_refl {A} r (out : Result A) : entry_ok r → replaces r out r.
Proof. intros. split; [done|]. by split. Qed.

Lemma wp_replaces_then {A B} (m : M Record_ A) (f : A → B) r :
  wp m (replaces r) r → wp (m ≫= λ a, mret (f a)) (replaces r) r.
Proof.
  intros Hm. apply wp_bind. eapply wp_mono; [exact Hm|].
  intros [a|e] r' (? & ? & ?); [wp_go|]; (split; [done|]); by split; auto.
Qed.

(** A mutation that is rolled back when it fails. *)
Lemma wp_mutation_replaces {A} (m : M Record_ A) r :
  entry_ok r →
  wp m (λ _ r', in_progress r r') r →
  wp m (λ out r', is_ok out = true → settled_wf r') r →
  wp m (λ _ r', payload_wf r') r →
  wp (apply_record_mutation m) (replaces r) r.
Proof.
  intros Hr H1 H2 H3. apply wp_record_mutation.
  eapply wp_mono; [apply wp_and; [exact H1 | apply wp_and; [exact H2 | exact H3]]|].
  intros [a|e] r' ([] & Hs & Hp); [|by apply replaces_refl].
  split; [split; [done|]; split; auto|]. by split.
Qed.

(** Evidence is appended to a live record and counted on a settled one. *)
Lemma wp_push_replaces phase message res err r :
  entry_ok r → runtime_operation_event_class phase = ClassEvidence →
  wp (push phase message None res err) (replaces r) r.
Proof.
  intros (Hw & Hs & Hp) Hc.
  assert (Hev : wp (push phase message None res err) (λ _ r', record_wf r' ∧ settled_wf r' ∧ evolves r r') r).
  { destruct (is_terminal (op_status (rec_operation r))) eqn:Et.
    - eapply wp_mono; [by apply wp_push_settled|]. by intros out r' (_ & ? & ? & ? & _).
    - eapply wp_mono; [apply wp_and; [apply (wp_push_inv phase message None res err r r);
        [by split | done] | by apply wp_push_live]|].
      intros out r' [[] Hl]. split_and!; try done. by apply live_settled. }
  eapply wp_mono; [apply wp_and; [exact Hev | apply wp_and; [by apply wp_push_payload | apply push_frame]]|].
  intros out r' ((? & ? & ?) & ? & _ & ?). split; [done|]. by split.
Qed.

Lemma wp_correlated_replaces event r :
  entry_ok r → live r → event_fits event →
  wp (apply_record_mutation (apply_correlated_module_event event)) (replaces r) r.
Proof.
  intros Hr Hl He. pose proof Hr as (Hw & _ & Hp). apply wp_mutation_replaces; [done|..].
  - by apply wp_correlated_event_inv.
  - by apply wp_correlated_event_settled.
  - by apply wp_correlated_event_payload.
Qed.

Lemma wp_reducer_replaces t r :
  entry_ok r → live r → transition_ok t → transition_fits t →
  wp (apply_record_mutation (apply_live_transition t)) (replaces r) r
  ∧ ∀ problem acceptance, t = Resolved (Accepted acceptance) →
      wp (apply_record_mutation (reject_acceptance problem acceptance)) (replaces r) r.
Proof.
  intros Hr Hl Ho Hf. pose proof Hr as (Hw & _ & Hp).
  split; [|intros problem a ->]; apply wp_mutation_replaces; try done.
  - by apply wp_live_inv.
  - by apply wp_live_transition_settled.
  - by apply wp_live_payload.
  - by apply wp_reject_inv.
  - by apply wp_reject_settled.
  - by apply wp_reject_payload.
Qed.

Lemma wp_mutation_of_replaces {A} (m : M Record_ A) r :
  entry_ok r → wp m (λ out r', is_ok out = true → replaces r out r') r →
  wp (apply_record_mutation m) (replaces r) r.
Proof.
  intros Hr Hm. apply wp_record_mutation. eapply wp_mono; [exact Hm|].
  intros [a|e] r' H1; [by apply H1 | by apply replaces_refl].
Qed.

(** The replay of an early event, whatever the operation has become. *)
Lemma wp_deferred_replaces event r :
  entry_ok r → event_fits event →
  wp (apply_deferred_module_event event) (replaces r) r.
Proof.
  intros Hr He. unfold apply_deferred_module_event. apply wp_mutation_of_replaces; [done|].
  assert (Hpush : ∀ phase message res err (b : bool),
    runtime_operation_event_class phase = ClassEvidence →
    wp (push phase message None res err ;; mret b) (λ out r', is_ok out = true → replaces r out r') r).
  { intros. eapply wp_mono; [apply (wp_replaces_then (push phase message None res err) (λ _, b));
      by apply wp_push_replaces|]. by intros. }
  wp_step. wp_step.
  destruct (op_terminal_event (rec_operation r)) as [contract|]; [|by apply Hpush].
  case_if E1; [by apply Hpush|]. case_if E2; [by apply Hpush|].
  pose proof Hr as (Hw & _ & Hp). apply wp_bind.
  eapply wp_mono; [apply wp_and; [by apply wp_correlated_event_inv
    | apply wp_and; [by apply wp_correlated_event_settled | by apply wp_correlated_event_payload]]|].
  intros [[]|e] r' ([] & Hs & Hp'); [|done]. wp_go. intros _.
  split; [split; [done|]; split; auto|]. by split.
Qed.

(** The replay keeps what the operation waits on. *)
Lemma wp_deferred_claim event r :
  wp (apply_deferred_module_event event)
     (λ _ r', claimed_correlation r' = claimed_correlation r) r.
Proof.
  unfold apply_deferred_module_event. apply wp_record_mutation.
  eapply wp_mono with (Q1 := λ _ r', claimed_correlation r' = claimed_correlation r);
    [|by intros [] ?].
  wp_step. wp_step. destruct (op_terminal_event (rec_operation r)) as [contract|];
    [case_if E1; [|case_if E2]|];
    (apply wp_keep_bind; [|intros; by wp_go]); try by apply wp_push_claim.
  apply wp_correlated_event_claim.
Qed.

(** Only the transitions that settle or accept an operation stop it from
    being a candidate for early module events. *)
Lemma wp_push_pending k phase message p res err r :
  rec_pending_module_name r = k →
  wp (push phase message p res err) (λ _ r', rec_pending_module_name r' = k) r.
Proof.
  intros <-. eapply wp_mono; [apply push_frame|]. intros out r' [Hc _].
  by apply same_core_pending.
Qed.
End payload.
