(* ===== verification/Registry.v ===== *)
(** * The operation registry

    [src/src/inspector/commands/operations/record.rs], the registry half: the
    records of all operations, the journal of module events that arrived before
    their operation was accepted, and the bounded history of settled
    operations.  A method takes the lock for its whole body, so a method is one
    step of the registry; the lock itself (and its poisoning by a panicking
    holder) is not modelled. *)

From S2P Require Import Prelude Json ModuleEvents OperationRecord Transition OperationViews.

Definition MAX_PENDING_MODULE_EVENTS_PER_MODULE : Z := 32.
Definition MAX_PENDING_MODULE_EVENT_BYTES_PER_MODULE : Z := 256 * 1024.
Definition MAX_RETAINED_TERMINAL_RECORDS : Z := 128.
Definition MAX_RETAINED_TERMINAL_PAYLOAD_BYTES : Z := 32 * 1024 * 1024.
Definition TERMINAL_RECORD_MAX_AGE_MILLIS : Z := 24 * 60 * 60 * 1000.

(** ** The journal of early module events *)
Record PendingModuleEvent : Type := mkPending {
  pe_event : ModuleEventEnvelope;
  pe_candidate_operation_ids : list RuntimeOperationId;
  pe_event_bytes : Z;
}.
#[export] Instance PendingModuleEvent_eta : Eta PendingModuleEvent := λ p,
  mkPending (pe_event p) (pe_candidate_operation_ids p) (pe_event_bytes p).

Record PendingModuleEventJournal : Type := mkJournal {
  jn_events : list PendingModuleEvent;
  jn_retained_bytes : Z;
}.
#[export] Instance PendingModuleEventJournal_eta : Eta PendingModuleEventJournal := λ j,
  mkJournal (jn_events j) (jn_retained_bytes j).

Definition journal_default : PendingModuleEventJournal := mkJournal [] 0.
Definition journal_len (j : PendingModuleEventJournal) : Z := zlen (jn_events j).
Definition journal_is_empty (j : PendingModuleEventJournal) : bool :=
  match jn_events j with [] => true | _ => false end.

Definition pending_new `{SerdeJson} (event : ModuleEventEnvelope)
    (candidate_operation_ids : list RuntimeOperationId) : Result PendingModuleEvent :=
  event_bytes ← retained_serialized_bytes event;
  Ok (mkPending event candidate_operation_ids event_bytes).

(** The journal after the pop, and the event popped. *)
Definition pop_front (j : PendingModuleEventJournal)
    : Result (option PendingModuleEvent * PendingModuleEventJournal) :=
  match jn_events j with
  | [] => Ok (None, j)
  | pending :: events =>
      retained_bytes ← ok_or "pending runtime module event byte accounting underflow"
                         (checked_sub (jn_retained_bytes j) (pe_event_bytes pending));
      Ok (Some pending, mkJournal events retained_bytes)
  end.

Definition push_back (j : PendingModuleEventJournal) (pending : PendingModuleEvent)
    : Result PendingModuleEventJournal :=
  if MAX_PENDING_MODULE_EVENTS_PER_MODULE <=? journal_len j
  then bail "pending runtime module event journal count limit exceeded"
  else
    retained_bytes ← ok_or "pending runtime module event byte count overflow"
                       (checked_add (jn_retained_bytes j) (pe_event_bytes pending));
    if MAX_PENDING_MODULE_EVENT_BYTES_PER_MODULE <? retained_bytes
    then bail "pending runtime module event journal byte limit exceeded"
    else Ok (mkJournal (jn_events j ++ [pending]) retained_bytes).

Fixpoint push_back_all (j : PendingModuleEventJournal) (pendings : list PendingModuleEvent)
    : Result PendingModuleEventJournal :=
  match pendings with
  | [] => Ok j
  | pending :: pendings' => j ← push_back j pending; push_back_all j pendings'
  end.

Fixpoint try_sum_bytes (bytes : Z) (events : list PendingModuleEvent) : Result Z :=
  match events with
  | [] => Ok bytes
  | pending :: events' =>
      bytes ← ok_or "pending runtime module event byte count overflow"
                (checked_add bytes (pe_event_bytes pending));
      try_sum_bytes bytes events'
  end.

Definition recalculate_retained_bytes (j : PendingModuleEventJournal)
    : Result PendingModuleEventJournal :=
  retained_bytes ← try_sum_bytes 0 (jn_events j);
  let j := j <| jn_retained_bytes := retained_bytes |> in
  if (MAX_PENDING_MODULE_EVENTS_PER_MODULE <? journal_len j)
     || (MAX_PENDING_MODULE_EVENT_BYTES_PER_MODULE <? jn_retained_bytes j)
  then bail "pending runtime module event journal invariant violated"
  else Ok j.

(** The loop of [defer_module_event] that evicts the oldest events until one
    more event of [bytes] bytes fits: every round drops an event or ends. *)
Fixpoint make_room (events : list PendingModuleEvent) (retained_bytes bytes : Z)
    (evicted : list PendingModuleEvent)
    : Result (PendingModuleEventJournal * list PendingModuleEvent) :=
  total ← ok_or "pending runtime module event byte count overflow"
            (checked_add retained_bytes bytes);
  if (zlen events <? MAX_PENDING_MODULE_EVENTS_PER_MODULE)
     && (total <=? MAX_PENDING_MODULE_EVENT_BYTES_PER_MODULE)
  then Ok (mkJournal events retained_bytes, evicted)
  else
    match events with
    | [] => bail "pending runtime module event journal cannot satisfy its byte limit"
    | removed :: events' =>
        retained_bytes ← ok_or "pending runtime module event byte accounting underflow"
                           (checked_sub retained_bytes (pe_event_bytes removed));
        make_room events' retained_bytes bytes (evicted ++ [removed])
    end.

(** ** The registry *)
Record RuntimeOperationRegistry (Request : Type) : Type := mkRegistry {
  rg_records : gmap RuntimeOperationId (RuntimeOperationRecord Request);
  rg_pending_module_events : gmap string PendingModuleEventJournal;
  rg_terminal_records : list RuntimeOperationId;
  rg_retained_terminal_payload_bytes : Z;
  (* the permit [Notify::notify_one] stores for the retention task *)
  rg_retention_changed : bool;
}.
Arguments mkRegistry {Request} _ _ _ _ _.
Arguments rg_records {Request} _.
Arguments rg_pending_module_events {Request} _.
Arguments rg_terminal_records {Request} _.
Arguments rg_retained_terminal_payload_bytes {Request} _.
Arguments rg_retention_changed {Request} _.
#[export] Instance RuntimeOperationRegistry_eta Request : Eta (RuntimeOperationRegistry Request) := λ g,
  mkRegistry (rg_records g) (rg_pending_module_events g) (rg_terminal_records g)
    (rg_retained_terminal_payload_bytes g) (rg_retention_changed g).

(** The largest [Instant] of the Linux targets: [i64] seconds with nanoseconds. *)
Definition instant_max : Z := 9223372036854775808 * 1000000000 - 1.
Definition instant_checked_add (i nanos : Z) : option Instant :=
  if i + nanos <=? instant_max then Some (i + nanos) else None.

Definition terminal_history_expiry (now : Instant) : Result Instant :=
  ok_or "runtime operation terminal history expiry overflow"
    (instant_checked_add now (TERMINAL_RECORD_MAX_AGE_MILLIS * 1000000)).

Definition exclusive_operation_message (group : OperationExclusiveGroup) : string :=
  match group with
  | GDownload => "a storage download operation is already running"
  | GRemove => "a storage remove operation is already running"
  | GUpload => "a storage upload operation is already running"
  end.

Definition transition_settles_pending_module (t : RuntimeOperationTransition) : bool :=
  match t with
  | Resolved _ | ExecutionFailed _ | CancellationConfirmed _ | TimedOut _ | Shutdown _
  | CleanupFailed _ | TaskPanicked _ | TaskAborted _ | AdapterClosed _ => true
  | _ => false
  end.

Section registry.
Context `{SerdeJson} {Request : Type}.
Abbreviation Record_ := (RuntimeOperationRecord Request).
Abbreviation Records := (gmap RuntimeOperationId (RuntimeOperationRecord Request)).
Abbreviation Registry := (RuntimeOperationRegistry Request).
Abbreviation push := (push_runtime_operation_event_locked (Request := Request)).

(** A computation on [&mut state.records]. *)
Definition on_records {A} (m : M Records A) : M Registry A := λ g w,
  match m (rg_records g) w with
  | (out, records, w') => (out, g <| rg_records := records |>, w')
  end.

(** A computation on a local value: a failure drops the value. *)
Definition with_local {S A} (m : M S A) (local : S) : M Registry S := λ g w,
  match m local w with
  | (Ok _, local', w') => (Ok local', g, w')
  | (Err e, _, w') => (Err e, g, w')
  end.

(** ** The history of settled operations *)
Definition retained_operation_payload_bytes (o : RuntimeOperation) : Z :=
  saturating_add
    (saturating_add (match op_result o with Some v => serialized_value_bytes v | None => 0 end)
       (match op_acknowledgement o with Some v => serialized_value_bytes v | None => 0 end))
    (match op_error o with Some e => str_len e | None => 0 end).

Definition track_newly_terminal_record (operation_id : RuntimeOperationId) (terminal_at : Z)
    (terminal_expires_at : Instant) : M Registry bool :=
  g ← get;
  match rg_records g !! operation_id with
  | None => mret false
  | Some record =>
      if negb (is_terminal (op_status (rec_operation record)))
         || match rec_terminal_at record with Some _ => true | None => false end
      then mret false
      else
        let bytes := retained_operation_payload_bytes (rec_operation record) in
        let record := record <| rec_terminal_at := Some terminal_at |>
                             <| rec_terminal_expires_at := Some terminal_expires_at |>
                             <| rec_restart_request := None |>
                             <| rec_retained_terminal_payload_bytes := bytes |> in
        put (g <| rg_records ::= <[operation_id := record]> |>
               <| rg_retained_terminal_payload_bytes ::= λ b, saturating_add b bytes |>
               <| rg_terminal_records ::= λ l, l ++ [operation_id] |>) ;;
        mret true
  end.

(** The events of a journal that still have a candidate once [operation_id]
    is no longer one. *)
Definition strip_candidate (operation_id : RuntimeOperationId) (p : PendingModuleEvent)
    : PendingModuleEvent :=
  p <| pe_candidate_operation_ids ::= List.filter (λ c, negb (String.eqb c operation_id)) |>.

Definition has_candidates (p : PendingModuleEvent) : bool :=
  match pe_candidate_operation_ids p with [] => false | _ => true end.

Definition strip_journal (operation_id : RuntimeOperationId) (j : PendingModuleEventJournal)
    : Result PendingModuleEventJournal :=
  recalculate_retained_bytes
    (j <| jn_events ::= λ events,
            List.filter has_candidates (map (strip_candidate operation_id) events) |>).

(** [HashMap::values_mut] in the order of [map_to_list]: the order only picks
    which of several failures is reported. *)
Fixpoint strip_journals (operation_id : RuntimeOperationId)
    (journals : list (string * PendingModuleEventJournal))
    : Result (list (string * PendingModuleEventJournal)) :=
  match journals with
  | [] => Ok []
  | (module_name, j) :: journals' =>
      j ← strip_journal operation_id j;
      rest ← strip_journals operation_id journals';
      Ok (if journal_is_empty j then rest else (module_name, j) :: rest)
  end.

Definition remove_operation_from_pending_module_events (operation_id : RuntimeOperationId)
    : M Registry () :=
  g ← get;
  journals ← lift (strip_journals operation_id (map_to_list (rg_pending_module_events g)));
  put (g <| rg_pending_module_events := list_to_map journals |>).

Definition remove_record (operation_id : RuntimeOperationId) : M Registry (option Record_) :=
  remove_operation_from_pending_module_events operation_id ;;
  modify (λ g, g <| rg_terminal_records ::= List.filter (λ c, negb (String.eqb c operation_id)) |>) ;;
  g ← get;
  let removed := rg_records g !! operation_id in
  modify (λ g, g <| rg_records ::= delete operation_id |>) ;;
  (match removed with
   | Some record =>
       modify (λ g, g <| rg_retained_terminal_payload_bytes ::=
                        λ b, saturating_sub b (rec_retained_terminal_payload_bytes record) |>)
   | None => mret ()
   end) ;;
  mret removed.

Fixpoint remove_records (operation_ids : list RuntimeOperationId) : M Registry () :=
  match operation_ids with
  | [] => mret ()
  | operation_id :: operation_ids' =>
      remove_record operation_id ;; remove_records operation_ids'
  end.

Definition evict_oldest_terminal_record : M Registry () :=
  g ← get;
  match rg_terminal_records g with
  | [] => mret ()
  | operation_id :: rest =>
      put (g <| rg_terminal_records := rest |>) ;;
      remove_record operation_id ;;
      mret ()
  end.

(** [while terminal_records.len() > MAX]: every round pops one entry, so the
    length is fuel enough. *)
Fixpoint evict_terminal_records (fuel : nat) : M Registry () :=
  g ← get;
  if MAX_RETAINED_TERMINAL_RECORDS <? zlen (rg_terminal_records g) then
    match fuel with
    | O => mret ()
    | Datatypes.S n => evict_oldest_terminal_record ;; evict_terminal_records n
    end
  else mret ().

Definition has_payload (r : Record_) : bool :=
  match op_result (rec_operation r), op_acknowledgement (rec_operation r) with
  | None, None => false
  | _, _ => true
  end.

Definition purge_oldest_terminal_payload : M Registry bool :=
  g ← get;
  match List.find (λ id, match rg_records g !! id with
                         | Some r => has_payload r
                         | None => false
                         end) (rg_terminal_records g) with
  | None => mret false
  | Some operation_id =>
      match rg_records g !! operation_id with
      | None => mret false
      | Some record =>
          let purge (bytes : Z) (record : Record_) : M Registry bool :=
            put (g <| rg_records ::= <[operation_id := record <| rec_retained_terminal_payload_bytes ::=
                                         λ b, saturating_sub b bytes |>]> |>
                   <| rg_retained_terminal_payload_bytes ::= λ b, saturating_sub b bytes |>) ;;
            mret true in
          match op_acknowledgement (rec_operation record) with
          | Some acknowledgement =>
              purge (serialized_value_bytes acknowledgement)
                (record <| rec_operation ::= λ o, o <| op_acknowledgement := None |> |>
                        <| rec_acknowledgement_purged := true |>)
          | None =>
              purge (match op_result (rec_operation record) with
                     | Some result => serialized_value_bytes result
                     | None => 0
                     end)
                (record <| rec_operation ::= λ o, o <| op_result := None |> |>
                        <| rec_result_purged := true |>)
          end
      end
  end.

(** [while bytes > MAX]: every round purges the acknowledgement or the result
    of a tracked record, so two rounds per tracked record are fuel enough. *)
Fixpoint purge_terminal_payloads (fuel : nat) : M Registry () :=
  g ← get;
  if MAX_RETAINED_TERMINAL_PAYLOAD_BYTES <? rg_retained_terminal_payload_bytes g then
    match fuel with
    | O => mret ()
    | Datatypes.S n =>
        purge_oldest_terminal_payload ≫= λ purged : bool,
        if purged then purge_terminal_payloads n
        else modify (λ g, g <| rg_retained_terminal_payload_bytes := 0 |>)
    end
  else mret ().

Definition is_tracked (g : Registry) (operation_id : RuntimeOperationId) : bool :=
  match rg_records g !! operation_id with
  | Some record =>
      is_terminal (op_status (rec_operation record))
      && match rec_terminal_at record with Some _ => true | None => false end
  | None => false
  end.

Definition is_expired (now : Z) (monotonic_now : Instant) (r : Record_) : bool :=
  match rec_terminal_at r with
  | Some terminal_at => TERMINAL_RECORD_MAX_AGE_MILLIS <=? saturating_sub now terminal_at
  | None => false
  end
  || match rec_terminal_expires_at r with
     | Some expires_at => expires_at <=? monotonic_now
     | None => false
     end.

Definition sweep_terminal_history (now : Z) (monotonic_now : Instant) : M Registry () :=
  modify (λ g, g <| rg_terminal_records ::= List.filter (is_tracked g) |>) ;;
  modify (λ g, g <| rg_retained_terminal_payload_bytes :=
    foldl (λ total id, match rg_records g !! id with
                       | Some r => saturating_add total (rec_retained_terminal_payload_bytes r)
                       | None => total
                       end) 0 (rg_terminal_records g) |>) ;;
  g ← get;
  let expired_operation_ids :=
    List.filter (λ id, match rg_records g !! id with
                       | Some r => is_expired now monotonic_now r
                       | None => false
                       end) (rg_terminal_records g) in
  remove_records expired_operation_ids ;;
  g ← get;
  evict_terminal_records (length (rg_terminal_records g)) ;;
  g ← get;
  purge_terminal_payloads (Datatypes.S (2 * length (rg_terminal_records g))).

(** ** Early module events *)
Definition pending_module_event_candidates (records : Records) (module_name : string)
    : list RuntimeOperationId :=
  ids_where (λ r, negb (is_terminal (op_status (rec_operation r)))
                  && bool_decide (rec_pending_module_name r = Some module_name)) records.

Fixpoint ensure_cursor_capacity (required : nat) (cursor : EventCursor) : Result () :=
  match required with
  | O => Ok ()
  | Datatypes.S n => cursor ← checked_next_event_cursor cursor; ensure_cursor_capacity n cursor
  end.

Definition ensure_record_event_cursor_capacity (record : Record_) (required_events : Z) : Result () :=
  ensure_cursor_capacity (Z.to_nat required_events) (rec_next_event_cursor record).

Fixpoint ensure_event_cursor_capacity (records : Records)
    (required_events : list (RuntimeOperationId * Z)) : Result () :=
  match required_events with
  | [] => Ok ()
  | (operation_id, required) :: rest =>
      (match records !! operation_id with
       | None => Ok ()
       | Some record => ensure_record_event_cursor_capacity record required
       end) ;;
      ensure_event_cursor_capacity records rest
  end.

(** The evidence each operation is about to record. *)
Fixpoint count_evidence (counts : gmap RuntimeOperationId Z) (ids : list RuntimeOperationId)
    : Result (gmap RuntimeOperationId Z) :=
  match ids with
  | [] => Ok counts
  | operation_id :: ids' =>
      count ← ok_or "pending runtime module event evidence count overflow"
                (checked_add (default 0 (counts !! operation_id)) 1);
      count_evidence (<[operation_id := count]> counts) ids'
  end.

(** [staged_records.get_mut(id)] or [continue]. *)
Definition on_staged_record (operation_id : RuntimeOperationId) (m : M Record_ ()) : M Records () :=
  staged ← get;
  match staged !! operation_id with
  | None => mret ()
  | Some _ => on_record operation_id "" m
  end.

Fixpoint push_overflow_evidence (event : ModuleEventEnvelope) (ids : list RuntimeOperationId)
    : M Records () :=
  match ids with
  | [] => mret ()
  | operation_id :: ids' =>
      on_staged_record operation_id
        (push "module_event_journal_overflow"
           "oldest deferred module event evicted before correlation registration"
           None (Some (event_result event)) (event_error event)) ;;
      push_overflow_evidence event ids'
  end.

Fixpoint push_all_overflow_evidence (evicted : list PendingModuleEvent) : M Records () :=
  match evicted with
  | [] => mret ()
  | p :: evicted' =>
      push_overflow_evidence (pe_event p) (pe_candidate_operation_ids p) ;;
      push_all_overflow_evidence evicted'
  end.

Fixpoint push_deferred_evidence (event : ModuleEventEnvelope) (ids : list RuntimeOperationId)
    : M Records () :=
  match ids with
  | [] => mret ()
  | operation_id :: ids' =>
      on_record operation_id "pending runtime operation disappeared"
        (push "module_event_deferred"
           "module event arrived before dispatch correlation registration"
           None (Some (event_result event)) (event_error event)) ;;
      push_deferred_evidence event ids'
  end.

Definition defer_module_event (event : ModuleEventEnvelope)
    (candidate_operation_ids : list RuntimeOperationId) : M Registry () :=
  let module_name := me_module_name event in
  pending ← lift (pending_new event candidate_operation_ids);
  if MAX_PENDING_MODULE_EVENT_BYTES_PER_MODULE <? pe_event_bytes pending then
    throw ("runtime module event requires " +:+ pretty (pe_event_bytes pending) +:+
           " retained bytes, exceeding the " +:+
           pretty MAX_PENDING_MODULE_EVENT_BYTES_PER_MODULE +:+
           "-byte early-event journal limit")
  else
    g ← get;
    let journal := default journal_default (rg_pending_module_events g !! module_name) in
    room ← lift (make_room (jn_events journal) (jn_retained_bytes journal)
                   (pe_event_bytes pending) []);
    let '(next_journal, evicted) := room in
    counts ← lift (count_evidence ∅
      (candidate_operation_ids ++ concat (map pe_candidate_operation_ids evicted)));
    lift (ensure_event_cursor_capacity (rg_records g) (map_to_list counts)) ;;
    staged ← with_local
      (push_all_overflow_evidence evicted ;;
       push_deferred_evidence event candidate_operation_ids)
      (filter (λ kv, is_Some (counts !! kv.1)) (rg_records g));
    next_journal ← lift (push_back next_journal pending);
    modify (λ g, g <| rg_records ::= λ records, staged ∪ records |>
                   <| rg_pending_module_events ::= <[module_name := next_journal]> |>).

Definition pending_module_replay_count (g : Registry) (module_name : string)
    (operation_id : RuntimeOperationId) : Z :=
  match rg_pending_module_events g !! module_name with
  | None => 0
  | Some journal =>
      zlen (List.filter (λ p, bool_decide (operation_id ∈ pe_candidate_operation_ids p))
              (jn_events journal))
  end.

Fixpoint replay_loop (module_name : string) (operation_id : RuntimeOperationId)
    (pending_events : list PendingModuleEvent) (retained_events : PendingModuleEventJournal)
    : M Registry () :=
  let keep j := modify (λ g, g <| rg_pending_module_events ::= <[module_name := j]> |>) in
  match pending_events with
  | [] => if journal_is_empty retained_events then mret () else keep retained_events
  | pending :: pending_events' =>
      if negb (bool_decide (operation_id ∈ pe_candidate_operation_ids pending)) then
        retained_events ← lift (push_back retained_events pending);
        replay_loop module_name operation_id pending_events' retained_events
      else
        outcome ← attempt (on_records (on_record operation_id
          "pending runtime operation disappeared during replay"
          (apply_deferred_module_event (pe_event pending))));
        match outcome with
        | Ok true => replay_loop module_name operation_id pending_events' retained_events
        | Ok false =>
            let pending := strip_candidate operation_id pending in
            if has_candidates pending then
              retained_events ← lift (push_back retained_events pending);
              replay_loop module_name operation_id pending_events' retained_events
            else replay_loop module_name operation_id pending_events' retained_events
        | Err error =>
            retained_events ← lift (push_back_all retained_events (pending :: pending_events'));
            keep retained_events ;;
            lift (Err error)
        end
  end.

Definition replay_pending_module_events (module_name : string) (operation_id : RuntimeOperationId)
    : M Registry () :=
  g ← get;
  let replay_count := pending_module_replay_count g module_name operation_id in
  lift (match rg_records g !! operation_id with
        | Some record => ensure_record_event_cursor_capacity record replay_count
        | None => Ok ()
        end) ;;
  match rg_pending_module_events g !! module_name with
  | None => mret ()
  | Some pending_journal =>
      put (g <| rg_pending_module_events ::= delete module_name |>) ;;
      lift (ok_or "pending runtime operation disappeared during replay"
              (rg_records g !! operation_id)) ;;
      replay_loop module_name operation_id (jn_events pending_journal) journal_default
  end.

(** ** The methods of the registry *)
Definition notify_retention (changed : bool) : M Registry () :=
  if changed then modify (λ g, g <| rg_retention_changed := true |>) else mret ().

(** The prologue the mutating methods share. *)
Definition begin_method : M Registry (Z * Instant * Instant) :=
  now ← now_millis;
  monotonic_now ← instant_now;
  terminal_expires_at ← lift (terminal_history_expiry monotonic_now);
  sweep_terminal_history now monotonic_now ;;
  mret (now, monotonic_now, terminal_expires_at).

Definition insert_record (record : Record_) : M Registry () :=
  times ← begin_method;
  let '(now, monotonic_now, terminal_expires_at) := times in
  g ← get;
  let operation_id := op_operation_id (rec_operation record) in
  if bool_decide (is_Some (rg_records g !! operation_id)) then
    throw ("runtime operation `" +:+ operation_id +:+ "` already exists")
  else
    (match op_exclusive_group (rec_operation record) with
     | Some group =>
         if existsb (λ kv, active_operation_in_exclusive_group kv.2 group)
              (map_to_list (rg_records g))
         then throw (exclusive_operation_message group)
         else mret ()
     | None => mret ()
     end) ;;
    modify (λ g, g <| rg_records ::= <[operation_id := record]> |>) ;;
    changed ← track_newly_terminal_record operation_id now terminal_expires_at;
    sweep_terminal_history now monotonic_now ;;
    notify_retention changed.

Definition transition (operation_id : RuntimeOperationId) (t : RuntimeOperationTransition)
    : M Registry TransitionDisposition :=
  times ← begin_method;
  let '(now, monotonic_now, terminal_expires_at) := times in
  g ← get;
  match rg_records g !! operation_id with
  | None => on_records (apply_runtime_operation_transition operation_id t)
  | Some record =>
      let pending_module_name := rec_pending_module_name record in
      let should_replay :=
        negb (is_terminal (op_status (rec_operation record)))
        && bool_decide (is_Some pending_module_name)
        && transition_settles_pending_module t in
      let replay_count :=
        match pending_module_name with
        | Some module_name =>
            if should_replay then pending_module_replay_count g module_name operation_id else 0
        | None => 0
        end in
      lift (ensure_record_event_cursor_capacity record (saturating_add replay_count 1)) ;;
      result ← attempt (
        disposition ← on_records (apply_runtime_operation_transition operation_id t);
        (match pending_module_name with
         | Some module_name =>
             if should_replay then replay_pending_module_events module_name operation_id
             else mret ()
         | None => mret ()
         end) ;;
        mret disposition);
      match result with
      | Ok disposition =>
          changed ← track_newly_terminal_record operation_id now terminal_expires_at;
          sweep_terminal_history now monotonic_now ;;
          notify_retention changed ;;
          mret disposition
      | Err error =>
          (if should_replay then
             modify (λ g', g' <| rg_records ::= <[operation_id := record]> |>
                              <| rg_pending_module_events ::= λ journals,
                                   match pending_module_name with
                                   | Some module_name =>
                                       match rg_pending_module_events g !! module_name with
                                       | Some previous => <[module_name := previous]> journals
                                       | None => delete module_name journals
                                       end
                                   | None => journals
                                   end |>)
           else mret ()) ;;
          lift (Err error)
      end
  end.

Definition ingest_module_event_with_settlement (event : ModuleEventEnvelope)
    : M Registry (Value * option RuntimeOperationId) :=
  times ← begin_method;
  let '(now, monotonic_now, terminal_expires_at) := times in
  result ← on_records (apply_module_event_ingress event);
  result ←
    match result with
    | IngressUnknown | IngressUncorrelated _ =>
        g ← get;
        let candidate_operation_ids :=
          pending_module_event_candidates (rg_records g) (me_module_name event) in
        match candidate_operation_ids with
        | [] => mret result
        | _ =>
            defer_module_event event candidate_operation_ids ;;
            mret (IngressDeferred candidate_operation_ids)
        end
    | _ => mret result
    end;
  let operation_id := ingress_operation_id result in
  changed ← match operation_id with
            | Some operation_id => track_newly_terminal_record operation_id now terminal_expires_at
            | None => mret false
            end;
  g ← get;
  let settled_operation_id :=
    operation_id ≫= λ id, r ← rg_records g !! id;
      if is_terminal (op_status (rec_operation r)) then Some id else None in
  let value := ingress_as_value result (rg_records g) in
  sweep_terminal_history now monotonic_now ;;
  notify_retention changed ;;
  mret (value, settled_operation_id).

Definition inspect {T} (f : Records → T) : M Registry T :=
  now ← now_millis;
  monotonic_now ← instant_now;
  sweep_terminal_history now monotonic_now ;;
  g ← get;
  mret (f (rg_records g)).

Definition find_record (operation_id : RuntimeOperationId) (records : Records) : Result Record_ :=
  ok_or ("runtime operation `" +:+ operation_id +:+ "` was not found") (records !! operation_id).

Definition value (operation_id : RuntimeOperationId) : M Registry Value :=
  out ← inspect (λ records,
    record ← find_record operation_id records;
    Ok (runtime_operation_record_value record));
  lift out.

(** Whether the cursor the client asks after is outside the retained window,
    and the events of its page. *)
Definition reset_required (record : Record_) (after : EventCursor) : bool :=
  let stale :=
    match checked_add after 1 with
    | None => true
    | Some candidate => candidate <? oldest_retained_event_cursor record
    end in
  let future := rec_next_event_cursor record <=? after in
  stale || future.

Definition event_page (record : Record_) (after : EventCursor) : list RuntimeOperationEvent :=
  List.filter (λ e, reset_required record after || (after <? ev_cursor e)) (rec_events record).

Definition events_value (record : Record_) (after : EventCursor) : Value :=
  json_object [
    ("operation", runtime_operation_record_value record);
    ("events", VArray (map runtime_operation_event_value (event_page record after)));
    ("oldestSeq", json_u64 (oldest_retained_event_cursor record));
    ("nextSeq", json_u64 (rec_next_event_cursor record));
    ("eventCursor", json_u64 (op_event_cursor (rec_operation record)));
    ("droppedCount", json_u64 (rec_dropped_event_count record));
    ("coalescedCount", json_u64 (rec_coalesced_event_count record));
    ("retainedCount", json_u64 (zlen (rec_events record)));
    ("retainedBytes", json_u64 (rec_retained_event_bytes record));
    ("historyTruncated", VBool (rec_history_truncated record));
    ("resetRequired", VBool (reset_required record after))].

Definition events (operation_id : RuntimeOperationId) (after : EventCursor) : M Registry Value :=
  out ← inspect (λ records,
    record ← find_record operation_id records;
    Ok (events_value record after));
  lift out.

Definition instant_min (a b : option Instant) : option Instant :=
  match a, b with
  | Some a, Some b => Some (Z.min a b)
  | Some a, None => Some a
  | None, b => b
  end.

Definition next_terminal_expiry : M Registry (option Instant) :=
  now ← now_millis;
  monotonic_now ← instant_now;
  sweep_terminal_history now monotonic_now ;;
  g ← get;
  mret (foldr (λ id acc, instant_min (rg_records g !! id ≫= rec_terminal_expires_at) acc)
          None (rg_terminal_records g)).

Definition sweep_expired_terminal_history : M Registry () :=
  now ← now_millis;
  monotonic_now ← instant_now;
  sweep_terminal_history now monotonic_now.

Definition remove (operation_id : RuntimeOperationId) : M Registry () :=
  remove_record operation_id ;; mret ().
End registry.
