(* ===== verification/Supervisor.v ===== *)
(** * The supervisor of runtime operations

    [src/src/inspector/commands/operations/supervisor.rs]: admission of
    operations, their tasks, and the reducer that settles an operation when its
    task ends.  Controls are shared between the threads, so they live in a heap
    and are named by reference; the tasks of the [JoinSet], the command channel
    and the permits of the semaphore are part of the state.  A method that holds
    the lock of the shared state for its whole body is one computation; the
    methods that take it several times are composed of their critical sections,
    which other threads may interleave. *)

From S2P Require Import Prelude Json ModuleEvents OperationRecord Transition OperationControl.
From S2P Require Import Registry.

Definition MAX_ACTIVE_OPERATIONS : Z := 64.
Definition SUPERVISOR_COMMAND_CAPACITY : Z := MAX_ACTIVE_OPERATIONS.

Inductive SupervisorPhase : Type := PhaseOpen | PhaseClosing | PhaseClosed.
#[export] Instance SupervisorPhase_eq_dec : EqDecision SupervisorPhase.
Proof. solve_decision. Defined.

Inductive ControllerState : Type := ControllerUnstarted | ControllerRunning | ControllerDraining | ControllerStopped.
#[export] Instance ControllerState_eq_dec : EqDecision ControllerState.
Proof. solve_decision. Defined.

(** [error.to_string()] of [anyhow] is the outermost message; [{error:#}] is
    the whole chain. *)
Definition error_text (e : Error) : string := default "" (head e).
Fixpoint error_chain (e : Error) : string :=
  match e with
  | [] => ""
  | [m] => m
  | m :: e' => m +:+ ": " +:+ error_chain e'
  end.

(** What the supervisor needs from a request ([request.rs], [storage.rs]). *)
Class SupervisedRequest (Request : Type) : Type := {
  sreq_deadline : Request → Z;
  sreq_disposable_file : Request → RuntimeOperationId → Result (option string);
  sreq_termination_handshake_grace : Request → Result (option Z);
}.

(** References to shared controls and identities of tasks. *)
Definition ControlRef : Type := nat.
Definition TaskId : Type := nat.

(** The disposable files of a cleanup are those of the controls it names: the
    file and its [created] flag are shared with the control. *)
Definition OperationCleanup : Type := list ControlRef.

Record OperationAdmission : Type := mkAdmission {
  oa_operation_id : RuntimeOperationId;
  oa_control : ControlRef;
  oa_cleanup : OperationCleanup;
}.

Inductive TaskKind : Type := KindExecution | KindExternal.
#[export] Instance TaskKind_eq_dec : EqDecision TaskKind.
Proof. solve_decision. Defined.

Inductive ExternalWaitPolicy : Type :=
  | WaitOperationDeadline
  | WaitCleanupSettlement (deadline : Instant)
  | WaitCleanupEvidence.
#[export] Instance ExternalWaitPolicy_eq_dec : EqDecision ExternalWaitPolicy.
Proof. unfold EqDecision, Instant in *. solve_decision. Defined.

Inductive ExternalWaitResult : Type :=
  | WaitSettled | WaitDeadline | WaitCleanupSettlementGraceElapsed | WaitShutdown.
#[export] Instance ExternalWaitResult_eq_dec : EqDecision ExternalWaitResult.
Proof. solve_decision. Defined.

Inductive OperationTaskResult : Type :=
  | TaskResolved (outcome : RuntimeOperationOutcome)
  | TaskExecutionFailed (error : string)
  | TaskInterrupted (interrupted : OperationInterrupted)
  | TaskCleanupUnconfirmed (error : string)
  | TaskAdapterClosed (error : string).

Inductive OperationTaskExit : Type :=
  | ExitExecution (operation_id : RuntimeOperationId) (result : OperationTaskResult)
  | ExitExternal (operation_id : RuntimeOperationId) (result : ExternalWaitResult).

(** What [join_next_with_id] yields. *)
Inductive JoinedTask : Type :=
  | JoinedExit (task_id : TaskId) (exit : OperationTaskExit)
  | JoinedPanic (task_id : TaskId) (error : string)
  | JoinedAborted (task_id : TaskId) (error : string).
Definition joined_task_id (joined : JoinedTask) : TaskId :=
  match joined with JoinedExit id _ | JoinedPanic id _ | JoinedAborted id _ => id end.

Record TaskDescriptor : Type := mkDescriptor {
  td_operation_id : RuntimeOperationId;
  td_control : ControlRef;
  td_cleanup : OperationCleanup;
  td_kind : TaskKind;
  td_external_wait_policy : ExternalWaitPolicy;
  td_cleanup_uncertainty : option string;
}.
#[export] Instance TaskDescriptor_eta : Eta TaskDescriptor := λ d,
  mkDescriptor (td_operation_id d) (td_control d) (td_cleanup d) (td_kind d) (td_external_wait_policy d)
    (td_cleanup_uncertainty d).

(** A spawned task: what its future does. *)
Inductive SupervisedTask (Request : Type) : Type :=
  | ExecutionTask (operation_id : RuntimeOperationId) (control : ControlRef) (request : Request)
  | ExternalTask (operation_id : RuntimeOperationId) (control : ControlRef) (policy : ExternalWaitPolicy).
Arguments ExecutionTask {Request} _ _ _.
Arguments ExternalTask {Request} _ _ _.

Definition task_operation_id {Request} (t : SupervisedTask Request) : RuntimeOperationId :=
  match t with ExecutionTask id _ _ | ExternalTask id _ _ => id end.
Definition task_kind {Request} (t : SupervisedTask Request) : TaskKind :=
  match t with ExecutionTask _ _ _ => KindExecution | ExternalTask _ _ _ => KindExternal end.
Definition task_control {Request} (t : SupervisedTask Request) : ControlRef :=
  match t with ExecutionTask _ c _ | ExternalTask _ c _ => c end.

Record Supervisor (Request : Type) : Type := mkSupervisor {
  (* [SupervisorSharedState], behind its lock *)
  sv_phase : SupervisorPhase;
  sv_controls : gmap RuntimeOperationId ControlRef;
  sv_live_tasks : gmap RuntimeOperationId TaskId;
  sv_shutdown_error : option string;
  (* the root token and the registry *)
  sv_root : bool;
  sv_registry : RuntimeOperationRegistry Request;
  (* the shared controls *)
  sv_heap : list OperationControl;
  (* the admission semaphore *)
  sv_permits : Z;
  sv_admission_closed : bool;
  (* the controller and its command channel *)
  sv_controller : ControllerState;
  sv_commands : list (OperationAdmission * Request);
  sv_commands_closed : bool;
  (* the locals of the reducer *)
  sv_shutting_down : bool;
  sv_tasks : gmap TaskId (SupervisedTask Request);
  sv_descriptors : gmap TaskId TaskDescriptor;
  sv_next_task : TaskId;
}.
Arguments mkSupervisor {Request} _ _ _ _ _ _ _ _ _ _ _ _ _ _ _ _.
Arguments sv_phase {Request} _.
Arguments sv_controls {Request} _.
Arguments sv_live_tasks {Request} _.
Arguments sv_shutdown_error {Request} _.
Arguments sv_root {Request} _.
Arguments sv_registry {Request} _.
Arguments sv_heap {Request} _.
Arguments sv_permits {Request} _.
Arguments sv_admission_closed {Request} _.
Arguments sv_controller {Request} _.
Arguments sv_commands {Request} _.
Arguments sv_commands_closed {Request} _.
Arguments sv_shutting_down {Request} _.
Arguments sv_tasks {Request} _.
Arguments sv_descriptors {Request} _.
Arguments sv_next_task {Request} _.
#[export] Instance Supervisor_eta Request : Eta (Supervisor Request) := λ s,
  mkSupervisor (sv_phase s) (sv_controls s) (sv_live_tasks s) (sv_shutdown_error s) (sv_root s)
    (sv_registry s) (sv_heap s) (sv_permits s) (sv_admission_closed s) (sv_controller s) (sv_commands s)
    (sv_commands_closed s) (sv_shutting_down s) (sv_tasks s) (sv_descriptors s) (sv_next_task s).

(** Removing a file: done, already gone, or refused with an error. *)
Inductive RemoveResult : Type := RemoveOk | RemoveNotFound | RemoveFailed.

(** ** Pure parts of the reducer *)
Definition transition_for_execution_result (result : OperationTaskResult)
    : option RuntimeOperationTransition :=
  match result with
  | TaskResolved outcome => Some (Resolved outcome)
  | TaskExecutionFailed error => Some (ExecutionFailed error)
  | TaskCleanupUnconfirmed error => Some (CleanupUnconfirmed error)
  | TaskInterrupted interrupted =>
      let message := oi_message interrupted in
      match oi_evidence interrupted with
      | Confirmed =>
          Some match oi_reason interrupted with
               | StopCancelRequested => CancellationConfirmed (Some message)
               | StopDeadlineExceeded => TimedOut message
               | StopShutdown => Shutdown message
               end
      | LocalOnly =>
          Some match oi_reason interrupted with
               | StopCancelRequested => CancellationUnconfirmed message
               | StopDeadlineExceeded => TimedOut message
               | StopShutdown => Shutdown message
               end
      end
  | TaskAdapterClosed error => Some (AdapterClosed error)
  end.

(** The result of a wait when its [select] wakes with these observations; the
    arms are tried in order. *)
Definition wait_for_external_completion (policy : ExternalWaitPolicy) (settled root : bool)
    (deadline now : Instant) : option ExternalWaitResult :=
  match policy with
  | WaitOperationDeadline =>
      if settled then Some WaitSettled
      else if deadline <=? now then Some WaitDeadline
      else if root then Some WaitShutdown
      else None
  | WaitCleanupSettlement settlement_deadline =>
      if settled then Some WaitSettled
      else if root then Some WaitShutdown
      else if settlement_deadline <=? now then Some WaitCleanupSettlementGraceElapsed
      else None
  | WaitCleanupEvidence =>
      if settled then Some WaitSettled
      else if root then Some WaitShutdown
      else None
  end.

Definition ensure_task_identity (descriptor : TaskDescriptor) (operation_id : RuntimeOperationId)
    (kind : TaskKind) : Result () :=
  if negb (String.eqb (td_operation_id descriptor) operation_id)
     || negb (bool_decide (td_kind descriptor = kind))
  then bail "runtime operation task identity did not match its descriptor"
  else Ok ().

Definition combine_shutdown_errors (primary classification : Result ()) : Result () :=
  match primary, classification with
  | Ok _, Ok _ => Ok ()
  | Err error, Ok _ | Ok _, Err error => Err error
  | Err primary, Err classification =>
      bail (error_text primary +:+ "; residual operation classification also failed: "
            +:+ error_text classification)
  end.

Definition combine_controller_failure (primary : Error) (recovery : Result ()) : Result () :=
  match recovery with
  | Ok _ => Err primary
  | Err recovery =>
      bail (error_text primary +:+ "; runtime operation failure drain also failed: " +:+ error_chain recovery)
  end.

(** What the execution of an adapter ends with: an outcome, or an error of one
    of the classes the supervisor distinguishes. *)
Inductive ExecutionError : Type :=
  | ErrorCleanupUnconfirmed (message : string)
  | ErrorInterrupted (interrupted : OperationInterrupted)
  | ErrorAdapterClosed (message : string)
  | ErrorOther (message : string).

Definition task_result (result : RuntimeOperationOutcome + ExecutionError) : OperationTaskResult :=
  match result with
  | inl outcome => TaskResolved outcome
  | inr (ErrorCleanupUnconfirmed message) => TaskCleanupUnconfirmed message
  | inr (ErrorInterrupted interrupted) => TaskInterrupted interrupted
  | inr (ErrorAdapterClosed message) => TaskAdapterClosed message
  | inr (ErrorOther message) => TaskExecutionFailed message
  end.

Section supervisor.
Context `{SerdeJson} {Request : Type} `{!SupervisedRequest Request}.
Abbreviation Sup := (Supervisor Request).

Definition supervisor_new (registry : RuntimeOperationRegistry Request) : Sup :=
  mkSupervisor PhaseOpen ∅ ∅ None false registry [] MAX_ACTIVE_OPERATIONS false ControllerUnstarted
    [] false false ∅ ∅ 0%nat.

(** A method of the registry, which has its own lock. *)
Definition on_registry {A} (m : M (RuntimeOperationRegistry Request) A) : M Sup A := λ s w,
  match m (sv_registry s) w with
  | (out, g, w') => (out, s <| sv_registry := g |>, w')
  end.

(** A method of a shared control, and the same on all registered controls. *)
Definition on_control (ref : ControlRef) (f : OperationControl → OperationControl) : M Sup () :=
  modify (λ s, s <| sv_heap ::= alter f ref |>).
Definition on_controls (f : OperationControl → OperationControl) : M Sup () :=
  modify (λ s, s <| sv_heap ::= λ heap, foldr (λ kv, alter f kv.2) heap (map_to_list (sv_controls s)) |>).

Definition release_permit : M Sup () := modify (λ s, s <| sv_permits ::= Z.succ |>).

(** A computation that owns a permit and drops it when it fails. *)
Definition or_release {A} (m : M Sup A) : M Sup A :=
  out ← attempt m;
  match out with
  | Ok a => mret a
  | Err error => release_permit ;; lift (Err error)
  end.

(** ** Admission *)
Definition ensure_open : M Sup () :=
  s ← get;
  if bool_decide (sv_phase s = PhaseOpen) then mret ()
  else throw "runtime operation supervisor is shutting down".

(** The controller starts with an empty channel and a reducer that looks at the
    root token first. *)
Definition ensure_controller : M Sup () :=
  ensure_open ;;
  s ← get;
  match sv_controller s with
  | ControllerRunning => mret ()
  | ControllerUnstarted =>
      ensure_open ;;
      modify (λ s, s <| sv_controller := ControllerRunning |> <| sv_commands := [] |>
                     <| sv_commands_closed := false |> <| sv_shutting_down := sv_root s |>)
  | ControllerDraining | ControllerStopped => throw "runtime operation supervisor is stopped"
  end.

Definition controller_sender : M Sup () :=
  s ← get;
  match sv_controller s with
  | ControllerRunning => mret ()
  | ControllerUnstarted | ControllerDraining | ControllerStopped =>
      throw "runtime operation supervisor is stopped"
  end.

Definition try_acquire_permit : M Sup () :=
  s ← get;
  if sv_admission_closed s || (sv_permits s <=? 0)
  then throw "runtime operation capacity is exhausted"
  else put (s <| sv_permits ::= Z.pred |>).

Definition new_control (control : OperationControl) : M Sup ControlRef := λ s w,
  (Ok (length (sv_heap s)), s <| sv_heap := sv_heap s ++ [control] |>, w).

Definition prepare (operation_id : RuntimeOperationId) (request : Request) : M Sup OperationAdmission :=
  ensure_controller ;;
  ensure_open ;;
  try_acquire_permit ;;
  or_release (
    now ← instant_now;
    deadline ← lift (ok_or "runtime operation deadline overflow"
                       (instant_checked_add now (sreq_deadline request)));
    disposable_file ← lift (sreq_disposable_file request operation_id);
    grace ← lift (sreq_termination_handshake_grace request);
    control ← new_control
      (control_new deadline ((λ path, mkDisposable path false) <$> disposable_file)
         (default DEFAULT_TERMINATION_HANDSHAKE_GRACE grace));
    mret (mkAdmission operation_id control
            (match disposable_file with Some _ => [control] | None => [] end))).

Definition operation_status (operation_id : RuntimeOperationId) : M Sup RuntimeOperationStatus :=
  status ← on_registry (inspect (λ records,
    (λ record, op_status (rec_operation record)) <$> records !! operation_id));
  lift (ok_or ("runtime operation `" +:+ operation_id +:+ "` disappeared while supervised") status).

Definition remove_control (operation_id : RuntimeOperationId) : M Sup () :=
  modify (λ s, s <| sv_controls ::= delete operation_id |>).

(** The critical sections of [admit], in order. *)
Definition admit_insert (admission : OperationAdmission) : M Sup () :=
  let operation_id := oa_operation_id admission in
  s ← get;
  if negb (bool_decide (sv_phase s = PhaseOpen))
  then throw "runtime operation supervisor is shutting down"
  else
    match sv_controls s !! operation_id with
    | Some _ => throw ("runtime operation `" +:+ operation_id +:+ "` is already supervised")
    | None => put (s <| sv_controls ::= <[operation_id := oa_control admission]> |>)
    end.

Definition synchronize_admitted_control (operation_id : RuntimeOperationId) : M Sup () :=
  s ← get;
  match sv_controls s !! operation_id with
  | None => throw ("runtime operation `" +:+ operation_id +:+ "` lost supervisor control during admission")
  | Some control =>
      if negb (bool_decide (sv_phase s = PhaseOpen)) then on_control control request_shutdown
      else
        status ← operation_status operation_id;
        if bool_decide (status = StCanceling) then on_control control request_cancel else mret ()
  end.

Inductive TrySendError : Type := SendFull | SendClosed.

(** [mpsc::Sender::try_send] on the bounded channel. *)
Definition try_send (command : OperationAdmission * Request) : M Sup (option TrySendError) := λ s w,
  if sv_commands_closed s then (Ok (Some SendClosed), s, w)
  else if SUPERVISOR_COMMAND_CAPACITY <=? zlen (sv_commands s) then (Ok (Some SendFull), s, w)
  else (Ok None, s <| sv_commands ::= λ q, q ++ [command] |>, w).

Definition admit_send (admission : OperationAdmission) (request : Request) : M Sup () :=
  send_result ← try_send (admission, request);
  match send_result with
  | None => mret ()
  | Some error =>
      remove_control (oa_operation_id admission) ;;
      match error with
      | SendFull => throw "runtime operation supervisor command capacity is exhausted"
      | SendClosed => throw "runtime operation supervisor is stopped"
      end
  end.

(** A failure after the control was inserted removes it again. *)
Definition or_remove_control (operation_id : RuntimeOperationId) (m : M Sup ()) : M Sup () :=
  out ← attempt m;
  match out with
  | Ok _ => mret ()
  | Err error => remove_control operation_id ;; lift (Err error)
  end.

Definition admit_operation (admission : OperationAdmission) (request : Request) : M Sup () :=
  let operation_id := oa_operation_id admission in
  or_release (
    admit_insert admission ;;
    or_remove_control operation_id (synchronize_admitted_control operation_id) ;;
    or_remove_control operation_id controller_sender ;;
    admit_send admission request).

(** ** Requests from outside *)
Definition cancel (operation_id : RuntimeOperationId) : M Sup () :=
  s ← get;
  match sv_controls s !! operation_id with
  | Some control => on_control control request_cancel
  | None => mret ()
  end.

Definition settle (operation_id : RuntimeOperationId) : M Sup () :=
  s ← get;
  match sv_controls s !! operation_id with
  | Some control => on_control control control_settle
  | None => mret ()
  end.

(** [begin_close] up to the end of its lock, and the cancellation of the root
    token after it. *)
Definition begin_close_phase : M Sup bool :=
  s ← get;
  match sv_phase s with
  | PhaseOpen => modify (λ s, s <| sv_phase := PhaseClosing |>) ;; on_controls request_shutdown ;; mret true
  | PhaseClosing | PhaseClosed => mret false
  end.
Definition cancel_root : M Sup () := modify (λ s, s <| sv_root := true |>).
Definition begin_close : M Sup () :=
  should_cancel ← begin_close_phase;
  if should_cancel : bool then cancel_root else mret ().

(** ** Tasks *)
Definition spawn_operation_task (task : SupervisedTask Request) : M Sup TaskId :=
  let operation_id := task_operation_id task in
  s ← get;
  let task_id := sv_next_task s in
  put (s <| sv_tasks ::= <[task_id := task]> |> <| sv_next_task := S task_id |>) ;;
  s ← get;
  match sv_live_tasks s !! operation_id with
  | Some _ => throw ("runtime operation `" +:+ operation_id +:+ "` already has a live task")
  | None => put (s <| sv_live_tasks ::= <[operation_id := task_id]> |>) ;; mret task_id
  end.

Definition unregister_operation_task (operation_id : RuntimeOperationId) (task_id : TaskId) : M Sup () :=
  s ← get;
  match sv_live_tasks s !! operation_id with
  | None =>
      throw ("runtime operation `" +:+ operation_id +:+ "` exited without live-task ownership")
  | Some live_task =>
      if negb (bool_decide (live_task = task_id))
      then throw ("runtime operation `" +:+ operation_id +:+ "` exited with mismatched live-task identity")
      else put (s <| sv_live_tasks ::= delete operation_id |>)
  end.

Definition finish_operation (operation_id : RuntimeOperationId) : M Sup () := remove_control operation_id.

Definition insert_descriptor (task_id : TaskId) (descriptor : TaskDescriptor) : M Sup () :=
  modify (λ s, s <| sv_descriptors ::= <[task_id := descriptor]> |>).

Definition launch_command (command : OperationAdmission * Request) : M Sup () :=
  let '(admission, request) := command in
  or_release (
    task_id ← spawn_operation_task
      (ExecutionTask (oa_operation_id admission) (oa_control admission) request);
    insert_descriptor task_id
      (mkDescriptor (oa_operation_id admission) (oa_control admission) (oa_cleanup admission)
         KindExecution WaitOperationDeadline None)).

(** The tracker of the control is closed, and the wait ends when the last
    worker has dropped its guard. *)
Definition await_blocking_work_idle (control : ControlRef) : M Sup () :=
  on_control control (λ c, c <| oc_blocking_work := mkWork false 0 |>).

(** [OperationCleanup::run] against the file system. *)
Fixpoint run_cleanup (remove_file : string → RemoveResult) (heap : list OperationControl)
    (cleanup : OperationCleanup) : Result () :=
  match cleanup with
  | [] => Ok ()
  | ref :: cleanup' =>
      match heap !! ref ≫= oc_disposable_file with
      | Some file =>
          if negb (df_created file) then run_cleanup remove_file heap cleanup'
          else
            match remove_file (df_path file) with
            | RemoveOk | RemoveNotFound => run_cleanup remove_file heap cleanup'
            | RemoveFailed =>
                bail ("failed to remove disposable operation file `" +:+ df_path file +:+ "`")
            end
      | None => run_cleanup remove_file heap cleanup'
      end
  end.

Definition cleanup_run (remove_file : string → RemoveResult) (cleanup : OperationCleanup) : M Sup (Result ()) :=
  s ← get; mret (run_cleanup remove_file (sv_heap s) cleanup).

(** The first half of [handle_task_exit]: the descriptor as it is kept for a
    further wait, the transition, and whether the operation may be retained. *)
Definition reduce_exit (exit : OperationTaskExit) (descriptor : TaskDescriptor)
    : M Sup (RuntimeOperationId * TaskDescriptor * option RuntimeOperationTransition * bool) :=
  match exit with
  | ExitExecution operation_id result =>
      lift (ensure_task_identity descriptor operation_id KindExecution) ;;
      descriptor ←
        match result with
        | TaskCleanupUnconfirmed error =>
            s ← get;
            now ← instant_now;
            let grace :=
              default 0 (oc_termination_handshake_grace <$> sv_heap s !! td_control descriptor) in
            deadline ← lift (ok_or "runtime operation cleanup settlement deadline overflow"
                               (instant_checked_add now grace));
            mret (descriptor <| td_external_wait_policy := WaitCleanupSettlement deadline |>
                             <| td_cleanup_uncertainty := Some error |>)
        | TaskInterrupted interrupted =>
            mret (if bool_decide (oi_evidence interrupted = LocalOnly)
                  then descriptor <| td_cleanup_uncertainty := Some (oi_message interrupted) |>
                  else descriptor)
        | TaskResolved _ | TaskExecutionFailed _ | TaskAdapterClosed _ => mret descriptor
        end;
      mret (operation_id, descriptor, transition_for_execution_result result, true)
  | ExitExternal operation_id result =>
      lift (ensure_task_identity descriptor operation_id KindExternal) ;;
      let '(descriptor, transition) :=
        match result with
        | WaitSettled => (descriptor, None)
        | WaitDeadline => (descriptor, Some (TimedOut "runtime operation deadline elapsed"))
        | WaitCleanupSettlementGraceElapsed =>
            (descriptor <| td_external_wait_policy := WaitCleanupEvidence |>,
             Some (CleanupUnconfirmed
               "cleanup settlement grace elapsed without external termination evidence"))
        | WaitShutdown =>
            (descriptor,
             Some (Shutdown
               match td_cleanup_uncertainty descriptor with
               | None => "runtime operation stopped during shutdown"
               | Some uncertainty =>
                   "runtime operation stopped during shutdown; cleanup remains unconfirmed: "
                   +:+ uncertainty
               end))
        end in
      mret (operation_id, descriptor, transition,
            bool_decide (result = WaitCleanupSettlementGraceElapsed))
  end.

(** Whether a status still needs an external completion. *)
Definition awaits_external (status : RuntimeOperationStatus) : bool :=
  match status with StAwaitingExternal | StCanceling => true | _ => false end.

(** [handle_task_exit]; the answer is whether the descriptor, and the permit in
    it, has been kept. *)
Definition handle_task_exit (exit : OperationTaskExit) (descriptor : TaskDescriptor) : M Sup bool :=
  reduced ← reduce_exit exit descriptor;
  let '(operation_id, descriptor, transition_, retain_external) := reduced in
  (match transition_ with
   | Some t => on_registry (transition operation_id t) ;; mret ()
   | None => mret ()
   end) ;;
  status ← operation_status operation_id;
  if retain_external && awaits_external status then
    let descriptor := descriptor <| td_kind := KindExternal |> <| td_cleanup := [] |> in
    task_id ← spawn_operation_task
      (ExternalTask operation_id (td_control descriptor) (td_external_wait_policy descriptor));
    insert_descriptor task_id descriptor ;;
    mret true
  else
    finish_operation operation_id ;;
    mret false.

(** [handle_joined_task] with the file system it removes disposable files
    from; the descriptor is dropped with its permit unless it was kept. *)
Definition handle_joined_body (remove_file : string → RemoveResult) (joined : JoinedTask)
    (descriptor : TaskDescriptor) : M Sup bool :=
  let operation_id := td_operation_id descriptor in
  unregister_operation_task operation_id (joined_task_id joined) ;;
  await_blocking_work_idle (td_control descriptor) ;;
  cleaned ← cleanup_run remove_file (td_cleanup descriptor);
  match cleaned with
  | Err error =>
      on_registry (transition operation_id (CleanupFailed (error_text error))) ;;
      finish_operation operation_id ;;
      mret false
  | Ok _ =>
      match joined with
      | JoinedExit _ exit => handle_task_exit exit descriptor
      | JoinedPanic _ error =>
          on_registry (transition operation_id
            (TaskPanicked ("runtime operation task panicked: " +:+ error))) ;;
          finish_operation operation_id ;;
          mret false
      | JoinedAborted _ error =>
          on_registry (transition operation_id
            (TaskAborted ("runtime operation task was aborted: " +:+ error))) ;;
          finish_operation operation_id ;;
          mret false
      end
  end.

Definition handle_joined_task (remove_file : string → RemoveResult) (joined : JoinedTask) : M Sup () :=
  s ← get;
  match sv_descriptors s !! joined_task_id joined with
  | None => throw "runtime operation task exited without a descriptor"
  | Some descriptor =>
      modify (λ s, s <| sv_descriptors ::= delete (joined_task_id joined) |>) ;;
      kept ← or_release (handle_joined_body remove_file joined descriptor);
      if kept : bool then mret () else release_permit
  end.

(** ** Deadlines and shutdown *)
Definition next_deadline_of (heap : list OperationControl) (descriptor : TaskDescriptor) : option Instant :=
  control ← heap !! td_control descriptor;
  if bool_decide (td_external_wait_policy descriptor = WaitOperationDeadline)
     && match stop_reason control with None | Some StopCancelRequested => true | _ => false end
  then Some (oc_deadline control) else None.

Definition next_deadline (s : Sup) : option Instant :=
  foldr (λ kv acc, instant_min (next_deadline_of (sv_heap s) kv.2) acc) None (map_to_list (sv_descriptors s)).

Definition expire (now : Instant) (descriptor : TaskDescriptor) (heap : list OperationControl)
    : list OperationControl :=
  if bool_decide (td_external_wait_policy descriptor = WaitOperationDeadline)
  then alter (λ c, if oc_deadline c <=? now then request_deadline c else c) (td_control descriptor) heap
  else heap.

Definition request_expired_deadlines : M Sup () :=
  now ← instant_now;
  modify (λ s, s <| sv_heap ::= λ heap,
    foldr (λ kv, expire now kv.2) heap (map_to_list (sv_descriptors s)) |>).

Definition request_shutdown_for_all : M Sup () := on_controls request_shutdown.

Definition not_executed_message : string := "runtime operation stopped before execution during shutdown".

(** [drain_pending_admissions]: the commands leave the channel one by one, each
    with its permit. *)
Fixpoint drain_commands (commands : list (OperationAdmission * Request)) : M Sup () :=
  match commands with
  | [] => mret ()
  | (admission, _) :: commands' =>
      modify (λ s, s <| sv_commands := commands' |>) ;;
      or_release (
        on_registry (transition (oa_operation_id admission) (Shutdown not_executed_message)) ;;
        finish_operation (oa_operation_id admission)) ;;
      release_permit ;;
      drain_commands commands'
  end.
Definition drain_pending_admissions : M Sup () := s ← get; drain_commands (sv_commands s).

Definition close_commands : M Sup () := modify (λ s, s <| sv_commands_closed := true |>).

(** The head of the reducer's loop: whether the loop breaks. *)
Definition loop_head : M Sup bool :=
  s ← get;
  if sv_shutting_down s then
    close_commands ;;
    drain_pending_admissions ;;
    s ← get;
    mret (bool_decide (sv_tasks s = ∅))
  else mret false.

Definition enter_shutdown : M Sup () :=
  modify (λ s, s <| sv_shutting_down := true |>) ;;
  request_shutdown_for_all.

(** The arms of the loop's [select], each with its guard. *)
Definition arm_expiry : M Sup () := on_registry sweep_expired_terminal_history.
Definition arm_joined (remove_file : string → RemoveResult) (joined : JoinedTask) : M Sup () :=
  modify (λ s, s <| sv_tasks ::= delete (joined_task_id joined) |>) ;;
  handle_joined_task remove_file joined.
Definition arm_command : M Sup () :=
  s ← get;
  match sv_commands s with
  | command :: commands => put (s <| sv_commands := commands |>) ;; launch_command command
  | [] => enter_shutdown
  end.
Definition arm_root : M Sup () := enter_shutdown.
Definition arm_retention : M Sup () :=
  on_registry (modify (λ g, g <| rg_retention_changed := false |>)).
Definition arm_deadline : M Sup () := request_expired_deadlines.

(** The end of [run_supervisor] after its loop. *)
Definition reducer_epilogue : M Sup () :=
  s ← get;
  if bool_decide (sv_controls s = ∅) && bool_decide (sv_live_tasks s = ∅) then mret ()
  else throw ("runtime operation supervisor exited with " +:+ pretty (Z.of_nat (size (sv_controls s)))
              +:+ " retained operation(s) and " +:+ pretty (Z.of_nat (size (sv_live_tasks s)))
              +:+ " live task(s)").

(** ** After a failure of the reducer *)
Definition fail_close_supervisor : M Sup () :=
  modify (λ s, if bool_decide (sv_phase s = PhaseClosed) then s else s <| sv_phase := PhaseClosing |>) ;;
  on_controls request_shutdown ;;
  cancel_root.

(** The tasks that are still registered are aborted and awaited, then the
    blocking work of every control is closed and awaited. *)
Definition abort_and_await_live_tasks : M Sup () :=
  modify (λ s, s <| sv_live_tasks := ∅ |>) ;;
  on_controls (λ c, c <| oc_blocking_work := mkWork false 0 |>).

Fixpoint classify_operations (remove_file : string → RemoveResult) (error : string)
    (operations : list (RuntimeOperationId * ControlRef)) (first_error : option Error)
    : M Sup (option Error) :=
  match operations with
  | [] => mret first_error
  | (operation_id, control) :: operations' =>
      cleaned ← cleanup_run remove_file [control];
      let t :=
        match cleaned with
        | Ok _ => TaskAborted error
        | Err cleanup_error => CleanupFailed (error_text cleanup_error)
        end in
      out ← attempt (on_registry (transition operation_id t));
      classify_operations remove_file error operations'
        match out, first_error with
        | Err transition_error, None => Some transition_error
        | _, _ => first_error
        end
  end.

Definition classify_remaining_after_controller_exit (remove_file : string → RemoveResult) (error : string)
    : M Sup () :=
  s ← get;
  let operations := map_to_list (sv_controls s) in
  modify (λ s, s <| sv_controls := ∅ |>) ;;
  first_error ← classify_operations remove_file error operations None;
  match first_error with
  | Some error => lift (context "failed to classify remaining runtime operations" (Err error))
  | None => mret ()
  end.

Definition persist_controller_failure (error : string) : M Sup () :=
  modify (λ s, s <| sv_phase := PhaseClosed |> <| sv_shutdown_error := Some error |>).

(** How the reducer's task ended, as its watcher sees it. *)
Inductive ReducerExit : Type := ReducerReturned (result : Result ()) | ReducerJoinFailed (error : string).

(** The recovery of [watch_supervisor] from the failure [primary]. *)
Definition recover_after_failure (remove_file : string → RemoveResult) (primary : string) : M Sup () :=
  modify (λ s, s <| sv_admission_closed := true |>) ;;
  recovery ← attempt (
    fail_close_supervisor ;;
    abort_and_await_live_tasks ;;
    classify_remaining_after_controller_exit remove_file primary);
  let result := combine_shutdown_errors (bail primary) recovery in
  let shutdown_error := match result with Err e => error_text e | Ok _ => primary end in
  persist_controller_failure shutdown_error ;;
  lift (combine_shutdown_errors result (Ok ())).

Definition watch_supervisor (remove_file : string → RemoveResult) (exit : ReducerExit) : M Sup () :=
  match exit with
  | ReducerReturned (Ok _) =>
      s ← get;
      if negb (bool_decide (sv_phase s = PhaseOpen)) then mret ()
      else recover_after_failure remove_file "runtime operation supervisor stopped unexpectedly"
  | ReducerReturned (Err error) =>
      recover_after_failure remove_file
        ("runtime operation supervisor stopped: " +:+ error_text error)
  | ReducerJoinFailed error =>
      recover_after_failure remove_file ("runtime operation supervisor task failed: " +:+ error)
  end.

(** [drain_after_controller_failure]: the tasks that are left are joined in the
    order in which they end. *)
Fixpoint drain_joined (remove_file : string → RemoveResult) (joins : list JoinedTask) (failures : list string)
    : M Sup (list string) :=
  match joins with
  | [] => mret failures
  | joined :: joins' =>
      out ← attempt (arm_joined remove_file joined);
      drain_joined remove_file joins'
        match out with
        | Ok _ => failures
        | Err error => failures ++ ["failed to reduce a live operation task: " +:+ error_chain error]
        end
  end.

Definition drain_after_controller_failure (remove_file : string → RemoveResult) (joins : list JoinedTask)
    : M Sup () :=
  close_commands ;;
  closed ← attempt fail_close_supervisor;
  cancel_root ;;
  drained ← attempt drain_pending_admissions;
  failures ← drain_joined remove_file joins
    ((match closed with
      | Ok _ => []
      | Err error => ["failed to close supervisor admission: " +:+ error_chain error]
      end) ++
     (match drained with
      | Ok _ => []
      | Err error => ["failed to drain pending admissions: " +:+ error_chain error]
      end));
  match failures with
  | [] => mret ()
  | _ :: _ => throw (String.concat "; " failures)
  end.

(** The end of [run_supervisor]: how its loop ended, a panic of the loop being
    an error of its own. *)
Definition finish_reducer (remove_file : string → RemoveResult) (joins : list JoinedTask) (result : Result ())
    : M Sup () :=
  match result with
  | Err error =>
      recovery ← attempt (drain_after_controller_failure remove_file joins);
      lift (combine_controller_failure error recovery)
  | Ok _ => reducer_epilogue
  end.

(** ** The end of [shutdown] *)
Definition take_controller : M Sup (bool * bool) :=
  s ← get;
  match sv_controller s with
  | ControllerUnstarted => put (s <| sv_controller := ControllerDraining |>) ;; mret (true, false)
  | ControllerRunning => put (s <| sv_controller := ControllerDraining |>) ;; mret (true, true)
  | ControllerDraining | ControllerStopped => mret (false, false)
  end.

Definition complete_shutdown (result : Result ()) : M Sup () :=
  let shutdown_error := match result with Ok _ => None | Err e => Some (error_text e) end in
  modify (λ s, s <| sv_controller := ControllerStopped |>) ;;
  modify (λ s, s <| sv_phase := PhaseClosed |> <| sv_shutdown_error := shutdown_error |>) ;;
  lift result.

(** What [shutdown] makes of the end of the watcher's task. *)
Definition drain_controller (remove_file : string → RemoveResult) (exit : ReducerExit) : M Sup () :=
  match exit with
  | ReducerReturned (Ok _) => mret ()
  | ReducerReturned (Err error) =>
      classification ← attempt (
        abort_and_await_live_tasks ;;
        classify_remaining_after_controller_exit remove_file
          ("runtime operation supervisor stopped: " +:+ error_text error));
      lift (combine_shutdown_errors (Err error) classification)
  | ReducerJoinFailed error =>
      let message := "runtime operation supervisor task failed: " +:+ error in
      classification ← attempt (
        abort_and_await_live_tasks ;;
        classify_remaining_after_controller_exit remove_file message);
      lift (combine_shutdown_errors (bail message) classification)
  end.

(** What a second [shutdown] answers once the condition variable wakes it in a
    closed state. *)
Definition wait_for_closed (s : Sup) : option (Result ()) :=
  if bool_decide (sv_phase s = PhaseClosed) then
    Some match sv_shutdown_error s with Some error => bail error | None => Ok () end
  else None.
End supervisor.
