(* ===== verification/SupervisedExecution.v ===== *)
(** * The race between an execution and its stop

    [supervise_execution] and [await_termination_handshake] of
    [src/src/inspector/commands/operations/supervisor.rs]: the future of an
    adapter is polled against the cancellation token and the deadline of its
    control; once stopped it has a grace period to end by itself, and a commit
    phase that is active when the stop or the end of the grace period is seen
    suspends the stop.  The select branches are biased, so a poll is a function
    of what it observes. *)

From S2P Require Import Prelude Json ModuleEvents OperationRecord Transition OperationControl.
From S2P Require Import Registry Supervisor.

(** Where the future is suspended, or what it has returned. *)
Inductive SupervisedExecution (R : Type) : Type :=
  | Racing
  | AwaitingExecution
  | Handshake (reason : OperationStopReason) (until : Instant)
  | Ended (result : R + OperationInterrupted).
Arguments Racing {R}.
Arguments AwaitingExecution {R}.
Arguments Handshake {R} _ _.
Arguments Ended {R} _.

(** What one poll observes: the clock, the root token, the control, and the
    result of the adapter's future if it is ready. *)
Record Observation (R : Type) : Type := mkObservation {
  ob_now : Instant;
  ob_root : bool;
  ob_control : OperationControl;
  ob_ready : option R;
}.
Arguments mkObservation {R} _ _ _ _.
Arguments ob_now {R} _.
Arguments ob_root {R} _.
Arguments ob_control {R} _.
Arguments ob_ready {R} _.

Section execution.
Context {R : Type}.

(** A stop seen by [supervise_execution]: in a commit phase the execution is
    awaited, else its handshake begins. *)
Definition on_stop (o : Observation R) (reason : OperationStopReason) : SupervisedExecution R :=
  let c := ob_control o in
  if oc_commit_active c then AwaitingExecution
  else Handshake reason (ob_now o + oc_termination_handshake_grace c).

Definition supervise_execution (o : Observation R) : SupervisedExecution R * OperationControl :=
  let c := ob_control o in
  match ob_ready o with
  | Some result => (Ended (inl result), c)
  | None =>
      if is_cancelled (ob_root o) c then (on_stop o (default StopCancelRequested (stop_reason c)), c)
      else if oc_deadline c <=? ob_now o then (on_stop o StopDeadlineExceeded, request_deadline c)
      else (Racing, c)
  end.

Definition await_termination_handshake (o : Observation R) (reason : OperationStopReason) (until : Instant)
    : SupervisedExecution R :=
  match ob_ready o with
  | Some result => Ended (inl result)
  | None =>
      if until <=? ob_now o then
        if oc_commit_active (ob_control o) then AwaitingExecution
        else Ended (inr (local_only_interruption reason))
      else Handshake reason until
  end.

(** One poll of the future. *)
Definition poll (o : Observation R) (state : SupervisedExecution R) : SupervisedExecution R * OperationControl :=
  match state with
  | Racing => supervise_execution o
  | AwaitingExecution =>
      (match ob_ready o with Some result => Ended (inl result) | None => AwaitingExecution end, ob_control o)
  | Handshake reason until => (await_termination_handshake o reason until, ob_control o)
  | Ended result => (Ended result, ob_control o)
  end.

(** The states after a sequence of polls; between two of them other threads may
    have changed the control in any way. *)
Definition polls (os : list (Observation R)) (state : SupervisedExecution R) : SupervisedExecution R :=
  foldl (λ st o, (poll o st).1) state os.

(** [begin_supervised_execution]: the adapter's future is only created when the
    control lets the execution start. *)
Definition begin_supervised_execution (now : Instant) (root : bool) (c : OperationControl)
    : (ExecutionError + SupervisedExecution R) * OperationControl :=
  match begin_execution now root c with
  | (Some (NotStarted interrupted), c') => (inl (ErrorInterrupted interrupted), c')
  | (Some AlreadyStarted, c') => (inl (ErrorOther "runtime operation execution was already started"), c')
  | (None, c') => (inr Racing, c')
  end.

(** ** What can be returned *)
Lemma polls_ended os result : polls os (Ended result) = Ended result.
Proof. unfold polls. by induction os. Qed.

Lemma polls_cons o os st : polls (o :: os) st = polls os (poll o st).1.
Proof. done. Qed.

Lemma polls_app os os' st : polls (os ++ os') st = polls os' (polls os st).
Proof. unfold polls. by rewrite foldl_app. Qed.

(** Whether the poll sees a stop. *)
Definition sees_stop (o : Observation R) : bool :=
  is_cancelled (ob_root o) (ob_control o) || (oc_deadline (ob_control o) <=? ob_now o).

(** The reasons a handshake can have. *)
Definition stop_reason_seen (o : Observation R) (reason : OperationStopReason) : Prop :=
  if is_cancelled (ob_root o) (ob_control o)
  then reason = default StopCancelRequested (stop_reason (ob_control o)) else reason = StopDeadlineExceeded.

(** The stop a handshake goes back to. *)
Definition began_handshake (os : list (Observation R)) (reason : OperationStopReason) (until : Instant) : Prop :=
  ∃ pre o post, os = pre ++ o :: post ∧ polls pre Racing = Racing
    ∧ ob_ready o = None ∧ sees_stop o = true ∧ stop_reason_seen o reason
    ∧ oc_commit_active (ob_control o) = false
    ∧ until = ob_now o + oc_termination_handshake_grace (ob_control o).

Lemma began_handshake_later os o reason until :
  began_handshake os reason until → began_handshake (os ++ [o]) reason until.
Proof.
  intros (pre & o' & post & -> & ?). exists pre, o', (post ++ [o]). split; [|done].
  by rewrite <- app_assoc.
Qed.

Lemma handshake_began os reason until :
  polls os Racing = Handshake reason until → began_handshake os reason until.
Proof.
  induction os as [|o os IH] using rev_ind; [done|]. rewrite polls_app. simpl.
  destruct (polls os Racing) as [| |reason' until'|result] eqn:Est; simpl.
  - unfold supervise_execution, on_stop. destruct (ob_ready o) eqn:Er; [done|].
    intros Heq. exists os, o, []. unfold sees_stop, stop_reason_seen.
    destruct (is_cancelled (ob_root o) (ob_control o)); simpl in *.
    + destruct (oc_commit_active (ob_control o)); simplify_eq/=. done.
    + destruct (oc_deadline (ob_control o) <=? ob_now o); simpl in *; [|done].
      destruct (oc_commit_active (ob_control o)); simplify_eq/=. done.
  - by destruct (ob_ready o).
  - unfold await_termination_handshake. destruct (ob_ready o); [done|].
    destruct (until' <=? ob_now o); [by destruct (oc_commit_active (ob_control o))|].
    intros [= <- <-]. apply began_handshake_later. by apply IH.
  - done.
Qed.
End execution.

(** C31. A supervised execution returns the result of the adapter's own future,
    or it is cut off: then by a local-only interruption, at a poll at which the
    future was not ready and no commit phase was active, the stop had been seen
    by an earlier poll with the reason the interruption names, not in a commit
    phase either, and since that poll the whole grace period has passed. *)
Theorem execution_cut_off_only_after_grace {R} (os : list (Observation R)) i :
  polls os Racing = Ended (inr i) →
  ∃ before o after reason until, os = before ++ o :: after
    ∧ began_handshake before reason until ∧ i = local_only_interruption reason
    ∧ until ≤ ob_now o ∧ ob_ready o = None ∧ oc_commit_active (ob_control o) = false.
Proof.
  induction os as [|o os IH] using rev_ind; [done|]. rewrite polls_app. simpl.
  destruct (polls os Racing) as [| |reason until|result] eqn:Est; simpl.
  - unfold supervise_execution, on_stop. destruct (ob_ready o); [done|].
    destruct (is_cancelled (ob_root o) (ob_control o)); simpl; [by destruct (oc_commit_active (ob_control o))|].
    destruct (oc_deadline (ob_control o) <=? ob_now o); simpl; [by destruct (oc_commit_active (ob_control o))|done].
  - by destruct (ob_ready o).
  - unfold await_termination_handshake. destruct (ob_ready o) eqn:Er; [done|].
    destruct (Z.leb_spec until (ob_now o)); [|done].
    destruct (oc_commit_active (ob_control o)) eqn:Ec; [done|]. intros [= <-].
    exists os, o, [], reason, until. split_and!; try done. by apply handshake_began.
  - intros [= ->]. destruct (IH eq_refl) as (before & o' & after & reason & until & -> & Hrest).
    exists before, o', (after ++ [o]), reason, until. split; [|done]. by rewrite <- app_assoc.
Qed.

Section liveness.
Context {R : Type} (grace : Z).
Implicit Types os : list (Observation R).

Definition ended (st : SupervisedExecution R) : bool := match st with Ended _ => true | _ => false end.

(** Polls outside commit phases, on a control with this grace period. *)
Definition interruptible (o : Observation R) : Prop :=
  oc_commit_active (ob_control o) = false ∧ oc_termination_handshake_grace (ob_control o) = grace.

Lemma handshake_ends os reason until o :
  Forall interruptible os → o ∈ os → until ≤ ob_now o → ended (polls os (Handshake reason until)) = true.
Proof.
  intros Hi Hin Hle. induction Hi as [|o' os [Hc _] _ IH]; [by apply elem_of_nil in Hin|].
  rewrite polls_cons. cbn [poll fst]. unfold await_termination_handshake. rewrite Hc. destruct (ob_ready o'); [by rewrite polls_ended|].
  destruct (Z.leb_spec until (ob_now o')) as [_|Hgt]; [by rewrite polls_ended|].
  apply elem_of_cons in Hin as [->|Hin]; [lia|]. by apply IH.
Qed.

(** A stopped execution returns: if no commit phase is active, then once a
    poll has seen the token cancelled or the deadline reached, the first poll
    after the grace period finds the execution returned, whatever its adapter
    does. *)
Theorem stopped_execution_returns pre o rest last :
  Forall interruptible (pre ++ o :: rest) → Forall (λ o', ob_now o' ≤ ob_now o) pre →
  sees_stop o = true → last ∈ rest → ob_now o + grace ≤ ob_now last →
  ended (polls (pre ++ o :: rest) Racing) = true.
Proof.
  intros Hi Hpre Hs Hin Hle.
  assert (Hstop : ∀ o1 os, sees_stop o1 = true → ob_now o1 ≤ ob_now o → Forall interruptible (o1 :: os) →
    last ∈ os → ended (polls (o1 :: os) Racing) = true).
  { intros o1 os Hs1 Hle1 [[Hc Hg] Hi1]%Forall_cons Hin1. rewrite polls_cons. cbn [poll]. unfold supervise_execution, on_stop.
    rewrite Hc, Hg. unfold sees_stop in Hs1. destruct (ob_ready o1); cbn [fst]; [by rewrite polls_ended|].
    destruct (is_cancelled (ob_root o1) (ob_control o1)); cbn [orb fst] in *; [eapply handshake_ends; try done; lia|].
    rewrite Hs1. cbn [fst]. eapply handshake_ends; try done. lia. }
  induction Hpre as [|o1 pre Hle1 _ IH]; cbn [app] in Hi |- *; [by apply Hstop|].
  destruct (sees_stop o1) eqn:Es.
  { apply Hstop; try done. apply elem_of_app. right. by right. }
  apply Forall_cons in Hi as [_ Hi]. specialize (IH Hi). rewrite polls_cons. cbn [poll].
  unfold supervise_execution.
  destruct (ob_ready o1); cbn [fst]; [by rewrite polls_ended|].
  unfold sees_stop in Es. apply orb_false_iff in Es as [-> ->]. done.
Qed.
End liveness.
