(* ===== verification/RegistryInvariant.v ===== *)
(** * The invariant of the registry

    What holds of the registry of [record.rs] between two method calls: every
    record is well formed, settled operations are exactly the tracked ones, the
    history and the journals are within their bounds with exact byte counts,
    journaled events only name operations that still wait to be accepted, and
    at most one operation of an exclusive group is live. *)

From S2P Require Import Prelude Json ModuleEvents OperationRecord Transition OperationViews.
From S2P Require Import RecordInvariants Registry.

(** ** Lists *)
Lemma NoDup_filter_List {A} (f : A → bool) (l : list A) : NoDup l → NoDup (List.filter f l).
Proof.
  induction 1 as [|x l Hx Hl IH]; simpl; [constructor|]. destruct (f x); [|done].
  constructor; [|done]. rewrite list_elem_of_In, filter_In, <- list_elem_of_In. tauto.
Qed.

(** ** Journals *)
Definition sum_bytes (events : list PendingModuleEvent) : Z :=
  foldr (λ p acc, pe_event_bytes p + acc) 0 events.

Record journal_bounds (j : PendingModuleEventJournal) : Prop := {
  jb_count : zlen (jn_events j) ≤ MAX_PENDING_MODULE_EVENTS_PER_MODULE;
  jb_exact : jn_retained_bytes j = sum_bytes (jn_events j);
  jb_bytes : jn_retained_bytes j ≤ MAX_PENDING_MODULE_EVENT_BYTES_PER_MODULE;
  jb_sizes : Forall (λ p, 0 ≤ pe_event_bytes p) (jn_events j);
}.

Lemma sum_bytes_app l1 l2 : sum_bytes (l1 ++ l2) = sum_bytes l1 + sum_bytes l2.
Proof. induction l1; simpl; lia. Qed.

Lemma sum_bytes_nonneg l : Forall (λ p, 0 ≤ pe_event_bytes p) l → 0 ≤ sum_bytes l.
Proof. induction 1; simpl; lia. Qed.

Lemma zlen_cons {A} (a : A) l : zlen (a :: l) = zlen l + 1.
Proof. unfold zlen. simpl. lia. Qed.
#[export] Hint Rewrite @zlen_app @zlen_cons sum_bytes_app : inspector_rw.

Lemma journal_default_bounds : journal_bounds journal_default.
Proof. by split. Qed.

(** An event that fits is appended; nothing else is. *)
Lemma push_back_fits j p :
  journal_bounds j → 0 ≤ pe_event_bytes p →
  zlen (jn_events j) < MAX_PENDING_MODULE_EVENTS_PER_MODULE →
  jn_retained_bytes j + pe_event_bytes p ≤ MAX_PENDING_MODULE_EVENT_BYTES_PER_MODULE →
  ∃ j', push_back j p = Ok j' ∧ journal_bounds j' ∧ jn_events j' = jn_events j ++ [p].
Proof.
  intros [] Hp Hc Hb. unfold push_back, journal_len.
  rewrite (proj2 (Z.leb_gt _ _)) by lia.
  assert (Ha : checked_add (jn_retained_bytes j) (pe_event_bytes p)
               = Some (jn_retained_bytes j + pe_event_bytes p)).
  { apply checked_add_Some. split; [done|].
    unfold MAX_PENDING_MODULE_EVENT_BYTES_PER_MODULE, u64_max in *. lia. }
  rewrite Ha. simpl. rewrite (proj2 (Z.ltb_ge _ _)) by lia. eexists. split; [done|].
  split; [|done]. split; simpl; autorewrite with inspector_rw; simpl; try lia.
  - unfold zlen at 2. simpl. lia.
  - apply Forall_app. by repeat constructor.
Qed.

Lemma push_back_bounds j p j' :
  journal_bounds j → 0 ≤ pe_event_bytes p → push_back j p = Ok j' →
  journal_bounds j' ∧ jn_events j' = jn_events j ++ [p].
Proof.
  intros Hj Hp E.
  assert (Hfit : zlen (jn_events j) < MAX_PENDING_MODULE_EVENTS_PER_MODULE
    ∧ jn_retained_bytes j + pe_event_bytes p ≤ MAX_PENDING_MODULE_EVENT_BYTES_PER_MODULE).
  { revert E. unfold push_back, journal_len, ok_or, mbind, Result_bind.
    destruct (Z.leb_spec MAX_PENDING_MODULE_EVENTS_PER_MODULE (zlen (jn_events j))); [done|].
    destruct (checked_add _ _) as [b|] eqn:Ea; [|done].
    apply checked_add_Some in Ea as [-> _].
    destruct (Z.ltb_spec MAX_PENDING_MODULE_EVENT_BYTES_PER_MODULE
                (jn_retained_bytes j + pe_event_bytes p)); [done|]. lia. }
  destruct (push_back_fits j p) as (j2 & E2 & ? & ?); [tauto..|]. rewrite E in E2. by injection E2 as <-.
Qed.

(** Without the last of the dropped entries there is no room for [bytes] more. *)
Definition room_needed (dropped kept : list PendingModuleEvent) (bytes : Z) : Prop :=
  ∀ before p, dropped = before ++ [p] →
    MAX_PENDING_MODULE_EVENTS_PER_MODULE ≤ zlen (p :: kept)
    ∨ MAX_PENDING_MODULE_EVENT_BYTES_PER_MODULE < sum_bytes (p :: kept) + bytes.

Lemma room_needed_cons p dropped kept bytes :
  (dropped = [] → MAX_PENDING_MODULE_EVENTS_PER_MODULE ≤ zlen (p :: kept)
                  ∨ MAX_PENDING_MODULE_EVENT_BYTES_PER_MODULE < sum_bytes (p :: kept) + bytes) →
  room_needed dropped kept bytes → room_needed (p :: dropped) kept bytes.
Proof.
  intros Hnil Hd before q E. destruct before as [|b before]; simplify_eq/=; [by apply Hnil|by apply (Hd before)].
Qed.

(** Room is always made for an event that fits alone, by dropping a prefix no
    longer than needed. *)
Lemma make_room_spec events retained bytes evicted :
  journal_bounds (mkJournal events retained) →
  0 ≤ bytes ≤ MAX_PENDING_MODULE_EVENT_BYTES_PER_MODULE →
  ∃ j dropped, make_room events retained bytes evicted = Ok (j, evicted ++ dropped)
    ∧ events = dropped ++ jn_events j ∧ room_needed dropped (jn_events j) bytes ∧ journal_bounds j
    ∧ zlen (jn_events j) < MAX_PENDING_MODULE_EVENTS_PER_MODULE
    ∧ jn_retained_bytes j + bytes ≤ MAX_PENDING_MODULE_EVENT_BYTES_PER_MODULE.
Proof.
  intros Hj Hb. revert retained evicted Hj.
  induction events as [|p events IH]; intros retained evicted Hj; pose proof Hj as [Hc He Hm Hs];
    simpl in Hc, He, Hm, Hs; simpl.
  - subst. unfold checked_add. rewrite (proj2 (Z.leb_le _ _)) by (unfold u64_max, MAX_PENDING_MODULE_EVENT_BYTES_PER_MODULE in *; lia).
    simpl. rewrite (proj2 (Z.leb_le _ _)) by lia.
    exists journal_default, []. rewrite app_nil_r. split_and!; try done; simpl; try lia. by intros [] ?.
  - inversion Hs as [|?? Hp Hs']; subst. pose proof (sum_bytes_nonneg _ Hs').
    unfold checked_add. rewrite (proj2 (Z.leb_le _ _)) by (unfold u64_max, MAX_PENDING_MODULE_EVENT_BYTES_PER_MODULE in *; lia).
    simpl. case_if E.
    + apply andb_true_iff in E as [E1%Z.ltb_lt E2%Z.leb_le].
      eexists _, []. rewrite app_nil_r. split_and!; try done. by intros [] ?.
    + unfold checked_sub. rewrite (proj2 (Z.leb_le _ _)) by lia. simpl.
      destruct (IH (pe_event_bytes p + sum_bytes events - pe_event_bytes p) (evicted ++ [p]))
        as (j & dropped & E' & -> & Hneed & Hj').
      { rewrite zlen_cons in Hc. split; simpl; try done; lia. }
      exists j, (p :: dropped). rewrite E'. split; [by rewrite <- app_assoc|]. split; [done|]. split; [|done].
      apply room_needed_cons; [|done]. intros ->. simpl in *. rewrite andb_false_iff, Z.ltb_ge, Z.leb_gt in E. lia.
Qed.

Lemma try_sum_bytes_spec b events :
  Forall (λ p, 0 ≤ pe_event_bytes p) events → 0 ≤ b → b + sum_bytes events ≤ u64_max →
  try_sum_bytes b events = Ok (b + sum_bytes events).
Proof.
  intros Hs. revert b. induction Hs as [|p events Hp Hs IH]; intros b Hb Hm; simpl in *; [f_equal; lia|].
  pose proof (sum_bytes_nonneg _ Hs). unfold checked_add.
  rewrite (proj2 (Z.leb_le _ _)) by lia. simpl. rewrite IH by lia. f_equal. lia.
Qed.

(** Dropping an operation from a journal keeps a part of its events. *)
Definition stripped (operation_id : RuntimeOperationId) (events : list PendingModuleEvent)
    : list PendingModuleEvent :=
  List.filter has_candidates (map (strip_candidate operation_id) events).

Lemma stripped_size operation_id events :
  Forall (λ p, 0 ≤ pe_event_bytes p) events →
  sum_bytes (stripped operation_id events) ≤ sum_bytes events
  ∧ zlen (stripped operation_id events) ≤ zlen events
  ∧ Forall (λ p, 0 ≤ pe_event_bytes p) (stripped operation_id events).
Proof.
  induction 1 as [|p events Hp Hs (IH1 & IH2 & IH3)]; [done|]. unfold stripped in *. simpl.
  case_if E; rewrite ?zlen_cons; simpl; split_and!; try lia; try done. by constructor.
Qed.

Lemma strip_journal_spec operation_id j :
  journal_bounds j →
  ∃ j', strip_journal operation_id j = Ok j' ∧ journal_bounds j'
        ∧ jn_events j' = stripped operation_id (jn_events j).
Proof.
  intros [Hc He Hm Hs]. destruct (stripped_size operation_id _ Hs) as (H1 & H2 & H3).
  unfold strip_journal, recalculate_retained_bytes. simpl.
  fold (stripped operation_id (jn_events j)).
  pose proof (sum_bytes_nonneg _ H3).
  rewrite try_sum_bytes_spec; [|done|lia|unfold u64_max, MAX_PENDING_MODULE_EVENT_BYTES_PER_MODULE in *; lia].
  simpl. unfold journal_len. simpl. fold (stripped operation_id (jn_events j)).
  rewrite (proj2 (Z.ltb_ge MAX_PENDING_MODULE_EVENTS_PER_MODULE _)) by lia.
  rewrite (proj2 (Z.ltb_ge MAX_PENDING_MODULE_EVENT_BYTES_PER_MODULE _)) by lia.
  eexists. split; [done|]. split; [|done].
  split; simpl; fold (stripped operation_id (jn_events j)); try done; lia.
Qed.

Lemma elem_of_stripped operation_id events p :
  p ∈ stripped operation_id events →
  ∃ p0, p0 ∈ events ∧ p = strip_candidate operation_id p0 ∧ has_candidates p = true.
Proof.
  unfold stripped. rewrite list_elem_of_In, filter_In, in_map_iff.
  intros [(p0 & <- & Hin) Hh]. exists p0. by rewrite list_elem_of_In.
Qed.

Lemma strip_candidate_ids operation_id p id :
  id ∈ pe_candidate_operation_ids (strip_candidate operation_id p)
  ↔ id ∈ pe_candidate_operation_ids p ∧ id ≠ operation_id.
Proof.
  unfold strip_candidate. simpl. rewrite !list_elem_of_In, filter_In.
  by rewrite negb_true_iff, String.eqb_neq.
Qed.

Lemma strip_journals_spec operation_id (l : list (string * PendingModuleEventJournal)) :
  (∀ m j, (m, j) ∈ l → journal_bounds j) → NoDup l.*1 →
  ∃ l', strip_journals operation_id l = Ok l' ∧ NoDup l'.*1 ∧ l'.*1 ⊆ l.*1
    ∧ ∀ m j', (m, j') ∈ l' → ∃ j, (m, j) ∈ l ∧ journal_bounds j'
        ∧ jn_events j' = stripped operation_id (jn_events j) ∧ jn_events j' ≠ [].
Proof.
  induction l as [|[m j] l IH]; intros Hb Hnd; simpl.
  { exists []. split_and!; try done; by intros ? ? ?%elem_of_nil. }
  apply NoDup_cons in Hnd as [Hni Hnd].
  destruct IH as (l' & -> & Hnd' & Hsub & Hl'); [|done|].
  { intros m' j' Hin. apply (Hb m'). by right. }
  destruct (strip_journal_spec operation_id j) as (j' & -> & Hj' & He); [apply (Hb m); by left|].
  simpl. unfold journal_is_empty. destruct (jn_events j') as [|p ps] eqn:Ej.
  - exists l'. split_and!; [done|done|set_solver|].
    intros m' j2 Hin. destruct (Hl' _ _ Hin) as (j3 & ? & ?). exists j3. split; [by right|done].
  - exists ((m, j') :: l'). split_and!; [done| |set_solver|].
    + apply NoDup_cons. split; [|done]. simpl. intros Hin. by apply Hni, Hsub.
    + intros m' j2 [Heq|Hin]%elem_of_cons.
      * simplify_eq. exists j. rewrite Ej. split; [by left|]. by split_and!.
      * destruct (Hl' _ _ Hin) as (j3 & ? & ?). exists j3. split; [by right|done].
Qed.

(** ** The registry *)
Section invariant.
Context `{SerdeJson} {Request : Type}.
Abbreviation Record_ := (RuntimeOperationRecord Request).
Abbreviation Records := (gmap RuntimeOperationId (RuntimeOperationRecord Request)).
Abbreviation Registry := (RuntimeOperationRegistry Request).
Abbreviation Journals := (gmap string PendingModuleEventJournal).
Implicit Types r : RuntimeOperationRecord Request.
Implicit Types records : gmap RuntimeOperationId (RuntimeOperationRecord Request).
Implicit Types g : RuntimeOperationRegistry Request.

(** At most one live operation per exclusive group. *)
Definition groups_exclusive (records : Records) : Prop :=
  ∀ i j ri rj group, records !! i = Some ri → records !! j = Some rj →
    active_operation_in_exclusive_group ri group = true →
    active_operation_in_exclusive_group rj group = true → i = j.

Record store_wf (records : Records) : Prop := {
  st_entries : map_Forall (λ id r, entry_ok r ∧ op_operation_id (rec_operation r) = id) records;
  st_unique : correlations_unique records;
  st_exclusive : groups_exclusive records;
}.

(** A journaled event belongs to its module, fits in memory, and names at
    least one operation; every operation it names still waits for that
    module. *)
Definition pending_wf (records : Records) (module_name : string) (p : PendingModuleEvent) : Prop :=
  me_module_name (pe_event p) = module_name
  ∧ event_fits (pe_event p)
  ∧ has_candidates p = true
  ∧ ∀ id, id ∈ pe_candidate_operation_ids p →
      ∃ r, records !! id = Some r ∧ rec_pending_module_name r = Some module_name.

Definition journals_wf (records : Records) (journals : Journals) : Prop :=
  map_Forall (λ m j, journal_bounds j ∧ jn_events j ≠ [] ∧ Forall (pending_wf records m) (jn_events j))
    journals.

(** The bytes a settled operation retains, without saturation. *)
Definition payload_size (o : RuntimeOperation) : Z :=
  (match op_result o with Some v => serialized_value_bytes v | None => 0 end)
  + (match op_acknowledgement o with Some v => serialized_value_bytes v | None => 0 end)
  + (match op_error o with Some e => str_len e | None => 0 end).

Definition retention_ok (r : Record_) : Prop :=
  if is_terminal (op_status (rec_operation r))
  then is_Some (rec_terminal_at r) ∧ is_Some (rec_terminal_expires_at r)
       ∧ rec_retained_terminal_payload_bytes r = payload_size (rec_operation r)
  else rec_terminal_at r = None ∧ rec_retained_terminal_payload_bytes r = 0.

Record history_wf (records : Records) (tracked : list RuntimeOperationId) : Prop := {
  hs_nodup : NoDup tracked;
  hs_tracked : ∀ id, id ∈ tracked ↔
    ∃ r, records !! id = Some r ∧ is_terminal (op_status (rec_operation r)) = true;
  hs_retention : map_Forall (λ _, retention_ok) records;
}.

Definition tracked_bytes (records : Records) (tracked : list RuntimeOperationId) : Z :=
  foldr (λ id acc, match records !! id with
                   | Some r => rec_retained_terminal_payload_bytes r
                   | None => 0
                   end + acc) 0 tracked.

Record registry_core (g : Registry) : Prop := {
  rc_store : store_wf (rg_records g);
  rc_journals : journals_wf (rg_records g) (rg_pending_module_events g);
  rc_history : history_wf (rg_records g) (rg_terminal_records g);
}.

Record registry_wf (g : Registry) : Prop := {
  rw_core : registry_core g;
  rw_count : zlen (rg_terminal_records g) ≤ MAX_RETAINED_TERMINAL_RECORDS;
  rw_exact : rg_retained_terminal_payload_bytes g
             = tracked_bytes (rg_records g) (rg_terminal_records g);
  rw_bytes : rg_retained_terminal_payload_bytes g ≤ MAX_RETAINED_TERMINAL_PAYLOAD_BYTES;
}.

Lemma serialized_value_bytes_nonneg v : 0 ≤ serialized_value_bytes v.
Proof. apply str_len_nonneg. Qed.

(** A record retains less than a [usize] can count. *)
Lemma payload_size_bound r :
  payload_wf r → 0 ≤ payload_size (rec_operation r) ≤ 4 * text_bound.
Proof.
  intros [Hres Hack Herr _]. unfold payload_size, value_fits, MAX_INLINE_EVENT_PAYLOAD_BYTES, text_bound in *.
  pose proof serialized_value_bytes_nonneg as Hv. pose proof str_len_nonneg as Hs.
  destruct (op_result (rec_operation r)) as [v|]; [specialize (Hres v eq_refl); specialize (Hv v) as Hv1|];
    (destruct (op_acknowledgement (rec_operation r)) as [a|];
     [specialize (Hack a eq_refl); specialize (Hv a) as Hv2|]);
    (destruct (op_error (rec_operation r)) as [e|]; [specialize (Herr e eq_refl); specialize (Hs e)|]); lia.
Qed.

Lemma retained_bytes_exact r :
  payload_wf r → retained_operation_payload_bytes (rec_operation r) = payload_size (rec_operation r).
Proof.
  intros Hw. pose proof (payload_size_bound r Hw) as Hb. revert Hb.
  unfold retained_operation_payload_bytes, payload_size, saturating_add, text_bound, u64_max.
  pose proof serialized_value_bytes_nonneg as Hv. pose proof str_len_nonneg as Hs.
  destruct (op_result (rec_operation r)) as [v|]; [specialize (Hv v) as Hv1|];
    (destruct (op_acknowledgement (rec_operation r)) as [a|]; [specialize (Hv a) as Hv2|]);
    (destruct (op_error (rec_operation r)) as [e|]; [specialize (Hs e)|]); lia.
Qed.

(** ** Removing a record *)
Lemma delete_store records id : store_wf records → store_wf (delete id records).
Proof.
  intros [He Hu Hx]. split.
  - intros i r [_ Hr]%lookup_delete_Some. by apply He.
  - intros i j ri rj key [_ Hi]%lookup_delete_Some [_ Hj]%lookup_delete_Some. by apply (Hu i j ri rj key).
  - intros i j ri rj grp [_ Hi]%lookup_delete_Some [_ Hj]%lookup_delete_Some. by apply (Hx i j ri rj grp).
Qed.

Abbreviation drop_id id l := (List.filter (λ c, negb (String.eqb c id)) l).

Lemma elem_of_drop_id id l i : i ∈ drop_id id l ↔ i ∈ l ∧ i ≠ id.
Proof. rewrite !list_elem_of_In, filter_In, negb_true_iff, String.eqb_neq. done. Qed.

Lemma drop_id_absent id l : id ∉ l → drop_id id l = l.
Proof.
  induction l as [|x l IH]; intros Hni; simpl; [done|].
  apply not_elem_of_cons in Hni as [Hne Hni]. rewrite (proj2 (String.eqb_neq x id)) by done.
  simpl. by rewrite IH.
Qed.

Lemma drop_id_NoDup id l : NoDup l → NoDup (drop_id id l).
Proof. apply NoDup_filter_List. Qed.

Lemma delete_history records tracked id :
  history_wf records tracked → history_wf (delete id records) (drop_id id tracked).
Proof.
  intros [Hn Ht Hr]. split.
  - by apply drop_id_NoDup.
  - intros i. rewrite elem_of_drop_id, Ht. split.
    + intros [(r & Hl & ?) Hne]. exists r. split; [|done]. by rewrite lookup_delete_ne.
    + intros (r & [Hne Hl]%lookup_delete_Some & ?). split; [by exists r | done].
  - intros i r [_ Hl]%lookup_delete_Some. by apply (Hr i).
Qed.

Lemma tracked_bytes_ext records records' tracked :
  (∀ id, id ∈ tracked → rec_retained_terminal_payload_bytes <$> records !! id
                        = rec_retained_terminal_payload_bytes <$> records' !! id) →
  tracked_bytes records tracked = tracked_bytes records' tracked.
Proof.
  induction tracked as [|id l IH]; intros Heq; simpl; [done|].
  rewrite IH by (intros; apply Heq; by right).
  assert (Hh : id ∈ id :: l) by left. specialize (Heq id Hh).
  destruct (records !! id), (records' !! id); simpl in Heq; congruence.
Qed.

(** Removing a record takes its bytes off the total. *)
Lemma tracked_bytes_drop records tracked id r :
  NoDup tracked → records !! id = Some r →
  (id ∈ tracked ∨ rec_retained_terminal_payload_bytes r = 0) →
  tracked_bytes (delete id records) (drop_id id tracked)
  = tracked_bytes records tracked - rec_retained_terminal_payload_bytes r.
Proof.
  intros Hnd Hr Hid.
  assert (Hdel : ∀ l, id ∉ l → tracked_bytes (delete id records) l = tracked_bytes records l).
  { intros l Hni. apply tracked_bytes_ext. intros i Hi. rewrite lookup_delete_ne; [done|]. by intros ->. }
  induction Hnd as [|x l Hx Hnd IH].
  { destruct Hid as [Hid|Hz]; [by apply elem_of_nil in Hid|]. simpl. lia. }
  simpl. destruct (String.eqb_spec x id) as [->|Hne]; simpl.
  - rewrite drop_id_absent, Hdel by done. rewrite Hr. lia.
  - rewrite IH by set_solver. rewrite lookup_delete_ne by done. lia.
Qed.

Lemma strip_journals_wf records id (journals : Journals) :
  journals_wf records journals →
  ∃ l, strip_journals id (map_to_list journals) = Ok l
    ∧ journals_wf (delete id records) (list_to_map l)
    ∧ ∀ m j p, (list_to_map l : Journals) !! m = Some j → p ∈ jn_events j →
        id ∉ pe_candidate_operation_ids p.
Proof.
  intros Hj. destruct (strip_journals_spec id (map_to_list journals)) as (l & El & Hnd & _ & Hl).
  { intros m j Hin%elem_of_map_to_list. by apply (Hj m j). }
  { apply NoDup_fst_map_to_list. }
  exists l. split; [done|].
  assert (Hlook : ∀ m j, (list_to_map l : Journals) !! m = Some j →
    ∃ j0, journals !! m = Some j0 ∧ journal_bounds j ∧ jn_events j = stripped id (jn_events j0)
          ∧ jn_events j ≠ []).
  { intros m j Hm. apply elem_of_list_to_map_2, Hl in Hm as (j0 & ?%elem_of_map_to_list & ?). eauto. }
  split.
  - intros m j (j0 & Hj0 & Hb & He & Hne)%Hlook. split_and!; [done..|].
    apply Forall_forall. intros p Hp. rewrite He in Hp.
    apply elem_of_stripped in Hp as (p0 & Hp0 & -> & Hh).
    destruct (Hj m j0 Hj0) as (_ & _ & Hall). rewrite Forall_forall in Hall.
    destruct (Hall p0 Hp0) as (Hm & Hf & _ & Hc). split_and!; try done.
    intros i [Hi Hne']%strip_candidate_ids. destruct (Hc i Hi) as (r & Hr & ?).
    exists r. by rewrite lookup_delete_ne.
  - intros m j p (j0 & _ & _ & He & _)%Hlook Hp. rewrite He in Hp.
    apply elem_of_stripped in Hp as (p0 & _ & -> & _). rewrite strip_candidate_ids. tauto.
Qed.

Lemma remove_record_spec id g :
  registry_core g →
  wp (remove_record id) (λ out g',
    out = Ok (rg_records g !! id) ∧ registry_core g'
    ∧ rg_records g' = delete id (rg_records g)
    ∧ rg_terminal_records g' = drop_id id (rg_terminal_records g)
    ∧ rg_retained_terminal_payload_bytes g'
      = match rg_records g !! id with
        | Some r => saturating_sub (rg_retained_terminal_payload_bytes g)
                      (rec_retained_terminal_payload_bytes r)
        | None => rg_retained_terminal_payload_bytes g
        end
    ∧ rg_retention_changed g' = rg_retention_changed g
    ∧ ∀ m j p, rg_pending_module_events g' !! m = Some j → p ∈ jn_events j →
        id ∉ pe_candidate_operation_ids p) g.
Proof.
  intros [Hs Hj Hh]. unfold remove_record, remove_operation_from_pending_module_events.
  wp_step. wp_step. wp_step. wp_step. wp_step.
  destruct (strip_journals_wf _ id _ Hj) as (l & -> & Hj' & Hno). wp_go. simpl.
  destruct (rg_records g !! id) as [r|] eqn:Er; wp_go; split_and!; try done;
    (split; simpl; [by apply delete_store | done | by apply delete_history]).
Qed.

(** ** What a sweep may do

    It forgets settled operations and purges payloads of others; live
    operations, journals and the order of the history are kept. *)
Definition erase_payload (r : Record_) : Record_ :=
  r <| rec_operation ::= λ o, o <| op_result := None |> <| op_acknowledgement := None |> |>
    <| rec_result_purged := false |> <| rec_acknowledgement_purged := false |>
    <| rec_retained_terminal_payload_bytes := 0 |>.

Record purged (r r' : Record_) : Prop := {
  pg_core : erase_payload r' = erase_payload r;
  pg_result : op_result (rec_operation r') = op_result (rec_operation r)
              ∧ rec_result_purged r' = rec_result_purged r
              ∨ op_result (rec_operation r') = None ∧ rec_result_purged r' = true;
  pg_ack : op_acknowledgement (rec_operation r') = op_acknowledgement (rec_operation r)
           ∧ rec_acknowledgement_purged r' = rec_acknowledgement_purged r
           ∨ op_acknowledgement (rec_operation r') = None ∧ rec_acknowledgement_purged r' = true;
}.

#[export] Instance purged_preorder : PreOrder purged.
Proof.
  split; [intros r; by split; [|left|left]|].
  intros r1 r2 r3 [C1 R1 A1] [C2 R2 A2]. split; [congruence| |].
  - destruct R1 as [[]|[]], R2 as [[]|[]]; try (right; split; congruence); left; split; congruence.
  - destruct A1 as [[]|[]], A2 as [[]|[]]; try (right; split; congruence); left; split; congruence.
Qed.

Record swept (g g' : Registry) : Prop := {
  sw_live : ∀ id r, live r → rg_records g !! id = Some r ↔ rg_records g' !! id = Some r;
  sw_old : ∀ id r', rg_records g' !! id = Some r' →
             ∃ r, rg_records g !! id = Some r ∧ purged r r';
  sw_tracked : rg_terminal_records g' `sublist_of` rg_terminal_records g;
  sw_journals : rg_pending_module_events g' = rg_pending_module_events g;
  sw_notify : rg_retention_changed g' = rg_retention_changed g;
}.

#[export] Instance swept_preorder : PreOrder swept.
Proof.
  split; [intros g; split; try done; intros; eexists; by split|].
  intros g1 g2 g3 [L1 O1 T1 J1 N1] [L2 O2 T2 J2 N2]. split; try congruence.
  - intros id r Hl. by rewrite (L1 id r Hl), (L2 id r Hl).
  - intros id r3 H3. destruct (O2 _ _ H3) as (r2 & H2 & P2). destruct (O1 _ _ H2) as (r1 & H1 & P1).
    exists r1. split; [done|]. by etrans.
  - by etrans.
Qed.

(** *** Forgetting a settled operation leaves the journals as they are. *)
Lemma strip_journal_absent id j :
  journal_bounds j →
  Forall (λ p, has_candidates p = true ∧ id ∉ pe_candidate_operation_ids p) (jn_events j) →
  strip_journal id j = Ok j.
Proof.
  intros Hb Hall. destruct (strip_journal_spec id j Hb) as (j' & E & Hb' & He).
  assert (Hev : stripped id (jn_events j) = jn_events j).
  { unfold stripped. clear -Hall. induction Hall as [|p l [Hh Hni] Hall IH]; simpl; [done|].
    assert (Hp : strip_candidate id p = p).
    { destruct p as [ev ids b]. change (mkPending ev (drop_id id ids) b = mkPending ev ids b).
      by rewrite drop_id_absent. }
    rewrite Hp, Hh, IH. done. }
  rewrite E. f_equal. destruct Hb, Hb', j, j'; simpl in *. congruence.
Qed.

Lemma strip_journals_absent id l :
  (∀ m j, (m, j) ∈ l → journal_bounds j ∧ jn_events j ≠ []
    ∧ Forall (λ p, has_candidates p = true ∧ id ∉ pe_candidate_operation_ids p) (jn_events j)) →
  strip_journals id l = Ok l.
Proof.
  induction l as [|[m j] l IH]; intros Hl; simpl; [done|].
  destruct (Hl m j) as (Hb & Hne & Hall); [by left|].
  rewrite strip_journal_absent by done. simpl.
  rewrite IH by (intros m' j' Hin; apply (Hl m'); by right). simpl.
  unfold journal_is_empty. by destruct (jn_events j).
Qed.

Lemma settled_not_candidate records journals id r m j p :
  map_Forall (λ _, payload_wf) records → journals_wf records journals →
  records !! id = Some r → is_terminal (op_status (rec_operation r)) = true →
  journals !! m = Some j → p ∈ jn_events j → id ∉ pe_candidate_operation_ids p.
Proof.
  intros Hp Hj Hr Ht Hm Hin Hid. destruct (Hj m j Hm) as (_ & _ & Hall).
  rewrite Forall_forall in Hall. destruct (Hall p Hin) as (_ & _ & _ & Hc).
  destruct (Hc id Hid) as (r' & Hr' & Hpend). simplify_eq.
  destruct (pw_pending _ (Hp id r Hr)) as [Hl _]; [by rewrite Hpend|]. unfold live in Hl. congruence.
Qed.

Lemma store_payload records : store_wf records → map_Forall (λ _, payload_wf) records.
Proof. intros [He _ _] id r Hr. by destruct (He id r Hr) as [(_ & _ & ?) _]. Qed.

Lemma remove_settled id r g :
  store_wf (rg_records g) → journals_wf (rg_records g) (rg_pending_module_events g) →
  rg_records g !! id = Some r → is_terminal (op_status (rec_operation r)) = true →
  wp (remove_record id) (λ out g', out = Ok (Some r)
    ∧ g' = g <| rg_records ::= delete id |> <| rg_terminal_records ::= λ l, drop_id id l |>
             <| rg_retained_terminal_payload_bytes ::=
                  λ b, saturating_sub b (rec_retained_terminal_payload_bytes r) |>) g.
Proof.
  intros Hs Hj Hr Ht. unfold remove_record, remove_operation_from_pending_module_events.
  wp_step. wp_step. wp_step. wp_step. wp_step. rewrite strip_journals_absent.
  - wp_go. simpl. rewrite Hr. wp_go. split; [done|]. rewrite list_to_map_to_list.
    by destruct g.
  - intros m j Hin%elem_of_map_to_list. destruct (Hj m j Hin) as (Hb & Hne & Hall).
    split_and!; [done..|]. apply Forall_forall. intros p Hp. rewrite Forall_forall in Hall.
    split; [by apply (Hall p Hp)|].
    eapply settled_not_candidate; [by apply store_payload|done..].
Qed.
End invariant.
