(* ===== verification/RegistrySweep.v ===== *)
(** * The sweep of the settled history

    [sweep_terminal_history] of [record.rs] on a registry that satisfies the
    invariant: it never fails, ends within both bounds with an exact byte
    count, leaves no expired operation, and touches no live one. *)

From S2P Require Import Prelude Json ModuleEvents OperationRecord Transition OperationViews.
From S2P Require Import RecordInvariants Registry RegistryInvariant.

Section sweep.
Context `{SerdeJson} {Request : Type}.
Abbreviation Record_ := (RuntimeOperationRecord Request).
Abbreviation Records := (gmap RuntimeOperationId (RuntimeOperationRecord Request)).
Abbreviation Registry := (RuntimeOperationRegistry Request).
Abbreviation drop_id id l := (List.filter (λ c, negb (String.eqb c id)) l).
Implicit Types r : RuntimeOperationRecord Request.
Implicit Types records : gmap RuntimeOperationId (RuntimeOperationRecord Request).
Implicit Types g : RuntimeOperationRegistry Request.

Definition counted (g : Registry) : Prop :=
  rg_retained_terminal_payload_bytes g = tracked_bytes (rg_records g) (rg_terminal_records g).

Lemma retained_nonneg g id r :
  registry_core g → rg_records g !! id = Some r → 0 ≤ rec_retained_terminal_payload_bytes r.
Proof.
  intros [Hs _ [_ _ Hr]] Hl. specialize (Hr id r Hl). unfold retention_ok in Hr.
  destruct (is_terminal _); [|lia]. destruct Hr as (_ & _ & ->).
  by apply payload_size_bound, (store_payload _ Hs id).
Qed.

Lemma tracked_bytes_nonneg g l : registry_core g → 0 ≤ tracked_bytes (rg_records g) l.
Proof.
  intros Hc. induction l as [|id l IH]; simpl; [lia|].
  destruct (rg_records g !! id) as [r|] eqn:Er; [|lia].
  pose proof (retained_nonneg g id r Hc Er). lia.
Qed.

Lemma drop_id_sublist id l : drop_id id l `sublist_of` l.
Proof. induction l; simpl; [done|]. case_if E; by constructor. Qed.

(** One operation forgotten. *)
Definition forget (id : RuntimeOperationId) (r : Record_) (g : Registry) : Registry :=
  g <| rg_records ::= delete id |> <| rg_terminal_records ::= λ l, drop_id id l |>
    <| rg_retained_terminal_payload_bytes ::=
         λ b, saturating_sub b (rec_retained_terminal_payload_bytes r) |>.

Lemma forget_core id r g :
  registry_core g → rg_records g !! id = Some r →
  is_terminal (op_status (rec_operation r)) = true →
  registry_core (forget id r g) ∧ swept g (forget id r g)
  ∧ (counted g → counted (forget id r g)).
Proof.
  intros Hcore Hr Ht. pose proof Hcore as [Hs Hj Hh].
  assert (Hcore' : registry_core (forget id r g)).
  { split; simpl; [by apply delete_store| |by apply delete_history].
    intros m j Hm. destruct (Hj m j Hm) as (Hb & Hne & Hall). split_and!; [done..|].
    rewrite Forall_forall in *. intros p Hp. destruct (Hall p Hp) as (? & ? & ? & Hc).
    split_and!; try done. intros i Hi. destruct (Hc i Hi) as (ri & Hri & ?).
    exists ri. split; [|done]. rewrite lookup_delete_ne; [done|]. intros Heq. subst i.
    exact (settled_not_candidate _ _ id r m j p (store_payload _ Hs) Hj Hr Ht Hm Hp Hi). }
  split; [done|]. split.
  - split; simpl; try done.
    + intros i ri Hl. rewrite lookup_delete_Some. split; [|tauto]. intros Hi. split; [|done].
      intros ->. simplify_eq. unfold live in Hl. congruence.
    + intros i ri [_ Hi]%lookup_delete_Some. by exists ri.
    + apply drop_id_sublist.
  - unfold counted. simpl. intros ->. rewrite (tracked_bytes_drop _ _ _ r); [| |done|].
    + pose proof (tracked_bytes_nonneg _ (rg_terminal_records (forget id r g)) Hcore') as Hn.
      simpl in Hn. rewrite (tracked_bytes_drop _ _ _ r) in Hn; [|by apply (hs_nodup _ _ Hh)|done|].
      * unfold saturating_sub. lia.
      * left. apply (hs_tracked _ _ Hh). eauto.
    + by apply (hs_nodup _ _ Hh).
    + left. apply (hs_tracked _ _ Hh). eauto.
Qed.

(** What every stage of the sweep keeps. *)
Definition stage (g g' : Registry) : Prop := registry_core g' ∧ counted g' ∧ swept g g'.

Lemma stage_trans g1 g2 g3 : stage g1 g2 → stage g2 g3 → stage g1 g3.
Proof. intros (_ & _ & ?) (? & ? & ?). split_and!; try done. by etrans. Qed.

Lemma wp_forget id r g :
  registry_core g → counted g → rg_records g !! id = Some r →
  is_terminal (op_status (rec_operation r)) = true →
  wp (remove_record id) (λ out g', out = Ok (Some r) ∧ g' = forget id r g ∧ stage g g') g.
Proof.
  intros Hc Hn Hr Ht. pose proof Hc as [Hs Hj _].
  eapply wp_mono; [by apply (remove_settled id r)|].
  intros out g' [-> ->]. split; [done|]. split; [done|].
  destruct (forget_core id r g) as (? & ? & ?); [done..|]. split_and!; auto.
Qed.

Lemma wp_remove_records ids g :
  registry_core g → counted g → NoDup ids →
  (∀ id, id ∈ ids → id ∈ rg_terminal_records g) →
  wp (remove_records ids) (λ out g', out = Ok () ∧ stage g g'
    ∧ ∀ id, rg_records g' !! id = if bool_decide (id ∈ ids) then None else rg_records g !! id) g.
Proof.
  intros Hc Hn Hnd. revert g Hc Hn. induction Hnd as [|id ids Hni Hnd IH]; intros g Hc Hn Hin; simpl.
  - wp_go. split; [done|]. split; [by split_and!|]. done.
  - assert (Ht : id ∈ rg_terminal_records g) by (apply Hin; by left).
    apply (hs_tracked _ _ (rc_history _ Hc)) in Ht as (r & Hr & Ht).
    wp_step. eapply wp_mono; [by apply (wp_forget id r)|].
    intros out g1 (-> & -> & Hst). pose proof Hst as (Hc1 & Hn1 & Hsw1).
    eapply wp_mono; [apply IH; try done|].
    + intros i Hi. simpl. apply elem_of_drop_id. split; [apply Hin; by right|]. by intros ->.
    + intros o g2 (-> & Hst2 & Hl). split; [done|]. split; [by eapply stage_trans|].
      intros i. rewrite Hl. simpl. destruct (decide (i = id)) as [->|Hne].
      * rewrite (bool_decide_false (id ∈ ids)), (bool_decide_true (id ∈ id :: ids)) by set_solver.
        apply lookup_delete_eq.
      * rewrite lookup_delete_ne by done.
        by rewrite (bool_decide_ext (i ∈ id :: ids) (i ∈ ids)) by (rewrite elem_of_cons; naive_solver).
Qed.

(** The count bound: the oldest settled operations are forgotten first. *)
Lemma wp_evict_oldest id rest r g :
  registry_core g → counted g → rg_terminal_records g = id :: rest →
  rg_records g !! id = Some r → is_terminal (op_status (rec_operation r)) = true →
  wp evict_oldest_terminal_record (λ out g', out = Ok () ∧ stage g g'
    ∧ rg_terminal_records g' = rest ∧ rg_records g' = delete id (rg_records g)) g.
Proof.
  intros Hc Hn Hl Hr Ht. unfold evict_oldest_terminal_record. wp_step. wp_step.
  rewrite Hl. wp_step. wp_step. wp_step. pose proof Hc as [Hs Hj Hh].
  eapply wp_mono; [by apply (remove_settled id r)|].
  intros out g' [-> ->]. wp_go. simpl. split; [done|].
  assert (Hni : id ∉ rest).
  { pose proof (hs_nodup _ _ Hh) as Hnd. rewrite Hl in Hnd. by apply NoDup_cons in Hnd as [? _]. }
  assert (Hg : ∀ g0 : Registry, g0 = forget id r g → stage g g0 ∧ rg_terminal_records g0 = rest
                 ∧ rg_records g0 = delete id (rg_records g)).
  { intros g0 ->. destruct (forget_core id r g) as (? & ? & Hcn); [done..|].
    split; [by split_and!; auto|]. simpl. rewrite Hl. simpl.
    rewrite String.eqb_refl. simpl. by rewrite drop_id_absent. }
  apply Hg. destruct g as [recs pend term bytes nt]. simpl in Hl. subst term.
  set (b := saturating_sub bytes (rec_retained_terminal_payload_bytes r)).
  change (mkRegistry (delete id recs) pend (drop_id id rest) b nt
          = mkRegistry (delete id recs) pend (drop_id id (id :: rest)) b nt).
  f_equal. simpl. by rewrite String.eqb_refl.
Qed.

Lemma wp_evict_terminal_records n g :
  registry_core g → counted g → (length (rg_terminal_records g) ≤ n)%nat →
  wp (evict_terminal_records n) (λ out g', out = Ok () ∧ stage g g'
    ∧ zlen (rg_terminal_records g') ≤ MAX_RETAINED_TERMINAL_RECORDS
    ∧ ∀ id r, rg_records g' !! id = Some r → rg_records g !! id = Some r) g.
Proof.
  revert g. induction n as [|n IH]; intros g Hc Hn Hlen; simpl; wp_step; wp_step;
    (case_if E; [apply Z.ltb_lt in E | apply Z.ltb_ge in E; wp_go; by split_and!]).
  - unfold zlen, MAX_RETAINED_TERMINAL_RECORDS in E. lia.
  - destruct (rg_terminal_records g) as [|id rest] eqn:El;
      [unfold zlen, MAX_RETAINED_TERMINAL_RECORDS in E; simpl in E; lia|].
    assert (Hid : id ∈ rg_terminal_records g) by (rewrite El; by left).
    apply (hs_tracked _ _ (rc_history _ Hc)) in Hid as (r & Hr & Ht).
    wp_step. eapply wp_mono; [by apply (wp_evict_oldest id rest r)|].
    intros o g1 (-> & Hst & Hrest & Hrec). pose proof Hst as (Hc1 & Hn1 & _).
    eapply wp_mono; [apply IH; try done|].
    + rewrite Hrest. simpl in Hlen. lia.
    + intros o g2 (-> & Hst2 & Hcount & Hsub). split; [done|]. split; [by eapply stage_trans|].
      split; [done|]. intros i ri Hi%Hsub. rewrite Hrec in Hi. by apply lookup_delete_Some in Hi as [_ ?].
Qed.

(** *** Replacing one record *)
Lemma store_insert records id r r' :
  store_wf records → records !! id = Some r → entry_ok r' →
  op_operation_id (rec_operation r') = op_operation_id (rec_operation r) →
  correlations_unique (<[id := r']> records) →
  (∀ grp, active_operation_in_exclusive_group r' grp = true →
          active_operation_in_exclusive_group r grp = true) →
  store_wf (<[id := r']> records).
Proof.
  intros [He _ Hx] Hr Hok Hid Hu Hact. split; [| done |].
  - apply map_Forall_insert_2; [|done]. split; [done|]. rewrite Hid. by apply (He id r Hr).
  - intros i j ri rj grp Hi Hj Ai Aj.
    apply lookup_insert_Some in Hi as [[<- <-]|[Hni Hi]], Hj as [[<- <-]|[Hnj Hj]]; [done|..].
    + by apply (Hx id j r rj grp); auto.
    + by apply (Hx i id ri r grp); auto.
    + by apply (Hx i j ri rj grp).
Qed.

Lemma journals_insert records (journals : gmap string PendingModuleEventJournal) id r r' :
  journals_wf records journals → records !! id = Some r →
  (rec_pending_module_name r' = rec_pending_module_name r
   ∨ ∀ m j p, journals !! m = Some j → p ∈ jn_events j → id ∉ pe_candidate_operation_ids p) →
  journals_wf (<[id := r']> records) journals.
Proof.
  intros Hj Hr Hcase m j Hm. destruct (Hj m j Hm) as (Hb & Hne & Hall). split_and!; [done..|].
  rewrite Forall_forall in *. intros p Hp. destruct (Hall p Hp) as (? & ? & ? & Hc).
  split_and!; try done. intros i Hi. destruct (Hc i Hi) as (ri & Hri & Hpend).
  destruct (decide (i = id)) as [->|Hni].
  - destruct Hcase as [Hsame|Hno]; [|by destruct (Hno m j p Hm Hp)].
    exists r'. rewrite lookup_insert_eq. split; [done|]. rewrite Hsame. congruence.
  - exists ri. by rewrite lookup_insert_ne.
Qed.

Lemma history_insert records tracked id r r' :
  history_wf records tracked → records !! id = Some r →
  is_terminal (op_status (rec_operation r')) = is_terminal (op_status (rec_operation r)) →
  retention_ok r' → history_wf (<[id := r']> records) tracked.
Proof.
  intros [Hn Ht Hret] Hr Hs Hok. split; [done| |by apply map_Forall_insert_2].
  intros i. rewrite Ht. split.
  - intros (ri & Hi & Hterm). destruct (decide (i = id)) as [->|Hne].
    + exists r'. rewrite lookup_insert_eq. split; [done|]. rewrite Hs. congruence.
    + exists ri. by rewrite lookup_insert_ne.
  - intros (ri & [[<- <-]|[Hne Hi]]%lookup_insert_Some & Hterm); [|eauto].
    exists r. split; [done|]. congruence.
Qed.

(** *** Purging payloads *)
Lemma record_wf_erase r : record_wf (erase_payload r) ↔ record_wf r.
Proof. split; intros []; by split. Qed.

Lemma purged_field {A} (f : Record_ → A) r r' :
  (∀ r0, f (erase_payload r0) = f r0) → purged r r' → f r' = f r.
Proof. intros Hf Hp. rewrite <- (Hf r), <- (Hf r'). f_equal. apply (pg_core _ _ Hp). Qed.

Lemma purged_entry r r' : entry_ok r → purged r r' → entry_ok r'.
Proof.
  intros (Hw & Hs & []) Hp. pose proof Hp as [Hc Hres Hack]. split_and!.
  - apply record_wf_erase. rewrite Hc. by apply record_wf_erase.
  - unfold settled_wf in *.
    by rewrite (purged_field (λ r, op_status (rec_operation r)) r r'), (purged_field rec_events r r').
  - split.
    + destruct Hres as [[-> _]|[-> _]]; [done|]. done.
    + destruct Hack as [[-> _]|[-> _]]; [done|]. done.
    + by rewrite (purged_field (λ r, op_error (rec_operation r)) r r').
    + unfold live. by rewrite (purged_field rec_pending_module_name r r'),
        (purged_field (λ r, op_status (rec_operation r)) r r'),
        (purged_field (λ r, op_terminal_event (rec_operation r)) r r').
Qed.

Lemma tracked_bytes_insert records tracked id r r' :
  NoDup tracked → id ∈ tracked → records !! id = Some r →
  tracked_bytes (<[id := r']> records) tracked
  = tracked_bytes records tracked - rec_retained_terminal_payload_bytes r
    + rec_retained_terminal_payload_bytes r'.
Proof.
  intros Hnd Hin Hr.
  assert (Hother : ∀ l, id ∉ l → tracked_bytes (<[id := r']> records) l = tracked_bytes records l).
  { intros l Hni. apply tracked_bytes_ext. intros i Hi. rewrite lookup_insert_ne; [done|]. by intros ->. }
  induction Hnd as [|x l Hx Hnd IH]; [by apply elem_of_nil in Hin|]. simpl.
  destruct (decide (x = id)) as [->|Hne].
  - rewrite Hother, lookup_insert_eq, Hr by done. lia.
  - rewrite IH, lookup_insert_ne by (done || set_solver). lia.
Qed.

Definition purge_to (id : RuntimeOperationId) (r' : Record_) (bytes : Z) (g : Registry) : Registry :=
  g <| rg_records ::= <[id := r']> |>
    <| rg_retained_terminal_payload_bytes ::= λ b, saturating_sub b bytes |>.

Lemma purge_core id r r' bytes g :
  registry_core g → counted g → rg_records g !! id = Some r →
  is_terminal (op_status (rec_operation r)) = true → purged r r' →
  0 ≤ bytes → rec_retained_terminal_payload_bytes r' = rec_retained_terminal_payload_bytes r - bytes →
  retention_ok r' → stage g (purge_to id r' bytes g).
Proof.
  intros Hcore Hn Hr Ht Hp Hb Hret Hok. pose proof Hcore as [Hs Hj Hh].
  assert (Hst : op_status (rec_operation r') = op_status (rec_operation r))
    by (by apply (purged_field (λ r, op_status (rec_operation r)))).
  assert (Hcore' : registry_core (purge_to id r' bytes g)).
  { split; simpl.
    - eapply store_insert; [done..| | | |].
      + eapply purged_entry; [|done]. by apply (st_entries _ Hs id r Hr).
      + by apply (purged_field (λ r, op_operation_id (rec_operation r))).
      + eapply insert_same_claim; [by apply (st_unique _ Hs)|done|].
        by apply (purged_field claimed_correlation).
      + intros grp. by rewrite (purged_field (λ r, active_operation_in_exclusive_group r grp) r r').
    - eapply journals_insert; [done..|]. left. by apply (purged_field rec_pending_module_name).
    - eapply history_insert; [done..| |done]. by rewrite Hst. }
  assert (Hin : id ∈ rg_terminal_records g) by (apply (hs_tracked _ _ Hh); eauto).
  split; [done|]. split.
  - pose proof (tracked_bytes_nonneg _ (rg_terminal_records g) Hcore') as Hpos. simpl in Hpos.
    unfold counted in *. simpl.
    rewrite (tracked_bytes_insert _ _ _ r) in * by (done || by apply (hs_nodup _ _ Hh)).
    rewrite Hn. unfold saturating_sub. lia.
  - split; simpl; try done.
    + intros i ri Hl. rewrite lookup_insert_Some. split.
      * intros Hi. right. split; [|done]. intros <-. simplify_eq. unfold live in Hl. congruence.
      * intros [[<- <-]|[_ ?]]; [|done]. unfold live in Hl. congruence.
    + intros i ri [[<- <-]|[Hne Hi]]%lookup_insert_Some; eauto. by exists ri.
Qed.

(** The rounds left to the purge loop: one per retained result or
    acknowledgement. *)
Definition payloads (r : Record_) : nat :=
  (match op_result (rec_operation r) with Some _ => 1 | None => 0 end
   + match op_acknowledgement (rec_operation r) with Some _ => 1 | None => 0 end)%nat.

Definition payload_count (records : Records) (tracked : list RuntimeOperationId) : nat :=
  foldr (λ id acc, (match records !! id with Some r => payloads r | None => 0 end + acc)%nat)
    O tracked.

Lemma payload_count_bound records tracked :
  (payload_count records tracked ≤ 2 * length tracked)%nat.
Proof.
  induction tracked as [|id l IH]; simpl; [lia|].
  destruct (records !! id) as [r|]; [|lia]. unfold payloads.
  destruct (op_result _), (op_acknowledgement _); lia.
Qed.

Lemma payload_count_insert records tracked id r r' :
  records !! id = Some r → (payloads r' < payloads r)%nat →
  (payload_count (<[id := r']> records) tracked ≤ payload_count records tracked)%nat
  ∧ (id ∈ tracked →
     (payload_count (<[id := r']> records) tracked < payload_count records tracked)%nat).
Proof.
  intros Hr Hlt. induction tracked as [|x l [IH1 IH2]]; simpl.
  { split; [done|]. by intros ?%elem_of_nil. }
  destruct (decide (x = id)) as [->|Hne].
  - rewrite lookup_insert_eq, Hr. lia.
  - rewrite lookup_insert_ne by done. split; [lia|]. intros [?|Hin]%elem_of_cons; [done|].
    specialize (IH2 Hin). lia.
Qed.

Lemma wp_purge_oldest g :
  registry_core g → counted g →
  wp purge_oldest_terminal_payload (λ out g',
    (out = Ok false ∧ g' = g
     ∧ ∀ id r, id ∈ rg_terminal_records g → rg_records g !! id = Some r → has_payload r = false)
    ∨ (out = Ok true ∧ stage g g' ∧ rg_terminal_records g' = rg_terminal_records g
       ∧ (payload_count (rg_records g') (rg_terminal_records g)
          < payload_count (rg_records g) (rg_terminal_records g))%nat)) g.
Proof.
  intros Hc Hn. unfold purge_oldest_terminal_payload. wp_step. wp_step.
  destruct (List.find _ _) as [id|] eqn:Ef.
  2:{ wp_go. left. split; [done|]. split; [done|]. intros id r Hin Hr.
      apply list_elem_of_In in Hin. pose proof (find_none _ _ Ef id Hin) as Hp. simpl in Hp. by rewrite Hr in Hp. }
  apply find_some in Ef as [Hin Hp]. apply list_elem_of_In in Hin.
  destruct (rg_records g !! id) as [r|] eqn:Hr; [|done].
  assert (Ht : is_terminal (op_status (rec_operation r)) = true).
  { apply (hs_tracked _ _ (rc_history _ Hc)) in Hin as (r0 & Hr0 & ?). congruence. }
  pose proof (hs_retention _ _ (rc_history _ Hc) id r Hr) as Hret.
  unfold retention_ok in Hret. rewrite Ht in Hret. destruct Hret as (Hat & Hexp & Hb).
  pose proof serialized_value_bytes_nonneg as Hv. pose proof str_len_nonneg as Hl.
  assert (Hgo : ∀ bytes (r' : Record_), purged r r' → 0 ≤ bytes →
    rec_retained_terminal_payload_bytes r' = rec_retained_terminal_payload_bytes r - bytes →
    retention_ok r' → (payloads r' < payloads r)%nat →
    wp (put (purge_to id r' bytes g) ;; mret true) (λ out g',
      (out = Ok false ∧ g' = g
       ∧ ∀ id r, id ∈ rg_terminal_records g → rg_records g !! id = Some r → has_payload r = false)
      ∨ (out = Ok true ∧ stage g g' ∧ rg_terminal_records g' = rg_terminal_records g
         ∧ (payload_count (rg_records g') (rg_terminal_records g)
            < payload_count (rg_records g) (rg_terminal_records g))%nat)) g).
  { intros bytes r' Hpg Hb0 Hbe Hok Hlt. wp_go. right. split; [done|].
    split; [by apply (purge_core id r)|]. split; [done|]. simpl. by eapply payload_count_insert. }
  unfold has_payload in Hp. unfold payload_size in Hb.
  destruct (op_acknowledgement (rec_operation r)) as [a|] eqn:Ea.
  - specialize (Hv a) as Hva. apply Hgo; try done.
    + split; [by destruct r as [[]] | by left | by right].
    + simpl. rewrite Hb. unfold saturating_sub.
      destruct (op_result (rec_operation r)) as [v|], (op_error (rec_operation r)) as [e|];
        try specialize (Hv v); try specialize (Hl e); lia.
    + unfold retention_ok, payload_size. simpl. rewrite Ht. split_and!; try done.
      rewrite Hb. unfold saturating_sub.
      destruct (op_result (rec_operation r)) as [v|], (op_error (rec_operation r)) as [e|];
        try specialize (Hv v); try specialize (Hl e); lia.
    + unfold payloads. simpl. rewrite Ea. destruct (op_result (rec_operation r)); simpl; lia.
  - destruct (op_result (rec_operation r)) as [v|] eqn:Ev; [|done].
    specialize (Hv v). apply Hgo; try done.
    + split; [by destruct r as [[]] | by right | by left].
    + simpl. rewrite Hb. unfold saturating_sub.
      destruct (op_error (rec_operation r)) as [e|]; try specialize (Hl e); lia.
    + unfold retention_ok, payload_size. simpl. rewrite Ht, Ea. split_and!; try done.
      rewrite Hb. unfold saturating_sub.
      destruct (op_error (rec_operation r)) as [e|]; try specialize (Hl e); lia.
    + unfold payloads. simpl. rewrite Ea, Ev. simpl. lia.
Qed.

(** Without results and acknowledgements the history is far below its bound:
    the loop never has to give up. *)
Lemma bare_history_small g :
  registry_core g → zlen (rg_terminal_records g) ≤ MAX_RETAINED_TERMINAL_RECORDS →
  (∀ id r, id ∈ rg_terminal_records g → rg_records g !! id = Some r → has_payload r = false) →
  tracked_bytes (rg_records g) (rg_terminal_records g) ≤ MAX_RETAINED_TERMINAL_PAYLOAD_BYTES.
Proof.
  intros Hc Hlen Hno.
  assert (Hall : ∀ l, (∀ id, id ∈ l → id ∈ rg_terminal_records g) →
    tracked_bytes (rg_records g) l ≤ zlen l * MAX_INLINE_EVENT_PAYLOAD_BYTES).
  { induction l as [|id l IH]; intros Hl; simpl; [done|]. rewrite zlen_cons.
    specialize (IH ltac:(intros; apply Hl; by right)).
    destruct (rg_records g !! id) as [r|] eqn:Hr; [|unfold MAX_INLINE_EVENT_PAYLOAD_BYTES in *; lia].
    assert (Hin : id ∈ rg_terminal_records g) by (apply Hl; by left).
    pose proof (Hno id r Hin Hr) as Hp. unfold has_payload in Hp.
    apply (hs_tracked _ _ (rc_history _ Hc)) in Hin as (r0 & Hr0 & Ht). simplify_eq.
    pose proof (hs_retention _ _ (rc_history _ Hc) id r Hr) as Hret.
    unfold retention_ok in Hret. rewrite Ht in Hret. destruct Hret as (_ & _ & ->).
    unfold payload_size. destruct (op_result _), (op_acknowledgement _); try done.
    destruct (op_error (rec_operation r)) as [e|] eqn:Ee;
      [|unfold MAX_INLINE_EVENT_PAYLOAD_BYTES in *; lia].
    pose proof (pw_error _ (store_payload _ (rc_store _ Hc) id r Hr) e Ee).
    unfold MAX_INLINE_EVENT_PAYLOAD_BYTES in *. lia. }
  specialize (Hall (rg_terminal_records g) ltac:(done)).
  unfold MAX_INLINE_EVENT_PAYLOAD_BYTES, MAX_RETAINED_TERMINAL_PAYLOAD_BYTES,
    MAX_RETAINED_TERMINAL_RECORDS in *. lia.
Qed.

Lemma wp_purge_terminal_payloads n g :
  registry_core g → counted g →
  zlen (rg_terminal_records g) ≤ MAX_RETAINED_TERMINAL_RECORDS →
  (payload_count (rg_records g) (rg_terminal_records g) < n)%nat →
  wp (purge_terminal_payloads n) (λ out g', out = Ok () ∧ stage g g'
    ∧ rg_terminal_records g' = rg_terminal_records g
    ∧ rg_retained_terminal_payload_bytes g' ≤ MAX_RETAINED_TERMINAL_PAYLOAD_BYTES) g.
Proof.
  revert g. induction n as [|n IH]; intros g Hc Hn Hlen Hm; [lia|]. cbn [purge_terminal_payloads].
  wp_step. wp_step. case_if E; [apply Z.ltb_lt in E | apply Z.ltb_ge in E; wp_go; by split_and!].
  wp_step. eapply wp_mono; [by apply wp_purge_oldest|].
  intros out g1 [(-> & -> & Hno)|(-> & Hst & Ht & Hlt)].
  - exfalso. pose proof (bare_history_small g Hc Hlen Hno). unfold counted in Hn. lia.
  - pose proof Hst as (Hc1 & Hn1 & _). eapply wp_mono; [apply IH; try done|].
    + by rewrite Ht.
    + rewrite Ht. lia.
    + intros o g2 (-> & Hst2 & Ht2 & Hb). split_and!; try done; [by eapply stage_trans|congruence].
Qed.

(** *** The whole sweep *)
Lemma is_tracked_all g :
  registry_core g → List.filter (is_tracked g) (rg_terminal_records g) = rg_terminal_records g.
Proof.
  intros Hc. assert (Hall : ∀ id, id ∈ rg_terminal_records g → is_tracked g id = true).
  { intros id (r & Hr & Ht)%(hs_tracked _ _ (rc_history _ Hc)). unfold is_tracked. rewrite Hr, Ht.
    pose proof (hs_retention _ _ (rc_history _ Hc) id r Hr) as Hret. unfold retention_ok in Hret.
    rewrite Ht in Hret. by destruct Hret as [[? ->] _]. }
  induction (rg_terminal_records g) as [|id l IH]; simpl; [done|].
  rewrite Hall by (by left). f_equal. apply IH. intros. apply Hall. by right.
Qed.

Lemma sum_saturating_exact g total l :
  registry_core g → 0 ≤ total → total + tracked_bytes (rg_records g) l ≤ u64_max →
  foldl (λ total id, match rg_records g !! id with
                     | Some r => saturating_add total (rec_retained_terminal_payload_bytes r)
                     | None => total
                     end) total l
  = total + tracked_bytes (rg_records g) l.
Proof.
  intros Hc. revert total. induction l as [|id l IH]; intros total Hpos Hmax; simpl in *; [lia|].
  pose proof (tracked_bytes_nonneg g l Hc) as Hl.
  destruct (rg_records g !! id) as [r|] eqn:Hr; [|rewrite IH; lia].
  pose proof (retained_nonneg g id r Hc Hr).
  unfold saturating_add at 2. rewrite Z.min_l by lia. rewrite IH; lia.
Qed.

Definition fresh_history (now : Z) (monotonic_now : Instant) (g : Registry) : Prop :=
  ∀ id r, rg_records g !! id = Some r → is_terminal (op_status (rec_operation r)) = true →
    is_expired now monotonic_now r = false.

#[local] Opaque purge_terminal_payloads.
Lemma wp_sweep now monotonic_now g :
  registry_core g → tracked_bytes (rg_records g) (rg_terminal_records g) ≤ u64_max →
  wp (sweep_terminal_history now monotonic_now) (λ out g',
    out = Ok () ∧ registry_wf g' ∧ swept g g' ∧ fresh_history now monotonic_now g') g.
Proof.
  intros Hc Hmax. unfold sweep_terminal_history. wp_step. wp_step. wp_step. wp_step. wp_step. wp_step.
  simpl. rewrite (is_tracked_all g Hc), (sum_saturating_exact g 0) by (done || lia).
  match goal with |- wp _ _ ?g0 => set (g0_ := g0) end.
  assert (Hst0 : stage g g0_).
  { split_and!; [by destruct Hc; split; simpl; rewrite ?is_tracked_all | |].
    - unfold counted. simpl. rewrite is_tracked_all by done. lia.
    - split; simpl; try done; [intros; by eexists|]. by rewrite is_tracked_all. }
  pose proof Hst0 as (Hc0 & Hn0 & _). set (ids := List.filter _ _).
  assert (Hids : ∀ id, id ∈ ids ↔ id ∈ rg_terminal_records g0_
    ∧ match rg_records g0_ !! id with Some r => is_expired now monotonic_now r = true | None => False end).
  { intros id. subst ids. rewrite list_elem_of_In, filter_In, <- list_elem_of_In.
    subst g0_. simpl. rewrite (is_tracked_all g Hc).
    destruct (rg_records g !! id); [done|]. split; [by intros []| by intros []]. }
  wp_step. eapply wp_mono; [apply (wp_remove_records ids g0_); try done|].
  { apply (NoDup_filter_List _ _ (hs_nodup _ _ (rc_history _ Hc))). }
  { intros id Hid. by apply Hids in Hid as [? _]. }
  intros o g1 (-> & Hst1 & Hl1). pose proof Hst1 as (Hc1 & Hn1 & _). wp_step. wp_step.
  wp_step. eapply wp_mono; [by apply wp_evict_terminal_records|].
  intros o g2 (-> & Hst2 & Hlen2 & Hsub2). pose proof Hst2 as (Hc2 & Hn2 & _). wp_step. wp_step.
  eapply wp_mono; [apply wp_purge_terminal_payloads; try done|].
  { pose proof (payload_count_bound (rg_records g2) (rg_terminal_records g2)). lia. }
  intros o g3 (-> & Hst3 & Hlen3 & Hb3). pose proof Hst3 as (Hc3 & Hn3 & Hsw3).
  split; [done|]. split; [split; [done | by rewrite Hlen3 | done | done]|]. split.
  { eapply (stage_trans g g0_), stage_trans, stage_trans; done. }
  intros id r3 Hr3 Ht3. destruct (sw_old _ _ Hsw3 id r3 Hr3) as (r2 & Hr2%Hsub2 & Hp).
  replace (is_expired now monotonic_now r3) with (is_expired now monotonic_now r2)
    by (symmetry; by apply (purged_field (is_expired now monotonic_now))).
  rewrite Hl1 in Hr2. destruct (decide (id ∈ ids)) as [Hin|Hni];
    [by rewrite bool_decide_true in Hr2|]. rewrite bool_decide_false in Hr2 by done.
  rewrite Hids, Hr2 in Hni. apply not_true_is_false. intros Hex. apply Hni. split; [|done].
  apply (hs_tracked _ _ (rc_history _ Hc0)). exists r2. split; [done|].
  rewrite <- (purged_field (λ r, op_status (rec_operation r)) r2 r3); done.
Qed.
End sweep.
