(* ===== verification/RegistryMethods.v ===== *)
(** * The methods of the registry keep its invariant

    [insert], [transition], [ingest_module_event_with_settlement], the readers
    and [remove] of [record.rs], each as one step on a registry that satisfies
    [registry_wf]. *)

From S2P Require Import Prelude Json ModuleEvents OperationRecord Transition OperationViews.
From S2P Require Import RecordInvariants Registry RegistryInvariant RegistrySweep.

Section methods.
Context `{SerdeJson} {Request : Type}.
Abbreviation Record_ := (RuntimeOperationRecord Request).
Abbreviation Records := (gmap RuntimeOperationId (RuntimeOperationRecord Request)).
Abbreviation Registry := (RuntimeOperationRegistry Request).
Abbreviation Journals := (gmap string PendingModuleEventJournal).
Implicit Types r : RuntimeOperationRecord Request.
Implicit Types records : gmap RuntimeOperationId (RuntimeOperationRecord Request).
Implicit Types g : RuntimeOperationRegistry Request.
#[local] Opaque sweep_terminal_history apply_runtime_operation_transition
  apply_module_event_ingress apply_deferred_module_event push_runtime_operation_event_locked.

(** ** Lifting *)
Lemma wp_on_records {A} (m : M Records A) Q g :
  wp m (λ out records, Q out (g <| rg_records := records |>)) (rg_records g) →
  wp (on_records m) Q g.
Proof.
  intros Hm w. specialize (Hm w). unfold on_records.
  by destruct (m (rg_records g) w) as [[out records] w'].
Qed.

Lemma wp_with_local {S A} (m : M S A) local Q g :
  wp m (λ out local', match out with Ok _ => Q (Ok local') g | Err e => Q (Err e) g end) local →
  wp (with_local m local) Q g.
Proof.
  intros Hm w. specialize (Hm w). unfold with_local.
  by destruct (m local w) as [[[a|e] local'] w'].
Qed.

Lemma registry_eta g : g <| rg_records := rg_records g |> = g.
Proof. by destruct g. Qed.

(** ** Evolution and the history *)
Lemma evolves_terminal r r' :
  evolves r r' → is_terminal (op_status (rec_operation r)) = true →
  op_settlement (rec_operation r') = op_settlement (rec_operation r)
  ∧ is_terminal (op_status (rec_operation r')) = true.
Proof.
  intros [] Ht. specialize (evo_settled Ht). split; [done|].
  unfold op_settlement in evo_settled.
  by replace (op_status (rec_operation r')) with (op_status (rec_operation r)) by congruence.
Qed.

Lemma evolves_retention r r' :
  evolves r r' → retention_ok r →
  is_terminal (op_status (rec_operation r')) = is_terminal (op_status (rec_operation r)) →
  retention_ok r'.
Proof.
  intros Hev Hok Hs. pose proof (evo_retention _ _ Hev) as Hret. unfold retention_part in Hret.
  injection Hret as E1 E2 E3 _ _. unfold retention_ok in *. rewrite Hs, E1, E2, E3.
  destruct (is_terminal (op_status (rec_operation r))) eqn:Et; [|done].
  destruct (evolves_terminal _ _ Hev Et) as [Hset _]. unfold op_settlement in Hset.
  injection Hset as _ Hr He _ Ha _ _ _ _. unfold payload_size in *. by rewrite Hr, He, Ha.
Qed.

Lemma evolves_active r r' grp :
  evolves r r' → active_operation_in_exclusive_group r' grp = true →
  active_operation_in_exclusive_group r grp = true.
Proof.
  intros Hev. unfold active_operation_in_exclusive_group. rewrite !andb_true_iff, !negb_true_iff.
  pose proof (evo_static _ _ Hev) as Hst. unfold op_static in Hst.
  assert (Hg : op_exclusive_group (rec_operation r') = op_exclusive_group (rec_operation r)) by congruence.
  rewrite Hg. intros [? Hl]. split; [done|].
  destruct (is_terminal (op_status (rec_operation r))) eqn:Et; [|done].
  destruct (evolves_terminal _ _ Hev Et). congruence.
Qed.

Lemma replace_store records id r r' :
  store_wf records → records !! id = Some r → entry_ok r' → evolves r r' →
  correlations_unique (<[id := r']> records) → store_wf (<[id := r']> records).
Proof.
  intros Hs Hr Hok Hev Hu. eapply store_insert; try done.
  - by apply evolves_id.
  - intros grp. by apply evolves_active.
Qed.

(** ** The prologue *)
Lemma swept_bytes g : registry_wf g → tracked_bytes (rg_records g) (rg_terminal_records g) ≤ u64_max.
Proof.
  intros [_ _ <- Hb]. unfold MAX_RETAINED_TERMINAL_PAYLOAD_BYTES, u64_max in *. lia.
Qed.

(** The prologue fails only when the monotonic clock is about to overflow. *)
Lemma wp_begin g :
  registry_wf g →
  wp begin_method (λ out g', registry_wf g' ∧ swept g g' ∧ (is_ok out = false → g' = g)
    ∧ ∀ e, out = Err e → e = ["runtime operation terminal history expiry overflow"]) g.
Proof.
  intros Hg. unfold begin_method. wp_step. wp_step. wp_step. wp_step. wp_step. wp_step.
  unfold terminal_history_expiry, ok_or.
  destruct (instant_checked_add _ _) as [e|]; [|split_and!; try done; by intros ? [= <-]].
  wp_step. eapply wp_mono; [apply wp_sweep; [apply rw_core, Hg | by apply swept_bytes]|].
  intros o g' (-> & Hwf & Hsw & _). by wp_go.
Qed.

(** ** Tracking a settled operation *)
Definition tracked_record (now : Z) (expires : Instant) (r : Record_) : Record_ :=
  r <| rec_terminal_at := Some now |> <| rec_terminal_expires_at := Some expires |>
    <| rec_restart_request := None |>
    <| rec_retained_terminal_payload_bytes := retained_operation_payload_bytes (rec_operation r) |>.

Lemma tracked_record_entry now expires r : entry_ok r → entry_ok (tracked_record now expires r).
Proof. intros ([] & Hs & []). split; [by split|]. by split. Qed.

Lemma tracked_bytes_app records l id r :
  records !! id = Some r →
  tracked_bytes records (l ++ [id]) = tracked_bytes records l + rec_retained_terminal_payload_bytes r.
Proof. intros Hr. induction l as [|x l IH]; simpl; [rewrite Hr|]; lia. Qed.

(** The record [id] of [g0] has been replaced by [r']. *)
Record replaced_in (g0 : Registry) (id : RuntimeOperationId) (r r' : Record_) (g : Registry) : Prop := {
  ri_old : rg_records g0 !! id = Some r;
  ri_evolves : evolves r r';
  ri_records : rg_records g = <[id := r']> (rg_records g0);
  ri_tracked : rg_terminal_records g = rg_terminal_records g0;
  ri_store : store_wf (rg_records g);
  ri_journals : journals_wf (rg_records g) (rg_pending_module_events g);
  ri_notify : rg_retention_changed g = rg_retention_changed g0;
}.

Lemma replaced_core g0 id r r' g :
  registry_wf g0 → replaced_in g0 id r r' g →
  is_terminal (op_status (rec_operation r')) = is_terminal (op_status (rec_operation r)) →
  registry_core g ∧ tracked_bytes (rg_records g) (rg_terminal_records g) ≤ u64_max.
Proof.
  intros Hg [Hr Hev Hrec Htr Hs Hj _] Hsame. pose proof (rw_core _ Hg) as [_ _ Hh].
  split; [split; [done..|] |].
  - rewrite Hrec, Htr. eapply history_insert; [done..|].
    eapply evolves_retention; [done| |done]. by apply (hs_retention _ _ Hh id).
  - rewrite Hrec, Htr, (tracked_bytes_ext _ (rg_records g0)); [by apply swept_bytes|].
    intros i _. destruct (decide (i = id)) as [->|Hne]; [|by rewrite lookup_insert_ne].
    rewrite lookup_insert_eq, Hr. simpl. f_equal.
    pose proof (evo_retention _ _ Hev) as Hret. unfold retention_part in Hret. congruence.
Qed.

Lemma settled_core g0 id r r' g now expires :
  registry_wf g0 → replaced_in g0 id r r' g → live r →
  is_terminal (op_status (rec_operation r')) = true →
  let g' := g <| rg_records ::= <[id := tracked_record now expires r']> |>
              <| rg_retained_terminal_payload_bytes ::=
                   λ b, saturating_add b (retained_operation_payload_bytes (rec_operation r')) |>
              <| rg_terminal_records ::= λ l, l ++ [id] |> in
  registry_core g' ∧ tracked_bytes (rg_records g') (rg_terminal_records g') ≤ u64_max.
Proof.
  intros Hg [Hr Hev Hrec Htr Hs Hj _] Hl Ht. pose proof (rw_core _ Hg) as [_ _ Hh].
  assert (Hr' : rg_records g !! id = Some r') by (by rewrite Hrec, lookup_insert_eq).
  assert (Hok' : entry_ok r') by (by apply (st_entries _ Hs id r' Hr')).
  assert (Hni : id ∉ rg_terminal_records g0).
  { intros (r0 & Hr0 & Ht0)%(hs_tracked _ _ Hh). simplify_eq. unfold live in Hl. congruence. }
  assert (Hret : retention_ok (tracked_record now expires r')).
  { unfold retention_ok. simpl. rewrite Ht. split_and!; [by eexists..|].
    by apply retained_bytes_exact, Hok'. }
  split; [split|]; simpl.
  - eapply store_insert; try done; [by apply tracked_record_entry|].
    by eapply insert_same_claim; [apply (st_unique _ Hs)|..].
  - eapply journals_insert; [done..|]. by left.
  - rewrite Hrec, insert_insert_eq, Htr. destruct Hh as [Hn Htk Hre]. split.
    + apply NoDup_app. split; [done|]. split; [set_solver|]. apply NoDup_singleton.
    + intros i. rewrite elem_of_app, list_elem_of_singleton, Htk.
      destruct (decide (i = id)) as [->|Hne].
      * rewrite lookup_insert_eq. split; [|by right]. intros _. by eexists.
      * rewrite lookup_insert_ne by done. split; [by intros [?|?] | by left].
    + by apply map_Forall_insert_2.
  - rewrite Hrec, insert_insert_eq, Htr.
    erewrite tracked_bytes_app by apply lookup_insert_eq. simpl.
    rewrite retained_bytes_exact by apply Hok'.
    rewrite (tracked_bytes_ext _ (rg_records g0)).
    + pose proof (payload_size_bound r' ltac:(apply Hok')).
      pose proof (rw_exact _ Hg) as <-. pose proof (rw_bytes _ Hg).
      unfold MAX_RETAINED_TERMINAL_PAYLOAD_BYTES, u64_max, text_bound in *. lia.
    + intros i Hi. rewrite lookup_insert_ne; [done|]. by intros ->.
Qed.

(** How the record [r'] that replaced [r] is kept: as it is, or with the marks
    of a settled operation when it has just settled. *)
Definition retained_as (r r' r'' : Record_) : Prop :=
  if negb (is_terminal (op_status (rec_operation r))) && is_terminal (op_status (rec_operation r'))
  then ∃ now expires, r'' = tracked_record now expires r'
  else r'' = r'.

(** The registry once the replaced record has been tracked, if it settled. *)
Definition tracked_post (g0 : Registry) (id : RuntimeOperationId) (r r' : Record_) (g : Registry)
    (out : Result bool) (g' : Registry) : Prop :=
  registry_core g' ∧ tracked_bytes (rg_records g') (rg_terminal_records g') ≤ u64_max
  ∧ out = Ok (negb (is_terminal (op_status (rec_operation r)))
              && is_terminal (op_status (rec_operation r')))
  ∧ rg_pending_module_events g' = rg_pending_module_events g
  ∧ rg_retention_changed g' = rg_retention_changed g
  ∧ ∃ r'', rg_records g' = <[id := r'']> (rg_records g0)
           ∧ rec_operation r'' = rec_operation r' ∧ rec_events r'' = rec_events r'
           ∧ retained_as r r' r''.

Lemma wp_track g0 id r r' g now expires :
  registry_wf g0 → replaced_in g0 id r r' g →
  wp (track_newly_terminal_record id now expires) (tracked_post g0 id r r' g) g.
Proof.
  intros Hg Hri. pose proof Hri as [Hr Hev Hrec _ _ _ _].
  unfold track_newly_terminal_record, tracked_post. wp_step. wp_step. rewrite Hrec, lookup_insert_eq.
  pose proof (evo_retention _ _ Hev) as Hret. unfold retention_part in Hret.
  assert (Hat : rec_terminal_at r' = rec_terminal_at r) by congruence.
  pose proof (hs_retention _ _ (rc_history _ (rw_core _ Hg)) id r Hr) as Hok. unfold retention_ok in Hok.
  destruct (is_terminal (op_status (rec_operation r))) eqn:Et.
  - destruct (evolves_terminal _ _ Hev Et) as [_ Et']. rewrite Et', Hat.
    destruct Hok as [[t ->] _]. simpl. wp_go.
    destruct (replaced_core g0 id r r' g) as [Hc Hb]; [done..|congruence|].
    split_and!; try done. exists r'. unfold retained_as. by rewrite Et.
  - destruct Hok as [Hnone _]. rewrite Hat, Hnone, orb_false_r.
    destruct (is_terminal (op_status (rec_operation r'))) eqn:Et'; simpl; wp_go.
    + destruct (settled_core g0 id r r' g now expires) as [Hc Hb]; [done..|].
      split_and!; try done. exists (tracked_record now expires r'). simpl.
      rewrite Hrec, insert_insert_eq. split_and!; try done. unfold retained_as. rewrite Et, Et'. by exists now, expires.
    + destruct (replaced_core g0 id r r' g) as [Hc Hb]; [done..|congruence|].
      split_and!; try done. exists r'. unfold retained_as. by rewrite Et, Et'.
Qed.

Lemma registry_wf_notify g b : registry_wf g → registry_wf (g <| rg_retention_changed := b |>).
Proof. intros [[] ? ? ?]. by split. Qed.

(** The epilogue of a method that replaced one record: the other live
    operations are kept, the settled ones may only be forgotten or lose their
    payloads, the journals are [journals], and the retention task is woken when the
    operation has just settled. *)
Record finished (g0 : Registry) (id : RuntimeOperationId) (r r' : Record_) (journals : Journals) (g' : Registry)
    : Prop := {
  fi_wf : registry_wf g';
  fi_others : ∀ i ri, i ≠ id → live ri →
    rg_records g0 !! i = Some ri ↔ rg_records g' !! i = Some ri;
  fi_old : ∀ i ri', i ≠ id → rg_records g' !! i = Some ri' →
    ∃ ri, rg_records g0 !! i = Some ri ∧ purged ri ri';
  fi_live : live r' → rg_records g' !! id = Some r';
  fi_record : ∀ r2, rg_records g' !! id = Some r2 → ∃ r1, retained_as r r' r1 ∧ purged r1 r2;
  fi_settled : ∀ r2, rg_records g' !! id = Some r2 →
    op_status (rec_operation r2) = op_status (rec_operation r') ∧ rec_events r2 = rec_events r';
  fi_journals : rg_pending_module_events g' = journals;
  fi_notify : live r → is_terminal (op_status (rec_operation r')) = true →
    rg_retention_changed g' = true;
}.

Lemma wp_sweep_notify {A} g0 id r r' g g1 b now monotonic_now (a : A) :
  tracked_post g0 id r r' g (Ok b) g1 →
  wp (sweep_terminal_history now monotonic_now ;; notify_retention b ;; mret a)
     (λ out g', out = Ok a ∧ finished g0 id r r' (rg_pending_module_events g) g') g1.
Proof.
  intros (Hc & Hb & [= ->] & Hj & Hn & r1 & Hrec & Hop & Hevs & Hsame). wp_step.
  eapply wp_mono; [by apply wp_sweep|]. intros o g2 (-> & Hwf & Hsw & _).
  assert (Hfin : ∀ b, (live r → is_terminal (op_status (rec_operation r')) = true → b = true) →
    finished g0 id r r' (rg_pending_module_events g) (g2 <| rg_retention_changed := b |>)).
  { intros b Hb'. split; simpl.
    - by apply registry_wf_notify.
    - intros i ri Hne Hl. rewrite <- (sw_live _ _ Hsw i ri Hl), Hrec. by rewrite lookup_insert_ne.
    - intros i ri' Hne Hi. destruct (sw_old _ _ Hsw i ri' Hi) as (ri & Hri & Hp). exists ri.
      by rewrite Hrec, lookup_insert_ne in Hri.
    - intros Hl. apply (sw_live _ _ Hsw id r' Hl). unfold retained_as in Hsame. unfold live in Hl.
      rewrite Hl, andb_false_r in Hsame. rewrite Hrec, Hsame. apply lookup_insert_eq.
    - intros r2 Hr2. destruct (sw_old _ _ Hsw id r2 Hr2) as (r3 & Hr3 & Hp).
      rewrite Hrec, lookup_insert_eq in Hr3. simplify_eq. by exists r3.
    - intros r2 Hr2. destruct (sw_old _ _ Hsw id r2 Hr2) as (r3 & Hr3 & Hp).
      rewrite Hrec, lookup_insert_eq in Hr3. simplify_eq.
      rewrite (purged_field (λ r, op_status (rec_operation r)) r3 r2),
        (purged_field rec_events r3 r2) by done. by rewrite Hop.
    - by rewrite (sw_journals _ _ Hsw).
    - done. }
  unfold notify_retention, live in *. case_if E; wp_go; (split; [done|]).
  - by apply Hfin.
  - replace g2 with (g2 <| rg_retention_changed := rg_retention_changed g2 |>) by (by destruct g2).
    apply Hfin. intros Hl Ht. by rewrite Hl, Ht in E.
Qed.

Definition epilogue {A} (id : RuntimeOperationId) (now : Z) (monotonic_now expires : Instant) (a : A)
    : M Registry A :=
  changed ← track_newly_terminal_record id now expires;
  sweep_terminal_history now monotonic_now ;;
  notify_retention changed ;;
  mret a.

Lemma wp_epilogue {A} g0 id r r' g now monotonic_now expires (a : A) :
  registry_wf g0 → replaced_in g0 id r r' g →
  wp (epilogue id now monotonic_now expires a)
     (λ out g', out = Ok a ∧ finished g0 id r r' (rg_pending_module_events g) g') g.
Proof.
  intros Hg Hri. unfold epilogue. wp_step. eapply wp_mono; [by apply wp_track|].
  intros [b|e] g1 Ht; [by eapply wp_sweep_notify|]. by destruct Ht as (_ & _ & ? & _).
Qed.

(** ** Transitions on the store *)
Lemma wp_cancel_pending k r :
  rec_pending_module_name r = k →
  wp apply_cancel_requested (λ _ r', rec_pending_module_name r' = k) r.
Proof.
  intros <-. unfold apply_cancel_requested, set_operation. wp_step. wp_step.
  case_if E1; [|case_if E2; [|wp_step; wp_step]];
    (apply wp_keep_bind; [by apply wp_push_pending | intros; by wp_go]).
Qed.

(** Only a transition that settles or accepts an operation stops it from
    being a candidate for early module events. *)
Lemma wp_live_pending t r :
  transition_settles_pending_module t = false →
  wp (apply_live_transition t)
     (λ _ r', rec_pending_module_name r' = rec_pending_module_name r) r.
Proof.
  intros Ht. destruct t as [|b len|o|e| |e|e|e|e|e|e|e|e|e]; try discriminate Ht;
    cbn [apply_live_transition]; unfold set_operation.
  - apply wp_keep_bind; [by apply wp_push_pending | intros; by wp_go].
  - wp_step. wp_step. wp_step. wp_step.
    apply wp_keep_bind; [by apply wp_push_pending | intros; by wp_go].
  - by apply wp_cancel_pending.
  - wp_step. wp_step.
    apply wp_keep_bind; [case_if E; [by wp_go | by apply wp_cancel_pending]|].
    intros d r' Hk. wp_step. wp_step.
    apply wp_keep_bind; [by apply wp_push_pending | intros; by wp_go].
  - wp_step. wp_step. apply wp_keep_bind; [case_if E; by wp_go|].
    intros _ r' Hk. apply wp_keep_bind.
    { destruct (op_error (rec_operation r)); [by wp_go|].
      destruct (bounded_terminal_operation_error _). by wp_go. }
    intros _ r'' Hk'. apply wp_keep_bind; [by apply wp_push_pending | intros; by wp_go].
Qed.

Lemma wp_mutation_pending {A} (m : M Record_ A) r :
  wp m (λ _ r', rec_pending_module_name r' = rec_pending_module_name r) r →
  wp (apply_record_mutation m) (λ _ r', rec_pending_module_name r' = rec_pending_module_name r) r.
Proof. intros Hm. apply wp_record_mutation. eapply wp_mono; [exact Hm|]. by intros [] ?. Qed.

Lemma wp_reducer records id r t :
  store_wf records → records !! id = Some r → transition_ok t → transition_fits t →
  wp (apply_runtime_operation_transition id t) (λ out records',
    ∃ r', records' = <[id := r']> records ∧ replaces r out r' ∧ correlations_unique records'
      ∧ (transition_settles_pending_module t = false →
         rec_pending_module_name r' = rec_pending_module_name r)) records.
Proof.
  intros Hs Hr Ho Hf. assert (Hok : entry_ok r) by apply (st_entries _ Hs id r Hr).
  cut (wp (apply_runtime_operation_transition id t) (λ out records',
    ∃ r', records' = <[id := r']> records ∧ replaces r out r'
      ∧ (transition_settles_pending_module t = false →
         rec_pending_module_name r' = rec_pending_module_name r)) records).
  { intros Hcut. eapply wp_mono; [apply wp_and; [exact Hcut
      | apply (wp_transition_unique records id t), (st_unique _ Hs)]|].
    intros out records' [(r' & -> & ? & ?) Hu]. eauto. }
  apply wp_transition; [by rewrite Hr|..]; intros r0 Hr0; simplify_eq.
  - intros Ht. eapply wp_mono; [apply wp_and; [by apply wp_push_replaces | by apply wp_push_pending]|].
    intros out r' [(? & ? & ?) Hp]. exists r'. split; [done|]. split; [|done]. by destruct out.
  - intros Hl. destruct (wp_reducer_replaces t r Hok Hl Ho Hf) as [H1 H2]. split.
    + intros problem a Ht _. eapply wp_mono; [by apply (H2 problem a)|].
      intros out r' Hrep. exists r'. split; [done|]. split; [done|]. by rewrite Ht.
    + intros _. destruct (transition_settles_pending_module t) eqn:Es.
      * eapply wp_mono; [exact H1|]. intros out r' Hrep. by exists r'.
      * eapply wp_mono; [apply wp_and; [exact H1 | by apply wp_mutation_pending, wp_live_pending]|].
        intros out r' [Hrep Hp]. by exists r'.
Qed.

(** ** Replay of early module events *)
Section replay.
Context (records0 : Records) (id : RuntimeOperationId) (r0 : Record_) (module_name : string).
Context (Hr0 : records0 !! id = Some r0).

(** The replay touches the record [id] and the journal of its module. *)
Definition replay_state (g : Registry) (r : Record_) (journals : Journals) : Registry :=
  g <| rg_records := <[id := r]> records0 |> <| rg_pending_module_events := journals |>.

Definition replay_kept (r : Record_) : Prop :=
  entry_ok r ∧ evolves r0 r ∧ correlations_unique (<[id := r]> records0).

(** What is left of a journal: events it had, without [id] among their
    candidates. *)
Definition leftover (before after : list PendingModuleEvent) : Prop :=
  ∀ p, p ∈ after →
    ∃ p0, p0 ∈ before ∧ p = strip_candidate id p0 ∧ has_candidates p = true.

(** The replay of a journal to the operation [id]: an entry that does not name it
    stays; one that does is offered to its record and leaves the journal when it is
    taken, and else stays for its other candidates, if it has any. *)
Inductive replayed : Record_ → list PendingModuleEvent → Record_ → list PendingModuleEvent → Prop :=
  | replayed_end r : replayed r [] r []
  | replayed_other p pend r r' rest :
      id ∉ pe_candidate_operation_ids p → replayed r pend r' rest → replayed r (p :: pend) r' (p :: rest)
  | replayed_taken p pend r r1 r' rest :
      id ∈ pe_candidate_operation_ids p → may_run (apply_deferred_module_event (pe_event p)) r (Ok true) r1 →
      replayed r1 pend r' rest → replayed r (p :: pend) r' rest
  | replayed_refused p pend r r1 r' rest :
      id ∈ pe_candidate_operation_ids p → may_run (apply_deferred_module_event (pe_event p)) r (Ok false) r1 →
      replayed r1 pend r' rest →
      replayed r (p :: pend) r' (List.filter has_candidates [strip_candidate id p] ++ rest).

Definition replay_post (g : Registry) (r : Record_) (journals : Journals) (kept pend : list PendingModuleEvent)
    (out : Result ()) (g' : Registry) : Prop :=
  ∃ r' journals', g' = replay_state g r' journals' ∧ replay_kept r'
    ∧ (∀ m, m ≠ module_name → journals' !! m = journals !! m)
    ∧ (is_ok out = true → ∃ j' rest, journal_bounds j' ∧ replayed r pend r' rest ∧ jn_events j' = kept ++ rest
         ∧ journals' = if journal_is_empty j' then journals else <[module_name := j']> journals).

Lemma strip_candidate_absent p :
  id ∉ pe_candidate_operation_ids p → strip_candidate id p = p.
Proof using Type.
  intros Hni. destruct p as [ev ids b].
  change (mkPending ev (List.filter (λ c, negb (String.eqb c id)) ids) b = mkPending ev ids b).
  by rewrite drop_id_absent.
Qed.

Lemma replayed_leftover r pend r' rest :
  Forall (λ p, has_candidates p = true) pend → replayed r pend r' rest → leftover pend rest.
Proof using Type.
  intros Hh Hr.
  induction Hr as [|p pend r r' rest Hni _ IH|p pend r r1 r' rest Hid _ _ IH|p pend r r1 r' rest Hid _ _ IH];
    intros q Hq.
  - by apply elem_of_nil in Hq.
  - apply Forall_cons in Hh as [Hp Hh]. apply elem_of_cons in Hq as [->|Hq].
    + exists p. split; [by left|]. by rewrite strip_candidate_absent.
    + destruct (IH Hh q Hq) as (p0 & ? & ?). exists p0. split; [by right|done].
  - apply Forall_cons in Hh as [_ Hh]. destruct (IH Hh q Hq) as (p0 & ? & ?). exists p0. split; [by right|done].
  - apply Forall_cons in Hh as [_ Hh]. apply elem_of_app in Hq as [Hq|Hq].
    + apply list_elem_of_In, filter_In in Hq as [[<-|[]] Hq]. exists p. split; [by left|done].
    + destruct (IH Hh q Hq) as (p0 & ? & ?). exists p0. split; [by right|done].
Qed.

Lemma wp_replay_apply event g r journals :
  replay_kept r → event_fits event →
  wp (on_records (on_record id "pending runtime operation disappeared during replay"
        (apply_deferred_module_event event)))
     (λ out g', ∃ r', g' = replay_state g r' journals ∧ replay_kept r'
        ∧ may_run (apply_deferred_module_event event) r out r')
     (replay_state g r journals).
Proof using Hr0.
  intros (Hok & Hev & Hu) Hf. apply wp_on_records. simpl.
  eapply wp_on_record; [apply lookup_insert_eq|].
  eapply wp_mono; [apply wp_and; [apply wp_and; [by apply wp_deferred_replaces | apply wp_deferred_claim]|apply wp_may_run]|].
  intros out r' [[(Hok' & Hev' & _) Hk] Hruns]. rewrite insert_insert_eq. exists r'. split; [by destruct g|].
  split; [|done]. split_and!; [done|by etrans|]. rewrite <- (insert_insert_eq records0 id r' r).
  eapply insert_same_claim; [done|apply lookup_insert_eq|done].
Qed.

Lemma wp_replay_loop pend ret g r journals :
  replay_kept r → journal_bounds ret →
  Forall (λ p, 0 ≤ pe_event_bytes p ∧ event_fits (pe_event p)) pend →
  zlen (jn_events ret) + zlen pend ≤ MAX_PENDING_MODULE_EVENTS_PER_MODULE →
  jn_retained_bytes ret + sum_bytes pend ≤ MAX_PENDING_MODULE_EVENT_BYTES_PER_MODULE →
  wp (replay_loop module_name id pend ret) (replay_post g r journals (jn_events ret) pend)
     (replay_state g r journals).
Proof using Hr0.
  intros Hk Hb Hp. revert ret r Hk Hb.
  induction Hp as [|p pend (Hsz & Hf) Hp IH]; intros ret r Hk Hb Hcount Hbytes; simpl.
  { assert (Hpost : ∀ journals',
      journals' = (if journal_is_empty ret then journals else <[module_name := ret]> journals) →
      replay_post g r journals (jn_events ret) [] (Ok ()) (replay_state g r journals')).
    { intros js ->. eexists r, _. split; [done|]. split; [done|]. split.
      - intros m Hm. destruct (journal_is_empty ret); [done|]. by rewrite lookup_insert_ne.
      - intros _. exists ret, []. split_and!; [done|constructor|by rewrite app_nil_r|done]. }
    destruct (journal_is_empty ret); wp_go; by apply Hpost. }
  rewrite zlen_cons in Hcount. simpl in Hbytes. pose proof (zlen_nonneg pend).
  assert (Hsum : 0 ≤ sum_bytes pend).
  { apply sum_bytes_nonneg. eapply Forall_impl; [exact Hp|]. by intros ? (? & _). }
  (* the rest of the loop, after the entry has added [q] to what is kept *)
  assert (Hstep : ∀ q kept' r', jn_events ret ++ q = kept' →
    (∀ r2 rest, replayed r' pend r2 rest → replayed r (p :: pend) r2 (q ++ rest)) →
    ∀ out g', replay_post g r' journals kept' pend out g' →
      replay_post g r journals (jn_events ret) (p :: pend) out g').
  { intros q kept' r' <- Hq out g' (r2 & js & -> & Hk2 & Ho & Hout). exists r2, js. split_and!; [done..|].
    intros Hok. destruct (Hout Hok) as (j' & rest & ? & ? & Hj & ?). exists j', (q ++ rest).
    split_and!; try done; [by apply Hq|by rewrite Hj, <- app_assoc]. }
  assert (Hpush : ∀ q r', replay_kept r' → pe_event_bytes q = pe_event_bytes p →
    (∀ r2 rest, replayed r' pend r2 rest → replayed r (p :: pend) r2 ([q] ++ rest)) →
    wp (ret ← lift (push_back ret q); replay_loop module_name id pend ret)
       (replay_post g r journals (jn_events ret) (p :: pend)) (replay_state g r' journals)).
  { intros q r' Hk' Hq Hrel.
    destruct (push_back_fits ret q) as (ret' & -> & Hb' & He'); [done|lia..|]. wp_step. wp_step.
    destruct Hb' as [? Hex ? ?]. eapply wp_mono; [apply IH; [done|by split| |]|by apply (Hstep [q])].
    - rewrite He', zlen_app. unfold zlen at 2. simpl. lia.
    - rewrite Hex, He', sum_bytes_app. simpl. rewrite Hq, <- (jb_exact _ Hb). lia. }
  case_if Ec.
  { apply negb_true_iff, bool_decide_eq_false in Ec. apply Hpush; [done..|]. intros. by constructor. }
  apply negb_false_iff, bool_decide_eq_true in Ec.
  wp_step. wp_step. eapply wp_mono; [by apply wp_replay_apply|].
  intros out g1 (r1 & -> & Hk1 & Hruns). destruct out as [[]|e].
  - eapply wp_mono; [apply IH; [done..|lia|lia]|]. apply (Hstep []); [by rewrite app_nil_r|].
    intros r2 rest Hr. by apply (replayed_taken p pend r r1).
  - assert (Hrel : ∀ r2 rest, replayed r1 pend r2 rest →
      replayed r (p :: pend) r2 (List.filter has_candidates [strip_candidate id p] ++ rest))
      by (intros; by eapply replayed_refused).
    cbn [List.filter] in Hrel. case_if Eh; [by apply Hpush|].
    eapply wp_mono; [apply IH; [done..|lia|lia]|]. apply (Hstep []); [by rewrite app_nil_r|done].
  - wp_step. wp_step. destruct (push_back ret p ≫= _) as [ret'|e']; simpl; wp_go.
    + exists r1, (<[module_name := ret']> journals). split; [by destruct g|]. split; [done|].
      split; [|done]. intros m Hm. by rewrite lookup_insert_ne.
    + exists r1, journals. by split_and!.
Qed.

(** An operation is a candidate only in the journal of its own module. *)
Lemma candidate_module (journals : Journals) m j p :
  journals_wf records0 journals → rec_pending_module_name r0 = Some module_name →
  journals !! m = Some j → p ∈ jn_events j → id ∈ pe_candidate_operation_ids p → m = module_name.
Proof using Hr0.
  intros Hj Hpend Hm Hp Hid. destruct (Hj m j Hm) as (_ & _ & Hall).
  rewrite Forall_forall in Hall. destruct (Hall p Hp) as (_ & _ & _ & Hc).
  destruct (Hc id Hid) as (r & Hr & Hm'). congruence.
Qed.

(** What the replay does to the journals and the record: the journal of the
    module keeps what the replay leaves, no other journal changes. *)
Definition replay_effect (journals : Journals) (r r' : Record_) (journals' : Journals) : Prop :=
  ∃ rest, replayed r (default [] (jn_events <$> journals !! module_name)) r' rest
    ∧ (∀ m, m ≠ module_name → journals' !! m = journals !! m)
    ∧ match rest with
      | [] => journals' !! module_name = None
      | _ => ∃ j, journals' !! module_name = Some j ∧ jn_events j = rest
      end.

Definition replay_done (g : Registry) (r : Record_) (journals : Journals) (out : Result ()) (g' : Registry) : Prop :=
  ∃ r' journals', g' = replay_state g r' journals' ∧ replay_kept r'
    ∧ (∀ m, m ≠ module_name → journals' !! m = journals !! m)
    ∧ (is_ok out = true →
       replay_effect journals r r' journals' ∧
       journals_wf (<[id := r']> records0) journals'
       ∧ ∀ m j p, journals' !! m = Some j → p ∈ jn_events j → id ∉ pe_candidate_operation_ids p).

Lemma leftover_journals (journals : Journals) j j' r' :
  journals_wf records0 journals → rec_pending_module_name r0 = Some module_name →
  journals !! module_name = Some j → journal_bounds j' → leftover (jn_events j) (jn_events j') →
  let journals' := if journal_is_empty j' then delete module_name journals
                   else <[module_name := j']> (delete module_name journals) in
  journals_wf (<[id := r']> records0) journals'
  ∧ ∀ m i p, journals' !! m = Some i → p ∈ jn_events i → id ∉ pe_candidate_operation_ids p.
Proof using Hr0.
  intros Hj Hpend Hm Hb Hleft.
  assert (Hnew : ∀ m i, (if journal_is_empty j' then delete module_name journals
             else <[module_name := j']> (delete module_name journals)) !! m = Some i →
    (m = module_name ∧ i = j' ∧ jn_events j' ≠ []) ∨ (m ≠ module_name ∧ journals !! m = Some i)).
  { intros m i. unfold journal_is_empty. destruct (jn_events j') eqn:Ee.
    - intros [? ?]%lookup_delete_Some. right. by split.
    - intros [[<- <-]|[Hne [? ?]%lookup_delete_Some]]%lookup_insert_Some; [by left|right; by split]. }
  assert (Hno : ∀ m i p, (if journal_is_empty j' then delete module_name journals
             else <[module_name := j']> (delete module_name journals)) !! m = Some i →
    p ∈ jn_events i → id ∉ pe_candidate_operation_ids p).
  { intros m i p [(-> & -> & _)|[Hne Hi]]%Hnew Hp Hid.
    - destruct (Hleft p Hp) as (p0 & _ & -> & _). by apply strip_candidate_ids in Hid as [_ ?].
    - by destruct Hne; eapply candidate_module. }
  split; [|exact Hno].
  eapply journals_insert; [|exact Hr0|by right].
  intros m i [(-> & -> & Hne)|[Hne Hi]]%Hnew; [|by apply Hj].
  split_and!; [done..|]. apply Forall_forall. intros p Hp.
  destruct (Hleft p Hp) as (p0 & Hp0 & -> & Hh).
  destruct (Hj _ _ Hm) as (_ & _ & Hall). rewrite Forall_forall in Hall.
  destruct (Hall p0 Hp0) as (? & ? & _ & Hc). split_and!; try done.
  intros x [Hx _]%strip_candidate_ids. by apply Hc.
Qed.

Lemma wp_replay g r journals :
  journals_wf records0 journals → rec_pending_module_name r0 = Some module_name → replay_kept r →
  wp (replay_pending_module_events module_name id) (replay_done g r journals)
     (replay_state g r journals).
Proof using Hr0.
  intros Hj Hpend Hk. unfold replay_pending_module_events. wp_step. wp_step. wp_step. wp_step. simpl.
  rewrite lookup_insert_eq.
  destruct (ensure_record_event_cursor_capacity _ _) as [[]|e]; [|by exists r, journals].
  destruct (journals !! module_name) as [j|] eqn:Hm; [|wp_go].
  - wp_step. wp_step. wp_step. wp_step. simpl.
    destruct (Hj _ _ Hm) as (Hb & _ & Hall).
    assert (Hev : Forall (λ p, has_candidates p = true) (jn_events j)
      ∧ Forall (λ p, 0 ≤ pe_event_bytes p ∧ event_fits (pe_event p)) (jn_events j)).
    { rewrite Forall_forall in Hall. pose proof (jb_sizes _ Hb) as Hs. rewrite Forall_forall in Hs.
      split; apply Forall_forall; intros p Hp; destruct (Hall p Hp) as (_ & ? & ? & _); auto. }
    destruct Hev as [Hcand Hfits]. eapply wp_mono.
    { apply (wp_replay_loop (jn_events j) journal_default g r (delete module_name journals));
        [done|apply journal_default_bounds|done| |].
      - pose proof (jb_count _ Hb). simpl. unfold zlen at 1. simpl. lia.
      - pose proof (jb_exact _ Hb). pose proof (jb_bytes _ Hb). simpl. lia. }
    intros out g' (r' & journals' & -> & Hk' & Hother & Hout). exists r', journals'.
    assert (Ho : ∀ m, m ≠ module_name → journals' !! m = journals !! m).
    { intros m Hne. rewrite (Hother m Hne). by rewrite lookup_delete_ne. }
    split_and!; [done..|]. intros Hok. destruct (Hout Hok) as (j' & rest & Hb' & Hrep & Hj' & ->). simpl in Hj'.
    split; [|eapply leftover_journals; try done; rewrite Hj'; by eapply replayed_leftover].
    exists rest. rewrite Hm. split_and!; [done..|]. unfold journal_is_empty. rewrite Hj'.
    destruct rest; [apply lookup_delete_eq|]. exists j'. by rewrite lookup_insert_eq.
  - exists r, journals. split_and!; try done. intros _.
    assert (Hno : ∀ m j p, journals !! m = Some j → p ∈ jn_events j →
      id ∉ pe_candidate_operation_ids p).
    { intros m j p Hmj Hp Hid. assert (m = module_name) by (by eapply candidate_module). congruence. }
    split; [exists []; rewrite Hm; split_and!; [constructor|done|done]|].
    split; [|exact Hno]. eapply journals_insert; [done|exact Hr0|by right].
Qed.
End replay.

(** ** [transition] *)
(** The module whose early events the transition replays. *)
Definition replay_module (r : Record_) (t : RuntimeOperationTransition) : option string :=
  if negb (is_terminal (op_status (rec_operation r))) && transition_settles_pending_module t
  then rec_pending_module_name r else None.

(** The record and the journals a successful transition leaves: the reducer's
    record, and after it the replay of the module's journal, if there is one to
    replay. *)
Definition transition_effect (g1 : Registry) (id : RuntimeOperationId) (t : RuntimeOperationTransition)
    (d : TransitionDisposition) (r r' : Record_) (journals : Journals) : Prop :=
  ∃ r1, may_run (apply_runtime_operation_transition id t) (rg_records g1) (Ok d) (<[id := r1]> (rg_records g1))
    ∧ match replay_module r t with
      | Some module_name => replay_effect id module_name (rg_pending_module_events g1) r1 r' journals
      | None => r' = r1 ∧ journals = rg_pending_module_events g1
      end.

(** The outcome of the method on [g], where [P] is what the body is known to
    ensure of the record it leaves. *)
Definition transition_post (P : Record_ → Prop) (g : Registry) (id : RuntimeOperationId)
    (t : RuntimeOperationTransition) (out : Result TransitionDisposition) (g' : Registry) : Prop :=
  ∃ g1, registry_wf g1 ∧ swept g g1
    ∧ match out with
      | Err _ => g' = g1
      | Ok d =>
          (rg_records g1 !! id = None ∧ g' = g1 ∧ d = EvidenceOnly)
          ∨ ∃ r r' journals, rg_records g1 !! id = Some r ∧ evolves r r' ∧ P r'
              ∧ finished g1 id r r' journals g'
              ∧ (transition_settles_pending_module t = true →
                 ∀ m j p, rg_pending_module_events g' !! m = Some j → p ∈ jn_events j →
                   id ∉ pe_candidate_operation_ids p)
              ∧ transition_effect g1 id t d r r' journals
      end.

(** An operation that waits for no module is a candidate nowhere. *)
Lemma unpending_not_candidate g id r m j p :
  registry_core g → rg_records g !! id = Some r → rec_pending_module_name r = None →
  rg_pending_module_events g !! m = Some j → p ∈ jn_events j → id ∉ pe_candidate_operation_ids p.
Proof.
  intros [_ Hj _] Hr Hp Hm Hin Hid. destruct (Hj m j Hm) as (_ & _ & Hall).
  rewrite Forall_forall in Hall. destruct (Hall p Hin) as (_ & _ & _ & Hc).
  destruct (Hc id Hid) as (r2 & ? & ?). congruence.
Qed.

(** The body of [transition] once the prologue is over: the reducer, and the
    replay when the operation stops waiting for its module. *)
Definition transition_body (id : RuntimeOperationId) (t : RuntimeOperationTransition)
    (replay : option string) : M Registry TransitionDisposition :=
  disposition ← on_records (apply_runtime_operation_transition id t);
  (match replay with
   | Some module_name => replay_pending_module_events module_name id
   | None => mret ()
   end) ;;
  mret disposition.

Lemma wp_transition_plain g id r t :
  registry_core g → rg_records g !! id = Some r → transition_ok t → transition_fits t →
  (rec_pending_module_name r = None ∨ transition_settles_pending_module t = false) →
  wp (transition_body id t None) (λ out g', match out with
    | Err _ => g' = g
    | Ok d => ∃ r', replaced_in g id r r' g'
                ∧ rg_pending_module_events g' = rg_pending_module_events g
                ∧ may_run (apply_runtime_operation_transition id t) (rg_records g) (Ok d) (<[id := r']> (rg_records g))
    end) g.
Proof.
  intros Hc Hr Ho Hf Hcase. pose proof Hc as [Hs Hj _]. unfold transition_body. wp_step.
  apply wp_on_records.
  eapply wp_mono; [apply wp_and; [by apply (wp_reducer (rg_records g) id r t)|apply wp_may_run]|].
  intros out records' [(r' & -> & (Hok & Hev & Hsame) & Hu & Hp) Hruns].
  destruct out as [d|e]; wp_go; [|rewrite Hsame, insert_id by done; apply registry_eta].
  exists r'. split; [|done]. split; simpl; try done; [by eapply replace_store|].
  eapply journals_insert; [done..|].
  destruct Hcase as [Hnone|Hns]; [right; intros; by eapply unpending_not_candidate | left; by apply Hp].
Qed.

Lemma wp_transition_replay g id r t module_name :
  registry_core g → rg_records g !! id = Some r → transition_ok t → transition_fits t →
  rec_pending_module_name r = Some module_name →
  wp (transition_body id t (Some module_name)) (λ out g', ∃ r' journals',
    g' = replay_state (rg_records g) id g r' journals'
    ∧ (∀ m, m ≠ module_name → journals' !! m = rg_pending_module_events g !! m)
    ∧ (∀ d, out = Ok d → replaced_in g id r r' g'
       ∧ (∀ m j p, journals' !! m = Some j → p ∈ jn_events j → id ∉ pe_candidate_operation_ids p)
       ∧ ∃ r1, may_run (apply_runtime_operation_transition id t) (rg_records g) (Ok d) (<[id := r1]> (rg_records g))
           ∧ replay_effect id module_name (rg_pending_module_events g) r1 r' journals')) g.
Proof.
  intros Hc Hr Ho Hf Hpend. pose proof Hc as [Hs Hj _]. unfold transition_body. wp_step.
  apply wp_on_records.
  eapply wp_mono; [apply wp_and; [by apply (wp_reducer (rg_records g) id r t)|apply wp_may_run]|].
  intros out records' [(r1 & -> & (Hok & Hev & _) & Hu & _) Hruns].
  assert (Hg : g <| rg_records := <[id := r1]> (rg_records g) |>
               = replay_state (rg_records g) id g r1 (rg_pending_module_events g)) by (by destruct g).
  rewrite Hg. destruct out as [d|e]; [|by eexists r1, _].
  wp_step. eapply wp_mono; [by apply (wp_replay (rg_records g) id r module_name Hr)|].
  intros out g' (r' & journals' & -> & (Hok' & Hev' & Hu') & Hother & Hjs).
  destruct out as [[]|e]; wp_go; exists r', journals'; (split; [done|]); (split; [done|]); [|done].
  intros d' [= <-]. destruct (Hjs eq_refl) as (Heff & Hwf & Hno).
  split; [|split; [exact Hno|by exists r1]]. split; simpl; try done. by eapply replace_store.
Qed.

(** The rollback restores the record and the journal of its module. *)
Lemma replay_rollback g id r r' module_name (journals' : Journals) :
  rg_records g !! id = Some r →
  (∀ m, m ≠ module_name → journals' !! m = rg_pending_module_events g !! m) →
  (replay_state (rg_records g) id g r' journals')
    <| rg_records ::= <[id := r]> |>
    <| rg_pending_module_events ::= λ journals,
         match rg_pending_module_events g !! module_name with
         | Some previous => <[module_name := previous]> journals
         | None => delete module_name journals
         end |> = g.
Proof.
  intros Hr Hother. destruct g as [recs pend term bytes nt]. simpl in *.
  change (mkRegistry (<[id := r]> (<[id := r']> recs))
    (match pend !! module_name with
     | Some previous => <[module_name := previous]> journals'
     | None => delete module_name journals'
     end) term bytes nt = mkRegistry recs pend term bytes nt).
  f_equal; [by rewrite insert_insert_eq, insert_id|].
  apply map_eq. intros m. destruct (decide (m = module_name)) as [->|Hne].
  - destruct (pend !! module_name) eqn:E; [apply lookup_insert_eq | apply lookup_delete_eq].
  - destruct (pend !! module_name); rewrite ?lookup_insert_ne, ?lookup_delete_ne by done; by apply Hother.
Qed.

(** What the body leaves, with or without a replay. *)
Lemma wp_transition_body g id r t :
  registry_core g → rg_records g !! id = Some r → transition_ok t → transition_fits t →
  wp (transition_body id t (replay_module r t)) (λ out g',
    match out with
    | Ok d => ∃ r', replaced_in g id r r' g'
        ∧ (transition_settles_pending_module t = true →
           ∀ m j p, rg_pending_module_events g' !! m = Some j → p ∈ jn_events j →
             id ∉ pe_candidate_operation_ids p)
        ∧ transition_effect g id t d r r' (rg_pending_module_events g')
    | Err _ =>
        match replay_module r t with
        | None => g' = g
        | Some module_name => ∃ r' journals',
            g' = replay_state (rg_records g) id g r' journals'
            ∧ ∀ m, m ≠ module_name → journals' !! m = rg_pending_module_events g !! m
        end
    end) g.
Proof.
  intros Hc Hr Ho Hf. unfold transition_effect.
  destruct (replay_module r t) as [module_name|] eqn:Erep; unfold replay_module in Erep.
  - assert (Hp : rec_pending_module_name r = Some module_name)
      by (by destruct (is_terminal _), (transition_settles_pending_module t)).
    eapply wp_mono; [by apply (wp_transition_replay g id r t module_name)|].
    intros out gm (r' & journals' & -> & Hother & Hok). destruct out as [d|e]; [|eauto].
    destruct (Hok d eq_refl) as (Hri & Hno & Heff). exists r'. split_and!; [done|by intros _|done].
  - assert (Hcase : rec_pending_module_name r = None ∨ transition_settles_pending_module t = false).
    { destruct (rec_pending_module_name r) eqn:Ep; [|by left]. right.
      destruct (pw_pending r) as [Hl _].
      { by apply (store_payload _ (rc_store _ Hc) id r). }
      { by rewrite Ep. }
      unfold live in Hl. rewrite Hl in Erep. simpl in Erep.
      by destruct (transition_settles_pending_module t). }
    eapply wp_mono; [by apply (wp_transition_plain g id r t)|].
    intros [d|e] gm Hgm; [|done]. destruct Hgm as (r' & Hri & Hj & Hruns). exists r'. split; [done|].
    split; [|by exists r']. intros Hset m j p. rewrite Hj. destruct Hcase as [Hnone|?]; [|congruence].
    by eapply unpending_not_candidate.
Qed.

#[local] Opaque track_newly_terminal_record replay_pending_module_events.

(** [transition] runs this body, keeps the registry when it fails and settles
    the operation when it succeeds. *)
Lemma wp_registry_transition_answer (P : TransitionDisposition → Record_ → Prop) g id t :
  registry_wf g → transition_ok t → transition_fits t →
  (∀ g1 r, registry_wf g1 → swept g g1 → rg_records g1 !! id = Some r →
     wp (transition_body id t (replay_module r t))
        (λ out gm, ∀ d, out = Ok d → ∀ r', rg_records gm !! id = Some r' → P d r') g1) →
  wp (transition id t) (λ out g', match out with
    | Ok d => transition_post (P d) g id t (Ok d) g'
    | Err e => transition_post (λ _, True) g id t (Err e) g'
    end) g.
Proof.
  intros Hg Ho Hf HP. unfold transition. wp_step. eapply wp_mono; [by apply wp_begin|].
  intros [[[now mono] expires]|e] g1 (Hg1 & Hsw & Herr & _); [|rewrite Herr by done; by exists g].
  wp_step. wp_step. destruct (rg_records g1 !! id) as [r|] eqn:Hr.
  2:{ apply wp_on_records, wp_transition; rewrite Hr; try done. intros _. exists g1.
      rewrite registry_eta. split_and!; try done. by left. }
  wp_step. wp_step. destruct (ensure_record_event_cursor_capacity _ _) as [[]|e]; [|by exists g1].
  assert (Hbody := wp_and _ _ _ _ (wp_transition_body g1 id r t (rw_core _ Hg1) Hr Ho Hf)
                     (HP g1 r Hg1 Hsw Hr)).
  assert (Hdone : ∀ r' gm (d : TransitionDisposition), replaced_in g1 id r r' gm → P d r' →
    (transition_settles_pending_module t = true →
     ∀ m j p, rg_pending_module_events gm !! m = Some j → p ∈ jn_events j →
       id ∉ pe_candidate_operation_ids p) →
    transition_effect g1 id t d r r' (rg_pending_module_events gm) →
    wp (epilogue id now mono expires d) (λ out g', match out with
      | Ok d => transition_post (P d) g id t (Ok d) g'
      | Err e => transition_post (λ _, True) g id t (Err e) g'
      end) gm).
  { intros r' gm d Hri HPr Hno Heff. eapply wp_mono; [by apply (wp_epilogue g1 id r r')|].
    intros out g2 (-> & Hfin). exists g1. split_and!; try done. right. exists r, r', (rg_pending_module_events gm).
    split_and!; try done; [apply (ri_evolves _ _ _ _ _ Hri)|].
    intros Hset. rewrite (fi_journals _ _ _ _ _ _ Hfin). by apply Hno. }
  assert (Hok : ∀ gm (d : TransitionDisposition),
    (∃ r', replaced_in g1 id r r' gm
      ∧ (transition_settles_pending_module t = true →
         ∀ m j p, rg_pending_module_events gm !! m = Some j → p ∈ jn_events j →
           id ∉ pe_candidate_operation_ids p)
      ∧ transition_effect g1 id t d r r' (rg_pending_module_events gm)) ∧
    (∀ d', Ok d = Ok d' → ∀ r', rg_records gm !! id = Some r' → P d' r') →
    wp (epilogue id now mono expires d) (λ out g', match out with
      | Ok d => transition_post (P d) g id t (Ok d) g'
      | Err e => transition_post (λ _, True) g id t (Err e) g'
      end) gm).
  { intros gm d [(r' & Hri & Hno & Heff) HPr]. apply (Hdone r'); [done| |done|done]. apply HPr; [done|].
    by rewrite (ri_records _ _ _ _ _ Hri), lookup_insert_eq. }
  unfold replay_module in Hbody. wp_step. wp_step.
  destruct (is_terminal (op_status (rec_operation r))), (rec_pending_module_name r) as [module_name|],
    (transition_settles_pending_module t) eqn:Eset; cbn [negb andb] in *;
    try rewrite bool_decide_true by done; try rewrite bool_decide_false by (by intros [? ?]);
    cbn [negb andb] in *;
    (eapply wp_mono; [exact Hbody|]); intros [d|e] gm Hgm; try (by apply Hok);
    destruct Hgm as [Hgm _]; wp_go; exists g1; split_and!; try done.
  destruct Hgm as (r' & journals' & -> & Hother).
  by apply (replay_rollback g1 id r r' module_name journals').
Qed.

Lemma wp_registry_transition (P : Record_ → Prop) g id t :
  registry_wf g → transition_ok t → transition_fits t →
  (∀ g1 r, registry_wf g1 → swept g g1 → rg_records g1 !! id = Some r →
     wp (transition_body id t (replay_module r t))
        (λ out gm, is_ok out = true → ∀ r', rg_records gm !! id = Some r' → P r') g1) →
  wp (transition id t) (transition_post P g id t) g.
Proof.
  intros Hg Ho Hf HP. eapply wp_mono; [apply (wp_registry_transition_answer (λ _, P)); try done|].
  - intros g1 r Hg1 Hsw Hr. eapply wp_mono; [by apply HP|]. intros out gm Hk d ->. by apply Hk.
  - by intros [d|e] g'.
Qed.

(** ** Deferring an early module event *)

(** The records of the second map are those of the first with more evidence
    in their logs. *)
Definition logged (r r' : Record_) : Prop := entry_ok r' ∧ evolves r r' ∧ same_core r r'.
Definition logged_map (records records' : Records) : Prop :=
  (∀ i r, records !! i = Some r → ∃ r', records' !! i = Some r' ∧ logged r r')
  ∧ (∀ i r', records' !! i = Some r' → ∃ r, records !! i = Some r ∧ logged r r').

Lemma logged_trans r1 r2 r3 : logged r1 r2 → logged r2 r3 → logged r1 r3.
Proof. intros (_ & E1 & C1) (? & E2 & C2). split_and!; [done|by etrans|by etrans]. Qed.

Lemma logged_map_refl records : map_Forall (λ _, entry_ok) records → logged_map records records.
Proof.
  intros Hok. split; intros i r Hr; exists r; (split; [done|]);
    (split; [by apply (Hok i r Hr)|]); by split.
Qed.

Lemma logged_map_trans m1 m2 m3 : logged_map m1 m2 → logged_map m2 m3 → logged_map m1 m3.
Proof.
  intros [F1 B1] [F2 B2]. split; intros i r Hr.
  - destruct (F1 _ _ Hr) as (r2 & Hr2 & ?). destruct (F2 _ _ Hr2) as (r3 & ? & ?).
    exists r3. split; [done|]. by eapply logged_trans.
  - destruct (B2 _ _ Hr) as (r2 & Hr2 & ?). destruct (B1 _ _ Hr2) as (r1 & ? & ?).
    exists r1. split; [done|]. by eapply logged_trans.
Qed.

Lemma logged_map_entries records records' :
  logged_map records records' → map_Forall (λ _, entry_ok) records'.
Proof. intros [_ B] i r' Hr'. by destruct (B i r' Hr') as (r & _ & ? & _). Qed.

Lemma wp_log_evidence id missing phase message res err records :
  map_Forall (λ _, entry_ok) records → runtime_operation_event_class phase = ClassEvidence →
  wp (on_record id missing (push_runtime_operation_event_locked phase message None res err))
     (λ _ records', logged_map records records') records.
Proof.
  intros Hok Hc. destruct (records !! id) as [r|] eqn:Hr.
  2:{ intros w. unfold on_record. rewrite Hr. by apply logged_map_refl. }
  eapply wp_on_record; [done|].
  eapply wp_mono; [apply wp_and; [apply wp_push_replaces; [by apply (Hok id r) | done] | apply push_frame]|].
  intros out r' [(Hok' & Hev & _) [Hcore _]].
  assert (Hl : logged r r') by (by split_and!).
  split; intros i ri Hi.
  - destruct (decide (i = id)) as [->|Hne].
    + simplify_eq. exists r'. by rewrite lookup_insert_eq.
    + exists ri. rewrite lookup_insert_ne by done. split; [done|].
      split_and!; [by apply (Hok i ri)|done|done].
  - apply lookup_insert_Some in Hi as [[<- <-]|[Hne Hi]]; [by exists r|].
    exists ri. split; [done|]. split_and!; [by apply (Hok i ri)|done|done].
Qed.

Lemma wp_logged_bind {A B} (m : M Records A) (k : A → M Records B) records :
  wp m (λ _ records', logged_map records records') records →
  (∀ a records', map_Forall (λ _, entry_ok) records' →
     wp (k a) (λ _ records'', logged_map records' records'') records') →
  wp (m ≫= k) (λ _ records', logged_map records records') records.
Proof.
  intros Hm Hk. apply wp_bind. eapply wp_mono; [exact Hm|]. intros [a|e] records' Hl; [|done].
  eapply wp_mono; [by eapply Hk, logged_map_entries|]. intros out r2 Hl2. by eapply logged_map_trans.
Qed.

Lemma wp_overflow_evidence event ids records :
  map_Forall (λ _, entry_ok) records →
  wp (push_overflow_evidence event ids) (λ _ records', logged_map records records') records.
Proof.
  revert records. induction ids as [|id ids IH]; intros records Hok; simpl.
  - wp_go. by apply logged_map_refl.
  - apply wp_logged_bind; [|intros; by apply IH]. unfold on_staged_record. wp_step. wp_step.
    destruct (records !! id); [by apply wp_log_evidence | wp_go; by apply logged_map_refl].
Qed.

Lemma wp_all_overflow_evidence evicted records :
  map_Forall (λ _, entry_ok) records →
  wp (push_all_overflow_evidence evicted) (λ _ records', logged_map records records') records.
Proof.
  revert records. induction evicted as [|p evicted IH]; intros records Hok; simpl.
  - wp_go. by apply logged_map_refl.
  - apply wp_logged_bind; [by apply wp_overflow_evidence | intros; by apply IH].
Qed.

Lemma wp_deferred_evidence event ids records :
  map_Forall (λ _, entry_ok) records →
  wp (push_deferred_evidence event ids) (λ _ records', logged_map records records') records.
Proof.
  revert records. induction ids as [|id ids IH]; intros records Hok; simpl.
  - wp_go. by apply logged_map_refl.
  - apply wp_logged_bind; [by apply wp_log_evidence | intros; by apply IH].
Qed.

Lemma logged_union records staged' (P : RuntimeOperationId * Record_ → Prop) `{!∀ x, Decision (P x)} :
  map_Forall (λ _, entry_ok) records → logged_map (filter P records) staged' →
  logged_map records (staged' ∪ records).
Proof.
  intros Hok [F B]. split; intros i r Hr.
  - destruct (staged' !! i) as [r'|] eqn:Hs.
    + destruct (B i r' Hs) as (r0 & [Hr0 _]%map_lookup_filter_Some & Hl). simplify_eq.
      exists r'. split; [|done]. by apply lookup_union_Some_l.
    + exists r. rewrite lookup_union_r by done. split; [done|].
      split_and!; [by apply (Hok i r)|done|done].
  - destruct (staged' !! i) as [r'|] eqn:Hs.
    + rewrite (lookup_union_Some_l _ _ _ _ Hs) in Hr. simplify_eq.
      destruct (B i r Hs) as (r0 & [Hr0 _]%map_lookup_filter_Some & Hl). eauto.
    + rewrite lookup_union_r in Hr by done. exists r. split; [done|].
      split_and!; [by apply (Hok i r)|done|done].
Qed.
End methods.
