(* ===== verification/RegistryIngest.v ===== *)
(** * Module event ingress on the registry

    [ingest_module_event_with_settlement] and [defer_module_event] of
    [record.rs]: an event either reaches the operation that waits for it, is
    journaled for the operations that may still come to wait for it, or leaves
    the registry as it was. *)

From S2P Require Import Prelude Json ModuleEvents OperationRecord Transition OperationViews.
From S2P Require Import RecordInvariants Registry RegistryInvariant RegistrySweep.
From S2P Require Import RegistryMethods.

Section ingest.
Context `{SerdeJson} {Request : Type}.
Abbreviation Record_ := (RuntimeOperationRecord Request).
Abbreviation Records := (gmap RuntimeOperationId (RuntimeOperationRecord Request)).
Abbreviation Registry := (RuntimeOperationRegistry Request).
Abbreviation Journals := (gmap string PendingModuleEventJournal).
Implicit Types r : RuntimeOperationRecord Request.
Implicit Types records : gmap RuntimeOperationId (RuntimeOperationRecord Request).
Implicit Types g : RuntimeOperationRegistry Request.
#[local] Opaque sweep_terminal_history apply_runtime_operation_transition
  apply_module_event_ingress apply_deferred_module_event push_runtime_operation_event_locked
  track_newly_terminal_record.

(** ** More evidence changes nothing else *)
Lemma logged_store records records' :
  store_wf records → logged_map records records' → store_wf records'.
Proof.
  intros [He Hu Hx] [F B]. split.
  - intros i r' Hr'. destruct (B i r' Hr') as (r & Hr & Hok & _ & Hc). split; [done|].
    rewrite (same_core_id _ _ Hc). by apply (He i r Hr).
  - intros i j ri' rj' key Hi Hj Ki Kj.
    destruct (B i ri' Hi) as (ri & Hri & _ & _ & Ci). destruct (B j rj' Hj) as (rj & Hrj & _ & _ & Cj).
    rewrite (same_core_claim _ _ Ci) in Ki. rewrite (same_core_claim _ _ Cj) in Kj.
    by eapply Hu.
  - intros i j ri' rj' grp Hi Hj Ai Aj.
    destruct (B i ri' Hi) as (ri & Hri & _ & Ei & _). destruct (B j rj' Hj) as (rj & Hrj & _ & Ej & _).
    eapply Hx; [exact Hri|exact Hrj|by eapply evolves_active|by eapply evolves_active].
Qed.

Lemma logged_pending records records' m p :
  logged_map records records' → pending_wf records m p → pending_wf records' m p.
Proof.
  intros [F _] (? & ? & ? & Hc). split_and!; try done. intros id Hid.
  destruct (Hc id Hid) as (r & Hr & Hp). destruct (F id r Hr) as (r' & Hr' & _ & _ & Hcore).
  exists r'. split; [done|]. by rewrite (same_core_pending _ _ Hcore).
Qed.

Lemma logged_history records records' tracked :
  history_wf records tracked → logged_map records records' →
  history_wf records' tracked ∧ tracked_bytes records' tracked = tracked_bytes records tracked.
Proof.
  intros [Hn Ht Hret] [F B]. split; [split; [done| |]|].
  - intros i. rewrite Ht. split.
    + intros (r & Hr & Hterm). destruct (F i r Hr) as (r' & Hr' & _ & _ & Hc).
      exists r'. by rewrite (same_core_status _ _ Hc).
    + intros (r' & Hr' & Hterm). destruct (B i r' Hr') as (r & Hr & _ & _ & Hc).
      exists r. by rewrite (same_core_status _ _ Hc) in Hterm.
  - intros i r' Hr'. destruct (B i r' Hr') as (r & Hr & _ & Hev & Hc).
    eapply evolves_retention; [done|by apply (Hret i)|]. by rewrite (same_core_status _ _ Hc).
  - apply tracked_bytes_ext. intros i Hi.
    apply Ht in Hi as (r & Hr & _). destruct (F i r Hr) as (r' & Hr' & _ & _ & Hc).
    rewrite Hr, Hr'. simpl. f_equal. by apply same_core_payload.
Qed.

Lemma pending_candidates records m id :
  id ∈ pending_module_event_candidates records m ↔
  ∃ r, records !! id = Some r ∧ live r ∧ rec_pending_module_name r = Some m.
Proof.
  unfold pending_module_event_candidates. rewrite elem_of_ids_where. unfold live.
  split; intros (r & Hr & Hp); exists r; (split; [done|]);
    rewrite andb_true_iff, negb_true_iff, bool_decide_eq_true in *; tauto.
Qed.

Lemma count_evidence_counts ids : ∀ counts counts',
  count_evidence counts ids = Ok counts' → ∀ i, is_Some (counts' !! i) ↔ is_Some (counts !! i) ∨ i ∈ ids.
Proof.
  induction ids as [|id ids IH]; intros counts counts'; simpl.
  { intros [= <-] i. rewrite elem_of_nil. tauto. }
  destruct (checked_add _ 1) as [count|]; [|done]. simpl. intros Hc i. rewrite (IH _ _ Hc i), elem_of_cons.
  destruct (decide (i = id)) as [->|Hne].
  - rewrite lookup_insert_eq. naive_solver.
  - rewrite lookup_insert_ne by done. naive_solver.
Qed.

(** A deferral that fails changes nothing.  One that succeeds appends the
    event to the journal of its module and drops the oldest events of that journal,
    as many as it takes to make room; the operations that wait for a dropped event
    or for this one are given the evidence of it, and no other record changes. *)
Definition deferred_post (event : ModuleEventEnvelope) (ids : list RuntimeOperationId)
    (g : Registry) (out : Result ()) (g' : Registry) : Prop :=
  match out with
  | Err _ => g' = g
  | Ok _ => ∃ records' p j dropped kept,
      g' = g <| rg_records := records' |>
             <| rg_pending_module_events ::= <[me_module_name event := j]> |>
      ∧ logged_map (rg_records g) records'
      ∧ pe_event p = event ∧ pe_candidate_operation_ids p = ids ∧ 0 ≤ pe_event_bytes p
      ∧ jn_events (default journal_default (rg_pending_module_events g !! me_module_name event))
        = dropped ++ kept
      ∧ jn_events j = kept ++ [p] ∧ journal_bounds j
      ∧ room_needed dropped kept (pe_event_bytes p)
      ∧ ∃ staged, may_run (push_all_overflow_evidence dropped ;; push_deferred_evidence event ids)
            (filter (λ kv, kv.1 ∈ ids ++ concat (map pe_candidate_operation_ids dropped)) (rg_records g)) (Ok ()) staged
          ∧ records' = staged ∪ rg_records g
  end.

Lemma wp_defer event ids g :
  registry_core g → wp (defer_module_event event ids) (deferred_post event ids g) g.
Proof.
  intros [Hs Hj Hh]. unfold defer_module_event. wp_step. wp_step.
  destruct (pending_new event ids) as [p|] eqn:Ep; [|done].
  assert (Hp : pe_event p = event ∧ pe_candidate_operation_ids p = ids ∧ 0 ≤ pe_event_bytes p).
  { revert Ep. unfold pending_new, retained_serialized_bytes. case_if E; intros; simplify_eq/=.
    split_and!; [done..|]. apply str_len_nonneg. }
  destruct Hp as (Hpe & Hpi & Hpb).
  destruct (Z.ltb_spec MAX_PENDING_MODULE_EVENT_BYTES_PER_MODULE (pe_event_bytes p)) as [|Hle]; [by wp_go|].
  wp_step. wp_step. set (j0 := default journal_default _).
  assert (Hb0 : journal_bounds j0).
  { subst j0. destruct (rg_pending_module_events g !! me_module_name event) as [j|] eqn:Ej;
      [by apply (Hj _ _ Ej) | apply journal_default_bounds]. }
  destruct (make_room_spec (jn_events j0) (jn_retained_bytes j0) (pe_event_bytes p) [])
    as (j1 & dropped & -> & Hsplit & Hneed & Hb1 & Hc1 & Hm1); [by destruct j0 | lia|].
  wp_step. wp_step. wp_step. wp_step. destruct (count_evidence _ _) as [counts|] eqn:Ecounts; [|done].
  simpl in Ecounts. assert (Hfilter : filter (λ kv, is_Some (counts !! kv.1)) (rg_records g)
    = filter (λ kv, kv.1 ∈ ids ++ concat (map pe_candidate_operation_ids dropped)) (rg_records g)).
  { apply map_filter_ext. intros i r _. simpl. rewrite (count_evidence_counts _ _ _ Ecounts i), lookup_empty.
    split; [|by right]. by intros [[? ?]|?]. }
  wp_step. wp_step. destruct (ensure_event_cursor_capacity _ _) as [[]|]; [|done].
  wp_step. apply wp_with_local.
  assert (Hok : map_Forall (λ _, entry_ok) (rg_records g)).
  { intros i r Hr. by apply (st_entries _ Hs i r Hr). }
  eapply wp_mono.
  { apply wp_and; [|apply wp_may_run].
    apply wp_logged_bind; [apply wp_all_overflow_evidence | intros; by apply wp_deferred_evidence].
    intros i r [Hr _]%map_lookup_filter_Some. by apply (Hok i r). }
  intros out staged' [Hl Hruns]. destruct out as [[]|e]; [|done]. simpl in Hsplit.
  destruct (push_back_fits j1 p) as (j2 & -> & Hb2 & He2); [done|lia..|]. wp_go.
  exists (staged' ∪ rg_records g), p, j2, dropped, (jn_events j1).
  split; [by destruct g|]. split; [by eapply logged_union|]. split_and!; try done.
  exists staged'. by rewrite <- Hfilter.
Qed.

(** After a successful deferral to the operations that wait for the module,
    the registry is as before up to evidence and the journal. *)
Lemma deferred_core event g ids g' :
  registry_core g → event_fits event →
  ids = pending_module_event_candidates (rg_records g) (me_module_name event) → ids ≠ [] →
  deferred_post event ids g (Ok ()) g' →
  registry_core g' ∧ logged_map (rg_records g) (rg_records g')
  ∧ rg_terminal_records g' = rg_terminal_records g
  ∧ rg_retained_terminal_payload_bytes g' = rg_retained_terminal_payload_bytes g
  ∧ rg_retention_changed g' = rg_retention_changed g
  ∧ tracked_bytes (rg_records g') (rg_terminal_records g')
    = tracked_bytes (rg_records g) (rg_terminal_records g).
Proof.
  intros [Hs Hj Hh] Hf Hids Hne (records' & p & j & dropped & kept & -> & Hl & Hpe & Hpi & Hpb & Hsplit & Hev & Hb & _).
  simpl. destruct (logged_history _ _ _ Hh Hl) as [Hh' Hbytes].
  assert (Hold : ∀ m i, rg_pending_module_events g !! m = Some i →
    Forall (pending_wf records' m) (jn_events i)).
  { intros m i Hm. destruct (Hj m i Hm) as (_ & _ & Hall). eapply Forall_impl; [exact Hall|].
    intros q Hq. by eapply logged_pending. }
  assert (Hnew : pending_wf records' (me_module_name event) p).
  { eapply logged_pending; [done|]. split_and!; [by rewrite Hpe|by rewrite Hpe| |].
    - unfold has_candidates. rewrite Hpi. by destruct ids.
    - rewrite Hpi, Hids. intros id (r & Hr & _ & ?)%pending_candidates. by exists r. }
  split_and!; try done. split; simpl; [by eapply logged_store| |done].
  apply map_Forall_insert_2.
  - split; [done|]. split; [rewrite Hev; by destruct kept|]. rewrite Hev.
    apply Forall_app. split; [|by constructor].
    destruct (rg_pending_module_events g !! me_module_name event) as [i|] eqn:Ei; simpl in Hsplit.
    + specialize (Hold _ _ Ei). rewrite Hsplit in Hold. by apply Forall_app in Hold as [_ ?].
    + by destruct dropped, kept.
  - intros m i Hm. destruct (Hj m i Hm) as (? & ? & _). split_and!; try done. by apply Hold.
Qed.

(** ** [ingest_module_event_with_settlement] *)

(** The record of the one operation that correlates with the event: a settled
    one notes it as stale, a live one makes the step the event asks for. *)
Definition delivered (event : ModuleEventEnvelope) (r r' : Record_) : Prop :=
  if is_terminal (op_status (rec_operation r))
  then may_run (push_runtime_operation_event_locked "stale_module_event" "module event arrived after terminal state"
               None (Some (event_result event)) (event_error event)) r (Ok ()) r'
  else may_run (apply_record_mutation (apply_correlated_module_event event)) r (Ok ()) r'.

(** What a successful ingress does to the swept registry [g1], the value it
    answers with and the operation it says has settled. *)
Inductive ingest_effect (event : ModuleEventEnvelope) (g1 : Registry)
    : Value → option RuntimeOperationId → Registry → Prop :=
  (* no operation has the event's correlation, and none waits for its module: only a sweep *)
  | effect_none g' :
      ids_where (record_correlates event) (rg_records g1) = [] →
      pending_module_event_candidates (rg_records g1) (me_module_name event) = [] →
      registry_wf g' → swept g1 g' →
      ingest_effect event g1
        (ingress_as_value match ids_where (record_recognizes event) (rg_records g1) with
                          | [] => IngressUnknown
                          | ids => IngressUncorrelated ids
                          end (rg_records g1)) None g'
  (* several operations have it: only a sweep *)
  | effect_ambiguous i j ids g' :
      ids_where (record_correlates event) (rg_records g1) = i :: j :: ids →
      registry_wf g' → swept g1 g' →
      ingest_effect event g1 (ingress_as_value (IngressAmbiguous (i :: j :: ids)) (rg_records g1)) None g'
  (* no operation has it, and some wait for the module: it is journaled for them *)
  | effect_deferred ids g2 g' :
      ids = pending_module_event_candidates (rg_records g1) (me_module_name event) → ids ≠ [] →
      ids_where (record_correlates event) (rg_records g1) = [] →
      deferred_post event ids g1 (Ok ()) g2 → registry_wf g' → swept g2 g' →
      ingest_effect event g1 (ingress_as_value (IngressDeferred ids) (rg_records g2)) None g'
  (* one operation has it: it is delivered *)
  | effect_correlated id r r' r'' g' :
      ids_where (record_correlates event) (rg_records g1) = [id] →
      rg_records g1 !! id = Some r → evolves r r' → delivered event r r' → retained_as r r' r'' →
      finished g1 id r r' (rg_pending_module_events g1) g' →
      ingest_effect event g1
        (ingress_as_value (if is_terminal (op_status (rec_operation r)) then IngressStale id else IngressApplied id)
           (<[id := r'']> (rg_records g1)))
        (if is_terminal (op_status (rec_operation r')) then Some id else None) g'.

Definition ingest_post (event : ModuleEventEnvelope) (g : Registry)
    (out : Result (Value * option RuntimeOperationId)) (g' : Registry) : Prop :=
  ∃ g1, registry_wf g1 ∧ swept g g1
    ∧ match out with
      | Err _ => g' = g1
      | Ok (v, settled) => ingest_effect event g1 v settled g'
      end.

Lemma wp_track_live id r g now expires :
  rg_records g !! id = Some r → live r →
  wp (track_newly_terminal_record id now expires) (λ out g', out = Ok false ∧ g' = g) g.
Proof.
  intros Hr Hl.
  with_strategy transparent [track_newly_terminal_record] unfold track_newly_terminal_record.
  wp_step. wp_step. rewrite Hr. unfold live in Hl. rewrite Hl. simpl. by wp_go.
Qed.

(** The part of the method after the ingress has answered. *)
Definition ingest_tail (now : Z) (monotonic_now expires : Instant)
    (result : ModuleEventIngressResult) : M Registry (Value * option RuntimeOperationId) :=
  let operation_id := ingress_operation_id result in
  changed ← match operation_id with
            | Some operation_id => track_newly_terminal_record operation_id now expires
            | None => mret false
            end;
  g ← get;
  let settled_operation_id :=
    operation_id ≫= λ id, r ← rg_records g !! id;
      if is_terminal (op_status (rec_operation r)) then Some id else None in
  let value := ingress_as_value result (rg_records g) in
  sweep_terminal_history now monotonic_now ;;
  notify_retention changed ;;
  mret (value, settled_operation_id).

(** An answer that names no operation, or a live one, only sweeps. *)
Lemma wp_tail_sweeps result g now monotonic_now expires :
  registry_core g → tracked_bytes (rg_records g) (rg_terminal_records g) ≤ u64_max →
  (∀ id, ingress_operation_id result = Some id → ∃ r, rg_records g !! id = Some r ∧ live r) →
  wp (ingest_tail now monotonic_now expires result) (λ out g',
    out = Ok (ingress_as_value result (rg_records g), None) ∧ registry_wf g' ∧ swept g g') g.
Proof.
  intros Hc Hb Hid. unfold ingest_tail.
  assert (Hrest : ∀ (v : Value) settled, settled = None →
    wp (sweep_terminal_history now monotonic_now ;; notify_retention false ;; mret (v, settled))
       (λ out g', out = Ok (v, None : option RuntimeOperationId) ∧ registry_wf g' ∧ swept g g') g).
  { intros v settled ->. wp_step. eapply wp_mono; [by apply wp_sweep|].
    intros o g' (-> & ? & ? & _). by wp_go. }
  destruct (ingress_operation_id result) as [id|].
  - destruct (Hid id eq_refl) as (r & Hr & Hl). wp_step.
    eapply wp_mono; [by apply (wp_track_live id r)|]. intros o g' [-> ->]. wp_step. wp_step.
    apply Hrest. simpl. unfold live in Hl. by rewrite Hr; simpl; rewrite Hl.
  - wp_step. wp_step. wp_step. wp_step. by apply Hrest.
Qed.

(** An answer that names the operation just replaced settles it. *)
Lemma wp_tail_tracks result id r r' g1 gm now monotonic_now expires :
  registry_wf g1 → replaced_in g1 id r r' gm → ingress_operation_id result = Some id →
  wp (ingest_tail now monotonic_now expires result) (λ out g', ∃ r'', retained_as r r' r''
    ∧ out = Ok (ingress_as_value result (<[id := r'']> (rg_records g1)),
                if is_terminal (op_status (rec_operation r')) then Some id else None)
    ∧ finished g1 id r r' (rg_pending_module_events gm) g') gm.
Proof.
  intros Hg Hri Hid. unfold ingest_tail. rewrite Hid.
  wp_step. eapply wp_mono; [by apply (wp_track g1 id r r')|].
  intros [b|e] g2 Ht; [|by destruct Ht as (_ & _ & ? & _)]. wp_step. wp_step.
  pose proof Ht as (_ & _ & _ & _ & _ & r2 & Hrec & Hop & _ & Hret).
  eapply wp_mono; [by eapply wp_sweep_notify|]. intros out g' [-> Hfin].
  exists r2. split; [done|]. split; [|done]. rewrite Hrec. do 2 f_equal.
  cbn [mbind option_bind]. rewrite lookup_insert_eq. cbn [mbind option_bind]. by rewrite Hop.
Qed.

(** The pending name of a replaced record: an operation with a contract is
    not waiting to be accepted any more. *)
Lemma correlated_not_pending event r :
  payload_wf r → record_correlates event r = true → rec_pending_module_name r = None.
Proof.
  intros [_ _ _ Hp] Hc. destruct (rec_pending_module_name r) as [m|]; [|done].
  destruct Hp as [_ Hn]; [done|]. unfold record_correlates in Hc. by rewrite Hn in Hc.
Qed.

Lemma wp_ingest g event :
  registry_wf g → event_fits event →
  wp (ingest_module_event_with_settlement event) (ingest_post event g) g.
Proof.
  intros Hg Hf. unfold ingest_module_event_with_settlement. wp_step.
  eapply wp_mono; [by apply wp_begin|].
  intros [[[now mono] expires]|e] g1 (Hg1 & Hsw & Herr & _); [|rewrite Herr by done; by exists g].
  pose proof (rw_core _ Hg1) as Hc1. pose proof Hc1 as [Hs1 Hj1 _].
  (* one operation, and its record after the event *)
  assert (Hone : ∀ id r r' result, ids_where (record_correlates event) (rg_records g1) = [id] →
    rg_records g1 !! id = Some r → record_correlates event r = true →
    entry_ok r' → evolves r r' → claimed_correlation r' = claimed_correlation r → delivered event r r' →
    result = (if is_terminal (op_status (rec_operation r)) then IngressStale id else IngressApplied id) →
    wp (ingest_tail now mono expires result) (ingest_post event g)
       (g1 <| rg_records := <[id := r']> (rg_records g1) |>)).
  { intros id r r' result Hids Hr Hcor Hok Hev Hk Hdel ->.
    set (gm := g1 <| rg_records := <[id := r']> (rg_records g1) |>).
    assert (Hri : replaced_in g1 id r r' gm).
    { split; simpl; try done.
      - eapply replace_store; try done. by eapply insert_same_claim; [apply (st_unique _ Hs1)|..].
      - eapply journals_insert; [done..|]. left.
        assert (Hp : rec_pending_module_name r = None).
        { eapply correlated_not_pending; [|done]. by apply (store_payload _ Hs1 id r). }
        destruct (evo_pending _ _ Hev) as [?|?]; congruence. }
    eapply wp_mono; [apply (wp_tail_tracks _ id r r' g1); [done..|by destruct (is_terminal _)]|].
    intros out g' (r'' & Hret & -> & Hfin). exists g1. split_and!; try done.
    by apply (effect_correlated event g1 id r r' r''). }
  assert (Hnot : ∀ result, ingress_operation_id result = None →
    (∀ g', registry_wf g' → swept g1 g' → ingest_effect event g1 (ingress_as_value result (rg_records g1)) None g') →
    wp (ingest_tail now mono expires result) (ingest_post event g) g1).
  { intros result Hres Heff. eapply wp_mono; [apply wp_tail_sweeps; try done|].
    - by apply swept_bytes.
    - by rewrite Hres.
    - intros out g' (-> & Hwf & Hs). exists g1. split_and!; try done. by apply Heff. }
  wp_step. apply wp_on_records. apply wp_ingress.
  - intros Hnone. rewrite registry_eta.
    assert (Hdefer : ∀ result, ingress_operation_id result = None →
      result = match ids_where (record_recognizes event) (rg_records g1) with
               | [] => IngressUnknown | ids => IngressUncorrelated ids end →
      wp (result ← (g ← get;
            let ids := pending_module_event_candidates (rg_records g) (me_module_name event) in
            match ids with
            | [] => mret result
            | _ => defer_module_event event ids ;; mret (IngressDeferred ids)
            end);
          ingest_tail now mono expires result) (ingest_post event g) g1).
    { intros result Hres Hresult. wp_step. wp_step. wp_step. cbv zeta.
      destruct (pending_module_event_candidates _ _) as [|i ids] eqn:Eids.
      { wp_go. apply Hnot; [done|]. intros. rewrite Hresult. by apply effect_none. }
      wp_step. eapply wp_mono; [by apply wp_defer|].
      intros [[]|e] g2 Hd; [|simpl in Hd; subst g2; by exists g1]. wp_go.
      destruct (deferred_core event g1 (i :: ids) g2) as (Hc2 & Hl & Ht & _ & _ & Hb); try done.
      eapply wp_mono; [apply wp_tail_sweeps; try done|].
      - rewrite Hb. by apply swept_bytes.
      - intros id Hid. assert (Hin : id ∈ i :: ids) by (destruct ids; simplify_eq/=; by left).
        rewrite <- Eids in Hin. apply pending_candidates in Hin as (r & Hr & Hlive & _).
        destruct (proj1 Hl id r Hr) as (r' & Hr' & _ & _ & Hcore). exists r'. split; [done|].
        unfold live in *. by rewrite (same_core_status _ _ Hcore).
      - intros out g' (-> & Hwf & Hs2). exists g1. split_and!; try done.
        by apply (effect_deferred event g1 (i :: ids) g2). }
    destruct (ids_where (record_recognizes event) (rg_records g1)); by apply Hdefer.
  - intros i j ids Hamb. rewrite registry_eta. cbv beta iota. wp_step. wp_step.
    apply (Hnot (IngressAmbiguous (i :: j :: ids))); [done|]. intros. by apply effect_ambiguous.
  - intros id r Hids Hr Hcor Ht.
    assert (Hok : entry_ok r) by apply (st_entries _ Hs1 id r Hr). pose proof Hok as (Hw & Hset & _).
    eapply wp_mono; [apply wp_and; [by apply wp_push_replaces
      | apply wp_and; [by apply wp_push_settled
      | apply wp_and; [by apply (wp_push_claim (claimed_correlation r)) | apply wp_may_run]]]|].
    intros out r' ((? & ? & _) & (-> & _) & Hk & Hruns). simpl. wp_step. wp_step.
    apply (Hone id r r' (IngressStale id)); try done; [unfold delivered|]; by rewrite Ht.
  - intros id r Hids Hr Hcor Hl.
    assert (Hok : entry_ok r) by apply (st_entries _ Hs1 id r Hr).
    eapply wp_mono; [apply wp_and; [by apply wp_correlated_replaces
      | apply wp_and; [apply (wp_record_mutation _ (λ _ r', claimed_correlation r' = claimed_correlation r)) | apply wp_may_run]]|].
    { eapply wp_mono; [apply wp_correlated_event_claim|]. by intros []. }
    intros [[]|e] r' ((? & ? & Hsame) & Hk & Hruns).
    + simpl. wp_step. wp_step. unfold live in Hl.
      apply (Hone id r r' (IngressApplied id)); try done; [unfold delivered|]; by rewrite Hl.
    + exists g1. split_and!; try done. rewrite Hsame by done. by rewrite insert_id, registry_eta.
Qed.
End ingest.
