(* ===== verification/RegistryTheorems.v ===== *)
(** * The registry is always consistent

    Early completions are not missed: a module event that arrives before the
    call that started the work has returned is journaled and replayed when the
    operation is accepted.  Then the remaining methods of [record.rs], the
    sequences of calls the program can make, and what the registry guarantees
    after any of them. *)

From S2P Require Import Prelude Json ModuleEvents OperationRecord Transition OperationViews RecordInvariants.
From S2P Require Import Registry RegistryInvariant RegistrySweep RegistryMethods RegistryIngest.

Section early.
Context `{SerdeJson} {Request : Type}.
Abbreviation Record_ := (RuntimeOperationRecord Request).
Abbreviation Records := (gmap RuntimeOperationId (RuntimeOperationRecord Request)).
Abbreviation Registry := (RuntimeOperationRegistry Request).
Abbreviation settled r := (is_terminal (op_status (rec_operation r)) = true).
Implicit Types r : RuntimeOperationRecord Request.
Implicit Types g : RuntimeOperationRegistry Request.

(** What an operation waits on: its contract and identities. *)
Definition waits (r : Record_) :=
  (op_terminal_event (rec_operation r), op_module_session_id (rec_operation r),
   op_module_request_id (rec_operation r)).

(** An event that ends the wait of an operation with this contract. *)
Definition ends_wait (contract : ModuleTerminalEventContract) (identity : option string)
    (event : ModuleEventEnvelope) : Prop :=
  recognizes contract event = true
  ∧ opt_str_eqb (ct_progress_event contract) (me_event_name event) = false
  ∧ identity = correlation_value event (ct_correlation contract).

Definition awaited_by (r : Record_) (event : ModuleEventEnvelope) : Prop :=
  ∃ contract, op_terminal_event (rec_operation r) = Some contract
    ∧ ends_wait contract (operation_correlation_value (rec_operation r) (ct_correlation contract)) event.

Lemma same_waits r r' event : waits r' = waits r → awaited_by r event → awaited_by r' event.
Proof.
  unfold waits, awaited_by, operation_correlation_value. intros [= -> -> ->]. done.
Qed.

Lemma wp_push_waits k phase message p res err r :
  waits r = k →
  wp (push_runtime_operation_event_locked phase message p res err) (λ _ r', waits r' = k) r.
Proof.
  intros <-. eapply wp_mono; [apply push_frame|]. intros out r' [Hc _].
  symmetry. exact (f_equal waits Hc).
Qed.

Lemma wp_terminalize_waits k status result error reason phase message tp r :
  waits r = k → is_terminal status = true →
  wp (terminalize status result error reason phase message tp)
     (λ _ r', waits r' = k ∧ settled r') r.
Proof.
  intros <- Hs. unfold terminalize, set_operation. wp_go.
  destruct (bounded_terminal_operation_error error). wp_go.
  eapply wp_mono; [apply wp_and; [by apply (wp_push_waits (waits r)) | apply push_frame]|].
  intros out r' [Hw [Hc _]]. split; [done|]. by rewrite (same_core_status _ _ Hc).
Qed.

Lemma wp_event_progress_waits event accumulate r :
  wp (apply_module_event_progress event accumulate)
     (λ out r', out = Ok () ∧ waits r' = waits r
                ∧ op_status (rec_operation r') = op_status (rec_operation r)) r.
Proof.
  unfold apply_module_event_progress, set_operation.
  destruct (event_progress event) as [[n|] len]; by wp_go.
Qed.

Lemma wp_correlated_settles event r :
  wp (apply_correlated_module_event event) (λ out r', waits r' = waits r
    ∧ (is_ok out = true → awaited_by r event → settled r')) r.
Proof.
  unfold apply_correlated_module_event. wp_step. wp_step. wp_step. wp_step.
  destruct (op_terminal_event (rec_operation r)) as [contract|] eqn:Ec; simpl; [|done].
  case_if Ep; wp_step; (eapply wp_mono; [apply wp_event_progress_waits|]);
    intros o r1 (-> & Hw & Hst).
  - wp_step. wp_step. eapply wp_mono; [by apply (wp_push_waits (waits r))|].
    intros out r' Hw'. split; [done|]. intros _ (c & Hc & _ & Hp & _). congruence.
  - case_if Ef; (eapply wp_mono; [by apply (wp_terminalize_waits (waits r))|]);
      by intros out r' [? ?].
Qed.

(** The replay of one early event. *)
Lemma wp_deferred_settles event r :
  wp (apply_deferred_module_event event) (λ out r', waits r' = waits r
    ∧ (settled r → settled r') ∧ (is_ok out = true → awaited_by r event → settled r')) r.
Proof.
  unfold apply_deferred_module_event. apply wp_mutation_post; [done|].
  assert (Hpush : ∀ phase message res err (b : bool), (awaited_by r event → settled r) →
    wp (push_runtime_operation_event_locked phase message None res err ;; mret b)
       (λ out r', waits r' = waits r
          ∧ (settled r → settled r') ∧ (is_ok out = true → awaited_by r event → settled r')) r).
  { intros phase message res err b Hno. wp_step.
    eapply wp_mono; [apply wp_and; [by apply (wp_push_waits (waits r)) | apply push_frame]|].
    intros [[]|e] r' [Hw [Hc _]]; [wp_go|]; split_and!; try done;
      rewrite (same_core_status _ _ Hc); auto. }
  wp_step. wp_step. destruct (op_terminal_event (rec_operation r)) as [contract|] eqn:Ec.
  2:{ apply Hpush. intros (c & Hc & _). congruence. }
  case_if E1.
  { apply Hpush. intros (c & Hc & Hrec & _ & Hid). rewrite Ec in Hc. injection Hc as <-.
    rewrite Hrec, <- Hid, bool_decide_false in E1 by (intros ?; done). done. }
  case_if E2; [by apply Hpush|]. wp_step.
  eapply wp_mono; [apply wp_correlated_settles|]. intros [[]|e] r' [Hw Hset]; [wp_go|];
    split_and!; try done; congruence.
Qed.

(** The replay of a journal that holds an awaited event settles the
    operation, whatever the events before and after it are. *)
Lemma wp_replay_loop_settles module_name id pend ret g r :
  rg_records g !! id = Some r →
  settled r ∨ (∃ p, p ∈ pend ∧ id ∈ pe_candidate_operation_ids p ∧ awaited_by r (pe_event p)) →
  wp (replay_loop module_name id pend ret)
     (λ out g', is_ok out = true → ∃ r', rg_records g' !! id = Some r' ∧ settled r') g.
Proof.
  revert ret g r. induction pend as [|p pend IH]; intros ret g r Hr Hcase; simpl.
  { assert (Hset : settled r) by (destruct Hcase as [?|(p & ?%elem_of_nil & _)]; done).
    case_if E; wp_go; intros _; by exists r. }
  case_if Ec.
  { apply negb_true_iff, bool_decide_eq_false in Ec. wp_step. wp_step.
    destruct (push_back ret p) as [ret'|]; [|done]. apply (IH ret' g r); [done|].
    destruct Hcase as [?|(q & [->|Hq]%elem_of_cons & ? & ?)]; [by left|done|right; by exists q]. }
  apply negb_false_iff, bool_decide_eq_true in Ec. wp_step. wp_step.
  apply wp_on_records. eapply wp_on_record; [done|].
  eapply wp_mono; [apply wp_deferred_settles|]. intros out r1 (Hw & Hkeep & Hset).
  assert (Hnext : is_ok out = true → settled r1
    ∨ (∃ q, q ∈ pend ∧ id ∈ pe_candidate_operation_ids q ∧ awaited_by r1 (pe_event q))).
  { intros Hok. destruct Hcase as [?|(q & [->|Hq]%elem_of_cons & ? & Ha)]; [left; auto..|].
    right. exists q. split_and!; try done. by eapply same_waits. }
  assert (Hlook : rg_records (g <| rg_records := <[id := r1]> (rg_records g) |>) !! id = Some r1)
    by apply lookup_insert_eq.
  destruct out as [[]|e].
  - by apply (IH _ _ r1); auto.
  - case_if Eh; [|by apply (IH _ _ r1); auto]. wp_step. wp_step.
    destruct (push_back ret _) as [ret'|]; [|done]. by apply (IH _ _ r1); auto.
  - wp_step. wp_step. destruct (push_back ret p ≫= _); by wp_go.
Qed.

Lemma wp_replay_settles module_name id g r j p :
  rg_records g !! id = Some r → rg_pending_module_events g !! module_name = Some j →
  p ∈ jn_events j → id ∈ pe_candidate_operation_ids p →
  settled r ∨ awaited_by r (pe_event p) →
  wp (replay_pending_module_events module_name id)
     (λ out g', is_ok out = true → ∃ r', rg_records g' !! id = Some r' ∧ settled r') g.
Proof.
  intros Hr Hj Hp Hid Hcase. unfold replay_pending_module_events. wp_step. wp_step. wp_step. wp_step.
  rewrite Hr. destruct (ensure_record_event_cursor_capacity _ _) as [[]|]; [|done]. rewrite Hj.
  wp_step. wp_step. wp_step. wp_step. simpl. apply (wp_replay_loop_settles _ _ _ _ _ r); [done|].
  destruct Hcase as [?|?]; [by left|right; by exists p].
Qed.

(** The acceptance leaves the operation rejected or waiting as told. *)
Lemma wp_accepts g id r acceptance event :
  registry_core g → rg_records g !! id = Some r → live r →
  ends_wait (ac_terminal_event acceptance)
    (identity_for (ac_correlation acceptance) (ct_correlation (ac_terminal_event acceptance))) event →
  wp (apply_runtime_operation_transition id (Resolved (Accepted acceptance)))
     (λ out records', is_ok out = true →
        ∃ r', records' !! id = Some r' ∧ (settled r' ∨ awaited_by r' event)) (rg_records g).
Proof.
  intros Hc Hr Hl (Hrec & Hprog & Hid).
  assert (Hok : entry_ok r) by apply (st_entries _ (rc_store _ Hc) id r Hr).
  destruct Hok as (Hw & _ & _).
  apply wp_transition; [congruence|..]; intros r0 Hr0; simplify_eq.
  { unfold live in Hl. congruence. }
  intros _. split.
  - intros problem a [= <-] _. apply wp_mutation_post; [done|].
    eapply wp_mono; [by apply wp_reject_settles|]. intros out r' Hs Hk. exists r'.
    rewrite lookup_insert_eq. split; [done|]. left. destruct (Hs Hk) as [_ (-> & _)]. done.
  - intros _. apply wp_mutation_post; [done|]. cbn [apply_live_transition].
    eapply wp_mono; [by apply wp_accept_awaits|]. intros out r' Ha Hk. exists r'.
    rewrite lookup_insert_eq. split; [done|]. right.
    destruct (Ha Hk) as [_ (_ & Hct & _ & _ & _ & Hids & _)].
    exists (ac_terminal_event acceptance). split; [done|]. split_and!; try done. by rewrite Hids.
Qed.

(** C5. Early completions are not missed: when an operation is accepted while the
    journal of its module holds the event that ends its wait, the operation
    has settled when the transition returns, the retention task is woken, and
    no journal names the operation any more. *)
Theorem early_event_settles (g : Registry) id r acceptance module_name j p w d g' w' :
  registry_wf g → value_fits (ac_acknowledgement acceptance) →
  rg_records g !! id = Some r → rec_pending_module_name r = Some module_name →
  rg_pending_module_events g !! module_name = Some j → p ∈ jn_events j →
  id ∈ pe_candidate_operation_ids p →
  ends_wait (ac_terminal_event acceptance)
    (identity_for (ac_correlation acceptance) (ct_correlation (ac_terminal_event acceptance)))
    (pe_event p) →
  transition id (Resolved (Accepted acceptance)) g w = (Ok d, g', w') →
  (∀ r', rg_records g' !! id = Some r' → settled r')
  ∧ rg_retention_changed g' = true
  ∧ ∀ m i q, rg_pending_module_events g' !! m = Some i → q ∈ jn_events i →
      id ∉ pe_candidate_operation_ids q.
Proof.
  intros Hg Hfit Hr Hpend Hj Hp Hid Hends E.
  destruct (pw_pending r) as [Hl _];
    [by apply (store_payload _ (rc_store _ (rw_core _ Hg)) id r) | by rewrite Hpend |].
  assert (Hbody : ∀ g1 r1, registry_wf g1 → swept g g1 → rg_records g1 !! id = Some r1 →
    wp (transition_body id (Resolved (Accepted acceptance))
          (replay_module r1 (Resolved (Accepted acceptance))))
       (λ out gm, is_ok out = true → ∀ r', rg_records gm !! id = Some r' → settled r') g1).
  { intros g1 r1 Hg1 Hsw Hr1.
    assert (r1 = r) as -> by (apply (sw_live _ _ Hsw id r Hl) in Hr; congruence).
    unfold replay_module. unfold live in Hl. rewrite Hl, Hpend.
    cbn [negb andb transition_settles_pending_module].
    unfold transition_body. wp_step. apply wp_on_records.
    eapply wp_mono; [apply (wp_accepts g1 id r acceptance (pe_event p)); try done; by apply rw_core|].
    intros [d1|e] records' Ha; [|done]. destruct (Ha eq_refl) as (r2 & Hr2 & Hcase).
    wp_step. eapply wp_mono; [apply (wp_replay_settles module_name id _ r2 j p); try done|].
    { simpl. by rewrite (sw_journals _ _ Hsw). }
    intros [[]|e] gm Hset; [|done]. wp_go. intros _ r' Hr'.
    destruct (Hset eq_refl) as (r3 & Hr3 & ?). congruence. }
  destruct (wp_run _ _ _ _ _ _ _ (wp_registry_transition (λ r, settled r) g id
    (Resolved (Accepted acceptance)) Hg I Hfit Hbody) E)
    as (g1 & _ & Hsw & Hout).
  assert (Hr1 : rg_records g1 !! id = Some r) by (by apply (sw_live _ _ Hsw id r Hl)).
  destruct Hout as [(Hnone & _)|(r1 & r' & journals & Hr1' & _ & Hset & Hfin & Hno & _)]; [congruence|].
  simplify_eq. split_and!.
  - intros r2 Hr2. by destruct (fi_settled _ _ _ _ _ _ Hfin r2 Hr2) as [-> _].
  - by apply (fi_notify _ _ _ _ _ _ Hfin).
  - by apply Hno.
Qed.
End early.

Section theorems.
Context `{SerdeJson} `{OperationRequest Request}.
Abbreviation Record_ := (RuntimeOperationRecord Request).
Abbreviation Records := (gmap RuntimeOperationId (RuntimeOperationRecord Request)).
Abbreviation Registry := (RuntimeOperationRegistry Request).
Implicit Types r : RuntimeOperationRecord Request.
Implicit Types g : RuntimeOperationRegistry Request.
#[local] Opaque sweep_terminal_history track_newly_terminal_record.

(** ** Fresh records *)
Record fresh_record (r : Record_) : Prop := {
  fr_entry : entry_ok r;
  fr_live : live r;
  fr_retention : rec_terminal_at r = None ∧ rec_retained_terminal_payload_bytes r = 0;
  fr_claim : claimed_correlation r = None;
}.

Lemma running_record_fresh id request now r :
  running_runtime_operation_record id request now = Ok r →
  fresh_record r ∧ op_operation_id (rec_operation r) = id.
Proof.
  unfold running_runtime_operation_record.
  destruct (req_context request) as [ctx|]; [|done]. simpl.
  destruct (policy_from_request request ctx) as [policy|]; [|done]. simpl. intros [= <-].
  by split.
Qed.

Lemma insert_fresh_core g r :
  registry_core g → fresh_record r → rg_records g !! op_operation_id (rec_operation r) = None →
  (∀ group i ri, op_exclusive_group (rec_operation r) = Some group → rg_records g !! i = Some ri →
     active_operation_in_exclusive_group ri group = false) →
  let g' := g <| rg_records ::= <[op_operation_id (rec_operation r) := r]> |> in
  registry_core g' ∧ tracked_bytes (rg_records g') (rg_terminal_records g')
                     = tracked_bytes (rg_records g) (rg_terminal_records g).
Proof.
  intros [[He Hu Hx] Hj [Hn Ht Hret]] [Hok Hl Hre Hcl] Hnew Hfree.
  set (id := op_operation_id (rec_operation r)) in *. simpl.
  assert (Hother : ∀ i ri, rg_records g !! i = Some ri → <[id := r]> (rg_records g) !! i = Some ri).
  { intros i ri Hi. rewrite lookup_insert_ne; [done|]. intros <-. congruence. }
  split; [split; simpl|].
  - split.
    + by apply map_Forall_insert_2.
    + apply insert_claim_unique; [done|]. intros key i ri Hk. congruence.
    + intros i j ri rj grp Hi Hj' Ai Aj.
      apply lookup_insert_Some in Hi as [[<- <-]|[Hni Hi]], Hj' as [[<- <-]|[Hnj Hj']];
        [done|exfalso..|by apply (Hx i j ri rj grp)].
      * apply andb_true_iff in Ai as [Ai%bool_decide_eq_true _].
        by rewrite (Hfree grp j rj Ai Hj') in Aj.
      * apply andb_true_iff in Aj as [Aj%bool_decide_eq_true _].
        by rewrite (Hfree grp i ri Aj Hi) in Ai.
  - intros m j Hm. destruct (Hj m j Hm) as (? & ? & Hall). split_and!; try done.
    eapply Forall_impl; [exact Hall|]. intros p (? & ? & ? & Hc). split_and!; try done.
    intros k Hk. destruct (Hc k Hk) as (rk & Hrk & ?). exists rk. split; [|done]. by apply Hother.
  - split; [done| |].
    + intros i. rewrite Ht. split.
      * intros (ri & Hi & ?). exists ri. split; [by apply Hother | done].
      * intros (ri & [[<- <-]|[_ Hi]]%lookup_insert_Some & Hterm); [|eauto].
        unfold live in Hl. congruence.
    + apply map_Forall_insert_2; [|done]. unfold retention_ok. unfold live in Hl. by rewrite Hl.
  - apply tracked_bytes_ext. intros i Hi. apply Ht in Hi as (ri & Hri & _).
    by rewrite Hri, (Hother i ri Hri).
Qed.

(** What [insert] does to the swept registry [g1]. *)
Definition insert_effect (r : Record_) (g1 : Registry) (out : Result ()) (g' : Registry) : Prop :=
  let id := op_operation_id (rec_operation r) in
  let busy := ∃ group i ri, op_exclusive_group (rec_operation r) = Some group
                ∧ rg_records g1 !! i = Some ri
                ∧ active_operation_in_exclusive_group ri group = true in
  match out with
  | Ok _ => rg_records g1 !! id = None ∧ ¬ busy
            ∧ rg_records g' !! id = Some r
            ∧ (∀ i ri, i ≠ id → live ri → rg_records g1 !! i = Some ri ↔ rg_records g' !! i = Some ri)
            ∧ rg_pending_module_events g' = rg_pending_module_events g1
            ∧ (∀ i ri', i ≠ id → rg_records g' !! i = Some ri' → ∃ ri, rg_records g1 !! i = Some ri ∧ purged ri ri')
  | Err e => g' = g1 ∧ (is_Some (rg_records g1 !! id) ∨ busy
                        ∨ e = ["runtime operation terminal history expiry overflow"])
  end.

Lemma wp_insert g r :
  registry_wf g → fresh_record r →
  wp (insert_record r) (λ out g', registry_wf g'
    ∧ ∃ g1, registry_wf g1 ∧ swept g g1 ∧ insert_effect r g1 out g') g.
Proof.
  intros Hg Hf. pose proof Hf as [_ Hl _ _].
  unfold insert_record. wp_step. eapply wp_mono; [by apply wp_begin|].
  intros [[[now mono] expires]|e] g1 (Hg1 & Hsw & Herr & Hmsg).
  2:{ rewrite Herr by done. split; [done|]. exists g. split_and!; try done. split; [done|].
      right. right. by apply Hmsg. }
  wp_step. wp_step. set (id := op_operation_id (rec_operation r)).
  case_if Eid.
  { apply bool_decide_eq_true in Eid. wp_go. split; [done|]. exists g1. split_and!; try done.
    split; [done|]. by left. }
  apply bool_decide_eq_false, eq_None_not_Some in Eid.
  assert (Hgo : (∀ group i ri, op_exclusive_group (rec_operation r) = Some group →
      rg_records g1 !! i = Some ri → active_operation_in_exclusive_group ri group = false) →
    wp (modify (λ g, g <| rg_records ::= <[id := r]> |>) ;;
        changed ← track_newly_terminal_record id now expires;
        sweep_terminal_history now mono ;; notify_retention changed)
       (λ out g', registry_wf g' ∧ ∃ g1, registry_wf g1 ∧ swept g g1 ∧ insert_effect r g1 out g') g1).
  { intros Hfree. destruct (insert_fresh_core g1 r (rw_core _ Hg1) Hf Eid Hfree) as [Hc Hb].
    wp_step. wp_step. wp_step.
    eapply wp_mono; [apply (wp_track_live id r); [apply lookup_insert_eq|done]|].
    intros o g2 [-> ->]. wp_step. eapply wp_mono; [apply wp_sweep; [done|]|].
    { etrans; [apply Z.eq_le_incl, Hb | by apply swept_bytes]. }
    intros o g3 (-> & Hg3 & Hsw3 & _). wp_go. split; [done|]. exists g1. split; [done|]. split; [done|].
    unfold insert_effect. fold id. split_and!; [done| | | | |].
    + intros (group & i & ri & Hgr & Hi & Ha). by rewrite (Hfree group i ri Hgr Hi) in Ha.
    + apply (sw_live _ _ Hsw3 id r Hl). apply lookup_insert_eq.
    + intros i ri Hne Hli. rewrite <- (sw_live _ _ Hsw3 i ri Hli). simpl.
      by rewrite lookup_insert_ne.
    + by rewrite (sw_journals _ _ Hsw3).
    + intros i ri' Hne Hi. destruct (sw_old _ _ Hsw3 i ri' Hi) as (ri & Hri & Hp). exists ri.
      simpl in Hri. by rewrite lookup_insert_ne in Hri. }
  destruct (op_exclusive_group (rec_operation r)) as [group|] eqn:Egr; [case_if Ebusy|].
  - wp_go. split; [done|]. exists g1. split_and!; try done. split; [done|]. right. left.
    apply existsb_exists in Ebusy as ([i ri] & Hin & Ha). apply list_elem_of_In, elem_of_map_to_list in Hin.
    by exists group, i, ri.
  - wp_step. wp_step. apply Hgo. intros grp i ri [= <-] Hi. apply not_true_is_false. intros Ha.
    apply not_true_iff_false in Ebusy. apply Ebusy, existsb_exists. exists (i, ri).
    split; [by apply list_elem_of_In, elem_of_map_to_list | done].
  - wp_step. wp_step. by apply Hgo.
Qed.

Lemma wp_remove g id :
  registry_wf g →
  wp (remove id) (λ out g', out = Ok () ∧ registry_wf g'
    ∧ rg_records g' = delete id (rg_records g)
    ∧ ∀ m j p, rg_pending_module_events g' !! m = Some j → p ∈ jn_events j →
        id ∉ pe_candidate_operation_ids p) g.
Proof.
  intros Hg. pose proof Hg as [Hc Hcount Hex Hb]. unfold remove. wp_step.
  eapply wp_mono; [by apply remove_record_spec|].
  intros out g' (-> & Hc' & Hrec & Ht & Hbytes & _ & Hno). wp_go. split; [done|].
  assert (Hcore : rg_retained_terminal_payload_bytes g'
                  = tracked_bytes (rg_records g') (rg_terminal_records g')
                  ∧ rg_retained_terminal_payload_bytes g' ≤ rg_retained_terminal_payload_bytes g).
  { pose proof (rc_history _ Hc) as [Hn Htr Hret].
    pose proof (tracked_bytes_nonneg g' (rg_terminal_records g') Hc') as Hpos.
    rewrite Hbytes. rewrite Hrec, Ht in *. destruct (rg_records g !! id) as [r|] eqn:Hr.
    - pose proof (retained_nonneg g id r Hc Hr) as Hnn.
      assert (Hid : id ∈ rg_terminal_records g ∨ rec_retained_terminal_payload_bytes r = 0).
      { specialize (Hret id r Hr). unfold retention_ok in Hret.
        destruct (is_terminal (op_status (rec_operation r))) eqn:Et; [|right; apply Hret].
        left. apply Htr. eauto. }
      pose proof (tracked_bytes_drop _ _ _ _ Hn Hr Hid) as Hdrop.
      rewrite Hdrop in Hpos |- *. rewrite Hex. unfold saturating_sub. lia.
    - rewrite delete_id by done. rewrite drop_id_absent; [done|].
      intros (r & Hr' & _)%Htr. congruence. }
  destruct Hcore as [He Hle]. split_and!; try done. split; try done; [|lia].
  pose proof (sublist_length _ _ (drop_id_sublist id (rg_terminal_records g))) as Hsub.
  rewrite <- Ht in Hsub. unfold zlen in *. lia.
Qed.

Lemma wp_inspect {T} (f : Records → T) g :
  registry_wf g → wp (inspect f) (λ out g', registry_wf g' ∧ swept g g' ∧ out = Ok (f (rg_records g'))) g.
Proof.
  intros Hg. unfold inspect. wp_step. wp_step. wp_step. wp_step. wp_step.
  eapply wp_mono; [apply wp_sweep; [apply rw_core, Hg | by apply swept_bytes]|].
  intros o g' (-> & Hwf & Hsw & _). by wp_go.
Qed.

(** ** Everything the program can do to the registry *)
Definition registry_new : Registry := mkRegistry ∅ ∅ [] 0 false.

Inductive registry_step : Registry → Registry → Prop :=
  | step_insert id request now r w out g g' w' :
      running_runtime_operation_record id request now = Ok r →
      insert_record r g w = (out, g', w') → registry_step g g'
  | step_transition id t w out g g' w' :
      transition_ok t → transition_fits t →
      transition id t g w = (out, g', w') → registry_step g g'
  | step_ingest event w out g g' w' :
      event_fits event →
      ingest_module_event_with_settlement event g w = (out, g', w') → registry_step g g'
  | step_inspect T (f : Records → T) w out g g' w' :
      inspect f g w = (out, g', w') → registry_step g g'
  | step_next_expiry w out g g' w' :
      next_terminal_expiry g w = (out, g', w') → registry_step g g'
  | step_sweep w out g g' w' :
      sweep_expired_terminal_history g w = (out, g', w') → registry_step g g'
  | step_remove id w out g g' w' :
      remove id g w = (out, g', w') → registry_step g g'
  | step_notified g :
      registry_step g (g <| rg_retention_changed := false |>).

Lemma registry_new_wf : registry_wf registry_new.
Proof.
  assert (Hno : ∀ i r, rg_records registry_new !! i = Some r → False).
  { intros i r Hi. simpl in Hi. by rewrite lookup_empty in Hi. }
  split; [split; [split| |split]|..]; try done;
    try (by intros i r Hi; destruct (Hno i r)); try (by intros i j ri rj key Hi; destruct (Hno i ri)).
  - constructor.
  - intros id. rewrite elem_of_nil. split; [done|]. intros (r & Hr & _). by destruct (Hno id r).
Qed.

Lemma wp_sweep_wf {A} (a : Registry → A) g :
  registry_wf g →
  wp (now ← now_millis; mono ← instant_now; sweep_terminal_history now mono ;; g ← get; mret (a g))
     (λ _ g', registry_wf g') g.
Proof.
  intros Hg. wp_step. wp_step. wp_step. wp_step. wp_step.
  eapply wp_mono; [apply wp_sweep; [apply rw_core, Hg | by apply swept_bytes]|].
  intros o g' (-> & Hwf & _). by wp_go.
Qed.

Lemma wp_transition_any g id t :
  registry_wf g → transition_ok t → transition_fits t →
  wp (transition id t) (transition_post (λ _, True) g id t) g.
Proof.
  intros. apply wp_registry_transition; try done.
  intros. eapply wp_mono; [apply wp_true | done].
Qed.

Lemma registry_step_wf g g' : registry_wf g → registry_step g g' → registry_wf g'.
Proof.
  intros Hg Hs. destruct Hs as [id rq now r w out g g' w' Hr E|id t w out g g' w' Ho Hf E
    |event w out g g' w' Hf E|T f w out g g' w' E|w out g g' w' E|w out g g' w' E|id w out g g' w' E|g].
  - apply running_record_fresh in Hr as [Hr _].
    by apply (wp_run _ _ _ _ _ _ _ (wp_insert g r Hg Hr) E).
  - destruct (wp_run _ _ _ _ _ _ _ (wp_transition_any g id t Hg Ho Hf) E) as (g1 & Hg1 & _ & Hout).
    destruct out; [|by subst].
    destruct Hout as [(_ & -> & _)|(r & r' & gm & _ & _ & _ & Hfin & _)]; [done|]. apply Hfin.
  - destruct (wp_run _ _ _ _ _ _ _ (wp_ingest g event Hg Hf) E) as (g1 & Hg1 & _ & Hout).
    destruct out as [[v settled]|]; [|by subst].
    destruct Hout as [g'|i k ids g'|ids g2 g'|id r r' r'' g' _ _ _ _ _ Hfin]; [done..|apply Hfin].
  - by apply (wp_run _ _ _ _ _ _ _ (wp_inspect f g Hg) E).
  - exact (wp_run _ _ _ _ _ _ _ (wp_sweep_wf _ g Hg) E).
  - revert E. unfold sweep_expired_terminal_history. start_wp. wp_step. wp_step. wp_step. wp_step.
    eapply wp_mono; [apply wp_sweep; [apply rw_core, Hg | by apply swept_bytes]|].
    by intros o g2 (_ & ? & _).
  - by apply (wp_run _ _ _ _ _ _ _ (wp_remove g id Hg) E).
  - by apply registry_wf_notify.
Qed.

(** ** Claims *)

(** C1. The registry is always consistent: whatever sequence of calls the
    program makes, with whatever clock readings and failures, the registry
    satisfies its invariant.  Settled operations are exactly the tracked ones
    and number at most 128, their payloads are counted exactly and stay within
    32 MiB, journals stay within 32 events and 256 KiB per module and only
    name operations that still wait for that module, no two operations wait on
    the same correlation, and no two live operations share an exclusive group. *)
Theorem registry_always_consistent (g : Registry) :
  rtc registry_step registry_new g → registry_wf g.
Proof.
  assert (Hall : ∀ g1 g2 : Registry, rtc registry_step g1 g2 → registry_wf g1 → registry_wf g2).
  { induction 1; eauto using registry_step_wf. }
  intros Hr. eapply Hall; [exact Hr | apply registry_new_wf].
Qed.

(** C7. [transition] is atomic on the registry.  After the sweep it starts with, a
    failure leaves records and journals exactly as they were.  A success makes of
    the one operation what the reducer, and after it the replay of the early events
    of its module, makes of its record; the journal of that module keeps every
    entry that does not name the operation, and of those that do the ones the
    operation did not take, without its name and while others are named; no other
    journal changes.  The other live operations are kept, the settled ones can only
    be forgotten or lose their payloads to the closing sweep, the retention task is
    woken when the operation has settled, and a settled or accepted operation is
    named in no journal. *)
Theorem registry_transition_atomic (g : Registry) id t w out g' w' :
  registry_wf g → transition_ok t → transition_fits t →
  transition id t g w = (out, g', w') → transition_post (λ _, True) g id t out g'.
Proof. intros Hg Ho Hf. start_wp. by apply wp_transition_any. Qed.

(** C8. [ingest_module_event_with_settlement] routes each event.  When one
    operation correlates with it, it is delivered: a settled operation notes it as
    stale, a live one makes the step the event asks for, and no journal changes.
    When several do, nothing but a sweep happens.  When none does and operations
    wait for the module, it is appended to the journal of the module for exactly
    these, after as few of the oldest entries are dropped as it takes to make room,
    with evidence left with the operations concerned; when none waits, nothing but a
    sweep happens.  The answer says which of these it was, and names the operation
    that has settled.  A failure leaves the swept registry as it was. *)
Theorem registry_ingest_routes (g : Registry) event w out g' w' :
  registry_wf g → event_fits event →
  ingest_module_event_with_settlement event g w = (out, g', w') → ingest_post event g out g'.
Proof. intros Hg Hf. start_wp. by apply wp_ingest. Qed.

(** [insert] succeeds exactly when the operation id is new and no live
    operation holds its exclusive group (or the monotonic clock overflows); a
    refusal changes nothing, a success adds the record and keeps every other
    live operation. *)
Theorem registry_insert_guarded (g : Registry) id request now r w out g' w' :
  registry_wf g → running_runtime_operation_record id request now = Ok r →
  insert_record r g w = (out, g', w') →
  registry_wf g' ∧ ∃ g1, registry_wf g1 ∧ swept g g1 ∧ insert_effect r g1 out g'.
Proof.
  intros Hg Hr. apply running_record_fresh in Hr as [Hf _]. start_wp. by apply wp_insert.
Qed.

(** C4. The sweep always succeeds and bounds the history: at most 128 settled
    operations, at most 32 MiB of payload with an exact count, none past its
    age or deadline.  Live operations, journals and the order of the history
    are untouched; what survives has lost at most its payloads. *)
Theorem sweep_bounds_history (g : Registry) now monotonic_now w out g' w' :
  registry_core g → tracked_bytes (rg_records g) (rg_terminal_records g) ≤ u64_max →
  sweep_terminal_history now monotonic_now g w = (out, g', w') →
  out = Ok () ∧ registry_wf g' ∧ swept g g' ∧ fresh_history now monotonic_now g'.
Proof. intros Hc Hb. start_wp. by apply wp_sweep. Qed.

(** *** Polling *)
Lemma filter_all {A} (f : A → bool) (b : bool) l :
  (∀ x, x ∈ l → f x = b) → List.filter f l = if b then l else [].
Proof.
  induction l as [|x l IH]; intros Hf; simpl; [by destruct b|].
  rewrite (Hf x) by (by left). rewrite IH by (intros; apply Hf; by right). by destruct b.
Qed.

Lemma filter_seqZ a n after :
  a - 1 ≤ after < a + n →
  List.filter (Z.ltb after) (seqZ a n) = seqZ (after + 1) (a + n - after - 1).
Proof.
  intros Ha. replace n with ((after + 1 - a) + (a + n - after - 1)) at 1 by lia.
  rewrite seqZ_app, List.filter_app by lia.
  rewrite (filter_all _ false), (filter_all _ true); [simpl; f_equal; lia| |];
    intros x Hx%elem_of_seqZ; [apply Z.ltb_lt | apply Z.ltb_ge]; lia.
Qed.

Lemma filter_cursors (l : list RuntimeOperationEvent) f :
  ev_cursor <$> List.filter (λ e, f (ev_cursor e)) l = List.filter f (ev_cursor <$> l).
Proof.
  induction l as [|e l IH]; [done|]. rewrite fmap_cons. cbn [List.filter].
  destruct (f (ev_cursor e)); [|done]. by rewrite fmap_cons, IH.
Qed.

(** Polling is gap free: a client that asks after a cursor inside the
    retained window gets exactly the events after it, in order, up to the next
    cursor; any other cursor is answered with a reset and the whole window. *)
Theorem event_page_exact r after :
  record_wf r → 0 ≤ after →
  (reset_required r after = false ↔
     oldest_retained_event_cursor r - 1 ≤ after < rec_next_event_cursor r)
  ∧ (reset_required r after = false →
     ev_cursor <$> event_page r after
     = seqZ (after + 1) (rec_next_event_cursor r - after - 1))
  ∧ (reset_required r after = true → event_page r after = rec_events r).
Proof.
  intros Hwf Hpos. pose proof (wf_next _ Hwf) as Hn. pose proof (wf_linked _ Hwf) as Hl.
  assert (Hold : oldest_retained_event_cursor r = rec_next_event_cursor r - zlen (rec_events r)).
  { unfold oldest_retained_event_cursor. destruct (rec_events r) as [|e l] eqn:Ee.
    - unfold zlen. simpl. lia.
    - by apply log_linked_head in Hl. }
  assert (Hreset : reset_required r after = false ↔
    oldest_retained_event_cursor r - 1 ≤ after < rec_next_event_cursor r).
  { unfold reset_required, checked_add. rewrite orb_false_iff, Z.leb_gt.
    unfold MAX_WIRE_EVENT_CURSOR in Hn. unfold u64_max.
    destruct (Z.leb_spec (after + 1) 18446744073709551615); rewrite ?Z.ltb_ge; split; intros; try lia;
      by intuition. }
  split; [done|]. unfold event_page. split.
  - intros Hr. rewrite Hr. simpl. apply Hreset in Hr. rewrite Hold in Hr.
    rewrite (filter_cursors _ (Z.ltb after)), (ll_cursors _ _ _ Hl), filter_seqZ by lia.
    f_equal; lia.
  - intros Hr. rewrite Hr. simpl. clear. induction (rec_events r); simpl; [done|]. by f_equal.
Qed.
End theorems.
