(* ===== verification/StatusRanks.v ===== *)
(** * Where live records come from, and how far they have come

    The record of a live operation is a later version of the record its request
    was given at the start, and still carries what the request fixed.  The
    supervisor decides what to do with an operation from its status: whatever is
    called on the registry, an operation never moves back, and a transition moves
    it at least as far as it is meant to. *)

From S2P Require Import Prelude Json ModuleEvents OperationRecord Transition OperationViews RecordInvariants.
From S2P Require Import Registry RegistryInvariant RegistrySweep RegistryMethods RegistryIngest.
From S2P Require Import RegistryTheorems.

Section origins.
Context `{SerdeJson} `{OperationRequest Request}.
Implicit Types r : RuntimeOperationRecord Request.
Implicit Types g : RuntimeOperationRegistry Request.

Record originates (id : RuntimeOperationId) (request : Request) r : Prop := {
  og_request : rec_restart_request r = Some request;
  og_record : ∃ now r0, running_runtime_operation_record id request now = Ok r0 ∧ evolves r0 r;
}.

Definition live_originate g : Prop :=
  ∀ id r, rg_records g !! id = Some r → live r → ∃ request, originates id request r.

(** Every live record of the second registry is a later version of one of the
    first. *)
Definition live_evolve g g' : Prop :=
  ∀ id r', rg_records g' !! id = Some r' → live r' → ∃ r, rg_records g !! id = Some r ∧ evolves r r'.

Lemma evolves_live r r' : evolves r r' → live r' → live r.
Proof.
  intros Hev. unfold live. pose proof (evo_status _ _ Hev) as [->|Hlt]; [done|].
  by destruct (op_status (rec_operation r)), (op_status (rec_operation r')).
Qed.

Lemma originates_evolves id request r r' :
  originates id request r → evolves r r' → live r' → originates id request r'.
Proof.
  intros [Hre (now & r0 & Hr0 & Hev)] Hev' Hl. split.
  - rewrite (evo_restart _ _ Hev'); done.
  - exists now, r0. split; [done|by etrans].
Qed.

#[export] Instance live_evolve_preorder : PreOrder live_evolve.
Proof.
  split; [intros g id r Hr _; by exists r|]. intros g1 g2 g3 H12 H23 id r3 Hr3 Hl3.
  destruct (H23 _ _ Hr3 Hl3) as (r2 & Hr2 & He2).
  destruct (H12 _ _ Hr2 (evolves_live _ _ He2 Hl3)) as (r1 & Hr1 & He1). exists r1. split; [done|by etrans].
Qed.

Lemma live_originate_evolve g g' : live_originate g → live_evolve g g' → live_originate g'.
Proof.
  intros Ho Hev id r' Hr' Hl'. destruct (Hev _ _ Hr' Hl') as (r & Hr & He).
  destruct (Ho _ _ Hr (evolves_live _ _ He Hl')) as (request & Hq). exists request.
  by eapply originates_evolves.
Qed.

Lemma swept_evolve g g' : swept g g' → live_evolve g g'.
Proof. intros Hsw id r Hr Hl. exists r. split; [by apply (sw_live _ _ Hsw)|done]. Qed.

Lemma finished_evolve g0 id r r' gm g' :
  rg_records g0 !! id = Some r → evolves r r' → finished g0 id r r' gm g' → live_evolve g0 g'.
Proof.
  intros Hr Hev Hfin i ri Hri Hli. destruct (decide (i = id)) as [->|Hne].
  - destruct (fi_settled _ _ _ _ _ _ Hfin ri Hri) as [Hst _].
    assert (Hl : live r') by (unfold live in *; by rewrite <- Hst).
    rewrite (fi_live _ _ _ _ _ _ Hfin Hl) in Hri. simplify_eq. by exists r.
  - exists ri. split; [by apply (fi_others _ _ _ _ _ _ Hfin)|done].
Qed.

Lemma transition_evolve P g id t out g' : transition_post P g id t out g' → live_evolve g g'.
Proof.
  intros (g1 & _ & Hsw & Hout). etrans; [by apply swept_evolve|]. destruct out as [d|e]; [|by subst].
  destruct Hout as [(_ & -> & _)|(r & r' & gm & Hr & Hev & _ & Hfin & _)]; [done|].
  by eapply finished_evolve.
Qed.

Lemma ingest_evolve event g out g' : ingest_post event g out g' → live_evolve g g'.
Proof.
  intros (g1 & _ & Hsw & Hout). etrans; [by apply swept_evolve|]. destruct out as [[v settled]|e]; [|by subst].
  destruct Hout as [g' _ _ _ Hsw'|i k ids g' _ _ Hsw'|ids g2 g' _ _ _ Hd _ Hsw'|id r r' r'' g' _ Hr Hev _ _ Hfin].
  - by apply swept_evolve.
  - by apply swept_evolve.
  - etrans; [|by apply swept_evolve]. destruct Hd as (records' & p & j & dropped & kept & -> & Hlog & _).
    intros id r' Hr' _. destruct Hlog as [_ Hback]. destruct (Hback id r' Hr') as (r & Hr & _ & Hev & _). by exists r.
  - by eapply finished_evolve.
Qed.

Lemma insert_originate id request now r g g' out :
  running_runtime_operation_record id request now = Ok r →
  (∃ g1, registry_wf g1 ∧ swept g g1 ∧ insert_effect r g1 out g') → live_originate g → live_originate g'.
Proof.
  intros Hr (g1 & _ & Hsw & He) Ho.
  assert (Ho1 : live_originate g1) by (eapply live_originate_evolve; [done|by apply swept_evolve]).
  destruct (running_record_fresh _ _ _ _ Hr) as [_ Hid]. destruct out as [[]|e]; [|by destruct He as [-> _]].
  destruct He as (_ & _ & Hin & Hother & _). rewrite Hid in *. intros i ri Hi Hl.
  destruct (decide (i = id)) as [->|Hne]; [|apply Ho1; [by apply Hother|done]].
  rewrite Hin in Hi. simplify_eq. exists request. split; [|by exists now, ri].
  revert Hr. unfold running_runtime_operation_record. destruct (req_context request) as [ctx|]; [|done]. simpl.
  destruct (policy_from_request request ctx) as [policy|]; [|done]. by intros [= <-].
Qed.

Lemma registry_step_originate g g' :
  registry_wf g → registry_step g g' → live_originate g → live_originate g'.
Proof.
  intros Hg Hs Ho. destruct Hs as [id rq now r w out g g' w' Hr E|id t w out g g' w' Hok Hf E
    |event w out g g' w' Hf E|T f w out g g' w' E|w out g g' w' E|w out g g' w' E|id w out g g' w' E|g].
  - pose proof (running_record_fresh _ _ _ _ Hr) as [Hfr _].
    destruct (wp_run _ _ _ _ _ _ _ (wp_insert g r Hg Hfr) E) as [_ He]. by eapply insert_originate.
  - eapply live_originate_evolve; [done|]. eapply transition_evolve.
    exact (wp_run _ _ _ _ _ _ _ (wp_transition_any g id t Hg Hok Hf) E).
  - eapply live_originate_evolve; [done|]. eapply ingest_evolve.
    exact (wp_run _ _ _ _ _ _ _ (wp_ingest g event Hg Hf) E).
  - eapply live_originate_evolve; [done|]. apply swept_evolve.
    by apply (wp_run _ _ _ _ _ _ _ (wp_inspect f g Hg) E).
  - eapply live_originate_evolve; [done|]. apply swept_evolve. revert E. unfold next_terminal_expiry. start_wp.
    wp_step. wp_step. wp_step. wp_step. wp_step.
    eapply wp_mono; [apply wp_sweep; [apply rw_core, Hg | by apply swept_bytes]|].
    intros o g2 (-> & _ & Hsw & _). by wp_go.
  - eapply live_originate_evolve; [done|]. apply swept_evolve. revert E. unfold sweep_expired_terminal_history.
    start_wp. wp_step. wp_step. wp_step. wp_step.
    eapply wp_mono; [apply wp_sweep; [apply rw_core, Hg | by apply swept_bytes]|].
    by intros o g2 (_ & _ & ? & _).
  - destruct (wp_run _ _ _ _ _ _ _ (wp_remove g id Hg) E) as (_ & _ & Hdel & _).
    intros i r Hi Hl. rewrite Hdel in Hi. apply lookup_delete_Some in Hi as [_ Hi]. by apply Ho.
  - done.
Qed.

Lemma reachable_originate g : rtc registry_step registry_new g → registry_wf g ∧ live_originate g.
Proof.
  assert (Hall : ∀ g1 g2, rtc registry_step g1 g2 → registry_wf g1 ∧ live_originate g1 → registry_wf g2 ∧ live_originate g2).
  { intros g1 g2 Hr. induction Hr as [|g1 g2 g3 Hs _ IH]; [done|]. intros [Hw Ho]. apply IH.
    split; [by eapply registry_step_wf|by eapply registry_step_originate]. }
  intros Hr. apply (Hall _ _ Hr). split; [apply registry_new_wf|]. intros id r Hr0. simpl in Hr0.
  by rewrite lookup_empty in Hr0.
Qed.

(** What the request fixed is what the record says. *)
Lemma originates_static id request r :
  originates id request r →
  op_operation_id (rec_operation r) = id ∧ op_cancellable (rec_operation r) = req_cancellable request
  ∧ op_label (rec_operation r) = req_label request
  ∧ ∃ ctx, req_context request = Ok ctx ∧ policy_from_request request ctx = Ok (op_policy (rec_operation r)).
Proof.
  intros [_ (now & r0 & Hr0 & Hev)]. pose proof (evo_static _ _ Hev) as Hst.
  revert Hr0. unfold running_runtime_operation_record. destruct (req_context request) as [ctx|]; [|done]. simpl.
  destruct (policy_from_request request ctx) as [policy|] eqn:Ep; [|done]. intros [= <-].
  unfold op_static in Hst. simpl in Hst. injection Hst. intros. split_and!; [done|done|done|].
  exists ctx. split; [done|]. congruence.
Qed.
End origins.

Section ranks.
Context `{SerdeJson} {Request : Type}.
Abbreviation Record_ := (RuntimeOperationRecord Request).
Abbreviation Registry := (RuntimeOperationRegistry Request).
Implicit Types r : RuntimeOperationRecord Request.
Implicit Types g : RuntimeOperationRegistry Request.

Definition rank r : Z := status_rank (op_status (rec_operation r)).

(** The operation, if it is still recorded, has come at least as far as [n]:
    2 is a cancellation in progress, 3 a settlement. *)
Definition not_before (n : Z) g (id : RuntimeOperationId) : Prop :=
  ∀ r, rg_records g !! id = Some r → n ≤ rank r.

Lemma rank_terminal r : is_terminal (op_status (rec_operation r)) = true ↔ rank r = 3.
Proof. unfold rank. by destruct (op_status (rec_operation r)). Qed.

Lemma rank_bound r : 0 ≤ rank r ≤ 3.
Proof. unfold rank. destruct (op_status (rec_operation r)); simpl; lia. Qed.

Lemma evolves_rank r r' : evolves r r' → rank r ≤ rank r'.
Proof. intros [_ [Heq|Hlt] _ _ _ _ _ _ _]; unfold rank; [rewrite Heq|]; lia. Qed.

(** Nothing moves back. *)
Definition advances g g' : Prop := ∀ n id, n ≤ 3 → not_before n g id → not_before n g' id.

#[export] Instance advances_preorder : PreOrder advances.
Proof. split; [by intros g n id|]. intros g1 g2 g3 H1 H2 n id Hn Hb. apply H2, H1; done. Qed.

Lemma swept_advances g g' : swept g g' → advances g g'.
Proof.
  intros Hsw n id Hn Hb r' Hr'. destruct (sw_old _ _ Hsw id r' Hr') as (r & Hr & Hp).
  unfold rank. rewrite (purged_field (λ r, op_status (rec_operation r)) r r') by done. by apply Hb.
Qed.

Lemma finished_advances g0 id r r' gm g' :
  rg_records g0 !! id = Some r → evolves r r' → finished g0 id r r' gm g' → advances g0 g'.
Proof.
  intros Hr Hev Hfin n i Hn Hb ri Hri. destruct (decide (i = id)) as [->|Hne].
  - destruct (fi_settled _ _ _ _ _ _ Hfin ri Hri) as [Hst _]. apply evolves_rank in Hev.
    specialize (Hb r Hr). unfold rank in *. rewrite Hst. lia.
  - destruct (is_terminal (op_status (rec_operation ri))) eqn:Et.
    + apply rank_terminal in Et. lia.
    + apply Hb. by apply (fi_others _ _ _ _ _ _ Hfin i ri Hne Et).
Qed.

Lemma transition_advances P g id t out g' : transition_post P g id t out g' → advances g g'.
Proof.
  intros (g1 & _ & Hsw & Hout). transitivity g1; [by apply swept_advances|].
  destruct out as [d|e]; [|by subst].
  destruct Hout as [(_ & -> & _)|(r & r' & gm & Hr & Hev & _ & Hfin & _)]; [done|].
  by eapply finished_advances.
Qed.

Lemma deferred_advances event ids g out g' : deferred_post event ids g out g' → advances g g'.
Proof.
  destruct out as [u|e]; [|by intros ->].
  intros (records' & p & j & dropped & kept & -> & [_ Hback] & _) n id Hn Hb r' Hr'. simpl in Hr'.
  destruct (Hback id r' Hr') as (r & Hr & _ & Hev & _). apply evolves_rank in Hev.
  specialize (Hb r Hr). lia.
Qed.

Lemma ingest_advances event g out g' : ingest_post event g out g' → advances g g'.
Proof.
  intros (g1 & _ & Hsw & Hout). transitivity g1; [by apply swept_advances|].
  destruct out as [[v settled]|e]; [|by subst].
  destruct Hout as [g' _ _ _ Hs|i k ids g' _ _ Hs|ids g2 g' _ _ _ Hd _ Hs|id r r' r'' g' _ Hr Hev _ _ Hfin].
  - by apply swept_advances.
  - by apply swept_advances.
  - transitivity g2; [by eapply deferred_advances | by apply swept_advances].
  - by eapply finished_advances.
Qed.

Lemma ingest_settled event g v id g' : ingest_post event g (Ok (v, Some id)) g' → not_before 3 g' id.
Proof.
  intros (g1 & _ & Hsw & Hout). inversion Hout as [| | |i r r' r'' g2 _ Hr Hev _ _ Hfin Hv Hid]; subst.
  destruct (is_terminal (op_status (rec_operation r'))) eqn:Et; [|done]. injection Hid as <-.
  intros r2 Hr2. destruct (fi_settled _ _ _ _ _ _ Hfin r2 Hr2) as [Hst _].
  apply rank_terminal in Et. unfold rank in *. rewrite Hst. lia.
Qed.

(** ** How far a transition goes *)
Definition target (t : RuntimeOperationTransition) : Z :=
  match t with
  | Resolved (Accepted _) => 1
  | CleanupUnconfirmed _ => 2
  | _ => match settles_as t with Some _ => 3 | None => 0 end
  end.

Lemma target_bound t : 0 ≤ target t ≤ 3.
Proof. destruct t as [| |[| |]| | | | | | | | | | |]; simpl; lia. Qed.

Lemma same_core_rank r r' : same_core r r' → rank r' = rank r.
Proof. intros Hc. unfold rank. by rewrite (same_core_status _ _ Hc). Qed.

Lemma wp_push_rank phase message p res err r :
  wp (push_runtime_operation_event_locked phase message p res err) (λ _ r', rank r' = rank r) r.
Proof. eapply wp_mono; [apply push_frame|]. intros out r' [Hc _]. by apply same_core_rank. Qed.

Lemma wp_live_target t r :
  record_wf r → live r →
  wp (apply_live_transition t) (λ out r', is_ok out = true → target t ≤ rank r') r.
Proof.
  intros Hwf Hl. destruct (settles_as t) as [effect|] eqn:Es.
  { eapply wp_mono; [by apply (wp_live_settles t effect)|]. intros out r' Hs Hok.
    destruct (Hs Hok) as [_ Hset]. pose proof (target_bound t) as Hb.
    assert (rank r' = 3); [|lia]. apply rank_terminal. destruct t as [| |[| |]| | | | | | | | | | |];
      simplify_eq/=; destruct Hset as (-> & _); done. }
  destruct t as [| |[v|a|v]| | | | | | | | | | |]; simplify_eq/=;
    try (eapply wp_mono; [apply wp_true|]; intros; apply rank_bound).
  - unfold apply_outcome, set_operation. wp_step. wp_step. wp_step. wp_step. wp_step. wp_step. wp_step.
    eapply wp_mono; [apply wp_push_rank|]. intros [[]|e] r' Hr; [wp_go|done]. intros _. rewrite Hr.
    unfold rank. simpl. case_if E; [|done].
    apply bool_decide_eq_true in E. simpl. by rewrite E.
  - unfold set_operation. wp_step. wp_step. wp_step. set (Q := λ r', rank r' = 2).
    assert (Hpush : ∀ r1 (d : TransitionDisposition), Q r1 →
      wp (push_runtime_operation_event_locked "cleanup_unconfirmed"
            "adapter cleanup lacks remote termination evidence" (op_progress (rec_operation r)) None (Some error) ;;
          mret d) (λ out r', is_ok out = true → 2 ≤ rank r') r1).
    { intros r1 d HQ. wp_step. eapply wp_mono; [apply wp_push_rank|].
      intros [[]|e] r' Hr; [wp_go|done]. intros _. rewrite Hr, HQ. lia. }
    assert (Herr : ∀ r1 (d : TransitionDisposition), Q r1 →
      wp (match op_error (rec_operation r) with
          | Some _ => mret ()
          | None =>
              let '(retained, redacted_bytes) := bounded_terminal_operation_error (Some error) in
              modify (λ r, r <| rec_operation ::= λ o, o <| op_error := retained |> |>) ;;
              modify (λ r, r <| rec_error_redacted_bytes := redacted_bytes |>)
          end ;;
          push_runtime_operation_event_locked "cleanup_unconfirmed"
            "adapter cleanup lacks remote termination evidence" (op_progress (rec_operation r)) None (Some error) ;;
          mret d) (λ out r', is_ok out = true → 2 ≤ rank r') r1).
    { intros r1 d HQ. destruct (op_error (rec_operation r)); [wp_step; wp_step; by apply Hpush|].
      destruct (bounded_terminal_operation_error (Some error)). wp_step. wp_step. wp_step. wp_step.
      by apply Hpush. }
    case_if E; [wp_step; apply Herr; apply bool_decide_eq_true in E; unfold Q, rank; by rewrite E|].
    wp_step. by apply Herr.
Qed.

(** The reducer: a live operation reaches the target, a settled one stays. *)
Lemma wp_reducer_target id t (records : gmap RuntimeOperationId Record_) r :
  records !! id = Some r → record_wf r →
  wp (apply_runtime_operation_transition id t) (λ out records', is_ok out = true →
    ∃ r', records' !! id = Some r' ∧ target t ≤ rank r') records.
Proof.
  intros Hr Hwf. apply wp_transition; [congruence|..]; intros r0 Hr0; simplify_eq.
  - intros Ht. eapply wp_mono; [apply wp_push_rank|]. cbv beta. intros out r' Hk _. exists r'.
    rewrite lookup_insert_eq. split; [done|]. apply rank_terminal in Ht. pose proof (target_bound t). lia.
  - intros Hl. split.
    + intros problem a -> _. apply wp_mutation_post; [done|].
      eapply wp_mono; [by apply wp_reject_settles|]. intros out r' Hs Hok. exists r'.
      rewrite lookup_insert_eq. split; [done|]. destruct (Hs Hok) as [_ (Hst & _)].
      unfold rank. rewrite Hst. simpl. lia.
    + intros _. apply wp_mutation_post; [done|]. eapply wp_mono; [by apply wp_live_target|].
      intros out r' Hk Hok. exists r'. rewrite lookup_insert_eq. auto.
Qed.

(** The replay of early events does not undo it. *)
Lemma wp_deferred_rank event r :
  wp (apply_deferred_module_event event) (λ _ r', rank r ≤ rank r') r.
Proof.
  unfold apply_deferred_module_event. apply wp_mutation_post; [done|].
  assert (Hpush : ∀ phase message res err (b : bool),
    wp (push_runtime_operation_event_locked phase message None res err ;; mret b)
       (λ _ r', rank r ≤ rank r') r).
  { intros. wp_step. eapply wp_mono; [apply wp_push_rank|].
    intros [[]|e] r' Hr; [wp_go|]; lia. }
  wp_step. wp_step. destruct (op_terminal_event (rec_operation r)) as [contract|] eqn:Ec; [|by apply Hpush].
  case_if E1; [by apply Hpush|]. case_if E2; [by apply Hpush|]. wp_step.
  cut (wp (apply_correlated_module_event event) (λ _ r', rank r ≤ rank r') r).
  { intros Hc. eapply wp_mono; [exact Hc|]. intros [[]|e] r' ?; [wp_go|]; done. }
  unfold apply_correlated_module_event. wp_step. wp_step. wp_step. wp_step. rewrite Ec. simpl.
  case_if Ep; wp_step; (eapply wp_mono; [apply wp_event_progress_waits|]);
    intros o r1 (-> & _ & Hst); assert (Hr1 : rank r1 = rank r) by (unfold rank; by rewrite Hst).
  - wp_step. wp_step. eapply wp_mono; [apply wp_push_rank|]. cbv beta. intros out r' ?. lia.
  - case_if Ef; (eapply wp_mono; [by apply (wp_terminalize_waits (waits r1))|]);
      intros out r' [_ Ht%rank_terminal]; pose proof (rank_bound r); lia.
Qed.

Lemma wp_replay_loop_rank n module_name id pend ret g r :
  rg_records g !! id = Some r → n ≤ rank r →
  wp (replay_loop module_name id pend ret)
     (λ out g', is_ok out = true → ∃ r', rg_records g' !! id = Some r' ∧ n ≤ rank r') g.
Proof.
  revert ret g r. induction pend as [|p pend IH]; intros ret g r Hr Hn; simpl.
  { case_if E; wp_go; intros _; by exists r. }
  case_if Ec.
  { wp_step. wp_step. destruct (push_back ret p) as [ret'|]; [|done]. by apply (IH ret' g r). }
  wp_step. wp_step. apply wp_on_records. eapply wp_on_record; [done|].
  eapply wp_mono; [apply wp_deferred_rank|]. cbv beta. intros out r1 Hk.
  assert (Hlook : rg_records (g <| rg_records := <[id := r1]> (rg_records g) |>) !! id = Some r1)
    by apply lookup_insert_eq.
  destruct out as [[]|e].
  - apply (IH _ _ r1); [done|lia].
  - case_if Eh; [|apply (IH _ _ r1); [done|lia]]. wp_step. wp_step.
    destruct (push_back ret _) as [ret'|]; [|done]. apply (IH _ _ r1); [done|lia].
  - wp_step. wp_step. destruct (push_back ret p ≫= _); by wp_go.
Qed.

Lemma wp_replay_rank n module_name id g r :
  rg_records g !! id = Some r → n ≤ rank r →
  wp (replay_pending_module_events module_name id)
     (λ out g', is_ok out = true → ∃ r', rg_records g' !! id = Some r' ∧ n ≤ rank r') g.
Proof.
  intros Hr Hn. unfold replay_pending_module_events. wp_step. wp_step. wp_step. wp_step.
  rewrite Hr. destruct (ensure_record_event_cursor_capacity _ _) as [[]|]; [|done].
  destruct (rg_pending_module_events g !! module_name) as [j|]; [|wp_go; intros _; by exists r].
  wp_step. wp_step. wp_step. wp_step. simpl. by apply (wp_replay_loop_rank n _ _ _ _ _ r).
Qed.

(** A transition that succeeds leaves the operation at its target, or forgotten. *)
Lemma wp_transition_target g id t :
  registry_wf g → transition_ok t → transition_fits t →
  wp (transition id t) (λ out g', transition_post (λ _, True) g id t out g'
    ∧ (is_ok out = true → not_before (target t) g' id)) g.
Proof.
  intros Hg Ho Hf.
  assert (Hbody : ∀ g1 r, registry_wf g1 → swept g g1 → rg_records g1 !! id = Some r →
    wp (transition_body id t (replay_module r t))
       (λ out gm, is_ok out = true → ∀ r', rg_records gm !! id = Some r' → target t ≤ rank r') g1).
  { intros g1 r Hg1 _ Hr. unfold transition_body. wp_step. apply wp_on_records.
    assert (Hw : record_wf r) by apply (st_entries _ (rc_store _ (rw_core _ Hg1)) id r Hr).
    eapply wp_mono; [by apply (wp_reducer_target id t _ r)|].
    intros [d|e] records' Ht; [|done]. destruct (Ht eq_refl) as (r1 & Hr1 & Hn).
    wp_step. destruct (replay_module r t) as [module_name|].
    - eapply wp_mono; [by apply (wp_replay_rank (target t) module_name id _ r1)|].
      intros [[]|e] gm Hk; [wp_go|done]. intros _ r' Hr'. destruct (Hk eq_refl) as (r2 & Hr2 & ?). congruence.
    - wp_step. wp_go. intros _ r' Hr'. simpl in Hr'. congruence. }
  eapply wp_mono; [by apply (wp_registry_transition (λ r', target t ≤ rank r') g id t Hg Ho Hf)|].
  intros out g' (g1 & Hg1 & Hsw & Hout). split.
  - exists g1. split; [done|]. split; [done|]. destruct out as [d|e]; [|done].
    destruct Hout as [?|(r & r' & gm & ? & ? & _ & ? & ?)]; [by left|]. right. by exists r, r', gm.
  - intros Hok r2 Hr2. destruct out as [d|e]; [|done].
    destruct Hout as [(Hnone & -> & _)|(r & r' & gm & _ & _ & Ht & Hfin & _)]; [congruence|].
    destruct (fi_settled _ _ _ _ _ _ Hfin r2 Hr2) as [Hst _]. unfold rank in *. by rewrite Hst.
Qed.

(** A cancellation that is applied leaves the operation cancelling. *)
Lemma wp_cancel_applied g id :
  registry_wf g →
  wp (transition id CancelRequested) (λ out g', transition_post (λ _, True) g id CancelRequested out g'
    ∧ (out = Ok Applied → not_before 2 g' id)) g.
Proof.
  intros Hg. apply wp_and; [by apply wp_registry_transition; try done; intros; eapply wp_mono; [apply wp_true|]|].
  eapply wp_mono; [apply (wp_registry_transition_answer (λ d r', d = Applied → 2 ≤ rank r') g id
    CancelRequested Hg I I)|].
  2:{ intros [d|e] g' Hout; [|done]. intros [= ->]. destruct Hout as (g1 & _ & _ & Hcase).
      intros r2 Hr2. destruct Hcase as [(Hnone & -> & [=])|(r & r' & gm & _ & _ & Ht & Hfin & _)].
      destruct (fi_settled _ _ _ _ _ _ Hfin r2 Hr2) as [Hst _]. unfold rank in *. rewrite Hst. by apply Ht. }
  intros g1 r Hg1 _ Hr. unfold transition_body. wp_step. apply wp_on_records.
  apply wp_transition; [congruence|..]; intros r0 Hr0; simplify_eq.
  - intros Ht. eapply wp_mono; [apply wp_true|]. intros [[]|e] r' _; simpl; [|done].
    wp_step. destruct (replay_module r CancelRequested) as [m|].
    + eapply wp_mono; [apply wp_true|]. intros [[]|e] gm _; [wp_go|done]. by intros d [= <-] ? ? [=].
    + wp_go. by intros d [= <-] ? ? [=].
  - intros Hl. split; [by intros ? ? [=]|]. intros _. apply wp_mutation_post; [done|].
    assert (Hrep : replay_module r CancelRequested = None)
      by (unfold replay_module; simpl; by rewrite andb_false_r). rewrite Hrep.
    cbn [apply_live_transition]. unfold apply_cancel_requested, set_operation. wp_step. wp_step.
    case_if E1; [|case_if E2; [|wp_step; wp_step]]; wp_step; (eapply wp_mono; [apply wp_push_rank|]);
      cbv beta; intros [[]|e] r' Hk; [|done| |done| |done].
    1,2: wp_go; by intros d [= <-] ? ? [=].
    wp_go. intros d [= <-] r2 Hr2 _. simpl in Hr2. rewrite lookup_insert_eq in Hr2. simplify_eq.
    rewrite Hk. unfold rank. simpl. lia.
Qed.

Lemma transition_post_wf P g id t out g' : transition_post P g id t out g' → registry_wf g'.
Proof.
  intros (g1 & Hg1 & _ & Hout). destruct out as [d|e]; [|by subst].
  destruct Hout as [(_ & -> & _)|(r & r' & gm & _ & _ & _ & Hfin & _)]; [done|]. apply Hfin.
Qed.

Lemma ingest_post_wf event g out g' : ingest_post event g out g' → registry_wf g'.
Proof.
  intros (g1 & Hg1 & _ & Hout). destruct out as [[v settled]|e]; [|by subst].
  destruct Hout as [g' _ _ ? _|i k ids g' _ ? _|ids g2 g' _ _ _ _ ? _|id r r' r'' g' _ _ _ _ _ Hfin]; [done..|apply Hfin].
Qed.
End ranks.
