(* ===== verification/SupervisorSystem.v ===== *)
(** * The supervisor among its threads

    The state of [Supervisor] together with the threads that use it: callers
    that admit, cancel or close, adapters that report events, the tasks of
    admitted operations and their workers, and the reducer.  A thread is cut
    where it takes a lock of the supervisor or of the registry, where it uses a
    control, and where it awaits; a run is any interleaving of these steps, up
    to a failure of the reducer (for which see [recovery_leaves_nothing_supervised]
    and [finish_reducer]).  A call on a control is one step: its atomic accesses
    are interleaved in [ControlTheorems].  The arms of the reducer are steps as
    a whole as well, for the runs in which nothing comes between.

    A ledger says for each admitted operation who owns its admission, and with
    it one permit: the thread that is admitting it, the command channel, the
    task that executes it or waits for it, the reducer, or whoever is about to
    drop the permit. *)

From S2P Require Import Prelude Json ModuleEvents OperationRecord Transition OperationViews.
From S2P Require Import OperationControl ControlTheorems RecordInvariants Registry Supervisor.
From S2P Require Import RegistryInvariant RegistrySweep RegistryMethods RegistryIngest RegistryTheorems.
From S2P Require Import StatusRanks.

(** How far a thread is in [admit]. *)
Inductive AdmitStage : Type := StagePrepared | StageInserted | StageSynchronized | StageSending.

(** Where the reducer is with the operation it has in hand: a command it has
    received, then the stages of [handle_joined_task] and [handle_task_exit]. *)
Inductive Hand (Request : Type) : Type :=
  | HandCommand (cleanup : OperationCleanup) (request : Request)
  | HandJoined (descriptor : TaskDescriptor) (joined : JoinedTask)
  | HandDraining (descriptor : TaskDescriptor) (joined : JoinedTask)
  | HandIdle (descriptor : TaskDescriptor) (joined : JoinedTask)
  | HandSettle (transition_ : RuntimeOperationTransition)
  | HandExit (descriptor : TaskDescriptor) (transition_ : option RuntimeOperationTransition) (retain : bool)
  | HandStatus (descriptor : TaskDescriptor) (retain : bool)
  | HandKeep (descriptor : TaskDescriptor)
  | HandFinish.
Arguments HandCommand {Request} _ _.
Arguments HandJoined {Request} _ _.
Arguments HandDraining {Request} _ _.
Arguments HandIdle {Request} _ _.
Arguments HandSettle {Request} _.
Arguments HandExit {Request} _ _ _.
Arguments HandStatus {Request} _ _.
Arguments HandKeep {Request} _.
Arguments HandFinish {Request}.

Inductive Place (Request : Type) : Type :=
  | Admitting (stage : AdmitStage) (cleanup : OperationCleanup) (request : Request)
  | Queued
  | Supervised (task_id : TaskId)
  | InHand (hand : Hand Request)
  | Leaving (taken : bool).
Arguments Admitting {Request} _ _ _.
Arguments Queued {Request}.
Arguments Supervised {Request} _.
Arguments InHand {Request} _.
Arguments Leaving {Request} _.

(** Whether the control is among the registered ones, and whether the thread
    has compared it with the registry and the phase. *)
Definition prepared {Request} (p : Place Request) : bool :=
  match p with Admitting StagePrepared _ _ => true | _ => false end.
Definition registered {Request} (p : Place Request) : bool :=
  match p with Admitting StagePrepared _ _ | Leaving _ => false | _ => true end.
Definition synchronized {Request} (p : Place Request) : bool :=
  match p with Admitting (StagePrepared | StageInserted) _ _ | Leaving _ => false | _ => true end.

(** Whether the supervisor has taken the operation over from its caller. *)
Definition taken {Request} (p : Place Request) : bool :=
  match p with Queued | Supervised _ | InHand _ | Leaving true => true | Admitting _ _ _ | Leaving false => false end.
Definition in_hand {Request} (p : Place Request) : bool := match p with InHand _ => true | _ => false end.

Definition queued {Request} (p : Place Request) : bool := match p with Queued => true | _ => false end.
Definition is_applied (out : Result TransitionDisposition) : bool :=
  match out with Ok Applied => true | _ => false end.

(** What the task of an operation may do to its control while it runs. *)
Inductive TaskEffect : Type :=
  | EffectBegin (now : Instant) | EffectDeadline | EffectCommit | EffectCommitDrop
  | EffectFileCreated | EffectWorker | EffectWorkerDrop.
Definition task_effect (root : bool) (e : TaskEffect) (c : OperationControl) : OperationControl :=
  match e with
  | EffectBegin now => (begin_execution now root c).2
  | EffectDeadline => request_deadline c
  | EffectCommit => (begin_non_cancellable_commit c).2
  | EffectCommitDrop => commit_guard_drop c
  | EffectFileCreated => mark_disposable_file_created c
  | EffectWorker => c <| oc_blocking_work ::= λ s, (worker_guard s).2 |>
  | EffectWorkerDrop => c <| oc_blocking_work ::= guard_drop |>
  end.

Section system.
Context `{SerdeJson} `{OperationRequest Request} `{!SupervisedRequest Request}.
Abbreviation Sup := (Supervisor Request).
Abbreviation Registry := (RuntimeOperationRegistry Request).
Implicit Types g : RuntimeOperationRegistry Request.

Record System : Type := mkSystem {
  sy_sup : Sup;
  sy_ledger : gmap RuntimeOperationId (ControlRef * Place Request);
  (* the operation each control was created for *)
  sy_owner : list RuntimeOperationId;
  (* cancellations: applied in the registry, passed on to the supervisor, and
     those that have reached a control *)
  sy_applied : gset RuntimeOperationId;
  sy_acknowledged : gset RuntimeOperationId;
  sy_signalled : gset RuntimeOperationId;
  (* operations the registry reported as settled by an event *)
  sy_settled : gset RuntimeOperationId;
}.
#[export] Instance System_eta : Eta System := λ y,
  mkSystem (sy_sup y) (sy_ledger y) (sy_owner y) (sy_applied y) (sy_acknowledged y) (sy_signalled y)
    (sy_settled y).

Definition system_new : System := mkSystem (supervisor_new registry_new) ∅ [] ∅ ∅ ∅ ∅.

(** The exits a task can have: it reports its own operation, a wait ends as its
    policy says, and a cancellation is only reported when one was signalled. *)
Definition exit_of_task (y : System) (t : SupervisedTask Request) (now : Instant) (exit : OperationTaskExit) : Prop :=
  match t, exit with
  | ExecutionTask id _ _, ExitExecution id' result =>
      id' = id
      ∧ (∀ transition_, transition_for_execution_result result = Some transition_ → transition_fits transition_)
      ∧ ∀ i, result = TaskInterrupted i → oi_reason i = StopCancelRequested → id ∈ sy_signalled y
  | ExternalTask id ref policy, ExitExternal id' result =>
      id' = id
      ∧ ∃ c, sv_heap (sy_sup y) !! ref = Some c
        ∧ wait_for_external_completion policy (oc_settled c) (sv_root (sy_sup y)) (oc_deadline c) now = Some result
  | _, _ => False
  end.

Definition joined_of_task (y : System) (t : SupervisedTask Request) (joined : JoinedTask) : Prop :=
  match joined with
  | JoinedExit _ exit => ∃ now, exit_of_task y t now exit
  | JoinedPanic _ error => text_fits ("runtime operation task panicked: " +:+ error)
  | JoinedAborted _ error => text_fits ("runtime operation task was aborted: " +:+ error)
  end.

(** Texts the reducer itself passes to the registry fit: the message of a
    failed removal and the message of an uncertain cleanup. *)
Definition descriptor_fits (y : System) (d : TaskDescriptor) : Prop :=
  text_fits ("runtime operation stopped during shutdown; cleanup remains unconfirmed: "
             +:+ default "" (td_cleanup_uncertainty d))
  ∧ ∀ remove_file e, run_cleanup remove_file (sv_heap (sy_sup y)) (td_cleanup d) = Err e → text_fits (error_text e).

(** Other calls on the registry: of other threads, and the reducer's look at
    the next expiry. *)
Inductive registry_call : Registry → Registry → Prop :=
  | call_transition id t w out g g' w' :
      transition_ok t → transition_fits t → transition id t g w = (out, g', w') → registry_call g g'
  | call_ingest event w out g g' w' :
      event_fits event → ingest_module_event_with_settlement event g w = (out, g', w') → registry_call g g'
  | call_inspect T (f : gmap RuntimeOperationId (RuntimeOperationRecord Request) → T) w out g g' w' :
      inspect f g w = (out, g', w') → registry_call g g'
  | call_next_expiry w out g g' w' : next_terminal_expiry g w = (out, g', w') → registry_call g g'
  | call_remove id w out g g' w' : remove id g w = (out, g', w') → registry_call g g'.

(** Whether the registry shows a cancellation in progress, which is when a
    thread that admits the operation signals it. *)
Definition is_canceling g (id : RuntimeOperationId) : bool :=
  match rg_records g !! id with
  | Some r => bool_decide (op_status (rec_operation r) = StCanceling)
  | None => false
  end.

(** The ledger after an operation has left its place. *)
Definition moved (id : RuntimeOperationId) (entry : option (ControlRef * Place Request)) (s : Sup) (y : System) : System :=
  y <| sy_sup := s |> <| sy_ledger ::= λ l, match entry with Some e => <[id := e]> l | None => delete id l end |>.

(** The reducer is between two arms. *)
Definition reducer_idle (y : System) : bool :=
  bool_decide (map_Forall (λ _ e, in_hand e.2 = false) (sy_ledger y)).

(** What a task that did not end by itself becomes. *)
Definition joined_failure (joined : JoinedTask) : option RuntimeOperationTransition :=
  match joined with
  | JoinedExit _ _ => None
  | JoinedPanic _ error => Some (TaskPanicked ("runtime operation task panicked: " +:+ error))
  | JoinedAborted _ error => Some (TaskAborted ("runtime operation task was aborted: " +:+ error))
  end.

(** The reducer's next step on the operation it has in hand.  A task is spawned
    and registered in one step: until it is registered it can only use its
    control, which it may as well do afterwards. *)
Inductive hand_step (y : System) (id : RuntimeOperationId) (ref : ControlRef)
    : Hand Request → Place Request → Sup → Prop :=
  | hand_launch cleanup request w s' w' :
      launch_command (mkAdmission id ref cleanup, request) (sy_sup y) w = (Ok (), s', w') →
      hand_step y id ref (HandCommand cleanup request) (Supervised (sv_next_task (sy_sup y))) s'
  (* [await_blocking_work_idle]: the tracker is closed, then it becomes idle *)
  | hand_stop_accepting d joined w s' w' :
      on_control ref (λ c, c <| oc_blocking_work ::= stop_accepting |>) (sy_sup y) w = (Ok (), s', w') →
      hand_step y id ref (HandJoined d joined) (InHand (HandDraining d joined)) s'
  | hand_idle d joined c :
      sv_heap (sy_sup y) !! ref = Some c → is_idle (oc_blocking_work c) = true →
      hand_step y id ref (HandDraining d joined) (InHand (HandIdle d joined)) (sy_sup y)
  (* the cleanup, and what follows from the way the task ended *)
  | hand_cleanup_failed d joined remove_file error w s' w' :
      descriptor_fits y d → cleanup_run remove_file (td_cleanup d) (sy_sup y) w = (Ok (Err error), s', w') →
      hand_step y id ref (HandIdle d joined) (InHand (HandSettle (CleanupFailed (error_text error)))) s'
  | hand_task_failed d joined remove_file t w s' w' :
      cleanup_run remove_file (td_cleanup d) (sy_sup y) w = (Ok (Ok ()), s', w') → joined_failure joined = Some t →
      hand_step y id ref (HandIdle d joined) (InHand (HandSettle t)) s'
  | hand_reduce d tid exit remove_file id' d' t retain w s1 w1 s' w' :
      descriptor_fits y d → cleanup_run remove_file (td_cleanup d) (sy_sup y) w = (Ok (Ok ()), s1, w1) →
      reduce_exit exit d s1 w1 = (Ok (id', d', t, retain), s', w') →
      hand_step y id ref (HandIdle d (JoinedExit tid exit)) (InHand (HandExit d' t retain)) s'
  (* calls on the registry *)
  | hand_settle t disposition w s' w' :
      on_registry (transition id t) (sy_sup y) w = (Ok disposition, s', w') →
      hand_step y id ref (HandSettle t) (InHand HandFinish) s'
  | hand_transition d t retain disposition w s' w' :
      on_registry (transition id t) (sy_sup y) w = (Ok disposition, s', w') →
      hand_step y id ref (HandExit d (Some t) retain) (InHand (HandStatus d retain)) s'
  | hand_no_transition d retain :
      hand_step y id ref (HandExit d None retain) (InHand (HandStatus d retain)) (sy_sup y)
  | hand_status d retain status w s' w' :
      operation_status id (sy_sup y) w = (Ok status, s', w') →
      hand_step y id ref (HandStatus d retain)
        (InHand (if retain && awaits_external status then HandKeep d else HandFinish)) s'
  (* the operation is kept in a new task, or it leaves *)
  | hand_keep d w s' w' :
      (task_id ← spawn_operation_task (ExternalTask id (td_control d) (td_external_wait_policy d));
       insert_descriptor task_id (d <| td_kind := KindExternal |> <| td_cleanup := [] |>))
        (sy_sup y) w = (Ok (), s', w') →
      hand_step y id ref (HandKeep d) (Supervised (sv_next_task (sy_sup y))) s'
  | hand_finish w s' w' :
      finish_operation id (sy_sup y) w = (Ok (), s', w') → hand_step y id ref HandFinish (Leaving true) s'.

Inductive system_step : System → System → Prop :=
  (* registry calls of other threads; [start_admitted] of [mod.rs] inserts the
     record of an operation between [prepare] and [admit], under a new id *)
  | step_insert_record id request now r w out g' w' y :
      (∀ e, sy_ledger y !! id = Some e → prepared e.2 = true) →
      id ∉ sy_applied y ∪ sy_signalled y ∪ sy_settled y →
      running_runtime_operation_record id request now = Ok r →
      insert_record r (sv_registry (sy_sup y)) w = (out, g', w') →
      system_step y (y <| sy_sup ::= λ s, s <| sv_registry := g' |> |>)
  | step_registry g' y :
      registry_call (sv_registry (sy_sup y)) g' →
      system_step y (y <| sy_sup ::= λ s, s <| sv_registry := g' |> |>)
  (* [request_cancel] of [mod.rs]: the registry first, then the control *)
  | step_cancel_registry id w out g' w' y :
      transition id CancelRequested (sv_registry (sy_sup y)) w = (out, g', w') →
      system_step y (y <| sy_sup ::= λ s, s <| sv_registry := g' |> |>
                       <| sy_applied ::= λ a, if is_applied out then {[id]} ∪ a else a |>)
  | step_cancel_control id w out s' w' y :
      id ∈ sy_applied y → cancel id (sy_sup y) w = (out, s', w') →
      system_step y (y <| sy_sup := s' |> <| sy_acknowledged ::= λ a, {[id]} ∪ a |>
                       <| sy_signalled ::= λ a, {[id]} ∪ a |>)
  (* an event settles an operation; then its control is told *)
  | step_ingest event w v settled g' w' y :
      event_fits event →
      ingest_module_event_with_settlement event (sv_registry (sy_sup y)) w = (Ok (v, settled), g', w') →
      system_step y (y <| sy_sup ::= λ s, s <| sv_registry := g' |> |>
                       <| sy_settled ::= λ a, match settled with Some id => {[id]} ∪ a | None => a end |>)
  | step_settle id w out s' w' y :
      id ∈ sy_settled y → settle id (sy_sup y) w = (out, s', w') → system_step y (y <| sy_sup := s' |>)
  (* closing *)
  | step_close_phase w out s' w' y :
      begin_close_phase (sy_sup y) w = (out, s', w') → system_step y (y <| sy_sup := s' |>)
  | step_close_root y :
      sv_phase (sy_sup y) ≠ PhaseOpen → system_step y (y <| sy_sup ::= λ s, s <| sv_root := true |> |>)
  | step_take_controller w out s' w' y :
      take_controller (sy_sup y) w = (out, s', w') → system_step y (y <| sy_sup := s' |>)
  | step_controller_stopped y :
      sv_controller (sy_sup y) = ControllerDraining → sv_phase (sy_sup y) ≠ PhaseOpen →
      system_step y (y <| sy_sup ::= λ s, s <| sv_controller := ControllerStopped |> |>)
  | step_closed shutdown_error y :
      sv_controller (sy_sup y) = ControllerStopped → sv_phase (sy_sup y) ≠ PhaseOpen →
      system_step y (y <| sy_sup ::= λ s, s <| sv_phase := PhaseClosed |> <| sv_shutdown_error := shutdown_error |> |>)
  (* [prepare], first lock by lock: the controller is started, a permit is
     taken and the control created; operation ids are not reused *)
  | step_start_controller y :
      sv_controller (sy_sup y) = ControllerUnstarted →
      system_step y (y <| sy_sup ::= λ s, s <| sv_controller := ControllerRunning |> <| sv_commands := [] |>
                            <| sv_commands_closed := false |> <| sv_shutting_down := sv_root s |> |>)
  | step_acquire id request deadline file grace w s' w' y :
      sy_ledger y !! id = None → sv_controller (sy_sup y) ≠ ControllerUnstarted →
      try_acquire_permit (sy_sup y) w = (Ok (), s', w') →
      let ref := length (sv_heap (sy_sup y)) in
      let cleanup := match file with Some _ => [ref] | None => [] end in
      system_step y (moved id (Some (ref, Admitting StagePrepared cleanup request))
                       (s' <| sv_heap ::= λ heap, heap ++
                          [control_new deadline ((λ path, mkDisposable path false) <$> file) grace] |>) y
                       <| sy_owner ::= λ l, l ++ [id] |>)
  (* then as a whole *)
  | step_prepare id request w a s' w' y :
      sy_ledger y !! id = None →
      prepare id request (sy_sup y) w = (Ok a, s', w') →
      system_step y (moved id (Some (oa_control a, Admitting StagePrepared (oa_cleanup a) request)) s' y
                       <| sy_owner ::= λ l, l ++ [id] |>)
  | step_prepare_failed id request w e s' w' y :
      prepare id request (sy_sup y) w = (Err e, s', w') → system_step y (y <| sy_sup := s' |>)
  (* [start_admitted] fails after [prepare] and drops the admission *)
  | step_prepared_dropped id ref cleanup request y :
      sy_ledger y !! id = Some (ref, Admitting StagePrepared cleanup request) →
      system_step y (moved id None ((sy_sup y) <| sv_permits ::= Z.succ |>) y)
  | step_admit_insert id ref cleanup request w out s' w' y :
      sy_ledger y !! id = Some (ref, Admitting StagePrepared cleanup request) →
      or_release (admit_insert (mkAdmission id ref cleanup)) (sy_sup y) w = (out, s', w') →
      system_step y (moved id (if is_ok out then Some (ref, Admitting StageInserted cleanup request) else None) s' y)
  | step_admit_synchronize id ref cleanup request w out s' w' y :
      sy_ledger y !! id = Some (ref, Admitting StageInserted cleanup request) →
      or_release (or_remove_control id (synchronize_admitted_control id)) (sy_sup y) w = (out, s', w') →
      system_step y (moved id (if is_ok out then Some (ref, Admitting StageSynchronized cleanup request) else None) s' y
                       <| sy_signalled ::= λ a, if is_canceling (sv_registry s') id then {[id]} ∪ a else a |>)
  | step_admit_sender id ref cleanup request w out s' w' y :
      sy_ledger y !! id = Some (ref, Admitting StageSynchronized cleanup request) →
      or_release (or_remove_control id controller_sender) (sy_sup y) w = (out, s', w') →
      system_step y (moved id (if is_ok out then Some (ref, Admitting StageSending cleanup request) else None) s' y)
  | step_admit_send id ref cleanup request w out s' w' y :
      sy_ledger y !! id = Some (ref, Admitting StageSending cleanup request) →
      or_release (admit_send (mkAdmission id ref cleanup) request) (sy_sup y) w = (out, s', w') →
      system_step y (moved id (if is_ok out then Some (ref, Queued) else None) s' y)
  (* a failed admission: its control is removed, then its permit is dropped *)
  | step_admit_failed id ref stage cleanup request w s' w' y :
      sy_ledger y !! id = Some (ref, Admitting stage cleanup request) → stage ≠ StagePrepared →
      remove_control id (sy_sup y) w = (Ok (), s', w') →
      system_step y (moved id (Some (ref, Leaving false)) s' y)
  | step_release id ref taken_ w s' w' y :
      sy_ledger y !! id = Some (ref, Leaving taken_) →
      release_permit (sy_sup y) w = (Ok (), s', w') → system_step y (moved id None s' y)
  (* tasks, and workers that outlive the task the reducer has joined *)
  | step_task tid t e y :
      sv_tasks (sy_sup y) !! tid = Some t →
      system_step y (y <| sy_sup ::= λ s, s <| sv_heap ::= alter (task_effect (sv_root s) e) (task_control t) |> |>)
  | step_worker id ref h e y :
      sy_ledger y !! id = Some (ref, InHand h) →
      system_step y (y <| sy_sup ::= λ s, s <| sv_heap ::= alter (task_effect (sv_root s) e) ref |> |>)
  (* the reducer: it takes an operation in hand and works on it *)
  | step_close_channel w s' w' y :
      reducer_idle y = true → sv_shutting_down (sy_sup y) = true →
      close_commands (sy_sup y) w = (Ok (), s', w') → system_step y (y <| sy_sup := s' |>)
  | step_receive a request rest y :
      reducer_idle y = true → sv_commands (sy_sup y) = (a, request) :: rest →
      system_step y (moved (oa_operation_id a)
        (Some (oa_control a, InHand (if sv_shutting_down (sy_sup y)
                                     then HandSettle (Shutdown not_executed_message)
                                     else HandCommand (oa_cleanup a) request)))
        ((sy_sup y) <| sv_commands := rest |>) y)
  | step_join tid t d joined w s' w' y :
      reducer_idle y = true → joined_task_id joined = tid → sv_tasks (sy_sup y) !! tid = Some t →
      sv_descriptors (sy_sup y) !! tid = Some d → joined_of_task y t joined →
      unregister_operation_task (td_operation_id d) tid
        ((sy_sup y) <| sv_tasks ::= delete tid |> <| sv_descriptors ::= delete tid |>) w = (Ok (), s', w') →
      system_step y (moved (td_operation_id d) (Some (td_control d, InHand (HandJoined d joined))) s' y)
  | step_hand id ref h p s' y :
      sy_ledger y !! id = Some (ref, InHand h) → hand_step y id ref h p s' →
      system_step y (moved id (Some (ref, p)) s' y)
  | step_deadline_of tid d now y :
      reducer_idle y = true → sv_descriptors (sy_sup y) !! tid = Some d →
      system_step y (y <| sy_sup ::= λ s, s <| sv_heap ::= expire now d |> |>)
  (* its arms as a whole *)
  | step_head w b s' w' y :
      reducer_idle y = true → loop_head (sy_sup y) w = (Ok b, s', w') →
      system_step y (y <| sy_sup := s' |>
        <| sy_ledger ::= λ l, if sv_shutting_down (sy_sup y)
             then filter (λ kv, queued kv.2.2 = false) l else l |>)
  | step_command id ref a request rest w s' w' y :
      reducer_idle y = true →
      sv_shutting_down (sy_sup y) = false → sv_commands (sy_sup y) = (a, request) :: rest →
      id = oa_operation_id a → ref = oa_control a →
      arm_command (sy_sup y) w = (Ok (), s', w') →
      system_step y (moved id (Some (ref, Supervised (sv_next_task (sy_sup y)))) s' y)
  | step_channel_closed w s' w' y :
      reducer_idle y = true →
      sv_shutting_down (sy_sup y) = false → sv_commands (sy_sup y) = [] →
      sv_controller (sy_sup y) ≠ ControllerRunning →
      arm_command (sy_sup y) w = (Ok (), s', w') → system_step y (y <| sy_sup := s' |>)
  | step_root w s' w' y :
      reducer_idle y = true → sv_root (sy_sup y) = true →
      arm_root (sy_sup y) w = (Ok (), s', w') → system_step y (y <| sy_sup := s' |>)
  | step_deadline w s' w' y :
      reducer_idle y = true → arm_deadline (sy_sup y) w = (Ok (), s', w') → system_step y (y <| sy_sup := s' |>)
  | step_expiry w s' w' y :
      reducer_idle y = true → arm_expiry (sy_sup y) w = (Ok (), s', w') → system_step y (y <| sy_sup := s' |>)
  | step_retention w s' w' y :
      reducer_idle y = true → arm_retention (sy_sup y) w = (Ok (), s', w') → system_step y (y <| sy_sup := s' |>)
  | step_joined tid t d remove_file joined w s' w' y :
      reducer_idle y = true →
      joined_task_id joined = tid → sv_tasks (sy_sup y) !! tid = Some t →
      sv_descriptors (sy_sup y) !! tid = Some d → descriptor_fits y d → joined_of_task y t joined →
      arm_joined remove_file joined (sy_sup y) w = (Ok (), s', w') →
      system_step y (moved (td_operation_id d)
        (match sv_descriptors s' !! sv_next_task (sy_sup y) with
         | Some d' => Some (td_control d', Supervised (sv_next_task (sy_sup y)))
         | None => None
         end) s' y).

(** ** The invariant *)
Definition control_ok (c : OperationControl) : Prop :=
  0 ≤ oc_stop_reason c ≤ 3 ∧ (oc_cancelled c = true → oc_stop_reason c ≠ 0)
  ∧ (oc_stop_reason c ≠ 0 → oc_execution_state c ≠ EXECUTION_QUEUED).

Record ledger_wf (s : Sup) (l : gmap RuntimeOperationId (ControlRef * Place Request)) : Prop := {
  lw_controls : ∀ id ref, sv_controls s !! id = Some ref ↔ ∃ p, l !! id = Some (ref, p) ∧ registered p = true;
  lw_queue : ∀ a request, (a, request) ∈ sv_commands s → l !! oa_operation_id a = Some (oa_control a, Queued);
  lw_queue_ids : NoDup ((λ c, oa_operation_id c.1) <$> sv_commands s);
  lw_queued : ∀ id ref, l !! id = Some (ref, Queued) → id ∈ (λ c, oa_operation_id c.1) <$> sv_commands s;
  lw_descriptors : ∀ tid d, sv_descriptors s !! tid = Some d →
    l !! td_operation_id d = Some (td_control d, Supervised tid);
  lw_supervised : ∀ id ref tid, l !! id = Some (ref, Supervised tid) → ∃ d, sv_descriptors s !! tid = Some d
    ∧ td_operation_id d = id;
  lw_live : ∀ id tid, sv_live_tasks s !! id = Some tid ↔ ∃ ref, l !! id = Some (ref, Supervised tid);
  lw_tasks : ∀ tid, match sv_tasks s !! tid, sv_descriptors s !! tid with
    | Some t, Some d => task_operation_id t = td_operation_id d ∧ task_control t = td_control d
                        ∧ task_kind t = td_kind d
    | None, None => True
    | _, _ => False
    end;
  lw_next : ∀ tid, (sv_next_task s ≤ tid)%nat → sv_tasks s !! tid = None;
  lw_permits : sv_permits s + Z.of_nat (size l) = MAX_ACTIVE_OPERATIONS;
}.

(** The record of one operation does not fall back. *)
Definition advances_at (id : RuntimeOperationId) g g' : Prop :=
  ∀ n, n ≤ 3 → not_before n g id → not_before n g' id.

(** What the reducer knows of the operation it has in hand, and what is known
    of an operation that it lets go. *)
Definition exit_ok g (id : RuntimeOperationId) (d : TaskDescriptor) (joined : JoinedTask) : Prop :=
  match joined with
  | JoinedExit _ (ExitExecution id' result) =>
      id' = id ∧ td_kind d = KindExecution
      ∧ (∀ t, transition_for_execution_result result = Some t → transition_fits t)
      ∧ (∀ i, result = TaskInterrupted i → oi_reason i = StopCancelRequested → not_before 2 g id)
  | JoinedExit _ (ExitExternal id' result) =>
      id' = id ∧ td_kind d = KindExternal ∧ (result = WaitSettled → not_before 3 g id)
  | _ => ∀ t, joined_failure joined = Some t → transition_fits t
  end.

Definition hand_ok g (id : RuntimeOperationId) (ref : ControlRef) (h : Hand Request) : Prop :=
  match h with
  | HandCommand _ _ => True
  | HandJoined d joined | HandDraining d joined | HandIdle d joined =>
      td_operation_id d = id ∧ td_control d = ref ∧ exit_ok g id d joined
  | HandSettle t => transition_ok t ∧ transition_fits t ∧ target t = 3
  | HandExit d t retain =>
      td_operation_id d = id ∧ td_control d = ref
      ∧ (∀ t', t = Some t' → transition_ok t' ∧ transition_fits t')
      ∧ ∀ g', advances_at id g g' → (∀ t', t = Some t' → not_before (target t') g' id) →
          not_before (if retain then 1 else 3) g' id
  | HandStatus d retain =>
      td_operation_id d = id ∧ td_control d = ref ∧ not_before (if retain then 1 else 3) g id
  | HandKeep d => td_operation_id d = id ∧ td_control d = ref
  | HandFinish => not_before 3 g id
  end.

Definition place_ok g (id : RuntimeOperationId) (e : ControlRef * Place Request) : Prop :=
  match e.2 with
  | InHand h => hand_ok g id e.1 h
  | Leaving true => not_before 3 g id
  | _ => True
  end.

Record system_wf (y : System) : Prop := {
  sw_registry : registry_wf (sv_registry (sy_sup y));
  sw_ledger : ledger_wf (sy_sup y) (sy_ledger y);
  sw_heap : length (sy_owner y) = length (sv_heap (sy_sup y));
  sw_owner : ∀ id ref p, sy_ledger y !! id = Some (ref, p) → sy_owner y !! ref = Some id;
  sw_control : Forall control_ok (sv_heap (sy_sup y));
  sw_settled : ∀ id ref p c, sy_ledger y !! id = Some (ref, p) → sv_heap (sy_sup y) !! ref = Some c →
    oc_settled c = true → not_before 3 (sv_registry (sy_sup y)) id;
  sw_place : ∀ id e, sy_ledger y !! id = Some e → place_ok (sv_registry (sy_sup y)) id e;
  sw_unregistered : ∀ id ref p c, sy_ledger y !! id = Some (ref, p) → prepared p = true →
    sv_heap (sy_sup y) !! ref = Some c → oc_settled c = false;
  sw_closing : sv_phase (sy_sup y) ≠ PhaseOpen → ∀ id ref p c, sy_ledger y !! id = Some (ref, p) →
    registered p = true → sv_heap (sy_sup y) !! ref = Some c → oc_stop_reason c ≠ 0;
  sw_root : sv_root (sy_sup y) = true → sv_phase (sy_sup y) ≠ PhaseOpen;
  sw_applied : ∀ id, id ∈ sy_applied y → not_before 2 (sv_registry (sy_sup y)) id;
  sw_signalled : ∀ id, id ∈ sy_signalled y → not_before 2 (sv_registry (sy_sup y)) id;
  sw_settled_ids : ∀ id, id ∈ sy_settled y → not_before 3 (sv_registry (sy_sup y)) id;
  sw_acknowledged : ∀ id ref p c, id ∈ sy_acknowledged y → sy_ledger y !! id = Some (ref, p) →
    synchronized p = true → sv_heap (sy_sup y) !! ref = Some c →
    oc_stop_reason c ≠ 0 ∨ not_before 3 (sv_registry (sy_sup y)) id;
  sw_acknowledged_applied : sy_acknowledged y ⊆ sy_applied y;
  sw_unstarted : sv_controller (sy_sup y) = ControllerUnstarted → sy_ledger y = ∅;
}.
End system.
