(* ===== verification/SupervisorInvariant.v ===== *)
(** * The invariant of the supervised system

    Every step keeps the books of the supervisor exact: who owns an admission,
    which controls and tasks are registered, how many permits are out; and it
    keeps what controls and registry say of each other. *)

From S2P Require Import Prelude Json ModuleEvents OperationRecord Transition OperationViews.
From S2P Require Import OperationControl ControlTheorems RecordInvariants Registry Supervisor.
From S2P Require Import RegistryInvariant RegistrySweep RegistryMethods RegistryIngest RegistryTheorems.
From S2P Require Import StatusRanks SupervisorSystem.

(** ** Controls *)

(** What every method but [settle] leaves of a control. *)
Record ctl_le (c c' : OperationControl) : Prop := {
  ct_ok : control_ok c → control_ok c';
  ct_stopped : oc_stop_reason c ≠ 0 → oc_stop_reason c' ≠ 0;
  ct_settled : oc_settled c' = oc_settled c;
}.

#[export] Instance ctl_le_preorder : PreOrder ctl_le.
Proof. split; [by intros c; split|]. intros c1 c2 c3 [] []. split; [auto..|congruence]. Qed.

Definition stops (f : OperationControl → OperationControl) : Prop :=
  ∀ c, ctl_le c (f c) ∧ oc_stop_reason (f c) ≠ 0.

Lemma stop_before_execution_not_queued c :
  oc_execution_state (stop_before_execution c) ≠ EXECUTION_QUEUED.
Proof.
  unfold stop_before_execution, compare_exchange. simpl.
  by destruct (Z.eqb_spec (oc_execution_state c) EXECUTION_QUEUED).
Qed.

Lemma request_cancel_stops : stops request_cancel.
Proof.
  intros c. unfold request_cancel, compare_exchange.
  assert (H0 : (if oc_stop_reason c =? 0 then (inl (oc_stop_reason c), 1)
           else (inr (oc_stop_reason c), oc_stop_reason c) : (Z + Z) * Z).2 ≠ 0)
    by (destruct (Z.eqb_spec (oc_stop_reason c) 0); simpl; done).
  split; [|done]. split; try done. intros (Hr & _ & _). split; [|split; [done|]].
  - simpl. destruct (Z.eqb_spec (oc_stop_reason c) 0); simpl; lia.
  - intros _. apply stop_before_execution_not_queued.
Qed.

Lemma raise_stops reason : reason ≠ StopCancelRequested →
  stops (λ c, cancel_token (stop_before_execution (raise_stop reason c))).
Proof.
  intros Hr c. pose proof (stop_before_execution_not_queued (raise_stop reason c)) as Hq.
  unfold raise_stop, compare_exchange in *. rewrite Z.eqb_refl in *.
  destruct (stop_is_final (oc_stop_reason c)) eqn:Ef.
  - assert (H0 : oc_stop_reason c ≠ 0) by (intros H0; by rewrite H0 in Ef).
    split; [|done]. split; try done. by intros (? & _ & _).
  - split; [|by destruct reason]. split; [|by destruct reason|done].
    intros _. split; [|by split; [destruct reason|]]. destruct reason; simpl; [done|lia..].
Qed.

Lemma request_deadline_stops : stops request_deadline.
Proof. by apply raise_stops. Qed.
Lemma request_shutdown_stops : stops request_shutdown.
Proof. by apply raise_stops. Qed.

Lemma same_stop_le c c' :
  oc_stop_reason c' = oc_stop_reason c → oc_cancelled c' = oc_cancelled c → oc_settled c' = oc_settled c →
  (oc_execution_state c' = EXECUTION_QUEUED → oc_execution_state c = EXECUTION_QUEUED) → ctl_le c c'.
Proof.
  intros Hs Hc Hd Hq. split; [|by rewrite Hs|done]. unfold control_ok. rewrite Hs, Hc.
  intros (? & ? & Hx). do 2 (split; [done|]). intros Hn Hq'. by apply Hx; [|apply Hq].
Qed.

Lemma stop_before_execution_le c : ctl_le c (stop_before_execution c).
Proof. apply same_stop_le; try done. by intros ?%stop_before_execution_not_queued. Qed.

Lemma begin_execution_le now root c : ctl_le c (begin_execution now root c).2.
Proof.
  unfold begin_execution. set (c1 := if oc_deadline c <=? now then _ else _).
  assert (H1 : ctl_le c c1).
  { subst c1. destruct (oc_deadline c <=? now); [apply request_deadline_stops|].
    destruct (is_cancelled root c); [apply stop_before_execution_le | done]. }
  unfold compare_exchange. destruct (_ =? EXECUTION_QUEUED); simpl.
  - etrans; [exact H1|]. by apply same_stop_le.
  - by destruct (_ =? EXECUTION_STOPPED_BEFORE_START).
Qed.

Lemma task_effect_le root e c : ctl_le c (task_effect root e c).
Proof.
  destruct e; simpl; try (by apply same_stop_le).
  - apply begin_execution_le.
  - apply request_deadline_stops.
  - unfold begin_non_cancellable_commit. destruct (oc_commit_active c); [done|]. by apply same_stop_le.
Qed.

(** ** The heap *)
Definition heap_le (heap heap' : list OperationControl) : Prop :=
  length heap' = length heap
  ∧ ∀ ref c', heap' !! ref = Some c' → ∃ c, heap !! ref = Some c ∧ ctl_le c c'.

#[export] Instance heap_le_preorder : PreOrder heap_le.
Proof.
  split; [intros h; split; [done|]; intros ref c Hc; by exists c|].
  intros h1 h2 h3 [L1 H1] [L2 H2]. split; [congruence|]. intros ref c3 Hc3.
  destruct (H2 _ _ Hc3) as (c2 & Hc2 & ?). destruct (H1 _ _ Hc2) as (c1 & ? & ?).
  exists c1. split; [done|]. by etrans.
Qed.

Lemma alter_heap_le f (ref : ControlRef) (heap : list OperationControl) : (∀ c, ctl_le c (f c)) → heap_le heap (alter f ref heap).
Proof.
  intros Hf. split; [apply length_alter|]. intros i c' Hc'.
  destruct (decide (i = ref)) as [->|Hne].
  - rewrite list_lookup_alter_eq in Hc'. apply fmap_Some in Hc' as (c & Hc & ->). by exists c.
  - rewrite list_lookup_alter_ne in Hc' by done. by exists c'.
Qed.

Lemma alters_heap_le {A} (f : A → OperationControl → OperationControl) (ref : A → ControlRef) l (heap : list OperationControl) :
  (∀ x c, ctl_le c (f x c)) → heap_le heap (foldr (λ x, alter (f x) (ref x)) heap l).
Proof.
  intros Hf. induction l as [|x l IH]; [done|]. simpl. etrans; [exact IH|]. by apply alter_heap_le.
Qed.

(** All the controls named are stopped afterwards. *)
Lemma alters_stop {A} (f : OperationControl → OperationControl) (ref : A → ControlRef) l (heap : list OperationControl) x c' :
  stops f → x ∈ l → foldr (λ x, alter f (ref x)) heap l !! ref x = Some c' → oc_stop_reason c' ≠ 0.
Proof.
  intros Hf. revert c'. induction l as [|y l IH]; intros c' Hin Hc'; [by apply elem_of_nil in Hin|].
  simpl in Hc'. destruct (decide (ref y = ref x)) as [Heq|Hne].
  - rewrite Heq, list_lookup_alter_eq in Hc'. apply fmap_Some in Hc' as (c & Hc & ->). apply Hf.
  - rewrite list_lookup_alter_ne in Hc' by done. apply elem_of_cons in Hin as [->|Hin]; [done|].
    by apply IH.
Qed.

Lemma heap_le_ok heap heap' : heap_le heap heap' → Forall control_ok heap → Forall control_ok heap'.
Proof.
  intros [_ Hh] Hok. apply Forall_lookup_2. intros i c' Hc'.
  destruct (Hh _ _ Hc') as (c & Hc & [Ho _ _]). apply Ho. exact (Forall_lookup_1 _ _ _ _ Hok Hc).
Qed.

Section invariant.
Context `{SerdeJson} `{OperationRequest Request} `{!SupervisedRequest Request}.
Abbreviation Sup := (Supervisor Request).
Abbreviation Registry := (RuntimeOperationRegistry Request).
Abbreviation Ledger := (gmap RuntimeOperationId (ControlRef * Place Request)).
Implicit Types g : RuntimeOperationRegistry Request.
Implicit Types y : System (Request := Request).
Implicit Types l : Ledger.

(** ** Frames *)
Lemma ledger_frame (s s' : Sup) l :
  sv_controls s' = sv_controls s → sv_live_tasks s' = sv_live_tasks s → sv_commands s' = sv_commands s →
  sv_tasks s' = sv_tasks s → sv_descriptors s' = sv_descriptors s → sv_next_task s' = sv_next_task s →
  sv_permits s' = sv_permits s → ledger_wf s l → ledger_wf s' l.
Proof. intros E1 E2 E3 E4 E5 E6 E7 []. split; rewrite ?E1, ?E2, ?E3, ?E4, ?E5, ?E6, ?E7; done. Qed.

(** What is known of a place stays true as the record of the operation advances. *)
Lemma advances_one g g' id : advances g g' → advances_at id g g'.
Proof. intros Ha n. apply Ha. Qed.

Lemma hand_ok_advances g g' id ref h : advances_at id g g' → hand_ok g id ref h → hand_ok g' id ref h.
Proof.
  intros Ha. assert (Hexit : ∀ d joined, exit_ok g id d joined → exit_ok g' id d joined).
  { intros d [? [? ?|? ?]|? ?|? ?]; simpl; [| |done..].
    - intros (? & ? & ? & Hi). split_and!; try done. intros i ? ?. apply Ha; [lia|]. by eapply Hi.
    - intros (? & ? & Hs). split_and!; try done. intros ?. apply Ha; [lia|]. by apply Hs. }
  destruct h as [| | | | |d t retain|d retain| |]; simpl; try done.
  1-3: intros (? & ? & ?); split_and!; by auto.
  - intros (? & ? & ? & Hc). split_and!; try done. intros g2 Ha2. apply Hc.
    intros n Hn Hb. by apply Ha2, Ha.
  - intros (? & ? & Hn). split_and!; try done. apply Ha; [destruct retain; lia | done].
  - apply Ha. lia.
Qed.

Lemma place_ok_advances g g' id e : advances_at id g g' → place_ok g id e → place_ok g' id e.
Proof.
  intros Ha. destruct e as [ref [| | |h|[]]]; unfold place_ok; simpl; try done.
  - by apply hand_ok_advances.
  - apply Ha. lia.
Qed.

(** A step of the registry. *)
Lemma wf_registry_frame y g' :
  system_wf y → registry_wf g' → advances (sv_registry (sy_sup y)) g' →
  system_wf (y <| sy_sup ::= λ s, s <| sv_registry := g' |> |>).
Proof.
  intros [] Hg Ha. split; simpl; try done.
  - by eapply ledger_frame; [..|exact sw_ledger].
  - intros id ref p c Hl Hc Hs. apply Ha; [lia|]. by eapply sw_settled.
  - intros id e Hl. eapply place_ok_advances; [apply advances_one, Ha|]. by apply sw_place.
  - intros id Hid. apply Ha; [lia|]. by apply sw_applied.
  - intros id Hid. apply Ha; [lia|]. by apply sw_signalled.
  - intros id Hid. apply Ha; [lia|]. by apply sw_settled_ids.
  - intros id ref p c Hid Hl Hp Hc. destruct (sw_acknowledged id ref p c Hid Hl Hp Hc); [by left|right].
    apply Ha; [lia|done].
Qed.

(** A step on the heap that settles nothing; the phase may change if every
    registered control has been stopped. *)
Lemma wf_heap_frame y (s' : Sup) :
  system_wf y → heap_le (sv_heap (sy_sup y)) (sv_heap s') →
  sv_registry s' = sv_registry (sy_sup y) → ledger_wf s' (sy_ledger y) →
  (sv_root s' = true → sv_phase s' ≠ PhaseOpen) →
  (sv_controller s' = ControllerUnstarted → sv_controller (sy_sup y) = ControllerUnstarted) →
  (sv_phase s' ≠ PhaseOpen → sv_phase (sy_sup y) ≠ PhaseOpen
     ∨ ∀ id ref p c, sy_ledger y !! id = Some (ref, p) → registered p = true →
         sv_heap s' !! ref = Some c → oc_stop_reason c ≠ 0) →
  system_wf (y <| sy_sup := s' |>).
Proof.
  intros [] Hh Hreg Hlw Hroot Hctl Hph. pose proof Hh as [Hlen Hstep].
  split; simpl; rewrite ?Hreg; try done.
  - congruence.
  - by eapply heap_le_ok.
  - intros id ref p c' Hl Hc' Hs. destruct (Hstep _ _ Hc') as (c & Hc & Hle).
    rewrite (ct_settled _ _ Hle) in Hs. by eapply sw_settled.
  - intros id ref p c' Hl Hr Hc'. destruct (Hstep _ _ Hc') as (c & Hc & Hle).
    rewrite (ct_settled _ _ Hle). by eapply sw_unregistered.
  - intros Hp id ref p c' Hl Hr Hc'. destruct (Hph Hp) as [Hold|Hnew]; [|by eapply Hnew].
    destruct (Hstep _ _ Hc') as (c & Hc & Hle). apply (ct_stopped _ _ Hle). by eapply sw_closing.
  - intros id ref p c' Hid Hl Hp Hc'. destruct (Hstep _ _ Hc') as (c & Hc & Hle).
    destruct (sw_acknowledged id ref p c Hid Hl Hp Hc); [left; by apply (ct_stopped _ _ Hle) | by right].
  - auto.
Qed.

(** ** Moves in the ledger *)
Definition loose (p : Place Request) : bool := match p with Queued | Supervised _ => false | _ => true end.

(** The parts of the books that only see queued and supervised operations: the
    others are held by a thread. *)
Lemma ledger_loose (s s' : Sup) l l' id :
  ledger_wf s l →
  (∀ e, l !! id = Some e → loose e.2 = true) → (∀ e, l' !! id = Some e → loose e.2 = true) →
  (∀ i, i ≠ id → l' !! i = l !! i) →
  sv_live_tasks s' = sv_live_tasks s → sv_commands s' = sv_commands s → sv_tasks s' = sv_tasks s →
  sv_descriptors s' = sv_descriptors s → sv_next_task s' = sv_next_task s →
  (∀ i ref, sv_controls s' !! i = Some ref ↔ ∃ p, l' !! i = Some (ref, p) ∧ registered p = true) →
  sv_permits s' + Z.of_nat (size l') = MAX_ACTIVE_OPERATIONS →
  ledger_wf s' l'.
Proof.
  intros [] Ha Ha' Hsame E1 E2 E3 E4 E5 Hc Hp.
  assert (Hback : ∀ i ref p, loose p = false → l' !! i = Some (ref, p) ↔ l !! i = Some (ref, p)).
  { intros i ref p Hn. destruct (decide (i = id)) as [->|Hne]; [|by rewrite Hsame].
    split; intros Hi; [apply Ha' in Hi | apply Ha in Hi]; simpl in Hi; congruence. }
  split; rewrite ?E1, ?E2, ?E3, ?E4, ?E5; try done.
  - intros a request Hin. apply Hback; [done|]. by eapply lw_queue.
  - intros i ref Hi%Hback; [|done]. by eapply lw_queued.
  - intros tid d Hd. apply Hback; [done|]. by apply lw_descriptors.
  - intros i ref tid Hi%Hback; [|done]. by eapply lw_supervised.
  - intros i tid. rewrite lw_live. split; intros [ref Hi]; exists ref; by apply Hback.
Qed.

Lemma ledger_stage (s : Sup) l id ref p p' :
  l !! id = Some (ref, p) → loose p = true → loose p' = true → registered p' = registered p →
  ledger_wf s l → ledger_wf s (<[id := (ref, p')]> l).
Proof.
  intros Hid Hp Hp' Hr Hw. eapply (ledger_loose s s l _ id); try done.
  - intros e He. simplify_eq. done.
  - intros e He. rewrite lookup_insert_eq in He. simplify_eq. done.
  - intros i Hne. by rewrite lookup_insert_ne.
  - intros i r. rewrite (lw_controls _ _ Hw). destruct (decide (i = id)) as [->|Hne].
    + rewrite lookup_insert_eq. split; intros (q & Hq & Hrq); simplify_eq; eexists; split; try done; congruence.
    + by rewrite lookup_insert_ne.
  - rewrite map_size_insert_Some by (by exists (ref, p)). apply (lw_permits _ _ Hw).
Qed.

Lemma ledger_register (s : Sup) l id ref p p' :
  l !! id = Some (ref, p) → loose p = true → loose p' = true → registered p' = true →
  ledger_wf s l → ledger_wf (s <| sv_controls ::= <[id := ref]> |>) (<[id := (ref, p')]> l).
Proof.
  intros Hid Hp Hp' Hr Hw. eapply (ledger_loose s _ l _ id); try done.
  - intros e He. simplify_eq. done.
  - intros e He. rewrite lookup_insert_eq in He. simplify_eq. done.
  - intros i Hne. by rewrite lookup_insert_ne.
  - intros i r. simpl. destruct (decide (i = id)) as [->|Hne].
    + rewrite !lookup_insert_eq. split; [intros [= <-]; by exists p' | intros (q & [= <- <-] & _); done].
    + rewrite !lookup_insert_ne by done. apply (lw_controls _ _ Hw).
  - simpl. rewrite map_size_insert_Some by (by exists (ref, p)). apply (lw_permits _ _ Hw).
Qed.

Lemma ledger_leave (s : Sup) l id ref p :
  l !! id = Some (ref, p) → loose p = true → ledger_wf s l →
  ledger_wf (s <| sv_controls ::= delete id |> <| sv_permits ::= Z.succ |>) (delete id l).
Proof.
  intros Hid Hp Hw. eapply (ledger_loose s _ l _ id); try done.
  - intros e He. simplify_eq. done.
  - intros e He. by rewrite lookup_delete_eq in He.
  - intros i Hne. by rewrite lookup_delete_ne.
  - intros i r. simpl. destruct (decide (i = id)) as [->|Hne].
    + rewrite !lookup_delete_eq. split; [done|]. by intros (q & ? & _).
    + rewrite !lookup_delete_ne by done. apply (lw_controls _ _ Hw).
  - simpl. rewrite map_size_delete_Some by (by exists (ref, p)).
    pose proof (lw_permits _ _ Hw) as Hpm.
    assert (size l ≠ 0)%nat by (intros E%map_size_empty_iff; rewrite E in Hid; by rewrite lookup_empty in Hid).
    lia.
Qed.

Lemma ledger_enter (s : Sup) l id ref cleanup request :
  l !! id = None → ledger_wf s l →
  ledger_wf (s <| sv_permits ::= Z.pred |>) (<[id := (ref, Admitting StagePrepared cleanup request)]> l).
Proof.
  intros Hid Hw. eapply (ledger_loose s _ l _ id); try done.
  - intros e He. congruence.
  - intros e He. rewrite lookup_insert_eq in He. simplify_eq. done.
  - intros i Hne. by rewrite lookup_insert_ne.
  - intros i r. simpl. rewrite (lw_controls _ _ Hw). destruct (decide (i = id)) as [->|Hne].
    + rewrite lookup_insert_eq, Hid. split; [by intros (q & ? & _) | intros (q & [= <- <-] & ?); done].
    + by rewrite lookup_insert_ne.
  - simpl. rewrite map_size_insert_None by done. pose proof (lw_permits _ _ Hw). lia.
Qed.

(** An operation comes into a hand with its control, and its control is
    removed before its permit. *)
Lemma ledger_take (s : Sup) l id ref p :
  l !! id = None → loose p = true → registered p = true → ledger_wf s l →
  ledger_wf (s <| sv_controls ::= <[id := ref]> |> <| sv_permits ::= Z.pred |>) (<[id := (ref, p)]> l).
Proof.
  intros Hid Hp Hr Hw. eapply (ledger_loose s _ l _ id); try done.
  - intros e He. congruence.
  - intros e He. rewrite lookup_insert_eq in He. simplify_eq. done.
  - intros i Hne. by rewrite lookup_insert_ne.
  - intros i r. simpl. destruct (decide (i = id)) as [->|Hne].
    + rewrite !lookup_insert_eq. split; [intros [= <-]; by exists p | intros (q & [= <- <-] & _); done].
    + rewrite !lookup_insert_ne by done. apply (lw_controls _ _ Hw).
  - simpl. rewrite map_size_insert_None by done. pose proof (lw_permits _ _ Hw). lia.
Qed.

Lemma ledger_unregister (s : Sup) l id ref p p' :
  l !! id = Some (ref, p) → loose p = true → loose p' = true → registered p' = false → ledger_wf s l →
  ledger_wf (s <| sv_controls ::= delete id |>) (<[id := (ref, p')]> l).
Proof.
  intros Hid Hp Hp' Hr Hw. eapply (ledger_loose s _ l _ id); try done.
  - intros e He. simplify_eq. done.
  - intros e He. rewrite lookup_insert_eq in He. simplify_eq. done.
  - intros i Hne. by rewrite lookup_insert_ne.
  - intros i r. simpl. destruct (decide (i = id)) as [->|Hne].
    + rewrite lookup_insert_eq, lookup_delete_eq. split; [done|]. intros (q & [= <- <-] & ?). congruence.
    + rewrite lookup_insert_ne, lookup_delete_ne by done. apply (lw_controls _ _ Hw).
  - simpl. rewrite map_size_insert_Some by (by exists (ref, p)). apply (lw_permits _ _ Hw).
Qed.

(** What an operation must satisfy to be in a place. *)
Definition fits_place y (s' : Sup) (id : RuntimeOperationId) (e : ControlRef * Place Request) : Prop :=
  prepared e.2 = false
  ∧ place_ok (sv_registry s') id e
  ∧ (sv_phase s' ≠ PhaseOpen → registered e.2 = true →
     ∀ c, sv_heap s' !! e.1 = Some c → oc_stop_reason c ≠ 0)
  ∧ (id ∈ sy_acknowledged y → synchronized e.2 = true →
     ∀ c, sv_heap s' !! e.1 = Some c → oc_stop_reason c ≠ 0 ∨ not_before 3 (sv_registry s') id).

Lemma wf_moved y (s' : Sup) id ref p entry :
  system_wf y → sy_ledger y !! id = Some (ref, p) →
  heap_le (sv_heap (sy_sup y)) (sv_heap s') →
  registry_wf (sv_registry s') → advances (sv_registry (sy_sup y)) (sv_registry s') →
  sv_phase s' = sv_phase (sy_sup y) → sv_root s' = sv_root (sy_sup y) →
  sv_controller s' = sv_controller (sy_sup y) →
  ledger_wf s' (sy_ledger (moved id entry s' y)) →
  (∀ e, entry = Some e → e.1 = ref ∧ fits_place y s' id e) →
  system_wf (moved id entry s' y).
Proof.
  intros [] Hid Hh Hreg Ha Hph Hroot Hctl Hlw Hentry. pose proof Hh as [Hlen Hstep].
  assert (Hcase : ∀ i r q, sy_ledger (moved id entry s' y) !! i = Some (r, q) →
    (i = id ∧ r = ref ∧ entry = Some (r, q)) ∨ (i ≠ id ∧ sy_ledger y !! i = Some (r, q))).
  { intros i r q. unfold moved. simpl. destruct entry as [e|].
    - intros [[<- ->]|[Hne Hi]]%lookup_insert_Some; [left|right; by split].
      destruct (Hentry (r, q) eq_refl) as [<- _]. done.
    - intros [Hne Hi]%lookup_delete_Some. right. by split. }
  split; simpl; try done.
  - congruence.
  - intros i r q [(-> & -> & _)|[_ Hi]]%Hcase; by eapply sw_owner.
  - by eapply heap_le_ok.
  - intros i r q c' Hi Hc' Hs. destruct (Hstep _ _ Hc') as (c & Hc & Hle).
    rewrite (ct_settled _ _ Hle) in Hs. apply Ha; [lia|].
    apply Hcase in Hi as [(-> & -> & _)|[_ Hi]]; by eapply sw_settled.
  - intros i [r q] Hi. apply Hcase in Hi as [(-> & -> & He)|[_ Hi]].
    + by destruct (Hentry _ He) as [_ (_ & ? & _)].
    + eapply place_ok_advances; [apply advances_one, Ha|]. by apply sw_place.
  - intros i r q c' Hi Hr Hc'. destruct (Hstep _ _ Hc') as (c & Hc & Hle).
    rewrite (ct_settled _ _ Hle). apply Hcase in Hi as [(-> & -> & He)|[_ Hi]]; [|by eapply sw_unregistered].
    destruct (Hentry _ He) as [_ [Hreg' _]]. simpl in Hreg'. congruence.
  - intros Hp i r q c' Hi Hr Hc'. apply Hcase in Hi as [(-> & -> & He)|[_ Hi]].
    + destruct (Hentry _ He) as [_ (_ & _ & Hf & _)]. by apply (Hf Hp Hr).
    + destruct (Hstep _ _ Hc') as (c & Hc & Hle). apply (ct_stopped _ _ Hle).
      rewrite Hph in Hp. by eapply sw_closing.
  - rewrite Hph, Hroot. done.
  - intros i Hi. apply Ha; [lia|]. by apply sw_applied.
  - intros i Hi. apply Ha; [lia|]. by apply sw_signalled.
  - intros i Hi. apply Ha; [lia|]. by apply sw_settled_ids.
  - intros i r q c' Hia Hi Hq Hc'. apply Hcase in Hi as [(-> & -> & He)|[_ Hi]].
    + destruct (Hentry _ He) as [_ (_ & _ & _ & Hf)]. by apply (Hf Hia Hq).
    + destruct (Hstep _ _ Hc') as (c & Hc & Hle).
      destruct (sw_acknowledged i r q c Hia Hi Hq Hc); [left; by apply (ct_stopped _ _ Hle) | right].
      apply Ha; [lia|done].
  - rewrite Hctl. intros Hu. rewrite sw_unstarted, lookup_empty in Hid; done.
Qed.

(** An operation that is registered and synchronized fits any further place,
    and one without a control the places without. *)
Lemma fits_next y (s' : Sup) id ref p p' :
  system_wf y → sy_ledger y !! id = Some (ref, p) → registered p = true → synchronized p = true →
  heap_le (sv_heap (sy_sup y)) (sv_heap s') → advances (sv_registry (sy_sup y)) (sv_registry s') →
  sv_phase s' = sv_phase (sy_sup y) → prepared p' = false → place_ok (sv_registry s') id (ref, p') →
  fits_place y s' id (ref, p').
Proof.
  intros [] Hid Hr Hs [_ Hstep] Ha Hph Hr' Hok. split; [done|]. split; [done|]. split; simpl.
  - intros Hp _ c' Hc'. destruct (Hstep _ _ Hc') as (c & Hc & Hle). apply (ct_stopped _ _ Hle).
    rewrite Hph in Hp. by eapply sw_closing.
  - intros Hack _ c' Hc'. destruct (Hstep _ _ Hc') as (c & Hc & Hle).
    destruct (sw_acknowledged id ref p c Hack Hid Hs Hc); [left; by apply (ct_stopped _ _ Hle) | right].
    apply Ha; [lia|done].
Qed.

Lemma fits_leaving y (s' : Sup) id ref b :
  (b = true → not_before 3 (sv_registry s') id) → fits_place y s' id (ref, Leaving b).
Proof. intros Hb. unfold fits_place, place_ok. simpl. split_and!; try done. by destruct b; [apply Hb|]. Qed.

(** ** Admission *)
Lemma wp_on_registry {A} (m : M Registry A) (Q : Result A → Sup → Prop) (s : Sup) :
  wp m (λ out g', Q out (s <| sv_registry := g' |>)) (sv_registry s) → wp (on_registry m) Q s.
Proof. intros Hm w. specialize (Hm w). unfold on_registry. by destruct (m (sv_registry s) w) as [[out g'] w']. Qed.

Lemma wp_or_release {A} (m : M Sup A) (Q : Result A → Sup → Prop) (s : Sup) :
  wp m (λ out s', match out with Ok a => Q (Ok a) s' | Err e => Q (Err e) (s' <| sv_permits ::= Z.succ |>) end) s →
  wp (or_release m) Q s.
Proof.
  intros Hm. unfold or_release. wp_step. wp_step. eapply wp_mono; [exact Hm|].
  intros [a|e] s' Hq; unfold release_permit; by wp_go.
Qed.

Lemma wp_or_remove id m (Q : Result () → Sup → Prop) (s : Sup) :
  wp m (λ out s', match out with Ok a => Q (Ok a) s' | Err e => Q (Err e) (s' <| sv_controls ::= delete id |>) end) s →
  wp (or_remove_control id m) Q s.
Proof.
  intros Hm. unfold or_remove_control, remove_control. wp_step. wp_step. eapply wp_mono; [exact Hm|].
  intros [[]|e] s' Hq; by wp_go.
Qed.

Lemma wp_status id (Q : Result RuntimeOperationStatus → Sup → Prop) (s : Sup) :
  registry_wf (sv_registry s) →
  (∀ g', registry_wf g' → advances (sv_registry s) g' →
     match rg_records g' !! id with
     | Some r => Q (Ok (op_status (rec_operation r))) (s <| sv_registry := g' |>)
     | None => Q (Err ["runtime operation `" +:+ id +:+ "` disappeared while supervised"])
                 (s <| sv_registry := g' |>)
     end) →
  wp (operation_status id) Q s.
Proof.
  intros Hg HQ. unfold operation_status. wp_step. apply wp_on_registry.
  eapply wp_mono; [by apply wp_inspect|]. intros out g' (Hwf & Hsw & ->). wp_go.
  specialize (HQ g' Hwf (swept_advances _ _ Hsw)).
  destruct (rg_records g' !! id) as [r|]; done.
Qed.

Lemma heap_le_refl' (h : list OperationControl) : heap_le h h.
Proof. done. Qed.

Lemma ledger_prepared_leave (s : Sup) l id ref cleanup request :
  l !! id = Some (ref, Admitting StagePrepared cleanup request) → ledger_wf s l →
  ledger_wf (s <| sv_permits ::= Z.succ |>) (delete id l).
Proof.
  intros Hid Hl.
  assert (Hnone : sv_controls s !! id = None).
  { apply eq_None_not_Some. intros [r (p & Hp & Hreg)%(lw_controls _ _ Hl)]. by simplify_eq. }
  pose proof (ledger_leave _ _ id ref _ Hid eq_refl Hl) as Hd.
  by eapply ledger_frame; [..|exact Hd]; try done; simpl; rewrite delete_id.
Qed.

Lemma step_prepared_dropped_wf id ref cleanup request y :
  system_wf y → sy_ledger y !! id = Some (ref, Admitting StagePrepared cleanup request) →
  system_wf (moved id None ((sy_sup y) <| sv_permits ::= Z.succ |>) y).
Proof.
  intros Hw Hid. eapply wf_moved; try done; [apply Hw|].
  eapply ledger_prepared_leave; [done|]. apply (sw_ledger _ Hw).
Qed.

Lemma step_admit_insert_wf id ref cleanup request w out s' w' y :
  system_wf y → sy_ledger y !! id = Some (ref, Admitting StagePrepared cleanup request) →
  or_release (admit_insert (mkAdmission id ref cleanup)) (sy_sup y) w = (out, s', w') →
  system_wf (moved id (if is_ok out then Some (ref, Admitting StageInserted cleanup request) else None) s' y).
Proof.
  intros Hw Hid. start_wp. apply wp_or_release. unfold admit_insert. cbn [oa_operation_id oa_control].
  pose proof (sw_ledger _ Hw) as Hl. wp_step. wp_step.
  assert (Hnone : sv_controls (sy_sup y) !! id = None).
  { apply eq_None_not_Some. intros [r (p & Hp & Hreg)%(lw_controls _ _ Hl)]. by simplify_eq. }
  case_if Eph.
  { wp_go. by eapply step_prepared_dropped_wf. }
  rewrite Hnone. wp_go. apply negb_false_iff, bool_decide_eq_true in Eph.
  eapply wf_moved; try done; [apply Hw| |].
  - by eapply ledger_register.
  - intros e [= <-]. do 3 (split; [done|]). done.
Qed.

Lemma step_admit_sender_wf id ref cleanup request w out s' w' y :
  system_wf y → sy_ledger y !! id = Some (ref, Admitting StageSynchronized cleanup request) →
  or_release (or_remove_control id controller_sender) (sy_sup y) w = (out, s', w') →
  system_wf (moved id (if is_ok out then Some (ref, Admitting StageSending cleanup request) else None) s' y).
Proof.
  intros Hw Hid. start_wp. pose proof (sw_ledger _ Hw) as Hl.
  apply wp_or_release, wp_or_remove. unfold controller_sender. wp_step. wp_step.
  destruct (sv_controller (sy_sup y)); wp_go; (eapply wf_moved; try done; [apply Hw|..]);
    try (by eapply ledger_leave).
  - by eapply ledger_stage.
  - intros e [= <-]. split; [done|]. by eapply fits_next.
Qed.

Lemma step_admit_synchronize_wf id ref cleanup request w out s' w' y :
  system_wf y → sy_ledger y !! id = Some (ref, Admitting StageInserted cleanup request) →
  or_release (or_remove_control id (synchronize_admitted_control id)) (sy_sup y) w = (out, s', w') →
  system_wf (moved id (if is_ok out then Some (ref, Admitting StageSynchronized cleanup request) else None) s' y
               <| sy_signalled ::= λ a, if is_canceling (sv_registry s') id then {[id]} ∪ a else a |>).
Proof.
  intros Hw Hid E.
  cut (system_wf (moved id (if is_ok out then Some (ref, Admitting StageSynchronized cleanup request) else None) s' y)).
  { intros []. split; simpl; try done. intros i Hi. unfold is_canceling in Hi.
    destruct (rg_records (sv_registry s') !! id) as [r|] eqn:Er; [|by apply sw_signalled].
    case_bool_decide as Hc; [|by apply sw_signalled].
    apply elem_of_union in Hi as [->%elem_of_singleton|Hi]; [|by apply sw_signalled].
    intros r' Hr'. simpl in Hr'. simplify_eq. unfold rank. by rewrite Hc. }
  revert E. start_wp. pose proof (sw_ledger _ Hw) as Hl.
  assert (Hctl : sv_controls (sy_sup y) !! id = Some ref) by (apply (lw_controls _ _ Hl); eauto).
  apply wp_or_release, wp_or_remove. unfold synchronize_admitted_control. wp_step. wp_step. rewrite Hctl.
  assert (Hsync : ∀ (s1 : Sup), ledger_wf s1 (sy_ledger y) →
    ledger_wf s1 (<[id := (ref, Admitting StageSynchronized cleanup request)]> (sy_ledger y))).
  { intros s1 H1. by eapply ledger_stage. }
  case_if Eph.
  { unfold on_control. wp_go. eapply wf_moved; try done; [|apply Hw| |].
    - simpl. apply alter_heap_le. intros c. apply request_shutdown_stops.
    - apply Hsync. eapply ledger_frame; [..|exact Hl]; done.
    - intros e [= <-]. do 3 (split; [done|]). split; simpl; intros _ _ c Hc; [|left];
        rewrite list_lookup_alter_eq in Hc; apply fmap_Some in Hc as (c0 & _ & ->); apply request_shutdown_stops. }
  apply negb_false_iff, bool_decide_eq_true in Eph. wp_step. apply wp_status; [apply Hw|].
  intros g' Hg' Ha. destruct (rg_records g' !! id) as [r|] eqn:Er.
  2:{ eapply wf_moved; try done. simpl.
      eapply (ledger_frame (((sy_sup y) <| sv_controls ::= delete id |>) <| sv_permits ::= Z.succ |>)); try done.
      by eapply ledger_leave. }
  case_if Ec.
  - unfold on_control. wp_go. eapply wf_moved; try done.
    + simpl. apply alter_heap_le. intros c. apply request_cancel_stops.
    + apply Hsync. eapply ledger_frame; [..|exact Hl]; done.
    + intros e [= <-]. do 3 (split; [done|]). split; simpl; intros _ _ c Hc; [|left];
        rewrite list_lookup_alter_eq in Hc; apply fmap_Some in Hc as (c0 & _ & ->); apply request_cancel_stops.
  - wp_go. eapply wf_moved; try done.
    + apply Hsync. eapply ledger_frame; [..|exact Hl]; done.
    + intros e [= <-]. do 3 (split; [done|]). split; simpl; [by rewrite Eph|].
      intros Hack _ c Hc. right. intros r' Hr'. simplify_eq.
      assert (Hb : 2 ≤ rank r).
      { apply (Ha 2 id); [lia| |done]. apply (sw_applied _ Hw). by apply (sw_acknowledged_applied _ Hw). }
      apply bool_decide_eq_false in Ec. unfold rank in *.
      destruct (op_status (rec_operation r)); simpl in *; try lia; done.
Qed.

(** ** The command channel *)
Lemma ledger_send (s : Sup) l id ref stage cleanup request :
  l !! id = Some (ref, Admitting stage cleanup request) → stage ≠ StagePrepared → ledger_wf s l →
  ledger_wf (s <| sv_commands ::= λ q, q ++ [(mkAdmission id ref cleanup, request)] |>) (<[id := (ref, Queued)]> l).
Proof.
  intros Hid Hst Hw. pose proof Hw as [].
  assert (Hreg : registered (Admitting stage cleanup request) = true) by (by destruct stage).
  assert (Hne : ∀ i r (p : Place Request), loose p = false → l !! i = Some (r, p) → i ≠ id).
  { intros i r p Hp Hi ->. by simplify_eq. }
  split; simpl; try done.
  - intros i r. rewrite lw_controls. destruct (decide (i = id)) as [->|Hn].
    + rewrite lookup_insert_eq, Hid. split; [intros (q & [= <- <-] & _); by exists Queued|].
      intros (q & [= <- <-] & _). eauto.
    + by rewrite lookup_insert_ne.
  - intros a rq. rewrite elem_of_app, list_elem_of_singleton. intros [Hin|[= -> ->]].
    + specialize (lw_queue _ _ Hin). rewrite lookup_insert_ne; [done|]. symmetry. by eapply (Hne _ _ Queued).
    + by rewrite lookup_insert_eq.
  - rewrite fmap_app. apply NoDup_app. split; [done|]. split; [|apply NoDup_singleton].
    intros i Hi. simpl. rewrite list_elem_of_singleton. intros ->.
    apply list_elem_of_fmap in Hi as ([a rq] & Heq & Hin). simpl in Heq. apply lw_queue in Hin.
    rewrite <- Heq, Hid in Hin. done.
  - intros i r. rewrite fmap_app, elem_of_app. simpl. rewrite list_elem_of_singleton.
    intros [[<- _]|[Hn Hi]]%lookup_insert_Some; [by right|left]. by eapply lw_queued.
  - intros tid d Hd. specialize (lw_descriptors _ _ Hd). rewrite lookup_insert_ne; [done|].
    symmetry. by eapply (Hne _ _ (Supervised tid)).
  - intros i r tid [[_ [=]]|[Hn Hi]]%lookup_insert_Some. by eapply lw_supervised.
  - intros i tid. rewrite lw_live. split; intros [r Hi].
    + exists r. rewrite lookup_insert_ne; [done|]. symmetry. by eapply (Hne _ _ (Supervised tid)).
    + apply lookup_insert_Some in Hi as [[_ [=]]|[Hn Hi]]. by exists r.
  - rewrite map_size_insert_Some by (by eexists). done.
Qed.

(** Each queued command holds a permit, so the channel has room for every
    thread that is sending. *)
Lemma queue_has_room (s : Sup) l id ref stage cleanup request :
  ledger_wf s l → 0 ≤ sv_permits s → l !! id = Some (ref, Admitting stage cleanup request) →
  zlen (sv_commands s) < SUPERVISOR_COMMAND_CAPACITY.
Proof.
  intros Hw Hpos Hid. pose proof Hw as [].
  set (ids := (λ c, oa_operation_id c.1) <$> sv_commands s) in *.
  assert (Hsub : list_to_set ids ⊆ dom (delete id l)).
  { intros i Hi. apply elem_of_list_to_set, list_elem_of_fmap in Hi as ([a rq] & -> & Hin).
    apply lw_queue in Hin. apply elem_of_dom. exists (oa_control a, Queued).
    rewrite lookup_delete_ne; [done|]. intros Heq. simpl in Heq. rewrite <- Heq, Hid in Hin. done. }
  apply subseteq_size in Hsub. rewrite size_list_to_set, size_dom in Hsub by done.
  rewrite map_size_delete_Some in Hsub by (by eexists). unfold ids in Hsub. rewrite length_fmap in Hsub.
  assert (size l ≠ 0)%nat by (intros E%map_size_empty_iff; rewrite E in Hid; by rewrite lookup_empty in Hid).
  unfold zlen, SUPERVISOR_COMMAND_CAPACITY. unfold MAX_ACTIVE_OPERATIONS in *. lia.
Qed.

Lemma wp_try_send command (Q : Result (option TrySendError) → Sup → Prop) (s : Sup) :
  (sv_commands_closed s = true → Q (Ok (Some SendClosed)) s) →
  (SUPERVISOR_COMMAND_CAPACITY ≤ zlen (sv_commands s) → Q (Ok (Some SendFull)) s) →
  (sv_commands_closed s = false → Q (Ok None) (s <| sv_commands ::= λ q, q ++ [command] |>)) →
  wp (try_send command) Q s.
Proof.
  intros H1 H2 H3 w. unfold try_send. destruct (sv_commands_closed s); [by apply H1|].
  destruct (Z.leb_spec SUPERVISOR_COMMAND_CAPACITY (zlen (sv_commands s))); [by apply H2 | by apply H3].
Qed.

Lemma step_admit_send_wf id ref cleanup request w out s' w' y :
  system_wf y → sy_ledger y !! id = Some (ref, Admitting StageSending cleanup request) →
  or_release (admit_send (mkAdmission id ref cleanup) request) (sy_sup y) w = (out, s', w') →
  system_wf (moved id (if is_ok out then Some (ref, Queued) else None) s' y).
Proof.
  intros Hw Hid. start_wp. pose proof (sw_ledger _ Hw) as Hl. apply wp_or_release.
  unfold admit_send, remove_control. cbn [oa_operation_id]. wp_step.
  assert (Hfail : ∀ (e : Error), system_wf (moved id (if is_ok (Err (A:=()) e) then Some (ref, Queued) else None)
     (((sy_sup y) <| sv_controls ::= delete id |>) <| sv_permits ::= Z.succ |>) y)).
  { intros e. eapply wf_moved; try done; [apply Hw|]. by eapply ledger_leave. }
  apply wp_try_send; [intros _; wp_go; by apply Hfail..|]. intros _. wp_go.
  eapply wf_moved; try done; [apply Hw| |].
  - by eapply ledger_send.
  - intros e [= <-]. split; [done|]. by eapply fits_next.
Qed.

(** ** Preparation *)
Lemma wf_owner_frame y (s' : Sup) id c request cleanup :
  system_wf y → sy_ledger y !! id = None → control_ok c → oc_settled c = false →
  sv_heap s' = sv_heap (sy_sup y) ++ [c] → sv_registry s' = sv_registry (sy_sup y) →
  sv_phase s' = sv_phase (sy_sup y) → sv_root s' = sv_root (sy_sup y) →
  sv_controller s' ≠ ControllerUnstarted →
  ledger_wf s' (<[id := (length (sv_heap (sy_sup y)), Admitting StagePrepared cleanup request)]> (sy_ledger y)) →
  system_wf (moved id (Some (length (sv_heap (sy_sup y)), Admitting StagePrepared cleanup request)) s'
               y <| sy_owner ::= λ o, o ++ [id] |>).
Proof.
  intros [] Hid Hok Hset Eh Er Ep Ert Hctl Hlw.
  assert (Hold : ∀ i r p c', sy_ledger y !! i = Some (r, p) → (sv_heap (sy_sup y) ++ [c]) !! r = Some c' →
    sv_heap (sy_sup y) !! r = Some c').
  { intros i r p c' Hi Hc'. pose proof (lookup_lt_Some _ _ _ (sw_owner i r p Hi)) as Hlt.
    rewrite lookup_app_l in Hc' by lia. done. }
  assert (Hnew : ∀ c', (sv_heap (sy_sup y) ++ [c]) !! length (sv_heap (sy_sup y)) = Some c' → c' = c).
  { intros c' Hc'. rewrite lookup_app_r, Nat.sub_diag in Hc' by lia. by injection Hc'. }
  split; simpl; rewrite ?Eh, ?Er, ?Ep, ?Ert; try done.
  - rewrite !length_app. simpl. lia.
  - intros i r p [[<- [= <- <-]]|[Hne Hi]]%lookup_insert_Some.
    + rewrite lookup_app_r, <- sw_heap, Nat.sub_diag by lia. done.
    + apply lookup_app_l_Some. by eapply sw_owner.
  - apply Forall_app. split; [done|]. by constructor.
  - intros i r p c' [[<- [= <- <-]]|[Hne Hi]]%lookup_insert_Some Hc' Hs.
    + apply Hnew in Hc' as ->. congruence.
    + eapply sw_settled; [done| |done]. by eapply Hold.
  - intros i e [[<- <-]|[Hne Hi]]%lookup_insert_Some; [done|]. by apply sw_place.
  - intros i r p c' [[<- [= <- <-]]|[Hne Hi]]%lookup_insert_Some Hr Hc'.
    + by apply Hnew in Hc' as ->.
    + eapply sw_unregistered; try done. by eapply Hold.
  - intros Hp i r p c' [[<- [= <- <-]]|[Hne Hi]]%lookup_insert_Some Hr Hc'; [done|].
    eapply sw_closing; try done. by eapply Hold.
  - intros i r p c' Hia [[<- [= <- <-]]|[Hne Hi]]%lookup_insert_Some Hr Hc'; [done|].
    eapply sw_acknowledged; try done. by eapply Hold.
Qed.

Definition prepared_post y id request (out : Result OperationAdmission) (s' : Sup) : Prop :=
  match out with
  | Ok a => sy_ledger y !! id = None →
      system_wf (moved id (Some (oa_control a, Admitting StagePrepared (oa_cleanup a) request)) s'
                   y <| sy_owner ::= λ o, o ++ [id] |>)
  | Err _ => system_wf (y <| sy_sup := s' |>)
  end.

Lemma wf_controller_started y :
  system_wf y → sv_controller (sy_sup y) = ControllerUnstarted →
  system_wf (y <| sy_sup ::= λ s, s <| sv_controller := ControllerRunning |> <| sv_commands := [] |>
                     <| sv_commands_closed := false |> <| sv_shutting_down := sv_root s |> |>).
Proof.
  intros Hw Hu. pose proof Hw as []. specialize (sw_unstarted Hu).
  assert (Hq : sv_commands (sy_sup y) = []).
  { destruct (sv_commands (sy_sup y)) as [|[a rq] q] eqn:Eq; [done|]. exfalso.
    assert (Hin : (a, rq) ∈ sv_commands (sy_sup y)) by (rewrite Eq; by left).
    apply (lw_queue _ _ sw_ledger) in Hin. by rewrite sw_unstarted, lookup_empty in Hin. }
  split; simpl; try done.
  eapply ledger_frame; [..|exact sw_ledger]; simpl; congruence.
Qed.

Lemma wp_ensure_controller y :
  system_wf y →
  wp ensure_controller (λ out s', match out with
    | Ok _ => system_wf (y <| sy_sup := s' |>) ∧ sv_phase s' = PhaseOpen ∧ sv_controller s' = ControllerRunning
    | Err _ => s' = sy_sup y
    end) (sy_sup y).
Proof.
  intros Hw. unfold ensure_controller, ensure_open. wp_step. wp_step. wp_step.
  destruct (decide (sv_phase (sy_sup y) = PhaseOpen)) as [Hph|Hph];
    [rewrite bool_decide_true by done | rewrite bool_decide_false by done; by wp_go].
  wp_step. wp_step. wp_step. destruct (sv_controller (sy_sup y)) eqn:Ec; [|by wp_go; destruct y|by wp_go..].
  wp_step. wp_step. wp_step. rewrite bool_decide_true by done. wp_go.
  split_and!; [by apply wf_controller_started|done..].
Qed.

Lemma step_prepare_wf id request w out s' w' y :
  system_wf y →
  prepare id request (sy_sup y) w = (out, s', w') → prepared_post y id request out s'.
Proof.
  intros Hw. start_wp. unfold prepare. wp_step. eapply wp_mono; [by apply wp_ensure_controller|].
  intros [[]|e] s1 H1; [|rewrite H1; by destruct y]. destruct H1 as (Hw1 & Hph & Hctl).
  unfold ensure_open. wp_step. wp_step. wp_step. rewrite bool_decide_true by done. wp_step.
  unfold try_acquire_permit. wp_step. wp_step. wp_step.
  destruct (sv_admission_closed s1 || (sv_permits s1 <=? 0)); [by wp_go|]. wp_step.
  apply wp_or_release.
  set (s2 := s1 <| sv_permits ::= Z.pred |>).
  assert (Herr : ∀ e, prepared_post y id request (Err e) (s2 <| sv_permits ::= Z.succ |>)).
  { intros e. simpl. replace (s2 <| sv_permits ::= Z.succ |>) with s1; [done|].
    subst s2. destruct s1. cbv -[Z.succ Z.pred]. f_equal. lia. }
  wp_step. wp_step. wp_step. wp_step.
  destruct (instant_checked_add _ _) as [deadline|]; [|by apply Herr]. cbn [ok_or].
  wp_step. wp_step. destruct (sreq_disposable_file request id) as [file|]; [|by apply Herr].
  wp_step. wp_step. destruct (sreq_termination_handshake_grace request) as [grace|]; [|by apply Herr].
  wp_step. intros w1. unfold new_control. cbn -[prepared_post].
  assert (Hlen : length (sv_heap s2) = length (sv_heap (sy_sup (y <| sy_sup := s1 |>)))) by done.
  pose proof (wf_owner_frame (y <| sy_sup := s1 |>)
    (s2 <| sv_heap := sv_heap s2 ++ [control_new deadline ((λ path, mkDisposable path false) <$> file)
             (default DEFAULT_TERMINATION_HANDSHAKE_GRACE grace)] |>) id
    (control_new deadline ((λ path, mkDisposable path false) <$> file)
             (default DEFAULT_TERMINATION_HANDSHAKE_GRACE grace)) request
    (match file with Some _ => [length (sv_heap s2)] | None => [] end)) as Hf.
  wp_go. intros Hid. apply Hf; try done.
  - simpl. subst s2. by rewrite Hctl.
  - simpl. eapply (ledger_frame s2); try done. apply ledger_enter; [done|]. apply (sw_ledger _ Hw1).
Qed.

(** ** Requests from outside *)
Lemma synchronized_registered (p : Place Request) : synchronized p = true → registered p = true.
Proof. by destruct p as [[]| | | |]. Qed.

Lemma step_cancel_control_wf id w out s' w' y :
  system_wf y → id ∈ sy_applied y → cancel id (sy_sup y) w = (out, s', w') →
  system_wf (y <| sy_sup := s' |> <| sy_acknowledged ::= λ a, {[id]} ∪ a |> <| sy_signalled ::= λ a, {[id]} ∪ a |>).
Proof.
  intros Hw Hap E.
  assert (Hs : system_wf (y <| sy_sup := s' |>)
    ∧ ∀ ref c, sv_controls (sy_sup y) !! id = Some ref → sv_heap s' !! ref = Some c → oc_stop_reason c ≠ 0).
  { revert E. start_wp. unfold cancel, on_control. wp_step. wp_step.
    destruct (sv_controls (sy_sup y) !! id) as [ref|] eqn:Ec; wp_go; [|split; [by destruct y|done]].
    split.
    - apply wf_heap_frame; try done; [| |apply (sw_root _ Hw)|by left].
      + simpl. apply alter_heap_le. intros c. apply request_cancel_stops.
      + eapply ledger_frame; [..|apply (sw_ledger _ Hw)]; done.
    - intros r c [= <-] Hc. simpl in Hc. rewrite list_lookup_alter_eq in Hc.
      apply fmap_Some in Hc as (c0 & _ & ->). apply request_cancel_stops. }
  destruct Hs as [Hs Hst]. assert (Hn2 : not_before 2 (sv_registry s') id).
  { apply (sw_applied _ Hs). done. }
  assert (Hctl : sv_controls s' = sv_controls (sy_sup y)).
  { revert E. start_wp. unfold cancel, on_control. wp_step. wp_step.
    destruct (sv_controls (sy_sup y) !! id); by wp_go. }
  destruct Hs. split; simpl in *; try done.
  - intros i [->%elem_of_singleton|Hi]%elem_of_union; [done|]. by apply sw_signalled.
  - intros i ref p c [->%elem_of_singleton|Hi]%elem_of_union Hl Hp Hc; [|by eapply sw_acknowledged].
    left. apply (Hst ref c); [|done]. rewrite <- Hctl. apply (lw_controls _ _ sw_ledger).
    exists p. split; [done|]. by apply synchronized_registered.
  - set_solver.
Qed.

Lemma step_settle_wf id w out s' w' y :
  system_wf y → id ∈ sy_settled y → settle id (sy_sup y) w = (out, s', w') → system_wf (y <| sy_sup := s' |>).
Proof.
  intros Hw Hid. start_wp. unfold settle, on_control. wp_step. wp_step.
  destruct (sv_controls (sy_sup y) !! id) as [ref|] eqn:Ec; wp_go; [|by destruct y].
  pose proof Hw as []. apply (lw_controls _ _ sw_ledger) in Ec as (p & Hp & Hpr).
  assert (Hback : ∀ r c', alter control_settle ref (sv_heap (sy_sup y)) !! r = Some c' →
    ∃ c, sv_heap (sy_sup y) !! r = Some c ∧ oc_stop_reason c' = oc_stop_reason c
         ∧ oc_cancelled c' = oc_cancelled c ∧ (r ≠ ref → c' = c)
         ∧ oc_execution_state c' = oc_execution_state c).
  { intros r c' Hc'. destruct (decide (r = ref)) as [->|Hne].
    - rewrite list_lookup_alter_eq in Hc'. apply fmap_Some in Hc' as (c & Hc & ->). by exists c.
    - rewrite list_lookup_alter_ne in Hc' by done. by exists c'. }
  split; simpl; try done.
  - eapply ledger_frame; [..|exact sw_ledger]; done.
  - by rewrite length_alter.
  - apply Forall_lookup_2. intros r c' (c & Hc & Hs & Hk & _ & Hx)%Hback. unfold control_ok. rewrite Hs, Hk, Hx.
    exact (Forall_lookup_1 _ _ _ _ sw_control Hc).
  - intros i r q c' Hl Hc' Hs. destruct (Hback _ _ Hc') as (c & Hc & _ & _ & Heq & _).
    destruct (decide (r = ref)) as [->|Hne].
    + assert (i = id) as ->. { apply sw_owner in Hl. apply sw_owner in Hp. congruence. }
      by apply sw_settled_ids.
    + rewrite (Heq Hne) in Hs. by eapply sw_settled.
  - intros i r q c' Hl Hr Hc'. destruct (Hback _ _ Hc') as (c & Hc & _ & _ & Heq & _).
    destruct (decide (r = ref)) as [->|Hne]; [|rewrite Heq by done; by eapply sw_unregistered].
    apply sw_owner in Hl as Ho. apply sw_owner in Hp as Ho'. assert (i = id) as -> by congruence.
    destruct q as [[]| | | |]; simplify_eq/=.
  - intros Hph i r q c' Hl Hr (c & Hc & -> & _)%Hback. by eapply sw_closing.
  - intros i r q c' Hia Hl Hr (c & Hc & -> & _)%Hback. by eapply sw_acknowledged.
Qed.

(** Stopping all registered controls. *)
Definition stop_all (f : OperationControl → OperationControl) (s : Sup) : Sup :=
  s <| sv_heap ::= λ heap, foldr (λ kv, alter f kv.2) heap (map_to_list (sv_controls s)) |>.

Lemma stop_all_wf y (s1 : Sup) f :
  system_wf y → stops f → sv_heap s1 = sv_heap (sy_sup y) → sv_registry s1 = sv_registry (sy_sup y) →
  ledger_wf s1 (sy_ledger y) → (sv_root s1 = true → sv_phase s1 ≠ PhaseOpen) →
  (sv_controller s1 = ControllerUnstarted → sv_controller (sy_sup y) = ControllerUnstarted) →
  system_wf (y <| sy_sup := stop_all f s1 |>).
Proof.
  intros Hw Hf Eh Er Hl Hroot Hctl. apply wf_heap_frame; try done.
  - simpl. rewrite Eh.
    apply (alters_heap_le (A := RuntimeOperationId * ControlRef) (λ _, f) (λ kv, kv.2)). intros _ c. apply Hf.
  - eapply ledger_frame; [..|exact Hl]; done.
  - intros _. right. intros id ref p c Hid Hreg Hc. simpl in Hc.
    eapply (alters_stop f (λ kv : RuntimeOperationId * ControlRef, kv.2) _ _ (id, ref)); [done| |exact Hc].
    apply elem_of_map_to_list, (lw_controls _ _ Hl). eauto.
Qed.

Lemma step_close_phase_wf w out s' w' y :
  system_wf y → begin_close_phase (sy_sup y) w = (out, s', w') → system_wf (y <| sy_sup := s' |>).
Proof.
  intros Hw. start_wp. unfold begin_close_phase, on_controls. wp_step. wp_step.
  destruct (sv_phase (sy_sup y)) eqn:Ep; [|by wp_go; destruct y..]. wp_go.
  apply (stop_all_wf y ((sy_sup y) <| sv_phase := PhaseClosing |>) request_shutdown); try done.
  - apply request_shutdown_stops.
  - eapply ledger_frame; [..|apply (sw_ledger _ Hw)]; done.
Qed.

Lemma enter_shutdown_wf w out s' w' y :
  system_wf y → enter_shutdown (sy_sup y) w = (out, s', w') → system_wf (y <| sy_sup := s' |>).
Proof.
  intros Hw. start_wp. unfold enter_shutdown, request_shutdown_for_all, on_controls. wp_go.
  apply (stop_all_wf y ((sy_sup y) <| sv_shutting_down := true |>) request_shutdown); try done.
  - apply request_shutdown_stops.
  - eapply ledger_frame; [..|apply (sw_ledger _ Hw)]; done.
  - apply (sw_root _ Hw).
Qed.

Lemma step_take_controller_wf w out s' w' y :
  system_wf y → take_controller (sy_sup y) w = (out, s', w') → system_wf (y <| sy_sup := s' |>).
Proof.
  intros Hw. start_wp. unfold take_controller. wp_step. wp_step.
  assert (Hset : system_wf (y <| sy_sup := (sy_sup y) <| sv_controller := ControllerDraining |> |>)).
  { apply wf_heap_frame; try done; [|apply (sw_root _ Hw)|by left].
    eapply ledger_frame; [..|apply (sw_ledger _ Hw)]; done. }
  destruct (sv_controller (sy_sup y)); wp_go; try done; by destruct y.
Qed.

(** Steps on one control, and on the fields the books do not see. *)
Lemma wf_control_frame y f (ref : ControlRef) :
  system_wf y → (∀ c, ctl_le c (f c)) → system_wf (y <| sy_sup ::= λ s, s <| sv_heap ::= alter f ref |> |>).
Proof.
  intros Hw Hf. apply (wf_heap_frame y ((sy_sup y) <| sv_heap ::= alter f ref |>));
    try done; [| |apply (sw_root _ Hw)|by left].
  - simpl. by apply alter_heap_le.
  - eapply ledger_frame; [..|apply (sw_ledger _ Hw)]; done.
Qed.

Lemma step_deadline_of_wf d now y :
  system_wf y → system_wf (y <| sy_sup ::= λ s, s <| sv_heap ::= expire now d |> |>).
Proof.
  intros Hw. unfold expire. case_bool_decide; [|by destruct y as [[]]].
  apply wf_control_frame; [done|]. intros c. case_if Ed; [apply request_deadline_stops | done].
Qed.

Lemma wf_phase_frame y (s' : Sup) :
  system_wf y → sv_heap s' = sv_heap (sy_sup y) → sv_registry s' = sv_registry (sy_sup y) →
  ledger_wf s' (sy_ledger y) → sv_phase (sy_sup y) ≠ PhaseOpen → sv_phase s' ≠ PhaseOpen →
  (sv_controller s' = ControllerUnstarted → sv_controller (sy_sup y) = ControllerUnstarted) →
  system_wf (y <| sy_sup := s' |>).
Proof.
  intros Hw Eh Er Hl Hp Hp' Hc. apply wf_heap_frame; try done; [by rewrite Eh|by left].
Qed.

Lemma step_deadline_wf w out s' w' y :
  system_wf y → arm_deadline (sy_sup y) w = (out, s', w') → system_wf (y <| sy_sup := s' |>).
Proof.
  intros Hw. start_wp. unfold arm_deadline, request_expired_deadlines. wp_step. wp_step. wp_step.
  apply wf_heap_frame; try done; [| |apply (sw_root _ Hw)|by left].
  - simpl. induction (map_to_list (sv_descriptors (sy_sup y))) as [|[tid d] l IH]; [done|]. simpl.
    etrans; [exact IH|]. unfold expire. case_if E; [|done]. apply alter_heap_le. intros c.
    case_if Ed; [apply request_deadline_stops | done].
  - eapply ledger_frame; [..|apply (sw_ledger _ Hw)]; done.
Qed.

(** ** Registry calls *)
Lemma registry_call_advances g g' : registry_wf g → registry_call g g' → registry_wf g' ∧ advances g g'.
Proof.
  intros Hg Hc. revert Hg.
  destruct Hc as [id t w out g1 g2 w' Ho Hf E|event w out g1 g2 w' Hf E|T f w out g1 g2 w' E|w out g1 g2 w' E|id w out g1 g2 w' E];
    intros Hg.
  - pose proof (wp_run _ _ _ _ _ _ _ (wp_transition_any g1 id t Hg Ho Hf) E) as Hp.
    split; [by eapply transition_post_wf | by eapply transition_advances].
  - pose proof (wp_run _ _ _ _ _ _ _ (wp_ingest g1 event Hg Hf) E) as Hp.
    split; [by eapply ingest_post_wf | by eapply ingest_advances].
  - destruct (wp_run _ _ _ _ _ _ _ (wp_inspect f g1 Hg) E) as (? & ? & _).
    split; [done | by apply swept_advances].
  - revert E. start_wp. unfold next_terminal_expiry. wp_step. wp_step. wp_step. wp_step. wp_step.
    eapply wp_mono; [apply wp_sweep; [apply rw_core, Hg | by apply swept_bytes]|].
    intros o g' (-> & Hwf & Hsw & _). wp_go. split; [done | by apply swept_advances].
  - destruct (wp_run _ _ _ _ _ _ _ (wp_remove g1 id Hg) E) as (_ & ? & Hr & _). split; [done|].
    intros n i Hn Hb r. rewrite Hr. intros [_ Hi]%lookup_delete_Some. by apply Hb.
Qed.

Lemma step_insert_record_wf id request now r w out g' w' y :
  system_wf y → (∀ e, sy_ledger y !! id = Some e → prepared e.2 = true) →
  id ∉ sy_applied y ∪ sy_signalled y ∪ sy_settled y →
  running_runtime_operation_record id request now = Ok r →
  insert_record r (sv_registry (sy_sup y)) w = (out, g', w') →
  system_wf (y <| sy_sup ::= λ s, s <| sv_registry := g' |> |>).
Proof.
  intros Hw Hid Hno Hr E. apply running_record_fresh in Hr as [Hf Hrid].
  destruct (wp_run _ _ _ _ _ _ _ (wp_insert _ r (sw_registry _ Hw) Hf) E) as [Hg' (g1 & Hg1 & Hsw & Heff)].
  assert (Ha : ∀ n i, i ≠ id → n ≤ 3 → not_before n (sv_registry (sy_sup y)) i → not_before n g' i).
  { intros n i Hne Hn Hb. apply swept_advances in Hsw. specialize (Hsw n i Hn Hb).
    destruct out as [[]|e]; [|by destruct Heff as [-> _]].
    destruct Heff as (_ & _ & _ & Hoth & _). rewrite Hrid in Hoth. intros ri Hri.
    destruct (is_terminal (op_status (rec_operation ri))) eqn:Et; [apply rank_terminal in Et; lia|].
    apply Hsw. by apply (Hoth i ri Hne Et). }
  destruct Hw. split; simpl; try done.
  - eapply ledger_frame; [..|exact sw_ledger]; done.
  - intros i ref p c Hl Hc Hs. apply Ha; [|lia|by eapply sw_settled].
    intros ->. specialize (sw_unregistered _ _ _ _ Hl (Hid _ Hl) Hc). congruence.
  - intros i e Hl. specialize (sw_place i e Hl). destruct (decide (i = id)) as [->|Hne].
    + specialize (Hid _ Hl). by destruct e as [? [[]| | | |]].
    + eapply place_ok_advances; [|exact sw_place]. intros n. by apply Ha.
  - intros i Hi. apply Ha; [set_solver|lia|]. by apply sw_applied.
  - intros i Hi. apply Ha; [set_solver|lia|]. by apply sw_signalled.
  - intros i Hi. apply Ha; [set_solver|lia|]. by apply sw_settled_ids.
  - intros i ref p c Hi Hl Hp Hc. destruct (sw_acknowledged i ref p c Hi Hl Hp Hc); [by left|right].
    apply Ha; [|lia|done]. intros ->. specialize (Hid _ Hl). by destruct p as [[]| | | |].
Qed.

Lemma step_cancel_registry_wf id w out g' w' y :
  system_wf y → transition id CancelRequested (sv_registry (sy_sup y)) w = (out, g', w') →
  system_wf (y <| sy_sup ::= λ s, s <| sv_registry := g' |> |>
               <| sy_applied ::= λ a, if is_applied out then {[id]} ∪ a else a |>).
Proof.
  intros Hw E.
  destruct (wp_run _ _ _ _ _ _ _ (wp_cancel_applied _ id (sw_registry _ Hw)) E) as [Hp Hap].
  pose proof (wf_registry_frame y g' Hw (transition_post_wf _ _ _ _ _ _ Hp) (transition_advances _ _ _ _ _ _ Hp)) as [].
  split; simpl in *; try done.
  - intros i Hi. destruct (is_applied out) eqn:Eo; [|by apply sw_applied].
    apply elem_of_union in Hi as [->%elem_of_singleton|Hi]; [|by apply sw_applied].
    apply Hap. by destruct out as [[]|].
  - destruct (is_applied out); set_solver.
Qed.

Lemma step_ingest_wf event w v settled g' w' y :
  system_wf y → event_fits event →
  ingest_module_event_with_settlement event (sv_registry (sy_sup y)) w = (Ok (v, settled), g', w') →
  system_wf (y <| sy_sup ::= λ s, s <| sv_registry := g' |> |>
               <| sy_settled ::= λ a, match settled with Some id => {[id]} ∪ a | None => a end |>).
Proof.
  intros Hw Hf E. pose proof (wp_run _ _ _ _ _ _ _ (wp_ingest _ event (sw_registry _ Hw) Hf) E) as Hp.
  pose proof (wf_registry_frame y g' Hw (ingest_post_wf _ _ _ _ Hp) (ingest_advances _ _ _ _ Hp)) as [].
  split; simpl in *; try done. intros i Hi. destruct settled as [id|]; [|by apply sw_settled_ids].
  apply elem_of_union in Hi as [->%elem_of_singleton|Hi]; [|by apply sw_settled_ids].
  by eapply ingest_settled.
Qed.

Lemma arm_registry_wf {A} (m : M Registry A) w out s' w' y :
  system_wf y →
  wp m (λ _ g', registry_wf g' ∧ advances (sv_registry (sy_sup y)) g') (sv_registry (sy_sup y)) →
  on_registry m (sy_sup y) w = (out, s', w') → system_wf (y <| sy_sup := s' |>).
Proof.
  intros Hw Hm. start_wp. apply wp_on_registry. eapply wp_mono; [exact Hm|].
  intros o g' [Hg Ha]. by apply wf_registry_frame.
Qed.
End invariant.
