(* ===== verification/SupervisorReducer.v ===== *)
(** * The reducer keeps the books

    The arms of the reducer's loop on a well-formed system: the head of the
    loop drops what is still queued, a command becomes a task, a task that has
    ended is released or replaced by a wait for its external completion. *)

From S2P Require Import Prelude Json ModuleEvents OperationRecord Transition OperationViews.
From S2P Require Import OperationControl ControlTheorems RecordInvariants Registry Supervisor.
From S2P Require Import RegistryInvariant RegistrySweep RegistryMethods RegistryIngest RegistryTheorems.
From S2P Require Import StatusRanks SupervisorSystem SupervisorInvariant.

Section reducer.
Context `{SerdeJson} `{OperationRequest Request} `{!SupervisedRequest Request}.
Abbreviation Sup := (Supervisor Request).
Abbreviation Registry := (RuntimeOperationRegistry Request).
Abbreviation Ledger := (gmap RuntimeOperationId (ControlRef * Place Request)).
Implicit Types g : RuntimeOperationRegistry Request.
Implicit Types y : System (Request := Request).
Implicit Types l : Ledger.

(** ** The reducer takes commands *)
Lemma size_delete_ledger l id e : l !! id = Some e → Z.of_nat (size l) = Z.of_nat (size (delete id l)) + 1.
Proof.
  intros Hid. rewrite map_size_delete_Some by (by eexists).
  assert (size l ≠ 0)%nat by (intros E%map_size_empty_iff; rewrite E in Hid; by rewrite lookup_empty in Hid).
  lia.
Qed.

Lemma ledger_dequeue (s : Sup) l a request rest :
  ledger_wf s l → sv_commands s = (a, request) :: rest →
  ledger_wf (s <| sv_commands := rest |> <| sv_controls ::= delete (oa_operation_id a) |>
               <| sv_permits ::= Z.succ |>) (delete (oa_operation_id a) l).
Proof.
  intros Hw Hq. pose proof Hw as []. rewrite Hq in *. set (id := oa_operation_id a) in *.
  assert (Hid : l !! id = Some (oa_control a, Queued)) by (apply (lw_queue a request); by left).
  simpl in lw_queue_ids. apply NoDup_cons in lw_queue_ids as [Hni Hnd].
  split; simpl; try done.
  - intros i r. destruct (decide (i = id)) as [->|Hn].
    + rewrite !lookup_delete_eq. split; [done|]. by intros (q & ? & _).
    + rewrite !lookup_delete_ne by done. apply lw_controls.
  - intros b rq Hin. rewrite lookup_delete_ne; [apply (lw_queue b rq); by right|].
    intros Heq. apply Hni. fold id. rewrite Heq. apply list_elem_of_fmap. by exists (b, rq).
  - intros i r [Hn Hi]%lookup_delete_Some. apply lw_queued in Hi. simpl in Hi.
    apply elem_of_cons in Hi as [Hi|Hi]; [|done]. by destruct Hn.
  - intros tid d Hd. pose proof (lw_descriptors _ _ Hd). rewrite lookup_delete_ne; [done|]. congruence.
  - intros i r tid [Hn Hi]%lookup_delete_Some. by eapply lw_supervised.
  - intros i tid. rewrite lw_live. split; intros [r Hi]; exists r.
    + rewrite lookup_delete_ne; [done|]. congruence.
    + by apply lookup_delete_Some in Hi as [_ ?].
  - pose proof (size_delete_ledger l id _ Hid). lia.
Qed.

Lemma shutdown_fits : transition_fits (Shutdown not_executed_message).
Proof. done. Qed.

Definition drop_commands (cs : list (OperationAdmission * Request)) l : Ledger :=
  foldl (λ l c, delete (oa_operation_id c.1) l) l cs.

Lemma wp_drain cs y :
  system_wf y → sv_commands (sy_sup y) = cs →
  wp (drain_commands cs) (λ out s', is_ok out = true →
    system_wf (y <| sy_sup := s' |> <| sy_ledger := drop_commands cs (sy_ledger y) |>)
    ∧ sv_commands s' = [] ∧ sv_tasks s' = sv_tasks (sy_sup y)
    ∧ advances (sv_registry (sy_sup y)) (sv_registry s')
    ∧ ∀ a request, (a, request) ∈ cs → not_before 3 (sv_registry s') (oa_operation_id a)) (sy_sup y).
Proof.
  revert y. induction cs as [|[a rq] cs IH]; intros y Hw Hq; simpl.
  { wp_go. intros _. split_and!; try done; [by destruct y|]. by intros ? ? ?%elem_of_nil. }
  unfold finish_operation, remove_control, release_permit. wp_step. wp_step. wp_step. apply wp_or_release.
  wp_step. apply wp_on_registry. cbn [sv_registry].
  eapply wp_mono; [apply (wp_transition_target _ (oa_operation_id a) (Shutdown not_executed_message)
    (sw_registry _ Hw) I shutdown_fits)|].
  intros [d|e] g' [Hpost Hset]; [|done]. wp_step. wp_step. wp_step.
  set (s1 := _ <| sv_permits ::= Z.succ |>).
  assert (Hw1 : system_wf (moved (oa_operation_id a) None s1 y)).
  { pose proof (sw_ledger _ Hw) as Hl.
    assert (Hid : sy_ledger y !! oa_operation_id a = Some (oa_control a, Queued))
      by (apply (lw_queue _ _ Hl a rq); rewrite Hq; by left).
    eapply wf_moved; try done.
    - by eapply transition_post_wf.
    - by eapply transition_advances.
    - subst s1. simpl. eapply (ledger_frame ((sy_sup y) <| sv_commands := cs |>
        <| sv_controls ::= delete (oa_operation_id a) |> <| sv_permits ::= Z.succ |>)); try done.
      by eapply ledger_dequeue. }
  eapply wp_mono; [by apply (IH (moved (oa_operation_id a) None s1 y) Hw1)|].
  intros out s' Hk Hok. destruct (Hk Hok) as (Hw' & Hq' & Ht' & Ha & Hall). split_and!; try done.
  - etrans; [by eapply transition_advances | exact Ha].
  - intros b rq' [[= -> ->]|Hin]%elem_of_cons; [|by eapply Hall]. apply Ha; [lia|]. by apply Hset.
Qed.

(** Dropping the queued operations one by one leaves the others. *)
Lemma drop_commands_lookup cs l i :
  drop_commands cs l !! i = if bool_decide (i ∈ (λ c, oa_operation_id c.1) <$> cs) then None else l !! i.
Proof.
  revert l. induction cs as [|c cs IH]; intros l; simpl.
  { done. }
  unfold drop_commands in *. rewrite IH.
  destruct (decide (i = oa_operation_id c.1)) as [->|Hne].
  - rewrite (bool_decide_true (_ ∈ _ :: _)) by (by left). rewrite lookup_delete_eq. by case_match.
  - rewrite lookup_delete_ne by done. destruct (decide (i ∈ (λ c, oa_operation_id c.1) <$> cs)).
    + rewrite !bool_decide_true; [done|by right|done].
    + rewrite !bool_decide_false; [done| |done]. by intros [?|?]%elem_of_cons.
Qed.

Lemma drop_commands_filter (s : Sup) l :
  ledger_wf s l → drop_commands (sv_commands s) l = filter (λ kv, queued kv.2.2 = false) l.
Proof.
  intros []. apply map_eq. intros i. rewrite drop_commands_lookup. case_bool_decide as Hi.
  - symmetry. apply map_lookup_filter_None. right. intros e He Hn.
    apply list_elem_of_fmap in Hi as ([a rq] & -> & Hin). apply lw_queue in Hin. simpl in *. by simplify_eq.
  - destruct (l !! i) as [[r p]|] eqn:El; symmetry.
    + apply map_lookup_filter_Some. split; [done|]. simpl. destruct p; try done. by apply lw_queued in El.
    + apply map_lookup_filter_None. by left.
Qed.

Definition after_head y (s' : Sup) : System :=
  y <| sy_sup := s' |>
    <| sy_ledger ::= λ l, if sv_shutting_down (sy_sup y) then filter (λ kv, queued kv.2.2 = false) l else l |>.

Lemma wp_head y :
  system_wf y →
  wp loop_head (λ out s', ∀ b, out = Ok b → system_wf (after_head y s')
    ∧ if sv_shutting_down (sy_sup y)
      then sv_commands s' = [] ∧ b = bool_decide (sv_tasks s' = ∅)
           ∧ ∀ a request, (a, request) ∈ sv_commands (sy_sup y) →
               not_before 3 (sv_registry s') (oa_operation_id a)
      else b = false) (sy_sup y).
Proof.
  intros Hw. unfold after_head, loop_head, close_commands, drain_pending_admissions. wp_step. wp_step.
  destruct (sv_shutting_down (sy_sup y)); [|wp_go; intros b [= <-]; split; [by destruct y|done]].
  wp_step. wp_step. wp_step. wp_step. wp_step.
  set (y1 := y <| sy_sup ::= λ s, s <| sv_commands_closed := true |> |>).
  assert (Hw1 : system_wf y1).
  { apply (wf_heap_frame y ((sy_sup y) <| sv_commands_closed := true |>)); try done;
      [|apply (sw_root _ Hw)|by left].
    eapply ledger_frame; [..|apply (sw_ledger _ Hw)]; done. }
  eapply wp_mono; [apply (wp_drain _ y1 Hw1 eq_refl)|]. intros [[]|e] s1 Hk; [|done].
  destruct (Hk eq_refl) as (Hw' & Hq & _ & _ & Hall). wp_go. intros b [= <-]. split_and!; try done.
  pose proof (drop_commands_filter _ _ (sw_ledger _ Hw1)) as Hd. simpl in Hd, Hw'. by rewrite Hd in Hw'.
Qed.

(** ** The reducer launches a task *)
Lemma fresh_task (s : Sup) l : ledger_wf s l → sv_tasks s !! sv_next_task s = None
  ∧ sv_descriptors s !! sv_next_task s = None.
Proof.
  intros []. assert (Ht : sv_tasks s !! sv_next_task s = None) by (by apply lw_next).
  split; [done|]. specialize (lw_tasks (sv_next_task s)). rewrite Ht in lw_tasks.
  by destruct (sv_descriptors s !! sv_next_task s).
Qed.

Lemma ledger_supervise (s : Sup) l id ref t d :
  ledger_wf s l → l !! id = None → td_operation_id d = id → td_control d = ref →
  task_operation_id t = id → task_control t = ref → task_kind t = td_kind d →
  ledger_wf (s <| sv_controls ::= <[id := ref]> |> <| sv_permits ::= Z.pred |>
               <| sv_tasks ::= <[sv_next_task s := t]> |> <| sv_next_task := S (sv_next_task s) |>
               <| sv_live_tasks ::= <[id := sv_next_task s]> |>
               <| sv_descriptors ::= <[sv_next_task s := d]> |>)
            (<[id := (ref, Supervised (sv_next_task s))]> l).
Proof.
  intros Hw Hid Hd1 Hd2 Ht1 Ht2 Ht3. destruct (fresh_task s l Hw) as [Hft Hfd]. pose proof Hw as [].
  set (n := sv_next_task s) in *.
  assert (Hold : ∀ i r tid, l !! i = Some (r, Supervised tid) → i ≠ id ∧ tid ≠ n).
  { intros i r tid Hi. split; [congruence|]. intros ->. apply lw_supervised in Hi as (? & ? & _). congruence. }
  split; simpl; try done.
  - intros i r. destruct (decide (i = id)) as [->|Hn].
    + rewrite !lookup_insert_eq. split; [intros [= <-]; eauto | by intros (q & [= <- <-] & _)].
    + rewrite !lookup_insert_ne by done. apply lw_controls.
  - intros a rq Hin. apply lw_queue in Hin. rewrite lookup_insert_ne; congruence.
  - intros i r [[_ [=]]|[Hn Hi]]%lookup_insert_Some. by eapply lw_queued.
  - intros tid d' [[<- <-]|[Hn Hd]]%lookup_insert_Some.
    + by rewrite Hd1, Hd2, lookup_insert_eq.
    + apply lw_descriptors in Hd. rewrite lookup_insert_ne; congruence.
  - intros i r tid [[<- [= <- <-]]|[Hn Hi]]%lookup_insert_Some.
    + exists d. by rewrite lookup_insert_eq.
    + rewrite lookup_insert_ne; [by eapply lw_supervised|]. symmetry. by eapply Hold.
  - intros i tid. destruct (decide (i = id)) as [->|Hn].
    + rewrite !lookup_insert_eq. split; [intros [= <-]; eauto | by intros (r & [= _ <-])].
    + rewrite lookup_insert_ne, lw_live by done. by rewrite lookup_insert_ne.
  - intros tid. destruct (decide (tid = n)) as [->|Hn].
    + rewrite !lookup_insert_eq. by rewrite Hd1, Hd2.
    + rewrite !lookup_insert_ne by done. apply lw_tasks.
  - intros tid Hle. rewrite lookup_insert_ne by lia. apply lw_next. lia.
  - rewrite map_size_insert_None by done. lia.
Qed.

Lemma ledger_retire (s : Sup) l id ref tid :
  ledger_wf s l → l !! id = Some (ref, Supervised tid) →
  ledger_wf (s <| sv_tasks ::= delete tid |> <| sv_descriptors ::= delete tid |>
               <| sv_live_tasks ::= delete id |> <| sv_controls ::= delete id |>
               <| sv_permits ::= Z.succ |>) (delete id l).
Proof.
  intros Hw Hid. pose proof Hw as [].
  assert (Hother : ∀ i r tid', i ≠ id → l !! i = Some (r, Supervised tid') → tid' ≠ tid).
  { intros i r tid' Hne Hi ->. destruct (lw_supervised _ _ _ Hi) as (d & Hd & <-).
    destruct (lw_supervised _ _ _ Hid) as (d' & Hd' & <-). congruence. }
  split; simpl; try done.
  - intros i r. destruct (decide (i = id)) as [->|Hn].
    + rewrite !lookup_delete_eq. split; [done|]. by intros (q & ? & _).
    + rewrite !lookup_delete_ne by done. apply lw_controls.
  - intros a rq Hin. apply lw_queue in Hin. rewrite lookup_delete_ne; congruence.
  - intros i r [Hn Hi]%lookup_delete_Some. by eapply lw_queued.
  - intros tid' d [Hn Hd]%lookup_delete_Some. apply lw_descriptors in Hd.
    rewrite lookup_delete_ne; congruence.
  - intros i r tid' [Hn Hi]%lookup_delete_Some.
    rewrite lookup_delete_ne; [by eapply lw_supervised|]. symmetry. by eapply Hother.
  - intros i tid'. destruct (decide (i = id)) as [->|Hn].
    + rewrite lookup_delete_eq. split; [done|]. intros [r Hr]. by rewrite lookup_delete_eq in Hr.
    + rewrite !lookup_delete_ne by done. apply lw_live.
  - intros tid'. destruct (decide (tid' = tid)) as [->|Hn].
    + by rewrite !lookup_delete_eq.
    + rewrite !lookup_delete_ne by done. apply lw_tasks.
  - intros tid' Hle. destruct (decide (tid' = tid)) as [->|Hn]; [by rewrite lookup_delete_eq|].
    rewrite lookup_delete_ne by done. by apply lw_next.
  - pose proof (size_delete_ledger l id _ Hid). lia.
Qed.

Lemma wp_spawn t (Q : Result TaskId → Sup → Prop) (s : Sup) :
  sv_live_tasks s !! task_operation_id t = None →
  Q (Ok (sv_next_task s)) (s <| sv_tasks ::= <[sv_next_task s := t]> |> <| sv_next_task := S (sv_next_task s) |>
       <| sv_live_tasks ::= <[task_operation_id t := sv_next_task s]> |>) →
  wp (spawn_operation_task t) Q s.
Proof.
  intros Hn HQ. unfold spawn_operation_task. wp_step. wp_step. wp_step. wp_step. wp_step. wp_step.
  simpl. rewrite Hn. by wp_go.
Qed.

(** The command at the head of the channel always becomes a task. *)
Lemma wp_command y a request rest :
  system_wf y → sv_commands (sy_sup y) = (a, request) :: rest →
  wp arm_command (λ out s', out = Ok () ∧ system_wf
    (moved (oa_operation_id a) (Some (oa_control a, Supervised (sv_next_task (sy_sup y)))) s' y)) (sy_sup y).
Proof.
  intros Hw Hq. pose proof (sw_ledger _ Hw) as Hl. set (id := oa_operation_id a).
  assert (Hid : sy_ledger y !! id = Some (oa_control a, Queued))
    by (apply (lw_queue _ _ Hl a request); rewrite Hq; by left).
  assert (Hlive : sv_live_tasks (sy_sup y) !! id = None).
  { apply eq_None_not_Some. intros [tid [r Hr]%(lw_live _ _ Hl)]. congruence. }
  assert (Hctl : sv_controls (sy_sup y) !! id = Some (oa_control a)) by (apply (lw_controls _ _ Hl); eauto).
  unfold arm_command, launch_command, insert_descriptor. wp_step. wp_step. rewrite Hq. wp_step. wp_step.
  apply wp_or_release. wp_step. apply wp_spawn; [done|]. wp_step. split; [done|].
  eapply wf_moved; try done; [apply Hw| |].
  - unfold moved. simpl. rewrite <- insert_delete_eq.
    pose proof (ledger_supervise _ _ id (oa_control a) (ExecutionTask id (oa_control a) request)
      (mkDescriptor id (oa_control a) (oa_cleanup a) KindExecution WaitOperationDeadline None)
      (ledger_dequeue _ _ a request rest Hl Hq) (lookup_delete_eq _ _) eq_refl eq_refl eq_refl eq_refl eq_refl) as Hs.
    eapply ledger_frame; [..|exact Hs]; simpl; try done.
    + by rewrite insert_delete_id.
    + lia.
  - intros e [= <-]. split; [done|]. by eapply fits_next.
Qed.

(** ** The reducer settles a task *)

(** How an arm of the reducer can fail: the registry refused a transition, it
    has lost the record, or the clock cannot represent a deadline. *)
Definition reducer_failure (id : RuntimeOperationId) (e : Error) : Prop :=
  (∃ t g w g' w', transition id t g w = (Err e, g', w'))
  ∨ e = ["runtime operation `" +:+ id +:+ "` disappeared while supervised"]
  ∨ e = ["runtime operation cleanup settlement deadline overflow"].

Lemma wp_self {S A} (m : M S A) s : wp m (λ out s', ∃ w w', m s w = (out, s', w')) s.
Proof. intros w. destruct (m s w) as [[out s'] w'] eqn:E. eauto. Qed.

(** A transition from the reducer. *)
Lemma wp_reducer_transition id t (Q : Result TransitionDisposition → Sup → Prop) (b : Sup) :
  registry_wf (sv_registry b) → transition_ok t → transition_fits t →
  (∀ e g', reducer_failure id e → Q (Err e) (b <| sv_registry := g' |>)) →
  (∀ d g', registry_wf g' → advances (sv_registry b) g' → not_before (target t) g' id →
     Q (Ok d) (b <| sv_registry := g' |>)) →
  wp (on_registry (transition id t)) Q b.
Proof.
  intros Hg Ho Hf Herr Hok. apply wp_on_registry.
  eapply wp_mono; [apply (wp_and _ _ _ _ (wp_transition_target _ id t Hg Ho Hf) (wp_self _ _))|].
  intros [d|e] g' [[Hp Ht] (w & w' & E)].
  - apply Hok; [by eapply transition_post_wf | by eapply transition_advances | by apply Ht].
  - apply Herr. left. eauto 10.
Qed.

(** The operation has left the supervisor: its record is settled or gone. *)
Definition released (b s' : Sup) (id : RuntimeOperationId) : Prop :=
  ∃ g', registry_wf g' ∧ advances (sv_registry b) g' ∧ not_before 3 g' id
    ∧ s' = b <| sv_registry := g' |> <| sv_controls ::= delete id |>.

(** The operation stays, its record shows that it waits for its completion, and
    a task waits for it. *)
Definition kept (b s' : Sup) (id : RuntimeOperationId) (ref : ControlRef) : Prop :=
  ∃ g' r d', registry_wf g' ∧ advances (sv_registry b) g'
    ∧ rg_records g' !! id = Some r ∧ awaits_external (op_status (rec_operation r)) = true
    ∧ td_operation_id d' = id ∧ td_control d' = ref ∧ td_kind d' = KindExternal
    ∧ s' = b <| sv_registry := g' |>
             <| sv_tasks ::= <[sv_next_task b := ExternalTask id ref (td_external_wait_policy d')]> |>
             <| sv_next_task := S (sv_next_task b) |>
             <| sv_live_tasks ::= <[id := sv_next_task b]> |>
             <| sv_descriptors ::= <[sv_next_task b := d']> |>.

Definition exit_post (b : Sup) id ref (out : Result bool) (s' : Sup) : Prop :=
  match out with
  | Err e => reducer_failure id e
  | Ok true => kept b s' id ref
  | Ok false => released b s' id
  end.

(** A transition that settles the operation, and its release. *)
Lemma wp_settle_release id t ref (b : Sup) :
  registry_wf (sv_registry b) → transition_ok t → transition_fits t → target t = 3 →
  wp (on_registry (transition id t) ;; finish_operation id ;; mret false) (exit_post b id ref) b.
Proof.
  intros Hg Ho Hf Ht. wp_step. apply wp_reducer_transition; try done. intros d g' Hg' Ha Hn.
  unfold finish_operation, remove_control. wp_go. rewrite Ht in Hn. by exists g'.
Qed.

Lemma awaits_or_settled (r : RuntimeOperationRecord Request) : 1 ≤ rank r → awaits_external (op_status (rec_operation r)) = false → rank r = 3.
Proof. unfold rank. by destruct (op_status (rec_operation r)). Qed.

(** What [reduce_exit] must tell the second half of [handle_task_exit]. *)
Definition reduced_post g (d : TaskDescriptor)
    (out : Result (RuntimeOperationId * TaskDescriptor * option RuntimeOperationTransition * bool)) : Prop :=
  let id := td_operation_id d in
  match out with
  | Err e => reducer_failure id e
  | Ok (id', d', t, keep) =>
      id' = id ∧ td_operation_id d' = id ∧ td_control d' = td_control d
      ∧ (∀ t', t = Some t' → transition_ok t' ∧ transition_fits t')
      ∧ ∀ g', advances_at id g g' → (∀ t', t = Some t' → not_before (target t') g' id) →
          not_before (if keep : bool then 1 else 3) g' id
  end.

Lemma wp_task_exit exit d (b : Sup) :
  registry_wf (sv_registry b) → sv_live_tasks b !! td_operation_id d = None →
  wp (reduce_exit exit d) (λ out s', s' = b ∧ reduced_post (sv_registry b) d out) b →
  wp (handle_task_exit exit d) (exit_post b (td_operation_id d) (td_control d)) b.
Proof.
  intros Hg Hlive Hr. unfold handle_task_exit. wp_step. eapply wp_mono; [exact Hr|].
  intros [[[[id' d'] t] keep]|e] s' [-> Hred]; [|done].
  destruct Hred as (-> & Hd1 & Hd2 & Hfit & Hfloor). set (id := td_operation_id d) in *.
  assert (Hrest : ∀ g', registry_wf g' → advances (sv_registry b) g' → not_before (if keep then 1 else 3) g' id →
    wp (status ← operation_status id;
        if keep && awaits_external status then
          let d'' := d' <| td_kind := KindExternal |> <| td_cleanup := [] |> in
          task_id ← spawn_operation_task (ExternalTask id (td_control d'') (td_external_wait_policy d''));
          insert_descriptor task_id d'' ;; mret true
        else finish_operation id ;; mret false) (exit_post b id (td_control d)) (b <| sv_registry := g' |>)).
  { intros g' Hg' Ha Hn. wp_step. apply wp_status; [done|]. intros g2 Hg2 Ha2. simpl in Ha2.
    assert (Ha3 : advances (sv_registry b) g2) by (by etrans).
    destruct (rg_records g2 !! id) as [r|] eqn:Er; [|right; by left].
    destruct (keep && awaits_external (op_status (rec_operation r))) eqn:Ek.
    - apply andb_true_iff in Ek as [-> Haw]. unfold insert_descriptor. wp_step. apply wp_spawn; [done|]. wp_go.
      exists g2, r, (d' <| td_kind := KindExternal |> <| td_cleanup := [] |>). simpl. by rewrite Hd2.
    - unfold finish_operation, remove_control. wp_go. exists g2. split_and!; try done. intros r' Hr'. assert (r' = r) as -> by congruence.
      assert (Hlow : (if keep then 1 else 3) ≤ rank r) by (apply (Ha2 _ id); [destruct keep; lia|done|done]).
      destruct keep; [|done]. rewrite awaits_or_settled by done. done. }
  destruct t as [t'|].
  - destruct (Hfit t' eq_refl) as [Ho Hf]. wp_step. wp_step. apply wp_reducer_transition; try done.
    intros dp g' Hg' Ha Hn. wp_step. apply Hrest; try done. apply Hfloor; [by apply advances_one|]. by intros ? [= <-].
  - wp_step. wp_step. assert (Hb : b = b <| sv_registry := sv_registry b |>) by (by destruct b).
    rewrite Hb at 2. apply Hrest; try done. apply Hfloor; [by intros n|done].
Qed.

Lemma identity_matches (d : TaskDescriptor) id kind :
  td_operation_id d = id → td_kind d = kind → ensure_task_identity d id kind = Ok ().
Proof.
  intros <- <-. unfold ensure_task_identity. rewrite String.eqb_refl, bool_decide_true by done. done.
Qed.

(** The first half of [handle_task_exit] on an execution. *)
Lemma wp_reduce_execution d result (b : Sup) :
  td_kind d = KindExecution →
  (∀ t, transition_for_execution_result result = Some t → transition_fits t) →
  (∀ i, result = TaskInterrupted i → oi_reason i = StopCancelRequested →
     not_before 2 (sv_registry b) (td_operation_id d)) →
  wp (reduce_exit (ExitExecution (td_operation_id d) result) d)
     (λ out s', s' = b ∧ reduced_post (sv_registry b) d out) b.
Proof.
  intros Hk Hfit Hint. unfold reduce_exit. rewrite identity_matches by done. wp_step. wp_step. wp_step.
  assert (Hend : ∀ d', td_operation_id d' = td_operation_id d → td_control d' = td_control d →
    reduced_post (sv_registry b) d (Ok (td_operation_id d, d', transition_for_execution_result result, true))).
  { intros d' H1 H2. split_and!; try done.
    - intros t Ht. split; [|by apply Hfit]. destruct result as [| |i| |]; simplify_eq/=; try done.
      destruct (oi_evidence i), (oi_reason i); by simplify_eq/=.
    - intros g' Ha Hn. destruct result as [o|e|[reason evidence msg]|e|e]; simpl in *.
      + specialize (Hn _ eq_refl). destruct o; simpl in Hn; intros r Hr; specialize (Hn r Hr); lia.
      + specialize (Hn _ eq_refl). intros r Hr. specialize (Hn r Hr). simpl in Hn. lia.
      + destruct reason; [|destruct evidence; specialize (Hn _ eq_refl); intros r Hr; specialize (Hn r Hr);
          simpl in Hn; lia..].
        intros r Hr. assert (2 ≤ rank r); [|lia]. apply (Ha 2); [lia| |done].
        by eapply Hint.
      + specialize (Hn _ eq_refl). intros r Hr. specialize (Hn r Hr). simpl in Hn. lia.
      + specialize (Hn _ eq_refl). intros r Hr. specialize (Hn r Hr). simpl in Hn. lia. }
  destruct result as [o|e|i|e|e]; try (wp_go; split; [done|]; by apply Hend).
  - wp_go. split; [done|]. apply Hend; by case_match.
  - wp_step. wp_step. wp_step. wp_step. wp_step. wp_step.
    destruct (instant_checked_add _ _) as [deadline|]; simpl.
    + wp_go. split; [done|]. by apply Hend.
    + split; [done|]. right. by right.
Qed.

(** The same on the end of a wait. *)
Lemma wp_reduce_external d result (b : Sup) :
  td_kind d = KindExternal →
  text_fits ("runtime operation stopped during shutdown; cleanup remains unconfirmed: "
             +:+ default "" (td_cleanup_uncertainty d)) →
  (result = WaitSettled → not_before 3 (sv_registry b) (td_operation_id d)) →
  wp (reduce_exit (ExitExternal (td_operation_id d) result) d)
     (λ out s', s' = b ∧ reduced_post (sv_registry b) d out) b.
Proof.
  intros Hk Hfit Hset. unfold reduce_exit. rewrite identity_matches by done. wp_step. wp_step.
  destruct result; wp_go; (split; [done|]); (split_and!; [done..| |]).
  - by intros t [=].
  - intros g' Ha _ r Hr. apply (Ha 3); [lia|by apply Hset|done].
  - intros t [= <-]. split; [done|]. done.
  - intros g' Ha Hn. apply (Hn _ eq_refl).
  - intros t [= <-]. split; [done|]. done.
  - intros g' Ha Hn r Hr. specialize (Hn _ eq_refl r Hr). simpl in *. lia.
  - intros t [= <-]. split; [done|]. destruct (td_cleanup_uncertainty d); [done|]. done.
  - intros g' Ha Hn. apply (Hn _ eq_refl).
Qed.

(** What a task reports is what the reducer may rely on. *)
Lemma joined_exit_ok y tid t d joined :
  system_wf y → sy_ledger y !! td_operation_id d = Some (td_control d, Supervised tid) →
  task_operation_id t = td_operation_id d → task_control t = td_control d → task_kind t = td_kind d →
  joined_of_task y t joined → exit_ok (sv_registry (sy_sup y)) (td_operation_id d) d joined.
Proof.
  intros Hw Hid Ht1 Ht2 Ht3 Hj. destruct joined as [tid' exit|tid' error|tid' error]; simpl in Hj.
  2,3: by intros t' [= <-].
  destruct Hj as [now Hexit].
  destruct t as [id0 ref0 rq|id0 ref0 policy], exit as [id' result|id' result]; simpl in Hexit, Ht1, Ht2, Ht3;
    try done; subst id0 ref0.
  - destruct Hexit as (-> & Hf & Hs). split_and!; try done. intros i Hi Hr. apply (sw_signalled _ Hw). by eapply Hs.
  - destruct Hexit as (-> & c & Hc & Hwait). split_and!; try done. intros ->.
    eapply (sw_settled _ Hw); [done..|].
    unfold wait_for_external_completion in Hwait. destruct (oc_settled c); [done|].
    destruct policy; repeat case_match; simplify_eq.
Qed.

Lemma wp_reduce d tid exit (b : Sup) :
  exit_ok (sv_registry b) (td_operation_id d) d (JoinedExit tid exit) →
  text_fits ("runtime operation stopped during shutdown; cleanup remains unconfirmed: "
             +:+ default "" (td_cleanup_uncertainty d)) →
  wp (reduce_exit exit d) (λ out s', s' = b ∧ reduced_post (sv_registry b) d out) b.
Proof.
  intros Hok Hfit. destruct exit as [id' result|id' result]; simpl in Hok.
  - destruct Hok as (-> & Hk & Hf & Hi). by apply wp_reduce_execution.
  - destruct Hok as (-> & Hk & Hs). by apply wp_reduce_external.
Qed.

Lemma run_cleanup_files remove_file (heap heap' : list OperationControl) cleanup :
  (∀ ref : ControlRef, heap' !! ref ≫= oc_disposable_file = heap !! ref ≫= oc_disposable_file) →
  run_cleanup remove_file heap' cleanup = run_cleanup remove_file heap cleanup.
Proof. intros Hh. induction cleanup as [|ref cl IH]; [done|]. simpl. rewrite Hh, IH. done. Qed.

(** [handle_joined_body] when the identities agree. *)
Lemma wp_joined_body remove_file joined t d y (b : Sup) :
  system_wf y → sv_registry b = sv_registry (sy_sup y) → sv_heap b = sv_heap (sy_sup y) →
  sy_ledger y !! td_operation_id d = Some (td_control d, Supervised (joined_task_id joined)) →
  task_operation_id t = td_operation_id d → task_control t = td_control d → task_kind t = td_kind d →
  sv_live_tasks b !! td_operation_id d = Some (joined_task_id joined) →
  descriptor_fits y d → joined_of_task y t joined →
  wp (handle_joined_body remove_file joined d)
     (exit_post (b <| sv_live_tasks ::= delete (td_operation_id d) |>
                   <| sv_heap ::= alter (λ c, c <| oc_blocking_work := mkWork false 0 |>) (td_control d) |>)
        (td_operation_id d) (td_control d)) b.
Proof.
  intros Hw Er Eh Hid Ht1 Ht2 Ht3 Hlive [Hfit1 Hfit2] Hj. unfold handle_joined_body, unregister_operation_task.
  wp_step. wp_step. wp_step. rewrite Hlive, bool_decide_true by done. cbn [negb]. wp_step.
  unfold await_blocking_work_idle, on_control, cleanup_run. wp_step. wp_step. wp_step. wp_step. wp_step. wp_step.
  set (b1 := _ <| sv_heap ::= _ |>).
  assert (Hcl : run_cleanup remove_file (sv_heap b1) (td_cleanup d)
                = run_cleanup remove_file (sv_heap (sy_sup y)) (td_cleanup d)).
  { apply run_cleanup_files. intros ref. subst b1. simpl. rewrite Eh.
    destruct (decide (ref = td_control d)) as [->|Hne]; [|by rewrite list_lookup_alter_ne].
    rewrite list_lookup_alter_eq.
    assert (Ho : ∀ o : option OperationControl,
      ((λ c, c <| oc_blocking_work := mkWork false 0 |>) <$> o) ≫= oc_disposable_file = o ≫= oc_disposable_file)
      by (by intros []). apply Ho. }
  assert (Hg : registry_wf (sv_registry b1)) by (subst b1; simpl; rewrite Er; apply Hw).
  assert (Hnl : sv_live_tasks b1 !! td_operation_id d = None) by (subst b1; simpl; by rewrite lookup_delete_eq).
  rewrite Hcl. destruct (run_cleanup _ (sv_heap (sy_sup y)) _) as [[]|e] eqn:Ec.
  2:{ apply wp_settle_release; try done. by eapply Hfit2. }
  pose proof (joined_exit_ok _ _ _ _ _ Hw Hid Ht1 Ht2 Ht3 Hj) as Hexit. rewrite <- Er in Hexit.
  destruct joined as [tid exit|tid error|tid error]; simpl in Hj.
  2,3: by apply wp_settle_release.
  apply wp_task_exit; [done..|]. by apply (wp_reduce d tid).
Qed.

(** What has become of an operation whose task was joined: it has left the
    supervisor settled, or it waits in a new task under the same control. *)
Definition disposed y (d : TaskDescriptor) (s' : Sup) : Prop :=
  let id := td_operation_id d in
  (sv_controls s' !! id = None ∧ sv_live_tasks s' !! id = None ∧ not_before 3 (sv_registry s') id
   ∧ sv_permits s' = sv_permits (sy_sup y) + 1)
  ∨ (∃ r policy, rg_records (sv_registry s') !! id = Some r
     ∧ awaits_external (op_status (rec_operation r)) = true
     ∧ sv_controls s' !! id = Some (td_control d)
     ∧ sv_live_tasks s' !! id = Some (sv_next_task (sy_sup y))
     ∧ sv_tasks s' !! sv_next_task (sy_sup y) = Some (ExternalTask id (td_control d) policy)
     ∧ sv_permits s' = sv_permits (sy_sup y)).

Definition joined_entry y (s' : Sup) : option (ControlRef * Place Request) :=
  match sv_descriptors s' !! sv_next_task (sy_sup y) with
  | Some d' => Some (td_control d', Supervised (sv_next_task (sy_sup y)))
  | None => None
  end.

Section joined.
Context (y : System (Request := Request)) (tid : TaskId) (t : SupervisedTask Request) (d : TaskDescriptor).
Context (Hw : system_wf y) (Ht : sv_tasks (sy_sup y) !! tid = Some t)
        (Hd : sv_descriptors (sy_sup y) !! tid = Some d).

Lemma joined_ledger : sy_ledger y !! td_operation_id d = Some (td_control d, Supervised tid).
Proof using All. by apply (lw_descriptors _ _ (sw_ledger _ Hw)). Qed.

Lemma joined_live : sv_live_tasks (sy_sup y) !! td_operation_id d = Some tid.
Proof using All. apply (lw_live _ _ (sw_ledger _ Hw)). eexists. apply joined_ledger. Qed.

Lemma joined_control : sv_controls (sy_sup y) !! td_operation_id d = Some (td_control d).
Proof using All. apply (lw_controls _ _ (sw_ledger _ Hw)). eexists. split; [apply joined_ledger|done]. Qed.

Lemma joined_same_task :
  task_operation_id t = td_operation_id d ∧ task_control t = td_control d ∧ task_kind t = td_kind d.
Proof using All. pose proof (lw_tasks _ _ (sw_ledger _ Hw) tid) as Hs. by rewrite Ht, Hd in Hs. Qed.

(** The state in which the exit is reduced. *)
Definition joined_base : Sup :=
  (sy_sup y) <| sv_tasks ::= delete tid |> <| sv_descriptors ::= delete tid |>
    <| sv_live_tasks ::= delete (td_operation_id d) |>
    <| sv_heap ::= alter (λ c, c <| oc_blocking_work := mkWork false 0 |>) (td_control d) |>.

Lemma base_heap : heap_le (sv_heap (sy_sup y)) (sv_heap joined_base).
Proof using. simpl. apply alter_heap_le. intros c. by apply same_stop_le. Qed.

Lemma fresh_descriptor : delete tid (sv_descriptors (sy_sup y)) !! sv_next_task (sy_sup y) = None.
Proof using All.
  destruct (fresh_task _ _ (sw_ledger _ Hw)) as [_ Hn].
  destruct (decide (sv_next_task (sy_sup y) = tid)) as [->|Hne]; [by rewrite lookup_delete_eq|].
  by rewrite lookup_delete_ne.
Qed.

Lemma released_wf s' :
  released joined_base s' (td_operation_id d) →
  let s2 := s' <| sv_permits ::= Z.succ |> in
  system_wf (moved (td_operation_id d) (joined_entry y s2) s2 y) ∧ disposed y d s2.
Proof using All.
  intros (g' & Hg' & Ha & Hn & ->). cbv zeta. unfold joined_entry. simpl. rewrite fresh_descriptor. split.
  - eapply wf_moved; try done; [apply joined_ledger | apply base_heap |]. unfold moved. simpl.
    eapply ledger_frame; [..|apply (ledger_retire _ _ _ _ _ (sw_ledger _ Hw) joined_ledger)]; done.
  - left. simpl. rewrite !lookup_delete_eq. by split_and!.
Qed.

Lemma kept_wf s' :
  kept joined_base s' (td_operation_id d) (td_control d) →
  system_wf (moved (td_operation_id d) (joined_entry y s') s' y) ∧ disposed y d s'.
Proof using All.
  intros (g' & r & d' & Hg' & Ha & Hr & Haw & Hd1 & Hd2 & Hd3 & ->). unfold joined_entry. simpl.
  rewrite lookup_insert_eq. split.
  - eapply wf_moved; try done; [apply joined_ledger | apply base_heap | |].
    + unfold moved. simpl. rewrite <- insert_delete_eq, Hd2.
      pose proof (ledger_supervise _ _ (td_operation_id d) (td_control d)
        (ExternalTask (td_operation_id d) (td_control d) (td_external_wait_policy d')) d'
        (ledger_retire _ _ _ _ _ (sw_ledger _ Hw) joined_ledger) (lookup_delete_eq _ _)
        Hd1 Hd2 eq_refl eq_refl (eq_sym Hd3)) as Hs.
      eapply ledger_frame; [..|exact Hs]; simpl; try done.
      * by rewrite insert_delete_id by apply joined_control.
      * lia.
    + intros e [= <-]. split; [done|]. rewrite Hd2. eapply fits_next; try done; [apply joined_ledger | done | done | apply base_heap].
  - right. exists r, (td_external_wait_policy d'). simpl. rewrite !lookup_insert_eq.
    split_and!; try done. apply joined_control.
Qed.

Lemma wp_joined remove_file joined :
  joined_task_id joined = tid → descriptor_fits y d → joined_of_task y t joined →
  wp (arm_joined remove_file joined) (λ out s', match out with
    | Err e => reducer_failure (td_operation_id d) e
    | Ok _ => system_wf (moved (td_operation_id d) (joined_entry y s') s' y) ∧ disposed y d s'
    end) (sy_sup y).
Proof using All.
  intros Hj Hfit Hof. unfold arm_joined, handle_joined_task. wp_step. wp_step. wp_step. wp_step. simpl.
  rewrite Hj, Hd. wp_step. wp_step. wp_step. apply wp_or_release.
  destruct joined_same_task as (H1 & H2 & H3).
  eapply wp_mono; [apply (wp_joined_body remove_file joined t d y); try done; rewrite ?Hj;
    [apply joined_ledger | apply joined_live]|].
  intros [[]|e] s' Hp; simpl in Hp; [|unfold release_permit|done]; wp_go.
  - by apply kept_wf.
  - by apply released_wf.
Qed.
End joined.

(** ** The reducer step by step *)
Section hand.
Context (y : System (Request := Request)) (id : RuntimeOperationId) (ref : ControlRef) (h : Hand Request).
Context (Hw : system_wf y) (Hid : sy_ledger y !! id = Some (ref, InHand h)).

Lemma hand_control : sv_controls (sy_sup y) !! id = Some ref.
Proof using All. apply (lw_controls _ _ (sw_ledger _ Hw)). by exists (InHand h). Qed.

Lemma hand_no_task : sv_live_tasks (sy_sup y) !! id = None.
Proof using All.
  apply eq_None_not_Some. intros [tid [r Hr]%(lw_live _ _ (sw_ledger _ Hw))]. congruence.
Qed.

Lemma sup_same (s : Sup) : s = s <| sv_registry := sv_registry s |> <| sv_heap := sv_heap s |>.
Proof using. by destruct s. Qed.

(** The operation stays in hand: only the registry or a control changes. *)
Lemma wf_in_hand (s' : Sup) h' :
  s' = (sy_sup y) <| sv_registry := sv_registry s' |> <| sv_heap := sv_heap s' |> →
  heap_le (sv_heap (sy_sup y)) (sv_heap s') → registry_wf (sv_registry s') →
  advances (sv_registry (sy_sup y)) (sv_registry s') → hand_ok (sv_registry s') id ref h' →
  system_wf (moved id (Some (ref, InHand h')) s' y).
Proof using All.
  intros Es Hh Hg Ha Hok. eapply wf_moved; try done; try (by rewrite Es).
  - unfold moved. simpl. eapply (ledger_frame (sy_sup y)); try (by rewrite Es).
    eapply ledger_stage; try done. apply (sw_ledger _ Hw).
  - intros e [= <-]. split; [done|]. eapply fits_next; try done. by rewrite Es.
Qed.

Lemma wf_same_hand h' : hand_ok (sv_registry (sy_sup y)) id ref h' → system_wf (moved id (Some (ref, InHand h')) (sy_sup y) y).
Proof using All. intros Hok. apply wf_in_hand; [apply sup_same|done|apply Hw|done|done]. Qed.

Lemma wf_registry_hand g' h' :
  registry_wf g' → advances (sv_registry (sy_sup y)) g' → hand_ok g' id ref h' →
  system_wf (moved id (Some (ref, InHand h')) ((sy_sup y) <| sv_registry := g' |>) y).
Proof using All. intros Hg Ha Hok. by apply wf_in_hand. Qed.

(** A new task takes the operation out of the hand. *)
Lemma wf_supervise t d :
  td_operation_id d = id → td_control d = ref → task_operation_id t = id → task_control t = ref →
  task_kind t = td_kind d →
  system_wf (moved id (Some (ref, Supervised (sv_next_task (sy_sup y))))
    ((sy_sup y) <| sv_tasks ::= <[sv_next_task (sy_sup y) := t]> |>
                <| sv_next_task := S (sv_next_task (sy_sup y)) |>
                <| sv_live_tasks ::= <[id := sv_next_task (sy_sup y)]> |>
                <| sv_descriptors ::= <[sv_next_task (sy_sup y) := d]> |>) y).
Proof using All.
  intros Hd1 Hd2 Ht1 Ht2 Ht3. eapply wf_moved; try done; [apply Hw| |].
  - unfold moved. simpl. rewrite <- insert_delete_eq.
    pose proof (ledger_supervise _ _ id ref t d (ledger_leave _ _ _ _ _ Hid eq_refl (sw_ledger _ Hw))
      (lookup_delete_eq _ _) Hd1 Hd2 Ht1 Ht2 Ht3) as Hs.
    eapply ledger_frame; [..|exact Hs]; simpl; try done.
    + by rewrite insert_delete_id by apply hand_control.
    + lia.
  - intros e [= <-]. split; [done|]. by eapply fits_next.
Qed.

Lemma wp_hand_launch cleanup request :
  wp (launch_command (mkAdmission id ref cleanup, request))
     (λ out s', out = Ok () ∧ system_wf (moved id (Some (ref, Supervised (sv_next_task (sy_sup y)))) s' y)) (sy_sup y).
Proof using All.
  unfold launch_command, insert_descriptor. apply wp_or_release. wp_step. apply wp_spawn; [apply hand_no_task|].
  wp_go. split; [done|]. by apply wf_supervise.
Qed.

Lemma wp_hand_keep d :
  td_operation_id d = id → td_control d = ref →
  wp (task_id ← spawn_operation_task (ExternalTask id (td_control d) (td_external_wait_policy d));
      insert_descriptor task_id (d <| td_kind := KindExternal |> <| td_cleanup := [] |>))
     (λ out s', out = Ok () ∧ system_wf (moved id (Some (ref, Supervised (sv_next_task (sy_sup y)))) s' y)) (sy_sup y).
Proof using All.
  intros Hd1 Hd2. unfold insert_descriptor. wp_step. apply wp_spawn; [apply hand_no_task|].
  wp_go. split; [done|]. by apply wf_supervise.
Qed.

Lemma wp_hand_transition t h' :
  transition_ok t → transition_fits t →
  (∀ g', advances (sv_registry (sy_sup y)) g' → not_before (target t) g' id → hand_ok g' id ref h') →
  wp (on_registry (transition id t))
     (λ out s', is_ok out = true → system_wf (moved id (Some (ref, InHand h')) s' y)) (sy_sup y).
Proof using All.
  intros Ho Hf Hok. apply wp_reducer_transition; try done; [apply Hw|].
  intros dp g' Hg Ha Hn _. apply wf_registry_hand; try done. by apply Hok.
Qed.

(** The look at the status decides whether the operation is kept: if it is not,
    its record is settled. *)
Lemma wp_hand_status d (retain : bool) :
  td_operation_id d = id → td_control d = ref →
  not_before (if retain then 1 else 3) (sv_registry (sy_sup y)) id →
  wp (operation_status id) (λ out s', ∀ status : RuntimeOperationStatus, out = Ok status → system_wf (moved id (Some (ref,
       InHand (if retain && awaits_external status then HandKeep d else HandFinish))) s' y)) (sy_sup y).
Proof using All.
  intros Hd1 Hd2 Hn. apply wp_status; [apply Hw|]. intros g' Hg Ha.
  destruct (rg_records g' !! id) as [r|] eqn:Er; [|done]. intros status [= <-]. apply wf_registry_hand; try done.
  destruct (retain && awaits_external (op_status (rec_operation r))) eqn:Ek; [done|]. simpl.
  intros r' Hr'. assert (r' = r) as -> by congruence.
  assert (Hlow : (if retain then 1 else 3) ≤ rank r) by (by apply (Ha _ id); [destruct retain; lia|..]).
  destruct retain; [|done]. rewrite awaits_or_settled by done. done.
Qed.

Lemma wp_hand_finish :
  not_before 3 (sv_registry (sy_sup y)) id →
  wp (finish_operation id) (λ _ s', system_wf (moved id (Some (ref, Leaving true)) s' y)) (sy_sup y).
Proof using All.
  intros Hn. unfold finish_operation, remove_control. wp_go. eapply wf_moved; try done; [apply Hw| |].
  - eapply ledger_unregister; try done. apply (sw_ledger _ Hw).
  - intros e [= <-]. split; [done|]. by apply fits_leaving.
Qed.

Lemma wp_hand_reduce d tid exit :
  td_operation_id d = id → td_control d = ref →
  exit_ok (sv_registry (sy_sup y)) id d (JoinedExit tid exit) → descriptor_fits y d →
  wp (reduce_exit exit d) (λ out s', match out with
     | Ok (id', d', t, retain) => system_wf (moved id (Some (ref, InHand (HandExit d' t retain))) s' y)
     | Err e => reducer_failure id e
     end) (sy_sup y).
Proof using All.
  intros Hd1 Hd2 Hok [Hfit _].
  eapply wp_mono; [apply (wp_reduce d tid exit); [by rewrite Hd1|done]|].
  intros out s' [-> Hp]. unfold reduced_post in Hp. rewrite Hd1, Hd2 in Hp.
  destruct out as [[[[id' d'] t] retain]|e]; [|done]. apply wf_same_hand. by destruct Hp as (_ & Hp).
Qed.
End hand.

Lemma hand_step_wf y id ref h p s' :
  system_wf y → sy_ledger y !! id = Some (ref, InHand h) → hand_step y id ref h p s' →
  system_wf (moved id (Some (ref, p)) s' y).
Proof using All.
  intros Hw Hid Hs. pose proof (sw_place _ Hw _ _ Hid) as Hok. unfold place_ok in Hok. cbn [fst snd] in Hok.
  revert Hid Hok. destruct Hs as [cleanup request w s' w' E|d joined w s' w' E|d joined c Hc Hi
    |d joined rm error w s' w' Hfit E|d joined rm t w s' w' E Hj|d tid exit rm id' d' t retain w s1 w1 s' w' Hfit E1 E2
    |t dp w s' w' E|d t retain dp w s' w' E|d retain|d retain status w s' w' E|d w s' w' E|w s' w' E];
    intros Hid Hok; simpl in Hok.
  - exact (proj2 (wp_run _ _ _ _ _ _ _ (wp_hand_launch y id ref _ Hw Hid cleanup request) E)).
  - injection E as <- <-. eapply wf_in_hand; try done; [|apply Hw]. simpl. apply alter_heap_le.
    intros c. by apply same_stop_le.
  - by eapply wf_same_hand.
  - destruct Hfit as [_ Hfit]. unfold cleanup_run in E. injection E as E <- <-. eapply wf_same_hand; try done.
    simpl. split_and!; try done. by eapply Hfit.
  - injection E as E <- <-. eapply wf_same_hand; try done. destruct Hok as (_ & _ & Hok).
    destruct joined; simplify_eq/=; split_and!; try done; exact (Hok _ eq_refl).
  - destruct Hok as (Hd1 & Hd2 & Hok). injection E1 as _ <- <-.
    exact (wp_run _ _ _ _ _ _ _ (wp_hand_reduce y id ref _ Hw Hid d tid exit Hd1 Hd2 Hok Hfit) E2).
  - destruct Hok as (Ho & Hf & Ht).
    refine (wp_run _ _ _ _ _ _ _ (wp_hand_transition y id ref _ Hw Hid t HandFinish Ho Hf _) E eq_refl).
    intros g' _ Hn. simpl. by rewrite Ht in Hn.
  - destruct Hok as (Hd1 & Hd2 & Hf & Hc). destruct (Hf t eq_refl) as [Ho Hft].
    refine (wp_run _ _ _ _ _ _ _ (wp_hand_transition y id ref _ Hw Hid t (HandStatus d retain) Ho Hft _) E eq_refl).
    intros g' Ha Hn. split_and!; try done. apply Hc; [by apply advances_one|]. by intros ? [= <-].
  - destruct Hok as (Hd1 & Hd2 & _ & Hc). eapply wf_same_hand; try done. split_and!; try done.
    apply Hc; [by intros n|done].
  - destruct Hok as (Hd1 & Hd2 & Hn).
    by apply (wp_run _ _ _ _ _ _ _ (wp_hand_status y id ref _ Hw Hid d retain Hd1 Hd2 Hn) E).
  - destruct Hok as [Hd1 Hd2].
    exact (proj2 (wp_run _ _ _ _ _ _ _ (wp_hand_keep y id ref _ Hw Hid d Hd1 Hd2) E)).
  - exact (wp_run _ _ _ _ _ _ _ (wp_hand_finish y id ref _ Hw Hid Hok) E).
Qed.

(** The reducer takes an operation in hand: from the channel, or from its task. *)
Lemma step_receive_wf a request rest h y :
  system_wf y → sv_commands (sy_sup y) = (a, request) :: rest →
  hand_ok (sv_registry (sy_sup y)) (oa_operation_id a) (oa_control a) h →
  system_wf (moved (oa_operation_id a) (Some (oa_control a, InHand h)) ((sy_sup y) <| sv_commands := rest |>) y).
Proof using All.
  intros Hw Hq Hok. pose proof (sw_ledger _ Hw) as Hl. set (id := oa_operation_id a).
  assert (Hid : sy_ledger y !! id = Some (oa_control a, Queued))
    by (apply (lw_queue _ _ Hl a request); rewrite Hq; by left).
  assert (Hctl : sv_controls (sy_sup y) !! id = Some (oa_control a)) by (apply (lw_controls _ _ Hl); eauto).
  eapply wf_moved; try done; [apply Hw| |].
  - unfold moved. simpl. rewrite <- insert_delete_eq.
    eapply ledger_frame; [..|apply (ledger_take _ _ id (oa_control a) (InHand h) (lookup_delete_eq _ _) eq_refl
      eq_refl (ledger_dequeue _ _ a request rest Hl Hq))]; simpl; try done.
    + by rewrite insert_delete_id.
    + lia.
  - intros e [= <-]. split; [done|]. by eapply fits_next.
Qed.

Lemma wp_leave_task y tid t d :
  system_wf y → sv_tasks (sy_sup y) !! tid = Some t → sv_descriptors (sy_sup y) !! tid = Some d →
  wp (unregister_operation_task (td_operation_id d) tid) (λ out s', out = Ok ()
      ∧ s' = (sy_sup y) <| sv_tasks ::= delete tid |> <| sv_descriptors ::= delete tid |>
                        <| sv_live_tasks ::= delete (td_operation_id d) |>)
     ((sy_sup y) <| sv_tasks ::= delete tid |> <| sv_descriptors ::= delete tid |>).
Proof using All.
  intros Hw Ht Hd. unfold unregister_operation_task. wp_step. wp_step. simpl.
  rewrite (joined_live y tid t d Hw Ht Hd), bool_decide_true by done. by wp_go.
Qed.

Lemma step_join_wf tid t d joined w s' w' y :
  system_wf y → sv_tasks (sy_sup y) !! tid = Some t → sv_descriptors (sy_sup y) !! tid = Some d →
  joined_of_task y t joined →
  unregister_operation_task (td_operation_id d) tid
    ((sy_sup y) <| sv_tasks ::= delete tid |> <| sv_descriptors ::= delete tid |>) w = (Ok (), s', w') →
  system_wf (moved (td_operation_id d) (Some (td_control d, InHand (HandJoined d joined))) s' y).
Proof using All.
  intros Hw Ht Hd Hj E. pose proof (joined_ledger y tid t d Hw Ht Hd) as Hid.
  destruct (joined_same_task y tid t d Hw Ht Hd) as (H1 & H2 & H3).
  destruct (wp_run _ _ _ _ _ _ _ (wp_leave_task y tid t d Hw Ht Hd) E) as [_ Es].
  clear E. subst s'. eapply wf_moved; try done; [apply Hw| |].
  - unfold moved. simpl. rewrite <- insert_delete_eq.
    eapply ledger_frame; [..|apply (ledger_take _ _ (td_operation_id d) (td_control d) (InHand (HandJoined d joined))
      (lookup_delete_eq _ _) eq_refl eq_refl (ledger_retire _ _ _ _ _ (sw_ledger _ Hw) Hid))]; simpl; try done.
    + by rewrite insert_delete_id by apply (joined_control y tid t d Hw Ht Hd).
    + lia.
  - intros e [= <-]. split; [done|]. eapply fits_next; try done. simpl. split_and!; try done.
    by eapply joined_exit_ok.
Qed.

(** ** Permits *)
Lemma step_acquire_wf id request deadline file grace w s' w' y :
  system_wf y → sy_ledger y !! id = None → sv_controller (sy_sup y) ≠ ControllerUnstarted →
  try_acquire_permit (sy_sup y) w = (Ok (), s', w') →
  let ref := length (sv_heap (sy_sup y)) in
  let cleanup := match file with Some _ => [ref] | None => [] end in
  system_wf (moved id (Some (ref, Admitting StagePrepared cleanup request))
               (s' <| sv_heap ::= λ heap, heap ++
                  [control_new deadline ((λ path, mkDisposable path false) <$> file) grace] |>) y
               <| sy_owner ::= λ o, o ++ [id] |>).
Proof using All.
  intros Hw Hid Hc E. assert (Es : s' = (sy_sup y) <| sv_permits ::= Z.pred |>).
  { refine (wp_run _ _ _ _ _ _ _ (_ : wp _ (λ out s', out = Ok () → s' = _) _) E eq_refl).
    unfold try_acquire_permit. wp_step. wp_step. case_if Ep; by wp_go. }
  subst s'.
  apply (wf_owner_frame y _ id (control_new deadline ((λ path, mkDisposable path false) <$> file) grace) request
    (match file with Some _ => [length (sv_heap (sy_sup y))] | None => [] end)); try done.
  eapply ledger_frame; [..|apply (ledger_enter _ _ id _ _ _ Hid (sw_ledger _ Hw))]; done.
Qed.

Lemma step_admit_failed_wf id ref stage cleanup request w s' w' y :
  system_wf y → sy_ledger y !! id = Some (ref, Admitting stage cleanup request) → stage ≠ StagePrepared →
  remove_control id (sy_sup y) w = (Ok (), s', w') → system_wf (moved id (Some (ref, Leaving false)) s' y).
Proof using All.
  intros Hw Hid Hst E. injection E as <- _. eapply wf_moved; try done; [apply Hw| |].
  - eapply ledger_unregister; try done. apply (sw_ledger _ Hw).
  - intros e [= <-]. split; [done|]. by apply fits_leaving.
Qed.

Lemma step_release_wf id ref b w s' w' y :
  system_wf y → sy_ledger y !! id = Some (ref, Leaving b) →
  release_permit (sy_sup y) w = (Ok (), s', w') → system_wf (moved id None s' y).
Proof using All.
  intros Hw Hid E. injection E as <- _. pose proof (sw_ledger _ Hw) as Hl.
  assert (Hnone : sv_controls (sy_sup y) !! id = None).
  { apply eq_None_not_Some. intros [r (p & Hp & Hreg)%(lw_controls _ _ Hl)]. by simplify_eq. }
  eapply wf_moved; try done; [apply Hw|]. unfold moved. simpl.
  eapply ledger_frame; [..|apply (ledger_leave _ _ id ref _ Hid eq_refl Hl)]; try done. simpl. by rewrite delete_id.
Qed.
End reducer.
