(* ===== verification/SupervisorTheorems.v ===== *)
(** * What supervision guarantees

    The invariant holds along every run of the interleaved steps of all threads,
    up to a failure of the reducer; from it follow the guarantees of the supervisor: its bookkeeping errors never
    happen, an operation leaves it settled, a cancellation is not lost, and a
    drained reducer leaves nothing behind but admissions in flight.  First, the
    recovery of the watcher: whatever state the reducer left, the supervisor ends
    closed and empty, and the operations it still had are settled, or the error
    says that they could not be. *)

From S2P Require Import Prelude Json ModuleEvents OperationRecord Transition OperationViews OperationControl.
From S2P Require Import ControlTheorems RecordInvariants Registry Supervisor RegistryInvariant RegistrySweep.
From S2P Require Import RegistryMethods RegistryIngest RegistryTheorems StatusRanks SupervisorSystem.
From S2P Require Import SupervisorInvariant SupervisorReducer.

Section recovery.
Context `{SerdeJson} `{OperationRequest Request} `{!SupervisedRequest Request}.
Abbreviation Sup := (Supervisor Request).
Implicit Types g : RuntimeOperationRegistry Request.

(** Every cleanup of a control that fails has a short message. *)
Definition cleanups_fit (remove_file : string → RemoveResult) (heap : list OperationControl) : Prop :=
  ∀ ref e, run_cleanup remove_file heap [ref] = Err e → text_fits (error_text e).

Lemma wp_classify remove_file error operations first_error (s : Sup) :
  registry_wf (sv_registry s) → text_fits error → cleanups_fit remove_file (sv_heap s) →
  wp (classify_operations remove_file error operations first_error) (λ out s',
    ∃ first g', out = Ok first ∧ s' = s <| sv_registry := g' |> ∧ registry_wf g' ∧ advances (sv_registry s) g'
      ∧ (first = None → first_error = None ∧ ∀ id ref, (id, ref) ∈ operations → not_before 3 g' id)) s.
Proof.
  revert first_error s. induction operations as [|[id ref] ops IH]; intros first_error s Hg Hf Hc; simpl.
  { wp_go. exists first_error, (sv_registry s). split_and!; try done; [by destruct s|].
    intros ->. split; [done|]. by intros ? ? ?%elem_of_nil. }
  unfold cleanup_run. wp_step. wp_step. wp_step. wp_step. wp_step. wp_step. apply wp_on_registry.
  set (t := match run_cleanup remove_file (sv_heap s) [ref] with Ok _ => _ | Err _ => _ end).
  assert (Ht : transition_ok t ∧ transition_fits t ∧ target t = 3).
  { subst t. destruct (run_cleanup remove_file (sv_heap s) [ref]) eqn:E; [done|].
    split_and!; try done. by eapply Hc. }
  destruct Ht as (Ho & Hft & Htg).
  eapply wp_mono; [by apply (wp_transition_target _ id t)|]. intros out g' [Hp Hn].
  pose proof (transition_advances _ _ _ _ _ _ Hp) as Ha.
  eapply wp_mono; [apply (IH _ (s <| sv_registry := g' |>)); [by eapply transition_post_wf|done|done]|].
  intros out' s' (first & g2 & -> & -> & Hg2 & Ha2 & Hall). exists first, g2. simpl in Ha2.
  split_and!; try done; [by etrans|]. intros ->. destruct (Hall eq_refl) as [Hfirst Hops].
  destruct out as [d|e]; [|by destruct first_error]. split; [done|].
  intros i r [[= -> ->]|Hin]%elem_of_cons; [|by eapply Hops].
  rewrite Htg in Hn. apply (Ha2 3 id); [lia|]. by apply Hn.
Qed.

Lemma drained_controls_heap (f : OperationControl → OperationControl) (s : Sup) :
  (∀ c, oc_disposable_file (f c) = oc_disposable_file c) →
  ∀ (l : list (RuntimeOperationId * ControlRef)) (ref : ControlRef),
    foldr (λ kv, alter f kv.2) (sv_heap s) l !! ref ≫= oc_disposable_file
    = sv_heap s !! ref ≫= oc_disposable_file.
Proof.
  intros Hf l. induction l as [|[id r0] l IH]; intros ref; [done|]. simpl.
  destruct (decide (r0 = ref)) as [->|Hne]; [|rewrite list_lookup_alter_ne by done; apply IH].
  rewrite list_lookup_alter_eq, <- IH.
  assert (Ho : ∀ o : option OperationControl, (f <$> o) ≫= oc_disposable_file = o ≫= oc_disposable_file)
    by (intros [c|]; [apply Hf|done]).
  apply Ho.
Qed.

(** The state from which the remaining operations are classified: closed to
    admissions, every control stopped, no live task. *)
Definition closed_down (s : Sup) : Sup :=
  let s1 := s <| sv_admission_closed := true |> in
  let s2 := if bool_decide (sv_phase s = PhaseClosed) then s1 else s1 <| sv_phase := PhaseClosing |> in
  let s3 := stop_all request_shutdown s2 <| sv_root := true |> <| sv_live_tasks := ∅ |> in
  stop_all (λ c, c <| oc_blocking_work := mkWork false 0 |>) s3.

Lemma closed_down_same (s : Sup) :
  sv_controls (closed_down s) = sv_controls s ∧ sv_registry (closed_down s) = sv_registry s
  ∧ sv_root (closed_down s) = true ∧ sv_live_tasks (closed_down s) = ∅ ∧ sv_admission_closed (closed_down s) = true
  ∧ ∀ ref : ControlRef, sv_heap (closed_down s) !! ref ≫= oc_disposable_file
                        = sv_heap s !! ref ≫= oc_disposable_file.
Proof.
  unfold closed_down. set (s2 := if bool_decide _ then _ else _).
  assert (E2 : sv_controls s2 = sv_controls s ∧ sv_registry s2 = sv_registry s
    ∧ sv_admission_closed s2 = true ∧ sv_heap s2 = sv_heap s) by (subst s2; by case_bool_decide).
  destruct E2 as (E1 & E2 & E3 & E4). split_and!; try done. intros ref. simpl.
  rewrite (drained_controls_heap _ (stop_all request_shutdown s2)) by done. simpl.
  rewrite (drained_controls_heap _ s2) by (intros c; unfold request_shutdown, raise_stop; simpl;
    by destruct (stop_is_final (oc_stop_reason c))).
  by rewrite E4.
Qed.

(** Whatever the state in which the reducer failed, the recovery of its
    watcher leaves a closed supervisor without controls and live tasks that
    admits nothing more, keeps the failure for [shutdown], and reports it; and
    if it reports the failure alone, every operation that was still supervised
    has been settled. *)
Theorem recovery_leaves_nothing_supervised remove_file primary (s : Sup) w out s' w' :
  registry_wf (sv_registry s) → text_fits primary → cleanups_fit remove_file (sv_heap s) →
  recover_after_failure remove_file primary s w = (out, s', w') →
  sv_phase s' = PhaseClosed ∧ sv_controls s' = ∅ ∧ sv_live_tasks s' = ∅ ∧ sv_admission_closed s' = true
  ∧ sv_root s' = true ∧ registry_wf (sv_registry s')
  ∧ (∃ e, out = Err [e] ∧ sv_shutdown_error s' = Some e ∧ wait_for_closed s' = Some (Err [e]))
  ∧ (out = Err [primary] → ∀ id ref, sv_controls s !! id = Some ref → not_before 3 (sv_registry s') id).
Proof.
  intros Hg Hf Hc. start_wp. unfold recover_after_failure, fail_close_supervisor, abort_and_await_live_tasks,
    on_controls, cancel_root. wp_step. wp_step. wp_step. wp_step. wp_step. wp_step. wp_step. wp_step. wp_step.
  wp_step. wp_step. wp_step. wp_step. wp_step.
  destruct (closed_down_same s) as (E1 & E2 & E3 & E4 & E5 & E6).
  match goal with |- wp _ _ ?b => change b with (closed_down s) end.
  generalize dependent (closed_down s). intros b E1 E2 E3 E4 E5 E6.
  unfold classify_remaining_after_controller_exit. wp_step. wp_step. wp_step. wp_step. wp_step.
  eapply wp_mono; [apply wp_classify; [simpl; by rewrite E2|done|]|].
  { intros ref e He. apply (Hc ref). rewrite <- He. symmetry. by apply run_cleanup_files. }
  intros o s1 (first & g' & -> & -> & Hg' & Ha & Hall). simpl in Ha.
  unfold persist_controller_failure. destruct first as [e|].
  - wp_step. wp_go. simpl. split_and!; try done.
    + eexists. split_and!; done.
    + intros [= Hbad%(f_equal str_len)]. rewrite !str_len_app in Hbad.
      cbn [error_text head from_option] in Hbad. unfold default in Hbad. simpl in Hbad.
      change (str_len "; residual operation classification also failed: ") with 49 in Hbad.
      pose proof (Nat2Z.is_nonneg (String.length (error_text ("failed to classify remaining runtime operations" :: e)))).
      unfold str_len in Hbad. simpl in *. lia.
  - wp_step. wp_step. wp_step. wp_step. wp_go. simpl. split_and!; try done.
    + eexists. split_and!; done.
    + intros _ id ref Hid. destruct (Hall eq_refl) as [_ Hops]. eapply Hops.
      apply elem_of_map_to_list. by rewrite E1.
Qed.
End recovery.

Section theorems.
Context `{SerdeJson} `{OperationRequest Request} `{!SupervisedRequest Request}.
Abbreviation Sup := (Supervisor Request).
Implicit Types y : System (Request := Request).

Lemma system_new_wf : system_wf (system_new (Request := Request)).
Proof.
  split; simpl; try done; [apply registry_new_wf|].
  split; simpl; try done.
  - intros id ref. rewrite lookup_empty. split; [done|]. by intros (p & ? & _).
  - by intros a rq ?%elem_of_nil.
  - apply NoDup_nil_2.
  - intros id tid. rewrite lookup_empty. split; [done|]. by intros [r ?].
Qed.

Lemma sweep_wf (g : RuntimeOperationRegistry Request) :
  registry_wf g → wp sweep_expired_terminal_history (λ _ g', registry_wf g' ∧ advances g g') g.
Proof.
  intros Hg. unfold sweep_expired_terminal_history. wp_step. wp_step. wp_step. wp_step.
  eapply wp_mono; [apply wp_sweep; [apply rw_core, Hg | by apply swept_bytes]|].
  intros o g' (_ & Hwf & Hsw & _). split; [done|]. by apply swept_advances.
Qed.

Lemma arm_command_closed (s : Sup) w : sv_commands s = [] → arm_command s w = enter_shutdown s w.
Proof. intros E. destruct s. simpl in E. by subst. Qed.

Lemma system_step_wf y y' : system_wf y → system_step y y' → system_wf y'.
Proof.
  intros Hw Hs. revert Hw. destruct Hs; intros Hw.
  - by eapply step_insert_record_wf.
  - destruct (registry_call_advances _ _ (sw_registry _ Hw) H1). by apply wf_registry_frame.
  - by eapply step_cancel_registry_wf.
  - by eapply step_cancel_control_wf.
  - by eapply step_ingest_wf.
  - by eapply step_settle_wf.
  - by eapply step_close_phase_wf.
  - apply (wf_heap_frame y ((sy_sup y) <| sv_root := true |>)); try done; [|by left].
    eapply ledger_frame; [..|apply (sw_ledger _ Hw)]; done.
  - by eapply step_take_controller_wf.
  - apply (wf_phase_frame y ((sy_sup y) <| sv_controller := ControllerStopped |>)); try done.
    eapply ledger_frame; [..|apply (sw_ledger _ Hw)]; done.
  - apply (wf_phase_frame y ((sy_sup y) <| sv_phase := PhaseClosed |> <| sv_shutdown_error := shutdown_error |>)); try done.
    eapply ledger_frame; [..|apply (sw_ledger _ Hw)]; done.
  - by apply wf_controller_started.
  - by eapply step_acquire_wf.
  - by apply (step_prepare_wf id request w (Ok a) s' w' y Hw H2).
  - by apply (step_prepare_wf id request w (Err e) s' w' y Hw H1).
  - by eapply step_prepared_dropped_wf.
  - by eapply step_admit_insert_wf.
  - by eapply step_admit_synchronize_wf.
  - by eapply step_admit_sender_wf.
  - by eapply step_admit_send_wf.
  - by eapply step_admit_failed_wf.
  - by eapply step_release_wf.
  - apply wf_control_frame; [done|]. intros c. apply task_effect_le.
  - apply wf_control_frame; [done|]. intros c. apply task_effect_le.
  - injection H3 as <- _. apply wf_heap_frame; try done; [|apply (sw_root _ Hw)|by left].
    eapply ledger_frame; [..|apply (sw_ledger _ Hw)]; done.
  - eapply step_receive_wf; [done..|]. by destruct (sv_shutting_down (sy_sup y)).
  - by eapply step_join_wf.
  - by eapply hand_step_wf.
  - by apply step_deadline_of_wf.
  - by destruct (wp_run _ _ _ _ _ _ _ (wp_head y Hw) H2 b eq_refl) as [? _].
  - subst. by apply (wp_run _ _ _ _ _ _ _ (wp_command y a request rest Hw H3) H6).
  - rewrite arm_command_closed in H5 by done. by eapply enter_shutdown_wf.
  - by eapply enter_shutdown_wf.
  - by eapply step_deadline_wf.
  - eapply (arm_registry_wf sweep_expired_terminal_history); [done|apply sweep_wf, Hw|done].
  - eapply (arm_registry_wf (modify (λ g, g <| rg_retention_changed := false |>))); [done| |done].
    wp_go. split; [apply registry_wf_notify, Hw|]. intros n i Hn Hb r Hr. by apply Hb.
  - by apply (wp_run _ _ _ _ _ _ _ (wp_joined y tid t d Hw H3 H4 remove_file joined H2 H5 H6) H7).
Qed.

Lemma reachable_wf y : rtc system_step system_new y → system_wf y.
Proof.
  assert (Hall : ∀ y0 y1, rtc system_step y0 y1 → system_wf y0 → system_wf y1).
  { intros y0 y1 Hr. induction Hr as [|y0 y1 y2 Hs _ IH]; [done|].
    intros Hw. apply IH. by eapply system_step_wf. }
  intros Hr. eapply Hall; [exact Hr | apply system_new_wf].
Qed.

(** ** Permits *)
Lemma size_moved id entry (s' : Sup) y e :
  sy_ledger y !! id = Some e → (size (sy_ledger (moved id entry s' y)) ≤ size (sy_ledger y))%nat.
Proof.
  intros Hid. unfold moved. simpl. destruct entry as [e'|].
  - rewrite map_size_insert_Some by (by eexists). lia.
  - rewrite map_size_delete_Some by (by eexists). lia.
Qed.

Lemma wp_acquire_permit (s : Sup) : wp try_acquire_permit (λ out s', out = Ok () → 0 < sv_permits s) s.
Proof.
  unfold try_acquire_permit. wp_step. wp_step. case_if Ep; [by wp_go|]. wp_go. intros _.
  apply orb_false_iff in Ep as [_ Hp%Z.leb_gt]. done.
Qed.

Lemma wp_prepare_permit id request (s : Sup) :
  wp (prepare id request) (λ out s', is_ok out = true → 0 < sv_permits s) s.
Proof.
  unfold prepare. wp_step.
  assert (He : wp ensure_controller (λ out s1, sv_permits s1 = sv_permits s) s).
  { unfold ensure_controller, ensure_open. wp_step. wp_step. wp_step. case_if E1; [|by wp_go].
    wp_step. wp_step. wp_step. destruct (sv_controller s); try by wp_go.
    wp_step. wp_step. wp_step. case_if E2; by wp_go. }
  eapply wp_mono; [exact He|]. intros [[]|e] s1 H1; [|done].
  unfold ensure_open. wp_step. wp_step. wp_step. case_if E; [|by wp_go]. wp_step. wp_step.
  eapply wp_mono; [apply wp_acquire_permit|]. intros [[]|e] s2 Hp; [|done].
  eapply wp_mono; [apply wp_true|]. intros [a|e] s' _; [|done]. intros _. rewrite <- H1. by apply Hp.
Qed.

Lemma step_size y y' : system_wf y → system_step y y' → 0 ≤ sv_permits (sy_sup y) →
  (size (sy_ledger y') ≤ size (sy_ledger y))%nat
  ∨ (size (sy_ledger y') = S (size (sy_ledger y)) ∧ 0 < sv_permits (sy_sup y)).
Proof.
  intros Hw Hs Hp. revert Hw Hp. destruct Hs; intros Hw Hp; try (by left); try (left; by eapply size_moved).
  - right. unfold moved. simpl. rewrite map_size_insert_None by done. split; [done|].
    by apply (wp_run _ _ _ _ _ _ _ (wp_acquire_permit (sy_sup y)) H3).
  - right. unfold moved. simpl. rewrite map_size_insert_None by done. split; [done|].
    by apply (wp_run _ _ _ _ _ _ _ (wp_prepare_permit id request (sy_sup y)) H2).
  - left. eapply (size_moved id _ s' y). exact H1.
  - left. eapply size_moved. apply (lw_queue _ _ (sw_ledger _ Hw) a request). rewrite H2. by left.
  - left. eapply size_moved. by apply (lw_descriptors _ _ (sw_ledger _ Hw)).
  - left. simpl. destruct (sv_shutting_down (sy_sup y)); [|done].
    apply map_subseteq_size, map_filter_subseteq.
  - left. subst. eapply size_moved. apply (lw_queue _ _ (sw_ledger _ Hw) a request). rewrite H3. by left.
  - left. eapply size_moved. by apply (lw_descriptors _ _ (sw_ledger _ Hw)).
Qed.

Lemma reachable_permits y : rtc system_step system_new y → 0 ≤ sv_permits (sy_sup y).
Proof.
  assert (Hall : ∀ y0 y1, rtc system_step y0 y1 → system_wf y0 → 0 ≤ sv_permits (sy_sup y0) →
    0 ≤ sv_permits (sy_sup y1)).
  { intros y0 y1 Hr. induction Hr as [|y0 y1 y2 Hs _ IH]; [done|]. intros Hw Hp.
    pose proof (system_step_wf _ _ Hw Hs) as Hw1. apply IH; [done|].
    pose proof (lw_permits _ _ (sw_ledger _ Hw)). pose proof (lw_permits _ _ (sw_ledger _ Hw1)).
    destruct (step_size _ _ Hw Hs Hp) as [?|[? ?]]; lia. }
  intros Hr. eapply Hall; [exact Hr | apply system_new_wf | done].
Qed.

(** Commands and tasks belong to different operations of the ledger. *)
Lemma owners_bound (s : Sup) l :
  ledger_wf s l → zlen (sv_commands s) + Z.of_nat (size (sv_tasks s)) ≤ Z.of_nat (size l).
Proof.
  intros [].
  set (q := (λ c : OperationAdmission * Request, oa_operation_id c.1) <$> sv_commands s) in *.
  set (ids := (td_operation_id ∘ snd) <$> map_to_list (sv_descriptors s)).
  assert (Hin : ∀ i, i ∈ ids → ∃ tid d, sv_descriptors s !! tid = Some d ∧ td_operation_id d = i).
  { intros i ([tid d] & -> & Hd%elem_of_map_to_list)%list_elem_of_fmap. by exists tid, d. }
  assert (Hnd : NoDup ids).
  { apply NoDup_fmap_2_strong; [|apply NoDup_map_to_list].
    intros [t1 d1] [t2 d2] H1%elem_of_map_to_list H2%elem_of_map_to_list Heq. simpl in Heq.
    pose proof (lw_descriptors _ _ H1). pose proof (lw_descriptors _ _ H2). congruence. }
  assert (Hsub : list_to_set (q ++ ids) ⊆ dom l).
  { intros i. rewrite elem_of_list_to_set, elem_of_app, elem_of_dom. intros [Hi|Hi].
    - apply list_elem_of_fmap in Hi as ([a rq] & -> & Hi). apply lw_queue in Hi. by eexists.
    - destruct (Hin i Hi) as (tid & d & Hd & <-). apply lw_descriptors in Hd. by eexists. }
  apply subseteq_size in Hsub. rewrite size_list_to_set, size_dom, length_app in Hsub.
  - assert (Hts : size (sv_tasks s) = length ids).
    { unfold ids. rewrite length_fmap, length_map_to_list, <- !size_dom. f_equal. apply set_eq.
      intros tid. rewrite !elem_of_dom. specialize (lw_tasks tid).
      by destruct (sv_tasks s !! tid), (sv_descriptors s !! tid). }
    unfold q in Hsub. rewrite length_fmap in Hsub. unfold zlen. lia.
  - apply NoDup_app. split_and!; [done| |done]. intros i Hi Hi2.
    destruct (Hin i Hi2) as (tid & d & Hd & <-). apply lw_descriptors in Hd.
    apply list_elem_of_fmap in Hi as ([a rq] & Heq & Hi). apply lw_queue in Hi. simpl in Heq. congruence.
Qed.

(** C10. In every state that the interleaved steps of all threads can reach, up
    to a failure of the reducer, each admitted operation has exactly one owner
    (the thread that admits it, the command channel, its task, the reducer that
    has it in hand, or the thread that is about to drop its permit); the
    registered controls, queued commands, tasks, descriptors and live tasks are
    exactly those of the owners; every owner holds one of the 64 permits, and
    the permits that are left are never negative. *)
Theorem supervisor_books_balance y :
  rtc system_step system_new y →
  ledger_wf (sy_sup y) (sy_ledger y) ∧ 0 ≤ sv_permits (sy_sup y)
  ∧ zlen (sv_commands (sy_sup y)) + Z.of_nat (size (sv_tasks (sy_sup y))) ≤ MAX_ACTIVE_OPERATIONS.
Proof.
  intros Hr. pose proof (sw_ledger _ (reachable_wf _ Hr)) as Hl. pose proof (reachable_permits _ Hr) as Hp.
  split_and!; [done..|]. pose proof (lw_permits _ _ Hl). pose proof (owners_bound _ _ Hl). lia.
Qed.

(** ** Bookkeeping does not fail *)
Lemma wp_send_error id ref cleanup request y :
  system_wf y → 0 ≤ sv_permits (sy_sup y) →
  sy_ledger y !! id = Some (ref, Admitting StageSending cleanup request) →
  wp (or_release (admit_send (mkAdmission id ref cleanup) request))
     (λ out _, ∀ e, out = Err e → e = ["runtime operation supervisor is stopped"]
                                  ∧ sv_commands_closed (sy_sup y) = true) (sy_sup y).
Proof.
  intros Hw Hp Hid. apply wp_or_release. unfold admit_send, remove_control. wp_step. apply wp_try_send.
  - intros Hc. wp_go. by intros e [= <-].
  - intros Hfull. pose proof (queue_has_room _ _ _ _ _ _ _ (sw_ledger _ Hw) Hp Hid). lia.
  - intros _. by wp_go.
Qed.

Lemma wp_insert_error id ref cleanup request y :
  system_wf y → sy_ledger y !! id = Some (ref, Admitting StagePrepared cleanup request) →
  wp (or_release (admit_insert (mkAdmission id ref cleanup)))
     (λ out _, ∀ e, out = Err e → sv_phase (sy_sup y) ≠ PhaseOpen) (sy_sup y).
Proof.
  intros Hw Hid. apply wp_or_release. unfold admit_insert. cbn [oa_operation_id oa_control]. wp_step. wp_step.
  case_if Eph; [wp_go; intros _ _; by apply negb_true_iff, bool_decide_eq_false in Eph|].
  destruct (sv_controls (sy_sup y) !! id) as [r|] eqn:Ec; [|by wp_go].
  apply (lw_controls _ _ (sw_ledger _ Hw)) in Ec as (p & Hp & Hr). by simplify_eq.
Qed.

(** The same for the reducer in the middle of an arm: leaving the task that was
    joined, launching a command and starting a wait always succeed, and an exit
    is refused only if the clock overflows. *)
Definition hand_never_fails y : Prop :=
  (∀ tid t d w out s' w',
     sv_tasks (sy_sup y) !! tid = Some t → sv_descriptors (sy_sup y) !! tid = Some d →
     unregister_operation_task (td_operation_id d) tid
       ((sy_sup y) <| sv_tasks ::= delete tid |> <| sv_descriptors ::= delete tid |>) w = (out, s', w') → out = Ok ())
  ∧ (∀ id ref cleanup request w out s' w',
     sy_ledger y !! id = Some (ref, InHand (HandCommand cleanup request)) →
     launch_command (mkAdmission id ref cleanup, request) (sy_sup y) w = (out, s', w') → out = Ok ())
  ∧ (∀ id ref d tid exit w e s' w',
     sy_ledger y !! id = Some (ref, InHand (HandIdle d (JoinedExit tid exit))) → descriptor_fits y d →
     reduce_exit exit d (sy_sup y) w = (Err e, s', w') →
     e = ["runtime operation cleanup settlement deadline overflow"])
  ∧ (∀ id ref d w out s' w',
     sy_ledger y !! id = Some (ref, InHand (HandKeep d)) →
     (task_id ← spawn_operation_task (ExternalTask id (td_control d) (td_external_wait_policy d));
      insert_descriptor task_id (d <| td_kind := KindExternal |> <| td_cleanup := [] |>))
       (sy_sup y) w = (out, s', w') → out = Ok ()).

Lemma wf_hand_never_fails y : system_wf y → hand_never_fails y.
Proof using All.
  intros Hw. split_and!.
  - intros tid t d w out s' w' Ht Hd E. exact (proj1 (wp_run _ _ _ _ _ _ _ (wp_leave_task y tid t d Hw Ht Hd) E)).
  - intros id ref cleanup request w out s' w' Hid E.
    exact (proj1 (wp_run _ _ _ _ _ _ _ (wp_hand_launch y id ref _ Hw Hid cleanup request) E)).
  - intros id ref d tid exit w e s' w' Hid Hfit E. destruct (sw_place _ Hw _ _ Hid) as (Hd1 & Hd2 & Hok).
    destruct exit as [id' result|id' result]; destruct Hok as (-> & Hk & _).
    + refine (wp_run _ _ _ _ _ _ _ (_ : wp _ (λ out s', ∀ e, out = Err e → e = _) _) E e eq_refl).
      unfold reduce_exit. rewrite identity_matches by (simpl in *; congruence). wp_step. wp_step. wp_step.
      destruct result; try by wp_go. wp_step. wp_step. wp_step. wp_step. wp_step. wp_step.
      destruct (instant_checked_add _ _); simpl; [by wp_go|]. by intros ? [= <-].
    + refine (wp_run _ _ _ _ _ _ _ (_ : wp _ (λ out s', ∀ e, out = Err e → e = _) _) E e eq_refl).
      unfold reduce_exit. rewrite identity_matches by (simpl in *; congruence). wp_step. wp_step.
      destruct result; by wp_go.
  - intros id ref d w out s' w' Hid E. destruct (sw_place _ Hw _ _ Hid) as (Hd1 & Hd2).
    exact (proj1 (wp_run _ _ _ _ _ _ _ (wp_hand_keep y id ref _ Hw Hid d Hd1 Hd2) E)).
Qed.

(** C29. In a reachable state the checks of the supervisor on its own books
    never fail: an admission is refused only because the supervisor is closing,
    never because the operation is supervised already or the channel is full;
    the command at the head of the channel always becomes a task; and a joined
    task is reduced without a mismatch between task, descriptor and live task:
    the reducer fails only if the registry refuses the transition or has
    forgotten the operation, or if the clock overflows.  The same holds when
    other threads run in the middle of an arm. *)
Theorem bookkeeping_never_fails y :
  rtc system_step system_new y →
  (∀ id ref cleanup request w e s' w',
     sy_ledger y !! id = Some (ref, Admitting StagePrepared cleanup request) →
     or_release (admit_insert (mkAdmission id ref cleanup)) (sy_sup y) w = (Err e, s', w') →
     sv_phase (sy_sup y) ≠ PhaseOpen)
  ∧ (∀ id ref cleanup request w e s' w',
     sy_ledger y !! id = Some (ref, Admitting StageSending cleanup request) →
     or_release (admit_send (mkAdmission id ref cleanup) request) (sy_sup y) w = (Err e, s', w') →
     e = ["runtime operation supervisor is stopped"] ∧ sv_commands_closed (sy_sup y) = true)
  ∧ (∀ w out s' w', sv_commands (sy_sup y) ≠ [] → arm_command (sy_sup y) w = (out, s', w') → out = Ok ())
  ∧ (∀ t d remove_file joined w e s' w',
     sv_tasks (sy_sup y) !! joined_task_id joined = Some t →
     sv_descriptors (sy_sup y) !! joined_task_id joined = Some d →
     descriptor_fits y d → joined_of_task y t joined →
     arm_joined remove_file joined (sy_sup y) w = (Err e, s', w') →
     reducer_failure (Request := Request) (td_operation_id d) e)
  ∧ hand_never_fails y.
Proof.
  intros Hr. pose proof (reachable_wf _ Hr) as Hw. split_and!; [..|by apply wf_hand_never_fails].
  - intros id ref cleanup request w e s' w' Hid E.
    by eapply (wp_run _ _ _ _ _ _ _ (wp_insert_error _ _ _ _ _ Hw Hid) E).
  - intros id ref cleanup request w e s' w' Hid E.
    by apply (wp_run _ _ _ _ _ _ _ (wp_send_error _ _ _ _ _ Hw (reachable_permits _ Hr) Hid) E).
  - intros w out s' w' Hne E. destruct (sv_commands (sy_sup y)) as [|[a rq] rest] eqn:Eq; [done|].
    by apply (wp_run _ _ _ _ _ _ _ (wp_command y a rq rest Hw Eq) E).
  - intros t d remove_file joined w e s' w' Ht Hd Hf Hj E.
    apply (wp_run _ _ _ _ _ _ _ (wp_joined y _ t d Hw Ht Hd remove_file joined eq_refl Hf Hj) E).
Qed.

(** ** Operations are not forgotten *)
Lemma moved_other y i entry (s' : Sup) id e :
  i ≠ id → sy_ledger y !! id = Some e → sy_ledger (moved i entry s' y) !! id = Some e.
Proof. intros Hne Hid. unfold moved. simpl. destruct entry; [by rewrite lookup_insert_ne | by rewrite lookup_delete_ne]. Qed.

Lemma hand_step_taken y id ref h p s' : hand_step y id ref h p s' → taken p = true.
Proof. by destruct 1. Qed.

Definition kept_or_settled y' (id : RuntimeOperationId) (ref : ControlRef) : Prop :=
  (∃ p, sy_ledger y' !! id = Some (ref, p) ∧ taken p = true)
  ∨ (sy_ledger y' !! id = None ∧ not_before 3 (sv_registry (sy_sup y')) id).

(** The three steps of the reducer that may let an operation go. *)
Lemma release_settled id ref b w s' w' y :
  system_wf y → sy_ledger y !! id = Some (ref, Leaving b) → taken (Leaving (Request := Request) b) = true →
  release_permit (sy_sup y) w = (Ok (), s', w') → kept_or_settled (moved id None s' y) id ref.
Proof.
  intros Hw Hid Hb E. injection E as <- _. right. unfold moved. simpl. rewrite lookup_delete_eq. split; [done|].
  destruct b; [|done]. exact (sw_place _ Hw _ _ Hid).
Qed.

Lemma head_settled y w b s' w' id ref p :
  system_wf y → sy_ledger y !! id = Some (ref, p) → taken p = true →
  loop_head (sy_sup y) w = (Ok b, s', w') → kept_or_settled (after_head y s') id ref.
Proof using All.
  intros Hw Hid Hp E. destruct (wp_run _ _ _ _ _ _ _ (wp_head y Hw) E b eq_refl) as [_ Hpost].
  unfold kept_or_settled, after_head. simpl. destruct (sv_shutting_down (sy_sup y)); [|left; by exists p].
  destruct Hpost as (_ & _ & Hset). destruct (queued p) eqn:Eq; [right|left; exists p].
  - split; [apply map_lookup_filter_None; right; intros e He; simplify_eq/=; by rewrite Eq|].
    destruct p; try done. apply (lw_queued _ _ (sw_ledger _ Hw)) in Hid.
    apply list_elem_of_fmap in Hid as ([a rq] & -> & Hin). by eapply Hset.
  - split; [|done]. by apply map_lookup_filter_Some.
Qed.

Lemma joined_settled y y' tid t d ref p remove_file joined w s' w' :
  system_wf y → y' = moved (td_operation_id d) (joined_entry y s') s' y →
  joined_task_id joined = tid → sv_tasks (sy_sup y) !! tid = Some t →
  sv_descriptors (sy_sup y) !! tid = Some d → descriptor_fits y d → joined_of_task y t joined →
  arm_joined remove_file joined (sy_sup y) w = (Ok (), s', w') →
  sy_ledger y !! td_operation_id d = Some (ref, p) → kept_or_settled y' (td_operation_id d) ref.
Proof using All.
  intros Hw -> Hj Ht Hd Hf Hof E Hid.
  assert (ref = td_control d) as ->.
  { pose proof (joined_ledger y tid t d Hw Ht Hd). congruence. }
  destruct (wp_run _ _ _ _ _ _ _ (wp_joined y tid t d Hw Ht Hd remove_file joined Hj Hf Hof) E) as [Hw' Hdis].
  pose proof (lw_controls _ _ (sw_ledger _ Hw') (td_operation_id d)) as Hc. unfold joined_entry in *.
  unfold kept_or_settled, moved in *. simpl in *.
  destruct (sv_descriptors s' !! sv_next_task (sy_sup y)) as [d'|]; simpl in *.
  - rewrite lookup_insert_eq in *. left.
    assert (Hs : sv_controls s' !! td_operation_id d = Some (td_control d')) by (apply Hc; eauto).
    destruct Hdis as [(Hn & _)|(r & policy & _ & _ & Hs' & _)]; [congruence|].
    exists (Supervised (sv_next_task (sy_sup y))). split; [congruence|done].
  - rewrite lookup_delete_eq in *. right. split; [done|].
    destruct Hdis as [(_ & _ & Hn & _)|(r & policy & _ & _ & Hs' & _)]; [done|].
    apply Hc in Hs' as (q & Hq & _). done.
Qed.

Lemma step_taken y y' id ref p :
  system_wf y → system_step y y' → sy_ledger y !! id = Some (ref, p) → taken p = true →
  kept_or_settled y' id ref.
Proof using All.
  intros Hw Hs Hid Hp. assert (Hsame : ∀ y1, sy_ledger y1 !! id = Some (ref, p) → kept_or_settled y1 id ref)
    by (intros y1 H1; left; by exists p).
  assert (Hmoved : ∀ i entry s', (i = id → kept_or_settled (moved i entry s' y) id ref) →
    kept_or_settled (moved i entry s' y) id ref).
  { intros i entry s' Heq. destruct (decide (i = id)); [by apply Heq|]. by apply Hsame, moved_other. }
  assert (Hto : ∀ (q : Place Request) s', taken q = true → kept_or_settled (moved id (Some (ref, q)) s' y) id ref).
  { intros q s' Hq. left. exists q. unfold moved. simpl. by rewrite lookup_insert_eq. }
  revert Hw Hid Hp Hsame Hmoved Hto. destruct Hs; intros Hw Hid Hp Hsame Hmoved Hto; try (by apply Hsame).
  all: try (apply Hmoved; intros ->; by simplify_eq).
  - apply (Hmoved id0 (Some (ref0, Admitting StagePrepared cleanup request)) s'). intros ->. congruence.
  - apply (Hmoved id0 (Some (oa_control a, Admitting StagePrepared (oa_cleanup a) request)) s'). intros ->. congruence.
  - apply Hmoved. intros ->. simplify_eq. by eapply release_settled.
  - assert (Hin : (a, request) ∈ sv_commands (sy_sup y)) by (rewrite H2; by left).
    apply (lw_queue _ _ (sw_ledger _ Hw)) in Hin. apply Hmoved. intros <-. simplify_eq. by apply Hto.
  - apply (lw_descriptors _ _ (sw_ledger _ Hw)) in H4. apply Hmoved. intros <-. simplify_eq. by apply Hto.
  - apply Hmoved. intros ->. simplify_eq. by eapply Hto, hand_step_taken.
  - by eapply head_settled.
  - assert (Hin : (a, request) ∈ sv_commands (sy_sup y)) by (rewrite H3; by left). subst.
    apply (lw_queue _ _ (sw_ledger _ Hw)) in Hin. apply Hmoved. intros <-. simplify_eq. by apply Hto.
  - apply Hmoved. intros <-. by eapply joined_settled.
Qed.

(** The operation has no place in the supervisor any more. *)
Definition let_go y' (id : RuntimeOperationId) : Prop :=
  sy_ledger y' !! id = None ∧ sv_controls (sy_sup y') !! id = None ∧ sv_live_tasks (sy_sup y') !! id = None
  ∧ (∀ a request, (a, request) ∈ sv_commands (sy_sup y') → oa_operation_id a ≠ id)
  ∧ ∀ tid d, sv_descriptors (sy_sup y') !! tid = Some d → td_operation_id d ≠ id.

Lemma absent_let_go y id : system_wf y → sy_ledger y !! id = None → let_go y id.
Proof.
  intros Hw Hid. pose proof (sw_ledger _ Hw) as []. split_and!; [done|..].
  - apply eq_None_not_Some. intros [ref (p & Hp & _)%lw_controls]. congruence.
  - apply eq_None_not_Some. intros [tid [ref Hp]%lw_live]. congruence.
  - intros a request Hin%lw_queue <-. congruence.
  - intros tid d Hd%lw_descriptors <-. congruence.
Qed.

(** Where an operation is that the supervisor has taken and that is not settled. *)
Definition attended y (id : RuntimeOperationId) (ref : ControlRef) (p : Place Request) : Prop :=
  (∃ a request, (a, request) ∈ sv_commands (sy_sup y) ∧ oa_operation_id a = id ∧ oa_control a = ref)
  ∨ (∃ tid t, sv_live_tasks (sy_sup y) !! id = Some tid ∧ sv_tasks (sy_sup y) !! tid = Some t
       ∧ task_operation_id t = id ∧ task_control t = ref)
  ∨ ∃ h, p = InHand h.

Lemma taken_attended y id ref p :
  system_wf y → sy_ledger y !! id = Some (ref, p) → taken p = true → registered p = true → attended y id ref p.
Proof.
  intros Hw Hid Hp Hr. pose proof (sw_ledger _ Hw) as []. unfold attended.
  destruct p as [| |tid|h|b]; try done; [left|right; left|right; right; by exists h].
  - apply lw_queued in Hid as Hin. apply list_elem_of_fmap in Hin as ([a rq] & -> & Hin). exists a, rq.
    apply lw_queue in Hin as Hq. simpl in *. by simplify_eq.
  - assert (Hlive : sv_live_tasks (sy_sup y) !! id = Some tid) by (apply lw_live; by exists ref).
    destruct (lw_supervised _ _ _ Hid) as (d & Hd & <-). specialize (lw_tasks tid). rewrite Hd in lw_tasks.
    destruct (sv_tasks (sy_sup y) !! tid) as [t|] eqn:Et; [|done]. destruct lw_tasks as (H1 & H2 & _).
    exists tid, t. split_and!; try done. specialize (lw_descriptors _ _ Hd). congruence.
Qed.

(** C9. A running operation is never forgotten, whatever comes between the
    locks and awaits of the reducer.  Once the supervisor has taken an operation
    over from its caller, the operation stays with the same control, as long as
    its record is not settled its control is registered and it is in the command
    channel, in a live task of its own, or in the hands of the reducer; and the
    step after which it is not with the supervisor any more is taken only when
    its record is settled or gone. *)
Theorem taken_operation_never_forgotten y id ref p :
  rtc system_step system_new y → sy_ledger y !! id = Some (ref, p) → taken p = true →
  (∀ r, rg_records (sv_registry (sy_sup y)) !! id = Some r → is_terminal (op_status (rec_operation r)) = false →
     sv_controls (sy_sup y) !! id = Some ref ∧ attended y id ref p)
  ∧ ∀ y', system_step y y' →
     (∃ p', sy_ledger y' !! id = Some (ref, p') ∧ taken p' = true)
     ∨ (let_go y' id ∧ not_before 3 (sv_registry (sy_sup y')) id).
Proof.
  intros Hr Hid Hp. pose proof (reachable_wf _ Hr) as Hw. split.
  - intros r Hrec Hopen. assert (Hreg : registered p = true).
    { destruct p as [| | | |[]]; try done. pose proof (sw_place _ Hw _ _ Hid r Hrec).
      pose proof (rank_terminal r). pose proof (rank_bound r). destruct (is_terminal _); [done|]. naive_solver lia. }
    split; [|by eapply taken_attended]. apply (lw_controls _ _ (sw_ledger _ Hw)). by exists p.
  - intros y' Hs. destruct (step_taken _ _ _ _ _ Hw Hs Hid Hp) as [?|[Hgone Hset]]; [by left|right].
    split; [|done]. apply absent_let_go; [by eapply system_step_wf|done].
Qed.

(** ** Cancellation and closing *)
Lemma stop_reason_some c : control_ok c → oc_stop_reason c ≠ 0 → stop_reason c ≠ None.
Proof.
  intros ((Hlo & Hhi) & _) Hn. unfold stop_reason, stop_reason_of.
  destruct (Z.eqb_spec (oc_stop_reason c) 1), (Z.eqb_spec (oc_stop_reason c) 2),
    (Z.eqb_spec (oc_stop_reason c) 3); try done. lia.
Qed.

Lemma stopped_control_refuses now root c :
  control_ok c → oc_stop_reason c ≠ 0 → (begin_execution now root c).1 ≠ None.
Proof.
  intros (_ & _ & Hq) Hs. specialize (Hq Hs). unfold begin_execution.
  set (c1 := if oc_deadline c <=? now then _ else _).
  assert (Hq1 : oc_execution_state c1 ≠ EXECUTION_QUEUED).
  { subst c1. destruct (oc_deadline c <=? now); [apply stop_before_execution_not_queued|].
    destruct (is_cancelled root c); [apply stop_before_execution_not_queued|done]. }
  unfold compare_exchange. rewrite (proj2 (Z.eqb_neq _ _) Hq1).
  by destruct (oc_execution_state c1 =? EXECUTION_STOPPED_BEFORE_START).
Qed.

(** C11. A cancellation that the registry has applied and [cancel] has passed on
    is not lost, whether the control was registered at that moment or not: once
    the admission of the operation has been synchronized, the operation is
    settled, or its control is stopped and its task can no longer start the
    execution. *)
Theorem acknowledged_cancellation_not_lost y id ref p c :
  rtc system_step system_new y →
  id ∈ sy_acknowledged y → sy_ledger y !! id = Some (ref, p) → synchronized p = true →
  sv_heap (sy_sup y) !! ref = Some c →
  not_before 3 (sv_registry (sy_sup y)) id
  ∨ (stop_reason c ≠ None ∧ ∀ now, (begin_execution now (sv_root (sy_sup y)) c).1 ≠ None).
Proof.
  intros Hr Ha Hl Hp Hc. pose proof (reachable_wf _ Hr) as Hw.
  pose proof (Forall_lookup_1 _ _ _ _ (sw_control _ Hw) Hc) as Hok.
  destruct (sw_acknowledged _ Hw id ref p c Ha Hl Hp Hc) as [Hs|?]; [right|by left].
  split; [by apply stop_reason_some|]. intros now. by apply stopped_control_refuses.
Qed.

(** The interruption names the reason the control holds. *)
Lemma not_started_reason now root c i :
  control_ok c → oc_stop_reason c ≠ 0 → (begin_execution now root c).1 = Some (NotStarted i) →
  ∃ reason, stop_reason (begin_execution now root c).2 = Some reason ∧ i = not_started_interruption reason.
Proof.
  intros Hok Hs Hb. pose proof (begin_execution_le now root c) as [Hok' Hs' _].
  specialize (Hok' Hok). specialize (Hs' Hs). pose proof (stop_reason_some _ Hok' Hs') as Hn.
  unfold begin_execution in *. set (c1 := if oc_deadline c <=? now then _ else _) in *.
  unfold compare_exchange in *. destruct (oc_execution_state c1 =? EXECUTION_QUEUED); [done|].
  destruct (oc_execution_state c1 =? EXECUTION_STOPPED_BEFORE_START); simplify_eq/=.
  destruct (stop_reason c1) as [reason|]; [by exists reason | done].
Qed.

(** A supervisor that is closing starts nothing: every registered control
    has a stop reason, the execution of its operation cannot start any more,
    and if it has not started its task is told the reason the control holds,
    never the default one. *)
Theorem closing_supervisor_starts_nothing y id ref c now :
  rtc system_step system_new y → sv_phase (sy_sup y) ≠ PhaseOpen →
  sv_controls (sy_sup y) !! id = Some ref → sv_heap (sy_sup y) !! ref = Some c →
  let '(error, c') := begin_execution now (sv_root (sy_sup y)) c in
  error ≠ None ∧ ∀ i, error = Some (NotStarted i) →
    ∃ reason, stop_reason c' = Some reason ∧ i = not_started_interruption reason.
Proof.
  intros Hr Hph Hc Hh. pose proof (reachable_wf _ Hr) as Hw.
  pose proof (Forall_lookup_1 _ _ _ _ (sw_control _ Hw) Hh) as Hok.
  apply (lw_controls _ _ (sw_ledger _ Hw)) in Hc as (p & Hp & Hreg).
  pose proof (sw_closing _ Hw Hph id ref p c Hp Hreg Hh) as Hs.
  pose proof (stopped_control_refuses now (sv_root (sy_sup y)) c Hok Hs) as Hn.
  pose proof (λ i, not_started_reason now (sv_root (sy_sup y)) c i Hok Hs) as Hi.
  by destruct (begin_execution now (sv_root (sy_sup y)) c) as [error c'].
Qed.

(** ** Draining *)
Lemma no_tasks (s : Sup) l :
  ledger_wf s l → sv_tasks s = ∅ →
  sv_descriptors s = ∅ ∧ sv_live_tasks s = ∅ ∧ ∀ id ref tid, l !! id ≠ Some (ref, Supervised tid).
Proof.
  intros [] Ht.
  assert (Hd : sv_descriptors s = ∅).
  { apply map_eq. intros tid. specialize (lw_tasks tid). rewrite Ht, lookup_empty in lw_tasks.
    rewrite lookup_empty. by destruct (sv_descriptors s !! tid). }
  assert (Hs : ∀ id ref tid, l !! id ≠ Some (ref, Supervised tid)).
  { intros id ref tid Hi. apply lw_supervised in Hi as (d & Hi & _). by rewrite Hd, lookup_empty in Hi. }
  split_and!; [done| |done]. apply map_eq. intros id. rewrite lookup_empty. apply eq_None_not_Some.
  intros [tid [ref Hi]%lw_live]. by eapply Hs.
Qed.

(** C30. When the reducer, at the head of its loop, leaves it, it has drained the supervisor: the
    channel, the tasks, the descriptors and the live tasks are empty, every
    operation that was still queued has been settled, and a control that is
    still registered belongs to a thread that is in the middle of [admit].  The
    reducer then ends without an error exactly if there is no such thread. *)
Theorem drained_reducer_leaves_only_admissions y w s' w' :
  rtc system_step system_new y → reducer_idle y = true → loop_head (sy_sup y) w = (Ok true, s', w') →
  sv_commands s' = [] ∧ sv_tasks s' = ∅ ∧ sv_descriptors s' = ∅ ∧ sv_live_tasks s' = ∅
  ∧ (∀ a request, (a, request) ∈ sv_commands (sy_sup y) → not_before 3 (sv_registry s') (oa_operation_id a))
  ∧ (∀ id ref, sv_controls s' !! id = Some ref ↔ ∃ stage cleanup request,
       sy_ledger y !! id = Some (ref, Admitting stage cleanup request) ∧ stage ≠ StagePrepared)
  ∧ ∀ w2, is_ok (reducer_epilogue s' w2).1.1 = bool_decide (sv_controls s' = ∅).
Proof.
  intros Hr Hidle%bool_decide_eq_true E. pose proof (reachable_wf _ Hr) as Hw.
  destruct (wp_run _ _ _ _ _ _ _ (wp_head y Hw) E true eq_refl) as [Hw' Hpost].
  pose proof (sw_ledger _ Hw') as Hl. unfold after_head in Hl. simpl in Hl.
  destruct (sv_shutting_down (sy_sup y)); [|done]. destruct Hpost as (Hq & Ht & Hset).
  symmetry in Ht. apply bool_decide_eq_true in Ht.
  destruct (no_tasks _ _ Hl Ht) as (Hd & Hlive & Hsup). split_and!; try done.
  - intros id ref. rewrite (lw_controls _ _ Hl). split.
    + intros (p & [Hp Hn]%map_lookup_filter_Some & Hreg). simpl in Hn.
      destruct p as [stage cleanup request| |tid|h|b]; [|done| | |done].
      * exists stage, cleanup, request. split; [done|]. by intros ->.
      * exfalso. apply (Hsup id ref tid). by apply map_lookup_filter_Some.
      * by specialize (Hidle id _ Hp).
    + intros (stage & cleanup & request & Hp & Hst). exists (Admitting stage cleanup request).
      split; [by apply map_lookup_filter_Some | by destruct stage].
  - intros w2. destruct (reducer_epilogue s' w2) as [[out s2] w3] eqn:E2. cbn [fst]. revert E2. start_wp.
    unfold reducer_epilogue. wp_step. wp_step. rewrite Hlive, (bool_decide_true (∅ = ∅)), andb_true_r by done.
    case_bool_decide; by wp_go.
Qed.
End theorems.
