(* ===== verification/IdlTypes.v ===== *)
(** * IDL types

    The JSON type expressions of an IDL (decode/idl_type.rs): the array shapes
    with their length bound, and the label shown for a type.  The label recurses
    into the elements of the expression; [value_depth] is fuel enough for it. *)

From S2P Require Import Prelude Json Bytes.

Definition MAX_DECODED_ITEMS : Z := 100000.

Definition array_len (value : Value) : Result Z :=
  len ← ok_or "array length must be an unsigned integer"
          match as_u64 value with
          | Some len => Some len
          | None => as_str value ≫= parse_unsigned 64
          end;
  if MAX_DECODED_ITEMS <? len
  then bail ("array length too large: " +:+ pretty len)
  else Ok len.

Definition fixed_array_type (ty : Value) : Result (option (Value * Z)) :=
  match value_get "array" ty with
  | None => Ok None
  | Some (VArray [inner; len_value]) =>
      len ← array_len len_value;
      Ok (Some (inner, len))
  | Some (VArray _) => bail "array type must be [element_type, len]"
  | Some (VObject array_object) =>
      inner ← ok_or "array type object missing element type"
                (get_first ["type"; "inner"; "element"] array_object);
      len_value ← ok_or "array type object missing length"
                    (get_first ["len"; "length"] array_object);
      len ← array_len len_value;
      Ok (Some (inner, len))
  | Some _ => bail "array type must be [element_type, len] or object"
  end.

Fixpoint value_depth (v : Value) : nat :=
  match v with
  | VArray items => S (list_max (map value_depth items))
  | VObject entries => S (list_max (map (λ kv, value_depth kv.2) entries))
  | _ => O
  end.

Section labels.
Context `{SerdeJson}.

Fixpoint idl_type_label_at (fuel : nat) (ty : Value) : string :=
  match fuel with
  | O => to_string ty
  | S n =>
      match as_str ty with
      | Some value => value
      | None =>
          match value_get "option" ty with
          | Some inner => "option<" +:+ idl_type_label_at n inner +:+ ">"
          | None =>
              match value_get "vec" ty with
              | Some inner => "vec<" +:+ idl_type_label_at n inner +:+ ">"
              | None =>
                  match fixed_array_type ty with
                  | Ok (Some (inner, len)) =>
                      "array<" +:+ idl_type_label_at n inner +:+ ", " +:+ pretty len +:+ ">"
                  | _ =>
                      match value_get "defined" ty ≫= as_str with
                      | Some name => name
                      | None => to_string ty
                      end
                  end
              end
          end
      end
  end.

Definition idl_type_label (ty : Value) : string := idl_type_label_at (S (value_depth ty)) ty.
End labels.

(** ** Lemmas *)
Lemma map_get_depth k m v : map_get k m = Some v → (value_depth v < value_depth (VObject m))%nat.
Proof.
  simpl. intros Hg. apply Nat.lt_succ_r.
  induction m as [|[k' v'] m IH]; simpl in *; [done|].
  destruct (String.eqb k k'); [injection Hg as ->; lia|]. specialize (IH Hg). lia.
Qed.

Lemma value_get_depth k ty v : value_get k ty = Some v → (value_depth v < value_depth ty)%nat.
Proof. destruct ty; try done. apply map_get_depth. Qed.

Lemma get_first_depth keys m v : get_first keys m = Some v → (value_depth v < value_depth (VObject m))%nat.
Proof.
  induction keys as [|k keys IH]; simpl get_first; [done|].
  destruct (map_get k m) eqn:E; [|done]. intros [= ->]. by apply map_get_depth in E.
Qed.

Lemma array_len_bound v len : array_len v = Ok len → 0 ≤ len ≤ MAX_DECODED_ITEMS.
Proof.
  unfold array_len. destruct (as_u64 v) as [n|] eqn:E; simpl.
  - apply as_u64_range in E as [? ?]. destruct (Z.ltb_spec MAX_DECODED_ITEMS n); [done|].
    intros [= <-]. lia.
  - destruct (as_str v) as [s|]; simpl; [|done]. unfold parse_unsigned, parse_int, in_range.
    destruct (match s with EmptyString => _ | String _ _ => _ end) as [n|]; simpl; [|done].
    destruct (Z.leb_spec 0 n); simpl; [|done].
    destruct (n <=? 2 ^ 64 - 1); simpl; [|done].
    destruct (Z.ltb_spec MAX_DECODED_ITEMS n); [done|]. intros [= <-]. lia.
Qed.

(** A type expression that is an array has a bounded length and an element type
    nested strictly inside it. *)
Lemma fixed_array_type_spec ty inner len :
  fixed_array_type ty = Ok (Some (inner, len)) →
  0 ≤ len ≤ MAX_DECODED_ITEMS ∧ (value_depth inner < value_depth ty)%nat.
Proof.
  unfold fixed_array_type. destruct (value_get "array" ty) as [v|] eqn:E; [|done].
  apply value_get_depth in E. destruct v as [| | | |items|m]; try done.
  - destruct items as [|i [|l [|]]]; try done. destruct (array_len l) eqn:El; [|done].
    intros [= <- <-]. apply array_len_bound in El. split; [done|]. simpl in E. lia.
  - destruct (get_first ["type"; "inner"; "element"] m) eqn:Ei; [|done].
    destruct (get_first ["len"; "length"] m) eqn:El'; [|done]. simpl.
    destruct (array_len _) eqn:El; [|done]. intros [= <- <-].
    apply array_len_bound in El. split; [done|]. apply get_first_depth in Ei. lia.
Qed.

Section label_fuel.
Context `{SerdeJson}.

(** More fuel than the depth changes nothing, so the label obeys the recursion
    of the code. *)
Lemma idl_type_label_fuel n m ty :
  (value_depth ty < n)%nat → (value_depth ty < m)%nat →
  idl_type_label_at n ty = idl_type_label_at m ty.
Proof.
  revert m ty. induction n as [|n IH]; intros [|m] ty Hn Hm; try lia. simpl.
  destruct (as_str ty); [done|].
  destruct (value_get "option" ty) eqn:Eo.
  { apply value_get_depth in Eo. by rewrite (IH m) by lia. }
  destruct (value_get "vec" ty) eqn:Ev.
  { apply value_get_depth in Ev. by rewrite (IH m) by lia. }
  destruct (fixed_array_type ty) as [[[inner len]|]|] eqn:Ea; try done.
  apply fixed_array_type_spec in Ea as [_ Ea]. by rewrite (IH m) by lia.
Qed.
End label_fuel.
