(* ===== verification/Borsh.v ===== *)
(** * The Borsh decoder

    decode/borsh.rs: account data is decoded against the type expressions of an
    IDL.  The code guards its recursion with a depth counter that fails above
    32; the decoders here recurse on [depth_budget depth], the number of levels
    the counter still allows, so that running out of it is exactly that
    failure. *)

From S2P Require Import Prelude Json Bytes IdlTypes.

Record DecodedValue : Type := mkDecoded { dv_value : Value; dv_consumed : Z }.

(** ** Reading bytes *)
Definition byte_at (bytes : list Z) (offset : Z) : Result Z :=
  ok_or ("unexpected end of data at byte " +:+ pretty offset +:+ ", need 1 byte")
    (bytes !! Z.to_nat offset).

(** [bytes.get(offset..offset + count)]. *)
Definition slice (l : list Z) (offset count : Z) : list Z :=
  take (Z.to_nat count) (drop (Z.to_nat offset) l).

Definition bytes_range (bytes : list Z) (offset count : Z) : Result (list Z) :=
  if match checked_add offset count with
     | Some last => last <=? zlen bytes
     | None => false
     end
  then Ok (slice bytes offset count)
  else bail ("unexpected end of data at byte " +:+ pretty offset +:+ ", need " +:+ pretty count
             +:+ " bytes").

Definition read_le_unsigned (bytes : list Z) (offset count : Z) : Result Z :=
  bytes ← bytes_range bytes offset count;
  if 16 <? count then bail "cannot decode unsigned integer wider than 128 bits"
  else Ok (or_shifted 8 0 0 bytes).

Definition read_le_signed (bytes : list Z) (offset count : Z) : Result Z :=
  bytes ← bytes_range bytes offset count;
  if 16 <? count then bail "cannot decode signed integer wider than 128 bits"
  else
    high_byte ← ok_or "cannot decode zero-width signed integer" (last bytes);
    let fill := if Z.land high_byte 128 =? 0 then 0 else 255 in
    let fixed := bytes ++ drop (Z.to_nat count) (replicate 16 fill) in
    Ok (to_signed 128 (le_value 8 fixed)).

(** ** The IDL *)
Definition has_name (name : string) (item : Value) : bool :=
  bool_decide (value_get "name" item ≫= as_str = Some name).

Definition array_items (v : option Value) : list Value := default [] (v ≫= as_array).

Definition find_defined_shape (idl : Value) (name : string) : option Value :=
  match List.find (has_name name) (array_items (value_get "types" idl)) with
  | Some shape => Some shape
  | None => List.find (has_name name) (array_items (value_get "accounts" idl)) ≫= value_get "type"
  end.

Definition field_name (index : Z) (field : Value) : string :=
  default ("field_" +:+ pretty index) (value_get "name" field ≫= as_str).

(** ** Sequences

    The decoding loops: fields in order, each inserted under its name, and
    [len] elements of one type. *)
Fixpoint decode_fields (kind : string) (type_of : string → Value → Result Value)
    (decode : Value → Z → Result DecodedValue) (fields : list Value)
    (index cursor : Z) (object : Map) : Result (Map * Z) :=
  match fields with
  | [] => Ok (object, cursor)
  | field :: fields' =>
      let name := field_name index field in
      ty ← type_of name field;
      decoded ← context ("failed to decode " +:+ kind +:+ " `" +:+ name +:+ "`") (decode ty cursor);
      decode_fields kind type_of decode fields' (index + 1) (cursor + dv_consumed decoded)
        (map_insert name (dv_value decoded) object)
  end.

Fixpoint decode_repeated (decode : Z → Result DecodedValue) (len : nat) (cursor : Z)
    : Result (list Value * Z) :=
  match len with
  | O => Ok ([], cursor)
  | S len' =>
      decoded ← decode cursor;
      rest ← decode_repeated decode len' (cursor + dv_consumed decoded);
      Ok (dv_value decoded :: rest.1, rest.2)
  end.

Definition struct_field_type (name : string) (field : Value) : Result Value :=
  ok_or ("field `" +:+ name +:+ "` has no type") (value_get "type" field).
Definition variant_field_type (name : string) (field : Value) : Result Value :=
  Ok (default field (value_get "type" field)).

Section decoder.
Context `{SerdeJson} `{HexCrate} `{LeeAccounts}.

Definition account_id_base58 (bytes : list Z) : string := account_to_string bytes.

Definition decode_borsh_primitive (ty : string) (bytes : list Z) (offset : Z) : Result DecodedValue :=
  let unsigned count :=
    value ← read_le_unsigned bytes offset count;
    Ok (mkDecoded (VString (pretty value)) count) in
  let signed count :=
    value ← read_le_signed bytes offset count;
    Ok (mkDecoded (VString (pretty value)) count) in
  let named := String.eqb ty in
  if named "bool" then
    byte ← byte_at bytes offset;
    Ok (mkDecoded (VBool (negb (byte =? 0))) 1)
  else if named "u8" then
    byte ← byte_at bytes offset;
    Ok (mkDecoded (VString (pretty byte)) 1)
  else if named "i8" then
    byte ← byte_at bytes offset;
    Ok (mkDecoded (VString (pretty (to_signed 8 byte))) 1)
  else if named "u16" then unsigned 2
  else if named "i16" then signed 2
  else if named "u32" then unsigned 4
  else if named "i32" then signed 4
  else if named "u64" then unsigned 8
  else if named "i64" then signed 8
  else if named "u128" then unsigned 16
  else if named "i128" then signed 16
  else if named "account_id" then
    range ← bytes_range bytes offset 32;
    Ok (mkDecoded (VString (account_id_base58 range)) 32)
  else if named "program_id" then
    range ← bytes_range bytes offset 32;
    Ok (mkDecoded (VString (hex_encode range)) 32)
  else if named "string" then
    len ← read_le_unsigned bytes offset 4;
    range ← bytes_range bytes (offset + 4) len;
    value ← ok_or "string field is not valid UTF-8" (from_utf8 range);
    Ok (mkDecoded (VString value) (4 + len))
  else bail ("unsupported primitive IDL type `" +:+ ty +:+ "`").

Definition decode_borsh_struct (decode : Value → Z → Result DecodedValue)
    (shape : Value) (offset : Z) : Result DecodedValue :=
  fields ← ok_or "struct shape has no fields array" (value_get "fields" shape ≫= as_array);
  decoded ← decode_fields "field" struct_field_type decode fields 0 offset [];
  Ok (mkDecoded (VObject decoded.1) (decoded.2 - offset)).

Definition decode_borsh_enum (decode : Value → Z → Result DecodedValue)
    (shape : Value) (bytes : list Z) (offset : Z) : Result DecodedValue :=
  variant_index ← byte_at bytes offset;
  variants ← ok_or "enum shape has no variants array" (value_get "variants" shape ≫= as_array);
  variant ← ok_or ("enum variant " +:+ pretty variant_index +:+ " not present")
              (variants !! Z.to_nat variant_index);
  let variant_name := default "unknown" (value_get "name" variant ≫= as_str) in
  decoded ← decode_fields "variant field" variant_field_type decode
              (array_items (value_get "fields" variant)) 0 (offset + 1) [];
  Ok (mkDecoded (json_object [
        ("variant", VString variant_name);
        ("variant_index", json_u64 variant_index);
        ("fields", VObject decoded.1)]) (decoded.2 - offset)).

Definition decode_borsh_array (decode : Value → Z → Result DecodedValue) (inner : Value)
    (len first offset : Z) : Result DecodedValue :=
  decoded ← decode_repeated (decode inner) (Z.to_nat len) first;
  Ok (mkDecoded (VArray decoded.1) (decoded.2 - offset)).

(** [decode] and [decode_shape] stand for the recursive calls one level down. *)
Definition decode_type_body (decode decode_shape : Value → Z → Result DecodedValue)
    (ty : Value) (bytes : list Z) (offset : Z) (idl : Value) : Result DecodedValue :=
  match as_str ty with
  | Some primitive => decode_borsh_primitive primitive bytes offset
  | None =>
      object ← ok_or ("unsupported IDL type " +:+ idl_type_label ty) (as_object ty);
      match map_get "option" object with
      | Some inner =>
          tag ← byte_at bytes offset;
          if tag =? 0 then Ok (mkDecoded VNull 1)
          else if negb (tag =? 1) then bail ("invalid option tag " +:+ pretty tag)
          else
            decoded ← decode inner (offset + 1);
            Ok (mkDecoded (dv_value decoded) (dv_consumed decoded + 1))
      | None =>
          match map_get "vec" object with
          | Some inner =>
              len ← read_le_unsigned bytes offset 4;
              if MAX_DECODED_ITEMS <? len then bail ("vector length too large: " +:+ pretty len)
              else decode_borsh_array decode inner len (offset + 4) offset
          | None =>
              array ← fixed_array_type ty;
              match array with
              | Some (inner, len) => decode_borsh_array decode inner len offset offset
              | None =>
                  match map_get "defined" object ≫= as_str with
                  | Some name =>
                      shape ← ok_or ("defined IDL type `" +:+ name +:+ "` not found")
                                (find_defined_shape idl name);
                      decode_shape shape offset
                  | None =>
                      if map_contains_key "kind" object then decode_shape ty offset
                      else bail ("unsupported IDL type " +:+ idl_type_label ty)
                  end
              end
          end
      end
  end.

Definition decode_shape_body (decode : Value → Z → Result DecodedValue)
    (shape : Value) (bytes : list Z) (offset : Z) : Result DecodedValue :=
  match value_get "kind" shape ≫= as_str with
  | Some kind =>
      if String.eqb kind "struct" then decode_borsh_struct decode shape offset
      else if String.eqb kind "enum" then decode_borsh_enum decode shape bytes offset
      else bail ("unsupported IDL shape kind `" +:+ kind +:+ "`")
  | None => bail "IDL shape missing kind"
  end.

Fixpoint decode_type_at (budget : nat) (bytes : list Z) (idl : Value) (ty : Value) (offset : Z)
    : Result DecodedValue :=
  match budget with
  | O => bail "IDL nesting too deep"
  | S n => decode_type_body (decode_type_at n bytes idl) (decode_shape_at n bytes idl) ty bytes offset idl
  end
with decode_shape_at (budget : nat) (bytes : list Z) (idl : Value) (shape : Value) (offset : Z)
    : Result DecodedValue :=
  match budget with
  | O => bail "IDL nesting too deep"
  | S n => decode_shape_body (decode_type_at n bytes idl) shape bytes offset
  end.

(** The levels left at a depth: the guard [depth > 32] fires exactly at none. *)
Definition MAX_DEPTH : Z := 32.
Definition depth_budget (depth : Z) : nat := Z.to_nat (MAX_DEPTH + 1 - depth).

Definition decode_borsh_type (ty : Value) (bytes : list Z) (offset : Z) (idl : Value) (depth : Z)
    : Result DecodedValue := decode_type_at (depth_budget depth) bytes idl ty offset.
Definition decode_borsh_shape (shape : Value) (bytes : list Z) (offset : Z) (idl : Value) (depth : Z)
    : Result DecodedValue := decode_shape_at (depth_budget depth) bytes idl shape offset.

Definition parse_hex_bytes (value : string) : Result (list Z) :=
  let hex := trim value in
  let hex := default hex (strip_any ["0x"; "0X"] hex) in
  let hex := drop_white_space (String.length hex) hex in
  if negb (str_len hex mod 2 =? 0) then bail "hex string must have even length"
  else ok_or "invalid hex" (hex_decode hex).
End decoder.
