(* ===== verification/BorshSpec.v ===== *)
(** * The Borsh wire format and the decoder

    A specification of the format that does not mention cursors: which byte
    strings stand for which values of a type expression.  The decoder accepts
    exactly the byte strings of the format, and consumes exactly them. *)

From S2P Require Import Prelude Json Bytes IdlTypes Borsh.

(** ** The format *)
Section format.
Context `{SerdeJson} `{HexCrate} `{LeeAccounts}.

Inductive borsh_primitive : string → Value → list Z → Prop :=
  | PBool x : digit 8 x → borsh_primitive "bool" (VBool (negb (x =? 0))) [x]
  | PUnsigned name width n :
      (name, width) ∈ [("u8", 1); ("u16", 2); ("u32", 4); ("u64", 8); ("u128", 16)]%nat →
      0 ≤ n < 2 ^ (8 * Z.of_nat width) →
      borsh_primitive name (VString (pretty n)) (le_digits 8 width n)
  | PSigned name width n :
      (name, width) ∈ [("i8", 1); ("i16", 2); ("i32", 4); ("i64", 8); ("i128", 16)]%nat →
      - 2 ^ (8 * Z.of_nat width - 1) ≤ n < 2 ^ (8 * Z.of_nat width - 1) →
      borsh_primitive name (VString (pretty n))
        (le_digits 8 width (to_unsigned (8 * Z.of_nat width) n))
  | PAccount a : account_wf a → borsh_primitive "account_id" (VString (account_to_string a)) a
  | PProgram p :
      is_bytes p → length p = 32%nat → borsh_primitive "program_id" (VString (hex_encode p)) p
  | PString s :
      str_len s < 2 ^ 32 → utf8_valid (as_bytes s) = true →
      borsh_primitive "string" (VString s) (le_digits 8 4 (str_len s) ++ as_bytes s).

Inductive repeated (R : Value → list Z → Prop) : list Value → list Z → Prop :=
  | RNil : repeated R [] []
  | RCons v bs vs rest : R v bs → repeated R vs rest → repeated R (v :: vs) (bs ++ rest).

(** The fields from position [index] on, added to [object]. *)
Inductive fields_of (type_of : string → Value → Result Value) (R : Value → Value → list Z → Prop)
    : list Value → Z → Map → Map → list Z → Prop :=
  | FNil index object : fields_of type_of R [] index object object []
  | FCons field fields index object object' ty v bs rest :
      type_of (field_name index field) field = Ok ty → R ty v bs →
      fields_of type_of R fields (index + 1) (map_insert (field_name index field) v object) object' rest →
      fields_of type_of R (field :: fields) index object object' (bs ++ rest).

(** One level of a type expression; [R] and [RS] are the types and shapes one
    level down. *)
Inductive borsh_type (R RS : Value → Value → list Z → Prop) (idl : Value)
    : Value → Value → list Z → Prop :=
  | TPrimitive name v bs : borsh_primitive name v bs → borsh_type R RS idl (VString name) v bs
  | TNone object inner :
      map_get "option" object = Some inner → borsh_type R RS idl (VObject object) VNull [0]
  | TSome object inner v bs :
      map_get "option" object = Some inner → R inner v bs →
      borsh_type R RS idl (VObject object) v (1 :: bs)
  | TVec object inner vs bs :
      map_get "option" object = None → map_get "vec" object = Some inner →
      zlen vs ≤ MAX_DECODED_ITEMS → repeated (R inner) vs bs →
      borsh_type R RS idl (VObject object) (VArray vs) (le_digits 8 4 (zlen vs) ++ bs)
  | TArray object inner vs bs :
      map_get "option" object = None → map_get "vec" object = None →
      fixed_array_type (VObject object) = Ok (Some (inner, zlen vs)) → repeated (R inner) vs bs →
      borsh_type R RS idl (VObject object) (VArray vs) bs
  | TDefined object name shape v bs :
      map_get "option" object = None → map_get "vec" object = None →
      map_get "array" object = None → map_get "defined" object = Some (VString name) →
      find_defined_shape idl name = Some shape → RS shape v bs →
      borsh_type R RS idl (VObject object) v bs
  | TInline object v bs :
      map_get "option" object = None → map_get "vec" object = None →
      map_get "array" object = None → map_get "defined" object ≫= as_str = None →
      map_contains_key "kind" object = true → RS (VObject object) v bs →
      borsh_type R RS idl (VObject object) v bs.

Inductive borsh_shape (R : Value → Value → list Z → Prop) : Value → Value → list Z → Prop :=
  | SStruct shape fields object bs :
      value_get "kind" shape = Some (VString "struct") →
      value_get "fields" shape = Some (VArray fields) →
      fields_of struct_field_type R fields 0 [] object bs →
      borsh_shape R shape (VObject object) bs
  | SEnum shape variants index variant object bs :
      value_get "kind" shape = Some (VString "enum") →
      value_get "variants" shape = Some (VArray variants) →
      0 ≤ index < 256 → variants !! Z.to_nat index = Some variant →
      fields_of variant_field_type R (array_items (value_get "fields" variant)) 0 [] object bs →
      borsh_shape R shape
        (json_object [
          ("variant", VString (default "unknown" (value_get "name" variant ≫= as_str)));
          ("variant_index", json_u64 index);
          ("fields", VObject object)]) (index :: bs).

(** The types and shapes nested at most [budget] deep. *)
Fixpoint type_format (budget : nat) (idl ty v : Value) (bs : list Z) : Prop :=
  match budget with
  | O => False
  | S n => borsh_type (type_format n idl) (shape_format n idl) idl ty v bs
  end
with shape_format (budget : nat) (idl shape v : Value) (bs : list Z) : Prop :=
  match budget with
  | O => False
  | S n => borsh_shape (type_format n idl) shape v bs
  end.
End format.

(** ** Slices *)
Lemma zlen_slice l o c : 0 ≤ o → 0 ≤ c → o + c ≤ zlen l → zlen (slice l o c) = c.
Proof.
  unfold slice, zlen. intros. rewrite length_take, length_drop. lia.
Qed.

Lemma slice_app l o a b : 0 ≤ o → 0 ≤ a → 0 ≤ b → slice l o (a + b) = slice l o a ++ slice l (o + a) b.
Proof.
  intros. unfold slice. by rewrite !Z2Nat.inj_add, <- drop_drop, take_take_drop by lia.
Qed.

Lemma slice_wf w l o c : digits w l → digits w (slice l o c).
Proof. intros. unfold slice, digits. by apply Forall_take, Forall_drop. Qed.

Lemma slice_0 l o : slice l o 0 = [].
Proof. reflexivity. Qed.

(** A slice that starts with [a] has [a] as the slice of its length. *)
Lemma slice_split l o c a b :
  0 ≤ o → 0 ≤ c → o + c ≤ zlen l → slice l o c = a ++ b →
  c = zlen a + zlen b ∧ slice l o (zlen a) = a ∧ slice l (o + zlen a) (c - zlen a) = b.
Proof.
  intros Ho Hc Hle E. assert (Hlen : c = zlen a + zlen b).
  { rewrite <- (zlen_slice l o c) by done. rewrite E. unfold zlen. rewrite length_app. lia. }
  split; [done|]. pose proof (zlen_nonneg a). pose proof (zlen_nonneg b).
  replace c with (zlen a + (c - zlen a)) in E by lia. rewrite slice_app in E by lia.
  apply app_inj_1 in E; [done|].
  pose proof (zlen_slice l o (zlen a)) as Hz. unfold zlen in *. lia.
Qed.

Lemma slice_one l o x : 0 ≤ o → l !! Z.to_nat o = Some x ↔ o + 1 ≤ zlen l ∧ slice l o 1 = [x].
Proof.
  intros Ho. unfold slice, zlen. split.
  - intros Hx. apply lookup_lt_Some in Hx as Hl. split; [lia|].
    by rewrite (drop_S l x) by done.
  - intros [Hl E]. rewrite <- (Nat.add_0_r (Z.to_nat o)), <- lookup_drop.
    destruct (drop (Z.to_nat o) l); [done|]. by injection E as ->.
Qed.

Section reading.
Context (bytes : list Z) (Hbytes : is_bytes bytes) (Hsize : zlen bytes ≤ i64_max).

(** [decode] reads the format [R] off [bytes]: from any cursor it succeeds
    exactly on a slice of the format, with the length of that slice. *)
Definition reads (decode : Z → Result DecodedValue) (R : Value → list Z → Prop) : Prop :=
  ∀ o v c, 0 ≤ o ≤ zlen bytes →
    decode o = Ok (mkDecoded v c) ↔ 0 ≤ c ∧ o + c ≤ zlen bytes ∧ R v (slice bytes o c).

Lemma byte_at_iff o x : 0 ≤ o → byte_at bytes o = Ok x ↔ o + 1 ≤ zlen bytes ∧ slice bytes o 1 = [x].
Proof. intros Ho. unfold byte_at. rewrite ok_or_Ok. by apply slice_one. Qed.

Lemma bytes_range_iff o c bs :
  0 ≤ o ≤ zlen bytes → 0 ≤ c →
  bytes_range bytes o c = Ok bs ↔ o + c ≤ zlen bytes ∧ bs = slice bytes o c.
Proof using Hsize.
  intros Ho Hc. unfold bytes_range, checked_add. unfold i64_max in Hsize. unfold u64_max.
  destruct (Z.leb_spec (o + c) 18446744073709551615);
    [destruct (Z.leb_spec (o + c) (zlen bytes))|]; simpl;
    (split; [intros E; try done; injection E as <-; by split|intros [? ->]; try done; lia]).
Qed.

Lemma read_le_unsigned_iff o count n :
  0 ≤ o ≤ zlen bytes → (count ≤ 16)%nat →
  read_le_unsigned bytes o (Z.of_nat count) = Ok n ↔
  o + Z.of_nat count ≤ zlen bytes ∧ 0 ≤ n < 2 ^ (8 * Z.of_nat count)
  ∧ slice bytes o (Z.of_nat count) = le_digits 8 count n.
Proof using Hbytes Hsize.
  intros Ho Hc. unfold read_le_unsigned. rewrite bind_Ok. setoid_rewrite bytes_range_iff; [|done|lia].
  destruct (Z.ltb_spec 16 (Z.of_nat count)); [lia|].
  pose proof (slice_wf 8 bytes o (Z.of_nat count) Hbytes) as Hw. split.
  - intros (bs & [Hle ->] & E). injection E as <-.
    assert (Hz : zlen (slice bytes o (Z.of_nat count)) = Z.of_nat count) by (apply zlen_slice; lia).
    rewrite or_shifted_value by (done || lia).
    pose proof (le_value_range 8 _ ltac:(lia) Hw) as Hr. rewrite Hz in Hr.
    split_and!; try (done || lia).
    pose proof (le_digits_value 8 _ ltac:(lia) Hw) as E.
    replace (length _) with count in E by (unfold zlen in Hz; lia). done.
  - intros (Hle & Hn & E). exists (slice bytes o (Z.of_nat count)). split; [done|].
    rewrite or_shifted_value; [|lia|done|rewrite zlen_slice; lia].
    by rewrite E, le_value_digits.
Qed.

Lemma read_le_signed_iff o count n :
  0 ≤ o ≤ zlen bytes → (0 < count ≤ 16)%nat →
  read_le_signed bytes o (Z.of_nat count) = Ok n ↔
  o + Z.of_nat count ≤ zlen bytes
  ∧ - 2 ^ (8 * Z.of_nat count - 1) ≤ n < 2 ^ (8 * Z.of_nat count - 1)
  ∧ slice bytes o (Z.of_nat count) = le_digits 8 count (to_unsigned (8 * Z.of_nat count) n).
Proof using Hbytes Hsize.
  intros Ho Hc. unfold read_le_signed. rewrite bind_Ok. setoid_rewrite bytes_range_iff; [|done|lia].
  destruct (Z.ltb_spec 16 (Z.of_nat count)); [lia|].
  pose proof (slice_wf 8 bytes o (Z.of_nat count) Hbytes) as Hw.
  set (bs := slice bytes o (Z.of_nat count)) in *.
  assert (Hread : o + Z.of_nat count ≤ zlen bytes →
    (high_byte ← ok_or "cannot decode zero-width signed integer" (last bs);
     Ok (to_signed 128 (le_value 8
          (bs ++ drop (Z.to_nat (Z.of_nat count))
                   (replicate 16 (if Z.land high_byte 128 =? 0 then 0 else 255))))))
    = Ok (to_signed (8 * Z.of_nat count) (le_value 8 bs))).
  { intros Hle. assert (Hz : zlen bs = Z.of_nat count) by (apply zlen_slice; lia).
    destruct (exists_last (l := bs)) as (l & h & E); [intros E; by rewrite E in Hz; unfold zlen in Hz; simpl in Hz; lia|].
    rewrite E in Hw, Hz |- *. rewrite last_snoc. cbv [ok_or mbind Result_bind]. cbv zeta.
    rewrite drop_replicate, Nat2Z.id, <- Hz.
    rewrite <- (sign_extend 8 l h (16 - count) ltac:(lia) Hw), Hz. do 2 f_equal. lia. }
  pose proof (le_value_range 8 bs ltac:(lia) Hw) as Hr. split.
  - intros (bs' & [Hle ->] & E). cbv beta iota in E. rewrite Hread in E by done. injection E as <-.
    assert (Hz : zlen bs = Z.of_nat count) by (apply zlen_slice; lia). rewrite Hz in Hr.
    split; [done|]. split; [apply to_signed_range; lia|]. rewrite to_unsigned_signed by lia.
    pose proof (le_digits_value 8 _ ltac:(lia) Hw) as E. unfold zlen in Hz.
    replace (length bs) with count in E by lia. done.
  - intros (Hle & Hn & E). exists bs. split; [done|]. cbv beta iota. rewrite Hread by done. f_equal.
    rewrite E, le_value_digits, to_signed_unsigned by (lia || apply digit_pow; lia). done.
Qed.
End reading.

(** ** Primitives *)
Section primitives.
Context `{HexCrate} `{LeeAccounts}.

Ltac primitive_inv :=
  intros Hp; inversion Hp; subst;
  repeat match goal with
         | Hm : (_, _) ∈ _ |- _ => rewrite ?elem_of_cons, elem_of_nil in Hm; destruct_or! Hm; simplify_eq
         end.

Lemma unsigned_format name width v bs :
  (name, width) ∈ [("u8", 1); ("u16", 2); ("u32", 4); ("u64", 8); ("u128", 16)]%nat →
  borsh_primitive name v bs ↔
  ∃ n, 0 ≤ n < 2 ^ (8 * Z.of_nat width) ∧ v = VString (pretty n) ∧ bs = le_digits 8 width n.
Proof.
  intros Hm. split; [|intros (n & Hn & -> & ->); by constructor].
  rewrite !elem_of_cons, elem_of_nil in Hm. destruct_or! Hm; simplify_eq; primitive_inv; eauto.
Qed.

Lemma signed_format name width v bs :
  (name, width) ∈ [("i8", 1); ("i16", 2); ("i32", 4); ("i64", 8); ("i128", 16)]%nat →
  borsh_primitive name v bs ↔
  ∃ n, - 2 ^ (8 * Z.of_nat width - 1) ≤ n < 2 ^ (8 * Z.of_nat width - 1) ∧ v = VString (pretty n)
       ∧ bs = le_digits 8 width (to_unsigned (8 * Z.of_nat width) n).
Proof.
  intros Hm. split; [|intros (n & Hn & -> & ->); by constructor].
  rewrite !elem_of_cons, elem_of_nil in Hm. destruct_or! Hm; simplify_eq; primitive_inv; eauto.
Qed.

Lemma bool_format v bs : borsh_primitive "bool" v bs ↔
  ∃ x, digit 8 x ∧ v = VBool (negb (x =? 0)) ∧ bs = [x].
Proof. split; [primitive_inv; eauto|intros (x & Hx & -> & ->); by constructor]. Qed.
Lemma account_format v bs : borsh_primitive "account_id" v bs ↔
  account_wf bs ∧ v = VString (account_to_string bs).
Proof. split; [primitive_inv; eauto|intros [Ha ->]; by constructor]. Qed.
Lemma program_format v bs : borsh_primitive "program_id" v bs ↔
  is_bytes bs ∧ length bs = 32%nat ∧ v = VString (hex_encode bs).
Proof. split; [primitive_inv; eauto|intros (Hp & Hl & ->); by constructor]. Qed.
Lemma string_format v bs : borsh_primitive "string" v bs ↔
  ∃ s, str_len s < 2 ^ 32 ∧ utf8_valid (as_bytes s) = true ∧ v = VString s
       ∧ bs = le_digits 8 4 (str_len s) ++ as_bytes s.
Proof. split; [primitive_inv; eauto 10|intros (s & Hl & Hu & -> & ->); by constructor]. Qed.
End primitives.

Section primitive_reads.
Context `{HexCrate} `{LeeAccounts}.
Context (bytes : list Z) (Hbytes : is_bytes bytes) (Hsize : zlen bytes ≤ i64_max).

Lemma slice_length o c bs : 0 ≤ o → 0 ≤ c → o + c ≤ zlen bytes → slice bytes o c = bs → c = zlen bs.
Proof. intros ? ? ? <-. by rewrite zlen_slice. Qed.

Lemma zlen_le_digits w count n : zlen (le_digits w count n) = Z.of_nat count.
Proof. unfold zlen. by rewrite length_le_digits. Qed.

Lemma unsigned_reads name width :
  (name, width) ∈ [("u8", 1); ("u16", 2); ("u32", 4); ("u64", 8); ("u128", 16)]%nat →
  reads bytes (λ o, n ← read_le_unsigned bytes o (Z.of_nat width);
                    Ok (mkDecoded (VString (pretty n)) (Z.of_nat width))) (borsh_primitive name).
Proof using Hbytes Hsize.
  intros Hm o v c Ho. rewrite bind_Ok, (unsigned_format _ _ _ _ Hm).
  assert (width ≤ 16)%nat by (rewrite !elem_of_cons, elem_of_nil in Hm; naive_solver lia).
  split.
  - intros (n & Hr & [= <- <-]). apply read_le_unsigned_iff in Hr as (Hle & Hn & E); try done.
    split_and!; try lia. eauto.
  - intros (Hc & Hle & n & Hn & -> & E). pose proof (slice_length _ _ _ (proj1 Ho) Hc Hle E) as ->.
    rewrite zlen_le_digits in Hle, E |- *. exists n. split; [|done]. by apply read_le_unsigned_iff.
Qed.

Lemma signed_reads name width :
  (name, width) ∈ [("i8", 1); ("i16", 2); ("i32", 4); ("i64", 8); ("i128", 16)]%nat →
  reads bytes (λ o, n ← read_le_signed bytes o (Z.of_nat width);
                    Ok (mkDecoded (VString (pretty n)) (Z.of_nat width))) (borsh_primitive name).
Proof using Hbytes Hsize.
  intros Hm o v c Ho. rewrite bind_Ok, (signed_format _ _ _ _ Hm).
  assert (0 < width ≤ 16)%nat by (rewrite !elem_of_cons, elem_of_nil in Hm; naive_solver lia).
  split.
  - intros (n & Hr & [= <- <-]). apply read_le_signed_iff in Hr as (Hle & Hn & E); try done.
    split_and!; try lia. eauto.
  - intros (Hc & Hle & n & Hn & -> & E). pose proof (slice_length _ _ _ (proj1 Ho) Hc Hle E) as ->.
    rewrite zlen_le_digits in Hle, E |- *. exists n. split; [|done]. by apply read_le_signed_iff.
Qed.

(** A single byte as an integer of width one. *)
Lemma byte_reads (f : Z → Value) (R : Value → list Z → Prop) :
  (∀ v bs, R v bs ↔ ∃ x, digit 8 x ∧ v = f x ∧ bs = [x]) →
  reads bytes (λ o, byte ← byte_at bytes o; Ok (mkDecoded (f byte) 1)) R.
Proof using Hbytes.
  intros HR o v c Ho. rewrite bind_Ok, HR. split.
  - intros (x & Hx & [= <- <-]). apply byte_at_iff in Hx as [Hle E]; [|lia].
    split_and!; try lia. exists x. split_and!; try done.
    pose proof (slice_wf 8 bytes o 1 Hbytes) as Hw. rewrite E in Hw. by apply Forall_inv in Hw.
  - intros (Hc & Hle & x & Hx & -> & E). pose proof (slice_length _ _ _ (proj1 Ho) Hc Hle E) as ->.
    exists x. split; [|done]. apply byte_at_iff; [lia|done].
Qed.

Lemma range_reads (f : list Z → Value) (R : Value → list Z → Prop) :
  (∀ v bs, is_bytes bs → R v bs ↔ length bs = 32%nat ∧ v = f bs) →
  reads bytes (λ o, range ← bytes_range bytes o 32; Ok (mkDecoded (f range) 32)) R.
Proof using Hbytes Hsize.
  intros HR o v c Ho. rewrite bind_Ok, HR by (by apply slice_wf). split.
  - intros (bs & Hr & [= <- <-]). apply bytes_range_iff in Hr as [Hle ->]; try done.
    pose proof (zlen_slice bytes o 32) as Hz. unfold zlen in *. split_and!; try lia; done.
  - intros (Hc & Hle & Hl & ->). assert (c = 32) as ->.
    { rewrite <- (zlen_slice bytes o c) by lia. unfold zlen. lia. }
    eexists. split; [|done]. by apply bytes_range_iff.
Qed.

Lemma string_reads :
  reads bytes (λ o, len ← read_le_unsigned bytes o 4;
                    range ← bytes_range bytes (o + 4) len;
                    value ← ok_or "string field is not valid UTF-8" (from_utf8 range);
                    Ok (mkDecoded (VString value) (4 + len))) (borsh_primitive "string").
Proof using Hbytes Hsize.
  intros o v c Ho. rewrite bind_Ok, string_format. split.
  - intros (len & Hl & E). apply (read_le_unsigned_iff bytes Hbytes Hsize o 4) in Hl as (Hle & Hn & El); [|done|lia].
    apply bind_Ok in E as (bs & Hr & E). apply bytes_range_iff in Hr as [Hle' ->]; [|done|lia|lia].
    apply bind_Ok in E as (s & Hs & [= <- <-]). apply ok_or_Ok in Hs. unfold from_utf8 in Hs.
    destruct (utf8_valid _) eqn:Hu; [|done]. injection Hs as <-.
    pose proof (slice_wf 8 bytes (o + 4) len Hbytes) as Hw.
    assert (Hlen : str_len (text_of (slice bytes (o + 4) len)) = len).
    { by rewrite <- zlen_as_bytes, as_bytes_text_of, zlen_slice by (done || lia). }
    split_and!; try lia. eexists. split_and!; [|by rewrite as_bytes_text_of|done|].
    + rewrite Hlen. change (2 ^ 32) with (2 ^ (8 * Z.of_nat 4)). lia.
    + rewrite Hlen, as_bytes_text_of, slice_app by (done || lia). f_equal. exact El.
  - intros (Hc & Hle & s & Hs & Hu & -> & E).
    apply slice_split in E as (-> & E1 & E2); [|lia..]. rewrite zlen_le_digits, zlen_as_bytes in *.
    pose proof (str_len_nonneg s). exists (str_len s). split.
    { apply (read_le_unsigned_iff bytes Hbytes Hsize o 4); [done|lia|].
      split_and!; [lia|lia|change (2 ^ (8 * Z.of_nat 4)) with (2 ^ 32); lia|exact E1]. }
    apply bind_Ok. exists (as_bytes s). split.
    { apply bytes_range_iff; [done|lia|lia|]. split; [lia|]. rewrite <- E2. f_equal; lia. }
    unfold from_utf8. rewrite Hu. simpl. by rewrite text_of_as_bytes.
Qed.

Lemma primitive_reads name : reads bytes (decode_borsh_primitive name bytes) (borsh_primitive name).
Proof using Hbytes Hsize.
  unfold decode_borsh_primitive.
  destruct (String.eqb_spec name "bool") as [->|]; [apply byte_reads; intros; apply bool_format|].
  destruct (String.eqb_spec name "u8") as [->|].
  { apply (byte_reads (λ x, VString (pretty x))). intros. rewrite (unsigned_format "u8" 1) by set_solver.
    apply exist_proper. intros m. change (8 * Z.of_nat 1) with 8. simpl.
    split; intros (Hn & -> & ->); rewrite ?Z.mod_small; done. }
  destruct (String.eqb_spec name "i8") as [->|].
  { apply (byte_reads (λ x, VString (pretty (to_signed 8 x)))). intros.
    rewrite (signed_format "i8" 1) by set_solver. change (8 * Z.of_nat 1) with 8. simpl. split.
    - intros (m & Hn & -> & ->). exists (to_unsigned 8 m).
      split_and!; [apply digit_pow; lia|by rewrite to_signed_unsigned|].
      unfold to_unsigned. by rewrite Z.mod_mod.
    - intros (x & Hx & -> & ->). exists (to_signed 8 x).
      split; [by apply to_signed_range|]. split; [done|].
      rewrite to_unsigned_signed by done. unfold digit in Hx. by rewrite Z.mod_small. }
  destruct (String.eqb_spec name "u16") as [->|]; [apply (unsigned_reads "u16" 2); set_solver|].
  destruct (String.eqb_spec name "i16") as [->|]; [apply (signed_reads "i16" 2); set_solver|].
  destruct (String.eqb_spec name "u32") as [->|]; [apply (unsigned_reads "u32" 4); set_solver|].
  destruct (String.eqb_spec name "i32") as [->|]; [apply (signed_reads "i32" 4); set_solver|].
  destruct (String.eqb_spec name "u64") as [->|]; [apply (unsigned_reads "u64" 8); set_solver|].
  destruct (String.eqb_spec name "i64") as [->|]; [apply (signed_reads "i64" 8); set_solver|].
  destruct (String.eqb_spec name "u128") as [->|]; [apply (unsigned_reads "u128" 16); set_solver|].
  destruct (String.eqb_spec name "i128") as [->|]; [apply (signed_reads "i128" 16); set_solver|].
  destruct (String.eqb_spec name "account_id") as [->|].
  { apply (range_reads (λ bs, VString (account_to_string bs))). intros v bs Hb.
    rewrite account_format. unfold account_wf. tauto. }
  destruct (String.eqb_spec name "program_id") as [->|].
  { apply (range_reads (λ bs, VString (hex_encode bs))). intros v bs Hb. rewrite program_format. tauto. }
  destruct (String.eqb_spec name "string") as [->|]; [apply string_reads|].
  intros o v c Ho. split; [done|]. intros (_ & _ & Hp). exfalso.
  inversion Hp; subst; try done; set_solver.
Qed.
End primitive_reads.

(** ** Sequences *)
Section sequences.
Context (bytes : list Z).

Lemma reads_bounds decode R o d :
  reads bytes decode R → 0 ≤ o ≤ zlen bytes → decode o = Ok d →
  0 ≤ dv_consumed d ∧ o + dv_consumed d ≤ zlen bytes ∧ R (dv_value d) (slice bytes o (dv_consumed d)).
Proof. destruct d. intros HR Ho E. by apply HR. Qed.

Lemma repeated_reads decode R len o vs e :
  reads bytes decode R → 0 ≤ o ≤ zlen bytes →
  decode_repeated decode len o = Ok (vs, e) ↔
  o ≤ e ≤ zlen bytes ∧ length vs = len ∧ repeated R vs (slice bytes o (e - o)).
Proof.
  intros HR. revert o vs. induction len as [|len IH]; intros o vs Ho; simpl decode_repeated.
  - split.
    + intros [= <- <-]. rewrite Z.sub_diag. split_and!; try (done || lia). constructor.
    + intros (He & Hl & Hr). destruct vs; [|done]. inversion Hr as [E0 E|]. symmetry in E.
      apply slice_length in E; [|lia..]. do 2 f_equal. unfold zlen in E. simpl in E. lia.
  - rewrite bind_Ok. split.
    + intros (d & Hd & E). apply bind_Ok in E as ([vs' e'] & E' & [= <- <-]).
      destruct (reads_bounds _ _ _ _ HR Ho Hd) as (Hc & Hle & Hv).
      apply IH in E' as (He & Hl & Hr); [|lia].
      split_and!; simpl; try lia.
      replace (e' - o) with (dv_consumed d + (e' - (o + dv_consumed d))) by lia.
      rewrite slice_app by lia. by constructor.
    + intros (He & Hl & Hr). inversion Hr as [E|v bs vs' rest Hv Hrest E Eslice]; subst; [done|].
      symmetry in Eslice. apply slice_split in Eslice as (Hlen & E1 & E2); [|lia..].
      pose proof (zlen_nonneg bs). pose proof (zlen_nonneg rest).
      exists (mkDecoded v (zlen bs)). split; [apply HR; [done|]; rewrite E1; split_and!; (done || lia)|].
      simpl. apply bind_Ok. exists (vs', e). split; [|done]. apply IH; [lia|].
      split_and!; try lia; [simpl in Hl; lia|]. rewrite <- E2 in Hrest.
      by replace (e - o - zlen bs) with (e - (o + zlen bs)) in Hrest by lia.
Qed.

Lemma fields_reads kind type_of decode R fields index o object object' e :
  (∀ ty, reads bytes (decode ty) (R ty)) → 0 ≤ o ≤ zlen bytes →
  decode_fields kind type_of decode fields index o object = Ok (object', e) ↔
  o ≤ e ≤ zlen bytes ∧ fields_of type_of R fields index object object' (slice bytes o (e - o)).
Proof.
  intros HR. revert index o object. induction fields as [|field fields IH]; intros index o object Ho;
    simpl decode_fields.
  - split.
    + intros [= <- <-]. rewrite Z.sub_diag. split; [lia|]. constructor.
    + intros (He & Hf). inversion Hf as [|]; subst.
      match goal with Hs : [] = slice _ _ _ |- _ => symmetry in Hs; rename Hs into E end.
      apply slice_length in E; [|lia..]. do 2 f_equal. unfold zlen in E. simpl in E. lia.
  - rewrite bind_Ok. split.
    + intros (ty & Hty & E). apply bind_Ok in E as (d & Hd & E). apply context_Ok in Hd.
      destruct (reads_bounds _ _ _ _ (HR ty) Ho Hd) as (Hc & Hle & Hv).
      apply IH in E as (He & Hf); [|lia]. split; [lia|].
      replace (e - o) with (dv_consumed d + (e - (o + dv_consumed d))) by lia.
      rewrite slice_app by lia. by econstructor.
    + intros (He & Hf).
      inversion Hf as [|f0 fs0 i0 ob0 ob1 ty v bs rest Hty Hv Hrest]; subst.
      match goal with Hs : _ = slice _ _ _ |- _ => symmetry in Hs; rename Hs into Eslice end.
      apply slice_split in Eslice as (Hlen & E1 & E2); [|lia..].
      pose proof (zlen_nonneg bs). pose proof (zlen_nonneg rest).
      exists ty. split; [done|]. apply bind_Ok. exists (mkDecoded v (zlen bs)). split.
      { apply context_Ok, HR; [done|]. rewrite E1. split_and!; (done || lia). }
      apply IH; simpl; [lia|]. split; [lia|]. rewrite <- E2 in Hrest.
      by replace (e - o - zlen bs) with (e - (o + zlen bs)) in Hrest by lia.
Qed.
End sequences.

(** ** Types and shapes *)
Section types.
Context `{SerdeJson} `{HexCrate} `{LeeAccounts}.
Context (bytes : list Z) (Hbytes : is_bytes bytes) (Hsize : zlen bytes ≤ i64_max) (idl : Value).

Lemma array_reads decode R inner len first o v c :
  (∀ ty, reads bytes (decode ty) (R ty)) → 0 ≤ o → o ≤ first ≤ zlen bytes → 0 ≤ len →
  decode_borsh_array decode inner len first o = Ok (mkDecoded v c) ↔
  first - o ≤ c ∧ o + c ≤ zlen bytes
  ∧ ∃ vs, v = VArray vs ∧ zlen vs = len ∧ repeated (R inner) vs (slice bytes first (o + c - first)).
Proof.
  intros HR Ho Hf Hl. unfold decode_borsh_array. rewrite bind_Ok. split.
  - intros ([vs e] & E & [= <- <-]). simpl.
    apply (repeated_reads bytes _ _ _ _ _ _ (HR inner)) in E as (He & Hlen & Hr); [|lia].
    split_and!; try lia. exists vs. split_and!; [done|unfold zlen; lia|].
    by replace (o + (e - o) - first) with (e - first) by lia.
  - intros (Hc & Hle & vs & -> & Hlen & Hr). exists (vs, o + c). split; [|simpl; do 2 f_equal; lia].
    apply (repeated_reads bytes _ _ _ _ _ _ (HR inner)); [lia|].
    split_and!; try lia; [unfold zlen in Hlen; lia|done].
Qed.

Lemma fixed_array_none object :
  fixed_array_type (VObject object) = Ok None ↔ map_get "array" object = None.
Proof.
  unfold fixed_array_type, value_get. destruct (map_get "array" object) as [v|]; [|done].
  split; [|done]. destruct v as [| | | |[|? [|? [|]]]|]; try done; simpl;
    repeat case_match; simpl; try done; destruct (array_len _); done.
Qed.

(** The slice from [o] starts with a byte. *)
Lemma slice_cons o c x bs :
  0 ≤ o → 0 ≤ c → o + c ≤ zlen bytes →
  slice bytes o c = x :: bs ↔
  1 ≤ c ∧ slice bytes o 1 = [x] ∧ slice bytes (o + 1) (c - 1) = bs.
Proof.
  intros Ho Hc Hle. split.
  - intros E. apply (slice_split bytes o c [x] bs) in E as (Hlen & E1 & E2); [|done..].
    pose proof (zlen_nonneg bs). unfold zlen in *. simpl in *. split_and!; (done || lia).
  - intros (Hc1 & E1 & E2). replace c with (1 + (c - 1)) by lia.
    rewrite slice_app, E1, E2 by lia. done.
Qed.

Lemma option_reads decode R (inner : Value) o v c :
  (∀ ty, reads bytes (decode ty) (R ty)) → 0 ≤ o ≤ zlen bytes →
  (tag ← byte_at bytes o;
   if tag =? 0 then Ok (mkDecoded VNull 1)
   else if negb (tag =? 1) then bail ("invalid option tag " +:+ pretty tag)
   else decoded ← decode inner (o + 1); Ok (mkDecoded (dv_value decoded) (dv_consumed decoded + 1)))
  = Ok (mkDecoded v c) ↔
  0 ≤ c ∧ o + c ≤ zlen bytes
  ∧ ((v = VNull ∧ slice bytes o c = [0]) ∨ ∃ bs, R inner v bs ∧ slice bytes o c = 1 :: bs).
Proof.
  intros HR Ho. rewrite bind_Ok. split.
  - intros (tag & Ht & E). apply byte_at_iff in Ht as [Hle Es]; [|lia].
    destruct (Z.eqb_spec tag 0) as [->|]; [injection E as <- <-; split_and!; (lia || auto)|].
    destruct (Z.eqb_spec tag 1) as [->|]; simpl in E; [|done].
    apply bind_Ok in E as (d & Hd & [= <- <-]).
    assert (Ho' : 0 ≤ o + 1 ≤ zlen bytes) by lia.
    destruct (reads_bounds _ _ _ _ _ (HR inner) Ho' Hd) as (Hc & Hle' & Hv).
    split_and!; try lia. right. eexists. split; [done|]. apply slice_cons; try lia.
    split_and!; try (done || lia). f_equal; lia.
  - intros (Hc & Hle & [[-> E]|(bs & Hv & E)]).
    + apply slice_length in E as Ec; [|lia..]. unfold zlen in Ec. simpl in Ec. subst c.
      exists 0. split; [apply byte_at_iff; [lia|done]|done].
    + apply slice_cons in E as (Hc1 & E1 & E2); try lia. exists 1.
      split; [apply byte_at_iff; [lia|split; [lia|done]]|]. simpl.
      apply bind_Ok. exists (mkDecoded v (c - 1)). split; [|simpl; do 2 f_equal; lia].
      apply HR; [lia|]. rewrite E2. split_and!; (done || lia).
Qed.

Lemma vec_reads decode R (inner : Value) o v c :
  (∀ ty, reads bytes (decode ty) (R ty)) → 0 ≤ o ≤ zlen bytes →
  (len ← read_le_unsigned bytes o 4;
   if MAX_DECODED_ITEMS <? len then bail ("vector length too large: " +:+ pretty len)
   else decode_borsh_array decode inner len (o + 4) o) = Ok (mkDecoded v c) ↔
  0 ≤ c ∧ o + c ≤ zlen bytes
  ∧ ∃ vs bs, v = VArray vs ∧ zlen vs ≤ MAX_DECODED_ITEMS ∧ repeated (R inner) vs bs
      ∧ slice bytes o c = le_digits 8 4 (zlen vs) ++ bs.
Proof using Hbytes Hsize.
  intros HR Ho. rewrite bind_Ok. split.
  - intros (len & Hl & E).
    apply (read_le_unsigned_iff bytes Hbytes Hsize o 4) in Hl as (Hle & Hn & El); [|done|lia].
    destruct (Z.ltb_spec MAX_DECODED_ITEMS len); [done|]. change (Z.of_nat 4) with 4 in *.
    apply (array_reads _ R) in E as (Hc & Hle' & vs & -> & <- & Hr); try (done || lia).
    split_and!; try lia. exists vs, (slice bytes (o + 4) (o + c - (o + 4))).
    split_and!; try done. replace c with (4 + (o + c - (o + 4))) at 1 by lia.
    by rewrite slice_app, El by lia.
  - intros (Hc & Hle & vs & bs & -> & Hv & Hr & E).
    apply slice_split in E as (Hlen & E1 & E2); [|lia..]. rewrite zlen_le_digits in *.
    pose proof (zlen_nonneg vs). pose proof (zlen_nonneg bs). exists (zlen vs). split.
    { apply (read_le_unsigned_iff bytes Hbytes Hsize o 4); [done|lia|]. unfold MAX_DECODED_ITEMS in *.
      split_and!; [lia|lia|change (2 ^ (8 * Z.of_nat 4)) with 4294967296; lia|done]. }
    destruct (Z.ltb_spec MAX_DECODED_ITEMS (zlen vs)); [lia|]. change (Z.of_nat 4) with 4 in *.
    apply (array_reads _ R); try (done || lia). split_and!; try lia. exists vs.
    split_and!; try done. rewrite <- E2 in Hr. by replace (o + c - (o + 4)) with (c - 4) by lia.
Qed.

Ltac read_iff := split; intros (Hc & Hle & Hb); split_and!; try done.

Lemma type_body_reads decode decode_shape R RS ty :
  (∀ ty, reads bytes (decode ty) (R ty)) → (∀ shape, reads bytes (decode_shape shape) (RS shape)) →
  reads bytes (λ o, decode_type_body decode decode_shape ty bytes o idl) (borsh_type R RS idl ty).
Proof using Hbytes Hsize.
  intros HR HRS o v c Ho. unfold decode_type_body.
  destruct ty as [|b|n|name|items|object]; simpl as_str; cbv iota;
    try (split; [done|]; intros (_ & _ & Hb); inversion Hb; fail).
  { rewrite (primitive_reads bytes Hbytes Hsize name o v c Ho).
    read_iff; [by constructor|by inversion Hb]. }
  simpl as_object. simpl ok_or. rewrite Ok_bind.
  destruct (map_get "option" object) as [inner|] eqn:Eo.
  { etransitivity; [by apply (option_reads decode R)|]. read_iff.
    - destruct Hb as [[-> ->]|(bs & Hv & ->)]; [by econstructor|by econstructor].
    - inversion Hb; simplify_eq; eauto. }
  destruct (map_get "vec" object) as [inner|] eqn:Ev.
  { etransitivity; [by apply (vec_reads decode R)|]. read_iff.
    - destruct Hb as (vs & bs & -> & Hv & Hr & ->). by apply TVec with inner.
    - inversion Hb; simplify_eq; eauto 10. }
  destruct (fixed_array_type (VObject object)) as [[[inner len]|]|] eqn:Ea.
  - apply fixed_array_type_spec in Ea as Hlen. rewrite Ok_bind.
    etransitivity; [apply (array_reads _ R); (done || lia)|].
    rewrite Z.sub_diag. replace (o + c - o) with c by lia. read_iff.
    + destruct Hb as (vs & -> & <- & Hr). by apply TArray with inner.
    + inversion Hb; simplify_eq;
        try match goal with Hn : map_get "array" _ = None |- _ =>
              apply fixed_array_none in Hn; congruence end.
      match goal with Hn : fixed_array_type _ = _ |- _ => rewrite Ea in Hn; simplify_eq end. eauto.
  - apply fixed_array_none in Ea as Ea'. rewrite Ok_bind.
    destruct (map_get "defined" object ≫= as_str) as [name|] eqn:Ed.
    + assert (map_get "defined" object = Some (VString name)).
      { destruct (map_get "defined" object) as [[]|]; simplify_eq/=; done. }
      rewrite bind_Ok. setoid_rewrite ok_or_Ok. split.
      * intros (shape & Hs & E). apply HRS in E as (Hc & Hle & Hb); [|done].
        split_and!; try done. by apply TDefined with name shape.
      * intros (Hc & Hle & Hb). inversion Hb; simplify_eq/=; try congruence.
        eexists. split; [done|]. by apply HRS.
    + destruct (map_contains_key "kind" object) eqn:Ek.
      * rewrite (HRS (VObject object) o v c Ho). read_iff; [by constructor|].
        inversion Hb; simplify_eq/=; try done; try congruence.
        match goal with Hd : map_get "defined" _ = Some _ |- _ => by rewrite Hd in Ed end.
      * split; [done|]. intros (_ & _ & Hb). inversion Hb; simplify_eq/=; try congruence.
        match goal with Hd : map_get "defined" _ = Some _ |- _ => by rewrite Hd in Ed end.
  - split; [done|]. intros (_ & _ & Hb). inversion Hb; simplify_eq/=; try congruence;
      match goal with Hn : map_get "array" _ = None |- _ =>
        apply fixed_array_none in Hn; congruence end.
Qed.

Lemma as_array_Some o items : o ≫= as_array = Some items ↔ o = Some (VArray items).
Proof. destruct o as [[]|]; simpl; naive_solver. Qed.
Lemma as_str_Some o text : o ≫= as_str = Some text ↔ o = Some (VString text).
Proof. destruct o as [[]|]; simpl; naive_solver. Qed.

Lemma struct_reads decode R shape o v c :
  (∀ ty, reads bytes (decode ty) (R ty)) → 0 ≤ o ≤ zlen bytes →
  decode_borsh_struct decode shape o = Ok (mkDecoded v c) ↔
  0 ≤ c ∧ o + c ≤ zlen bytes
  ∧ ∃ fields object, v = VObject object ∧ value_get "fields" shape = Some (VArray fields)
      ∧ fields_of struct_field_type R fields 0 [] object (slice bytes o c).
Proof.
  intros HR Ho. unfold decode_borsh_struct. rewrite bind_Ok. split.
  - intros (fields & Hf & E). apply ok_or_Ok, as_array_Some in Hf.
    apply bind_Ok in E as ([object e] & E & [= <- <-]).
    apply (fields_reads bytes _ _ _ R) in E as [He Hr]; [|done..]. simpl.
    split_and!; try lia. eauto.
  - intros (Hc & Hle & fields & object & -> & Hf & Hr). exists fields.
    split; [by apply ok_or_Ok, as_array_Some|]. apply bind_Ok. exists (object, o + c).
    split; [|simpl; do 2 f_equal; lia]. apply (fields_reads bytes _ _ _ R); [done..|].
    split; [lia|]. by replace (o + c - o) with c by lia.
Qed.

Lemma enum_reads decode R shape o v c :
  (∀ ty, reads bytes (decode ty) (R ty)) → 0 ≤ o ≤ zlen bytes →
  decode_borsh_enum decode shape bytes o = Ok (mkDecoded v c) ↔
  0 ≤ c ∧ o + c ≤ zlen bytes
  ∧ ∃ variants index variant object bs,
      v = json_object [
            ("variant", VString (default "unknown" (value_get "name" variant ≫= as_str)));
            ("variant_index", json_u64 index);
            ("fields", VObject object)]
      ∧ value_get "variants" shape = Some (VArray variants) ∧ 0 ≤ index < 256
      ∧ variants !! Z.to_nat index = Some variant
      ∧ fields_of variant_field_type R (array_items (value_get "fields" variant)) 0 [] object bs
      ∧ slice bytes o c = index :: bs.
Proof using Hbytes.
  intros HR Ho. unfold decode_borsh_enum. rewrite bind_Ok. split.
  - intros (index & Hi & E). apply byte_at_iff in Hi as [Hle Ei]; [|lia].
    pose proof (slice_wf 8 bytes o 1 Hbytes) as Hw. rewrite Ei in Hw. apply Forall_inv in Hw.
    unfold digit in Hw. change (2 ^ 8) with 256 in Hw.
    apply bind_Ok in E as (variants & Hv & E). apply ok_or_Ok, as_array_Some in Hv.
    apply bind_Ok in E as (variant & Hvar & E). apply ok_or_Ok in Hvar.
    apply bind_Ok in E as ([object e] & E & Er). simpl in Er. injection Er as <- <-.
    apply (fields_reads bytes _ _ _ R) in E as [He Hr]; [|done|lia]. split_and!; try lia.
    exists variants, index, variant, object, (slice bytes (o + 1) (e - (o + 1))).
    split_and!; try (done || lia). apply slice_cons; try lia. split_and!; try (done || lia). f_equal; lia.
  - intros (Hc & Hle & variants & index & variant & object & bs & -> & Hv & Hi & Hvar & Hr & E).
    apply slice_cons in E as (Hc1 & E1 & E2); try lia. exists index.
    split; [apply byte_at_iff; [lia|split; [lia|done]]|].
    apply bind_Ok. exists variants. split; [by apply ok_or_Ok, as_array_Some|].
    apply bind_Ok. exists variant. split; [by apply ok_or_Ok|].
    apply bind_Ok. exists (object, o + c). split; [|simpl; do 2 f_equal; lia].
    apply (fields_reads bytes _ _ _ R); [done|lia|]. split; [lia|]. rewrite <- E2 in Hr.
    by replace (o + c - (o + 1)) with (c - 1) by lia.
Qed.

Lemma shape_body_reads decode R shape :
  (∀ ty, reads bytes (decode ty) (R ty)) →
  reads bytes (λ o, decode_shape_body decode shape bytes o) (borsh_shape R shape).
Proof using Hbytes.
  intros HR o v c Ho. unfold decode_shape_body.
  destruct (value_get "kind" shape ≫= as_str) as [kind|] eqn:Ek.
  - apply as_str_Some in Ek. destruct (String.eqb_spec kind "struct") as [->|]; [|destruct (String.eqb_spec kind "enum") as [->|]].
    + etransitivity; [by apply (struct_reads decode R)|]. read_iff.
      * destruct Hb as (fields & object & -> & Hf & Hr). by apply SStruct with fields.
      * inversion Hb; simplify_eq; eauto 10.
    + etransitivity; [by apply (enum_reads decode R)|]. read_iff.
      * destruct Hb as (variants & index & variant & object & bs & -> & Hv & Hi & Hvar & Hr & ->).
        by apply SEnum with variants.
      * inversion Hb; simplify_eq. naive_solver.
    + split; [done|]. intros (_ & _ & Hb). inversion Hb; simplify_eq/=; done.
  - split; [done|]. intros (_ & _ & Hb).
    inversion Hb; match goal with Hk : value_get "kind" _ = _ |- _ => by rewrite Hk in Ek end.
Qed.

Lemma budget_reads n :
  (∀ ty, reads bytes (decode_type_at n bytes idl ty) (type_format n idl ty))
  ∧ (∀ shape, reads bytes (decode_shape_at n bytes idl shape) (shape_format n idl shape)).
Proof using Hbytes Hsize.
  induction n as [|n [IHt IHs]]; (split; [intros ty|intros shape]).
  - intros o v c Ho. simpl. split; [done|by intros (_ & _ & [])].
  - intros o v c Ho. simpl. split; [done|by intros (_ & _ & [])].
  - by apply type_body_reads.
  - by apply shape_body_reads.
Qed.
End types.

(** ** The decoder's theorems *)
Section decoder_theorems.
Context `{SerdeJson} `{HexCrate} `{LeeAccounts}.

(** The depth guard: the decoders obey the recursion of the code, where each
    call goes one deeper and a depth above 32 fails. *)
Lemma depth_budget_eq depth :
  depth_budget depth = if MAX_DEPTH <? depth then O else S (depth_budget (depth + 1)).
Proof.
  unfold depth_budget, MAX_DEPTH. destruct (Z.ltb_spec 32 depth); lia.
Qed.

Lemma decode_borsh_type_eq ty bytes o idl depth :
  decode_borsh_type ty bytes o idl depth =
  if MAX_DEPTH <? depth then bail "IDL nesting too deep"
  else decode_type_body (λ ty o, decode_borsh_type ty bytes o idl (depth + 1))
         (λ shape o, decode_borsh_shape shape bytes o idl (depth + 1)) ty bytes o idl.
Proof. unfold decode_borsh_type. rewrite depth_budget_eq. by destruct (MAX_DEPTH <? depth). Qed.

Lemma decode_borsh_shape_eq shape bytes o idl depth :
  decode_borsh_shape shape bytes o idl depth =
  if MAX_DEPTH <? depth then bail "IDL nesting too deep"
  else decode_shape_body (λ ty o, decode_borsh_type ty bytes o idl (depth + 1)) shape bytes o.
Proof. unfold decode_borsh_shape. rewrite depth_budget_eq. by destruct (MAX_DEPTH <? depth). Qed.

(** C3. The Borsh decoder implements the format: it succeeds from a cursor
    exactly when the bytes there start with an encoding of a value of the type
    (or of the shape), nested no deeper than the limit, and then returns that
    value and consumes exactly the encoding, which lies within the data. *)
Theorem borsh_decoder_refines_format bytes o idl depth v c :
  is_bytes bytes → zlen bytes ≤ i64_max → 0 ≤ o ≤ zlen bytes →
  (∀ ty, decode_borsh_type ty bytes o idl depth = Ok (mkDecoded v c) ↔
     0 ≤ c ∧ o + c ≤ zlen bytes ∧ type_format (depth_budget depth) idl ty v (slice bytes o c))
  ∧ (∀ shape, decode_borsh_shape shape bytes o idl depth = Ok (mkDecoded v c) ↔
     0 ≤ c ∧ o + c ≤ zlen bytes ∧ shape_format (depth_budget depth) idl shape v (slice bytes o c)).
Proof.
  intros Hb Hs Ho. destruct (budget_reads bytes Hb Hs idl (depth_budget depth)) as [Ht Hsh].
  split; intros; [by apply Ht|by apply Hsh].
Qed.

Lemma slice_mid pre bs post : slice (pre ++ bs ++ post) (zlen pre) (zlen bs) = bs.
Proof. unfold slice, zlen. by rewrite !Nat2Z.id, drop_app_length, take_app_length. Qed.

(** Decoding an encoding inside any data. *)
Lemma decode_type_embedded n idl ty v pre bs post :
  is_bytes (pre ++ bs ++ post) → zlen (pre ++ bs ++ post) ≤ i64_max → type_format n idl ty v bs →
  decode_type_at n (pre ++ bs ++ post) idl ty (zlen pre) = Ok (mkDecoded v (zlen bs)).
Proof.
  intros Hb Hs Hf. pose proof (zlen_nonneg pre). pose proof (zlen_nonneg bs). pose proof (zlen_nonneg post).
  pose proof (zlen_app pre (bs ++ post)). pose proof (zlen_app bs post).
  apply (budget_reads _ Hb Hs idl n); [lia|]. rewrite slice_mid. split_and!; (done || lia).
Qed.

(** The format is self-delimiting and the decoder local: data that starts
    with encodings of two values of one type holds one encoding of one value.
    What is decoded depends neither on where the encoding sits nor on what
    surrounds it. *)
Theorem borsh_encoding_unambiguous idl ty depth v v' pre bs post pre' bs' post' :
  is_bytes (pre ++ bs ++ post) → zlen (pre ++ bs ++ post) ≤ i64_max →
  is_bytes (pre' ++ bs ++ post') → zlen (pre' ++ bs ++ post') ≤ i64_max →
  type_format (depth_budget depth) idl ty v bs →
  decode_borsh_type ty (pre ++ bs ++ post) (zlen pre) idl depth
    = decode_borsh_type ty (pre' ++ bs ++ post') (zlen pre') idl depth
  ∧ (∀ rest, type_format (depth_budget depth) idl ty v' bs' → bs ++ post = bs' ++ rest → v = v' ∧ bs = bs').
Proof.
  intros Hb Hs Hb' Hs' Hf. unfold decode_borsh_type.
  assert (Hd := decode_type_embedded _ _ _ _ _ _ _ Hb Hs Hf).
  split; [by rewrite Hd, (decode_type_embedded _ _ _ _ _ _ _ Hb' Hs' Hf)|].
  intros rest Hf' E. rewrite E in Hb, Hs, Hd.
  rewrite (decode_type_embedded _ _ _ _ _ _ _ Hb Hs Hf') in Hd. injection Hd as -> Hlen.
  split; [done|]. apply app_inj_1 in E; [by destruct E|]. unfold zlen in Hlen. lia.
Qed.
End decoder_theorems.
