(* ===== verification/EntityIds.v ===== *)
(** * Entity identifiers

    support/entity_id.rs: the canonical texts of block, program and account
    ids.  A private account id is refused where a public one is required. *)

From S2P Require Import Prelude Bytes.

Definition normalize_block_id_text (value : string) : Result string :=
  let value := trim value in
  if is_empty value then bail "block id is required"
  else
    let hex := default value (strip_any ["0x"; "0X"] value) in
    if negb (str_len hex =? 64) || negb (all_hexdigits hex)
    then bail "block ID must be 64 hexadecimal characters (optional 0x prefix)"
    else Ok (to_ascii_lowercase hex).

Definition normalized_public_account_id (value : string) : Result string :=
  let value := trim value in
  match strip_any ["Private/"; "private/"] value with
  | Some private =>
      bail "private account state is local wallet state; public RPC cannot fetch `Private/` accounts"
  | None => Ok (trim (default value (strip_any ["Public/"; "public/"] value)))
  end.

Section accounts.
Context `{HexCrate} `{LeeAccounts}.

Definition parse_account_id_hex (value : string) : Result (option AccountId) :=
  let hex := default value (strip_any ["0x"; "0X"] value) in
  let explicit_hex := negb (str_len hex =? str_len value) in
  if negb (str_len hex =? 64) || negb (all_hexdigits hex) then
    if explicit_hex then bail ("invalid account id `" +:+ value +:+ "`") else Ok None
  else
    bytes ← ok_or "invalid account id hex" (hex_decode hex);
    Ok (Some bytes).

Definition parse_account_id (value : string) : Result AccountId :=
  value ← normalized_public_account_id value;
  account_id ← parse_account_id_hex value;
  match account_id with
  | Some account_id => Ok account_id
  | None => ok_or ("invalid account id `" +:+ value +:+ "`") (account_parse value)
  end.

Definition normalize_program_id_hex (value : string) : Result string :=
  let text := trim value in
  match strip_any ["0x"; "0X"] text with
  | Some hex =>
      bytes ← ok_or "invalid program id hex" (hex_decode hex);
      if negb (zlen bytes =? 32) then bail "program id hex must be 32 bytes"
      else Ok (hex_encode bytes)
  | None =>
      if (str_len text =? 64) && all_hexdigits text then
        bytes ← ok_or "invalid program id hex" (hex_decode text);
        Ok (hex_encode bytes)
      else
        account_id ← parse_account_id text;
        Ok (hex_encode account_id)
  end.

Definition normalize_account_id_text (value : string) : option string :=
  match parse_account_id value with
  | Ok account_id => Some (account_to_string account_id)
  | Err _ => None
  end.
End accounts.

(** ** Lemmas *)
Lemma strip_any_none ps s : Forall (λ p, strip_prefix p s = None) ps → strip_any ps s = None.
Proof. unfold strip_any. induction 1 as [|p ps Hp _ IH]; simpl; [done|]. by rewrite Hp. Qed.

(** A prefix with a character that the text does not have. *)
Lemma strip_prefix_foreign f p s :
  forallb f (String.list_ascii_of_string s) = true →
  forallb f (String.list_ascii_of_string p) = false → strip_prefix p s = None.
Proof.
  revert s. induction p as [|a p IH]; intros [|b s]; simpl; try done.
  rewrite andb_true_iff. intros [Hb Hs] Hp. destruct (Ascii.eqb_spec a b) as [->|]; [|done].
  rewrite Hb in Hp. auto.
Qed.

Lemma strip_any_foreign f ps s :
  forallb f (String.list_ascii_of_string s) = true →
  Forall (λ p, forallb f (String.list_ascii_of_string p) = false) ps → strip_any ps s = None.
Proof.
  intros Hs Hps. apply strip_any_none. eapply Forall_impl; [exact Hps|].
  intros p Hp. by apply (strip_prefix_foreign f).
Qed.

Lemma hex_no_prefix s : all_hexdigits s = true → strip_any ["0x"; "0X"] s = None.
Proof. intros Hs. apply (strip_any_foreign is_ascii_hexdigit); [done|]. repeat constructor. Qed.

Lemma length_lower s : str_len (to_ascii_lowercase s) = str_len s.
Proof.
  unfold str_len, to_ascii_lowercase. f_equal.
  induction s as [|a s IH]; simpl; [done|]. by rewrite IH.
Qed.

Lemma lower_hexdigits s : all_hexdigits s = true → all_hexdigits (to_ascii_lowercase s) = true.
Proof.
  unfold all_hexdigits, to_ascii_lowercase. rewrite String.list_ascii_of_string_of_list_ascii.
  induction (String.list_ascii_of_string s) as [|a l IH]; simpl; [done|].
  rewrite !andb_true_iff. intros [Ha Hl]. auto using hexdigit_lower.
Qed.

Lemma lower_idemp s : to_ascii_lowercase (to_ascii_lowercase s) = to_ascii_lowercase s.
Proof.
  unfold to_ascii_lowercase. rewrite String.list_ascii_of_string_of_list_ascii, map_map. f_equal.
  apply map_ext. apply ascii_lower_idemp.
Qed.

Lemma trim_hex s : all_hexdigits s = true → trim s = s.
Proof. intros. apply trim_plain. eapply forallb_plain; [apply hexdigit_plain|done]. Qed.

Lemma strip_prefix_suffix p s t : strip_prefix p s = Some t → s = p +:+ t.
Proof.
  revert s. induction p as [|a p IH]; intros s; simpl strip_prefix; [by intros [= ->]|].
  destruct s as [|b s]; [done|]. destruct (Ascii.eqb_spec a b) as [->|]; [|done].
  intros E. by rewrite (IH s E).
Qed.

Lemma strip_any_Some ps s t : strip_any ps s = Some t → ∃ p, p ∈ ps ∧ s = p +:+ t.
Proof.
  unfold strip_any. induction ps as [|p ps IH]; simpl; [done|].
  destruct (strip_prefix p s) eqn:E.
  - intros [= ->]. apply strip_prefix_suffix in E. exists p. split; [set_solver|done].
  - intros (q & Hq & ->)%IH. exists q. split; [set_solver|done].
Qed.

(** ** Block ids *)
Lemma normalize_block_id_spec value id :
  normalize_block_id_text value = Ok id ↔
  ∃ hex, str_len hex = 64 ∧ all_hexdigits hex = true ∧ id = to_ascii_lowercase hex
    ∧ (trim value = hex ∨ trim value = "0x" +:+ hex ∨ trim value = "0X" +:+ hex).
Proof.
  unfold normalize_block_id_text. split.
  - destruct (is_empty (trim value)); [done|].
    destruct (Z.eqb_spec (str_len (default (trim value) (strip_any ["0x"; "0X"] (trim value)))) 64)
      as [Hl|]; simpl; [|done].
    destruct (all_hexdigits _) eqn:Hh; simpl; [|done]. intros [= <-]. eexists. split_and!; try done.
    destruct (strip_any ["0x"; "0X"] (trim value)) as [t|] eqn:E; [|by left].
    apply strip_any_Some in E as (q & Hq & ->). right. set_solver.
  - intros (hex & Hl & Hh & -> & Ht).
    assert (Hne : is_empty (trim value) = false).
    { destruct Ht as [->|[-> | ->]]; try done. destruct hex; [by unfold str_len in Hl|done]. }
    assert (Hs : default (trim value) (strip_any ["0x"; "0X"] (trim value)) = hex).
    { destruct Ht as [->|[-> | ->]]; [by rewrite hex_no_prefix|done|done]. }
    by rewrite Hne, Hs, Hl, Hh.
Qed.

(** Block ids have one canonical text: a normalized id is 64 lowercase
    hexadecimal digits and normalizes to itself, and exactly the texts that are
    those digits in either case, with an optional prefix and surrounding white
    space, normalize to it. *)
Theorem block_id_canonical value id :
  normalize_block_id_text value = Ok id →
  normalize_block_id_text id = Ok id
  ∧ str_len id = 64 ∧ all_hexdigits id = true ∧ to_ascii_lowercase id = id
  ∧ ∀ value', normalize_block_id_text value' = Ok id ↔
      ∃ hex, to_ascii_lowercase hex = id ∧ all_hexdigits hex = true
        ∧ trim value' ∈ [hex; "0x" +:+ hex; "0X" +:+ hex].
Proof.
  intros (hex & Hl & Hh & -> & _)%normalize_block_id_spec.
  split; [apply normalize_block_id_spec; exists (to_ascii_lowercase hex)|].
  { rewrite length_lower, lower_idemp. split_and!; try done; [by apply lower_hexdigits|].
    left. by apply trim_hex, lower_hexdigits. }
  split_and!; [by rewrite length_lower|by apply lower_hexdigits|apply lower_idemp|].
  intros value'. rewrite normalize_block_id_spec. split.
  - intros (hex' & Hl' & Hh' & E & Ht). exists hex'. rewrite E. split_and!; try done. set_solver.
  - intros (hex' & E & Hh' & Ht). exists hex'. split_and!; try done.
    + by rewrite <- length_lower, E, length_lower.
    + set_solver.
Qed.

(** ** Account and program ids *)
Section account_laws.
Context `{HexLaws} `{LeeAccountLaws}.
#[local] Set Default Proof Using "All".

Lemma base58_no_prefix ps a :
  account_wf a → Forall (λ p, forallb is_base58 (String.list_ascii_of_string p) = false) ps →
  strip_any ps (account_to_string a) = None.
Proof. intros Ha. by apply strip_any_foreign, account_text_base58. Qed.

Lemma trim_account a : account_wf a → trim (account_to_string a) = account_to_string a.
Proof.
  intros Ha. apply trim_plain. eapply forallb_plain; [apply base58_plain|]. by apply account_text_base58.
Qed.

Lemma hex_decode_32 hex :
  str_len hex = 64 → all_hexdigits hex = true →
  ∃ bytes, hex_decode hex = Some bytes ∧ account_wf bytes ∧ hex_encode bytes = to_ascii_lowercase hex.
Proof.
  intros Hl Hh. destruct (hex_decode_total hex Hh) as [bytes E]; [by rewrite Hl|].
  exists bytes. split_and!; [done| |by apply hex_encode_decode].
  split; [by eapply hex_decode_bytes|]. apply hex_decode_length in E. unfold zlen in E. lia.
Qed.

Lemma hex_encode_lower bs : is_bytes bs → to_ascii_lowercase (hex_encode bs) = hex_encode bs.
Proof. intros Hb. symmetry. by apply hex_encode_decode, hex_decode_encode. Qed.

Lemma parse_account_id_hex_wf value a : parse_account_id_hex value = Ok (Some a) → account_wf a.
Proof.
  unfold parse_account_id_hex. set (hex := default _ _).
  destruct (Z.eqb_spec (str_len hex) 64) as [Hl|]; simpl; [|by case_match].
  destruct (all_hexdigits hex) eqn:Hh; simpl; [|by case_match].
  destruct (hex_decode_32 hex Hl Hh) as (bytes & -> & Ha & _). simpl. by intros [= <-].
Qed.

Lemma parse_account_id_wf value a : parse_account_id value = Ok a → account_wf a.
Proof.
  unfold parse_account_id. intros (v & _ & E)%bind_Ok. apply bind_Ok in E as ([a'|] & Hh & E).
  - injection E as <-. by apply parse_account_id_hex_wf in Hh.
  - apply ok_or_Ok in E. by eapply account_parse_wf.
Qed.

Lemma normalized_plain value :
  strip_any ["Private/"; "private/"] value = None → strip_any ["Public/"; "public/"] value = None →
  trim value = value → normalized_public_account_id value = Ok value.
Proof. unfold normalized_public_account_id. 
  intros Hpriv Hpub Ht. rewrite Ht, Hpriv, Hpub. simpl. by rewrite Ht.
 Qed.

(** What is left of [parse_account_id] once the text is normalized. *)
Definition parse_normalized (value : string) : Result AccountId :=
  account_id ← parse_account_id_hex value;
  match account_id with
  | Some account_id => Ok account_id
  | None => ok_or ("invalid account id `" +:+ value +:+ "`") (account_parse value)
  end.

Lemma parse_account_id_eq value value' :
  normalized_public_account_id value = Ok value' → parse_account_id value = parse_normalized value'.
Proof. unfold parse_account_id. by intros ->. Qed.

Lemma parse_normalized_text a : account_wf a → parse_normalized (account_to_string a) = Ok a.
Proof.
  intros Ha. unfold parse_normalized, parse_account_id_hex.
  rewrite base58_no_prefix by first [done | repeat constructor]. simpl default.
  pose proof (account_text_length a Ha). rewrite (proj2 (Z.eqb_neq _ 64)), Z.eqb_refl by lia. simpl.
  by rewrite account_parse_to_string.
Qed.

Lemma parse_normalized_hex value a :
  account_wf a → default value (strip_any ["0x"; "0X"] value) = hex_encode a →
  parse_normalized value = Ok a.
Proof.
  intros [Hb Hl] E. unfold parse_normalized, parse_account_id_hex. rewrite E.
  rewrite hex_encode_length, hex_encode_digits, hex_decode_encode by done.
  unfold zlen. rewrite Hl. done.
Qed.

Lemma hex_text_plain a : is_bytes a → all_plain (hex_encode a).
Proof. intros Ha. eapply forallb_plain; [apply hexdigit_plain|]. by apply hex_encode_digits. Qed.
Lemma account_text_plain a : account_wf a → all_plain (account_to_string a).
Proof. intros Ha. eapply forallb_plain; [apply base58_plain|]. by apply account_text_base58. Qed.

Lemma hex_not_account_prefix a ps :
  is_bytes a → Forall (λ p, forallb is_ascii_hexdigit (String.list_ascii_of_string p) = false) ps →
  strip_any ps (hex_encode a) = None.
Proof. intros Ha. by apply strip_any_foreign, hex_encode_digits. Qed.

(** Account ids round trip: the text of an account parses back to it, bare
    or with the public prefix; its 64 hexadecimal digits do too; and an account
    id that parses normalizes to a text that parses to the same account. *)
Theorem account_id_roundtrip a :
  account_wf a →
  parse_account_id (account_to_string a) = Ok a
  ∧ parse_account_id ("Public/" +:+ account_to_string a) = Ok a
  ∧ parse_account_id (hex_encode a) = Ok a
  ∧ parse_account_id ("0x" +:+ hex_encode a) = Ok a
  ∧ ∀ value, parse_account_id value = Ok a →
      normalize_account_id_text value = Some (account_to_string a)
      ∧ normalize_account_id_text (account_to_string a) = Some (account_to_string a).
Proof.
  intros Ha. pose proof Ha as [Hb Hl].
  assert (Hbare : parse_account_id (account_to_string a) = Ok a).
  { rewrite (parse_account_id_eq _ (account_to_string a)); [by apply parse_normalized_text|].
    apply normalized_plain; [| |by apply trim_account]; (apply base58_no_prefix; [done|repeat constructor]). }
  split_and!; [done| | | |].
  - rewrite (parse_account_id_eq _ (account_to_string a)); [by apply parse_normalized_text|].
    unfold normalized_public_account_id.
    rewrite trim_plain by (apply plain_append; [repeat constructor|by apply account_text_plain]).
    change (strip_any ["Private/"; "private/"] ("Public/" +:+ account_to_string a)) with (@None string).
    change (strip_any ["Public/"; "public/"] ("Public/" +:+ account_to_string a))
      with (Some (account_to_string a)).
    transitivity (Ok (trim (account_to_string a))); [done|by rewrite trim_account].
  - rewrite (parse_account_id_eq _ (hex_encode a)).
    + apply parse_normalized_hex; [done|]. by rewrite hex_no_prefix by (by apply hex_encode_digits).
    + apply normalized_plain; [| |by apply trim_hex, hex_encode_digits];
        (apply hex_not_account_prefix; [done|repeat constructor]).
  - rewrite (parse_account_id_eq _ ("0x" +:+ hex_encode a)); [by apply parse_normalized_hex|].
    apply normalized_plain; [done..|].
    apply trim_plain, plain_append; [repeat constructor|by apply hex_text_plain].
  - intros value E. unfold normalize_account_id_text. by rewrite E, Hbare.
Qed.

Lemma program_id_hex_of_bytes a :
  account_wf a → normalize_program_id_hex (hex_encode a) = Ok (hex_encode a).
Proof.
  intros [Hb Hl]. unfold normalize_program_id_hex.
  rewrite trim_hex, hex_no_prefix by (by apply hex_encode_digits).
  rewrite hex_encode_length, hex_encode_digits by done. unfold zlen. rewrite Hl. simpl.
  by rewrite hex_decode_encode.
Qed.

(** Every program id that normalizes is the encoding of 32 bytes. *)
Lemma normalize_program_id_spec value id :
  normalize_program_id_hex value = Ok id → ∃ bytes, account_wf bytes ∧ id = hex_encode bytes.
Proof.
  unfold normalize_program_id_hex. destruct (strip_any _ _) as [hex|].
  - intros (bytes & Hd%ok_or_Ok & E)%bind_Ok. apply hex_decode_bytes in Hd.
    destruct (Z.eqb_spec (zlen bytes) 32) as [Hl|]; [|done]. injection E as <-.
    exists bytes. split; [|done]. split; [done|]. unfold zlen in Hl. lia.
  - destruct (Z.eqb_spec (str_len (trim value)) 64) as [Hl|]; simpl;
      [destruct (all_hexdigits (trim value)) eqn:Hh|].
    + destruct (hex_decode_32 _ Hl Hh) as (bytes & -> & Ha & _). intros [= <-]. eauto.
    + intros (a & Ha & [= <-])%bind_Ok. apply parse_account_id_wf in Ha. eauto.
    + intros (a & Ha & [= <-])%bind_Ok. apply parse_account_id_wf in Ha. eauto.
Qed.
End account_laws.
