(* ===== verification/TextLemmas.v ===== *)
(** * Trimmed text

    What the requests rely on of [str::trim]: it is idempotent, and a text with
    a character that is not white space is not trimmed to nothing. *)

From S2P Require Import Prelude Bytes EntityIds OperationSpec.

Abbreviation bytes_of := String.list_ascii_of_string.

Lemma str_app_cons x (a b : string) : String x a +:+ b = String x (a +:+ b).
Proof. done. Qed.

Lemma str_app_assoc (a b c : string) : (a +:+ b) +:+ c = a +:+ (b +:+ c).
Proof. induction a as [|x a IH]; [done|]. by rewrite !str_app_cons, IH. Qed.

Lemma bytes_of_app a b : bytes_of (a +:+ b) = bytes_of a ++ bytes_of b.
Proof. induction a as [|c a IH]; [done|]. rewrite str_app_cons. simpl. by f_equal. Qed.

Lemma bytes_of_inj a b : bytes_of a = bytes_of b → a = b.
Proof.
  intros E. rewrite <- (String.string_of_list_ascii_of_string a), E.
  apply String.string_of_list_ascii_of_string.
Qed.

Lemma str_rev_app a b : str_rev (a +:+ b) = str_rev b +:+ str_rev a.
Proof. apply bytes_of_inj. by rewrite bytes_of_app, !list_of_str_rev, bytes_of_app, reverse_app. Qed.

Lemma length_bytes_of s : length (bytes_of s) = String.length s.
Proof. induction s as [|c s IH]; [done|]. simpl. by rewrite IH. Qed.

Lemma strip_prefix_app p s : strip_prefix p (p +:+ s) = Some s.
Proof. induction p as [|a p IH]; [done|]. rewrite str_app_cons. simpl. by rewrite Ascii.eqb_refl. Qed.

Lemma strip_any_app ps p s : p ∈ ps → strip_any ps (p +:+ s) ≠ None.
Proof.
  unfold strip_any. induction ps as [|q ps IH]; simpl; [set_solver|]. intros [->|Hp]%elem_of_cons.
  - by rewrite strip_prefix_app.
  - destruct (strip_prefix q (p +:+ s)); [done|]. by apply IH.
Qed.

(** ** Stripping from one end *)
Definition patterns_ok (ps : list string) : Prop := Forall (λ p, p ≠ EmptyString) ps.

Lemma strip_all_stuck ps n s :
  patterns_ok ps → (String.length s ≤ n)%nat → strip_any ps (strip_all n ps s) = None.
Proof.
  intros Hps. revert s. induction n as [|n IH]; intros s Hn; simpl.
  - destruct s; [|simpl in Hn; lia]. destruct (strip_any ps EmptyString) eqn:E; [|done].
    apply strip_any_Some in E as (p & Hp & E). unfold patterns_ok in Hps; rewrite Forall_forall in Hps. by destruct p; [destruct (Hps _ Hp)|].
  - destruct (strip_any ps s) as [t|] eqn:E; [|done]. apply IH.
    apply strip_any_Some in E as (p & Hp & ->). unfold patterns_ok in Hps; rewrite Forall_forall in Hps.
    rewrite <- length_bytes_of, bytes_of_app, length_app, !length_bytes_of in Hn.
    destruct p; [by destruct (Hps _ Hp)|]. simpl in Hn. lia.
Qed.

Lemma strip_all_none ps n s : strip_any ps s = None → strip_all n ps s = s.
Proof. intros E. destruct n; [done|]. simpl. by rewrite E. Qed.

Lemma strip_all_suffix ps n s :
  ∃ w, s = w +:+ strip_all n ps s ∧ Forall (λ a, ∃ p, p ∈ ps ∧ a ∈ bytes_of p) (bytes_of w).
Proof.
  revert s. induction n as [|n IH]; intros s; simpl; [by exists EmptyString; split; [|constructor]|].
  destruct (strip_any ps s) as [t|] eqn:E; [|by exists EmptyString; split; [|constructor]].
  apply strip_any_Some in E as (p & Hp & ->). destruct (IH t) as (w & Ht & Hw).
  exists (p +:+ w). split; [by rewrite str_app_assoc, <- Ht|]. rewrite bytes_of_app. apply Forall_app. split; [|done].
  apply Forall_forall. eauto.
Qed.

Lemma white_space_ok : patterns_ok white_space ∧ patterns_ok (map str_rev white_space).
Proof. split; repeat constructor; discriminate. Qed.

Lemma trim_end_prefix s : ∃ w, s = trim_end s +:+ w.
Proof.
  unfold trim_end. destruct (strip_all_suffix (map str_rev white_space) (String.length s) (str_rev s))
    as (w & E & _). exists (str_rev w). rewrite <- str_rev_app, <- E. by rewrite str_rev_involutive.
Qed.

Lemma length_str_rev s : String.length (str_rev s) = String.length s.
Proof. by rewrite <- !length_bytes_of, list_of_str_rev, length_reverse. Qed.

Lemma trim_idemp s : trim (trim s) = trim s.
Proof.
  assert (Hstuck : strip_any white_space (trim s) = None).
  { destruct (strip_any white_space (trim s)) as [t|] eqn:E; [|done]. exfalso.
    apply strip_any_Some in E as (p & Hp & E). unfold trim in E.
    destruct (trim_end_prefix (trim_start s)) as (w & Hw). rewrite E, str_app_assoc in Hw.
    apply (strip_any_app white_space p (t +:+ w) Hp). rewrite <- Hw.
    apply strip_all_stuck; [apply white_space_ok|done]. }
  unfold trim at 1. unfold trim_start. rewrite strip_all_none by done.
  unfold trim_end. rewrite strip_all_none; [apply str_rev_involutive|].
  unfold trim, trim_end. rewrite str_rev_involutive.
  apply strip_all_stuck; [apply white_space_ok|]. by rewrite length_str_rev.
Qed.

(** ** Plain characters survive *)
Lemma white_space_not_plain a :
  (∃ p, p ∈ white_space ∧ a ∈ bytes_of p) ∨ (∃ p, p ∈ map str_rev white_space ∧ a ∈ bytes_of p) →
  plain a = false.
Proof.
  assert (H : Forall (λ p, Forall (λ a, plain a = false) (bytes_of p)) (white_space ++ map str_rev white_space)).
  { apply (bool_decide_unpack _). by vm_compute. }
  apply Forall_app in H as [H1 H2]. rewrite Forall_forall in H1, H2.
  intros [(p & Hp & Ha)|(p & Hp & Ha)];
    [apply H1 in Hp | apply H2 in Hp]; rewrite Forall_forall in Hp; auto.
Qed.

Lemma trim_keeps_plain a s : a ∈ bytes_of s → plain a = true → trim s ≠ EmptyString.
Proof.
  intros Hin Ha E. unfold trim, trim_end in E.
  destruct (strip_all_suffix white_space (String.length s) s) as (w1 & E1 & H1).
  fold (trim_start s) in E1. set (t := trim_start s) in *.
  destruct (strip_all_suffix (map str_rev white_space) (String.length t) (str_rev t)) as (w2 & E2 & H2).
  assert (Hnil : strip_all (String.length t) (map str_rev white_space) (str_rev t) = EmptyString).
  { rewrite <- (str_rev_involutive (strip_all _ _ _)), E. done. }
  rewrite Hnil in E2.
  assert (Ht : t = str_rev w2).
  { rewrite <- (str_rev_involutive t), E2. f_equal. apply bytes_of_inj. rewrite bytes_of_app. apply app_nil_r. }
  rewrite Forall_forall in H1, H2.
  assert (plain a = false) as Hn; [|congruence]. apply white_space_not_plain.
  rewrite E1, bytes_of_app, elem_of_app in Hin. destruct Hin as [Hin|Hin]; [left; eauto|right].
  apply H2. by rewrite Ht, list_of_str_rev, elem_of_reverse in Hin.
Qed.

(** ** Trimmed texts of the requests *)
Definition text_ok (s : string) : Prop := is_empty (trim s) = false.

Lemma trimmed_nonempty_ok s t : trimmed_nonempty s = Some t → text_ok t.
Proof.
  unfold trimmed_nonempty, text_ok. destruct (is_empty (trim s)) eqn:E; [done|].
  intros [= <-]. by rewrite trim_idemp.
Qed.

Lemma text_ok_plain a s : a ∈ bytes_of s → plain a = true → text_ok s.
Proof.
  intros Hin Ha. unfold text_ok. destruct (trim s) eqn:E; [|done]. by destruct (trim_keeps_plain a s Hin Ha).
Qed.
#[export] Hint Resolve trimmed_nonempty_ok : inspector.
