(* ===== verification/ImportOptions.v ===== *)
(** * Options of a settings import

    [src/src/support/settings_backup/import_options.rs]: the areas of a backup,
    how each is imported, and the options a client sends.  Maps keyed by areas
    ([BTreeMap<BackupImportArea, _>]) are association lists in the order of the
    areas; sets and maps of item keys are finite sets and maps. *)

From S2P Require Import Prelude Json Bytes.
From stdpp Require Import gmap.

(** [str::to_lowercase] follows the Unicode tables; on ASCII text it is the
    ASCII mapping. *)
Class UnicodeLowercase : Type := {
  to_lowercase : string → string;
  to_lowercase_ascii s :
    Forall (λ a, (Ascii.nat_of_ascii a < 128)%nat) (String.list_ascii_of_string s) →
    to_lowercase s = to_ascii_lowercase s;
}.

(** ** Areas and modes *)
Inductive BackupImportArea : Type := AreaSettings | AreaFavorites | AreaIdlRegistry | AreaWalletProfile.
#[export] Instance BackupImportArea_eq_dec : EqDecision BackupImportArea.
Proof. solve_decision. Defined.

Definition AREA_ALL : list BackupImportArea :=
  [AreaSettings; AreaFavorites; AreaIdlRegistry; AreaWalletProfile].

Definition area_str (area : BackupImportArea) : string :=
  match area with
  | AreaSettings => "settings"
  | AreaFavorites => "favorites"
  | AreaIdlRegistry => "idl_registry"
  | AreaWalletProfile => "wallet_profile"
  end.

Definition aliases (area : BackupImportArea) : list string :=
  match area with
  | AreaSettings => ["settings"; "app_settings"]
  | AreaFavorites => ["favorites"]
  | AreaIdlRegistry => ["idl_registry"; "idls"; "idl"]
  | AreaWalletProfile => ["wallet_profile"; "wallet"]
  end.

Definition supports_merge (area : BackupImportArea) : bool :=
  match area with AreaFavorites | AreaIdlRegistry => true | _ => false end.

Inductive BackupImportMode : Type := ModeReplace | ModeMerge | ModeSkip.
#[export] Instance BackupImportMode_eq_dec : EqDecision BackupImportMode.
Proof. solve_decision. Defined.

Definition import_mode_str (mode : BackupImportMode) : string :=
  match mode with ModeReplace => "replace" | ModeMerge => "merge" | ModeSkip => "skip" end.
Definition is_selected (mode : BackupImportMode) : bool :=
  match mode with ModeSkip => false | _ => true end.

(** ** Selections *)
Record BackupImportSelection : Type := mkSelection {
  bs_settings : BackupImportMode;
  bs_favorites : BackupImportMode;
  bs_idl_registry : BackupImportMode;
  bs_wallet_profile : BackupImportMode;
}.
#[export] Instance BackupImportSelection_eq_dec : EqDecision BackupImportSelection.
Proof. solve_decision. Defined.
Definition selection_default : BackupImportSelection := mkSelection ModeSkip ModeSkip ModeSkip ModeSkip.

Definition selection_mode (selection : BackupImportSelection) (area : BackupImportArea) : BackupImportMode :=
  match area with
  | AreaSettings => bs_settings selection
  | AreaFavorites => bs_favorites selection
  | AreaIdlRegistry => bs_idl_registry selection
  | AreaWalletProfile => bs_wallet_profile selection
  end.

Definition selected_areas (selection : BackupImportSelection) : list BackupImportArea :=
  List.filter (λ area, is_selected (selection_mode selection area)) AREA_ALL.
Definition affected_areas (selection : BackupImportSelection) : list BackupImportArea :=
  selected_areas selection.

Definition applied_areas (selection : BackupImportSelection)
    (settings_applied favorites_applied idl_applied wallet_applied : bool) : list BackupImportArea :=
  omap (λ pair : BackupImportArea * bool,
          let '(area, applied) := pair in
          if applied && is_selected (selection_mode selection area) then Some area else None)
    [(AreaSettings, settings_applied); (AreaFavorites, favorites_applied);
     (AreaIdlRegistry, idl_applied); (AreaWalletProfile, wallet_applied)].

(** ** Options *)
Inductive ConflictDecision : Type := ReplaceExisting | SkipBackupItem.
#[export] Instance ConflictDecision_eq_dec : EqDecision ConflictDecision.
Proof. solve_decision. Defined.

Definition AreaMap (T : Type) : Type := list (BackupImportArea * T).
Fixpoint area_get {T} (area : BackupImportArea) (m : AreaMap T) : option T :=
  match m with
  | [] => None
  | (area', t) :: m' => if decide (area = area') then Some t else area_get area m'
  end.

Record BackupImportOptions : Type := mkOptions {
  bo_selection : BackupImportSelection;
  bo_selected_items : AreaMap (gset string);
  bo_conflict_decisions : AreaMap (gmap string ConflictDecision);
}.
Definition options_default : BackupImportOptions := mkOptions selection_default [] [].

Definition options_mode (o : BackupImportOptions) (area : BackupImportArea) : BackupImportMode :=
  selection_mode (bo_selection o) area.
Definition options_is_empty (o : BackupImportOptions) : bool :=
  match selected_areas (bo_selection o) with [] => true | _ => false end.

Definition item_is_selected (o : BackupImportOptions) (area : BackupImportArea) (key : string) : bool :=
  match area_get area (bo_selected_items o) with
  | None => true
  | Some keys => bool_decide (key ∈ keys)
  end.
Definition conflict_decision (o : BackupImportOptions) (area : BackupImportArea) (key : string)
    : option ConflictDecision :=
  area_get area (bo_conflict_decisions o) ≫= λ decisions, decisions !! key.

(** ** Parsing *)
Definition is_area_key (key : string) : bool :=
  existsb (λ area, bool_decide (key ∈ aliases area)) AREA_ALL.
Definition is_detail_key (key : string) : bool :=
  bool_decide (key ∈ ["items"; "selected_items"; "conflicts"; "conflict_decisions"; "conflictDecisions"]).

Fixpoint validate_top_level_keys (object : Map) : Result () :=
  match object with
  | [] => Ok ()
  | (key, _) :: object' =>
      if negb (is_area_key key) && negb (is_detail_key key)
      then bail ("unsupported backup import option `" +:+ key +:+ "`")
      else validate_top_level_keys object'
  end.

(** The value all present aliases agree on. *)
Fixpoint agree_on {T} `{!EqDecision T} (object : Map) (keys : list string) (parse : string → Value → Result T)
    (conflict : string) (accepted : option T) : Result (option T) :=
  match keys with
  | [] => Ok accepted
  | key :: keys' =>
      match map_get key object with
      | None => agree_on object keys' parse conflict accepted
      | Some value =>
          parsed ← parse key value;
          match accepted with
          | Some current =>
              if decide (current = parsed) then agree_on object keys' parse conflict (Some parsed)
              else bail conflict
          | None => agree_on object keys' parse conflict (Some parsed)
          end
      end
  end.

Section parsing.
Context `{UnicodeLowercase}.

Definition parse_import_mode (key : string) (value : Value) : Result BackupImportMode :=
  text ← ok_or ("backup import mode for `" +:+ key +:+ "` must be a string") (as_str value);
  let mode := to_lowercase (trim text) in
  if bool_decide (mode ∈ [""; "replace"]) then Ok ModeReplace
  else if String.eqb mode "merge" then Ok ModeMerge
  else if bool_decide (mode ∈ ["skip"; "none"; "not_import"; "not import"]) then Ok ModeSkip
  else bail ("unsupported backup import mode `" +:+ mode +:+ "` for `" +:+ key +:+ "`").

Definition mode_setting (object : Map) (area : BackupImportArea) : Result BackupImportMode :=
  parsed ← agree_on object (aliases area) parse_import_mode
             ("conflicting backup import aliases for `" +:+ area_str area +:+ "`") None;
  let mode := default ModeSkip parsed in
  if bool_decide (mode = ModeMerge) && negb (supports_merge area)
  then bail ("backup import mode `merge` is not supported for `" +:+ area_str area +:+ "`")
  else Ok mode.

Definition aliased_option_map {T} `{!EqDecision T} (object : Map) (keys : list string) (label : string)
    (parse : Value → Result T) : Result (option T) :=
  agree_on object keys (λ _, parse) ("conflicting backup import aliases for `" +:+ label +:+ "`") None.

Definition item_option_key (value : Value) : Result string :=
  match as_str value with
  | Some key => Ok (trim key)
  | None =>
      match as_object value with
      | Some object =>
          ok_or "backup import selected item object requires a string `key`"
            (trim <$> (map_get "key" object ≫= as_str))
      | None => bail "backup import selected item must be a key string or object"
      end
  end.

Definition option_enabled (key : string) (value : Value) : Result bool :=
  match value with
  | VBool enabled => Ok enabled
  | VString text =>
      let text := to_lowercase (trim text) in
      if bool_decide (text ∈ ["true"; "include"; "selected"; "yes"; "on"]) then Ok true
      else if bool_decide (text ∈ ["false"; "skip"; "none"; "no"; "off"; ""]) then Ok false
      else bail ("unsupported backup content value `" +:+ text +:+ "` for `" +:+ key +:+ "`")
  | _ => bail ("backup content value for `" +:+ key +:+ "` must be boolean or string")
  end.

Fixpoint selected_keys_of_array (values : list Value) (keys : gset string) : Result (gset string) :=
  match values with
  | [] => Ok keys
  | value :: values' =>
      key ← item_option_key value;
      selected_keys_of_array values' (if is_empty key then keys else {[key]} ∪ keys)
  end.
Fixpoint selected_keys_of_object (object : Map) (keys : gset string) : Result (gset string) :=
  match object with
  | [] => Ok keys
  | (key, value) :: object' =>
      enabled ← option_enabled key value;
      selected_keys_of_object object' (if enabled : bool then {[key]} ∪ keys else keys)
  end.

Definition parse_selected_item_area (value : Value) (area : BackupImportArea) : Result (gset string) :=
  match value with
  | VArray values => selected_keys_of_array values ∅
  | VObject object => selected_keys_of_object object ∅
  | _ => bail ("backup import item selection for `" +:+ area_str area +:+ "` must be an array or object")
  end.

Definition parse_conflict_decision (value : Value) : Result ConflictDecision :=
  text ← ok_or "backup import conflict decision must be a string"
    (text ← trim <$> as_str value; if is_empty text then None else Some text);
  let decision := str_replace (Ascii.ascii_of_nat 45) (Ascii.ascii_of_nat 95) (to_lowercase text) in
  if bool_decide (decision ∈ ["replace"; "replace_existing"; "use_backup"]) then Ok ReplaceExisting
  else if bool_decide (decision ∈ ["skip"; "skip_backup_item"; "keep_existing"]) then Ok SkipBackupItem
  else bail ("unsupported backup import conflict decision `" +:+ decision +:+ "`").

Fixpoint conflict_entries (object : Map) (decisions : gmap string ConflictDecision)
    : Result (gmap string ConflictDecision) :=
  match object with
  | [] => Ok decisions
  | (key, value) :: object' =>
      decision ← parse_conflict_decision value;
      conflict_entries object' (<[key := decision]> decisions)
  end.
Definition parse_conflict_area (value : Value) (area : BackupImportArea)
    : Result (gmap string ConflictDecision) :=
  object ← ok_or ("backup import conflict decisions for `" +:+ area_str area +:+ "` must be an object")
             (as_object value);
  conflict_entries object ∅.

Fixpoint validate_area_keys (object : Map) (label : string) : Result () :=
  match object with
  | [] => Ok ()
  | (key, _) :: object' =>
      if is_area_key key then validate_area_keys object' label
      else bail ("unsupported backup import " +:+ label +:+ " area `" +:+ key +:+ "`")
  end.

Fixpoint parse_areas {T} `{!EqDecision T} (object : Map) (label : string)
    (parse : Value → BackupImportArea → Result T) (areas : list BackupImportArea) : Result (AreaMap T) :=
  match areas with
  | [] => Ok []
  | area :: areas' =>
      accepted ← agree_on object (aliases area) (λ _ value, parse value area)
        ("conflicting backup import " +:+ label +:+ " aliases for `" +:+ area_str area +:+ "`") None;
      result ← parse_areas object label parse areas';
      Ok (match accepted with Some value => (area, value) :: result | None => result end)
  end.

Definition parse_area_map {T} `{!EqDecision T} (object : Map) (label : string)
    (parse : Value → BackupImportArea → Result T) : Result (AreaMap T) :=
  validate_area_keys object label ≫= λ _, parse_areas object label parse AREA_ALL.

Definition parse_selected_items (value : Value) : Result (AreaMap (gset string)) :=
  object ← ok_or "backup import item selection must be an object" (as_object value);
  parse_area_map object "item selection" parse_selected_item_area.
Definition parse_conflict_decisions (value : Value) : Result (AreaMap (gmap string ConflictDecision)) :=
  object ← ok_or "backup import conflict decisions must be an object" (as_object value);
  parse_area_map object "conflict decisions" parse_conflict_area.

Fixpoint validate_detail_modes (selection : BackupImportSelection) (areas : list BackupImportArea)
    (label : string) : Result () :=
  match areas with
  | [] => Ok ()
  | area :: areas' =>
      if negb (supports_merge area) || negb (bool_decide (selection_mode selection area = ModeMerge))
      then bail ("backup import " +:+ label +:+ " for `" +:+ area_str area +:+ "` requires merge mode")
      else validate_detail_modes selection areas' label
  end.

Definition options_parse (value : option Value) : Result BackupImportOptions :=
  match value with
  | None => Ok options_default
  | Some value =>
      object ← ok_or "backup import options must be a JSON object" (as_object value);
      _ ← validate_top_level_keys object;
      settings ← mode_setting object AreaSettings;
      favorites ← mode_setting object AreaFavorites;
      idl_registry ← mode_setting object AreaIdlRegistry;
      wallet_profile ← mode_setting object AreaWalletProfile;
      let selection := mkSelection settings favorites idl_registry wallet_profile in
      selected_items ← aliased_option_map object ["items"; "selected_items"] "item selection"
                         parse_selected_items;
      conflict_decisions ← aliased_option_map object ["conflicts"; "conflict_decisions"; "conflictDecisions"]
                             "conflict decisions" parse_conflict_decisions;
      let selected_items := default [] selected_items in
      let conflict_decisions := default [] conflict_decisions in
      _ ← validate_detail_modes selection (map fst selected_items) "item selection";
      _ ← validate_detail_modes selection (map fst conflict_decisions) "conflict decisions";
      Ok (mkOptions selection selected_items conflict_decisions)
  end.
End parsing.

(** ** What parsing accepts *)
Lemma agree_on_accepted {T} `{!EqDecision T} object keys (parse : string → Value → Result T) conflict accepted r :
  agree_on object keys parse conflict accepted = Ok r →
  (∀ t, accepted = Some t → r = Some t)
  ∧ (∀ key v, key ∈ keys → map_get key object = Some v → ∃ t, parse key v = Ok t ∧ r = Some t)
  ∧ ((∀ key, key ∈ keys → map_get key object = None) → r = accepted).
Proof.
  revert accepted. induction keys as [|key keys IH]; intros accepted; simpl.
  { intros [= <-]. split_and!; [done|by intros ? ? ?%elem_of_nil|done]. }
  destruct (map_get key object) as [v|] eqn:Ev; cycle 1.
  { intros E. destruct (IH accepted E) as (IH1 & IH2 & IH3). split_and!; [done| |].
    - intros k v [->|Hk]%elem_of_cons Hv; [congruence|by apply IH2].
    - intros Hn. apply IH3. intros k Hk. apply Hn. by right. }
  destruct (parse key v) as [t|e] eqn:Ep; [simpl|done]. intros E.
  assert (Hgo : agree_on object keys parse conflict (Some t) = Ok r ∧ (∀ t', accepted = Some t' → t' = t)).
  { destruct accepted as [t'|]; [|by split]. destruct (decide (t' = t)) as [->|]; [|done].
    split; [done|]. by intros ? [= ->]. }
  destruct Hgo as [Hgo Hacc]. destruct (IH (Some t) Hgo) as (IH1 & IH2 & IH3).
  pose proof (IH1 t eq_refl) as ->. split_and!.
  - intros t' Ht'. by rewrite (Hacc t' Ht').
  - intros k v' [->|Hk]%elem_of_cons Hv; [|by apply IH2]. rewrite Ev in Hv. simplify_eq. by exists t.
  - intros Hn. specialize (Hn key ltac:(by left)). congruence.
Qed.

Section accepted_options.
Context `{UnicodeLowercase}.

Lemma mode_setting_accepted object area mode :
  mode_setting object area = Ok mode →
  (mode = ModeMerge → supports_merge area = true)
  ∧ (∀ key v, key ∈ aliases area → map_get key object = Some v → parse_import_mode key v = Ok mode)
  ∧ ((∀ key, key ∈ aliases area → map_get key object = None) → mode = ModeSkip).
Proof.
  unfold mode_setting. destruct (agree_on _ _ _ _ _) as [parsed|] eqn:E; [simpl|done].
  apply agree_on_accepted in E as (_ & Hall & Hnone).
  destruct (bool_decide (default ModeSkip parsed = ModeMerge) && negb (supports_merge area)) eqn:Em; [done|].
  intros [= <-]. split_and!.
  - intros Hm. rewrite bool_decide_true in Em by done. by destruct (supports_merge area).
  - intros key v Hk Hv. destruct (Hall key v Hk Hv) as (t & Ht & ->). done.
  - intros Hn. by rewrite (Hnone Hn).
Qed.

Lemma top_level_keys_known object :
  validate_top_level_keys object = Ok () →
  ∀ key v, (key, v) ∈ object → is_area_key key || is_detail_key key = true.
Proof.
  induction object as [|[key v] object IH]; simpl; [by intros _ ? ? ?%elem_of_nil|].
  destruct (is_area_key key) eqn:Ea, (is_detail_key key) eqn:Ed; simpl; try done;
    (intros Hok k v' [[= -> ->]|Hin]%elem_of_cons; [by rewrite Ea, Ed|by eapply IH]).
Qed.

Lemma detail_modes_merge selection areas label :
  validate_detail_modes selection areas label = Ok () →
  ∀ area, area ∈ areas → selection_mode selection area = ModeMerge ∧ supports_merge area = true.
Proof.
  induction areas as [|a areas IH]; simpl; [by intros _ ? ?%elem_of_nil|].
  destruct (supports_merge a) eqn:Es; simpl; [|done]. case_bool_decide as Em; simpl; [|done].
  intros Hok area [->|Hin]%elem_of_cons; [done|by apply IH].
Qed.

Lemma area_get_elem {T} area (m : AreaMap T) t : area_get area m = Some t → area ∈ map fst m.
Proof.
  induction m as [|[a t'] m IH]; simpl; [done|]. case_decide as Ha; [intros _; subst; by left|].
  intros Hg. right. by apply IH.
Qed.

(** Options that are accepted have only known keys; every alias that is present
    says the mode of its area, an area without one is skipped, and merging,
    selecting items and deciding conflicts are confined to the areas that merge. *)
Theorem accepted_options_agree object o :
  options_parse (Some (VObject object)) = Ok o →
  (∀ area key v, key ∈ aliases area → map_get key object = Some v → parse_import_mode key v = Ok (options_mode o area))
  ∧ (∀ area, (∀ key, key ∈ aliases area → map_get key object = None) → options_mode o area = ModeSkip)
  ∧ (∀ area, options_mode o area = ModeMerge → supports_merge area = true)
  ∧ (∀ area items, area_get area (bo_selected_items o) = Some items → options_mode o area = ModeMerge)
  ∧ (∀ area decisions, area_get area (bo_conflict_decisions o) = Some decisions → options_mode o area = ModeMerge)
  ∧ (∀ key v, (key, v) ∈ object → is_area_key key || is_detail_key key = true).
Proof.
  unfold options_parse. intros Hp. revert Hp. simpl.
  destruct (validate_top_level_keys object) as [[]|] eqn:Ek; [simpl|done].
  destruct (mode_setting object AreaSettings) as [m1|] eqn:E1; [simpl|done].
  destruct (mode_setting object AreaFavorites) as [m2|] eqn:E2; [simpl|done].
  destruct (mode_setting object AreaIdlRegistry) as [m3|] eqn:E3; [simpl|done].
  destruct (mode_setting object AreaWalletProfile) as [m4|] eqn:E4; [simpl|done].
  destruct (aliased_option_map _ _ _ parse_selected_items) as [items|]; [simpl|done].
  destruct (aliased_option_map _ _ _ parse_conflict_decisions) as [conflicts|]; [simpl|done].
  destruct (validate_detail_modes _ _ "item selection") as [[]|] eqn:Ei; [simpl|done].
  destruct (validate_detail_modes _ _ "conflict decisions") as [[]|] eqn:Ec; [simpl|done].
  intros [= <-]. unfold options_mode. cbn [bo_selection bo_selected_items bo_conflict_decisions].
  assert (Hmode : ∀ area, mode_setting object area = Ok (selection_mode (mkSelection m1 m2 m3 m4) area))
    by (by intros []).
  split_and!.
  - intros area key v Hk Hv. by apply (mode_setting_accepted _ _ _ (Hmode area)).
  - intros area Hn. by apply (mode_setting_accepted _ _ _ (Hmode area)).
  - intros area Hm. by apply (mode_setting_accepted _ _ _ (Hmode area)).
  - intros area keys Hg%area_get_elem. by apply (detail_modes_merge _ _ _ Ei).
  - intros area ds Hg%area_get_elem. by apply (detail_modes_merge _ _ _ Ec).
  - by apply top_level_keys_known.
Qed.
End accepted_options.
