(* ===== verification/InstructionCodec.v ===== *)
(** * Instruction arguments

    decode/instruction_codec.rs.  Typed text from the user is parsed against an
    IDL type into a dynamic value, which is serialized into the 32-bit words of
    an instruction; the decoder reads such words back into text.  The word
    serializer is the [risc0] package's: a class, with its documented format as
    a second class of laws. *)

From Stdlib Require Import Ascii.
From S2P Require Import Prelude Json Bytes IdlTypes Borsh EntityIds.

#[local] Set Warnings "-register-all".
Inductive DynamicValue : Type :=
  | DBool (b : bool)
  | DI8 (n : Z) | DI16 (n : Z) | DI32 (n : Z) | DI64 (n : Z) | DI128 (n : Z)
  | DU8 (n : Z) | DU16 (n : Z) | DU32 (n : Z) | DU64 (n : Z) | DU128 (n : Z)
  | DStr (s : string)
  | DTuple (items : list DynamicValue)
  | DSeq (items : list DynamicValue)
  | DNone
  | DSome (v : DynamicValue).

Record ParsedValue : Type := mkParsed {
  pv_report_value : string;
  pv_dynamic : DynamicValue;
  pv_seed_bytes : option (list Z);
}.

Record InstructionDecoded : Type := mkInstruction {
  id_value : string;
  id_consumed : Z;
  id_type_label : string;
}.

(** ** Serialization

    A serializer writes to the words it has so far. *)
Definition Words : Type := list Z.

Class Serializer : Type := {
  serialize_bool : bool → M Words ();
  serialize_i8 : Z → M Words (); serialize_i16 : Z → M Words (); serialize_i32 : Z → M Words ();
  serialize_i64 : Z → M Words (); serialize_i128 : Z → M Words ();
  serialize_u8 : Z → M Words (); serialize_u16 : Z → M Words (); serialize_u32 : Z → M Words ();
  serialize_u64 : Z → M Words (); serialize_u128 : Z → M Words ();
  serialize_str : string → M Words ();
  serialize_tuple : Z → M Words (); tuple_end : M Words ();
  serialize_seq : Z → M Words (); seq_end : M Words ();
  serialize_none : M Words ();
  serialize_some : M Words () → M Words ();
  serialize_tuple_variant : Z → Z → M Words (); variant_end : M Words ();
}.

Section serialize.
Context `{Serializer}.

Fixpoint serialize (v : DynamicValue) : M Words () :=
  let serialize_elements :=
    fix go (items : list DynamicValue) : M Words () :=
      match items with
      | [] => mret ()
      | item :: items' => serialize item ;; go items'
      end in
  match v with
  | DBool value => serialize_bool value
  | DI8 value => serialize_i8 value
  | DI16 value => serialize_i16 value
  | DI32 value => serialize_i32 value
  | DI64 value => serialize_i64 value
  | DI128 value => serialize_i128 value
  | DU8 value => serialize_u8 value
  | DU16 value => serialize_u16 value
  | DU32 value => serialize_u32 value
  | DU64 value => serialize_u64 value
  | DU128 value => serialize_u128 value
  | DStr value => serialize_str value
  | DTuple items => serialize_tuple (zlen items) ;; serialize_elements items ;; tuple_end
  | DSeq items => serialize_seq (zlen items) ;; serialize_elements items ;; seq_end
  | DNone => serialize_none
  | DSome value => serialize_some (serialize value)
  end.

Fixpoint serialize_fields (fields : list DynamicValue) : M Words () :=
  match fields with
  | [] => mret ()
  | field :: fields' => serialize field ;; serialize_fields fields'
  end.

(** [Serialize for InstructionData]. *)
Definition serialize_instruction (variant_index : Z) (fields : list DynamicValue) : M Words () :=
  serialize_tuple_variant variant_index (zlen fields) ;;
  serialize_fields fields ;;
  variant_end.
End serialize.

(** ** Parsing *)
Definition kebab_name (name : string) : string := str_replace "_"%char "-"%char name.

Definition named_value (values : gmap string string) (name : string) : option string :=
  match values !! name with
  | Some value => Some value
  | None => values !! kebab_name name
  end.

Definition traverse {A B} (f : A → Result B) : list A → Result (list B) :=
  fix go l := match l with
              | [] => Ok []
              | a :: l' => b ← f a; bs ← go l'; Ok (b :: bs)
              end.

(** [slice.chunks_exact(4)] with [u32::from_le_bytes]. *)
Fixpoint words_of_bytes (bytes : list Z) : list Z :=
  match bytes with
  | a :: b :: c :: d :: bytes' => le_value 8 [a; b; c; d] :: words_of_bytes bytes'
  | _ => []
  end.

Definition zero_seed (prefix suffix : list Z) : list Z :=
  prefix ++ replicate (32 - length prefix - length suffix) 0 ++ suffix.

Section parsing.
Context `{SerdeJson} `{HexCrate} `{LeeAccounts}.

Definition program_id_from_hex (value : string) : Result (list Z) :=
  bytes ← ok_or "invalid program id hex" (hex_decode value);
  if negb (zlen bytes =? 32) then bail "program id hex must be 32 bytes"
  else Ok (words_of_bytes bytes).

Definition parse_instruction_account_id (raw : string) : Result AccountId :=
  let raw := trim raw in
  let raw := trim (default raw (strip_any ["Private/"; "private/"; "Public/"; "public/"] raw)) in
  parse_account_id raw.

Definition parse_primitive (raw primitive : string) : Result ParsedValue :=
  let raw := trim raw in
  let named := String.eqb primitive in
  let integer (parse : string → option Z) (dynamic : Z → DynamicValue) (seed : Z → option (list Z)) :=
    value ← ok_or ("invalid " +:+ primitive) (parse raw);
    Ok (mkParsed (pretty value) (dynamic value) (seed value)) in
  let no_seed (_ : Z) := None in
  if named "bool" then
    if bool_decide (raw ∈ ["true"; "1"; "yes"]) then Ok (mkParsed "true" (DBool true) None)
    else if bool_decide (raw ∈ ["false"; "0"; "no"]) then Ok (mkParsed "false" (DBool false) None)
    else bail ("invalid bool `" +:+ raw +:+ "`")
  else if named "i8" then integer (parse_signed 8) DI8 no_seed
  else if named "i16" then integer (parse_signed 16) DI16 no_seed
  else if named "i32" then integer (parse_signed 32) DI32 no_seed
  else if named "i64" then integer (parse_signed 64) DI64 no_seed
  else if named "i128" then integer (parse_signed 128) DI128 no_seed
  else if named "u8" then integer (parse_unsigned 8) DU8 no_seed
  else if named "u16" then integer (parse_unsigned 16) DU16 no_seed
  else if named "u32" then integer (parse_unsigned 32) DU32 no_seed
  else if named "u64" then
    integer (parse_unsigned 64) DU64 (λ value, Some (zero_seed [] (reverse (le_digits 8 8 value))))
  else if named "u128" then
    integer (parse_unsigned 128) DU128 (λ value, Some (zero_seed [] (reverse (le_digits 8 16 value))))
  else if named "string" || named "String" then
    let bytes := as_bytes raw in
    Ok (mkParsed raw (DStr raw) (if zlen bytes <=? 32 then Some (zero_seed bytes []) else None))
  else if named "account_id" then
    account_id ← parse_instruction_account_id raw;
    let canonical := account_to_string account_id in
    Ok (mkParsed canonical (DStr canonical) (Some account_id))
  else if named "program_id" then
    program_id_hex ← normalize_program_id_hex raw;
    program_id ← program_id_from_hex program_id_hex;
    Ok (mkParsed program_id_hex (DTuple (map DU32 program_id)) None)
  else bail ("unsupported primitive IDL arg type `" +:+ primitive +:+ "`").

Definition parse_u8_array (raw : string) (size : Z) : Result ParsedValue :=
  let raw := trim raw in
  bytes ←
    match strip_any ["0x"; "0X"] raw with
    | Some hex => ok_or "invalid hex bytes" (hex_decode hex)
    | None =>
        if (str_len raw =? size * 2) && all_hexdigits raw
        then ok_or "invalid hex bytes" (hex_decode raw)
        else
          let raw_bytes := as_bytes raw in
          if size <? zlen raw_bytes
          then bail ("string is " +:+ pretty (zlen raw_bytes) +:+ " bytes, max " +:+ pretty size)
          else Ok (raw_bytes ++ replicate (Z.to_nat (size - zlen raw_bytes)) 0)
    end;
  if negb (zlen bytes =? size)
  then bail ("expected " +:+ pretty size +:+ " bytes, got " +:+ pretty (zlen bytes))
  else
    Ok (mkParsed ("0x" +:+ hex_encode bytes) (DTuple (map DU8 bytes))
          (if size =? 32 then Some bytes else None)).

Definition parse_u32_array (raw : string) (size : Z) : Result ParsedValue :=
  let parts := map trim (str_split ","%char raw) in
  if negb (zlen parts =? size)
  then bail ("expected " +:+ pretty size +:+ " u32 values, got " +:+ pretty (zlen parts))
  else
    values ← traverse (λ part, ok_or "invalid u32 array item" (parse_unsigned 32 part)) parts;
    Ok (mkParsed ("[" +:+ String.concat ", " (map pretty values) +:+ "]")
          (DTuple (map DU32 values)) None).

Definition parse_array (raw : string) (ty : Value) : Result ParsedValue :=
  array ← fixed_array_type ty;
  array ← ok_or "IDL array type is not an array" array;
  let '(elem, size) := array in
  if bool_decide (as_str elem = Some "u8") then parse_u8_array raw size
  else if bool_decide (as_str elem = Some "u32") then parse_u32_array raw size
  else bail ("unsupported array IDL arg type `" +:+ to_string ty +:+ "`").

(** [raw.split(',').map(str::trim)], nothing for blank text. *)
Definition vec_items (raw : string) : list string :=
  if is_empty (trim raw) then [] else map trim (str_split ","%char raw).

Definition parse_vec (raw : string) (elem : Value) : Result ParsedValue :=
  array ← fixed_array_type elem;
  match array with
  | Some (array_elem, size) =>
      if negb (bool_decide (as_str array_elem = Some "u8"))
      then bail ("unsupported vector element type `" +:+ to_string elem +:+ "`")
      else
        values ← traverse (λ item, pv_dynamic <$> parse_u8_array item size) (vec_items raw);
        Ok (mkParsed (pretty (zlen values) +:+ " items") (DSeq values) None)
  | None =>
      if bool_decide (as_str elem = Some "u8") then
        values ← traverse (λ item, ok_or "invalid u8 vector item" (parse_unsigned 8 item))
                   (vec_items raw);
        Ok (mkParsed (pretty (zlen values) +:+ " bytes") (DSeq (map DU8 values)) None)
      else if bool_decide (as_str elem = Some "u32") then
        values ← traverse (λ item, ok_or "invalid u32 vector item" (parse_unsigned 32 item))
                   (vec_items raw);
        Ok (mkParsed (pretty (zlen values) +:+ " words") (DSeq (map DU32 values)) None)
      else bail ("unsupported vector IDL arg type `" +:+ to_string elem +:+ "`")
  end.

Definition interaction_primitives : list string :=
  ["bool"; "i8"; "i16"; "i32"; "i64"; "i128"; "u8"; "u16"; "u32"; "u64"; "u128"; "string";
   "String"; "account_id"; "program_id"].

Definition unsupported_arg_type {A} (ty : Value) : Result A :=
  match value_get "defined" ty ≫= as_str with
  | Some defined =>
      bail ("defined IDL arg type `" +:+ defined +:+ "` is not supported for direct interaction")
  | None => bail ("unsupported IDL arg type `" +:+ to_string ty +:+ "`")
  end.

(** The recursion goes into the element of an option; the depth of the
    expression is fuel enough. *)
Fixpoint validate_interaction_type_at (fuel : nat) (ty : Value) : Result () :=
  match fuel with
  | O => unsupported_arg_type ty
  | S n =>
      match as_str ty with
      | Some primitive =>
          if bool_decide (primitive ∈ interaction_primitives) then Ok ()
          else bail ("unsupported primitive IDL arg type `" +:+ primitive +:+ "`")
      | None =>
          array ← fixed_array_type ty;
          match array with
          | Some (elem, _) =>
              if bool_decide (as_str elem = Some "u8" ∨ as_str elem = Some "u32") then Ok ()
              else bail ("unsupported array IDL arg type `" +:+ to_string ty +:+ "`")
          | None =>
              match value_get "vec" ty with
              | Some elem =>
                  array ← fixed_array_type elem;
                  match array with
                  | Some (array_elem, _) =>
                      if bool_decide (as_str array_elem = Some "u8") then Ok ()
                      else bail ("unsupported vector element type `" +:+ to_string elem +:+ "`")
                  | None =>
                      if bool_decide (as_str elem = Some "u8" ∨ as_str elem = Some "u32") then Ok ()
                      else bail ("unsupported vector IDL arg type `" +:+ to_string elem +:+ "`")
                  end
              | None =>
                  match value_get "option" ty with
                  | Some option => validate_interaction_type_at n option
                  | None => unsupported_arg_type ty
                  end
              end
          end
      end
  end.
Definition validate_interaction_type (ty : Value) : Result () :=
  validate_interaction_type_at (S (value_depth ty)) ty.

Fixpoint parse_typed_value_at (fuel : nat) (raw : string) (ty : Value) : Result ParsedValue :=
  match fuel with
  | O => unsupported_arg_type ty
  | S n =>
      validate_interaction_type ty ≫= λ _,
      match as_str ty with
      | Some primitive => parse_primitive raw primitive
      | None =>
          array ← fixed_array_type ty;
          match array with
          | Some _ => parse_array raw ty
          | None =>
              match value_get "vec" ty with
              | Some vec => parse_vec raw vec
              | None =>
                  match value_get "option" ty with
                  | Some option =>
                      if is_empty (trim raw) || bool_decide (trim raw ∈ ["none"; "null"])
                      then Ok (mkParsed "None" DNone None)
                      else
                        parsed ← parse_typed_value_at n raw option;
                        Ok (mkParsed ("Some(" +:+ pv_report_value parsed +:+ ")")
                              (DSome (pv_dynamic parsed)) (pv_seed_bytes parsed))
                  | None => unsupported_arg_type ty
                  end
              end
          end
      end
  end.
Definition parse_typed_value (raw : string) (ty : Value) : Result ParsedValue :=
  parse_typed_value_at (S (value_depth ty)) raw ty.

Fixpoint type_label_at (fuel : nat) (ty : Value) : string :=
  match fuel with
  | O => to_string ty
  | S n =>
      match ty with
      | VString value => value
      | VObject object =>
          if map_contains_key "array" object then
            match fixed_array_type ty with
            | Ok (Some (elem, size)) => "[" +:+ type_label_at n elem +:+ "; " +:+ pretty size +:+ "]"
            | _ => to_string ty
            end
          else match map_get "vec" object with
          | Some elem => "Vec<" +:+ type_label_at n elem +:+ ">"
          | None =>
              match map_get "option" object with
              | Some elem => "Option<" +:+ type_label_at n elem +:+ ">"
              | None =>
                  match map_get "defined" object with
                  | Some defined => default "defined" (as_str defined)
                  | None => to_string ty
                  end
              end
          end
      | _ => to_string ty
      end
  end.
Definition type_label (ty : Value) : string := type_label_at (S (value_depth ty)) ty.
End parsing.

(** ** Decoding *)
Definition word_at (words : list Z) (offset : Z) : Result Z :=
  ok_or ("missing word " +:+ pretty offset) (words !! Z.to_nat offset).

Definition words_range (words : list Z) (offset count : Z) : Result (list Z) :=
  if match checked_add offset count with
     | Some last => last <=? zlen words
     | None => false
     end
  then Ok (slice words offset count)
  else bail ("unexpected end of instruction data at word " +:+ pretty offset +:+ ", need "
             +:+ pretty count +:+ " words").

Definition words_to_le_bytes (words : list Z) : list Z := flat_map (le_digits 8 4) words.

Definition read_words_unsigned (words : list Z) (offset count : Z) : Result Z :=
  words ← words_range words offset count;
  if 4 <? count then bail "cannot decode instruction integer wider than 128 bits"
  else Ok (or_shifted 32 0 0 words).

Definition read_words_signed (words : list Z) (offset count : Z) : Result Z :=
  words ← words_range words offset count;
  if 4 <? count then bail "cannot decode instruction integer wider than 128 bits"
  else
    high_word ← ok_or "cannot decode zero-width signed integer" (last words);
    let fill := if Z.land high_word (2 ^ 31) =? 0 then 0 else 2 ^ 32 - 1 in
    let fixed := words ++ drop (Z.to_nat count) (replicate 4 fill) in
    Ok (to_signed 128 (le_value 8 (words_to_le_bytes fixed))).

Definition decode_risc0_string (words : list Z) (offset : Z) : Result (string * Z) :=
  len ← word_at words offset;
  let word_len := div_ceil len 4 in
  range ← words_range words (offset + 1) word_len;
  value ← ok_or "string arg is not valid UTF-8"
            (from_utf8 (take (Z.to_nat len) (words_to_le_bytes range)));
  Ok (value, 1 + word_len).

Definition bool_text (b : bool) : string := if b then "true" else "false".

Section decoding.
Context `{SerdeJson} `{HexCrate} `{LeeAccounts}.

Definition decode_instruction_primitive (ty : string) (words : list Z) (offset : Z)
    : Result InstructionDecoded :=
  let named := String.eqb ty in
  let narrow (lo hi : Z) (read : Z → Z) :=
    word ← word_at words offset;
    if in_range lo hi (read word) then Ok (pretty (read word), 1)
    else bail (ty +:+ " value " +:+ pretty (read word) +:+ " is out of range") in
  pair ←
    (if named "bool" then
       word ← word_at words offset; Ok (bool_text (negb (word =? 0)), 1)
     else if named "u8" then narrow 0 (2 ^ 8 - 1) id
     else if named "u16" then narrow 0 (2 ^ 16 - 1) id
     else if named "u32" then
       word ← word_at words offset; Ok (pretty word, 1)
     else if named "i8" then narrow (- 2 ^ 7) (2 ^ 7 - 1) (to_signed 32)
     else if named "i16" then narrow (- 2 ^ 15) (2 ^ 15 - 1) (to_signed 32)
     else if named "i32" then
       word ← word_at words offset; Ok (pretty (to_signed 32 word), 1)
     else if named "u64" then
       value ← read_words_unsigned words offset 2; Ok (pretty value, 2)
     else if named "i64" then
       value ← read_words_signed words offset 2; Ok (pretty value, 2)
     else if named "u128" then
       value ← read_words_unsigned words offset 4; Ok (pretty value, 4)
     else if named "i128" then
       value ← read_words_signed words offset 4; Ok (pretty value, 4)
     else if named "account_id" then
       text ← decode_risc0_string words offset;
       account_id ← ok_or ("invalid account_id wire string `" +:+ text.1 +:+ "`")
                      (account_parse text.1);
       Ok (account_to_string account_id, text.2)
     else if named "program_id" then
       range ← words_range words offset 8; Ok (hex_encode (words_to_le_bytes range), 8)
     else if named "string" || named "String" then decode_risc0_string words offset
     else bail ("unsupported primitive instruction type `" +:+ ty +:+ "`"));
  Ok (mkInstruction pair.1 pair.2 ty).

Fixpoint decode_items (decode : Z → Result InstructionDecoded) (len : nat) (cursor : Z)
    : Result (list string * Z) :=
  match len with
  | O => Ok ([], cursor)
  | S len' =>
      decoded ← decode cursor;
      rest ← decode_items decode len' (cursor + id_consumed decoded);
      Ok (id_value decoded :: rest.1, rest.2)
  end.

Definition decode_instruction_body (decode : Value → Z → Result InstructionDecoded)
    (ty : Value) (words : list Z) (offset : Z) : Result InstructionDecoded :=
  let label := idl_type_label ty in
  match as_str ty with
  | Some primitive =>
      decoded ← decode_instruction_primitive primitive words offset;
      Ok (mkInstruction (id_value decoded) (id_consumed decoded) label)
  | None =>
      object ← ok_or ("unsupported instruction type " +:+ label) (as_object ty);
      match map_get "option" object with
      | Some inner =>
          tag ← ok_or ("missing option tag at word " +:+ pretty offset) (words !! Z.to_nat offset);
          if tag =? 0 then Ok (mkInstruction "None" 1 label)
          else if negb (tag =? 1) then bail ("invalid option tag " +:+ pretty tag)
          else
            decoded ← decode inner (offset + 1);
            Ok (mkInstruction ("Some(" +:+ id_value decoded +:+ ")") (id_consumed decoded + 1) label)
      | None =>
          array ← fixed_array_type ty;
          match array with
          | Some (inner, len) =>
              decoded ← decode_items (decode inner) (Z.to_nat len) offset;
              Ok (mkInstruction ("[" +:+ String.concat ", " decoded.1 +:+ "]")
                    (decoded.2 - offset) label)
          | None => bail ("unsupported instruction type " +:+ label)
          end
      end
  end.

Fixpoint decode_instruction_at (budget : nat) (words : list Z) (ty : Value) (offset : Z)
    : Result InstructionDecoded :=
  match budget with
  | O => bail "IDL nesting too deep"
  | S n => decode_instruction_body (decode_instruction_at n words) ty words offset
  end.

Definition decode_instruction_type (ty : Value) (words : list Z) (offset depth : Z)
    : Result InstructionDecoded := decode_instruction_at (depth_budget depth) words ty offset.
End decoding.

Arguments decode_instruction_primitive : simpl never.
Arguments parse_primitive : simpl never.
