(* ===== verification/InstructionWire.v ===== *)
(** * Instruction words: from typed text to the chain and back

    The words a dynamic value is serialized to, the documented format of the
    serializer, and the round trip: what the decoder shows of an instruction is
    what was reported when its arguments were parsed. *)

From S2P Require Import Prelude Json Bytes IdlTypes Borsh BorshSpec EntityIds InstructionCodec.

(** ** The wire format *)
Definition pad_words (bs : list Z) : list Z :=
  words_of_bytes (bs ++ replicate (Z.to_nat (4 * div_ceil (zlen bs) 4 - zlen bs)) 0).

Fixpoint wire (v : DynamicValue) : list Z :=
  match v with
  | DBool b => [if b then 1 else 0]
  | DI8 n | DI16 n | DI32 n => [to_unsigned 32 n]
  | DI64 n => le_digits 32 2 (to_unsigned 64 n)
  | DI128 n => le_digits 32 4 (to_unsigned 128 n)
  | DU8 n | DU16 n | DU32 n => [n]
  | DU64 n => le_digits 32 2 n
  | DU128 n => le_digits 32 4 n
  | DStr s => str_len s :: pad_words (as_bytes s)
  | DTuple items => flat_map wire items
  | DSeq items => zlen items :: flat_map wire items
  | DNone => [0]
  | DSome v => 1 :: wire v
  end.

(** [m] succeeds and appends [ws]. *)
Definition writes (m : M Words ()) (ws : list Z) : Prop := ∀ out w, m out w = (Ok (), out ++ ws, w).

(** The format of [risc0_zkvm::serde]: narrow integers take one word, sign
    extended; wide ones their little-endian words; a string its length and its
    bytes padded to words; tuples and tuple variants no length, sequences
    theirs. *)
Class Risc0Laws `{Serializer} : Prop := {
  writes_bool b : writes (serialize_bool b) (wire (DBool b));
  writes_i8 n : writes (serialize_i8 n) (wire (DI8 n));
  writes_i16 n : writes (serialize_i16 n) (wire (DI16 n));
  writes_i32 n : writes (serialize_i32 n) (wire (DI32 n));
  writes_i64 n : writes (serialize_i64 n) (wire (DI64 n));
  writes_i128 n : writes (serialize_i128 n) (wire (DI128 n));
  writes_u8 n : writes (serialize_u8 n) (wire (DU8 n));
  writes_u16 n : writes (serialize_u16 n) (wire (DU16 n));
  writes_u32 n : writes (serialize_u32 n) (wire (DU32 n));
  writes_u64 n : writes (serialize_u64 n) (wire (DU64 n));
  writes_u128 n : writes (serialize_u128 n) (wire (DU128 n));
  writes_str s : writes (serialize_str s) (wire (DStr s));
  writes_tuple len : writes (serialize_tuple len) [];
  writes_tuple_end : writes tuple_end [];
  writes_seq len : writes (serialize_seq len) [len];
  writes_seq_end : writes seq_end [];
  writes_none : writes serialize_none (wire DNone);
  writes_some m ws : writes m ws → writes (serialize_some m) (1 :: ws);
  writes_variant index len : writes (serialize_tuple_variant index len) [index];
  writes_variant_end : writes variant_end [];
}.

Lemma writes_ret : writes (mret ()) [].
Proof. intros out w. unfold mret, M_ret. by rewrite app_nil_r. Qed.

Lemma writes_then m1 m2 ws1 ws2 : writes m1 ws1 → writes m2 ws2 → writes (m1 ;; m2) (ws1 ++ ws2).
Proof. intros H1 H2 out w. unfold mbind, M_bind. by rewrite H1, H2, app_assoc. Qed.

Section serializer.
Context `{Risc0Laws}.
#[local] Set Default Proof Using "All".

Fixpoint serialize_writes (v : DynamicValue) : writes (serialize v) (wire v).
Proof.
  assert (Hgo : ∀ items, writes ((fix go (items : list DynamicValue) : M Words () :=
      match items with [] => mret () | item :: items' => serialize item ;; go items' end) items)
      (flat_map wire items)).
  { induction items as [|item items IH]; [apply writes_ret|].
    apply writes_then; [apply serialize_writes|exact IH]. }
  destruct v; simpl serialize; simpl wire.
  - apply writes_bool. 
  - apply writes_i8.
  - apply writes_i16.
  - apply writes_i32.
  - apply writes_i64.
  - apply writes_i128.
  - apply writes_u8.
  - apply writes_u16.
  - apply writes_u32.
  - apply writes_u64.
  - apply writes_u128.
  - apply writes_str.
  - rewrite <- (app_nil_l (flat_map wire items)), <- (app_nil_r (flat_map wire items)).
    apply writes_then; [apply writes_tuple|]. apply writes_then; [apply Hgo|apply writes_tuple_end].
  - change (zlen items :: flat_map wire items) with ([zlen items] ++ flat_map wire items).
    rewrite <- (app_nil_r (flat_map wire items)).
    apply writes_then; [apply writes_seq|]. apply writes_then; [apply Hgo|apply writes_seq_end].
  - apply writes_none.
  - apply writes_some, serialize_writes.
Qed.

Lemma serialize_instruction_writes index fields :
  writes (serialize_instruction index fields) (index :: flat_map wire fields).
Proof.
  unfold serialize_instruction.
  change (index :: flat_map wire fields) with ([index] ++ flat_map wire fields).
  rewrite <- (app_nil_r (flat_map wire fields)).
  apply writes_then; [apply writes_variant|]. apply writes_then; [|apply writes_variant_end].
  induction fields as [|field fields IH]; [apply writes_ret|].
  simpl. apply writes_then; [apply serialize_writes|exact IH].
Qed.
End serializer.

(** ** Reading words *)
Section reading.
Context (words : list Z) (Hsize : zlen words ≤ i64_max).

(** [ws] is what [words] holds from [o] on. *)
Definition stored (o : Z) (ws : list Z) : Prop :=
  0 ≤ o ∧ o + zlen ws ≤ zlen words ∧ slice words o (zlen ws) = ws.

Lemma stored_app o ws1 ws2 : stored o (ws1 ++ ws2) → stored o ws1 ∧ stored (o + zlen ws1) ws2.
Proof.
  intros (Ho & Hle & E). pose proof (zlen_nonneg ws1). pose proof (zlen_nonneg ws2).
  rewrite zlen_app in Hle, E. apply slice_split in E as (_ & E1 & E2); [|lia..].
  replace (zlen ws1 + zlen ws2 - zlen ws1) with (zlen ws2) in E2 by lia.
  split; (split_and!; (done || lia)).
Qed.

Lemma stored_cons o x ws : stored o (x :: ws) → words !! Z.to_nat o = Some x ∧ stored (o + 1) ws.
Proof.
  intros [(Ho & Hle & E) Hs]%(stored_app o [x] ws). split; [|exact Hs].
  apply slice_one; [done|]. split; [exact Hle|exact E].
Qed.

Lemma word_at_stored o x ws : stored o (x :: ws) → word_at words o = Ok x.
Proof. intros [Hx _]%stored_cons. unfold word_at. by rewrite Hx. Qed.

Lemma words_range_stored o ws : stored o ws → words_range words o (zlen ws) = Ok ws.
Proof using Hsize.
  intros (Ho & Hle & E). unfold words_range, checked_add, u64_max. unfold i64_max in Hsize.
  rewrite (proj2 (Z.leb_le _ _)), (proj2 (Z.leb_le _ _)) by lia. by rewrite E.
Qed.

Lemma read_words_unsigned_stored o count n :
  (count ≤ 4)%nat → 0 ≤ n < 2 ^ (32 * Z.of_nat count) → stored o (le_digits 32 count n) →
  read_words_unsigned words o (Z.of_nat count) = Ok n.
Proof using Hsize.
  intros Hc Hn Hs. apply words_range_stored in Hs. rewrite zlen_le_digits in Hs.
  unfold read_words_unsigned. rewrite Hs, Ok_bind, (proj2 (Z.ltb_ge _ _)) by lia.
  rewrite or_shifted_value, le_value_digits; [done|lia|done|lia|by apply le_digits_wf|].
  rewrite zlen_le_digits. lia.
Qed.
End reading.

Lemma words_to_le_bytes_app ws1 ws2 :
  words_to_le_bytes (ws1 ++ ws2) = words_to_le_bytes ws1 ++ words_to_le_bytes ws2.
Proof. apply flat_map_app. Qed.

Lemma words_to_le_bytes_cons x ws :
  words_to_le_bytes (x :: ws) = le_digits 8 4 x ++ words_to_le_bytes ws.
Proof. reflexivity. Qed.

Lemma zlen_words_to_le_bytes ws : zlen (words_to_le_bytes ws) = 4 * zlen ws.
Proof.
  induction ws as [|x ws IH]; [done|].
  rewrite words_to_le_bytes_cons, zlen_app, IH, zlen_le_digits. unfold zlen. simpl length. lia.
Qed.

(** The words of an integer and its bytes have the same value. *)
Lemma words_bytes_value ws : is_words ws → le_value 8 (words_to_le_bytes ws) = le_value 32 ws.
Proof.
  induction 1 as [|x ws Hx _ IH]; [done|].
  rewrite words_to_le_bytes_cons, le_value_app, IH, zlen_le_digits by lia.
  rewrite le_value_digits by (done || lia). done.
Qed.

(** ** Bytes as words *)
Lemma words_of_bytes_spec k bs :
  length bs = (4 * k)%nat → is_bytes bs →
  words_to_le_bytes (words_of_bytes bs) = bs ∧ zlen (words_of_bytes bs) = Z.of_nat k
  ∧ is_words (words_of_bytes bs).
Proof.
  revert bs. induction k as [|k IH]; intros bs Hl Hb.
  - destruct bs; [|simpl in Hl; lia]. split_and!; [done..|constructor].
  - destruct bs as [|a [|b [|c [|d bs]]]]; simpl in Hl; try lia.
    assert (Hq : is_bytes [a; b; c; d]) by (repeat (apply Forall_cons in Hb as [? Hb]; constructor; auto); constructor).
    do 4 apply Forall_cons in Hb as [_ Hb].
    destruct (IH bs) as (E & Hz & Hw); [lia|done|].
    change (words_of_bytes (a :: b :: c :: d :: bs)) with (le_value 8 [a; b; c; d] :: words_of_bytes bs).
    pose proof (le_value_range 8 [a; b; c; d] ltac:(lia) Hq) as Hr.
    split_and!.
    + rewrite words_to_le_bytes_cons, E.
      pose proof (le_digits_value 8 [a; b; c; d] ltac:(lia) Hq) as Eq. simpl length in Eq. by rewrite Eq.
    + unfold zlen in *. simpl length. lia.
    + constructor; [exact Hr|done].
Qed.

Lemma div_ceil_4 n : 0 ≤ n → 4 * div_ceil n 4 - 3 ≤ n ≤ 4 * div_ceil n 4.
Proof. intros Hn. unfold div_ceil. pose proof (Z.div_mod (n + 4 - 1) 4). pose proof (Z.mod_pos_bound (n + 4 - 1) 4). lia. Qed.

Lemma pad_words_spec bs :
  is_bytes bs →
  take (length bs) (words_to_le_bytes (pad_words bs)) = bs ∧ zlen (pad_words bs) = div_ceil (zlen bs) 4
  ∧ is_words (pad_words bs).
Proof.
  intros Hb. pose proof (zlen_nonneg bs). pose proof (div_ceil_4 (zlen bs)). unfold pad_words.
  set (padding := replicate _ 0).
  assert (Hl : length (bs ++ padding) = (4 * Z.to_nat (div_ceil (zlen bs) 4))%nat).
  { subst padding. unfold zlen in *. rewrite length_app, length_replicate. lia. }
  assert (Hp : is_bytes (bs ++ padding)).
  { apply Forall_app. split; [done|]. apply Forall_replicate. by vm_compute. }
  destruct (words_of_bytes_spec _ _ Hl Hp) as (E & Hz & Hw). rewrite E.
  split_and!; [by rewrite take_app_length|lia|done].
Qed.

Lemma unsupported_arg_type_err `{SerdeJson} {A} ty (a : A) : unsupported_arg_type ty ≠ Ok a.
Proof. unfold unsupported_arg_type. by case_match. Qed.

(** ** Decoding what was written *)
Section decode_written.
Context `{SerdeJson} `{HexLaws} `{LeeAccountLaws}.
Context (words : list Z) (Hsize : zlen words ≤ i64_max).
#[local] Set Default Proof Using "All".

Lemma decode_string_stored o s :
  utf8_valid (as_bytes s) = true → stored words o (wire (DStr s)) →
  decode_risc0_string words o = Ok (s, zlen (wire (DStr s))).
Proof.
  intros Hu Hs. simpl wire in *. apply word_at_stored in Hs as Hw. apply stored_cons in Hs as [_ Hs].
  destruct (pad_words_spec (as_bytes s) (as_bytes_wf s)) as (Ht & Hz & _).
  apply words_range_stored in Hs; [|done]. rewrite Hz, zlen_as_bytes in Hs.
  unfold decode_risc0_string. rewrite Hw, Ok_bind, Hs, Ok_bind.
  replace (Z.to_nat (str_len s)) with (length (as_bytes s))
    by (rewrite <- zlen_as_bytes; unfold zlen; lia).
  rewrite Ht. unfold from_utf8. rewrite Hu. simpl. rewrite text_of_as_bytes. do 2 f_equal.
  change (str_len s :: pad_words (as_bytes s)) with ([str_len s] ++ pad_words (as_bytes s)).
  rewrite zlen_app, Hz, zlen_as_bytes. done.
Qed.

Lemma read_words_signed_stored o count n :
  (0 < count ≤ 4)%nat → - 2 ^ (32 * Z.of_nat count - 1) ≤ n < 2 ^ (32 * Z.of_nat count - 1) →
  stored words o (le_digits 32 count (to_unsigned (32 * Z.of_nat count) n)) →
  read_words_signed words o (Z.of_nat count) = Ok n.
Proof.
  intros Hc Hn Hs. apply words_range_stored in Hs; [|done]. rewrite zlen_le_digits in Hs.
  unfold read_words_signed. rewrite Hs, Ok_bind, (proj2 (Z.ltb_ge _ _)) by lia.
  set (ws := le_digits 32 count _). assert (Hw : is_words ws) by (apply le_digits_wf; lia).
  assert (Hz : zlen ws = Z.of_nat count) by apply zlen_le_digits.
  destruct (exists_last (l := ws)) as (l & h & E); [intros E; rewrite E in Hz; unfold zlen in Hz; simpl in Hz; lia|].
  rewrite E, last_snoc. simpl ok_or. rewrite Ok_bind, drop_replicate, Nat2Z.id.
  set (fill := if Z.land h (2 ^ 31) =? 0 then 0 else 2 ^ 32 - 1).
  rewrite words_bytes_value.
  - rewrite E in Hw, Hz. pose proof (sign_extend 32 l h (4 - count) ltac:(lia) Hw) as Hx.
    change (32 - 1) with 31 in Hx. fold fill in Hx. rewrite Hz in Hx.
    replace (32 * (Z.of_nat count + Z.of_nat (4 - count))) with 128 in Hx by lia.
    rewrite Hx, <- E. subst ws. rewrite le_value_digits, to_signed_unsigned; try (done || lia).
    apply digit_pow. lia.
  - apply Forall_app. rewrite <- E. split; [done|]. apply Forall_replicate.
    subst fill. destruct (_ =? _); by vm_compute.
Qed.

(** The decoder at a primitive, with its name given. *)
Ltac at_primitive :=
  unfold decode_instruction_primitive; cbv [String.eqb Ascii.eqb Bool.eqb orb]; cbv beta iota zeta.

Lemma narrow_decodes name lo hi (read : Z → Z) o x n ws :
  read x = n → lo ≤ n ≤ hi → stored words o (x :: ws) →
  (pair ← (word ← word_at words o;
           if in_range lo hi (read word) then Ok (pretty (read word), 1)
           else bail (name +:+ " value " +:+ pretty (read word) +:+ " is out of range"));
   Ok (mkInstruction pair.1 pair.2 name)) = Ok (mkInstruction (pretty n) 1 name).
Proof.
  intros <- Hr Hs. apply word_at_stored in Hs. rewrite Hs, Ok_bind.
  by rewrite (proj2 (in_range_spec _ _ _)).
Qed.

Lemma program_id_words id :
  ∀ raw program_id, normalize_program_id_hex raw = Ok id → program_id_from_hex id = Ok program_id →
  hex_encode (words_to_le_bytes program_id) = id ∧ zlen program_id = 8.
Proof.
  intros raw program_id (bytes & [Hb Hl] & ->)%normalize_program_id_spec. unfold program_id_from_hex.
  rewrite hex_decode_encode by done. simpl ok_or. rewrite Ok_bind.
  destruct (negb _); [done|]. intros [= <-].
  by destruct (words_of_bytes_spec 8 bytes Hl Hb) as (-> & -> & _).
Qed.

Lemma wire_u32s ws : flat_map wire (map DU32 ws) = ws.
Proof. induction ws as [|x ws IH]; [done|]. simpl. by rewrite IH. Qed.

Lemma signed_narrow bits n :
  0 < bits ≤ 32 → - 2 ^ (bits - 1) ≤ n < 2 ^ (bits - 1) → to_signed 32 (to_unsigned 32 n) = n.
Proof.
  intros Hb Hn. apply to_signed_unsigned; [done|].
  pose proof (Z.pow_le_mono_r 2 (bits - 1) (32 - 1)). lia.
Qed.

(** The integer arms of the parser: the value is in range and is reported. *)
Lemma parsed_integer msg (parse : string → option Z) dynamic seed raw p (lo hi : Z) :
  (∀ n, parse raw = Some n → lo ≤ n < hi) →
  (value ← ok_or msg (parse raw); Ok (mkParsed (pretty value) (dynamic value) (seed value))) = Ok p →
  ∃ n, lo ≤ n < hi ∧ pv_report_value p = pretty n ∧ pv_dynamic p = dynamic n.
Proof. intros Hr (n & Hn%ok_or_Ok & [= <-])%bind_Ok. eauto. Qed.

Lemma parsed_signed bits msg dynamic seed raw p :
  (value ← ok_or msg (parse_signed bits raw); Ok (mkParsed (pretty value) (dynamic value) (seed value)))
    = Ok p →
  ∃ n, - 2 ^ (bits - 1) ≤ n < 2 ^ (bits - 1) ∧ pv_report_value p = pretty n ∧ pv_dynamic p = dynamic n.
Proof. apply (parsed_integer _ (parse_signed bits)). apply parse_signed_range. Qed.

Lemma parsed_unsigned bits msg dynamic seed raw p :
  (value ← ok_or msg (parse_unsigned bits raw); Ok (mkParsed (pretty value) (dynamic value) (seed value)))
    = Ok p →
  ∃ n, 0 ≤ n < 2 ^ bits ∧ pv_report_value p = pretty n ∧ pv_dynamic p = dynamic n.
Proof. apply (parsed_integer _ (parse_unsigned bits)). apply parse_unsigned_range. Qed.

Ltac signed_arm Hp n Hn := apply parsed_signed in Hp as (n & Hn & -> & ->).
Ltac unsigned_arm Hp n Hn := apply parsed_unsigned in Hp as (n & Hn & -> & ->).
Ltac narrow_arm name read x n :=
  at_primitive; apply (narrow_decodes name _ _ read _ x n []); [|lia|done].
Ltac word_arm Hs := at_primitive; apply word_at_stored in Hs; rewrite Hs, !Ok_bind.
Ltac wide_arm stored_value :=
  let E := fresh in pose proof stored_value as E;
  cbv [Z.of_nat Pos.of_succ_nat Pos.succ] in E; at_primitive; by rewrite E.

Lemma parsed_primitive_decodes raw name p o :
  parse_primitive raw name = Ok p → utf8_valid (as_bytes (trim raw)) = true →
  stored words o (wire (pv_dynamic p)) →
  decode_instruction_primitive name words o
  = Ok (mkInstruction (pv_report_value p) (zlen (wire (pv_dynamic p))) name).
Proof.
  unfold parse_primitive. intros Hp Hu Hs. revert Hs.
  destruct (String.eqb_spec name "bool") as [->|_].
  { revert Hp. case_bool_decide; [|case_bool_decide; [|done]]; intros [= <-] Hs; by word_arm Hs. }
  destruct (String.eqb_spec name "i8") as [->|_].
  { signed_arm Hp n Hn. intros Hs. narrow_arm "i8" (to_signed 32) (to_unsigned 32 n) n. by apply (signed_narrow 8). }
  destruct (String.eqb_spec name "i16") as [->|_].
  { signed_arm Hp n Hn. intros Hs. narrow_arm "i16" (to_signed 32) (to_unsigned 32 n) n. by apply (signed_narrow 16). }
  destruct (String.eqb_spec name "i32") as [->|_].
  { signed_arm Hp n Hn. intros Hs. word_arm Hs. simpl. by rewrite (signed_narrow 32). }
  destruct (String.eqb_spec name "i64") as [->|_].
  { signed_arm Hp n Hn. intros Hs. wide_arm (read_words_signed_stored o 2 n ltac:(lia) Hn Hs). }
  destruct (String.eqb_spec name "i128") as [->|_].
  { signed_arm Hp n Hn. intros Hs. wide_arm (read_words_signed_stored o 4 n ltac:(lia) Hn Hs). }
  destruct (String.eqb_spec name "u8") as [->|_].
  { unsigned_arm Hp n Hn. intros Hs. narrow_arm "u8" (@id Z) n n. done. }
  destruct (String.eqb_spec name "u16") as [->|_].
  { unsigned_arm Hp n Hn. intros Hs. narrow_arm "u16" (@id Z) n n. done. }
  destruct (String.eqb_spec name "u32") as [->|_].
  { unsigned_arm Hp n Hn. intros Hs. by word_arm Hs. }
  destruct (String.eqb_spec name "u64") as [->|_].
  { unsigned_arm Hp n Hn. intros Hs. wide_arm (read_words_unsigned_stored words Hsize o 2 n ltac:(lia) Hn Hs). }
  destruct (String.eqb_spec name "u128") as [->|_].
  { unsigned_arm Hp n Hn. intros Hs. wide_arm (read_words_unsigned_stored words Hsize o 4 n ltac:(lia) Hn Hs). }
  destruct (String.eqb_spec name "string") as [->|_].
  { injection Hp as <-. intros Hs. at_primitive. by rewrite (decode_string_stored o (trim raw)). }
  destruct (String.eqb_spec name "String") as [->|_].
  { injection Hp as <-. intros Hs. at_primitive. by rewrite (decode_string_stored o (trim raw)). }
  destruct (String.eqb_spec name "account_id") as [->|_].
  { apply bind_Ok in Hp as (a & Ha & [= <-]). intros Hs.
    apply parse_account_id_wf in Ha. at_primitive.
    rewrite (decode_string_stored o (account_to_string a)); [|by apply plain_utf8, account_text_plain|exact Hs].
    rewrite Ok_bind. simpl fst. by rewrite account_parse_to_string. }
  destruct (String.eqb_spec name "program_id") as [->|_]; [|done].
  apply bind_Ok in Hp as (id & Hid & Hp). apply bind_Ok in Hp as (program_id & Hpid & [= <-]).
  destruct (program_id_words id _ _ Hid Hpid) as [E Hz]. simpl. rewrite wire_u32s. intros Hs.
  apply words_range_stored in Hs; [|done]. rewrite Hz in Hs |- *. at_primitive. rewrite Hs, !Ok_bind.
  simpl. by rewrite E.
Qed.

(** The argument types whose report is what the decoder shows: primitives,
    options of them, and arrays of [u32]. *)
Inductive displayed : Value → Prop :=
  | DispPrimitive name : displayed (VString name)
  | DispOption object inner :
      map_get "option" object = Some inner → map_get "array" object = None →
      map_get "vec" object = None → displayed inner → displayed (VObject object)
  | DispArray object len :
      map_get "option" object = None →
      fixed_array_type (VObject object) = Ok (Some (VString "u32", len)) →
      displayed (VObject object).

Lemma decode_u32_items n ws o :
  stored words o ws →
  decode_items (decode_instruction_at (S n) words (VString "u32")) (length ws) o
  = Ok (map pretty ws, o + zlen ws).
Proof.
  assert (Hd : ∀ o x ws, stored words o (x :: ws) →
    decode_instruction_at (S n) words (VString "u32") o = Ok (mkInstruction (pretty x) 1 "u32")).
  { intros o' x ws' Hx%word_at_stored.
    assert (E : decode_instruction_primitive "u32" words o' = Ok (mkInstruction (pretty x) 1 "u32"))
      by (at_primitive; by rewrite Hx).
    transitivity (decoded ← decode_instruction_primitive "u32" words o';
                  Ok (mkInstruction (id_value decoded) (id_consumed decoded) "u32")); [done|by rewrite E]. }
  revert o Hd. generalize (decode_instruction_at (S n) words (VString "u32")). intros decode o Hd.
  revert o. induction ws as [|x ws IH]; intros o Hs; simpl.
  - unfold zlen. simpl. do 2 f_equal. lia.
  - rewrite (Hd _ _ _ Hs). apply stored_cons in Hs as [_ Hs]. simpl. rewrite IH by done. simpl.
    do 2 f_equal. unfold zlen. simpl length. lia.
Qed.

Lemma traverse_length {A B} (f : A → Result B) l l' : traverse f l = Ok l' → length l' = length l.
Proof.
  revert l'. induction l as [|a l IH]; intros l'; simpl; [by intros [= <-]|].
  intros (b & _ & E)%bind_Ok. apply bind_Ok in E as (bs & Hbs & [= <-]). simpl. by rewrite (IH bs).
Qed.

Lemma parsed_u32_array raw size p :
  parse_u32_array raw size = Ok p →
  ∃ values, length values = Z.to_nat size ∧ pv_dynamic p = DTuple (map DU32 values)
    ∧ pv_report_value p = "[" +:+ String.concat ", " (map pretty values) +:+ "]".
Proof.
  unfold parse_u32_array. set (parts := map trim _).
  destruct (Z.eqb_spec (zlen parts) size) as [Hz|]; simpl; [|done].
  intros (values & Hv & [= <-])%bind_Ok. apply traverse_length in Hv. exists values.
  split_and!; [|done..]. unfold zlen in Hz. lia.
Qed.

Lemma parsed_displayed_decodes ty :
  displayed ty → ∀ fuel n raw p o,
  parse_typed_value_at fuel raw ty = Ok p → utf8_valid (as_bytes (trim raw)) = true →
  (value_depth ty < n)%nat → stored words o (wire (pv_dynamic p)) →
  decode_instruction_at n words ty o
  = Ok (mkInstruction (pv_report_value p) (zlen (wire (pv_dynamic p))) (idl_type_label ty)).
Proof.
  induction 1 as [name|object inner Ho Ha Hv Hd IH|object len Ho Ha];
    intros [|fuel] n raw p o Hp Hu Hn Hs; try (by apply unsupported_arg_type_err in Hp);
    (destruct n as [|n]; [lia|]); simpl in Hp; apply bind_Ok in Hp as (_ & _ & Hp).
  - simpl. unfold decode_instruction_body. simpl as_str. cbv iota.
    by rewrite (parsed_primitive_decodes raw name p o).
  - rewrite (proj2 (fixed_array_none object)) in Hp by done. simpl in Hp. rewrite Hv, Ho in Hp.
    simpl decode_instruction_at. unfold decode_instruction_body. simpl ok_or. rewrite Ok_bind, Ho.
    destruct (is_empty (trim raw) || bool_decide (trim raw ∈ ["none"; "null"])).
    + injection Hp as <-. simpl in Hs. apply stored_cons in Hs as [Hx _]. by rewrite Hx.
    + apply bind_Ok in Hp as (parsed & Hparsed & [= <-]). simpl in Hs.
      apply stored_cons in Hs as [Hx Hs]. rewrite Hx. simpl.
      apply map_get_depth in Ho. rewrite (IH fuel n raw parsed (o + 1)) by (done || lia). simpl.
      do 2 f_equal. unfold zlen. simpl length. lia.
  - rewrite Ha, Ok_bind in Hp. unfold parse_array in Hp. rewrite Ha, Ok_bind in Hp. simpl in Hp.
    apply parsed_u32_array in Hp as (values & Hl & Ed & Er). rewrite Ed, Er in *. simpl wire in *.
    rewrite wire_u32s in *. simpl decode_instruction_at. unfold decode_instruction_body.
    simpl as_str. cbv iota. simpl ok_or. rewrite Ok_bind, Ho, Ha, Ok_bind, <- Hl.
    apply fixed_array_type_spec in Ha as [_ Hdepth]. destruct n as [|n]; [lia|].
    rewrite decode_u32_items by done. rewrite Ok_bind. simpl. do 2 f_equal. lia.
Qed.
End decode_written.

Section roundtrip.
Context `{SerdeJson} `{HexLaws} `{LeeAccountLaws} `{Risc0Laws}.
#[local] Set Default Proof Using "All".

End roundtrip.

(** ** Fuel *)
Section fuel.
Context `{SerdeJson} `{HexCrate} `{LeeAccounts}.

Lemma validate_fuel n m ty :
  (value_depth ty < n)%nat → (value_depth ty < m)%nat →
  validate_interaction_type_at n ty = validate_interaction_type_at m ty.
Proof.
  revert m ty. induction n as [|n IH]; intros [|m] ty Hn Hm; try lia. simpl.
  destruct (as_str ty); [done|]. destruct (fixed_array_type ty) as [[[elem len]|]|]; simpl; try done.
  destruct (value_get "vec" ty); [done|]. destruct (value_get "option" ty) eqn:Eo; [|done].
  apply value_get_depth in Eo. apply IH; lia.
Qed.

Lemma parse_fuel n m raw ty :
  (value_depth ty < n)%nat → (value_depth ty < m)%nat →
  parse_typed_value_at n raw ty = parse_typed_value_at m raw ty.
Proof.
  revert m ty. induction n as [|n IH]; intros [|m] ty Hn Hm; try lia. simpl.
  destruct (validate_interaction_type ty); [|done]. simpl.
  destruct (as_str ty); [done|]. destruct (fixed_array_type ty) as [[[elem len]|]|]; simpl; try done.
  destruct (value_get "vec" ty); [done|]. destruct (value_get "option" ty) eqn:Eo; [|done].
  apply value_get_depth in Eo. by rewrite (IH m) by lia.
Qed.
End fuel.

(** ** Seeds *)
Section seeds.
Context `{SerdeJson} `{HexLaws} `{LeeAccountLaws}.
#[local] Set Default Proof Using "All".

(** A derivation seed, when there is one, is 32 bytes. *)
Definition seed_ok (p : ParsedValue) : Prop := ∀ seed, pv_seed_bytes p = Some seed → account_wf seed.

Lemma zero_seed_ok prefix suffix :
  is_bytes prefix → is_bytes suffix → (length prefix + length suffix ≤ 32)%nat →
  account_wf (zero_seed prefix suffix).
Proof.
  intros Hp Hs Hl. unfold zero_seed. split.
  - apply Forall_app. split; [done|]. apply Forall_app. split; [|done].
    apply Forall_replicate. by vm_compute.
  - rewrite !length_app, length_replicate. lia.
Qed.

Lemma integer_seed_ok count n :
  bool_decide (count ≤ 32)%nat = true → account_wf (zero_seed [] (reverse (le_digits 8 count n))).
Proof.
  intros Hc%bool_decide_eq_true.
  apply zero_seed_ok; [apply Forall_nil_2|by apply Forall_reverse, le_digits_wf|].
  by rewrite length_reverse, length_le_digits.
Qed.

Lemma no_seed_ok p : pv_seed_bytes p = None → seed_ok p.
Proof. intros E seed. by rewrite E. Qed.

Lemma parse_primitive_seed raw name p : parse_primitive raw name = Ok p → seed_ok p.
Proof.
  unfold parse_primitive. intros Hp.
  repeat match type of Hp with (if ?b then _ else _) = _ => destruct b end; try done;
    try (apply bind_Ok in Hp as (n & Hn & Hp)); try (apply bind_Ok in Hp as (m & Hm & Hp));
    injection Hp as <-; try (by apply no_seed_ok); intros seed; simpl pv_seed_bytes.
  - intros [= <-]. by apply (integer_seed_ok 8 n).
  - intros [= <-]. by apply (integer_seed_ok 16 n).
  - destruct (Z.leb_spec (zlen (as_bytes (trim raw))) 32); [|done]. intros [= <-].
    apply zero_seed_ok; [apply as_bytes_wf|apply Forall_nil_2|]. unfold zlen in *. simpl. lia.
  - intros [= <-]. by apply parse_account_id_wf in Hn.
Qed.

Lemma parse_u8_array_seed raw size p : parse_u8_array raw size = Ok p → seed_ok p.
Proof.
  unfold parse_u8_array. intros (bytes & Hb & Hp)%bind_Ok.
  assert (is_bytes bytes).
  { destruct (strip_any _ _); [by apply ok_or_Ok, hex_decode_bytes in Hb|].
    destruct (_ && _); [by apply ok_or_Ok, hex_decode_bytes in Hb|].
    destruct (size <? _); [done|]. injection Hb as <-. apply Forall_app.
    split; [apply as_bytes_wf|]. apply Forall_replicate. by vm_compute. }
  destruct (Z.eqb_spec (zlen bytes) size) as [Hz|]; simpl in Hp; [|done]. injection Hp as <-.
  intros seed. simpl. destruct (Z.eqb_spec size 32) as [->|]; [|done]. intros [= <-].
  split; [done|]. unfold zlen in Hz. lia.
Qed.

Lemma typed_value_seed raw ty p : parse_typed_value raw ty = Ok p → seed_ok p.
Proof.
  unfold parse_typed_value. generalize (S (value_depth ty)). intros fuel. revert ty p.
  induction fuel as [|fuel IH]; intros ty p Hp; [by apply unsupported_arg_type_err in Hp|].
  simpl in Hp. apply bind_Ok in Hp as (_ & _ & Hp).
  destruct (as_str ty); [by apply parse_primitive_seed in Hp|].
  apply bind_Ok in Hp as ([[elem len]|] & Ha & Hp).
  { unfold parse_array in Hp. rewrite Ha in Hp. simpl in Hp.
    case_bool_decide; [by apply parse_u8_array_seed in Hp|]. case_bool_decide; [|done].
    unfold parse_u32_array in Hp. destruct (negb _); [done|].
    apply bind_Ok in Hp as (values & _ & [= <-]). by apply no_seed_ok. }
  destruct (value_get "vec" ty).
  { unfold parse_vec in Hp. apply bind_Ok in Hp as ([[array_elem size]|] & _ & Hp);
      repeat (case_bool_decide; simpl in Hp; try done);
      apply bind_Ok in Hp as (values & _ & [= <-]); by apply no_seed_ok. }
  destruct (value_get "option" ty); [|by apply unsupported_arg_type_err in Hp].
  destruct (_ || _); [injection Hp as <-; by apply no_seed_ok|].
  apply bind_Ok in Hp as (parsed & Hparsed & [= <-]). exact (IH _ _ Hparsed).
Qed.

(** Derivation seeds are always 32 bytes: whatever typed text is parsed for
    whatever argument type, a seed that comes out has exactly 32 bytes, each in
    range, so the copies into fixed arrays are in bounds. *)
Theorem parsed_seed_is_32_bytes raw ty p :
  parse_typed_value raw ty = Ok p → seed_ok p.
Proof. apply typed_value_seed. Qed.
End seeds.
