(* ===== verification/InstructionVariants.v ===== *)
(** * Instruction variants

    decode/instruction_variant.rs: the mapping between the instruction rows of
    an IDL and the variant index on the wire, positional or declared per row. *)

From S2P Require Import Prelude Json Bytes IdlTypes InstructionCodec.

Definition u32_max : Z := 2 ^ 32 - 1.

Record InstructionVariantMap : Type := mkVariantMap {
  vm_instructions : list Value;
  vm_variant_indices : list Z;
}.

Definition instruction_name (instruction : Value) (row_index : Z) : string :=
  default ("row_" +:+ pretty row_index)
    (name ← value_get "name" instruction ≫= as_str; if is_empty name then None else Some name).

Definition declared_variant_index (instruction : Value) (name : string) : Result (option Z) :=
  match value_get "variant_index" instruction with
  | None => Ok None
  | Some value =>
      index ← ok_or ("instruction `" +:+ name +:+ "` variant_index must be a u32 integer")
                (value ← as_u64 value; if value <=? u32_max then Some value else None);
      Ok (Some index)
  end.

(** [iter().enumerate().map(f).collect::<Result<Vec<_>>>()]. *)
Fixpoint collect_rows {B} (f : Z → Value → Result B) (row_index : Z) (rows : list Value)
    : Result (list B) :=
  match rows with
  | [] => Ok []
  | row :: rows' =>
      b ← f row_index row;
      bs ← collect_rows f (row_index + 1) rows';
      Ok (b :: bs)
  end.

Definition positional_row (row_index : Z) (instruction : Value) : Result Z :=
  if u32_max <? row_index then bail "IDL has too many instructions"
  else
    let expected := row_index in
    let name := instruction_name instruction row_index in
    declared ← declared_variant_index instruction name;
    match declared with
    | Some declared =>
        if negb (declared =? expected)
        then bail ("instruction `" +:+ name +:+ "` declares variant_index " +:+ pretty declared
                   +:+ ", but positional IDL order requires " +:+ pretty expected)
        else Ok expected
    | None => Ok expected
    end.

Definition positional_variant_indices (instructions : list Value) : Result (list Z) :=
  collect_rows positional_row 0 instructions.

Definition declared_row (row_index : Z) (instruction : Value) : Result (string * option Z) :=
  let name := instruction_name instruction row_index in
  variant_index ← declared_variant_index instruction name;
  Ok (name, variant_index).

Section external.
Context `{SerdeJson}.

Definition external_instruction_type (idl : Value) : Result (option string) :=
  match value_get "instruction_type" idl with
  | None | Some VNull => Ok None
  | Some instruction_type =>
      if match as_str instruction_type with Some value => is_empty (trim value) | None => false end
      then bail "IDL instruction_type must not be blank"
      else Ok (Some (idl_type_label instruction_type))
  end.

(** The loop over the declared rows: [owners] has the indices taken so far. *)
Fixpoint claim_indices (external_type : string) (count : Z) (declared : list (string * option Z))
    (owners : gmap Z string) : Result (list Z) :=
  match declared with
  | [] => Ok []
  | (name, declared_variant_index) :: declared' =>
      variant_index ← ok_or ("IDL uses external instruction_type `" +:+ external_type
                             +:+ "`; instruction `" +:+ name +:+ "` must declare a u32 variant_index")
                        declared_variant_index;
      if count <=? variant_index then
        bail ("instruction `" +:+ name +:+ "` variant_index " +:+ pretty variant_index
              +:+ " is outside the required 0.." +:+ pretty (saturating_sub count 1)
              +:+ " permutation for external instruction_type `" +:+ external_type +:+ "`")
      else match owners !! variant_index with
      | Some previous =>
          bail ("instructions `" +:+ previous +:+ "` and `" +:+ name +:+ "` both declare variant_index "
                +:+ pretty variant_index +:+ " for external instruction_type `" +:+ external_type +:+ "`")
      | None =>
          indices ← claim_indices external_type count declared' (<[variant_index := name]> owners);
          Ok (variant_index :: indices)
      end
  end.

Definition external_variant_indices (instructions : list Value) (external_type : string)
    : Result (list Z) :=
  if u32_max <? zlen instructions then bail "IDL has too many instructions"
  else
    declared ← collect_rows declared_row 0 instructions;
    if forallb (λ row, bool_decide (row.2 = None)) declared
    then positional_variant_indices instructions
    else claim_indices external_type (zlen instructions) declared ∅.

Definition variant_map_from_idl (idl : Value) : Result InstructionVariantMap :=
  instructions ← ok_or "IDL has no instructions array" (value_get "instructions" idl ≫= as_array);
  external_type ← external_instruction_type idl;
  variant_indices ← match external_type with
                    | Some external_type => external_variant_indices instructions external_type
                    | None => positional_variant_indices instructions
                    end;
  Ok (mkVariantMap instructions variant_indices).
End external.

Definition variant_index (m : InstructionVariantMap) (row_index : Z) : Result Z :=
  ok_or ("IDL instruction row " +:+ pretty row_index +:+ " not found")
    (vm_variant_indices m !! Z.to_nat row_index).

Fixpoint position (x : Z) (l : list Z) : option Z :=
  match l with
  | [] => None
  | y :: l' => if y =? x then Some 0 else (λ i, i + 1) <$> position x l'
  end.

Definition instruction_for_variant (m : InstructionVariantMap) (variant_index : Z) : Result Value :=
  row_index ← ok_or ("IDL instruction variant " +:+ pretty variant_index +:+ " not found")
                (position variant_index (vm_variant_indices m));
  ok_or ("IDL instruction row " +:+ pretty row_index +:+ " not found")
    (vm_instructions m !! Z.to_nat row_index).

(** ** Lemmas *)
Lemma collect_rows_length {B} (f : Z → Value → Result B) i rows bs :
  collect_rows f i rows = Ok bs → length bs = length rows.
Proof.
  revert i bs. induction rows as [|row rows IH]; intros i bs; simpl; [by intros [= <-]|].
  intros (b & _ & E)%bind_Ok. apply bind_Ok in E as (bs' & E & [= <-]). simpl. by rewrite (IH _ _ E).
Qed.

Lemma positional_row_index i row x : positional_row i row = Ok x → x = i.
Proof.
  unfold positional_row. destruct (u32_max <? i); [done|].
  intros ([declared|] & _ & E)%bind_Ok; [|by injection E].
  destruct (negb _); [done|]. by injection E.
Qed.

Lemma positional_indices rows : ∀ i indices,
  collect_rows positional_row i rows = Ok indices → indices = seqZ i (zlen rows).
Proof.
  unfold zlen. induction rows as [|row rows IH]; intros i indices; [by intros [= <-]|].
  simpl collect_rows. intros (x & Hx%positional_row_index & E)%bind_Ok. subst x.
  apply bind_Ok in E as (rest & E & [= <-]). rewrite (IH _ _ E).
  rewrite length_cons, (seqZ_cons i) by lia. do 2 f_equal; lia.
Qed.

Lemma claim_indices_spec external_type count declared : ∀ owners indices,
  (∀ x v, owners !! x = Some v → 0 ≤ x < count) →
  Forall (λ row, ∀ x, row.2 = Some x → 0 ≤ x) declared →
  claim_indices external_type count declared owners = Ok indices →
  length indices = length declared ∧ NoDup indices
  ∧ Forall (λ x, 0 ≤ x < count ∧ owners !! x = None) indices.
Proof.
  induction declared as [|[name declared_index] declared IH]; intros owners indices Ho Hd; simpl.
  - intros [= <-]. split_and!; constructor.
  - apply Forall_cons in Hd as [Hx Hd]. intros (x & ->%ok_or_Ok & E)%bind_Ok.
    specialize (Hx x eq_refl). destruct (Z.leb_spec count x); [done|].
    destruct (owners !! x) eqn:Eo; [done|]. apply bind_Ok in E as (rest & E & [= <-]).
    apply IH in E as (Hl & Hn & Hf); [| |done].
    + simpl. split_and!; [by rewrite Hl| |].
      * constructor; [|done]. intros Hin. rewrite Forall_forall in Hf. destruct (Hf x Hin) as [_ Hf'].
        by rewrite lookup_insert_eq in Hf'.
      * constructor; [done|]. eapply Forall_impl; [exact Hf|]. intros y [Hy1 Hy2].
        apply lookup_insert_None in Hy2 as [? ?]. done.
    + intros y v. rewrite lookup_insert_Some. intros [[<- <-]|[_ Hy]]; [lia|by eapply Ho].
Qed.

Lemma declared_rows_nonneg i rows declared :
  collect_rows declared_row i rows = Ok declared → Forall (λ row, ∀ x, row.2 = Some x → 0 ≤ x) declared.
Proof.
  revert i declared. induction rows as [|row rows IH]; intros i declared; simpl; [by intros [= <-]|].
  intros (b & Hb & E)%bind_Ok. apply bind_Ok in E as (bs & E & [= <-]). constructor; [|by eapply IH].
  unfold declared_row in Hb. apply bind_Ok in Hb as (d & Hd & [= <-]). simpl. intros x ->.
  unfold declared_variant_index in Hd. destruct (value_get "variant_index" row); [|done].
  apply bind_Ok in Hd as (x' & Hx%ok_or_Ok & [= ->]).
  destruct (as_u64 _) as [n|] eqn:En; simpl in Hx; [|done]. destruct (n <=? u32_max); [|done].
  injection Hx as <-. by apply as_u64_range in En as [? _].
Qed.

(** Distinct indices below the number of rows are a permutation of them. *)
Lemma indices_permutation indices n :
  length indices = n → NoDup indices → Forall (λ x, 0 ≤ x < Z.of_nat n) indices →
  indices ≡ₚ seqZ 0 (Z.of_nat n).
Proof.
  intros Hl Hn Hf. apply submseteq_length_Permutation.
  - apply NoDup_submseteq; [done|]. intros x Hx. apply elem_of_seqZ. rewrite Forall_forall in Hf.
    specialize (Hf x Hx). lia.
  - rewrite length_seqZ. lia.
Qed.

Lemma position_lookup l i x : NoDup l → l !! i = Some x → position x l = Some (Z.of_nat i).
Proof.
  revert i. induction l as [|y l IH]; intros [|i] Hn Hl; simplify_eq/=; [by rewrite Z.eqb_refl|].
  apply NoDup_cons in Hn as [Hy Hn]. destruct (Z.eqb_spec y x) as [->|].
  - destruct Hy. by eapply list_elem_of_lookup_2.
  - rewrite (IH i) by done. simpl. f_equal. lia.
Qed.

Section variant_theorems.
Context `{SerdeJson}.

Lemma variant_indices_permutation idl m :
  variant_map_from_idl idl = Ok m → vm_variant_indices m ≡ₚ seqZ 0 (zlen (vm_instructions m)).
Proof.
  unfold variant_map_from_idl. intros (instructions & _ & E)%bind_Ok.
  apply bind_Ok in E as (external_type & _ & E). apply bind_Ok in E as (indices & E & [= <-]). simpl.
  assert (Hpos : ∀ indices, positional_variant_indices instructions = Ok indices →
    indices ≡ₚ seqZ 0 (zlen instructions)) by (by intros ? ->%positional_indices).
  destruct external_type as [external_type|]; [|by apply Hpos].
  unfold external_variant_indices in E. destruct (u32_max <? _); [done|].
  apply bind_Ok in E as (declared & Hd & E). destruct (forallb _ declared); [by apply Hpos|].
  apply claim_indices_spec in E as (Hl & Hn & Hf);
    [|by intros x v Hx; rewrite lookup_empty in Hx|by eapply declared_rows_nonneg].
  apply collect_rows_length in Hd. apply indices_permutation; [lia|done|].
  eapply Forall_impl; [exact Hf|]. by intros x [Hx _].
Qed.

(** The variant map of an accepted IDL is a bijection: every row has a
    variant index, the indices are exactly those below the number of rows, and
    looking up the index of a row gives back that row. *)
Theorem variant_map_bijective idl m :
  variant_map_from_idl idl = Ok m →
  (∀ i row, vm_instructions m !! i = Some row →
     ∃ v, variant_index m (Z.of_nat i) = Ok v ∧ 0 ≤ v < zlen (vm_instructions m)
          ∧ instruction_for_variant m v = Ok row)
  ∧ (∀ v, 0 ≤ v < zlen (vm_instructions m) → ∃ i row,
       variant_index m (Z.of_nat i) = Ok v ∧ vm_instructions m !! i = Some row
       ∧ instruction_for_variant m v = Ok row).
Proof.
  intros Hp%variant_indices_permutation.
  assert (Hn : NoDup (vm_variant_indices m)) by (rewrite Hp; apply NoDup_seqZ).
  assert (Hl : length (vm_variant_indices m) = length (vm_instructions m)).
  { rewrite Hp, length_seqZ. unfold zlen. lia. }
  assert (Hrow : ∀ i v row, vm_variant_indices m !! i = Some v → vm_instructions m !! i = Some row →
    variant_index m (Z.of_nat i) = Ok v ∧ instruction_for_variant m v = Ok row).
  { intros i v row Hv Hr. unfold variant_index, instruction_for_variant.
    rewrite (position_lookup _ i) by done. simpl. rewrite !Nat2Z.id, Hr. by rewrite Hv. }
  split.
  - intros i row Hr. destruct (lookup_lt_is_Some_2 (vm_variant_indices m) i) as [v Hv].
    { rewrite Hl. by eapply lookup_lt_Some. }
    exists v. destruct (Hrow _ _ _ Hv Hr). split_and!; try done;
      apply list_elem_of_lookup_2 in Hv; rewrite Hp in Hv; apply elem_of_seqZ in Hv; lia.
  - intros v Hv. assert (v ∈ vm_variant_indices m) as [i Hi]%list_elem_of_lookup_1.
    { rewrite Hp. apply elem_of_seqZ. lia. }
    destruct (lookup_lt_is_Some_2 (vm_instructions m) i) as [row Hr].
    { rewrite <- Hl. by eapply lookup_lt_Some. }
    exists i, row. destruct (Hrow _ _ _ Hi Hr). done.
Qed.
End variant_theorems.
