(* ===== verification/Reports.v ===== *)
(** * Decode reports

    decode/reports.rs: account data, event data and instruction words decoded
    against an IDL and laid out as rows.  The account chosen for unlabelled data
    is the one that explains most of it; an event is accepted only when its type
    explains all of it. *)

From S2P Require Import Prelude Json Bytes IdlTypes Borsh BorshSpec EntityIds InstructionCodec.
From S2P Require Import InstructionVariants.

Record DecodedField : Type := mkField { df_path : string; df_value : string }.

Record AccountIdlDecodeReport : Type := mkAccountReport {
  ar_account_id : option string;
  ar_account_type : string;
  ar_consumed_bytes : Z;
  ar_total_bytes : Z;
  ar_remaining_bytes : Z;
  ar_remaining_data_hex : option string;
  ar_decoded : Value;
  ar_rows : list DecodedField;
}.

Record EventIdlDecodeReport : Type := mkEventReport {
  er_event : string;
  er_consumed_bytes : Z;
  er_total_bytes : Z;
  er_decoded : Value;
  er_rows : list DecodedField;
}.

Record InstructionDecodeReport : Type := mkInstructionReport {
  ir_program_id : string;
  ir_idl_name : option string;
  ir_instruction : string;
  ir_variant_index : Z;
  ir_accounts : list DecodedField;
  ir_args : list DecodedField;
  ir_decode_error : option string;
  ir_remaining_words : list Z;
}.

(** [format!("{error:#}")]: the chain of messages. *)
Definition error_text (e : Error) : string := String.concat ": " e.

Definition prefixed (prefix key : string) : string :=
  if is_empty prefix then key else prefix +:+ "." +:+ key.
Definition prefix_or_value (prefix : string) : string :=
  if is_empty prefix then "value" else prefix.

Definition name_of (default_name : string) (v : Value) : string :=
  default default_name (value_get "name" v ≫= as_str).
Definition idl_event_name (event : Value) : string := name_of "unknown" event.

Definition idl_event_extension_enabled (idl : Value) : bool :=
  bool_decide (value_get "x-logos-inspector-events" idl ≫= as_bool = Some true)
  || bool_decide (((value_get "extensions" idl ≫= value_get "logos_inspector_events") ≫= as_bool)
                  = Some true).

(** [event_name.map(str::trim).filter(|value| !value.is_empty())]. *)
Definition selected_name (name : option string) : option string :=
  value ← trim <$> name; if is_empty value then None else Some value.

Definition select_idl_event (idl : Value) (event_name : option string) : Result Value :=
  if negb (idl_event_extension_enabled idl) then
    bail "event decode requires explicit nonstandard events extension; pinned SPEL IDL has no event schema"
  else
    events ← ok_or "IDL has no events array" (value_get "events" idl ≫= as_array);
    match events with
    | [] => bail "IDL events array is empty"
    | _ =>
        match selected_name event_name with
        | Some selected =>
            ok_or ("IDL event `" +:+ selected +:+ "` not found") (List.find (has_name selected) events)
        | None =>
            match events with
            | [event] => Ok event
            | _ =>
                bail ("event name required because IDL has " +:+ pretty (zlen events) +:+ " events: "
                      +:+ String.concat ", " (map idl_event_name events))
            end
        end
    end.

Section reports.
Context `{SerdeJson} `{HexCrate} `{LeeAccounts}.

Definition value_to_string (value : Value) : string :=
  match value with
  | VString value => value
  | VBool value => bool_text value
  | VNull => "null"
  | VNumber _ | VArray _ | VObject _ => to_string value
  end.

(** The rows of a decoded value; its depth is fuel enough. *)
Fixpoint flatten_at (fuel : nat) (value : Value) (prefix : string) : list DecodedField :=
  match fuel with
  | O => []
  | S n =>
      match value with
      | VObject object =>
          match map_get "variant" object with
          | Some variant =>
              mkField (prefixed prefix "variant") (value_to_string variant)
              :: match map_get "fields" object with
                 | Some fields => flatten_at n fields prefix
                 | None => []
                 end
          | None =>
              match object with
              | [] => [mkField (prefix_or_value prefix) "{}"]
              | _ => flat_map (λ '(key, child), flatten_at n child (prefixed prefix key)) object
              end
          end
      | VArray items =>
          match items with
          | [] => [mkField (prefix_or_value prefix) "[]"]
          | _ =>
              concat (imap (λ index child,
                flatten_at n child (prefix_or_value prefix +:+ "[" +:+ pretty (Z.of_nat index) +:+ "]")) items)
          end
      | _ => [mkField (prefix_or_value prefix) (value_to_string value)]
      end
  end.
Definition flatten_decoded_value (value : Value) (prefix : string) : list DecodedField :=
  flatten_at (S (value_depth value)) value prefix.

Definition account_idl_decode_report (account_id : option string) (account_type : string)
    (decoded : DecodedValue) (bytes : list Z) : AccountIdlDecodeReport :=
  let remaining := drop (Z.to_nat (dv_consumed decoded)) bytes in
  let remaining_data_hex := match remaining with [] => None | _ => Some (hex_encode remaining) end in
  let rows := flatten_decoded_value (dv_value decoded) EmptyString in
  let rows := match remaining_data_hex with
              | Some hex => rows ++ [mkField "remaining_data_hex" hex]
              | None => rows
              end in
  mkAccountReport account_id account_type (dv_consumed decoded) (zlen bytes) (zlen remaining)
    remaining_data_hex (dv_value decoded) rows.

(** The loop over the accounts of the IDL. *)
Fixpoint try_accounts (idl : Value) (bytes : list Z) (selected account_id : option string)
    (accounts : list Value) (attempted : list string) (best_partial : option (string * DecodedValue))
    : Result AccountIdlDecodeReport :=
  match accounts with
  | [] =>
      match best_partial with
      | Some (name, decoded) => Ok (account_idl_decode_report account_id name decoded bytes)
      | None =>
          match selected with
          | Some selected => bail ("IDL account `" +:+ selected +:+ "` not found")
          | None =>
              bail ("no IDL account shape decoded the data: " +:+ String.concat "; " attempted)
          end
      end
  | account :: accounts' =>
      let name := name_of "unknown" account in
      let next := try_accounts idl bytes selected account_id accounts' in
      if match selected with Some selected => negb (String.eqb selected name) | None => false end
      then next attempted best_partial
      else match value_get "type" account with
      | None => next (attempted ++ [name +:+ ": missing type"]) best_partial
      | Some shape =>
          match decode_borsh_shape shape bytes 0 idl 0, selected with
          | Ok decoded, None =>
              if dv_consumed decoded =? zlen bytes
              then Ok (account_idl_decode_report account_id name decoded bytes)
              else if match best_partial with
                      | Some (_, best) => dv_consumed best <? dv_consumed decoded
                      | None => true
                      end
              then next attempted (Some (name, decoded))
              else next (attempted ++ [name +:+ ": decoded " +:+ pretty (dv_consumed decoded)
                                       +:+ " of " +:+ pretty (zlen bytes) +:+ " bytes"]) best_partial
          | Ok decoded, Some _ => Ok (account_idl_decode_report account_id name decoded bytes)
          | Err err, Some _ => Err (("failed to decode as `" +:+ name +:+ "`") :: err)
          | Err err, None => next (attempted ++ [name +:+ ": " +:+ error_text err]) best_partial
          end
      end
  end.

Definition decode_account_data_hex_with_idl (idl_json : string) (account_type : option string)
    (data_hex : string) (account_id : option string) : Result AccountIdlDecodeReport :=
  idl ← ok_or "failed to parse IDL JSON" (from_str idl_json);
  bytes ← context "failed to parse account data hex" (parse_hex_bytes data_hex);
  accounts ← ok_or "IDL has no accounts array" (value_get "accounts" idl ≫= as_array);
  try_accounts idl bytes (selected_name account_type) account_id accounts [] None.

Definition decode_idl_event (idl event : Value) (data : list Z) : Result EventIdlDecodeReport :=
  let name := idl_event_name event in
  let failed :=
    context ("failed to decode IDL event `" +:+ name
             +:+ "`; event data is assumed to be raw Borsh payload with no discriminator") in
  decoded ←
    match value_get "type" event with
    | Some ty => failed (decode_borsh_type ty data 0 idl 0)
    | None =>
        match value_get "fields" event ≫= as_array with
        | Some fields =>
            failed (decode_borsh_shape
              (json_object [("kind", VString "struct"); ("fields", VArray fields)]) data 0 idl 0)
        | None => bail ("IDL event `" +:+ name +:+ "` must have a `type` shape or `fields` array")
        end
    end;
  if negb (dv_consumed decoded =? zlen data) then
    bail ("IDL event `" +:+ name +:+ "` decoded " +:+ pretty (dv_consumed decoded) +:+ " of "
          +:+ pretty (zlen data)
          +:+ " bytes; event data is assumed to be raw Borsh payload with no discriminator")
  else
    Ok (mkEventReport name (dv_consumed decoded) (zlen data) (dv_value decoded)
          (flatten_decoded_value (dv_value decoded) EmptyString)).

Definition decode_event_data_with_idl (idl_json : string) (event_name : option string) (data : list Z)
    : Result EventIdlDecodeReport :=
  idl ← ok_or "failed to parse IDL JSON" (from_str idl_json);
  event ← select_idl_event idl event_name;
  decode_idl_event idl event data.

Definition decode_event_data_hex_with_idl (idl_json : string) (event_name : option string)
    (data_hex : string) : Result EventIdlDecodeReport :=
  bytes ← context "failed to parse event data hex" (parse_hex_bytes data_hex);
  decode_event_data_with_idl idl_json event_name bytes.

(** ** Instructions *)
Definition instruction_accounts (instruction : Value) (account_ids : list string) : list DecodedField :=
  let declared := array_items (value_get "accounts" instruction) in
  imap (λ index account,
    mkField (name_of ("account_" +:+ pretty (Z.of_nat index)) account)
      (default "-" (account_ids !! index))) declared
  ++ imap (λ index account_id,
       mkField ("extra_" +:+ pretty (Z.of_nat (length declared + index))) account_id)
       (drop (length declared) account_ids).

(** The argument loop: the rows, the error that stopped it, the offset. *)
Fixpoint decode_args (words : list Z) (args : list Value) (offset : Z)
    : list DecodedField * option string * Z :=
  match args with
  | [] => ([], None, offset)
  | arg :: args' =>
      let name := name_of "arg" arg in
      match value_get "type" arg with
      | None =>
          let '(rows, error, offset) := decode_args words args' offset in
          (mkField name "missing type" :: rows, error, offset)
      | Some ty =>
          match decode_instruction_type ty words offset 0 with
          | Ok decoded =>
              let '(rows, error, offset) := decode_args words args' (offset + id_consumed decoded) in
              (mkField (name +:+ ": " +:+ id_type_label decoded) (id_value decoded) :: rows, error, offset)
          | Err err =>
              let error := error_text err in
              ([mkField (name +:+ ": " +:+ idl_type_label ty)
                  ("unsupported (" +:+ error +:+ "); raw words " +:+ pretty offset +:+ ".."
                   +:+ pretty (saturating_sub (zlen words) 1))], Some error, offset)
          end
      end
  end.

Definition decode_instruction_words_with_idl (idl_json program_id : string) (words : list Z)
    (account_ids : list string) : Result InstructionDecodeReport :=
  idl ← ok_or "failed to parse IDL JSON" (from_str idl_json);
  variant ← ok_or "instruction data is empty" (head words);
  variants ← variant_map_from_idl idl;
  instruction ← instruction_for_variant variants variant;
  let '(args, decode_error, offset) := decode_args words (array_items (value_get "args" instruction)) 1 in
  Ok (mkInstructionReport program_id (value_get "name" idl ≫= as_str) (name_of "unknown" instruction)
        variant (instruction_accounts instruction account_ids) args decode_error
        (drop (Z.to_nat offset) words)).
End reports.

#[global] Arguments decode_borsh_type : simpl never.
#[global] Arguments decode_borsh_shape : simpl never.
#[global] Arguments decode_instruction_type : simpl never.

(** ** Choosing an account *)
(** The account's type decodes a prefix of the data. *)
Definition account_decodes `{SerdeJson} `{HexCrate} `{LeeAccounts} (idl : Value) (bytes : list Z)
    (account : Value) (decoded : DecodedValue) : Prop :=
  ∃ shape, value_get "type" account = Some shape ∧ decode_borsh_shape shape bytes 0 idl 0 = Ok decoded.

Section choice.
Context `{SerdeJson} `{HexLaws} `{LeeAccounts}.
Context (idl : Value) (bytes : list Z) (Hbytes : is_bytes bytes) (Hsize : zlen bytes ≤ i64_max).
#[local] Set Default Proof Using "All".

Lemma shape_consumed shape decoded :
  decode_borsh_shape shape bytes 0 idl 0 = Ok decoded → 0 ≤ dv_consumed decoded ≤ zlen bytes.
Proof.
  destruct decoded as [v c]. pose proof (zlen_nonneg bytes).
  intros (Hc & Hle & _)%(proj2 (budget_reads bytes Hbytes Hsize idl (depth_budget 0))); [simpl; lia|lia].
Qed.

(** The best account among [seen]. *)
Definition best_of (seen : list Value) (best : option (string * DecodedValue)) : Prop :=
  match best with
  | Some (name, decoded) =>
      (∃ account, account ∈ seen ∧ name = name_of "unknown" account
                  ∧ account_decodes idl bytes account decoded)
      ∧ (∀ account decoded', account ∈ seen → account_decodes idl bytes account decoded' →
           dv_consumed decoded' ≤ dv_consumed decoded)
  | None => ∀ account decoded', account ∈ seen → ¬ account_decodes idl bytes account decoded'
  end.

Definition chosen (account_id : option string) (accounts : list Value)
    (result : Result AccountIdlDecodeReport) : Prop :=
  match result with
  | Ok report =>
      ∃ name decoded, best_of accounts (Some (name, decoded))
        ∧ report = account_idl_decode_report account_id name decoded bytes
  | Err _ => best_of accounts None
  end.

Lemma account_decodes_fun account d1 d2 :
  account_decodes idl bytes account d1 → account_decodes idl bytes account d2 → d1 = d2.
Proof. intros (s1 & E1 & D1) (s2 & E2 & D2). congruence. Qed.

Lemma best_of_skip seen account best :
  best_of seen best → (∀ d, ¬ account_decodes idl bytes account d) → best_of (seen ++ [account]) best.
Proof.
  intros Hb Hno. destruct best as [[name decoded]|]; simpl in *.
  - destruct Hb as [(a & Ha & ? & ?) Hmax]. split.
    + exists a. set_solver.
    + intros a' d' [Ha'| ->%list_elem_of_singleton]%elem_of_app Hd; [by eapply Hmax|by destruct (Hno d')].
  - intros a' d' [Ha'| ->%list_elem_of_singleton]%elem_of_app Hd; [by eapply Hb|by destruct (Hno d')].
Qed.

Lemma best_of_take seen account best decoded :
  best_of seen best → account_decodes idl bytes account decoded →
  match best with Some (_, best) => dv_consumed best ≤ dv_consumed decoded | None => True end →
  best_of (seen ++ [account]) (Some (name_of "unknown" account, decoded)).
Proof.
  intros Hb Hd Hle. split; [exists account; set_solver|].
  intros a' d' [Ha'| ->%list_elem_of_singleton]%elem_of_app Hd'.
  - destruct best as [[name best]|]; [|by destruct (Hb a' d')].
    destruct Hb as [_ Hmax]. specialize (Hmax a' d' Ha' Hd'). lia.
  - by rewrite (account_decodes_fun account d' decoded).
Qed.

Lemma best_of_keep seen account name best decoded :
  best_of seen (Some (name, best)) → account_decodes idl bytes account decoded →
  dv_consumed decoded ≤ dv_consumed best → best_of (seen ++ [account]) (Some (name, best)).
Proof.
  intros [(a & Ha & ? & ?) Hmax] Hd Hle. split; [exists a; set_solver|].
  intros a' d' [Ha'| ->%list_elem_of_singleton]%elem_of_app Hd'; [by eapply Hmax|].
  by rewrite (account_decodes_fun account d' decoded).
Qed.

Lemma try_accounts_chosen account_id accounts : ∀ seen attempted best,
  best_of seen best →
  chosen account_id (seen ++ accounts) (try_accounts idl bytes None account_id accounts attempted best).
Proof.
  induction accounts as [|account accounts IH]; intros seen attempted best Hb.
  { rewrite app_nil_r. destruct best as [[name decoded]|]; [by exists name, decoded|done]. }
  rewrite cons_middle, app_assoc. simpl.
  destruct (value_get "type" account) as [shape|] eqn:Es.
  2:{ apply IH, best_of_skip; [done|]. intros d (s & E & _). congruence. }
  destruct (decode_borsh_shape shape bytes 0 idl 0) as [decoded|err] eqn:Ed.
  2:{ apply IH, best_of_skip; [done|]. intros d (s & E & D). congruence. }
  assert (Hd : account_decodes idl bytes account decoded) by (by exists shape).
  destruct (Z.eqb_spec (dv_consumed decoded) (zlen bytes)) as [Hall|_].
  { exists (name_of "unknown" account), decoded. split; [|done]. split; [exists account; set_solver|].
    intros a' d' _ (s & _ & D%shape_consumed). lia. }
  destruct best as [[name best]|]; [|by apply IH; eapply best_of_take].
  destruct (Z.ltb_spec (dv_consumed best) (dv_consumed decoded)); apply IH.
  - eapply best_of_take; [done..|]. simpl. lia.
  - by eapply best_of_keep.
Qed.
End choice.

Section report_theorems.
Context `{SerdeJson} `{HexLaws} `{LeeAccounts}.
#[local] Set Default Proof Using "All".

Lemma parse_hex_bytes_wf s bytes : parse_hex_bytes s = Ok bytes → is_bytes bytes.
Proof. unfold parse_hex_bytes. case_match; [done|]. by intros ?%ok_or_Ok%hex_decode_bytes. Qed.

Lemma zlen_drop (bytes : list Z) n : 0 ≤ n ≤ zlen bytes → zlen (drop (Z.to_nat n) bytes) = zlen bytes - n.
Proof. unfold zlen. rewrite length_drop. lia. Qed.

(** Unlabelled account data goes to the account that explains most of it:
    when no account type is selected the report is for an account of the IDL whose
    type decodes a prefix of the data at least as long as any other account's,
    its byte counts add up to the data, and decoding fails only when no account's
    type decodes any prefix. *)
Theorem unselected_account_is_best idl_json account_type data_hex account_id idl bytes accounts :
  from_str idl_json = Some idl → parse_hex_bytes data_hex = Ok bytes →
  value_get "accounts" idl ≫= as_array = Some accounts → selected_name account_type = None →
  zlen bytes ≤ i64_max →
  match decode_account_data_hex_with_idl idl_json account_type data_hex account_id with
  | Ok report =>
      (∃ account decoded,
        account ∈ accounts ∧ account_decodes idl bytes account decoded
        ∧ report = account_idl_decode_report account_id (name_of "unknown" account) decoded bytes
        ∧ ∀ account' decoded', account' ∈ accounts → account_decodes idl bytes account' decoded' →
            dv_consumed decoded' ≤ dv_consumed decoded)
      ∧ ar_consumed_bytes report + ar_remaining_bytes report = ar_total_bytes report
  | Err _ => ∀ account decoded, account ∈ accounts → ¬ account_decodes idl bytes account decoded
  end.
Proof.
  intros Hidl Hbytes Haccounts Hselected Hsize. unfold decode_account_data_hex_with_idl.
  rewrite Hidl. simpl ok_or. rewrite Ok_bind, Hbytes. simpl context. rewrite Ok_bind, Haccounts.
  simpl ok_or. rewrite Ok_bind, Hselected. apply parse_hex_bytes_wf in Hbytes.
  pose proof (try_accounts_chosen idl bytes Hbytes Hsize account_id accounts [] [] None) as Hc.
  destruct (try_accounts _ _ _ _ _ _ _) as [report|err]; simpl in Hc.
  2:{ apply Hc. intros a d Ha. by apply elem_of_nil in Ha. }
  destruct Hc as (name & decoded & [(account & Ha & -> & Hd) Hmax] & ->).
  { intros a d Hin. by apply elem_of_nil in Hin. }
  split; [by exists account, decoded|]. destruct Hd as (shape & _ & Hc%shape_consumed); [|done..].
  simpl. rewrite zlen_drop by done. lia.
Qed.

(** The type an event is decoded with. *)
Definition event_format (idl event v : Value) (data : list Z) : Prop :=
  match value_get "type" event with
  | Some ty => type_format (depth_budget 0) idl ty v data
  | None => ∃ fields, value_get "fields" event ≫= as_array = Some fields
      ∧ shape_format (depth_budget 0) idl
          (json_object [("kind", VString "struct"); ("fields", VArray fields)]) v data
  end.

Lemma slice_all (data : list Z) : slice data 0 (zlen data) = data.
Proof. unfold slice, zlen. rewrite Nat2Z.id. simpl. by rewrite drop_0, take_ge. Qed.

Lemma decode_idl_event_exact idl event data report :
  is_bytes data → zlen data ≤ i64_max → decode_idl_event idl event data = Ok report →
  er_event report = idl_event_name event ∧ er_consumed_bytes report = zlen data
  ∧ er_total_bytes report = zlen data ∧ event_format idl event (er_decoded report) data.
Proof.
  intros Hb Hs. unfold decode_idl_event. intros ([v c] & Hd & E)%bind_Ok. simpl in E.
  destruct (Z.eqb_spec c (zlen data)) as [->|]; simpl in E; [|done]. injection E as <-. simpl.
  split_and!; [done..|]. unfold event_format.
  destruct (budget_reads data Hb Hs idl (depth_budget 0)) as [Ht Hsh].
  pose proof (zlen_nonneg data).
  destruct (value_get "type" event) as [ty|].
  - apply context_Ok in Hd. apply (Ht ty 0) in Hd as (_ & _ & Hd); [|lia]. by rewrite slice_all in Hd.
  - destruct (value_get "fields" event ≫= as_array) as [fields|]; [|done]. exists fields. split; [done|].
    apply context_Ok in Hd. apply (Hsh _ 0) in Hd as (_ & _ & Hd); [|lia]. by rewrite slice_all in Hd.
Qed.

(** Event data is accepted only when it is exactly one encoding: a report
    exists only under the explicit extension, for an event the IDL declares (the
    named one when a name is given, the only one otherwise), and the whole data,
    nothing more or less, encodes the reported value in the event's type. *)
Theorem event_data_decoded_exactly idl_json event_name data report :
  is_bytes data → zlen data ≤ i64_max →
  decode_event_data_with_idl idl_json event_name data = Ok report →
  ∃ idl events event,
    from_str idl_json = Some idl ∧ idl_event_extension_enabled idl = true
    ∧ value_get "events" idl ≫= as_array = Some events ∧ event ∈ events
    ∧ match selected_name event_name with
      | Some name => value_get "name" event ≫= as_str = Some name
      | None => events = [event]
      end
    ∧ er_event report = idl_event_name event
    ∧ er_consumed_bytes report = zlen data ∧ er_total_bytes report = zlen data
    ∧ event_format idl event (er_decoded report) data.
Proof.
  intros Hb Hs. unfold decode_event_data_with_idl.
  intros (idl & Hidl%ok_or_Ok & E)%bind_Ok. apply bind_Ok in E as (event & Hev & E).
  apply decode_idl_event_exact in E as (? & ? & ? & ?); [|done..].
  unfold select_idl_event in Hev. destruct (idl_event_extension_enabled idl) eqn:Hx; simpl in Hev; [|done].
  apply bind_Ok in Hev as (events & Hevents%ok_or_Ok & Hev). exists idl, events, event.
  assert (Hsel : event ∈ events ∧ match selected_name event_name with
      | Some name => value_get "name" event ≫= as_str = Some name | None => events = [event] end).
  { destruct events as [|e1 es]; [done|]. destruct (selected_name event_name) as [name|].
    - apply ok_or_Ok, List.find_some in Hev as [Hin Hn].
      split; [by apply list_elem_of_In|]. by apply bool_decide_eq_true in Hn.
    - destruct es; [|done]. injection Hev as ->. split; [by apply list_elem_of_singleton|done]. }
  destruct Hsel. by split_and!.
Qed.
End report_theorems.
