(* ===== verification/Preparation.v ===== *)
(** * Preparing wallet instructions

    wallet/instruction: the plan of an instruction's inputs (plan.rs), the
    resolution of its accounts (accounts.rs), the prepared instruction
    (prepare.rs) and its report (report.rs).  The digest and the derivation of
    program accounts are packages' code, so they are the operations of a class;
    the file system is the predicate [is_file]. *)

From Stdlib Require Import Ascii.
From S2P Require Import Prelude Json Bytes IdlTypes Borsh EntityIds InstructionCodec.
From S2P Require Import InstructionVariants Reports.

Record LocalWalletInstructionRequest : Type := mkInstructionRequest {
  ri_idl_json : string;
  ri_program_id_hex : string;
  ri_program_binary : string;
  ri_dependency_binaries : list string;
  ri_instruction : string;
  ri_accounts : gmap string string;
  ri_args : gmap string string;
}.

Record ResolvedInstructionArg : Type := mkResolved {
  ra_name : string;
  ra_type_label : string;
  ra_value : string;
}.

Inductive AccountPrivacy : Type := APublic | APrivate.
Inductive InstructionMode : Type := IPublic | IPrivate.
#[export] Instance AccountPrivacy_eq_dec : EqDecision AccountPrivacy.
Proof. solve_decision. Defined.
#[export] Instance InstructionMode_eq_dec : EqDecision InstructionMode.
Proof. solve_decision. Defined.

Definition privacy_as_str (p : AccountPrivacy) : string :=
  match p with APublic => "public" | APrivate => "private" end.
Definition mode_as_str (m : InstructionMode) : string :=
  match m with IPublic => "public" | IPrivate => "private" end.

Record PreparedAccount : Type := mkPreparedAccount {
  pa_name : string;
  pa_account_id : AccountId;
  pa_privacy : AccountPrivacy;
  pa_signer : bool;
  pa_rest : bool;
  pa_pda : bool;
}.

Record PreparedInstruction : Type := mkPreparedInstruction {
  pi_instruction : string;
  pi_program_id : list Z;
  pi_program_id_hex : string;
  pi_program_binary : string;
  pi_program_binary_required : bool;
  pi_mode : InstructionMode;
  pi_accounts : list PreparedAccount;
  pi_args : list ResolvedInstructionArg;
  pi_instruction_words : list Z;
}.

(** [AccountId::for_public_pda]. *)
Class PdaCrates : Type := { for_public_pda : list Z → list Z → AccountId }.

(** ** Selecting the instruction *)
Record InstructionSelection : Type := mkSelection {
  sel_name : string;
  sel_variant_index : Z;
  sel_instruction : Value;
}.

Definition plan_instruction_name (instruction : Value) : string := name_of "unknown" instruction.

(** [iter().enumerate().find(...)]. *)
Fixpoint find_row (p : Value → bool) (row_index : Z) (rows : list Value) : option (Z * Value) :=
  match rows with
  | [] => None
  | row :: rows' => if p row then Some (row_index, row) else find_row p (row_index + 1) rows'
  end.

Definition is_true_field (key : string) (v : Value) : bool :=
  bool_decide (value_get key v ≫= as_bool = Some true).

Section preparation.
Context `{SerdeJson} `{HexCrate} `{LeeAccounts}.

Definition parse_idl (raw : string) : Result Value := ok_or "failed to parse IDL JSON" (from_str raw).

Definition instruction_rows (idl : Value) : Result (list Value) :=
  ok_or "IDL has no instructions array" (value_get "instructions" idl ≫= as_array).

Definition select_instruction (idl : Value) (selected : string) : Result InstructionSelection :=
  let selected := trim selected in
  if is_empty selected then bail "instruction is required"
  else
    variants ← variant_map_from_idl idl;
    row ← ok_or ("IDL instruction `" +:+ selected +:+ "` not found")
            (find_row (λ instruction,
               let name := plan_instruction_name instruction in
               String.eqb name selected || String.eqb (kebab_name name) selected)
             0 (vm_instructions variants));
    index ← variant_index variants row.1;
    Ok (mkSelection (plan_instruction_name row.2) index row.2).

(** ** Accounts *)
Definition parse_account_reference (value : string) : Result (AccountId * AccountPrivacy) :=
  let value := trim value in
  let '(trimmed, privacy) :=
    match strip_any ["Private/"; "private/"] value with
    | Some value => (trim value, APrivate)
    | None =>
        match strip_any ["Public/"; "public/"] value with
        | Some value => (trim value, APublic)
        | None => (value, APublic)
        end
    end in
  account ← parse_account_id trimmed;
  Ok (account, privacy).

Definition account_has_pda (account : Value) : bool := bool_decide (is_Some (value_get "pda" account)).

(** The accounts resolved so far and the ids known by name. *)
Definition Resolution : Type := gmap string AccountId * list PreparedAccount.

(** The entries of a rest account. *)
Fixpoint resolve_rest (name : string) (signer : bool) (index : Z) (items : list string) (r : Resolution)
    : Result Resolution :=
  match items with
  | [] => Ok r
  | item :: items' =>
      reference ← context ("failed to parse rest account `" +:+ name +:+ "` entry " +:+ pretty index)
                    (parse_account_reference item);
      let entry := name +:+ "[" +:+ pretty index +:+ "]" in
      resolve_rest name signer (index + 1) items'
        (<[entry := reference.1]> r.1,
         r.2 ++ [mkPreparedAccount entry reference.1 reference.2 signer true false])
  end.

Definition resolve_plain_account (accounts : gmap string string) (account : Value) (r : Resolution)
    : Result Resolution :=
  name ← ok_or "IDL account missing name" (value_get "name" account ≫= as_str);
  let signer := is_true_field "signer" account in
  if is_true_field "rest" account then
    match named_value accounts name with
    | Some raw =>
        resolve_rest name signer 0
          (filter (λ item, is_empty item = false) (map trim (str_split ","%char raw))) r
    | None => Ok r
    end
  else
    raw ← ok_or ("account `" +:+ name +:+ "` is required") (named_value accounts name);
    reference ← context ("failed to parse account `" +:+ name +:+ "`") (parse_account_reference raw);
    Ok (<[name := reference.1]> r.1,
        r.2 ++ [mkPreparedAccount name reference.1 reference.2 signer false false]).

(** [for x in xs { s = step(x, s)?; }]. *)
Fixpoint for_each {A S} (step : A → S → Result S) (xs : list A) (s : S) : Result S :=
  match xs with [] => Ok s | x :: xs' => s' ← step x s; for_each step xs' s' end.

Definition resolve_seed_account (accounts : gmap string string) (seed : Value)
    (account_map : gmap string AccountId) : Result (gmap string AccountId) :=
  if negb (bool_decide (value_get "kind" seed ≫= as_str = Some "account")) then Ok account_map
  else
    path ← ok_or "account PDA seed missing path" (value_get "path" seed ≫= as_str);
    match account_map !! path with
    | Some _ => Ok account_map
    | None =>
        raw ← ok_or ("PDA seed account `" +:+ path +:+ "` is required") (named_value accounts path);
        reference ← context ("failed to parse PDA seed account `" +:+ path +:+ "`")
                      (parse_account_reference raw);
        Ok (<[path := reference.1]> account_map)
    end.

Definition resolve_external_pda_seed_accounts (idl_accounts : list Value) (accounts : gmap string string)
    (account_map : gmap string AccountId) : Result (gmap string AccountId) :=
  for_each (λ account m,
    match value_get "pda" account with
    | None => Ok m
    | Some pda => for_each (resolve_seed_account accounts) (array_items (value_get "seeds" pda)) m
    end) idl_accounts account_map.

Definition resolve_seed (seed : Value) (account_map : gmap string AccountId)
    (parsed_args : gmap string ParsedValue) : Result (list Z) :=
  match value_get "kind" seed ≫= as_str with
  | None => bail "PDA seed missing kind"
  | Some kind =>
      if String.eqb kind "const" then
        value ← ok_or "const PDA seed missing value" (value_get "value" seed ≫= as_str);
        let bytes := as_bytes value in
        if 32 <? zlen bytes then bail ("const PDA seed `" +:+ value +:+ "` exceeds 32 bytes")
        else Ok (bytes ++ replicate (32 - length bytes) 0)
      else if String.eqb kind "account" then
        path ← ok_or "account PDA seed missing path" (value_get "path" seed ≫= as_str);
        ok_or ("PDA seed account `" +:+ path +:+ "` is not resolved") (account_map !! path)
      else if String.eqb kind "arg" then
        path ← ok_or "arg PDA seed missing path" (value_get "path" seed ≫= as_str);
        ok_or ("PDA seed arg `" +:+ path +:+ "` cannot be converted to 32 bytes")
          (parsed_args !! path ≫= pv_seed_bytes)
      else bail ("unsupported PDA seed kind `" +:+ kind +:+ "`")
  end.

Section pda.
Context `{Sha2Crate} `{PdaCrates}.

Definition compute_pda (pda : Value) (program_id : list Z) (account_map : gmap string AccountId)
    (parsed_args : gmap string ParsedValue) : Result AccountId :=
  seeds ← ok_or "PDA has no seeds array" (value_get "seeds" pda ≫= as_array);
  match seeds with
  | [] => bail "PDA requires at least one seed"
  | _ =>
      resolved ← traverse (λ seed, resolve_seed seed account_map parsed_args) seeds;
      let combined := match resolved with [seed] => seed | _ => sha256 (concat resolved) end in
      Ok (for_public_pda program_id combined)
  end.

Definition resolve_pda_account (program_id : list Z) (parsed_args : gmap string ParsedValue)
    (account : Value) (r : Resolution) : Result Resolution :=
  name ← ok_or "IDL account missing name" (value_get "name" account ≫= as_str);
  pda ← ok_or "PDA account missing pda field after filter" (value_get "pda" account);
  if is_true_field "private" pda
  then bail "private PDA accounts are not supported by direct Inspector interaction"
  else
    account_id ← context ("failed to compute PDA `" +:+ name +:+ "`")
                   (compute_pda pda program_id r.1 parsed_args);
    Ok (<[name := account_id]> r.1,
        r.2 ++ [mkPreparedAccount name account_id APublic (is_true_field "signer" account) false true]).

Definition resolve_accounts (instruction : Value) (accounts : gmap string string) (program_id : list Z)
    (parsed_args : gmap string ParsedValue) : Result (list PreparedAccount) :=
  let idl_accounts := array_items (value_get "accounts" instruction) in
  plain ← for_each (resolve_plain_account accounts)
            (filter (λ account, account_has_pda account = false) idl_accounts) (∅, []);
  account_map ← resolve_external_pda_seed_accounts idl_accounts accounts plain.1;
  resolved ← for_each (resolve_pda_account program_id parsed_args)
               (filter (λ account, account_has_pda account = true) idl_accounts) (account_map, plain.2);
  Ok resolved.2.

(** ** Arguments and words *)
Fixpoint prepare_args (values : gmap string string) (args : list Value)
    (parsed_args : gmap string ParsedValue) (report_args : list ResolvedInstructionArg)
    (fields : list DynamicValue)
    : Result (gmap string ParsedValue * list ResolvedInstructionArg * list DynamicValue) :=
  match args with
  | [] => Ok (parsed_args, report_args, fields)
  | arg :: args' =>
      name ← ok_or "IDL arg missing name" (value_get "name" arg ≫= as_str);
      ty ← ok_or ("IDL arg `" +:+ name +:+ "` missing type") (value_get "type" arg);
      raw ← ok_or ("argument `" +:+ name +:+ "` is required") (named_value values name);
      parsed ← context ("failed to parse argument `" +:+ name +:+ "` as " +:+ type_label ty)
                 (parse_typed_value raw ty);
      prepare_args values args' (<[name := parsed]> parsed_args)
        (report_args ++ [mkResolved name (type_label ty) (pv_report_value parsed)])
        (fields ++ [pv_dynamic parsed])
  end.

(** [risc0_zkvm::serde::to_vec]: the serializer starts from no words. *)
Definition to_vec `{Serializer} (variant_index : Z) (fields : list DynamicValue) (w : World)
    : Result (list Z) :=
  match serialize_instruction variant_index fields [] w with
  | (Ok _, words, _) => Ok words
  | (Err err, _, _) => bail ("failed to serialize instruction data: " +:+ error_text err)
  end.

Definition prepare_instruction `{Serializer} (is_file : string → bool)
    (request : LocalWalletInstructionRequest) (w : World) : Result PreparedInstruction :=
  idl ← parse_idl (ri_idl_json request);
  program_id_hex ← normalize_program_id_hex (ri_program_id_hex request);
  program_id ← program_id_from_hex program_id_hex;
  selection ← select_instruction idl (ri_instruction request);
  let instruction := sel_instruction selection in
  prepared ← prepare_args (ri_args request) (array_items (value_get "args" instruction)) ∅ [] [];
  let '(parsed_args, report_args, fields) := prepared in
  instruction_words ← to_vec (sel_variant_index selection) fields w;
  accounts ← resolve_accounts instruction (ri_accounts request) program_id parsed_args;
  let mode := if existsb (λ account, bool_decide (pa_privacy account = APrivate)) accounts
              then IPrivate else IPublic in
  let program_binary := trim (ri_program_binary request) in
  let prepared := mkPreparedInstruction (sel_name selection) program_id program_id_hex program_binary
                    (bool_decide (mode = IPrivate)) mode accounts report_args instruction_words in
  match mode with
  | IPrivate =>
      if is_empty program_binary then bail "private IDL instruction requires a program binary"
      else if negb (is_file program_binary) then bail "program binary is not reachable"
      else Ok prepared
  | IPublic => Ok prepared
  end.
End pda.

(** ** The plan of the inputs *)
Record InstructionPlanField : Type := mkPlanField {
  pf_name : string;
  pf_label : string;
  pf_placeholder : string;
  pf_required : bool;
  pf_rest : bool;
  pf_kind : string;
  pf_type_label : string;
}.

Record LocalWalletInstructionPlanReport : Type := mkPlanReport {
  pr_instruction : string;
  pr_instructions : list string;
  pr_accounts : list InstructionPlanField;
  pr_args : list InstructionPlanField;
  pr_private_mode : bool;
  pr_program_binary_required : bool;
  pr_inputs_complete : bool;
}.

Definition is_ascii_uppercase (a : ascii) : bool := in_range 65 90 (Z.of_nat (nat_of_ascii a)).
Definition is_ascii_lowercase (a : ascii) : bool := in_range 97 122 (Z.of_nat (nat_of_ascii a)).
Definition is_ascii_digit (a : ascii) : bool := in_range 48 57 (Z.of_nat (nat_of_ascii a)).
Definition ascii_upper (a : ascii) : ascii :=
  if is_ascii_lowercase a then ascii_of_nat (nat_of_ascii a - 32) else a.

(** The loop over the characters: what is appended to [label], which starts
    empty, after the characters before. *)
Fixpoint label_chars (empty previous_lower : bool) (s : string) : string :=
  match s with
  | EmptyString => EmptyString
  | String character s' =>
      if Ascii.eqb character "_" || Ascii.eqb character "-"
      then String " " (label_chars false false s')
      else
        let space := is_ascii_uppercase character && previous_lower in
        let shown := if empty && negb space then ascii_upper character else character in
        let rest :=
          String shown (label_chars false (is_ascii_lowercase character || is_ascii_digit character) s') in
        if space then String " " rest else rest
  end.
Definition display_label (name : string) : string := label_chars true false name.

Definition placeholder_for_type (label : string) : string :=
  if String.eqb label "bool" then "true or false"
  else if starts_with "[u8;" label then "0x..."
  else if starts_with "Vec<" label then "comma values"
  else "value".

Definition instruction_names (instructions : list Value) : list string :=
  filter (λ name, is_empty name = false) (map plan_instruction_name instructions).

Definition str_field (key : string) (v : Value) : string := default EmptyString (value_get key v ≫= as_str).

(** The two loops push rows and remember the names they have seen. *)
Definition plain_account_fields (accounts : list Value) : list InstructionPlanField :=
  flat_map (λ account,
    let name := str_field "name" account in
    if is_empty name then []
    else
      let rest := is_true_field "rest" account in
      let signer := is_true_field "signer" account in
      [mkPlanField name
         (if signer then display_label name +:+ " signer" else display_label name)
         (if rest then "Public/<id>, Private/<id>" else "Public/<id> or Private/<id>")
         (negb rest) rest "account" EmptyString])
    (filter (λ account, value_get "pda" account = None) accounts).

Fixpoint seed_fields (seen : gset string) (seeds : list Value) : list InstructionPlanField :=
  match seeds with
  | [] => []
  | seed :: seeds' =>
      if negb (bool_decide (value_get "kind" seed ≫= as_str = Some "account")) then seed_fields seen seeds'
      else
        let path := str_field "path" seed in
        if is_empty path || bool_decide (path ∈ seen) then seed_fields seen seeds'
        else
          mkPlanField path (display_label path +:+ " seed") "Public/<id>" true false "account" EmptyString
          :: seed_fields ({[path]} ∪ seen) seeds'
  end.

Definition pda_seeds (account : Value) : list Value :=
  array_items (value_get "pda" account ≫= value_get "seeds").

Definition account_fields (instruction : Value) : list InstructionPlanField :=
  let accounts := array_items (value_get "accounts" instruction) in
  let rows := plain_account_fields accounts in
  rows ++ seed_fields (list_to_set (map pf_name rows)) (flat_map pda_seeds accounts).

Definition arg_fields (instruction : Value) : Result (list InstructionPlanField) :=
  let subject := "instruction `" +:+ plan_instruction_name instruction +:+ "` " in
  traverse (λ arg,
    name ← ok_or (subject +:+ "has an IDL argument missing its name") (value_get "name" arg ≫= as_str);
    ty ← ok_or (subject +:+ "argument `" +:+ name +:+ "` is missing its type") (value_get "type" arg);
    _ ← context (subject +:+ "argument `" +:+ name +:+ "` cannot be used") (validate_interaction_type ty);
    let label := type_label ty in
    Ok (mkPlanField name (display_label name +:+ " (" +:+ label +:+ ")") (placeholder_for_type label)
          true false "arg" label))
    (array_items (value_get "args" instruction)).

Definition fields_complete (fields : list InstructionPlanField) (values : gmap string string) : bool :=
  forallb (λ field,
    match values !! pf_name field with Some value => negb (is_empty (trim value)) | None => false end)
    (filter (λ field, pf_required field = true) fields).

Definition request_private_mode (accounts : gmap string string) : bool :=
  existsb (λ entry, starts_with "private/" (to_ascii_lowercase (trim entry.2))) (map_to_list accounts).

Definition instruction_plan (request : LocalWalletInstructionRequest)
    : Result LocalWalletInstructionPlanReport :=
  idl ← parse_idl (ri_idl_json request);
  instructions ← instruction_rows idl;
  let names := instruction_names instructions in
  if is_empty (trim (ri_instruction request))
  then Ok (mkPlanReport EmptyString names [] [] false false false)
  else
    selection ← select_instruction idl (ri_instruction request);
    let accounts := account_fields (sel_instruction selection) in
    args ← arg_fields (sel_instruction selection);
    let private_mode := request_private_mode (ri_accounts request) in
    let inputs_complete :=
      fields_complete accounts (ri_accounts request) && fields_complete args (ri_args request)
      && (negb private_mode || negb (is_empty (trim (ri_program_binary request)))) in
    Ok (mkPlanReport (sel_name selection) names accounts args private_mode private_mode inputs_complete).

(** ** Reports *)
Record ResolvedInstructionAccount : Type := mkResolvedAccount {
  rac_name : string;
  rac_account_id : string;
  rac_privacy : string;
  rac_signer : bool;
  rac_rest : bool;
  rac_pda : bool;
}.

Record LocalWalletInstructionReport : Type := mkWalletReport {
  wr_source : string;
  wr_status : string;
  wr_mode : string;
  wr_instruction : string;
  wr_program_id_hex : string;
  wr_command : string;
  wr_operation_detail : string;
  wr_program_binary_required : bool;
  wr_program_binary : string;
  wr_accounts : list ResolvedInstructionAccount;
  wr_args : list ResolvedInstructionArg;
  wr_instruction_words : list Z;
  wr_instruction_words_hex : list string;
  wr_tx_hash : option string;
  wr_shared_secret_count : option Z;
  wr_private_sync_pending : bool;
  wr_submitted_at : option string;
}.

(** [&value[..10]] and [&value[len - 6..]], on byte offsets. *)
Definition short_hash (value : string) : string :=
  let value := trim value in
  let length := String.length value in
  if (length <=? 18)%nat then value
  else String.substring 0 10 value +:+ "..." +:+ String.substring (length - 6) 6 value.

Definition instruction_operation_detail (mode instruction : string) (tx_hash : option string)
    (word_count : Z) (private_sync_pending : bool) : string :=
  match tx_hash with
  | Some (String _ _ as tx_hash) =>
      let detail := mode +:+ " " +:+ instruction +:+ ", tx " +:+ short_hash tx_hash in
      if private_sync_pending then detail +:+ "; private sync pending" else detail
  | _ => mode +:+ " " +:+ instruction +:+ ", " +:+ pretty word_count +:+ " word(s)"
  end.

(** [{word:08x}]: eight hexadecimal digits, most significant first. *)
Definition hex_digit (n : Z) : ascii := ascii_of_nat (Z.to_nat (if n <? 10 then 48 + n else 87 + n)).
Definition word_hex (word : Z) : string :=
  String.string_of_list_ascii (map hex_digit (reverse (le_digits 4 8 word))).

(** [now] is [unix_time_text()]. *)
Definition report_from_prepared (now : string) (prepared : PreparedInstruction) (status : string)
    (tx_hash : option string) (shared_secret_count : option Z) : LocalWalletInstructionReport :=
  let mode := mode_as_str (pi_mode prepared) in
  let private_sync_pending := String.eqb status "submitted" && String.eqb mode "private" in
  mkWalletReport "local_wallet_direct" status mode (pi_instruction prepared) (pi_program_id_hex prepared)
    "wallet direct IDL instruction"
    (instruction_operation_detail mode (pi_instruction prepared) tx_hash
       (zlen (pi_instruction_words prepared)) private_sync_pending)
    (pi_program_binary_required prepared) (pi_program_binary prepared)
    (map (λ account,
       mkResolvedAccount (pa_name account) (account_to_string (pa_account_id account))
         (privacy_as_str (pa_privacy account)) (pa_signer account) (pa_rest account) (pa_pda account))
       (pi_accounts prepared))
    (pi_args prepared) (pi_instruction_words prepared) (map word_hex (pi_instruction_words prepared))
    tx_hash shared_secret_count private_sync_pending ((λ _, now) <$> tx_hash).

(** ** Signers *)
Definition ensure_controlled_public_signers (accounts : list PreparedAccount)
    (has_signing_key : AccountId → bool) : Result () :=
  for_each (λ account _,
    if negb (bool_decide (pa_privacy account = APublic)) || negb (pa_signer account) then Ok ()
    else if negb (has_signing_key (pa_account_id account))
    then bail ("Required public signer `" +:+ pa_name account +:+ "` ("
               +:+ account_to_string (pa_account_id account)
               +:+ ") is not controlled by the selected local wallet. "
               +:+ "Import it or choose a locally controlled signer.")
    else Ok ()) accounts ().
End preparation.
