(* ===== verification/PreparationTheorems.v ===== *)
(** * Prepared instructions: theorems

    What is prepared for signing decodes back to what was reported, prepared
    instructions are well formed, a complete plan supplies what preparation asks
    for, and submission stops at the first signer the wallet does not control. *)

From S2P Require Import Prelude Json Bytes IdlTypes Borsh BorshSpec EntityIds InstructionCodec.
From S2P Require Import InstructionWire InstructionVariants Reports Preparation.

(** ** The words decode to the report *)
Section roundtrip.
Context `{SerdeJson} `{HexLaws} `{LeeAccountLaws} `{Sha2Crate} `{PdaCrates} `{Risc0Laws}.
#[local] Set Default Proof Using "All".

(** What the argument loop has read for each argument. *)
Inductive args_prepared (values : gmap string string)
    : list Value → list ResolvedInstructionArg → list DynamicValue → Prop :=
  | ap_nil : args_prepared values [] [] []
  | ap_cons arg args name ty raw parsed rs fs :
      value_get "name" arg ≫= as_str = Some name → value_get "type" arg = Some ty →
      named_value values name = Some raw → parse_typed_value raw ty = Ok parsed →
      args_prepared values args rs fs →
      args_prepared values (arg :: args)
        (mkResolved name (type_label ty) (pv_report_value parsed) :: rs) (pv_dynamic parsed :: fs).

Lemma prepare_args_spec values args : ∀ pm rs fs pm' rs' fs',
  prepare_args values args pm rs fs = Ok (pm', rs', fs') →
  ∃ rs0 fs0, rs' = rs ++ rs0 ∧ fs' = fs ++ fs0 ∧ args_prepared values args rs0 fs0.
Proof.
  induction args as [|arg args IH]; intros pm rs fs pm' rs' fs'; simpl.
  { intros [= <- <- <-]. exists [], []. rewrite !app_nil_r. split_and!; [done..|constructor]. }
  intros (name & Hn%ok_or_Ok & E)%bind_Ok. apply bind_Ok in E as (ty & Ht%ok_or_Ok & E).
  apply bind_Ok in E as (raw & Hr%ok_or_Ok & E). apply bind_Ok in E as (parsed & Hp%context_Ok & E).
  apply IH in E as (rs0 & fs0 & -> & -> & Ha). rewrite <- !app_assoc.
  eexists _, _. split_and!; [done..|]. by econstructor.
Qed.

Definition shown_type (arg : Value) : Prop :=
  ∀ ty, value_get "type" arg = Some ty → displayed ty ∧ Z.of_nat (value_depth ty) ≤ MAX_DEPTH.
Definition valid_texts (values : gmap string string) : Prop :=
  map_Forall (λ _ raw, utf8_valid (as_bytes (trim raw)) = true) values.

(** The row of an argument: its reported value under its name and type. *)
Definition arg_row (arg : Value) (r : ResolvedInstructionArg) : DecodedField :=
  mkField (ra_name r +:+ ": " +:+ default EmptyString (idl_type_label <$> value_get "type" arg)) (ra_value r).

Lemma named_value_valid values name raw :
  valid_texts values → named_value values name = Some raw → utf8_valid (as_bytes (trim raw)) = true.
Proof.
  intros Hv. unfold named_value. destruct (values !! name) eqn:E.
  - intros [= <-]. by eapply Hv.
  - intros Hk. by eapply Hv.
Qed.

Lemma decode_args_prepared words values args rs fs :
  zlen words ≤ i64_max → valid_texts values → Forall shown_type args →
  args_prepared values args rs fs → ∀ o, stored words o (flat_map wire fs) →
  decode_args words args o = (zip_with arg_row args rs, None, o + zlen (flat_map wire fs)).
Proof.
  intros Hsize Hv Hargs Hp. revert Hargs.
  induction Hp as [|arg args name ty raw parsed rs fs Hn Ht Hr Hparse _ IH]; intros Hargs o Hs.
  { simpl. do 2 f_equal. unfold zlen. simpl. lia. }
  apply Forall_cons in Hargs as [Harg Hargs]. destruct (Harg ty Ht) as [Hd Hdepth].
  simpl flat_map in *. apply stored_app in Hs as [Hs1 Hs2].
  assert (E : decode_instruction_type ty words o 0
      = Ok (mkInstruction (pv_report_value parsed) (zlen (wire (pv_dynamic parsed))) (idl_type_label ty))).
  { apply (parsed_displayed_decodes _ Hsize ty Hd (S (value_depth ty)) (depth_budget 0) raw parsed);
      try done; [by eapply named_value_valid|]. unfold depth_budget, MAX_DEPTH in *. lia. }
  simpl decode_args. rewrite Ht, E. simpl id_consumed. rewrite (IH Hargs _ Hs2).
  simpl zip_with. unfold name_of. rewrite Hn.
  replace (arg_row arg _) with (mkField (name +:+ ": " +:+ idl_type_label ty) (pv_report_value parsed))
    by (unfold arg_row; by rewrite Ht).
  simpl. f_equal. rewrite zlen_app. lia.
Qed.

Lemma find_row_lookup p i rows j row :
  find_row p i rows = Some (j, row) → i ≤ j ∧ rows !! Z.to_nat (j - i) = Some row ∧ p row = true.
Proof.
  revert i. induction rows as [|r rows IH]; intros i; simpl; [done|].
  destruct (p r) eqn:Ep.
  - intros [= <- <-]. rewrite Z.sub_diag. simpl. split_and!; (done || lia).
  - intros (Hle & Hl & Hp)%IH. split_and!; [lia| |done].
    replace (Z.to_nat (j - i)) with (S (Z.to_nat (j - (i + 1)))) by lia. done.
Qed.

Lemma selection_variant idl selected sel :
  select_instruction idl selected = Ok sel →
  ∃ variants, variant_map_from_idl idl = Ok variants
    ∧ instruction_for_variant variants (sel_variant_index sel) = Ok (sel_instruction sel)
    ∧ sel_name sel = plan_instruction_name (sel_instruction sel).
Proof.
  unfold select_instruction. destruct (is_empty _); [done|].
  intros (variants & Hv & E)%bind_Ok. apply bind_Ok in E as ([j row] & Hf%ok_or_Ok & E).
  apply bind_Ok in E as (index & Hi & [= <-]). exists variants. split_and!; [done| |done]. simpl.
  apply find_row_lookup in Hf as (Hle & Hl & _). rewrite Z.sub_0_r in Hl. simpl in Hi.
  unfold variant_index in Hi. apply ok_or_Ok in Hi.
  assert (Hn : NoDup (vm_variant_indices variants)).
  { rewrite (variant_indices_permutation idl) by done. apply NoDup_seqZ. }
  unfold instruction_for_variant. rewrite (position_lookup _ (Z.to_nat j)) by done. simpl.
  by rewrite Nat2Z.id, Hl.
Qed.

Lemma to_vec_words variant_index fields w :
  to_vec variant_index fields w = Ok (variant_index :: flat_map wire fields).
Proof. unfold to_vec. by rewrite serialize_instruction_writes. Qed.

End roundtrip.

(** ** Prepared instructions are well formed *)
(** SHA-256 digests and derived account ids have 32 bytes. *)
Class PdaLaws `{Sha2Crate} `{PdaCrates} : Prop := {
  sha256_wf bytes : is_bytes bytes → account_wf (sha256 bytes);
  for_public_pda_wf program_id seed :
    is_words program_id → length program_id = 8%nat → account_wf seed →
    account_wf (for_public_pda program_id seed);
}.

Lemma for_each_invariant {A S} (step : A → S → Result S) (I : S → Prop) xs :
  (∀ x s s', x ∈ xs → I s → step x s = Ok s' → I s') → ∀ s s', I s → for_each step xs s = Ok s' → I s'.
Proof.
  induction xs as [|x xs IH]; intros Hstep s s' Hs; simpl; [by intros [= <-]|].
  intros (s1 & H1 & H2)%bind_Ok. eapply IH; [|by eapply (Hstep x s); [left| |]|done].
  intros y t t' Hy. apply Hstep. by right.
Qed.

Lemma traverse_Forall {A B} (f : A → Result B) (P : B → Prop) xs ys :
  (∀ x y, f x = Ok y → P y) → traverse f xs = Ok ys → Forall P ys.
Proof.
  intros Hf. revert ys. induction xs as [|x xs IH]; intros ys; simpl; [by intros [= <-]|].
  intros (y & Hy & E)%bind_Ok. apply bind_Ok in E as (ys' & E & [= <-]). constructor; eauto.
Qed.

Section wellformed.
Context `{SerdeJson} `{HexLaws} `{LeeAccountLaws} `{PdaLaws}.
#[local] Set Default Proof Using "All".

Definition ids_wf (m : gmap string AccountId) : Prop := map_Forall (λ _, account_wf) m.

Lemma parse_account_reference_wf value account privacy :
  parse_account_reference value = Ok (account, privacy) → account_wf account.
Proof.
  unfold parse_account_reference.
  destruct (strip_any _ _); [|destruct (strip_any _ _)];
    by intros (a & Ha%parse_account_id_wf & [= <- _])%bind_Ok.
Qed.

(** An account as the first loop leaves it, and as the second does. *)
Definition plain_wf (a : PreparedAccount) : Prop := account_wf (pa_account_id a) ∧ pa_pda a = false.
Definition pda_wf (a : PreparedAccount) : Prop :=
  account_wf (pa_account_id a) ∧ pa_pda a = true ∧ pa_privacy a = APublic ∧ pa_rest a = false.
Definition resolution_wf (r : Resolution) : Prop := ids_wf r.1 ∧ Forall plain_wf r.2.

Lemma resolution_push r name a :
  resolution_wf r → plain_wf a → resolution_wf (<[name := pa_account_id a]> r.1, r.2 ++ [a]).
Proof.
  intros [Hm Hl] Ha. split; simpl.
  - apply map_Forall_insert_2; [apply Ha|done].
  - by apply Forall_app; split; [|constructor].
Qed.

Lemma resolve_rest_wf name signer items : ∀ index r r',
  resolution_wf r → resolve_rest name signer index items r = Ok r' → resolution_wf r'.
Proof.
  induction items as [|item items IH]; intros index r r' Hr; simpl; [by intros [= <-]|].
  intros ([account privacy] & Hp%context_Ok%parse_account_reference_wf & E)%bind_Ok.
  eapply IH, E. by apply (resolution_push r _ (mkPreparedAccount _ account privacy signer true false)).
Qed.

Lemma resolve_plain_wf accounts account r r' :
  resolution_wf r → resolve_plain_account accounts account r = Ok r' → resolution_wf r'.
Proof.
  intros Hr. unfold resolve_plain_account. intros (name & _ & E)%bind_Ok.
  destruct (is_true_field "rest" account).
  - destruct (named_value accounts name); [by eapply resolve_rest_wf, E|by injection E as <-].
  - apply bind_Ok in E as (raw & _ & E).
    apply bind_Ok in E as ([id privacy] & Hp%context_Ok%parse_account_reference_wf & [= <-]).
    by apply (resolution_push r _ (mkPreparedAccount _ id privacy _ false false)).
Qed.

Lemma resolve_seed_account_wf accounts seed m m' :
  ids_wf m → resolve_seed_account accounts seed m = Ok m' → ids_wf m'.
Proof.
  intros Hm. unfold resolve_seed_account. destruct (negb _); [by intros [= <-]|].
  intros (path & _ & E)%bind_Ok. destruct (m !! path); [by injection E as <-|].
  apply bind_Ok in E as (raw & _ & E).
  apply bind_Ok in E as ([id privacy] & Hp%context_Ok%parse_account_reference_wf & [= <-]).
  by apply map_Forall_insert_2.
Qed.

Lemma external_seeds_wf idl_accounts accounts m m' :
  ids_wf m → resolve_external_pda_seed_accounts idl_accounts accounts m = Ok m' → ids_wf m'.
Proof.
  intros Hm. unfold resolve_external_pda_seed_accounts.
  eapply (for_each_invariant _ ids_wf); [|done]. intros account s s' _ Hs.
  destruct (value_get "pda" account); [|by intros [= <-]].
  eapply (for_each_invariant _ ids_wf); [|done]. intros seed t t' _. apply resolve_seed_account_wf.
Qed.

Lemma resolve_seed_wf seed m parsed s :
  ids_wf m → map_Forall (λ _, seed_ok) parsed → resolve_seed seed m parsed = Ok s → account_wf s.
Proof.
  intros Hm Hp. unfold resolve_seed. destruct (_ ≫= as_str) as [kind|]; [|done].
  repeat case_match; try done.
  - intros (value & _ & E)%bind_Ok. destruct (Z.ltb_spec 32 (zlen (as_bytes value))) as [|Hl]; [done|].
    injection E as <-. unfold zlen in Hl. split.
    + apply Forall_app. split; [apply as_bytes_wf|]. apply Forall_replicate. by vm_compute.
    + rewrite length_app, length_replicate. lia.
  - intros (path & _ & E%ok_or_Ok)%bind_Ok. by eapply Hm.
  - intros (path & _ & E%ok_or_Ok)%bind_Ok. destruct (parsed !! path) as [p|] eqn:Ep; [|done].
    by eapply (Hp path).
Qed.

Lemma compute_pda_wf pda program_id m parsed a :
  is_words program_id → length program_id = 8%nat → ids_wf m → map_Forall (λ _, seed_ok) parsed →
  compute_pda pda program_id m parsed = Ok a → account_wf a.
Proof.
  intros Hw Hl Hm Hp. unfold compute_pda. intros (seeds & _ & E)%bind_Ok.
  destruct seeds as [|seed seeds]; [done|]. apply bind_Ok in E as (resolved & Hr & [= <-]).
  apply (traverse_Forall _ account_wf) in Hr; [|intros ??; by apply resolve_seed_wf].
  apply for_public_pda_wf; [done..|].
  assert (Hb : is_bytes (concat resolved)).
  { apply Forall_concat. eapply Forall_impl; [exact Hr|]. by intros x [? _]. }
  destruct resolved as [|s [|]]; try (by apply sha256_wf).
  by apply (Forall_inv Hr).
Qed.

Lemma prepare_args_seeds values args : ∀ pm rs fs pm' rs' fs',
  map_Forall (λ _, seed_ok) pm → prepare_args values args pm rs fs = Ok (pm', rs', fs') →
  map_Forall (λ _, seed_ok) pm'.
Proof.
  induction args as [|arg args IH]; intros pm rs fs pm' rs' fs' Hpm; simpl; [by intros [= <- _ _]|].
  intros (name & _ & E)%bind_Ok. apply bind_Ok in E as (ty & _ & E).
  apply bind_Ok in E as (raw & _ & E). apply bind_Ok in E as (parsed & Hp%context_Ok & E).
  eapply IH, E. apply map_Forall_insert_2; [|done]. by eapply typed_value_seed.
Qed.

Lemma resolve_pdas_wf program_id parsed plain xs : ∀ m l m' l',
  is_words program_id → length program_id = 8%nat → map_Forall (λ _, seed_ok) parsed →
  ids_wf m → Forall pda_wf l →
  for_each (resolve_pda_account program_id parsed) xs (m, plain ++ l) = Ok (m', l') →
  ∃ l2, l' = plain ++ l2 ∧ Forall pda_wf l2.
Proof.
  intros m l m' l' Hw Hlen Hp. revert m l.
  induction xs as [|x xs IH]; intros m l Hm Hl; simpl; [intros [= <- <-]; eauto|].
  intros (r & Hr & E)%bind_Ok. unfold resolve_pda_account in Hr.
  apply bind_Ok in Hr as (name & _ & Hr). apply bind_Ok in Hr as (pda & _ & Hr).
  destruct (is_true_field "private" pda); [done|].
  apply bind_Ok in Hr as (a & Ha%context_Ok & Hr). apply compute_pda_wf in Ha; [|done..].
  injection Hr as <-. simpl in E. rewrite <- app_assoc in E. eapply IH, E; [by apply map_Forall_insert_2|].
  by apply Forall_app; split; [|constructor].
Qed.

Lemma resolve_accounts_wf instruction accounts program_id parsed resolved :
  is_words program_id → length program_id = 8%nat → map_Forall (λ _, seed_ok) parsed →
  resolve_accounts instruction accounts program_id parsed = Ok resolved →
  ∃ plain pdas, resolved = plain ++ pdas ∧ Forall plain_wf plain ∧ Forall pda_wf pdas.
Proof.
  intros Hw Hl Hp. unfold resolve_accounts. intros ([m plain] & Hplain & E)%bind_Ok.
  apply bind_Ok in E as (m' & Hm' & E). apply bind_Ok in E as ([m2 l] & Hpda & [= <-]). simpl in *.
  apply (for_each_invariant _ resolution_wf) in Hplain as [Hm Hpl].
  2:{ intros x r r' _. by apply resolve_plain_wf. }
  2:{ split; [by apply map_Forall_empty|constructor]. }
  apply external_seeds_wf in Hm'; [|done].
  rewrite <- (app_nil_r plain) in Hpda. apply resolve_pdas_wf in Hpda as (pdas & -> & Hpdas); try done.
  by exists plain, pdas.
Qed.

Lemma program_id_wf hex program_id :
  program_id_from_hex hex = Ok program_id → is_words program_id ∧ length program_id = 8%nat.
Proof.
  unfold program_id_from_hex. intros (bytes & Hb%ok_or_Ok%hex_decode_bytes & E)%bind_Ok.
  destruct (Z.eqb_spec (zlen bytes) 32) as [Hz|]; simpl in E; [|done]. injection E as <-.
  destruct (words_of_bytes_spec 8 bytes) as (_ & Hl & Hw); [unfold zlen in Hz; lia|done|].
  split; [done|]. unfold zlen in Hl. lia.
Qed.

(** C34. A prepared instruction is well formed: its program id is eight words,
    every account id has 32 bytes, the derived accounts follow the given ones and
    are public, the mode is private exactly when some account is, and a private
    instruction has a program binary that is a file. *)
Theorem prepared_instruction_wf `{Serializer} is_file request w prepared :
  prepare_instruction is_file request w = Ok prepared →
  is_words (pi_program_id prepared) ∧ length (pi_program_id prepared) = 8%nat
  ∧ (∃ plain pdas, pi_accounts prepared = plain ++ pdas ∧ Forall plain_wf plain ∧ Forall pda_wf pdas)
  ∧ (pi_mode prepared = IPrivate ↔ ∃ a, a ∈ pi_accounts prepared ∧ pa_privacy a = APrivate)
  ∧ pi_program_binary_required prepared = bool_decide (pi_mode prepared = IPrivate)
  ∧ (pi_mode prepared = IPrivate →
       pi_program_binary prepared ≠ EmptyString ∧ is_file (pi_program_binary prepared) = true).
Proof.
  unfold prepare_instruction. intros (idl & _ & E)%bind_Ok. apply bind_Ok in E as (hex & _ & E).
  apply bind_Ok in E as (program_id & [Hw Hl]%program_id_wf & E).
  apply bind_Ok in E as (sel & _ & E). apply bind_Ok in E as ([[pm rs] fs] & Hargs & E).
  apply prepare_args_seeds in Hargs; [|by apply map_Forall_empty].
  apply bind_Ok in E as (words & _ & E). apply bind_Ok in E as (accounts & Ha & E).
  apply resolve_accounts_wf in Ha as Hacc; [|done..].
  destruct (existsb _ accounts) eqn:Hex.
  - destruct (is_empty (trim (ri_program_binary request))) eqn:He; [done|].
    destruct (is_file (trim (ri_program_binary request))) eqn:Hf; [|done]. injection E as <-. simpl.
    apply existsb_exists in Hex as (a & Hin%list_elem_of_In & Hpriv%bool_decide_eq_true).
    split_and!; try done. { split; [|done]. intros _. by exists a. }
    intros _. split; [|done]. intros E0. by rewrite E0 in He.
  - injection E as <-. simpl. split_and!; try done. split; [done|]. intros (a & Hin & Hpriv).
    assert (existsb (λ account, bool_decide (pa_privacy account = APrivate)) accounts = true) as E'.
    { apply existsb_exists. exists a. split; [by apply list_elem_of_In|by apply bool_decide_eq_true]. }
    by rewrite E' in Hex.
Qed.
End wellformed.

(** ** The plan and the preparation agree *)
Section plan_theorems.
Context `{SerdeJson} `{HexCrate} `{LeeAccounts}.
#[local] Set Default Proof Using "All".

(** A nonblank value is given for the name. *)
Definition supplied (values : gmap string string) (name : string) : Prop :=
  ∃ raw, named_value values name = Some raw ∧ is_empty (trim raw) = false.

Lemma fields_complete_supplied fields values field :
  fields_complete fields values = true → field ∈ fields → pf_required field = true →
  supplied values (pf_name field).
Proof.
  unfold fields_complete. rewrite forallb_forall. intros Hall Hin Hreq.
  specialize (Hall field). rewrite <- list_elem_of_In, list_elem_of_filter in Hall. specialize (Hall (conj Hreq Hin)).
  destruct (values !! pf_name field) as [raw|] eqn:E; [|done]. exists raw.
  unfold named_value. rewrite E. split; [done|]. by destruct (is_empty _).
Qed.

Lemma str_field_name key v name : value_get key v ≫= as_str = Some name → str_field key v = name.
Proof. unfold str_field. by intros ->. Qed.

Lemma plain_field_listed accounts account name :
  account ∈ accounts → value_get "pda" account = None →
  value_get "name" account ≫= as_str = Some name → is_empty name = false →
  ∃ field, field ∈ plain_account_fields accounts ∧ pf_name field = name
    ∧ pf_required field = negb (is_true_field "rest" account).
Proof.
  intros Hin Hpda Hn He. apply str_field_name in Hn. unfold plain_account_fields.
  eexists (mkPlanField name _ _ _ _ _ _). split; [|by split].
  apply list_elem_of_In, in_flat_map. exists account. rewrite <- list_elem_of_In, list_elem_of_filter.
  split; [done|]. rewrite Hn, He. by left.
Qed.

Lemma plain_field_account accounts field :
  field ∈ plain_account_fields accounts → pf_required field = false →
  ∃ account, account ∈ accounts ∧ is_true_field "rest" account = true
             ∧ value_get "name" account ≫= as_str = Some (pf_name field).
Proof.
  unfold plain_account_fields. intros Hin%list_elem_of_In Hreq.
  apply in_flat_map in Hin as (account & Ha & Hin). apply list_elem_of_In, list_elem_of_filter in Ha as [_ Ha].
  exists account. unfold str_field in Hin.
  destruct (value_get "name" account ≫= as_str) as [name|]; [|done]. simpl in Hin.
  destruct (is_empty name); [done|]. destruct Hin as [<-|[]]. simpl in *.
  by destruct (is_true_field "rest" account).
Qed.

Lemma seed_field_listed seeds : ∀ seen seed path,
  seed ∈ seeds → value_get "kind" seed ≫= as_str = Some "account" →
  value_get "path" seed ≫= as_str = Some path → is_empty path = false → path ∉ seen →
  ∃ field, field ∈ seed_fields seen seeds ∧ pf_name field = path ∧ pf_required field = true.
Proof.
  induction seeds as [|s seeds IH]; intros seen seed path Hin Hk Hp He Hseen; [by apply elem_of_nil in Hin|].
  simpl. apply elem_of_cons in Hin as [<-|Hin].
  - rewrite bool_decide_true by done. simpl. rewrite (str_field_name _ _ _ Hp), He.
    rewrite bool_decide_false by done. simpl. eexists. split; [left|done].
  - destruct (negb _); [by eapply IH|]. destruct (is_empty (str_field "path" s) || _) eqn:Eb; [by eapply IH|].
    destruct (decide (path = str_field "path" s)) as [->|Hne]; [eexists; split; [left|done]|].
    edestruct (IH ({[str_field "path" s]} ∪ seen)) as (f & Hf & ?); [done..|set_solver|].
    exists f. split; [by right|done].
Qed.

Lemma arg_fields_listed instruction fields arg :
  arg_fields instruction = Ok fields → arg ∈ array_items (value_get "args" instruction) →
  ∃ name ty field, value_get "name" arg ≫= as_str = Some name ∧ value_get "type" arg = Some ty
    ∧ validate_interaction_type ty = Ok () ∧ field ∈ fields ∧ pf_name field = name ∧ pf_required field = true.
Proof.
  unfold arg_fields. generalize (array_items (value_get "args" instruction)). intros args. revert fields.
  induction args as [|a args IH]; intros fields; simpl; [by intros _ Hin%elem_of_nil|].
  intros (field & Hf & E)%bind_Ok Hin. apply bind_Ok in E as (fields' & E & [= <-]).
  apply elem_of_cons in Hin as [->|Hin].
  - apply bind_Ok in Hf as (name & Hn%ok_or_Ok & Hf). apply bind_Ok in Hf as (ty & Ht%ok_or_Ok & Hf).
    apply bind_Ok in Hf as ([] & Hv%context_Ok & [= <-]). eexists name, ty, _. split_and!; [done..|by left|done|done].
  - destruct (IH _ E Hin) as (name & ty & f & ? & ? & ? & ? & ? & ?). exists name, ty, f. split_and!; try done; by right.
Qed.

(** A complete plan has the inputs preparation asks for: when the plan of a
    request says its inputs are complete, every argument has a supported type and
    a nonblank value, every account that is neither derived nor a rest account
    has a nonblank value, and so has every account a derivation seed refers to,
    unless a rest account has its name. *)
Theorem complete_plan_supplies_inputs request plan idl sel :
  instruction_plan request = Ok plan → pr_inputs_complete plan = true →
  from_str (ri_idl_json request) = Some idl →
  select_instruction idl (ri_instruction request) = Ok sel →
  let accounts := array_items (value_get "accounts" (sel_instruction sel)) in
  (∀ arg, arg ∈ array_items (value_get "args" (sel_instruction sel)) →
     ∃ name ty, value_get "name" arg ≫= as_str = Some name ∧ value_get "type" arg = Some ty
       ∧ validate_interaction_type ty = Ok () ∧ supplied (ri_args request) name)
  ∧ (∀ account name, account ∈ accounts → value_get "pda" account = None →
       is_true_field "rest" account = false → value_get "name" account ≫= as_str = Some name →
       is_empty name = false → supplied (ri_accounts request) name)
  ∧ (∀ seed path, seed ∈ flat_map pda_seeds accounts → value_get "kind" seed ≫= as_str = Some "account" →
       value_get "path" seed ≫= as_str = Some path → is_empty path = false →
       supplied (ri_accounts request) path
       ∨ ∃ account, account ∈ accounts ∧ is_true_field "rest" account = true
                    ∧ value_get "name" account ≫= as_str = Some path).
Proof.
  unfold instruction_plan, parse_idl. intros Hplan Hc Hidl Hsel. rewrite Hidl in Hplan. simpl ok_or in Hplan.
  rewrite Ok_bind in Hplan. apply bind_Ok in Hplan as (rows & _ & Hplan).
  destruct (is_empty (trim (ri_instruction request))); [by simplify_eq/=|].
  rewrite Hsel, Ok_bind in Hplan. apply bind_Ok in Hplan as (args & Hargs & [= <-]).
  simpl in Hc. apply andb_true_iff in Hc as [[Hacc Harg]%andb_true_iff _].
  unfold account_fields in Hacc.
  set (accounts := array_items (value_get "accounts" (sel_instruction sel))) in *. set (plain := plain_account_fields accounts) in *.
  split_and!.
  - intros arg Hin. destruct (arg_fields_listed _ _ _ Hargs Hin) as (name & ty & f & Hn & Ht & Hv & Hf & <- & Hr).
    exists (pf_name f), ty. split_and!; try done. by eapply fields_complete_supplied.
  - intros account name Hin Hpda Hrest Hn He.
    destruct (plain_field_listed accounts account name) as (f & Hf & <- & Hr); [done..|].
    eapply fields_complete_supplied; [done|set_solver|]. by rewrite Hr, Hrest.
  - intros seed path Hin Hk Hp He. destruct (decide (path ∈ (list_to_set (map pf_name plain) : gset string))) as [Hs|Hs].
    + apply elem_of_list_to_set, list_elem_of_In, in_map_iff in Hs as (f & <- & Hf%list_elem_of_In).
      destruct (pf_required f) eqn:Hr; [left|right; by apply plain_field_account].
      eapply fields_complete_supplied; [done|set_solver|done].
    + left. destruct (seed_field_listed _ _ _ _ Hin Hk Hp He Hs) as (f & Hf & <- & Hr).
      eapply fields_complete_supplied; [done|set_solver|done].
Qed.
End plan_theorems.

(** ** Signers *)
Section signers.
Context `{LeeAccounts}.

Definition uncontrolled (has_signing_key : AccountId → bool) (a : PreparedAccount) : bool :=
  bool_decide (pa_privacy a = APublic) && pa_signer a && negb (has_signing_key (pa_account_id a)).

(** Submission is refused exactly when some public signer is not controlled
    by the wallet, and the error names the first such signer and its account. *)
Theorem first_uncontrolled_signer_refused accounts has_signing_key :
  ensure_controlled_public_signers accounts has_signing_key
  = match List.find (uncontrolled has_signing_key) accounts with
    | Some a =>
        bail ("Required public signer `" +:+ pa_name a +:+ "` (" +:+ account_to_string (pa_account_id a)
              +:+ ") is not controlled by the selected local wallet. "
              +:+ "Import it or choose a locally controlled signer.")
    | None => Ok ()
    end.
Proof.
  unfold ensure_controlled_public_signers. induction accounts as [|a accounts IH]; [done|].
  simpl. unfold uncontrolled at 1.
  destruct (bool_decide (pa_privacy a = APublic)), (pa_signer a); simpl; try exact IH.
  destruct (has_signing_key (pa_account_id a)); [exact IH|done].
Qed.
End signers.
