(* ===== verification/SortedRecords.v ===== *)
(** * Records sorted by a key

    What the zone catalog uses of the standard library's sorted collections: the
    iteration order of [BTreeMap<String, _>], [slice::binary_search_by], and
    vectors of records kept in strictly ascending order of a text key. *)

From S2P Require Import Prelude.

(** ** The order of keys *)
Definition str_lt (a b : string) : Prop := String.compare a b = Lt.

#[export] Instance str_lt_dec a b : Decision (str_lt a b).
Proof. unfold str_lt. apply _. Defined.

Lemma str_lt_irrefl a : ¬ str_lt a a.
Proof. unfold str_lt. by rewrite str_compare_refl. Qed.

Lemma ascii_compare_refl a : Ascii.compare a a = Eq.
Proof. apply N.compare_refl. Qed.

Lemma ascii_compare_lt_trans a b c :
  Ascii.compare a b = Lt → Ascii.compare b c = Lt → Ascii.compare a c = Lt.
Proof. unfold Ascii.compare. rewrite !N.compare_lt_iff. lia. Qed.

#[export] Instance str_lt_trans : Transitive str_lt.
Proof.
  unfold str_lt. intros a. induction a as [|x a IH]; intros [|y b] [|z c]; simpl; try done.
  destruct (Ascii.compare x y) eqn:Exy, (Ascii.compare y z) eqn:Eyz; try done.
  - apply Ascii.compare_eq_iff in Exy, Eyz. subst. rewrite ascii_compare_refl. apply IH.
  - apply Ascii.compare_eq_iff in Exy. subst. by rewrite Eyz.
  - apply Ascii.compare_eq_iff in Eyz. subst. by rewrite Exy.
  - by rewrite (ascii_compare_lt_trans x y z).
Qed.

Lemma str_lt_trichotomy a b : str_lt a b ∨ a = b ∨ str_lt b a.
Proof.
  unfold str_lt. destruct (String.compare a b) eqn:E; auto.
  - apply String.compare_eq_iff in E. auto.
  - rewrite String.compare_antisym, E. auto.
Qed.

Lemma str_lt_asymm a b : str_lt a b → ¬ str_lt b a.
Proof. intros H1 H2. apply (str_lt_irrefl a). by transitivity b. Qed.

Lemma str_compare_gt a b : String.compare a b = Gt ↔ str_lt b a.
Proof. unfold str_lt. rewrite String.compare_antisym. by destruct (String.compare b a). Qed.

(** ** [BTreeMap] iteration *)
Definition str_le (a b : string) : Prop := str_leb a b = true.
#[export] Instance str_le_dec a b : Decision (str_le a b).
Proof. unfold str_le. apply _. Defined.

Lemma str_le_lt a b : str_le a b ↔ a = b ∨ str_lt a b.
Proof.
  unfold str_le, str_leb, str_lt. destruct (String.compare a b) eqn:E; try (by intuition).
  - apply String.compare_eq_iff in E. by intuition.
  - split; [done|]. intros [->|]; [by rewrite str_compare_refl in E|done].
Qed.

Definition key_le {A} (x y : string * A) : Prop := str_le x.1 y.1.
#[export] Instance key_le_dec {A} (x y : string * A) : Decision (key_le x y).
Proof. unfold key_le. apply _. Defined.
#[export] Instance key_le_total {A} : Total (@key_le A).
Proof. intros x y. apply str_leb_total. Qed.
#[export] Instance key_le_trans {A} : Transitive (@key_le A).
Proof.
  intros x y z. unfold key_le. rewrite !str_le_lt.
  intros [E1|H1] [E2|H2]; [left; congruence|right; by rewrite E1|right; by rewrite <- E2|right].
  by transitivity y.1.
Qed.

Definition entries {A} (m : gmap string A) : list (string * A) := merge_sort key_le (map_to_list m).
Definition values {A} (m : gmap string A) : list A := (entries m).*2.

Lemma entries_perm {A} (m : gmap string A) : entries m ≡ₚ map_to_list m.
Proof. apply merge_sort_Permutation. Qed.

Lemma elem_of_entries {A} (m : gmap string A) k v : (k, v) ∈ entries m ↔ m !! k = Some v.
Proof. by rewrite entries_perm, elem_of_map_to_list. Qed.

Lemma elem_of_values {A} (m : gmap string A) v : v ∈ values m ↔ ∃ k, m !! k = Some v.
Proof.
  unfold values. rewrite list_elem_of_fmap. split.
  - intros ([k v'] & -> & E%elem_of_entries). by exists k.
  - intros (k & E%elem_of_entries). by exists (k, v).
Qed.

Lemma NoDup_entries_keys {A} (m : gmap string A) : NoDup (entries m).*1.
Proof. rewrite entries_perm. apply NoDup_fst_map_to_list. Qed.

Lemma entries_sorted {A} (m : gmap string A) :
  StronglySorted (λ x y, str_lt x.1 y.1) (entries m).
Proof.
  pose proof (NoDup_entries_keys m) as Hn.
  assert (Hs : StronglySorted key_le (entries m)).
  { apply Sorted_StronglySorted; [apply _|]. apply Sorted_merge_sort; apply _. }
  induction Hs as [|x l Hl IH Hx]; [constructor|]. simpl in Hn. apply NoDup_cons in Hn as [Hin Hn].
  constructor; [by apply IH|]. rewrite Forall_forall in Hx |- *. intros y Hy.
  specialize (Hx y Hy). unfold key_le in Hx. rewrite str_le_lt in Hx. destruct Hx as [E|]; [|done].
  destruct Hin. rewrite E. by apply list_elem_of_fmap_2.
Qed.

(** ** Sorted vectors *)
Section sorted.
Context {T : Type} (key : T → string).

Definition sorted_by : list T → Prop := StronglySorted (λ a b, str_lt (key a) (key b)).
Definition find_by (id : string) (l : list T) : option T := List.find (λ r, String.eqb (key r) id) l.

(** [slice::binary_search_by]: the found index, or the insertion index. *)
Fixpoint search_loop (fuel : nat) (id : string) (l : list T) (base size : nat) : nat :=
  match fuel with
  | O => base
  | S fuel' =>
      if (size <=? 1)%nat then base
      else
        let half := Nat.div2 size in
        let mid := (base + half)%nat in
        let base' := match l !! mid with
                     | Some r => match String.compare (key r) id with Gt => base | _ => mid end
                     | None => base
                     end in
        search_loop fuel' id l base' (size - half)
  end.

Definition binary_search (id : string) (l : list T) : nat + nat :=
  match l with
  | [] => inr O
  | _ =>
      let base := search_loop (length l) id l 0 (length l) in
      match l !! base with
      | None => inr base
      | Some r => match String.compare (key r) id with
                  | Eq => inl base
                  | Lt => inr (S base)
                  | Gt => inr base
                  end
      end
  end.

(** Nothing that follows the window can hold the key; the base, unless it is
    the first element, does not exceed it. *)
Definition window (id : string) (l : list T) (base size : nat) : Prop :=
  (0 < size)%nat ∧ (base + size ≤ length l)%nat
  ∧ (base = O ∨ ∃ r, l !! base = Some r ∧ ¬ str_lt id (key r))
  ∧ (∀ j r, (base + size ≤ j)%nat → l !! j = Some r → str_lt id (key r)).

Lemma sorted_lookup l i j a b :
  sorted_by l → (i < j)%nat → l !! i = Some a → l !! j = Some b → str_lt (key a) (key b).
Proof.
  intros Hs Hij Ha Hb. rewrite <- (take_drop (S i) l) in Hs. apply StronglySorted_app in Hs as (H12 & _).
  apply H12.
  - apply list_elem_of_lookup. exists i. rewrite lookup_take_lt by lia. done.
  - apply list_elem_of_lookup. exists (j - S i)%nat. rewrite lookup_drop.
    by replace (S i + (j - S i))%nat with j by lia.
Qed.

Lemma search_loop_window fuel id l : ∀ base size,
  sorted_by l → (size ≤ fuel)%nat → window id l base size →
  window id l (search_loop fuel id l base size) 1.
Proof.
  induction fuel as [|fuel IH]; intros base size Hs Hf (Hpos & Hlen & Hbase & Hafter); [lia|].
  simpl. destruct (Nat.leb_spec size 1) as [Hle|Hgt].
  { replace size with 1%nat in * by lia. by split. }
  pose proof (Nat.div2_odd size) as Hd.
  set (half := Nat.div2 size) in *.
  assert (Hh : (1 ≤ half ∧ 2 * half ≤ size)%nat) by (destruct (Nat.odd size); simpl in Hd; lia).
  destruct (lookup_lt_is_Some_2 l (base + half)) as [r Hr]; [lia|]. rewrite Hr.
  apply IH; [done|lia|].
  assert (Hcase : (¬ str_lt id (key r) ∧ match String.compare (key r) id with Gt => base | _ => (base + half)%nat end = (base + half)%nat)
    ∨ (str_lt id (key r) ∧ match String.compare (key r) id with Gt => base | _ => (base + half)%nat end = base)).
  { destruct (String.compare (key r) id) eqn:E.
    - left. split; [|done]. apply String.compare_eq_iff in E. subst id. apply str_lt_irrefl.
    - left. split; [|done]. by apply str_lt_asymm.
    - right. split; [by apply str_compare_gt|done]. }
  destruct Hcase as [[Hle ->]|[Hlt ->]].
  - split_and!; [lia|lia|right; by exists r|]. intros j b Hj. apply Hafter. lia.
  - split_and!; [lia|lia|done|]. intros j b Hj Hb.
    destruct (decide (j = (base + half)%nat)) as [->|Hne]; [congruence|].
    transitivity (key r); [done|]. by apply (sorted_lookup l (base + half) j); [..|lia| |].
Qed.

Lemma binary_search_spec id l :
  sorted_by l →
  match binary_search id l with
  | inl i => ∃ r, l !! i = Some r ∧ key r = id
  | inr i => (i ≤ length l)%nat
      ∧ (∀ j r, (j < i)%nat → l !! j = Some r → str_lt (key r) id)
      ∧ (∀ j r, (i ≤ j)%nat → l !! j = Some r → str_lt id (key r))
  end.
Proof.
  intros Hs. destruct l as [|r0 l0].
  { simpl. split_and!; [done|intros; lia|intros j r _ Hj; by rewrite lookup_nil in Hj]. }
  unfold binary_search. assert (Hpos : (0 < length (r0 :: l0))%nat) by (simpl; lia).
  revert Hs Hpos. generalize (r0 :: l0). clear r0 l0. intros l Hs Hpos.
  assert (Hw : window id l (search_loop (length l) id l 0 (length l)) 1).
  { apply search_loop_window; [done|lia|]. split_and!; [lia|lia|by left|].
    intros j r Hj Hl. apply lookup_lt_Some in Hl. lia. }
  destruct Hw as (_ & Hlen & Hbase & Hafter). set (base := search_loop _ _ _ _ _) in *.
  destruct (lookup_lt_is_Some_2 l base) as [r Hr]; [lia|]. rewrite Hr.
  destruct (String.compare (key r) id) eqn:E.
  - exists r. split; [done|]. by apply String.compare_eq_iff in E.
  - split_and!; [lia| |intros j b Hj; apply Hafter; lia]. intros j b Hj Hb.
    destruct (decide (j = base)) as [->|]; [congruence|]. transitivity (key r); [|done].
    by apply (sorted_lookup l j base); [..|lia| |].
  - apply str_compare_gt in E. destruct Hbase as [Hbase|(r' & Hr' & Hno)]; [|congruence].
    split_and!; [lia|lia|]. intros j b Hj Hb.
    destruct (decide (j = base)) as [->|]; [congruence|]. transitivity (key r); [done|].
    by apply (sorted_lookup l base j); [..|lia| |].
Qed.

Lemma sorted_key_inj l a b : sorted_by l → a ∈ l → b ∈ l → key a = key b → a = b.
Proof.
  intros Hs (i & Ha)%list_elem_of_lookup (j & Hb)%list_elem_of_lookup E.
  destruct (lt_eq_lt_dec i j) as [[Hlt| ->]|Hlt]; [|congruence|].
  - pose proof (sorted_lookup l i j a b Hs Hlt Ha Hb) as Hk. rewrite E in Hk. by apply str_lt_irrefl in Hk.
  - pose proof (sorted_lookup l j i b a Hs Hlt Hb Ha) as Hk. rewrite E in Hk. by apply str_lt_irrefl in Hk.
Qed.

Lemma find_by_Some id l r : sorted_by l → find_by id l = Some r ↔ r ∈ l ∧ key r = id.
Proof.
  intros Hs. unfold find_by. split.
  - intros [Hin E]%List.find_some. split; [by apply list_elem_of_In|by apply String.eqb_eq].
  - intros [Hin E]. destruct (List.find _ l) as [r'|] eqn:Ef.
    + apply List.find_some in Ef as [Hin' E'%String.eqb_eq]. f_equal.
      apply (sorted_key_inj l); [done|by apply list_elem_of_In|done|congruence].
    + apply list_elem_of_In, (List.find_none _ _ Ef), String.eqb_neq in Hin. done.
Qed.

Lemma find_by_None id l : find_by id l = None ↔ ∀ r, r ∈ l → key r ≠ id.
Proof.
  unfold find_by. split.
  - intros Hf r Hin%list_elem_of_In. by apply (List.find_none _ _ Hf), String.eqb_neq in Hin.
  - intros Hall. destruct (List.find _ l) as [r|] eqn:Ef; [|done].
    apply List.find_some in Ef as [Hin E%String.eqb_eq]. by destruct (Hall r); [apply list_elem_of_In|].
Qed.

(** Searching a sorted vector is looking for the key. *)
Lemma binary_search_find id l :
  sorted_by l →
  match binary_search id l with inl i => l !! i | inr _ => None end = find_by id l.
Proof.
  intros Hs. pose proof (binary_search_spec id l Hs) as Hb. destruct (binary_search id l) as [i|i].
  - destruct Hb as (r & Hr & Hk). rewrite Hr. symmetry. apply find_by_Some; [done|].
    split; [by eapply list_elem_of_lookup_2|done].
  - symmetry. apply find_by_None. intros r (j & Hj)%list_elem_of_lookup E. destruct Hb as (_ & Hlt & Hgt).
    destruct (decide (j < i)%nat).
    + pose proof (Hlt j r ltac:(lia) Hj) as Hk. rewrite E in Hk. by apply str_lt_irrefl in Hk.
    + pose proof (Hgt j r ltac:(lia) Hj) as Hk. rewrite E in Hk. by apply str_lt_irrefl in Hk.
Qed.

Lemma sorted_by_ext l1 l2 :
  sorted_by l1 → sorted_by l2 → (∀ r, r ∈ l1 ↔ r ∈ l2) → l1 = l2.
Proof.
  revert l2. induction l1 as [|a l1 IH]; intros [|b l2] H1 H2 Heq; [done|..].
  - exfalso. specialize (Heq b). rewrite elem_of_nil in Heq. apply Heq. by left.
  - exfalso. specialize (Heq a). rewrite elem_of_nil in Heq. apply Heq. by left.
  - apply StronglySorted_cons in H1 as [Ha H1], H2 as [Hb H2]. rewrite Forall_forall in Ha, Hb.
    assert (a = b) as <-.
    { assert (Hab : a ∈ b :: l2) by (apply Heq; by left). assert (Hba : b ∈ a :: l1) by (apply Heq; by left).
      apply elem_of_cons in Hab as [|Hab]; [done|]. apply elem_of_cons in Hba as [|Hba]; [done|].
      destruct (str_lt_asymm (key a) (key b)); auto. }
    f_equal. apply IH; [done..|]. intros r. specialize (Heq r). rewrite !elem_of_cons in Heq.
    split; intros Hr.
    + destruct (proj1 Heq) as [->|]; [by right| |done]. by destruct (str_lt_irrefl (key a)); auto.
    + destruct (proj2 Heq) as [->|]; [by right| |done]. by destruct (str_lt_irrefl (key a)); auto.
Qed.

Lemma sorted_by_filter (P : T → Prop) `{!∀ x, Decision (P x)} l : sorted_by l → sorted_by (filter P l).
Proof.
  induction 1 as [|a l Hl IH Ha]; [constructor|]. rewrite filter_cons. case_decide; [|done].
  constructor; [done|]. rewrite Forall_forall in Ha |- *. intros x [_ Hx]%list_elem_of_filter. by apply Ha.
Qed.
End sorted.
