(* ===== verification/CatalogModel.v ===== *)
(** * The zone catalog: records

    inspection/catalog/model.rs: the records of a catalog, its snapshots and
    batches, and the validators of each record; with the enumerations of
    inspection/zones.rs they use. *)

From S2P Require Import Prelude Bytes.

(** ** Results with a typed error *)
Inductive Res (E A : Type) : Type :=
  | ROk (a : A)
  | RErr (e : E).
Arguments ROk {E A} a.
Arguments RErr {E A} e.

#[export] Instance Res_ret E : MRet (Res E) := λ A, ROk.
#[export] Instance Res_bind E : MBind (Res E) := λ A B k m,
  match m with ROk a => k a | RErr e => RErr e end.

Definition ok_or_else {E A} (e : E) (o : option A) : Res E A :=
  match o with Some a => ROk a | None => RErr e end.
Definition map_err {E F A} (f : E → F) (r : Res E A) : Res F A :=
  match r with ROk a => ROk a | RErr e => RErr (f e) end.
(** [if condition { return Err(error) }]. *)
Definition ensure {E} (condition : bool) (e : E) : Res E () := if condition then ROk () else RErr e.

(** [for x in xs { f(x)?; }] and [for x in xs { s = f(x, s)?; }]. *)
Fixpoint each {E A} (f : A → Res E ()) (xs : list A) : Res E () :=
  match xs with [] => ROk () | x :: xs' => f x ;; each f xs' end.
Fixpoint fold_res {E A S} (f : A → S → Res E S) (xs : list A) (s : S) : Res E S :=
  match xs with [] => ROk s | x :: xs' => s' ← f x s; fold_res f xs' s' end.

Lemma rbind_ROk {E A B} (m : Res E A) (f : A → Res E B) b :
  (a ← m; f a) = ROk b ↔ ∃ a, m = ROk a ∧ f a = ROk b.
Proof. destruct m; simpl; naive_solver. Qed.

Lemma rseq_ROk {E B} (m : Res E ()) (r : Res E B) b :
  (m ;; r) = ROk b ↔ m = ROk () ∧ r = ROk b.
Proof. destruct m as [[]|]; simpl; naive_solver. Qed.

Lemma ok_or_else_ROk {E A} (e : E) (o : option A) a : ok_or_else e o = ROk a ↔ o = Some a.
Proof. destruct o; simpl; naive_solver. Qed.

Lemma map_err_ROk {E F A} (f : E → F) (r : Res E A) a : map_err f r = ROk a ↔ r = ROk a.
Proof. destruct r; simpl; naive_solver. Qed.

Lemma ensure_ROk {E} b (e : E) : ensure b e = ROk () ↔ b = true.
Proof. destruct b; simpl; naive_solver. Qed.

Lemma each_ROk {E A} (f : A → Res E ()) xs : each f xs = ROk () ↔ ∀ x, x ∈ xs → f x = ROk ().
Proof.
  induction xs as [|x xs IH]; simpl; [split; [by intros _ x Hx%elem_of_nil|done]|].
  rewrite rseq_ROk, IH. setoid_rewrite elem_of_cons. naive_solver.
Qed.

Lemma fold_res_invariant {E A S} (f : A → S → Res E S) (I : S → Prop) xs :
  (∀ x s s', x ∈ xs → I s → f x s = ROk s' → I s') → ∀ s s', I s → fold_res f xs s = ROk s' → I s'.
Proof.
  induction xs as [|x xs IH]; intros Hstep s s' Hs; simpl; [by intros [= <-]|].
  intros (s1 & H1 & H2)%rbind_ROk. eapply IH; [|by eapply (Hstep x s); [left| |]|done].
  intros y t t' Hy. apply Hstep. by right.
Qed.

(** ** Texts *)
(** [chars().any(char::is_control)]: the category Cc, U+0000 to U+001F and
    U+007F to U+009F, in UTF-8. *)
Fixpoint any_control (bs : list Z) : bool :=
  match bs with
  | [] => false
  | b :: bs' =>
      (b <? 32) || (b =? 127)
      || match bs' with c :: _ => (b =? 194) && in_range 128 159 c | [] => false end
      || any_control bs'
  end.
Definition has_control (s : string) : bool := any_control (as_bytes s).

(** ** Errors *)
Inductive CatalogInvalidationReason : Type :=
  | DatabaseUnreadable | SchemaMissing | SchemaVersion | TableSchema | RecordVersion | RecordDecode | RecordInvariant.
#[export] Instance CatalogInvalidationReason_eq_dec : EqDecision CatalogInvalidationReason.
Proof. solve_decision. Defined.

Definition reason_debug (r : CatalogInvalidationReason) : string :=
  match r with
  | DatabaseUnreadable => "DatabaseUnreadable" | SchemaMissing => "SchemaMissing"
  | SchemaVersion => "SchemaVersion" | TableSchema => "TableSchema" | RecordVersion => "RecordVersion"
  | RecordDecode => "RecordDecode" | RecordInvariant => "RecordInvariant"
  end.

Record CatalogInvalidation : Type := mkInvalidation {
  inv_reason : CatalogInvalidationReason;
  inv_detail : string;
}.

Inductive CatalogError : Type :=
  | Invalidated (invalidation : CatalogInvalidation)
  | RevisionConflict (expected current : Z)
  | InvalidInput (detail : string)
  | Storage (detail : string).

Abbreviation CatalogResult := (Res CatalogError).

Definition invalidated (reason : CatalogInvalidationReason) (detail : string) : CatalogError :=
  Invalidated (mkInvalidation reason detail).

Definition catalog_error_text (e : CatalogError) : string :=
  match e with
  | Invalidated i =>
      "Zone Catalog invalidated (" +:+ reason_debug (inv_reason i) +:+ "): " +:+ inv_detail i
  | RevisionConflict expected current =>
      "Zone Catalog revision conflict: expected " +:+ pretty expected +:+ ", current " +:+ pretty current
  | InvalidInput detail => "invalid Zone Catalog input: " +:+ detail
  | Storage detail => "Zone Catalog storage error: " +:+ detail
  end.

(** ** The enumerations of zones.rs *)
Inductive L1FinalityState : Type :=
  | L1Final | L1Finalizing | L1Unknown.
#[export] Instance L1FinalityState_eq_dec : EqDecision L1FinalityState.
Proof. solve_decision. Defined.

Record L1ChannelSummary : Type := mkL1Channel {
  lc_tip_slot : option Z;
  lc_tip_hash : option string;
  lc_lib_slot : option Z;
  lc_balance : option string;
  lc_key_count : option Z;
  lc_withdraw_threshold : option string;
  lc_operation_count : Z;
  lc_finality_state : L1FinalityState;
}.
#[export] Instance L1ChannelSummary_eq_dec : EqDecision L1ChannelSummary.
Proof. solve_decision. Defined.
#[export] Instance L1ChannelSummary_eta : Eta L1ChannelSummary :=
  λ r, mkL1Channel (lc_tip_slot r) (lc_tip_hash r) (lc_lib_slot r) (lc_balance r) (lc_key_count r) (lc_withdraw_threshold r) (lc_operation_count r) (lc_finality_state r).

Record SequencerCommitteeSummary : Type := mkCommittee {
  sc_members : list string;
  sc_active_member : option string;
  sc_observed_at_slot : option Z;
}.
#[export] Instance SequencerCommitteeSummary_eq_dec : EqDecision SequencerCommitteeSummary.
Proof. solve_decision. Defined.
#[export] Instance SequencerCommitteeSummary_eta : Eta SequencerCommitteeSummary :=
  λ r, mkCommittee (sc_members r) (sc_active_member r) (sc_observed_at_slot r).

Inductive NetworkScope : Type :=
  | GenesisId (genesis_id : string)
  | FinalizedAnchor (genesis_time : string) (block_slot : Z) (block_id parent_id : string).
#[export] Instance NetworkScope_eq_dec : EqDecision NetworkScope.
Proof. solve_decision. Defined.

Inductive CatalogCoverageStatus : Type :=
  | CoverComplete | CoverPartial | CoverRebuilding | CoverUnknown.
#[export] Instance CatalogCoverageStatus_eq_dec : EqDecision CatalogCoverageStatus.
Proof. solve_decision. Defined.

Inductive CoveragePrefixStatus : Type :=
  | PrefixComplete | PrefixUnavailable | PrefixUnknown.
#[export] Instance CoveragePrefixStatus_eq_dec : EqDecision CoveragePrefixStatus.
Proof. solve_decision. Defined.

(** ** Catalog records *)
Inductive CatalogIdentityAssurance : Type :=
  | Provisional | SourceAttested | AncestryVerified.
#[export] Instance CatalogIdentityAssurance_eq_dec : EqDecision CatalogIdentityAssurance.
Proof. solve_decision. Defined.

Record NetworkIdentityAlias : Type := mkAlias {
  al_network_scope : NetworkScope;
  al_accepted_at_unix : Z;
}.
#[export] Instance NetworkIdentityAlias_eq_dec : EqDecision NetworkIdentityAlias.
Proof. solve_decision. Defined.

Inductive CatalogIdentityTransitionStage : Type :=
  | StagePrepared | StageSettingsRebound | StageCommitted.
#[export] Instance CatalogIdentityTransitionStage_eq_dec : EqDecision CatalogIdentityTransitionStage.
Proof. solve_decision. Defined.

Record CatalogBlockReference : Type := mkReference {
  br_slot : Z;
  br_block_id : string;
}.
#[export] Instance CatalogBlockReference_eq_dec : EqDecision CatalogBlockReference.
Proof. solve_decision. Defined.

Record CatalogBlockCheckpoint : Type := mkCheckpoint {
  cp_slot : Z;
  cp_block_id : string;
  cp_parent_id : string;
}.
#[export] Instance CatalogBlockCheckpoint_eq_dec : EqDecision CatalogBlockCheckpoint.
Proof. solve_decision. Defined.

Record CatalogIdentityTransition : Type := mkIdentityTransition {
  it_old_scope : NetworkScope;
  it_new_scope : NetworkScope;
  it_anchor : CatalogBlockCheckpoint;
  it_checkpoint : CatalogBlockCheckpoint;
  it_source_revision : Z;
  it_stage : CatalogIdentityTransitionStage;
  it_prepared_at_unix : Z;
}.
#[export] Instance CatalogIdentityTransition_eq_dec : EqDecision CatalogIdentityTransition.
Proof. solve_decision. Defined.

Record CatalogMetadata : Type := mkMetadata {
  md_catalog_file_id : string;
  md_network_scope : NetworkScope;
  md_identity_aliases : list NetworkIdentityAlias;
  md_identity_assurance : CatalogIdentityAssurance;
  md_identity_transition : option CatalogIdentityTransition;
  md_catalog_revision : Z;
  md_created_at_unix : Z;
  md_updated_at_unix : Z;
}.
#[export] Instance CatalogMetadata_eq_dec : EqDecision CatalogMetadata.
Proof. solve_decision. Defined.
#[export] Instance CatalogMetadata_eta : Eta CatalogMetadata :=
  λ r, mkMetadata (md_catalog_file_id r) (md_network_scope r) (md_identity_aliases r) (md_identity_assurance r) (md_identity_transition r) (md_catalog_revision r) (md_created_at_unix r) (md_updated_at_unix r).

Record CatalogFrontier : Type := mkFrontier {
  fr_scanned_through_slot : option Z;
  fr_checkpoint : option CatalogBlockCheckpoint;
  fr_observed_lib : option CatalogBlockReference;
  fr_coverage_floor : option Z;
  fr_prefix_status : CoveragePrefixStatus;
  fr_coverage_status : CatalogCoverageStatus;
}.
#[export] Instance CatalogFrontier_eq_dec : EqDecision CatalogFrontier.
Proof. solve_decision. Defined.
#[export] Instance CatalogFrontier_eta : Eta CatalogFrontier :=
  λ r, mkFrontier (fr_scanned_through_slot r) (fr_checkpoint r) (fr_observed_lib r) (fr_coverage_floor r) (fr_prefix_status r) (fr_coverage_status r).

Record CatalogTraversal : Type := mkTraversal {
  tv_target_lib : option CatalogBlockReference;
  tv_ingestion_cursor : option CatalogBlockReference;
}.
#[export] Instance CatalogTraversal_eq_dec : EqDecision CatalogTraversal.
Proof. solve_decision. Defined.
#[export] Instance CatalogTraversal_eta : Eta CatalogTraversal :=
  λ r, mkTraversal (tv_target_lib r) (tv_ingestion_cursor r).

Record CoverageSegment : Type := mkSegment {
  sg_segment_id : string;
  sg_floor : CatalogBlockCheckpoint;
  sg_frontier : CatalogBlockReference;
  sg_reaches_target_lib : bool;
}.
#[export] Instance CoverageSegment_eq_dec : EqDecision CoverageSegment.
Proof. solve_decision. Defined.
#[export] Instance CoverageSegment_eta : Eta CoverageSegment :=
  λ r, mkSegment (sg_segment_id r) (sg_floor r) (sg_frontier r) (sg_reaches_target_lib r).

Inductive CoverageGapReason : Type :=
  | MissingParent | MissingBlockBody | ParentLinkMismatch | SourceUnavailable.
#[export] Instance CoverageGapReason_eq_dec : EqDecision CoverageGapReason.
Proof. solve_decision. Defined.

Inductive CoverageGapStatus : Type :=
  | GapPending | GapRepairing | GapBackoff.
#[export] Instance CoverageGapStatus_eq_dec : EqDecision CoverageGapStatus.
Proof. solve_decision. Defined.

Record CoverageGap : Type := mkGap {
  gp_gap_id : string;
  gp_lower_segment_id : string;
  gp_lower_checkpoint : CatalogBlockReference;
  gp_upper_segment_id : string;
  gp_upper_block : CatalogBlockReference;
  gp_required_parent_id : string;
  gp_reason : CoverageGapReason;
  gp_status : CoverageGapStatus;
  gp_attempts : Z;
  gp_first_seen_at_unix : Z;
  gp_last_attempt_at_unix : option Z;
}.
#[export] Instance CoverageGap_eq_dec : EqDecision CoverageGap.
Proof. solve_decision. Defined.
#[export] Instance CoverageGap_eta : Eta CoverageGap :=
  λ r, mkGap (gp_gap_id r) (gp_lower_segment_id r) (gp_lower_checkpoint r) (gp_upper_segment_id r) (gp_upper_block r) (gp_required_parent_id r) (gp_reason r) (gp_status r) (gp_attempts r) (gp_first_seen_at_unix r) (gp_last_attempt_at_unix r).

Record ZoneClassificationCounters : Type := mkCounters {
  zc_channel_operations : Z;
  zc_recognized_l2_blocks : Z;
  zc_raw_inscriptions : Z;
  zc_conflicting_evidence : bool;
}.
#[export] Instance ZoneClassificationCounters_eq_dec : EqDecision ZoneClassificationCounters.
Proof. solve_decision. Defined.
#[export] Instance ZoneClassificationCounters_eta : Eta ZoneClassificationCounters :=
  λ r, mkCounters (zc_channel_operations r) (zc_recognized_l2_blocks r) (zc_raw_inscriptions r) (zc_conflicting_evidence r).

Inductive CatalogSnapshotOrigin : Type :=
  | ReplayDerived | OriginPointSnapshot | FullConfiguration.
#[export] Instance CatalogSnapshotOrigin_eq_dec : EqDecision CatalogSnapshotOrigin.
Proof. solve_decision. Defined.

Record CatalogSnapshotProvenance : Type := mkProvenance {
  sp_origin : CatalogSnapshotOrigin;
  sp_coverage_segment_id : string;
  sp_observed_slot : Z;
  sp_source_revision : Z;
}.
#[export] Instance CatalogSnapshotProvenance_eq_dec : EqDecision CatalogSnapshotProvenance.
Proof. solve_decision. Defined.
#[export] Instance CatalogSnapshotProvenance_eta : Eta CatalogSnapshotProvenance :=
  λ r, mkProvenance (sp_origin r) (sp_coverage_segment_id r) (sp_observed_slot r) (sp_source_revision r).

Record ZoneCatalogRecord : Type := mkZone {
  zr_channel_id : string;
  zr_observed_label : option string;
  zr_l1_channel : L1ChannelSummary;
  zr_sequencer_committee : option SequencerCommitteeSummary;
  zr_classification : ZoneClassificationCounters;
  zr_first_seen_slot : Z;
  zr_last_seen_slot : Z;
  zr_latest_evidence_id : string;
  zr_evidence_count : Z;
  zr_snapshot_provenance : CatalogSnapshotProvenance;
  zr_updated_at_unix : Z;
}.
#[export] Instance ZoneCatalogRecord_eq_dec : EqDecision ZoneCatalogRecord.
Proof. solve_decision. Defined.
#[export] Instance ZoneCatalogRecord_eta : Eta ZoneCatalogRecord :=
  λ r, mkZone (zr_channel_id r) (zr_observed_label r) (zr_l1_channel r) (zr_sequencer_committee r) (zr_classification r) (zr_first_seen_slot r) (zr_last_seen_slot r) (zr_latest_evidence_id r) (zr_evidence_count r) (zr_snapshot_provenance r) (zr_updated_at_unix r).

Inductive ZoneEvidenceKind : Type :=
  | ChannelCreated | ChannelConfiguration | ChannelOperation | SequencerBlock | RawInscription.
#[export] Instance ZoneEvidenceKind_eq_dec : EqDecision ZoneEvidenceKind.
Proof. solve_decision. Defined.

Inductive CatalogEvidenceUse : Type :=
  | UsePresence | UsePointSnapshot | UseReplayContribution.
#[export] Instance CatalogEvidenceUse_eq_dec : EqDecision CatalogEvidenceUse.
Proof. solve_decision. Defined.

Record ZoneEvidenceReference : Type := mkEvidence {
  ev_evidence_id : string;
  ev_channel_id : string;
  ev_coverage_segment_id : string;
  ev_l1_slot : Z;
  ev_block_id : string;
  ev_transaction_hash : option string;
  ev_operation_index : Z;
  ev_message_id : option string;
  ev_evidence_kind : ZoneEvidenceKind;
  ev_evidence_use : CatalogEvidenceUse;
}.
#[export] Instance ZoneEvidenceReference_eq_dec : EqDecision ZoneEvidenceReference.
Proof. solve_decision. Defined.
#[export] Instance ZoneEvidenceReference_eta : Eta ZoneEvidenceReference :=
  λ r, mkEvidence (ev_evidence_id r) (ev_channel_id r) (ev_coverage_segment_id r) (ev_l1_slot r) (ev_block_id r) (ev_transaction_hash r) (ev_operation_index r) (ev_message_id r) (ev_evidence_kind r) (ev_evidence_use r).

Record CatalogBatch : Type := mkBatch {
  cb_expected_catalog_revision : Z;
  cb_updated_at_unix : Z;
  cb_upsert_zones : list ZoneCatalogRecord;
  cb_delete_zone_ids : list string;
  cb_upsert_evidence : list ZoneEvidenceReference;
  cb_delete_evidence_ids : list string;
  cb_upsert_segments : list CoverageSegment;
  cb_delete_segment_ids : list string;
  cb_upsert_gaps : list CoverageGap;
  cb_delete_gap_ids : list string;
  cb_frontier : option CatalogFrontier;
  cb_traversal : option CatalogTraversal;
}.
#[export] Instance CatalogBatch_eq_dec : EqDecision CatalogBatch.
Proof. solve_decision. Defined.

Record CatalogSnapshot : Type := mkSnapshot {
  sn_metadata : CatalogMetadata;
  sn_frontier : option CatalogFrontier;
  sn_traversal : option CatalogTraversal;
  sn_zones : list ZoneCatalogRecord;
  sn_evidence : list ZoneEvidenceReference;
  sn_segments : list CoverageSegment;
  sn_gaps : list CoverageGap;
}.
#[export] Instance CatalogSnapshot_eq_dec : EqDecision CatalogSnapshot.
Proof. solve_decision. Defined.

(** ** Validators *)
Definition is_genesis (scope : NetworkScope) : bool :=
  match scope with GenesisId _ => true | FinalizedAnchor _ _ _ _ => false end.

Definition lower_hexdigit (b : Z) : bool := in_range 48 57 b || in_range 97 102 b.

Definition validate_hex_id (value label : string) : CatalogResult () :=
  ensure ((str_len value =? 64) && forallb lower_hexdigit (as_bytes value))
    (InvalidInput (label +:+ " must be canonical 32-byte hexadecimal text")).

Definition validate_local_id (value label : string) : CatalogResult () :=
  ensure (negb (is_empty value || (256 <? str_len value) || has_control value))
    (InvalidInput (label +:+ " is invalid")).

Definition canonical_hex_id (value label : string) : CatalogResult string :=
  let value := trim value in
  let value := default value (strip_any ["0x"; "0X"] value) in
  if negb (str_len value =? 64) || negb (all_hexdigits value)
  then RErr (InvalidInput (label +:+ " must be 32-byte hexadecimal text"))
  else ROk (to_ascii_lowercase value).

Definition validate_block_reference (reference : CatalogBlockReference) : CatalogResult () :=
  validate_hex_id (br_block_id reference) "block id".

Definition validate_block_checkpoint (checkpoint : CatalogBlockCheckpoint) : CatalogResult () :=
  validate_hex_id (cp_block_id checkpoint) "checkpoint block id" ;;
  validate_hex_id (cp_parent_id checkpoint) "checkpoint parent id".

Definition validate_network_scope (scope : NetworkScope) : CatalogResult () :=
  match scope with
  | GenesisId genesis_id => validate_hex_id genesis_id "genesis id"
  | FinalizedAnchor genesis_time _ block_id parent_id =>
      ensure (negb (is_empty genesis_time || has_control genesis_time))
        (InvalidInput "finalized-anchor genesis time is invalid") ;;
      validate_hex_id block_id "finalized-anchor block id" ;;
      validate_hex_id parent_id "finalized-anchor parent id"
  end.

Definition canonical_network_scope (scope : NetworkScope) : CatalogResult NetworkScope :=
  match scope with
  | GenesisId genesis_id =>
      genesis_id ← canonical_hex_id genesis_id "genesis id"; ROk (GenesisId genesis_id)
  | FinalizedAnchor genesis_time block_slot block_id parent_id =>
      let genesis_time := trim genesis_time in
      ensure (negb (is_empty genesis_time || has_control genesis_time))
        (InvalidInput "finalized-anchor genesis time is invalid") ;;
      block_id ← canonical_hex_id block_id "finalized-anchor block id";
      parent_id ← canonical_hex_id parent_id "finalized-anchor parent id";
      ROk (FinalizedAnchor genesis_time block_slot block_id parent_id)
  end.

(** [CatalogMetadata::new], with the 16 random bytes it draws. *)
Definition metadata_new `{HexCrate} (random : list Z) (scope : NetworkScope) (created_at_unix : Z)
    : CatalogResult CatalogMetadata :=
  scope ← canonical_network_scope scope;
  let assurance := if is_genesis scope then SourceAttested else Provisional in
  ROk (mkMetadata ("catalog_" +:+ hex_encode random) scope [] assurance None 0
         created_at_unix created_at_unix).

(** The alias loop; [seen] are the aliases before. *)
Fixpoint validate_aliases (scope : NetworkScope) (seen aliases : list NetworkIdentityAlias)
    : CatalogResult () :=
  match aliases with
  | [] => ROk ()
  | alias :: aliases' =>
      validate_network_scope (al_network_scope alias) ;;
      ensure (negb (bool_decide (al_network_scope alias = scope)))
        (InvalidInput "catalog identity alias duplicates canonical scope") ;;
      ensure (negb (existsb (λ a, bool_decide (al_network_scope a = al_network_scope alias)) seen))
        (InvalidInput "catalog identity aliases contain duplicates") ;;
      validate_aliases scope (seen ++ [alias]) aliases'
  end.

Definition validate_transition (metadata : CatalogMetadata) (t : CatalogIdentityTransition)
    : CatalogResult () :=
  validate_network_scope (it_old_scope t) ;;
  validate_network_scope (it_new_scope t) ;;
  validate_block_checkpoint (it_anchor t) ;;
  validate_block_checkpoint (it_checkpoint t) ;;
  ensure (negb (is_genesis (it_old_scope t)) && is_genesis (it_new_scope t))
    (InvalidInput "catalog identity transition must strengthen an anchor to genesis") ;;
  match it_stage t with
  | StagePrepared | StageSettingsRebound =>
      ensure (bool_decide (md_network_scope metadata = it_old_scope t))
        (InvalidInput "pending identity transition changed canonical scope")
  | StageCommitted =>
      ensure (bool_decide (md_network_scope metadata = it_new_scope t)
              && existsb (λ a, bool_decide (al_network_scope a = it_old_scope t))
                   (md_identity_aliases metadata))
        (InvalidInput "committed identity transition is missing canonical scope or alias")
  end.

Definition validate_metadata (metadata : CatalogMetadata) : CatalogResult () :=
  validate_local_id (md_catalog_file_id metadata) "catalog file id" ;;
  validate_network_scope (md_network_scope metadata) ;;
  validate_aliases (md_network_scope metadata) [] (md_identity_aliases metadata) ;;
  match md_identity_transition metadata with
  | Some t => validate_transition metadata t
  | None => ROk ()
  end ;;
  ensure (negb (bool_decide (md_identity_assurance metadata = AncestryVerified)
                && negb (is_genesis (md_network_scope metadata))))
    (InvalidInput "ancestry-verified identity requires genesis scope").

Definition validate_frontier (frontier : CatalogFrontier) : CatalogResult () :=
  match fr_checkpoint frontier with
  | Some checkpoint =>
      validate_block_checkpoint checkpoint ;;
      ensure (bool_decide (fr_scanned_through_slot frontier = Some (cp_slot checkpoint)))
        (InvalidInput "catalog checkpoint must match scanned-through slot")
  | None =>
      ensure (bool_decide (fr_scanned_through_slot frontier = None))
        (InvalidInput "scanned catalog frontier requires an actual block checkpoint")
  end ;;
  match fr_observed_lib frontier with
  | Some observed_lib =>
      validate_block_reference observed_lib ;;
      ensure (negb match fr_scanned_through_slot frontier with
                   | Some slot => br_slot observed_lib <? slot
                   | None => false
                   end)
        (InvalidInput "catalog frontier is beyond observed LIB")
  | None => ROk ()
  end ;;
  ensure (negb match fr_coverage_floor frontier with
               | Some floor => match fr_scanned_through_slot frontier with
                               | Some scanned => scanned <? floor
                               | None => true
                               end
               | None => false
               end)
    (InvalidInput "catalog coverage floor is beyond its frontier").

Definition validate_traversal (traversal : CatalogTraversal) : CatalogResult () :=
  match tv_target_lib traversal with
  | Some target => validate_block_reference target
  | None => ROk ()
  end ;;
  match tv_ingestion_cursor traversal with
  | Some cursor =>
      validate_block_reference cursor ;;
      ensure (negb match tv_target_lib traversal with
                   | Some target => br_slot target <? br_slot cursor
                   | None => false
                   end)
        (InvalidInput "catalog ingestion cursor is beyond target LIB")
  | None => ROk ()
  end.

Definition validate_segment (segment : CoverageSegment) : CatalogResult () :=
  validate_local_id (sg_segment_id segment) "coverage segment id" ;;
  validate_block_checkpoint (sg_floor segment) ;;
  validate_block_reference (sg_frontier segment) ;;
  ensure (negb (br_slot (sg_frontier segment) <? cp_slot (sg_floor segment)))
    (InvalidInput "coverage segment frontier precedes its floor") ;;
  ensure (negb ((br_slot (sg_frontier segment) =? cp_slot (sg_floor segment))
                && negb (String.eqb (br_block_id (sg_frontier segment)) (cp_block_id (sg_floor segment)))))
    (InvalidInput "single-block coverage segment has conflicting block ids").

Definition validate_gap (gap : CoverageGap) : CatalogResult () :=
  validate_local_id (gp_gap_id gap) "coverage gap id" ;;
  validate_local_id (gp_lower_segment_id gap) "lower coverage segment id" ;;
  validate_local_id (gp_upper_segment_id gap) "upper coverage segment id" ;;
  validate_block_reference (gp_lower_checkpoint gap) ;;
  validate_block_reference (gp_upper_block gap) ;;
  validate_hex_id (gp_required_parent_id gap) "required parent id" ;;
  ensure (negb (String.eqb (gp_lower_segment_id gap) (gp_upper_segment_id gap)))
    (InvalidInput "coverage gap must join distinct segments") ;;
  ensure (negb (br_slot (gp_upper_block gap) <=? br_slot (gp_lower_checkpoint gap)))
    (InvalidInput "coverage gap upper block must follow its lower checkpoint").

(** The member loop of a committee; [members] are those before. *)
Fixpoint validate_members (members : gset string) (rest : list string) : CatalogResult (gset string) :=
  match rest with
  | [] => ROk members
  | member :: rest' =>
      validate_local_id member "Sequencer committee member" ;;
      ensure (negb (bool_decide (member ∈ members)))
        (InvalidInput "Sequencer committee contains duplicate members") ;;
      validate_members ({[member]} ∪ members) rest'
  end.

Definition validate_committee (committee : SequencerCommitteeSummary) : CatalogResult () :=
  members ← validate_members ∅ (sc_members committee);
  ensure match sc_active_member committee with
         | Some active => bool_decide (active ∈ members)
         | None => true
         end
    (InvalidInput "active Sequencer committee member is not accredited").

Definition validate_zone (record : ZoneCatalogRecord) : CatalogResult () :=
  validate_hex_id (zr_channel_id record) "Channel id" ;;
  ensure (negb match zr_observed_label record with
               | Some label => is_empty label || (256 <? str_len label) || has_control label
               | None => false
               end)
    (InvalidInput "Zone label is invalid") ;;
  match lc_tip_hash (zr_l1_channel record) with
  | Some tip_hash => validate_hex_id tip_hash "Channel tip hash"
  | None => ROk ()
  end ;;
  match zr_sequencer_committee record with
  | Some committee => validate_committee committee
  | None => ROk ()
  end ;;
  validate_local_id (zr_latest_evidence_id record) "latest evidence id" ;;
  validate_local_id (sp_coverage_segment_id (zr_snapshot_provenance record)) "snapshot coverage segment id" ;;
  ensure (negb (zr_last_seen_slot record <? zr_first_seen_slot record))
    (InvalidInput "Zone last-seen slot precedes first-seen slot") ;;
  ensure (negb (zr_evidence_count record =? 0))
    (InvalidInput "Zone record must reference evidence").

Definition validate_evidence (reference : ZoneEvidenceReference) : CatalogResult () :=
  validate_local_id (ev_evidence_id reference) "evidence id" ;;
  validate_hex_id (ev_channel_id reference) "evidence Channel id" ;;
  validate_local_id (ev_coverage_segment_id reference) "evidence coverage segment id" ;;
  validate_hex_id (ev_block_id reference) "evidence block id" ;;
  match ev_transaction_hash reference with
  | Some transaction_hash => validate_hex_id transaction_hash "evidence transaction hash"
  | None => ROk ()
  end ;;
  ensure (negb match ev_message_id reference with
               | Some value => is_empty value || has_control value
               | None => false
               end)
    (InvalidInput "evidence message id is invalid").
