(* ===== verification/ChannelOps.v ===== *)
(** * Channel operations of finalized blocks

    blockchain/channel_operations.rs: the Channel operations a block's
    transactions carry, decoded from their JSON.  The Sequencer block of the
    [common] package is read only through its Borsh decoding, the bytes its hash
    covers and the hash in its header: a class.  Messages end where the message of
    a foreign error would be appended. *)

From Stdlib Require Import Ascii.
From S2P Require Import Prelude Json Bytes CatalogModel.

Inductive ChannelOperationDecodeError : Type :=
  | ChannelInvalid (detail : string)
  | ChannelOverflow (detail : string).
Abbreviation ChannelOperationDecodeResult := (Res ChannelOperationDecodeError).

Inductive InscriptionClassification : Type := ClassSequencerBlock | ClassRaw | ClassConflicting.
#[export] Instance InscriptionClassification_eq_dec : EqDecision InscriptionClassification.
Proof. solve_decision. Defined.

Inductive DecodedChannelOperationKind : Type :=
  | KConfiguration (keys : list string) (withdraw_threshold : string)
  | KInscription (parent signer : string) (bytes : list Z) (classification : InscriptionClassification)
  | KDeposit
  | KWithdraw.

Record DecodedChannelOperation : Type := mkChannelOperation {
  co_channel_id : string;
  co_transaction_hash : string;
  co_operation_index : Z;
  co_opcode : Z;
  co_payload : Value;
  co_kind : DecodedChannelOperationKind;
}.

Definition operation_name (op : DecodedChannelOperation) : string :=
  match co_kind op with
  | KConfiguration _ _ => "ChannelConfig"
  | KInscription _ _ _ _ => "ChannelInscribe"
  | KDeposit => "ChannelDeposit"
  | KWithdraw => "ChannelWithdraw"
  end.

(** [borsh::from_slice::<Block>], [borsh::to_vec] of its [HashableBlockData] and
    the hash of its header. *)
Class SequencerBlocks : Type := {
  sequencer_block : Type;
  sequencer_block_from_slice : list Z → option sequencer_block;
  hashable_bytes : sequencer_block → option (list Z);
  header_hash : sequencer_block → list Z;
}.

Definition canonical_hex (value label : string) : ChannelOperationDecodeResult string :=
  let value := default value (strip_any ["0x"; "0X"] value) in
  if negb (str_len value =? 64) || negb (all_hexdigits value)
  then RErr (ChannelInvalid (label +:+ " must be 32-byte hexadecimal text"))
  else ROk (to_ascii_lowercase value).

Definition canonical_local_text (value label : string) : ChannelOperationDecodeResult string :=
  let value := trim value in
  if is_empty value || (256 <? str_len value) || has_control value
  then RErr (ChannelInvalid (label +:+ " is invalid"))
  else ROk value.

(** [iter().map(f).collect::<Result<Vec<_>, _>>()]. *)
Fixpoint collect {E A B} (f : A → Res E B) (xs : list A) : Res E (list B) :=
  match xs with
  | [] => ROk []
  | x :: xs' => y ← f x; ys ← collect f xs'; ROk (y :: ys)
  end.

(** [u64::from_str_radix(_, 16)]. *)
Fixpoint parse_hex_digits (acc : Z) (s : string) : option Z :=
  match s with
  | EmptyString => Some acc
  | String a s' =>
      let x := Z.of_nat (nat_of_ascii a) in
      if in_range 48 57 x then parse_hex_digits (16 * acc + (x - 48)) s'
      else if in_range 65 70 x then parse_hex_digits (16 * acc + (x - 55)) s'
      else if in_range 97 102 x then parse_hex_digits (16 * acc + (x - 87)) s'
      else None
  end.
Definition from_str_radix_16 (s : string) : option Z :=
  let digits := match s with String "+"%char s' => s' | _ => s end in
  n ← if is_empty digits then None else parse_hex_digits 0 digits;
  if n <=? u64_max then Some n else None.

Definition parse_opcode (value : Value) : option Z :=
  match as_u64 value with
  | Some n => Some n
  | None =>
      value ← as_str value;
      let value := trim value in
      match strip_any ["0x"; "0X"] value with
      | Some value => from_str_radix_16 value
      | None => parse_unsigned 64 value
      end
  end.

Definition find_text (value : Value) (keys : list string) : option string :=
  foldr (λ key acc, match value_get key value ≫= as_str with Some s => Some s | None => acc end) None keys.

Definition required_channel_id (value : Value) (keys : list string) : ChannelOperationDecodeResult string :=
  candidate ← ok_or_else (ChannelInvalid "Channel id is missing") (find_text value keys);
  canonical_hex candidate "Channel id".

Section decoding.
Context `{SerdeJson} `{HexCrate} `{Sha2Crate} `{SequencerBlocks}.

Definition integer_text (value : Value) : option string :=
  match value with
  | VNumber _ => Some (to_string value)
  | VString value => if is_empty (trim value) then None else Some (trim value)
  | VNull | VBool _ | VArray _ | VObject _ => None
  end.

Definition inscription_bytes (value : Value) : ChannelOperationDecodeResult (list Z) :=
  match value with
  | VString value =>
      let value := default value (strip_any ["0x"; "0X"] value) in
      ok_or_else (ChannelInvalid "ChannelInscribe inscription is not hexadecimal") (hex_decode value)
  | VArray values =>
      collect (λ value,
        ok_or_else (ChannelInvalid "ChannelInscribe byte array contains a non-byte value")
          (value ← as_u64 value; if value <=? 255 then Some value else None)) values
  | _ => RErr (ChannelInvalid "ChannelInscribe inscription is not bytes")
  end.

Definition block_prefix : list Z := as_bytes "/LEE/v0.3/Message/Block/" ++ replicate 8 0.

Definition classify_inscription (bytes : list Z) : ChannelOperationDecodeResult InscriptionClassification :=
  match sequencer_block_from_slice bytes with
  | None => ROk ClassRaw
  | Some block =>
      encoded ← ok_or_else (ChannelInvalid "failed to re-encode Sequencer block") (hashable_bytes block);
      let computed := sha256 (block_prefix ++ encoded) in
      ROk (if bool_decide (computed = header_hash block) then ClassSequencerBlock else ClassConflicting)
  end.

Definition parse_configuration (payload : Value)
    : ChannelOperationDecodeResult (string * DecodedChannelOperationKind) :=
  channel_id ← required_channel_id payload ["channel"];
  items ← ok_or_else (ChannelInvalid "ChannelConfig keys are missing") (value_get "keys" payload ≫= as_array);
  keys ← collect (λ key,
           key ← ok_or_else (ChannelInvalid "ChannelConfig key is not text") (as_str key);
           canonical_local_text key "Channel key") items;
  ensure (negb (bool_decide (keys = []))) (ChannelInvalid "ChannelConfig keys are empty") ;;
  withdraw_threshold ← ok_or_else (ChannelInvalid "ChannelConfig withdraw_threshold is missing")
                         (value_get "withdraw_threshold" payload ≫= integer_text);
  ROk (channel_id, KConfiguration keys withdraw_threshold).

Definition parse_inscription (payload : Value)
    : ChannelOperationDecodeResult (string * DecodedChannelOperationKind) :=
  channel_id ← required_channel_id payload ["channel_id"];
  parent ← ok_or_else (ChannelInvalid "ChannelInscribe parent is missing") (value_get "parent" payload ≫= as_str);
  parent ← canonical_hex parent "ChannelInscribe parent";
  signer ← ok_or_else (ChannelInvalid "ChannelInscribe signer is missing") (value_get "signer" payload ≫= as_str);
  signer ← canonical_local_text signer "ChannelInscribe signer";
  inscription ← ok_or_else (ChannelInvalid "ChannelInscribe inscription is missing") (value_get "inscription" payload);
  bytes ← inscription_bytes inscription;
  classification ← classify_inscription bytes;
  ROk (channel_id, KInscription parent signer bytes classification).

(** [{opcode:#x}] of an opcode in [0x10..=0x13]. *)
Definition opcode_text (opcode : Z) : string := "0x1" +:+ pretty (opcode - 16).

Definition decode_channel_operation (transaction_hash : option string) (operation_index : Z)
    (operation : Value) : ChannelOperationDecodeResult (option DecodedChannelOperation) :=
  match value_get "opcode" operation ≫= parse_opcode with
  | None => ROk None
  | Some opcode =>
      if negb (in_range 16 19 opcode) then ROk None
      else
        transaction_hash ← ok_or_else (ChannelInvalid "Channel operation transaction hash is missing")
                             transaction_hash;
        transaction_hash ← canonical_hex transaction_hash "transaction hash";
        payload ← ok_or_else (ChannelInvalid ("Channel opcode " +:+ opcode_text opcode +:+ " payload is missing"))
                    (value_get "payload" operation);
        parsed ← (if opcode =? 16 then parse_configuration payload
                  else if opcode =? 17 then parse_inscription payload
                  else if opcode =? 18 then
                    channel_id ← required_channel_id payload ["channel_id"]; ROk (channel_id, KDeposit)
                  else if opcode =? 19 then
                    channel_id ← required_channel_id payload ["channel_id"]; ROk (channel_id, KWithdraw)
                  else RErr (ChannelInvalid ("unsupported Channel opcode " +:+ opcode_text opcode)));
        ROk (Some (mkChannelOperation parsed.1 transaction_hash operation_index opcode payload parsed.2))
  end.

(** The loop over the operations of a transaction. *)
Fixpoint decode_operations (transaction_hash : option string) (index : Z) (operations : list Value)
    : ChannelOperationDecodeResult (list DecodedChannelOperation) :=
  match operations with
  | [] => ROk []
  | operation :: operations' =>
      ensure (index <=? 4294967295) (ChannelOverflow "transaction operation index exceeds u32") ;;
      decoded ← decode_channel_operation transaction_hash index operation;
      rest ← decode_operations transaction_hash (index + 1) operations';
      ROk (match decoded with Some operation => operation :: rest | None => rest end)
  end.

Fixpoint decode_transactions (transactions : list Value)
    : ChannelOperationDecodeResult (list DecodedChannelOperation) :=
  match transactions with
  | [] => ROk []
  | transaction :: transactions' =>
      decoded ← match value_get "mantle_tx" transaction with
                | None => ROk []
                | Some mantle_tx =>
                    match value_get "ops" mantle_tx ≫= as_array with
                    | None => ROk []
                    | Some operations =>
                        decode_operations (value_get "hash" mantle_tx ≫= as_str) 0 operations
                    end
                end;
      rest ← decode_transactions transactions';
      ROk (decoded ++ rest)
  end.

Definition decode_block_channel_operations (block : Value)
    : ChannelOperationDecodeResult (list DecodedChannelOperation) :=
  transactions ← ok_or_else (ChannelInvalid "block transactions are not an array")
                   (value_get "transactions" block ≫= as_array);
  decode_transactions transactions.
End decoding.
