(* ===== verification/CatalogEngine.v ===== *)
(** * The zone catalog: the engine

    inspection/catalog/engine.rs: finalized blocks are reduced to batches of
    catalog records.  A page of blocks extends the coverage segment the ingestion
    cursor is at; a missing parent asks for an ancestry repair, which walks the
    parents by id and either connects or leaves a gap; gaps and the prefix are
    repaired later.  Every reduction works on a [WorkingCatalog] made from a
    snapshot and returns the difference as a batch.

    [BTreeMap]s are finite maps iterated in key order ([entries], [values]).  An
    index or a length is a [usize] and fits a [u64], so the conversions between
    them are the identity.  The block source is asked for an id at most once in a
    repair, so it is a function of the id. *)

From S2P Require Import Prelude Json Bytes SortedRecords CatalogModel ChannelOps.

Definition DEFAULT_CATALOG_REPAIR_BLOCKS : Z := 64.
Definition MAX_CATALOG_REPAIR_BLOCKS : Z := 512.
Definition u32_limit : Z := 4294967295.

Inductive CatalogEngineError : Type :=
  | InvalidState (detail : string)
  | InvalidBlock (detail : string)
  | SourceInconsistent (detail : string)
  | Overflow (detail : string).
Abbreviation CatalogEngineResult := (Res CatalogEngineError).

Definition engine_error_text (e : CatalogEngineError) : string :=
  match e with
  | InvalidState detail => "invalid catalog engine state: " +:+ detail
  | InvalidBlock detail => "invalid finalized block: " +:+ detail
  | SourceInconsistent detail => "catalog L1 source is inconsistent: " +:+ detail
  | Overflow detail => "catalog engine overflow: " +:+ detail
  end.

(** ** The L1 source (inspection/catalog/source.rs) *)
Inductive CatalogL1SourceError : Type :=
  | SourceInvalidRequest (detail : string)
  | SourceUnavailableError (detail : string)
  | SourceInvalidResponse (detail : string).
Definition source_error_text (e : CatalogL1SourceError) : string :=
  match e with
  | SourceInvalidRequest detail => "invalid catalog L1 request: " +:+ detail
  | SourceUnavailableError detail => "catalog L1 source unavailable: " +:+ detail
  | SourceInvalidResponse detail => "invalid catalog L1 response: " +:+ detail
  end.

Record CatalogL1ChainSnapshot : Type := mkChainSnapshot {
  cs_tip : CatalogBlockReference;
  cs_lib : CatalogBlockReference;
}.
#[export] Instance CatalogL1ChainSnapshot_eq_dec : EqDecision CatalogL1ChainSnapshot.
Proof. solve_decision. Defined.

Record CatalogL1Block : Type := mkBlock {
  bl_checkpoint : CatalogBlockCheckpoint;
  bl_payload : Value;
}.
Record CatalogL1BlockEvent : Type := mkEvent {
  be_block : CatalogL1Block;
  be_snapshot : CatalogL1ChainSnapshot;
}.
Definition ev_checkpoint (event : CatalogL1BlockEvent) : CatalogBlockCheckpoint := bl_checkpoint (be_block event).
Definition ev_slot (event : CatalogL1BlockEvent) : Z := cp_slot (ev_checkpoint event).

Definition CatalogL1Source : Type := string → Res CatalogL1SourceError (option CatalogL1Block).

(** ** Requests and reductions *)
Record CatalogEngineContext : Type := mkContext {
  cx_source_revision : Z;
  cx_updated_at_unix : Z;
  cx_repair_block_limit : Z;
}.

Definition with_repair_block_limit (source_revision updated_at_unix repair_block_limit : Z)
    : CatalogEngineResult CatalogEngineContext :=
  ensure (negb (repair_block_limit =? 0)) (InvalidState "repair block limit must be greater than zero") ;;
  ensure (repair_block_limit <=? MAX_CATALOG_REPAIR_BLOCKS)
    (InvalidState ("repair block limit exceeds " +:+ pretty MAX_CATALOG_REPAIR_BLOCKS)) ;;
  ROk (mkContext source_revision updated_at_unix repair_block_limit).
Definition context_new (source_revision updated_at_unix : Z) : CatalogEngineResult CatalogEngineContext :=
  with_repair_block_limit source_revision updated_at_unix DEFAULT_CATALOG_REPAIR_BLOCKS.

Record CatalogAncestryRepairRequest : Type := mkRepairRequest {
  rq_lower_checkpoint : option CatalogBlockReference;
  rq_upper_checkpoint : CatalogBlockCheckpoint;
  rq_expected_genesis_id : option string;
  rq_max_blocks : Z;
}.

Inductive CatalogAncestryRepairOutcome : Type :=
  | Connected (recovered_blocks : list CatalogL1Block)
  | Unresolved (recovered_blocks : list CatalogL1Block) (missing_block_id : string) (reason : CoverageGapReason).

Inductive CatalogPageReduction : Type :=
  | NoProgress
  | Commit (batch : CatalogBatch) (remaining_events : list CatalogL1BlockEvent)
  | RepairRequired (request : CatalogAncestryRepairRequest) (pending_events : list CatalogL1BlockEvent)
  | GapConfirmationRequired (request : CatalogAncestryRepairRequest)
      (pending_events : list CatalogL1BlockEvent) (outcome : CatalogAncestryRepairOutcome).

Record CatalogRepairConfirmation : Type := mkConfirmation {
  cf_target_lib : CatalogBlockReference;
  cf_lower_checkpoint : option CatalogBlockReference;
  cf_upper_frontier_checkpoint : option CatalogBlockCheckpoint;
}.

(** ** Validation *)
Definition validate_context (snapshot : CatalogSnapshot) (context : CatalogEngineContext) : CatalogEngineResult () :=
  ensure (negb (cx_updated_at_unix context <? md_updated_at_unix (sn_metadata snapshot)))
    (InvalidState "engine update time precedes catalog update time").

Definition validate_id (value label : string) : CatalogEngineResult () :=
  map_err (λ error, InvalidState (catalog_error_text error)) (validate_hex_id value label).
Definition validate_reference (reference : CatalogBlockReference) (label : string) : CatalogEngineResult () :=
  validate_id (br_block_id reference) (label +:+ " block id").
Definition validate_checkpoint (checkpoint : CatalogBlockCheckpoint) (label : string) : CatalogEngineResult () :=
  validate_id (cp_block_id checkpoint) (label +:+ " id") ;;
  validate_id (cp_parent_id checkpoint) (label +:+ " parent id").

Definition block_reference (checkpoint : CatalogBlockCheckpoint) : CatalogBlockReference :=
  mkReference (cp_slot checkpoint) (cp_block_id checkpoint).

Definition target_of (traversal : option CatalogTraversal) : CatalogEngineResult CatalogBlockReference :=
  ok_or_else (InvalidState "catch-up target LIB is missing") (traversal ≫= tv_target_lib).
Definition current_target (snapshot : CatalogSnapshot) : CatalogEngineResult CatalogBlockReference :=
  target_of (sn_traversal snapshot).
Definition cursor_of (traversal : option CatalogTraversal) : option CatalogBlockReference :=
  traversal ≫= tv_ingestion_cursor.

Definition validate_repair_request (request : CatalogAncestryRepairRequest) : CatalogEngineResult () :=
  validate_checkpoint (rq_upper_checkpoint request) "repair upper checkpoint" ;;
  match rq_lower_checkpoint request with
  | Some lower =>
      validate_reference lower "repair lower checkpoint" ;;
      ensure (br_slot lower <? cp_slot (rq_upper_checkpoint request))
        (InvalidState "repair lower checkpoint must precede upper block")
  | None => ROk ()
  end ;;
  match rq_expected_genesis_id request with
  | Some genesis_id => validate_id genesis_id "expected genesis id"
  | None => ROk ()
  end.

(** The loop over recovered blocks; [ids] and [previous] are of those before. *)
Fixpoint validate_chain_from (previous : option CatalogBlockCheckpoint) (ids : gset string)
    (recovered : list CatalogL1Block) : CatalogEngineResult () :=
  match recovered with
  | [] => ROk ()
  | block :: recovered' =>
      let checkpoint := bl_checkpoint block in
      validate_checkpoint checkpoint "recovered block" ;;
      ensure (negb (bool_decide (cp_block_id checkpoint ∈ ids)))
        (SourceInconsistent "recovered ancestry contains duplicate block ids") ;;
      ensure match previous with
             | Some previous =>
                 (cp_slot previous <? cp_slot checkpoint)
                 && String.eqb (cp_parent_id checkpoint) (cp_block_id previous)
             | None => true
             end
        (SourceInconsistent "recovered ancestry is not strictly ascending and parent-linked") ;;
      validate_chain_from (Some checkpoint) ({[cp_block_id checkpoint]} ∪ ids) recovered'
  end.
Definition validate_recovered_chain (recovered : list CatalogL1Block) : CatalogEngineResult () :=
  validate_chain_from None ∅ recovered.

Definition has_block_id (id : string) (block : CatalogL1Block) : bool :=
  String.eqb (cp_block_id (bl_checkpoint block)) id.

Definition validate_connected_repair (request : CatalogAncestryRepairRequest) (recovered : list CatalogL1Block)
    : CatalogEngineResult () :=
  validate_repair_request request ;;
  let upper := rq_upper_checkpoint request in
  match head recovered, last recovered with
  | Some oldest, Some newest =>
      validate_recovered_chain recovered ;;
      let oldest := bl_checkpoint oldest in
      let newest := bl_checkpoint newest in
      ensure (String.eqb (cp_block_id newest) (cp_parent_id upper))
        (InvalidState "repair does not reach upper block parent") ;;
      ensure (cp_slot newest <? cp_slot upper)
        (SourceInconsistent "repaired ancestry does not precede upper block") ;;
      ensure (negb (existsb (has_block_id (cp_block_id upper)) recovered))
        (SourceInconsistent "repaired ancestry contains upper boundary block") ;;
      match rq_lower_checkpoint request with
      | Some lower =>
          ensure (negb ((cp_slot oldest <=? br_slot lower) || existsb (has_block_id (br_block_id lower)) recovered))
            (SourceInconsistent "repaired ancestry crosses a requested boundary") ;;
          ensure (String.eqb (cp_parent_id oldest) (br_block_id lower))
            (InvalidState "repair does not reach lower checkpoint")
      | None =>
          ensure (cp_slot oldest =? 0) (InvalidState "prefix repair does not reach slot-zero block") ;;
          ensure match rq_expected_genesis_id request with
                 | Some expected => String.eqb expected (cp_block_id oldest)
                 | None => true
                 end
            (SourceInconsistent "prefix repair reached conflicting genesis id")
      end
  | _, _ =>
      ensure match rq_lower_checkpoint request with
             | Some lower => String.eqb (cp_parent_id upper) (br_block_id lower)
             | None => false
             end
        (InvalidState "empty repair does not connect ancestry")
  end.

Definition validate_unresolved_repair (request : CatalogAncestryRepairRequest) (recovered : list CatalogL1Block)
    (missing_block_id : string) (upper : CatalogBlockCheckpoint) : CatalogEngineResult () :=
  validate_repair_request request ;;
  validate_id missing_block_id "unresolved repair block id" ;;
  ensure (bool_decide (upper = rq_upper_checkpoint request))
    (InvalidState "unresolved repair upper checkpoint changed") ;;
  ensure (negb match rq_lower_checkpoint request with
               | Some lower => String.eqb (br_block_id lower) missing_block_id
               | None => false
               end)
    (InvalidState "unresolved repair already reaches lower checkpoint") ;;
  match head recovered, last recovered with
  | Some oldest, Some newest =>
      validate_recovered_chain recovered ;;
      let oldest := bl_checkpoint oldest in
      let newest := bl_checkpoint newest in
      ensure (String.eqb (cp_parent_id oldest) missing_block_id && String.eqb (cp_block_id newest) (cp_parent_id upper))
        (InvalidState "unresolved repair chain does not match gap boundaries") ;;
      ensure (negb ((cp_slot upper <=? cp_slot newest)
                    || match rq_lower_checkpoint request with
                       | Some lower => cp_slot oldest <=? br_slot lower
                       | None => cp_slot oldest =? 0
                       end
                    || existsb (λ block,
                         has_block_id missing_block_id block || has_block_id (cp_block_id upper) block
                         || match rq_lower_checkpoint request with
                            | Some lower => has_block_id (br_block_id lower) block
                            | None => false
                            end) recovered))
        (SourceInconsistent "unresolved ancestry crosses a requested boundary")
  | _, _ =>
      ensure (String.eqb (cp_parent_id upper) missing_block_id)
        (InvalidState "unresolved repair id does not match upper parent")
  end.

Definition validate_page_snapshots (events : list CatalogL1BlockEvent) : CatalogEngineResult () :=
  match events with
  | [] => ROk ()
  | first :: _ =>
      each (λ event,
        ensure (bool_decide (be_snapshot event = be_snapshot first))
          (SourceInconsistent "page chain snapshot changed between events")) events
  end.

Fixpoint validate_ascending_from (previous : option Z) (events : list CatalogL1BlockEvent) : CatalogEngineResult () :=
  match events with
  | [] => ROk ()
  | event :: events' =>
      ensure (negb match previous with Some slot => ev_slot event <=? slot | None => false end)
        (SourceInconsistent "page block slots are not strictly ascending") ;;
      validate_ascending_from (Some (ev_slot event)) events'
  end.
Definition validate_strictly_ascending_slots (events : list CatalogL1BlockEvent) : CatalogEngineResult () :=
  validate_ascending_from None events.

Definition validate_event_against_target (target : CatalogBlockReference) (event : CatalogL1BlockEvent)
    : CatalogEngineResult () :=
  ensure (ev_slot event <=? br_slot target)
    (SourceInconsistent ("page block slot " +:+ pretty (ev_slot event) +:+ " is beyond target LIB slot "
                         +:+ pretty (br_slot target))) ;;
  ensure (negb ((ev_slot event =? br_slot target)
                && negb (String.eqb (cp_block_id (ev_checkpoint event)) (br_block_id target))))
    (SourceInconsistent "page block conflicts with target LIB id") ;;
  let lib := cs_lib (be_snapshot event) in
  ensure (negb ((br_slot lib <? br_slot target)
                || (br_slot lib =? br_slot target) && negb (String.eqb (br_block_id lib) (br_block_id target))))
    (SourceInconsistent "page source snapshot does not cover fixed target LIB").

Definition validate_genesis_block (snapshot : CatalogSnapshot) (checkpoint : CatalogBlockCheckpoint)
    : CatalogEngineResult () :=
  ensure (cp_slot checkpoint =? 0) (InvalidState "genesis block must be at slot zero") ;;
  ensure match md_network_scope (sn_metadata snapshot) with
         | GenesisId genesis_id => String.eqb (cp_block_id checkpoint) genesis_id
         | FinalizedAnchor _ _ _ _ => true
         end
    (SourceInconsistent "slot-zero block conflicts with catalog genesis id").

Definition validate_repair_confirmation (snapshot : CatalogSnapshot)
    (expected_lower : option CatalogBlockReference) (confirmation : CatalogRepairConfirmation)
    (require_upper_frontier : bool) : CatalogEngineResult () :=
  validate_reference (cf_target_lib confirmation) "confirmed target LIB" ;;
  target ← current_target snapshot;
  ensure (bool_decide (cf_target_lib confirmation = target))
    (SourceInconsistent "repair confirmation target LIB changed") ;;
  ensure (bool_decide (cf_lower_checkpoint confirmation = expected_lower))
    (SourceInconsistent "repair confirmation lower checkpoint changed") ;;
  match cf_lower_checkpoint confirmation with
  | Some lower => validate_reference lower "confirmed lower checkpoint"
  | None => ROk ()
  end ;;
  match cf_upper_frontier_checkpoint confirmation with
  | Some upper => validate_checkpoint upper "confirmed upper frontier"
  | None => ROk ()
  end ;;
  if require_upper_frontier then
    persisted ← ok_or_else (InvalidState "prefix repair has no persisted frontier checkpoint")
                  (sn_frontier snapshot ≫= fr_checkpoint);
    ensure (bool_decide (cf_upper_frontier_checkpoint confirmation = Some persisted))
      (SourceInconsistent "repair confirmation frontier checkpoint changed")
  else ROk ().

Definition repair_request (lower_checkpoint : option CatalogBlockReference)
    (upper_checkpoint : CatalogBlockCheckpoint) (snapshot : CatalogSnapshot) (context : CatalogEngineContext)
    : CatalogAncestryRepairRequest :=
  let expected_genesis_id := match md_network_scope (sn_metadata snapshot) with
                             | GenesisId genesis_id => Some genesis_id
                             | FinalizedAnchor _ _ _ _ => None
                             end in
  mkRepairRequest lower_checkpoint upper_checkpoint expected_genesis_id (cx_repair_block_limit context).

Definition the_active_segment (matches : list string) : CatalogEngineResult string :=
  match matches with
  | [segment_id] => ROk segment_id
  | [] => RErr (InvalidState "ingestion cursor has no active coverage segment")
  | _ => RErr (InvalidState "ingestion cursor matches multiple coverage segments")
  end.
Definition active_segment_id (snapshot : CatalogSnapshot) (cursor : CatalogBlockReference)
    : CatalogEngineResult string :=
  the_active_segment (map sg_segment_id (filter (λ segment, sg_frontier segment = cursor) (sn_segments snapshot))).

(** [continue] with the connected prefix of a page: the loop, from [previous]. *)
Fixpoint split_from (previous : CatalogBlockCheckpoint) (events : list CatalogL1BlockEvent)
    : CatalogEngineResult (list CatalogL1BlockEvent * list CatalogL1BlockEvent) :=
  match events with
  | [] => ROk ([], [])
  | event :: events' =>
      if (cp_slot previous <? ev_slot event)
         && String.eqb (cp_parent_id (ev_checkpoint event)) (cp_block_id previous)
      then
        split ← split_from (ev_checkpoint event) events';
        ROk (event :: split.1, split.2)
      else if ev_slot event <=? cp_slot previous
      then RErr (SourceInconsistent "page block slots are not strictly ascending")
      else ROk ([], event :: events')
  end.
Definition split_connected_events (events : list CatalogL1BlockEvent)
    : CatalogEngineResult (list CatalogL1BlockEvent * list CatalogL1BlockEvent) :=
  match events with
  | [] => RErr (InvalidState "cannot split an empty event page")
  | first :: events' =>
      split ← split_from (ev_checkpoint first) events';
      ROk (first :: split.1, split.2)
  end.

Definition prepend_recovered_events (recovered_blocks : list CatalogL1Block)
    (pending_events : list CatalogL1BlockEvent) (snapshot : CatalogL1ChainSnapshot) : list CatalogL1BlockEvent :=
  map (λ block, mkEvent block snapshot) recovered_blocks ++ pending_events.

(** ** The ancestry repair

    One round of the loop per fuel; [recovered] is the vector of recovered
    blocks reversed, which is what the code returns.  [None] means that the fuel
    ran out. *)
Section repair.
Context (source : CatalogL1Source) (request : CatalogAncestryRepairRequest).

Definition lower_is (id : string) : bool :=
  match rq_lower_checkpoint request with Some lower => String.eqb (br_block_id lower) id | None => false end.

(** The checks on a fetched block. *)
Definition check_repair_block (requested_id : string) (child_slot : Z) (block : CatalogL1Block)
    : CatalogEngineResult bool :=
  let checkpoint := bl_checkpoint block in
  map_err (λ error, SourceInconsistent ("repair returned an invalid checkpoint: " +:+ engine_error_text error))
    (validate_checkpoint checkpoint "repair block") ;;
  ensure (String.eqb (cp_block_id checkpoint) requested_id)
    (SourceInconsistent ("repair returned block " +:+ cp_block_id checkpoint +:+ ", requested " +:+ requested_id)) ;;
  ensure (cp_slot checkpoint <? child_slot)
    (SourceInconsistent ("repair block " +:+ cp_block_id checkpoint +:+ " at slot " +:+ pretty (cp_slot checkpoint)
                         +:+ " does not precede child slot " +:+ pretty child_slot)) ;;
  match rq_lower_checkpoint request with
  | Some lower =>
      ensure (br_slot lower <? cp_slot checkpoint)
        (SourceInconsistent ("repair crossed lower checkpoint slot " +:+ pretty (br_slot lower)
                             +:+ " without reaching block " +:+ br_block_id lower))
  | None => ROk ()
  end ;;
  let reached_genesis := bool_decide (rq_lower_checkpoint request = None) && (cp_slot checkpoint =? 0) in
  ensure (negb (reached_genesis
                && match rq_expected_genesis_id request with
                   | Some expected => negb (String.eqb expected (cp_block_id checkpoint))
                   | None => false
                   end))
    (SourceInconsistent "repair reached a conflicting genesis block") ;;
  ROk reached_genesis.

Fixpoint repair_loop (fuel : nat) (requested_id : string) (child_slot : Z) (recovered : list CatalogL1Block)
    (visited : gset string) : option (CatalogEngineResult CatalogAncestryRepairOutcome) :=
  match fuel with
  | O => None
  | S fuel' =>
      if lower_is requested_id then Some (ROk (Connected recovered))
      else if rq_max_blocks request <=? zlen recovered
      then Some (ROk (Unresolved recovered requested_id MissingParent))
      else if bool_decide (requested_id ∈ visited)
      then Some (RErr (SourceInconsistent ("repair ancestry cycles at block " +:+ requested_id)))
      else match source requested_id with
      | ROk None => Some (ROk (Unresolved recovered requested_id MissingBlockBody))
      | RErr (SourceUnavailableError _) => Some (ROk (Unresolved recovered requested_id SourceUnavailable))
      | RErr error => Some (RErr (SourceInconsistent (source_error_text error)))
      | ROk (Some block) =>
          match check_repair_block requested_id child_slot block with
          | RErr error => Some (RErr error)
          | ROk true => Some (ROk (Connected (block :: recovered)))
          | ROk false =>
              repair_loop fuel' (cp_parent_id (bl_checkpoint block)) (cp_slot (bl_checkpoint block))
                (block :: recovered) ({[requested_id]} ∪ visited)
          end
      end
  end.

Definition repair_catalog_ancestry : option (CatalogEngineResult CatalogAncestryRepairOutcome) :=
  match validate_repair_request request with
  | RErr error => Some (RErr error)
  | ROk _ =>
      let upper := rq_upper_checkpoint request in
      repair_loop (S (Z.to_nat (rq_max_blocks request))) (cp_parent_id upper) (cp_slot upper) [] ∅
  end.
End repair.

(** ** The working catalog *)
Record WorkingCatalog : Type := mkWorking {
  wk_frontier : option CatalogFrontier;
  wk_traversal : option CatalogTraversal;
  wk_zones : gmap string ZoneCatalogRecord;
  wk_evidence : gmap string ZoneEvidenceReference;
  wk_latest_primary_evidence : gmap string string;
  wk_latest_configuration_evidence : gmap string string;
  wk_segments : gmap string CoverageSegment;
  wk_gaps : gmap string CoverageGap;
}.
#[export] Instance WorkingCatalog_eta : Eta WorkingCatalog := λ w,
  mkWorking (wk_frontier w) (wk_traversal w) (wk_zones w) (wk_evidence w) (wk_latest_primary_evidence w)
    (wk_latest_configuration_evidence w) (wk_segments w) (wk_gaps w).

Definition records_by_key {T} (key : T → string) (records : list T) : gmap string T :=
  foldl (λ m record, <[key record := record]> m) ∅ records.

Definition evidence_kind_rank (kind : ZoneEvidenceKind) : Z :=
  match kind with
  | ChannelCreated => 0 | ChannelConfiguration => 1 | ChannelOperation => 2 | RawInscription => 3
  | SequencerBlock => 4
  end.
Definition evidence_kind_tag (kind : ZoneEvidenceKind) : string :=
  match kind with
  | ChannelCreated => "created" | ChannelConfiguration => "config" | ChannelOperation => "operation"
  | SequencerBlock => "sequencer" | RawInscription => "raw"
  end.

Definition then_compare (a b : comparison) : comparison := match a with Eq => b | _ => a end.
(** The order of [evidence_order]: the tuples compared lexicographically. *)
Definition evidence_order_compare (a b : ZoneEvidenceReference) : comparison :=
  let hash r := default EmptyString (ev_transaction_hash r) in
  then_compare (Z.compare (ev_l1_slot a) (ev_l1_slot b))
   (then_compare (String.compare (hash a) (hash b))
    (then_compare (Z.compare (ev_operation_index a) (ev_operation_index b))
     (then_compare (Z.compare (evidence_kind_rank (ev_evidence_kind a)) (evidence_kind_rank (ev_evidence_kind b)))
       (String.compare (ev_evidence_id a) (ev_evidence_id b))))).
Definition order_after (a b : ZoneEvidenceReference) : bool :=
  match evidence_order_compare a b with Gt => true | _ => false end.

(** No latest evidence is known for the channel, or the candidate is after it. *)
Definition is_later (latest : gmap string string) (evidence : gmap string ZoneEvidenceReference)
    (candidate : ZoneEvidenceReference) : bool :=
  match latest !! ev_channel_id candidate ≫= λ evidence_id, evidence !! evidence_id with
  | Some current => order_after candidate current
  | None => true
  end.

Definition update_latest_evidence_id (evidence : gmap string ZoneEvidenceReference)
    (candidate : ZoneEvidenceReference) (latest : gmap string string) : gmap string string :=
  if is_later latest evidence candidate
  then <[ev_channel_id candidate := ev_evidence_id candidate]> latest
  else latest.

Definition latest_evidence_ids (evidence : gmap string ZoneEvidenceReference)
    : gmap string string * gmap string string :=
  foldl (λ latest reference,
    (if bool_decide (ev_evidence_kind reference = ChannelCreated) then latest.1
     else update_latest_evidence_id evidence reference latest.1,
     if bool_decide (ev_evidence_kind reference = ChannelConfiguration)
     then update_latest_evidence_id evidence reference latest.2
     else latest.2)) (∅, ∅) (values evidence).

Definition from_snapshot (snapshot : CatalogSnapshot) : WorkingCatalog :=
  let evidence := records_by_key ev_evidence_id (sn_evidence snapshot) in
  let latest := latest_evidence_ids evidence in
  mkWorking (sn_frontier snapshot) (sn_traversal snapshot)
    (records_by_key zr_channel_id (sn_zones snapshot)) evidence latest.1 latest.2
    (records_by_key sg_segment_id (sn_segments snapshot)) (records_by_key gp_gap_id (sn_gaps snapshot)).

Definition record_diff {T} `{EqDecision T} (key : T → string) (before : list T) (after : gmap string T)
    : list T * list string :=
  let before := records_by_key key before in
  (snd <$> filter (λ entry, before !! entry.1 ≠ Some entry.2) (entries after),
   filter (λ record_key, after !! record_key = None) (fst <$> entries before)).

Definition into_batch (working : WorkingCatalog) (snapshot : CatalogSnapshot) (context : CatalogEngineContext)
    : option CatalogBatch :=
  let zones := record_diff zr_channel_id (sn_zones snapshot) (wk_zones working) in
  let evidence := record_diff ev_evidence_id (sn_evidence snapshot) (wk_evidence working) in
  let segments := record_diff sg_segment_id (sn_segments snapshot) (wk_segments working) in
  let gaps := record_diff gp_gap_id (sn_gaps snapshot) (wk_gaps working) in
  if bool_decide (zones = ([], []) ∧ evidence = ([], []) ∧ segments = ([], []) ∧ gaps = ([], [])
                  ∧ wk_frontier working = sn_frontier snapshot ∧ wk_traversal working = sn_traversal snapshot)
  then None
  else Some (mkBatch (md_catalog_revision (sn_metadata snapshot)) (cx_updated_at_unix context)
               zones.1 zones.2 evidence.1 evidence.2 segments.1 segments.2 gaps.1 gaps.2
               (wk_frontier working) (wk_traversal working)).

Definition active_segment_id_in_working (working : WorkingCatalog) (cursor : CatalogBlockReference)
    : CatalogEngineResult string :=
  the_active_segment (map sg_segment_id (filter (λ segment, sg_frontier segment = cursor) (values (wk_segments working)))).
Definition current_target_in_working (working : WorkingCatalog) : CatalogEngineResult CatalogBlockReference :=
  target_of (wk_traversal working).

Definition set_connected_frontier_checkpoint (checkpoint : CatalogBlockCheckpoint) (working : WorkingCatalog)
    : WorkingCatalog :=
  working <| wk_frontier ::= fmap (λ frontier,
    frontier <| fr_scanned_through_slot := Some (cp_slot checkpoint) |> <| fr_checkpoint := Some checkpoint |>) |>.

Definition coverage_status (reaches_target no_gaps : bool) (frontier : CatalogFrontier) : CatalogCoverageStatus :=
  if reaches_target && no_gaps && bool_decide (fr_prefix_status frontier = PrefixComplete)
     && bool_decide (fr_coverage_floor frontier = Some 0)
  then CoverComplete
  else if reaches_target || negb no_gaps || bool_decide (fr_prefix_status frontier = PrefixUnavailable)
  then CoverPartial
  else CoverRebuilding.

Definition recompute_coverage (working : WorkingCatalog) : CatalogEngineResult WorkingCatalog :=
  target ← current_target_in_working working;
  let reaches_target :=
    existsb (λ segment, sg_reaches_target_lib segment && bool_decide (sg_frontier segment = target))
      (values (wk_segments working)) in
  frontier ← ok_or_else (InvalidState "catalog frontier is missing") (wk_frontier working);
  let frontier := frontier <| fr_observed_lib := Some target |> in
  let frontier := frontier <| fr_coverage_status :=
    coverage_status reaches_target (bool_decide (wk_gaps working = ∅)) frontier |> in
  ROk (working <| wk_frontier := Some frontier |>).

(** ** Evidence *)
Inductive ChannelObservationKind : Type :=
  | OConfiguration (keys : list string) (withdraw_threshold : string)
  | OInscription (evidence_kind : ZoneEvidenceKind) (parent_is_root : bool) (signer : string) (conflicting : bool)
  | OOperation.
Record ChannelObservation : Type := mkObservation {
  ob_channel_id : string;
  ob_transaction_hash : string;
  ob_operation_index : Z;
  ob_kind : ChannelObservationKind;
}.

Definition inscription_evidence_kind (classification : InscriptionClassification) : ZoneEvidenceKind :=
  match classification with
  | ClassSequencerBlock => SequencerBlock
  | ClassRaw | ClassConflicting => RawInscription
  end.
Definition all_zeros (s : string) : bool := forallb (λ b, b =? 48) (as_bytes s).

Definition channel_observation (decoded : DecodedChannelOperation) : ChannelObservation :=
  mkObservation (co_channel_id decoded) (co_transaction_hash decoded) (co_operation_index decoded)
    match co_kind decoded with
    | KConfiguration keys withdraw_threshold => OConfiguration keys withdraw_threshold
    | KInscription parent signer _ classification =>
        OInscription (inscription_evidence_kind classification) (all_zeros parent) signer
          (bool_decide (classification = ClassConflicting))
    | KDeposit | KWithdraw => OOperation
    end.

Definition map_channel_decode_error (error : ChannelOperationDecodeError) : CatalogEngineError :=
  match error with
  | ChannelInvalid detail => InvalidBlock detail
  | ChannelOverflow detail => Overflow detail
  end.

Definition evidence_reference (observation : ChannelObservation) (block : CatalogL1Block) (segment_id : string)
    (evidence_kind : ZoneEvidenceKind) (evidence_use : CatalogEvidenceUse) : ZoneEvidenceReference :=
  mkEvidence
    ("evidence-" +:+ ob_transaction_hash observation +:+ "-" +:+ pretty (ob_operation_index observation) +:+ "-"
     +:+ evidence_kind_tag evidence_kind)
    (ob_channel_id observation) segment_id (cp_slot (bl_checkpoint block)) (cp_block_id (bl_checkpoint block))
    (Some (ob_transaction_hash observation)) (ob_operation_index observation) None evidence_kind evidence_use.

Definition insert_evidence (working : WorkingCatalog) (evidence : ZoneEvidenceReference)
    : CatalogEngineResult (bool * WorkingCatalog) :=
  match wk_evidence working !! ev_evidence_id evidence with
  | Some existing =>
      if bool_decide (existing = evidence) then ROk (false, working)
      else RErr (SourceInconsistent ("evidence id " +:+ ev_evidence_id evidence
                                     +:+ " resolved to conflicting observations"))
  | None =>
      let primary_is_latest :=
        negb (bool_decide (ev_evidence_kind evidence = ChannelCreated))
        && is_later (wk_latest_primary_evidence working) (wk_evidence working) evidence in
      let configuration_is_latest :=
        bool_decide (ev_evidence_kind evidence = ChannelConfiguration)
        && is_later (wk_latest_configuration_evidence working) (wk_evidence working) evidence in
      let set (latest : bool) (m : gmap string string) :=
        if latest then <[ev_channel_id evidence := ev_evidence_id evidence]> m else m in
      ROk (true, working <| wk_evidence ::= insert (ev_evidence_id evidence) evidence |>
                         <| wk_latest_primary_evidence ::= set primary_is_latest |>
                         <| wk_latest_configuration_evidence ::= set configuration_is_latest |>)
  end.

(** The record of a channel seen for the first time. *)
Definition new_zone (observation : ChannelObservation) (block : CatalogL1Block) (segment_id : string)
    (target_slot : Z) (primary : ZoneEvidenceReference) (context : CatalogEngineContext) : ZoneCatalogRecord :=
  let slot := cp_slot (bl_checkpoint block) in
  mkZone (ob_channel_id observation) None
    (mkL1Channel (Some slot) None (Some target_slot) None None None 0 L1Final) None
    (mkCounters 0 0 0 false) slot slot (ev_evidence_id primary) 0
    (mkProvenance ReplayDerived segment_id slot (cx_source_revision context)) (cx_updated_at_unix context).

(** The last [match] of [ingest_observation] on the record. *)
Definition observe_committee (observation : ChannelObservation) (slot : Z)
    (observation_is_latest configuration_is_latest : bool) (record : ZoneCatalogRecord) : ZoneCatalogRecord :=
  match ob_kind observation with
  | OConfiguration keys withdraw_threshold =>
      if configuration_is_latest then
        let active_member :=
          active ← zr_sequencer_committee record ≫= sc_active_member;
          if bool_decide (active ∈ keys) then Some active else None in
        record <| zr_l1_channel ::= λ l1, l1 <| lc_key_count := Some (zlen keys) |>
                                             <| lc_withdraw_threshold := Some withdraw_threshold |> |>
               <| zr_sequencer_committee := Some (mkCommittee keys active_member (Some slot)) |>
      else record
  | OInscription _ parent_is_root signer _ =>
      match zr_sequencer_committee record with
      | Some committee =>
          if observation_is_latest && bool_decide (signer ∈ sc_members committee)
          then record <| zr_sequencer_committee :=
                 Some (committee <| sc_active_member := Some signer |> <| sc_observed_at_slot := Some slot |>) |>
          else record
      | None =>
          if parent_is_root && observation_is_latest
          then record <| zr_l1_channel ::= λ l1, l1 <| lc_key_count := Some 1 |> |>
                      <| zr_sequencer_committee := Some (mkCommittee [signer] (Some signer) (Some slot)) |>
          else record
      end
  | OOperation => record
  end.

Definition ingest_observation (block : CatalogL1Block) (segment_id : string) (target_slot : Z)
    (context : CatalogEngineContext) (observation : ChannelObservation) (working : WorkingCatalog)
    : CatalogEngineResult WorkingCatalog :=
  let '(evidence_kind, evidence_use, parent_is_root, conflicting) :=
    match ob_kind observation with
    | OConfiguration _ _ => (ChannelConfiguration, UsePointSnapshot, false, false)
    | OInscription evidence_kind parent_is_root _ conflicting =>
        (evidence_kind, UsePresence, parent_is_root, conflicting)
    | OOperation => (ChannelOperation, UseReplayContribution, false, false)
    end in
  let primary := evidence_reference observation block segment_id evidence_kind evidence_use in
  inserted ← insert_evidence working primary;
  let '(primary_is_new, working) := inserted in
  working ← (if parent_is_root : bool then
               created ← insert_evidence working
                           (evidence_reference observation block segment_id ChannelCreated UsePresence);
               ROk created.2
             else ROk working);
  if negb primary_is_new then ROk working
  else
    let channel_id := ob_channel_id observation in
    let observation_is_latest :=
      bool_decide (wk_latest_primary_evidence working !! channel_id = Some (ev_evidence_id primary)) in
    let configuration_is_latest :=
      match ob_kind observation with OConfiguration _ _ => true | _ => false end
      && bool_decide (wk_latest_configuration_evidence working !! channel_id = Some (ev_evidence_id primary)) in
    let slot := cp_slot (bl_checkpoint block) in
    let record := default (new_zone observation block segment_id target_slot primary context)
                    (wk_zones working !! channel_id) in
    let record := record
      <| zr_first_seen_slot ::= λ s, Z.min s slot |>
      <| zr_last_seen_slot ::= λ s, Z.max s slot |>
      <| zr_l1_channel ::= λ l1, l1
           <| lc_tip_slot := Some (Z.max (default 0 (lc_tip_slot l1)) slot) |>
           <| lc_lib_slot := Some target_slot |>
           <| lc_finality_state := L1Final |> |>
      <| zr_classification ::= λ c, c <| zc_conflicting_evidence ::= λ old, old || conflicting |> |>
      <| zr_updated_at_unix := cx_updated_at_unix context |> in
    let record := observe_committee observation slot observation_is_latest configuration_is_latest record in
    ROk (working <| wk_zones ::= insert channel_id record |>).

Definition count_evidence (references : list ZoneEvidenceReference) (kind : ZoneEvidenceKind) : Z :=
  zlen (filter (λ reference, ev_evidence_kind reference = kind) references).

(** [max_by_key(evidence_order)]: the last of the greatest. *)
Definition max_by_order (references : list ZoneEvidenceReference) : option ZoneEvidenceReference :=
  foldl (λ best reference,
    match best with
    | Some best => if order_after best reference then Some best else Some reference
    | None => Some reference
    end) None references.

Definition min_slot (slots : list Z) : option Z :=
  foldl (λ best slot, Some match best with Some best => Z.min best slot | None => slot end) None slots.
Definition max_slot (slots : list Z) : option Z :=
  foldl (λ best slot, Some match best with Some best => Z.max best slot | None => slot end) None slots.

Definition channel_references (evidence : gmap string ZoneEvidenceReference) (channel_id : string)
    : list ZoneEvidenceReference :=
  filter (λ reference, ev_channel_id reference = channel_id) (values evidence).
Definition is_primary (reference : ZoneEvidenceReference) : Prop := ev_evidence_kind reference ≠ ChannelCreated.
#[export] Instance is_primary_dec reference : Decision (is_primary reference).
Proof. unfold is_primary. apply _. Defined.

(** The loop body of [recompute_zone_records]. *)
Definition recompute_zone_record (target_slot : Z) (context : CatalogEngineContext) (channel_id : string)
    (working : WorkingCatalog) : CatalogEngineResult WorkingCatalog :=
  let references := channel_references (wk_evidence working) channel_id in
  let primary := filter is_primary references in
  latest ← ok_or_else (InvalidState ("Zone " +:+ channel_id +:+ " has no evidence after ingestion"))
             (max_by_order references);
  let latest_configuration :=
    max_by_order (filter (λ reference, ev_evidence_kind reference = ChannelConfiguration) references) in
  let operation_count := zlen primary in
  let recognized_l2_blocks := count_evidence references SequencerBlock in
  let raw_inscriptions := count_evidence references RawInscription in
  let first_seen := default (ev_l1_slot latest) (min_slot (map ev_l1_slot primary)) in
  let last_seen := default (ev_l1_slot latest) (max_slot (map ev_l1_slot primary)) in
  record ← ok_or_else (InvalidState ("Zone " +:+ channel_id +:+ " is missing")) (wk_zones working !! channel_id);
  let origin := match latest_configuration with
                | Some configuration =>
                    if String.eqb (ev_coverage_segment_id configuration) (ev_coverage_segment_id latest)
                    then FullConfiguration else ReplayDerived
                | None => ReplayDerived
                end in
  let record := record
    <| zr_first_seen_slot := first_seen |>
    <| zr_last_seen_slot := last_seen |>
    <| zr_latest_evidence_id := ev_evidence_id latest |>
    <| zr_evidence_count := zlen references |>
    <| zr_classification ::= λ c,
         mkCounters operation_count recognized_l2_blocks raw_inscriptions
           (zc_conflicting_evidence c || ((0 <? recognized_l2_blocks) && (0 <? raw_inscriptions))) |>
    <| zr_l1_channel ::= λ l1, l1
         <| lc_operation_count := operation_count |> <| lc_tip_slot := Some last_seen |>
         <| lc_lib_slot := Some target_slot |> <| lc_finality_state := L1Final |> |>
    <| zr_snapshot_provenance :=
         mkProvenance origin (ev_coverage_segment_id latest) last_seen (cx_source_revision context) |>
    <| zr_updated_at_unix := cx_updated_at_unix context |> in
  ROk (working <| wk_zones ::= insert channel_id record |>).

(** [for channel_id in channels], a [BTreeSet]. *)
Definition recompute_zone_records (channels : gset string) (target_slot : Z) (context : CatalogEngineContext)
    (working : WorkingCatalog) : CatalogEngineResult WorkingCatalog :=
  fold_res (recompute_zone_record target_slot context) (str_sort (elements channels)) working.

Definition reassign_segment (working : WorkingCatalog) (old_segment_id new_segment_id : string)
    (context : CatalogEngineContext) : CatalogEngineResult WorkingCatalog :=
  let moved := filter (λ evidence, ev_coverage_segment_id evidence = old_segment_id) (values (wk_evidence working)) in
  let channels : gset string := list_to_set (map ev_channel_id moved) in
  let working := working
    <| wk_evidence ::= fmap (λ evidence,
         if String.eqb (ev_coverage_segment_id evidence) old_segment_id
         then evidence <| ev_coverage_segment_id := new_segment_id |> else evidence) |>
    <| wk_zones ::= fmap (λ zone,
         if String.eqb (sp_coverage_segment_id (zr_snapshot_provenance zone)) old_segment_id
         then zone <| zr_snapshot_provenance ::= λ p,
                        p <| sp_coverage_segment_id := new_segment_id |>
                          <| sp_source_revision := cx_source_revision context |> |>
                   <| zr_updated_at_unix := cx_updated_at_unix context |>
         else zone) |> in
  target ← current_target_in_working working;
  recompute_zone_records channels (br_slot target) context working.

Definition segment_id_for_floor (floor : CatalogBlockCheckpoint) : string := "segment-" +:+ cp_block_id floor.
Definition gap_id_for_boundary `{HexCrate} `{Sha2Crate} (lower : CatalogBlockReference)
    (upper : CatalogBlockCheckpoint) : string :=
  "gap-" +:+ hex_encode (sha256 (as_bytes (br_block_id lower) ++ as_bytes (cp_block_id upper))).

(** ** Catch-up *)
Definition empty_frontier : CatalogFrontier := mkFrontier None None None None PrefixUnknown CoverRebuilding.

Definition prepare_catalog_catch_up_with_resume (snapshot : CatalogSnapshot) (target_lib : CatalogBlockReference)
    (context : CatalogEngineContext) (reconcile_unfinished_target : bool)
    : CatalogEngineResult (option CatalogBatch) :=
  validate_context snapshot context ;;
  validate_reference target_lib "target LIB" ;;
  let cursor := cursor_of (sn_traversal snapshot) in
  match cursor with
  | Some cursor =>
      ensure (br_slot cursor <=? br_slot target_lib)
        (SourceInconsistent ("target LIB slot " +:+ pretty (br_slot target_lib)
                             +:+ " is behind ingestion cursor slot " +:+ pretty (br_slot cursor))) ;;
      ensure (negb ((br_slot cursor =? br_slot target_lib)
                    && negb (String.eqb (br_block_id cursor) (br_block_id target_lib))))
        (SourceInconsistent "target LIB id conflicts with the ingestion cursor at the same slot")
  | None => ROk ()
  end ;;
  match sn_traversal snapshot ≫= tv_target_lib with
  | Some previous_target =>
      let unfinished_target :=
        match cursor with Some cursor => br_slot cursor <? br_slot previous_target | None => true end in
      ensure (negb ((br_slot target_lib <? br_slot previous_target)
                    && negb (reconcile_unfinished_target && unfinished_target)))
        (SourceInconsistent ("target LIB moved backward from slot " +:+ pretty (br_slot previous_target)
                             +:+ " to " +:+ pretty (br_slot target_lib))) ;;
      ensure (negb ((br_slot previous_target =? br_slot target_lib)
                    && negb (String.eqb (br_block_id previous_target) (br_block_id target_lib))))
        (SourceInconsistent "target LIB id changed at the same slot")
  | None => ROk ()
  end ;;
  let traversal := Some (mkTraversal (Some target_lib) cursor) in
  let frontier := (default empty_frontier (sn_frontier snapshot)) <| fr_observed_lib := Some target_lib |> in
  let upsert_segments :=
    omap (λ segment,
      let reaches_target_lib := bool_decide (sg_frontier segment = target_lib) in
      if Bool.eqb (sg_reaches_target_lib segment) reaches_target_lib then None
      else Some (segment <| sg_reaches_target_lib := reaches_target_lib |>)) (sn_segments snapshot) in
  let reaches_target := existsb (λ segment, bool_decide (sg_frontier segment = target_lib)) (sn_segments snapshot) in
  let frontier := frontier <| fr_coverage_status :=
    coverage_status reaches_target (bool_decide (sn_gaps snapshot = [])) frontier |> in
  let upsert_zones :=
    map (λ zone, zone <| zr_l1_channel ::= λ l1, l1 <| lc_lib_slot := Some (br_slot target_lib) |> |>
                      <| zr_updated_at_unix := cx_updated_at_unix context |>)
      (filter (λ zone, lc_lib_slot (zr_l1_channel zone) ≠ Some (br_slot target_lib)) (sn_zones snapshot)) in
  if bool_decide (upsert_segments = [] ∧ upsert_zones = [] ∧ Some frontier = sn_frontier snapshot
                  ∧ traversal = sn_traversal snapshot)
  then ROk None
  else ROk (Some (mkBatch (md_catalog_revision (sn_metadata snapshot)) (cx_updated_at_unix context)
                    upsert_zones [] [] [] upsert_segments [] [] [] (Some frontier) traversal)).

Definition prepare_catalog_catch_up (snapshot : CatalogSnapshot) (target_lib : CatalogBlockReference)
    (context : CatalogEngineContext) : CatalogEngineResult (option CatalogBatch) :=
  prepare_catalog_catch_up_with_resume snapshot target_lib context false.
Definition prepare_resumed_catalog_catch_up (snapshot : CatalogSnapshot) (target_lib : CatalogBlockReference)
    (context : CatalogEngineContext) : CatalogEngineResult (option CatalogBatch) :=
  prepare_catalog_catch_up_with_resume snapshot target_lib context true.

(** ** Reductions *)
Section reductions.
Context `{SerdeJson} `{HexCrate} `{Sha2Crate} `{SequencerBlocks}.

Definition extract_channel_observations (block : CatalogL1Block) : CatalogEngineResult (list ChannelObservation) :=
  operations ← map_err map_channel_decode_error (decode_block_channel_operations (bl_payload block));
  ROk (map channel_observation operations).

(** The body of the block loop: the channels touched and the catalog. *)
Definition ingest_block (segment_id : string) (target_slot : Z) (context : CatalogEngineContext)
    (block : CatalogL1Block) (state : gset string * WorkingCatalog)
    : CatalogEngineResult (gset string * WorkingCatalog) :=
  observations ← extract_channel_observations block;
  working ← fold_res (ingest_observation block segment_id target_slot context) observations state.2;
  ROk (list_to_set (map ob_channel_id observations) ∪ state.1, working).

Definition ingest_blocks (working : WorkingCatalog) (blocks : list CatalogL1Block) (segment_id : string)
    (context : CatalogEngineContext) : CatalogEngineResult WorkingCatalog :=
  target ← current_target_in_working working;
  ingested ← fold_res (ingest_block segment_id (br_slot target) context) blocks (∅, working);
  recompute_zone_records ingested.1 (br_slot target) context ingested.2.

Definition apply_connected_events (snapshot : CatalogSnapshot) (events : list CatalogL1BlockEvent)
    (context : CatalogEngineContext) : CatalogEngineResult CatalogBatch :=
  first ← ok_or_else (InvalidState "connected page has no accepted events") (head events);
  last ← ok_or_else (InvalidState "connected page has no final event") (last events);
  target ← current_target snapshot;
  let working := from_snapshot snapshot in
  opened ←
    match cursor_of (wk_traversal working) with
    | Some cursor => segment_id ← active_segment_id_in_working working cursor; ROk (segment_id, working)
    | None =>
        let floor := ev_checkpoint first in
        let segment_id := segment_id_for_floor floor in
        ensure (bool_decide (wk_segments working !! segment_id = None))
          (InvalidState ("initial segment " +:+ segment_id +:+ " already exists")) ;;
        frontier ← ok_or_else (InvalidState "catch-up frontier is missing") (wk_frontier working);
        ROk (segment_id,
             working <| wk_segments ::= insert segment_id (mkSegment segment_id floor (block_reference floor) false) |>
                     <| wk_frontier := Some (frontier <| fr_coverage_floor := Some 0 |>
                                                      <| fr_prefix_status := PrefixComplete |>) |>)
    end;
  let '(segment_id, working) := opened in
  working ← ingest_blocks working (map be_block events) segment_id context;
  segment ← ok_or_else (InvalidState ("active segment " +:+ segment_id +:+ " is missing"))
              (wk_segments working !! segment_id);
  let reached := block_reference (ev_checkpoint last) in
  let working := working <| wk_segments ::= insert segment_id
    (segment <| sg_frontier := reached |> <| sg_reaches_target_lib := bool_decide (reached = target) |>) |> in
  traversal ← ok_or_else (InvalidState "catch-up traversal is missing") (wk_traversal working);
  let working := working <| wk_traversal := Some (traversal <| tv_ingestion_cursor := Some reached |>) |> in
  let working := if bool_decide (wk_gaps working = ∅)
                 then set_connected_frontier_checkpoint (ev_checkpoint last) working else working in
  working ← recompute_coverage working;
  ok_or_else (InvalidState "page reduction produced no change") (into_batch working snapshot context).

Definition reduce_catalog_page (snapshot : CatalogSnapshot) (events : list CatalogL1BlockEvent)
    (context : CatalogEngineContext) : CatalogEngineResult CatalogPageReduction :=
  validate_context snapshot context ;;
  match events with
  | [] => ROk NoProgress
  | first :: _ =>
      validate_page_snapshots events ;;
      target ← current_target snapshot;
      each (validate_event_against_target target) events ;;
      validate_strictly_ascending_slots events ;;
      let commit :=
        split ← split_connected_events events;
        batch ← apply_connected_events snapshot split.1 context;
        ROk (Commit batch split.2) in
      let first := ev_checkpoint first in
      match cursor_of (sn_traversal snapshot) with
      | Some cursor =>
          active_segment_id snapshot cursor ;;
          ensure (br_slot cursor <? cp_slot first)
            (SourceInconsistent ("page starts at slot " +:+ pretty (cp_slot first) +:+ ", not after cursor slot "
                                 +:+ pretty (br_slot cursor))) ;;
          if negb (String.eqb (cp_parent_id first) (br_block_id cursor))
          then ROk (RepairRequired (repair_request (Some cursor) first snapshot context) events)
          else commit
      | None =>
          ensure (bool_decide (sn_segments snapshot = []) && bool_decide (sn_gaps snapshot = []))
            (InvalidState "catalog has coverage records without an ingestion cursor") ;;
          if negb (cp_slot first =? 0)
          then ROk (RepairRequired (repair_request None first snapshot context) events)
          else validate_genesis_block snapshot first ;; commit
      end
  end.

Definition reduce_catalog_repair (snapshot : CatalogSnapshot) (request : CatalogAncestryRepairRequest)
    (pending_events : list CatalogL1BlockEvent) (outcome : CatalogAncestryRepairOutcome)
    (context : CatalogEngineContext) : CatalogEngineResult CatalogPageReduction :=
  validate_context snapshot context ;;
  pending_first ← ok_or_else (InvalidState "repair continuation has no pending upper block") (head pending_events);
  ensure (bool_decide (ev_checkpoint pending_first = rq_upper_checkpoint request))
    (InvalidState "repair continuation upper block changed") ;;
  match outcome with
  | Connected recovered_blocks =>
      validate_connected_repair request recovered_blocks ;;
      reduce_catalog_page snapshot
        (prepend_recovered_events recovered_blocks pending_events (be_snapshot pending_first)) context
  | Unresolved recovered_blocks missing_block_id reason =>
      validate_unresolved_repair request recovered_blocks missing_block_id (ev_checkpoint pending_first) ;;
      ROk (GapConfirmationRequired request pending_events (Unresolved recovered_blocks missing_block_id reason))
  end.

Definition open_disconnected_segment (snapshot : CatalogSnapshot) (events : list CatalogL1BlockEvent)
    (missing_block_id : string) (reason : CoverageGapReason) (context : CatalogEngineContext)
    : CatalogEngineResult CatalogPageReduction :=
  validate_id missing_block_id "missing repair block id" ;;
  validate_page_snapshots events ;;
  target ← current_target snapshot;
  each (validate_event_against_target target) events ;;
  validate_strictly_ascending_slots events ;;
  split ← split_connected_events events;
  let '(accepted, remaining) := split in
  first ← ok_or_else (InvalidState "disconnected segment has no floor block") (head accepted);
  last ← ok_or_else (InvalidState "disconnected segment has no frontier block") (last accepted);
  let floor := ev_checkpoint first in
  let reached := block_reference (ev_checkpoint last) in
  ensure (String.eqb (cp_parent_id floor) missing_block_id)
    (InvalidState "disconnected floor does not reference unresolved parent") ;;
  let working := from_snapshot snapshot in
  let lower := cursor_of (wk_traversal working) in
  let segment_id := segment_id_for_floor floor in
  ensure (bool_decide (wk_segments working !! segment_id = None))
    (InvalidState ("disconnected segment " +:+ segment_id +:+ " already exists")) ;;
  let working := working <| wk_segments ::= insert segment_id
    (mkSegment segment_id floor reached (bool_decide (reached = target))) |> in
  working ←
    match lower with
    | Some lower =>
        lower_segment_id ← active_segment_id_in_working working lower;
        let gap_id := gap_id_for_boundary lower floor in
        ROk (working <| wk_gaps ::= insert gap_id
          (mkGap gap_id lower_segment_id lower segment_id (block_reference floor) missing_block_id reason GapPending 1
             (cx_updated_at_unix context) (Some (cx_updated_at_unix context))) |>)
    | None =>
        ensure (bool_decide (sn_segments snapshot = []) && bool_decide (sn_gaps snapshot = []))
          (InvalidState "unavailable prefix cannot open over existing coverage") ;;
        frontier ← ok_or_else (InvalidState "catch-up frontier is missing") (wk_frontier working);
        ROk (set_connected_frontier_checkpoint (ev_checkpoint last)
          (working <| wk_frontier := Some (frontier <| fr_coverage_floor := Some (cp_slot floor) |>
                                                    <| fr_prefix_status := PrefixUnavailable |>) |>))
    end;
  working ← ingest_blocks working (map be_block accepted) segment_id context;
  traversal ← ok_or_else (InvalidState "catch-up traversal is missing") (wk_traversal working);
  working ← recompute_coverage
              (working <| wk_traversal := Some (traversal <| tv_ingestion_cursor := Some reached |>) |>);
  batch ← ok_or_else (InvalidState "disconnected reduction produced no change") (into_batch working snapshot context);
  ROk (Commit batch remaining).

Definition confirm_catalog_repair_gap (snapshot : CatalogSnapshot) (request : CatalogAncestryRepairRequest)
    (pending_events : list CatalogL1BlockEvent) (outcome : CatalogAncestryRepairOutcome)
    (confirmation : CatalogRepairConfirmation) (context : CatalogEngineContext)
    : CatalogEngineResult CatalogPageReduction :=
  validate_context snapshot context ;;
  validate_repair_confirmation snapshot (rq_lower_checkpoint request) confirmation false ;;
  pending_first ← ok_or_else (InvalidState "gap confirmation has no pending upper block") (head pending_events);
  ensure (bool_decide (ev_checkpoint pending_first = rq_upper_checkpoint request))
    (InvalidState "gap confirmation upper block changed") ;;
  match outcome with
  | Unresolved recovered_blocks missing_block_id reason =>
      validate_unresolved_repair request recovered_blocks missing_block_id (ev_checkpoint pending_first) ;;
      open_disconnected_segment snapshot
        (prepend_recovered_events recovered_blocks pending_events (be_snapshot pending_first))
        missing_block_id reason context
  | Connected _ => RErr (InvalidState "gap confirmation requires unresolved repair")
  end.

(** ** Repairing gaps and the prefix *)
Definition catalog_gap_repair_request (snapshot : CatalogSnapshot) (gap_id : string)
    (context : CatalogEngineContext) : CatalogEngineResult CatalogAncestryRepairRequest :=
  validate_context snapshot context ;;
  gap ← ok_or_else (InvalidState ("unknown gap " +:+ gap_id)) (find_by gp_gap_id gap_id (sn_gaps snapshot));
  upper ← ok_or_else (InvalidState ("gap " +:+ gp_gap_id gap +:+ " has no upper segment " +:+ gp_upper_segment_id gap))
            (find_by sg_segment_id (gp_upper_segment_id gap) (sn_segments snapshot));
  ROk (mkRepairRequest (Some (gp_lower_checkpoint gap)) (sg_floor upper) None (cx_repair_block_limit context)).

Definition catalog_prefix_repair_request (snapshot : CatalogSnapshot) (context : CatalogEngineContext)
    : CatalogEngineResult CatalogAncestryRepairRequest :=
  validate_context snapshot context ;;
  frontier ← ok_or_else (InvalidState "catalog frontier is missing") (sn_frontier snapshot);
  ensure (bool_decide (fr_prefix_status frontier = PrefixUnavailable))
    (InvalidState "catalog prefix is not marked unavailable") ;;
  floor ← ok_or_else (InvalidState "unavailable prefix has no coverage floor") (fr_coverage_floor frontier);
  segment ← ok_or_else (InvalidState "unavailable prefix has no matching first segment")
              (List.find (λ segment, cp_slot (sg_floor segment) =? floor) (sn_segments snapshot));
  ROk (repair_request None (sg_floor segment) snapshot context).

Definition reduce_catalog_prefix_repair (snapshot : CatalogSnapshot) (outcome : CatalogAncestryRepairOutcome)
    (confirmation : CatalogRepairConfirmation) (context : CatalogEngineContext)
    : CatalogEngineResult (option CatalogBatch) :=
  validate_context snapshot context ;;
  validate_repair_confirmation snapshot None confirmation true ;;
  request ← catalog_prefix_repair_request snapshot context;
  match outcome with
  | Connected recovered_blocks => validate_connected_repair request recovered_blocks
  | Unresolved recovered_blocks missing_block_id _ =>
      validate_unresolved_repair request recovered_blocks missing_block_id (rq_upper_checkpoint request)
  end ;;
  match outcome with
  | Unresolved [] _ _ => ROk None
  | _ =>
      let working := from_snapshot snapshot in
      segment ← ok_or_else (InvalidState "prefix segment disappeared")
                  (List.find (λ segment, bool_decide (sg_floor segment = rq_upper_checkpoint request))
                     (values (wk_segments working)));
      let segment_id := sg_segment_id segment in
      let '(recovered_blocks, lost, finish) :=
        match outcome with
        | Connected recovered_blocks =>
            (recovered_blocks, "connected prefix repair has no genesis block",
             λ (oldest : CatalogBlockCheckpoint) (frontier : CatalogFrontier),
               frontier <| fr_coverage_floor := Some 0 |> <| fr_prefix_status := PrefixComplete |>)
        | Unresolved recovered_blocks _ _ =>
            (recovered_blocks, "validated prefix repair lost its recovered blocks",
             λ oldest frontier, frontier <| fr_coverage_floor := Some (cp_slot oldest) |>)
        end in
      oldest ← ok_or_else (InvalidState lost) (head recovered_blocks);
      let oldest := bl_checkpoint oldest in
      working ← ingest_blocks working recovered_blocks segment_id context;
      segment ← ok_or_else (InvalidState "prefix segment is missing") (wk_segments working !! segment_id);
      frontier ← ok_or_else (InvalidState "catalog frontier is missing") (wk_frontier working);
      working ← recompute_coverage
        (working <| wk_segments ::= insert segment_id (segment <| sg_floor := oldest |>) |>
                 <| wk_frontier := Some (finish oldest frontier) |>);
      ROk (into_batch working snapshot context)
  end.

Definition rename_segment (old new : string) (gap : CoverageGap) : CoverageGap :=
  let gap := if String.eqb (gp_lower_segment_id gap) old then gap <| gp_lower_segment_id := new |> else gap in
  if String.eqb (gp_upper_segment_id gap) old then gap <| gp_upper_segment_id := new |> else gap.

Definition reduce_catalog_gap_repair (snapshot : CatalogSnapshot) (gap_id : string)
    (outcome : CatalogAncestryRepairOutcome) (confirmation : CatalogRepairConfirmation)
    (context : CatalogEngineContext) : CatalogEngineResult CatalogBatch :=
  validate_context snapshot context ;;
  let working := from_snapshot snapshot in
  gap ← ok_or_else (InvalidState ("unknown gap " +:+ gap_id)) (wk_gaps working !! gap_id);
  lower ← ok_or_else (InvalidState "gap lower segment is missing") (wk_segments working !! gp_lower_segment_id gap);
  upper ← ok_or_else (InvalidState "gap upper segment is missing") (wk_segments working !! gp_upper_segment_id gap);
  let request := mkRepairRequest (Some (gp_lower_checkpoint gap)) (sg_floor upper) None
                   (cx_repair_block_limit context) in
  validate_repair_confirmation snapshot (rq_lower_checkpoint request) confirmation false ;;
  working ←
    match outcome with
    | Connected recovered_blocks =>
        validate_connected_repair request recovered_blocks ;;
        confirmed ← ok_or_else (InvalidState "connected gap repair requires verified upper frontier checkpoint")
                      (cf_upper_frontier_checkpoint confirmation);
        validate_checkpoint confirmed "verified upper frontier" ;;
        ensure (bool_decide (block_reference confirmed = sg_frontier upper))
          (SourceInconsistent "verified upper frontier does not match persisted segment") ;;
        working ← reassign_segment working (sg_segment_id upper) (sg_segment_id lower) context;
        working ← ingest_blocks working recovered_blocks (sg_segment_id lower) context;
        let merged := mkSegment (sg_segment_id lower) (sg_floor lower) (sg_frontier upper) (sg_reaches_target_lib upper) in
        let working := working
          <| wk_segments ::= λ m, delete (sg_segment_id upper) (<[sg_segment_id merged := merged]> m) |>
          <| wk_gaps ::= λ m, rename_segment (sg_segment_id upper) (sg_segment_id lower) <$> delete gap_id m |> in
        ROk match wk_frontier working ≫= fr_checkpoint with
            | Some checkpoint =>
                if String.eqb (cp_block_id checkpoint) (br_block_id (gp_lower_checkpoint gap))
                then set_connected_frontier_checkpoint confirmed working else working
            | None => working
            end
    | Unresolved recovered_blocks missing_block_id reason =>
        validate_unresolved_repair request recovered_blocks missing_block_id (sg_floor upper) ;;
        ensure (gp_attempts gap <? u32_limit) (Overflow "coverage gap attempts exhausted") ;;
        let updated_gap := gap <| gp_attempts ::= Z.succ |>
                               <| gp_last_attempt_at_unix := Some (cx_updated_at_unix context) |>
                               <| gp_status := GapBackoff |> <| gp_reason := reason |> in
        expanded ←
          match head recovered_blocks with
          | Some oldest =>
              let oldest := bl_checkpoint oldest in
              let expanded_upper := upper <| sg_floor := oldest |> in
              working ← ingest_blocks working recovered_blocks (sg_segment_id expanded_upper) context;
              ROk (updated_gap <| gp_upper_block := block_reference oldest |>
                               <| gp_required_parent_id := missing_block_id |>,
                   working <| wk_segments ::= insert (sg_segment_id expanded_upper) expanded_upper |>)
          | None => ROk (updated_gap, working)
          end;
        ROk (expanded.2 <| wk_gaps ::= insert (gp_gap_id expanded.1) expanded.1 |>)
    end;
  working ← recompute_coverage working;
  ok_or_else (InvalidState "gap repair produced no change") (into_batch working snapshot context).
End reductions.

(** ** Refetching evidence *)
Inductive CatalogEvidencePayloadFormat : Type := FormatJson | FormatBytes.
Record CatalogEvidencePayload : Type := mkEvidencePayload {
  ep_opcode : Z;
  ep_bytes : list Z;
  ep_format : CatalogEvidencePayloadFormat;
}.

Definition engine_canonical_hex (value label : string) : CatalogEngineResult string :=
  let value := trim value in
  let value := default value (strip_any ["0x"; "0X"] value) in
  if negb (str_len value =? 64) || negb (all_hexdigits value)
  then RErr (InvalidBlock (label +:+ " must be 32-byte hexadecimal text"))
  else ROk (to_ascii_lowercase value).

(** The loop over the transactions; [matching] is the one found so far. *)
Fixpoint find_transaction (transaction_hash : string) (transactions : list Value) (matching : option Value)
    : CatalogEngineResult (option Value) :=
  match transactions with
  | [] => ROk matching
  | transaction :: transactions' =>
      match value_get "mantle_tx" transaction with
      | None => find_transaction transaction_hash transactions' matching
      | Some mantle_tx =>
          match value_get "hash" mantle_tx ≫= as_str with
          | None => find_transaction transaction_hash transactions' matching
          | Some candidate_hash =>
              candidate ← engine_canonical_hex candidate_hash "transaction hash";
              if negb (String.eqb candidate transaction_hash)
              then find_transaction transaction_hash transactions' matching
              else match matching with
                   | Some _ =>
                       RErr (SourceInconsistent "refetched evidence block contains duplicate transaction hashes")
                   | None => find_transaction transaction_hash transactions' (Some mantle_tx)
                   end
          end
      end
  end.

Definition extract_catalog_evidence_payload `{SerdeJson} `{HexCrate} `{Sha2Crate} `{SequencerBlocks}
    (block : CatalogL1Block) (reference : ZoneEvidenceReference) : CatalogEngineResult CatalogEvidencePayload :=
  ensure ((cp_slot (bl_checkpoint block) =? ev_l1_slot reference)
          && String.eqb (cp_block_id (bl_checkpoint block)) (ev_block_id reference))
    (SourceInconsistent "refetched evidence block does not match its catalog reference") ;;
  transaction_hash ← ok_or_else (InvalidState "catalog evidence reference has no transaction hash")
                       (ev_transaction_hash reference);
  transactions ← ok_or_else (InvalidBlock "block transactions are not an array")
                   (value_get "transactions" (bl_payload block) ≫= as_array);
  matching ← find_transaction transaction_hash transactions None;
  mantle_tx ← ok_or_else (SourceInconsistent "refetched evidence transaction is missing") matching;
  operations ← ok_or_else (SourceInconsistent "refetched evidence transaction operations are missing")
                 (value_get "ops" mantle_tx ≫= as_array);
  operation ← ok_or_else (SourceInconsistent "refetched evidence operation is missing")
                (operations !! Z.to_nat (ev_operation_index reference));
  decoded ← map_err map_channel_decode_error
              (decode_channel_operation (Some transaction_hash) (ev_operation_index reference) operation);
  decoded ← ok_or_else (SourceInconsistent "refetched evidence operation is not a Channel operation") decoded;
  ensure (String.eqb (co_channel_id decoded) (ev_channel_id reference))
    (SourceInconsistent "refetched evidence belongs to another Channel") ;;
  let kind := ev_evidence_kind reference in
  let json := as_bytes (to_string (co_payload decoded)) in
  let '(matches_kind, expected_use, format, bytes) :=
    match co_kind decoded with
    | KConfiguration _ _ => (bool_decide (kind = ChannelConfiguration), UsePointSnapshot, FormatJson, json)
    | KInscription parent _ bytes classification =>
        (bool_decide (kind = inscription_evidence_kind classification)
         || bool_decide (kind = ChannelCreated) && all_zeros parent, UsePresence, FormatBytes, bytes)
    | KDeposit | KWithdraw => (bool_decide (kind = ChannelOperation), UseReplayContribution, FormatJson, json)
    end in
  ensure (matches_kind && bool_decide (ev_evidence_use reference = expected_use))
    (SourceInconsistent "refetched evidence kind does not match its catalog reference") ;;
  ROk (mkEvidencePayload (co_opcode decoded) bytes format).
