(* ===== verification/CatalogStore.v ===== *)
(** * The zone catalog: batches and snapshots

    The part of inspection/catalog/store.rs that is not the database: a batch is
    validated, applied to a held snapshot, and the result is validated
    incrementally instead of in full.  Records are vectors sorted by their key,
    as they are read from the database and as they are kept by every batch; the
    [HashMap]s and [HashSet]s are only looked up, and the one that is iterated is
    iterated in key order here. *)

From S2P Require Import Prelude SortedRecords CatalogModel.

Definition validate_persisted (label : string) (result : CatalogResult ()) : CatalogResult () :=
  map_err (λ error,
    invalidated RecordInvariant ("persisted " +:+ label +:+ " is invalid: " +:+ catalog_error_text error)) result.
Definition persisted_invariant {A} (detail : string) : CatalogResult A := RErr (invalidated RecordInvariant detail).

(** [find_zone], [find_evidence] and [find_segment]: a binary search. *)
Definition search_by {T} (key : T → string) (id : string) (records : list T) : option T :=
  match binary_search key id records with inl index => records !! index | inr _ => None end.
Definition find_zone (zones : list ZoneCatalogRecord) (channel_id : string) : option ZoneCatalogRecord :=
  search_by zr_channel_id channel_id zones.
Definition find_evidence (evidence : list ZoneEvidenceReference) (evidence_id : string) : option ZoneEvidenceReference :=
  search_by ev_evidence_id evidence_id evidence.
Definition find_segment (segments : list CoverageSegment) (segment_id : string) : option CoverageSegment :=
  search_by sg_segment_id segment_id segments.

(** ** Relationships

    [lookup] finds a segment or an evidence by its id. *)
Definition check_evidence (segment_of : string → option CoverageSegment) (reference : ZoneEvidenceReference)
    : CatalogResult () :=
  validate_persisted "evidence reference" (validate_evidence reference) ;;
  match segment_of (ev_coverage_segment_id reference) with
  | None => persisted_invariant ("evidence " +:+ ev_evidence_id reference +:+ " references missing coverage segment "
                                 +:+ ev_coverage_segment_id reference)
  | Some segment =>
      if (ev_l1_slot reference <? cp_slot (sg_floor segment)) || (br_slot (sg_frontier segment) <? ev_l1_slot reference)
      then persisted_invariant ("evidence " +:+ ev_evidence_id reference +:+ " falls outside coverage segment "
                                +:+ ev_coverage_segment_id reference)
      else ROk ()
  end.

Definition check_zone (segment_of : string → option CoverageSegment)
    (evidence_of : string → option ZoneEvidenceReference) (zone : ZoneCatalogRecord) : CatalogResult () :=
  validate_persisted "Zone" (validate_zone zone) ;;
  let provenance := zr_snapshot_provenance zone in
  match segment_of (sp_coverage_segment_id provenance) with
  | None => persisted_invariant ("Zone " +:+ zr_channel_id zone +:+ " references missing coverage segment "
                                 +:+ sp_coverage_segment_id provenance)
  | Some segment =>
      if (sp_observed_slot provenance <? cp_slot (sg_floor segment))
         || (br_slot (sg_frontier segment) <? sp_observed_slot provenance)
      then persisted_invariant ("Zone " +:+ zr_channel_id zone +:+ " snapshot falls outside coverage segment "
                                +:+ sp_coverage_segment_id provenance)
      else match evidence_of (zr_latest_evidence_id zone) with
      | None => persisted_invariant ("Zone " +:+ zr_channel_id zone +:+ " references missing latest evidence "
                                     +:+ zr_latest_evidence_id zone)
      | Some latest_evidence =>
          if negb (String.eqb (ev_channel_id latest_evidence) (zr_channel_id zone))
          then persisted_invariant ("Zone " +:+ zr_channel_id zone +:+ " latest evidence belongs to Channel "
                                    +:+ ev_channel_id latest_evidence)
          else ROk ()
      end
  end.

Definition check_gap (segment_of : string → option CoverageSegment) (gap : CoverageGap) : CatalogResult () :=
  validate_persisted "coverage gap" (validate_gap gap) ;;
  match segment_of (gp_lower_segment_id gap) with
  | None => persisted_invariant ("coverage gap " +:+ gp_gap_id gap +:+ " references missing lower segment "
                                 +:+ gp_lower_segment_id gap)
  | Some lower_segment =>
      match segment_of (gp_upper_segment_id gap) with
      | None => persisted_invariant ("coverage gap " +:+ gp_gap_id gap +:+ " references missing upper segment "
                                     +:+ gp_upper_segment_id gap)
      | Some upper_segment =>
          let floor := sg_floor upper_segment in
          if negb (bool_decide (sg_frontier lower_segment = gp_lower_checkpoint gap))
             || negb (cp_slot floor =? br_slot (gp_upper_block gap))
             || negb (String.eqb (cp_block_id floor) (br_block_id (gp_upper_block gap)))
             || negb (String.eqb (cp_parent_id floor) (gp_required_parent_id gap))
          then persisted_invariant ("coverage gap " +:+ gp_gap_id gap +:+ " does not match its segment boundaries")
          else ROk ()
      end
  end.

Definition validate_evidence_relationship (snapshot : CatalogSnapshot) : ZoneEvidenceReference → CatalogResult () :=
  check_evidence (find_segment (sn_segments snapshot)).
Definition validate_zone_relationship (snapshot : CatalogSnapshot) : ZoneCatalogRecord → CatalogResult () :=
  check_zone (find_segment (sn_segments snapshot)) (find_evidence (sn_evidence snapshot)).
Definition validate_gap_relationship (snapshot : CatalogSnapshot) : CoverageGap → CatalogResult () :=
  check_gap (find_segment (sn_segments snapshot)).

(** ** Full validation *)
(** [iter().map(|r| (key, r)).collect::<HashMap<_, _>>()]. *)
Definition index_by {T} (key : T → string) (records : list T) : gmap string T :=
  foldl (λ m record, <[key record := record]> m) ∅ records.

(** The loop counting the evidence of each channel. *)
Definition count_step (reference : ZoneEvidenceReference) (counts : gmap string Z) : CatalogResult (gmap string Z) :=
  count ← ok_or_else (invalidated RecordInvariant "Zone evidence count overflow")
            (checked_add (default 0 (counts !! ev_channel_id reference)) 1);
  ROk (<[ev_channel_id reference := count]> counts).

Definition validate_head (snapshot : CatalogSnapshot) : CatalogResult () :=
  validate_persisted "catalog metadata" (validate_metadata (sn_metadata snapshot)) ;;
  (if md_updated_at_unix (sn_metadata snapshot) <? md_created_at_unix (sn_metadata snapshot)
   then persisted_invariant "catalog update time precedes creation time" else ROk ()) ;;
  match sn_frontier snapshot with
  | Some frontier => validate_persisted "catalog frontier" (validate_frontier frontier)
  | None => ROk ()
  end ;;
  match sn_traversal snapshot with
  | Some traversal => validate_persisted "catalog traversal" (validate_traversal traversal)
  | None => ROk ()
  end.

Definition check_zone_count (counts : gmap string Z) (zone : ZoneCatalogRecord) : CatalogResult () :=
  let persisted_count := default 0 (counts !! zr_channel_id zone) in
  if negb (persisted_count =? zr_evidence_count zone)
  then persisted_invariant ("Zone " +:+ zr_channel_id zone +:+ " evidence count is "
                            +:+ pretty (zr_evidence_count zone) +:+ ", but " +:+ pretty persisted_count
                            +:+ " references are persisted")
  else ROk ().

Definition validate_snapshot (snapshot : CatalogSnapshot) : CatalogResult () :=
  validate_head snapshot ;;
  each (λ segment, validate_persisted "coverage segment" (validate_segment segment)) (sn_segments snapshot) ;;
  let segment_of := λ id, index_by sg_segment_id (sn_segments snapshot) !! id in
  each (check_evidence segment_of) (sn_evidence snapshot) ;;
  let evidence_of := λ id, index_by ev_evidence_id (sn_evidence snapshot) !! id in
  counts ← fold_res count_step (sn_evidence snapshot) ∅;
  each (λ zone, check_zone segment_of evidence_of zone ;; check_zone_count counts zone) (sn_zones snapshot) ;;
  (let zone_ids : gset string := list_to_set (map zr_channel_id (sn_zones snapshot)) in
   match List.find (λ entry, negb (bool_decide (entry.1 ∈ zone_ids))) (entries counts) with
   | Some (orphan_channel_id, _) => persisted_invariant ("evidence exists for missing Zone " +:+ orphan_channel_id)
   | None => ROk ()
   end) ;;
  each (check_gap segment_of) (sn_gaps snapshot).

(** ** Validation of a batch *)
Fixpoint validate_upserts {T} (key_of : T → string) (validate : T → CatalogResult ()) (label : string)
    (upserts : list T) (upsert_keys : gset string) : CatalogResult (gset string) :=
  match upserts with
  | [] => ROk upsert_keys
  | record :: upserts' =>
      validate record ;;
      ensure (negb (bool_decide (key_of record ∈ upsert_keys)))
        (InvalidInput ("duplicate " +:+ label +:+ " upsert key " +:+ key_of record)) ;;
      validate_upserts key_of validate label upserts' ({[key_of record]} ∪ upsert_keys)
  end.

Fixpoint validate_deletes (validate_delete : string → CatalogResult ()) (label : string) (upsert_keys : gset string)
    (deletes : list string) (delete_keys : gset string) : CatalogResult () :=
  match deletes with
  | [] => ROk ()
  | key :: deletes' =>
      validate_delete key ;;
      ensure (negb (bool_decide (key ∈ delete_keys)))
        (InvalidInput ("duplicate " +:+ label +:+ " delete key " +:+ key)) ;;
      ensure (negb (bool_decide (key ∈ upsert_keys)))
        (InvalidInput (label +:+ " key " +:+ key +:+ " is both upserted and deleted")) ;;
      validate_deletes validate_delete label upsert_keys deletes' ({[key]} ∪ delete_keys)
  end.

Definition validate_record_keys {T} (upserts : list T) (deletes : list string) (key_of : T → string)
    (validate : T → CatalogResult ()) (validate_delete : string → CatalogResult ()) (label : string)
    : CatalogResult () :=
  upsert_keys ← validate_upserts key_of validate label upserts ∅;
  validate_deletes validate_delete label upsert_keys deletes ∅.

Definition validate_batch (batch : CatalogBatch) : CatalogResult () :=
  match cb_frontier batch with Some frontier => validate_frontier frontier | None => ROk () end ;;
  match cb_traversal batch with Some traversal => validate_traversal traversal | None => ROk () end ;;
  validate_record_keys (cb_upsert_zones batch) (cb_delete_zone_ids batch) zr_channel_id validate_zone
    (λ key, validate_hex_id key "deleted Channel id") "Zone" ;;
  validate_record_keys (cb_upsert_evidence batch) (cb_delete_evidence_ids batch) ev_evidence_id validate_evidence
    (λ key, validate_local_id key "deleted evidence id") "evidence reference" ;;
  validate_record_keys (cb_upsert_segments batch) (cb_delete_segment_ids batch) sg_segment_id validate_segment
    (λ key, validate_local_id key "deleted coverage segment id") "coverage segment" ;;
  validate_record_keys (cb_upsert_gaps batch) (cb_delete_gap_ids batch) gp_gap_id validate_gap
    (λ key, validate_local_id key "deleted coverage gap id") "coverage gap".

(** ** Applying records *)
Definition insert_at {T} (index : nat) (record : T) (records : list T) : list T :=
  take index records ++ record :: drop index records.

Definition apply_upsert {T} (key_of : T → string) (record : T) (records : list T) : CatalogResult (list T) :=
  match binary_search key_of (key_of record) records with
  | inl index =>
      match records !! index with
      | Some _ => ROk (<[index := record]> records)
      | None => RErr (InvalidInput "sorted catalog record lookup returned an invalid replacement index")
      end
  | inr index => ROk (insert_at index record records)
  end.

Definition apply_snapshot_records {T} (key_of : T → string) (records upserts : list T) (deletes : list string)
    : CatalogResult (list T) :=
  match upserts, deletes with
  | [], [] => ROk records
  | _, _ =>
      let deleted : gset string := list_to_set deletes in
      fold_res (apply_upsert key_of) upserts (filter (λ record, key_of record ∉ deleted) records)
  end.

(** ** Incremental validation *)
Record EvidenceCountDelta : Type := mkDelta { ed_removed : Z; ed_added : Z }.
#[export] Instance EvidenceCountDelta_eta : Eta EvidenceCountDelta := λ d, mkDelta (ed_removed d) (ed_added d).

Definition record_evidence_removal (channel_id : string) (deltas : gmap string EvidenceCountDelta)
    : CatalogResult (gmap string EvidenceCountDelta) :=
  let delta := default (mkDelta 0 0) (deltas !! channel_id) in
  removed ← ok_or_else (InvalidInput "evidence removal count overflow") (checked_add (ed_removed delta) 1);
  ROk (<[channel_id := delta <| ed_removed := removed |>]> deltas).
Definition record_evidence_addition (channel_id : string) (deltas : gmap string EvidenceCountDelta)
    : CatalogResult (gmap string EvidenceCountDelta) :=
  let delta := default (mkDelta 0 0) (deltas !! channel_id) in
  added ← ok_or_else (InvalidInput "evidence addition count overflow") (checked_add (ed_added delta) 1);
  ROk (<[channel_id := delta <| ed_added := added |>]> deltas).

Definition remove_previous (previous : CatalogSnapshot) (evidence_id : string)
    (deltas : gmap string EvidenceCountDelta) : CatalogResult (gmap string EvidenceCountDelta) :=
  match find_evidence (sn_evidence previous) evidence_id with
  | Some previous_reference => record_evidence_removal (ev_channel_id previous_reference) deltas
  | None => ROk deltas
  end.

Definition evidence_count_deltas (previous : CatalogSnapshot) (batch : CatalogBatch)
    : CatalogResult (gmap string EvidenceCountDelta) :=
  deltas ← fold_res (λ reference deltas,
             deltas ← remove_previous previous (ev_evidence_id reference) deltas;
             record_evidence_addition (ev_channel_id reference) deltas) (cb_upsert_evidence batch) ∅;
  fold_res (remove_previous previous) (cb_delete_evidence_ids batch) deltas.

Definition apply_evidence_delta (previous_count : Z) (delta : EvidenceCountDelta) : CatalogResult Z :=
  remaining ← ok_or_else (InvalidInput "evidence removal exceeds the previous Zone count")
                (checked_sub previous_count (ed_removed delta));
  ok_or_else (InvalidInput "Zone evidence count overflow") (checked_add remaining (ed_added delta)).

Definition is_safe_segment_extension (previous next : CoverageSegment) : bool :=
  bool_decide (sg_floor previous = sg_floor next)
  && (bool_decide (sg_frontier previous = sg_frontier next)
      || (br_slot (sg_frontier previous) <? br_slot (sg_frontier next))).

Record IncrementalValidation : Type := mkIncremental {
  iv_requires_full_snapshot_validation : bool;
  iv_changed_segment_ids : gset string;
  iv_evidence_deltas : gmap string EvidenceCountDelta;
  iv_previous_zone_counts : gmap string Z;
}.

(** The loop over the segments of a batch. *)
Definition segment_change (previous : CatalogSnapshot) (state : bool * gset string) (segment : CoverageSegment)
    : bool * gset string :=
  match find_segment (sn_segments previous) (sg_segment_id segment) with
  | None => state
  | Some previous_segment =>
      if negb (is_safe_segment_extension previous_segment segment) then (true, state.2)
      else if negb (bool_decide (sg_frontier previous_segment = sg_frontier segment))
      then (state.1, {[sg_segment_id segment]} ∪ state.2)
      else state
  end.

Definition prepare_incremental_validation (previous : CatalogSnapshot) (batch : CatalogBatch)
    : CatalogResult IncrementalValidation :=
  let '(requires_full, changed) :=
    foldl (segment_change previous) (negb (bool_decide (cb_delete_segment_ids batch = [])), ∅)
      (cb_upsert_segments batch) in
  deltas ← evidence_count_deltas previous batch;
  let channels := (fst <$> entries deltas) ++ map zr_channel_id (cb_upsert_zones batch) ++ cb_delete_zone_ids batch in
  let previous_zone_counts :=
    foldl (λ counts channel_id,
      match counts !! channel_id with
      | Some _ => counts
      | None => <[channel_id := default 0 (zr_evidence_count <$> find_zone (sn_zones previous) channel_id)]> counts
      end) ∅ channels in
  ROk (mkIncremental requires_full changed deltas previous_zone_counts).

Definition check_channel (snapshot : CatalogSnapshot) (deltas : gmap string EvidenceCountDelta)
    (entry : string * Z) : CatalogResult () :=
  let '(channel_id, previous_count) := entry in
  expected_count ← match deltas !! channel_id with
                   | Some delta => apply_evidence_delta previous_count delta
                   | None => ROk previous_count
                   end;
  match find_zone (sn_zones snapshot) channel_id with
  | Some zone =>
      if negb (zr_evidence_count zone =? expected_count)
      then persisted_invariant ("Zone " +:+ zr_channel_id zone +:+ " evidence count is "
                                +:+ pretty (zr_evidence_count zone) +:+ ", but " +:+ pretty expected_count
                                +:+ " references are persisted")
      else validate_zone_relationship snapshot zone
  | None =>
      if negb (expected_count =? 0)
      then persisted_invariant ("evidence exists for missing Zone " +:+ channel_id)
      else ROk ()
  end.

Definition validate_incremental_snapshot (snapshot : CatalogSnapshot) (batch : CatalogBatch)
    (validation : IncrementalValidation) : CatalogResult () :=
  if iv_requires_full_snapshot_validation validation then validate_snapshot snapshot
  else
    validate_head snapshot ;;
    each (validate_evidence_relationship snapshot) (cb_upsert_evidence batch) ;;
    each (validate_gap_relationship snapshot) (cb_upsert_gaps batch) ;;
    each (λ gap,
      if bool_decide (gp_lower_segment_id gap ∈ iv_changed_segment_ids validation)
      then validate_gap_relationship snapshot gap else ROk ()) (sn_gaps snapshot) ;;
    each (check_channel snapshot (iv_evidence_deltas validation)) (entries (iv_previous_zone_counts validation)).

Definition apply_batch_to_snapshot (snapshot : CatalogSnapshot) (metadata : CatalogMetadata) (batch : CatalogBatch)
    : CatalogResult CatalogSnapshot :=
  ensure (md_catalog_revision (sn_metadata snapshot) =? cb_expected_catalog_revision batch)
    (RevisionConflict (cb_expected_catalog_revision batch) (md_catalog_revision (sn_metadata snapshot))) ;;
  validation ← prepare_incremental_validation snapshot batch;
  zones ← apply_snapshot_records zr_channel_id (sn_zones snapshot) (cb_upsert_zones batch) (cb_delete_zone_ids batch);
  evidence ← apply_snapshot_records ev_evidence_id (sn_evidence snapshot) (cb_upsert_evidence batch)
               (cb_delete_evidence_ids batch);
  segments ← apply_snapshot_records sg_segment_id (sn_segments snapshot) (cb_upsert_segments batch)
               (cb_delete_segment_ids batch);
  gaps ← apply_snapshot_records gp_gap_id (sn_gaps snapshot) (cb_upsert_gaps batch) (cb_delete_gap_ids batch);
  let next := mkSnapshot metadata (cb_frontier batch) (cb_traversal batch) zones evidence segments gaps in
  validate_incremental_snapshot next batch validation ;;
  ROk next.

(** What a commit does with the held snapshot and the stored metadata, apart
    from the database transaction. *)
Definition commit_batch_from_snapshot (stored : CatalogMetadata) (snapshot : CatalogSnapshot) (batch : CatalogBatch)
    : CatalogResult CatalogSnapshot :=
  validate_batch batch ;;
  validate_persisted "catalog metadata" (validate_metadata stored) ;;
  ensure (md_catalog_revision stored =? cb_expected_catalog_revision batch)
    (RevisionConflict (cb_expected_catalog_revision batch) (md_catalog_revision stored)) ;;
  ensure (md_updated_at_unix stored <=? cb_updated_at_unix batch) (InvalidInput "catalog update time moves backwards") ;;
  revision ← ok_or_else (InvalidInput "catalog revision exhausted") (checked_add (md_catalog_revision stored) 1);
  apply_batch_to_snapshot snapshot
    (stored <| md_catalog_revision := revision |> <| md_updated_at_unix := cb_updated_at_unix batch |>) batch.
