(* ===== verification/CatalogValidity.v ===== *)
(** * Valid snapshots stay valid

    The upserts and deletes of a batch applied to sorted vectors of records; what
    full validation of a snapshot means, record by record, and the proof that
    incremental validation of a batch is as good: a batch accepted on top of a
    valid snapshot leaves a snapshot that full validation accepts. *)

From S2P Require Import Prelude Json Bytes SortedRecords CatalogModel ChannelOps CatalogEngine CatalogStore.

Section records.
Context {T : Type} (key : T → string).
Implicit Types (records upserts : list T) (deletes : list string).

Lemma sorted_NoDup records : sorted_by key records → NoDup records.
Proof.
  induction 1 as [|r l Hl IH Hr]; constructor; [|done]. intros Hin. rewrite Forall_forall in Hr.
  by apply (str_lt_irrefl (key r)), Hr.
Qed.

Lemma index_by_find records id : sorted_by key records → index_by key records !! id = find_by key id records.
Proof.
  intros Hs. unfold index_by.
  assert (Hgen : ∀ l (m : gmap string T), sorted_by key l →
    foldl (λ m record, <[key record := record]> m) m l !! id
    = match find_by key id l with Some r => Some r | None => m !! id end).
  { clear records Hs. induction l as [|r l IH]; intros m Hl; [done|]. simpl.
    apply StronglySorted_cons in Hl as [Hr Hl]. rewrite IH by done. unfold find_by at 2. simpl.
    fold (find_by key id l). destruct (String.eqb_spec (key r) id) as [<-|Hne].
    - rewrite lookup_insert_eq. destruct (find_by key (key r) l) as [r'|] eqn:E; [|done].
      apply find_by_Some in E as [Hin E]; [|done]. rewrite Forall_forall in Hr. specialize (Hr r' Hin).
      rewrite E in Hr. by apply str_lt_irrefl in Hr.
    - by rewrite lookup_insert_ne. }
  rewrite Hgen by done. by destruct (find_by key id records).
Qed.

Lemma search_by_find records id : sorted_by key records → search_by key id records = find_by key id records.
Proof. apply binary_search_find. Qed.

Lemma sorted_replace records index old record :
  sorted_by key records → records !! index = Some old → key old = key record →
  sorted_by key (<[index := record]> records)
  ∧ ∀ r, r ∈ <[index := record]> records ↔ r = record ∨ r ∈ records ∧ key r ≠ key record.
Proof.
  intros Hs Hl E. pose proof (take_drop_middle records index old Hl) as Hsplit.
  rewrite <- Hsplit in Hs |- *. rewrite insert_app_r_alt by (rewrite length_take; lia).
  assert (Hlen : length (take index records) = index).
  { apply length_take_le. apply lookup_lt_Some in Hl. lia. }
  rewrite Hlen, Nat.sub_diag. simpl. unfold sorted_by in *.
  rewrite StronglySorted_app, StronglySorted_cons in Hs |- *. destruct Hs as (H12 & H1 & Hold & H2).
  rewrite Forall_forall in Hold. split.
  - split_and!; [|done| |done].
    + intros a b Ha [->|Hb]%elem_of_cons; [rewrite <- E|]; apply H12; set_solver.
    + apply Forall_forall. intros b Hb. rewrite <- E. by apply Hold.
  - intros r. rewrite !elem_of_app, !elem_of_cons. split.
    + intros [Hr|[->|Hr]]; [right|by left|right]; (split; [tauto|]); intros Ek.
      * pose proof (H12 r old Hr ltac:(by left)) as Hlt. rewrite Ek, E in Hlt. by apply str_lt_irrefl in Hlt.
      * pose proof (Hold r Hr) as Hlt. rewrite Ek, E in Hlt. by apply str_lt_irrefl in Hlt.
    + intros [->|[[Hr|[->|Hr]] Ek]]; [tauto|tauto|by rewrite E in Ek|tauto].
Qed.

Lemma sorted_insert_at records index record :
  sorted_by key records →
  (∀ j r, (j < index)%nat → records !! j = Some r → str_lt (key r) (key record)) →
  (∀ j r, (index ≤ j)%nat → records !! j = Some r → str_lt (key record) (key r)) →
  sorted_by key (insert_at index record records)
  ∧ ∀ r, r ∈ insert_at index record records ↔ r = record ∨ r ∈ records ∧ key r ≠ key record.
Proof.
  intros Hs Hbefore Hafter. unfold insert_at. pose proof (take_drop index records) as Hsplit.
  assert (Hb : ∀ r, r ∈ take index records → str_lt (key r) (key record)).
  { intros r (j & Hj)%list_elem_of_lookup. apply lookup_take_Some in Hj as [Hj ?]. by eapply Hbefore. }
  assert (Ha : ∀ r, r ∈ drop index records → str_lt (key record) (key r)).
  { intros r (j & Hj)%list_elem_of_lookup. rewrite lookup_drop in Hj. eapply Hafter, Hj. lia. }
  rewrite <- Hsplit in Hs. apply StronglySorted_app in Hs as (H12 & H1 & H2). split.
  - apply StronglySorted_app. split_and!; [|done|].
    + intros a b Hin [->|Hin2]%elem_of_cons; [by apply Hb|by apply H12].
    + apply StronglySorted_cons. split; [|done]. by apply Forall_forall.
  - intros r. rewrite <- Hsplit at 3. rewrite !elem_of_app, elem_of_cons. split.
    + intros [Hr|[->|Hr]]; [right|by left|right]; (split; [tauto|]); intros Ek.
      * pose proof (Hb r Hr) as Hlt. rewrite Ek in Hlt. by apply str_lt_irrefl in Hlt.
      * pose proof (Ha r Hr) as Hlt. rewrite Ek in Hlt. by apply str_lt_irrefl in Hlt.
    + tauto.
Qed.

Lemma apply_upsert_spec record records :
  sorted_by key records →
  ∃ records', apply_upsert key record records = ROk records' ∧ sorted_by key records'
    ∧ ∀ r, r ∈ records' ↔ r = record ∨ r ∈ records ∧ key r ≠ key record.
Proof.
  intros Hs. unfold apply_upsert. pose proof (binary_search_spec key (key record) records Hs) as Hb.
  destruct (binary_search key (key record) records) as [i|i].
  - destruct Hb as (old & Hl & Ek). rewrite Hl. eexists. split; [done|]. by eapply sorted_replace.
  - destruct Hb as (_ & Hlt & Hgt). eexists. split; [done|]. by apply sorted_insert_at.
Qed.

Lemma apply_upserts_spec upserts : ∀ records,
  sorted_by key records → NoDup (key <$> upserts) →
  ∃ records', fold_res (apply_upsert key) upserts records = ROk records' ∧ sorted_by key records'
    ∧ ∀ r, r ∈ records' ↔ r ∈ upserts ∨ r ∈ records ∧ key r ∉ (key <$> upserts).
Proof.
  induction upserts as [|u upserts IH]; intros records Hs Hn; simpl.
  { exists records. split_and!; [done..|]. set_solver. }
  apply NoDup_cons in Hn as [Hu Hn]. destruct (apply_upsert_spec u records Hs) as (r1 & -> & Hs1 & H1).
  simpl. destruct (IH r1 Hs1 Hn) as (r2 & -> & Hs2 & H2). exists r2. split_and!; [done..|].
  intros r. rewrite H2, H1, !elem_of_cons. split.
  - intros [?|[[->|[? ?]] ?]]; [tauto|tauto|right]. split; [done|]. intros [E|?]; [by rewrite E in *|tauto].
  - intros [[->|?]|[? Hk]]; [right; split; [by left|done]|tauto|right]. split; [right|]; (split || idtac); tauto.
Qed.

(** Applying a batch to sorted records: it succeeds, keeps them sorted, and the
    result is the upserts and the records that are neither deleted nor
    replaced. *)
Lemma apply_snapshot_records_spec records upserts deletes :
  sorted_by key records → NoDup (key <$> upserts) →
  ∃ records', apply_snapshot_records key records upserts deletes = ROk records' ∧ sorted_by key records'
    ∧ ∀ r, r ∈ records' ↔ r ∈ upserts ∨ r ∈ records ∧ (key r ∉ deletes) ∧ key r ∉ (key <$> upserts).
Proof.
  intros Hs Hn.
  destruct (apply_upserts_spec upserts (filter (λ r, key r ∉ ((list_to_set deletes) : gset string)) records))
    as (r' & E & Hs' & Hr); [by apply sorted_by_filter|done|].
  exists r'. split_and!; [|done|].
  - unfold apply_snapshot_records. destruct upserts, deletes; try done. simpl in E. rewrite <- E. f_equal.
    symmetry. clear. induction records as [|x l IH]; [done|]. rewrite filter_cons, IH.
    rewrite decide_True; [done|]. apply not_elem_of_empty.
  - intros r. rewrite Hr, list_elem_of_filter, elem_of_list_to_set. tauto.
Qed.

(** ** Differences *)
Lemma records_by_key_find records id :
  sorted_by key records → records_by_key key records !! id = find_by key id records.
Proof. apply index_by_find. Qed.

Definition keyed (m : gmap string T) : Prop := ∀ k r, m !! k = Some r → key r = k.

Lemma records_by_key_keyed records : keyed (records_by_key key records).
Proof.
  unfold records_by_key.
  assert (Hgen : ∀ l (m : gmap string T), keyed m → keyed (foldl (λ m record, <[key record := record]> m) m l)).
  { induction l as [|r l IH]; intros m Hm; [done|]. simpl. apply IH. intros k r'.
    rewrite lookup_insert_Some. intros [[<- <-]|[_ ?]]; auto. }
  apply Hgen. intros k r. by rewrite lookup_empty.
Qed.

Lemma values_sorted m : keyed m → sorted_by key (values m).
Proof.
  intros Hm. unfold values, sorted_by. pose proof (entries_sorted m) as Hs.
  assert (Hk : Forall (λ e, key e.2 = e.1) (entries m)).
  { apply Forall_forall. intros [k r] He%elem_of_entries. by apply Hm. }
  induction Hs as [|e l Hl IH He]; [constructor|]. apply Forall_cons in Hk as [Ee Hk]. simpl.
  constructor; [by apply IH|]. apply Forall_forall. intros r (e' & -> & Hin)%list_elem_of_fmap.
  rewrite Forall_forall in He. rewrite Forall_forall in Hk. rewrite Ee, (Hk e' Hin). by apply He.
Qed.

Context `{EqDecision T}.

Lemma record_diff_upserts records after r :
  sorted_by key records → keyed after →
  r ∈ (record_diff key records after).1 ↔ after !! key r = Some r ∧ r ∉ records.
Proof.
  intros Hs Hm. unfold record_diff. simpl. rewrite list_elem_of_fmap. split.
  - intros ([k r'] & -> & [Hne Hin%elem_of_entries]%list_elem_of_filter). simpl in *.
    pose proof (Hm k r' Hin) as <-. split; [done|]. intros Hrec. apply Hne.
    rewrite records_by_key_find by done. by apply find_by_Some.
  - intros [Ha Hrec]. exists (key r, r). split; [done|]. apply list_elem_of_filter. simpl.
    split; [|by apply elem_of_entries]. rewrite records_by_key_find by done.
    intros [? _]%find_by_Some; done.
Qed.

Lemma record_diff_deletes records after k :
  sorted_by key records →
  k ∈ (record_diff key records after).2 ↔ after !! k = None ∧ ∃ r, r ∈ records ∧ key r = k.
Proof.
  intros Hs. unfold record_diff. simpl. rewrite list_elem_of_filter, list_elem_of_fmap.
  assert (Hk : (∃ e, k = e.1 ∧ e ∈ entries (records_by_key key records)) ↔ ∃ r, r ∈ records ∧ key r = k).
  { split.
    - intros ([k' r] & -> & Hin%elem_of_entries). simpl. rewrite records_by_key_find in Hin by done.
      apply find_by_Some in Hin; [|done]. by exists r.
    - intros (r & Hr). exists (k, r). split; [done|]. apply elem_of_entries.
      rewrite records_by_key_find by done. by apply find_by_Some. }
  by rewrite Hk.
Qed.

Lemma record_diff_NoDup records after : keyed after → NoDup (key <$> (record_diff key records after).1).
Proof.
  intros Hm. unfold record_diff. simpl.
  assert (Hk : key <$> (snd <$> filter (λ e, records_by_key key records !! e.1 ≠ Some e.2) (entries after))
               = fst <$> filter (λ e, records_by_key key records !! e.1 ≠ Some e.2) (entries after)).
  { rewrite <- list_fmap_compose. apply list_fmap_ext. intros i [k r] Hl. simpl.
    apply list_elem_of_lookup_2, list_elem_of_filter in Hl as [_ Hl%elem_of_entries]. by apply Hm. }
  rewrite Hk. eapply sublist_NoDup; [apply (NoDup_entries_keys after)|]. apply fmap_sublist, sublist_filter.
Qed.

(** Applying the difference between a snapshot's records and a working map gives
    the working map. *)
Lemma record_diff_apply records after :
  sorted_by key records → keyed after →
  apply_snapshot_records key records (record_diff key records after).1 (record_diff key records after).2
  = ROk (values after).
Proof.
  intros Hs Hm.
  destruct (apply_snapshot_records_spec records (record_diff key records after).1
    (record_diff key records after).2 Hs (record_diff_NoDup records after Hm)) as (r' & -> & Hs' & Hr).
  f_equal. apply (sorted_by_ext key); [done|by apply values_sorted|]. intros r.
  rewrite Hr, record_diff_upserts, elem_of_values by done. split.
  - intros [[Ha _]|(Hin & Hdel & Hup)]; [by eauto|].
    destruct (after !! key r) as [r2|] eqn:E.
    + destruct (decide (r2 = r)) as [->|Hne]; [by eauto|]. destruct Hup.
      apply list_elem_of_fmap. exists r2. pose proof (Hm _ _ E) as Ek. split; [done|].
      apply record_diff_upserts; [done..|]. rewrite Ek. split; [done|]. intros Hin2.
      by apply Hne, (sorted_key_inj key records).
    + destruct Hdel. apply record_diff_deletes; [done|]. split; [done|by exists r].
  - intros (k & Hk). pose proof (Hm _ _ Hk) as <-. destruct (decide (r ∈ records)) as [Hin|]; [right|by left].
    split_and!; [done| |].
    + intros [Hn _]%record_diff_deletes; [congruence|done].
    + intros (r2 & Ek & [Ha Hni]%record_diff_upserts)%list_elem_of_fmap; [|done..]. rewrite <- Ek in Ha. congruence.
Qed.
End records.

Record sorted_snapshot (s : CatalogSnapshot) : Prop := mkSortedSnapshot {
  ss_zones : sorted_by zr_channel_id (sn_zones s);
  ss_evidence : sorted_by ev_evidence_id (sn_evidence s);
  ss_segments : sorted_by sg_segment_id (sn_segments s);
  ss_gaps : sorted_by gp_gap_id (sn_gaps s);
}.

Definition ev_count (c : string) (l : list ZoneEvidenceReference) : Z :=
  zlen (filter (λ r, ev_channel_id r = c) l).

Definition segment_in (s : CatalogSnapshot) (id : string) : option CoverageSegment :=
  find_by sg_segment_id id (sn_segments s).
Definition evidence_in (s : CatalogSnapshot) (id : string) : option ZoneEvidenceReference :=
  find_by ev_evidence_id id (sn_evidence s).

(** The contract of full validation. *)
Record valid_snapshot (s : CatalogSnapshot) : Prop := mkValidSnapshot {
  vs_head : validate_head s = ROk ();
  vs_segments segment : segment ∈ sn_segments s → validate_segment segment = ROk ();
  vs_evidence reference : reference ∈ sn_evidence s → check_evidence (segment_in s) reference = ROk ();
  vs_zones zone : zone ∈ sn_zones s → check_zone (segment_in s) (evidence_in s) zone = ROk ();
  vs_counts zone : zone ∈ sn_zones s → zr_evidence_count zone = ev_count (zr_channel_id zone) (sn_evidence s);
  vs_owned reference : reference ∈ sn_evidence s →
    ∃ zone, zone ∈ sn_zones s ∧ zr_channel_id zone = ev_channel_id reference;
  vs_bounded c : ev_count c (sn_evidence s) ≤ u64_max;
  vs_gaps gap : gap ∈ sn_gaps s → check_gap (segment_in s) gap = ROk ();
}.

(** ** Full validation decides the contract *)
Lemma ev_count_nonneg c l : 0 ≤ ev_count c l.
Proof. apply zlen_nonneg. Qed.

Lemma ev_count_cons c r l : ev_count c (r :: l) = (if decide (ev_channel_id r = c) then 1 else 0) + ev_count c l.
Proof. unfold ev_count. rewrite filter_cons. case_decide; [|lia]. unfold zlen. simpl length. lia. Qed.

Lemma ev_count_app c l1 l2 : ev_count c (l1 ++ l2) = ev_count c l1 + ev_count c l2.
Proof. unfold ev_count. by rewrite filter_app, zlen_app. Qed.

Lemma ev_count_perm c l1 l2 : l1 ≡ₚ l2 → ev_count c l1 = ev_count c l2.
Proof. intros Hp. unfold ev_count, zlen. by rewrite Hp. Qed.

Lemma ev_count_pos c l : 0 < ev_count c l ↔ ∃ r, r ∈ l ∧ ev_channel_id r = c.
Proof.
  unfold ev_count. split.
  - intros Hp. destruct (filter _ l) as [|r l'] eqn:E; [by unfold zlen in Hp|]. exists r.
    assert (Hr : r ∈ filter (λ r, ev_channel_id r = c) l) by (rewrite E; left).
    apply list_elem_of_filter in Hr. tauto.
  - intros (r & Hin & Hc). assert (Hr : r ∈ filter (λ r, ev_channel_id r = c) l) by (by apply list_elem_of_filter).
    destruct (filter _ l); [by apply elem_of_nil in Hr|]. unfold zlen. simpl length. lia.
Qed.

(** Counting succeeds exactly when no channel has too much evidence. *)
Lemma count_fold l : ∀ counts,
  (∀ c n, counts !! c = Some n → 0 < n) →
  match fold_res count_step l counts with
  | ROk counts' => (∀ c, default 0 (counts' !! c) = default 0 (counts !! c) + ev_count c l)
      ∧ (∀ c n, counts' !! c = Some n → 0 < n)
      ∧ (∀ c, 0 < ev_count c l → default 0 (counts' !! c) ≤ u64_max)
  | RErr _ => ∃ c, u64_max < default 0 (counts !! c) + ev_count c l
  end.
Proof.
  induction l as [|r l IH]; intros counts Hpos; simpl fold_res.
  { split_and!; [|done|]; intros c; unfold ev_count, zlen; simpl; lia. }
  set (c0 := ev_channel_id r).
  replace (count_step r counts) with
    (if default 0 (counts !! c0) + 1 <=? u64_max
     then ROk (<[c0 := default 0 (counts !! c0) + 1]> counts)
     else RErr (invalidated RecordInvariant "Zone evidence count overflow"))
    by (unfold count_step, checked_add; fold c0; by case_match).
  destruct (Z.leb_spec (default 0 (counts !! c0) + 1) u64_max) as [Hle|Hgt]; simpl.
  2:{ exists c0. rewrite ev_count_cons, decide_True by done. pose proof (ev_count_nonneg c0 l). lia. }
  assert (Hnn : 0 ≤ default 0 (counts !! c0)).
  { destruct (counts !! c0) as [n|] eqn:E; simpl; [apply Hpos in E; lia|lia]. }
  specialize (IH (<[c0 := default 0 (counts !! c0) + 1]> counts)).
  assert (Hd : ∀ c, default 0 (<[c0 := default 0 (counts !! c0) + 1]> counts !! c)
    = default 0 (counts !! c) + if decide (c0 = c) then 1 else 0).
  { intros c. case_decide as E; [rewrite <- E; rewrite lookup_insert_eq; simpl; lia|].
    rewrite lookup_insert_ne by done. lia. }
  destruct (fold_res _ l _) as [counts'|e].
  - destruct IH as (H1 & H2 & H3).
    { intros c n. rewrite lookup_insert_Some. intros [[<- <-]|[_ ?]]; [lia|eauto]. }
    split_and!; [|done|].
    + intros c. rewrite H1, Hd, ev_count_cons. fold c0. lia.
    + intros c Hc. rewrite ev_count_cons in Hc. fold c0 in Hc.
      destruct (decide (0 < ev_count c l)); [by apply H3|]. case_decide as E; [|lia].
      rewrite H1, Hd, decide_True by done. pose proof (ev_count_nonneg c l). subst c. lia.
  - destruct IH as (c & Hc).
    { intros c n. rewrite lookup_insert_Some. intros [[<- <-]|[_ ?]]; [lia|eauto]. }
    exists c. rewrite Hd in Hc. rewrite ev_count_cons. fold c0. lia.
Qed.

Lemma count_evidence_spec l :
  match fold_res count_step l ∅ with
  | ROk counts => (∀ c, default 0 (counts !! c) = ev_count c l) ∧ (∀ c, is_Some (counts !! c) ↔ 0 < ev_count c l)
      ∧ (∀ c, ev_count c l ≤ u64_max)
  | RErr _ => ∃ c, u64_max < ev_count c l
  end.
Proof.
  pose proof (count_fold l ∅) as H. destruct (fold_res count_step l ∅) as [counts|e].
  - destruct H as (H1 & H2 & H3); [intros c n; by rewrite lookup_empty|].
    assert (H1' : ∀ c, default 0 (counts !! c) = ev_count c l).
    { intros c. rewrite H1, lookup_empty. simpl. lia. }
    split_and!; [done| |].
    + intros c. specialize (H1' c). split.
      * intros [n Hn]. rewrite Hn in H1'. simpl in H1'. apply H2 in Hn. lia.
      * intros Hp. destruct (counts !! c); [by eauto|simpl in H1'; lia].
    + intros c. destruct (decide (0 < ev_count c l)) as [Hp|]; [rewrite <- H1'; by apply H3|].
      unfold u64_max. lia.
  - destruct H as (c & Hc); [intros c n; by rewrite lookup_empty|]. exists c. rewrite lookup_empty in Hc. simpl in Hc. lia.
Qed.

Lemma check_zone_count_ROk counts zone :
  check_zone_count counts zone = ROk () ↔ default 0 (counts !! zr_channel_id zone) = zr_evidence_count zone.
Proof. unfold check_zone_count. destruct (Z.eqb_spec (default 0 (counts !! zr_channel_id zone)) (zr_evidence_count zone)); simpl; naive_solver. Qed.

(** Lookups through an index are lookups by key. *)
Lemma check_ext_evidence f g r : (∀ id, f id = g id) → check_evidence f r = check_evidence g r.
Proof. intros E. unfold check_evidence. by rewrite E. Qed.
Lemma check_ext_zone f g f' g' z : (∀ id, f id = g id) → (∀ id, f' id = g' id) → check_zone f f' z = check_zone g g' z.
Proof. intros E E'. unfold check_zone. by rewrite E, E'. Qed.
Lemma check_ext_gap f g gap : (∀ id, f id = g id) → check_gap f gap = check_gap g gap.
Proof. intros E. unfold check_gap. by rewrite !E. Qed.

Lemma validate_persisted_ROk label r : validate_persisted label r = ROk () ↔ r = ROk ().
Proof. apply map_err_ROk. Qed.

Lemma orphan_ROk s (counts : gmap string Z) :
  (∀ c, is_Some (counts !! c) ↔ 0 < ev_count c (sn_evidence s)) →
  match List.find (λ entry, negb (bool_decide (entry.1 ∈ (list_to_set (map zr_channel_id (sn_zones s)) : gset string))))
          (entries counts) with
  | Some (orphan, _) => persisted_invariant ("evidence exists for missing Zone " +:+ orphan)
  | None => ROk ()
  end = ROk () ↔
  ∀ reference, reference ∈ sn_evidence s → ∃ zone, zone ∈ sn_zones s ∧ zr_channel_id zone = ev_channel_id reference.
Proof.
  intros Hc. destruct (List.find _ _) as [[c n]|] eqn:E.
  - apply List.find_some in E as [Hin Hn]. split; [done|]. intros Hall.
    apply list_elem_of_In, elem_of_entries in Hin. apply negb_true_iff, bool_decide_eq_false in Hn.
    destruct (proj1 (ev_count_pos c (sn_evidence s))) as (r & Hr & <-); [apply Hc; by eauto|].
    destruct (Hall r Hr) as (z & Hz & Ez). destruct Hn. apply elem_of_list_to_set, list_elem_of_fmap. by exists z.
  - split; [|done]. intros _ r Hr. destruct (proj2 (Hc (ev_channel_id r))) as [n Hn].
    { apply ev_count_pos. by exists r. }
    apply elem_of_entries, list_elem_of_In, (List.find_none _ _ E) in Hn. simpl in Hn.
    apply negb_false_iff, bool_decide_eq_true in Hn. apply elem_of_list_to_set, list_elem_of_fmap in Hn as (z & -> & Hz).
    by exists z.
Qed.

Lemma validate_snapshot_spec s : sorted_snapshot s → validate_snapshot s = ROk () ↔ valid_snapshot s.
Proof.
  intros [Hz He Hs Hg].
  assert (Eseg : ∀ id, index_by sg_segment_id (sn_segments s) !! id = segment_in s id) by (intros; by apply index_by_find).
  assert (Eev : ∀ id, index_by ev_evidence_id (sn_evidence s) !! id = evidence_in s id) by (intros; by apply index_by_find).
  pose proof (count_evidence_spec (sn_evidence s)) as Hc. unfold validate_snapshot. split.
  - intros (H1 & (H2 & (H3 & (counts & Hf & (H4 & (H5 & H6)%rseq_ROk)%rseq_ROk)%rbind_ROk)%rseq_ROk)%rseq_ROk)%rseq_ROk.
    rewrite each_ROk in H2; rewrite each_ROk in H3; rewrite each_ROk in H4; rewrite each_ROk in H6. rewrite Hf in Hc. destruct Hc as (Hc1 & Hc2 & Hc3).
    rewrite (orphan_ROk s counts Hc2) in H5.
    constructor; [done| | | | |done..|].
    + intros segment Hin. by eapply validate_persisted_ROk, H2.
    + intros reference Hin. rewrite <- (check_ext_evidence _ _ _ Eseg). by apply H3.
    + intros zone Hin. rewrite <- (check_ext_zone _ _ _ _ _ Eseg Eev). by apply H4 in Hin as [? _]%rseq_ROk.
    + intros zone Hin. apply H4 in Hin as [_ Hin%check_zone_count_ROk]%rseq_ROk. by rewrite <- Hc1.
    + intros gap Hin. rewrite <- (check_ext_gap _ _ _ Eseg). by apply H6.
  - intros [H1 H2 H3 H4 H5 H6 H7 H8]. destruct (fold_res count_step (sn_evidence s) ∅) as [counts|e].
    2:{ destruct Hc as (c & Hc). specialize (H7 c). lia. }
    destruct Hc as (Hc1 & Hc2 & Hc3).
    apply rseq_ROk; split; [done|]. apply rseq_ROk; split; [apply each_ROk; intros; by apply validate_persisted_ROk, H2|].
    apply rseq_ROk; split; [apply each_ROk; intros; rewrite (check_ext_evidence _ _ _ Eseg); by apply H3|].
    apply rbind_ROk. exists counts. split; [done|]. apply rseq_ROk; split.
    { apply each_ROk. intros zone Hin. apply rseq_ROk; split.
      - rewrite (check_ext_zone _ _ _ _ _ Eseg Eev). by apply H4.
      - apply check_zone_count_ROk. rewrite Hc1. symmetry. by apply H5. }
    apply rseq_ROk; split; [by apply orphan_ROk|].
    apply each_ROk; intros; rewrite (check_ext_gap _ _ _ Eseg); by apply H8.
Qed.
