(* ===== verification/CatalogCommit.v ===== *)
(** * Committing a batch

    Incremental validation of a batch is as good as full validation: a batch
    accepted on top of a valid snapshot leaves a snapshot that full validation
    accepts. *)

From S2P Require Import Prelude Json Bytes SortedRecords CatalogModel ChannelOps CatalogEngine CatalogStore.
From S2P Require Import CatalogValidity.

(** ** The keys of a batch *)
Lemma validate_upserts_ROk {T} (key : T → string) validate label upserts : ∀ keys keys',
  validate_upserts key validate label upserts keys = ROk keys' →
  (∀ u, u ∈ upserts → validate u = ROk ()) ∧ NoDup (key <$> upserts) ∧ (∀ u, u ∈ upserts → key u ∉ keys)
  ∧ (∀ k, k ∈ keys' ↔ k ∈ keys ∨ k ∈ (key <$> upserts)).
Proof.
  induction upserts as [|u upserts IH]; intros keys keys'; simpl.
  { intros [= <-]. split_and!; [|constructor| |]; set_solver. }
  intros (Hv & (Hk%ensure_ROk & Hrest)%rseq_ROk)%rseq_ROk.
  apply negb_true_iff, bool_decide_eq_false in Hk. destruct (IH _ _ Hrest) as (H1 & H2 & H3 & H4).
  split_and!.
  - intros v [->|Hin]%elem_of_cons; auto.
  - constructor; [|done]. intros (v & E & Hv')%list_elem_of_fmap. specialize (H3 v Hv'). set_solver.
  - intros v [->|Hin]%elem_of_cons; [done|]. specialize (H3 v Hin). set_solver.
  - intros k. rewrite H4, elem_of_cons. set_solver.
Qed.

Lemma validate_deletes_ROk validate label upsert_keys deletes : ∀ keys,
  validate_deletes validate label upsert_keys deletes keys = ROk () →
  NoDup deletes ∧ (∀ k, k ∈ deletes → (k ∉ keys) ∧ k ∉ upsert_keys).
Proof.
  induction deletes as [|k deletes IH]; intros keys; simpl.
  { intros _. split; [constructor|set_solver]. }
  intros (_ & (Hk%ensure_ROk & (Hu%ensure_ROk & Hrest)%rseq_ROk)%rseq_ROk)%rseq_ROk.
  apply negb_true_iff, bool_decide_eq_false in Hk, Hu. destruct (IH _ Hrest) as (H1 & H2). split.
  - constructor; [|done]. intros Hin. specialize (H2 k Hin). set_solver.
  - intros k' [->|Hin]%elem_of_cons; [done|]. specialize (H2 k' Hin). set_solver.
Qed.

Record keys_ok {T} (key : T → string) (validate : T → CatalogResult ()) (upserts : list T) (deletes : list string)
    : Prop := mkKeysOk {
  ko_valid u : u ∈ upserts → validate u = ROk ();
  ko_upserts : NoDup (key <$> upserts);
  ko_keys : NoDup ((key <$> upserts) ++ deletes);
}.

Lemma validate_record_keys_ROk {T} (key : T → string) validate validate_delete label upserts deletes :
  validate_record_keys upserts deletes key validate validate_delete label = ROk () →
  keys_ok key validate upserts deletes.
Proof.
  intros (keys & (H1 & H2 & H3 & H4)%validate_upserts_ROk & (H5 & H6)%validate_deletes_ROk)%rbind_ROk.
  split; [done..|]. apply NoDup_app. split_and!; [done| |done]. intros k Hk Hd. destruct (H6 k Hd). set_solver.
Qed.

Record batch_keys_ok (batch : CatalogBatch) : Prop := mkBatchKeysOk {
  bk_zones : keys_ok zr_channel_id validate_zone (cb_upsert_zones batch) (cb_delete_zone_ids batch);
  bk_evidence : keys_ok ev_evidence_id validate_evidence (cb_upsert_evidence batch) (cb_delete_evidence_ids batch);
  bk_segments : keys_ok sg_segment_id validate_segment (cb_upsert_segments batch) (cb_delete_segment_ids batch);
  bk_gaps : keys_ok gp_gap_id validate_gap (cb_upsert_gaps batch) (cb_delete_gap_ids batch);
}.

Lemma validate_batch_keys batch : validate_batch batch = ROk () → batch_keys_ok batch.
Proof.
  intros (_ & (_ & (H1 & (H2 & (H3 & H4)%rseq_ROk)%rseq_ROk)%rseq_ROk)%rseq_ROk)%rseq_ROk.
  split; by eapply validate_record_keys_ROk.
Qed.

(** ** Records removed by a batch *)
Section removed.
Context {T : Type} (key : T → string).
Implicit Types (records : list T) (ids : list string).

Lemma omap_find_elem records ids r :
  sorted_by key records → r ∈ omap (λ id, find_by key id records) ids ↔ r ∈ records ∧ key r ∈ ids.
Proof.
  intros Hs. rewrite list_elem_of_omap. setoid_rewrite find_by_Some; [|done]. naive_solver.
Qed.

Lemma omap_find_NoDup records ids :
  sorted_by key records → NoDup ids → NoDup (omap (λ id, find_by key id records) ids).
Proof.
  intros Hs. induction 1 as [|id ids Hid Hn IH]; [constructor|]. simpl.
  destruct (find_by key id records) as [r|] eqn:E; [|done]. constructor; [|done].
  rewrite omap_find_elem by done. apply find_by_Some in E as [_ <-]; [|done]. tauto.
Qed.

(** The records of a snapshot are those a batch keeps and those it removes. *)
Lemma kept_and_removed records ids :
  sorted_by key records → NoDup ids →
  records ≡ₚ filter (λ r, key r ∉ ids) records ++ omap (λ id, find_by key id records) ids.
Proof.
  intros Hs Hn. pose proof (sorted_NoDup key records Hs) as Hr. apply NoDup_Permutation; [done| |].
  - apply NoDup_app. split_and!; [by apply NoDup_filter| |by apply omap_find_NoDup].
    intros r [Hk _]%list_elem_of_filter [_ ?]%omap_find_elem; done.
  - intros r. rewrite elem_of_app, list_elem_of_filter, omap_find_elem by done. destruct (decide (key r ∈ ids)); tauto.
Qed.

Lemma applied_perm records upserts deletes records' :
  sorted_by key records → NoDup ((key <$> upserts) ++ deletes) → sorted_by key records' →
  (∀ r, r ∈ records' ↔ r ∈ upserts ∨ r ∈ records ∧ (key r ∉ deletes) ∧ key r ∉ (key <$> upserts)) →
  records' ≡ₚ upserts ++ filter (λ r, key r ∉ (key <$> upserts) ++ deletes) records.
Proof.
  intros Hs Hn Hs' Hr. apply NoDup_app in Hn as (Hu & Hd & _). apply NoDup_Permutation.
  - by eapply sorted_NoDup.
  - apply NoDup_app. split_and!; [by eapply NoDup_fmap_1| |by apply NoDup_filter, (sorted_NoDup key)].
    intros r Hin [Hk _]%list_elem_of_filter. rewrite elem_of_app in Hk. apply Hk. left. by apply list_elem_of_fmap_2.
  - intros r. rewrite Hr, elem_of_app, list_elem_of_filter, elem_of_app. tauto.
Qed.
End removed.

(** ** Evidence count deltas *)
Definition delta_of (deltas : gmap string EvidenceCountDelta) (c : string) : EvidenceCountDelta :=
  default (mkDelta 0 0) (deltas !! c).
Definition deltas_are (deltas : gmap string EvidenceCountDelta) (removed added : list ZoneEvidenceReference) : Prop :=
  ∀ c, delta_of deltas c = mkDelta (ev_count c removed) (ev_count c added).

Lemma delta_of_insert deltas c d c' :
  delta_of (<[c := d]> deltas) c' = if decide (c = c') then d else delta_of deltas c'.
Proof.
  unfold delta_of. case_decide as E; [by rewrite E, lookup_insert_eq|by rewrite lookup_insert_ne].
Qed.

Lemma removal_step deltas removed added r deltas' :
  deltas_are deltas removed added → record_evidence_removal (ev_channel_id r) deltas = ROk deltas' →
  deltas_are deltas' (removed ++ [r]) added.
Proof.
  intros Hd (n & (-> & _)%ok_or_else_ROk%checked_add_Some & [= <-])%rbind_ROk c.
  change (default (mkDelta 0 0) (deltas !! ev_channel_id r)) with (delta_of deltas (ev_channel_id r)).
  rewrite delta_of_insert, ev_count_app, ev_count_cons.
  case_decide as E; rewrite Hd; simpl; [rewrite E|]; f_equal; unfold ev_count, zlen; simpl; lia.
Qed.

Lemma addition_step deltas removed added r deltas' :
  deltas_are deltas removed added → record_evidence_addition (ev_channel_id r) deltas = ROk deltas' →
  deltas_are deltas' removed (added ++ [r]).
Proof.
  intros Hd (n & (-> & _)%ok_or_else_ROk%checked_add_Some & [= <-])%rbind_ROk c.
  change (default (mkDelta 0 0) (deltas !! ev_channel_id r)) with (delta_of deltas (ev_channel_id r)).
  rewrite delta_of_insert, ev_count_app, ev_count_cons.
  case_decide as E; rewrite Hd; simpl; [rewrite E|]; f_equal; unfold ev_count, zlen; simpl; lia.
Qed.

Section deltas.
Context (previous : CatalogSnapshot) (Hsorted : sorted_by ev_evidence_id (sn_evidence previous)).
Let removals (ids : list string) : list ZoneEvidenceReference := omap (evidence_in previous) ids.

Lemma remove_previous_step id deltas removed added deltas' :
  deltas_are deltas removed added → remove_previous previous id deltas = ROk deltas' →
  deltas_are deltas' (removed ++ removals [id]) added.
Proof using Hsorted.
  unfold remove_previous, find_evidence, removals. rewrite search_by_find by done. simpl. unfold evidence_in.
  intros Hd. destruct (find_by _ id _); [by apply removal_step|intros [= <-]; by rewrite app_nil_r].
Qed.

Lemma remove_previous_fold ids : ∀ deltas removed added deltas',
  deltas_are deltas removed added → fold_res (remove_previous previous) ids deltas = ROk deltas' →
  deltas_are deltas' (removed ++ removals ids) added.
Proof using Hsorted.
  induction ids as [|id ids IH]; intros deltas removed added deltas' Hd; simpl.
  { intros [= <-]. by rewrite app_nil_r. }
  intros (d & Hstep & Hrest)%rbind_ROk. apply (remove_previous_step _ _ _ _ _ Hd) in Hstep.
  apply (IH _ _ _ _ Hstep) in Hrest. rewrite <- app_assoc in Hrest. unfold removals in *.
  by rewrite <- omap_app in Hrest.
Qed.

Lemma upsert_deltas_fold upserts : ∀ deltas removed added deltas',
  deltas_are deltas removed added →
  fold_res (λ reference deltas, deltas ← remove_previous previous (ev_evidence_id reference) deltas;
              record_evidence_addition (ev_channel_id reference) deltas) upserts deltas = ROk deltas' →
  deltas_are deltas' (removed ++ removals (ev_evidence_id <$> upserts)) (added ++ upserts).
Proof using Hsorted.
  induction upserts as [|u upserts IH]; intros deltas removed added deltas' Hd; simpl.
  { intros [= <-]. by rewrite !app_nil_r. }
  intros (d2 & (d1 & H1 & H2)%rbind_ROk & Hrest)%rbind_ROk.
  apply (remove_previous_step _ _ _ _ _ Hd) in H1. apply (addition_step _ _ _ _ _ H1) in H2.
  apply (IH _ _ _ _ H2) in Hrest. rewrite <- !app_assoc in Hrest. unfold removals in *.
  by rewrite <- omap_app in Hrest.
Qed.

Lemma evidence_count_deltas_spec batch deltas :
  evidence_count_deltas previous batch = ROk deltas →
  deltas_are deltas (removals ((ev_evidence_id <$> cb_upsert_evidence batch) ++ cb_delete_evidence_ids batch))
    (cb_upsert_evidence batch).
Proof using Hsorted.
  intros (d & H1 & H2)%rbind_ROk. apply (upsert_deltas_fold _ _ [] []) in H1; [|done].
  apply (remove_previous_fold _ _ _ _ _ H1) in H2. unfold removals in *. by rewrite omap_app.
Qed.
End deltas.

(** Deltas do not overflow while the counts they stand for do not. *)
Section deltas_total.
Context (previous : CatalogSnapshot) (Hsorted : sorted_by ev_evidence_id (sn_evidence previous)).
Let removals (ids : list string) : list ZoneEvidenceReference := omap (evidence_in previous) ids.

Lemma remove_previous_total id deltas removed added :
  deltas_are deltas removed added → (∀ c, ev_count c (removed ++ removals [id]) ≤ u64_max) →
  ∃ deltas', remove_previous previous id deltas = ROk deltas'.
Proof using Hsorted.
  unfold remove_previous, find_evidence, removals. rewrite search_by_find by done. simpl. unfold evidence_in.
  intros Hd Hmax. destruct (find_by _ id _) as [r|]; [|by eexists].
  unfold record_evidence_removal. change (default _ _) with (delta_of deltas (ev_channel_id r)). rewrite Hd. simpl.
  specialize (Hmax (ev_channel_id r)). rewrite ev_count_app, ev_count_cons, decide_True in Hmax by done.
  unfold checked_add. destruct (Z.leb_spec (ev_count (ev_channel_id r) removed + 1) u64_max); [by eexists|].
  pose proof (ev_count_nonneg (ev_channel_id r) []). lia.
Qed.

Lemma addition_total r deltas removed added :
  deltas_are deltas removed added → (∀ c, ev_count c (added ++ [r]) ≤ u64_max) →
  ∃ deltas', record_evidence_addition (ev_channel_id r) deltas = ROk deltas'.
Proof.
  intros Hd Hmax. unfold record_evidence_addition. change (default _ _) with (delta_of deltas (ev_channel_id r)).
  rewrite Hd. simpl. specialize (Hmax (ev_channel_id r)). rewrite ev_count_app, ev_count_cons, decide_True in Hmax by done.
  unfold checked_add. destruct (Z.leb_spec (ev_count (ev_channel_id r) added + 1) u64_max); [by eexists|].
  pose proof (ev_count_nonneg (ev_channel_id r) []). lia.
Qed.

Lemma ev_count_prefix c l1 l2 : ev_count c l1 ≤ ev_count c (l1 ++ l2).
Proof. rewrite ev_count_app. pose proof (ev_count_nonneg c l2). lia. Qed.

Lemma removals_cons removed id ids : removed ++ removals (id :: ids) = (removed ++ removals [id]) ++ removals ids.
Proof. rewrite <- app_assoc. unfold removals. by rewrite <- omap_app. Qed.

Lemma remove_previous_fold_total ids : ∀ deltas removed added,
  deltas_are deltas removed added → (∀ c, ev_count c (removed ++ removals ids) ≤ u64_max) →
  ∃ deltas', fold_res (remove_previous previous) ids deltas = ROk deltas'.
Proof using Hsorted.
  induction ids as [|id ids IH]; intros deltas removed added Hd Hmax; simpl; [by eexists|].
  setoid_rewrite removals_cons in Hmax.
  destruct (remove_previous_total id deltas removed added Hd) as [d Hstep].
  { intros c. etrans; [apply ev_count_prefix|apply Hmax]. }
  rewrite Hstep. simpl. by eapply IH; [by eapply remove_previous_step|].
Qed.

Lemma upsert_deltas_fold_total upserts : ∀ deltas removed added,
  deltas_are deltas removed added →
  (∀ c, ev_count c (removed ++ removals (ev_evidence_id <$> upserts)) ≤ u64_max) →
  (∀ c, ev_count c (added ++ upserts) ≤ u64_max) →
  ∃ deltas', fold_res (λ reference deltas, deltas ← remove_previous previous (ev_evidence_id reference) deltas;
              record_evidence_addition (ev_channel_id reference) deltas) upserts deltas = ROk deltas'.
Proof using Hsorted.
  induction upserts as [|u upserts IH]; intros deltas removed added Hd Hr Ha; [by eexists|].
  rewrite fmap_cons in Hr. setoid_rewrite removals_cons in Hr. setoid_rewrite (cons_middle u) in Ha.
  setoid_rewrite app_assoc in Ha. simpl.
  destruct (remove_previous_total (ev_evidence_id u) deltas removed added Hd) as [d1 H1].
  { intros c. etrans; [apply ev_count_prefix|apply Hr]. }
  pose proof (remove_previous_step _ Hsorted _ _ _ _ _ Hd H1) as Hd1.
  destruct (addition_total u d1 _ _ Hd1) as [d2 H2]; [intros c; etrans; [apply ev_count_prefix|apply Ha]|].
  rewrite H1. simpl. rewrite H2. simpl. eapply IH; [by eapply addition_step|done..].
Qed.

Lemma evidence_count_deltas_total batch :
  (∀ c, ev_count c (removals ((ev_evidence_id <$> cb_upsert_evidence batch) ++ cb_delete_evidence_ids batch)) ≤ u64_max) →
  (∀ c, ev_count c (cb_upsert_evidence batch) ≤ u64_max) →
  ∃ deltas, evidence_count_deltas previous batch = ROk deltas.
Proof using Hsorted.
  intros Hr Ha. unfold removals in Hr. setoid_rewrite omap_app in Hr.
  destruct (upsert_deltas_fold_total (cb_upsert_evidence batch) ∅ [] []) as [d Hd]; [done| |done|].
  { intros c. etrans; [|apply (Hr c)]. apply ev_count_prefix. }
  unfold evidence_count_deltas. rewrite Hd. simpl. eapply remove_previous_fold_total, Hr.
  by eapply (upsert_deltas_fold _ Hsorted _ _ [] []); [|apply Hd].
Qed.
End deltas_total.

(** ** Segments and channels a batch touches *)
Lemma segment_changes previous upserts : ∀ full changed full' changed',
  sorted_by sg_segment_id (sn_segments previous) →
  foldl (segment_change previous) (full, changed) upserts = (full', changed') → full' = false →
  full = false ∧ changed ⊆ changed'
  ∧ ∀ segment old, segment ∈ upserts → segment_in previous (sg_segment_id segment) = Some old →
      is_safe_segment_extension old segment = true
      ∧ (sg_frontier old = sg_frontier segment ∨ sg_segment_id segment ∈ changed').
Proof.
  induction upserts as [|u upserts IH]; intros full changed full' changed' Hs; simpl.
  { intros [= <- <-]. intros ->. split_and!; [done..|]. by intros segment old ?%elem_of_nil. }
  destruct (segment_change previous (full, changed) u) as [full1 changed1] eqn:Estep. intros Hf Hfull.
  destruct (IH _ _ _ _ Hs Hf Hfull) as (H1 & H2 & H3). unfold segment_change, find_segment in Estep.
  rewrite search_by_find in Estep by done. fold (segment_in previous (sg_segment_id u)) in Estep. simpl in Estep.
  assert (Hu : full = false ∧ changed ⊆ changed1 ∧ ∀ old, segment_in previous (sg_segment_id u) = Some old →
    is_safe_segment_extension old u = true ∧ (sg_frontier old = sg_frontier u ∨ sg_segment_id u ∈ changed1)).
  { destruct (segment_in previous (sg_segment_id u)) as [old|]; [|by simplify_eq].
    destruct (is_safe_segment_extension old u) eqn:Esafe; simpl in Estep; [|by simplify_eq].
    case_bool_decide as Efr; simpl in Estep; simplify_eq; split_and!; try done; [|set_solver|];
      intros old' [= <-]; split; auto. right. set_solver. }
  destruct Hu as (Hu1 & Hu2 & Hu3). split_and!; [done|set_solver|].
  intros segment old [->|Hin]%elem_of_cons Hold; [|by apply H3]. destruct (Hu3 old Hold) as [? [?|?]]; split; set_solver.
Qed.

Lemma previous_counts_spec previous channels : ∀ (counts : gmap string Z) c,
  foldl (λ counts channel_id,
    match counts !! channel_id with
    | Some _ => counts
    | None => <[channel_id := default 0 (zr_evidence_count <$> find_zone (sn_zones previous) channel_id)]> counts
    end) counts channels !! c
  = match counts !! c with
    | Some n => Some n
    | None => if decide (c ∈ channels)
              then Some (default 0 (zr_evidence_count <$> find_zone (sn_zones previous) c)) else None
    end.
Proof.
  induction channels as [|k channels IH]; intros counts c; simpl foldl.
  { destruct (counts !! c); [done|]. by rewrite decide_False by apply not_elem_of_nil. }
  rewrite IH. destruct (counts !! k) as [n|] eqn:Ek.
  - destruct (counts !! c) eqn:Ec; [done|]. assert (c ≠ k) by congruence.
    by rewrite (decide_ext (c ∈ k :: channels) (c ∈ channels)) by (rewrite elem_of_cons; tauto).
  - destruct (decide (k = c)) as [->|Hne].
    + rewrite lookup_insert_eq, Ek, decide_True by (by left). done.
    + rewrite lookup_insert_ne by done. destruct (counts !! c); [done|].
      by rewrite (decide_ext (c ∈ k :: channels) (c ∈ channels)) by (rewrite elem_of_cons; naive_solver).
Qed.

(** ** One commit *)
Section commit.
Context (previous next : CatalogSnapshot) (batch : CatalogBatch) (validation : IncrementalValidation).
Context (Hsp : sorted_snapshot previous) (Hvp : valid_snapshot previous) (Hbk : batch_keys_ok batch).

Definition applied {T} (key : T → string) (records upserts : list T) (deletes : list string) (records' : list T)
    : Prop :=
  sorted_by key records'
  ∧ ∀ r, r ∈ records' ↔ r ∈ upserts ∨ r ∈ records ∧ (key r ∉ deletes) ∧ key r ∉ (key <$> upserts).

Context (Hzones : applied zr_channel_id (sn_zones previous) (cb_upsert_zones batch) (cb_delete_zone_ids batch)
                    (sn_zones next)).
Context (Hevidence : applied ev_evidence_id (sn_evidence previous) (cb_upsert_evidence batch)
                       (cb_delete_evidence_ids batch) (sn_evidence next)).
Context (Hsegments : applied sg_segment_id (sn_segments previous) (cb_upsert_segments batch)
                       (cb_delete_segment_ids batch) (sn_segments next)).
Context (Hgaps : applied gp_gap_id (sn_gaps previous) (cb_upsert_gaps batch) (cb_delete_gap_ids batch) (sn_gaps next)).
Context (Hprep : prepare_incremental_validation previous batch = ROk validation).
Context (Hfull : iv_requires_full_snapshot_validation validation = false).
Let changed := iv_changed_segment_ids validation.
Let deltas := iv_evidence_deltas validation.

Lemma prepared_parts :
  foldl (segment_change previous) (negb (bool_decide (cb_delete_segment_ids batch = [])), ∅) (cb_upsert_segments batch)
    = (false, changed)
  ∧ evidence_count_deltas previous batch = ROk deltas
  ∧ ∀ c, iv_previous_zone_counts validation !! c =
      if decide (is_Some (deltas !! c) ∨ c ∈ map zr_channel_id (cb_upsert_zones batch) ∨ c ∈ cb_delete_zone_ids batch)
      then Some (default 0 (zr_evidence_count <$> find_zone (sn_zones previous) c)) else None.
Proof using All.
  unfold prepare_incremental_validation in Hprep. destruct (foldl _ _ _) as [full ch] eqn:Ef.
  apply rbind_ROk in Hprep as (d & Hd & [= <-]). simpl in *. subst full changed deltas. split_and!; [done..|].
  intros c. rewrite previous_counts_spec, lookup_empty. apply decide_ext. rewrite !elem_of_app, list_elem_of_fmap.
  split; (intros [Hl|Hr]; [left|by right]).
  - destruct Hl as ([k e] & -> & He%elem_of_entries). by exists e.
  - destruct Hl as [e He]. exists (c, e). by rewrite elem_of_entries.
Qed.

(** Kept segments keep their floor and do not move back. *)
Lemma segment_kept id old :
  segment_in previous id = Some old →
  ∃ new, segment_in next id = Some new ∧ sg_floor new = sg_floor old
    ∧ br_slot (sg_frontier old) ≤ br_slot (sg_frontier new) ∧ (sg_frontier new = sg_frontier old ∨ id ∈ changed).
Proof using All.
  intros Hold. destruct prepared_parts as (Hf & _ & _). destruct Hsegments as [Hsn Hin].
  destruct (segment_changes _ _ _ _ _ _ (ss_segments _ Hsp) Hf eq_refl) as (Hd & _ & Hup).
  apply negb_false_iff, bool_decide_eq_true in Hd.
  pose proof Hold as [Hold' <-]%find_by_Some; [|by apply Hsp].
  destruct (decide (sg_segment_id old ∈ sg_segment_id <$> cb_upsert_segments batch)) as [Hk|Hk].
  - apply list_elem_of_fmap in Hk as (new & E & Hnew). exists new.
    assert (segment_in next (sg_segment_id old) = Some new) as ->.
    { apply find_by_Some; [done|]. split; [apply Hin; by left|done]. }
    rewrite E in Hold |- *. destruct (Hup new old Hnew Hold) as [Hsafe Hch]. split; [done|].
    unfold is_safe_segment_extension in Hsafe.
    apply andb_true_iff in Hsafe as [H1%bool_decide_eq_true H2]. apply orb_true_iff in H2.
    rewrite bool_decide_eq_true, Z.ltb_lt in H2. split; [done|]. split; [destruct H2 as [->|]; lia|]. naive_solver.
  - exists old. assert (segment_in next (sg_segment_id old) = Some old) as ->; [|naive_solver lia].
    apply find_by_Some; [done|]. split; [|done]. apply Hin. right. rewrite Hd. set_solver.
Qed.

Lemma check_evidence_kept r : check_evidence (segment_in previous) r = ROk () → check_evidence (segment_in next) r = ROk ().
Proof using All.
  unfold check_evidence. rewrite !rseq_ROk. intros [Hv Hc]. split; [done|].
  destruct (segment_in previous _) as [old|] eqn:Eold; [|done].
  destruct (segment_kept _ _ Eold) as (new & -> & Efl & Hfr & _). rewrite Efl.
  destruct (Z.ltb_spec (ev_l1_slot r) (cp_slot (sg_floor old))); [done|].
  destruct (Z.ltb_spec (br_slot (sg_frontier old)) (ev_l1_slot r)); [done|].
  destruct (Z.ltb_spec (br_slot (sg_frontier new)) (ev_l1_slot r)); [lia|done].
Qed.

Lemma check_gap_kept gap :
  gp_lower_segment_id gap ∉ changed →
  check_gap (segment_in previous) gap = ROk () → check_gap (segment_in next) gap = ROk ().
Proof using All.
  unfold check_gap. intros Hch. rewrite !rseq_ROk. intros [Hv Hc]. split; [done|].
  destruct (segment_in previous (gp_lower_segment_id gap)) as [lower|] eqn:El; [|done].
  destruct (segment_in previous (gp_upper_segment_id gap)) as [upper|] eqn:Eu; [|done].
  destruct (segment_kept _ _ El) as (lower' & -> & _ & _ & [Efr|]); [|done].
  destruct (segment_kept _ _ Eu) as (upper' & -> & Efl & _). by rewrite Efr, Efl.
Qed.

Lemma check_zone_kept zone :
  (∀ e, evidence_in previous (zr_latest_evidence_id zone) = Some e → ev_channel_id e = zr_channel_id zone →
        evidence_in next (zr_latest_evidence_id zone) = Some e) →
  check_zone (segment_in previous) (evidence_in previous) zone = ROk () →
  check_zone (segment_in next) (evidence_in next) zone = ROk ().
Proof using All.
  unfold check_zone. intros He. rewrite !rseq_ROk. intros [Hv Hc]. split; [done|].
  destruct (segment_in previous _) as [old|] eqn:Eold; [|done].
  destruct (segment_kept _ _ Eold) as (new & -> & Efl & Hfr & _). rewrite Efl.
  destruct (Z.ltb_spec (sp_observed_slot (zr_snapshot_provenance zone)) (cp_slot (sg_floor old))); [done|].
  destruct (Z.ltb_spec (br_slot (sg_frontier old)) (sp_observed_slot (zr_snapshot_provenance zone))); [done|].
  destruct (Z.ltb_spec (br_slot (sg_frontier new)) (sp_observed_slot (zr_snapshot_provenance zone))); [lia|].
  simpl in *. destruct (evidence_in previous _) as [e|]; [|done].
  destruct (String.eqb_spec (ev_channel_id e) (zr_channel_id zone)) as [E|]; [|done].
  rewrite (He e eq_refl E). by rewrite E, String.eqb_refl.
Qed.

(** Counts change by the recorded deltas. *)
Let touched_ids := (ev_evidence_id <$> cb_upsert_evidence batch) ++ cb_delete_evidence_ids batch.

Lemma delta_counts c :
  delta_of deltas c = mkDelta (ev_count c (omap (evidence_in previous) touched_ids)) (ev_count c (cb_upsert_evidence batch)).
Proof using All.
  destruct prepared_parts as (_ & Hd & _). by apply evidence_count_deltas_spec in Hd; [|apply Hsp].
Qed.

Lemma next_count c :
  ev_count c (sn_evidence next)
  = ev_count c (sn_evidence previous) - ed_removed (delta_of deltas c) + ed_added (delta_of deltas c).
Proof using All.
  destruct Hevidence as [Hs Hin]. pose proof (ko_keys _ _ _ _ (bk_evidence _ Hbk)) as Hn.
  rewrite (ev_count_perm c _ _ (applied_perm _ _ _ _ _ (ss_evidence _ Hsp) Hn Hs Hin)), ev_count_app.
  rewrite (ev_count_perm c _ _ (kept_and_removed _ _ _ (ss_evidence _ Hsp) Hn)), ev_count_app, delta_counts.
  unfold evidence_in, touched_ids. simpl. lia.
Qed.

Lemma previous_count c :
  default 0 (zr_evidence_count <$> find_zone (sn_zones previous) c) = ev_count c (sn_evidence previous).
Proof using All.
  unfold find_zone. rewrite search_by_find by apply Hsp.
  destruct (find_by zr_channel_id c (sn_zones previous)) as [zone|] eqn:E; simpl.
  - apply find_by_Some in E as [Hin <-]; [|apply Hsp]. by apply Hvp.
  - rewrite find_by_None in E. destruct (decide (0 < ev_count c (sn_evidence previous))) as [Hp|Hp].
    + apply ev_count_pos in Hp as (r & Hr & <-). destruct (vs_owned _ Hvp r Hr) as (z & Hz & Ez). by destruct (E z Hz).
    + pose proof (ev_count_nonneg c (sn_evidence previous)). lia.
Qed.

Lemma untouched_count c : deltas !! c = None → ev_count c (sn_evidence next) = ev_count c (sn_evidence previous).
Proof using All. intros E. rewrite next_count. unfold delta_of. rewrite E. simpl. lia. Qed.

Lemma untouched_evidence e :
  e ∈ sn_evidence previous → deltas !! ev_channel_id e = None → evidence_in next (ev_evidence_id e) = Some e.
Proof using All.
  intros Hin E. destruct Hevidence as [Hs Hnext]. apply find_by_Some; [done|]. split; [|done]. apply Hnext. right.
  split; [done|]. assert (Hk : ev_evidence_id e ∉ touched_ids); [|unfold touched_ids in Hk; set_solver].
  intros Hk. pose proof (delta_counts (ev_channel_id e)) as Hd. unfold delta_of in Hd. rewrite E in Hd.
  injection Hd as Hr _. assert (Hp : 0 < ev_count (ev_channel_id e) (omap (evidence_in previous) touched_ids)); [|lia].
  apply ev_count_pos. exists e. split; [|done]. apply omap_find_elem; [apply Hsp|done].
Qed.

Lemma removed_le c : ed_removed (delta_of deltas c) ≤ ev_count c (sn_evidence previous).
Proof using All.
  pose proof (ko_keys _ _ _ _ (bk_evidence _ Hbk)) as Hn.
  rewrite (ev_count_perm c _ _ (kept_and_removed _ _ _ (ss_evidence _ Hsp) Hn)), ev_count_app, delta_counts.
  fold touched_ids. unfold evidence_in. simpl.
  pose proof (ev_count_nonneg c (filter (λ r, ev_evidence_id r ∉ touched_ids) (sn_evidence previous))). lia.
Qed.

Lemma expected_count c n :
  iv_previous_zone_counts validation !! c = Some n → ev_count c (sn_evidence next) ≤ u64_max →
  match deltas !! c with Some delta => apply_evidence_delta n delta | None => ROk n end
  = ROk (ev_count c (sn_evidence next)).
Proof using All.
  destruct prepared_parts as (_ & _ & Hcounts). rewrite Hcounts. case_decide; [|done]. intros [= <-].
  rewrite previous_count, next_count. pose proof (removed_le c) as Hle. unfold delta_of in *.
  destruct (deltas !! c) as [d|]; simpl in *; intros Hmax; [|f_equal; lia].
  unfold apply_evidence_delta, checked_sub, checked_add.
  destruct (Z.leb_spec (ed_removed d) (ev_count c (sn_evidence previous))); [simpl|lia].
  destruct (Z.leb_spec (ev_count c (sn_evidence previous) - ed_removed d + ed_added d) u64_max); [done|lia].
Qed.

(** A snapshot that full validation accepts passes the incremental checks. *)
Lemma valid_passes : valid_snapshot next → validate_incremental_snapshot next batch validation = ROk ().
Proof using All.
  intros Hv. assert (Eseg : ∀ id, find_segment (sn_segments next) id = segment_in next id).
  { intros id. apply search_by_find, Hsegments. }
  unfold validate_incremental_snapshot. rewrite Hfull. rewrite !rseq_ROk, !each_ROk. split_and!.
  - apply Hv.
  - intros r Hr. unfold validate_evidence_relationship. rewrite (check_ext_evidence _ _ _ Eseg).
    apply Hv, (proj2 Hevidence). by left.
  - intros gap Hg. unfold validate_gap_relationship. rewrite (check_ext_gap _ _ _ Eseg).
    apply Hv, (proj2 Hgaps). by left.
  - intros gap Hg. case_bool_decide; [|done]. unfold validate_gap_relationship. rewrite (check_ext_gap _ _ _ Eseg).
    by apply Hv.
  - intros [c n] Hc%elem_of_entries. unfold check_channel. fold deltas. rewrite (expected_count c n Hc) by apply Hv.
    simpl. unfold find_zone. rewrite search_by_find by apply Hzones.
    destruct (find_by zr_channel_id c (sn_zones next)) as [zone|] eqn:E.
    + apply find_by_Some in E as [Hz <-]; [|apply Hzones]. rewrite (vs_counts _ Hv) by done.
      rewrite Z.eqb_refl. simpl. unfold validate_zone_relationship.
      erewrite check_ext_zone; [by apply Hv| |]; intros id; apply search_by_find; [apply Hsegments|apply Hevidence].
    + rewrite find_by_None in E. destruct (Z.eqb_spec (ev_count c (sn_evidence next)) 0) as [|Hne]; [done|].
      destruct (proj1 (ev_count_pos c (sn_evidence next))) as (r & Hr & <-).
      { pose proof (ev_count_nonneg c (sn_evidence next)). lia. }
      destruct (vs_owned _ Hv r Hr) as (z & Hz & Ez). by destruct (E z Hz).
Qed.

(** ** What the accepted checks give *)
Context (Hchecks : validate_incremental_snapshot next batch validation = ROk ()).

Lemma passed_checks :
  validate_head next = ROk ()
  ∧ (∀ r, r ∈ cb_upsert_evidence batch → check_evidence (segment_in next) r = ROk ())
  ∧ (∀ gap, gap ∈ cb_upsert_gaps batch → check_gap (segment_in next) gap = ROk ())
  ∧ (∀ gap, gap ∈ sn_gaps next → gp_lower_segment_id gap ∈ changed → check_gap (segment_in next) gap = ROk ())
  ∧ (∀ c n, iv_previous_zone_counts validation !! c = Some n → check_channel next deltas (c, n) = ROk ()).
Proof using All.
  unfold validate_incremental_snapshot in Hchecks. rewrite Hfull in Hchecks.
  apply rseq_ROk in Hchecks as (H1 & (H2 & (H3 & (H4 & H5)%rseq_ROk)%rseq_ROk)%rseq_ROk).
  rewrite each_ROk in H2; rewrite each_ROk in H3; rewrite each_ROk in H4; rewrite each_ROk in H5.
  assert (Eseg : ∀ id, find_segment (sn_segments next) id = segment_in next id).
  { intros id. apply search_by_find, Hsegments. }
  split_and!; [done| | | |].
  - intros r Hr. rewrite <- (check_ext_evidence _ _ _ Eseg). by apply H2.
  - intros gap Hg. rewrite <- (check_ext_gap _ _ _ Eseg). by apply H3.
  - intros gap Hg Hc. rewrite <- (check_ext_gap _ _ _ Eseg). specialize (H4 gap Hg). simpl in H4.
    by rewrite bool_decide_eq_true_2 in H4.
  - intros c n Hc. apply H5. by apply elem_of_entries.
Qed.

Lemma checked_channel c :
  is_Some (iv_previous_zone_counts validation !! c) →
  ev_count c (sn_evidence next) ≤ u64_max
  ∧ match find_by zr_channel_id c (sn_zones next) with
    | Some zone => zr_evidence_count zone = ev_count c (sn_evidence next)
        ∧ check_zone (segment_in next) (evidence_in next) zone = ROk ()
    | None => ev_count c (sn_evidence next) = 0
    end.
Proof using All.
  intros [n Hn]. destruct passed_checks as (_ & _ & _ & _ & Hc). specialize (Hc c n Hn).
  destruct prepared_parts as (_ & _ & Hcounts). rewrite Hcounts in Hn. case_decide; [|done]. injection Hn as Hn.
  rewrite previous_count in Hn. apply rbind_ROk in Hc as (expected & Hexp & Hc).
  assert (expected = ev_count c (sn_evidence next) ∧ expected ≤ u64_max) as [-> Hmax].
  { rewrite next_count. unfold delta_of. destruct (deltas !! c) as [d|].
    - apply rbind_ROk in Hexp as (k & [-> ?]%ok_or_else_ROk%checked_sub_Some & [-> ?]%ok_or_else_ROk%checked_add_Some).
      simpl. lia.
    - injection Hexp as <-. simpl. pose proof (vs_bounded _ Hvp c). lia. }
  split; [done|]. unfold find_zone in Hc. rewrite search_by_find in Hc by apply Hzones.
  destruct (find_by zr_channel_id c (sn_zones next)) as [zone|].
  - destruct (Z.eqb_spec (zr_evidence_count zone) (ev_count c (sn_evidence next))); [|done]. split; [done|].
    simpl in Hc. erewrite check_ext_zone; [exact Hc| |]; intros id; symmetry; apply search_by_find;
      [apply Hsegments|apply Hevidence].
  - destruct (Z.eqb_spec (ev_count c (sn_evidence next)) 0); done.
Qed.

(** A channel no check looked at is as it was. *)
Lemma unchecked_channel c :
  iv_previous_zone_counts validation !! c = None →
  deltas !! c = None ∧ find_by zr_channel_id c (sn_zones next) = find_by zr_channel_id c (sn_zones previous).
Proof using All.
  destruct prepared_parts as (_ & _ & Hcounts). rewrite Hcounts. case_decide as Hd; [done|]. intros _.
  split; [destruct (deltas !! c); naive_solver|]. destruct Hzones as [Hs Hin].
  destruct (find_by zr_channel_id c (sn_zones previous)) as [zone|] eqn:E.
  - apply find_by_Some in E as [Hz <-]; [|apply Hsp]. apply find_by_Some; [done|]. split; [|done]. apply Hin. tauto.
  - rewrite find_by_None in E |- *. intros zone [Hu|[Hz _]]%Hin Ez; [|by apply (E zone)].
    apply Hd. right. left. rewrite <- Ez. by apply list_elem_of_fmap_2.
Qed.

Lemma next_zone zone :
  zone ∈ sn_zones next →
  zr_evidence_count zone = ev_count (zr_channel_id zone) (sn_evidence next)
  ∧ check_zone (segment_in next) (evidence_in next) zone = ROk ().
Proof using All.
  intros Hz. assert (Hf : find_by zr_channel_id (zr_channel_id zone) (sn_zones next) = Some zone).
  { apply find_by_Some; [apply Hzones|done]. }
  destruct (iv_previous_zone_counts validation !! zr_channel_id zone) as [n|] eqn:E.
  { destruct (checked_channel (zr_channel_id zone)) as [_ Hc]; [by eexists|]. by rewrite Hf in Hc. }
  destruct (unchecked_channel _ E) as [Hd Hp]. rewrite Hf in Hp. symmetry in Hp.
  apply find_by_Some in Hp as [Hp _]; [|apply Hsp]. rewrite (untouched_count _ Hd). split; [by apply Hvp|].
  apply check_zone_kept; [|by apply Hvp]. intros e [He Ee]%find_by_Some Ec; [|apply Hsp]. rewrite <- Ee.
  apply untouched_evidence; [done|]. by rewrite Ec.
Qed.

Lemma next_owned r :
  r ∈ sn_evidence next → ∃ zone, zone ∈ sn_zones next ∧ zr_channel_id zone = ev_channel_id r.
Proof using All.
  intros Hr. assert (Hp : 0 < ev_count (ev_channel_id r) (sn_evidence next)) by (apply ev_count_pos; by exists r).
  assert (Hf : is_Some (find_by zr_channel_id (ev_channel_id r) (sn_zones next))).
  { destruct (iv_previous_zone_counts validation !! ev_channel_id r) as [n|] eqn:E.
    - destruct (checked_channel (ev_channel_id r)) as [_ Hc]; [by eexists|]. case_match; [by eexists|lia].
    - destruct (unchecked_channel _ E) as [Hd ->]. rewrite (untouched_count _ Hd) in Hp.
      apply ev_count_pos in Hp as (r' & Hr' & <-). destruct (vs_owned _ Hvp r' Hr') as (z & Hz & Ez). exists z.
      apply find_by_Some; [apply Hsp|done]. }
  destruct Hf as [zone [Hz E]%find_by_Some]; [by exists zone|apply Hzones].
Qed.

Lemma committed_valid : valid_snapshot next.
Proof using All.
  destruct passed_checks as (H1 & H2 & H3 & H4 & H5). constructor.
  - done.
  - intros segment [Hu|[Hs _]]%(proj2 Hsegments); [by apply (ko_valid _ _ _ _ (bk_segments _ Hbk))|by apply Hvp].
  - intros r [Hu|[Hr _]]%(proj2 Hevidence); [by apply H2|]. by apply check_evidence_kept, Hvp.
  - intros zone Hz. by apply next_zone.
  - intros zone Hz. by apply next_zone.
  - apply next_owned.
  - intros c. destruct (iv_previous_zone_counts validation !! c) as [n|] eqn:E.
    + by apply checked_channel.
    + destruct (unchecked_channel _ E) as [Hd _]. rewrite (untouched_count _ Hd). apply Hvp.
  - intros gap Hg. destruct (decide (gp_lower_segment_id gap ∈ changed)) as [|Hc]; [by apply H4|].
    apply Hgaps in Hg as [Hu|[Hg _]]; [by apply H3|]. by apply check_gap_kept, Hvp.
Qed.
End commit.

(** ** The two ways to apply a batch *)
(** The reference: the batch applied and the whole result validated. *)
Definition apply_batch_validating_in_full (snapshot : CatalogSnapshot) (metadata : CatalogMetadata)
    (batch : CatalogBatch) : CatalogResult CatalogSnapshot :=
  ensure (md_catalog_revision (sn_metadata snapshot) =? cb_expected_catalog_revision batch)
    (RevisionConflict (cb_expected_catalog_revision batch) (md_catalog_revision (sn_metadata snapshot))) ;;
  zones ← apply_snapshot_records zr_channel_id (sn_zones snapshot) (cb_upsert_zones batch) (cb_delete_zone_ids batch);
  evidence ← apply_snapshot_records ev_evidence_id (sn_evidence snapshot) (cb_upsert_evidence batch)
               (cb_delete_evidence_ids batch);
  segments ← apply_snapshot_records sg_segment_id (sn_segments snapshot) (cb_upsert_segments batch)
               (cb_delete_segment_ids batch);
  gaps ← apply_snapshot_records gp_gap_id (sn_gaps snapshot) (cb_upsert_gaps batch) (cb_delete_gap_ids batch);
  let next := mkSnapshot metadata (cb_frontier batch) (cb_traversal batch) zones evidence segments gaps in
  validate_snapshot next ;;
  ROk next.

Section apply_batch.
Context (previous : CatalogSnapshot) (metadata : CatalogMetadata) (batch : CatalogBatch).
Context (Hsp : sorted_snapshot previous) (Hvp : valid_snapshot previous) (Hbk : batch_keys_ok batch).

(** The records of the next snapshot. *)
Definition next_snapshot_is (next : CatalogSnapshot) : Prop :=
  apply_snapshot_records zr_channel_id (sn_zones previous) (cb_upsert_zones batch) (cb_delete_zone_ids batch)
    = ROk (sn_zones next)
  ∧ apply_snapshot_records ev_evidence_id (sn_evidence previous) (cb_upsert_evidence batch)
      (cb_delete_evidence_ids batch) = ROk (sn_evidence next)
  ∧ apply_snapshot_records sg_segment_id (sn_segments previous) (cb_upsert_segments batch)
      (cb_delete_segment_ids batch) = ROk (sn_segments next)
  ∧ apply_snapshot_records gp_gap_id (sn_gaps previous) (cb_upsert_gaps batch) (cb_delete_gap_ids batch)
    = ROk (sn_gaps next)
  ∧ sn_metadata next = metadata ∧ sn_frontier next = cb_frontier batch ∧ sn_traversal next = cb_traversal batch.

Lemma applied_of {T} (key : T → string) validate records upserts deletes records' :
  sorted_by key records → keys_ok key validate upserts deletes →
  apply_snapshot_records key records upserts deletes = ROk records' → applied key records upserts deletes records'.
Proof.
  intros Hs [_ Hn _]. destruct (apply_snapshot_records_spec key records upserts deletes Hs Hn) as (r & -> & H1 & H2).
  intros [= <-]. by split.
Qed.

Lemma next_sorted next : next_snapshot_is next → sorted_snapshot next.
Proof using Hsp Hbk.
  intros (Hz & He & Hs & Hg & _). destruct Hsp, Hbk. split; eapply applied_of; eauto.
Qed.

Lemma incremental_iff_full next validation :
  next_snapshot_is next → prepare_incremental_validation previous batch = ROk validation →
  validate_incremental_snapshot next batch validation = ROk () ↔ validate_snapshot next = ROk ().
Proof using Hsp Hvp Hbk.
  intros Hnext Hprep. pose proof (next_sorted next Hnext) as Hsn. destruct Hnext as (Hz & He & Hs & Hg & _).
  destruct (iv_requires_full_snapshot_validation validation) eqn:Hfull.
  { unfold validate_incremental_snapshot. by rewrite Hfull. }
  rewrite validate_snapshot_spec by done. destruct Hsp, Hbk.
  split; [apply (committed_valid previous next batch validation)|apply (valid_passes previous next batch validation)];
    try done; by eapply applied_of.
Qed.

(** Preparing succeeds when the result is valid. *)
Lemma prepare_total next :
  next_snapshot_is next → validate_snapshot next = ROk () →
  ∃ validation, prepare_incremental_validation previous batch = ROk validation.
Proof using Hsp Hvp Hbk.
  intros Hnext. rewrite validate_snapshot_spec by (by apply next_sorted). intros Hv.
  destruct Hnext as (_ & He & _). apply (applied_of _ validate_evidence) in He as [Hse He]; [|apply Hsp|apply Hbk].
  pose proof (ko_keys _ _ _ _ (bk_evidence _ Hbk)) as Hn.
  destruct (evidence_count_deltas_total previous (ss_evidence _ Hsp) batch) as [d Hd].
  - intros c. etrans; [|apply (vs_bounded _ Hvp c)].
    rewrite (ev_count_perm c _ _ (kept_and_removed _ _ _ (ss_evidence _ Hsp) Hn)), ev_count_app.
    pose proof (ev_count_nonneg c (filter (λ r, ev_evidence_id r ∉ (ev_evidence_id <$> cb_upsert_evidence batch)
      ++ cb_delete_evidence_ids batch) (sn_evidence previous))). unfold evidence_in. lia.
  - intros c. etrans; [|apply (vs_bounded _ Hv c)].
    rewrite (ev_count_perm c _ _ (applied_perm _ _ _ _ _ (ss_evidence _ Hsp) Hn Hse He)). apply ev_count_prefix.
  - unfold prepare_incremental_validation. destruct (foldl _ _ _). rewrite Hd. simpl. by eexists.
Qed.

Lemma apply_batch_ROk next :
  apply_batch_to_snapshot previous metadata batch = ROk next ↔
  md_catalog_revision (sn_metadata previous) = cb_expected_catalog_revision batch
  ∧ next_snapshot_is next ∧ ∃ validation, prepare_incremental_validation previous batch = ROk validation
  ∧ validate_incremental_snapshot next batch validation = ROk ().
Proof.
  unfold apply_batch_to_snapshot, next_snapshot_is. rewrite rseq_ROk, ensure_ROk, Z.eqb_eq. split.
  - intros (Hrev & (v & Hv & (zs & Hz & (es & He & (ss & Hs & (gs & Hg & (Hi & [= <-])%rseq_ROk)%rbind_ROk)%rbind_ROk)
      %rbind_ROk)%rbind_ROk)%rbind_ROk). split_and!; [done..|]. by exists v.
  - intros (Hrev & (Hz & He & Hs & Hg & <- & Ef & Et) & v & Hv & Hi). split; [done|].
    rewrite Hv, Hz, He, Hs, Hg. simpl. rewrite <- Ef, <- Et. destruct next. simpl in *. by rewrite Hi.
Qed.

Lemma apply_batch_in_full_ROk next :
  apply_batch_validating_in_full previous metadata batch = ROk next ↔
  md_catalog_revision (sn_metadata previous) = cb_expected_catalog_revision batch
  ∧ next_snapshot_is next ∧ validate_snapshot next = ROk ().
Proof.
  unfold apply_batch_validating_in_full, next_snapshot_is. rewrite rseq_ROk, ensure_ROk, Z.eqb_eq. split.
  - intros (Hrev & (zs & Hz & (es & He & (ss & Hs & (gs & Hg & (Hi & [= <-])%rseq_ROk)%rbind_ROk)%rbind_ROk)
      %rbind_ROk)%rbind_ROk). by split_and!.
  - intros (Hrev & (Hz & He & Hs & Hg & <- & Ef & Et) & Hi). split; [done|].
    rewrite Hz, He, Hs, Hg. simpl. rewrite <- Ef, <- Et. destruct next. simpl in *. by rewrite Hi.
Qed.

Lemma apply_batch_equiv next :
  apply_batch_to_snapshot previous metadata batch = ROk next ↔
  apply_batch_validating_in_full previous metadata batch = ROk next.
Proof using Hsp Hvp Hbk.
  rewrite apply_batch_ROk, apply_batch_in_full_ROk. split.
  - intros (Hrev & Hn & v & Hv & Hi). split_and!; [done..|]. by apply (incremental_iff_full next v Hn Hv).
  - intros (Hrev & Hn & Hf). destruct (prepare_total next Hn Hf) as [v Hv]. split_and!; [done..|].
    exists v. split; [done|]. by apply (incremental_iff_full next v Hn Hv).
Qed.
End apply_batch.

(** C35. Incremental validation is full validation: on top of a snapshot that is
    sorted and valid, a validated batch is accepted, and gives a snapshot,
    exactly when applying it and validating the whole result in full does. *)
Theorem incremental_validation_is_full snapshot metadata batch next :
  sorted_snapshot snapshot → validate_snapshot snapshot = ROk () → validate_batch batch = ROk () →
  apply_batch_to_snapshot snapshot metadata batch = ROk next ↔
  apply_batch_validating_in_full snapshot metadata batch = ROk next.
Proof.
  intros Hs Hv Hb%validate_batch_keys. apply apply_batch_equiv; [done|by apply validate_snapshot_spec|done].
Qed.

(** C36. A commit keeps the catalog sorted and valid and takes the next
    revision. *)
Theorem commit_keeps_catalog_valid stored snapshot batch next :
  sorted_snapshot snapshot → validate_snapshot snapshot = ROk () →
  commit_batch_from_snapshot stored snapshot batch = ROk next →
  sorted_snapshot next ∧ validate_snapshot next = ROk ()
  ∧ md_catalog_revision (sn_metadata next) = md_catalog_revision (sn_metadata snapshot) + 1
  ∧ md_updated_at_unix stored ≤ md_updated_at_unix (sn_metadata next).
Proof.
  intros Hs Hv (Hb%validate_batch_keys & (_ & (Hr%ensure_ROk & (Ht%ensure_ROk &
    (rev & [-> _]%ok_or_else_ROk%checked_add_Some & Ha)%rbind_ROk)%rseq_ROk)%rseq_ROk)%rseq_ROk)%rseq_ROk.
  pose proof (proj1 (validate_snapshot_spec snapshot Hs) Hv) as Hv'.
  apply apply_batch_equiv, apply_batch_in_full_ROk in Ha as (Hrev & Hn & Hf); [|done..].
  split_and!; [by eapply next_sorted|done|..]; destruct Hn as (_ & _ & _ & _ & -> & _); simpl; lia.
Qed.
