(* ===== verification/CatalogRepair.v ===== *)
(** * Ancestry repair

    The repair loop walks the parents of a block by id.  It ends within its block
    limit, what it returns is what the reductions accept, and an ancestry the
    source serves is found. *)

From S2P Require Import Prelude Json Bytes SortedRecords CatalogModel ChannelOps CatalogEngine.

Abbreviation block_id_of b := (cp_block_id (bl_checkpoint b)).
Abbreviation block_slot b := (cp_slot (bl_checkpoint b)).

(** ** Chains of blocks *)
Definition links (parent child : CatalogBlockCheckpoint) : Prop :=
  cp_slot parent < cp_slot child ∧ cp_parent_id child = cp_block_id parent.

Definition oldest (blocks : list CatalogL1Block) (upper : CatalogBlockCheckpoint) : CatalogBlockCheckpoint :=
  match blocks with [] => upper | block :: _ => bl_checkpoint block end.

(** [blocks], oldest first, are consecutive ancestors of [upper]. *)
Fixpoint ancestry (blocks : list CatalogL1Block) (upper : CatalogBlockCheckpoint) : Prop :=
  match blocks with
  | [] => True
  | block :: rest => links (bl_checkpoint block) (oldest rest upper) ∧ ancestry rest upper
  end.

Fixpoint linked_from (previous : option CatalogBlockCheckpoint) (blocks : list CatalogL1Block) : Prop :=
  match blocks with
  | [] => True
  | block :: rest =>
      match previous with Some previous => links previous (bl_checkpoint block) | None => True end
      ∧ linked_from (Some (bl_checkpoint block)) rest
  end.

Definition block_ok (block : CatalogL1Block) : Prop :=
  validate_hex_id (block_id_of block) "" = ROk () ∧ validate_hex_id (cp_parent_id (bl_checkpoint block)) "" = ROk ().

Lemma validate_hex_id_label value label label' : validate_hex_id value label = ROk () ↔ validate_hex_id value label' = ROk ().
Proof. unfold validate_hex_id. by rewrite !ensure_ROk. Qed.

Lemma validate_id_ROk value label : validate_id value label = ROk () ↔ validate_hex_id value "" = ROk ().
Proof. unfold validate_id. rewrite map_err_ROk. apply validate_hex_id_label. Qed.

Lemma validate_checkpoint_ROk block label : validate_checkpoint (bl_checkpoint block) label = ROk () ↔ block_ok block.
Proof. unfold validate_checkpoint, block_ok. by rewrite rseq_ROk, !validate_id_ROk. Qed.

Lemma existsb_has_id id blocks : existsb (has_block_id id) blocks = false ↔ ∀ b, b ∈ blocks → block_id_of b ≠ id.
Proof.
  rewrite <- not_true_iff_false, existsb_exists. unfold has_block_id. setoid_rewrite <- list_elem_of_In.
  setoid_rewrite String.eqb_eq. naive_solver.
Qed.

Lemma validate_chain_from_ROk blocks : ∀ previous ids,
  validate_chain_from previous ids blocks = ROk () ↔
  Forall block_ok blocks ∧ NoDup (map (λ b, block_id_of b) blocks) ∧ (∀ b, b ∈ blocks → block_id_of b ∉ ids)
  ∧ linked_from previous blocks.
Proof.
  induction blocks as [|b blocks IH]; intros previous ids; simpl.
  { split; [intros _|done]. split_and!; [constructor|constructor| |done]. by intros b ?%elem_of_nil. }
  rewrite !rseq_ROk, !ensure_ROk, IH, validate_checkpoint_ROk, negb_true_iff, bool_decide_eq_false.
  rewrite Forall_cons, NoDup_cons, list_elem_of_fmap.
  assert (Hp : match previous with
    | Some previous => (cp_slot previous <? block_slot b) && String.eqb (cp_parent_id (bl_checkpoint b)) (cp_block_id previous)
    | None => true end = true ↔ match previous with Some previous => links previous (bl_checkpoint b) | None => True end).
  { destruct previous; [|done]. by rewrite andb_true_iff, Z.ltb_lt, String.eqb_eq. }
  rewrite Hp. setoid_rewrite elem_of_cons. set_solver.
Qed.

Lemma linked_ancestry blocks upper : ∀ previous,
  linked_from previous blocks ∧ (∀ newest, last blocks = Some newest → links (bl_checkpoint newest) upper) ↔
  ancestry blocks upper ∧ (∀ p b, previous = Some p → head blocks = Some b → links p (bl_checkpoint b)).
Proof.
  induction blocks as [|b blocks IH]; intros previous; simpl; [naive_solver|].
  specialize (IH (Some (bl_checkpoint b))). rewrite last_cons. destruct blocks as [|b' blocks].
  - simpl in *. destruct previous; naive_solver.
  - assert (Elast : match last (b' :: blocks) with Some y => Some y | None => Some b end = last (b' :: blocks)).
    { destruct (last (b' :: blocks)) eqn:El; [done|by apply last_None in El]. }
    rewrite Elast. split.
    + intros [[Hp Hl] Hn]. destruct (proj1 IH (conj Hl Hn)) as [Ha Hh].
      split; [split; [by apply Hh|done]|]. by intros p c -> [= <-].
    + intros [[Hb Ha] Hh]. destruct (proj2 IH) as [Hl Hn]; [split; [done|]; by intros p c [= <-] [= <-]|].
      split; [split; [destruct previous; [by apply Hh|done]|done]|done].
Qed.

Lemma ancestry_slots blocks upper b : ancestry blocks upper → b ∈ blocks → cp_slot (oldest blocks upper) ≤ block_slot b.
Proof.
  revert b. induction blocks as [|a blocks IH]; intros b; [by intros _ ?%elem_of_nil|]. simpl.
  intros [[Hs _] Ha] [->|Hin]%elem_of_cons; [lia|]. specialize (IH b Ha Hin). lia.
Qed.

Lemma ancestry_below blocks upper b : ancestry blocks upper → b ∈ blocks → block_slot b < cp_slot upper.
Proof.
  revert b. induction blocks as [|a blocks IH]; intros b; [by intros _ ?%elem_of_nil|]. simpl.
  intros [[Hs _] Ha] [->|Hin]%elem_of_cons; [|by apply IH]. destruct blocks as [|a' blocks]; [done|].
  specialize (IH a' Ha ltac:(by left)). simpl in Hs. lia.
Qed.

Lemma ancestry_link older b newer upper :
  ancestry (older ++ b :: newer) upper → links (bl_checkpoint b) (oldest newer upper).
Proof. induction older as [|a older IH]; [by intros [? _]|]. intros [_ Ha]. by apply IH. Qed.

(** ** What the reductions accept *)
Section accepted.
Context (request : CatalogAncestryRepairRequest).
Let upper := rq_upper_checkpoint request.

Definition above_lower (block : CatalogL1Block) : Prop :=
  match rq_lower_checkpoint request with
  | Some lower => br_slot lower < block_slot block ∧ block_id_of block ≠ br_block_id lower
  | None => True
  end.

Definition genesis_matches (block : CatalogL1Block) : Prop :=
  block_slot block = 0
  ∧ match rq_expected_genesis_id request with Some expected => expected = block_id_of block | None => True end.

(** The recovered blocks reach the lower end of the request. *)
Definition reaches_lower (blocks : list CatalogL1Block) : Prop :=
  match rq_lower_checkpoint request with
  | Some lower => cp_parent_id (oldest blocks upper) = br_block_id lower
  | None => ∃ block, head blocks = Some block ∧ genesis_matches block
  end.

Record recovered_ok (blocks : list CatalogL1Block) : Prop := mkRecoveredOk {
  ro_ancestry : ancestry blocks upper;
  ro_valid : Forall block_ok blocks;
  ro_distinct : NoDup (map (λ b, block_id_of b) blocks);
  ro_above b : b ∈ blocks → above_lower b;
}.

Lemma chain_and_newest blocks :
  (validate_recovered_chain blocks = ROk ()
   ∧ ∀ newest, last blocks = Some newest → links (bl_checkpoint newest) upper)
  ↔ ancestry blocks upper ∧ Forall block_ok blocks ∧ NoDup (map (λ b, block_id_of b) blocks).
Proof.
  unfold validate_recovered_chain. rewrite validate_chain_from_ROk.
  pose proof (linked_ancestry blocks upper None) as Hl. split.
  - intros [(H1 & H2 & _ & H4) H5]. destruct (proj1 Hl (conj H4 H5)). done.
  - intros (H1 & H2 & H3). destruct (proj2 Hl) as [H4 H5]; [by split|]. split_and!; try done; set_solver.
Qed.

Lemma all_above blocks lower :
  rq_lower_checkpoint request = Some lower → ancestry blocks upper →
  (∀ b, b ∈ blocks → above_lower b) ↔
  (blocks = [] ∨ br_slot lower < cp_slot (oldest blocks upper)) ∧ existsb (has_block_id (br_block_id lower)) blocks = false.
Proof.
  intros El Ha. unfold above_lower. rewrite El, existsb_has_id. split.
  - intros Hall. split; [|intros b Hb; by apply Hall]. destruct blocks as [|b blocks]; [by left|right].
    apply (Hall b). by left.
  - intros [Ho Hid] b Hb. split; [|by apply Hid]. destruct Ho as [->|Ho]; [by apply elem_of_nil in Hb|].
    pose proof (ancestry_slots blocks upper b Ha Hb). lia.
Qed.

Lemma connected_accepted blocks :
  validate_connected_repair request blocks = ROk () ↔
  validate_repair_request request = ROk () ∧ recovered_ok blocks
  ∧ (∀ b, b ∈ blocks → block_id_of b ≠ cp_block_id upper) ∧ reaches_lower blocks.
Proof.
  unfold validate_connected_repair. rewrite rseq_ROk. fold upper. apply and_iff_compat_l.
  destruct blocks as [|b blocks].
  { simpl. rewrite ensure_ROk. unfold reaches_lower. simpl. destruct (rq_lower_checkpoint request) as [lower|].
    - rewrite String.eqb_eq. split; [|naive_solver]. intros E. split_and!; [|set_solver|done].
      split; [done|constructor|constructor|set_solver].
    - split; [done|]. naive_solver. }
  destruct (last (b :: blocks)) as [newest|] eqn:El; [|by apply last_None in El]. change (head (b :: blocks)) with (Some b). cbv beta iota.
  rewrite !rseq_ROk, !ensure_ROk, negb_true_iff, existsb_has_id, String.eqb_eq, Z.ltb_lt.
  assert (Hlow : recovered_ok (b :: blocks) ∧ reaches_lower (b :: blocks) ↔
    (validate_recovered_chain (b :: blocks) = ROk () ∧ links (bl_checkpoint newest) upper)
    ∧ match rq_lower_checkpoint request with
      | Some lower =>
          (br_slot lower < block_slot b ∧ existsb (has_block_id (br_block_id lower)) (b :: blocks) = false)
          ∧ cp_parent_id (bl_checkpoint b) = br_block_id lower
      | None => genesis_matches b
      end).
  { pose proof (chain_and_newest (b :: blocks)) as Hc. rewrite El in Hc.
    assert (Hc' : (validate_recovered_chain (b :: blocks) = ROk () ∧ links (bl_checkpoint newest) upper)
      ↔ ancestry (b :: blocks) upper ∧ Forall block_ok (b :: blocks) ∧ NoDup (map (λ b, block_id_of b) (b :: blocks))).
    { rewrite <- Hc. split; intros [? Hn]; (split; [done|]); [by intros ? [= <-]|by apply Hn]. }
    rewrite Hc'. clear Hc Hc'. unfold reaches_lower. destruct (rq_lower_checkpoint request) as [lower|] eqn:Er.
    - split.
      + intros [[H1 H2 H3 H4] H5]. destruct (proj1 (all_above _ _ Er H1) H4) as [[?|?] ?]; done.
      + intros [(H1 & H2 & H3) [[H4 H5] H6]]. split; [|done]. split; [done..|]. apply (all_above _ lower); auto.
    - split.
      + intros [[H1 H2 H3 H4] (b' & [= <-] & H5)]. done.
      + intros [(H1 & H2 & H3) H4]. split; [|by exists b]. split; [done..|]. intros x _. unfold above_lower. by rewrite Er. }
  split.
  - intros (H1 & H2 & H3 & H4 & H5). 
    assert (Hw : recovered_ok (b :: blocks) ∧ reaches_lower (b :: blocks)); [|naive_solver].
    apply Hlow. split; [done|]. destruct (rq_lower_checkpoint request) as [lower|].
    + rewrite rseq_ROk, !ensure_ROk, negb_true_iff, orb_false_iff, Z.leb_gt, String.eqb_eq in H5. naive_solver.
    + rewrite rseq_ROk, !ensure_ROk, Z.eqb_eq in H5. unfold genesis_matches.
      destruct (rq_expected_genesis_id request); [rewrite String.eqb_eq in H5|]; naive_solver.
  - intros (H1 & H4 & H2). destruct (proj1 Hlow (conj H1 H2)) as ((Hch & Hs & Hp) & H5). split_and!; try done.
    destruct (rq_lower_checkpoint request) as [lower|].
    + rewrite rseq_ROk, !ensure_ROk, negb_true_iff, orb_false_iff, Z.leb_gt, String.eqb_eq. naive_solver.
    + rewrite rseq_ROk, !ensure_ROk, Z.eqb_eq. unfold genesis_matches in H5.
      destruct (rq_expected_genesis_id request); [rewrite String.eqb_eq|]; naive_solver.
Qed.

(** What a run of the loop that ends early has established. *)
Definition stops_above (blocks : list CatalogL1Block) : Prop :=
  match rq_lower_checkpoint request with
  | Some lower => cp_parent_id (oldest blocks upper) ≠ br_block_id lower
  | None => ∀ block, head blocks = Some block → block_slot block ≠ 0
  end.

Lemma unresolved_accepted blocks :
  validate_repair_request request = ROk () → recovered_ok blocks → stops_above blocks →
  (∀ b, b ∈ blocks → block_id_of b ≠ cp_block_id upper ∧ block_id_of b ≠ cp_parent_id (oldest blocks upper)) →
  validate_unresolved_repair request blocks (cp_parent_id (oldest blocks upper)) upper = ROk ().
Proof.
  intros Hr [Ha Hv Hn Hab] Hstop Hids. unfold validate_unresolved_repair. fold upper.
  rewrite !rseq_ROk, !ensure_ROk, bool_decide_eq_true. split_and!; [done| |done| |].
  - apply validate_id_ROk. destruct blocks as [|b blocks]; [|apply Forall_cons in Hv as [[_ ?] _]; done].
    simpl. unfold validate_repair_request in Hr. apply rseq_ROk in Hr as [[_ Hp]%rseq_ROk _]. by eapply validate_id_ROk.
  - unfold stops_above in Hstop. destruct (rq_lower_checkpoint request); [|done].
    apply negb_true_iff, String.eqb_neq. congruence.
  - destruct blocks as [|b blocks]; [apply ensure_ROk, String.eqb_refl|].
    destruct (last (b :: blocks)) as [newest|] eqn:El; [|by apply last_None in El].
    change (head (b :: blocks)) with (Some b). cbv beta iota. rewrite !rseq_ROk, !ensure_ROk.
    destruct (proj2 (chain_and_newest (b :: blocks))) as [Hch Hlast]; [done|]. destruct (Hlast newest El) as [Hs Hp].
    split_and!; [done|by rewrite String.eqb_refl, Hp, String.eqb_refl|].
    rewrite negb_true_iff, !orb_false_iff, Z.leb_gt. split_and!; [done| |].
    + unfold stops_above in Hstop. specialize (Hab b ltac:(by left)). unfold above_lower in Hab.
      destruct (rq_lower_checkpoint request); [apply Z.leb_gt; lia|]. apply Z.eqb_neq, Hstop. done.
    + apply not_true_iff_false. rewrite existsb_exists. intros (x & Hx%list_elem_of_In & Hbad).
      destruct (Hids x Hx) as [H1 H2]. specialize (Hab x Hx). unfold above_lower in Hab.
      unfold has_block_id in Hbad. rewrite !orb_true_iff, !String.eqb_eq in Hbad. simpl in H2.
      destruct (rq_lower_checkpoint request); [rewrite String.eqb_eq in Hbad|]; naive_solver.
Qed.
End accepted.

(** ** The loop *)
Section loop.
Context (source : CatalogL1Source) (request : CatalogAncestryRepairRequest).
Let upper := rq_upper_checkpoint request.

Definition served (block : CatalogL1Block) : Prop := source (block_id_of block) = ROk (Some block).

Record loop_inv (recovered : list CatalogL1Block) (visited : gset string) : Prop := mkLoopInv {
  li_ok : recovered_ok request recovered;
  li_served b : b ∈ recovered → served b;
  li_visited id : id ∈ visited ↔ id ∈ map (λ b, block_id_of b) recovered;
  li_positive : rq_lower_checkpoint request = None → ∀ b, b ∈ recovered → block_slot b ≠ 0;
}.

Lemma check_repair_block_ROk requested_id child_slot block reached :
  check_repair_block request requested_id child_slot block = ROk reached ↔
  block_ok block ∧ block_id_of block = requested_id ∧ block_slot block < child_slot
  ∧ match rq_lower_checkpoint request with Some lower => br_slot lower < block_slot block | None => True end
  ∧ reached = bool_decide (rq_lower_checkpoint request = None) && (block_slot block =? 0)
  ∧ (reached = true → match rq_expected_genesis_id request with Some e => e = block_id_of block | None => True end).
Proof.
  unfold check_repair_block. rewrite !rseq_ROk, map_err_ROk, validate_checkpoint_ROk, !ensure_ROk, String.eqb_eq, Z.ltb_lt.
  set (g := bool_decide (rq_lower_checkpoint request = None) && (block_slot block =? 0)).
  assert (Hg : negb (g && match rq_expected_genesis_id request with
      | Some expected => negb (String.eqb expected (block_id_of block)) | None => false end) = true
    ↔ (g = true → match rq_expected_genesis_id request with Some e => e = block_id_of block | None => True end)).
  { destruct g, (rq_expected_genesis_id request) as [e|]; simpl; rewrite ?negb_involutive, ?String.eqb_eq; naive_solver. }
  assert (Hl : match rq_lower_checkpoint request with
      | Some lower => ensure (br_slot lower <? block_slot block)
        (SourceInconsistent ("repair crossed lower checkpoint slot " +:+ pretty (br_slot lower)
                             +:+ " without reaching block " +:+ br_block_id lower))
      | None => ROk () end = ROk ()
    ↔ match rq_lower_checkpoint request with Some lower => br_slot lower < block_slot block | None => True end).
  { destruct (rq_lower_checkpoint request); [by rewrite ensure_ROk, Z.ltb_lt|done]. }
  rewrite Hg, Hl. naive_solver.
Qed.

Lemma loop_inv_step recovered visited block :
  loop_inv recovered visited →
  lower_is request (cp_parent_id (oldest recovered upper)) = false →
  (cp_parent_id (oldest recovered upper) ∉ visited) →
  source (cp_parent_id (oldest recovered upper)) = ROk (Some block) → ∀ reached,
  check_repair_block request (cp_parent_id (oldest recovered upper)) (cp_slot (oldest recovered upper)) block = ROk reached →
  recovered_ok request (block :: recovered) ∧ (∀ b, b ∈ block :: recovered → served b)
  ∧ (reached = true → reaches_lower request (block :: recovered))
  ∧ (reached = false → loop_inv (block :: recovered) ({[cp_parent_id (oldest recovered upper)]} ∪ visited)).
Proof.
  intros [[Ha Hv Hn Hab] Hs Hvis Hpos] Hlow Hnew Hsrc reached (Hok & Hid & Hslot & Hl & Hreach & Hg)%check_repair_block_ROk.
  assert (Hr : recovered_ok request (block :: recovered)).
  { split.
    - simpl. by split.
    - by constructor.
    - simpl. constructor; [|done]. rewrite <- Hvis. by rewrite Hid.
    - intros b [->|Hb]%elem_of_cons; [|by apply Hab]. unfold above_lower, lower_is in *.
      destruct (rq_lower_checkpoint request); [|done]. apply String.eqb_neq in Hlow. rewrite Hid. auto. }
  assert (Hserved : ∀ b, b ∈ block :: recovered → served b).
  { intros b [->|Hb]%elem_of_cons; [|by apply Hs]. unfold served. by rewrite Hid. }
  split_and!; [done|done| |].
  - intros ->. symmetry in Hreach. apply andb_true_iff in Hreach as [Hnone%bool_decide_eq_true Hz%Z.eqb_eq].
    unfold reaches_lower. rewrite Hnone. exists block. split; [done|]. split; [done|]. by apply Hg.
  - intros ->. split; [done|done| |].
    + intros id. simpl. rewrite elem_of_union, elem_of_singleton, elem_of_cons, Hvis, Hid. tauto.
    + intros Hnone b [->|Hb]%elem_of_cons; [|by apply Hpos]. rewrite bool_decide_eq_true_2 in Hreach by done.
      symmetry in Hreach. by apply Z.eqb_neq in Hreach.
Qed.

(** What a finished repair gives. *)
Definition outcome_ok (outcome : CatalogAncestryRepairOutcome) : Prop :=
  match outcome with
  | Connected blocks => recovered_ok request blocks ∧ (∀ b, b ∈ blocks → served b) ∧ reaches_lower request blocks
      ∧ zlen blocks ≤ rq_max_blocks request
  | Unresolved blocks missing reason =>
      recovered_ok request blocks ∧ (∀ b, b ∈ blocks → served b) ∧ stops_above request blocks
      ∧ missing = cp_parent_id (oldest blocks upper)
      ∧ zlen blocks ≤ rq_max_blocks request
      ∧ match reason with
        | MissingParent => zlen blocks = rq_max_blocks request
        | MissingBlockBody => source missing = ROk None
        | SourceUnavailable => ∃ detail, source missing = RErr (SourceUnavailableError detail)
        | _ => False
        end
  end.

Lemma loop_stops_above recovered visited :
  loop_inv recovered visited → lower_is request (cp_parent_id (oldest recovered upper)) = false →
  stops_above request recovered.
Proof.
  intros [_ _ _ Hpos] Hlow. unfold stops_above, lower_is in *. destruct (rq_lower_checkpoint request).
  - fold upper. apply String.eqb_neq in Hlow. congruence.
  - intros b Hb. apply Hpos; [done|]. by apply head_Some_elem_of.
Qed.

(** The block can be the parent of [child] in the repaired ancestry. *)
Definition fits (child : CatalogBlockCheckpoint) (block : CatalogL1Block) : Prop :=
  block_ok block ∧ links (bl_checkpoint block) child
  ∧ match rq_lower_checkpoint request with
    | Some lower => br_slot lower < block_slot block
    | None => block_slot block = 0 →
        match rq_expected_genesis_id request with Some e => e = block_id_of block | None => True end
    end.

(** The blocks the source has served so far, when there is still one to ask for. *)
Record walked (blocks : list CatalogL1Block) : Prop := mkWalked {
  wa_ok : recovered_ok request blocks;
  wa_served b : b ∈ blocks → served b;
  wa_stops : stops_above request blocks;
  wa_limit : zlen blocks < rq_max_blocks request;
}.

(** The answer to the request for the parent of the oldest block walked ends the
    repair with the error: the parent is a block walked before, or the block served
    cannot be the parent of its child, or the source fails otherwise than by being
    unavailable. *)
Definition faulty_answer (error : CatalogEngineError) : Prop :=
  ∃ blocks, walked blocks ∧
    let child := oldest blocks upper in
    let id := cp_parent_id child in
    if decide (id ∈ map (λ b, block_id_of b) blocks)
    then error = SourceInconsistent ("repair ancestry cycles at block " +:+ id)
    else match source id with
         | ROk (Some block) => ¬ fits child block ∧ check_repair_block request id (cp_slot child) block = RErr error
         | ROk None | RErr (SourceUnavailableError _) => False
         | RErr source_error => error = SourceInconsistent (source_error_text source_error)
         end.

Lemma check_refuses child block error :
  check_repair_block request (cp_parent_id child) (cp_slot child) block = RErr error → ¬ fits child block.
Proof.
  intros Hc (Hok & [Hs Hp] & Hl).
  assert (H : check_repair_block request (cp_parent_id child) (cp_slot child) block
    = ROk (bool_decide (rq_lower_checkpoint request = None) && (block_slot block =? 0))); [|congruence].
  apply check_repair_block_ROk. split_and!; try done.
  - by destruct (rq_lower_checkpoint request).
  - intros [Hn%bool_decide_eq_true Hz%Z.eqb_eq]%andb_true_iff. rewrite Hn in Hl. by apply Hl.
Qed.

Lemma repair_loop_ends fuel : ∀ recovered visited,
  loop_inv recovered visited → zlen recovered ≤ rq_max_blocks request →
  Z.of_nat fuel = 1 + rq_max_blocks request - zlen recovered →
  ∃ result, repair_loop source request fuel (cp_parent_id (oldest recovered upper)) (cp_slot (oldest recovered upper))
              recovered visited = Some result
    ∧ match result with ROk outcome => outcome_ok outcome | RErr error => faulty_answer error end.
Proof.
  induction fuel as [|fuel IH]; intros recovered visited Hinv Hlen Hfuel; [lia|]. simpl repair_loop.
  pose proof Hinv as [Hok Hs _ _]. destruct (lower_is _ _) eqn:Hlow.
  { eexists. split; [done|]. split_and!; try done. unfold lower_is, reaches_lower in *.
    destruct (rq_lower_checkpoint request); [|done]. by apply String.eqb_eq in Hlow. }
  pose proof (loop_stops_above _ _ Hinv Hlow) as Hstop.
  destruct (Z.leb_spec (rq_max_blocks request) (zlen recovered)) as [Hmax|Hmax].
  { eexists. split; [done|]. split_and!; try done. lia. }
  assert (Hw : walked recovered) by by split.
  assert (Hids : cp_parent_id (oldest recovered upper) ∈ visited
    ↔ cp_parent_id (oldest recovered upper) ∈ map (λ b, block_id_of b) recovered) by apply Hinv.
  case_bool_decide as Hvis.
  { eexists. split; [done|]. exists recovered. split; [done|]. by rewrite decide_True by by apply Hids. }
  assert (Hnew : cp_parent_id (oldest recovered upper) ∉ map (λ b, block_id_of b) recovered) by by rewrite <- Hids.
  set (id := cp_parent_id (oldest recovered upper)) in *.
  destruct (source id) as [[block|]|error] eqn:Hsrc.
  - destruct (check_repair_block _ _ _ _) as [reached|error] eqn:Hc.
    2:{ eexists. split; [done|]. exists recovered. split; [done|]. rewrite decide_False by done. fold id. rewrite Hsrc.
        split; [by eapply check_refuses|done]. }
    destruct (loop_inv_step _ _ _ Hinv Hlow Hvis Hsrc _ Hc) as (H1 & H2 & H3 & H4).
    assert (Hl : zlen (block :: recovered) = zlen recovered + 1) by (unfold zlen; simpl; lia).
    destruct reached; [|apply (IH (block :: recovered)); [by apply H4|lia|lia]].
    eexists. split; [done|]. split_and!; [done|done|by apply H3|lia].
  - eexists. split; [done|]. by split_and!.
  - destruct error; eexists; (split; [done|]);
      [exists recovered; split; [done|]; rewrite decide_False by done; fold id; by rewrite Hsrc| |
       exists recovered; split; [done|]; rewrite decide_False by done; fold id; by rewrite Hsrc].
    split_and!; try done. by eexists.
Qed.

Lemma repair_run :
  0 ≤ rq_max_blocks request → validate_repair_request request = ROk () →
  ∃ result, repair_catalog_ancestry source request = Some result
    ∧ match result with ROk outcome => outcome_ok outcome | RErr error => faulty_answer error end.
Proof.
  intros Hmax Hr. unfold repair_catalog_ancestry. rewrite Hr.
  apply (repair_loop_ends _ []); [|done|unfold zlen; simpl length; lia].
  split; [split; [done|constructor|constructor|set_solver]|set_solver|set_solver|set_solver].
Qed.
End loop.

(** What a reduction checks of an outcome, before it uses it. *)
Definition accepted_outcome (request : CatalogAncestryRepairRequest) (outcome : CatalogAncestryRepairOutcome) : Prop :=
  match outcome with
  | Connected blocks => validate_connected_repair request blocks = ROk ()
  | Unresolved blocks missing _ =>
      validate_unresolved_repair request blocks missing (rq_upper_checkpoint request) = ROk ()
  end.
Definition outcome_blocks (outcome : CatalogAncestryRepairOutcome) : list CatalogL1Block :=
  match outcome with Connected blocks => blocks | Unresolved blocks _ _ => blocks end.

(** A block of the outcome has the id of the upper block, or of the parent the
    oldest block names: the answers of the source close a circle. *)
Definition circular (request : CatalogAncestryRepairRequest) (blocks : list CatalogL1Block) : Prop :=
  ∃ b, b ∈ blocks ∧ (block_id_of b = cp_block_id (rq_upper_checkpoint request)
                     ∨ block_id_of b = cp_parent_id (oldest blocks (rq_upper_checkpoint request))).

Lemma not_circular request blocks :
  existsb (λ b, String.eqb (block_id_of b) (cp_block_id (rq_upper_checkpoint request))
                || String.eqb (block_id_of b) (cp_parent_id (oldest blocks (rq_upper_checkpoint request)))) blocks = false →
  ∀ b, b ∈ blocks → block_id_of b ≠ cp_block_id (rq_upper_checkpoint request)
    ∧ block_id_of b ≠ cp_parent_id (oldest blocks (rq_upper_checkpoint request)).
Proof.
  rewrite <- not_true_iff_false, existsb_exists. intros Hn b Hb.
  split; intros E; apply Hn; exists b; (split; [by apply list_elem_of_In|]); rewrite E, String.eqb_refl; [done|apply orb_true_r].
Qed.

Lemma accepted_or_circular source request outcome :
  validate_repair_request request = ROk () → outcome_ok source request outcome →
  accepted_outcome request outcome ∨ circular request (outcome_blocks outcome).
Proof.
  intros Hr Hok. destruct (existsb (λ b, String.eqb (block_id_of b) (cp_block_id (rq_upper_checkpoint request))
    || String.eqb (block_id_of b) (cp_parent_id (oldest (outcome_blocks outcome) (rq_upper_checkpoint request))))
    (outcome_blocks outcome)) eqn:Ec.
  - right. apply existsb_exists in Ec as (b & Hb%list_elem_of_In & Hid). exists b. split; [done|].
    by rewrite orb_true_iff, !String.eqb_eq in Hid.
  - left. pose proof (not_circular _ _ Ec) as Hids. destruct outcome as [blocks|blocks missing reason]; simpl in *.
    + destruct Hok as (Hok & Hs & Hreach & Hlen). apply connected_accepted. split_and!; [done..| |done].
      intros b Hb. by apply Hids.
    + destruct Hok as (Hok & Hs & Hstop & -> & Hlen & _). by apply unresolved_accepted.
Qed.

(** C37. A repair of a valid request always ends, whatever the source answers.
    Its blocks were all served, are consecutive ancestors of the upper block with
    distinct ids above the lower end, and are no more than the request allows.
    A connected outcome reaches the lower end; an unresolved one names the parent
    of its oldest block, which is beyond the limit, unknown to the source or
    unavailable, as its reason says.  The outcome passes the checks the reductions
    make on it unless the source has served a circle.  An error is the fault of the
    source at the block the walk had come to: the parent it asks for was walked
    before, or the block served cannot be the parent of that very child, or the
    source failed otherwise than by being unavailable. *)
Theorem repair_ends_with_accepted_outcome source request :
  0 ≤ rq_max_blocks request → validate_repair_request request = ROk () →
  ∃ result, repair_catalog_ancestry source request = Some result
    ∧ match result with
      | ROk outcome => outcome_ok source request outcome
          ∧ (accepted_outcome request outcome ∨ circular request (outcome_blocks outcome))
      | RErr error => faulty_answer source request error
      end.
Proof.
  intros Hmax Hr. destruct (repair_run source request Hmax Hr) as (result & Hrun & Hres). exists result.
  split; [done|]. destruct result as [outcome|error]; [|done]. split; [done|]. by eapply accepted_or_circular.
Qed.

(** ** Finding an ancestry *)
Section finding.
Context (source : CatalogL1Source) (request : CatalogAncestryRepairRequest) (blocks : list CatalogL1Block).
Let upper := rq_upper_checkpoint request.
Context (Hok : recovered_ok request blocks) (Hreach : reaches_lower request blocks).
Context (Hserved : ∀ b, b ∈ blocks → served source b) (Hlen : zlen blocks ≤ rq_max_blocks request).

(** The loop at the point where [newer] is recovered and [older] is not. *)
Lemma repair_loop_finds older : ∀ newer visited fuel,
  blocks = older ++ newer → (length older < fuel)%nat →
  (∀ b, b ∈ older → block_id_of b ∉ visited) → (rq_lower_checkpoint request = None → older ≠ []) →
  repair_loop source request fuel (cp_parent_id (oldest newer upper)) (cp_slot (oldest newer upper)) newer visited
  = Some (ROk (Connected blocks)).
Proof using All.
  induction older as [|b older IH] using rev_ind; intros newer visited [|fuel] E Hf Hvis Hnone;
    [simpl in Hf; lia| |lia|]; simpl repair_loop.
  { simpl in E. subst newer. unfold lower_is, reaches_lower in *.
    destruct (rq_lower_checkpoint request); [|by destruct (Hnone eq_refl)].
    fold upper in Hreach. by rewrite Hreach, String.eqb_refl. }
  rewrite <- app_assoc in E. simpl in E. rewrite length_app in Hf. simpl length in Hf.
  assert (Hin : b ∈ blocks) by (rewrite E; set_solver).
  pose proof Hok as [Ha Hv Hn Hab]. fold upper in Ha.
  destruct (ancestry_link older b newer upper) as [Hslot Hparent]; [by rewrite <- E|]. rewrite Hparent. specialize (Hab b Hin). unfold above_lower in Hab.
  assert (Hl : lower_is request (block_id_of b) = false).
  { unfold lower_is. destruct (rq_lower_checkpoint request); [|done]. apply String.eqb_neq. naive_solver. }
  rewrite Hl. destruct (Z.leb_spec (rq_max_blocks request) (zlen newer)) as [Hle|_].
  { exfalso. rewrite E in Hlen. unfold zlen in *. rewrite length_app in Hlen. simpl in Hlen. lia. }
  rewrite bool_decide_eq_false_2 by (apply Hvis; set_solver). rewrite (Hserved b Hin).
  assert (Hgen : rq_lower_checkpoint request = None →
    ((block_slot b =? 0) = true ↔ older = []) ∧ (older = [] → genesis_matches request b)).
  { intros Enone. unfold reaches_lower in Hreach. rewrite Enone in Hreach. destruct Hreach as (g & Hg & [Hg0 Hgm]).
    destruct older as [|a older].
    - rewrite E in Hg. simpl in Hg. injection Hg as ->. rewrite Z.eqb_eq. by split.
    - rewrite E in Hg. simpl in Hg. injection Hg as ->. split; [|done]. split; [|done]. intros Hz%Z.eqb_eq. exfalso.
      rewrite E in Ha. simpl in Ha. destruct Ha as [[Hlt _] Ha].
      pose proof (ancestry_slots _ _ b Ha ltac:(set_solver)) as Hle. lia. }
  assert (Hc : check_repair_block request (block_id_of b) (cp_slot (oldest newer upper)) b
    = ROk (bool_decide (rq_lower_checkpoint request = None) && (block_slot b =? 0))).
  { apply check_repair_block_ROk. rewrite Forall_forall in Hv. split_and!; [by apply Hv|done|done| |done|].
    - destruct (rq_lower_checkpoint request); [naive_solver|done].
    - intros [Enone%bool_decide_eq_true Hz]%andb_true_iff. destruct (Hgen Enone) as [H1 H2]. by apply H2, H1. }
  rewrite Hc. destruct (bool_decide (rq_lower_checkpoint request = None) && (block_slot b =? 0)) eqn:Er.
  - apply andb_true_iff in Er as [Enone%bool_decide_eq_true Hz]. destruct (Hgen Enone) as [H1 _].
    apply H1 in Hz. subst older. by rewrite E.
  - apply (IH (b :: newer)); [done|lia| |].
    + intros b' Hb' [Hid%elem_of_singleton|Hvis']%elem_of_union; [|by apply (Hvis b'); [set_solver|]].
      rewrite E in Hn. rewrite map_app in Hn. apply NoDup_app in Hn as (_ & Hd & _). simpl in Hd.
      apply (Hd (block_id_of b')); [apply list_elem_of_fmap; by exists b'|]. rewrite Hid. by left.
    + intros Enone ->. destruct (Hgen Enone) as [H1 _]. rewrite bool_decide_eq_true_2 in Er by done.
      simpl in Er. destruct H1 as [_ H1]. rewrite H1 in Er; done.
Qed.
End finding.

(** C38. A repair finds an ancestry the source serves: when some chain of at most
    the requested number of blocks is what the reductions accept for the request,
    and the source answers each of its ids with its block, the repair returns
    exactly that chain. *)
Theorem repair_finds_served_ancestry source request blocks :
  validate_connected_repair request blocks = ROk () → zlen blocks ≤ rq_max_blocks request →
  (∀ b, b ∈ blocks → source (block_id_of b) = ROk (Some b)) →
  repair_catalog_ancestry source request = Some (ROk (Connected blocks)).
Proof.
  intros (Hr & Hok & _ & Hreach)%connected_accepted Hlen Hs. unfold repair_catalog_ancestry. rewrite Hr.
  apply (repair_loop_finds source request blocks Hok Hreach Hs Hlen blocks []).
  - by rewrite app_nil_r.
  - unfold zlen in Hlen. lia.
  - set_solver.
  - intros Hnone ->. unfold reaches_lower in Hreach. rewrite Hnone in Hreach. by destruct Hreach as (b & ? & _).
Qed.
