(* ===== verification/CatalogPages.v ===== *)
(** * Reductions of the zone catalog

    A reduction's batch carries exactly the working catalog it was made from;
    a committed page moves the ingestion cursor along a chain of blocks; and
    ingesting blocks keeps every zone's tally of its evidence exact. *)

From S2P Require Import Prelude Json Bytes SortedRecords CatalogModel ChannelOps CatalogEngine CatalogStore.
From S2P Require Import CatalogValidity CatalogCommit CatalogRepair.

(** ** From a working catalog to a batch and back *)
Record keyed_catalog (working : WorkingCatalog) : Prop := mkKeyedCatalog {
  kc_zones : keyed zr_channel_id (wk_zones working);
  kc_evidence : keyed ev_evidence_id (wk_evidence working);
  kc_segments : keyed sg_segment_id (wk_segments working);
  kc_gaps : keyed gp_gap_id (wk_gaps working);
}.

Lemma from_snapshot_keyed snapshot : keyed_catalog (from_snapshot snapshot).
Proof. split; apply records_by_key_keyed. Qed.

Lemma records_of_values {T} (key : T → string) (m : gmap string T) : keyed key m → records_by_key key (values m) = m.
Proof.
  intros Hm. apply map_eq. intros k. pose proof (values_sorted key m Hm) as Hs. rewrite records_by_key_find by done.
  destruct (m !! k) as [r|] eqn:E.
  - apply find_by_Some; [done|]. split; [apply elem_of_values; by exists k|by apply Hm].
  - apply find_by_None. intros r (k' & Hk)%elem_of_values Er. pose proof (Hm _ _ Hk). congruence.
Qed.

Lemma record_diff_nil {T} `{EqDecision T} (key : T → string) records after :
  sorted_by key records → keyed key after → record_diff key records after = ([], []) → records = values after.
Proof. intros Hs Hm E. pose proof (record_diff_apply key records after Hs Hm) as Ha. rewrite E in Ha. by injection Ha. Qed.

Lemma filter_none {A} (P : A → Prop) `{!∀ x, Decision (P x)} l : (∀ x, x ∈ l → ¬ P x) → filter P l = [].
Proof.
  induction l as [|x l IH]; intros Hl; [done|]. rewrite filter_cons, decide_False by (apply Hl; by left).
  apply IH. intros y Hy. apply Hl. by right.
Qed.

Lemma record_diff_same {T} `{EqDecision T} (key : T → string) (m : gmap string T) :
  keyed key m → record_diff key (values m) m = ([], []).
Proof.
  intros Hm. unfold record_diff. rewrite records_of_values by done. rewrite !filter_none; [done|..].
  - intros k ([k' r] & -> & Hin%elem_of_entries)%list_elem_of_fmap. simpl. congruence.
  - intros [k r] Hin%elem_of_entries. simpl. tauto.
Qed.

(** The snapshot a working catalog stands for. *)
Definition snapshot_of (metadata : CatalogMetadata) (working : WorkingCatalog) : CatalogSnapshot :=
  mkSnapshot metadata (wk_frontier working) (wk_traversal working) (values (wk_zones working))
    (values (wk_evidence working)) (values (wk_segments working)) (values (wk_gaps working)).

(** The catalogs agree, but for the caches of latest evidence. *)
Definition same_records (a b : WorkingCatalog) : Prop :=
  wk_frontier a = wk_frontier b ∧ wk_traversal a = wk_traversal b ∧ wk_zones a = wk_zones b
  ∧ wk_evidence a = wk_evidence b ∧ wk_segments a = wk_segments b ∧ wk_gaps a = wk_gaps b.

Lemma from_snapshot_of metadata working :
  keyed_catalog working → same_records (from_snapshot (snapshot_of metadata working)) working.
Proof. intros []. split_and!; [done..| | | |]; by apply records_of_values. Qed.

(** The batch of a reduction carries its working catalog: applying its
    upserts and deletes to the snapshot it was made against gives, table by
    table, the working catalog's records in key order, and reading that snapshot
    back gives the working catalog; no batch is made exactly when the snapshot
    already holds it. *)
Theorem batch_carries_working_catalog working snapshot context metadata :
  sorted_snapshot snapshot → keyed_catalog working →
  same_records (from_snapshot (snapshot_of metadata working)) working
  ∧ match into_batch working snapshot context with
    | Some batch =>
        next_snapshot_is snapshot metadata batch (snapshot_of metadata working)
        ∧ cb_expected_catalog_revision batch = md_catalog_revision (sn_metadata snapshot)
        ∧ snapshot_of (sn_metadata snapshot) working ≠ snapshot
    | None => snapshot_of (sn_metadata snapshot) working = snapshot
    end.
Proof.
  intros [Hz He Hs Hg] Hk. split; [by apply from_snapshot_of|]. destruct Hk as [Kz Ke Ks Kg]. unfold into_batch.
  case_bool_decide as Hsame.
  - destruct Hsame as (E1 & E2 & E3 & E4 & E5 & E6). apply record_diff_nil in E1, E2, E3, E4; [|done..].
    unfold snapshot_of. rewrite E5, E6, <- E1, <- E2, <- E3, <- E4. by destruct snapshot.
  - split; [split_and!; try done; by apply record_diff_apply|]. split; [done|].
    intros E. apply Hsame. rewrite <- E. simpl.
    rewrite !record_diff_same by done. done.
Qed.

(** ** What ingesting leaves alone *)
Definition same_coverage (a b : WorkingCatalog) : Prop :=
  wk_frontier a = wk_frontier b ∧ wk_traversal a = wk_traversal b ∧ wk_segments a = wk_segments b
  ∧ wk_gaps a = wk_gaps b.

Lemma insert_evidence_coverage working evidence new working' :
  insert_evidence working evidence = ROk (new, working') → same_coverage working' working.
Proof.
  unfold insert_evidence. destruct (wk_evidence working !! ev_evidence_id evidence); [case_bool_decide; [|done]|];
    by intros [= <- <-].
Qed.

Lemma same_coverage_trans a b c : same_coverage a b → same_coverage b c → same_coverage a c.
Proof. intros (?&?&?&?) (?&?&?&?). split_and!; by etrans. Qed.

Lemma ingest_observation_coverage block segment_id target_slot context observation working working' :
  ingest_observation block segment_id target_slot context observation working = ROk working' →
  same_coverage working' working.
Proof.
  unfold ingest_observation. destruct (match ob_kind observation with OConfiguration _ _ => _ | _ => _ end)
    as [[[kind use] root] conflicting].
  intros ([new w1] & H1%insert_evidence_coverage & (w2 & H2 & H3)%rbind_ROk)%rbind_ROk.
  assert (Hw2 : same_coverage w2 w1).
  { destruct root; [|by injection H2 as <-].
    apply rbind_ROk in H2 as ([n w] & H2%insert_evidence_coverage & [= <-]). done. }
  eapply same_coverage_trans; [|by eapply same_coverage_trans].
  destruct new; simpl in H3; by injection H3 as <-.
Qed.

Lemma recompute_zone_record_coverage target_slot context channel_id working working' :
  recompute_zone_record target_slot context channel_id working = ROk working' → same_coverage working' working.
Proof. by intros (latest & _ & (record & _ & [= <-])%rbind_ROk)%rbind_ROk. Qed.

Lemma recompute_zone_records_coverage channels target_slot context working working' :
  recompute_zone_records channels target_slot context working = ROk working' → same_coverage working' working.
Proof.
  unfold recompute_zone_records. apply (fold_res_invariant _ (λ w, same_coverage w working)); [|done].
  intros c w w' _ Hw Hstep%recompute_zone_record_coverage. by eapply same_coverage_trans.
Qed.

Section pages.
Context `{SJ : SerdeJson} `{HC : HexCrate} `{SH : Sha2Crate} `{SB : SequencerBlocks}.

Lemma ingest_block_coverage segment_id target_slot context block state state' :
  ingest_block segment_id target_slot context block state = ROk state' → same_coverage state'.2 state.2.
Proof.
  intros (observations & _ & (working & Hf & [= <-])%rbind_ROk)%rbind_ROk. simpl. revert Hf.
  apply (fold_res_invariant _ (λ w, same_coverage w state.2)); [|done].
  intros o w w' _ Hw Hstep%ingest_observation_coverage. by eapply same_coverage_trans.
Qed.

Lemma ingest_blocks_coverage working blocks segment_id context working' :
  ingest_blocks working blocks segment_id context = ROk working' → same_coverage working' working.
Proof.
  intros (target & _ & (state & Hf & Hr%recompute_zone_records_coverage)%rbind_ROk)%rbind_ROk.
  eapply same_coverage_trans; [done|]. revert Hf.
  apply (fold_res_invariant _ (λ s : gset string * WorkingCatalog, same_coverage s.2 working)); [|done].
  intros b s s' _ Hs Hstep%ingest_block_coverage. by eapply same_coverage_trans.
Qed.

(** ** The connected part of a page *)
Lemma split_from_spec events : ∀ previous accepted remaining,
  split_from previous events = ROk (accepted, remaining) →
  events = accepted ++ remaining ∧ linked_from (Some previous) (map be_block accepted).
Proof.
  induction events as [|event events IH]; intros previous accepted remaining; simpl; [by intros [= <- <-]|].
  destruct (_ && _) eqn:Hl.
  - intros ([a r] & Hs & [= <- <-])%rbind_ROk. simpl. destruct (IH _ _ _ Hs) as [-> Hc].
    apply andb_true_iff in Hl as [H1%Z.ltb_lt H2%String.eqb_eq]. by split_and!.
  - case_match; [done|]. by intros [= <- <-].
Qed.

Lemma split_connected_spec events accepted remaining :
  split_connected_events events = ROk (accepted, remaining) →
  events = accepted ++ remaining ∧ head accepted = head events ∧ accepted ≠ []
  ∧ linked_from None (map be_block accepted).
Proof.
  destruct events as [|first events]; [done|].
  intros ([a r] & [-> Hc]%split_from_spec & [= <- <-])%rbind_ROk. done.
Qed.

Lemma target_of_Some traversal target :
  target_of traversal = ROk target → ∃ cursor, traversal = Some (mkTraversal (Some target) cursor).
Proof.
  intros Ht%ok_or_else_ROk. destruct traversal as [[t c]|]; [|done]. simpl in Ht. rewrite Ht. by eexists.
Qed.

(** ** A committed page *)
Lemma recompute_coverage_ROk working working' :
  recompute_coverage working = ROk working' →
  wk_traversal working' = wk_traversal working ∧ wk_segments working' = wk_segments working
  ∧ wk_gaps working' = wk_gaps working.
Proof. by intros (target & _ & (frontier & _ & [= <-])%rbind_ROk)%rbind_ROk. Qed.

Lemma frontier_if_traversal (b : bool) checkpoint working :
  wk_traversal (if b then set_connected_frontier_checkpoint checkpoint working else working) = wk_traversal working.
Proof. by destruct b. Qed.
Lemma frontier_if_segments (b : bool) checkpoint working :
  wk_segments (if b then set_connected_frontier_checkpoint checkpoint working else working) = wk_segments working.
Proof. by destruct b. Qed.

Lemma the_active_segment_ROk segments cursor segment_id :
  the_active_segment (map sg_segment_id (filter (λ segment, sg_frontier segment = cursor) segments)) = ROk segment_id →
  ∃ segment, segment ∈ segments ∧ sg_frontier segment = cursor ∧ sg_segment_id segment = segment_id.
Proof.
  destruct (filter _ segments) as [|segment l] eqn:E; [done|]. destruct l; [|done]. intros [= <-].
  assert (Hin : segment ∈ filter (λ segment, sg_frontier segment = cursor) segments) by (rewrite E; by left).
  apply list_elem_of_filter in Hin as [? ?]. by exists segment.
Qed.

(** The segment a page extends, before the page: the active one, or a new one. *)
Definition extended_segment (snapshot : CatalogSnapshot) (first : CatalogL1BlockEvent) (segment : CoverageSegment) : Prop :=
  match cursor_of (sn_traversal snapshot) with
  | Some cursor => segment ∈ sn_segments snapshot ∧ sg_frontier segment = cursor
  | None => segment = mkSegment (segment_id_for_floor (ev_checkpoint first)) (ev_checkpoint first)
                        (block_reference (ev_checkpoint first)) false
  end.

Lemma apply_connected_events_ROk snapshot events context batch :
  sorted_snapshot snapshot → apply_connected_events snapshot events context = ROk batch →
  ∃ first newest target segment working,
    head events = Some first ∧ last events = Some newest ∧ current_target snapshot = ROk target
    ∧ extended_segment snapshot first segment
    ∧ (let reached := block_reference (ev_checkpoint newest) in
       wk_traversal working = Some (mkTraversal (Some target) (Some reached))
       ∧ wk_segments working !! sg_segment_id segment
         = Some (segment <| sg_frontier := reached |> <| sg_reaches_target_lib := bool_decide (reached = target) |>))
    ∧ keyed sg_segment_id (wk_segments working)
    ∧ into_batch working snapshot context = Some batch.
Proof.
  intros Hsort (first & Hfirst%ok_or_else_ROk & (newest & Hlast%ok_or_else_ROk & (target & Htarget & Hrest)
    %rbind_ROk)%rbind_ROk)%rbind_ROk.
  apply rbind_ROk in Hrest as ([segment_id w1] & Hopen & (w2 & Hingest%ingest_blocks_coverage & Hrest)%rbind_ROk).
  assert (Hseg : ∃ segment, extended_segment snapshot first segment ∧ sg_segment_id segment = segment_id
    ∧ wk_segments w1 !! segment_id = Some segment ∧ wk_traversal w1 = sn_traversal snapshot
    ∧ keyed sg_segment_id (wk_segments w1)).
  { unfold extended_segment. change (wk_traversal (from_snapshot snapshot)) with (sn_traversal snapshot) in Hopen.
    pose proof (kc_segments _ (from_snapshot_keyed snapshot)) as Hk.
    destruct (cursor_of (sn_traversal snapshot)) as [cursor|].
    - apply rbind_ROk in Hopen as (id & (segment & (k & Hin)%elem_of_values & Hfr & <-)%the_active_segment_ROk & [= <- <-]).
      exists segment. pose proof (Hk _ _ Hin) as Ek. rewrite Ek. split_and!; try done.
      simpl in Hin. rewrite records_by_key_find in Hin by apply Hsort. by apply find_by_Some in Hin as [? _]; [|apply Hsort].
    - apply rseq_ROk in Hopen as [_ (frontier & _ & [= <- <-])%rbind_ROk]. eexists. split_and!; [done|done| |done|].
      + apply lookup_insert_eq.
      + intros k r. simpl. rewrite lookup_insert_Some. intros [[<- <-]|[_ Hr]]; [done|by apply Hk]. }
  destruct Hseg as (segment & Hext & <- & Hw1 & Htr & Hkeyed). destruct Hingest as (_ & Etr & Eseg & _).
  apply rbind_ROk in Hrest as (segment' & Hs%ok_or_else_ROk & Hrest). rewrite Eseg, Hw1 in Hs. injection Hs as <-.
  apply rbind_ROk in Hrest as (traversal & Ht%ok_or_else_ROk & Hrest).
  apply rbind_ROk in Hrest as (w3 & (H1 & H2 & _)%recompute_coverage_ROk & Hb%ok_or_else_ROk).
  destruct (target_of_Some _ _ Htarget) as [cursor Ecur]. simpl in Ht. rewrite Etr, Htr, Ecur in Ht. injection Ht as <-.
  rewrite frontier_if_traversal in H1. rewrite frontier_if_segments in H2. simpl in H1, H2. rewrite Eseg in H2.
  exists first, newest, target, segment, w3. split_and!; try done.
  - by rewrite H2, lookup_insert_eq.
  - rewrite H2. intros k r. rewrite lookup_insert_Some. intros [[<- <-]|[_ Hr]]; [done|by apply Hkeyed].
Qed.

Lemma linked_after blocks : ∀ previous b,
  linked_from (Some previous) blocks → b ∈ blocks → cp_slot previous < block_slot b.
Proof.
  induction blocks as [|a blocks IH]; intros previous b; [by intros _ ?%elem_of_nil|].
  intros [[Hs _] Hl] [->|Hb]%elem_of_cons; [done|]. specialize (IH _ b Hl Hb). lia.
Qed.

Lemma linked_newest events first newest :
  linked_from None (map be_block events) → head events = Some first → last events = Some newest →
  ev_slot first ≤ ev_slot newest.
Proof.
  destruct events as [|e events]; [done|]. intros [_ Hl] [= <-] Hn. apply last_Some_elem_of in Hn.
  apply elem_of_cons in Hn as [->|Hn]; [lia|].
  pose proof (linked_after _ _ (be_block newest) Hl) as Hs. unfold ev_slot, ev_checkpoint. apply Z.lt_le_incl, Hs.
  by apply list_elem_of_fmap_2.
Qed.

(** The first block of a page continues the catalog: from the cursor, or from
    slot zero when nothing has been ingested. *)
Definition continues (snapshot : CatalogSnapshot) (first : CatalogL1BlockEvent) : Prop :=
  match cursor_of (sn_traversal snapshot) with
  | Some cursor => br_slot cursor < ev_slot first ∧ cp_parent_id (ev_checkpoint first) = br_block_id cursor
  | None => ev_slot first = 0 ∧ sn_segments snapshot = []
  end.

Lemma reduce_page_commit snapshot events context batch remaining :
  reduce_catalog_page snapshot events context = ROk (Commit batch remaining) →
  ∃ accepted first target, split_connected_events events = ROk (accepted, remaining)
    ∧ apply_connected_events snapshot accepted context = ROk batch ∧ head events = Some first ∧ continues snapshot first
    ∧ current_target snapshot = ROk target ∧ (∀ event, event ∈ events → ev_slot event ≤ br_slot target).
Proof.
  unfold reduce_catalog_page. intros [_ Hred]%rseq_ROk. destruct events as [|first events]; [done|].
  apply rseq_ROk in Hred as [_ (target & Ht & (Htarget & (_ & Hred)%rseq_ROk)%rseq_ROk)%rbind_ROk].
  rewrite each_ROk in Htarget.
  assert (Hbelow : ∀ event, event ∈ first :: events → ev_slot event ≤ br_slot target).
  { intros event Hin. apply Htarget in Hin. by apply rseq_ROk in Hin as [?%ensure_ROk%Z.leb_le _]. }
  set (commit := split ← split_connected_events (first :: events); _) in Hred.
  assert (Hcommit : commit = ROk (Commit batch remaining) → ∃ accepted,
    split_connected_events (first :: events) = ROk (accepted, remaining)
    ∧ apply_connected_events snapshot accepted context = ROk batch).
  { intros ([a r] & Hs & (b & Hb & [= <- <-])%rbind_ROk)%rbind_ROk. by exists a. }
  unfold continues. destruct (cursor_of (sn_traversal snapshot)) as [cursor|].
  - apply rbind_ROk in Hred as (id & _ & (Hslot%ensure_ROk%Z.ltb_lt & Hred)%rseq_ROk).
    destruct (String.eqb_spec (cp_parent_id (ev_checkpoint first)) (br_block_id cursor)) as [E|]; [|done].
    destruct (Hcommit Hred) as (accepted & H1 & H2). by exists accepted, first, target.
  - apply rseq_ROk in Hred as [[Hseg%bool_decide_eq_true _]%ensure_ROk%andb_true_iff Hred].
    destruct (Z.eqb_spec (cp_slot (ev_checkpoint first)) 0) as [E|]; [|done].
    apply rseq_ROk in Hred as [_ Hred]. destruct (Hcommit Hred) as (accepted & H1 & H2).
    by exists accepted, first, target.
Qed.

Lemma extended_upserted snapshot segment working context batch segment' :
  sorted_snapshot snapshot → keyed sg_segment_id (wk_segments working) →
  into_batch working snapshot context = Some batch → wk_segments working !! sg_segment_id segment = Some segment' →
  sg_segment_id segment' = sg_segment_id segment → (segment' ∉ sn_segments snapshot) →
  cb_traversal batch = wk_traversal working ∧ segment' ∈ cb_upsert_segments batch.
Proof.
  intros Hs Hk Hb Hl E Hnew. unfold into_batch in Hb. case_bool_decide; [done|]. injection Hb as <-. split; [done|].
  simpl cb_upsert_segments. apply (record_diff_upserts sg_segment_id (sn_segments snapshot)); [apply Hs|done|].
  by rewrite E.
Qed.

(** A committed page makes progress along the chain: the accepted events are
    a first part of the page, continue the catalog and are parent-linked with
    ascending slots up to the target; the batch moves the ingestion cursor to the
    last of them and extends the coverage segment the page continues to it; the
    rest of the page is handed back. *)
Theorem page_commit_advances_cursor snapshot events context batch remaining :
  sorted_snapshot snapshot →
  reduce_catalog_page snapshot events context = ROk (Commit batch remaining) →
  ∃ accepted first newest target segment,
    events = accepted ++ remaining ∧ head accepted = Some first ∧ last accepted = Some newest
    ∧ continues snapshot first ∧ linked_from None (map be_block accepted)
    ∧ current_target snapshot = ROk target ∧ ev_slot newest ≤ br_slot target
    ∧ (let reached := block_reference (ev_checkpoint newest) in
       cb_traversal batch = Some (mkTraversal (Some target) (Some reached))
       ∧ extended_segment snapshot first segment
       ∧ segment <| sg_frontier := reached |> <| sg_reaches_target_lib := bool_decide (reached = target) |>
         ∈ cb_upsert_segments batch).
Proof.
  intros Hsort (accepted & first & target & (Eev & Ehead & Hne & Hlink)%split_connected_spec & Happly & Hfirst & Hcont
    & Ht & Hbelow)%reduce_page_commit.
  apply apply_connected_events_ROk in Happly as (first' & newest & target' & segment & working & Hf & Hl & Ht' & Hext
    & (Htr & Hseg) & Hk & Hb); [|done].
  rewrite Ehead, Hfirst in Hf. injection Hf as <-. rewrite Ht in Ht'. injection Ht' as <-. rewrite Hfirst in Ehead.
  pose proof (linked_newest accepted first newest Hlink Ehead Hl) as Hslots.
  destruct (extended_upserted _ _ _ _ _ _ Hsort Hk Hb Hseg eq_refl) as [Etr Hup].
  { intros Hin. unfold continues, extended_segment in *. destruct (cursor_of (sn_traversal snapshot)) as [cursor|].
    - destruct Hext as [Hin' Hfr], Hcont as [Hlt _].
      pose proof (sorted_key_inj sg_segment_id _ _ _ (ss_segments _ Hsort) Hin Hin' eq_refl) as E.
      rewrite <- E in Hfr. simpl in Hfr. rewrite <- Hfr in Hlt. simpl in Hlt. unfold ev_slot in *. lia.
    - destruct Hcont as [_ Hnil]. rewrite Hnil in Hin. by apply elem_of_nil in Hin. }
  exists accepted, first, newest, target, segment. split_and!; try done; [|by rewrite Etr].
  apply Hbelow. rewrite Eev. apply elem_of_app. left. by apply last_Some_elem_of.
Qed.
End pages.
