(* ===== verification/CatalogTallies.v ===== *)
(** * Zone tallies

    What a zone's record says of its evidence: how many references and of which
    kinds, the latest of them and the range of their slots.  Ingesting blocks
    keeps every tally exact, whichever channels the blocks touch. *)

From S2P Require Import Prelude Json Bytes SortedRecords CatalogModel ChannelOps CatalogEngine CatalogStore.
From S2P Require Import CatalogValidity.

(** ** Orders given by a comparison *)
Class CompareOrder {A} (compare : A → A → comparison) : Prop := {
  compare_self a : compare a a = Eq;
  compare_flip a b : compare b a = CompOpp (compare a b);
  compare_eq a b c : compare a b = Eq → compare a c = compare b c;
  compare_lt a b c : compare a b = Lt → compare b c = Lt → compare a c = Lt;
}.

#[export] Instance Z_compare_order {A} (f : A → Z) : CompareOrder (λ a b, Z.compare (f a) (f b)).
Proof.
  split.
  - intros. apply Z.compare_refl.
  - intros. apply Z.compare_antisym.
  - by intros a b c ->%Z.compare_eq.
  - intros a b c. rewrite !Z.compare_lt_iff. lia.
Qed.

#[export] Instance string_compare_order {A} (f : A → string) : CompareOrder (λ a b, String.compare (f a) (f b)).
Proof.
  split.
  - intros. apply str_compare_refl.
  - intros. apply String.compare_antisym.
  - by intros a b c ->%String.compare_eq_iff.
  - intros a b c. apply (str_lt_trans (f a) (f b) (f c)).
Qed.

#[export] Instance then_compare_order {A} (c1 c2 : A → A → comparison) :
  CompareOrder c1 → CompareOrder c2 → CompareOrder (λ a b, then_compare (c1 a b) (c2 a b)).
Proof.
  intros H1 H2. split.
  - intros a. by rewrite compare_self, compare_self.
  - intros a b. rewrite (compare_flip a b), (@compare_flip _ c2 _ a b). by destruct (c1 a b).
  - intros a b c. destruct (c1 a b) eqn:E; try done. simpl. intros E2.
    by rewrite (compare_eq a b c E), (@compare_eq _ c2 _ a b c E2).
  - intros a b c. destruct (c1 a b) eqn:E; simpl; try done.
    + rewrite (compare_eq a b c E). destruct (c1 b c); simpl; try done. apply compare_lt.
    + intros _. destruct (c1 b c) eqn:E2; simpl; try done.
      * intros _. assert (Ec : c1 a c = Lt); [|by rewrite Ec].
        rewrite compare_flip. rewrite <- (compare_eq b c a E2). rewrite (compare_flip a b), E. done.
      * intros _. by rewrite (compare_lt a b c E E2).
Qed.

#[export] Instance evidence_order : CompareOrder evidence_order_compare.
Proof.
  change (CompareOrder (λ a b, evidence_order_compare a b)). unfold evidence_order_compare.
  repeat apply then_compare_order; first [apply Z_compare_order | apply string_compare_order].
Qed.

(** ** Greatest elements *)
(** [r] is not after [latest]. *)
Definition upto (latest r : ZoneEvidenceReference) : Prop := evidence_order_compare r latest ≠ Gt.

Lemma order_after_spec a b : order_after a b = true ↔ evidence_order_compare b a = Lt.
Proof.
  unfold order_after. rewrite (compare_flip a b). by destruct (evidence_order_compare a b).
Qed.

Lemma upto_trans a b c : upto b a → upto c b → upto c a.
Proof.
  unfold upto. intros H1 H2. destruct (evidence_order_compare a b) eqn:E1; [|clear H1|done].
  - by rewrite (compare_eq a b c E1).
  - destruct (evidence_order_compare b c) eqn:E2; [|by rewrite (compare_lt a b c E1 E2)|done].
    rewrite (compare_flip c a), <- (compare_eq _ _ a) with (1 := E2), (compare_flip a b), E1. done.
Qed.

Definition is_greatest (latest : ZoneEvidenceReference) (references : list ZoneEvidenceReference) : Prop :=
  latest ∈ references ∧ ∀ r, r ∈ references → upto latest r.

Lemma max_by_order_fold references : ∀ best, ∃ latest,
  foldl (λ best reference,
    match best with
    | Some best => if order_after best reference then Some best else Some reference
    | None => Some reference
    end) (Some best) references = Some latest ∧ is_greatest latest (best :: references).
Proof.
  induction references as [|r references IH]; intros best; simpl.
  { exists best. split; [done|]. split; [by left|]. intros x [->|?%elem_of_nil]%elem_of_cons; [|done].
    unfold upto. by rewrite compare_self. }
  set (b' := if order_after best r then best else r).
  replace (if order_after best r then Some best else Some r) with (Some b') by (unfold b'; by case_match).
  destruct (IH b') as (latest & -> & Hin & Hmax). exists latest. split; [done|].
  assert (Hb : b' = best ∨ b' = r) by (unfold b'; case_match; auto).
  assert (Hle : upto b' best ∧ upto b' r).
  { unfold b', upto. destruct (order_after best r) eqn:E.
    - apply order_after_spec in E. by rewrite compare_self, E.
    - rewrite compare_self. split; [|done]. intros Hgt. apply not_true_iff_false in E. apply E.
      apply order_after_spec. rewrite (compare_flip best r), Hgt. done. }
  split.
  - apply elem_of_cons in Hin as [->|Hin]; [|by do 2 right]. destruct Hb as [->| ->]; set_solver.
  - assert (Hb' : upto latest b') by (apply Hmax; by left).
    intros x [->|[->|Hx]%elem_of_cons]%elem_of_cons; [by eapply upto_trans, Hb'; apply Hle..|]. apply Hmax. by right.
Qed.

Lemma max_by_order_Some references latest :
  max_by_order references = Some latest → is_greatest latest references.
Proof.
  destruct references as [|r references]; [done|]. unfold max_by_order. simpl.
  destruct (max_by_order_fold references r) as (l & -> & Hl). by intros [= <-].
Qed.

(** [m] is the least, or the greatest, of the slots. *)
Definition is_min (m : Z) (slots : list Z) : Prop := m ∈ slots ∧ ∀ s, s ∈ slots → m ≤ s.
Definition is_max (m : Z) (slots : list Z) : Prop := m ∈ slots ∧ ∀ s, s ∈ slots → s ≤ m.

Lemma min_slot_fold slots : ∀ best, ∃ m,
  foldl (λ best slot, Some match best with Some best => Z.min best slot | None => slot end) (Some best) slots = Some m
  ∧ is_min m (best :: slots).
Proof.
  induction slots as [|s slots IH]; intros best; simpl; [exists best; split; [done|split; set_solver by lia]|].
  destruct (IH (Z.min best s)) as (m & -> & Hin & Hall). exists m. split; [done|]. split.
  - apply elem_of_cons in Hin as [->|Hin]; [|by do 2 right].
    destruct (Z.min_spec best s) as [[_ ->]|[_ ->]]; set_solver.
  - pose proof (Hall (Z.min best s) ltac:(by left)).
    intros x [->|[->|Hx]%elem_of_cons]%elem_of_cons; [lia..|]. apply Hall. by right.
Qed.

Lemma max_slot_fold slots : ∀ best, ∃ m,
  foldl (λ best slot, Some match best with Some best => Z.max best slot | None => slot end) (Some best) slots = Some m
  ∧ is_max m (best :: slots).
Proof.
  induction slots as [|s slots IH]; intros best; simpl; [exists best; split; [done|split; set_solver by lia]|].
  destruct (IH (Z.max best s)) as (m & -> & Hin & Hall). exists m. split; [done|]. split.
  - apply elem_of_cons in Hin as [->|Hin]; [|by do 2 right].
    destruct (Z.max_spec best s) as [[_ ->]|[_ ->]]; set_solver.
  - pose proof (Hall (Z.max best s) ltac:(by left)).
    intros x [->|[->|Hx]%elem_of_cons]%elem_of_cons; [lia..|]. apply Hall. by right.
Qed.

(** The slots a zone was seen at: those of its operations or, when it has none,
    that of its latest evidence. *)
Definition seen_slots (references : list ZoneEvidenceReference) (latest : ZoneEvidenceReference) : list Z :=
  match filter is_primary references with
  | [] => [ev_l1_slot latest]
  | primary => map ev_l1_slot primary
  end.

Lemma slot_range references latest :
  is_min (default (ev_l1_slot latest) (min_slot (map ev_l1_slot (filter is_primary references)))) (seen_slots references latest)
  ∧ is_max (default (ev_l1_slot latest) (max_slot (map ev_l1_slot (filter is_primary references)))) (seen_slots references latest).
Proof.
  unfold seen_slots, min_slot, max_slot. destruct (filter is_primary references) as [|r primary]; simpl.
  - split; (split; [by left|]); intros s ->%list_elem_of_singleton; done.
  - destruct (min_slot_fold (map ev_l1_slot primary) (ev_l1_slot r)) as (m & -> & Hm).
    by destruct (max_slot_fold (map ev_l1_slot primary) (ev_l1_slot r)) as (m' & -> & Hm').
Qed.

(** ** Tallies *)
(** The record agrees with the references of its channel. *)
Record tally (zone : ZoneCatalogRecord) (references : list ZoneEvidenceReference) : Prop := mkTally {
  tl_count : zr_evidence_count zone = zlen references;
  tl_operations : zc_channel_operations (zr_classification zone) = zlen (filter is_primary references);
  tl_blocks : zc_recognized_l2_blocks (zr_classification zone) = count_evidence references SequencerBlock;
  tl_raw : zc_raw_inscriptions (zr_classification zone) = count_evidence references RawInscription;
  tl_latest : ∃ latest, is_greatest latest references ∧ zr_latest_evidence_id zone = ev_evidence_id latest
    ∧ sp_coverage_segment_id (zr_snapshot_provenance zone) = ev_coverage_segment_id latest
    ∧ is_min (zr_first_seen_slot zone) (seen_slots references latest)
    ∧ is_max (zr_last_seen_slot zone) (seen_slots references latest);
  tl_observed : sp_observed_slot (zr_snapshot_provenance zone) = zr_last_seen_slot zone;
  tl_channel : lc_operation_count (zr_l1_channel zone) = zlen (filter is_primary references)
    ∧ lc_tip_slot (zr_l1_channel zone) = Some (zr_last_seen_slot zone);
  tl_conflict : 0 < count_evidence references SequencerBlock → 0 < count_evidence references RawInscription →
    zc_conflicting_evidence (zr_classification zone) = true;
}.

(** Every zone outside [stale] has an exact tally. *)
Record tallies_ok (working : WorkingCatalog) (stale : gset string) : Prop := mkTalliesOk {
  ta_evidence : keyed ev_evidence_id (wk_evidence working);
  ta_zones : keyed zr_channel_id (wk_zones working);
  ta_owned id e : wk_evidence working !! id = Some e → is_Some (wk_zones working !! ev_channel_id e);
  ta_tally c zone : c ∉ stale → wk_zones working !! c = Some zone →
    tally zone (channel_references (wk_evidence working) c);
}.

Lemma tallies_weaken working stale stale' : stale ⊆ stale' → tallies_ok working stale → tallies_ok working stale'.
Proof. intros Hsub [H1 H2 H3 H4]. split; [done..|]. intros c zone Hc. apply H4. set_solver. Qed.

Lemma keyed_insert {T} (key : T → string) (m : gmap string T) r : keyed key m → keyed key (<[key r := r]> m).
Proof. intros Hm k r'. rewrite lookup_insert_Some. intros [[<- <-]|[_ ?]]; auto. Qed.

Lemma channel_references_insert (m : gmap string ZoneEvidenceReference) e c :
  keyed ev_evidence_id m → (m !! ev_evidence_id e = None ∨ m !! ev_evidence_id e = Some e) → ev_channel_id e ≠ c →
  channel_references (<[ev_evidence_id e := e]> m) c = channel_references m c.
Proof.
  intros Hm Hold Hc. unfold channel_references. apply (sorted_by_ext ev_evidence_id).
  - by apply sorted_by_filter, values_sorted, keyed_insert.
  - by apply sorted_by_filter, values_sorted.
  - intros r. rewrite !list_elem_of_filter, !elem_of_values. split; intros [Hr (k & Hk)]; (split; [done|]); exists k.
    + apply lookup_insert_Some in Hk as [[_ <-]|[_ ?]]; done.
    + rewrite lookup_insert_ne; [done|]. intros <-. destruct Hold as [Hold|Hold]; congruence.
Qed.

Lemma insert_evidence_ROk working e new working' :
  insert_evidence working e = ROk (new, working') →
  wk_zones working' = wk_zones working ∧ wk_evidence working' = <[ev_evidence_id e := e]> (wk_evidence working)
  ∧ wk_evidence working !! ev_evidence_id e = (if new then None else Some e).
Proof.
  unfold insert_evidence. destruct (wk_evidence working !! ev_evidence_id e) as [old|] eqn:E.
  - case_bool_decide as Eold; [|done]. intros [= <- <-]. subst old. by rewrite insert_id.
  - by intros [= <- <-].
Qed.

(** Evidence of a stale channel may come in. *)
Lemma tallies_insert working stale e new working' :
  tallies_ok working stale → ev_channel_id e ∈ stale → insert_evidence working e = ROk (new, working') →
  keyed ev_evidence_id (wk_evidence working') ∧ wk_zones working' = wk_zones working
  ∧ (∀ c, c ∉ stale → channel_references (wk_evidence working') c = channel_references (wk_evidence working) c)
  ∧ (∀ id r, wk_evidence working' !! id = Some r → r = e ∨ is_Some (wk_zones working !! ev_channel_id r)).
Proof.
  intros [H1 H2 H3 H4] He (Ez & Eev & Hold)%insert_evidence_ROk. rewrite Ez, Eev. split_and!.
  - by apply keyed_insert.
  - done.
  - intros c Hc. apply channel_references_insert; [done|destruct new; auto|set_solver].
  - intros id r. rewrite lookup_insert_Some. intros [[_ <-]|[_ ?]]; eauto.
Qed.

Lemma observe_committee_channel observation slot a b record :
  zr_channel_id (observe_committee observation slot a b record) = zr_channel_id record.
Proof. unfold observe_committee. by repeat case_match. Qed.

Lemma tallies_ingest_observation block segment_id target_slot context observation stale working working' :
  tallies_ok working stale → ob_channel_id observation ∈ stale →
  ingest_observation block segment_id target_slot context observation working = ROk working' →
  tallies_ok working' stale.
Proof.
  intros Hok Hc. unfold ingest_observation.
  destruct (match ob_kind observation with OConfiguration _ _ => _ | _ => _ end) as [[[kind use] root] conflicting].
  set (primary := evidence_reference observation block segment_id kind use).
  intros ([new w1] & Hi1 & (w2 & Hi2 & Hrest)%rbind_ROk)%rbind_ROk.
  pose proof (tallies_insert working stale primary new w1 Hok Hc Hi1) as (K1 & Z1 & C1 & O1).
  assert (Hw2 : keyed ev_evidence_id (wk_evidence w2) ∧ wk_zones w2 = wk_zones working
    ∧ (∀ c, c ∉ stale → channel_references (wk_evidence w2) c = channel_references (wk_evidence working) c)
    ∧ (∀ id r, wk_evidence w2 !! id = Some r →
         ev_channel_id r = ob_channel_id observation ∨ is_Some (wk_zones working !! ev_channel_id r))).
  { assert (O1' : ∀ id r, wk_evidence w1 !! id = Some r →
      ev_channel_id r = ob_channel_id observation ∨ is_Some (wk_zones working !! ev_channel_id r)).
    { intros id r [->|?]%O1; auto. }
    destruct root; [|by injection Hi2 as <-].
    apply rbind_ROk in Hi2 as ([n w] & (Ez & Eev & Hold)%insert_evidence_ROk & [= <-]). simpl.
    rewrite Ez, Eev. split_and!; [by apply keyed_insert|done| |].
    - intros c Hnc. rewrite <- C1 by done. apply channel_references_insert; [done|destruct n; auto|set_solver].
    - intros id r. rewrite lookup_insert_Some. intros [[_ <-]|[_ Hr]]; [by left|eauto]. }
  destruct Hw2 as (K2 & Z2 & C2 & O2). destruct Hok as [H1 H2 H3 H4].
  destruct new; simpl in Hrest; injection Hrest as <-; split; simpl; try done.
  - rewrite Z2. intros k r. rewrite lookup_insert_Some. intros [[<- <-]|[_ Hr]]; [|by apply H2].
    rewrite observe_committee_channel. simpl.
    destruct (wk_zones working !! ob_channel_id observation) as [zone|] eqn:E; [by apply H2|done].
  - intros id r Hr. rewrite Z2. destruct (decide (ob_channel_id observation = ev_channel_id r)) as [<-|Hne].
    + rewrite lookup_insert_eq. by eexists.
    + rewrite lookup_insert_ne by done. by destruct (O2 _ _ Hr) as [E|].
  - intros c zone Hnc. rewrite lookup_insert_ne by set_solver. rewrite Z2, C2 by done. by apply H4.
  - by rewrite Z2.
  - intros id r Hr. rewrite Z2. destruct (O2 _ _ Hr) as [E|]; [|done]. rewrite E.
    apply insert_evidence_ROk in Hi1 as (_ & _ & Hold). by apply H3 in Hold.
  - intros c zone Hnc. rewrite Z2, C2 by done. by apply H4.
Qed.

(** Recomputing a channel makes its tally exact. *)
Lemma tallies_recompute target_slot context c working stale working' :
  tallies_ok working stale → recompute_zone_record target_slot context c working = ROk working' →
  tallies_ok working' (stale ∖ {[c]}).
Proof.
  intros [H1 H2 H3 H4] (latest & Hl%ok_or_else_ROk%max_by_order_Some & (record & Hr%ok_or_else_ROk & [= <-])
    %rbind_ROk)%rbind_ROk. split; simpl; try done.
  - intros k r. rewrite lookup_insert_Some. intros [[<- <-]|[_ ?]]; [by apply (H2 c record)|by apply H2].
  - intros id e He. apply lookup_insert_is_Some. destruct (decide (c = ev_channel_id e)); [by left|right]. eauto.
  - intros k zone Hk. rewrite lookup_insert_Some. intros [[<- <-]|[Hne Hz]]; [|by apply H4; [set_solver|]].
    split; simpl; try done.
    + exists latest. split_and!; [done..|apply slot_range|apply slot_range].
    + intros Hb Hr'. rewrite (proj2 (Z.ltb_lt _ _) Hb), (proj2 (Z.ltb_lt _ _) Hr'). apply orb_true_r.
Qed.

Lemma tallies_recompute_fold target_slot context channels : ∀ working stale working',
  tallies_ok working stale → fold_res (recompute_zone_record target_slot context) channels working = ROk working' →
  tallies_ok working' (stale ∖ list_to_set channels).
Proof.
  induction channels as [|c channels IH]; intros working stale working' Hok; simpl.
  { intros [= <-]. eapply tallies_weaken, Hok. set_solver. }
  intros (w & Hw & Hrest)%rbind_ROk. apply (tallies_recompute _ _ _ _ _ _ Hok) in Hw.
  apply (IH _ _ _ Hw) in Hrest. eapply tallies_weaken, Hrest. set_solver.
Qed.

Section ingest.
Context `{SJ : SerdeJson} `{HC : HexCrate} `{SH : Sha2Crate} `{SB : SequencerBlocks}.

Lemma tallies_ingest_block segment_id target_slot context block state state' :
  tallies_ok state.2 state.1 → ingest_block segment_id target_slot context block state = ROk state' →
  tallies_ok state'.2 state'.1.
Proof.
  intros Hok (observations & _ & (working & Hf & [= <-])%rbind_ROk)%rbind_ROk. simpl.
  set (stale := list_to_set (map ob_channel_id observations) ∪ state.1).
  revert Hf. apply (fold_res_invariant _ (λ w, tallies_ok w stale)).
  - intros o w w' Ho Hw. apply tallies_ingest_observation; [done|]. apply elem_of_union_l, elem_of_list_to_set.
    by apply list_elem_of_fmap_2.
  - eapply tallies_weaken, Hok. set_solver.
Qed.

(** C39. Ingesting blocks keeps the zones' tallies exact: when every zone's
    evidence count, counters by kind, latest evidence and its segment, and first
    and last slots, which are the least and the greatest of its operations, agree
    with the evidence of its channel, a zone with both Sequencer blocks and raw
    inscriptions is marked as conflicting, and all evidence belongs to a zone,
    then this holds after any blocks are ingested into any segment. *)
Theorem ingest_keeps_tallies working blocks segment_id context working' :
  tallies_ok working ∅ → ingest_blocks working blocks segment_id context = ROk working' → tallies_ok working' ∅.
Proof.
  intros Hok (target & _ & (state & Hf & Hr)%rbind_ROk)%rbind_ROk.
  assert (Hs : tallies_ok state.2 state.1).
  { revert Hf. apply (fold_res_invariant _ (λ s : gset string * WorkingCatalog, tallies_ok s.2 s.1)); [|done].
    intros b s s' _. apply tallies_ingest_block. }
  apply (tallies_recompute_fold _ _ _ _ _ _ Hs) in Hr. eapply tallies_weaken, Hr.
  intros c. rewrite elem_of_difference, elem_of_list_to_set, elem_of_str_sort, elem_of_elements. tauto.
Qed.
End ingest.
