(* ===== verification/ZoneClassification.v ===== *)
(** * Zone classification

    inspection/zones/classification.rs: what a catalog snapshot says a channel
    is, and which facts of its record its evidence supports.  On a valid snapshot
    whose zone has an exact tally, the classification is a statement about the
    evidence and its coverage. *)

From S2P Require Import Prelude Json Bytes SortedRecords CatalogModel ChannelOps CatalogEngine CatalogStore.
From S2P Require Import CatalogValidity CatalogTallies.

Inductive ZoneKind : Type := SequencerZone | DataChannel | UnknownZone.
#[export] Instance ZoneKind_eq_dec : EqDecision ZoneKind.
Proof. solve_decision. Defined.

Record ZoneClassificationEvidence : Type := mkClassificationEvidence {
  ce_recognized_l2_evidence : bool;
  ce_configured_sequencer_link : bool;
  ce_raw_inscription_evidence : bool;
  ce_l2_absence_is_covered : bool;
  ce_conflicting_evidence : bool;
}.

Record ZoneFactGates : Type := mkFactGates {
  fg_presence_facts : bool;
  fg_point_snapshot_facts : bool;
  fg_replay_facts : bool;
  fg_absence_facts : bool;
}.

Record CatalogZoneClassification : Type := mkClassification {
  cl_kind : ZoneKind;
  cl_evidence : ZoneClassificationEvidence;
  cl_fact_gates : ZoneFactGates;
}.

Record CatalogZoneClassifier : Type := mkClassifier {
  cz_evidence_by_channel : gmap string (list ZoneEvidenceReference);
  cz_segments_by_id : gmap string CoverageSegment;
  cz_current_target : option CatalogBlockReference;
  cz_connected_genesis_prefix : bool;
}.

Definition current_catalog_target (snapshot : CatalogSnapshot) : option CatalogBlockReference :=
  match sn_traversal snapshot ≫= tv_target_lib with
  | Some target => Some target
  | None => sn_frontier snapshot ≫= fr_observed_lib
  end.

Definition push_evidence (reference : ZoneEvidenceReference) (m : gmap string (list ZoneEvidenceReference))
    : gmap string (list ZoneEvidenceReference) :=
  <[ev_channel_id reference := default [] (m !! ev_channel_id reference) ++ [reference]]> m.

Definition classifier_new (snapshot : CatalogSnapshot) : CatalogZoneClassifier :=
  mkClassifier
    (foldl (λ m reference, push_evidence reference m) ∅ (sn_evidence snapshot))
    (index_by sg_segment_id (sn_segments snapshot))
    (current_catalog_target snapshot)
    match sn_frontier snapshot with
    | Some frontier =>
        bool_decide (fr_prefix_status frontier = PrefixComplete)
        && bool_decide (fr_coverage_floor frontier = Some 0)
        && bool_decide (sn_gaps snapshot = [])
        && (length (sn_segments snapshot) =? 1)%nat
    | None => false
    end.

Section classifier.
Context (classifier : CatalogZoneClassifier).

Definition channel_evidence (record : ZoneCatalogRecord) : list ZoneEvidenceReference :=
  default [] (cz_evidence_by_channel classifier !! zr_channel_id record).

Definition evidence_has_valid_segment (reference : ZoneEvidenceReference) : bool :=
  match cz_segments_by_id classifier !! ev_coverage_segment_id reference with
  | Some segment =>
      (cp_slot (sg_floor segment) <=? ev_l1_slot reference) && (ev_l1_slot reference <=? br_slot (sg_frontier segment))
  | None => false
  end.

(** All of a zone's lifecycle lies in the segment of its snapshot. *)
Definition lifecycle_connected (record : ZoneCatalogRecord) (evidence : list ZoneEvidenceReference)
    (segment : CoverageSegment) : bool :=
  let provenance := zr_snapshot_provenance record in
  let in_segment reference := String.eqb (ev_coverage_segment_id reference) (sg_segment_id segment) in
  let all_lifecycle_evidence_is_connected :=
    forallb (λ reference,
      in_segment reference && (ev_l1_slot reference <=? sp_observed_slot provenance)
      && evidence_has_valid_segment reference) evidence in
  let creation_is_covered :=
    (cz_connected_genesis_prefix classifier && (cp_slot (sg_floor segment) =? 0))
    || existsb (λ reference,
         in_segment reference && bool_decide (ev_evidence_kind reference = ChannelCreated)
         && (ev_l1_slot reference <=? zr_first_seen_slot record) && evidence_has_valid_segment reference) evidence in
  let snapshot_is_in_segment :=
    (cp_slot (sg_floor segment) <=? zr_first_seen_slot record)
    && (zr_first_seen_slot record <=? sp_observed_slot provenance)
    && (zr_last_seen_slot record <=? sp_observed_slot provenance)
    && (sp_observed_slot provenance <=? br_slot (sg_frontier segment)) in
  snapshot_is_in_segment && all_lifecycle_evidence_is_connected && creation_is_covered.

Definition fact_gates (record : ZoneCatalogRecord) (evidence : list ZoneEvidenceReference) : ZoneFactGates :=
  let provenance := zr_snapshot_provenance record in
  let presence_facts := existsb evidence_has_valid_segment evidence in
  match cz_segments_by_id classifier !! sp_coverage_segment_id provenance with
  | None => mkFactGates presence_facts false false false
  | Some snapshot_segment =>
      let point_snapshot_facts :=
        (bool_decide (sp_origin provenance = OriginPointSnapshot) || bool_decide (sp_origin provenance = FullConfiguration))
        && existsb (λ reference,
             String.eqb (ev_coverage_segment_id reference) (sg_segment_id snapshot_segment)
             && bool_decide (ev_evidence_use reference = UsePointSnapshot)
             && evidence_has_valid_segment reference) evidence in
      let lifecycle_reaches_target :=
        match cz_current_target classifier with
        | Some target => sg_reaches_target_lib snapshot_segment && bool_decide (sg_frontier snapshot_segment = target)
        | None => false
        end in
      let lifecycle_history_is_connected := lifecycle_connected record evidence snapshot_segment in
      mkFactGates presence_facts point_snapshot_facts
        (bool_decide (sp_origin provenance = ReplayDerived) && lifecycle_history_is_connected)
        (lifecycle_history_is_connected && lifecycle_reaches_target)
  end.

Definition classify_zone (evidence : ZoneClassificationEvidence) : ZoneKind :=
  if ce_conflicting_evidence evidence then UnknownZone
  else if ce_recognized_l2_evidence evidence || ce_configured_sequencer_link evidence then SequencerZone
  else if ce_raw_inscription_evidence evidence && ce_l2_absence_is_covered evidence then DataChannel
  else UnknownZone.

(** Some evidence of a kind lies in its segment. *)
Definition kind_referenced (kind : ZoneEvidenceKind) (evidence : list ZoneEvidenceReference) : bool :=
  existsb (λ reference, bool_decide (ev_evidence_kind reference = kind) && evidence_has_valid_segment reference) evidence.

Definition classify (record : ZoneCatalogRecord) (configured_sequencer_link : bool) : CatalogZoneClassification :=
  let evidence := channel_evidence record in
  let gates := fact_gates record evidence in
  let authoritative_committee :=
    match zr_sequencer_committee record with
    | Some committee => negb (bool_decide (sc_members committee = []))
    | None => false
    end && (fg_point_snapshot_facts gates || fg_replay_facts gates) in
  let counters := zr_classification record in
  let result :=
    mkClassificationEvidence
      (((0 <? zc_recognized_l2_blocks counters) && kind_referenced SequencerBlock evidence) || authoritative_committee)
      configured_sequencer_link
      ((0 <? zc_raw_inscriptions counters) && kind_referenced RawInscription evidence)
      (fg_absence_facts gates) (zc_conflicting_evidence counters) in
  mkClassification (classify_zone result) result gates.
End classifier.

Definition classify_catalog_zone (snapshot : CatalogSnapshot) (record : ZoneCatalogRecord)
    (configured_sequencer_link : bool) : CatalogZoneClassification :=
  classify (classifier_new snapshot) record configured_sequencer_link.
Definition catalog_fact_gates (snapshot : CatalogSnapshot) (record : ZoneCatalogRecord) : ZoneFactGates :=
  fact_gates (classifier_new snapshot) record (channel_evidence (classifier_new snapshot) record).

(** ** What the classifier sees of a snapshot *)
Definition zone_evidence (snapshot : CatalogSnapshot) (record : ZoneCatalogRecord) : list ZoneEvidenceReference :=
  filter (λ reference, ev_channel_id reference = zr_channel_id record) (sn_evidence snapshot).

Lemma push_evidence_fold references : ∀ (m : gmap string (list ZoneEvidenceReference)) c,
  default [] (foldl (λ m reference, push_evidence reference m) m references !! c)
  = default [] (m !! c) ++ filter (λ reference, ev_channel_id reference = c) references.
Proof.
  induction references as [|r references IH]; intros m c; simpl foldl; [by rewrite app_nil_r|].
  rewrite IH, filter_cons. unfold push_evidence. case_decide as E.
  - rewrite E, lookup_insert_eq. simpl. by rewrite <- app_assoc.
  - by rewrite lookup_insert_ne.
Qed.

Section valid.
Context (snapshot : CatalogSnapshot) (Hs : sorted_snapshot snapshot) (Hv : valid_snapshot snapshot).
Let classifier := classifier_new snapshot.

Lemma channel_evidence_spec record : channel_evidence classifier record = zone_evidence snapshot record.
Proof. unfold channel_evidence, zone_evidence. simpl. by rewrite push_evidence_fold, lookup_empty. Qed.

Lemma segments_by_id_spec id : cz_segments_by_id classifier !! id = segment_in snapshot id.
Proof using Hs. by apply index_by_find, Hs. Qed.

(** On a valid snapshot every reference lies in its segment. *)
Lemma evidence_covered reference :
  reference ∈ sn_evidence snapshot →
  ∃ segment, segment_in snapshot (ev_coverage_segment_id reference) = Some segment
    ∧ cp_slot (sg_floor segment) ≤ ev_l1_slot reference ≤ br_slot (sg_frontier segment).
Proof using Hv.
  intros Hin%Hv. unfold check_evidence in Hin. apply rseq_ROk in Hin as [_ Hin].
  destruct (segment_in snapshot _) as [segment|]; [|done]. exists segment. split; [done|].
  destruct (Z.ltb_spec (ev_l1_slot reference) (cp_slot (sg_floor segment))); [done|].
  destruct (Z.ltb_spec (br_slot (sg_frontier segment)) (ev_l1_slot reference)); [done|]. lia.
Qed.

Lemma evidence_valid reference : reference ∈ sn_evidence snapshot → evidence_has_valid_segment classifier reference = true.
Proof using Hs Hv.
  intros (segment & E & Hr)%evidence_covered. unfold evidence_has_valid_segment. rewrite segments_by_id_spec, E.
  apply andb_true_iff. rewrite !Z.leb_le. lia.
Qed.

Lemma zone_evidence_in record reference :
  reference ∈ zone_evidence snapshot record ↔ reference ∈ sn_evidence snapshot ∧ ev_channel_id reference = zr_channel_id record.
Proof. unfold zone_evidence. rewrite list_elem_of_filter. tauto. Qed.

Definition has_kind (record : ZoneCatalogRecord) (kind : ZoneEvidenceKind) : Prop :=
  ∃ reference, reference ∈ sn_evidence snapshot ∧ ev_channel_id reference = zr_channel_id record
    ∧ ev_evidence_kind reference = kind.

Lemma count_evidence_pos record kind : 0 < count_evidence (zone_evidence snapshot record) kind ↔ has_kind record kind.
Proof.
  unfold count_evidence, has_kind. split.
  - intros Hp. destruct (filter _ (zone_evidence snapshot record)) as [|r l] eqn:E; [by unfold zlen in Hp|].
    assert (Hr : r ∈ filter (λ r, ev_evidence_kind r = kind) (zone_evidence snapshot record)) by (rewrite E; left).
    apply list_elem_of_filter in Hr as [Hk [Hr Hc]%zone_evidence_in]. by exists r.
  - intros (r & Hr & Hc & Hk).
    assert (Hin : r ∈ filter (λ r, ev_evidence_kind r = kind) (zone_evidence snapshot record)).
    { apply list_elem_of_filter. split; [done|]. by apply zone_evidence_in. }
    destruct (filter _ (zone_evidence snapshot record)); [by apply elem_of_nil in Hin|]. unfold zlen. simpl length. lia.
Qed.

Lemma kind_referenced_spec record kind :
  kind_referenced classifier kind (zone_evidence snapshot record) = true ↔ has_kind record kind.
Proof using Hs Hv.
  unfold kind_referenced, has_kind. rewrite existsb_exists. split.
  - intros (r & [Hr Hc]%list_elem_of_In%zone_evidence_in & [Hk _]%andb_true_iff).
    apply bool_decide_eq_true in Hk. by exists r.
  - intros (r & Hr & Hc & Hk). exists r. split; [by apply list_elem_of_In, zone_evidence_in|].
    apply andb_true_iff. rewrite bool_decide_eq_true. split; [done|]. by apply evidence_valid.
Qed.

(** The one segment of a snapshot without gaps that goes back to the genesis. *)
Definition complete_prefix : Prop :=
  ∃ frontier, sn_frontier snapshot = Some frontier ∧ fr_prefix_status frontier = PrefixComplete
    ∧ fr_coverage_floor frontier = Some 0 ∧ sn_gaps snapshot = [] ∧ length (sn_segments snapshot) = 1%nat.

(** The segment holds all of the zone's history, from its creation to the slot it
    was last seen at. *)
Definition lifecycle_in (record : ZoneCatalogRecord) (segment : CoverageSegment) : Prop :=
  (∀ reference, reference ∈ zone_evidence snapshot record →
     ev_coverage_segment_id reference = sg_segment_id segment ∧ ev_l1_slot reference ≤ zr_last_seen_slot record)
  ∧ (complete_prefix ∧ cp_slot (sg_floor segment) = 0
     ∨ ∃ reference, reference ∈ zone_evidence snapshot record ∧ ev_evidence_kind reference = ChannelCreated
         ∧ ev_l1_slot reference ≤ zr_first_seen_slot record).

(** Where the latest evidence of the zone is. *)
Definition zone_segment (record : ZoneCatalogRecord) : option CoverageSegment :=
  segment_in snapshot (sp_coverage_segment_id (zr_snapshot_provenance record)).

(** The segment reaches the target of the catalog. *)
Definition covered_to_target (record : ZoneCatalogRecord) : Prop :=
  ∃ segment, zone_segment record = Some segment ∧ lifecycle_in record segment
    ∧ sg_reaches_target_lib segment = true ∧ current_catalog_target snapshot = Some (sg_frontier segment).

(** The committee of the record comes from a configuration in that segment, or
    from a replay of the whole history. *)
Definition committee_supported (record : ZoneCatalogRecord) : Prop :=
  ∃ committee segment, zr_sequencer_committee record = Some committee ∧ sc_members committee ≠ []
    ∧ zone_segment record = Some segment
    ∧ (sp_origin (zr_snapshot_provenance record) ∈ [OriginPointSnapshot; FullConfiguration]
       ∧ (∃ reference, reference ∈ zone_evidence snapshot record ∧ ev_evidence_use reference = UsePointSnapshot
            ∧ ev_coverage_segment_id reference = sg_segment_id segment)
       ∨ sp_origin (zr_snapshot_provenance record) = ReplayDerived ∧ lifecycle_in record segment).

Lemma connected_prefix_spec : cz_connected_genesis_prefix classifier = true ↔ complete_prefix.
Proof.
  unfold complete_prefix. simpl. destruct (sn_frontier snapshot) as [frontier|].
  - rewrite !andb_true_iff, !bool_decide_eq_true, Nat.eqb_eq. naive_solver.
  - naive_solver.
Qed.

Section zone.
Context (record : ZoneCatalogRecord) (Ht : tally record (zone_evidence snapshot record)).
Context (segment : CoverageSegment) (Hseg : zone_segment record = Some segment).

Lemma existsb_evidence (p : ZoneEvidenceReference → bool) (P : ZoneEvidenceReference → Prop) :
  (∀ reference, reference ∈ sn_evidence snapshot → p reference = true ↔ P reference) →
  existsb p (zone_evidence snapshot record) = true ↔ ∃ reference, reference ∈ zone_evidence snapshot record ∧ P reference.
Proof.
  intros HP. rewrite existsb_exists. split; intros (r & Hr & Hp); exists r.
  - apply list_elem_of_In in Hr. split; [done|]. apply HP; [|done]. by apply zone_evidence_in in Hr as [? _].
  - split; [by apply list_elem_of_In|]. apply HP; [|done]. by apply zone_evidence_in in Hr as [? _].
Qed.

(** The slots of the record lie in its segment when its evidence does. *)
Lemma seen_in_segment :
  (∀ reference, reference ∈ zone_evidence snapshot record → ev_coverage_segment_id reference = sg_segment_id segment) →
  cp_slot (sg_floor segment) ≤ zr_first_seen_slot record ≤ zr_last_seen_slot record
  ∧ zr_last_seen_slot record ≤ br_slot (sg_frontier segment).
Proof using Hs Hv Ht Hseg.
  intros Hall. destruct (tl_latest _ _ Ht) as (latest & [Hin _] & _ & _ & [Hf Hmin] & [Hl _]).
  assert (Hb : ∀ slot, slot ∈ seen_slots (zone_evidence snapshot record) latest →
    cp_slot (sg_floor segment) ≤ slot ≤ br_slot (sg_frontier segment)).
  { intros slot Hslot. assert (Hr : ∃ r, r ∈ zone_evidence snapshot record ∧ ev_l1_slot r = slot).
    { unfold seen_slots in Hslot. destruct (filter is_primary _) as [|r primary] eqn:Ef.
      - apply list_elem_of_singleton in Hslot as ->. by exists latest.
      - rewrite <- Ef in Hslot. apply list_elem_of_fmap in Hslot as (r' & -> & [_ ?]%list_elem_of_filter). by exists r'. }
    destruct Hr as (r & Hr & <-). specialize (Hall r Hr). apply zone_evidence_in in Hr as [Hr _].
    destruct (evidence_covered r Hr) as (segment' & Es & Hbounds). rewrite Hall in Es.
    apply find_by_Some in Es as [Hin' E]; [|apply Hs]. apply find_by_Some in Hseg as [Hin'' E']; [|apply Hs].
    by rewrite (sorted_key_inj sg_segment_id _ _ _ (ss_segments _ Hs) Hin' Hin'' E) in Hbounds. }
  pose proof (Hb _ Hf). pose proof (Hb _ Hl). pose proof (Hmin _ Hl). lia.
Qed.

Lemma lifecycle_connected_spec :
  lifecycle_connected classifier record (zone_evidence snapshot record) segment = true ↔ lifecycle_in record segment.
Proof using Hs Hv Ht Hseg.
  unfold lifecycle_connected, lifecycle_in. rewrite (tl_observed _ _ Ht). rewrite !andb_true_iff, orb_true_iff, andb_true_iff.
  rewrite connected_prefix_spec, Z.eqb_eq, !Z.leb_le, forallb_forall.
  set (all := ∀ x, In x (zone_evidence snapshot record) → _ = true).
  assert (Hall : all ↔ ∀ r, r ∈ zone_evidence snapshot record →
    ev_coverage_segment_id r = sg_segment_id segment ∧ ev_l1_slot r ≤ zr_last_seen_slot record).
  { unfold all. split; intros H r Hr.
    - apply list_elem_of_In in Hr as Hr'. specialize (H r Hr'). rewrite !andb_true_iff, String.eqb_eq, Z.leb_le in H. tauto.
    - apply list_elem_of_In in Hr as Hr'. rewrite !andb_true_iff, String.eqb_eq, Z.leb_le. split; [by apply H|].
      apply evidence_valid. by apply zone_evidence_in in Hr' as [? _]. }
  rewrite Hall. clear all Hall. rewrite (existsb_evidence _ (λ r, ev_coverage_segment_id r = sg_segment_id segment
    ∧ ev_evidence_kind r = ChannelCreated ∧ ev_l1_slot r ≤ zr_first_seen_slot record)).
  2:{ intros r Hr. rewrite (evidence_valid r Hr), andb_true_r, !andb_true_iff, String.eqb_eq, bool_decide_eq_true, Z.leb_le. tauto. }
  split.
  - intros ((_ & Hin) & Hcr). split; [done|]. destruct Hcr as [?|(r & Hr & _ & ?)]; [by left|right; by exists r].
  - intros [Hin Hcr]. pose proof (seen_in_segment (λ r Hr, proj1 (Hin r Hr))). split_and!; try lia; [done|].
    destruct Hcr as [?|(r & Hr & ? & ?)]; [by left|right]. exists r. split; [done|]. split; [by apply Hin|done].
Qed.
End zone.

Lemma zone_segment_found record :
  tally record (zone_evidence snapshot record) → is_Some (zone_segment record).
Proof using Hs Hv.
  intros Ht. destruct (tl_latest _ _ Ht) as (latest & [[Hin _]%zone_evidence_in _] & _ & E & _).
  destruct (evidence_covered latest Hin) as (segment & Hseg & _). unfold zone_segment. by rewrite E, Hseg.
Qed.

Section gates.
Context (record : ZoneCatalogRecord) (Ht : tally record (zone_evidence snapshot record)).
Let gates := fact_gates classifier record (zone_evidence snapshot record).

Lemma absence_facts_spec : fg_absence_facts gates = true ↔ covered_to_target record.
Proof using Hs Hv Ht.
  destruct (zone_segment_found record Ht) as [segment Hseg]. unfold gates, fact_gates, covered_to_target.
  rewrite segments_by_id_spec. unfold zone_segment in *. rewrite Hseg. simpl.
  rewrite andb_true_iff, (lifecycle_connected_spec record Ht segment Hseg). split.
  - intros [Hc Hr]. exists segment. destruct (current_catalog_target snapshot) as [target|]; [|done].
    apply andb_true_iff in Hr as [Hr ->%bool_decide_eq_true]. by split_and!.
  - intros (segment' & [= <-] & Hc & Hr & ->). split; [done|]. by rewrite Hr, bool_decide_true.
Qed.

Lemma committee_facts_spec :
  match zr_sequencer_committee record with Some committee => negb (bool_decide (sc_members committee = [])) | None => false end
    && (fg_point_snapshot_facts gates || fg_replay_facts gates) = true ↔ committee_supported record.
Proof using Hs Hv Ht.
  destruct (zone_segment_found record Ht) as [segment Hseg]. unfold gates, fact_gates, committee_supported.
  rewrite segments_by_id_spec. unfold zone_segment in *. rewrite Hseg. simpl.
  rewrite !andb_true_iff, orb_true_iff, !andb_true_iff, orb_true_iff, !bool_decide_eq_true,
    (lifecycle_connected_spec record Ht segment Hseg).
  rewrite (existsb_evidence record _ (λ r, ev_evidence_use r = UsePointSnapshot
    ∧ ev_coverage_segment_id r = sg_segment_id segment)).
  2:{ intros r Hr. rewrite (evidence_valid r Hr), andb_true_r, andb_true_iff, String.eqb_eq, bool_decide_eq_true. tauto. }
  destruct (zr_sequencer_committee record) as [committee|]; [|naive_solver].
  rewrite negb_true_iff, bool_decide_eq_false. set_unfold. naive_solver.
Qed.
End gates.
End valid.

(** C40. On a valid snapshot, the kind of a zone with an exact tally is exactly what
    its evidence and their coverage say.  It is a Sequencer zone when nothing
    conflicts and it has a Sequencer block, a configured Sequencer or a supported
    committee, one that comes from a configuration in the segment of its latest
    evidence or from a replay of its whole history; a data channel when nothing
    conflicts, none of these is there, and it has raw inscriptions and its whole
    history from its creation on lies in one segment that reaches the target;
    and unknown otherwise. *)
Theorem zone_kind_justified snapshot record link :
  sorted_snapshot snapshot → validate_snapshot snapshot = ROk () → tally record (zone_evidence snapshot record) →
  let kind := cl_kind (classify_catalog_zone snapshot record link) in
  let conflict := zc_conflicting_evidence (zr_classification record) = true in
  let sequencer := has_kind snapshot record SequencerBlock ∨ link = true ∨ committee_supported snapshot record in
  let data := has_kind snapshot record RawInscription ∧ covered_to_target snapshot record in
  (kind = SequencerZone ↔ ¬ conflict ∧ sequencer)
  ∧ (kind = DataChannel ↔ ¬ conflict ∧ ¬ sequencer ∧ data)
  ∧ (kind = UnknownZone ↔ conflict ∨ ¬ sequencer ∧ ¬ data).
Proof.
  intros Hs Hv%validate_snapshot_spec Ht; [|done]. unfold classify_catalog_zone, classify.
  rewrite channel_evidence_spec. simpl. unfold classify_zone. simpl.
  rewrite (tl_blocks _ _ Ht), (tl_raw _ _ Ht).
  assert (Hb : ∀ kind, (0 <? count_evidence (zone_evidence snapshot record) kind)
    && kind_referenced (classifier_new snapshot) kind (zone_evidence snapshot record) = true ↔ has_kind snapshot record kind).
  { intros kind. rewrite andb_true_iff, Z.ltb_lt, count_evidence_pos, kind_referenced_spec by done. tauto. }
  rewrite <- (Hb SequencerBlock), <- (Hb RawInscription), <- (absence_facts_spec snapshot Hs Hv record Ht),
    <- (committee_facts_spec snapshot Hs Hv record Ht). clear Hb.
  set (b1 := _ && kind_referenced _ SequencerBlock _). set (b2 := _ && kind_referenced _ RawInscription _).
  set (b3 := _ && (fg_point_snapshot_facts _ || _)). set (b4 := fg_absence_facts _). clearbody b1 b2 b3 b4.
  destruct (zc_conflicting_evidence (zr_classification record)), b1, b3, link, b2, b4; simpl; naive_solver.
Qed.
