(* ===== verification/InstructionTarget.v ===== *)
(** * The verified target of an instruction

    The Active Zone context of [src/src/inspection/l2.rs] as a wallet
    instruction names it, and the bound target of
    [src/src/inspector/commands/operations/lez.rs] that replaces it in the
    arguments of the operation before the operation is recorded.  The trait
    [InstructionTargetResolver] is a class. *)

From S2P Require Import Prelude Json OperationSpec SourceModes NodeRequests CatalogModel ZoneClassification.

(** ** Derived (de)serializers *)

(** [deny_unknown_fields]: an object may have no other entries. *)
Definition struct_fields_strict (names : list string) (value : Value) : option (list (option Value)) :=
  match value with
  | VObject entries =>
      if forallb (λ entry, existsb (String.eqb entry.1) names) entries
      then struct_fields names value else None
  | _ => struct_fields names value
  end.

(** A field of type [Option] is absent or [null] for [None]; in an array it has
    to be present. *)
Definition de_option {A} (decode : Value → option A) (value : Value) : option (option A) :=
  match value with
  | VNull => Some None
  | _ => Some <$> decode value
  end.
Definition de_option_field {A} (from_object : bool) (decode : Value → option A) (field : option Value)
    : option (option A) :=
  match field with
  | Some value => de_option decode value
  | None => if from_object then Some None else None
  end.
Definition is_object (value : Value) : bool :=
  match value with VObject _ => true | _ => false end.

(** An enumeration without data: its name, or an object that maps it to [null]. *)
Definition de_unit_enum {A} (cases : list (string * A)) (value : Value) : option A :=
  match value with
  | VString name => match_key cases name
  | VObject [(name, VNull)] => match_key cases name
  | _ => None
  end.

Definition de_zone_kind : Value → option ZoneKind :=
  de_unit_enum [("sequencer_zone", SequencerZone); ("data_channel", DataChannel); ("unknown", UnknownZone)].

(** [#[serde(tag = "kind")]]: the tag is an entry of the object, or the first
    item of the array. *)
Definition tagged_content (value : Value) : option (string * Value) :=
  match value with
  | VObject entries =>
      tag ← map_get "kind" entries; tag ← as_str tag;
      Some (tag, VObject (List.filter (λ entry, negb (String.eqb entry.1 "kind")) entries))
  | VArray (tag :: items) => tag ← as_str tag; Some (tag, VArray items)
  | _ => None
  end.

Definition de_network_scope (value : Value) : option NetworkScope :=
  '(tag, content) ← tagged_content value;
  if String.eqb tag "genesis_id" then
    match struct_fields ["genesis_id"] content with
    | Some [genesis_id] => GenesisId <$> de_field as_str genesis_id
    | _ => None
    end
  else if String.eqb tag "finalized_anchor" then
    match struct_fields ["genesis_time"; "block_slot"; "block_id"; "parent_id"] content with
    | Some [genesis_time; block_slot; block_id; parent_id] =>
        genesis_time ← de_field as_str genesis_time;
        block_slot ← de_field as_u64 block_slot;
        block_id ← de_field as_str block_id;
        parent_id ← de_field as_str parent_id;
        Some (FinalizedAnchor genesis_time block_slot block_id parent_id)
    | _ => None
    end
  else None.

Definition network_scope_value (scope : NetworkScope) : Value :=
  match scope with
  | GenesisId genesis_id =>
      json_object [("kind", VString "genesis_id"); ("genesis_id", VString genesis_id)]
  | FinalizedAnchor genesis_time block_slot block_id parent_id =>
      json_object [("kind", VString "finalized_anchor"); ("genesis_time", VString genesis_time);
                   ("block_slot", json_u64 block_slot); ("block_id", VString block_id);
                   ("parent_id", VString parent_id)]
  end.

(** ** Active Zone contexts *)
Record ActiveZoneContext : Type := mkZoneContext {
  az_network_scope : NetworkScope;
  az_channel_id : string;
  az_zone_kind : ZoneKind;
  az_selected_sequencer_source_id : option string;
  az_indexer_source_id : option string;
  az_source_config_revision : Z;
  az_context_revision : Z;
}.

Definition de_active_zone_context (value : Value) : option ActiveZoneContext :=
  match struct_fields_strict
          ["network_scope"; "channel_id"; "zone_kind"; "selected_sequencer_source_id";
           "indexer_source_id"; "source_config_revision"; "context_revision"] value with
  | Some [scope; channel; kind; sequencer; indexer; source_revision; context_revision] =>
      scope ← de_field de_network_scope scope;
      channel ← de_field as_str channel;
      kind ← de_field de_zone_kind kind;
      sequencer ← de_option_field (is_object value) as_str sequencer;
      indexer ← de_option_field (is_object value) as_str indexer;
      source_revision ← de_field as_u64 source_revision;
      context_revision ← de_field as_u64 context_revision;
      Some (mkZoneContext scope channel kind sequencer indexer source_revision context_revision)
  | _ => None
  end.

(** [InstructionTargetRequest]: the context and the revision of the request. *)
Definition de_instruction_target_request (value : Value) : option (ActiveZoneContext * Z) :=
  match struct_fields_strict ["context"; "request_revision"] value with
  | Some [ctx; request_revision] =>
      ctx ← de_field de_active_zone_context ctx;
      request_revision ← de_field as_u64 request_revision;
      Some (ctx, request_revision)
  | _ => None
  end.

(** ** Bound targets *)
Record BoundInstructionTarget : Type := mkBoundTarget {
  bt_network_scope : NetworkScope;
  bt_channel_id : string;
  bt_source_id : string;
  bt_source_config_revision : Z;
  bt_context_revision : Z;
  bt_request_revision : Z;
  bt_endpoint : string;
}.

Definition bound_target_value (t : BoundInstructionTarget) : Value :=
  json_object [
    ("network_scope", network_scope_value (bt_network_scope t));
    ("channel_id", VString (bt_channel_id t));
    ("source_id", VString (bt_source_id t));
    ("source_config_revision", json_u64 (bt_source_config_revision t));
    ("context_revision", json_u64 (bt_context_revision t));
    ("request_revision", json_u64 (bt_request_revision t));
    ("endpoint", VString (bt_endpoint t))].

Definition de_bound_target (value : Value) : option BoundInstructionTarget :=
  match struct_fields_strict
          ["network_scope"; "channel_id"; "source_id"; "source_config_revision"; "context_revision";
           "request_revision"; "endpoint"] value with
  | Some [scope; channel; source; source_revision; context_revision; request_revision; endpoint] =>
      scope ← de_field de_network_scope scope;
      channel ← de_field as_str channel;
      source ← de_field as_str source;
      source_revision ← de_field as_u64 source_revision;
      context_revision ← de_field as_u64 context_revision;
      request_revision ← de_field as_u64 request_revision;
      endpoint ← de_field as_str endpoint;
      Some (mkBoundTarget scope channel source source_revision context_revision request_revision endpoint)
  | _ => None
  end.

Class InstructionTargetResolver : Type := {
  resolve_target : ActiveZoneContext → Z → Result BoundInstructionTarget;
}.

(** ** Confirmation ([support/confirmation.rs]) *)
Inductive ConfirmationPolicy : Type :=
  | ConfirmLocalNodeAction | ConfirmWalletCreateAccount | ConfirmWalletSendTransaction
  | ConfirmWalletInstructionSubmit | ConfirmWalletCommand | ConfirmWalletDeployProgram
  | ConfirmWalletSyncPrivate.
#[export] Instance ConfirmationPolicy_eq_dec : EqDecision ConfirmationPolicy.
Proof. solve_decision. Defined.

Definition confirmation_token (policy : ConfirmationPolicy) : string :=
  match policy with
  | ConfirmLocalNodeAction => "confirm-local-node-action"
  | ConfirmWalletCreateAccount => "confirm-create-account"
  | ConfirmWalletSendTransaction => "confirm-send-transaction"
  | ConfirmWalletInstructionSubmit => "confirm-idl-instruction"
  | ConfirmWalletCommand => "confirm-wallet-command"
  | ConfirmWalletDeployProgram => "confirm-deploy-program"
  | ConfirmWalletSyncPrivate => "confirm-sync-private"
  end.

Definition confirmation_missing_message (policy : ConfirmationPolicy) : string :=
  match policy with
  | ConfirmLocalNodeAction => "local node action requires explicit confirmation"
  | ConfirmWalletCreateAccount => "wallet account creation requires explicit confirmation"
  | ConfirmWalletSendTransaction => "wallet transaction send requires explicit confirmation"
  | ConfirmWalletInstructionSubmit => "IDL instruction send requires explicit confirmation"
  | ConfirmWalletCommand => "wallet command requires explicit confirmation"
  | ConfirmWalletDeployProgram => "program deployment requires explicit confirmation"
  | ConfirmWalletSyncPrivate => "private wallet sync requires explicit confirmation"
  end.

Definition confirmation_require (policy : ConfirmationPolicy) (confirmation : option string) : Result () :=
  if bool_decide (confirmation = Some (confirmation_token policy)) then Ok ()
  else bail (confirmation_missing_message policy).

(** [confirmed_wallet_args] of [wallet_args.rs], on the arguments of a request. *)
Definition confirmed_wallet_args (args : Value) (confirmation_index : nat) (policy : ConfirmationPolicy)
    : Result Args :=
  args ← Args_new args;
  _ ← confirmation_require policy (args_optional_string args confirmation_index);
  Ok args.

Definition bound_instruction_target (args : Value) : Result BoundInstructionTarget :=
  args ← confirmed_wallet_args args 3 ConfirmWalletInstructionSubmit;
  value ← ok_or "verified Active Zone target is required" (args_value args 2);
  ok_or "verified Active Zone target is invalid" (de_bound_target value).

(** [bind_instruction_target] for the submission of an instruction: the
    arguments with the target in place of the target request. *)
Definition bind_target_args `{InstructionTargetResolver} (args : Value) : Result Value :=
  values ← confirmed_wallet_args args 3 ConfirmWalletInstructionSubmit;
  if negb (zlen values =? 4) then bail "IDL instruction submission requires exactly four arguments"
  else
    target ← ok_or "Active Zone target request is required" (args_value values 2);
    '(ctx, request_revision) ← ok_or "Active Zone target request is invalid"
                                 (de_instruction_target_request target);
    bound ← resolve_target ctx request_revision;
    Ok (VArray (<[2%nat := bound_target_value bound]> values)).

(** ** The target survives the arguments *)
Definition bound_target_wf (t : BoundInstructionTarget) : Prop :=
  in_u64 (bt_source_config_revision t) ∧ in_u64 (bt_context_revision t) ∧ in_u64 (bt_request_revision t) ∧
  match bt_network_scope t with FinalizedAnchor _ slot _ _ => in_u64 slot | GenesisId _ => True end.

Lemma as_u64_json n : in_u64 n → as_u64 (json_u64 n) = Some n.
Proof.
  unfold in_u64, as_u64, json_u64. intros [Hlo Hhi].
  by rewrite (proj2 (Z.leb_le _ _) Hlo), (proj2 (Z.leb_le _ _) Hhi).
Qed.

Lemma network_scope_roundtrip scope :
  match scope with FinalizedAnchor _ slot _ _ => in_u64 slot | GenesisId _ => True end →
  de_network_scope (network_scope_value scope) = Some scope.
Proof. destruct scope; intros Hslot; [done|]. lazy -[as_u64 json_u64]. by rewrite (as_u64_json _ Hslot). Qed.

Lemma bound_target_roundtrip t : bound_target_wf t → de_bound_target (bound_target_value t) = Some t.
Proof.
  destruct t as [scope channel source r1 r2 r3 endpoint]. intros (H1 & H2 & H3 & Hs).
  simpl in H1, H2, H3, Hs. lazy -[as_u64 json_u64 de_network_scope network_scope_value].
  rewrite (network_scope_roundtrip scope Hs).
  lazy -[as_u64 json_u64]. rewrite (as_u64_json _ H1). lazy -[as_u64 json_u64]. rewrite (as_u64_json _ H2).
  lazy -[as_u64 json_u64]. by rewrite (as_u64_json _ H3).
Qed.
