(* ===== verification/RuntimeRequest.v ===== *)
(** * Runtime operation requests

    [src/src/inspector/commands/operations/request.rs] and the validation and
    context of each method ([storage.rs], [delivery.rs], [blockchain.rs],
    [lez.rs]): a bridge call or a JSON object becomes a typed request, from which
    the record and the supervisor read what they need.  The request is an
    instance of the interfaces [OperationRequest] and [SupervisedRequest] the
    records and the supervisor are proved against. *)

From S2P Require Import Prelude Json Bytes ModuleEvents OperationRecord OperationControl Registry.
From S2P Require Import Supervisor OperationSpec SourceModes NodeRequests EntityIds CatalogModel.
From S2P Require Import InstructionTarget.

Record RuntimeOperationRequest : Type := mkRequest {
  rq_definition : OperationDefinition;
  rq_node_request : option NodeOperationRequest;
  rq_client_request_id : option ClientRequestId;
  rq_configuration_generation : option Z;
  rq_args : Value;
  rq_label : string;
}.
#[export] Instance eta_request : Eta RuntimeOperationRequest :=
  λ r, mkRequest (rq_definition r) (rq_node_request r) (rq_client_request_id r)
         (rq_configuration_generation r) (rq_args r) (rq_label r).

Definition rq_command (request : RuntimeOperationRequest) : OperationCommand :=
  od_command (rq_definition request).

Definition request_node_request (request : RuntimeOperationRequest) : Result NodeOperationRequest :=
  ok_or "typed node operation request is required" (rq_node_request request).

Definition node_domain (domain : OperationDomain) : bool :=
  match domain with DomainStorage | DomainDelivery => true | _ => false end.

(** ** Validation of each domain *)
Definition StorageCommand_operation (command : StorageCommand) : option StorageOperation :=
  match command with
  | Storage_Manifests => Some OpManifests
  | Storage_DownloadManifest => Some OpDownloadManifest
  | Storage_Fetch => Some OpFetch
  | Storage_UploadUrl => Some OpUpload
  | Storage_UploadPayload | Storage_UploadBackupCatalogEntry | Storage_DownloadBackupCatalogEntry => None
  | Storage_DownloadToUrl => Some OpDownload
  | Storage_Remove => Some OpRemove
  end.

Definition DeliveryCommand_operation (command : DeliveryCommand) : DeliveryOperation :=
  match command with
  | Delivery_Subscribe => OpSubscribe
  | Delivery_Unsubscribe => OpUnsubscribe
  | Delivery_Send => OpSend
  | Delivery_CreateNode => OpCreateNode
  | Delivery_Start => OpStart
  | Delivery_Stop => OpStop
  | Delivery_StoreQuery => OpStoreQuery
  end.

Definition MAX_BLOCK_RANGE_SLOTS : Z := 2001.

Definition validate_blockchain_slot_range (slot_from slot_to : Z) : Result () :=
  if slot_to <? slot_from then bail "slot_from must be less than or equal to slot_to"
  else if MAX_BLOCK_RANGE_SLOTS <=? slot_to - slot_from
  then bail ("slot range cannot contain more than " +:+ pretty MAX_BLOCK_RANGE_SLOTS +:+ " slots")
  else Ok ().

(** [context.extend(other)]. *)
Definition map_extend (m other : Map) : Map := foldl (λ m kv, map_insert kv.1 kv.2 m) m other.

(** The slot range of the commands that read a range, with the limit they use. *)
Definition slot_range_context (args : Args) (next_index : nat) (limit : option Z) (ctx : Map)
    : Result Map :=
  slot_from ← args_canonical_decimal_u64 args next_index "slot from";
  slot_to ← args_canonical_decimal_u64 args (next_index + 1) "slot to";
  _ ← validate_blockchain_slot_range slot_from slot_to;
  let ctx := map_insert "slotFrom" (json_u64 slot_from) ctx in
  let ctx := map_insert "slotTo" (json_u64 slot_to) ctx in
  let ctx := map_insert "slotRange" (VString (pretty slot_from +:+ ":" +:+ pretty slot_to)) ctx in
  Ok (insert_option "limit" (json_u64 <$> limit) ctx).

Definition blockchain_operation_context (command : BlockchainCommand) (args : Value) : Result Map :=
  args ← Args_new args;
  source ← args_source_endpoint args 0 "node endpoint";
  let next_index := se_next_index source in
  let ctx := map_insert "source" (VString (CoreEndpointMode_str (se_mode source))) [] in
  let ctx := if is_empty (se_endpoint source) then ctx
             else map_insert "endpoint" (VString (se_endpoint source)) ctx in
  let limit := args_value args (next_index + 2) ≫= as_u64 in
  match command with
  | Blockchain_Node => Ok ctx
  | Blockchain_Blocks => slot_range_context args next_index limit ctx
  | Blockchain_FinalizedBlocks | Blockchain_LiveBlocks =>
      slot_range_context args next_index (Some (default 50 limit)) ctx
  | Blockchain_Block =>
      text ← args_string args next_index "block id";
      block_id ← normalize_block_id_text text;
      Ok (map_insert "blockId" (VString block_id) ctx)
  | Blockchain_Transaction =>
      id ← args_string args next_index "transaction id";
      Ok (map_insert "transactionId" (VString id) ctx)
  end.

Section request.
Context `{FileSystem} `{StoreRequestIds}.

Definition storage_validate (command : StorageCommand) (request : RuntimeOperationRequest) : Result () :=
  match command with
  | Storage_UploadPayload =>
      node ← request_node_request request; _ ← payload_upload_parse_request node; Ok ()
  | Storage_UploadBackupCatalogEntry =>
      node ← request_node_request request; _ ← backup_upload_parse_request node; Ok ()
  | Storage_DownloadBackupCatalogEntry =>
      node ← request_node_request request; _ ← backup_download_parse_request node; Ok ()
  | _ =>
      operation ← ok_or "storage command has no standard operation" (StorageCommand_operation command);
      node ← request_node_request request;
      _ ← storage_request_parse node operation; Ok ()
  end.

Definition delivery_validate (command : DeliveryCommand) (request : RuntimeOperationRequest) : Result () :=
  node ← request_node_request request;
  _ ← delivery_request_parse node (DeliveryCommand_operation command); Ok ().

Definition blockchain_validate (command : BlockchainCommand) (request : RuntimeOperationRequest) : Result () :=
  _ ← blockchain_operation_context command (rq_args request); Ok ().

Definition validate_node_request (request : RuntimeOperationRequest) : Result () :=
  match rq_command request with
  | CmdStorage command => storage_validate command request
  | CmdDelivery command => delivery_validate command request
  | CmdBlockchain command => blockchain_validate command request
  | _ => Ok ()
  end.

(** ** Construction *)
Definition request_from_call (method : OperationMethod) (args : Value) (label : string)
    : Result RuntimeOperationRequest :=
  definition ← ok_or ("runtime operation definition is missing for " +:+ method_debug method)
                 (operation_definition method);
  node_request ← (if node_domain (od_domain definition) then
                    values ← Args_new args;
                    request ← node_request_from_bridge_args values;
                    Ok (Some request)
                  else Ok None);
  let request := mkRequest definition node_request None None args label in
  _ ← validate_node_request request;
  Ok request.

Definition object_string (object : Map) (key : string) : option string :=
  value ← map_get key object; value ← as_str value; trimmed_nonempty value.

Definition optional_id (object : Map) (key : string) : Result (option ClientRequestId) :=
  match map_get key object with
  | None => Ok None
  | Some value =>
      value ← ok_or ("runtime operation " +:+ key +:+ " must be a string") (as_str value);
      id ← ClientRequestId_parse value;
      Ok (Some id)
  end.

Definition optional_u64 (object : Map) (key : string) : Result (option Z) :=
  match map_get key object with
  | None => Ok None
  | Some value =>
      n ← ok_or ("runtime operation " +:+ key +:+ " must be a nonnegative integer") (as_u64 value);
      Ok (Some n)
  end.

Definition runtime_operation_request_from_value (value : Value) : Result RuntimeOperationRequest :=
  object ← ok_or "runtime operation request must be a JSON object" (as_object value);
  name ← ok_or "runtime operation method is required" (object_string object "method");
  method ← ok_or ("unknown runtime operation method `" +:+ name +:+ "`") (OperationMethod_from_str name);
  definition ← ok_or ("runtime operation definition is missing for " +:+ method_debug method)
                 (operation_definition method);
  _ ← match object_string object "domain" with
      | Some domain =>
          if String.eqb domain (domain_str (od_domain definition)) then Ok ()
          else bail ("runtime operation domain `" +:+ domain +:+ "` does not match method `"
                     +:+ od_name definition +:+ "`")
      | None => Ok ()
      end;
  node_request ← (if node_domain (od_domain definition) then
                    request ← node_request_from_value value; Ok (Some request)
                  else Ok None);
  let args := default (VArray []) (map_get "args" object) in
  client_request_id ← optional_id object "clientRequestId";
  configuration_generation ← optional_u64 object "configurationGeneration";
  let request := mkRequest definition node_request client_request_id configuration_generation args
                   (default (od_label definition) (object_string object "label")) in
  _ ← validate_node_request request;
  Ok request.

(** [bind_instruction_target] of [lez.rs]. *)
Definition bind_instruction_target `{InstructionTargetResolver} (request : RuntimeOperationRequest)
    : Result RuntimeOperationRequest :=
  if bool_decide (rq_command request = CmdExecution Execution_SubmitInstruction) then
    args ← bind_target_args (rq_args request);
    Ok (request <| rq_args := args |>)
  else Ok request.

(** ** Observations *)
Definition INDEXER_PACKAGE_INSTALL_TIMEOUT : Z := from_secs (15 * 60).

Definition is_indexer_package_install (args : Value) : bool :=
  match values ← as_array args; value ← values !! 1%nat; as_object value with
  | Some request =>
      bool_decide (map_get "action" request ≫= as_str = Some "install") &&
      bool_decide (map_get "node" request ≫= as_str = Some "indexer")
  | None => false
  end.

Definition request_deadline (request : RuntimeOperationRequest) : Z :=
  if bool_decide (rq_command request = CmdLocalNodes LocalNodes_ModulePackageInstall)
     || (bool_decide (rq_command request = CmdLocalNodes LocalNodes_Action)
         && is_indexer_package_install (rq_args request))
  then INDEXER_PACKAGE_INSTALL_TIMEOUT
  else od_deadline (rq_definition request).

Definition request_exclusive_group (request : RuntimeOperationRequest) : option OperationExclusiveGroup :=
  match od_exclusive_group (rq_definition request) with
  | Some ((GRemove | GUpload) as group) =>
      match StorageSourceMode_from_token <$> (node_source_mode <$> rq_node_request request) with
      | Some StorageModeLogoscoreCli => Some group
      | _ => None
      end
  | group => group
  end.

Definition requested_module_transport (request : RuntimeOperationRequest)
    : Result (option ModuleTransportKind) :=
  match od_domain (rq_definition request) with
  | DomainStorage =>
      node ← request_node_request request;
      Ok match StorageSourceMode_from_token (node_source_mode node) with
         | StorageModeModule => Some TransportModule
         | StorageModeLogoscoreCli => Some TransportLogoscoreCli
         | StorageModeRest | StorageModeMetrics | StorageModeUnsupported => None
         end
  | DomainDelivery =>
      node ← request_node_request request;
      Ok match DeliverySourceMode_from_token (node_source_mode node) with
         | DeliveryModeModule => Some TransportModule
         | DeliveryModeLogoscoreCli => Some TransportLogoscoreCli
         | DeliveryModeRest | DeliveryModeMetrics | DeliveryModeNetworkMonitor
         | DeliveryModeUnsupported => None
         end
  | DomainBlockchain =>
      args ← Args_new (rq_args request);
      source ← args_source_endpoint args 0 "node endpoint";
      Ok match se_mode source with
         | EndpointModule => Some TransportModule
         | EndpointLogoscoreCli => Some TransportLogoscoreCli
         | EndpointRpc => None
         end
  | DomainLocalNodes | DomainWallet | DomainExecution => Ok None
  end.

Definition runtime_operation_backend (request : RuntimeOperationRequest) : string :=
  match rq_node_request request with
  | Some node => node_source_mode node
  | None =>
      match rq_command request with
      | CmdBlockchain _ =>
          match args ← Args_new (rq_args request); args_source_endpoint args 0 "node endpoint" with
          | Ok source => CoreEndpointMode_str (se_mode source)
          | Err _ => "direct"
          end
      | _ =>
          default "direct"
            (values ← as_array (rq_args request); value ← head values; value ← as_str value;
             trimmed_nonempty value)
      end
  end.

Definition runtime_operation_pending_module (request : RuntimeOperationRequest) : option string :=
  node ← rq_node_request request;
  match od_domain (rq_definition request) with
  | DomainStorage =>
      match StorageSourceMode_from_token (node_source_mode node) with
      | StorageModeModule | StorageModeLogoscoreCli => Some STORAGE_MODULE
      | _ => None
      end
  | DomainDelivery =>
      match DeliverySourceMode_from_token (node_source_mode node) with
      | DeliveryModeModule | DeliveryModeLogoscoreCli => Some DELIVERY_MODULE
      | _ => None
      end
  | _ => None
  end.

(** ** The context of the record *)
Definition storage_add_operation_context (command : StorageCommand) (request : RuntimeOperationRequest)
    (ctx : Map) : Result Map :=
  match command with
  | Storage_UploadPayload =>
      node ← request_node_request request;
      upload ← payload_upload_parse_request node;
      Ok (map_insert "filename" (VString (pu_filename upload)) ctx)
  | Storage_UploadBackupCatalogEntry =>
      node ← request_node_request request;
      upload ← backup_upload_parse_request node;
      Ok (map_insert "backupCatalogId" (VString (bu_backup_catalog_id upload)) ctx)
  | Storage_DownloadBackupCatalogEntry =>
      node ← request_node_request request;
      download ← backup_download_parse_request node;
      let ctx := map_insert "cid" (VString (bd_cid download)) ctx in
      Ok (map_insert "downloadScope" (VString (download_scope download)) ctx)
  | _ =>
      operation ← ok_or "storage command has no standard operation" (StorageCommand_operation command);
      node ← request_node_request request;
      parsed ← storage_request_parse node operation;
      Ok (map_extend ctx (sr_context parsed))
  end.

Definition delivery_add_operation_context (command : DeliveryCommand) (request : RuntimeOperationRequest)
    (ctx : Map) : Result Map :=
  node ← request_node_request request;
  parsed ← delivery_request_parse node (DeliveryCommand_operation command);
  Ok (map_extend ctx (dr_context parsed)).

Definition lez_add_operation_context (request : RuntimeOperationRequest) (ctx : Map) : Result Map :=
  if bool_decide (rq_command request = CmdExecution Execution_SubmitInstruction) then
    target ← bound_instruction_target (rq_args request);
    let ctx := map_insert "source" (VString (bt_source_id target)) ctx in
    let ctx := map_insert "endpoint" (VString (bt_endpoint target)) ctx in
    let ctx := map_insert "channelId" (VString (bt_channel_id target)) ctx in
    let ctx := map_insert "networkScope" (network_scope_value (bt_network_scope target)) ctx in
    let ctx := map_insert "sourceConfigRevision" (json_u64 (bt_source_config_revision target)) ctx in
    let ctx := map_insert "contextRevision" (json_u64 (bt_context_revision target)) ctx in
    Ok (map_insert "requestRevision" (json_u64 (bt_request_revision target)) ctx)
  else Ok ctx.

(** What every node request says of its source. *)
Definition node_context (request : RuntimeOperationRequest) : Map :=
  let ctx := insert_option "configurationGeneration" (json_u64 <$> rq_configuration_generation request) [] in
  match rq_node_request request with
  | None => ctx
  | Some node =>
      let ctx := map_insert "source" (VString (node_source_mode node)) ctx in
      let endpoint := match node_input node "rest_endpoint" with
                      | Some endpoint => Some endpoint
                      | None => node_input node "rpc_endpoint"
                      end in
      let ctx := insert_option "endpoint" (VString <$> endpoint) ctx in
      if nr_mutating_enabled node then map_insert "mutatingEnabled" (VBool true) ctx else ctx
  end.

Definition runtime_operation_context (request : RuntimeOperationRequest) : Result Value :=
  let ctx := node_context request in
  ctx ← match rq_command request with
        | CmdStorage command => storage_add_operation_context command request ctx
        | CmdDelivery command => delivery_add_operation_context command request ctx
        | CmdBlockchain command =>
            added ← blockchain_operation_context command (rq_args request); Ok (map_extend ctx added)
        | CmdExecution _ => lez_add_operation_context request ctx
        | _ => Ok ctx
        end;
  Ok (VObject ctx).

(** ** What the supervisor asks of a request ([storage.rs]) *)
Definition operation_disposable_file (request : RuntimeOperationRequest) (operation_id : RuntimeOperationId)
    : Result (option string) :=
  if bool_decide (rq_command request = CmdStorage Storage_DownloadToUrl) then
    node ← request_node_request request;
    path ← ok_or "storage download path is required"
             (path ← value_get "path" (nr_payload node); path ← as_str path; trimmed_nonempty path);
    Ok (Some (path +:+ ".part." +:+ operation_id))
  else Ok None.

Definition termination_handshake_grace (request : RuntimeOperationRequest) : Result (option Z) :=
  match rq_command request with
  | CmdStorage Storage_DownloadBackupCatalogEntry =>
      node ← request_node_request request;
      download ← backup_download_parse_request node;
      Ok (backup_download_termination_handshake_grace (bd_client download))
  | CmdStorage Storage_DownloadToUrl =>
      node ← request_node_request request;
      parsed ← storage_request_parse node OpDownload;
      Ok (storage_request_termination_handshake_grace parsed)
  | _ => Ok None
  end.

#[export] Instance runtime_operation_request : OperationRequest RuntimeOperationRequest := {|
  req_client_request_id := rq_client_request_id;
  req_domain_name := λ r, domain_str (od_domain (rq_definition r));
  req_method_name := λ r, od_name (rq_definition r);
  req_label := rq_label;
  req_cancellable := λ r, od_cancellable (rq_definition r);
  req_exclusive_group := request_exclusive_group;
  req_policy_definition := λ r, od_policy (rq_definition r);
  req_backend := runtime_operation_backend;
  req_pending_module := runtime_operation_pending_module;
  req_context := runtime_operation_context;
|}.

#[export] Instance supervised_runtime_request : SupervisedRequest RuntimeOperationRequest := {|
  sreq_deadline := request_deadline;
  sreq_disposable_file := operation_disposable_file;
  sreq_termination_handshake_grace := termination_handshake_grace;
|}.
End request.
