(* ===== verification/RequestTheorems.v ===== *)
(** * Accepted requests

    A request that is accepted can be recorded: its context supplies every
    input its policy requires, as a text that is not blank.  What a request says
    of its source, which decides its transport and its exclusivity, agrees with
    the plan that is executed. *)

From S2P Require Import Prelude Json Bytes ModuleEvents OperationRecord OperationControl Registry.
From S2P Require Import Supervisor OperationSpec SourceModes NodeRequests EntityIds TextLemmas.
From S2P Require Import CatalogModel InstructionTarget RuntimeRequest.

(** ** Contexts of affected inputs *)
Definition affected_keys : list string :=
  map context_key_str [KeySource; KeyEndpoint; KeyCid; KeyPath; KeyFilename; KeyBackupCatalogId;
                       KeyDownloadScope; KeySlotRange; KeyBlockId; KeyTransactionId].

Definition value_text_ok (v : Value) : Prop := ∃ s, v = VString s ∧ text_ok s.
Definition entry_ok (kv : string * Value) : Prop := kv.1 ∈ affected_keys → value_text_ok kv.2.
Definition entries_ok (m : Map) : Prop := Forall entry_ok m.
Definition has_key (k : string) (m : Map) : Prop := is_Some (map_get k m).

Lemma entry_ok_text k s : text_ok s → entry_ok (k, VString s).
Proof. intros Hs _. by exists s. Qed.
Lemma entry_ok_other k v : bool_decide (k ∈ affected_keys) = false → entry_ok (k, v).
Proof. intros Hk%bool_decide_eq_false_1. by intros ?. Qed.

Lemma entries_ok_insert k v m : entry_ok (k, v) → entries_ok m → entries_ok (map_insert k v m).
Proof.
  intros Hkv. induction 1 as [|[k' v'] m Hh Hm IH]; simpl; [by repeat constructor|].
  destruct (String.compare k k'); repeat constructor; auto.
Qed.

Lemma entries_ok_extend m other : entries_ok m → entries_ok other → entries_ok (map_extend m other).
Proof.
  intros Hm Ho. revert m Hm. unfold map_extend.
  induction Ho as [|[k v] other Hkv Ho IH]; intros m Hm; simpl; [done|]. apply IH. by apply entries_ok_insert.
Qed.

Lemma entries_ok_option k v m :
  (∀ x, v = Some x → entry_ok (k, x)) → entries_ok m → entries_ok (insert_option k v m).
Proof. destruct v; simpl; [|done]. intros H Hm. apply entries_ok_insert; auto. Qed.

Lemma entries_ok_context_map values :
  Forall (λ kv, text_ok kv.2) values → entries_ok (context_map values).
Proof.
  intros Hv. unfold context_map. assert (Hm : entries_ok []) by constructor. revert Hm.
  generalize (@nil (string * Value)) as m. induction Hv as [|[k s] values Hs Hv IH]; intros m Hm; simpl; [done|].
  apply IH, entries_ok_insert; [by apply entry_ok_text|done].
Qed.

Lemma has_key_insert_eq k v m : has_key k (map_insert k v m).
Proof. unfold has_key. rewrite map_get_insert_eq. eauto. Qed.
Lemma has_key_insert k k' v m : has_key k m → has_key k (map_insert k' v m).
Proof. unfold has_key. rewrite map_get_insert. case_decide; eauto. Qed.
Lemma has_key_option k k' v m : has_key k m → has_key k (insert_option k' v m).
Proof. destruct v; simpl; [apply has_key_insert|done]. Qed.

Lemma has_key_extend_l k m other : has_key k m → has_key k (map_extend m other).
Proof.
  unfold map_extend. revert m. induction other as [|[k' v] other IH]; intros m Hk; simpl; [done|].
  by apply IH, has_key_insert.
Qed.
Lemma has_key_extend_r k m other : has_key k other → has_key k (map_extend m other).
Proof.
  unfold has_key, map_extend. revert m. induction other as [|[k' v] other IH]; intros m; simpl; [by intros [? ?]|].
  destruct (String.eqb_spec k k') as [->|]; [|apply IH].
  intros _. apply (has_key_extend_l k' _ other). apply has_key_insert_eq.
Qed.

Lemma map_get_elem k m v : map_get k m = Some v → (k, v) ∈ m.
Proof.
  induction m as [|[k' v'] m IH]; simpl; [done|]. destruct (String.eqb_spec k k') as [->|].
  - intros [= ->]. set_solver.
  - intros ?%IH. set_solver.
Qed.

Lemma context_key_affected k : context_key_str k ∈ affected_keys.
Proof. destruct k; vm_compute; set_solver. Qed.

(** A context whose affected entries are texts and which has the required ones
    gives the affected inputs. *)
Definition required_present (fields : list AffectedContextField) (m : Map) : Prop :=
  Forall (λ f, cf_presence f = Required → has_key (context_key_str (cf_key f)) m) fields.

Lemma affected_inputs_supplied ctx fields inputs :
  entries_ok ctx → required_present fields ctx → is_ok (affected_context_inputs ctx fields inputs) = true.
Proof.
  intros Hok Hreq. revert inputs. induction Hreq as [|[k p] fields Hf Hreq IH]; intros inputs; simpl; [done|].
  destruct (map_get (context_key_str k) ctx) as [v|] eqn:E.
  - unfold entries_ok in Hok. rewrite Forall_forall in Hok.
    destruct (Hok _ (map_get_elem _ _ _ E) (context_key_affected k)) as (s & Hv & Hs). simpl in Hv. subst v. simpl.
    rewrite Hs. apply IH.
  - destruct p; [|apply IH]. destruct (Hf eq_refl) as [v Hv]. simpl in Hv. congruence.
Qed.

(** ** Inverting successful parses *)
Ltac ok_inv :=
  repeat match goal with
  | H : (_ ≫= _) = Ok _ |- _ => apply bind_Ok in H as (? & ? & H)
  | H : ok_or _ _ = Ok _ |- _ => apply ok_or_Ok in H
  | H : Ok _ = Ok _ |- _ => injection H as H; try subst
  | H : Err _ = Ok _ |- _ => discriminate H
  | H : bail _ = Ok _ |- _ => discriminate H
  | H : (match ?p with (_, _) => _ end) = Ok _ |- _ => destruct p
  | H : (if ?b then _ else _) = Ok _ |- _ => destruct b eqn:?
  end.

Lemma required_text_ok value label s : required_text value label = Ok s → text_ok s.
Proof. intros H%ok_or_Ok. eauto with inspector. Qed.

Lemma validate_cid_ok value label : validate_cid (trim value) label = Ok () → text_ok (trim value).
Proof.
  unfold validate_cid, text_ok. rewrite trim_idemp. by destruct (is_empty (trim value)).
Qed.

Lemma parse_storage_cid_ok value cid : parse_storage_cid value = Ok cid → text_ok cid.
Proof. unfold parse_storage_cid. intros H. ok_inv. destruct x. by eapply validate_cid_ok. Qed.
Lemma parse_backup_cid_ok value cid : parse_backup_cid value = Ok cid → text_ok cid.
Proof. unfold parse_backup_cid. intros H. ok_inv. destruct x. by eapply validate_cid_ok. Qed.

Lemma initialization_input_ok i key s : initialization_input i key = Some s → text_ok s.
Proof. unfold initialization_input. intros (v & Hv & H)%bind_Some. eauto with inspector. Qed.

Lemma node_source_mode_ok node : text_ok (node_source_mode node).
Proof.
  unfold node_source_mode.
  destruct (value_get "source_mode" (nr_adapter node) ≫= _) as [s|] eqn:E; [|by vm_compute].
  apply bind_Some in E as (v & _ & E). apply bind_Some in E as (t & _ & E). simpl. eauto with inspector.
Qed.

Lemma node_input_ok node key s : node_input node key = Some s → text_ok s.
Proof.
  unfold node_input. intros (a & _ & E)%bind_Some. apply bind_Some in E as (b & _ & E).
  apply bind_Some in E as (c & _ & E). eauto with inspector.
Qed.
#[export] Hint Resolve required_text_ok parse_storage_cid_ok parse_backup_cid_ok initialization_input_ok
  node_source_mode_ok node_input_ok : inspector.
#[export] Hint Resolve entries_ok_insert entries_ok_extend entries_ok_context_map entry_ok_text : inspector.
#[export] Hint Extern 1 (entry_ok (_, _)) => apply entry_ok_other; reflexivity : inspector.
#[export] Hint Extern 1 (entries_ok []) => constructor : inspector.

(** ** Storage *)
Definition client_ok (client : StorageClient) : Prop :=
  match client with StorageViaRest endpoint => text_ok endpoint | StorageViaModule _ => True end.

Lemma storage_client_ok value client : storage_client_from_initialization value = Ok client → client_ok client.
Proof.
  unfold storage_client_from_initialization. intros H. apply bind_Ok in H as (i & _ & H).
  destruct (StorageSourceMode_from_token _); ok_inv; simpl; eauto with inspector.
Qed.

Lemma plan_for_client_ok client method args context dispatch plan ctx :
  client_ok client → Forall (λ kv, text_ok kv.2) context →
  plan_for_client client method args context dispatch = Ok (plan, ctx) →
  entries_ok ctx ∧ (∀ k, has_key k (context_map context) → has_key k ctx).
Proof.
  intros Hc Hctx. unfold plan_for_client. destruct client as [t|endpoint].
  - intros [= <- <-]. split; auto with inspector.
  - intros H. apply bind_Ok in H as (o & _ & H). injection H as <- <-.
    split; [eauto with inspector|]. intros k Hk. by apply has_key_insert.
Qed.

Definition storage_keys (operation : StorageOperation) : list string :=
  match operation with
  | OpManifests => []
  | OpDownloadManifest | OpFetch | OpRemove => ["cid"]
  | OpUpload => ["path"]
  | OpDownload => ["cid"; "path"]
  end.

Lemma parse_download_path_ok `{FileSystem} value path : parse_download_path value = Ok path → text_ok path.
Proof.
  unfold parse_download_path. intros H1. apply bind_Ok in H1 as (v & Hv & H1).
  destruct (negb _); [done|]. destruct (path_file_name v); [|done]. ok_inv. eauto with inspector.
Qed.
#[export] Hint Resolve parse_download_path_ok : inspector.

Lemma text_ok_scope local_only : text_ok (local_or_network local_only).
Proof. by destruct local_only; vm_compute. Qed.
#[export] Hint Resolve text_ok_scope : inspector.

Lemma storage_request_context_ok `{FileSystem} node operation parsed :
  storage_request_parse node operation = Ok parsed →
  entries_ok (sr_context parsed) ∧ Forall (λ k, has_key k (sr_context parsed)) (storage_keys operation).
Proof.
  unfold storage_request_parse. intros Hp. apply bind_Ok in Hp as (client & Hc & Hp).
  apply storage_client_ok in Hc. apply bind_Ok in Hp as ([plan ctx] & Hp & [= <-]). simpl.
  destruct operation; simpl in Hp |- *; ok_inv;
    try (eapply plan_for_client_ok in Hp as [Hok Hk]; [|done|by repeat constructor; eauto with inspector];
         split; [done|]; repeat constructor; apply Hk; vm_compute; eauto).
  destruct client; injection Hp as <- <-;
    (split; [repeat (apply Forall_cons; split); try apply Forall_nil; eauto with inspector
            |repeat constructor; unfold has_key; vm_compute; eauto]).
Qed.

(** ** Delivery *)
Lemma delivery_adapter_ok value adapter :
  delivery_parse_adapter value = Ok adapter →
  match adapter with MessagingViaRest endpoint => text_ok endpoint | MessagingViaModule _ _ => True end.
Proof.
  unfold delivery_parse_adapter. intros H. apply bind_Ok in H as (i & _ & H).
  destruct (DeliverySourceMode_from_token _); ok_inv; simpl; eauto with inspector.
Qed.

Lemma delivery_request_context_ok `{StoreRequestIds} node operation parsed :
  delivery_request_parse node operation = Ok parsed → entries_ok (dr_context parsed).
Proof.
  unfold delivery_request_parse. intros Hp. apply bind_Ok in Hp as (adapter & Ha & Hp).
  apply delivery_adapter_ok in Ha. apply bind_Ok in Hp as ([plan ctx] & Hp & [= <-]). simpl.
  destruct operation; simpl in Hp.
  1,2: unfold delivery_subscription_plan in Hp; apply bind_Ok in Hp as (t & _ & Hp);
       apply bind_Ok in Hp as (topic & Ht & Hp); destruct adapter; injection Hp as <- <-;
       repeat (apply Forall_cons; split); try apply Forall_nil; eauto with inspector.
  - unfold delivery_send_plan in Hp. ok_inv. destruct adapter; injection Hp as <- <-;
      repeat (apply Forall_cons; split); try apply Forall_nil; eauto with inspector.
  - unfold delivery_create_node_plan in Hp. ok_inv. constructor.
  - unfold delivery_lifecycle_plan in Hp. ok_inv. constructor.
  - unfold delivery_lifecycle_plan in Hp. ok_inv. constructor.
  - unfold delivery_store_query_plan in Hp. apply bind_Ok in Hp as (payload & _ & Hp).
    destruct adapter; ok_inv; apply entries_ok_insert; eauto with inspector;
      apply entries_ok_option; eauto with inspector; intros ? (? & ? & ?)%fmap_Some; subst; eauto with inspector.
Qed.

(** ** Blockchain *)
Lemma args_optional_string_ok args i s : args_optional_string args i = Some s → text_ok s.
Proof.
  unfold args_optional_string. intros (a & _ & E)%bind_Some. apply bind_Some in E as (b & _ & E).
  eauto with inspector.
Qed.
Lemma args_string_ok args i label s : args_string args i label = Ok s → text_ok s.
Proof. intros H%ok_or_Ok. by eapply args_optional_string_ok. Qed.
#[export] Hint Resolve args_optional_string_ok args_string_ok : inspector.

Lemma text_ok_range (a b : Z) : text_ok (pretty a +:+ ":" +:+ pretty b).
Proof.
  apply (text_ok_plain (Ascii.ascii_of_nat 58)); [|done]. rewrite !bytes_of_app. simpl. set_solver.
Qed.

Lemma text_ok_endpoint_mode mode : text_ok (CoreEndpointMode_str mode).
Proof. by destruct mode; vm_compute. Qed.
#[export] Hint Resolve text_ok_range text_ok_endpoint_mode : inspector.

Lemma source_endpoint_ok args i label source :
  args_source_endpoint args i label = Ok source → is_empty (se_endpoint source) = false → text_ok (se_endpoint source).
Proof.
  unfold args_source_endpoint. intros H. apply bind_Ok in H as (first & Hf & H).
  destruct (CoreSourceMode_from_token first) as [[]|]; ok_inv; simpl; eauto with inspector; done.
Qed.

Definition blockchain_keys (command : BlockchainCommand) : list string :=
  match command with
  | Blockchain_Node => ["source"]
  | Blockchain_Blocks | Blockchain_FinalizedBlocks | Blockchain_LiveBlocks => ["source"; "slotRange"]
  | Blockchain_Block => ["source"; "blockId"]
  | Blockchain_Transaction => ["source"; "transactionId"]
  end.

Lemma slot_range_context_ok args i limit ctx ctx' :
  slot_range_context args i limit ctx = Ok ctx' → entries_ok ctx →
  entries_ok ctx' ∧ has_key "slotRange" ctx' ∧ (∀ k, has_key k ctx → has_key k ctx').
Proof.
  unfold slot_range_context. intros H Hok.
  apply bind_Ok in H as (a & _ & H). apply bind_Ok in H as (b & _ & H). apply bind_Ok in H as (? & _ & [= <-]).
  split_and!.
  - apply entries_ok_option; [intros ? (? & ? & ?)%fmap_Some; subst; eauto with inspector|]. eauto 6 with inspector.
  - apply has_key_option, has_key_insert_eq.
  - intros k Hk. by apply has_key_option, has_key_insert, has_key_insert, has_key_insert.
Qed.

Lemma normalized_block_id_ok text id : normalize_block_id_text text = Ok id → text_ok id.
Proof.
  unfold normalize_block_id_text. destruct (is_empty _); [done|]. set (hex := default _ _).
  destruct (negb (str_len hex =? 64)) eqn:El; [done|]. destruct (negb (all_hexdigits hex)) eqn:Eh; [done|].
  simpl. intros [= <-]. apply negb_false_iff in El, Eh. apply Z.eqb_eq in El.
  destruct hex as [|a s]; [done|]. unfold all_hexdigits in Eh. simpl in Eh. apply andb_true_iff in Eh as [Ha _].
  apply (text_ok_plain (ascii_lower a)).
  - unfold to_ascii_lowercase. rewrite String.list_ascii_of_string_of_list_ascii. simpl. set_solver.
  - apply hexdigit_plain. destruct a as [[] [] [] [] [] [] [] []]; vm_compute in Ha |- *; done.
Qed.
#[export] Hint Resolve normalized_block_id_ok : inspector.

Lemma blockchain_context_ok command args ctx :
  blockchain_operation_context command args = Ok ctx →
  entries_ok ctx ∧ Forall (λ k, has_key k ctx) (blockchain_keys command).
Proof.
  unfold blockchain_operation_context. intros H. apply bind_Ok in H as (values & _ & H).
  apply bind_Ok in H as (source & Hs & H).
  set (base := map_insert "source" _ []) in H.
  set (ctx0 := if is_empty (se_endpoint source) then base else _) in H.
  assert (H0 : entries_ok ctx0 ∧ has_key "source" ctx0).
  { assert (entries_ok base) by (apply entries_ok_insert; eauto with inspector).
    unfold ctx0. destruct (is_empty (se_endpoint source)) eqn:E; split; eauto using has_key_insert_eq, has_key_insert.
    apply entries_ok_insert; [|done]. apply entry_ok_text. by eapply source_endpoint_ok. }
  destruct H0 as [Hok Hsrc].
  destruct command; simpl blockchain_keys;
    try (eapply slot_range_context_ok in H as (? & ? & Hk); [|done]; repeat constructor; auto).
  - injection H as <-. auto.
  - apply bind_Ok in H as (text & Ht & H). apply bind_Ok in H as (id & Hid & [= <-]).
    split; [eauto with inspector|]. repeat constructor; eauto using has_key_insert_eq, has_key_insert.
  - apply bind_Ok in H as (id & Hid & [= <-]).
    split; [eauto with inspector|]. repeat constructor; eauto using has_key_insert_eq, has_key_insert.
Qed.

(** ** Every accepted request *)
Definition supplied_keys (command : OperationCommand) : list string :=
  match command with
  | CmdStorage Storage_UploadPayload => ["source"; "filename"]
  | CmdStorage Storage_UploadBackupCatalogEntry => ["source"; "backupCatalogId"]
  | CmdStorage Storage_DownloadBackupCatalogEntry => ["source"; "cid"; "downloadScope"]
  | CmdStorage command => "source" :: default [] (storage_keys <$> StorageCommand_operation command)
  | CmdDelivery _ => ["source"]
  | CmdBlockchain command => blockchain_keys command
  | CmdExecution Execution_SubmitInstruction => ["source"; "endpoint"]
  | _ => []
  end.

Lemma required_keys_supplied d :
  d ∈ operation_definitions →
  Forall (λ f, cf_presence f = Required → context_key_str (cf_key f) ∈ supplied_keys (od_command d))
    (pd_affected_context_fields (od_policy d)).
Proof.
  assert (H : forallb (λ d, forallb (λ f, match cf_presence f with
                                            | Required => bool_decide (context_key_str (cf_key f)
                                                                         ∈ supplied_keys (od_command d))
                                            | Optional => true end)
                              (pd_affected_context_fields (od_policy d))) operation_definitions = true)
    by by vm_compute.
  rewrite forallb_forall in H. intros Hd%list_elem_of_In%H. rewrite forallb_forall in Hd.
  apply Forall_forall. intros f Hf%list_elem_of_In%Hd Hr. rewrite Hr in Hf. by apply bool_decide_eq_true_1 in Hf.
Qed.

Record accepted (r : RuntimeOperationRequest) `{FileSystem} `{StoreRequestIds} : Prop := {
  acc_definition : rq_definition r ∈ operation_definitions;
  acc_node : node_domain (od_domain (rq_definition r)) = true → is_Some (rq_node_request r);
  acc_valid : validate_node_request r = Ok ();
}.

Section accepted.
Context `{FileSystem} `{StoreRequestIds}.

Lemma definition_in_table method d : operation_definition method = Some d → d ∈ operation_definitions.
Proof. unfold operation_definition. intros [Hd _]%find_some. by apply list_elem_of_In. Qed.

Lemma from_call_accepted method args label r : request_from_call method args label = Ok r → accepted r.
Proof.
  unfold request_from_call. intros Hr. apply bind_Ok in Hr as (d & Hd%ok_or_Ok & Hr).
  apply bind_Ok in Hr as (node & Hn & Hr). apply bind_Ok in Hr as ([] & Hv & [= <-]).
  split; [by eapply definition_in_table| |done]. simpl. intros E. rewrite E in Hn. ok_inv. eauto.
Qed.

Lemma from_value_accepted value r : runtime_operation_request_from_value value = Ok r → accepted r.
Proof.
  unfold runtime_operation_request_from_value. intros Hr. apply bind_Ok in Hr as (o & _ & Hr).
  apply bind_Ok in Hr as (name & _ & Hr). apply bind_Ok in Hr as (m & _ & Hr).
  apply bind_Ok in Hr as (d & Hd%ok_or_Ok & Hr). apply bind_Ok in Hr as (? & _ & Hr).
  apply bind_Ok in Hr as (node & Hn & Hr). apply bind_Ok in Hr as (id & _ & Hr).
  apply bind_Ok in Hr as (generation & _ & Hr). apply bind_Ok in Hr as ([] & Hv & [= <-]).
  split; [by eapply definition_in_table| |done]. simpl. intros E. rewrite E in Hn. ok_inv. eauto.
Qed.

Lemma node_context_ok r :
  entries_ok (node_context r) ∧ (is_Some (rq_node_request r) → has_key "source" (node_context r)).
Proof.
  unfold node_context. set (base := insert_option _ _ []).
  assert (Hb : entries_ok base).
  { apply entries_ok_option; [|constructor]. intros x (g & _ & ->)%fmap_Some. eauto with inspector. }
  destruct (rq_node_request r) as [node|]; [|by split; [|intros []]].
  set (endpoint := match node_input node "rest_endpoint" with Some e => Some e | None => _ end).
  assert (He : ∀ x, VString <$> endpoint = Some x → entry_ok ("endpoint", x)).
  { intros x (s & Hs & ->)%fmap_Some. apply entry_ok_text. unfold endpoint in Hs.
    destruct (node_input node "rest_endpoint") eqn:E; [injection Hs as <-|]; eauto with inspector. }
  assert (Hm : entries_ok (insert_option "endpoint" (VString <$> endpoint)
                             (map_insert "source" (VString (node_source_mode node)) base))).
  { apply entries_ok_option; eauto with inspector. }
  assert (Hk : has_key "source" (insert_option "endpoint" (VString <$> endpoint)
                             (map_insert "source" (VString (node_source_mode node)) base))).
  { apply has_key_option, has_key_insert_eq. }
  destruct (nr_mutating_enabled node); split; eauto with inspector. intros _. by apply has_key_insert.
Qed.
Lemma storage_context_supplied command r ctx :
  is_Some (rq_node_request r) → storage_validate command r = Ok () → entries_ok ctx → has_key "source" ctx →
  ∃ ctx', storage_add_operation_context command r ctx = Ok ctx' ∧ entries_ok ctx' ∧
          Forall (λ k, has_key k ctx') (supplied_keys (CmdStorage command)).
Proof.
  intros [node Hn] Hv Hok Hs. unfold storage_validate, storage_add_operation_context, request_node_request in *.
  rewrite Hn in *.
  destruct command; simpl in Hv |- *; apply bind_Ok in Hv as (parsed & Hp & _); rewrite Hp; simpl;
    (eexists; split; [done|]).
  1-4,8-9: apply storage_request_context_ok in Hp as [Hc Hk]; split; [eauto with inspector|];
    constructor; [by apply has_key_extend_l|]; (eapply Forall_impl; [apply Hk|]); intros k Hkk;
    by apply has_key_extend_r.
  - unfold payload_upload_parse_request in Hp. ok_inv. simpl. split; [eauto with inspector|].
    repeat constructor; eauto using has_key_insert_eq, has_key_insert.
  - unfold backup_upload_parse_request in Hp. ok_inv. simpl. split; [eauto with inspector|].
    repeat constructor; eauto using has_key_insert_eq, has_key_insert.
  - unfold backup_download_parse_request in Hp. ok_inv. unfold download_scope. simpl.
    split; [eauto 8 with inspector|]. repeat constructor; eauto using has_key_insert_eq, has_key_insert.
Qed.

(** What the resolver of the Active Zone returns: texts for the source and its
    endpoint, and revisions of 64 bits. *)
Definition resolver_sound `{InstructionTargetResolver} : Prop :=
  ∀ ctx revision t, resolve_target ctx revision = Ok t →
    bound_target_wf t ∧ text_ok (bt_source_id t) ∧ text_ok (bt_endpoint t).

Lemma bound_target_read `{InstructionTargetResolver} args args' :
  resolver_sound → bind_target_args args = Ok args' →
  ∃ ctx revision t, resolve_target ctx revision = Ok t ∧ bound_instruction_target args' = Ok t.
Proof.
  intros Hsound. unfold bind_target_args. intros Hb. apply bind_Ok in Hb as (values & Hv & Hb).
  destruct (negb (zlen values =? 4)) eqn:El; [done|]. apply negb_false_iff, Z.eqb_eq in El.
  apply bind_Ok in Hb as (target & _ & Hb). apply bind_Ok in Hb as ([ctx revision] & _ & Hb).
  apply bind_Ok in Hb as (t & Ht & [= <-]). exists ctx, revision, t. split; [done|].
  unfold confirmed_wallet_args in Hv. apply bind_Ok in Hv as (vs & _ & Hv).
  apply bind_Ok in Hv as ([] & Hc & [= ->]).
  unfold bound_instruction_target, confirmed_wallet_args. simpl. unfold args_optional_string, args_value in *.
  destruct values as [|v0 [|v1 [|v2 [|v3 [|]]]]]; try (unfold zlen in El; simpl in El; lia).
  simpl in Hc |- *. rewrite Hc. simpl. rewrite bound_target_roundtrip; [done|]. by apply (Hsound _ _ _ Ht).
Qed.

Lemma context_supplied `{InstructionTargetResolver} r r' :
  resolver_sound → accepted r → bind_instruction_target r = Ok r' →
  ∃ ctx, runtime_operation_context r' = Ok (VObject ctx) ∧ entries_ok ctx ∧
         Forall (λ k, has_key k ctx) (supplied_keys (rq_command r')).
Proof.
  intros Hres [Hd Hn Hv] Hb. unfold bind_instruction_target in Hb. case_bool_decide as Ec.
  - apply bind_Ok in Hb as (args & Ha & [= <-]).
    destruct (bound_target_read _ _ Hres Ha) as (c & rev & t & Ht & Hread).
    destruct (Hres _ _ _ Ht) as (_ & Hs & He).
    unfold runtime_operation_context. change (rq_command (r <| rq_args := args |>)) with (rq_command r).
    rewrite Ec. simpl. unfold lez_add_operation_context.
    rewrite bool_decide_eq_true_2 by exact Ec. simpl. rewrite Hread. simpl.
    destruct (node_context_ok (r <| rq_args := args |>)) as [Hok _].
    eexists. split; [done|]. split; [eauto 12 with inspector|].
    repeat constructor; eauto 9 using has_key_insert_eq, has_key_insert.
  - injection Hb as <-. unfold runtime_operation_context, validate_node_request, od_domain in *.
    destruct (node_context_ok r) as [Hok Hsrc]. fold (rq_command r) in Hn.
    destruct (rq_command r) as [cmd|cmd|cmd|cmd|cmd|cmd] eqn:Ecmd; simpl in Hn, Hv |- *.
    + destruct (storage_context_supplied cmd r (node_context r)) as (ctx & -> & ? & ?); auto. eauto.
    + unfold delivery_validate, delivery_add_operation_context, request_node_request in *.
      destruct (Hn eq_refl) as [node Hnode]. rewrite Hnode in *. simpl in Hv |- *.
      apply bind_Ok in Hv as (parsed & Hp & _). rewrite Hp. simpl. apply delivery_request_context_ok in Hp.
      eexists. split; [done|]. split; [eauto with inspector|]. repeat constructor.
      apply has_key_extend_l, Hsrc. eauto.
    + eauto.
    + eauto.
    + unfold blockchain_validate in Hv. apply bind_Ok in Hv as (added & Ha & _). rewrite Ha. simpl.
      apply blockchain_context_ok in Ha as [Hc Hk]. eexists. split; [done|]. split; [eauto with inspector|].
      eapply Forall_impl; [apply Hk|]. intros k. apply has_key_extend_r.
    + unfold lez_add_operation_context. rewrite bool_decide_eq_false_2 by congruence. simpl.
      eexists. split; [done|]. split; [done|]. destruct cmd; [constructor|congruence].
Qed.

Lemma affected_inputs_contain ctx fields inputs out :
  affected_context_inputs ctx fields inputs = Ok out →
  (∀ i, i ∈ inputs → i ∈ out) ∧
  Forall (λ f, cf_presence f = Required →
               ∃ value, mkAffectedInput (context_key_str (cf_key f)) value ∈ out ∧ is_empty value = false) fields.
Proof.
  revert inputs. induction fields as [|[k p] fields IH]; intros inputs; simpl; [by intros [= <-]|].
  destruct (map_get (context_key_str k) ctx) as [v|].
  - destruct (as_str v) as [s|]; simpl; [|done]. destruct (is_empty (trim s)) eqn:E; [done|].
    intros [Hsub Hf]%IH. unfold push_input in Hsub. rewrite E in Hsub. split; [set_solver|]. constructor; [|done].
    intros _. exists (trim s). simpl. split; [|done]. apply Hsub. set_solver.
  - destruct p; [done|]. intros [Hsub Hf]%IH. split; [done|]. by constructor.
Qed.
End accepted.

(** A request that validation accepted, by value or by call, and that was
    bound to its target always gets a record, in which every context input its
    definition requires is present and not empty. *)
Theorem accepted_request_has_record `{FileSystem, StoreRequestIds, InstructionTargetResolver} r r' id now :
  resolver_sound →
  (∃ value, runtime_operation_request_from_value value = Ok r) ∨
  (∃ method args label, request_from_call method args label = Ok r) →
  bind_instruction_target r = Ok r' →
  ∃ record, running_runtime_operation_record id r' now = Ok record ∧
    Forall (λ field, cf_presence field = Required →
              ∃ value, mkAffectedInput (context_key_str (cf_key field)) value
                         ∈ pol_affected_inputs (op_policy (rec_operation record)) ∧ is_empty value = false)
      (pd_affected_context_fields (od_policy (rq_definition r))).
Proof.
  intros Hres Hr Hb. assert (Hacc : accepted r)
    by (destruct Hr as [(v & Hr)|(m & a & l & Hr)]; eauto using from_value_accepted, from_call_accepted).
  destruct (context_supplied r r' Hres Hacc Hb) as (ctx & Hctx & Hok & Hkeys).
  assert (Hdef : rq_definition r' = rq_definition r).
  { unfold bind_instruction_target in Hb. case_bool_decide; [|by injection Hb as <-].
    apply bind_Ok in Hb as (? & _ & [= <-]). done. }
  assert (Hreq : required_present (pd_affected_context_fields (od_policy (rq_definition r))) ctx).
  { eapply Forall_impl; [apply required_keys_supplied, Hacc|]. intros f Hf Hp.
    rewrite Forall_forall in Hkeys. apply Hkeys. unfold rq_command. rewrite Hdef. auto. }
  unfold running_runtime_operation_record, policy_from_request, affected_inputs. simpl.
  rewrite Hctx. simpl. rewrite Hdef.
  destruct (affected_context_inputs ctx _ _) as [inputs|e] eqn:E; simpl;
    [|by pose proof (affected_inputs_supplied ctx _ (push_input (push_input [] "domain"
        (domain_str (od_domain (rq_definition r)))) "method" (od_name (rq_definition r))) Hok Hreq) as Hbad;
       rewrite E in Hbad].
  eexists. split; [done|]. simpl. by apply affected_inputs_contain in E as [_ E].
Qed.

(** ** The source of a request and its plan *)
Definition storage_plan_transport (plan : StorageOperationPlan) : option ModuleTransportKind :=
  match plan with
  | StoragePlanModule transport _ _ _ _ => Some transport
  | StoragePlanRest _ => None
  end.
Definition client_transport (client : StorageClient) : option ModuleTransportKind :=
  match client with StorageViaModule transport => Some transport | StorageViaRest _ => None end.
Definition delivery_plan_transport (plan : DeliveryOperationPlan) : option ModuleTransportKind :=
  match plan with
  | DeliveryPlanModule transport _ _ _ _ | DeliveryPlanModuleStoreQuery transport _ _ _ _ => Some transport
  | DeliveryPlanRest _ => None
  end.
Definition bedrock_transport (adapter : BedrockAdapter) : option ModuleTransportKind :=
  match adapter with BedrockModule transport => Some transport | BedrockRpc _ => None end.

Section transports.
Context `{FileSystem} `{StoreRequestIds}.

(** The transport the adapters of a request call, from what they parse. *)
Definition planned_transport (r : RuntimeOperationRequest) : Result (option ModuleTransportKind) :=
  match rq_command r with
  | CmdStorage Storage_UploadPayload =>
      node ← request_node_request r; upload ← payload_upload_parse_request node;
      Ok (client_transport (pu_client upload))
  | CmdStorage Storage_UploadBackupCatalogEntry =>
      node ← request_node_request r; upload ← backup_upload_parse_request node;
      Ok (client_transport (bu_client upload))
  | CmdStorage Storage_DownloadBackupCatalogEntry =>
      node ← request_node_request r; download ← backup_download_parse_request node;
      Ok (client_transport (bd_client download))
  | CmdStorage command =>
      operation ← ok_or "storage command has no standard operation" (StorageCommand_operation command);
      node ← request_node_request r; parsed ← storage_request_parse node operation;
      Ok (storage_plan_transport (sr_plan parsed))
  | CmdDelivery command =>
      node ← request_node_request r; parsed ← delivery_request_parse node (DeliveryCommand_operation command);
      Ok (delivery_plan_transport (dr_plan parsed))
  | CmdBlockchain _ =>
      args ← Args_new (rq_args r); source ← args_source_endpoint args 0 "node endpoint";
      Ok (bedrock_transport (source_endpoint_adapter source))
  | _ => Ok None
  end.

Definition storage_mode_transport (mode : StorageSourceMode) : option ModuleTransportKind :=
  match mode with
  | StorageModeModule => Some TransportModule
  | StorageModeLogoscoreCli => Some TransportLogoscoreCli
  | _ => None
  end.
Definition delivery_mode_transport (mode : DeliverySourceMode) : option ModuleTransportKind :=
  match mode with
  | DeliveryModeModule => Some TransportModule
  | DeliveryModeLogoscoreCli => Some TransportLogoscoreCli
  | _ => None
  end.

(** The key of a mode is one of its tokens, and no other mode has it. *)
Lemma mode_key_is_token family mode :
  mode ∈ family_modes family → md_key <$> mode_policy_for_token family (md_key mode) = Some (md_key mode).
Proof.
  assert (Hall : forallb (λ mode, bool_decide (md_key <$> mode_policy_for_token family (md_key mode)
                                               = Some (md_key mode))) (family_modes family) = true)
    by by destruct family; vm_compute.
  rewrite forallb_forall in Hall. intros Hin%list_elem_of_In%Hall. by apply bool_decide_eq_true_1 in Hin.
Qed.

Lemma mode_for_token_spec family value mode :
  mode_for_token (family_modes family) value = Some mode →
  mode_policy_for_token family value = Some mode ∧ mode ∈ family_modes family.
Proof.
  intros E. split; [exact E|]. unfold mode_for_token in E. apply find_some in E as [Hin _].
  by apply list_elem_of_In.
Qed.

Definition named_mode (m : Map) : option string :=
  value ← map_get "source_mode" m; value ← as_str value; trimmed_nonempty value.

(** An object names its mode for both readers; a blank mode is REST for the one
    and no known mode for the other, and neither is a module. *)
Lemma initialization_mode family m i default_mode :
  initialization_parse (VObject m) (family_modes family) default_mode = Ok i →
  ∃ mode, mode ∈ family_modes family ∧ ini_source_mode i = md_key mode ∧
    match named_mode m with
    | Some token => mode_policy_for_token family token = Some mode
    | None => mode_policy_for_token family default_mode = Some mode
    end.
Proof.
  unfold initialization_parse. intros Hp. apply bind_Ok in Hp as (ini & Hd%ok_or_Ok & Hp).
  apply bind_Ok in Hp as (mode & Hm%ok_or_Ok & Hp). apply mode_for_token_spec in Hm as [Hm Hin].
  exists mode. split; [done|].
  assert (Hi : ini_source_mode i = md_key mode).
  { unfold normalize_inputs in Hp. destruct (find _ _) as [[]|]; [done|]. destruct (find _ _); [done|].
    injection Hp as <-. done. }
  split; [done|]. unfold de_initialization in Hd. simpl in Hd. unfold named_mode.
  destruct (map_get "source_mode" m) as [v|]; simpl in Hd |- *.
  - destruct (as_str v) as [s|]; simpl in Hd |- *; [|done].
    destruct (de_field_or [] de_text_map (map_get "inputs" m)); simpl in Hd; [|done].
    injection Hd as <-. simpl in Hm. by destruct (trimmed_nonempty s).
  - destruct (de_field_or [] de_text_map (map_get "inputs" m)); simpl in Hd; [|done].
    injection Hd as <-. exact Hm.
Qed.

Lemma node_mode_object node m :
  nr_adapter node = VObject m →
  node_source_mode node = default "direct" (named_mode m).
Proof.
  intros E. unfold node_source_mode. by rewrite E.
Qed.

Lemma storage_client_transport node m client :
  nr_adapter node = VObject m → storage_client_from_initialization (VObject m) = Ok client →
  client_transport client = storage_mode_transport (StorageSourceMode_from_token (node_source_mode node)).
Proof.
  intros E Hc. unfold storage_client_from_initialization in Hc. apply bind_Ok in Hc as (i & Hi & Hc).
  apply (initialization_mode FamilyStorage) in Hi as (mode & Hin & Hkey & Hmode).
  assert (Ht : client_transport client = storage_mode_transport (StorageSourceMode_from_token (ini_source_mode i))).
  { destruct (StorageSourceMode_from_token _); ok_inv; done. }
  rewrite Ht, Hkey, (node_mode_object _ _ E). unfold StorageSourceMode_from_token at 1.
  pose proof (mode_key_is_token FamilyStorage mode Hin) as Hk.
  destruct (mode_policy_for_token FamilyStorage (md_key mode)) as [mode'|]; simpl in Hk; [|done].
  injection Hk as Hk. simpl. rewrite Hk.
  destruct (named_mode m) as [token|]; simpl.
  - unfold StorageSourceMode_from_token. by rewrite Hmode.
  - assert (Hrest : md_key mode = "rest"); [|by rewrite Hrest].
    assert (md_key <$> mode_policy_for_token FamilyStorage "rest" = Some "rest") as Hr by by vm_compute.
    rewrite Hmode in Hr. by injection Hr.
Qed.

Lemma delivery_adapter_transport node m adapter :
  nr_adapter node = VObject m → delivery_parse_adapter (VObject m) = Ok adapter →
  match adapter with MessagingViaModule t _ => Some t | MessagingViaRest _ => None end =
  delivery_mode_transport (DeliverySourceMode_from_token (node_source_mode node)).
Proof.
  intros E Hc. unfold delivery_parse_adapter in Hc. apply bind_Ok in Hc as (i & Hi & Hc).
  apply (initialization_mode FamilyDelivery) in Hi as (mode & Hin & Hkey & Hmode).
  assert (Ht : match adapter with MessagingViaModule t _ => Some t | MessagingViaRest _ => None end
               = delivery_mode_transport (DeliverySourceMode_from_token (ini_source_mode i))).
  { destruct (DeliverySourceMode_from_token _); ok_inv; done. }
  rewrite Ht, Hkey, (node_mode_object _ _ E). unfold DeliverySourceMode_from_token at 1.
  pose proof (mode_key_is_token FamilyDelivery mode Hin) as Hk.
  destruct (mode_policy_for_token FamilyDelivery (md_key mode)) as [mode'|]; simpl in Hk; [|done].
  injection Hk as Hk. simpl. rewrite Hk.
  destruct (named_mode m) as [token|]; simpl.
  - unfold DeliverySourceMode_from_token. by rewrite Hmode.
  - assert (Hrest : md_key mode = "rest"); [|by rewrite Hrest].
    assert (md_key <$> mode_policy_for_token FamilyDelivery "rest" = Some "rest") as Hr by by vm_compute.
    rewrite Hmode in Hr. by injection Hr.
Qed.

Lemma plan_for_client_transport client method args context dispatch plan ctx :
  plan_for_client client method args context dispatch = Ok (plan, ctx) →
  storage_plan_transport plan = client_transport client.
Proof.
  unfold plan_for_client. destruct client; [by intros [= <- <-]|]. intros Hp.
  apply bind_Ok in Hp as (o & _ & [= <- <-]). done.
Qed.

Lemma storage_plan_client node operation client plan ctx :
  storage_operation_plan node operation client = Ok (plan, ctx) →
  storage_plan_transport plan = client_transport client.
Proof.
  destruct operation; simpl; intros Hp; ok_inv; eauto using plan_for_client_transport.
  destruct client; by injection Hp as <- <-.
Qed.

Lemma delivery_plan_adapter node adapter operation plan ctx :
  delivery_operation_plan node adapter operation = Ok (plan, ctx) →
  delivery_plan_transport plan =
    match adapter with MessagingViaModule t _ => Some t | MessagingViaRest _ => None end.
Proof.
  destruct operation; simpl; unfold delivery_subscription_plan, delivery_send_plan, delivery_create_node_plan,
    delivery_lifecycle_plan, delivery_store_query_plan; intros Hp; ok_inv; destruct adapter; simpl in *; ok_inv; try done;
    by injection Hp as <- <-.
Qed.

Definition adapter_is_object (r : RuntimeOperationRequest) : Prop :=
  match rq_node_request r with Some node => is_object (nr_adapter node) = true | None => True end.

(** The client each request of a storage node is parsed with. *)
Lemma storage_parse_client node operation parsed :
  storage_request_parse node operation = Ok parsed →
  ∃ client, storage_client_from_initialization (nr_adapter node) = Ok client ∧
            storage_plan_transport (sr_plan parsed) = client_transport client.
Proof.
  unfold storage_request_parse. intros Hp. apply bind_Ok in Hp as (client & Hc & Hp).
  apply bind_Ok in Hp as ([plan ctx] & Hp & [= <-]). exists client. split; [done|]. by eapply storage_plan_client.
Qed.

Lemma requested_storage_transport r node cmd :
  rq_node_request r = Some node → is_object (nr_adapter node) = true → rq_command r = CmdStorage cmd →
  storage_validate cmd r = Ok () →
  planned_transport r = Ok (storage_mode_transport (StorageSourceMode_from_token (node_source_mode node))).
Proof.
  intros Hnode Hobj Ec Hv. destruct (nr_adapter node) as [| | | | |m] eqn:Ea; try done.
  unfold planned_transport, storage_validate, request_node_request in *. rewrite Ec, Hnode in *.
  assert (Hclient : ∀ client, storage_client_from_initialization (nr_adapter node) = Ok client →
            client_transport client = storage_mode_transport (StorageSourceMode_from_token (node_source_mode node))).
  { intros client Hc. rewrite Ea in Hc. by eapply storage_client_transport. }
  destruct cmd; simpl in Hv |- *; apply bind_Ok in Hv as (parsed & Hp & _); rewrite Hp; simpl; f_equal;
    try (apply storage_parse_client in Hp as (client & Hc & ->); by apply Hclient);
    apply Hclient.
  - unfold payload_upload_parse_request in Hp. ok_inv. done.
  - unfold backup_upload_parse_request in Hp. ok_inv. done.
  - unfold backup_download_parse_request in Hp. ok_inv. done.
Qed.

Lemma requested_transport_planned r :
  accepted r → adapter_is_object r → requested_module_transport r = planned_transport r.
Proof.
  intros [Hd Hn Hv] Hobj. unfold requested_module_transport, validate_node_request, od_domain,
    adapter_is_object in *. fold (rq_command r) in *.
  destruct (rq_command r) as [cmd|cmd|cmd|cmd|cmd|cmd] eqn:Ec; simpl in Hn, Hv |- *.
  - destruct (Hn eq_refl) as [node Hnode]. rewrite Hnode in Hobj.
    rewrite (requested_storage_transport r node cmd) by done.
    unfold request_node_request. rewrite Hnode. simpl. by destruct (StorageSourceMode_from_token _).
  - destruct (Hn eq_refl) as [node Hnode]. rewrite Hnode in Hobj.
    unfold planned_transport, delivery_validate, request_node_request in *. rewrite Ec, Hnode in *. simpl in Hv |- *.
    apply bind_Ok in Hv as (parsed & Hp & _). rewrite Hp. simpl. f_equal.
    destruct (nr_adapter node) as [| | | | |m] eqn:Ea; try done.
    unfold delivery_request_parse in Hp. rewrite Ea in Hp. apply bind_Ok in Hp as (adapter & Ha & Hp).
    apply bind_Ok in Hp as ([plan ctx] & Hp & [= <-]). simpl.
    rewrite (delivery_plan_adapter _ _ _ _ _ Hp), (delivery_adapter_transport _ _ _ Ea Ha).
    by destruct (DeliverySourceMode_from_token _).
  - unfold planned_transport. by rewrite Ec.
  - unfold planned_transport. by rewrite Ec.
  - unfold planned_transport. rewrite Ec. destruct (Args_new (rq_args r)) as [args|]; [|done]. simpl.
    destruct (args_source_endpoint args 0 "node endpoint") as [source|] eqn:Es; [|done]. simpl. f_equal.
    unfold source_endpoint_adapter. by destruct (se_mode source).
  - unfold planned_transport. by rewrite Ec.
Qed.
End transports.

Lemma exclusive_is_storage d :
  d ∈ operation_definitions → is_Some (od_exclusive_group d) → ∃ cmd, od_command d = CmdStorage cmd.
Proof.
  assert (H : forallb (λ d, match od_exclusive_group d, od_command d with
                              | Some _, CmdStorage _ | None, _ => true
                              | _, _ => false
                              end) operation_definitions = true) by by vm_compute.
  rewrite forallb_forall in H. intros Hd%list_elem_of_In%H [g Hg]. rewrite Hg in Hd.
  destruct (od_command d); try done. eauto.
Qed.

Lemma requested_transport_total `{FileSystem, StoreRequestIds} r :
  accepted r → ∃ transport, requested_module_transport r = Ok transport.
Proof.
  intros [Hd Hn Hv]. unfold requested_module_transport, validate_node_request, od_domain, request_node_request in *.
  fold (rq_command r) in *.
  destruct (rq_command r) as [cmd|cmd|cmd|cmd|cmd|cmd]; simpl in Hn, Hv |- *; eauto.
  - destruct (Hn eq_refl) as [node ->]. simpl. eauto.
  - destruct (Hn eq_refl) as [node ->]. simpl. eauto.
  - unfold blockchain_validate, blockchain_operation_context in Hv. apply bind_Ok in Hv as (ctx & Hv & _).
    apply bind_Ok in Hv as (args & Ha & Hv). apply bind_Ok in Hv as (source & Hs & _).
    rewrite Ha. simpl. rewrite Hs. simpl. eauto.
Qed.

(** C27. For an accepted request whose adapter is an object, the transport the
    request announces before it starts is the one its plan executes on, and an
    upload or a removal is exclusive exactly when that transport is the command
    line. *)
Theorem requested_source_is_executed `{FileSystem, StoreRequestIds} r :
  (∃ value, runtime_operation_request_from_value value = Ok r) ∨
  (∃ method args label, request_from_call method args label = Ok r) →
  adapter_is_object r →
  ∃ transport, planned_transport r = Ok transport ∧ requested_module_transport r = Ok transport ∧
    (od_exclusive_group (rq_definition r) = Some GUpload ∨ od_exclusive_group (rq_definition r) = Some GRemove →
     (is_Some (request_exclusive_group r) ↔ transport = Some TransportLogoscoreCli)).
Proof.
  intros Hr Hobj. assert (Hacc : accepted r)
    by (destruct Hr as [(v & Hr)|(m & a & l & Hr)]; eauto using from_value_accepted, from_call_accepted).
  pose proof (requested_transport_planned r Hacc Hobj) as Hp.
  destruct (requested_transport_total r Hacc) as (transport & Ht). exists transport.
  split_and!; [congruence|done|]. intros Hg.
  destruct (exclusive_is_storage (rq_definition r)) as (cmd & Ec); [apply Hacc|destruct Hg as [->| ->]; eauto|].
  destruct (acc_node _ Hacc) as [node Hnode]; [unfold od_domain; by rewrite Ec|].
  unfold requested_module_transport, od_domain, request_node_request in Ht. rewrite Ec, Hnode in Ht. simpl in Ht.
  unfold request_exclusive_group. rewrite Hnode. simpl.
  destruct (StorageSourceMode_from_token (node_source_mode node)); injection Ht as <-;
    destruct Hg as [->| ->]; split; intros Hx; try done; try (by destruct Hx); eauto.
Qed.

(** An adapter given by position is accepted, and hides its mode from the
    request: an upload through the command line is neither exclusive nor known
    to use that transport. *)
Definition positional_upload : Value :=
  json_object [("method", VString "storageUploadUrl");
               ("adapter", VArray [VString "logoscore_cli"]);
               ("payload", json_object [("path", VString "/tmp/file")])].

Lemma positional_adapter_hides_source `{FileSystem, StoreRequestIds} :
  ∃ r, runtime_operation_request_from_value positional_upload = Ok r ∧
       planned_transport r = Ok (Some TransportLogoscoreCli) ∧
       requested_module_transport r = Ok None ∧ request_exclusive_group r = None ∧
       runtime_operation_pending_module r = None.
Proof.
  eexists. split; [lazy; reflexivity|].
  split; [lazy; reflexivity|]. split; [lazy; reflexivity|]. split; lazy; reflexivity.
Qed.
