(* ===== verification/RuntimeOperations.v ===== *)
(** * The runtime operations of the inspector

    [src/src/inspector/commands/operations/mod.rs]: the registry, the supervisor
    and the counter of operation ids behind one interface, and that interface as
    the runner of the entry points.  A request goes through the steps of
    [SupervisorSystem]: [start_admitted] is their composition on one thread.
    The gate of a settings import, which [start] asks first, is in
    [BackupImport]. *)

From S2P Require Import Prelude Json Bytes ModuleEvents OperationRecord Transition OperationViews.
From S2P Require Import OperationControl Registry Supervisor OperationSpec SourceModes NodeRequests.
From S2P Require Import RegistryTheorems InstructionTarget RuntimeRequest.

(** What the module transport says of an event it is handed. *)
Class ModuleIngress : Type := { transport_ingest : ModuleEventEnvelope → Result () }.

Record RuntimeOperations : Type := mkOperations {
  ro_supervisor : Supervisor RuntimeOperationRequest;
  ro_next_operation_id : Z;
}.
#[export] Instance eta_operations : Eta RuntimeOperations :=
  λ r, mkOperations (ro_supervisor r) (ro_next_operation_id r).

Definition operations_new : RuntimeOperations := mkOperations (supervisor_new registry_new) 1.

Section operations.
Context `{SerdeJson} `{FileSystem} `{StoreRequestIds} `{InstructionTargetResolver} `{ModuleIngress}.
Abbreviation Ops := RuntimeOperations.

(** ** The parts *)
Definition on_supervisor {A} (m : M (Supervisor RuntimeOperationRequest) A) : M Ops A := λ s w,
  match m (ro_supervisor s) w with
  | (out, sup, w') => (out, s <| ro_supervisor := sup |>, w')
  end.
Definition in_registry {A} (m : M (RuntimeOperationRegistry RuntimeOperationRequest) A) : M Ops A :=
  on_supervisor (on_registry m).

Definition next_sequence : M Ops Z := λ s w,
  let '(out, next) := allocate_sequence (ro_next_operation_id s) in
  (out, s <| ro_next_operation_id := next |>, w).

(** ** Starting *)

(** The admission that [prepare] hands out is dropped with the permit it owns
    when a later step fails. *)
Definition or_drop_admission {A} (m : M Ops A) : M Ops A :=
  out ← attempt m;
  match out with
  | Ok a => mret a
  | Err error => on_supervisor release_permit ;; lift (Err error)
  end.

Definition insert_and_start (operation_id : RuntimeOperationId) (request : RuntimeOperationRequest)
    : M Ops () :=
  now ← now_millis;
  record ← lift (running_runtime_operation_record operation_id request now);
  in_registry (insert_record record) ;;
  started ← attempt (in_registry (transition operation_id Started));
  match started with
  | Ok _ => mret ()
  | Err error => in_registry (remove operation_id) ;; lift (Err error)
  end.

(** [admit] owns the admission and drops it itself. *)
Definition admit_or_remove (admission : OperationAdmission) (request : RuntimeOperationRequest) : M Ops () :=
  admitted ← attempt (on_supervisor (admit_operation admission request));
  match admitted with
  | Ok _ => mret ()
  | Err error => in_registry (remove (oa_operation_id admission)) ;; lift (Err error)
  end.

Definition start_admitted (request : RuntimeOperationRequest) : M Ops Value :=
  request ← lift (bind_instruction_target request);
  sequence ← next_sequence;
  let operation_id :=
    RuntimeOperationId_allocated (req_domain_name request)
      (normalized_operation_method (req_method_name request)) sequence in
  admission ← on_supervisor (prepare operation_id request);
  or_drop_admission (insert_and_start operation_id request) ;;
  admit_or_remove admission request ;;
  in_registry (value operation_id).

Definition start_after_backup_import (request : RuntimeOperationRequest) : M Ops Value :=
  start_admitted request.

(** ** Observation *)
Definition operations_value (operation_id : string) : M Ops Value :=
  id ← lift (RuntimeOperationId_parse operation_id);
  in_registry (value id).
Definition operations_status (operation_id : string) : M Ops Value := operations_value operation_id.

Definition operations_events (operation_id : string) (after_seq : Z) : M Ops Value :=
  id ← lift (RuntimeOperationId_parse operation_id);
  in_registry (events id after_seq).

(** ** Cancellation *)
Definition request_operation_cancel (operation_id : RuntimeOperationId) : M Ops bool :=
  disposition ← in_registry (transition operation_id CancelRequested);
  let requested := bool_decide (disposition = Applied) in
  (if requested then on_supervisor (cancel operation_id) else mret ()) ;;
  mret requested.

Definition operations_cancel (operation_id : string) : M Ops Value :=
  id ← lift (RuntimeOperationId_parse operation_id);
  request_operation_cancel id ;;
  in_registry (value id).

Definition cancel_for_backup_import (operation_id : string) : M Ops bool :=
  id ← lift (RuntimeOperationId_parse operation_id);
  request_operation_cancel id.

(** ** Waiting for a result

    One round of [wait_for_result]: it ends with a value or an error, or sleeps
    and looks again. *)
Inductive WaitRound : Type :=
  | WaitReturns (value : Value)
  | WaitFails (message : string)
  | WaitCleanupUnconfirmed (message : string)
  | WaitAgain.

Definition wait_round_of (record : RuntimeOperationRecord RuntimeOperationRequest) : WaitRound :=
  let operation := rec_operation record in
  match op_status operation with
  | StCompleted =>
      if rec_result_purged record
      then WaitFails "runtime operation result was purged by bounded history policy"
      else WaitReturns (default VNull (op_result operation))
  | StAwaitingExternal | StDispatched =>
      if rec_acknowledgement_purged record
      then WaitFails "runtime operation acknowledgement was purged by bounded history policy"
      else WaitReturns (default VNull (op_acknowledgement operation))
  | StCanceled => WaitFails (default "runtime operation canceled" (op_error operation))
  | StFailed => WaitFails (default "runtime operation failed" (op_error operation))
  | StTimedOut => WaitFails (default "runtime operation timed out" (op_error operation))
  | StCanceling =>
      match op_error operation with
      | Some error => WaitCleanupUnconfirmed error
      | None => WaitAgain
      end
  | StRunning => WaitAgain
  end.

Definition wait_round (operation_id : RuntimeOperationId) : M Ops WaitRound :=
  found ← in_registry (inspect (λ records, wait_round_of <$> records !! operation_id));
  lift (ok_or ("runtime operation `" +:+ operation_id +:+ "` was not found") found).

(** The start of [run_blocking]: the id of the operation it then waits for. *)
Definition run_blocking_start (start : RuntimeOperationRequest → M Ops Value) (method : OperationMethod)
    (args : Value) (label : string) : M Ops string :=
  request ← lift (request_from_call method args label);
  transport ← lift (requested_module_transport request);
  if bool_decide (transport = Some TransportModule)
  then throw ("host-backed operation `" +:+ req_method_name request +:+ "` requires `runtimeOperationStart`")
  else
    operation ← start request;
    lift (ok_or "runtime operation id is missing" (value_get "operationId" operation ≫= as_str)).

(** ** Module events *)
Definition reduce_typed_module_event (event : ModuleEventEnvelope) : M Ops Value :=
  answer ← in_registry (ingest_module_event_with_settlement event);
  let '(value, settled) := answer in
  match settled with
  | Some operation_id => on_supervisor (settle operation_id)
  | None => mret ()
  end ;;
  mret value.

Definition ingest_typed_module_event (event : ModuleEventEnvelope) : M Ops Value :=
  let transport_ingress := transport_ingest event in
  value ← reduce_typed_module_event event;
  lift (_ ← transport_ingress; Ok value).

Definition ingest_module_event (value : Value) : M Ops Value :=
  event ← lift (envelope_from_value value);
  ingest_typed_module_event event.

Definition ingest_module_event_parts (module event : string) (args : list Value) : M Ops Value :=
  event ← lift (envelope_new module event args);
  ingest_typed_module_event event.

Definition reduce_module_event_parts_after_transport (module event : string) (args : list Value) : M Ops Value :=
  event ← lift (envelope_new module event args);
  reduce_typed_module_event event.
End operations.
