(* ===== verification/StartTheorems.v ===== *)
(** * Starting an operation

    [start_admitted] runs as a sequence of the steps of [SupervisorSystem], with
    the new id it allocates: what is proved of every interleaving holds of it.
    It either queues the operation it records, or it leaves no trace. *)

From S2P Require Import Prelude Json Bytes ModuleEvents OperationRecord Transition OperationViews.
From S2P Require Import OperationControl RecordInvariants Registry Supervisor.
From S2P Require Import RegistryInvariant RegistrySweep RegistryMethods RegistryTheorems StatusRanks.
From S2P Require Import SupervisorSystem SupervisorInvariant SupervisorReducer SupervisorTheorems.
From S2P Require Import OperationSpec SourceModes NodeRequests TextLemmas InstructionTarget.
From S2P Require Import RuntimeRequest RuntimeOperations.

(** ** Allocated ids *)
Definition dash : Ascii.ascii := Ascii.ascii_of_nat 45.

Lemma pretty_go_no_dash n s : dash ∉ bytes_of s → dash ∉ bytes_of (pretty_N_go n s).
Proof.
  revert s. induction (N.lt_wf_0 n) as [n _ IH]. intros s Hs.
  destruct (decide (n = 0%N)) as [->|Hn]; [by rewrite pretty_N_go_0|].
  rewrite pretty_N_go_step by lia. apply IH; [apply N.div_lt; lia|].
  cbn. apply not_elem_of_cons. split; [|done]. unfold pretty_N_char, dash. by repeat case_match.
Qed.

Lemma pretty_no_dash k : 0 ≤ k → dash ∉ bytes_of (pretty k).
Proof.
  intros Hk. destruct k as [|p|p]; [|by apply pretty_go_no_dash, not_elem_of_nil|lia].
  change (dash ∉ [Ascii.ascii_of_nat 48]). by rewrite list_elem_of_singleton.
Qed.

Lemma app_last_sep {A} (x : A) a b a' b' :
  x ∉ b → x ∉ b' → a ++ x :: b = a' ++ x :: b' → b = b'.
Proof.
  revert a'. induction a as [|y a IH]; intros [|y' a'] Hb Hb' E; simplify_eq/=; try done; [| |by eapply IH].
  - destruct Hb. apply elem_of_app. right. by left.
  - destruct Hb'. apply elem_of_app. right. by left.
Qed.

(** An id determines its sequence number. *)
Lemma allocated_inj domain method k domain' method' k' :
  0 ≤ k → 0 ≤ k' →
  RuntimeOperationId_allocated domain method k = RuntimeOperationId_allocated domain' method' k' → k = k'.
Proof.
  intros Hk Hk' E. apply (f_equal bytes_of) in E. unfold RuntimeOperationId_allocated in E.
  rewrite !bytes_of_app in E. apply (inj pretty), bytes_of_inj.
  apply (app_last_sep dash (bytes_of domain ++ [dash] ++ bytes_of method) _
           (bytes_of domain' ++ [dash] ++ bytes_of method') _); try by apply pretty_no_dash.
  by rewrite <- !(assoc_L (++)).
Qed.

Section start.
Context `{SerdeJson} `{FileSystem} `{StoreRequestIds} `{InstructionTargetResolver}.
Abbreviation Sup := (Supervisor RuntimeOperationRequest).
Abbreviation Sys := (System (Request := RuntimeOperationRequest)).
Implicit Types y : System (Request := RuntimeOperationRequest).
Implicit Types g : RuntimeOperationRegistry RuntimeOperationRequest.

(** ** Running on one thread

    The counter of ids stands at [n] throughout. *)
Definition runs {A} (m : M RuntimeOperations A) (n : Z) y (Q : Result A → Sys → Prop) : Prop :=
  wp m (λ out s', ∃ y', rtc system_step y y' ∧ s' = mkOperations (sy_sup y') n ∧ Q out y')
     (mkOperations (sy_sup y) n).

Lemma runs_mono {A} (m : M RuntimeOperations A) n y (Q Q' : Result A → Sys → Prop) :
  runs m n y Q → (∀ out y', Q out y' → Q' out y') → runs m n y Q'.
Proof. intros Hm HQ. eapply wp_mono; [exact Hm|]. intros out s' (y' & ? & ? & ?). eauto. Qed.

Lemma runs_bind {A B} (m : M RuntimeOperations A) (k : A → M RuntimeOperations B) n y Q :
  runs m n y (λ out y1, match out with Ok a => runs (k a) n y1 Q | Err e => Q (Err e) y1 end) →
  runs (m ≫= k) n y Q.
Proof.
  intros Hm. apply wp_bind. eapply wp_mono; [exact Hm|].
  intros [a|e] s1 (y1 & Hr & -> & Hk); [|by exists y1].
  eapply wp_mono; [exact Hk|]. intros out s' (y2 & ? & ? & ?). exists y2. split; [by etrans|done].
Qed.

Lemma runs_lift {A} (r : Result A) n y (Q : Result A → Sys → Prop) : Q r y → runs (lift r) n y Q.
Proof. intros HQ. apply wp_lift. by exists y. Qed.
Lemma runs_ret {A} (a : A) n y (Q : Result A → Sys → Prop) : Q (Ok a) y → runs (mret a) n y Q.
Proof. intros HQ. apply wp_ret. by exists y. Qed.
Lemma runs_now n y (Q : Result Z → Sys → Prop) : (∀ now, Q (Ok now) y) → runs now_millis n y Q.
Proof. intros HQ. apply wp_now_millis. intros now _. by exists y. Qed.
Lemma runs_attempt {A} (m : M RuntimeOperations A) n y (Q : Result (Result A) → Sys → Prop) :
  runs m n y (λ out, Q (Ok out)) → runs (attempt m) n y Q.
Proof. intros Hm. by apply wp_attempt. Qed.

(** One step of the system. *)
Lemma runs_step {A} (m : M Sup A) n y (f : Result A → Sup → Sys) (P : Result A → Sup → Prop) Q :
  wp m P (sy_sup y) →
  (∀ w out s' w', m (sy_sup y) w = (out, s', w') → P out s' →
     system_step y (f out s') ∧ sy_sup (f out s') = s' ∧ Q out (f out s')) →
  runs (on_supervisor m) n y Q.
Proof.
  intros HP Hf w. specialize (HP w). unfold on_supervisor. cbn [ro_supervisor].
  destruct (m (sy_sup y) w) as [[out s'] w'] eqn:E.
  destruct (Hf w out s' w' E HP) as (? & Hs & ?). exists (f out s').
  split; [by apply rtc_once|]. by rewrite Hs.
Qed.

Definition with_registry g y : Sys := y <| sy_sup ::= λ s, s <| sv_registry := g |> |>.

Lemma runs_registry {A} (m : M (RuntimeOperationRegistry RuntimeOperationRequest) A) n y P Q :
  wp m P (sv_registry (sy_sup y)) →
  (∀ w out g' w', m (sv_registry (sy_sup y)) w = (out, g', w') → P out g' →
     system_step y (with_registry g' y) ∧ Q out (with_registry g' y)) →
  runs (in_registry m) n y Q.
Proof.
  intros HP Hf. eapply (runs_step _ _ _ (λ _ s', with_registry (sv_registry s') y)
    (λ out s', P out (sv_registry s') ∧ s' = sy_sup (with_registry (sv_registry s') y))).
  { apply wp_on_registry. eapply wp_mono; [exact HP|]. by intros out g' Hp. }
  intros w out s' w' E [Hp Hs]. unfold on_registry in E.
  destruct (m (sv_registry (sy_sup y)) w) as [[o g'] w1] eqn:Em. simplify_eq/=.
  by destruct (Hf w out g' w' Em Hp).
Qed.

(** ** An admission in progress

    From [y0] only the operation [id] has moved, to [entry]. *)
Definition ids y : gset RuntimeOperationId := sy_applied y ∪ sy_signalled y ∪ sy_settled y.
(** The records of the operations [among] are those they were: the live ones are
    the same, and a settled one can only be forgotten or lose its payloads. *)
Record same_records (among : RuntimeOperationId → Prop) g g' : Prop := mkSameRecords {
  sm_live : ∀ i r, among i → live r → rg_records g !! i = Some r ↔ rg_records g' !! i = Some r;
  sm_old : ∀ i r', among i → rg_records g' !! i = Some r' → ∃ r, rg_records g !! i = Some r ∧ purged r r';
}.
Definition same_others (id : RuntimeOperationId) g g' : Prop := same_records (λ i, i ≠ id) g g'.

Record starting y0 (id : RuntimeOperationId) (entry : option (ControlRef * Place RuntimeOperationRequest)) y : Prop := {
  sg_wf : system_wf y;
  sg_ledger : sy_ledger y = partial_alter (λ _, entry) id (sy_ledger y0);
  sg_others : same_others id (sv_registry (sy_sup y0)) (sv_registry (sy_sup y));
  sg_ids : ids y ⊆ {[id]} ∪ ids y0;
}.

#[export] Instance same_records_preorder among : PreOrder (same_records among).
Proof.
  split; [intros g; split; [done|]; intros i r _ Hr; by exists r|]. intros g1 g2 g3 [L12 O12] [L23 O23]. split.
  - intros i r Hi Hl. rewrite (L12 i r Hi Hl). by apply L23.
  - intros i r3 Hi Hr3. destruct (O23 _ _ Hi Hr3) as (r2 & Hr2 & P2). destruct (O12 _ _ Hi Hr2) as (r1 & Hr1 & P1).
    exists r1. split; [done|]. by etrans.
Qed.
#[export] Instance same_others_preorder id : PreOrder (same_others id).
Proof. exact (same_records_preorder (λ i, i ≠ id)). Qed.

Lemma swept_same among g g' : swept g g' → same_records among g g'.
Proof. intros Hsw. split; [intros i r _ Hl; by apply (sw_live _ _ Hsw)|]. intros i r' _. apply (sw_old _ _ Hsw). Qed.

Lemma insert_same_others r g g' out :
  (∃ g1, registry_wf g1 ∧ swept g g1 ∧ insert_effect r g1 out g') →
  same_others (op_operation_id (rec_operation r)) g g'.
Proof.
  intros (g1 & _ & Hsw & He). etrans; [by apply swept_same|].
  destruct out as [[]|e]; [|by destruct He as [-> _]]. destruct He as (_ & _ & _ & Hl & _ & Ho).
  split; [intros i ri Hne Hli; by apply Hl|done].
Qed.

Lemma transition_same_others P g id t out g' : transition_post P g id t out g' → same_others id g g'.
Proof.
  intros (g1 & _ & Hsw & Hout). etrans; [by apply swept_same|]. destruct out as [d|e]; [|by subst].
  destruct Hout as [(_ & -> & _)|(r & r' & journals & _ & _ & _ & Hfin & _)]; [done|].
  split; [intros i ri Hne Hl; by apply (fi_others _ _ _ _ _ _ Hfin)|apply (fi_old _ _ _ _ _ _ Hfin)].
Qed.

(** A record that was removed again. *)
Definition same_all g g' : Prop := same_records (λ _, True) g g'.
#[export] Instance same_all_preorder : PreOrder same_all.
Proof. exact (same_records_preorder (λ _, True)). Qed.

Lemma deleted_same_others id g g' : rg_records g' = delete id (rg_records g) → same_others id g g'.
Proof.
  intros Hdel. split; intros i r Hne; rewrite Hdel, lookup_delete_ne by done; [done|]. intros Hr. by exists r.
Qed.

Lemma removed_same_all id g g' :
  same_others id g g' → rg_records g !! id = None → rg_records g' !! id = None → same_all g g'.
Proof.
  intros [Hl Ho] Hno Hnone. split; intros i r _; (destruct (decide (i = id)) as [->|Hne]; [|auto]).
  - by rewrite Hno, Hnone.
  - by rewrite Hnone.
Qed.

Lemma same_absent id g g' : same_all g g' → rg_records g !! id = None → rg_records g' !! id = None.
Proof.
  intros [_ Ho] Hno. destruct (rg_records g' !! id) as [r'|] eqn:E; [|done].
  destruct (Ho id r' I E) as (r & Hr & _). congruence.
Qed.

Lemma starting_registry y0 id entry y g' :
  starting y0 id entry y → system_step y (with_registry g' y) →
  same_others id (sv_registry (sy_sup y)) g' → starting y0 id entry (with_registry g' y).
Proof.
  intros [Hw Hl Hr Hi] Hs Hg. split; [by eapply system_step_wf | done | by etrans | done].
Qed.

Lemma starting_moved y0 id entry entry' y s' y' :
  starting y0 id entry y → system_step y y' →
  sy_ledger y' = sy_ledger (moved id entry' s' y) → sy_sup y' = s' → ids y' ⊆ {[id]} ∪ ids y →
  same_others id (sv_registry (sy_sup y)) (sv_registry s') → starting y0 id entry' y'.
Proof.
  intros [Hw Hl Hr Hi] Hs Hled Hsup Hids Hg. split; [by eapply system_step_wf | | | set_solver].
  - rewrite Hled. unfold moved. cbn. rewrite Hl. apply map_eq. intros i. destruct (decide (i = id)) as [->|Hne].
    + rewrite lookup_partial_alter_eq. by destruct entry' as [e|]; rewrite ?lookup_insert_eq, ?lookup_delete_eq.
    + rewrite lookup_partial_alter_ne by done.
      destruct entry' as [e|]; rewrite ?lookup_insert_ne, ?lookup_delete_ne by done;
        by rewrite lookup_partial_alter_ne.
  - rewrite Hsup. by etrans.
Qed.

(** ** The steps of [start_admitted] *)
Lemma running_record_running id request now (r : RuntimeOperationRecord RuntimeOperationRequest) :
  running_runtime_operation_record id request now = Ok r → op_status (rec_operation r) = StRunning.
Proof.
  unfold running_runtime_operation_record. destruct (req_context request) as [ctx|]; [|done]. simpl.
  destruct (policy_from_request request ctx) as [policy|]; [|done]. by intros [= <-].
Qed.

Lemma prepare_frame id request (s : Sup) :
  wp (prepare id request) (λ out s', sv_registry s' = sv_registry s
    ∧ ∀ a, out = Ok a → oa_operation_id a = id) s.
Proof.
  assert (He : wp ensure_controller (λ _ s', sv_registry s' = sv_registry s) s).
  { unfold ensure_controller, ensure_open. wp_step. wp_step. wp_step. case_if E1; [|by wp_go].
    wp_step. wp_step. wp_step. destruct (sv_controller s); try by wp_go.
    wp_step. wp_step. wp_step. case_if E2; by wp_go. }
  unfold prepare. wp_step. eapply wp_mono; [exact He|]. intros [[]|e] s1 Hs1; [|done].
  unfold ensure_open, try_acquire_permit. wp_step. wp_step. wp_step. case_if E; [|by wp_go].
  wp_step. wp_step. wp_step. wp_step. case_if Ep; [by wp_go|]. wp_step. apply wp_or_release.
  wp_step. wp_step. wp_step. wp_step. destruct (instant_checked_add _ _) as [deadline|]; [|done]. cbn [ok_or].
  wp_step. wp_step. destruct (sreq_disposable_file request id) as [file|]; [|done].
  wp_step. wp_step. destruct (sreq_termination_handshake_grace request) as [grace|]; [|done].
  wp_step. intros w1. unfold new_control. cbn. wp_go. split; [done|]. by intros a [= <-].
Qed.

Lemma starting_none y0 id y : sy_ledger y0 !! id = None → starting y0 id None y → sy_ledger y = sy_ledger y0.
Proof. intros Hid [_ Hl _ _]. rewrite Hl. by apply partial_alter_id. Qed.

Lemma prepare_runs n y id request :
  system_wf y → sy_ledger y !! id = None →
  runs (on_supervisor (prepare id request)) n y (λ out y',
    sv_registry (sy_sup y') = sv_registry (sy_sup y)
    ∧ match out with
      | Ok a => oa_operation_id a = id
                ∧ starting y id (Some (oa_control a, Admitting StagePrepared (oa_cleanup a) request)) y'
                ∧ ids y' = ids y
      | Err _ => starting y id None y'
      end).
Proof.
  intros Hw Hid.
  eapply (runs_step _ _ _ (λ out s', match out with
    | Ok a => moved id (Some (oa_control a, Admitting StagePrepared (oa_cleanup a) request)) s' y
                <| sy_owner ::= λ l, l ++ [id] |>
    | Err _ => y <| sy_sup := s' |> end)); [apply prepare_frame|].
  intros w out s' w' E [Hreg Ha].
  assert (Hstart : starting y id None y).
  { split; [done | | done | set_solver]. symmetry. by apply partial_alter_id. }
  destruct out as [a|e].
  - assert (Hs : system_step y (moved id (Some (oa_control a, Admitting StagePrepared (oa_cleanup a) request)) s' y
                <| sy_owner ::= λ l, l ++ [id] |>)) by (by eapply step_prepare).
    split_and!; [done|done|done|by apply Ha| |done].
    eapply (starting_moved _ _ _ _ _ s'); [exact Hstart|exact Hs|done|done|set_solver|by rewrite Hreg].
  - assert (Hs : system_step y (y <| sy_sup := s' |>)) by (by eapply step_prepare_failed).
    split_and!; [done|done|done|]. destruct Hstart as [Hw1 Hl1 Hg1 Hi1].
    split; [by eapply system_step_wf|done|rewrite <- Hreg in Hg1 |- *; done|done].
Qed.

Definition recorded (id : RuntimeOperationId) (r : RuntimeOperationRecord RuntimeOperationRequest) y : Prop :=
  rg_records (sv_registry (sy_sup y)) !! id = Some r ∧ op_status (rec_operation r) = StRunning.

Lemma running_live (r : RuntimeOperationRecord RuntimeOperationRequest) :
  op_status (rec_operation r) = StRunning → live r.
Proof. unfold live. by intros ->. Qed.

Lemma wp_started g id r :
  registry_wf g → rg_records g !! id = Some r → op_status (rec_operation r) = StRunning →
  wp (transition id Started) (transition_post (λ r', op_status (rec_operation r') = StRunning) g id Started) g.
Proof.
  intros Hg Hr Hst. apply wp_registry_transition; [done|done|done|].
  intros g1 r1 Hg1 Hsw Hr1.
  apply (sw_live _ _ Hsw id r (running_live r Hst)) in Hr. rewrite Hr1 in Hr. simplify_eq.
  unfold transition_body. wp_step. apply wp_on_records.
  assert (Hrep : replay_module r Started = None) by (unfold replay_module; simpl; by rewrite andb_false_r).
  rewrite Hrep. apply wp_transition; [congruence|..]; intros r0 Hr0; simplify_eq.
  - intros Ht. by rewrite Hst in Ht.
  - intros Hl. split; [by intros ? ? [=]|]. intros _. apply wp_mutation_post; [done|].
    cbn [apply_live_transition]. wp_step. eapply wp_mono; [apply push_frame|].
    intros [[]|e] r' [Hc _]; [|done]. wp_go. intros _ r2 Hr2. simpl in Hr2.
    rewrite lookup_insert_eq in Hr2. simplify_eq. by rewrite (same_core_status _ _ Hc).
Qed.

Lemma insert_and_start_runs n y0 y id request ref cleanup :
  starting y0 id (Some (ref, Admitting StagePrepared cleanup request)) y →
  id ∉ ids y → rg_records (sv_registry (sy_sup y)) !! id = None →
  runs (insert_and_start id request) n y (λ out y',
    starting y0 id (Some (ref, Admitting StagePrepared cleanup request)) y'
    ∧ match out with
      | Ok _ => ∃ r, recorded id r y'
      | Err _ => same_all (sv_registry (sy_sup y)) (sv_registry (sy_sup y'))
      end).
Proof.
  intros Hst Hids Hno. unfold insert_and_start. apply runs_bind, runs_now. intros now.
  apply runs_bind, runs_lift.
  destruct (running_runtime_operation_record id request now) as [r|e] eqn:Er; [|done].
  destruct (running_record_fresh _ _ _ _ Er) as [Hfresh Hid].
  pose proof (sw_registry _ (sg_wf _ _ _ _ Hst)) as Hg.
  apply runs_bind. eapply runs_registry; [by apply wp_insert|].
  intros w out g' w' E [Hg' Heff].
  assert (Hs : system_step y (with_registry g' y)).
  { eapply step_insert_record; [|exact Hids|exact Er|exact E]. intros e He.
    rewrite (sg_ledger _ _ _ _ Hst), lookup_partial_alter_eq in He. by simplify_eq. }
  split; [done|].
  assert (Hst' : starting y0 id (Some (ref, Admitting StagePrepared cleanup request)) (with_registry g' y)).
  { apply starting_registry; [done|done|]. rewrite <- Hid. by eapply insert_same_others. }
  pose proof Heff as (g1 & Hg1 & Hsw & Heff1). rename Heff into Hall, Heff1 into Heff. destruct out as [[]|e].
  2:{ split; [done|]. destruct Heff as [-> _]. by apply swept_same. }
  destruct Heff as (Hnone & _ & Hr & _). rewrite Hid in Hr, Hnone.
  assert (Hrun : op_status (rec_operation r) = StRunning) by (by eapply running_record_running).
  apply runs_bind, runs_attempt. eapply runs_registry; [by apply (wp_started g' id r)|].
  intros w1 out g2 w2 E1 Hpost.
  assert (Hs1 : system_step (with_registry g' y) (with_registry g2 (with_registry g' y))).
  { apply step_registry. by eapply (call_transition id Started). }
  split; [done|]. assert (Hst2 := starting_registry _ _ _ _ _ Hst' Hs1 (transition_same_others _ _ _ _ _ _ Hpost)).
  destruct out as [d|e].
  - apply runs_ret. split; [done|]. destruct Hpost as (g3 & _ & Hsw3 & [(Habs & _)|Hfin]).
    { apply (sw_live _ _ Hsw3 id r (running_live r Hrun)) in Hr. congruence. }
    destruct Hfin as (r1 & r2 & gm & _ & _ & Hst3 & Hfin & _). exists r2. split; [|done].
    by apply (fi_live _ _ _ _ _ _ Hfin), running_live.
  - apply runs_bind. eapply runs_registry; [apply wp_remove, (sw_registry _ (sg_wf _ _ _ _ Hst2))|].
    intros w3 out g3 w4 E3 (-> & _ & Hdel & _).
    assert (Hs3 : system_step (with_registry g2 (with_registry g' y))
                    (with_registry g3 (with_registry g2 (with_registry g' y)))).
    { apply step_registry. by eapply (call_remove id). }
    split; [done|]. apply runs_lift. split.
    + apply starting_registry; [done..|]. by apply deleted_same_others.
    + apply (removed_same_all id); [|done|simpl; by rewrite Hdel, lookup_delete_eq].
      etrans; [|etrans; [by eapply transition_same_others|by apply deleted_same_others]].
      rewrite <- Hid. by eapply insert_same_others.
Qed.

(** [admit] is the sequence of its critical sections. *)
Lemma runs_release_bind {A B} (m : M Sup A) (k : A → M Sup B) n y Q :
  runs (on_supervisor (or_release m)) n y (λ out y1, match out with
    | Ok a => runs (on_supervisor (or_release (k a))) n y1 Q
    | Err e => Q (Err e) y1
    end) →
  runs (on_supervisor (or_release (m ≫= k))) n y Q.
Proof.
  intros Hm w. specialize (Hm w). revert Hm.
  unfold on_supervisor, or_release, attempt, mbind, M_bind. cbn [ro_supervisor].
  destruct (m (sy_sup y) w) as [[[a|e] s1] w1] eqn:E; cbn -[release_permit].
  - intros (y1 & Hr & Hs & Hk). injection Hs as ->. specialize (Hk w1). revert Hk.
    cbn [ro_supervisor]. destruct (k a (sy_sup y1) w1) as [[out s2] w2]; cbn -[release_permit].
    destruct out; cbn; intros (y2 & ? & ? & ?); exists y2; (split; [by etrans|done]).
  - done.
Qed.

Definition keeps_registry {A} (m : M Sup A) (s : Sup) : Prop :=
  wp m (λ _ s', swept (sv_registry s) (sv_registry s')) s.

Lemma keeps_release {A} (m : M Sup A) s : keeps_registry m s → keeps_registry (or_release m) s.
Proof. intros Hm. apply wp_or_release. eapply wp_mono; [exact Hm|]. by intros [a|e]. Qed.
Lemma keeps_remove id m s : keeps_registry m s → keeps_registry (or_remove_control id m) s.
Proof. intros Hm. apply wp_or_remove. eapply wp_mono; [exact Hm|]. by intros [a|e]. Qed.

Lemma keeps_admit_insert a s : keeps_registry (admit_insert a) s.
Proof.
  unfold keeps_registry, admit_insert. wp_step. wp_step. case_if E; [by wp_go|].
  destruct (sv_controls s !! oa_operation_id a); by wp_go.
Qed.
Lemma keeps_sender s : keeps_registry controller_sender s.
Proof. unfold keeps_registry, controller_sender. wp_step. wp_step. destruct (sv_controller s); by wp_go. Qed.
Lemma keeps_synchronize id s :
  registry_wf (sv_registry s) → keeps_registry (synchronize_admitted_control id) s.
Proof.
  intros Hg. unfold keeps_registry, synchronize_admitted_control, operation_status, on_control.
  wp_step. wp_step. destruct (sv_controls s !! id) as [ref|]; [|by wp_go]. case_if E; [by wp_go|].
  wp_step. wp_step. apply wp_on_registry. eapply wp_mono; [by apply wp_inspect|].
  intros out g' (_ & Hsw & ->). wp_step. unfold ok_or. case_match; [|done]. case_if E2; by wp_go.
Qed.
Lemma send_effect a request (s : Sup) :
  wp (admit_send a request) (λ out s', sv_registry s' = sv_registry s
    ∧ (is_ok out = true → sv_commands s' = sv_commands s ++ [(a, request)])) s.
Proof.
  unfold admit_send, remove_control. wp_step. apply wp_try_send; intros _; cbn; by wp_go.
Qed.

Lemma recorded_swept id r y y' :
  recorded id r y → swept (sv_registry (sy_sup y)) (sv_registry (sy_sup y')) → recorded id r y'.
Proof. intros [Hr Hst] Hsw. split; [|done]. by apply (sw_live _ _ Hsw id r (running_live r Hst)). Qed.

(** One critical section of [admit]: on to the next place, or out. *)
Lemma admit_step_runs {A} (m : M Sup A) n y0 y id ref p p' r (extra : Sup → gset RuntimeOperationId) (P : Result A → Sup → Prop) :
  starting y0 id (Some (ref, p)) y → recorded id r y →
  keeps_registry m (sy_sup y) → wp (or_release m) P (sy_sup y) →
  (∀ s, extra s ⊆ {[id]}) →
  (∀ w out s' w', or_release m (sy_sup y) w = (out, s', w') →
     system_step y (moved id (if is_ok out then Some (ref, p') else None) s' y
                      <| sy_signalled ::= λ a, extra s' ∪ a |>)) →
  runs (on_supervisor (or_release m)) n y (λ out y',
    starting y0 id (if is_ok out then Some (ref, p') else None) y' ∧ recorded id r y' ∧ P out (sy_sup y')).
Proof.
  intros Hst Hrec Hk HP Hextra Hs.
  eapply (runs_step _ _ _ (λ out s', moved id (if is_ok out then Some (ref, p') else None) s' y
    <| sy_signalled ::= λ a, extra s' ∪ a |>)); [apply wp_and; [apply keeps_release, Hk|exact HP]|].
  intros w out s' w' E [Hsw Hp]. specialize (Hs w out s' w' E). split; [done|]. split; [done|]. split_and!.
  - eapply (starting_moved _ _ _ _ _ s'); [exact Hst|exact Hs|done|done| |by apply swept_same].
    unfold ids. simpl. specialize (Hextra s'). set_solver.
  - by apply (recorded_swept _ _ y).
  - done.
Qed.

Lemma moved_no_signal id entry s' y : moved id entry s' y <| sy_signalled ::= λ a, ∅ ∪ a |> = moved id entry s' y.
Proof.
  assert (Hid : ∀ a : gset RuntimeOperationId, ∅ ∪ a = a) by set_solver.
  unfold moved. destruct y. cbv -[union empty]. by rewrite Hid.
Qed.

Lemma starting_place y0 id e y : starting y0 id e y → sy_ledger y !! id = e.
Proof. intros [_ Hl _ _]. by rewrite Hl, lookup_partial_alter_eq. Qed.

Lemma admit_runs n y0 y id request ref cleanup r :
  starting y0 id (Some (ref, Admitting StagePrepared cleanup request)) y → recorded id r y →
  runs (on_supervisor (admit_operation (mkAdmission id ref cleanup) request)) n y (λ out y',
    starting y0 id (if is_ok out then Some (ref, Queued) else None) y' ∧ recorded id r y'
    ∧ (is_ok out = true → last (sv_commands (sy_sup y')) = Some (mkAdmission id ref cleanup, request))).
Proof.
  intros Hst Hrec. unfold admit_operation. cbn [oa_operation_id].
  apply runs_release_bind. eapply runs_mono.
  { eapply (admit_step_runs _ n y0 y id ref _ (Admitting StageInserted cleanup request) r (λ _, ∅) (λ _ _, True));
      [done|done|apply keeps_admit_insert|apply wp_true|set_solver|].
    intros. rewrite moved_no_signal. eapply step_admit_insert; [by eapply starting_place|done]. }
  intros [[]|e] y1 (Hst1 & Hrec1 & _); [cbn in Hst1|done]. apply runs_release_bind. eapply runs_mono.
  { eapply (admit_step_runs _ n y0 y1 id ref _ (Admitting StageSynchronized cleanup request) r
      (λ s', if is_canceling (sv_registry s') id then {[id]} else ∅) (λ _ _, True));
      [done|done| |apply wp_true|intros s; case_match; set_solver|].
    { apply keeps_remove, keeps_synchronize, (sw_registry _ (sg_wf _ _ _ _ Hst1)). }
    intros w out s' w' E.
    pose proof (step_admit_synchronize id ref cleanup request w out s' w' y1 (starting_place _ _ _ _ Hst1) E) as Hs.
    revert Hs. destruct (is_canceling (sv_registry s') id); [done|]. rewrite moved_no_signal.
    unfold moved. by destruct y1. }
  intros [[]|e] y2 (Hst2 & Hrec2 & _); [cbn in Hst2|done]. apply runs_release_bind. eapply runs_mono.
  { eapply (admit_step_runs _ n y0 y2 id ref _ (Admitting StageSending cleanup request) r (λ _, ∅) (λ _ _, True));
      [done|done|apply keeps_remove, keeps_sender|apply wp_true|set_solver|].
    intros. rewrite moved_no_signal. eapply step_admit_sender; [by eapply starting_place|done]. }
  intros [[]|e] y3 (Hst3 & Hrec3 & _); [cbn in Hst3|done].
  eapply (admit_step_runs _ n y0 y3 id ref _ Queued r (λ _, ∅)
    (λ out s', is_ok out = true → last (sv_commands s') = Some (mkAdmission id ref cleanup, request)));
    [done|done| | |set_solver|].
  - eapply wp_mono; [apply send_effect|]. by intros out s' [-> _].
  - apply wp_or_release. eapply wp_mono; [apply send_effect|]. intros [[]|e] s' [_ Hc]; [|done].
    intros _. by rewrite Hc, last_snoc.
  - intros. rewrite moved_no_signal. eapply step_admit_send; [by eapply starting_place|done].
Qed.

Lemma admit_or_remove_runs n y0 y id request ref cleanup r :
  starting y0 id (Some (ref, Admitting StagePrepared cleanup request)) y → recorded id r y →
  rg_records (sv_registry (sy_sup y0)) !! id = None →
  runs (admit_or_remove (mkAdmission id ref cleanup) request) n y (λ out y',
    match out with
    | Ok _ => starting y0 id (Some (ref, Queued)) y' ∧ recorded id r y'
              ∧ last (sv_commands (sy_sup y')) = Some (mkAdmission id ref cleanup, request)
    | Err _ => starting y0 id None y' ∧ same_all (sv_registry (sy_sup y0)) (sv_registry (sy_sup y'))
    end).
Proof.
  intros Hst Hrec Hno. unfold admit_or_remove. apply runs_bind, runs_attempt.
  eapply runs_mono; [by eapply admit_runs|]. intros [[]|e] y1 (Hst1 & Hrec1 & Hc); cbn in Hst1.
  { apply runs_ret. split_and!; [done|done|by apply Hc]. }
  apply runs_bind. eapply runs_registry; [apply wp_remove, (sw_registry _ (sg_wf _ _ _ _ Hst1))|].
  intros w out g' w' E (-> & _ & Hdel & _).
  assert (Hs : system_step y1 (with_registry g' y1)) by (apply step_registry; by eapply (call_remove id)).
  split; [done|]. apply runs_lift.
  assert (Hst2 := starting_registry _ _ _ _ _ Hst1 Hs (deleted_same_others _ _ _ Hdel)). split; [done|].
  apply (removed_same_all id); [apply (sg_others _ _ _ _ Hst2)|done|]. simpl. by rewrite Hdel, lookup_delete_eq.
Qed.

Lemma or_drop_runs {A} (m : M RuntimeOperations A) n y0 y id ref cleanup request (P : Sys → Prop) (R : RuntimeOperationRegistry RuntimeOperationRequest → Prop) :
  runs m n y (λ out y', starting y0 id (Some (ref, Admitting StagePrepared cleanup request)) y'
    ∧ match out with Ok _ => P y' | Err _ => R (sv_registry (sy_sup y')) end) →
  runs (or_drop_admission m) n y (λ out y', match out with
    | Ok _ => starting y0 id (Some (ref, Admitting StagePrepared cleanup request)) y' ∧ P y'
    | Err _ => starting y0 id None y' ∧ R (sv_registry (sy_sup y'))
    end).
Proof.
  intros Hm. unfold or_drop_admission. apply runs_bind, runs_attempt. eapply runs_mono; [exact Hm|].
  intros [a|e] y1 [Hst HQ]; [by apply runs_ret|]. apply runs_bind.
  eapply (runs_step _ _ _ (λ _ s', moved id None s' y1)
    (λ out s', out = Ok () ∧ s' = (sy_sup y1) <| sv_permits ::= Z.succ |>)); [unfold release_permit; by wp_go|].
  intros w out s' w' E [-> ->].
  assert (Hs : system_step y1 (moved id None ((sy_sup y1) <| sv_permits ::= Z.succ |>) y1)).
  { eapply step_prepared_dropped. by eapply starting_place. }
  split; [done|]. split; [done|]. apply runs_lift. split; [|done].
  eapply (starting_moved _ _ _ _ _ ((sy_sup y1) <| sv_permits ::= Z.succ |>));
    [exact Hst|exact Hs|done|done|set_solver|done].
Qed.

Lemma value_runs n y0 y id e r :
  starting y0 id e y → recorded id r y →
  runs (in_registry (value id)) n y (λ out y',
    out = Ok (runtime_operation_record_value r) ∧ starting y0 id e y' ∧ recorded id r y'
    ∧ sv_commands (sy_sup y') = sv_commands (sy_sup y)).
Proof.
  intros Hst Hrec. pose proof (sw_registry _ (sg_wf _ _ _ _ Hst)) as Hg.
  set (f := λ records : gmap RuntimeOperationId (RuntimeOperationRecord RuntimeOperationRequest),
    record ← find_record id records; Ok (runtime_operation_record_value record)).
  eapply (runs_registry _ _ _ (λ out g', swept (sv_registry (sy_sup y)) g' ∧ out = f (rg_records g'))).
  { unfold value. wp_step. eapply wp_mono; [by apply (wp_inspect f)|]. intros o g' (_ & Hsw & ->). by wp_go. }
  intros w out g' w' E [Hsw ->].
  assert (Hs : system_step y (with_registry g' y)).
  { apply step_registry. change (value id) with (inspect f ≫= lift) in E. unfold mbind, M_bind in E.
    destruct (inspect f (sv_registry (sy_sup y)) w) as [[o g2] w2] eqn:Ei.
    assert (g2 = g') as -> by (destruct o; unfold lift in E; congruence). by eapply (call_inspect _ f). }
  assert (Hrec' : recorded id r (with_registry g' y))
    by (eapply recorded_swept; [exact Hrec|exact Hsw]).
  split; [done|]. split_and!; [| |done|done].
  - unfold f, find_record. destruct Hrec' as [Hr _]. simpl in Hr. by rewrite Hr.
  - apply starting_registry; [done..|by apply swept_same].
Qed.

(** ** The whole call *)

(** Ids with a sequence number from [n] on have not been used. *)
Definition unused_ids (n : Z) y : Prop :=
  ∀ domain method k, n ≤ k →
    let id := RuntimeOperationId_allocated domain method k in
    sy_ledger y !! id = None ∧ id ∉ ids y ∧ rg_records (sv_registry (sy_sup y)) !! id = None.

Definition allocated_id (request : RuntimeOperationRequest) (sequence : Z) : RuntimeOperationId :=
  RuntimeOperationId_allocated (req_domain_name request)
    (normalized_operation_method (req_method_name request)) sequence.

Lemma unused_after y0 y domain method n e :
  0 ≤ n → unused_ids n y0 → starting y0 (RuntimeOperationId_allocated domain method n) e y →
  unused_ids (n + 1) y.
Proof.
  intros Hn Hun [_ Hl [_ Ho] Hi] d m k Hk id.
  assert (Hne : id ≠ RuntimeOperationId_allocated domain method n).
  { intros Heq. apply allocated_inj in Heq; lia. }
  destruct (Hun d m k ltac:(lia)) as (Hk1 & Hk2 & Hk3). fold id in Hk1, Hk2, Hk3.
  split_and!; [by rewrite Hl, lookup_partial_alter_ne by done|set_solver|].
  destruct (rg_records (sv_registry (sy_sup y)) !! id) as [r'|] eqn:E; [|done].
  destruct (Ho id r' Hne E) as (r & Hr & _). congruence.
Qed.

(** What a start leaves, when the request was bound to [bound]. *)
Definition start_post (bound : RuntimeOperationRequest) (sequence : Z) y (out : Result Value) y' : Prop :=
  let id := allocated_id bound sequence in
  match out with
  | Ok v => ∃ ref cleanup r,
      starting y id (Some (ref, Queued)) y' ∧ recorded id r y' ∧ v = runtime_operation_record_value r
      ∧ last (sv_commands (sy_sup y')) = Some (mkAdmission id ref cleanup, bound)
  | Err _ => starting y id None y' ∧ same_all (sv_registry (sy_sup y)) (sv_registry (sy_sup y'))
             ∧ rg_records (sv_registry (sy_sup y')) !! id = None
  end.

Lemma start_runs bound n n' y :
  system_wf y → unused_ids n y →
  let id := allocated_id bound n in
  runs (admission ← on_supervisor (prepare id bound);
        or_drop_admission (insert_and_start id bound) ;;
        admit_or_remove admission bound ;;
        in_registry (value id)) n' y (start_post bound n y).
Proof.
  intros Hw Hun id. destruct (Hun (req_domain_name bound) (normalized_operation_method (req_method_name bound)) n
    (Z.le_refl n)) as (Hled & Hids & Hnone). fold (allocated_id bound n) in Hled, Hids, Hnone.
  fold id in Hled, Hids, Hnone. apply runs_bind. eapply runs_mono; [by apply prepare_runs|].
  intros [a|e] y1 [Hreg Hout]; [|split_and!; [done|by rewrite Hreg|by rewrite Hreg]].
  destruct Hout as (Hida & Hst1 & Hids1).
  apply runs_bind. eapply runs_mono.
  { eapply or_drop_runs. apply (insert_and_start_runs n' y y1 id bound); [exact Hst1|by rewrite Hids1|by rewrite Hreg]. }
  rewrite Hreg. intros [[]|e] y2 [Hst2 Hrec]; [|split_and!; [done|done|by eapply same_absent]]. destruct Hrec as [r Hrec].
  destruct a as [aid ref cleanup]. cbn in Hida. subst aid.
  apply runs_bind. eapply runs_mono; [by eapply admit_or_remove_runs|].
  intros [[]|e] y3 Hout; [|destruct Hout; split_and!; [done|done|by eapply same_absent]].
  destruct Hout as (Hst3 & Hrec3 & Hlast).
  eapply runs_mono; [by eapply value_runs|]. intros out y4 (-> & Hst4 & Hrec4 & Hc).
  exists ref, cleanup, r. by rewrite Hc.
Qed.

(** C12. Starting an operation is a sequence of steps of the supervisor system
    with one of two ends: the operation has a record, a control and a place at
    the end of the queue, and the answer is the view of that record; or an error
    is answered and no record, control, permit or command of the operation is
    left.  Either way the other live records are as they were, and a settled one
    can only have been forgotten or have lost its payloads to a sweep.  The id is
    not used again. *)
Theorem start_all_or_nothing s y request w out s' w' :
  rtc system_step system_new y → sy_sup y = ro_supervisor s →
  0 ≤ ro_next_operation_id s → unused_ids (ro_next_operation_id s) y →
  start_admitted request s w = (out, s', w') →
  ∃ y', rtc system_step y y' ∧ sy_sup y' = ro_supervisor s'
    ∧ unused_ids (ro_next_operation_id s') y'
    ∧ ((y' = y ∧ s' = s ∧ is_ok out = false)
       ∨ ∃ bound, bind_instruction_target request = Ok bound
           ∧ ro_next_operation_id s' = ro_next_operation_id s + 1
           ∧ start_post bound (ro_next_operation_id s) y out y').
Proof.
  intros Hreach Hsup Hn Hun E. pose proof (reachable_wf _ Hreach) as Hw.
  unfold start_admitted in E. destruct (bind_instruction_target request) as [bound|e] eqn:Eb.
  2:{ cbv [lift mbind M_bind] in E. simplify_eq. exists y. split_and!; [done|done|done|by left]. }
  cbv [lift mbind M_bind next_sequence allocate_sequence] in E. destruct s as [sup n]. cbn in Hsup, Hn, Hun, E.
  destruct (checked_add n 1) as [n1|] eqn:En; cycle 1.
  { cbv in E. simplify_eq. exists y. split_and!; [done|done|done|by left]. }
  assert (n1 = n + 1) as -> by (unfold checked_add in En; destruct (n + 1 <=? u64_max); congruence).
  subst sup. pose proof (start_runs bound n (n + 1) y Hw Hun) as Hrun.
  destruct (wp_run _ _ _ _ _ _ _ Hrun E) as (y' & Hr & -> & Hpost).
  exists y'. split_and!; [done|done| |right; by exists bound].
  destruct out as [v|e]; [destruct Hpost as (? & ? & ? & Hst & _)|destruct Hpost as [Hst _]];
    by eapply unused_after.
Qed.
End start.
