(* ===== verification/LocalState.v ===== *)
(** * Transactions on the local state files

    [src/src/support/local_state.rs]: the three files of the local state are
    replaced together.  A commit stages the new contents, makes a rollback
    journal durable, renames the staged files over the old ones and removes the
    journal; whoever finds a journal restores the old contents from it.

    The disk is a model of its own.  Each name has the node that is seen now and
    the nodes that a loss of power may bring back, which are the ones it had
    since the directory was last synchronized.  The contents of a file are
    synchronized before it is renamed, so a node is a whole file.  Temporary
    files have names of their own that nobody looks up, so a temporary file is
    its contents.

    Every call of the system may fail, with or without having had its effect, as
    the [Environment] says.  A process that is gone is one whose calls all fail
    from some point on: nothing it does then changes the disk.  The hooks of the
    tests do nothing in the code that is run, and the directory is synchronized
    as on Unix. *)

From S2P Require Import Prelude Json Bytes OperationSpec SourceModes NodeRequests.
From S2P Require Import CatalogModel InstructionTarget.

(** ** Files and their contents *)
Definition JOURNAL_SCHEMA_VERSION : Z := 1.
Definition TRANSACTION_ID_BYTES : Z := 16.
Definition LOCAL_STATE_TRANSACTION_ID_HEX_LENGTH : Z := TRANSACTION_ID_BYTES * 2.
Definition SHA256_HEX_LENGTH : Z := 64.

Inductive StateFile : Type := FileSettings | FileIdl | FileWallet.
#[export] Instance StateFile_eq_dec : EqDecision StateFile.
Proof. solve_decision. Defined.

Definition STATE_FILES : list StateFile := [FileSettings; FileIdl; FileWallet].

Definition file_label (file : StateFile) : string :=
  match file with FileSettings => "settings" | FileIdl => "IDL" | FileWallet => "wallet" end.

(** The derived order. *)
Definition file_rank (file : StateFile) : Z :=
  match file with FileSettings => 0 | FileIdl => 1 | FileWallet => 2 end.

Inductive StoredBytes : Type := StoredMissing | StoredPresent (bytes : list Z).
#[export] Instance StoredBytes_eq_dec : EqDecision StoredBytes.
Proof. solve_decision. Defined.

Record LocalStateWriteSet : Type := mkWriteSet {
  ws_settings : option (list Z);
  ws_idl : option (list Z);
  ws_wallet : option (list Z);
}.

Definition write_set_is_empty (writes : LocalStateWriteSet) : bool :=
  bool_decide (ws_settings writes = None) && bool_decide (ws_idl writes = None)
  && bool_decide (ws_wallet writes = None).

Definition into_entries (writes : LocalStateWriteSet) : list (StateFile * list Z) :=
  omap (λ '(file, bytes), pair file <$> bytes)
    [(FileSettings, ws_settings writes); (FileIdl, ws_idl writes); (FileWallet, ws_wallet writes)].

(** ** Durability and cancellation *)
Inductive DirectoryDurability : Type := DurabilityVerified | DurabilityPlatformUnverified.
#[export] Instance DirectoryDurability_eq_dec : EqDecision DirectoryDurability.
Proof. solve_decision. Defined.
Definition durability_str (d : DirectoryDurability) : string :=
  match d with DurabilityVerified => "verified" | DurabilityPlatformUnverified => "platform_unverified" end.
Definition durability_combine (d other : DirectoryDurability) : DirectoryDurability :=
  if bool_decide (d = DurabilityVerified) && bool_decide (other = DurabilityVerified)
  then DurabilityVerified else DurabilityPlatformUnverified.

Inductive CommitCancellation : Type := CancellationOpen | CancellationRequested | CancellationDurable | CancellationDeferred.

Definition cancellation_request (state : CommitCancellation) : CommitCancellation :=
  match state with
  | CancellationOpen => CancellationRequested
  | CancellationDurable => CancellationDeferred
  | CancellationRequested | CancellationDeferred => state
  end.
Definition cancellation_is_requested (state : CommitCancellation) : bool :=
  match state with CancellationRequested | CancellationDeferred => true | _ => false end.

(** ** Errors *)
Inductive LocalStateFailureStatus : Type := FailureRolledBack | FailureRecoveryRequired.
Definition failure_status_str (status : LocalStateFailureStatus) : string :=
  match status with FailureRolledBack => "rolled_back" | FailureRecoveryRequired => "recovery_required" end.

(** An error is a [LocalStateTransactionError] or any other. *)
Inductive StateError : Type :=
  | TransactionError (transaction_id : option string) (status : LocalStateFailureStatus) (phase : string)
  | OtherError (error : Error).

Definition rolled_back (transaction_id phase : string) : StateError :=
  TransactionError (Some transaction_id) FailureRolledBack phase.
Definition recovery_required (transaction_id : option string) (phase : string) : StateError :=
  TransactionError transaction_id FailureRecoveryRequired phase.

Definition state_error_text (error : StateError) : string :=
  match error with
  | TransactionError transaction_id status phase =>
      "local state transaction `" +:+ default "unknown" transaction_id +:+ "` "
      +:+ failure_status_str status +:+ " during " +:+ phase
  | OtherError error => default "" (head error)
  end.

(** ** The disk *)
Inductive Node : Type := NodeMissing | NodeFile (bytes : list Z) | NodeSymlink.
#[export] Instance Node_eq_dec : EqDecision Node.
Proof. solve_decision. Defined.

(** The names the code looks up. *)
Inductive EntryName : Type := TargetName (file : StateFile) | JournalName | LockName.
#[export] Instance EntryName_eq_dec : EqDecision EntryName.
Proof. solve_decision. Defined.

Record Slot : Type := mkSlot { sl_latest : Node; sl_pending : list Node }.
Definition slot_possible (slot : Slot) : list Node := sl_latest slot :: sl_pending slot.

Definition Disk : Type := EntryName → Slot.

Definition disk_node (d : Disk) (name : EntryName) : Node := sl_latest (d name).
Definition disk_put (name : EntryName) (node : Node) (d : Disk) : Disk := λ name',
  if decide (name' = name) then mkSlot node (slot_possible (d name)) else d name'.
Definition disk_sync (d : Disk) : Disk := λ name, mkSlot (sl_latest (d name)) [].

Definition node_stored (node : Node) : option StoredBytes :=
  match node with
  | NodeMissing => Some StoredMissing
  | NodeFile bytes => Some (StoredPresent bytes)
  | NodeSymlink => None
  end.

(** ** Calls of the system *)
Inductive IoAnswer : Type := IoWorks | IoFails | IoFailsAfterEffect.

(** How the calls of the system end, when another thread has asked to cancel,
    and the random bytes. *)
Class Environment : Type := {
  io_answer : nat → IoAnswer;
  close_requested : nat → bool;
  random_bytes : nat → list Z;
}.

(** [ls_gated] says that the directory is in the set [recovery_required] of the
    process. *)
Record LocalState : Type := mkState {
  ls_disk : Disk;
  ls_gated : bool;
  ls_cancellation : CommitCancellation;
  ls_steps : nat;
}.
#[export] Instance eta_local_state : Eta LocalState :=
  λ s, mkState (ls_disk s) (ls_gated s) (ls_cancellation s) (ls_steps s).

Definition IO (A : Type) : Type := LocalState → Res StateError A * LocalState.
#[export] Instance IO_ret : MRet IO := λ A a s, (ROk a, s).
#[export] Instance IO_bind : MBind IO := λ A B k m s,
  match m s with
  | (ROk a, s') => k a s'
  | (RErr e, s') => (RErr e, s')
  end.

Definition io_throw {A} (error : StateError) : IO A := λ s, (RErr error, s).
Definition io_bail {A} (message : string) : IO A := io_throw (OtherError [message]).
Definition io_attempt {A} (m : IO A) : IO (Res StateError A) := λ s,
  match m s with (r, s') => (ROk r, s') end.
Definition io_map_error {A} (f : StateError → StateError) (m : IO A) : IO A := λ s,
  match m s with (r, s') => (map_err f r, s') end.
Definition io_lift {A} (r : Result A) : IO A := λ s,
  (match r with Ok a => ROk a | Err e => RErr (OtherError e) end, s).
Definition io_get : IO LocalState := λ s, (ROk s, s).
Definition io_modify (f : LocalState → LocalState) : IO () := λ s, (ROk (), f s).

Section system.
Context `{Environment}.

(** A call with an effect on the disk and a result read from it. *)
Definition io_call {A} (effect : Disk → Disk) (result : Disk → A) (message : string) : IO A := λ s,
  let s' := s <| ls_steps ::= S |> in
  let error := OtherError [message] in
  match io_answer (ls_steps s) with
  | IoWorks => (ROk (result (ls_disk s)), s' <| ls_disk ::= effect |>)
  | IoFails => (RErr error, s')
  | IoFailsAfterEffect => (RErr error, s' <| ls_disk ::= effect |>)
  end.
(** A call whose effect nobody sees, and one that only looks. *)
Definition io_do (message : string) : IO () := io_call id (λ _, ()) message.
Definition io_look {A} (result : Disk → A) (message : string) : IO A := io_call id result message.

(** What other threads have done to the cancellation by now. *)
Definition observe_close : IO () := io_modify (λ s,
  (if close_requested (ls_steps s) then s <| ls_cancellation ::= cancellation_request |> else s)
    <| ls_steps ::= S |>).

Definition reject_symlink (name : EntryName) (label : string) : IO () :=
  node ← io_look (λ d, disk_node d name) ("failed to inspect " +:+ label +:+ " path");
  if bool_decide (node = NodeSymlink) then io_bail (label +:+ " path must not be a symbolic link")
  else mret ().

Definition path_present (name : EntryName) : IO bool :=
  node ← io_look (λ d, disk_node d name) "failed to inspect local state recovery path";
  mret (negb (bool_decide (node = NodeMissing))).

(** A symbolic link has been rejected before the file is read. *)
Definition read_stored_bytes (name : EntryName) (label : string) : IO StoredBytes :=
  reject_symlink name label ;;
  node ← io_look (λ d, disk_node d name) ("failed to read " +:+ label +:+ " state");
  match node_stored node with
  | Some stored => mret stored
  | None => io_bail ("failed to read " +:+ label +:+ " state")
  end.

Definition read_file (file : StateFile) : IO StoredBytes := read_stored_bytes (TargetName file) (file_label file).

(** [tempfile_in], [write_all] and [sync_all]. *)
Definition write_temporary (bytes : list Z) (created written synced : string) : IO (list Z) :=
  io_do created ;; io_do written ;; io_do synced ;; mret bytes.

Definition persist (name : EntryName) (bytes : list Z) (message : string) : IO () :=
  io_call (disk_put name (NodeFile bytes)) (λ _, ()) message.

(** [fs::remove_file]: whether there was something to remove. *)
Definition remove_file (name : EntryName) (message : string) : IO bool :=
  io_call (λ d, if bool_decide (disk_node d name = NodeMissing) then d else disk_put name NodeMissing d)
    (λ d, negb (bool_decide (disk_node d name = NodeMissing))) message.

Definition sync_parent_directory : IO DirectoryDurability :=
  io_do "failed to open local state directory" ;;
  io_call disk_sync (λ _, DurabilityVerified) "failed to sync local state directory".

Definition check_pre_journal : IO () :=
  observe_close ;;
  s ← io_get;
  if cancellation_is_requested (ls_cancellation s)
  then io_bail "local state transaction canceled before journal durability" else mret ().

Definition seal_journal_durable : IO () :=
  observe_close ;;
  s ← io_get;
  match ls_cancellation s with
  | CancellationOpen => io_modify (λ s, s <| ls_cancellation := CancellationDurable |>)
  | CancellationRequested => io_bail "local state transaction canceled before journal durability"
  | _ => io_bail "local state transaction cancellation boundary is invalid"
  end.
End system.

(** ** The rollback journal *)
Class Base64Crate : Type := {
  base64_encode : list Z → string;
  base64_decode : string → option (list Z);
}.
Class SerdeJsonBytes : Type := {
  to_vec_pretty : Value → list Z;
  from_slice : list Z → option Value;
}.

Inductive JournalMemento : Type := MementoMissing | MementoPresent (bytes_base64 : string).

Record JournalEntry : Type := mkJournalEntry {
  je_file : StateFile;
  je_original : JournalMemento;
  je_old_sha256 : option string;
  je_new_sha256 : string;
}.

Record RollbackJournal : Type := mkJournal {
  rj_schema_version : Z;
  rj_transaction_id : string;
  rj_entries : list JournalEntry;
}.

Section journal.
Context `{HexCrate} `{Sha2Crate} `{Base64Crate}.

Definition sha256_hex (bytes : list Z) : string := hex_encode (sha256 bytes).

Definition checksum (stored : StoredBytes) : option string :=
  match stored with StoredMissing => None | StoredPresent bytes => Some (sha256_hex bytes) end.

Definition memento_from_stored (stored : StoredBytes) : JournalMemento :=
  match stored with
  | StoredMissing => MementoMissing
  | StoredPresent bytes => MementoPresent (base64_encode bytes)
  end.
Definition memento_to_stored (memento : JournalMemento) : Result StoredBytes :=
  match memento with
  | MementoMissing => Ok StoredMissing
  | MementoPresent text =>
      bytes ← ok_or "local state rollback journal contains invalid base64" (base64_decode text);
      Ok (StoredPresent bytes)
  end.

Definition validate_checksum (value : string) : Result () :=
  if negb (str_len value =? SHA256_HEX_LENGTH) || negb (all_hexdigits value)
  then bail "local state rollback journal checksum is invalid" else Ok ().

(** The files are in strictly increasing order; [seen] adds nothing to that but
    is checked first. *)
Fixpoint validate_entries (seen : list StateFile) (previous : option StateFile) (entries : list JournalEntry)
    : Result () :=
  match entries with
  | [] => Ok ()
  | entry :: entries' =>
      if bool_decide (je_file entry ∈ seen)
         || match previous with Some file => file_rank (je_file entry) <=? file_rank file | None => false end
      then bail "local state rollback journal target order is invalid"
      else
        _ ← validate_checksum (je_new_sha256 entry);
        _ ← match je_old_sha256 entry with Some checksum => validate_checksum checksum | None => Ok () end;
        original ← memento_to_stored (je_original entry);
        if bool_decide (checksum original = je_old_sha256 entry)
        then validate_entries (je_file entry :: seen) (Some (je_file entry)) entries'
        else bail "local state rollback journal original checksum is invalid"
  end.

Definition validate_journal (journal : RollbackJournal) : Result () :=
  if negb (rj_schema_version journal =? JOURNAL_SCHEMA_VERSION)
  then bail "local state rollback journal version is not supported"
  else if negb (str_len (rj_transaction_id journal) =? LOCAL_STATE_TRANSACTION_ID_HEX_LENGTH)
          || negb (all_hexdigits (rj_transaction_id journal))
  then bail "local state rollback journal transaction id is invalid"
  else if (zlen (rj_entries journal) =? 0) || (zlen STATE_FILES <? zlen (rj_entries journal))
  then bail "local state rollback journal write set is invalid"
  else validate_entries [] None (rj_entries journal).
End journal.

(** *** Its text *)
Definition state_file_str (file : StateFile) : string :=
  match file with FileSettings => "settings" | FileIdl => "idl" | FileWallet => "wallet" end.
Definition de_state_file : Value → option StateFile :=
  de_unit_enum [("settings", FileSettings); ("idl", FileIdl); ("wallet", FileWallet)].

Definition memento_value (memento : JournalMemento) : Value :=
  match memento with
  | MementoMissing => json_object [("kind", VString "missing")]
  | MementoPresent text => json_object [("kind", VString "present"); ("bytes_base64", VString text)]
  end.
Definition de_memento (value : Value) : option JournalMemento :=
  '(tag, content) ← tagged_content value;
  if String.eqb tag "missing" then Some MementoMissing
  else if String.eqb tag "present" then
    match struct_fields_strict ["bytes_base64"] content with
    | Some [text] => MementoPresent <$> de_field as_str text
    | _ => None
    end
  else None.

Definition journal_entry_value (entry : JournalEntry) : Value :=
  json_object [("file", VString (state_file_str (je_file entry)));
               ("original", memento_value (je_original entry));
               ("old_sha256", json_option VString (je_old_sha256 entry));
               ("new_sha256", VString (je_new_sha256 entry))].
Definition de_journal_entry (value : Value) : option JournalEntry :=
  match struct_fields_strict ["file"; "original"; "old_sha256"; "new_sha256"] value with
  | Some [file; original; old_sha256; new_sha256] =>
      file ← de_field de_state_file file;
      original ← de_field de_memento original;
      old_sha256 ← de_option_field (is_object value) as_str old_sha256;
      new_sha256 ← de_field as_str new_sha256;
      Some (mkJournalEntry file original old_sha256 new_sha256)
  | _ => None
  end.

Definition journal_value (journal : RollbackJournal) : Value :=
  json_object [("schema_version", json_u64 (rj_schema_version journal));
               ("transaction_id", VString (rj_transaction_id journal));
               ("entries", VArray (map journal_entry_value (rj_entries journal)))].
Definition de_journal (value : Value) : option RollbackJournal :=
  match struct_fields_strict ["schema_version"; "transaction_id"; "entries"] value with
  | Some [schema_version; transaction_id; entries] =>
      schema_version ← de_field as_u64 schema_version;
      transaction_id ← de_field as_str transaction_id;
      entries ← de_field (λ value, items ← as_array value; mapM de_journal_entry items) entries;
      Some (mkJournal schema_version transaction_id entries)
  | _ => None
  end.

(** ** Sessions *)
Record StagedTarget : Type := mkStaged {
  st_file : StateFile;
  st_checksum : string;
  st_temporary : option (list Z);
}.

Record LocalStateCommitReport : Type := mkReport {
  cr_transaction_id : string;
  cr_directory_durability : DirectoryDurability;
}.

Section session.
Context `{Environment} `{HexCrate} `{Sha2Crate} `{Base64Crate} `{SerdeJsonBytes}.

Definition journal_bytes_of (journal : RollbackJournal) : list Z := to_vec_pretty (journal_value journal).

Definition transaction_id : IO string :=
  io_do "failed to generate local state transaction id" ;;
  s ← io_get;
  mret (hex_encode (random_bytes (ls_steps s))).

Definition stage_target (file : StateFile) (bytes : list Z) : IO StagedTarget :=
  reject_symlink (TargetName file) (file_label file) ;;
  temporary ← write_temporary bytes ("failed to stage " +:+ file_label file +:+ " state")
                ("failed to write staged " +:+ file_label file +:+ " state")
                ("failed to sync staged " +:+ file_label file +:+ " state");
  mret (mkStaged file (sha256_hex bytes) (Some temporary)).

Definition verify_checksum (file : StateFile) (expected : string) : IO () :=
  current ← read_file file;
  if bool_decide (checksum current = Some expected) then mret ()
  else io_bail (file_label file +:+ " state verification failed").

Definition persist_target (target : StagedTarget) : IO DirectoryDurability :=
  temporary ← io_lift (ok_or "staged local state target was already consumed" (st_temporary target));
  reject_symlink (TargetName (st_file target)) (file_label (st_file target)) ;;
  persist (TargetName (st_file target)) temporary
    ("failed to replace " +:+ file_label (st_file target) +:+ " state") ;;
  durability ← sync_parent_directory;
  verify_checksum (st_file target) (st_checksum target) ;;
  mret durability.

Definition atomic_replace (file : StateFile) (bytes : list Z) : IO DirectoryDurability :=
  staged ← stage_target file bytes;
  persist_target staged.

Definition install_journal (journal_bytes : list Z) : IO DirectoryDurability :=
  present ← path_present JournalName;
  if present : bool then io_bail "local state rollback journal already exists"
  else
    reject_symlink JournalName "local state rollback journal" ;;
    temporary ← write_temporary journal_bytes "failed to create local state rollback journal"
                  "failed to write local state rollback journal" "failed to sync local state rollback journal";
    check_pre_journal ;;
    persist JournalName temporary "failed to persist local state rollback journal" ;;
    durability ← sync_parent_directory;
    seal_journal_durable ;;
    mret durability.

(** The journal is installed again with a cancellation of its own, that nobody
    can request. *)
Definition with_own_cancellation {A} (m : IO A) : IO A := λ s,
  match m (s <| ls_cancellation := CancellationOpen |>) with
  | (r, s') => (r, s' <| ls_cancellation := ls_cancellation s |>)
  end.
End session.

Definition no_requests (environment : Environment) : Environment :=
  {| io_answer := io_answer; close_requested := λ _, false; random_bytes := random_bytes |}.

Section recovery.
Context `{env : Environment} `{HexCrate} `{Sha2Crate} `{Base64Crate} `{SerdeJsonBytes}.

Definition reinstall_journal (journal_bytes : list Z) : IO () :=
  present ← path_present JournalName;
  if present : bool then mret ()
  else with_own_cancellation (install_journal (H := no_requests env) journal_bytes) ;; mret ().

Definition gate_process : IO () := io_modify (λ s, s <| ls_gated := true |>).

Definition restore_hot_journal_after_removal (journal_bytes : list Z) : IO () :=
  result ← io_attempt (reinstall_journal journal_bytes);
  match result with
  | RErr _ => gate_process ;; io_throw (recovery_required None "journal reinstatement")
  | ROk _ => mret ()
  end.

Definition inspect_journal_or_gate (transaction_id : option string) (phase : string) : IO bool :=
  inspected ← io_attempt (path_present JournalName);
  match inspected with
  | ROk present => mret present
  | RErr _ => gate_process ;; io_throw (recovery_required transaction_id phase)
  end.

Definition remove_journal : IO DirectoryDurability :=
  removed ← remove_file JournalName "failed to remove local state rollback journal";
  if removed : bool then sync_parent_directory
  else io_bail "failed to remove local state rollback journal".

(** *** Rolling back *)
Fixpoint verify_recoverable_targets (transaction_id : string) (entries : list JournalEntry) : IO () :=
  match entries with
  | [] => mret ()
  | entry :: entries' =>
      current ← read_file (je_file entry);
      let current := checksum current in
      if bool_decide (current = je_old_sha256 entry) || bool_decide (current = Some (je_new_sha256 entry))
      then verify_recoverable_targets transaction_id entries'
      else io_throw (recovery_required (Some transaction_id) "target verification")
  end.

Definition restore_for_rollback (file : StateFile) (bytes : list Z) : IO () :=
  reject_symlink (TargetName file) (file_label file) ;;
  temporary ← write_temporary bytes ("failed to stage " +:+ file_label file +:+ " rollback")
                ("failed to write " +:+ file_label file +:+ " rollback")
                ("failed to sync " +:+ file_label file +:+ " rollback");
  persist (TargetName file) temporary ("failed to persist " +:+ file_label file +:+ " rollback") ;;
  sync_parent_directory ;;
  current ← read_file file;
  if bool_decide (current = StoredPresent bytes) then mret ()
  else io_bail (file_label file +:+ " rollback verification failed").

Definition remove_for_rollback (file : StateFile) : IO () :=
  reject_symlink (TargetName file) (file_label file) ;;
  remove_file (TargetName file) ("failed to remove " +:+ file_label file +:+ " rollback target") ;;
  sync_parent_directory ;;
  current ← read_file file;
  if bool_decide (current = StoredMissing) then mret ()
  else io_bail (file_label file +:+ " absence rollback verification failed").

Fixpoint restore_entries (entries : list JournalEntry) : IO () :=
  match entries with
  | [] => mret ()
  | entry :: entries' =>
      original ← io_lift (memento_to_stored (je_original entry));
      match original with
      | StoredMissing => remove_for_rollback (je_file entry)
      | StoredPresent bytes => restore_for_rollback (je_file entry) bytes
      end ;;
      restore_entries entries'
  end.

Definition rollback_journal (journal : RollbackJournal) : IO () :=
  verify_recoverable_targets (rj_transaction_id journal) (rj_entries journal) ;;
  restore_entries (rev (rj_entries journal)) ;;
  removal ← io_attempt remove_journal;
  match removal with
  | ROk _ => mret ()
  | RErr error =>
      present ← inspect_journal_or_gate (Some (rj_transaction_id journal)) "rollback journal inspection";
      (if present : bool then mret () else restore_hot_journal_after_removal (journal_bytes_of journal)) ;;
      io_throw error
  end.

Definition recover_hot_journal : IO () :=
  present ← io_map_error (λ _, recovery_required None "journal inspection") (path_present JournalName);
  if negb present then mret ()
  else
    io_map_error (λ _, recovery_required None "journal validation")
      (reject_symlink JournalName "local state rollback journal") ;;
    node ← io_map_error (λ _, recovery_required None "journal read")
             (io_look (λ d, disk_node d JournalName) "failed to read local state rollback journal");
    match (match node with NodeFile bytes => from_slice bytes | _ => None end) ≫= de_journal with
    | Some journal =>
        match validate_journal journal with
        | Ok _ =>
            io_map_error (λ error, match error with
                                   | TransactionError _ _ _ => error
                                   | OtherError _ => recovery_required (Some (rj_transaction_id journal))
                                                       "hot journal recovery"
                                   end)
              (rollback_journal journal)
        | Err _ => io_throw (recovery_required None "journal validation")
        end
    | None => io_throw (recovery_required None "journal validation")
    end.

(** *** Acquiring the directory *)
Definition acquire : IO () :=
  io_do "failed to create local state directory" ;;
  io_do "failed to resolve local state directory" ;;
  s ← io_get;
  if ls_gated s then io_throw (recovery_required None "process recovery gate")
  else
    reject_symlink LockName "local state lock" ;;
    io_call (λ d, if bool_decide (disk_node d LockName = NodeMissing) then disk_put LockName (NodeFile []) d else d)
      (λ _, ()) "failed to open local state lock" ;;
    io_do "failed to lock local state" ;;
    recover_hot_journal.

Definition with_local_state_in {R} (operation : IO R) : IO R := acquire ;; operation.
Definition recover_local_state : IO () := with_local_state_in (mret ()).

(** *** Committing *)
Fixpoint stage_entries (entries : list (StateFile * list Z)) : IO (list JournalEntry * list StagedTarget) :=
  match entries with
  | [] => mret ([], [])
  | (file, bytes) :: entries' =>
      original ← read_file file;
      temporary ← stage_target file bytes;
      rest ← stage_entries entries';
      let '(journal_entries, staged) := rest in
      mret (mkJournalEntry file (memento_from_stored original) (checksum original) (sha256_hex bytes)
              :: journal_entries, temporary :: staged)
  end.

Fixpoint persist_targets (targets : list StagedTarget) (durability : DirectoryDurability)
    : IO DirectoryDurability :=
  match targets with
  | [] => mret durability
  | target :: targets' =>
      persisted ← persist_target target;
      persist_targets targets' (durability_combine durability persisted)
  end.

Fixpoint verify_new_targets (entries : list JournalEntry) : IO () :=
  match entries with
  | [] => mret ()
  | entry :: entries' => verify_checksum (je_file entry) (je_new_sha256 entry) ;; verify_new_targets entries'
  end.

(** What follows the installation of the journal. *)
Definition apply_targets (journal : RollbackJournal) (staged : list StagedTarget)
    (durability : DirectoryDurability) : IO DirectoryDurability :=
  durability ← persist_targets staged durability;
  verify_new_targets (rj_entries journal) ;;
  removed ← remove_journal;
  mret (durability_combine durability removed).

Definition commit_failed {A} (journal : RollbackJournal) (journal_installed : bool) (error : StateError) : IO A :=
  let transaction_id := rj_transaction_id journal in
  journal_present ← inspect_journal_or_gate (Some transaction_id) "journal inspection";
  if negb journal_installed && negb journal_present then io_throw error
  else
    (if journal_present : bool then mret ()
     else restore_hot_journal_after_removal (journal_bytes_of journal)) ;;
    rolled ← io_attempt (rollback_journal journal);
    match rolled with
    | ROk _ => io_throw (rolled_back transaction_id "commit")
    | RErr _ => io_throw (recovery_required (Some transaction_id) "rollback")
    end.

Definition commit_journal (journal : RollbackJournal) (staged : list StagedTarget) : IO LocalStateCommitReport :=
  installed ← io_attempt (install_journal (journal_bytes_of journal));
  match installed with
  | RErr error => commit_failed journal false error
  | ROk durability =>
      applied ← io_attempt (apply_targets journal staged
                              (durability_combine DurabilityVerified durability));
      match applied with
      | RErr error => commit_failed journal true error
      | ROk durability => mret (mkReport (rj_transaction_id journal) durability)
      end
  end.

Definition local_state_commit (writes : LocalStateWriteSet) : IO LocalStateCommitReport :=
  let entries := into_entries writes in
  if bool_decide (entries = []) then io_bail "local state transaction write set is empty"
  else
    transaction_id ← transaction_id;
    staged ← stage_entries entries;
    let '(journal_entries, staged) := staged in
    check_pre_journal ;;
    let journal := mkJournal JOURNAL_SCHEMA_VERSION transaction_id journal_entries in
    io_lift (validate_journal journal) ;;
    commit_journal journal staged.
End recovery.
