(* ===== verification/DiskLogic.v ===== *)
(** * Reasoning about the disk

    What a call of the system leaves on the disk, whatever the environment
    answers, and when a disk can be recovered: weakest preconditions for the
    monad [IO] of [LocalState] with one postcondition for success and one for
    failure, and the facts about slots that puts, synchronizations and losses of
    power keep. *)

From S2P Require Import Prelude Json Bytes CatalogModel InstructionTarget LocalState.

(** ** Slots *)
Definition slot_all (P : Node → Prop) (slot : Slot) : Prop := Forall P (slot_possible slot).

Lemma slot_all_latest P (d : Disk) name : slot_all P (d name) → P (disk_node d name).
Proof. by inversion 1. Qed.

Lemma slot_all_single P node : slot_all P (mkSlot node []) ↔ P node.
Proof. unfold slot_all. apply Forall_singleton. Qed.

Lemma slot_all_mono (P Q : Node → Prop) slot : (∀ n, P n → Q n) → slot_all P slot → slot_all Q slot.
Proof. intros HPQ Hs. by eapply Forall_impl. Qed.

Lemma put_same P d name node : slot_all P (disk_put name node d name) ↔ P node ∧ slot_all P (d name).
Proof. unfold slot_all, disk_put. rewrite decide_True by done. apply Forall_cons. Qed.

Lemma put_other d name name' node : name' ≠ name → disk_put name node d name' = d name'.
Proof. intros. unfold disk_put. by rewrite decide_False. Qed.

Lemma put_node d name node : disk_node (disk_put name node d) name = node.
Proof. unfold disk_node, disk_put. by rewrite decide_True. Qed.

Lemma sync_node d name : disk_node (disk_sync d) name = disk_node d name.
Proof. done. Qed.

Lemma sync_all P d name : slot_all P (d name) → slot_all P (disk_sync d name).
Proof. intros Hs%slot_all_latest. by repeat constructor. Qed.

Lemma sync_only P d name : P (disk_node d name) → slot_all P (disk_sync d name).
Proof. by repeat constructor. Qed.

Lemma put_keeps (P : EntryName → Node → Prop) d name node :
  P name node → (∀ name', slot_all (P name') (d name')) → ∀ name', slot_all (P name') (disk_put name node d name').
Proof.
  intros Hn Hd name'. destruct (decide (name' = name)) as [->|Hne]; [by apply put_same|by rewrite put_other].
Qed.

(** ** Loss of power

    Every name independently shows one of the nodes it may have. *)
Definition power_loss (d d' : Disk) : Prop :=
  ∀ name, ∃ node, node ∈ slot_possible (d name) ∧ d' name = mkSlot node [].

Lemma power_loss_all P d d' name : power_loss d d' → slot_all P (d name) → slot_all P (d' name).
Proof.
  intros Hl Hs. destruct (Hl name) as (node & Hin & ->). constructor; [|done].
  unfold slot_all in Hs. rewrite Forall_forall in Hs. by apply Hs.
Qed.

(** ** Weakest preconditions *)
Definition dwp {A} (m : IO A) (Q : A → Disk → Prop) (E : StateError → Disk → Prop) (d : Disk) : Prop :=
  ∀ s, ls_disk s = d →
    match m s with
    | (ROk a, s') => Q a (ls_disk s')
    | (RErr e, s') => E e (ls_disk s')
    end.

Section rules.
Context {A : Type}.
Implicit Types (Q : A → Disk → Prop) (E : StateError → Disk → Prop) (d : Disk).

Lemma dwp_ret a Q E d : Q a d → dwp (mret a) Q E d.
Proof. by intros HQ s <-. Qed.

Lemma dwp_bind {B} (m : IO B) (k : B → IO A) Q E d :
  dwp m (λ b d', dwp (k b) Q E d') E d → dwp (m ≫= k) Q E d.
Proof.
  intros Hm s Hs. specialize (Hm s Hs). unfold mbind, IO_bind.
  destruct (m s) as [[b|e] s']; [by apply Hm|done].
Qed.

Lemma dwp_throw e Q E d : E e d → dwp (io_throw e) Q E d.
Proof. by intros HE s <-. Qed.

Lemma dwp_lift r Q E d :
  (∀ a, r = Ok a → Q a d) → (∀ e, r = Err e → E (OtherError e) d) → dwp (io_lift r) Q E d.
Proof. intros HQ HE s <-. unfold io_lift. destruct r; eauto. Qed.

Lemma dwp_map_error f (m : IO A) Q E d :
  dwp m Q (λ e d', E (f e) d') d → dwp (io_map_error f m) Q E d.
Proof.
  intros Hm s Hs. specialize (Hm s Hs). unfold io_map_error. by destruct (m s) as [[a|e] s'].
Qed.

Lemma dwp_mono (m : IO A) (Q Q' : A → Disk → Prop) (E E' : StateError → Disk → Prop) d :
  dwp m Q E d → (∀ a d', Q a d' → Q' a d') → (∀ e d', E e d' → E' e d') → dwp m Q' E' d.
Proof.
  intros Hm HQ HE s Hs. specialize (Hm s Hs). destruct (m s) as [[a|e] s']; eauto.
Qed.

Lemma dwp_run (m : IO A) Q E s r s' :
  dwp m Q E (ls_disk s) → m s = (r, s') →
  match r with ROk a => Q a (ls_disk s') | RErr e => E e (ls_disk s') end.
Proof. intros Hm Hr. specialize (Hm s eq_refl). rewrite Hr in Hm. by destruct r. Qed.
End rules.

Lemma dwp_attempt {A} (m : IO A) (Q : Res StateError A → Disk → Prop) E d :
  dwp m (λ a d', Q (ROk a) d') (λ e d', Q (RErr e) d') d → dwp (io_attempt m) Q E d.
Proof. intros Hm s Hs. specialize (Hm s Hs). unfold io_attempt. by destruct (m s) as [[a|e] s']. Qed.

Lemma dwp_get Q E d : (∀ s, ls_disk s = d → Q s d) → dwp io_get Q E d.
Proof. intros HQ s <-. by apply HQ. Qed.

Lemma dwp_modify f (Q : () → Disk → Prop) E d :
  (∀ s, ls_disk (f s) = ls_disk s) → Q () d → dwp (io_modify f) Q E d.
Proof. intros Hf HQ s <-. simpl. by rewrite Hf. Qed.

Lemma dwp_bail {A} message (Q : A → Disk → Prop) E d : (∀ m, E (OtherError m) d) → dwp (io_bail message) Q E d.
Proof. intros HE. by apply dwp_throw. Qed.

(** The rules below leave the failures of a call that changed nothing to one
    premise. *)
Section calls.
Context `{Environment}.
Implicit Types (E : StateError → Disk → Prop) (d : Disk).

Lemma dwp_call {A} effect (result : Disk → A) message Q E d :
  Q (result d) (effect d) → (∀ m, E (OtherError m) d) → (∀ m, E (OtherError m) (effect d)) →
  dwp (io_call effect result message) Q E d.
Proof.
  intros HQ HE HE' s <-. unfold io_call. destruct (io_answer (ls_steps s)); simpl; auto.
Qed.

Lemma dwp_look {A} (result : Disk → A) message Q E d :
  Q (result d) d → (∀ m, E (OtherError m) d) → dwp (io_look result message) Q E d.
Proof. intros. by apply dwp_call. Qed.

Lemma dwp_do message Q E d : Q () d → (∀ m, E (OtherError m) d) → dwp (io_do message) Q E d.
Proof. intros. by apply dwp_call. Qed.

Lemma dwp_reject_symlink name label Q E d :
  (disk_node d name ≠ NodeSymlink → Q () d) → (∀ m, E (OtherError m) d) → dwp (reject_symlink name label) Q E d.
Proof.
  intros HQ HE. apply dwp_bind, dwp_look; [|done]. case_bool_decide; [by apply dwp_bail|by apply dwp_ret, HQ].
Qed.

Lemma dwp_path_present name Q E d :
  Q (negb (bool_decide (disk_node d name = NodeMissing))) d → (∀ m, E (OtherError m) d) →
  dwp (path_present name) Q E d.
Proof. intros HQ HE. apply dwp_bind, dwp_look; [by apply dwp_ret|done]. Qed.

Lemma dwp_read_file file Q E d :
  (∀ stored, node_stored (disk_node d (TargetName file)) = Some stored → Q stored d) →
  (∀ m, E (OtherError m) d) → dwp (read_file file) Q E d.
Proof.
  intros HQ HE. apply dwp_bind, dwp_reject_symlink; [intros _|done]. apply dwp_bind, dwp_look; [|done].
  destruct (node_stored _) as [stored|]; [by apply dwp_ret, HQ|by apply dwp_bail].
Qed.

Lemma dwp_write_temporary bytes m1 m2 m3 Q E d :
  Q bytes d → (∀ m, E (OtherError m) d) → dwp (write_temporary bytes m1 m2 m3) Q E d.
Proof.
  intros HQ HE. apply dwp_bind, dwp_do, HE. apply dwp_bind, dwp_do, HE. apply dwp_bind, dwp_do, HE.
  by apply dwp_ret.
Qed.

Lemma dwp_sync Q E d :
  Q DurabilityVerified (disk_sync d) → (∀ m, E (OtherError m) d) → (∀ m, E (OtherError m) (disk_sync d)) →
  dwp sync_parent_directory Q E d.
Proof. intros HQ HE HE'. apply dwp_bind, dwp_do, HE. by apply dwp_call. Qed.

Lemma dwp_observe_close Q E d : Q () d → dwp observe_close Q E d.
Proof. intros HQ. apply dwp_modify; [|done]. intros s. by destruct (close_requested _). Qed.

Lemma dwp_check_pre_journal Q E d : Q () d → (∀ m, E (OtherError m) d) → dwp check_pre_journal Q E d.
Proof.
  intros HQ HE. apply dwp_bind, dwp_observe_close, dwp_bind, dwp_get. intros s _.
  destruct (cancellation_is_requested _); [by apply dwp_bail|by apply dwp_ret].
Qed.

Lemma dwp_seal Q E d : Q () d → (∀ m, E (OtherError m) d) → dwp seal_journal_durable Q E d.
Proof.
  intros HQ HE. apply dwp_bind, dwp_observe_close, dwp_bind, dwp_get. intros s _.
  destruct (ls_cancellation s); [by apply dwp_modify|by apply dwp_bail..].
Qed.

Lemma dwp_verify_checksum `{HexCrate} `{Sha2Crate} file expected Q E d :
  Q () d → (∀ m, E (OtherError m) d) → dwp (verify_checksum file expected) Q E d.
Proof.
  intros HQ HE. apply dwp_bind, dwp_read_file; [|done]. intros stored _.
  case_bool_decide; [by apply dwp_ret|by apply dwp_bail].
Qed.

Lemma dwp_stage_target `{HexCrate} `{Sha2Crate} file bytes Q E d :
  Q (mkStaged file (sha256_hex bytes) (Some bytes)) d → (∀ m, E (OtherError m) d) →
  dwp (stage_target file bytes) Q E d.
Proof.
  intros HQ HE. apply dwp_bind, dwp_reject_symlink; [intros _|done].
  apply dwp_bind, dwp_write_temporary; [by apply dwp_ret|done].
Qed.
End calls.

Lemma dwp_own_cancellation {A} (m : IO A) Q E d : dwp m Q E d → dwp (with_own_cancellation m) Q E d.
Proof.
  intros Hm s Hs. unfold with_own_cancellation.
  pose (s0 := s <| ls_cancellation := CancellationOpen |>). fold s0. specialize (Hm s0 Hs).
  by destruct (m s0) as [[a|e] s'].
Qed.
