(* ===== verification/LocalStateTheorems.v ===== *)
(** * Commits are atomic across failures and losses of power

    The invariant of [LocalState] is that a disk can always be brought to the
    state before or after a commit: as long as a loss of power may hide the
    journal, the targets are all old or all new; otherwise any mixture of them
    will do, because the journal restores it. *)

From S2P Require Import Prelude Json Bytes CatalogModel InstructionTarget LocalState DiskLogic.

Section transaction.
Context `{HexCrate} `{Sha2Crate} `{Base64Crate} `{SerdeJsonBytes}.
Context (old new : StateFile → Node) (journal : RollbackJournal).
Implicit Types d : Disk.

Definition J : Node := NodeFile (journal_bytes_of journal).

(** ** What is on the disk *)
Definition targets_are (v : StateFile → Node) d : Prop := ∀ file, slot_all (λ n, n = v file) (d (TargetName file)).
Definition targets_mixed d : Prop := ∀ file, slot_all (λ n, n = old file ∨ n = new file) (d (TargetName file)).
Definition journal_is (node : Node) d : Prop := slot_all (λ n, n = node) (d JournalName).
Definition journal_mixed d : Prop := slot_all (λ n, n = NodeMissing ∨ n = J) (d JournalName).
Definition lock_ok d : Prop := slot_all (λ n, n ≠ NodeSymlink) (d LockName).

Definition settled (v : StateFile → Node) d : Prop := lock_ok d ∧ targets_are v d ∧ journal_is NodeMissing d.
Definition uniform (v : StateFile → Node) d : Prop := lock_ok d ∧ journal_mixed d ∧ targets_are v d.
Definition guarded d : Prop := lock_ok d ∧ journal_is J d ∧ targets_mixed d.
Definition recoverable d : Prop := guarded d ∨ uniform old d ∨ uniform new d.

(** The journal tells the old contents of the targets it names, and the other
    targets stay as they are. *)
Record describes : Prop := {
  ds_text : from_slice (journal_bytes_of journal) ≫= de_journal = Some journal;
  ds_valid : validate_journal journal = Ok ();
  ds_old entry : entry ∈ rj_entries journal →
    ∃ stored, memento_to_stored (je_original entry) = Ok stored
      ∧ node_stored (old (je_file entry)) = Some stored ∧ je_old_sha256 entry = checksum stored;
  ds_new entry : entry ∈ rj_entries journal →
    ∃ bytes, new (je_file entry) = NodeFile bytes ∧ je_new_sha256 entry = sha256_hex bytes;
  ds_others file : file ∉ map je_file (rj_entries journal) → new file = old file;
  ds_plain file : old file ≠ NodeSymlink;
}.

Lemma settled_uniform v d : settled v d → uniform v d.
Proof. intros (Hl & Ht & Hj). split_and!; [done| |done]. eapply slot_all_mono; [|exact Hj]. auto. Qed.

Lemma journal_is_mixed d : journal_is J d → journal_mixed d.
Proof. apply slot_all_mono. auto. Qed.

Lemma targets_old_mixed d : targets_are old d → targets_mixed d.
Proof. intros Ht file. eapply slot_all_mono, Ht. auto. Qed.
Lemma targets_new_mixed d : targets_are new d → targets_mixed d.
Proof. intros Ht file. eapply slot_all_mono, Ht. auto. Qed.

(** *** Operations of the disk *)
Lemma lock_sync d : lock_ok d → lock_ok (disk_sync d).
Proof. apply sync_all. Qed.
Lemma targets_sync v d : targets_are v d → targets_are v (disk_sync d).
Proof. intros Ht file. apply sync_all, Ht. Qed.
Lemma mixed_sync d : targets_mixed d → targets_mixed (disk_sync d).
Proof. intros Ht file. apply sync_all, Ht. Qed.
Lemma journal_sync node d : journal_is node d → journal_is node (disk_sync d).
Proof. apply sync_all. Qed.
Lemma uniform_sync v d : uniform v d → uniform v (disk_sync d).
Proof. intros (Hl & Hj & Ht). split_and!; [by apply lock_sync|by apply sync_all|by apply targets_sync]. Qed.
Lemma guarded_sync d : guarded d → guarded (disk_sync d).
Proof. intros (Hl & Hj & Ht). split_and!; [by apply lock_sync|by apply sync_all|by apply mixed_sync]. Qed.

Lemma put_journal_targets node v d : targets_are v d → targets_are v (disk_put JournalName node d).
Proof. intros Ht file. by rewrite put_other. Qed.
Lemma uniform_put_journal v node d :
  node = NodeMissing ∨ node = J → uniform v d → uniform v (disk_put JournalName node d).
Proof.
  intros Hn (Hl & Hj & Ht). split_and!; [|by apply put_same|by apply put_journal_targets].
  unfold lock_ok. by rewrite put_other.
Qed.

Lemma guarded_put_target file node d :
  node = old file ∨ node = new file → guarded d → guarded (disk_put (TargetName file) node d).
Proof.
  intros Hn (Hl & Hj & Ht). unfold guarded, lock_ok, journal_is. rewrite !put_other by done.
  split_and!; [done..|]. intros file'. destruct (decide (file' = file)) as [->|Hne].
  - by apply put_same.
  - rewrite put_other by congruence. apply Ht.
Qed.
Lemma uniform_put_target v file d :
  uniform v d → uniform v (disk_put (TargetName file) (v file) d).
Proof.
  intros (Hl & Hj & Ht). unfold uniform, lock_ok, journal_mixed. rewrite !put_other by done.
  split_and!; [done..|]. intros file'. destruct (decide (file' = file)) as [->|Hne].
  - by apply put_same.
  - rewrite put_other by congruence. apply Ht.
Qed.

Lemma recoverable_power_loss d d' : power_loss d d' → recoverable d → recoverable d'.
Proof.
  intros Hp [(Hl & Hj & Ht)|[(Hl & Hj & Ht)|(Hl & Hj & Ht)]]; [left|right; left|right; right];
    split_and!; try (by eapply power_loss_all); intros file; by eapply power_loss_all.
Qed.

Lemma recoverable_put_lock d :
  recoverable d → recoverable (disk_put LockName (NodeFile []) d).
Proof.
  intros [(Hl & Hj & Ht)|[(Hl & Hj & Ht)|(Hl & Hj & Ht)]]; [left|right; left|right; right];
    (split_and!; [by apply put_same|unfold journal_is, journal_mixed; by rewrite put_other|
                  intros file; by rewrite put_other]).
Qed.

(** ** The journal *)
Lemma install_spec `{Environment} v d :
  uniform v d →
  dwp (install_journal (journal_bytes_of journal))
    (λ _ d', uniform v d' ∧ journal_is J d')
    (λ e d', (∃ m, e = OtherError m) ∧ uniform v d'
             ∧ (disk_node d' JournalName = J ∨ d' JournalName = d JournalName)) d.
Proof.
  intros Hu. assert (HE : ∀ m, (∃ m', OtherError m = OtherError m') ∧ uniform v d
             ∧ (disk_node d JournalName = J ∨ d JournalName = d JournalName)) by eauto.
  apply dwp_bind, dwp_path_present; [|done]. destruct (negb _); [by apply dwp_bail|].
  apply dwp_bind, dwp_reject_symlink; [intros _|done]. apply dwp_bind, dwp_write_temporary; [|done].
  apply dwp_bind, dwp_check_pre_journal; [|done].
  pose proof (uniform_put_journal v J d (or_intror eq_refl) Hu) as Hu1.
  pose proof (uniform_sync v _ Hu1) as Hu2.
  assert (HE1 : ∀ m d', d' = disk_put JournalName J d ∨ d' = disk_sync (disk_put JournalName J d) →
    (∃ m', OtherError m = OtherError m') ∧ uniform v d' ∧ (disk_node d' JournalName = J ∨ d' JournalName = d JournalName)).
  { intros m d' [->| ->]; (split_and!; [by eauto|done|]); left; rewrite ?sync_node; apply put_node. }
  apply dwp_bind, dwp_call; [|done|intros m; by apply HE1; left].
  apply dwp_bind, dwp_sync; [|intros m; by apply HE1; left|intros m; by apply HE1; right].
  apply dwp_bind, dwp_seal; [|intros m; by apply HE1; right]. apply dwp_ret.
  split; [done|]. apply sync_only, put_node.
Qed.

Section steps.
Context `{env : Environment}.

Lemma inspect_spec transaction_id phase (Q : bool → Disk → Prop) E d :
  Q (negb (bool_decide (disk_node d JournalName = NodeMissing))) d →
  E (recovery_required transaction_id phase) d →
  dwp (inspect_journal_or_gate transaction_id phase) Q E d.
Proof.
  intros HQ HE. apply dwp_bind, dwp_attempt, dwp_path_present; [by apply dwp_ret|intros m].
  apply dwp_bind, dwp_modify; [done|]. by apply dwp_throw.
Qed.

(** A journal that was removed is installed again, or the process is closed to
    the directory. *)
Lemma restore_hot_spec v d :
  uniform v d → disk_node d JournalName = NodeMissing →
  dwp (restore_hot_journal_after_removal (journal_bytes_of journal))
    (λ _ d', uniform v d' ∧ journal_is J d')
    (λ e d', e = recovery_required None "journal reinstatement" ∧ uniform v d') d.
Proof.
  intros Hu Hn. apply dwp_bind, dwp_attempt, dwp_bind, dwp_path_present.
  2:{ intros m. apply dwp_bind, dwp_modify; [done|]. by apply dwp_throw. }
  rewrite bool_decide_true by done. simpl. apply dwp_bind, dwp_own_cancellation.
  eapply dwp_mono; [by eapply (@install_spec (no_requests env) v)| |].
  - intros dur d' Hd'. apply dwp_ret, dwp_ret, Hd'.
  - intros e d' (_ & Hu' & _). apply dwp_bind, dwp_modify; [done|]. by apply dwp_throw.
Qed.

Lemma remove_journal_spec v d :
  uniform v d →
  dwp remove_journal (λ _ d', settled v d')
    (λ _ d', uniform v d' ∧ (d' = d ∨ disk_node d' JournalName = NodeMissing)) d.
Proof.
  intros Hu. pose proof (uniform_put_journal v NodeMissing d (or_introl eq_refl) Hu) as Hu1.
  pose proof (uniform_sync v _ Hu1) as Hu2. pose proof (put_node d JournalName NodeMissing) as Hn1.
  destruct (bool_decide (disk_node d JournalName = NodeMissing)) eqn:Hn;
    apply dwp_bind, dwp_call; rewrite ?Hn; try (by intros _; auto); simpl.
  - apply dwp_bail. auto.
  - apply dwp_sync; [|intros _; auto..].
    destruct Hu2 as (Hl & _ & Ht). split_and!; [done|done|]. by apply sync_only.
Qed.

(** ** Rolling back *)
Definition restorable d : Prop := guarded d ∨ uniform old d.
Definition shown (v : StateFile → Node) (files : list StateFile) d : Prop :=
  ∀ file, file ∈ files → slot_all (λ n, n = v file) (d (TargetName file)).

Lemma restorable_recoverable d : restorable d → recoverable d.
Proof. intros [?|?]; [by left|by right; left]. Qed.

Lemma restorable_mixed d : restorable d → targets_mixed d.
Proof. intros [(_ & _ & Ht)|(_ & _ & Ht)]; [done|by apply targets_old_mixed]. Qed.

Lemma restorable_sync d : restorable d → restorable (disk_sync d).
Proof. intros [?|?]; [left; by apply guarded_sync|right; by apply uniform_sync]. Qed.

Lemma restorable_put file d : restorable d → restorable (disk_put (TargetName file) (old file) d).
Proof. intros [?|?]; [left; by apply guarded_put_target; [left|]|right; by apply uniform_put_target]. Qed.

(** After a target has shown its contents, a synchronization makes that final. *)
Lemma shown_sync v file files d :
  disk_node d (TargetName file) = v file → shown v files d → shown v (file :: files) (disk_sync d).
Proof.
  intros Hn Hr file' [->|Hin]%elem_of_cons; [by apply sync_only|by apply sync_all, Hr].
Qed.

Lemma shown_put v file files d :
  shown v files d → shown v files (disk_put (TargetName file) (v file) d).
Proof.
  intros Hr file' Hin. destruct (decide (file' = file)) as [->|Hne]; [by apply put_same; auto|].
  rewrite put_other by congruence. by apply Hr.
Qed.

Lemma shown_all v d :
  describes → v = old ∨ v = new → targets_mixed d → shown v (map je_file (rj_entries journal)) d → targets_are v d.
Proof.
  intros Hd Hv Hm Hall file.
  destruct (decide (file ∈ map je_file (rj_entries journal))) as [Hin|Hout]; [by apply Hall|].
  eapply slot_all_mono, (Hm file). rewrite (ds_others Hd file Hout). destruct Hv as [->| ->]; [by intros n [?|?]|].
  rewrite (ds_others Hd file Hout). by intros n [?|?].
Qed.

Lemma restored_all d : describes → restorable d → shown old (map je_file (rj_entries journal)) d → uniform old d.
Proof.
  intros Hd Hr Hall. pose proof (shown_all old d Hd (or_introl eq_refl) (restorable_mixed d Hr) Hall) as Ht.
  destruct Hr as [(Hl & Hj & _)|Hu]; [|done]. split_and!; [done|by apply journal_is_mixed|done].
Qed.

(** The end both ways of restoring a target share. *)
Lemma finish_restore_spec file files stored message d :
  restorable d → shown old files d → disk_node d (TargetName file) = old file →
  dwp (sync_parent_directory ;; current ← read_file file;
       if bool_decide (current = stored) then mret () else io_bail message)
    (λ _ d', restorable d' ∧ shown old (file :: files) d') (λ _ d', restorable d') d.
Proof.
  intros Hr Hf Hn. pose proof (restorable_sync d Hr) as Hr1.
  apply dwp_bind, dwp_sync; [|done..]. apply dwp_bind, dwp_read_file; [|done]. intros current _.
  case_bool_decide; [|by apply dwp_bail]. apply dwp_ret. split; [done|by apply shown_sync].
Qed.

Lemma restore_for_rollback_spec file files bytes d :
  old file = NodeFile bytes → restorable d → shown old files d →
  dwp (restore_for_rollback file bytes)
    (λ _ d', restorable d' ∧ shown old (file :: files) d') (λ _ d', restorable d') d.
Proof.
  intros Ho Hr Hf. pose proof (restorable_put file d Hr) as Hr1. pose proof (shown_put old file files d Hf) as Hf1.
  apply dwp_bind, dwp_reject_symlink; [intros _|done]. apply dwp_bind, dwp_write_temporary; [|done].
  rewrite Ho in Hr1, Hf1. apply dwp_bind, dwp_call; [|done..].
  apply finish_restore_spec; [done..|]. by rewrite put_node.
Qed.

Lemma remove_for_rollback_spec file files d :
  old file = NodeMissing → restorable d → shown old files d →
  dwp (remove_for_rollback file)
    (λ _ d', restorable d' ∧ shown old (file :: files) d') (λ _ d', restorable d') d.
Proof.
  intros Ho Hr Hf. pose proof (restorable_put file d Hr) as Hr1. pose proof (shown_put old file files d Hf) as Hf1.
  apply dwp_bind, dwp_reject_symlink; [intros _|done].
  rewrite Ho in Hr1, Hf1. destruct (bool_decide (disk_node d (TargetName file) = NodeMissing)) eqn:Hn;
    apply dwp_bind, dwp_call; rewrite ?Hn; try done; simpl.
  - apply finish_restore_spec; [done..|]. apply bool_decide_eq_true in Hn. by rewrite Ho.
  - apply finish_restore_spec; [done..|]. by rewrite put_node.
Qed.

Lemma restore_entries_spec entries files d :
  describes → (∀ entry, entry ∈ entries → entry ∈ rj_entries journal) → restorable d → shown old files d →
  dwp (restore_entries entries)
    (λ _ d', restorable d' ∧ shown old (rev (map je_file entries) ++ files) d') (λ _ d', restorable d') d.
Proof.
  intros Hd. revert files d. induction entries as [|entry entries IH]; intros files d Hin Hr Hf; simpl.
  { by apply dwp_ret. }
  destruct (ds_old Hd entry (Hin entry ltac:(by left))) as (stored & Hm & Hs & _).
  apply dwp_bind, dwp_lift; [|done]. rewrite Hm. intros original [= <-].
  assert (Hgo : ∀ d', restorable d' ∧ shown old (je_file entry :: files) d' →
    dwp (restore_entries entries) (λ _ d', restorable d' ∧ shown old ((rev (map je_file entries) ++ [je_file entry]) ++ files) d')
      (λ _ d', restorable d') d').
  { intros d' [Hr' Hf']. rewrite <- (assoc_L (++)). simpl. apply IH; [|done..]. intros e He. apply Hin. by right. }
  destruct (old (je_file entry)) as [|bytes|] eqn:Eo; simplify_eq/=.
  - apply dwp_bind. eapply dwp_mono; [by apply (remove_for_rollback_spec _ files)|auto..].
  - apply dwp_bind. eapply dwp_mono; [by apply (restore_for_rollback_spec _ files)|auto..].
Qed.

Lemma verify_recoverable_spec transaction_id entries (Q : () → Disk → Prop) E d :
  Q () d → (∀ e, E e d) → dwp (verify_recoverable_targets transaction_id entries) Q E d.
Proof.
  intros HQ HE. induction entries as [|entry entries IH]; simpl; [by apply dwp_ret|].
  apply dwp_bind, dwp_read_file; [|done]. intros current _. destruct (_ || _); [done|by apply dwp_throw].
Qed.

Lemma rollback_spec d :
  describes → restorable d → dwp (rollback_journal journal) (λ _ d', settled old d') (λ _ d', recoverable d') d.
Proof.
  intros Hd Hr. apply dwp_bind, verify_recoverable_spec; [|by intros; apply restorable_recoverable].
  apply dwp_bind. eapply dwp_mono.
  { apply (restore_entries_spec _ []); [done| |done|by intros file ?%elem_of_nil].
    intros entry. rewrite !list_elem_of_In. apply in_rev. }
  2:{ intros e d'. apply restorable_recoverable. }
  intros _ d1 [Hr1 Hf1]. assert (Hu : uniform old d1).
  { apply restored_all; [done..|]. intros file Hin. apply Hf1. rewrite app_nil_r, map_rev, rev_involutive. done. }
  apply dwp_bind, dwp_attempt. eapply dwp_mono; [by apply (remove_journal_spec old)| |].
  { intros dur d2 Hset. by apply dwp_ret. }
  intros e d2 [Hu2 _]. apply dwp_bind, inspect_spec; [|by right; left].
  case_bool_decide as Hn; simpl.
  - apply dwp_bind. eapply dwp_mono; [by apply (restore_hot_spec old)| |].
    + intros _ d3 [Hu3 _]. apply dwp_throw. by right; left.
    + intros e' d3 [_ Hu3]. by right; left.
  - apply dwp_bind, dwp_ret, dwp_throw. by right; left.
Qed.

(** ** Recovery after a restart *)
Lemma recover_settled v d : settled v d → dwp acquire (λ _ d', settled v d') (λ _ d', settled v d') d.
Proof.
  intros Hd. apply dwp_bind, dwp_do; [|done]. apply dwp_bind, dwp_do; [|done]. apply dwp_bind, dwp_get.
  intros s _. destruct (ls_gated s); [by apply dwp_throw|].
  apply dwp_bind, dwp_reject_symlink; [intros _|done].
  assert (Hd1 : settled v (disk_put LockName (NodeFile []) d)).
  { destruct Hd as (Hl & Ht & Hj). unfold settled, journal_is. rewrite put_other by done.
    split_and!; [by apply put_same|intros file; by rewrite put_other|done]. }
  assert (Hgo : ∀ d', settled v d' → dwp recover_hot_journal (λ _ d', settled v d') (λ _ d', settled v d') d').
  { intros d' Hd'. apply dwp_bind, dwp_map_error, dwp_path_present; [|done].
    destruct Hd' as (Hl & Ht & Hj). pose proof (slot_all_latest _ _ _ Hj) as Hn. simpl in Hn. rewrite Hn.
    apply dwp_ret. done. }
  apply dwp_bind, dwp_call; try done; (case_bool_decide; [|]); try done;
    apply dwp_bind, dwp_do; auto.
Qed.

Lemma recover_guarded d :
  describes → guarded d → dwp acquire (λ _ d', settled old d') (λ _ d', recoverable d') d.
Proof.
  intros Hd Hg. assert (Hrec : ∀ d', guarded d' → recoverable d') by (by left).
  apply dwp_bind, dwp_do; [|auto]. apply dwp_bind, dwp_do; [|auto]. apply dwp_bind, dwp_get.
  intros s _. destruct (ls_gated s); [by apply dwp_throw; auto|].
  apply dwp_bind, dwp_reject_symlink; [intros _|auto].
  assert (Hg1 : guarded (disk_put LockName (NodeFile []) d)).
  { destruct Hg as (Hl & Hj & Ht). unfold guarded, journal_is. rewrite put_other by done.
    split_and!; [by apply put_same|done|intros file; by rewrite put_other]. }
  assert (Hgo : ∀ d', guarded d' → dwp recover_hot_journal (λ _ d', settled old d') (λ _ d', recoverable d') d').
  { intros d' Hg'. apply dwp_bind, dwp_map_error, dwp_path_present; [|auto].
    pose proof Hg' as (_ & Hj & _). pose proof (slot_all_latest _ _ _ Hj) as Hn. simpl in Hn. rewrite Hn. simpl.
    apply dwp_bind, dwp_map_error, dwp_reject_symlink; [intros _|auto].
    apply dwp_bind, dwp_map_error, dwp_look; [|auto]. rewrite Hn. unfold J. cbv iota.
    rewrite (ds_text Hd), (ds_valid Hd).
    apply dwp_map_error. apply rollback_spec; [done|by left]. }
  apply dwp_bind, dwp_call; try (by auto); (case_bool_decide; [|]); try (by auto);
    apply dwp_bind, dwp_do; auto.
Qed.

(** ** Committing *)
Lemma guarded_show_new file d : guarded d → guarded (disk_put (TargetName file) (new file) d).
Proof. apply guarded_put_target. by right. Qed.

Lemma persist_target_spec file bytes files d :
  new file = NodeFile bytes → guarded d → shown new files d →
  dwp (persist_target (mkStaged file (sha256_hex bytes) (Some bytes)))
    (λ _ d', guarded d' ∧ shown new (file :: files) d') (λ e d', guarded d') d.
Proof.
  intros Hn Hg Hs. pose proof (guarded_show_new file d Hg) as Hg1. pose proof (shown_put new file files d Hs) as Hs1.
  rewrite Hn in Hg1, Hs1. pose proof (guarded_sync _ Hg1) as Hg2.
  apply dwp_bind, dwp_lift; [simpl; intros temporary [= <-]|done].
  apply dwp_bind, dwp_reject_symlink; [intros _|done]. apply dwp_bind, dwp_call; [|done..].
  apply dwp_bind, dwp_sync; [|done..]. apply dwp_bind, dwp_verify_checksum; [|done]. apply dwp_ret.
  split; [done|]. apply shown_sync; [|done]. by rewrite put_node.
Qed.

Definition staged_of (entry : StateFile * list Z) : StagedTarget :=
  mkStaged entry.1 (sha256_hex entry.2) (Some entry.2).

Lemma persist_targets_spec entries durability files d :
  (∀ file bytes, (file, bytes) ∈ entries → new file = NodeFile bytes) → guarded d → shown new files d →
  dwp (persist_targets (map staged_of entries) durability)
    (λ _ d', guarded d' ∧ shown new (rev (map fst entries) ++ files) d') (λ _ d', guarded d') d.
Proof.
  revert durability files d. induction entries as [|[file bytes] entries IH]; intros durability files d Hn Hg Hs; simpl.
  { by apply dwp_ret. }
  apply dwp_bind. eapply dwp_mono; [apply (persist_target_spec file bytes files); [|done..]; apply Hn; by left| |done].
  intros persisted d1 [Hg1 Hs1]. rewrite <- (assoc_L (++)). apply IH; [|done..].
  intros file' bytes' Hin. apply Hn. by right.
Qed.

Lemma verify_new_spec entries (Q : () → Disk → Prop) E d :
  Q () d → (∀ m, E (OtherError m) d) → dwp (verify_new_targets entries) Q E d.
Proof.
  intros HQ HE. induction entries as [|entry entries IH]; simpl; [by apply dwp_ret|].
  apply dwp_bind, dwp_verify_checksum; auto.
Qed.

Lemma guarded_all_new d :
  describes → guarded d → shown new (map je_file (rj_entries journal)) d → uniform new d.
Proof.
  intros Hd (Hl & Hj & Hm) Hs. split_and!; [done|by apply journal_is_mixed|]. apply shown_all; auto.
Qed.

Lemma apply_targets_spec entries durability d :
  describes → map fst entries = map je_file (rj_entries journal) →
  (∀ file bytes, (file, bytes) ∈ entries → new file = NodeFile bytes) → guarded d →
  dwp (apply_targets journal (map staged_of entries) durability) (λ _ d', settled new d')
    (λ _ d', guarded d' ∨ (uniform new d' ∧ disk_node d' JournalName = NodeMissing)) d.
Proof.
  intros Hd Hfiles Hn Hg. apply dwp_bind. eapply dwp_mono.
  { apply (persist_targets_spec entries durability []); [done..|by intros file ?%elem_of_nil]. }
  2:{ auto. }
  intros durability1 d1 [Hg1 Hs1]. assert (Hu : uniform new d1).
  { apply guarded_all_new; [done..|]. intros file Hin. apply Hs1. rewrite app_nil_r, Hfiles.
    rewrite list_elem_of_In, <- in_rev, <- list_elem_of_In. done. }
  apply dwp_bind, verify_new_spec; [|auto]. apply dwp_bind. eapply dwp_mono; [by apply (remove_journal_spec new)| |].
  - intros removed d2 Hd2. by apply dwp_ret.
  - intros e d2 [Hu2 [->|Hm]]; auto.
Qed.

(** What is on the disk when a commit has failed. *)
Definition failed_commit (e : StateError) d : Prop :=
  match e with
  | TransactionError _ FailureRecoveryRequired _ => recoverable d
  | _ => settled old d
  end.

(** The rollback that ends a failed commit. *)
Lemma roll_back_commit_spec A d :
  describes → restorable d →
  dwp (rolled ← io_attempt (rollback_journal journal);
       match rolled with
       | ROk _ => io_throw (A := A) (rolled_back (rj_transaction_id journal) "commit")
       | RErr _ => io_throw (recovery_required (Some (rj_transaction_id journal)) "rollback")
       end) (λ _ _, False) failed_commit d.
Proof.
  intros Hd Hr. apply dwp_bind, dwp_attempt. eapply dwp_mono; [by apply rollback_spec| |].
  - intros u d' Hset. by apply dwp_throw.
  - intros e d' Hs. by apply dwp_throw.
Qed.

Lemma commit_failed_before_spec A e d d0 :
  describes → settled old d0 → (∃ m, e = OtherError m) → uniform old d →
  disk_node d JournalName = J ∨ d JournalName = d0 JournalName →
  dwp (commit_failed (A := A) journal false e) (λ _ _, False) failed_commit d.
Proof.
  intros Hd Hs0 (m & ->) Hu Hj. apply dwp_bind, inspect_spec; [|by right; left].
  case_bool_decide as Hn; simpl.
  - apply dwp_throw. destruct Hj as [Hj|Hj]; [unfold J in Hj; congruence|]. destruct Hu as (Hl & _ & Ht). split_and!; [done..|].
    unfold journal_is. rewrite Hj. apply Hs0.
  - apply dwp_bind, dwp_ret. apply roll_back_commit_spec; [done|by right].
Qed.

Lemma commit_failed_after_spec A e d :
  describes → guarded d ∨ (uniform new d ∧ disk_node d JournalName = NodeMissing) →
  dwp (commit_failed (A := A) journal true e) (λ _ _, False) failed_commit d.
Proof.
  intros Hd Hg. apply dwp_bind, inspect_spec; [|by destruct Hg as [?|[? _]]; [left|right; right]].
  destruct Hg as [Hg|[Hu Hn]]; simpl.
  - pose proof Hg as (_ & Hj & _). pose proof (slot_all_latest _ _ _ Hj) as Hn. simpl in Hn. rewrite Hn. simpl.
    apply dwp_bind, dwp_ret. apply roll_back_commit_spec; [done|by left].
  - rewrite bool_decide_true by done. simpl. apply dwp_bind.
    eapply dwp_mono; [by apply (restore_hot_spec new)| |].
    + intros u d1 [(Hl & _ & Ht) Hj]. apply roll_back_commit_spec; [done|]. left.
      split_and!; [done..|by apply targets_new_mixed].
    + intros e' d1 [-> Hu1]. by right; right.
Qed.

Lemma commit_journal_spec entries d :
  describes → map fst entries = map je_file (rj_entries journal) →
  (∀ file bytes, (file, bytes) ∈ entries → new file = NodeFile bytes) → settled old d →
  dwp (commit_journal journal (map staged_of entries)) (λ _ d', settled new d') failed_commit d.
Proof.
  intros Hd Hfiles Hn Hs. apply dwp_bind, dwp_attempt.
  eapply dwp_mono; [apply (install_spec old), settled_uniform, Hs| |]; cbv beta iota.
  - intros durability d1 [(Hl & _ & Ht) Hj]. apply dwp_bind, dwp_attempt.
    eapply dwp_mono; [apply (apply_targets_spec entries); [done..|]| |]; cbv beta iota.
    + split_and!; [done..|by apply targets_old_mixed].
    + intros durability2 d2 Hs2. by apply dwp_ret.
    + intros e d2 Hg. eapply dwp_mono; [by apply commit_failed_after_spec|by intros ? ? []|done].
  - intros e d1 (He & Hu & Hj). eapply dwp_mono; [by eapply (commit_failed_before_spec _ e d1 d)|by intros ? ? []|done].
Qed.
End steps.
End transaction.
