(* ===== verification/LocalStateAtomic.v ===== *)
(** * The local state across restarts

    A commit that is interrupted anywhere, followed by any number of losses of
    power and restarts that may be interrupted themselves, leaves the three files
    as they were before or as the commit wrote them; and a restart that nothing
    disturbs always recovers. *)

From S2P Require Import Prelude Json Bytes CatalogModel NodeRequests SourceModes InstructionTarget.
From S2P Require Import LocalState DiskLogic LocalStateTheorems.

(** ** What the packages promise *)
Definition ascii_text (s : string) : bool :=
  forallb (λ a, Z.of_nat (Ascii.nat_of_ascii a) <? 128) (String.list_ascii_of_string s).

Fixpoint keys_sorted (keys : list string) : bool :=
  match keys with
  | k :: ((k' :: _) as keys') =>
      match String.compare k k' with Lt => keys_sorted keys' | _ => false end
  | _ => true
  end.

(** JSON without floating-point numbers, as [serde_json] prints and reads it
    back. *)
Fixpoint json_plain (v : Value) : bool :=
  match v with
  | VNull | VBool _ => true
  | VNumber (PosInt n) => (0 <=? n) && (n <=? u64_max)
  | VNumber _ => false
  | VString s => ascii_text s
  | VArray items => forallb json_plain items
  | VObject entries =>
      keys_sorted (map fst entries)
      && forallb (λ kv, match kv with (k, v) => ascii_text k && json_plain v end) entries
  end.

(** How deep arrays and objects are nested: [serde_json] reads no more than 127
    of them inside each other, and prints any number. *)
Fixpoint json_depth (v : Value) : nat :=
  match v with
  | VArray items => S (foldr (λ v n, Nat.max (json_depth v) n) 0%nat items)
  | VObject entries => S (foldr (λ kv n, match kv with (_, v) => Nat.max (json_depth v) n end) 0%nat entries)
  | _ => 0%nat
  end.
Definition JSON_DEPTH_LIMIT : nat := 127.
(** What [serde_json] reads back as it was printed. *)
Definition json_readable (v : Value) : Prop := json_plain v = true ∧ (json_depth v ≤ JSON_DEPTH_LIMIT)%nat.

Class LocalStateLaws `{HexCrate} `{Sha2Crate} `{Base64Crate} `{SerdeJsonBytes} : Prop := {
  lsl_hex :: HexLaws;
  sha256_is_digest bytes : is_bytes bytes → is_bytes (sha256 bytes) ∧ zlen (sha256 bytes) = 32;
  base64_roundtrip bytes : is_bytes bytes → base64_decode (base64_encode bytes) = Some bytes;
  base64_ascii bytes : is_bytes bytes → ascii_text (base64_encode bytes) = true;
  json_roundtrip v : json_readable v → from_slice (to_vec_pretty v) = Some v;
}.

(** ** Nesting *)
Lemma depth_array items n :
  Forall (λ v, (json_depth v ≤ n)%nat) items → (json_depth (VArray items) ≤ S n)%nat.
Proof. intros Hi. simpl. induction Hi as [|v items Hv _ IH]; simpl; lia. Qed.

Lemma depth_object entries n :
  (json_depth (VObject entries) ≤ S n)%nat ↔ Forall (λ kv, (json_depth kv.2 ≤ n)%nat) entries.
Proof.
  simpl. split.
  - induction entries as [|[k v] entries IH]; intros Hd; constructor; simpl in *; [lia|apply IH; lia].
  - induction 1 as [|[k v] entries Hv _ IH]; simpl in *; lia.
Qed.

(** ** The text of a journal *)
Lemma memento_value_read memento : de_memento (memento_value memento) = Some memento.
Proof. by destruct memento. Qed.

Lemma state_file_read file : de_state_file (VString (state_file_str file)) = Some file.
Proof. by destruct file. Qed.

Lemma journal_entry_read entry : de_journal_entry (journal_entry_value entry) = Some entry.
Proof.
  destruct entry as [file original [checksum|] new]; lazy -[de_state_file state_file_str de_memento memento_value];
    by rewrite state_file_read, memento_value_read.
Qed.

Lemma journal_read j : in_u64 (rj_schema_version j) → de_journal (journal_value j) = Some j.
Proof.
  destruct j as [version id entries]. simpl. intros Hv.
  assert (He : mapM de_journal_entry (map journal_entry_value entries) = Some entries).
  { induction entries as [|entry entries IH]; [done|]. simpl. by rewrite journal_entry_read, IH. }
  unfold journal_value. cbn [rj_schema_version rj_transaction_id rj_entries]. revert He.
  generalize (map journal_entry_value entries). intros items He.
  revert He. lazy -[as_u64 json_u64 mapM de_journal_entry in_u64]. intros He.
  rewrite (as_u64_json _ Hv). lazy -[mapM de_journal_entry]. by rewrite He.
Qed.

Section text.
Context `{LocalStateLaws}.

Lemma hexdigits_ascii s : all_hexdigits s = true → ascii_text s = true.
Proof.
  unfold all_hexdigits, ascii_text. rewrite !forallb_forall. intros Hs a Ha. specialize (Hs a Ha). revert Hs.
  clear. destruct a as [[] [] [] [] [] [] [] []]; by vm_compute.
Qed.

Lemma sha256_hex_digits bytes : is_bytes bytes → all_hexdigits (sha256_hex bytes) = true.
Proof using Type*. intros Hb. by apply hex_encode_digits, sha256_is_digest. Qed.

Definition ascii_memento (memento : JournalMemento) : bool :=
  match memento with MementoMissing => true | MementoPresent text => ascii_text text end.
Definition ascii_entry (entry : JournalEntry) : bool :=
  ascii_memento (je_original entry) && from_option ascii_text true (je_old_sha256 entry)
  && ascii_text (je_new_sha256 entry).

Lemma journal_entry_plain entry : ascii_entry entry = true → json_plain (journal_entry_value entry) = true.
Proof.
  destruct entry as [file original old new]. unfold ascii_entry. intros He.
  rewrite !andb_true_iff in He. destruct He as ((Ho & Hold) & Hnew).
  destruct file, original as [|text], old as [old|]; simpl in *; lazy -[ascii_text String.list_ascii_of_string];
    rewrite ?Ho, ?Hold, ?Hnew; reflexivity.
Qed.

Lemma journal_plain j :
  ascii_text (rj_transaction_id j) = true → in_u64 (rj_schema_version j) →
  (∀ entry, entry ∈ rj_entries j → ascii_entry entry = true) → json_plain (journal_value j) = true.
Proof.
  destruct j as [version id entries]. cbn [rj_transaction_id rj_entries rj_schema_version].
  intros Hid [Hv1 Hv2] He. unfold journal_value.
  cbn [rj_transaction_id rj_entries rj_schema_version].
  assert (Hitems : forallb json_plain (map journal_entry_value entries) = true).
  { apply forallb_forall. intros v (entry & <- & Hin)%in_map_iff. apply journal_entry_plain, He.
    by apply list_elem_of_In. }
  revert Hitems. generalize (map journal_entry_value entries). intros items Hitems. simpl. fold json_plain.
  rewrite Hid, Hitems. apply Z.leb_le in Hv1, Hv2. by rewrite Hv1, Hv2.
Qed.

Lemma journal_depth j : (json_depth (journal_value j) ≤ JSON_DEPTH_LIMIT)%nat.
Proof.
  destruct j as [version id entries]. unfold journal_value. cbn [rj_transaction_id rj_entries rj_schema_version].
  assert (Hitems : (json_depth (VArray (map journal_entry_value entries)) ≤ 3)%nat).
  { apply depth_array, Forall_forall. intros v (entry & -> & _)%list_elem_of_fmap.
    destruct entry as [[] [|text] [old|] new]; vm_compute; lia. }
  revert Hitems. generalize (VArray (map journal_entry_value entries)). intros items Hitems.
  transitivity 4%nat; [|unfold JSON_DEPTH_LIMIT; lia]. unfold json_object. apply (depth_object _ 3). simpl. repeat apply Forall_cons_2; try apply Forall_nil_2; simpl; lia.
Qed.

Lemma journal_text j :
  ascii_text (rj_transaction_id j) = true → in_u64 (rj_schema_version j) →
  (∀ entry, entry ∈ rj_entries j → ascii_entry entry = true) →
  from_slice (journal_bytes_of j) ≫= de_journal = Some j.
Proof using Type*.
  intros Hid Hv He. unfold journal_bytes_of. rewrite json_roundtrip by (split; [by apply journal_plain|apply journal_depth]).
  by apply journal_read.
Qed.
End text.

(** ** A commit *)
Definition write_of (writes : LocalStateWriteSet) (file : StateFile) : option (list Z) :=
  match file with
  | FileSettings => ws_settings writes
  | FileIdl => ws_idl writes
  | FileWallet => ws_wallet writes
  end.

(** The files after the commit. *)
Definition written (writes : LocalStateWriteSet) (old : StateFile → Node) (file : StateFile) : Node :=
  from_option NodeFile (old file) (write_of writes file).

Definition plain_node (node : Node) : Prop :=
  match node with NodeMissing => True | NodeFile bytes => is_bytes bytes | NodeSymlink => False end.
Definition writes_bytes (writes : LocalStateWriteSet) : Prop :=
  ∀ file bytes, write_of writes file = Some bytes → is_bytes bytes.

Lemma elem_into_entries writes file bytes :
  (file, bytes) ∈ into_entries writes ↔ write_of writes file = Some bytes.
Proof.
  destruct writes as [s i w]. unfold into_entries. rewrite list_elem_of_omap. split.
  - intros ([file' bytes'] & Hin & Hx). simpl in Hx.
    destruct bytes' as [bytes'|]; simplify_eq/=. by repeat (apply elem_of_cons in Hin as [[= -> ->]|Hin]); [..|apply elem_of_nil in Hin].
  - intros Hf. exists (file, Some bytes). split; [|done].
    destruct file; simpl in *; rewrite Hf; set_solver.
Qed.

Section commit.
Context `{LocalStateLaws}.
#[local] Set Default Proof Using "Type*".

Definition stored_of (node : Node) : StoredBytes := default StoredMissing (node_stored node).

Definition entry_of (old : StateFile → Node) (entry : StateFile * list Z) : JournalEntry :=
  mkJournalEntry entry.1 (memento_from_stored (stored_of (old entry.1))) (checksum (stored_of (old entry.1)))
    (sha256_hex entry.2).

Lemma entry_of_ascii old entry :
  plain_node (old entry.1) → is_bytes entry.2 → ascii_entry (entry_of old entry) = true.
Proof.
  intros Ho Hb. unfold ascii_entry, entry_of. cbn [je_original je_old_sha256 je_new_sha256].
  rewrite (hexdigits_ascii _ (sha256_hex_digits _ Hb)), andb_true_r.
  destruct (old entry.1) as [|bytes|]; simpl; [done| |done].
  by rewrite (base64_ascii _ Ho), (hexdigits_ascii _ (sha256_hex_digits _ Ho)).
Qed.

Lemma memento_stored node : plain_node node → memento_to_stored (memento_from_stored (stored_of node)) = Ok (stored_of node).
Proof. destruct node as [|bytes|]; [done| |done]. intros Hb. simpl. by rewrite (base64_roundtrip _ Hb). Qed.

Section files.
Context (old : StateFile → Node) (writes : LocalStateWriteSet).
Context (Hold : ∀ file, plain_node (old file)) (Hwrites : writes_bytes writes).

Definition commit_journal_of (transaction_id : string) : RollbackJournal :=
  mkJournal JOURNAL_SCHEMA_VERSION transaction_id (map (entry_of old) (into_entries writes)).

Lemma written_entry file bytes : (file, bytes) ∈ into_entries writes → written writes old file = NodeFile bytes.
Proof. intros Hf%elem_into_entries. unfold written. by rewrite Hf. Qed.

Lemma commit_journal_files id : map je_file (rj_entries (commit_journal_of id)) = map fst (into_entries writes).
Proof. simpl. by rewrite map_map. Qed.

Lemma commit_describes id :
  validate_journal (commit_journal_of id) = Ok () → describes old (written writes old) (commit_journal_of id).
Proof.
  intros Hv. assert (Hentry : ∀ entry, entry ∈ rj_entries (commit_journal_of id) →
    ∃ file bytes, entry = entry_of old (file, bytes) ∧ (file, bytes) ∈ into_entries writes).
  { intros entry ([file bytes] & <- & Hin)%list_elem_of_In%in_map_iff. rewrite <- list_elem_of_In in Hin. eauto. }
  split; [|done|..].
  - apply journal_text; [|by vm_compute|].
    + apply hexdigits_ascii. unfold validate_journal in Hv. simpl in *.
      destruct (all_hexdigits id); [done|]. by rewrite orb_true_r in Hv.
    + intros entry (file & bytes & -> & Hin)%Hentry. apply entry_of_ascii; [done|].
      by eapply Hwrites, elem_into_entries.
  - intros entry (file & bytes & -> & Hin)%Hentry. exists (stored_of (old file)). simpl.
    split_and!; [by apply memento_stored| |done]. specialize (Hold file). by destruct (old file).
  - intros entry (file & bytes & -> & Hin)%Hentry. exists bytes. split; [by apply written_entry|done].
  - intros file Hout. rewrite commit_journal_files in Hout. unfold written.
    destruct (write_of writes file) as [bytes|] eqn:Hw; [|done]. destruct Hout.
    apply elem_into_entries in Hw. by apply list_elem_of_In, (in_map fst _ (file, bytes)), list_elem_of_In.
  - intros file Hl. specialize (Hold file). by rewrite Hl in Hold.
Qed.

(** *** Its run *)
Section run.
Context `{Environment} (d : Disk) (Hd : settled old d).
#[local] Set Default Proof Using "All".

Lemma settled_shows file : disk_node d (TargetName file) = old file.
Proof. apply slot_all_latest. by destruct Hd as (_ & Ht & _). Qed.

Lemma stage_entries_spec entries :
  dwp (stage_entries entries) (λ r d', d' = d ∧ r = (map (entry_of old) entries, map staged_of entries))
    (λ e d', d' = d ∧ ∃ m, e = OtherError m) d.
Proof.
  induction entries as [|[file bytes] entries IH]; simpl; [by apply dwp_ret|].
  apply dwp_bind, dwp_read_file; [|by eauto]. intros stored Hs. rewrite settled_shows in Hs.
  apply dwp_bind, dwp_stage_target; [|by eauto]. apply dwp_bind. eapply dwp_mono; [exact IH| |done].
  intros r d' [-> ->]. apply dwp_ret. split; [done|]. unfold entry_of. simpl. unfold stored_of.
  by rewrite Hs.
Qed.

(** What a failed session leaves. *)
Definition session_failed (e : StateError) (d' : Disk) : Prop :=
  settled old d'
  ∨ ∃ transaction_id phase journal, e = TransactionError transaction_id FailureRecoveryRequired phase
      ∧ describes old (written writes old) journal ∧ recoverable old (written writes old) journal d'.

Lemma local_state_commit_spec :
  dwp (local_state_commit writes) (λ _ d', settled (written writes old) d') session_failed d.
Proof.
  assert (HE : ∀ e, session_failed e d) by (by left).
  unfold local_state_commit. case_bool_decide; [by apply dwp_bail|].
  apply dwp_bind, dwp_bind, dwp_do; [|done]. apply dwp_bind, dwp_get. intros s _. apply dwp_ret.
  set (id := hex_encode _). apply dwp_bind. eapply dwp_mono; [apply stage_entries_spec| |by intros e d' [-> _]].
  intros r d' [-> ->]. apply dwp_bind, dwp_check_pre_journal; [|done].
  apply dwp_bind, dwp_lift; [|done]. intros [] Hv.
  pose proof (commit_describes id Hv) as Hdesc.
  eapply dwp_mono; [apply (commit_journal_spec _ _ _ _ d Hdesc); [|by apply written_entry|done]|done|].
  - by rewrite commit_journal_files.
  - intros e d'. destruct e as [tid [] phase|m]; [by left| |by left]. right. by eauto 10.
Qed.

End run.

Lemma session_spec `{Environment} d :
  settled old d →
  dwp (with_local_state_in (local_state_commit writes)) (λ _ d', settled (written writes old) d') session_failed d.
Proof using All.
  intros Hd. apply dwp_bind. eapply dwp_mono; [by apply (recover_settled old)| |by left].
  intros u d' Hd'. by apply local_state_commit_spec.
Qed.
End files.
End commit.

(** ** Restarts

    Power is lost, and a new process acquires the directory. *)
Section restarts.
Context `{LocalStateLaws}.
#[local] Set Default Proof Using "Type*".

Definition restarted (env : Environment) (d : Disk) (s : LocalState) (r : Res StateError ()) (s' : LocalState) : Prop :=
  power_loss d (ls_disk s) ∧ acquire (env := env) s = (r, s').

Inductive restarts : Disk → Disk → Prop :=
  | restarts_none d : restarts d d
  | restarts_once d env s r s' d' : restarted env d s r s' → restarts (ls_disk s') d' → restarts d d'.

Section history.
Context (old new : StateFile → Node).

(** The disk after a commit: recoverable by some journal, or settled. *)
Definition awaits_recovery (d : Disk) : Prop :=
  ∃ journal, describes old new journal ∧ recoverable old new journal d.

Lemma power_loss_settled v d d' : power_loss d d' → settled v d → settled v d'.
Proof.
  intros Hp (Hl & Ht & Hj). split_and!; [by eapply power_loss_all| |by eapply power_loss_all].
  intros file. by eapply power_loss_all.
Qed.

(** The loss of power decides whether there is a journal. *)
Lemma power_loss_decides journal d d' :
  power_loss d d' → recoverable old new journal d →
  guarded old new journal d' ∨ settled old d' ∨ settled new d'.
Proof.
  intros Hp Hr. apply (recoverable_power_loss _ _ _ _ _ Hp) in Hr.
  assert (Huni : ∀ v, v = old ∨ v = new → uniform journal v d' → guarded old new journal d' ∨ settled v d').
  { intros v Hv (Hl & Hj & Ht). destruct (Hp JournalName) as (node & _ & Hs).
    assert (Hn : node = NodeMissing ∨ node = J journal).
    { unfold journal_mixed in Hj. rewrite Hs in Hj. by apply slot_all_single in Hj. }
    assert (Hjn : journal_is node d') by (unfold journal_is; rewrite Hs; by apply slot_all_single).
    destruct Hn as [->| ->]; [by right|left]. split_and!; [done..|].
    destruct Hv as [->| ->]; [by apply targets_old_mixed|by apply targets_new_mixed]. }
  destruct Hr as [?|[Hu|Hu]]; [by left|apply Huni in Hu as [?|?]; auto..].
Qed.

Lemma restart_settled v env d s r s' : restarted env d s r s' → settled v d → settled v (ls_disk s').
Proof.
  intros [Hp Hr] Hd. apply (power_loss_settled v) in Hp; [|done].
  pose proof (dwp_run _ _ _ _ _ _ (recover_settled v _ Hp) Hr) as Hq. by destruct r.
Qed.

Lemma restart_recovers env d s r s' :
  restarted env d s r s' → awaits_recovery d →
  match r with ROk _ => settled old (ls_disk s') ∨ settled new (ls_disk s') | RErr _ => awaits_recovery (ls_disk s') end.
Proof.
  intros [Hp Hr] (journal & Hdesc & Hrec). apply (power_loss_decides journal) in Hp; [|done].
  destruct Hp as [Hg|Hset].
  - pose proof (dwp_run _ _ _ _ _ _ (recover_guarded _ _ _ _ Hdesc Hg) Hr) as Hq.
    destruct r; [by left|by exists journal].
  - destruct Hset as [Hset|Hset]; pose proof (dwp_run _ _ _ _ _ _ (recover_settled _ _ Hset) Hr) as Hq;
      (destruct r; [by auto|exists journal; split; [done|]]);
      [right; left|right; right]; by apply settled_uniform.
Qed.

Definition settled_either (d : Disk) : Prop := settled old d ∨ settled new d.

Lemma restarts_settled v d d' : restarts d d' → settled v d → settled v d'.
Proof. induction 1 as [|d env s r s' d' Hr _ IH]; [done|]. intros Hd. by eapply IH, restart_settled. Qed.

Lemma restarts_await d d' :
  restarts d d' → awaits_recovery d ∨ settled_either d → awaits_recovery d' ∨ settled_either d'.
Proof.
  induction 1 as [|d env s r s' d' Hr _ IH]; [done|]. intros [Hd|Hd]; apply IH.
  - pose proof (restart_recovers _ _ _ _ _ Hr Hd) as Hq. destruct r; auto.
  - right. destruct Hd; [left|right]; by eapply restart_settled.
Qed.
End history.

(** What a session that is over leaves for the restarts. *)
Lemma session_awaits `{Environment} old writes s r s' :
  (∀ file, plain_node (old file)) → writes_bytes writes → settled old (ls_disk s) →
  with_local_state_in (local_state_commit writes) s = (r, s') →
  awaits_recovery old (written writes old) (ls_disk s') ∨ settled_either old (written writes old) (ls_disk s').
Proof.
  intros Hold Hw Hd Hr. pose proof (dwp_run _ _ _ _ _ _ (session_spec old writes Hold Hw _ Hd) Hr) as Hq.
  destruct r as [report|e]; [by right; right|]. destruct Hq as [Hq|(tid & phase & journal & _ & Hdesc & Hrec)].
  - by right; left.
  - left. by exists journal.
Qed.

(** C15. Commits are atomic across failures and losses of power.  A process
    acquires the local state and commits a write set to it, while any of its
    system calls fails with or without its effect and a cancellation may arrive
    anywhere.  Then the power is lost and a new process acquires the directory,
    any number of times, with failures of its own, until one of them succeeds.
    Then the journal is gone for good, and the three files are durably all as
    they were before or all as the write set says; they are as written whenever
    the commit reported success, and as before whenever it reported any failure
    other than a required recovery. *)
Theorem commit_atomic_across_restarts (env env' : Environment) old writes s0 r s1 d s2 s3 :
  (∀ file, plain_node (old file)) → writes_bytes writes → settled old (ls_disk s0) →
  with_local_state_in (env := env) (local_state_commit (env := env) writes) s0 = (r, s1) →
  restarts (ls_disk s1) d → restarted env' d s2 (ROk ()) s3 →
  (settled old (ls_disk s3) ∨ settled (written writes old) (ls_disk s3))
  ∧ match r with
    | ROk _ => settled (written writes old) (ls_disk s3)
    | RErr (TransactionError _ FailureRecoveryRequired _) => True
    | RErr _ => settled old (ls_disk s3)
    end.
Proof.
  intros Hold Hw Hd Hr Hrs Hlast. split.
  - destruct (restarts_await _ _ _ _ Hrs (session_awaits _ _ _ _ _ Hold Hw Hd Hr)) as [Ha|Ha].
    + apply (restart_recovers _ _ _ _ _ _ _ Hlast Ha).
    + destruct Ha; [left|right]; by eapply restart_settled.
  - pose proof (dwp_run _ _ _ _ _ _ (session_spec old writes Hold Hw _ Hd) Hr) as Hq.
    destruct r as [report|e]; [by eapply restart_settled, restarts_settled|].
    destruct Hq as [Hq|(tid & phase & journal & -> & _)]; [|done].
    pose proof (restart_settled _ _ _ _ _ _ Hlast (restarts_settled _ _ _ Hrs Hq)). by destruct e as [? [] ?|].
Qed.
End restarts.
