(* ===== verification/LocalStateLive.v ===== *)
(** * Undisturbed runs of the local state

    When every call of the system works, a restart recovers whatever a commit
    and earlier restarts left behind, and a commit that nobody cancels
    succeeds. *)

From S2P Require Import Prelude Json Bytes CatalogModel NodeRequests SourceModes InstructionTarget.
From S2P Require Import LocalState DiskLogic LocalStateTheorems LocalStateAtomic.

(** ** Total correctness

    The run succeeds from every ungated state with this disk and cancellation,
    and ends in an ungated one. *)
Definition twp {A} (m : IO A) (Q : A → Disk → CommitCancellation → Prop) (d : Disk) (c : CommitCancellation) : Prop :=
  ∀ s, ls_disk s = d → ls_gated s = false → ls_cancellation s = c →
    match m s with
    | (ROk a, s') => ls_gated s' = false ∧ Q a (ls_disk s') (ls_cancellation s')
    | (RErr _, _) => False
    end.

Section rules.
Context {A : Type}.
Implicit Types (Q : A → Disk → CommitCancellation → Prop) (d : Disk) (c : CommitCancellation).

Lemma twp_ret a Q d c : Q a d c → twp (mret a) Q d c.
Proof. by intros HQ s <- Hg <-. Qed.

Lemma twp_bind {B} (m : IO B) (k : B → IO A) Q d c :
  twp m (λ b d' c', twp (k b) Q d' c') d c → twp (m ≫= k) Q d c.
Proof.
  intros Hm s Hd Hg Hc. specialize (Hm s Hd Hg Hc). unfold mbind, IO_bind.
  destruct (m s) as [[b|e] s']; [|done]. destruct Hm as [Hg' Hk]. by apply Hk.
Qed.

Lemma twp_lift r a Q d c : r = Ok a → Q a d c → twp (io_lift r) Q d c.
Proof. by intros -> HQ s <- Hg <-. Qed.

Lemma twp_map_error f (m : IO A) Q d c : twp m Q d c → twp (io_map_error f m) Q d c.
Proof.
  intros Hm s Hd Hg Hc. specialize (Hm s Hd Hg Hc). unfold io_map_error. by destruct (m s) as [[a|e] s'].
Qed.

Lemma twp_mono (m : IO A) (Q Q' : A → Disk → CommitCancellation → Prop) d c :
  twp m Q d c → (∀ a d' c', Q a d' c' → Q' a d' c') → twp m Q' d c.
Proof.
  intros Hm HQ s Hd Hg Hc. specialize (Hm s Hd Hg Hc). destruct (m s) as [[a|e] s']; [|done].
  destruct Hm; split; auto.
Qed.

Lemma twp_run (m : IO A) Q s :
  twp m Q (ls_disk s) (ls_cancellation s) → ls_gated s = false →
  ∃ a s', m s = (ROk a, s') ∧ Q a (ls_disk s') (ls_cancellation s').
Proof.
  intros Hm Hg. specialize (Hm s eq_refl Hg eq_refl). destruct (m s) as [[a|e] s']; [|done].
  destruct Hm. by eauto.
Qed.
End rules.

Lemma twp_attempt {A} (m : IO A) (Q : Res StateError A → Disk → CommitCancellation → Prop) d c :
  twp m (λ a d' c', Q (ROk a) d' c') d c → twp (io_attempt m) Q d c.
Proof.
  intros Hm s Hd Hg Hc. specialize (Hm s Hd Hg Hc). unfold io_attempt. by destruct (m s) as [[a|e] s'].
Qed.

Lemma twp_get Q d c :
  (∀ s, ls_disk s = d → ls_gated s = false → ls_cancellation s = c → Q s d c) → twp io_get Q d c.
Proof. intros HQ s <- Hg <-. split; [done|]. by apply HQ. Qed.

Section calls.
Context `{Environment} (Hworks : ∀ n, io_answer n = IoWorks).
#[local] Set Default Proof Using "Type*".
Implicit Types (d : Disk) (c : CommitCancellation).

Lemma twp_call {A} effect (result : Disk → A) message Q d c :
  Q (result d) (effect d) c → twp (io_call effect result message) Q d c.
Proof. intros HQ s <- Hg <-. unfold io_call. by rewrite Hworks. Qed.

Lemma twp_look {A} (result : Disk → A) message Q d c : Q (result d) d c → twp (io_look result message) Q d c.
Proof. intros HQ. by apply twp_call. Qed.

Lemma twp_do message Q d c : Q () d c → twp (io_do message) Q d c.
Proof. intros HQ. by apply twp_call. Qed.

Lemma twp_reject_symlink name label Q d c :
  disk_node d name ≠ NodeSymlink → Q () d c → twp (reject_symlink name label) Q d c.
Proof. intros Hn HQ. apply twp_bind, twp_look. rewrite bool_decide_false by done. by apply twp_ret. Qed.

Lemma twp_path_present name Q d c :
  Q (negb (bool_decide (disk_node d name = NodeMissing))) d c → twp (path_present name) Q d c.
Proof. intros HQ. apply twp_bind, twp_look. by apply twp_ret. Qed.

Lemma twp_read_file file stored Q d c :
  node_stored (disk_node d (TargetName file)) = Some stored → Q stored d c → twp (read_file file) Q d c.
Proof.
  intros Hs HQ. apply twp_bind, twp_reject_symlink; [by intros Hl; rewrite Hl in Hs|].
  apply twp_bind, twp_look. rewrite Hs. by apply twp_ret.
Qed.

Lemma twp_write_temporary bytes m1 m2 m3 Q d c : Q bytes d c → twp (write_temporary bytes m1 m2 m3) Q d c.
Proof. intros HQ. apply twp_bind, twp_do, twp_bind, twp_do, twp_bind, twp_do. by apply twp_ret. Qed.

Lemma twp_sync Q d c : Q DurabilityVerified (disk_sync d) c → twp sync_parent_directory Q d c.
Proof. intros HQ. apply twp_bind, twp_do. by apply twp_call. Qed.

Lemma twp_verify_checksum `{HexCrate} `{Sha2Crate} file bytes Q d c :
  disk_node d (TargetName file) = NodeFile bytes → Q () d c →
  twp (verify_checksum file (sha256_hex bytes)) Q d c.
Proof.
  intros Hn HQ. apply twp_bind, (twp_read_file _ (StoredPresent bytes)); [by rewrite Hn|].
  rewrite bool_decide_true by done. by apply twp_ret.
Qed.

Lemma twp_stage_target `{HexCrate} `{Sha2Crate} file bytes Q d c :
  disk_node d (TargetName file) ≠ NodeSymlink →
  Q (mkStaged file (sha256_hex bytes) (Some bytes)) d c → twp (stage_target file bytes) Q d c.
Proof. intros Hn HQ. apply twp_bind, twp_reject_symlink, twp_bind, twp_write_temporary; [done|]. by apply twp_ret. Qed.

(** *** When nobody cancels *)
Context (Hquiet : ∀ n, close_requested n = false).

Lemma twp_observe_close Q d c : Q () d c → twp observe_close Q d c.
Proof. intros HQ s <- Hg <-. unfold observe_close. simpl. by rewrite Hquiet. Qed.

Lemma twp_check_pre_journal Q d : Q () d CancellationOpen → twp check_pre_journal Q d CancellationOpen.
Proof.
  intros HQ. apply twp_bind, twp_observe_close, twp_bind, twp_get. intros s _ _ ->. by apply twp_ret.
Qed.

Lemma twp_seal Q d : Q () d CancellationDurable → twp seal_journal_durable Q d CancellationOpen.
Proof.
  intros HQ. apply twp_bind, twp_observe_close, twp_bind, twp_get. intros s _ _ ->. by intros s' <- Hg' _.
Qed.
End calls.

(** ** Recovery *)
Section recovery.
Context `{LocalStateLaws} `{env : Environment} (Hworks : ∀ n, io_answer n = IoWorks).
Context (old new : StateFile → Node) (journal : RollbackJournal) (Hdesc : describes old new journal).
#[local] Set Default Proof Using "All".
Implicit Types (d : Disk) (c : CommitCancellation).

(** What is seen while targets are restored. *)
Definition journal_seen d : Prop :=
  disk_node d JournalName = J journal
  ∧ ∀ file, disk_node d (TargetName file) = old file ∨ disk_node d (TargetName file) = new file.

Lemma new_plain file : new file ≠ NodeSymlink.
Proof.
  destruct (decide (file ∈ map je_file (rj_entries journal))) as [Hin|Hout].
  - apply list_elem_of_In, in_map_iff in Hin as (entry & <- & Hin).
    apply list_elem_of_In, (ds_new _ _ _ Hdesc) in Hin as (bytes & -> & _). done.
  - rewrite (ds_others _ _ _ Hdesc file Hout). apply (ds_plain _ _ _ Hdesc).
Qed.

Lemma seen_plain d file : journal_seen d → disk_node d (TargetName file) ≠ NodeSymlink.
Proof. intros [_ Hd]. destruct (Hd file) as [->| ->]; [apply (ds_plain _ _ _ Hdesc)|apply new_plain]. Qed.

Lemma seen_put file d : journal_seen d → journal_seen (disk_put (TargetName file) (old file) d).
Proof.
  intros [Hj Ht]. split; [unfold disk_node; by rewrite put_other|]. intros file'.
  destruct (decide (file' = file)) as [->|Hne]; [left; apply put_node|].
  unfold disk_node. rewrite put_other by congruence. apply Ht.
Qed.

Lemma verify_recoverable_total entries Q d c :
  (∀ entry, entry ∈ entries → entry ∈ rj_entries journal) → journal_seen d → Q () d c →
  twp (verify_recoverable_targets (rj_transaction_id journal) entries) Q d c.
Proof.
  intros Hin Hd HQ. induction entries as [|entry entries IH]; simpl; [by apply twp_ret|].
  assert (Hentry : entry ∈ rj_entries journal) by (apply Hin; by left).
  destruct (ds_old _ _ _ Hdesc entry Hentry) as (stored & _ & Hs & Hold).
  destruct (ds_new _ _ _ Hdesc entry Hentry) as (bytes & Hb & Hnew).
  assert (Hgo : twp (verify_recoverable_targets (rj_transaction_id journal) entries) Q d c).
  { apply IH. intros e He. apply Hin. by right. }
  apply twp_bind. destruct (proj2 Hd (je_file entry)) as [Hn|Hn].
  - apply (twp_read_file Hworks _ stored); [by rewrite Hn|]. by rewrite Hold, bool_decide_true.
  - apply (twp_read_file Hworks _ (StoredPresent bytes)); [by rewrite Hn, Hb|].
    by rewrite Hnew, (bool_decide_true (checksum _ = Some _)), orb_true_r.
Qed.

Lemma finish_restore_total file stored message Q d c :
  node_stored (disk_node d (TargetName file)) = Some stored → Q () (disk_sync d) c →
  twp (sync_parent_directory ;; current ← read_file file;
       if bool_decide (current = stored) then mret () else io_bail message) Q d c.
Proof.
  intros Hs HQ. apply twp_bind, twp_sync, twp_bind, (twp_read_file Hworks _ stored); [done..|].
  rewrite bool_decide_true by done. by apply twp_ret.
Qed.

Lemma restore_target_total entry stored Q d c :
  entry ∈ rj_entries journal → memento_to_stored (je_original entry) = Ok stored → journal_seen d →
  (∀ d', journal_seen d' → Q () d' c) →
  twp (match stored with
       | StoredMissing => remove_for_rollback (je_file entry)
       | StoredPresent bytes => restore_for_rollback (je_file entry) bytes
       end) Q d c.
Proof.
  intros Hin Hm Hd HQ. destruct (ds_old _ _ _ Hdesc entry Hin) as (stored' & Hm' & Hs & _).
  rewrite Hm' in Hm. injection Hm as ->. pose proof (seen_plain d (je_file entry) Hd) as Hplain.
  pose proof (seen_put (je_file entry) d Hd) as Hput. pose proof (put_node d (TargetName (je_file entry))) as Hpn.
  destruct (old (je_file entry)) as [|bytes|] eqn:Ho; simplify_eq/=.
  - apply twp_bind, twp_reject_symlink; [done..|]. apply twp_bind, twp_call; [done|].
    case_bool_decide as Hmiss; apply finish_restore_total; rewrite ?Hmiss, ?Hpn; auto.
  - apply twp_bind, twp_reject_symlink; [done..|]. apply twp_bind, twp_write_temporary; [done|].
    apply twp_bind, twp_call; [done|]. apply finish_restore_total; rewrite ?Hpn; auto.
Qed.

Lemma restore_entries_total entries Q d c :
  (∀ entry, entry ∈ entries → entry ∈ rj_entries journal) → journal_seen d →
  (∀ d', journal_seen d' → Q () d' c) → twp (restore_entries entries) Q d c.
Proof.
  revert d. induction entries as [|entry entries IH]; intros d Hin Hd HQ; simpl; [by apply twp_ret, HQ|].
  assert (Hentry : entry ∈ rj_entries journal) by (apply Hin; by left).
  destruct (ds_old _ _ _ Hdesc entry Hentry) as (stored & Hm & _).
  apply twp_bind, (twp_lift _ stored); [done|]. apply twp_bind, restore_target_total; [done..|].
  intros d' Hd'. apply IH; [|done..]. intros e He. apply Hin. by right.
Qed.

Lemma remove_journal_total Q d c :
  disk_node d JournalName = J journal → Q DurabilityVerified (disk_sync (disk_put JournalName NodeMissing d)) c →
  twp remove_journal Q d c.
Proof.
  intros Hj HQ. assert (Hn : bool_decide (disk_node d JournalName = NodeMissing) = false).
  { apply bool_decide_eq_false. by rewrite Hj. }
  apply twp_bind, twp_call; [done|]. rewrite Hn. by apply twp_sync.
Qed.

Lemma rollback_total d c : journal_seen d → twp (rollback_journal journal) (λ _ _ _, True) d c.
Proof.
  intros Hd. apply twp_bind, verify_recoverable_total; [done..|]. apply twp_bind, restore_entries_total; [|done|].
  { intros entry. rewrite !list_elem_of_In. apply in_rev. }
  intros d' [Hj _]. apply twp_bind, twp_attempt, remove_journal_total; [done|]. by apply twp_ret.
Qed.

Lemma recover_seen_total d c : journal_seen d → twp recover_hot_journal (λ _ _ _, True) d c.
Proof.
  intros Hd. apply twp_bind, twp_map_error, twp_path_present; [done|].
  pose proof (proj1 Hd) as Hj. rewrite Hj. simpl.
  apply twp_bind, twp_map_error, twp_reject_symlink; [done|by rewrite Hj|].
  apply twp_bind, twp_map_error, twp_look; [done|]. rewrite Hj. unfold J. cbv iota.
  rewrite (ds_text _ _ _ Hdesc), (ds_valid _ _ _ Hdesc). by apply twp_map_error, rollback_total.
Qed.
End recovery.

Section acquire.
Context `{LocalStateLaws} `{env : Environment} (Hworks : ∀ n, io_answer n = IoWorks).
#[local] Set Default Proof Using "All".
Implicit Types (d : Disk) (c : CommitCancellation).

Lemma recover_missing_total d c (Q : () → Disk → CommitCancellation → Prop) :
  disk_node d JournalName = NodeMissing → Q () d c → twp recover_hot_journal Q d c.
Proof.
  intros Hn HQ. apply twp_bind, twp_map_error, twp_path_present; [done|]. rewrite bool_decide_true by done.
  by apply twp_ret.
Qed.

(** Nothing but the lock has changed when the journal is looked for. *)
Definition lock_opened d d' : Prop := d' = d ∨ d' = disk_put LockName (NodeFile []) d.

Lemma lock_opened_other d d' name : lock_opened d d' → name ≠ LockName → d' name = d name.
Proof. intros [->| ->] Hne; [done|by apply put_other]. Qed.

Lemma lock_opened_settled v d d' : lock_opened d d' → settled v d → settled v d'.
Proof.
  intros [->| ->] (Hl & Ht & Hj); [done|]. unfold settled, journal_is. rewrite put_other by done.
  split_and!; [by apply put_same|intros file; by rewrite put_other|done].
Qed.

Lemma acquire_total d c (Q : () → Disk → CommitCancellation → Prop) :
  disk_node d LockName ≠ NodeSymlink →
  (∀ d', lock_opened d d' → twp recover_hot_journal Q d' c) → twp acquire Q d c.
Proof.
  intros Hl Hrec. apply twp_bind, twp_do, twp_bind, twp_do, twp_bind, twp_get; [done..|]. intros s _ -> _.
  apply twp_bind, twp_reject_symlink; [done..|]. apply twp_bind, twp_call; [done|].
  apply twp_bind, twp_do; [done|]. apply Hrec. case_bool_decide; [by right|by left].
Qed.

Lemma acquire_settled_total v d c (Q : () → Disk → CommitCancellation → Prop) :
  settled v d → (∀ d', settled v d' → Q () d' c) → twp acquire Q d c.
Proof.
  intros Hd HQ. apply acquire_total; [exact (slot_all_latest _ d LockName (proj1 Hd))|].
  intros d' Hopen. pose proof (lock_opened_settled v d d' Hopen Hd) as Hd'. apply recover_missing_total; [|by apply HQ].
  exact (slot_all_latest _ d' JournalName (proj2 (proj2 Hd'))).
Qed.

Lemma acquire_guarded_total old new journal d c :
  describes old new journal → guarded old new journal d → twp acquire (λ _ _ _, True) d c.
Proof.
  intros Hdesc (Hl & Hj & Ht). apply acquire_total; [exact (slot_all_latest _ d LockName Hl)|].
  intros d' Hd'. apply (recover_seen_total Hworks old new journal Hdesc). split.
  - unfold disk_node. rewrite (lock_opened_other d) by done. exact (slot_all_latest _ d JournalName Hj).
  - intros file. unfold disk_node. rewrite (lock_opened_other d) by done.
    exact (slot_all_latest _ d (TargetName file) (Ht file)).
Qed.

Lemma restart_succeeds old new d s :
  awaits_recovery old new d ∨ settled_either old new d → power_loss d (ls_disk s) → ls_gated s = false →
  ∃ s', acquire s = (ROk (), s').
Proof.
  intros Hd Hp Hg. assert (Hcase : (∃ journal, describes old new journal ∧ guarded old new journal (ls_disk s))
                                   ∨ ∃ v, settled v (ls_disk s)).
  { destruct Hd as [(journal & Hdesc & Hrec)|[Hset|Hset]].
    - destruct (power_loss_decides old new journal _ _ Hp Hrec) as [?|[?|?]]; [left|right..]; by eauto.
    - right. by eauto using power_loss_settled.
    - right. by eauto using power_loss_settled. }
  assert (Htotal : twp acquire (λ _ _ _, True) (ls_disk s) (ls_cancellation s)).
  { destruct Hcase as [(journal & Hdesc & Hguard)|(v & Hset)];
      [by eapply acquire_guarded_total|by eapply acquire_settled_total]. }
  destruct (twp_run _ _ s Htotal Hg) as ([] & s' & Hs' & _). by exists s'.
Qed.
End acquire.

(** C16. Recovery does not get stuck.  Whatever a session that committed and
    any number of restarts after losses of power left on the disk, however
    their system calls failed, the next restart whose own calls all work
    acquires the directory, and leaves the three files durably all as they were
    before or all as the write set says. *)
Theorem undisturbed_restart_recovers `{LocalStateLaws} (env env' : Environment) old writes s0 r s1 d s2 :
  (∀ file, plain_node (old file)) → writes_bytes writes → settled old (ls_disk s0) →
  with_local_state_in (env := env) (local_state_commit (env := env) writes) s0 = (r, s1) →
  restarts (ls_disk s1) d → power_loss d (ls_disk s2) → ls_gated s2 = false →
  (∀ n, io_answer (Environment := env') n = IoWorks) →
  ∃ s3, acquire (env := env') s2 = (ROk (), s3)
        ∧ (settled old (ls_disk s3) ∨ settled (written writes old) (ls_disk s3)).
Proof.
  intros Hold Hw Hd Hr Hrs Hp Hg Hworks.
  pose proof (restarts_await _ _ _ _ Hrs (session_awaits _ _ _ _ _ Hold Hw Hd Hr)) as Hcase.
  destruct (restart_succeeds Hworks _ _ _ _ Hcase Hp Hg) as [s3 Hs3]. exists s3. split; [done|].
  assert (Hlast : restarted env' d s2 (ROk ()) s3) by done. destruct Hcase as [Ha|[Ha|Ha]].
  - apply (restart_recovers _ _ _ _ _ _ _ Hlast Ha).
  - left. by eapply restart_settled.
  - right. by eapply restart_settled.
Qed.

(** ** Committing *)
Section validation.
Context `{LocalStateLaws}.
#[local] Set Default Proof Using "Type*".

Lemma validate_checksum_sha256 bytes : is_bytes bytes → validate_checksum (sha256_hex bytes) = Ok ().
Proof.
  intros Hb. unfold validate_checksum. rewrite (sha256_hex_digits _ Hb). unfold sha256_hex.
  destruct (sha256_is_digest bytes Hb) as [Hd Hl]. by rewrite (hex_encode_length _ Hd), Hl.
Qed.

Lemma validate_entry old file bytes seen previous entries :
  plain_node (old file) → is_bytes bytes → file ∉ seen →
  from_option (λ file', file_rank file' < file_rank file) True previous →
  validate_entries seen previous (entry_of old (file, bytes) :: entries)
  = validate_entries (file :: seen) (Some file) entries.
Proof.
  intros Ho Hb Hout Hp. cbn [validate_entries]. change (je_file (entry_of old (file, bytes))) with file.
  rewrite (bool_decide_false (file ∈ seen)) by done.
  assert (Hrank : match previous with Some file' => file_rank file <=? file_rank file' | None => false end = false).
  { destruct previous as [file'|]; [|done]. simpl in Hp. by apply Z.leb_gt. }
  rewrite Hrank. cbn [orb entry_of je_new_sha256 je_old_sha256 je_original fst snd].
  rewrite (validate_checksum_sha256 _ Hb), (memento_stored _ Ho).
  assert (Hold : match checksum (stored_of (old file)) with Some c => validate_checksum c | None => Ok () end = Ok ()).
  { destruct (old file) as [|b|]; [done|by apply validate_checksum_sha256|done]. }
  rewrite Hold. simpl. by rewrite bool_decide_true.
Qed.

#[local] Arguments validate_entries : simpl never.
#[local] Arguments entry_of : simpl never.

Lemma commit_journal_valid old writes id :
  (∀ file, plain_node (old file)) → writes_bytes writes → into_entries writes ≠ [] →
  is_bytes id → zlen id = TRANSACTION_ID_BYTES →
  validate_journal (commit_journal_of old writes (hex_encode id)) = Ok ().
Proof.
  intros Ho Hw Hne Hid Hlen. unfold validate_journal. simpl.
  rewrite (hex_encode_length _ Hid), Hlen, (hex_encode_digits _ Hid). simpl.
  assert (Hb : ∀ file bytes, write_of writes file = Some bytes → is_bytes bytes) by exact Hw.
  destruct writes as [[s|] [i|] [w|]]; try done; unfold into_entries in *; simpl in *;
    rewrite !validate_entry; try done; try (by apply (Hb FileSettings)); try (by apply (Hb FileIdl));
    try (by apply (Hb FileWallet)); set_solver.
Qed.
End validation.

Section commit.
Context `{LocalStateLaws} `{env : Environment}.
Context (Hworks : ∀ n, io_answer n = IoWorks) (Hquiet : ∀ n, close_requested n = false).
Context (old : StateFile → Node) (writes : LocalStateWriteSet).
Context (Hold : ∀ file, plain_node (old file)) (Hwrites : writes_bytes writes).
Local Abbreviation new := (written writes old).
#[local] Set Default Proof Using "All".
Implicit Types (d : Disk) (c : CommitCancellation).

Lemma written_plain file : plain_node (new file).
Proof.
  unfold written. destruct (write_of writes file) as [bytes|] eqn:Hw; [by apply (Hwrites file)|apply Hold].
Qed.

Definition seen_either d : Prop :=
  ∀ file, disk_node d (TargetName file) = old file ∨ disk_node d (TargetName file) = new file.

Lemma seen_either_plain d file : seen_either d → disk_node d (TargetName file) ≠ NodeSymlink.
Proof.
  intros Hd Hl. pose proof (Hold file). pose proof (written_plain file).
  destruct (Hd file) as [Hn|Hn]; rewrite Hl in Hn; by rewrite <- Hn in *.
Qed.

Lemma stage_entries_total entries Q d c :
  (∀ file, disk_node d (TargetName file) = old file) →
  Q (map (entry_of old) entries, map staged_of entries) d c → twp (stage_entries entries) Q d c.
Proof.
  intros Hd. revert Q. induction entries as [|[file bytes] entries IH]; intros Q HQ; simpl; [by apply twp_ret|].
  assert (Hs : node_stored (old file) = Some (stored_of (old file))).
  { specialize (Hold file). by destruct (old file). }
  apply twp_bind, (twp_read_file Hworks _ (stored_of (old file))); [by rewrite Hd|].
  apply twp_bind, twp_stage_target; [done|by apply seen_either_plain; left|]. by apply twp_bind, IH, twp_ret.
Qed.

Lemma install_total bytes Q d :
  disk_node d JournalName = NodeMissing →
  Q DurabilityVerified (disk_sync (disk_put JournalName (NodeFile bytes) d)) CancellationDurable →
  twp (install_journal bytes) Q d CancellationOpen.
Proof.
  intros Hn HQ. apply twp_bind, twp_path_present; [done|]. rewrite bool_decide_true by done. simpl.
  apply twp_bind, twp_reject_symlink; [done|by rewrite Hn|]. apply twp_bind, twp_write_temporary; [done|].
  apply twp_bind, twp_check_pre_journal; [done..|]. apply twp_bind, twp_call; [done|].
  apply twp_bind, twp_sync; [done|]. apply twp_bind, twp_seal; [done..|]. by apply twp_ret.
Qed.

(** The files that have been persisted show their new contents. *)
Definition shows_new (files : list StateFile) d : Prop :=
  ∀ file, file ∈ files → disk_node d (TargetName file) = new file.

Lemma put_new file files d :
  seen_either d → shows_new files d →
  seen_either (disk_put (TargetName file) (new file) d)
  ∧ shows_new (file :: files) (disk_put (TargetName file) (new file) d).
Proof.
  intros Hd Hf. assert (Hput : ∀ file', disk_node (disk_put (TargetName file) (new file) d) (TargetName file')
    = if decide (file' = file) then new file' else disk_node d (TargetName file')).
  { intros file'. destruct (decide (file' = file)) as [->|Hne]; [apply put_node|].
    unfold disk_node. by rewrite put_other by congruence. }
  split; intros file'; rewrite Hput; [|intros Hin]; destruct (decide (file' = file)) as [->|Hne]; auto.
  apply Hf. by apply elem_of_cons in Hin as [?|?].
Qed.

Lemma persist_targets_total node entries files durability Q d c :
  (∀ file bytes, (file, bytes) ∈ entries → new file = NodeFile bytes) →
  disk_node d JournalName = node → seen_either d → shows_new files d → durability = DurabilityVerified →
  (∀ d', disk_node d' JournalName = node → shows_new (rev (map fst entries) ++ files) d' → Q DurabilityVerified d' c) →
  twp (persist_targets (map staged_of entries) durability) Q d c.
Proof.
  revert files durability d. induction entries as [|[file bytes] entries IH];
    intros files durability d Hn Hj Hd Hf -> HQ; simpl; [by apply twp_ret, HQ|].
  assert (Hb : new file = NodeFile bytes) by (apply Hn; by left).
  destruct (put_new file files d Hd Hf) as [Hd1 Hf1]. pose proof (put_node d (TargetName file) (new file)) as Hpn.
  apply twp_bind, twp_bind, (twp_lift _ bytes); [done|].
  apply twp_bind, twp_reject_symlink; [done|by apply seen_either_plain|]. apply twp_bind, twp_call; [done|].
  apply twp_bind, twp_sync; [done|]. simpl. rewrite <- Hb.
  apply twp_bind, twp_verify_checksum; [done|by rewrite sync_node, Hpn|]. apply twp_ret.
  apply (IH (file :: files)); try done.
  - intros file' bytes' Hin. apply Hn. by right.
  - intros d' Hj' Hf'. apply HQ; [done|]. simpl. by rewrite <- (assoc_L (++)).
Qed.

Lemma verify_new_total entries Q d c :
  (∀ file bytes, (file, bytes) ∈ entries → new file = NodeFile bytes) → shows_new (map fst entries) d → Q () d c →
  twp (verify_new_targets (map (entry_of old) entries)) Q d c.
Proof.
  intros Hn Hf HQ. induction entries as [|[file bytes] entries IH]; simpl; [by apply twp_ret|].
  apply twp_bind, twp_verify_checksum; [done| |apply IH].
  - rewrite <- (Hn file bytes) by (by left). apply Hf. by left.
  - intros file' bytes' Hin. apply Hn. by right.
  - intros file' Hin. apply Hf. by right.
Qed.

Lemma commit_journal_total id d :
  validate_journal (commit_journal_of old writes id) = Ok () → settled old d →
  twp (commit_journal (commit_journal_of old writes id) (map staged_of (into_entries writes)))
    (λ report _ _, cr_directory_durability report = DurabilityVerified) d CancellationOpen.
Proof.
  intros Hv Hd. pose proof (commit_describes old writes Hold Hwrites id Hv) as Hdesc.
  pose proof (slot_all_latest _ _ _ (proj2 (proj2 Hd))) as Hmissing. simpl in Hmissing.
  apply twp_bind, twp_attempt, install_total; [done|]. cbv beta iota. apply twp_bind, twp_attempt, twp_bind.
  eapply (persist_targets_total (J (commit_journal_of old writes id)) _ []); [by apply written_entry|..].
  - rewrite sync_node. apply put_node.
  - intros file. left. rewrite sync_node. unfold disk_node. rewrite put_other by done. by eapply (settled_shows old writes).
  - by intros file ?%elem_of_nil.
  - done.
  - intros d' Hj Hf. rewrite app_nil_r in Hf. apply twp_bind, verify_new_total; [by apply written_entry| |].
    { intros file Hin. apply Hf. rewrite list_elem_of_In, <- in_rev, <- list_elem_of_In. done. }
    apply twp_bind, (remove_journal_total Hworks _ _ _ Hdesc); [done|]. apply twp_ret. by apply twp_ret.
Qed.

Lemma local_state_commit_total d :
  into_entries writes ≠ [] → (∀ n, is_bytes (random_bytes n) ∧ zlen (random_bytes n) = TRANSACTION_ID_BYTES) →
  settled old d →
  twp (local_state_commit writes) (λ report _ _, cr_directory_durability report = DurabilityVerified)
    d CancellationOpen.
Proof.
  intros Hne Hrandom Hd. unfold local_state_commit. rewrite bool_decide_false by done.
  apply twp_bind, twp_bind, twp_do; [done|]. apply twp_bind, twp_get. intros s _ _ _. apply twp_ret.
  destruct (Hrandom (ls_steps s)) as [Hb Hl]. apply twp_bind, stage_entries_total; [by apply (settled_shows old writes)|].
  apply twp_bind, twp_check_pre_journal; [done..|].
  pose proof (commit_journal_valid old writes _ Hold Hwrites Hne Hb Hl) as Hv.
  apply twp_bind, (twp_lift _ ()); [done|]. by apply commit_journal_total.
Qed.

(** A commit that nothing disturbs succeeds.  On a directory that is
    settled and open to the process, when every call of the system works, nobody
    asks to cancel and the random bytes have their length, a session that commits
    a write set that is not empty reports success with its durability verified,
    and leaves the files durably as the write set says. *)
Theorem undisturbed_commit_succeeds s :
  into_entries writes ≠ [] → (∀ n, is_bytes (random_bytes n) ∧ zlen (random_bytes n) = TRANSACTION_ID_BYTES) →
  settled old (ls_disk s) → ls_gated s = false → ls_cancellation s = CancellationOpen →
  ∃ report s', with_local_state_in (local_state_commit writes) s = (ROk report, s')
               ∧ cr_directory_durability report = DurabilityVerified ∧ settled new (ls_disk s').
Proof.
  intros Hne Hrandom Hd Hg Hc.
  destruct (twp_run (with_local_state_in (local_state_commit writes))
    (λ report _ _, cr_directory_durability report = DurabilityVerified) s) as (report & s' & Hrun & Hrep); [|done|].
  - rewrite Hc. apply twp_bind, (acquire_settled_total Hworks old); [done|]. intros d' Hd'.
    by apply local_state_commit_total.
  - exists report, s'. split_and!; [done..|].
    exact (dwp_run _ _ _ _ _ _ (session_spec old writes Hold Hwrites _ Hd) Hrun).
Qed.
End commit.
