(* ===== verification/BackupImport.v ===== *)
(** * Importing a settings backup

    [src/src/inspector/commands/operations/backup_import.rs]: the gate that
    keeps affected operations from starting while an import runs, the plan of an
    import with its phases and decisions, and [apply], which quiesces the
    affected operations, commits through the store and releases the gate.

    The store of backups is a class.  [apply] shares the gate, the store and the
    operations with other threads: at each point where it touches them, [others]
    says what the other threads have done since the last one.  Its lease, its
    plan and the list of the operations it stopped are its own. *)

From S2P Require Import Prelude Json Bytes ModuleEvents OperationRecord Transition OperationViews.
From S2P Require Import OperationControl Registry Supervisor OperationSpec SourceModes NodeRequests.
From S2P Require Import CatalogModel ImportOptions InstructionTarget LocalState RuntimeRequest.
From S2P Require Import RuntimeOperations.

Definition STOP_TIMEOUT : Z := from_secs 2.
Definition CANCELLATION_RECONCILIATION_TIMEOUT : Z := from_secs 2.
Definition STOP_POLL_INTERVAL : Z := from_millis 25.

(** ** Catalog ids ([support/backup_catalog.rs]) *)
Definition BackupCatalogId : Type := string.
Definition BACKUP_CATALOG_ID_MAX_BYTES : Z := 128.

Definition has_path_separator (s : string) : bool :=
  existsb (λ b, (b =? 47) || (b =? 92)) (as_bytes s).

Definition BackupCatalogId_parse (value : string) : Result BackupCatalogId :=
  let value := trim value in
  if is_empty value then bail "backup catalog id is required"
  else if BACKUP_CATALOG_ID_MAX_BYTES <? str_len value
  then bail ("backup catalog id exceeds " +:+ pretty BACKUP_CATALOG_ID_MAX_BYTES +:+ " byte limit")
  else if String.eqb value "." || String.eqb value ".." || has_path_separator value || has_control value
  then bail "backup catalog id contains an unsafe path component"
  else Ok value.

(** ** Receipts and failures of the store *)
Inductive BackupImportCommitResult : Type :=
  | CommitNoOp
  | CommitApplied (transaction_id : string) (directory_durability : DirectoryDurability).

Record BackupImportCommitReceipt : Type := mkReceipt {
  rc_backup_catalog_id : BackupCatalogId;
  rc_selection : BackupImportSelection;
  rc_applied_areas : list BackupImportArea;
  rc_commit : BackupImportCommitResult;
  rc_summary : Map;
}.

Definition validate_for (receipt : BackupImportCommitReceipt) (backup_catalog_id : BackupCatalogId)
    (selection : BackupImportSelection) : Result () :=
  if negb (String.eqb (rc_backup_catalog_id receipt) backup_catalog_id)
  then bail "backup import receipt has a different backup catalog identity"
  else if negb (bool_decide (rc_selection receipt = selection))
  then bail "backup import receipt has a different area selection"
  else Ok ().

Definition area_value (areas : list BackupImportArea) : Value :=
  VArray (map (λ area, VString (area_str area)) areas).
Definition selection_value (selection : BackupImportSelection) : Value :=
  area_value (selected_areas selection).

Definition into_summary (receipt : BackupImportCommitReceipt) : Value :=
  let selected := selection_value (rc_selection receipt) in
  let summary := map_insert "backup_catalog_id" (VString (rc_backup_catalog_id receipt)) (rc_summary receipt) in
  let summary := map_insert "selected_areas" selected summary in
  let summary := map_insert "affected_areas" selected summary in
  let summary := map_insert "applied_areas" (area_value (rc_applied_areas receipt)) summary in
  VObject
    (match rc_commit receipt with
     | CommitNoOp => map_remove "transaction" (map_insert "restored" (VBool false) summary)
     | CommitApplied transaction_id directory_durability =>
         map_insert "transaction"
           (json_object [("transaction_id", VString transaction_id); ("status", VString "applied");
                         ("directory_durability", VString (durability_str directory_durability))])
           (map_insert "restored" (VBool true) summary)
     end).

(** A failure of the store: the error, and what a local transaction that failed
    says of itself. *)
Record RestoreFailure : Type := mkRestoreFailure {
  rf_error : Error;
  rf_transaction : option (LocalStateFailureStatus * option string);
}.
Definition local_state_failure (failure : RestoreFailure) : option LocalStateFailureStatus :=
  fst <$> rf_transaction failure.
Definition local_state_transaction_id (failure : RestoreFailure) : option string :=
  rf_transaction failure ≫= snd.

Class BackupImportStore (Files : Type) : Type := {
  store_preview : string → option Value → BackupImportOptions → Files → Result Value;
  store_restore : string → option Value → BackupImportOptions → CommitCancellation → Files →
                  (BackupImportCommitReceipt + RestoreFailure) * CommitCancellation * Files;
}.

(** ** The gate *)
Inductive ImportGate : Type :=
  | GateIdle
  | GateClosing
  | GateActive (selection : BackupImportSelection) (cancellation : CommitCancellation) (closing : bool)
  | GateRecoveryRequired (selection : BackupImportSelection) (transaction_id : option string) (closing : bool).

Definition gate_selection (gate : ImportGate) : option BackupImportSelection :=
  match gate with
  | GateIdle | GateClosing => None
  | GateActive selection _ _ | GateRecoveryRequired selection _ _ => Some selection
  end.

Definition area_affects (method : OperationMethod) (area : BackupImportArea) : bool :=
  match area with
  | AreaSettings => true
  | AreaFavorites => false
  | AreaIdlRegistry => bool_decide (method = LocalWalletInstructionSubmit)
  | AreaWalletProfile =>
      bool_decide (method ∈ [LocalWalletCreateAccount; LocalWalletSendTransaction; LocalWalletInstructionSubmit;
                             LocalWalletCommand; LocalWalletDeployProgram; LocalWalletSyncPrivate;
                             LocalWalletAccounts])
  end.
Definition selection_affects (selection : BackupImportSelection) (method : OperationMethod) : bool :=
  existsb (area_affects method) (affected_areas selection).

Definition rq_method (request : RuntimeOperationRequest) : OperationMethod := od_method (rq_definition request).

Definition gate_permits (gate : ImportGate) (request : RuntimeOperationRequest) : Result () :=
  match gate with
  | GateClosing => bail "backup import coordinator is closing"
  | _ =>
      match gate_selection gate with
      | Some selection =>
          if selection_affects selection (rq_method request)
          then bail ("operation `" +:+ od_name (rq_definition request)
                     +:+ "` is blocked while affected settings are being imported")
          else Ok ()
      | None => Ok ()
      end
  end.

Definition gate_begin_close (gate : ImportGate) : ImportGate :=
  match gate with
  | GateIdle => GateClosing
  | GateActive selection cancellation _ => GateActive selection (cancellation_request cancellation) true
  | GateRecoveryRequired selection transaction_id _ => GateRecoveryRequired selection transaction_id true
  | GateClosing => GateClosing
  end.

(** *** The lease of an import *)
Record ImportLease : Type := mkLease {
  le_release_on_drop : bool;
  le_fail_closed_transaction_id : option string;
}.

Definition lease_acquire (selection : BackupImportSelection) (gate : ImportGate) : Result ImportGate :=
  match gate with
  | GateIdle => Ok (GateActive selection CancellationOpen false)
  | GateActive _ _ _ => bail "another backup import is already active"
  | GateClosing => bail "backup import coordinator is closing"
  | GateRecoveryRequired _ transaction_id _ =>
      bail ("backup import mutation is blocked while local transaction `"
            +:+ default "unknown" transaction_id +:+ "` requires recovery")
  end.

Definition retain_recovery (transaction_id : option string) (gate : ImportGate) : Result ImportGate :=
  match gate with
  | GateActive selection _ closing => Ok (GateRecoveryRequired selection transaction_id closing)
  | _ => bail "backup import recovery gate lost its active selection"
  end.

Definition lease_drop (lease : ImportLease) (gate : ImportGate) : ImportGate :=
  if le_release_on_drop lease then
    match gate with
    | GateActive selection _ closing =>
        match le_fail_closed_transaction_id lease with
        | Some transaction_id => GateRecoveryRequired selection (Some transaction_id) closing
        | None => if closing : bool then GateClosing else GateIdle
        end
    | _ => gate
    end
  else gate.

(** ** Decisions *)
Inductive DecisionAction : Type := ActionStop | ActionBlock.
#[export] Instance DecisionAction_eq_dec : EqDecision DecisionAction.
Proof. solve_decision. Defined.
Definition action_str (a : DecisionAction) : string :=
  match a with ActionStop => "stop" | ActionBlock => "block" end.

Record OperationDecision : Type := mkDecision {
  dc_operation_id : string;
  dc_label : string;
  dc_action : DecisionAction;
  dc_operation : Value;
  dc_request : option RuntimeOperationRequest;
  dc_operation_class : string;
  dc_affected_inputs : Value;
  dc_restart_policy : string;
  dc_restart_eligible : bool;
}.
#[export] Instance eta_decision : Eta OperationDecision :=
  λ d, mkDecision (dc_operation_id d) (dc_label d) (dc_action d) (dc_operation d) (dc_request d)
         (dc_operation_class d) (dc_affected_inputs d) (dc_restart_policy d) (dc_restart_eligible d).

Definition affected_inputs_value (p : RuntimeOperationPolicy) : Value :=
  VArray (map affected_input_value (pol_affected_inputs p)).

Definition operation_decision (record : RuntimeOperationRecord RuntimeOperationRequest)
    (selection : BackupImportSelection) : option OperationDecision :=
  request ← rec_restart_request record;
  if negb (selection_affects selection (rq_method request)) then None
  else
    let operation := rec_operation record in
    let can_stop := bool_decide (op_status operation = StRunning) && op_cancellable operation
                    && safe_to_restart (op_policy operation) in
    Some (mkDecision (op_operation_id operation) (op_label operation)
            (if can_stop then ActionStop else ActionBlock) (runtime_operation_value operation)
            (rec_restart_request record) (class_str (pol_class (op_policy operation)))
            (affected_inputs_value (op_policy operation))
            (restart_policy_str (pol_restart_policy (op_policy operation)))
            (can_stop && safe_to_restart (op_policy operation))).

(** [sort_by] on the ids, which are distinct. *)
Fixpoint insert_decision (d : OperationDecision) (ds : list OperationDecision) : list OperationDecision :=
  match ds with
  | [] => [d]
  | d' :: ds' => match String.compare (dc_operation_id d) (dc_operation_id d') with
                 | Gt => d' :: insert_decision d ds'
                 | _ => d :: ds
                 end
  end.
Definition sort_decisions (ds : list OperationDecision) : list OperationDecision := foldr insert_decision [] ds.

Definition operation_decisions (selection : BackupImportSelection)
    (records : gmap RuntimeOperationId (RuntimeOperationRecord RuntimeOperationRequest)) : list OperationDecision :=
  sort_decisions
    (omap (λ kv : RuntimeOperationId * RuntimeOperationRecord RuntimeOperationRequest,
             if is_terminal (op_status (rec_operation kv.2)) then None
             else operation_decision kv.2 selection)
       (map_to_list records)).

(** ** Events and values of a plan *)
Definition json_str (s : string) : Value := VString s.

Definition action_facts (action : string) : string * string :=
  if String.eqb action "stop" then ("stopped_for_import", "affected_operation_stopped_for_import")
  else if String.eqb action "block" then ("blocked_for_import", "affected_operation_blocked_for_import")
  else if String.eqb action "restart" then ("restarted_after_import", "safe_operation_restarted_after_import")
  else if String.eqb action "restart_failed"
  then ("restart_failed_after_import", "safe_operation_restart_failed_after_import")
  else if String.eqb action "settled" then ("settled_before_import", "affected_operation_settled_before_import")
  else ("ignored", "not_applicable").

Definition decision_provenance : Value :=
  VArray (map json_str ["backup_import_coordinator"; "runtime_operation_registry"; "local_backup_catalog"]).

Definition decision_value (import_id backup_catalog_id : string) (decision : OperationDecision) : Value :=
  json_object [
    ("operation", dc_operation decision);
    ("operationId", json_str (dc_operation_id decision));
    ("label", json_str (dc_label decision));
    ("operationClass", json_str (dc_operation_class decision));
    ("affectedInputs", dc_affected_inputs decision);
    ("restartPolicy", json_str (dc_restart_policy decision));
    ("action", json_str (action_str (dc_action decision)));
    ("affected", VBool true);
    ("restart", VBool (dc_restart_eligible decision));
    ("restartEligible", VBool (dc_restart_eligible decision));
    ("safeToLetFinish", VBool false);
    ("importId", json_str import_id);
    ("backupCatalogId", json_str backup_catalog_id)].

Definition decision_event (import_id backup_catalog_id : string) (decision : OperationDecision)
    (action detail : string) (operation : option Value) : Value :=
  let '(status, reason) := action_facts action in
  let restart := String.eqb action "restart" in
  let restart_operation_id :=
    if restart then (operation ≫= value_get "operationId") ≫= as_str else None in
  let previous := if restart then json_str (dc_operation_id decision) else VNull in
  json_object [
    ("domain", json_str "backup");
    ("method", json_str "settingsBackupImportPolicy");
    ("status", json_str status);
    ("label", json_str "Backup import policy");
    ("operationId", json_str (default (dc_operation_id decision) restart_operation_id));
    ("previousOperationId", previous);
    ("restartOperationId", json_option json_str restart_operation_id);
    ("operationClass", json_str (dc_operation_class decision));
    ("affectedInputs", dc_affected_inputs decision);
    ("restartPolicy", json_str (dc_restart_policy decision));
    ("confirmationRequired", VBool false);
    ("importId", json_str import_id);
    ("backupCatalogId", json_str backup_catalog_id);
    ("reason", json_str reason);
    ("detail", json_str detail);
    ("action", json_str action);
    ("operation", default VNull operation);
    ("provenance", decision_provenance);
    ("result", json_object [
       ("action", json_str action);
       ("status", json_str status);
       ("reason", json_str reason);
       ("import_id", json_str import_id);
       ("backup_catalog_id", json_str backup_catalog_id);
       ("operation_id", json_str (dc_operation_id decision));
       ("previous_operation_id", previous);
       ("restart_operation_id", json_option json_str restart_operation_id);
       ("operation_class", json_str (dc_operation_class decision));
       ("restart", VBool restart);
       ("restart_eligible", VBool (dc_restart_eligible decision));
       ("safe_to_let_finish", VBool false);
       ("provenance", decision_provenance)])].

(** ** Phases and outcomes *)
Inductive BackupImportPhase : Type :=
  | PhPreparing | PhQuiescing | PhCommitting | PhApplied | PhRolledBack | PhRecoveryRequired.
#[export] Instance BackupImportPhase_eq_dec : EqDecision BackupImportPhase.
Proof. solve_decision. Defined.
Definition phase_str (p : BackupImportPhase) : string :=
  match p with
  | PhPreparing => "Preparing" | PhQuiescing => "Quiescing" | PhCommitting => "Committing"
  | PhApplied => "Applied" | PhRolledBack => "RolledBack" | PhRecoveryRequired => "RecoveryRequired"
  end.
Definition can_transition_to (p next : BackupImportPhase) : bool :=
  match p, next with
  | PhPreparing, (PhQuiescing | PhRolledBack)
  | PhQuiescing, (PhCommitting | PhRolledBack | PhRecoveryRequired)
  | PhCommitting, (PhApplied | PhRolledBack | PhRecoveryRequired) => true
  | _, _ => false
  end.

Inductive BackupImportOutcome : Type :=
  | OutPreview | OutApplied | OutBlocked | OutRolledBack | OutRecoveryRequired.
#[export] Instance BackupImportOutcome_eq_dec : EqDecision BackupImportOutcome.
Proof. solve_decision. Defined.
Definition outcome_str (o : BackupImportOutcome) : string :=
  match o with
  | OutPreview => "preview" | OutApplied => "applied" | OutBlocked => "blocked"
  | OutRolledBack => "rolled_back" | OutRecoveryRequired => "recovery_required"
  end.
Definition outcome_terminal (o : BackupImportOutcome) : bool := negb (bool_decide (o = OutPreview)).

Definition import_terminal_event (import_id backup_catalog_id : string) (outcome : BackupImportOutcome)
    (phase : BackupImportPhase) (error : option string) : Value :=
  let status :=
    match outcome with
    | OutApplied => "applied_for_import" | OutBlocked => "blocked_for_import"
    | OutRolledBack => "rolled_back_for_import" | OutRecoveryRequired => "recovery_required_for_import"
    | OutPreview => "prepared_for_import"
    end in
  json_object [
    ("domain", json_str "backup");
    ("method", json_str "settingsBackupImportApply");
    ("status", json_str status);
    ("label", json_str "Settings backup import");
    ("operationId", json_str import_id);
    ("operationClass", json_str "backup");
    ("restartPolicy", json_str "manual_required");
    ("confirmationRequired", VBool true);
    ("importId", json_str import_id);
    ("backupCatalogId", json_str backup_catalog_id);
    ("phase", json_str (phase_str phase));
    ("outcome", json_str (outcome_str outcome));
    ("reason", json_str ("backup_import_" +:+ outcome_str outcome));
    ("detail", json_str (default "" error));
    ("terminal", VBool (outcome_terminal outcome));
    ("provenance", decision_provenance);
    ("result", json_object [
       ("importId", json_str import_id);
       ("backupCatalogId", json_str backup_catalog_id);
       ("phase", json_str (phase_str phase));
       ("outcome", json_str (outcome_str outcome));
       ("terminal", VBool (outcome_terminal outcome))])].

(** ** The plan *)
Record BackupImportPlan : Type := mkPlan {
  pl_backup_catalog_id : string;
  pl_import_id : string;
  pl_selection : BackupImportSelection;
  pl_preview : Value;
  pl_decisions : list OperationDecision;
  pl_events : list Value;
  pl_phase_history : list BackupImportPhase;
}.
#[export] Instance eta_plan : Eta BackupImportPlan :=
  λ p, mkPlan (pl_backup_catalog_id p) (pl_import_id p) (pl_selection p) (pl_preview p) (pl_decisions p)
         (pl_events p) (pl_phase_history p).

Definition plan_preparing (backup_catalog_id import_id : string) (selection : BackupImportSelection)
    (preview : Value) : BackupImportPlan :=
  mkPlan backup_catalog_id import_id selection preview [] [] [PhPreparing].

Definition plan_transition (next : BackupImportPhase) (plan : BackupImportPlan) : Result BackupImportPlan :=
  current ← ok_or "backup import phase history is empty" (last (pl_phase_history plan));
  if can_transition_to current next
  then Ok (plan <| pl_phase_history ::= λ h, h ++ [next] |>)
  else bail ("invalid backup import phase transition " +:+ phase_str current +:+ " -> " +:+ phase_str next).

Definition plan_blocked (plan : BackupImportPlan) : bool :=
  existsb (λ d, bool_decide (dc_action d = ActionBlock)) (pl_decisions plan).
Definition stop_decisions (plan : BackupImportPlan) : list OperationDecision :=
  List.filter (λ d, bool_decide (dc_action d = ActionStop)) (pl_decisions plan).

Definition plan_event (plan : BackupImportPlan) (decision : OperationDecision) (action detail : string)
    (operation : option Value) : Value :=
  decision_event (pl_import_id plan) (pl_backup_catalog_id plan) decision action detail operation.

Definition record_block_events (plan : BackupImportPlan) : BackupImportPlan :=
  plan <| pl_events ::= λ es, es ++
    map (λ d, plan_event plan d "block" "Blocked backup import while affected operation is running." None)
      (List.filter (λ d, bool_decide (dc_action d = ActionBlock)) (pl_decisions plan)) |>.

Definition record_terminal (decision : OperationDecision) (operation : Value) (canceled : bool)
    (plan : BackupImportPlan) : BackupImportPlan :=
  plan <| pl_events ::= λ es, es ++ [plan_event plan decision
    (if canceled then "stop" else "settled")
    (if canceled then "Stopped affected operation before backup import."
     else "Affected operation settled before backup import.")
    (Some operation)] |>.

(** The first planned decision for the operation becomes a block. *)
Fixpoint block_planned (operation_id : string) (ds : list OperationDecision) : list OperationDecision :=
  match ds with
  | [] => []
  | d :: ds' => if String.eqb (dc_operation_id d) operation_id then (d <| dc_action := ActionBlock |>) :: ds'
                else d :: block_planned operation_id ds'
  end.
Definition record_stop_block (decision : OperationDecision) (detail : string) (plan : BackupImportPlan)
    : BackupImportPlan :=
  plan <| pl_decisions ::= block_planned (dc_operation_id decision) |>
       <| pl_events ::= λ es, es ++ [plan_event plan decision "block" detail None] |>.
Definition record_stop_timeout (decision : OperationDecision) : BackupImportPlan → BackupImportPlan :=
  record_stop_block decision "Timed out waiting for affected operation to stop.".
Definition record_stop_error (decision : OperationDecision) (error : Error) : BackupImportPlan → BackupImportPlan :=
  record_stop_block decision (error_text error).

Definition preparation_summary (backup_catalog_id : string) : Value :=
  json_object [("backup_catalog_id", json_str backup_catalog_id); ("restored", VBool false);
               ("applied_areas", VArray [])].

Definition value_is_array (v : Value) : bool := match v with VArray _ => true | _ => false end.
Definition value_is_object (v : Value) : bool := match v with VObject _ => true | _ => false end.
Definition filter_array (v : option Value) : option Value :=
  v ≫= λ v, if value_is_array v then Some v else None.

(** [remove] of the second key happens only when the first is absent. *)
Definition sanitize_unapplied_summary (summary : Value) : Result Value :=
  value ← ok_or "backup import summary must be a JSON object" (as_object summary);
  let '(removed, value) :=
    match map_get "applied_areas" value with
    | Some areas => (Some areas, map_remove "applied_areas" value)
    | None => (map_get "appliedAreas" value, map_remove "appliedAreas" value)
    end in
  let planned_areas := default (VArray []) (filter_array removed) in
  Ok (VObject (map_insert "restored" (VBool false)
        (map_insert "applied_areas" (VArray []) (map_insert "planned_areas" planned_areas value)))).

Definition blocked_label (plan : BackupImportPlan) : string :=
  default "" (dc_label <$> List.find (λ d, bool_decide (dc_action d = ActionBlock)) (pl_decisions plan)).
Definition plan_phase (plan : BackupImportPlan) : BackupImportPhase := default PhPreparing (last (pl_phase_history plan)).

Definition into_value (outcome : BackupImportOutcome) (restore_summary : option Value) (error : option string)
    (plan : BackupImportPlan) : Result Value :=
  let summary := default (pl_preview plan) restore_summary in
  summary ← (if outcome_terminal outcome && negb (bool_decide (outcome = OutApplied))
             then sanitize_unapplied_summary summary else Ok summary);
  value ← ok_or "backup import summary must be a JSON object" (as_object summary);
  let applied := bool_decide (outcome = OutApplied) in
  let blocked := plan_blocked plan || bool_decide (outcome = OutBlocked)
                 || bool_decide (outcome = OutRecoveryRequired) in
  let applied_areas :=
    if applied
    then default (selection_value (pl_selection plan))
           (filter_array (match value_get "applied_areas" summary with
                          | Some areas => Some areas
                          | None => value_get "appliedAreas" summary
                          end))
    else VArray [] in
  let events :=
    pl_events plan
    ++ if outcome_terminal outcome
       then [import_terminal_event (pl_import_id plan) (pl_backup_catalog_id plan) outcome (plan_phase plan) error]
       else [] in
  Ok (VObject (foldl (λ m kv, map_insert kv.1 kv.2 m) value
    ([("applied", VBool applied);
      ("blocked", VBool blocked);
      ("blockedOperationLabel", json_str (blocked_label plan));
      ("selectedAreas", selection_value (pl_selection plan));
      ("appliedAreas", applied_areas);
      ("operation_decisions",
        VArray (map (decision_value (pl_import_id plan) (pl_backup_catalog_id plan)) (pl_decisions plan)));
      ("operationEvents", VArray events);
      ("importId", json_str (pl_import_id plan));
      ("phase", json_str (phase_str (plan_phase plan)));
      ("phaseHistory", VArray (map (λ p, json_str (phase_str p)) (pl_phase_history plan)));
      ("outcome", json_str (outcome_str outcome));
      ("terminal", VBool (outcome_terminal outcome));
      ("recoveryRequired", VBool (bool_decide (outcome = OutRecoveryRequired)));
      ("rolledBack", VBool (bool_decide (outcome = OutRolledBack)))]
     ++ match error with Some error => [("error", json_str error)] | None => [] end
     ++ [("backupCatalogId", json_str (pl_backup_catalog_id plan));
         ("import_plan", VBool (bool_decide (outcome = OutPreview)));
         ("summary", summary)]))).

(** ** The coordinator *)
Record ImportShared (Files : Type) : Type := mkShared {
  sh_gate : ImportGate;
  sh_next_import_sequence : Z;
  sh_files : Files;
  sh_operations : RuntimeOperations;
}.
Arguments mkShared {Files} _ _ _ _.
Arguments sh_gate {Files} _.
Arguments sh_next_import_sequence {Files} _.
Arguments sh_files {Files} _.
Arguments sh_operations {Files} _.
#[export] Instance eta_shared Files : Eta (ImportShared Files) :=
  λ s, mkShared (sh_gate s) (sh_next_import_sequence s) (sh_files s) (sh_operations s).

(** What the other threads do to the shared state, at the points where an
    import touches it. *)
Class OtherThreads (Files : Type) : Type := { others : nat → ImportShared Files → ImportShared Files }.

(** The import: the shared state, its lease, its plan, and the operations it
    has stopped with whether they are restarted when it leaves. *)
Record ApplyState (Files : Type) : Type := mkApply {
  ap_shared : ImportShared Files;
  ap_lease : ImportLease;
  ap_plan : BackupImportPlan;
  ap_stopped : list OperationDecision;
  ap_restart_on_drop : bool;
}.
Arguments mkApply {Files} _ _ _ _ _.
Arguments ap_shared {Files} _.
Arguments ap_lease {Files} _.
Arguments ap_plan {Files} _.
Arguments ap_stopped {Files} _.
Arguments ap_restart_on_drop {Files} _.
#[export] Instance eta_apply Files : Eta (ApplyState Files) :=
  λ s, mkApply (ap_shared s) (ap_lease s) (ap_plan s) (ap_stopped s) (ap_restart_on_drop s).

(** [thread::sleep]: all later readings of the clocks move on by at least the
    time slept. *)
Definition sleep {S} (duration : Z) : M S () := λ s w,
  (Ok (), s, mkWorld (λ n, w_clock w n + duration / 1000000) (λ n, w_instant w n + duration) (w_reads w)).

(** Whether a step of the import continues or returns from [apply]. *)
Inductive Flow (A : Type) : Type :=
  | Return (value : Value)
  | Continue (a : A).
Arguments Return {A} _.
Arguments Continue {A} _.

Section coordinator.
Context `{SerdeJson} `{FileSystem} `{StoreRequestIds} `{InstructionTargetResolver}.
Context `{UnicodeLowercase} {Files : Type} `{!BackupImportStore Files} `{!OtherThreads Files}.
Abbreviation Shared := (ImportShared Files).
Abbreviation Apply := (ApplyState Files).

Definition with_operations {A} (m : M RuntimeOperations A) : M Shared A := λ s w,
  match m (sh_operations s) w with (out, ops, w') => (out, s <| sh_operations := ops |>, w') end.

(** ** Starting under the gate ([mod.rs]: [start])

    The permit holds the gate for the whole start. *)
Definition operation_permit (request : RuntimeOperationRequest) : M Shared () :=
  s ← get; lift (gate_permits (sh_gate s) request).
Definition start (request : RuntimeOperationRequest) : M Shared Value :=
  operation_permit request ;; with_operations (start_admitted request).
Definition start_from_value (value : Value) : M Shared Value :=
  request ← lift (runtime_operation_request_from_value value); start request.

Definition import_begin_close : M Shared () := modify (λ s, s <| sh_gate ::= gate_begin_close |>).

Definition allocate_import_id (backup_catalog_id : string) : M Shared string := λ s w,
  match checked_add (sh_next_import_sequence s) 1 with
  | Some next =>
      (Ok ("backup_import:" +:+ pretty (sh_next_import_sequence s) +:+ ":" +:+ backup_catalog_id),
       s <| sh_next_import_sequence := next |>, w)
  | None => (bail "backup import identity sequence is exhausted", s, w)
  end.

(** ** Plans *)
Definition decisions_now (selection : BackupImportSelection) : M Shared (list OperationDecision) :=
  with_operations (in_registry (inspect (operation_decisions selection))).

Definition plan_new (backup_catalog_id import_id : string) (selection : BackupImportSelection) (preview : Value)
    : M Shared BackupImportPlan :=
  if negb (value_is_object preview) then throw "backup import preview must be a JSON object"
  else
    decisions ← decisions_now selection;
    mret ((plan_preparing backup_catalog_id import_id selection preview) <| pl_decisions := decisions |>).

Definition build_plan (backup_catalog_id : string) (selection : BackupImportSelection) (preview : Value)
    (events : list Value) : M Shared Value :=
  plan ← plan_new backup_catalog_id ("backup_import_preview:" +:+ backup_catalog_id) selection preview;
  lift (into_value OutPreview None None (plan <| pl_events := events |>)).

Definition import_preview (backup_catalog_id : string) (wallet_profile options : option Value) : M Shared Value :=
  backup_catalog_id ← lift (BackupCatalogId_parse backup_catalog_id);
  options ← lift (options_parse options);
  s ← get;
  summary ← lift (store_preview backup_catalog_id wallet_profile options (sh_files s));
  build_plan backup_catalog_id (bo_selection options) summary [].

(** ** Steps of [apply] *)
Definition on_shared {A} (m : M Shared A) : M Apply A := λ s w,
  match m (ap_shared s) w with (out, shared, w') => (out, s <| ap_shared := shared |>, w') end.
Definition interleave : M Apply () := λ s w,
  (Ok (), s <| ap_shared ::= others (w_reads w) |>, mkWorld (w_clock w) (w_instant w) (S (w_reads w))).
(** An access to the shared state, after whatever the other threads have done. *)
Definition shared {A} (m : M Shared A) : M Apply A := interleave ;; on_shared m.

Definition set_phase (next : BackupImportPhase) : M Apply () :=
  s ← get; plan ← lift (plan_transition next (ap_plan s)); modify (λ s, s <| ap_plan := plan |>).
Definition update_plan (f : BackupImportPlan → BackupImportPlan) : M Apply () := modify (λ s, s <| ap_plan ::= f |>).
Definition finish (outcome : BackupImportOutcome) (restore_summary : option Value) (error : option string)
    : M Apply Value :=
  s ← get; lift (into_value outcome restore_summary error (ap_plan s)).

(** *** The lease *)
Definition with_gate (f : ImportGate → Result ImportGate) : M Shared () :=
  s ← get; gate ← lift (f (sh_gate s)); put (s <| sh_gate := gate |>).
Definition begin_committing : M Apply () :=
  modify (λ s, s <| ap_lease ::= λ l,
    mkLease (le_release_on_drop l) (Some ("coordinator:" +:+ pl_import_id (ap_plan s))) |>).
Definition release_after_terminal : M Apply () :=
  modify (λ s, s <| ap_lease ::= λ l, mkLease (le_release_on_drop l) None |>).
Definition retain_recovery_required (transaction_id : option string) : M Apply () :=
  modify (λ s, s <| ap_lease ::= λ l, mkLease false (le_fail_closed_transaction_id l) |>) ;;
  shared (with_gate (retain_recovery transaction_id)).
Definition drop_lease : M Apply () :=
  s ← get;
  shared (modify (λ sh, sh <| sh_gate ::= lease_drop (ap_lease s) |>)).

(** *** Stopped operations *)
Definition record_stopped (decision : OperationDecision) : M Apply () :=
  if dc_restart_eligible decision then modify (λ s, s <| ap_stopped ::= λ l, l ++ [decision] |>) else mret ().
Definition retain_for_recovery : M Apply () :=
  modify (λ s, s <| ap_stopped := [] |> <| ap_restart_on_drop := false |>).
Definition enter_committing : M Apply () := modify (λ s, s <| ap_restart_on_drop := false |>).

Fixpoint restart_stopped_operations (stopped : list OperationDecision) : M Apply (list Value) :=
  match stopped with
  | [] => mret []
  | decision :: stopped' =>
      s ← get;
      let event := plan_event (ap_plan s) decision in
      events ← match dc_request decision with
               | None => mret []
               | Some request =>
                   restarted ← attempt (shared (with_operations (start_after_backup_import request)));
                   mret (match restarted with
                         | Ok operation =>
                             [event "restart" "Restarted safe read operation after backup import." (Some operation)]
                         | Err error => [event "restart_failed" (error_text error) None]
                         end)
               end;
      rest ← restart_stopped_operations stopped';
      mret (events ++ rest)
  end.

Definition compensate : M Apply (list Value) :=
  s ← get;
  modify (λ s, s <| ap_stopped := [] |>) ;;
  events ← restart_stopped_operations (ap_stopped s);
  modify (λ s, s <| ap_restart_on_drop := false |>) ;;
  mret events.
Definition compensate_into_plan : M Apply () :=
  events ← compensate; update_plan (λ p, p <| pl_events ::= λ es, es ++ events |>).

Definition drop_stopped : M Apply () :=
  s ← get;
  if ap_restart_on_drop s
  then modify (λ s, s <| ap_stopped := [] |>) ;; restart_stopped_operations (ap_stopped s) ;; mret ()
  else mret ().

(** *** Quiescing *)
Definition quiesce_recovery (error : string) : M Apply Value :=
  retain_for_recovery ;;
  set_phase PhRecoveryRequired ;;
  s ← get;
  retain_recovery_required (Some ("coordinator:" +:+ pl_import_id (ap_plan s) +:+ ":quiesce")) ;;
  finish OutRecoveryRequired None (Some error).

Fixpoint request_stops (decisions : list OperationDecision) : M Apply (Flow (list (OperationDecision * bool))) :=
  match decisions with
  | [] => mret (Continue [])
  | decision :: decisions' =>
      requested ← attempt (shared (with_operations (cancel_for_backup_import (dc_operation_id decision))));
      match requested with
      | Err error =>
          update_plan (record_stop_error decision error) ;;
          value ← quiesce_recovery (error_text error); mret (Return value)
      | Ok requested =>
          rest ← request_stops decisions';
          mret (match rest with
                | Return value => Return value
                | Continue stops => Continue ((decision, requested) :: stops)
                end)
      end
  end.

Definition terminal_statuses : list string := ["completed"; "dispatched"; "failed"; "canceled"; "timed_out"].
Definition status_of (operation : Value) : string := default "" (value_get "status" operation ≫= as_str).

Fixpoint poll_until_terminal (rounds : nat) (operation_id : string) (deadline : Instant) : M Apply (option Value) :=
  match rounds with
  | O => mret None
  | S rounds' =>
      operation ← shared (with_operations (operations_value operation_id));
      if bool_decide (status_of operation ∈ terminal_statuses) then mret (Some operation)
      else
        now ← instant_now;
        if deadline <=? now then mret None
        else sleep STOP_POLL_INTERVAL ;; poll_until_terminal rounds' operation_id deadline
  end.

(** A wait lasts at most [STOP_TIMEOUT], in polls of [STOP_POLL_INTERVAL], so
    this many rounds are enough ([BackupImportTheorems]). *)
Definition WAIT_ROUNDS : nat := 82.
Definition wait_until_terminal (operation_id : string) (timeout : Z) : M Apply (option Value) :=
  now ← instant_now;
  poll_until_terminal WAIT_ROUNDS operation_id (now + timeout).

Definition coordinator_owns_cancellation (requested_by_coordinator : bool) (operation : Value) : bool :=
  requested_by_coordinator
  && match value_get "status" operation ≫= as_str with
     | Some status => String.eqb status "canceled"
     | None => false
     end.

Definition settle_stop (decision : OperationDecision) (requested : bool) (operation : Value) : M Apply () :=
  let canceled := coordinator_owns_cancellation requested operation in
  update_plan (record_terminal decision operation canceled) ;;
  if canceled then record_stopped decision else mret ().

Fixpoint await_stops (quiesce_deadline : Instant) (stops : list (OperationDecision * bool))
    : M Apply (Flow (list (OperationDecision * bool))) :=
  match stops with
  | [] => mret (Continue [])
  | (decision, requested) :: stops' =>
      now ← instant_now;
      waited ← attempt (wait_until_terminal (dc_operation_id decision) (Z.max 0 (quiesce_deadline - now)));
      match waited with
      | Err error =>
          update_plan (record_stop_error decision error) ;;
          value ← quiesce_recovery (error_text error); mret (Return value)
      | Ok (Some operation) =>
          settle_stop decision requested operation ;;
          await_stops quiesce_deadline stops'
      | Ok None =>
          update_plan (record_stop_timeout decision) ;;
          rest ← await_stops quiesce_deadline stops';
          mret (match rest with
                | Return value => Return value
                | Continue awaiting => Continue ((decision, requested) :: awaiting)
                end)
      end
  end.

Fixpoint reconcile_stops (deadline : Instant) (stops : list (OperationDecision * bool)) : M Apply (Flow ()) :=
  match stops with
  | [] => mret (Continue ())
  | (decision, requested) :: stops' =>
      now ← instant_now;
      waited ← attempt (wait_until_terminal (dc_operation_id decision) (Z.max 0 (deadline - now)));
      match waited with
      | Err error =>
          update_plan (record_stop_error decision error) ;;
          value ← quiesce_recovery (error_text error); mret (Return value)
      | Ok None =>
          value ← quiesce_recovery "affected operation cancellation requires reconciliation"; mret (Return value)
      | Ok (Some operation) => settle_stop decision requested operation ;; reconcile_stops deadline stops'
      end
  end.

Definition quiesce : M Apply (Flow ()) :=
  s ← get;
  modify (λ s, s <| ap_stopped := [] |> <| ap_restart_on_drop := true |>) ;;
  now ← instant_now;
  let quiesce_deadline := now + STOP_TIMEOUT in
  requested ← request_stops (stop_decisions (ap_plan s));
  match requested with
  | Return value => mret (Return value)
  | Continue stops =>
      awaiting ← await_stops quiesce_deadline stops;
      match awaiting with
      | Return value => mret (Return value)
      | Continue [] => mret (Continue ())
      | Continue awaiting =>
          now ← instant_now;
          reconciled ← reconcile_stops (now + CANCELLATION_RECONCILIATION_TIMEOUT) awaiting;
          match reconciled with
          | Return value => mret (Return value)
          | Continue _ =>
              compensate_into_plan ;;
              set_phase PhRolledBack ;;
              value ← finish OutBlocked None (Some "timed out while quiescing affected operations");
              mret (Return value)
          end
      end
  end.

(** *** Up to the commit *)
Definition roll_back_preparation (backup_catalog_id import_id : string) (selection : BackupImportSelection)
    (summary : Value) (error : Error) : M Apply (Flow ()) :=
  update_plan (λ _, plan_preparing backup_catalog_id import_id selection summary) ;;
  set_phase PhRolledBack ;;
  value ← finish OutRolledBack None (Some (error_text error)); mret (Return value).

Definition prepare_import (backup_catalog_id : BackupCatalogId) (wallet_profile : option Value)
    (options : BackupImportOptions) : M Apply (Flow ()) :=
  let selection := bo_selection options in
  import_id ← shared (allocate_import_id backup_catalog_id);
  preview ← shared (s ← get; mret (store_preview backup_catalog_id wallet_profile options (sh_files s)));
  match preview with
  | Err error =>
      roll_back_preparation backup_catalog_id import_id selection (preparation_summary backup_catalog_id) error
  | Ok preview =>
      plan ← attempt (shared (plan_new backup_catalog_id import_id selection preview));
      match plan with
      | Err error =>
          roll_back_preparation backup_catalog_id import_id selection
            (if value_is_object preview then preview else preparation_summary backup_catalog_id) error
      | Ok plan =>
          update_plan (λ _, plan) ;;
          set_phase PhQuiescing ;;
          s ← get;
          if plan_blocked (ap_plan s) then
            update_plan record_block_events ;;
            set_phase PhRolledBack ;;
            value ← finish OutBlocked None None; mret (Return value)
          else quiesce
      end
  end.

(** *** The commit *)
Definition call_restore (backup_catalog_id : BackupCatalogId) (wallet_profile : option Value)
    (options : BackupImportOptions) : M Shared (BackupImportCommitReceipt + RestoreFailure) := λ s w,
  let cancellation := match sh_gate s with GateActive _ cancellation _ => cancellation | _ => CancellationOpen end in
  let '(out, cancellation', files) := store_restore backup_catalog_id wallet_profile options cancellation (sh_files s) in
  (Ok out,
   s <| sh_files := files |>
     <| sh_gate ::= λ gate, match gate with
                            | GateActive selection _ closing => GateActive selection cancellation' closing
                            | _ => gate
                            end |>, w).

Definition commit_recovery (transaction_id : option string) (error : string) : M Apply Value :=
  set_phase PhRecoveryRequired ;;
  retain_for_recovery ;;
  retain_recovery_required transaction_id ;;
  finish OutRecoveryRequired None (Some error).

(** The last lines of the paths that settle: the lease is released when the
    result could be built. *)
Definition settle_commit (phase : BackupImportPhase) (outcome : BackupImportOutcome)
    (summary : option Value) (error : option string) : M Apply Value :=
  set_phase phase ;;
  compensate_into_plan ;;
  result ← attempt (finish outcome summary error);
  (if is_ok result then release_after_terminal else mret ()) ;;
  lift result.

(** Up to the call of the store. *)
Definition reach_commit (backup_catalog_id : BackupCatalogId) (wallet_profile : option Value)
    (options : BackupImportOptions) : M Apply (Flow ()) :=
  flow ← prepare_import backup_catalog_id wallet_profile options;
  match flow with
  | Return value => mret (Return value)
  | Continue _ =>
      set_phase PhCommitting ;;
      begin_committing ;;
      enter_committing ;;
      interleave ;;
      mret (Continue ())
  end.

Definition commit (backup_catalog_id : BackupCatalogId) (wallet_profile : option Value)
    (options : BackupImportOptions) : M Apply Value :=
  s ← get;
  restored ← on_shared (call_restore backup_catalog_id wallet_profile options);
  match restored with
  | inl receipt =>
      match validate_for receipt backup_catalog_id (bo_selection options) with
      | Err error => commit_recovery (Some ("coordinator:" +:+ pl_import_id (ap_plan s))) (error_text error)
      | Ok _ => settle_commit PhApplied OutApplied (Some (into_summary receipt)) None
      end
  | inr failure =>
      match local_state_failure failure with
      | Some FailureRolledBack =>
          settle_commit PhRolledBack OutRolledBack None (Some (error_text (rf_error failure)))
      | Some FailureRecoveryRequired =>
          commit_recovery (local_state_transaction_id failure) (error_text (rf_error failure))
      | None =>
          settle_commit PhRolledBack OutRolledBack None (Some "backup import failed before a durable apply")
      end
  end.

(** *** The whole import *)
Definition apply_body (backup_catalog_id : BackupCatalogId) (wallet_profile : option Value)
    (options : BackupImportOptions) : M Apply Value :=
  flow ← reach_commit backup_catalog_id wallet_profile options;
  match flow with
  | Return value => mret value
  | Continue _ => commit backup_catalog_id wallet_profile options
  end.

(** Leaving the function drops the list of stopped operations, then the lease. *)
Definition leave {A} (m : M Apply A) : M Apply A :=
  out ← attempt m;
  drop_stopped ;;
  drop_lease ;;
  lift out.

Definition with_lease {A} (plan : BackupImportPlan) (m : M Apply A) : M Shared A := λ s w,
  match leave m (mkApply s (mkLease true None) plan [] false) w with
  | (out, s', w') => (out, ap_shared s', w')
  end.

Definition import_apply (backup_catalog_id : string) (wallet_profile options : option Value) : M Shared Value :=
  backup_catalog_id ← lift (BackupCatalogId_parse backup_catalog_id);
  options ← lift (options_parse options);
  if options_is_empty options then throw "select at least one backup section to import"
  else
    with_gate (lease_acquire (bo_selection options)) ;;
    with_lease (plan_preparing backup_catalog_id "" (bo_selection options) VNull)
      (apply_body backup_catalog_id wallet_profile options).
End coordinator.
