(* ===== verification/BackupImportTheorems.v ===== *)
(** * Imports and operations

    The waits of an import end at their deadline: the model polls at most
    [WAIT_ROUNDS] times, which on a monotonic clock never cuts a wait short.
    No import commits while an operation it affects is live, and none of them
    can start before the import has ended.  The gate is never left held by an
    import that has returned, and it stays closed when the outcome of the commit
    is not known. *)

From S2P Require Import Prelude Json Bytes ModuleEvents OperationRecord Transition OperationViews.
From S2P Require Import OperationControl Registry Supervisor OperationSpec SourceModes NodeRequests.
From S2P Require Import ImportOptions InstructionTarget RuntimeRequest RuntimeOperations BackupImport.
From S2P Require Import RecordInvariants RegistryInvariant RegistrySweep RegistryMethods RegistryIngest.
From S2P Require Import RegistryTheorems StatusRanks SupervisorInvariant RequestTheorems.
From S2P Require Import StartTheorems.

(** ** Computations that only read the clocks *)
Definition advances (w w' : World) : Prop :=
  w_instant w' = w_instant w ∧ (w_reads w ≤ w_reads w')%nat.

#[export] Instance advances_preorder : PreOrder advances.
Proof.
  split; [by intros w; split|]. intros w1 w2 w3 [E1 H1] [E2 H2]. split; [congruence|lia].
Qed.

Definition only_reads {S A} (m : M S A) : Prop :=
  ∀ s w, advances w (m s w).2.

Create HintDb reads.

Section reads.
Context {S : Type}.

Lemma reads_ret {A} (a : A) : only_reads (mret (M := M S) a).
Proof. by intros s w. Qed.
Lemma reads_lift {A} (r : Result A) : only_reads (lift (S := S) r).
Proof. by intros s w. Qed.
Lemma reads_get : only_reads (get (S := S)).
Proof. by intros s w. Qed.
Lemma reads_put (s : S) : only_reads (put s).
Proof. by intros s' w. Qed.
Lemma reads_modify (f : S → S) : only_reads (modify f).
Proof. by intros s w. Qed.
Lemma reads_now_millis : only_reads (now_millis (S := S)).
Proof. intros s w. split; simpl; [done|lia]. Qed.
Lemma reads_instant_now : only_reads (instant_now (S := S)).
Proof. intros s w. split; simpl; [done|lia]. Qed.

Lemma reads_bind {A B} (m : M S A) (k : A → M S B) :
  only_reads m → (∀ a, only_reads (k a)) → only_reads (m ≫= k).
Proof.
  intros Hm Hk s w. unfold mbind, M_bind. pose proof (Hm s w) as H1.
  destruct (m s w) as [[[a|e] s1] w1]; [|done]. by etrans; [exact H1|apply Hk].
Qed.
End reads.
#[export] Hint Resolve reads_ret reads_lift reads_get reads_put reads_modify reads_now_millis
  reads_instant_now reads_bind : reads.

(** Follows a computation to its primitive steps. *)
Ltac reads_step :=
  match goal with
  | |- ∀ _, _ => intros ?
  | |- only_reads (match ?x with _ => _ end) => destruct x
  | |- only_reads (let _ := _ in _) => cbv zeta
  | |- only_reads (_ ≫= _) => apply reads_bind
  | |- _ => solve [eauto with reads]
  end.
Ltac reads := repeat reads_step.

Section registry.
Context `{SerdeJson} {Request : Type} `{!OperationRequest Request}.
Abbreviation Registry := (RuntimeOperationRegistry Request).

Lemma reads_remove_record id : only_reads (remove_record (Request := Request) id).
Proof. unfold remove_record. reads. Qed.
Hint Resolve reads_remove_record : reads.

Lemma reads_remove_records ids : only_reads (remove_records (Request := Request) ids).
Proof. induction ids as [|id ids IH]; simpl; reads. Qed.
Hint Resolve reads_remove_records : reads.

Lemma reads_evict fuel : only_reads (evict_terminal_records (Request := Request) fuel).
Proof. induction fuel as [|fuel IH]; simpl; unfold evict_oldest_terminal_record; reads. Qed.

Lemma reads_purge fuel : only_reads (purge_terminal_payloads (Request := Request) fuel).
Proof. induction fuel as [|fuel IH]; simpl; unfold purge_oldest_terminal_payload; reads. Qed.
Hint Resolve reads_evict reads_purge : reads.

Lemma reads_inspect {T} f : only_reads (inspect (Request := Request) (T := T) f).
Proof. unfold inspect, sweep_terminal_history. reads. Qed.
End registry.
#[export] Hint Resolve reads_inspect : reads.

Section wait.
Context `{SerdeJson} `{FileSystem} `{StoreRequestIds} `{InstructionTargetResolver}.
Context `{UnicodeLowercase} {Files : Type} `{!BackupImportStore Files} `{!OtherThreads Files}.

Lemma reads_value operation_id : only_reads (shared (Files := Files) (with_operations (operations_value operation_id))).
Proof.
  unfold shared. apply reads_bind; [intros s w; split; simpl; [done|lia]|]. intros _ s w.
  assert (Hv : only_reads (operations_value operation_id)).
  { unfold operations_value. apply reads_bind; [apply reads_lift|]. intros id s' w'.
    assert (Hi : only_reads (value (Request := RuntimeOperationRequest) id)) by (unfold value; reads).
    unfold in_registry, on_supervisor, on_registry.
    specialize (Hi (sv_registry (ro_supervisor s')) w').
    by destruct (value id (sv_registry (ro_supervisor s')) w') as [[]]. }
  unfold on_shared, with_operations. specialize (Hv (sh_operations (ap_shared s)) w).
  by destruct (operations_value operation_id (sh_operations (ap_shared s)) w) as [[]].
Qed.

(** ** Enough rounds *)
Definition monotonic (w : World) : Prop :=
  ∀ n m : nat, (n ≤ m)%nat → w_instant w n ≤ w_instant w m.

(** Each round that goes on has read a time before the deadline, and the later
    readings are a poll interval further on. *)
Lemma poll_rounds_irrelevant operation_id deadline rounds extra s w :
  monotonic w →
  deadline < w_instant w (w_reads w) + Z.of_nat rounds * STOP_POLL_INTERVAL →
  poll_until_terminal (Files := Files) (Datatypes.S rounds + extra) operation_id deadline s w
    = poll_until_terminal (Datatypes.S rounds) operation_id deadline s w.
Proof.
  revert s w. induction rounds as [|rounds IH]; intros s w Hmono Hd;
    cbn [poll_until_terminal Nat.add]; unfold mbind, M_bind;
    pose proof (reads_value operation_id s w) as [Hi Hr];
    destruct (shared (with_operations (operations_value operation_id)) s w) as [[[v|e] s1] w1].
  2, 4: done.
  all: simpl in Hi, Hr; case_bool_decide as Ht; [done|].
  all: unfold instant_now, sleep; rewrite Hi; pose proof (Hmono _ _ Hr) as Hlater.
  all: destruct (Z.leb_spec deadline (w_instant w (w_reads w1))) as [Hle|Hgt]; [done|].
  - exfalso. simpl in Hd. lia.
  - cbn [w_instant w_reads w_clock]. apply IH.
    + intros n m Hnm. simpl. pose proof (Hmono n m Hnm). lia.
    + cbn [w_instant w_reads]. pose proof (Hmono (w_reads w) (Datatypes.S (w_reads w1))). lia.
Qed.

(** A wait of at most two seconds is not cut short by the bound on its rounds. *)
Lemma wait_rounds_enough operation_id timeout extra s w :
  monotonic w → timeout ≤ STOP_TIMEOUT →
  (now ← instant_now; poll_until_terminal (Files := Files) (WAIT_ROUNDS + extra) operation_id (now + timeout)) s w
    = wait_until_terminal operation_id timeout s w.
Proof.
  intros Hmono Ht. unfold wait_until_terminal, mbind, M_bind, instant_now.
  apply (poll_rounds_irrelevant operation_id _ 81 extra); [by intros n m; apply Hmono|]. cbn [w_instant w_reads].
  pose proof (Hmono (w_reads w) (Datatypes.S (w_reads w)) ltac:(lia)).
  unfold STOP_TIMEOUT, from_secs in Ht. unfold STOP_POLL_INTERVAL, from_millis. lia.
Qed.
End wait.

(** ** No definition can be stopped

    An operation is stopped for an import only if it can be cancelled and is
    safe to restart: no definition is both. *)
Definition stoppable (d : OperationDefinition) : bool :=
  od_cancellable d && match pd_restart_policy (od_policy d) with SafeReadPolling => true | ManualRequired => false end.

Lemma no_definition_stoppable d : d ∈ operation_definitions → stoppable d = false.
Proof.
  assert (Hall : forallb (λ d, negb (stoppable d)) operation_definitions = true) by (by vm_compute).
  rewrite forallb_forall in Hall. intros Hd%list_elem_of_In%Hall. by apply negb_true_iff.
Qed.

Section import.
Context `{SerdeJson} `{FileSystem} `{StoreRequestIds} `{InstructionTargetResolver}.
Abbreviation Registry := (RuntimeOperationRegistry RuntimeOperationRequest).
Implicit Types g : RuntimeOperationRegistry RuntimeOperationRequest.
Implicit Types r : RuntimeOperationRecord RuntimeOperationRequest.

(** Live operations were started by requests for operations of the tables. *)
Record known g : Prop := {
  kn_wf : registry_wf g;
  kn_live : ∀ id r, rg_records g !! id = Some r → live r →
    ∃ request, originates id request r ∧ rq_definition request ∈ operation_definitions;
}.

Definition affected (selection : BackupImportSelection) r : bool :=
  match rec_restart_request r with
  | Some request => selection_affects selection (rq_method request)
  | None => false
  end.

(** No live operation is affected. *)
Definition quiet (selection : BackupImportSelection) g : Prop :=
  ∀ id r, rg_records g !! id = Some r → live r → affected selection r = false.

(** ** Decisions *)
Lemma decision_blocks id request r selection d :
  originates id request r → rq_definition request ∈ operation_definitions →
  operation_decision r selection = Some d → dc_action d = ActionBlock ∧ affected selection r = true.
Proof.
  intros Ho Hd. pose proof (originates_static _ _ _ Ho) as (_ & Hc & _ & ctx & _ & Hp).
  unfold operation_decision, affected. rewrite (og_request _ _ _ Ho). simpl.
  destruct (selection_affects selection (rq_method request)); simpl; [|done]. intros [= <-]. split; [|done]. simpl.
  pose proof (no_definition_stoppable _ Hd) as Hs. unfold stoppable in Hs. simpl in Hc. rewrite Hc.
  revert Hp. unfold policy_from_request. destruct (affected_inputs _ _ _ _) as [inputs|]; [|done].
  intros [= Hpol]. rewrite <- Hpol. unfold safe_to_restart. simpl in Hs |- *.
  destruct (bool_decide _); [|done]. simpl. by rewrite Hs.
Qed.

Lemma elem_of_insert_decision d d' ds : d ∈ insert_decision d' ds ↔ d = d' ∨ d ∈ ds.
Proof.
  induction ds as [|x ds IH]; simpl; [set_solver|].
  destruct (String.compare _ _); rewrite ?elem_of_cons, ?IH; set_solver.
Qed.
Lemma elem_of_sort_decisions d ds : d ∈ sort_decisions ds ↔ d ∈ ds.
Proof.
  unfold sort_decisions. induction ds as [|x ds IH]; simpl; [done|].
  rewrite elem_of_insert_decision, IH, elem_of_cons. done.
Qed.

Lemma elem_of_decisions d selection g :
  d ∈ operation_decisions selection (rg_records g) ↔
  ∃ id r, rg_records g !! id = Some r ∧ live r ∧ operation_decision r selection = Some d.
Proof.
  unfold operation_decisions. rewrite elem_of_sort_decisions, list_elem_of_omap. split.
  - intros ([id r] & Hin%elem_of_map_to_list & Hd). simpl in Hd.
    destruct (is_terminal (op_status (rec_operation r))) eqn:Et; [done|]. by exists id, r.
  - intros (id & r & Hr & Hl & Hd). exists (id, r). split; [by apply elem_of_map_to_list|].
    simpl. unfold live in Hl. by rewrite Hl.
Qed.

Lemma affected_decision r selection : affected selection r = true → is_Some (operation_decision r selection).
Proof.
  unfold affected, operation_decision. destruct (rec_restart_request r) as [request|]; [|done]. simpl.
  intros ->. simpl. by eexists.
Qed.

Lemma decisions_block g selection d :
  known g → d ∈ operation_decisions selection (rg_records g) → dc_action d = ActionBlock.
Proof.
  intros Hk (id & r & Hr & Hl & Hd)%elem_of_decisions. destruct (kn_live _ Hk id r Hr Hl) as (request & Ho & Hdef).
  by apply (decision_blocks id request r selection d).
Qed.

Lemma no_decision_quiet g selection : operation_decisions selection (rg_records g) = [] → quiet selection g.
Proof.
  intros Hnil id r Hr Hl. apply not_true_is_false. intros Ha.
  destruct (affected_decision r selection Ha) as [d Hd].
  assert (Hin : d ∈ operation_decisions selection (rg_records g)) by (apply elem_of_decisions; eauto).
  rewrite Hnil in Hin. by apply elem_of_nil in Hin.
Qed.

(** ** What other threads do *)
Lemma known_evolve g g' : known g → registry_wf g' → live_evolve g g' → known g'.
Proof.
  intros [_ Hk] Hw Hev. split; [done|]. intros id r' Hr' Hl'. destruct (Hev _ _ Hr' Hl') as (r & Hr & He).
  destruct (Hk _ _ Hr (evolves_live _ _ He Hl')) as (request & Ho & Hd).
  exists request. split; [by eapply originates_evolves|done].
Qed.

Lemma quiet_evolve selection g g' : quiet selection g → live_evolve g g' → quiet selection g'.
Proof.
  intros Hq Hev id r' Hr' Hl'. destruct (Hev _ _ Hr' Hl') as (r & Hr & He).
  unfold affected. rewrite (evo_restart _ _ He Hl'). by apply (Hq id r), (evolves_live _ _ He).
Qed.

(** A call that starts nothing affected: known operations stay known, and a
    quiet registry stays quiet. *)
Definition import_safe (selection : BackupImportSelection) g g' : Prop :=
  known g → known g' ∧ (quiet selection g → quiet selection g').

#[export] Instance import_safe_preorder selection : PreOrder (import_safe selection).
Proof.
  split; [by intros g|]. intros g1 g2 g3 H12 H23 Hk. destruct (H12 Hk) as [Hk2 Hq2].
  destruct (H23 Hk2) as [Hk3 Hq3]. auto.
Qed.

Lemma wp_safe {A} selection (m : M Registry A) g :
  (known g → wp m (λ _ g', registry_wf g' ∧ live_evolve g g') g) → wp m (λ _ g', import_safe selection g g') g.
Proof.
  intros Hm w. destruct (m g w) as [[out g'] w'] eqn:E. intros Hk.
  destruct (wp_run _ _ _ _ _ _ _ (Hm Hk) E) as [Hw Hev].
  split; [by eapply known_evolve|]. intros Hq. by eapply quiet_evolve.
Qed.

Lemma wp_safe_transition selection g id t :
  transition_ok t → transition_fits t → wp (transition id t) (λ _ g', import_safe selection g g') g.
Proof.
  intros Ho Hf. apply wp_safe. intros Hk.
  eapply wp_mono; [apply wp_transition_any; [apply Hk|done|done]|]. intros out g' Hpost.
  split; [by eapply transition_post_wf|by eapply transition_evolve].
Qed.
Lemma wp_safe_ingest selection g event :
  event_fits event → wp (ingest_module_event_with_settlement event) (λ _ g', import_safe selection g g') g.
Proof.
  intros Hf. apply wp_safe. intros Hk. eapply wp_mono; [apply wp_ingest; [apply Hk|done]|]. intros out g' Hpost.
  split; [by eapply ingest_post_wf|by eapply ingest_evolve].
Qed.
Lemma wp_safe_inspect {T} selection g (f : gmap RuntimeOperationId (RuntimeOperationRecord RuntimeOperationRequest) → T) :
  wp (inspect f) (λ _ g', import_safe selection g g') g.
Proof.
  apply wp_safe. intros Hk. eapply wp_mono; [apply wp_inspect, Hk|]. intros out g' (Hw & Hsw & _).
  split; [done|by apply swept_evolve].
Qed.
Lemma wp_safe_remove selection g id : wp (remove id) (λ _ g', import_safe selection g g') g.
Proof.
  apply wp_safe. intros Hk. eapply wp_mono; [apply wp_remove, Hk|]. intros out g' (_ & Hw & Hdel & _).
  split; [done|]. intros i r Hr _. rewrite Hdel in Hr. apply lookup_delete_Some in Hr as [_ Hr]. by exists r.
Qed.

Lemma wp_safe_insert selection g id request now r :
  running_runtime_operation_record id request now = Ok r → rq_definition request ∈ operation_definitions →
  selection_affects selection (rq_method request) = false →
  wp (insert_record r) (λ _ g', import_safe selection g g') g.
Proof.
  intros Hr Hd Ha w. destruct (insert_record r g w) as [[out g'] w'] eqn:E. intros Hk.
  destruct (running_record_fresh _ _ _ _ Hr) as [Hfr Hid].
  destruct (wp_run _ _ _ _ _ _ _ (wp_insert g r (kn_wf _ Hk) Hfr) E) as (Hw & g1 & Hw1 & Hsw & He).
  assert (Hk1 : known g1) by (eapply known_evolve; [done|done|by apply swept_evolve]).
  assert (Hq1 : quiet selection g → quiet selection g1) by (intros Hq; eapply quiet_evolve; [done|by apply swept_evolve]).
  destruct out as [[]|e]; [|by destruct He as [-> _]]. destruct He as (_ & _ & Hin & Hother & _).
  rewrite Hid in *.
  assert (Hre : rec_restart_request r = Some request).
  { revert Hr. unfold running_runtime_operation_record. destruct (req_context request) as [ctx|]; [|done]. simpl.
    destruct (policy_from_request request ctx) as [policy|]; [|done]. by intros [= <-]. }
  split.
  - split; [done|]. intros i ri Hi Hl. destruct (decide (i = id)) as [->|Hne].
    + rewrite Hin in Hi. simplify_eq. exists request. split; [|done]. split; [done|]. by exists now, ri.
    + apply (kn_live _ Hk1); [by apply Hother|done].
  - intros Hq i ri Hi Hl. destruct (decide (i = id)) as [->|Hne].
    + rewrite Hin in Hi. simplify_eq. unfold affected. by rewrite Hre.
    + apply (Hq1 Hq i); [by apply Hother|done].
Qed.

(** *** A start of another thread *)
Definition ops_safe (selection : BackupImportSelection) (s s' : RuntimeOperations) : Prop :=
  import_safe selection (sv_registry (ro_supervisor s)) (sv_registry (ro_supervisor s')).
#[export] Instance ops_safe_preorder selection : PreOrder (ops_safe selection).
Proof. split; [by intros s|]. intros s1 s2 s3. unfold ops_safe. by etrans. Qed.

Lemma steps_in_registry {A} selection (m : M Registry A) :
  (∀ g, wp m (λ _ g', import_safe selection g g') g) → steps (ops_safe selection) (in_registry m).
Proof.
  intros Hm s w. specialize (Hm (sv_registry (ro_supervisor s)) w). unfold in_registry, on_supervisor, on_registry.
  by destruct (m (sv_registry (ro_supervisor s)) w) as [[out g'] w'].
Qed.
Lemma steps_on_supervisor {A} selection (m : M (Supervisor RuntimeOperationRequest) A) :
  (∀ s, wp m (λ _ s', import_safe selection (sv_registry s) (sv_registry s')) s) →
  steps (ops_safe selection) (on_supervisor m).
Proof.
  intros Hm s w. specialize (Hm (ro_supervisor s) w). unfold on_supervisor.
  by destruct (m (ro_supervisor s) w) as [[out s'] w'].
Qed.
Lemma steps_attempt {S A} (R : S → S → Prop) (m : M S A) : steps R m → steps R (attempt m).
Proof. intros Hm s. apply wp_attempt. apply Hm. Qed.

Lemma steps_lift_bind {S A B} (R : S → S → Prop) `{!Reflexive R} (r : Result A) (k : A → M S B) :
  (∀ a, r = Ok a → steps R (k a)) → steps R (lift r ≫= k).
Proof. intros Hk s. apply wp_bind, wp_lift. destruct r as [a|e]; [by apply Hk|done]. Qed.

Lemma steps_insert_and_start selection id request :
  rq_definition request ∈ operation_definitions → selection_affects selection (rq_method request) = false →
  steps (ops_safe selection) (insert_and_start id request).
Proof.
  intros Hd Ha. unfold insert_and_start.
  apply steps_bind; [apply _|apply steps_now_millis, _|]. intros now.
  apply steps_lift_bind; [apply _|]. intros r Er.
  apply steps_bind; [apply _|apply steps_in_registry; intros g; by eapply wp_safe_insert|]. intros [].
  apply steps_bind; [apply _|apply steps_attempt, steps_in_registry; intros g; by apply wp_safe_transition|].
  intros [d|error]; [by apply steps_ret, _|].
  apply steps_bind; [apply _|apply steps_in_registry; intros g; apply wp_safe_remove|]. intros []. by apply steps_lift, _.
Qed.

Lemma safe_same_registry {A} selection (m : M (Supervisor RuntimeOperationRequest) A) s :
  wp m (λ _ s', sv_registry s' = sv_registry s) s →
  wp m (λ _ s', import_safe selection (sv_registry s) (sv_registry s')) s.
Proof. intros Hm. eapply wp_mono; [exact Hm|]. by intros out s' ->. Qed.

Lemma safe_swept {A} selection (m : M (Supervisor RuntimeOperationRequest) A) s :
  (known (sv_registry s) → wp m (λ _ s', registry_wf (sv_registry s') ∧ swept (sv_registry s) (sv_registry s')) s) →
  wp m (λ _ s', import_safe selection (sv_registry s) (sv_registry s')) s.
Proof.
  intros Hm w. destruct (m s w) as [[out s'] w'] eqn:E. intros Hk.
  destruct (wp_run _ _ _ _ _ _ _ (Hm Hk) E) as [Hw Hsw].
  split; [eapply known_evolve; [done|done|by apply swept_evolve]|].
  intros Hq. eapply quiet_evolve; [done|by apply swept_evolve].
Qed.

Lemma admit_swept a request (s : Supervisor RuntimeOperationRequest) :
  registry_wf (sv_registry s) →
  wp (admit_operation a request) (λ _ s', registry_wf (sv_registry s') ∧ swept (sv_registry s) (sv_registry s')) s.
Proof.
  intros Hg. unfold admit_operation. apply wp_or_release.
  unfold admit_insert. wp_step. wp_step. wp_step. case_if E1; [by wp_go|].
  destruct (sv_controls s !! oa_operation_id a) as [ref|]; [by wp_go|]. wp_step. wp_step.
  apply wp_or_remove. unfold synchronize_admitted_control. wp_step. wp_step. simpl.
  rewrite lookup_insert_eq. rewrite E1.
  wp_step. unfold operation_status. wp_step. apply wp_on_registry. simpl.
  eapply wp_mono; [by apply wp_inspect|]. intros out g' (Hg' & Hsw & ->). wp_step. unfold ok_or.
  assert (Htail : ∀ s1, sv_registry s1 = g' →
    wp (or_remove_control (oa_operation_id a) controller_sender ;; admit_send a request)
       (λ out s', registry_wf (sv_registry s') ∧ swept (sv_registry s) (sv_registry s')) s1).
  { intros s1 <-. wp_step. apply wp_or_remove. unfold controller_sender. wp_step. wp_step.
    destruct (sv_controller s1); try by wp_go. wp_step. unfold admit_send, remove_control. wp_step.
    apply wp_try_send; intros _; cbn; by wp_go. }
  assert (Hfin : ∀ s1, sv_registry s1 = g' →
    wp (or_remove_control (oa_operation_id a) controller_sender ;; admit_send a request)
       (λ out s', match out with
          | Ok _ => registry_wf (sv_registry s') ∧ swept (sv_registry s) (sv_registry s')
          | Err _ => registry_wf (sv_registry (s' <| sv_permits ::= Z.succ |>))
                     ∧ swept (sv_registry s) (sv_registry (s' <| sv_permits ::= Z.succ |>)) end) s1).
  { intros s1 Hs1. eapply wp_mono; [by apply Htail|]. by intros [a0|e] s' Hq. }
  case_match; [|done]. case_if E2; unfold on_control; wp_step; by apply Hfin.
Qed.

Lemma bind_keeps_definition request bound :
  bind_instruction_target request = Ok bound → rq_definition bound = rq_definition request.
Proof.
  unfold bind_instruction_target. case_bool_decide; [|by intros [= <-]].
  destruct (bind_target_args (rq_args request)) as [args|]; [|done]. by intros [= <-].
Qed.

Lemma steps_start_admitted selection request :
  rq_definition request ∈ operation_definitions → selection_affects selection (rq_method request) = false →
  steps (ops_safe selection) (start_admitted request).
Proof.
  intros Hd Ha. unfold start_admitted. apply steps_lift_bind; [apply _|]. intros bound Hb%bind_keeps_definition.
  unfold rq_method in Ha. rewrite <- Hb in Hd, Ha. fold (rq_method bound) in Ha.
  apply steps_bind; [apply _| |intros sequence].
  { intros s w. unfold next_sequence. by destruct (allocate_sequence (ro_next_operation_id s)). }
  apply steps_bind; [apply _|apply steps_on_supervisor; intros s|intros a].
  { apply safe_same_registry. eapply wp_mono; [apply prepare_frame|]. by intros out s' [? _]. }
  apply steps_bind; [apply _| |intros []].
  { unfold or_drop_admission. apply steps_bind; [apply _|by apply steps_attempt, steps_insert_and_start|].
    intros [[]|e]; [by apply steps_ret, _|]. apply steps_bind; [apply _| |intros; by apply steps_lift, _].
    apply steps_on_supervisor. intros s. apply safe_same_registry. unfold release_permit. by wp_go. }
  apply steps_bind; [apply _| |intros []; apply steps_in_registry; intros g; unfold value].
  { unfold admit_or_remove. apply steps_bind; [apply _|apply steps_attempt, steps_on_supervisor; intros s|].
    { apply safe_swept. intros Hk. by apply admit_swept, Hk. }
    intros [[]|e]; [by apply steps_ret, _|]. apply steps_bind; [apply _| |intros; by apply steps_lift, _].
    apply steps_in_registry. intros g. apply wp_safe_remove. }
  wp_step. eapply wp_mono; [apply wp_safe_inspect|]. intros [o|e] g' Hs; [by wp_go|done].
Qed.
End import.

(** ** The other threads

    What they can do to the state an import shares with them. *)
Section others.
Context `{SerdeJson} `{FileSystem} `{StoreRequestIds} `{InstructionTargetResolver}.
Context {Files : Type}.
Implicit Types s : ImportShared Files.

Definition registry_of s : RuntimeOperationRegistry RuntimeOperationRequest :=
  sv_registry (ro_supervisor (sh_operations s)).

Inductive other_step : ImportShared Files → ImportShared Files → Prop :=
  (* a start goes through the gate *)
  | other_start request w out s s' w' :
      rq_definition request ∈ operation_definitions → start request s w = (out, s', w') → other_step s s'
  | other_close w out s s' w' : import_begin_close s w = (out, s', w') → other_step s s'
  (* the reducer, module events, cancellations and views reach the registry *)
  | other_transition id t w out s s' w' :
      transition_ok t → transition_fits t →
      with_operations (in_registry (transition id t)) s w = (out, s', w') → other_step s s'
  | other_ingest event w out s s' w' :
      event_fits event →
      with_operations (in_registry (ingest_module_event_with_settlement event)) s w = (out, s', w') → other_step s s'
  | other_inspect T (f : gmap RuntimeOperationId (RuntimeOperationRecord RuntimeOperationRequest) → T) w out s s' w' :
      with_operations (in_registry (inspect f)) s w = (out, s', w') → other_step s s'
  | other_remove id w out s s' w' :
      with_operations (in_registry (remove id)) s w = (out, s', w') → other_step s s'
  (* everything else: the supervisor, the files, the counters *)
  | other_rest s s' :
      sh_gate s' = sh_gate s → registry_of s' = registry_of s → other_step s s'.

(** While an import holds the gate, nothing affected starts and the gate stays
    with the import; a gate that requires recovery stays closed. *)
Definition interferes s s' : Prop :=
  match sh_gate s with
  | GateActive selection _ closing =>
      (∃ cancellation' closing', sh_gate s' = GateActive selection cancellation' closing' ∧ (closing = true → closing' = true))
      ∧ import_safe selection (registry_of s) (registry_of s')
  | GateRecoveryRequired selection transaction_id _ =>
      ∃ closing', sh_gate s' = GateRecoveryRequired selection transaction_id closing'
  | GateIdle | GateClosing => True
  end.

Lemma interferes_same_gate s s' :
  sh_gate s' = sh_gate s → (∀ selection, import_safe selection (registry_of s) (registry_of s')) → interferes s s'.
Proof. intros Hg Hr. unfold interferes. rewrite Hg. destruct (sh_gate s); [done|done|split; [eauto|by apply Hr]|eauto]. Qed.

Lemma with_operations_interferes {A} (m : M RuntimeOperations A) s w out s' w' :
  (∀ selection, steps (ops_safe selection) m) → with_operations m s w = (out, s', w') → interferes s s'.
Proof.
  intros Hm E. unfold with_operations in E. destruct (m (sh_operations s) w) as [[o ops] w1] eqn:Em. simplify_eq/=.
  apply interferes_same_gate; [done|]. intros selection.
  exact (wp_run _ _ _ _ _ _ _ (Hm selection (sh_operations s)) Em).
Qed.

Lemma start_interferes request s w out s' w' :
  rq_definition request ∈ operation_definitions → start request s w = (out, s', w') → interferes s s'.
Proof.
  intros Hd E. unfold start, operation_permit, mbind, M_bind, get, lift in E.
  destruct (gate_permits (sh_gate s) request) as [[]|e] eqn:Ep; cycle 1.
  { simplify_eq/=. by apply interferes_same_gate. }
  unfold with_operations in E. destruct (start_admitted request (sh_operations s) w) as [[o ops] w1] eqn:Em.
  simplify_eq/=. unfold interferes. simpl. unfold gate_permits in Ep.
  destruct (sh_gate s) as [| |selection c b|selection t b] eqn:Eg; [done|done| |by eexists]. split; [eauto|].
  simpl in Ep. destruct (selection_affects selection (rq_method request)) eqn:Ea; [done|].
  exact (wp_run _ _ _ _ _ _ _ (steps_start_admitted selection request Hd Ea (sh_operations s)) Em).
Qed.

Lemma other_step_interferes s s' : other_step s s' → interferes s s'.
Proof.
  intros Hs. destruct Hs as [request w out s s' w' Hd E|w out s s' w' E|id t w out s s' w' Ho Hf E|event w out s s' w' Hf E
    |T f w out s s' w' E|id w out s s' w' E|s s' Hg Hr].
  - by eapply start_interferes.
  - unfold import_begin_close, modify in E. simplify_eq/=. unfold interferes. simpl.
    destruct (sh_gate s); simpl; [done|done| |by eexists]. split; [by do 2 eexists|done].
  - eapply with_operations_interferes; [|done]. intros. apply steps_in_registry. intros. by apply wp_safe_transition.
  - eapply with_operations_interferes; [|done]. intros. apply steps_in_registry. intros. by apply wp_safe_ingest.
  - eapply with_operations_interferes; [|done]. intros. apply steps_in_registry. intros. apply wp_safe_inspect.
  - eapply with_operations_interferes; [|done]. intros. apply steps_in_registry. intros. apply wp_safe_remove.
  - apply interferes_same_gate; [done|]. intros. by rewrite Hr.
Qed.

Lemma others_interfere s s' : rtc other_step s s' → interferes s s'.
Proof.
  intros Hr. induction Hr as [s|s1 s2 s3 H12%other_step_interferes _ IH]; [by apply interferes_same_gate|].
  unfold interferes in *. destruct (sh_gate s1) as [| |selection c b|selection t b]; [done|done| |].
  - destruct H12 as [(c' & b' & Hg2 & Hb2) Hs2]. rewrite Hg2 in IH. destruct IH as [(c'' & b'' & Hg3 & Hb3) Hs3].
    split; [|by etrans]. eexists _, _. split; [exact Hg3|auto].
  - destruct H12 as [b' Hg2]. by rewrite Hg2 in IH.
Qed.
End others.
