(* ===== verification/ImportSafety.v ===== *)
(** * What an import leaves behind

    [apply] among the other threads of [BackupImportTheorems]: the store is only
    called when no affected operation is live, and the gate that is left agrees
    with the outcome that is reported. *)

From S2P Require Import Prelude Json Bytes ModuleEvents OperationRecord Transition OperationViews.
From S2P Require Import OperationControl RecordInvariants Registry Supervisor.
From S2P Require Import RegistryInvariant RegistrySweep RegistryMethods RegistryIngest RegistryTheorems.
From S2P Require Import StatusRanks SupervisorInvariant.
From S2P Require Import OperationSpec SourceModes NodeRequests ImportOptions InstructionTarget.
From S2P Require Import RuntimeRequest RuntimeOperations BackupImport BackupImportTheorems.

(** ** Values *)
Definition outcome_of (v : Value) : option string := value_get "outcome" v ≫= as_str.

Lemma foldl_insert_get k kv fields m :
  List.find (λ kv, String.eqb kv.1 k) (rev fields) = Some kv →
  map_get k (foldl (λ m kv, map_insert kv.1 kv.2 m) m fields) = Some kv.2.
Proof.
  revert m. induction fields as [|[k' v'] fields IH] using rev_ind; [done|]. intros m.
  rewrite rev_app_distr, foldl_app. simpl. destruct (String.eqb_spec k' k) as [->|Hne].
  - intros [= <-]. apply map_get_insert_eq.
  - intros Hf. rewrite map_get_insert_ne by done. by apply IH.
Qed.

Lemma into_value_outcome outcome summary error plan v :
  into_value outcome summary error plan = Ok v → outcome_of v = Some (outcome_str outcome).
Proof.
  unfold into_value, ok_or, mbind, Result_bind. destruct (if _ && _ then _ else _) as [sm|]; [|done].
  destruct (as_object sm) as [m|]; [|done]. intros Hv.
  apply (f_equal (λ r, match r with Ok v => outcome_of v | Err _ => None end)) in Hv. rewrite <- Hv.
  unfold outcome_of, value_get.
  rewrite (foldl_insert_get _ ("outcome", json_str (outcome_str outcome))); [done|].
  destruct error; reflexivity.
Qed.
Lemma into_value_total outcome summary error plan :
  value_is_object (default (pl_preview plan) summary) = true →
  ∃ v, into_value outcome summary error plan = Ok v ∧ outcome_of v = Some (outcome_str outcome).
Proof.
  intros Ho. assert (Hok : is_ok (into_value outcome summary error plan) = true).
  { unfold into_value. destruct (default (pl_preview plan) summary) as [| | | | |m]; try done.
    destruct (outcome_terminal outcome && negb (bool_decide (outcome = OutApplied))); [|done].
    unfold sanitize_unapplied_summary. cbn [as_object ok_or mbind Result_bind].
    by destruct (map_get "applied_areas" m). }
  destruct (into_value outcome summary error plan) as [v|e] eqn:E; [|done].
  exists v. split; [done|by eapply into_value_outcome].
Qed.

Section safety.
Context `{SerdeJson} `{FileSystem} `{StoreRequestIds} `{InstructionTargetResolver}.
Context `{UnicodeLowercase} {Files : Type} `{!BackupImportStore Files} `{!OtherThreads Files}.
Abbreviation Shared := (ImportShared Files).
Abbreviation Apply := (ApplyState Files).
Context (others_run : ∀ n (s : ImportShared Files), rtc other_step s (others n s)).

(** The import holds the gate. *)
Definition holds (selection : BackupImportSelection) (s : Shared) : Prop :=
  (∃ cancellation closing, sh_gate s = GateActive selection cancellation closing) ∧ known (registry_of s).

Lemma others_hold selection n s : holds selection s → holds selection (others n s).
Proof using All.
  intros [(c & b & Hg) Hk]. pose proof (others_interfere _ _ (others_run n s)) as Hi.
  unfold interferes in Hi. rewrite Hg in Hi. destruct Hi as [(c' & b' & Hg' & _) Hs].
  split; [eauto|]. by apply Hs.
Qed.
Lemma others_quiet selection n s :
  holds selection s → quiet selection (registry_of s) → quiet selection (registry_of (others n s)).
Proof using All.
  intros [(c & b & Hg) Hk] Hq. pose proof (others_interfere _ _ (others_run n s)) as Hi.
  unfold interferes in Hi. rewrite Hg in Hi. destruct Hi as [_ Hs]. by apply Hs.
Qed.

(** An access to the shared state by the import. *)
Lemma wp_on_shared {A} (m : M Shared A) (Q : Result A → Apply → Prop) (s : Apply) :
  wp m (λ out sh, Q out (s <| ap_shared := sh |>)) (ap_shared s) → wp (on_shared m) Q s.
Proof. intros Hm w. specialize (Hm w). unfold on_shared. by destruct (m (ap_shared s) w) as [[out sh] w']. Qed.

Lemma wp_interleave (Q : Result () → Apply → Prop) (s : Apply) :
  (∀ n, Q (Ok ()) (s <| ap_shared ::= others n |>)) → wp interleave Q s.
Proof. intros Hq w. unfold interleave. apply Hq. Qed.

Lemma wp_shared {A} selection (m : M Shared A) (Q : Result A → Apply → Prop) (s : Apply) :
  holds selection (ap_shared s) →
  (∀ sh, holds selection sh → wp m (λ out sh', Q out (s <| ap_shared := sh' |>)) sh) →
  wp (shared m) Q s.
Proof using All.
  intros Hh Hm. unfold shared. wp_step. apply wp_interleave. intros n. apply wp_on_shared. simpl.
  eapply wp_mono; [apply Hm, others_hold, Hh|]. by destruct s.
Qed.


(** ** Steps of the plan *)
Lemma wp_set_phase next p (Q : Result () → Apply → Prop) (s : Apply) :
  last (pl_phase_history (ap_plan s)) = Some p → can_transition_to p next = true →
  Q (Ok ()) (s <| ap_plan := (ap_plan s) <| pl_phase_history ::= λ h, h ++ [next] |> |>) → wp (set_phase next) Q s.
Proof.
  intros Hp Hc HQ. unfold set_phase, plan_transition. wp_step. wp_step. wp_step. wp_step. rewrite Hp. simpl.
  rewrite Hc. by wp_go.
Qed.

Lemma wp_finish outcome summary error (Q : Result Value → Apply → Prop) (s : Apply) :
  value_is_object (default (pl_preview (ap_plan s)) summary) = true →
  (∀ v, outcome_of v = Some (outcome_str outcome) → Q (Ok v) s) → wp (finish outcome summary error) Q s.
Proof.
  intros Ho HQ. unfold finish. wp_step. wp_step. wp_step.
  destruct (into_value_total outcome summary error (ap_plan s) Ho) as (v & -> & Hv). by apply HQ.
Qed.

(** ** Up to the commit *)
Definition prepared selection (s0 : Apply) (out : Result (Flow ())) (s : Apply) : Prop :=
  holds selection (ap_shared s) ∧ ap_lease s = ap_lease s0
  ∧ match out with
    | Err _ => ap_restart_on_drop s = false
    | Ok (Return v) => ap_restart_on_drop s = false
        ∧ (outcome_of v = Some (outcome_str OutRolledBack) ∨ outcome_of v = Some (outcome_str OutBlocked))
    | Ok (Continue _) => ap_stopped s = [] ∧ last (pl_phase_history (ap_plan s)) = Some PhQuiescing
        ∧ value_is_object (pl_preview (ap_plan s)) = true ∧ quiet selection (registry_of (ap_shared s))
    end.

Lemma wp_roll_back catalog_id import_id selection0 selection summary error s0 (s : Apply) :
  holds selection (ap_shared s) → ap_lease s = ap_lease s0 → ap_restart_on_drop s = false →
  value_is_object summary = true →
  wp (roll_back_preparation catalog_id import_id selection0 summary error) (prepared selection s0) s.
Proof.
  intros Hh Hl Hr Ho. unfold roll_back_preparation, update_plan. wp_step. wp_step. wp_step.
  apply (wp_set_phase _ PhPreparing); [done|done|]. wp_step. apply wp_finish; [done|]. intros v Hv. wp_go.
  split_and!; [done|done|done|by left].
Qed.

Lemma blocked_or_empty selection (s : Shared) ds :
  known (registry_of s) → ds = operation_decisions selection (rg_records (registry_of s)) →
  existsb (λ d, bool_decide (dc_action d = ActionBlock)) ds = false → ds = [].
Proof.
  intros Hk -> Hb. destruct (operation_decisions selection (rg_records (registry_of s))) as [|d ds] eqn:Ed; [done|].
  assert (Hd : dc_action d = ActionBlock) by (eapply decisions_block; [done|rewrite Ed; by left]).
  simpl in Hb. by rewrite bool_decide_true in Hb.
Qed.

Lemma wp_plan_new catalog_id import_id selection preview (sh : Shared) :
  holds selection sh →
  wp (plan_new catalog_id import_id selection preview) (λ out sh', holds selection sh'
    ∧ match out with
      | Err _ => True
      | Ok plan => value_is_object preview = true
          ∧ plan = (plan_preparing catalog_id import_id selection preview)
                     <| pl_decisions := operation_decisions selection (rg_records (registry_of sh')) |>
      end) sh.
Proof.
  intros [Hg Hk]. unfold plan_new. destruct (value_is_object preview) eqn:Eo; simpl; [|by wp_go].
  wp_step. unfold decisions_now. intros w. unfold with_operations, in_registry, on_supervisor, on_registry.
  destruct (inspect (operation_decisions selection) (sv_registry (ro_supervisor (sh_operations sh))) w)
    as [[o g'] w1] eqn:Ei.
  destruct (wp_run _ _ _ _ _ _ _ (wp_inspect (operation_decisions selection) _ (kn_wf _ Hk)) Ei) as (Hw & Hsw & ->).
  simpl. wp_go. split; [|done]. split; [done|]. eapply known_evolve; [exact Hk|done|by apply swept_evolve].
Qed.

Lemma prepare_import_spec catalog_id wallet_profile options (s : Apply) :
  let selection := bo_selection options in
  holds selection (ap_shared s) → ap_stopped s = [] → ap_restart_on_drop s = false →
  wp (prepare_import catalog_id wallet_profile options) (prepared selection s) s.
Proof using All.
  intros selection Hh Hst Hr. unfold prepare_import. wp_step. eapply (wp_shared selection); [done|].
  intros sh1 Hh1 w. unfold allocate_import_id.
  destruct (checked_add (sh_next_import_sequence sh1) 1) as [next|]; [|by split_and!].
  wp_step. eapply (wp_shared selection); [done|]. intros sh2 Hh2. wp_step. wp_step. wp_step.
  destruct (store_preview catalog_id wallet_profile options (sh_files sh2)) as [preview|e];
    [|by apply wp_roll_back].
  wp_step. wp_step. eapply (wp_shared selection); [done|]. intros sh3 Hh3.
  eapply wp_mono; [by apply wp_plan_new|]. intros [plan|e] sh4 [Hh4 Hplan]; cycle 1.
  { apply wp_roll_back; [done..|]. by destruct (value_is_object preview) eqn:Eo. }
  destruct Hplan as [Ho ->]. unfold update_plan. wp_step. wp_step. wp_step.
  apply (wp_set_phase _ PhPreparing); [done|done|]. wp_step. wp_step. simpl.
  unfold plan_blocked. simpl. case_if Eb.
  - wp_step. wp_step. wp_step. apply (wp_set_phase _ PhQuiescing); [done|done|]. wp_step.
    apply wp_finish; [done|]. intros v Hv. wp_go. split_and!; [done|done|done|by right].
  - apply (blocked_or_empty selection sh4) in Eb; [|apply Hh4|done].
    unfold quiesce. wp_step. wp_step. wp_step. wp_step. wp_step. wp_step.
    unfold stop_decisions. simpl. rewrite Eb. simpl. wp_go. simpl. wp_go.
    split_and!; [done|done|done|done|done|]. simpl. by apply no_decision_quiet.
Qed.

(** The store is called only while no affected operation is live. *)
Definition committing selection (s : Apply) : Prop :=
  holds selection (ap_shared s) ∧ quiet selection (registry_of (ap_shared s)).

Lemma reach_commit_spec catalog_id wallet_profile options (s : Apply) :
  let selection := bo_selection options in
  holds selection (ap_shared s) → ap_stopped s = [] → ap_restart_on_drop s = false →
  wp (reach_commit catalog_id wallet_profile options) (λ out s', match out with
    | Ok (Continue _) => committing selection s'
        ∧ le_release_on_drop (ap_lease s') = le_release_on_drop (ap_lease s) ∧ ap_restart_on_drop s' = false
        ∧ ap_stopped s' = [] ∧ last (pl_phase_history (ap_plan s')) = Some PhCommitting
        ∧ value_is_object (pl_preview (ap_plan s')) = true
    | _ => prepared selection s out s'
    end) s.
Proof using All.
  intros selection Hh Hst Hr. unfold reach_commit. wp_step.
  eapply wp_mono; [by apply prepare_import_spec|]. intros [[v|[]]|e] s1 Hp; [by wp_go| |done].
  destruct Hp as (Hh1 & Hl & Hst1 & Hph & Ho & Hq). wp_step.
  apply (wp_set_phase _ PhQuiescing); [done|done|]. unfold begin_committing, enter_committing. wp_step. wp_step.
  wp_step. wp_step. wp_step. apply wp_interleave. intros n. wp_go. split_and!; simpl.
  - split; simpl; [by apply others_hold|by apply others_quiet].
  - by rewrite Hl.
  - done.
  - done.
  - by rewrite last_snoc.
  - done.
Qed.

(** ** The commit and the end of the import *)

(** What the body leaves for the drops at its end. *)
Definition body_done selection (out : Result Value) (s : Apply) : Prop :=
  ap_restart_on_drop s = false
  ∧ ((∃ t b, le_release_on_drop (ap_lease s) = false ∧ sh_gate (ap_shared s) = GateRecoveryRequired selection t b
       ∧ ∃ v, out = Ok v ∧ outcome_of v = Some (outcome_str OutRecoveryRequired))
     ∨ (ap_lease s = mkLease true None ∧ holds selection (ap_shared s)
        ∧ ∀ v, out = Ok v → ∃ outcome, outcome ∈ [OutApplied; OutBlocked; OutRolledBack]
                                ∧ outcome_of v = Some (outcome_str outcome))).

Lemma wp_settle_commit selection phase outcome summary error (s : Apply) :
  holds selection (ap_shared s) → le_release_on_drop (ap_lease s) = true → ap_restart_on_drop s = false →
  ap_stopped s = [] → last (pl_phase_history (ap_plan s)) = Some PhCommitting →
  can_transition_to PhCommitting phase = true → outcome ∈ [OutApplied; OutBlocked; OutRolledBack] →
  value_is_object (default (pl_preview (ap_plan s)) summary) = true →
  wp (settle_commit phase outcome summary error) (body_done selection) s.
Proof.
  intros Hh Hl Hr Hst Hph Hc Hout Ho. unfold settle_commit. wp_step.
  apply (wp_set_phase _ PhCommitting); [done|done|]. unfold compensate_into_plan, compensate. wp_step. wp_step. wp_step.
  wp_step. wp_step. wp_step. wp_step. simpl. rewrite Hst. simpl. wp_step. wp_step. wp_step. wp_step.
  unfold update_plan. wp_step. wp_step. wp_step. apply wp_finish; [done|]. intros v Hv. simpl.
  unfold release_after_terminal. wp_go. split; [done|]. right. split_and!; simpl; [by rewrite Hl|done|].
  intros v' [= <-]. by exists outcome.
Qed.

Lemma wp_commit_recovery selection transaction_id error (s : Apply) :
  holds selection (ap_shared s) → last (pl_phase_history (ap_plan s)) = Some PhCommitting →
  value_is_object (pl_preview (ap_plan s)) = true →
  wp (commit_recovery transaction_id error) (body_done selection) s.
Proof using All.
  intros Hh Hph Ho. unfold commit_recovery. wp_step. apply (wp_set_phase _ PhCommitting); [done|done|].
  unfold retain_for_recovery, retain_recovery_required. wp_step. wp_step. wp_step. wp_step. wp_step.
  eapply (wp_shared selection); [done|]. intros sh [(c & b & Hg) Hk]. unfold with_gate. wp_step. wp_step. wp_step.
  wp_step. rewrite Hg. simpl. wp_step. apply wp_finish; [done|]. intros v Hv. split; [done|]. left.
  exists transaction_id, b. split_and!; [done|done|by exists v].
Qed.

Lemma commit_spec catalog_id wallet_profile options (s : Apply) :
  let selection := bo_selection options in
  holds selection (ap_shared s) → le_release_on_drop (ap_lease s) = true → ap_restart_on_drop s = false →
  ap_stopped s = [] → last (pl_phase_history (ap_plan s)) = Some PhCommitting →
  value_is_object (pl_preview (ap_plan s)) = true →
  wp (commit catalog_id wallet_profile options) (body_done selection) s.
Proof using All.
  intros selection [(c & b & Hg) Hk] Hl Hr Hst Hph Ho. unfold commit. wp_step. wp_step. wp_step.
  apply wp_on_shared. intros w. unfold call_restore. rewrite Hg.
  destruct (store_restore catalog_id wallet_profile options c (sh_files (ap_shared s))) as [[out c'] files].
  set (s1 := s <| ap_shared := _ |>).
  assert (Hh : holds selection (ap_shared s1)).
  { subst s1. split; [|exact Hk]. exists c', b. simpl. by rewrite Hg. }
  destruct out as [receipt|failure].
  - destruct (validate_for receipt catalog_id (bo_selection options)) as [[]|e].
    + by apply (wp_settle_commit selection); try done; set_solver.
    + by apply (wp_commit_recovery selection).
  - destruct (local_state_failure failure) as [[]|].
    + by apply (wp_settle_commit selection); try done; set_solver.
    + by apply (wp_commit_recovery selection).
    + by apply (wp_settle_commit selection); try done; set_solver.
Qed.

Lemma apply_body_spec catalog_id wallet_profile options (s : Apply) :
  let selection := bo_selection options in
  holds selection (ap_shared s) → ap_lease s = mkLease true None → ap_stopped s = [] → ap_restart_on_drop s = false →
  wp (apply_body catalog_id wallet_profile options) (body_done selection) s.
Proof using All.
  intros selection Hh Hl Hst Hr. unfold apply_body. wp_step. eapply wp_mono; [by apply reach_commit_spec|].
  intros [[v|[]]|e] s1 Hp.
  - wp_step. destruct Hp as (Hh1 & Hl1 & Hr1 & Hv). split; [done|]. right. split_and!; [congruence|done|].
    intros v' [= <-]. destruct Hv as [Hv|Hv]; [exists OutRolledBack|exists OutBlocked]; (split; [set_solver|done]).
  - destruct Hp as ([Hh1 _] & Hl1 & ? & ? & ? & ?). apply commit_spec; try done. rewrite Hl1. by rewrite Hl.
  - destruct Hp as (Hh1 & Hl1 & Hr1). split; [done|]. right. split_and!; [congruence|done|done].
Qed.

(** The gate after the lease is dropped. *)
Definition gate_after selection (out : Result Value) (gate : ImportGate) : Prop :=
  match out with
  | Ok v => (outcome_of v = Some (outcome_str OutRecoveryRequired)
             ∧ ∃ t b, gate = GateRecoveryRequired selection t b)
            ∨ (∃ outcome, outcome ∈ [OutApplied; OutBlocked; OutRolledBack] ∧ outcome_of v = Some (outcome_str outcome))
              ∧ (gate = GateIdle ∨ gate = GateClosing)
  | Err _ => gate = GateIdle ∨ gate = GateClosing
  end.

Lemma leave_spec selection (m : M Apply Value) (s : Apply) :
  wp m (body_done selection) s → wp (leave m) (λ out s', gate_after selection out (sh_gate (ap_shared s'))) s.
Proof using All.
  intros Hm. unfold leave. wp_step. wp_step. eapply wp_mono; [exact Hm|]. intros out s1 [Hr Hd].
  unfold drop_stopped. wp_step. wp_step. wp_step. rewrite Hr. wp_step. wp_step. unfold drop_lease, shared. wp_step.
  wp_step. wp_step. apply wp_interleave. intros n. apply wp_on_shared. wp_step. wp_step. simpl.
  destruct Hd as [(t & b & Hl & Hg & v & -> & Hv)|(Hl & Hh & Hv)].
  - left. split; [done|]. pose proof (others_interfere _ _ (others_run n (ap_shared s1))) as Hi.
    unfold interferes in Hi. rewrite Hg in Hi. destruct Hi as [b' Hg']. unfold lease_drop. rewrite Hl. eauto.
  - destruct (others_hold selection n _ Hh) as [(c & b & Hg) _].
    assert (Hend : lease_drop (ap_lease s1) (sh_gate (others n (ap_shared s1))) = GateIdle
                   ∨ lease_drop (ap_lease s1) (sh_gate (others n (ap_shared s1))) = GateClosing).
    { rewrite Hl, Hg. simpl. destruct b; auto. }
    destruct out as [v|e]; [right; split; [by apply Hv|done]|done].
Qed.

Lemma acquire_holds selection (s s1 : Shared) w w1 :
  known (registry_of s) → with_gate (lease_acquire selection) s w = (Ok (), s1, w1) →
  sh_gate s = GateIdle ∧ holds selection s1.
Proof.
  intros Hk E. unfold with_gate, mbind, M_bind, get, lift, put in E.
  destruct (sh_gate s) eqn:Eg; simplify_eq/=. split; [done|]. split; [by do 2 eexists|done].
Qed.

(** ** Claims *)

(** C13. When an import reaches the store, whatever the other threads did in the
    meantime, no live operation is affected by the selected areas, and the gate
    refuses to start one. *)
Theorem import_commits_quietly catalog_id wallet_profile options plan (s s1 : Shared) w w1 s' w' :
  known (registry_of s) →
  with_gate (lease_acquire (bo_selection options)) s w = (Ok (), s1, w1) →
  reach_commit catalog_id wallet_profile options (mkApply s1 (mkLease true None) plan [] false) w1
    = (Ok (Continue ()), s', w') →
  quiet (bo_selection options) (registry_of (ap_shared s'))
  ∧ ∀ request, selection_affects (bo_selection options) (rq_method request) = true →
      is_ok (gate_permits (sh_gate (ap_shared s')) request) = false.
Proof using All.
  intros Hk Ha E. destruct (acquire_holds _ _ _ _ _ Hk Ha) as [_ Hh].
  destruct (wp_run _ _ _ _ _ _ _ (reach_commit_spec catalog_id wallet_profile options
    (mkApply s1 (mkLease true None) plan [] false) Hh eq_refl eq_refl) E) as [[[(c & b & Hg) _] Hq] _].
  split; [done|]. intros request Haff. unfold gate_permits. rewrite Hg. simpl. by rewrite Haff.
Qed.

(** C14. An import that does not get the gate changes nothing.  Otherwise the
    gate was idle, and when the import has returned the gate holds the selection
    exactly when the outcome is that recovery is required; after every other
    outcome and every error it is idle or closing. *)
Theorem import_gate_follows_outcome catalog_id wallet_profile options o (s : Shared) w out s' w' :
  known (registry_of s) → options_parse options = Ok o →
  import_apply catalog_id wallet_profile options s w = (out, s', w') →
  (s' = s ∧ is_ok out = false)
  ∨ (sh_gate s = GateIdle ∧ gate_after (bo_selection o) out (sh_gate s')).
Proof using All.
  intros Hk Ho. unfold import_apply. rewrite Ho. unfold mbind, M_bind, lift.
  destruct (BackupCatalogId_parse catalog_id) as [id|e]; [|intros; simplify_eq; by left].
  destruct (options_is_empty o); [intros E; cbv in E; simplify_eq; by left|].
  destruct (with_gate (lease_acquire (bo_selection o)) s w) as [[[[]|e] s1] w1] eqn:Ea; cycle 1.
  { intros E. simplify_eq. left. split; [|done]. revert Ea. unfold with_gate, mbind, M_bind, get, lift, put.
    destruct (sh_gate s); simpl; intros; by simplify_eq. }
  destruct (acquire_holds _ _ _ _ _ Hk Ea) as [Hg Hh]. intros E. right. split; [done|].
  unfold with_lease in E.
  destruct (leave (apply_body id wallet_profile o)
    (mkApply s1 (mkLease true None) (plan_preparing id "" (bo_selection o) VNull) [] false) w1)
    as [[out1 s2] w2] eqn:El. simplify_eq.
  refine (wp_run _ _ _ _ _ _ _ (leave_spec (bo_selection o) _ _ _) El).
  by apply apply_body_spec.
Qed.
End safety.
