(* ===== verification/Witnesses.v ===== *)
(** * A storage upload, end to end

    One concrete run of the registry: uploads are inserted, a module event
    arrives early and is replayed on acceptance, another arrives in time, and a
    third names two operations.  The states are evaluated; then each theorem with
    hypotheses is applied to a state of the run. *)

From S2P Require Import Prelude Json ModuleEvents OperationRecord Transition OperationViews RecordInvariants.
From S2P Require Import Registry RegistryInvariant RegistrySweep RegistryMethods RegistryIngest RegistryTheorems.
From S2P Require Import RegistryTheorems.

(** ** A printer and a request to run with *)
Definition quote : string := str_of_bytes [34%nat].

Fixpoint demo_print (v : Value) : string :=
  match v with
  | VNull => "null"
  | VBool b => if b then "true" else "false"
  | VNumber (PosInt n) | VNumber (NegInt n) => pretty n
  | VNumber (Float _) => "0.0"
  | VString s => quote +:+ s +:+ quote
  | VArray items =>
      "[" +:+ (fix go (l : list Value) : string :=
                 match l with [] => "" | v :: l => demo_print v +:+ "," +:+ go l end) items +:+ "]"
  | VObject entries =>
      "{" +:+ (fix go (l : list (string * Value)) : string :=
                 match l with
                 | [] => ""
                 | (k, v) :: l => k +:+ ":" +:+ demo_print v +:+ "," +:+ go l
                 end) entries +:+ "}"
  end.

#[export] Instance demo_serde : SerdeJson := {| to_string := demo_print; from_str := λ _, None |}.

Record DemoRequest : Type := mkDemoRequest {
  demo_group : option OperationExclusiveGroup;
  demo_module : option string;
}.

#[export] Instance demo_request : OperationRequest DemoRequest := {|
  req_client_request_id _ := None;
  req_domain_name _ := "storage";
  req_method_name _ := "upload";
  req_label _ := "Upload";
  req_cancellable _ := true;
  req_exclusive_group := demo_group;
  req_policy_definition _ := policy_definition_new Mutating;
  req_backend _ := "module";
  req_pending_module := demo_module;
  req_context _ := Ok (VObject [("cid", VString "c1")]);
|}.

Definition world0 : World := mkWorld (λ n, 1000 + Z.of_nat n) (λ n, Z.of_nat n) 0.
Definition exec {S A} (m : M S A) (s : S) : S := (m s world0).1.2.
Definition outcome {S A} (m : M S A) (s : S) : Result A := (m s world0).1.1.

Lemma exec_run {S A} (m : M S A) s : m s world0 = (outcome m s, exec m s, (m s world0).2).
Proof. unfold exec, outcome. by destruct (m s world0) as [[]]. Qed.

Lemma exec_ok {S A} (m : M S A) s a :
  outcome m s = Ok a → m s world0 = (Ok a, exec m s, (m s world0).2).
Proof. intros <-. apply exec_run. Qed.

(** ** The calls *)
Definition upload_contract : ModuleTerminalEventContract :=
  contract_new "storage_module" (Some "uploadProgress") "uploadDone" (Some "uploadFailed") KSession.
Definition request_contract : ModuleTerminalEventContract :=
  contract_new "storage_module" None "uploadDone" None KRequest.

Definition record_of (id : string) (request : DemoRequest) : RuntimeOperationRecord DemoRequest :=
  match running_runtime_operation_record id request 1000 with
  | Ok r => r
  | Err _ => mkRecord (mkOperation "" None None None None None 0 "" "" "" StRunning ""
               (mkPolicy Mutating [] ManualRequired true) VNull None None 0 None None None None
               true None 0 0) None [] None 1 0 0 0 false None None 0 false false 0
  end.

Definition upload : DemoRequest := mkDemoRequest (Some GUpload) (Some "storage_module").
Definition plain : DemoRequest := mkDemoRequest None (Some "storage_module").

Definition session_acceptance (s : string) : ObservableOperationAcceptance :=
  mkAcceptance (VObject [("accepted", VBool true)]) (with_session (mkModuleSessionId s)) upload_contract.
Definition accept_session (s : string) : RuntimeOperationTransition :=
  Resolved (Accepted (session_acceptance s)).
Definition accept_request (q : string) : RuntimeOperationTransition :=
  Resolved (Accepted (mkAcceptance (VObject [("accepted", VBool true)])
    (with_request (mkModuleRequestId q)) request_contract)).

Definition done_event (fields : list (string * Value)) : ModuleEventEnvelope :=
  mkEnvelope "storage_module" "uploadDone" [VObject fields] (VObject fields).
Definition session_done : ModuleEventEnvelope := done_event [("sessionId", VString "s1")].
Definition both_done : ModuleEventEnvelope :=
  done_event [("requestId", VString "q1"); ("sessionId", VString "s1")].

(** ** The states *)
Definition g_empty : RuntimeOperationRegistry DemoRequest := registry_new.
Definition g_inserted := exec (insert_record (record_of "up-1" upload)) g_empty.
Definition g_journaled := exec (ingest_module_event_with_settlement session_done) g_inserted.
Definition g_replayed := exec (transition "up-1" (accept_session "s1")) g_journaled.
Definition g_awaiting := exec (transition "up-1" (accept_session "s1")) g_inserted.
Definition g_completed := exec (ingest_module_event_with_settlement session_done) g_awaiting.
Definition g_second := exec (insert_record (record_of "up-2" plain)) g_awaiting.
Definition g_two := exec (transition "up-2" (accept_request "q1")) g_second.

(** The second upload is refused while the first runs, the early event is
    journaled and its replay completes the operation, the event in time
    completes it too, and the event with both identities is ambiguous. *)
Example scenario_outcomes :
  outcome (insert_record (record_of "up-1" upload)) g_empty = Ok ()
  ∧ outcome (insert_record (record_of "up-3" upload)) g_inserted
    = Err ["a storage upload operation is already running"]
  ∧ snd <$> outcome (ingest_module_event_with_settlement session_done) g_inserted = Ok None
  ∧ (zlen ∘ jn_events <$> rg_pending_module_events g_journaled !! "storage_module") = Some 1
  ∧ outcome (transition "up-1" (accept_session "s1")) g_journaled = Ok Applied
  ∧ (op_status ∘ rec_operation <$> rg_records g_replayed !! "up-1") = Some StCompleted
  ∧ rg_pending_module_events g_replayed !! "storage_module" = None
  ∧ snd <$> outcome (ingest_module_event_with_settlement session_done) g_awaiting = Ok (Some "up-1")
  ∧ (op_status ∘ rec_operation <$> rg_records g_completed !! "up-1") = Some StCompleted
  ∧ outcome (apply_module_event_ingress both_done) (rg_records g_two)
    = Ok (IngressAmbiguous ["up-1"; "up-2"]).
Proof. vm_compute. done. Qed.

(** ** The invariant along the run *)
Lemma insert_wf id request g :
  registry_wf g → running_runtime_operation_record id request 1000 = Ok (record_of id request) →
  registry_wf (exec (insert_record (record_of id request)) g).
Proof.
  intros Hg Hr. eapply registry_step_wf; [exact Hg|].
  eapply step_insert; [exact Hr | apply exec_run].
Qed.

Lemma transition_wf id t (g : RuntimeOperationRegistry DemoRequest) :
  registry_wf g → transition_ok t → transition_fits t → registry_wf (exec (transition id t) g).
Proof.
  intros Hg Ho Hf. eapply registry_step_wf; [exact Hg|].
  eapply step_transition; [exact Ho | exact Hf | apply exec_run].
Qed.

Lemma ingest_wf event (g : RuntimeOperationRegistry DemoRequest) :
  registry_wf g → event_fits event →
  registry_wf (exec (ingest_module_event_with_settlement event) g).
Proof.
  intros Hg Hf. eapply registry_step_wf; [exact Hg|].
  eapply step_ingest; [exact Hf | apply exec_run].
Qed.

Lemma g_empty_wf : registry_wf g_empty.
Proof. apply registry_new_wf. Qed.
Lemma g_inserted_wf : registry_wf g_inserted.
Proof. apply insert_wf; [apply g_empty_wf | done]. Qed.
Lemma session_done_fits : event_fits session_done.
Proof. by vm_compute. Qed.
Lemma g_journaled_wf : registry_wf g_journaled.
Proof. apply ingest_wf; [apply g_inserted_wf | apply session_done_fits]. Qed.
Lemma g_awaiting_wf : registry_wf g_awaiting.
Proof. apply transition_wf; [apply g_inserted_wf | done | by vm_compute]. Qed.
Lemma g_completed_wf : registry_wf g_completed.
Proof. apply ingest_wf; [apply g_awaiting_wf | apply session_done_fits]. Qed.
Lemma g_second_wf : registry_wf g_second.
Proof. apply insert_wf; [apply g_awaiting_wf | done]. Qed.
Lemma g_two_wf : registry_wf g_two.
Proof.
  apply transition_wf; [apply g_second_wf | done | by vm_compute].
Qed.

Lemma wf_records (g : RuntimeOperationRegistry DemoRequest) : registry_wf g → records_wf (rg_records g).
Proof.
  intros [[[He _ _] _ _] _ _ _] id r Hr. destruct (He id r Hr) as [(? & ? & _) ?]. by split.
Qed.
Lemma wf_unique (g : RuntimeOperationRegistry DemoRequest) :
  registry_wf g → correlations_unique (rg_records g).
Proof. intros [[[_ Hu _] _ _] _ _ _]. done. Qed.

(** The record of [id] in a state of the run. *)
Definition rec_in (g : RuntimeOperationRegistry DemoRequest) (id : string)
    : RuntimeOperationRecord DemoRequest := default (record_of id upload) (rg_records g !! id).

(** A run given by its three results. *)
Ltac by_run := eexists _, _, _; split; [apply exec_run|].

Lemma transition_lifecycle_witness :
  ∃ out records' w',
    apply_runtime_operation_transition "up-1" (accept_session "s1") (rg_records g_inserted) world0
      = (out, records', w')
    ∧ records_wf records' ∧ records_evolve (rg_records g_inserted) records'.
Proof.
  by_run. exact (transition_lifecycle (rg_records g_inserted) "up-1" (accept_session "s1") world0 _ _ _
    (wf_records _ g_inserted_wf) I (exec_run _ _)).
Defined.

Lemma transition_atomic_witness :
  ∃ out records' w',
    apply_runtime_operation_transition "up-2" (accept_session "s1") (rg_records g_second) world0
      = (out, records', w')
    ∧ (is_ok out = false → records' = rg_records g_second)
    ∧ ∀ id', id' ≠ "up-2" → records' !! id' = rg_records g_second !! id'.
Proof.
  by_run. exact (transition_atomic (rg_records g_second) "up-2" (accept_session "s1") world0 _ _ _
    (exec_run _ _)).
Defined.

Lemma first_settlement_wins_witness :
  ∃ out records' w',
    apply_runtime_operation_transition "up-1" (TimedOut "late") (rg_records g_completed) world0
      = (out, records', w')
    ∧ out = Ok Stale.
Proof.
  assert (Hr : rg_records g_completed !! "up-1" = Some (rec_in g_completed "up-1")) by (vm_compute; reflexivity).
  assert (Ht : is_terminal (op_status (rec_operation (rec_in g_completed "up-1"))) = true)
    by (vm_compute; reflexivity).
  by_run. exact (proj1 (first_settlement_wins _ "up-1" _ (TimedOut "late") world0 _ _ _
    (wf_records _ g_completed_wf) Hr Ht (exec_run _ _))).
Defined.

Lemma settling_transition_outcome_witness :
  ∃ out records' w',
    apply_runtime_operation_transition "up-1" (TimedOut "slow") (rg_records g_awaiting) world0
      = (out, records', w')
    ∧ out = Ok Applied
    ∧ ∃ r', records' = <["up-1" := r']> (rg_records g_awaiting)
        ∧ settled_by r' (StTimedOut, "timeout", "timed_out", Some "slow", None).
Proof.
  assert (Hr : rg_records g_awaiting !! "up-1" = Some (rec_in g_awaiting "up-1")) by (vm_compute; reflexivity).
  assert (Hl : live (rec_in g_awaiting "up-1")) by (vm_compute; reflexivity).
  assert (Hok : is_ok (outcome (apply_runtime_operation_transition "up-1" (TimedOut "slow"))
                         (rg_records g_awaiting)) = true) by (vm_compute; reflexivity).
  by_run. exact (settling_transition_outcome _ "up-1" _ (TimedOut "slow") _ world0 _ _ _
    (wf_records _ g_awaiting_wf) Hr Hl eq_refl (exec_run _ _) Hok).
Defined.

Lemma transition_correlations_unique_witness :
  ∃ out records' w',
    apply_runtime_operation_transition "up-2" (accept_session "s1") (rg_records g_second) world0
      = (out, records', w')
    ∧ out = Ok DuplicateCorrelation ∧ correlations_unique records'.
Proof.
  assert (Hout : outcome (apply_runtime_operation_transition "up-2" (accept_session "s1"))
                   (rg_records g_second) = Ok DuplicateCorrelation) by (vm_compute; reflexivity).
  by_run. split; [exact Hout|].
  exact (transition_correlations_unique (rg_records g_second) "up-2" (accept_session "s1") world0 _ _ _
    (wf_unique _ g_second_wf) (exec_run _ _)).
Defined.

Lemma acceptance_outcome_witness :
  ∃ out records' w',
    apply_runtime_operation_transition "up-2" (accept_session "s1") (rg_records g_second) world0
      = (out, records', w')
    ∧ ∃ r', records' = <["up-2" := r']> (rg_records g_second)
      ∧ out = Ok DuplicateCorrelation
      ∧ settled_by r' (StFailed, "invalid_external_correlation", "failed",
          Some "accepted operation reused an external correlation", None).
Proof.
  assert (Hp : accepted_correlation_problem (rg_records g_second) "up-2"
    (ac_correlation (session_acceptance "s1")) (ac_terminal_event (session_acceptance "s1"))
    = Some Duplicate) by (vm_compute; reflexivity).
  assert (Hr : rg_records g_second !! "up-2" = Some (rec_in g_second "up-2")) by (vm_compute; reflexivity).
  assert (Hl : live (rec_in g_second "up-2")) by (vm_compute; reflexivity).
  assert (Hok : is_ok (outcome (apply_runtime_operation_transition "up-2" (accept_session "s1"))
                         (rg_records g_second)) = true) by (vm_compute; reflexivity).
  by_run.
  pose proof (acceptance_outcome _ "up-2" _ (session_acceptance "s1") world0 _ _ _
    (wf_records _ g_second_wf) Hr Hl (exec_run _ _) Hok) as Hout.
  rewrite Hp in Hout. exact Hout.
Defined.

Lemma ingress_lifecycle_witness :
  ∃ out records' w',
    apply_module_event_ingress session_done (rg_records g_awaiting) world0 = (out, records', w')
    ∧ records_wf records' ∧ correlations_unique records'
    ∧ records_evolve (rg_records g_awaiting) records'
    ∧ (is_ok out = false → records' = rg_records g_awaiting).
Proof.
  by_run. exact (ingress_lifecycle (rg_records g_awaiting) session_done world0 _ _ _
    (wf_records _ g_awaiting_wf) (wf_unique _ g_awaiting_wf) (exec_run _ _)).
Defined.

Lemma ingress_answer_exact_witness :
  ingress_answers session_done (rg_records g_awaiting)
    (exec (apply_module_event_ingress session_done) (rg_records g_awaiting)) (IngressApplied "up-1").
Proof.
  assert (Hok : outcome (apply_module_event_ingress session_done) (rg_records g_awaiting)
                = Ok (IngressApplied "up-1")) by (vm_compute; reflexivity).
  exact (ingress_answer_exact _ session_done world0 _ _ _ (wf_records _ g_awaiting_wf) (exec_ok _ _ _ Hok)).
Defined.

Lemma ambiguity_spans_roles_witness :
  ∃ i j ri rj s q, ["up-1"; "up-2"] ≡ₚ [i; j]
    ∧ rg_records g_two !! i = Some ri ∧ rg_records g_two !! j = Some rj
    ∧ claimed_correlation ri = Some (me_module_name both_done, KSession, s)
    ∧ claimed_correlation rj = Some (me_module_name both_done, KRequest, q)
    ∧ correlation_value both_done KSession = Some s ∧ correlation_value both_done KRequest = Some q.
Proof.
  assert (Hok : outcome (apply_module_event_ingress both_done) (rg_records g_two)
                = Ok (IngressAmbiguous ["up-1"; "up-2"])) by (vm_compute; reflexivity).
  exact (ambiguity_spans_roles _ both_done world0 _ _ _ (wf_unique _ g_two_wf) (exec_ok _ _ _ Hok)).
Defined.

Lemma correlated_event_outcome_witness :
  ∃ r', exec (apply_module_event_ingress session_done) (rg_records g_awaiting)
        = <["up-1" := r']> (rg_records g_awaiting)
    ∧ event_effect session_done upload_contract (rec_in g_awaiting "up-1") r'.
Proof.
  assert (Hok : outcome (apply_module_event_ingress session_done) (rg_records g_awaiting)
                = Ok (IngressApplied "up-1")) by (vm_compute; reflexivity).
  assert (Hr : rg_records g_awaiting !! "up-1" = Some (rec_in g_awaiting "up-1")) by (vm_compute; reflexivity).
  assert (Hc : op_terminal_event (rec_operation (rec_in g_awaiting "up-1")) = Some upload_contract)
    by (vm_compute; reflexivity).
  exact (correlated_event_outcome _ session_done "up-1" _ upload_contract world0 _ _
    (wf_records _ g_awaiting_wf) Hr Hc (exec_ok _ _ _ Hok)).
Defined.

Lemma registry_always_consistent_witness : registry_wf g_inserted.
Proof.
  assert (Hok : outcome (insert_record (record_of "up-1" upload)) g_empty = Ok ()) by (vm_compute; reflexivity).
  assert (Hr : running_runtime_operation_record "up-1" upload 1000 = Ok (record_of "up-1" upload))
    by (vm_compute; reflexivity).
  apply registry_always_consistent. eapply rtc_l; [|apply rtc_refl].
  exact (step_insert "up-1" upload 1000 _ world0 _ _ _ _ Hr (exec_ok _ _ _ Hok)).
Defined.

Lemma registry_transition_atomic_witness :
  transition_post (λ _, True) g_inserted "up-1" (accept_session "s1") (Ok Applied) g_awaiting.
Proof.
  assert (Hok : outcome (transition "up-1" (accept_session "s1")) g_inserted = Ok Applied)
    by (vm_compute; reflexivity).
  assert (Hf : transition_fits (accept_session "s1")) by (by vm_compute).
  exact (registry_transition_atomic g_inserted "up-1" (accept_session "s1") world0 _ _ _
    g_inserted_wf I Hf (exec_ok _ _ _ Hok)).
Defined.

Lemma registry_ingest_routes_witness :
  ∃ v, ingest_post session_done g_awaiting (Ok (v, Some "up-1")) g_completed.
Proof.
  assert (Hok : ∃ v, outcome (ingest_module_event_with_settlement session_done) g_awaiting
                     = Ok (v, Some "up-1")) by (eexists; vm_compute; reflexivity).
  destruct Hok as [v Hok]. exists v.
  exact (registry_ingest_routes g_awaiting session_done world0 _ _ _
    g_awaiting_wf session_done_fits (exec_ok _ _ _ Hok)).
Defined.

Lemma registry_insert_guarded_witness :
  registry_wf g_inserted
  ∧ ∃ g1, registry_wf g1 ∧ swept g_empty g1
          ∧ insert_effect (record_of "up-1" upload) g1 (Ok ()) g_inserted.
Proof.
  assert (Hok : outcome (insert_record (record_of "up-1" upload)) g_empty = Ok ()) by (vm_compute; reflexivity).
  assert (Hr : running_runtime_operation_record "up-1" upload 1000 = Ok (record_of "up-1" upload))
    by (vm_compute; reflexivity).
  exact (registry_insert_guarded g_empty "up-1" upload 1000 _ world0 _ _ _ g_empty_wf Hr (exec_ok _ _ _ Hok)).
Defined.

Lemma sweep_bounds_history_witness :
  ∃ out g' w', sweep_terminal_history 90000000 5 g_completed world0 = (out, g', w')
    ∧ out = Ok () ∧ registry_wf g' ∧ swept g_completed g' ∧ fresh_history 90000000 5 g'.
Proof.
  assert (Hb : tracked_bytes (rg_records g_completed) (rg_terminal_records g_completed) ≤ u64_max)
    by (by vm_compute).
  by_run. exact (sweep_bounds_history g_completed 90000000 5 world0 _ _ _
    (rw_core _ g_completed_wf) Hb (exec_run _ _)).
Defined.

Lemma event_page_exact_witness :
  ev_cursor <$> event_page (rec_in g_completed "up-1") 1 = [2].
Proof.
  assert (Hr : rg_records g_completed !! "up-1" = Some (rec_in g_completed "up-1")) by (vm_compute; reflexivity).
  assert (Hreset : reset_required (rec_in g_completed "up-1") 1 = false) by (vm_compute; reflexivity).
  assert (Hn : seqZ (1 + 1) (rec_next_event_cursor (rec_in g_completed "up-1") - 1 - 1) = [2])
    by (vm_compute; reflexivity).
  rewrite <- Hn. exact (proj1 (proj2 (event_page_exact (rec_in g_completed "up-1") 1
    (proj1 (wf_records _ g_completed_wf "up-1" _ Hr)) ltac:(done))) Hreset).
Defined.

(** The journal entry of the early event. *)
Definition early_pending : PendingModuleEvent :=
  default (mkPending session_done [] 0)
    (j ← rg_pending_module_events g_journaled !! "storage_module"; head (jn_events j)).

Lemma early_event_settles_witness :
  is_terminal (op_status (rec_operation (rec_in g_replayed "up-1"))) = true.
Proof.
  assert (Hr' : rg_records g_replayed !! "up-1" = Some (rec_in g_replayed "up-1")) by (vm_compute; reflexivity).
  assert (Hok : outcome (transition "up-1" (accept_session "s1")) g_journaled = Ok Applied)
    by (vm_compute; reflexivity).
  assert (Hf : value_fits (ac_acknowledgement (session_acceptance "s1"))) by (by vm_compute).
  assert (Hr : rg_records g_journaled !! "up-1" = Some (rec_in g_journaled "up-1")) by (vm_compute; reflexivity).
  assert (Hp : rec_pending_module_name (rec_in g_journaled "up-1") = Some "storage_module")
    by (vm_compute; reflexivity).
  assert (Hj : rg_pending_module_events g_journaled !! "storage_module"
               = Some (mkJournal [early_pending] (pe_event_bytes early_pending))) by (vm_compute; reflexivity).
  assert (Hid : "up-1" ∈ pe_candidate_operation_ids early_pending) by (vm_compute; constructor).
  assert (He : ends_wait upload_contract (Some "s1") (pe_event early_pending)) by (split; [|split]; vm_compute; reflexivity).
  exact (proj1 (early_event_settles g_journaled "up-1" _ (session_acceptance "s1") "storage_module" _
    early_pending world0 Applied _ _ g_journaled_wf Hf Hr Hp Hj ltac:(constructor) Hid He
    (exec_ok _ _ _ Hok)) _ Hr').
Defined.

Lemma event_log_append_witness :
  ∃ out r' w',
    push_runtime_operation_event_locked "cancel_ignored" "operation is not cancellable" None None None
      (rec_in g_inserted "up-1") world0 = (out, r', w')
    ∧ record_wf r' ∧ same_core (rec_in g_inserted "up-1") r'.
Proof.
  assert (Hr : rg_records g_inserted !! "up-1" = Some (rec_in g_inserted "up-1")) by (vm_compute; reflexivity).
  assert (Hp : progress_ok None) by done.
  by_run. pose proof (event_log_append "cancel_ignored" "operation is not cancellable" None None None
    (rec_in g_inserted "up-1") world0 _ _ _ (proj1 (wf_records _ g_inserted_wf "up-1" _ Hr)) Hp
    (exec_run _ _)) as H. exact (conj (proj1 H) (proj1 (proj2 H))).
Defined.

Lemma dispatch_identity_matches_event_witness :
  (receipt_correlation (receipt_new (VObject []) (VObject [("session_id", VString "s1")]) RoleSession) KSession
     ≫= λ c, identity_for c KSession) = Some "s1".
Proof.
  assert (E : correlation_value (done_event [("session_id", VString "s1")]) KSession = Some "s1")
    by (vm_compute; reflexivity).
  rewrite <- E.
  exact (proj1 (dispatch_identity_matches_event KSession [] [("session_id", VString "s1")]
    (done_event [("session_id", VString "s1")]) eq_refl eq_refl)).
Defined.
