(* ===== verification/DecodeWitnesses.v ===== *)
(** * Concrete packages for the decoders

    Instances of the classes that stand for the [hex], [lee] and [risc0]
    packages, with proofs of their laws, and inputs at which the hypotheses of
    the decoders' theorems hold.  The hexadecimal codec and the word serializer
    are the usual ones; account ids are written in 44 base-58 digits. *)

From S2P Require Import Prelude Json Bytes IdlTypes Borsh BorshSpec EntityIds InstructionCodec InstructionWire.
From S2P Require Import InstructionVariants ModuleEvents OperationRecord Transition OperationViews.
From S2P Require Import RecordInvariants Registry RegistryInvariant Witnesses.

(** ** Hexadecimal *)
Definition nibble_char (n : Z) : Ascii.ascii :=
  Ascii.ascii_of_nat (Z.to_nat (if n <? 10 then 48 + n else 87 + n)).

Definition hex_value (a : Ascii.ascii) : option Z :=
  let x := Z.of_nat (Ascii.nat_of_ascii a) in
  if in_range 48 57 x then Some (x - 48)
  else if in_range 65 70 x then Some (x - 55)
  else if in_range 97 102 x then Some (x - 87)
  else None.

Fixpoint demo_hex_encode (bs : list Z) : string :=
  match bs with
  | [] => EmptyString
  | b :: bs' => String (nibble_char (b / 16)) (String (nibble_char (b mod 16)) (demo_hex_encode bs'))
  end.

Fixpoint demo_hex_decode (s : string) : option (list Z) :=
  match s with
  | EmptyString => Some []
  | String a (String b s') =>
      x ← hex_value a; y ← hex_value b; bs ← demo_hex_decode s'; Some (16 * x + y :: bs)
  | String _ EmptyString => None
  end.

#[export] Instance demo_hex : HexCrate := {| hex_encode := demo_hex_encode; hex_decode := demo_hex_decode |}.

(** Checks over a finite range of integers, and over all characters. *)
Lemma check_range (f : Z → bool) k :
  forallb f (seqZ 0 k) = true → ∀ n, 0 ≤ n < k → f n = true.
Proof.
  intros Hf n Hn. rewrite forallb_forall in Hf. apply Hf, list_elem_of_In, elem_of_seqZ. lia.
Qed.

Lemma check_ascii (f : Ascii.ascii → bool) :
  forallb (λ n, f (Ascii.ascii_of_nat (Z.to_nat n))) (seqZ 0 256) = true → ∀ a, f a = true.
Proof.
  intros Hf a. pose proof (Ascii.nat_ascii_bounded a).
  pose proof (check_range _ _ Hf (Z.of_nat (Ascii.nat_of_ascii a))) as E.
  simpl in E. rewrite Nat2Z.id, Ascii.ascii_nat_embedding in E. apply E. lia.
Qed.

Lemma nibble_value n : 0 ≤ n < 16 → hex_value (nibble_char n) = Some n.
Proof.
  intros Hn. pose proof (check_range (λ n, bool_decide (hex_value (nibble_char n) = Some n)) 16
    eq_refl n Hn) as E. by apply bool_decide_eq_true in E.
Qed.

Lemma nibble_hexdigit n : 0 ≤ n < 16 → is_ascii_hexdigit (nibble_char n) = true.
Proof. by apply (check_range (λ n, is_ascii_hexdigit (nibble_char n))). Qed.

Lemma hex_value_facts a x :
  hex_value a = Some x → 0 ≤ x < 16 ∧ nibble_char x = ascii_lower a.
Proof.
  intros Hx. pose proof (check_ascii (λ a,
    match hex_value a with
    | Some x => in_range 0 15 x && Ascii.eqb (nibble_char x) (ascii_lower a)
    | None => true
    end) eq_refl a) as E. simpl in E. rewrite Hx, andb_true_iff, in_range_spec in E.
  destruct E as [? E%Ascii.eqb_eq]. split; [lia|done].
Qed.

Lemma hexdigit_value a : is_ascii_hexdigit a = true → is_Some (hex_value a).
Proof.
  intros Ha. pose proof (check_ascii (λ a,
    implb (is_ascii_hexdigit a) (bool_decide (is_Some (hex_value a)))) eq_refl a) as E.
  simpl in E. rewrite Ha in E. by apply bool_decide_eq_true in E.
Qed.

(** Strings two characters at a time. *)
Lemma pairs_ind (P : string → Prop) :
  P EmptyString → (∀ a, P (String a EmptyString)) → (∀ a b s, P s → P (String a (String b s))) →
  ∀ s, P s.
Proof.
  intros H0 H1 H2 s. assert (Hs : P s ∧ ∀ a, P (String a s)); [|by destruct Hs].
  induction s as [|b s [IH1 IH2]]; auto.
Qed.

Lemma demo_hex_decode_spec s bs :
  demo_hex_decode s = Some bs →
  is_bytes bs ∧ str_len s = 2 * zlen bs ∧ demo_hex_encode bs = to_ascii_lowercase s.
Proof.
  revert bs. induction s as [| |a b s IH] using pairs_ind; intros bs; simpl; try done.
  { intros [= <-]. split; [constructor|done]. }
  destruct (hex_value a) as [x|] eqn:Ex; [|done]. destruct (hex_value b) as [y|] eqn:Ey; [|done].
  simpl. destruct (demo_hex_decode s) as [bs'|]; [|done]. intros [= <-].
  destruct (IH bs' eq_refl) as (Hb & Hl & He).
  apply hex_value_facts in Ex as [Hx Ex], Ey as [Hy Ey]. split_and!.
  - constructor; [|done]. unfold digit. change (2 ^ 8) with 256. lia.
  - unfold str_len, zlen in *. simpl String.length. simpl length. lia.
  - simpl. rewrite He.
    rewrite (Z.mul_comm 16), Z.div_add_l, (Z.div_small y), Z.add_0_r by lia.
    rewrite (Z.add_comm _ y), Z.mod_add, Z.mod_small by lia. by rewrite Ex, Ey.
Qed.

Lemma demo_hex_decode_encode bs : is_bytes bs → demo_hex_decode (demo_hex_encode bs) = Some bs.
Proof.
  induction 1 as [|b bs Hb _ IH]; [done|]. simpl. unfold digit in Hb. change (2 ^ 8) with 256 in Hb.
  pose proof (Z.mod_pos_bound b 16). pose proof (Z.div_mod b 16).
  assert (0 ≤ b / 16 < 16) by (split; [apply Z.div_pos|apply Z.div_lt_upper_bound]; lia).
  rewrite (nibble_value (b / 16)), (nibble_value (b mod 16)) by lia. simpl.
  rewrite IH. simpl. do 2 f_equal. lia.
Qed.

Lemma demo_hex_digits bs : is_bytes bs → all_hexdigits (demo_hex_encode bs) = true.
Proof.
  unfold all_hexdigits. induction 1 as [|b bs Hb _ IH]; [done|]. simpl.
  unfold digit in Hb. change (2 ^ 8) with 256 in Hb. pose proof (Z.mod_pos_bound b 16).
  assert (0 ≤ b / 16 < 16) by (split; [apply Z.div_pos|apply Z.div_lt_upper_bound]; lia).
  rewrite (nibble_hexdigit (b / 16)), (nibble_hexdigit (b mod 16)) by lia. done.
Qed.

Lemma demo_hex_total s : all_hexdigits s = true → Z.even (str_len s) = true → is_Some (demo_hex_decode s).
Proof.
  unfold all_hexdigits. induction s as [|a|a b s IH] using pairs_ind; [by eauto|done|].
  intros Hs He. simpl in Hs. rewrite !andb_true_iff in Hs. destruct Hs as (Ha & Hb & Hs). simpl.
  destruct (hexdigit_value a Ha) as [x ->], (hexdigit_value b Hb) as [y ->]. simpl.
  destruct (IH Hs) as [bs ->]; [|by eauto].
  replace (str_len (String a (String b s))) with (Z.succ (Z.succ (str_len s))) in He
    by (unfold str_len; simpl String.length; lia).
  by rewrite Z.even_succ_succ in He.
Qed.

#[export] Instance demo_hex_laws : HexLaws.
Proof.
  constructor; simpl; intros.
  - by apply demo_hex_decode_encode.
  - by eapply demo_hex_decode_spec.
  - by eapply demo_hex_decode_spec.
  - by eapply demo_hex_decode_spec.
  - by apply demo_hex_total.
  - by apply demo_hex_digits.
Qed.

(** ** Account ids *)
Definition base58_alphabet : string := "123456789ABCDEFGHJKLMNPQRSTUVWXYZabcdefghijkmnopqrstuvwxyz".
Definition char58 (n : Z) : Ascii.ascii :=
  default Ascii.zero (String.list_ascii_of_string base58_alphabet !! Z.to_nat n).

Fixpoint index_of (a : Ascii.ascii) (l : list Ascii.ascii) : option Z :=
  match l with
  | [] => None
  | b :: l' => if Ascii.eqb b a then Some 0 else Z.succ <$> index_of a l'
  end.
Definition value58 (a : Ascii.ascii) : option Z :=
  index_of a (String.list_ascii_of_string base58_alphabet).

Fixpoint digits58 (count : nat) (n : Z) : list Z :=
  match count with O => [] | S count' => n mod 58 :: digits58 count' (n / 58) end.
Fixpoint number58 (l : list Z) : Z :=
  match l with [] => 0 | x :: l' => x + 58 * number58 l' end.

Definition demo_account_text (a : AccountId) : string :=
  String.string_of_list_ascii (map char58 (digits58 44 (le_value 8 a))).

Definition demo_account_parse (s : string) : option AccountId :=
  l ← mapM value58 (String.list_ascii_of_string s);
  if (zlen l =? 44) && (number58 l <? 2 ^ 256) then Some (le_digits 8 32 (number58 l)) else None.

#[export] Instance demo_accounts : LeeAccounts :=
  {| account_to_string := demo_account_text; account_parse := demo_account_parse |}.

Lemma char58_value n : 0 ≤ n < 58 → value58 (char58 n) = Some n.
Proof.
  intros Hn. pose proof (check_range (λ n, bool_decide (value58 (char58 n) = Some n)) 58
    eq_refl n Hn) as E. by apply bool_decide_eq_true in E.
Qed.
Lemma char58_base58 n : 0 ≤ n < 58 → is_base58 (char58 n) = true.
Proof. by apply (check_range (λ n, is_base58 (char58 n))). Qed.

Lemma digits58_range count n : Forall (λ x, 0 ≤ x < 58) (digits58 count n).
Proof.
  revert n. induction count as [|count IH]; intros n; simpl; constructor; auto.
  apply Z.mod_pos_bound. lia.
Qed.
Lemma length_digits58 count n : length (digits58 count n) = count.
Proof. revert n. induction count; simpl; auto. Qed.

Lemma number58_digits count n : 0 ≤ n < 58 ^ Z.of_nat count → number58 (digits58 count n) = n.
Proof.
  revert n. induction count as [|count IH]; intros n; simpl digits58; simpl number58; [simpl; lia|].
  rewrite Nat2Z.inj_succ, Z.pow_succ_r by lia. intros Hn.
  rewrite IH; [pose proof (Z.div_mod n 58); lia|].
  split; [apply Z.div_pos; lia|apply Z.div_lt_upper_bound; lia].
Qed.

Lemma mapM_value58 l : Forall (λ x, 0 ≤ x < 58) l → mapM value58 (map char58 l) = Some l.
Proof. induction 1 as [|x l Hx _ IH]; [done|]. simpl. rewrite char58_value by done. simpl. by rewrite IH. Qed.

Lemma account_number a : account_wf a → 0 ≤ le_value 8 a < 2 ^ 256.
Proof.
  intros [Hb Hl]. pose proof (le_value_range 8 a ltac:(lia) Hb) as Hr.
  unfold zlen in Hr. rewrite Hl in Hr. exact Hr.
Qed.

Lemma demo_account_roundtrip a : account_wf a → demo_account_parse (demo_account_text a) = Some a.
Proof.
  intros Ha. pose proof (account_number a Ha) as Hr. destruct Ha as [Hb Hl].
  unfold demo_account_parse, demo_account_text.
  rewrite String.list_ascii_of_string_of_list_ascii, mapM_value58 by apply digits58_range.
  assert (2 ^ 256 < 58 ^ 44) by done. cbv [mbind option_bind].
  rewrite number58_digits by (change (Z.of_nat 44) with 44; lia).
  unfold zlen. rewrite length_digits58. change (Z.of_nat 44 =? 44) with true.
  rewrite (proj2 (Z.ltb_lt _ _)) by lia. simpl andb. cbv iota. f_equal.
  rewrite <- Hl. by apply le_digits_value.
Qed.

Lemma demo_account_parse_wf s a : demo_account_parse s = Some a → account_wf a.
Proof.
  unfold demo_account_parse. destruct (mapM value58 _) as [l|]; [|done]. cbv [mbind option_bind].
  destruct (_ && _); [|done]. intros E. rewrite <- (Some_inj _ _ E).
  split; [apply le_digits_wf; lia|apply length_le_digits].
Qed.

Lemma demo_account_base58 a :
  forallb is_base58 (String.list_ascii_of_string (demo_account_text a)) = true.
Proof.
  unfold demo_account_text. rewrite String.list_ascii_of_string_of_list_ascii.
  induction (digits58_range 44 (le_value 8 a)) as [|x l Hx _ IH]; [done|].
  cbn [map forallb]. by rewrite char58_base58.
Qed.

Lemma demo_account_length a : str_len (demo_account_text a) = 44.
Proof.
  rewrite <- zlen_as_bytes. unfold as_bytes, zlen, demo_account_text.
  by rewrite String.list_ascii_of_string_of_list_ascii, !length_map, length_digits58.
Qed.

#[export] Instance demo_account_laws : LeeAccountLaws.
Proof.
  constructor.
  - exact demo_account_roundtrip.
  - exact demo_account_parse_wf.
  - intros a _. exact (demo_account_base58 a).
  - intros a _. change (account_to_string a) with (demo_account_text a). rewrite demo_account_length. lia.
Qed.

(** ** The word serializer *)
Definition write (ws : list Z) : M Words () := λ out w, (Ok (), out ++ ws, w).

#[export] Instance demo_serializer : Serializer := {|
  serialize_bool b := write (wire (DBool b));
  serialize_i8 n := write (wire (DI8 n)); serialize_i16 n := write (wire (DI16 n));
  serialize_i32 n := write (wire (DI32 n)); serialize_i64 n := write (wire (DI64 n));
  serialize_i128 n := write (wire (DI128 n));
  serialize_u8 n := write (wire (DU8 n)); serialize_u16 n := write (wire (DU16 n));
  serialize_u32 n := write (wire (DU32 n)); serialize_u64 n := write (wire (DU64 n));
  serialize_u128 n := write (wire (DU128 n));
  serialize_str s := write (wire (DStr s));
  serialize_tuple _ := write []; tuple_end := write [];
  serialize_seq len := write [len]; seq_end := write [];
  serialize_none := write [0];
  serialize_some m := write [1] ;; m;
  serialize_tuple_variant index _ := write [index]; variant_end := write [];
|}.

#[export] Instance demo_risc0_laws : Risc0Laws.
Proof.
  constructor; try (intros; intros out w; done).
  intros m ws Hm out w. simpl. unfold mbind, M_bind, write. by rewrite Hm, <- app_assoc.
Qed.

Definition vec_u16 : Value := json_object [("vec", VString "u16")].
Definition vec_bytes : list Z := [2; 0; 0; 0; 1; 0; 255; 255].
Definition vec_value : Value := VArray [VString "1"; VString "65535"].

Lemma vec_bytes_wf : is_bytes (7 :: vec_bytes ++ [9]).
Proof. repeat (constructor; [by vm_compute|]). constructor. Qed.

Lemma borsh_decoder_refines_format_witness :
  type_format (depth_budget 0) VNull vec_u16 vec_value (slice (7 :: vec_bytes ++ [9]) 1 8).
Proof.
  assert (Hz : zlen (7 :: vec_bytes ++ [9]) ≤ i64_max) by (by vm_compute).
  assert (Ho : 0 ≤ 1 ≤ zlen (7 :: vec_bytes ++ [9])) by (by vm_compute).
  assert (E : decode_borsh_type vec_u16 (7 :: vec_bytes ++ [9]) 1 VNull 0 = Ok (mkDecoded vec_value 8))
    by (vm_compute; reflexivity).
  exact (proj2 (proj2 (proj1 (proj1 (borsh_decoder_refines_format (7 :: vec_bytes ++ [9]) 1 VNull 0
    vec_value 8 vec_bytes_wf Hz Ho) vec_u16) E))).
Defined.

Lemma vec_bytes_format : type_format (depth_budget 0) VNull vec_u16 vec_value vec_bytes.
Proof.
  assert (E : decode_type_at (depth_budget 0) (7 :: vec_bytes ++ [9]) VNull vec_u16 1
              = Ok (mkDecoded vec_value 8)) by (vm_compute; reflexivity).
  apply (proj1 (budget_reads _ vec_bytes_wf ltac:(by vm_compute) VNull (depth_budget 0))) in E
    as (_ & _ & E); [exact E|by vm_compute].
Qed.

Lemma borsh_encoding_unambiguous_witness :
  decode_borsh_type vec_u16 ([7] ++ vec_bytes ++ [9]) (zlen [7]) VNull 0
  = decode_borsh_type vec_u16 ([] ++ vec_bytes ++ []) (zlen (@nil Z)) VNull 0.
Proof.
  assert (Hb : is_bytes ([] ++ vec_bytes ++ [])) by (repeat (constructor; [by vm_compute|]); constructor).
  assert (Hz1 : zlen ([7] ++ vec_bytes ++ [9]) ≤ i64_max) by (by vm_compute).
  assert (Hz2 : zlen ([] ++ vec_bytes ++ []) ≤ i64_max) by (by vm_compute).
  exact (proj1 (borsh_encoding_unambiguous VNull vec_u16 0 vec_value vec_value [7] vec_bytes [9] []
    vec_bytes [] vec_bytes_wf Hz1 Hb Hz2 vec_bytes_format)).
Defined.

(** ** Identifiers *)
Definition capital_id : string :=
  " 0xABABABABABABABABABABABABABABABABABABABABABABABABABABABABABABABAB".
Definition canonical_id : string :=
  "abababababababababababababababababababababababababababababababab".

Lemma block_id_canonical_witness : normalize_block_id_text canonical_id = Ok canonical_id.
Proof.
  assert (E : normalize_block_id_text capital_id = Ok canonical_id) by (vm_compute; reflexivity).
  exact (proj1 (block_id_canonical capital_id canonical_id E)).
Defined.

Definition some_account : AccountId := 1 :: replicate 31 7.
Lemma some_account_wf : account_wf some_account.
Proof. split; [repeat (constructor; [by vm_compute|]); constructor|done]. Qed.

Lemma account_id_roundtrip_witness : parse_account_id (account_to_string some_account) = Ok some_account.
Proof. exact (proj1 (account_id_roundtrip some_account some_account_wf)). Defined.

(** ** Instruction arguments *)
Definition option_i64 : Value := json_object [("option", VString "i64")].
Definition parsed_i64 : ParsedValue := mkParsed "Some(-5)" (DSome (DI64 (-5))) None.

Lemma option_i64_displayed : displayed option_i64.
Proof. eapply DispOption; [reflexivity..|constructor]. Qed.


Lemma parsed_seed_is_32_bytes_witness :
  account_wf (zero_seed [] (reverse (le_digits 8 8 258))).
Proof.
  assert (Hp : parse_typed_value "258" (VString "u64")
    = Ok (mkParsed "258" (DU64 258) (Some (zero_seed [] (reverse (le_digits 8 8 258))))))
    by (vm_compute; reflexivity).
  exact (parsed_seed_is_32_bytes "258" (VString "u64") _ Hp _ eq_refl).
Defined.

(** ** Variants *)
Definition row (name : string) (index : Z) : Value :=
  json_object [("name", VString name); ("variant_index", json_u64 index)].
Definition demo_rows : list Value := [row "third" 2; row "first" 0; row "second" 1].
Definition demo_idl : Value :=
  json_object [("instruction_type", VString "external::Instruction"); ("instructions", VArray demo_rows)].

Lemma variant_map_bijective_witness :
  ∃ v, variant_index (mkVariantMap demo_rows [2; 0; 1]) 1 = Ok v ∧ 0 ≤ v < 3
    ∧ instruction_for_variant (mkVariantMap demo_rows [2; 0; 1]) v = Ok (row "first" 0).
Proof.
  assert (E : variant_map_from_idl demo_idl = Ok (mkVariantMap demo_rows [2; 0; 1]))
    by (vm_compute; reflexivity).
  exact (proj1 (variant_map_bijective demo_idl _ E) 1%nat (row "first" 0) eq_refl).
Defined.
