(* ===== verification/WalletWitnesses.v ===== *)
(** * Witnesses for reports and wallet instructions

    A concrete IDL, and requests and data for it, at which the hypotheses of the
    theorems of Reports and PreparationTheorems hold; and two requests that show
    where the plan and the preparation of an instruction disagree. *)

From S2P Require Import Prelude Json Bytes IdlTypes Borsh BorshSpec EntityIds InstructionCodec.
From S2P Require Import InstructionWire InstructionVariants Reports Preparation PreparationTheorems.
From S2P Require Import DecodeWitnesses.

Definition named (name : string) (fields : list (string * Value)) : Value :=
  json_object (("name", VString name) :: fields).
Definition typed (name ty : string) : Value := named name [("type", VString ty)].

(** Accounts [small] of one byte and [pair] of two; a derived account first in
    the instruction [move], then a plain one and a rest account. *)
Definition small_account : Value :=
  named "small" [("type", json_object [("kind", VString "struct"); ("fields", VArray [typed "a" "u8"])])].
Definition pair_account : Value :=
  named "pair" [("type", json_object [("kind", VString "struct");
                                      ("fields", VArray [typed "variant" "u8"; typed "b" "u8"])])].
Definition vault : Value :=
  named "vault" [("pda", json_object [("seeds", VArray [json_object [("kind", VString "account"); ("path", VString "owner")]])])].
Definition move_row : Value :=
  named "move" [("accounts", VArray [vault; named "owner" [("signer", VBool true)]; named "others" [("rest", VBool true)]]);
                ("args", VArray [typed "amount" "u64"; typed "note" "string"])].
Definition wallet_idl : Value :=
  named "wallet" [("accounts", VArray [small_account; pair_account]);
                  ("instructions", VArray [named "noop" []; move_row]);
                  ("x-logos-inspector-events", VBool true);
                  ("events", VArray [named "moved" [("fields", VArray [typed "a" "u8"; typed "b" "u16"])]])].

#[local] Instance wallet_serde : SerdeJson :=
  {| to_string := λ _, "value"; from_str := λ s, if String.eqb s "idl" then Some wallet_idl else None |}.

(** Digests and derived ids of 32 bytes. *)
#[local] Instance wallet_sha : Sha2Crate := {| sha256 := λ bytes, replicate 32 (le_value 8 bytes mod 256) |}.
#[local] Instance wallet_pda : PdaCrates := {| for_public_pda := λ _ seed, map (λ b, (b + 1) mod 256) seed |}.

Lemma byte_mod x : digit 8 (x mod 256).
Proof. unfold digit. change (2 ^ 8) with 256. apply Z.mod_pos_bound. lia. Qed.

#[local] Instance wallet_pda_laws : PdaLaws.
Proof.
  constructor.
  - intros bytes _. split; [|apply length_replicate]. apply Forall_replicate, byte_mod.
  - intros program_id seed _ _ [_ Hl]. split; [|by rewrite <- Hl; apply length_map].
    apply Forall_map, Forall_true. intros b. apply byte_mod.
Qed.

Definition clock : World := mkWorld (λ n, Z.of_nat n) (λ n, Z.of_nat n) 0.
Definition owner_text : string := "0xabababababababababababababababababababababababababababababababab".
Definition wallet_request : LocalWalletInstructionRequest :=
  mkInstructionRequest "idl" owner_text EmptyString [] "move"
    {[ "owner" := owner_text ]} {[ "amount" := "258"; "note" := " hi " ]}.

Definition prepared_move : PreparedInstruction :=
  Eval vm_compute in match prepare_instruction (λ _, false) wallet_request clock with
                     | Ok p => p
                     | Err _ => mkPreparedInstruction EmptyString [] EmptyString EmptyString false IPublic [] [] []
                     end.

Lemma prepared_move_eq : prepare_instruction (λ _, false) wallet_request clock = Ok prepared_move.
Proof. vm_compute. reflexivity. Qed.

Definition move_selection : InstructionSelection := mkSelection "move" 1 move_row.

Lemma move_selected : select_instruction wallet_idl "move" = Ok move_selection.
Proof. vm_compute. reflexivity. Qed.

Lemma move_args_shown : Forall shown_type (array_items (value_get "args" move_row)).
Proof.
  repeat constructor; match goal with H : value_get "type" _ = Some _ |- _ => vm_compute in H; injection H as <- end;
    by first [constructor | vm_compute].
Qed.

Lemma wallet_texts : valid_texts (ri_args wallet_request).
Proof. apply map_Forall_to_list. vm_compute. repeat constructor. Qed.


Lemma prepared_instruction_wf_witness :
  ∃ plain pdas, pi_accounts prepared_move = plain ++ pdas ∧ Forall plain_wf plain ∧ Forall pda_wf pdas.
Proof.
  exact (proj1 (proj2 (proj2 (prepared_instruction_wf (λ _, false) wallet_request clock prepared_move
    prepared_move_eq)))).
Defined.

(** ** Plans *)
Definition move_plan : LocalWalletInstructionPlanReport :=
  Eval vm_compute in match instruction_plan wallet_request with
                     | Ok p => p
                     | Err _ => mkPlanReport EmptyString [] [] [] false false false
                     end.

Lemma complete_plan_supplies_inputs_witness : supplied (ri_args wallet_request) "amount".
Proof.
  assert (Hp : instruction_plan wallet_request = Ok move_plan) by (vm_compute; reflexivity).
  assert (Hc : pr_inputs_complete move_plan = true) by (vm_compute; reflexivity).
  assert (Ha : typed "amount" "u64" ∈ array_items (value_get "args" move_row)) by (vm_compute; left).
  destruct (proj1 (complete_plan_supplies_inputs wallet_request move_plan wallet_idl move_selection
    Hp Hc eq_refl move_selected) (typed "amount" "u64") Ha) as (name & ty & Hn & _ & _ & Hs).
  vm_compute in Hn. injection Hn as <-. exact Hs.
Defined.

(** A private account as the second entry of a rest account: the plan calls the
    inputs complete, without a program binary, and the preparation refuses. *)
Definition private_rest_request : LocalWalletInstructionRequest :=
  mkInstructionRequest "idl" owner_text EmptyString [] "move"
    {[ "owner" := owner_text; "others" := owner_text +:+ ", Private/" +:+ owner_text ]}
    {[ "amount" := "258"; "note" := "hi" ]}.

Example private_rest_plan_disagrees :
  (pr_private_mode <$> instruction_plan private_rest_request) = Ok false
  ∧ (pr_inputs_complete <$> instruction_plan private_rest_request) = Ok true
  ∧ prepare_instruction (λ _, true) private_rest_request clock
    = bail "private IDL instruction requires a program binary".
Proof. vm_compute. by split_and!. Qed.

(** The derived account is declared first and submitted last, while the decoder
    names accounts by their declared position. *)
Example derived_account_submitted_last :
  map pa_name (pi_accounts prepared_move) = ["owner"; "vault"]
  ∧ df_path <$> instruction_accounts move_row (map pa_name (pi_accounts prepared_move))
    = ["vault"; "owner"; "others"]
  ∧ df_value <$> instruction_accounts move_row (map pa_name (pi_accounts prepared_move))
    = ["owner"; "vault"; "-"].
Proof. vm_compute. by split_and!. Qed.

(** ** Reports *)
Definition pair_report : AccountIdlDecodeReport :=
  Eval vm_compute in match decode_account_data_hex_with_idl "idl" (Some " ") "070900" None with
                     | Ok r => r
                     | Err _ => mkAccountReport None EmptyString 0 0 0 None VNull []
                     end.

Lemma unselected_account_is_best_witness :
  ar_account_type pair_report = "pair"
  ∧ ar_consumed_bytes pair_report + ar_remaining_bytes pair_report = ar_total_bytes pair_report.
Proof.
  split; [reflexivity|].
  assert (Hb : parse_hex_bytes "070900" = Ok [7; 9; 0]) by (vm_compute; reflexivity).
  assert (Ha : value_get "accounts" wallet_idl ≫= as_array = Some [small_account; pair_account])
    by (vm_compute; reflexivity).
  assert (Hs : selected_name (Some " ") = None) by (vm_compute; reflexivity).
  assert (Hz : zlen [7; 9; 0] ≤ i64_max) by (by vm_compute).
  assert (E : decode_account_data_hex_with_idl "idl" (Some " ") "070900" None = Ok pair_report)
    by (vm_compute; reflexivity).
  pose proof (unselected_account_is_best "idl" (Some " ") "070900" None wallet_idl [7; 9; 0]
    [small_account; pair_account] eq_refl Hb Ha Hs Hz) as Hbest.
  rewrite E in Hbest. exact (proj2 Hbest).
Defined.

(** A struct with a field called [variant] is taken for an enum: its other
    fields are in the decoded value and in no row. *)
Example variant_field_hides_the_others :
  ar_decoded pair_report = json_object [("variant", VString "7"); ("b", VString "9")]
  ∧ ar_rows pair_report = [mkField "variant" "7"; mkField "remaining_data_hex" "00"].
Proof. vm_compute. by split. Qed.

Definition moved_report : EventIdlDecodeReport :=
  Eval vm_compute in match decode_event_data_with_idl "idl" None [1; 2; 0] with
                     | Ok r => r
                     | Err _ => mkEventReport EmptyString 0 0 VNull []
                     end.

Lemma event_data_decoded_exactly_witness : er_consumed_bytes moved_report = 3.
Proof.
  assert (Hb : is_bytes [1; 2; 0]) by (repeat (constructor; [by vm_compute|]); constructor).
  assert (Hz : zlen [1; 2; 0] ≤ i64_max) by (by vm_compute).
  assert (E : decode_event_data_with_idl "idl" None [1; 2; 0] = Ok moved_report) by (vm_compute; reflexivity).
  destruct (event_data_decoded_exactly "idl" None [1; 2; 0] moved_report Hb Hz E)
    as (_ & _ & _ & _ & _ & _ & _ & _ & _ & Hc & _). exact Hc.
Defined.
