(* ===== verification/CatalogWitnesses.v ===== *)
(** * Witnesses for the zone catalog

    A run of the catalog from its creation: a catch-up to a target, a page with
    two blocks of one channel, and a repair. *)

From S2P Require Import Prelude Json Bytes SortedRecords CatalogModel ChannelOps CatalogEngine CatalogStore.
From S2P Require Import CatalogValidity CatalogCommit CatalogRepair CatalogPages CatalogTallies ZoneClassification.
From S2P Require Import DecodeWitnesses.

#[local] Instance catalog_serde : SerdeJson := {| to_string := λ _, "value"; from_str := λ _, None |}.
#[local] Instance catalog_sha : Sha2Crate := {| sha256 := λ bytes, replicate 32 (le_value 8 bytes mod 256) |}.
(** No inscription is a Sequencer block here. *)
#[local] Instance catalog_blocks : SequencerBlocks :=
  {| sequencer_block := (); sequencer_block_from_slice := λ _, None; hashable_bytes := λ _, None; header_hash := λ _, [] |}.

Definition hex_id (tail : string) : string := "00000000000000000000000000000000000000000000000000000000000000" +:+ tail.
Definition id_a := hex_id "0a".
Definition id_b := hex_id "0b".
Definition id_c := hex_id "0c".
Definition channel := hex_id "cc".

Definition transaction (hash : string) (op : Value) : Value :=
  json_object [("mantle_tx", json_object [("hash", VString hash); ("ops", VArray [op])])].
Definition payload (transactions : list Value) : Value := json_object [("transactions", VArray transactions)].
Definition inscribe : Value :=
  json_object [("opcode", VNumber (PosInt 17));
    ("payload", json_object [("channel_id", VString channel); ("parent", VString (hex_id "00")); ("signer", VString "key");
                             ("inscription", VArray [VNumber (PosInt 7)])])].
Definition deposit : Value :=
  json_object [("opcode", VString "0x12"); ("payload", json_object [("channel_id", VString channel)])].

Definition block_a := mkBlock (mkCheckpoint 0 id_a (hex_id "00")) (payload [transaction (hex_id "e0") inscribe]).
Definition block_b := mkBlock (mkCheckpoint 3 id_b id_a) (payload [transaction (hex_id "e1") deposit]).
Definition block_c := mkBlock (mkCheckpoint 5 id_c id_b) (payload []).
Definition target_c := mkReference 5 id_c.
Definition chain : CatalogL1ChainSnapshot := mkChainSnapshot target_c target_c.
Definition event (block : CatalogL1Block) : CatalogL1BlockEvent := mkEvent block chain.
Definition engine_context : CatalogEngineContext := mkContext 1 100 8.

Definition created : CatalogMetadata :=
  Eval vm_compute in match metadata_new (replicate 16 0) (GenesisId id_a) 90 with
                     | ROk m => m | RErr _ => mkMetadata EmptyString (GenesisId EmptyString) [] Provisional None 0 0 0 end.
Definition empty_snapshot : CatalogSnapshot := mkSnapshot created None None [] [] [] [].

Definition or_snapshot (r : CatalogResult CatalogSnapshot) : CatalogSnapshot :=
  match r with ROk s => s | RErr _ => empty_snapshot end.
Definition no_batch : CatalogBatch := mkBatch 0 0 [] [] [] [] [] [] [] [] None None.

Definition catch_up_batch : CatalogBatch :=
  Eval vm_compute in match prepare_catalog_catch_up empty_snapshot target_c engine_context with
                     | ROk (Some b) => b | _ => no_batch end.
Definition caught_up : CatalogSnapshot :=
  Eval vm_compute in or_snapshot (commit_batch_from_snapshot created empty_snapshot catch_up_batch).

(** A page that lacks block b: only its first event is accepted. *)
Definition page : list CatalogL1BlockEvent := [event block_a; event block_c].
Definition page_batch : CatalogBatch :=
  Eval vm_compute in match reduce_catalog_page caught_up page engine_context with ROk (Commit b _) => b | _ => no_batch end.
Definition scanned : CatalogSnapshot :=
  Eval vm_compute in or_snapshot (commit_batch_from_snapshot (sn_metadata caught_up) caught_up page_batch).

(** The rest of the page asks for a repair, and the source serves block b. *)
Definition repair_source : CatalogL1Source := λ id,
  if String.eqb id id_b then ROk (Some block_b) else ROk None.
Definition request : CatalogAncestryRepairRequest :=
  mkRepairRequest (Some (mkReference 0 id_a)) (bl_checkpoint block_c) (Some id_a) 8.

Example page_asks_for_repair :
  reduce_catalog_page scanned [event block_c] engine_context = ROk (RepairRequired request [event block_c]).
Proof. vm_compute. reflexivity. Qed.

Definition repair_batch : CatalogBatch :=
  Eval vm_compute in match reduce_catalog_repair scanned request [event block_c] (Connected [block_b]) engine_context with
                     | ROk (Commit b _) => b | _ => no_batch end.
Definition repaired : CatalogSnapshot :=
  Eval vm_compute in or_snapshot (commit_batch_from_snapshot (sn_metadata scanned) scanned repair_batch).

Ltac concrete_sorted := split; repeat constructor.

Lemma scanned_sorted : sorted_snapshot scanned.
Proof. concrete_sorted. Qed.
Lemma caught_up_sorted : sorted_snapshot caught_up.
Proof. concrete_sorted. Qed.

Lemma incremental_validation_is_full_witness :
  validate_snapshot scanned = ROk () ∧ validate_batch repair_batch = ROk ()
  ∧ apply_batch_validating_in_full scanned (sn_metadata repaired) repair_batch = ROk repaired.
Proof.
  split; [vm_compute; reflexivity|]. split; [vm_compute; reflexivity|].
  apply (incremental_validation_is_full scanned (sn_metadata repaired) repair_batch repaired scanned_sorted);
    vm_compute; reflexivity.
Defined.

Lemma commit_keeps_catalog_valid_witness :
  commit_batch_from_snapshot (sn_metadata scanned) scanned repair_batch = ROk repaired
  ∧ sorted_snapshot repaired ∧ validate_snapshot repaired = ROk ()
  ∧ md_catalog_revision (sn_metadata repaired) = 3 ∧ 100 ≤ md_updated_at_unix (sn_metadata repaired).
Proof.
  split; [vm_compute; reflexivity|].
  apply (commit_keeps_catalog_valid (sn_metadata scanned) scanned repair_batch repaired scanned_sorted);
    vm_compute; reflexivity.
Defined.

Lemma repair_ends_with_accepted_outcome_witness :
  ∃ result, repair_catalog_ancestry repair_source request = Some result
    ∧ match result with
      | ROk outcome => outcome_ok repair_source request outcome
          ∧ (accepted_outcome request outcome ∨ circular request (outcome_blocks outcome))
      | RErr error => faulty_answer repair_source request error
      end.
Proof.
  apply (repair_ends_with_accepted_outcome repair_source request);
    [vm_compute; discriminate|vm_compute; reflexivity].
Defined.

Lemma repair_finds_served_ancestry_witness :
  repair_catalog_ancestry repair_source request = Some (ROk (Connected [block_b])).
Proof.
  apply (repair_finds_served_ancestry repair_source request [block_b]);
    [vm_compute; reflexivity|vm_compute; discriminate|].
  intros b Hb. apply list_elem_of_singleton in Hb. subst b. vm_compute. reflexivity.
Defined.

Lemma batch_carries_working_catalog_witness :
  ∃ batch, into_batch (from_snapshot repaired) scanned engine_context = Some batch
    ∧ next_snapshot_is scanned (sn_metadata repaired) batch repaired.
Proof.
  destruct (batch_carries_working_catalog (from_snapshot repaired) scanned engine_context (sn_metadata repaired)
    scanned_sorted (from_snapshot_keyed repaired)) as [_ Hb].
  destruct (into_batch (from_snapshot repaired) scanned engine_context) as [batch|] eqn:E;
    [|vm_compute in E; discriminate E].
  exists batch. split; [reflexivity|]. destruct Hb as [Hb _].
  replace repaired with (snapshot_of (sn_metadata repaired) (from_snapshot repaired)) at 2 by (vm_compute; reflexivity).
  exact Hb.
Defined.

Lemma page_commit_advances_cursor_witness :
  ∃ accepted first newest target segment,
    page = accepted ++ [event block_c] ∧ head accepted = Some first ∧ last accepted = Some newest
    ∧ continues caught_up first ∧ linked_from None (map be_block accepted)
    ∧ current_target caught_up = ROk target ∧ ev_slot newest ≤ br_slot target
    ∧ (let reached := block_reference (ev_checkpoint newest) in
       cb_traversal page_batch = Some (mkTraversal (Some target) (Some reached))
       ∧ extended_segment caught_up first segment
       ∧ segment <| sg_frontier := reached |> <| sg_reaches_target_lib := bool_decide (reached = target) |>
         ∈ cb_upsert_segments page_batch).
Proof.
  apply (page_commit_advances_cursor caught_up page engine_context page_batch [event block_c] caught_up_sorted).
  vm_compute. reflexivity.
Defined.

Definition ingested : WorkingCatalog :=
  match ingest_blocks (from_snapshot caught_up) [block_a; block_b] "segment" engine_context with
  | ROk working => working
  | RErr _ => from_snapshot caught_up
  end.

Lemma ingest_keeps_tallies_witness :
  tallies_ok ingested ∅ ∧ zr_evidence_count <$> wk_zones ingested !! channel = Some 3.
Proof.
  split; [|vm_compute; reflexivity].
  apply (ingest_keeps_tallies (from_snapshot caught_up) [block_a; block_b] "segment" engine_context).
  - split; [apply records_by_key_keyed|apply records_by_key_keyed| |].
    + intros id e He. vm_compute in He. discriminate He.
    + intros c zone _ Hz. vm_compute in Hz. discriminate Hz.
  - vm_compute. reflexivity.
Defined.

Definition seen_zone : ZoneCatalogRecord :=
  Eval vm_compute in match sn_zones repaired with
                     | zone :: _ => zone
                     | [] => new_zone (mkObservation EmptyString EmptyString 0 OOperation) block_a EmptyString 0
                               (evidence_reference (mkObservation EmptyString EmptyString 0 OOperation) block_a EmptyString
                                  ChannelOperation UsePresence) engine_context
                     end.

Lemma repaired_sorted : sorted_snapshot repaired.
Proof. concrete_sorted. Qed.

Lemma seen_zone_tally : tally seen_zone (zone_evidence repaired seen_zone).
Proof.
  assert (E : zone_evidence repaired seen_zone = sn_evidence repaired) by (vm_compute; reflexivity). rewrite E.
  destruct (sn_evidence repaired !! 2%nat) as [latest|] eqn:El; [|vm_compute in El; discriminate El].
  vm_compute in El. injection El as <-. split; [vm_compute; reflexivity..| | | |].
  - eexists. split; [split; [by do 2 right; left|]|].
    { intros r [->|[->|[->|?%elem_of_nil]%elem_of_cons]%elem_of_cons]%elem_of_cons; [vm_compute; discriminate..|done]. }
    split; [vm_compute; reflexivity|]. split; [vm_compute; reflexivity|].
    match goal with |- context [seen_slots ?l ?r] => let v := eval vm_compute in (seen_slots l r) in
      change (seen_slots l r) with v end.
    split; (split; [vm_compute; set_solver|]); intros s Hs; vm_compute; set_solver by lia.
  - vm_compute; reflexivity.
  - split; vm_compute; reflexivity.
  - intros H. vm_compute in H. vm_compute. intros H'. vm_compute in H'. done.
Qed.

Lemma zone_kind_justified_witness :
  cl_kind (classify_catalog_zone repaired seen_zone false) = SequencerZone
  ∧ zc_conflicting_evidence (zr_classification seen_zone) ≠ true
  ∧ (has_kind repaired seen_zone SequencerBlock ∨ false = true ∨ committee_supported repaired seen_zone).
Proof.
  assert (Hk : cl_kind (classify_catalog_zone repaired seen_zone false) = SequencerZone) by (vm_compute; reflexivity).
  split; [exact Hk|].
  pose proof (zone_kind_justified repaired seen_zone false repaired_sorted ltac:(vm_compute; reflexivity) seen_zone_tally)
    as [Hj _]. exact (proj1 Hj Hk).
Defined.
