(* ===== verification/SupervisorWitnesses.v ===== *)
(** * A supervised upload, end to end

    Concrete runs of the supervised system (an upload is prepared, recorded,
    admitted, launched, cancelled and joined; a shutdown overtakes an
    admission), and the theorems on supervision at them. *)

From S2P Require Import Prelude Json ModuleEvents OperationRecord Transition OperationViews OperationControl.
From S2P Require Import ControlTheorems RecordInvariants Registry Supervisor RegistryInvariant RegistrySweep.
From S2P Require Import RegistryMethods RegistryIngest RegistryTheorems StatusRanks SupervisorSystem.
From S2P Require Import SupervisorInvariant SupervisorReducer SupervisorTheorems Witnesses.
From S2P Require Import SupervisedExecution.

#[export] Instance demo_supervised : SupervisedRequest DemoRequest := {|
  sreq_deadline _ := 600000000000;
  sreq_disposable_file _ id := Ok (Some ("/tmp/" +:+ id));
  sreq_termination_handshake_grace _ := Ok None;
|}.

Abbreviation Sys := (System (Request := DemoRequest)).
Definition no_file (path : string) : RemoveResult := RemoveNotFound.

(** ** Steps of a run *)
Definition reachable (y : Sys) : Prop := rtc system_step system_new y.

Lemma reachable_step y y' : reachable y → system_step y y' → reachable y'.
Proof. intros Hr Hs. eapply rtc_r; done. Qed.

(** A step that moves an operation to a new place. *)
Definition move_up {A} (m : M (Supervisor DemoRequest) A) (p : Place DemoRequest) (y : Sys) : Sys :=
  moved "up-1" (Some (0%nat, p)) (exec m (sy_sup y)) y.
Definition with_sup (s : Supervisor DemoRequest) (y : Sys) : Sys := y <| sy_sup := s |>.
Definition with_registry (g : RuntimeOperationRegistry DemoRequest) (y : Sys) : Sys :=
  y <| sy_sup ::= λ s, s <| sv_registry := g |> |>.

Definition admitting_up (st : AdmitStage) : Place DemoRequest := Admitting st [0%nat] upload.
Definition up_admission : OperationAdmission := mkAdmission "up-1" 0%nat [0%nat].
Definition insert_up : M (Supervisor DemoRequest) () := or_release (admit_insert up_admission).
Definition synchronize_up : M (Supervisor DemoRequest) () :=
  or_release (or_remove_control "up-1" (synchronize_admitted_control "up-1")).
Definition sender_up : M (Supervisor DemoRequest) () := or_release (or_remove_control "up-1" controller_sender).
Definition send_up : M (Supervisor DemoRequest) () := or_release (admit_send up_admission upload).

Lemma reach_prepare y :
  reachable y → sy_ledger y !! "up-1" = None → outcome (prepare "up-1" upload) (sy_sup y) = Ok up_admission →
  reachable (move_up (prepare "up-1" upload) (admitting_up StagePrepared) y <| sy_owner ::= λ l, l ++ ["up-1"] |>).
Proof.
  intros Hr Hl E. eapply reachable_step; [done|].
  exact (step_prepare "up-1" upload world0 up_admission _ _ y Hl (exec_ok _ _ _ E)).
Qed.

Lemma reach_record y :
  reachable y → sy_ledger y !! "up-1" = Some (0%nat, admitting_up StagePrepared) →
  sy_applied y ∪ sy_signalled y ∪ sy_settled y = ∅ →
  reachable (with_registry (exec (insert_record (record_of "up-1" upload)) (sv_registry (sy_sup y))) y).
Proof.
  intros Hr Hl Hno. eapply reachable_step; [done|].
  eapply (step_insert_record "up-1" upload 1000 (record_of "up-1" upload) world0); [| |done|apply exec_run].
  - intros e He. injection (eq_trans (eq_sym He) Hl) as ->. reflexivity.
  - rewrite Hno. apply not_elem_of_empty.
Qed.

Lemma reach_insert y :
  reachable y → sy_ledger y !! "up-1" = Some (0%nat, admitting_up StagePrepared) →
  outcome insert_up (sy_sup y) = Ok () → reachable (move_up insert_up (admitting_up StageInserted) y).
Proof.
  intros Hr Hl E. eapply reachable_step; [done|].
  exact (step_admit_insert "up-1" 0%nat [0%nat] upload world0 (Ok ()) _ _ y Hl (exec_ok _ _ _ E)).
Qed.

Lemma reach_synchronize y :
  reachable y → sy_ledger y !! "up-1" = Some (0%nat, admitting_up StageInserted) →
  outcome synchronize_up (sy_sup y) = Ok () →
  is_canceling (sv_registry (exec synchronize_up (sy_sup y))) "up-1" = false →
  reachable (move_up synchronize_up (admitting_up StageSynchronized) y).
Proof.
  intros Hr Hl E Hc. eapply reachable_step; [done|].
  pose proof (step_admit_synchronize "up-1" 0%nat [0%nat] upload world0 (Ok ()) _ _ y Hl (exec_ok _ _ _ E)) as Hs.
  rewrite Hc in Hs. exact Hs.
Qed.

Lemma reach_sender y :
  reachable y → sy_ledger y !! "up-1" = Some (0%nat, admitting_up StageSynchronized) →
  outcome sender_up (sy_sup y) = Ok () → reachable (move_up sender_up (admitting_up StageSending) y).
Proof.
  intros Hr Hl E. eapply reachable_step; [done|].
  exact (step_admit_sender "up-1" 0%nat [0%nat] upload world0 (Ok ()) _ _ y Hl (exec_ok _ _ _ E)).
Qed.

Lemma reach_send y :
  reachable y → sy_ledger y !! "up-1" = Some (0%nat, admitting_up StageSending) →
  outcome send_up (sy_sup y) = Ok () → reachable (move_up send_up Queued y).
Proof.
  intros Hr Hl E. eapply reachable_step; [done|].
  exact (step_admit_send "up-1" 0%nat [0%nat] upload world0 (Ok ()) _ _ y Hl (exec_ok _ _ _ E)).
Qed.

Lemma reach_command y :
  reachable y → reducer_idle y = true →
  sv_shutting_down (sy_sup y) = false → sv_commands (sy_sup y) = [(up_admission, upload)] →
  sv_next_task (sy_sup y) = 0%nat →
  outcome arm_command (sy_sup y) = Ok () → reachable (move_up arm_command (Supervised 0%nat) y).
Proof.
  intros Hr Hi Hs Hq Hn E. eapply reachable_step; [done|].
  pose proof (step_command "up-1" 0%nat up_admission upload [] world0 _ _ y Hi Hs Hq eq_refl eq_refl (exec_ok _ _ _ E)) as Ht.
  rewrite Hn in Ht. exact Ht.
Qed.

Lemma reach_cancel_registry y :
  reachable y → outcome (transition "up-1" CancelRequested) (sv_registry (sy_sup y)) = Ok Applied →
  reachable (with_registry (exec (transition "up-1" CancelRequested) (sv_registry (sy_sup y))) y
               <| sy_applied ::= λ a, {["up-1"]} ∪ a |>).
Proof.
  intros Hr E. eapply reachable_step; [done|].
  exact (step_cancel_registry "up-1" world0 (Ok Applied) _ _ y (exec_ok _ _ _ E)).
Qed.

Lemma reach_cancel_control y :
  reachable y → "up-1" ∈ sy_applied y →
  reachable (with_sup (exec (cancel "up-1") (sy_sup y)) y
               <| sy_acknowledged ::= λ a, {["up-1"]} ∪ a |> <| sy_signalled ::= λ a, {["up-1"]} ∪ a |>).
Proof.
  intros Hr Ha. eapply reachable_step; [done|].
  exact (step_cancel_control "up-1" world0 _ _ _ y Ha (exec_run _ _)).
Qed.

Lemma reach_close y :
  reachable y → reachable (with_sup (exec begin_close_phase (sy_sup y)) y).
Proof.
  intros Hr. eapply reachable_step; [done|]. exact (step_close_phase world0 _ _ _ y (exec_run _ _)).
Qed.

Lemma reach_root y :
  reachable y → sv_phase (sy_sup y) = PhaseClosing →
  reachable (y <| sy_sup ::= λ s, s <| sv_root := true |> |>).
Proof. intros Hr Hp. eapply reachable_step; [done|]. apply step_close_root. by rewrite Hp. Qed.

Lemma reach_arm_root y :
  reachable y → reducer_idle y = true → sv_root (sy_sup y) = true → outcome arm_root (sy_sup y) = Ok () →
  reachable (with_sup (exec arm_root (sy_sup y)) y).
Proof.
  intros Hr Hi Hroot E. eapply reachable_step; [done|].
  exact (step_root world0 _ _ y Hi Hroot (exec_ok _ _ _ E)).
Qed.

(** ** The upload *)
Definition y_new : Sys := system_new.
Definition y_prepared : Sys :=
  move_up (prepare "up-1" upload) (admitting_up StagePrepared) y_new <| sy_owner ::= λ l, l ++ ["up-1"] |>.
Definition y_recorded : Sys :=
  with_registry (exec (insert_record (record_of "up-1" upload)) (sv_registry (sy_sup y_prepared))) y_prepared.
Definition y_inserted : Sys := move_up insert_up (admitting_up StageInserted) y_recorded.
Definition y_synchronized : Sys := move_up synchronize_up (admitting_up StageSynchronized) y_inserted.
Definition y_sending : Sys := move_up sender_up (admitting_up StageSending) y_synchronized.
Definition y_queued : Sys := move_up send_up Queued y_sending.
Definition y_running : Sys := move_up arm_command (Supervised 0%nat) y_queued.
Definition y_cancelling : Sys :=
  with_registry (exec (transition "up-1" CancelRequested) (sv_registry (sy_sup y_running))) y_running
  <| sy_applied ::= λ a, {["up-1"]} ∪ a |>.
Definition y_cancelled : Sys :=
  with_sup (exec (cancel "up-1") (sy_sup y_cancelling)) y_cancelling
  <| sy_acknowledged ::= λ a, {["up-1"]} ∪ a |> <| sy_signalled ::= λ a, {["up-1"]} ∪ a |>.

Ltac evaluate := vm_compute; reflexivity.

Lemma y_prepared_reachable : reachable y_prepared.
Proof. apply reach_prepare; [apply rtc_refl | evaluate | evaluate]. Qed.
Lemma y_recorded_reachable : reachable y_recorded.
Proof. apply reach_record; [apply y_prepared_reachable | evaluate | evaluate]. Qed.
Lemma y_inserted_reachable : reachable y_inserted.
Proof. apply reach_insert; [apply y_recorded_reachable | evaluate | evaluate]. Qed.
Lemma y_synchronized_reachable : reachable y_synchronized.
Proof. apply reach_synchronize; [apply y_inserted_reachable | evaluate | evaluate | evaluate]. Qed.
Lemma y_sending_reachable : reachable y_sending.
Proof. apply reach_sender; [apply y_synchronized_reachable | evaluate | evaluate]. Qed.
Lemma y_queued_reachable : reachable y_queued.
Proof. apply reach_send; [apply y_sending_reachable | evaluate | evaluate]. Qed.
Lemma y_running_reachable : reachable y_running.
Proof. apply reach_command; [apply y_queued_reachable | evaluate..]. Qed.
Lemma y_cancelling_reachable : reachable y_cancelling.
Proof. apply reach_cancel_registry; [apply y_running_reachable | evaluate]. Qed.
Lemma y_cancelled_reachable : reachable y_cancelled.
Proof.
  apply reach_cancel_control; [apply y_cancelling_reachable|].
  evaluate.
Qed.

Example supervised_run :
  (op_status ∘ rec_operation <$> rg_records (sv_registry (sy_sup y_recorded)) !! "up-1") = Some StRunning
  ∧ sv_permits (sy_sup y_queued) = 63 ∧ zlen (sv_commands (sy_sup y_queued)) = 1
  ∧ sv_live_tasks (sy_sup y_running) !! "up-1" = Some 0%nat
  ∧ (stop_reason <$> sv_heap (sy_sup y_cancelled) !! 0%nat) = Some (Some StopCancelRequested).
Proof. vm_compute. done. Qed.

(** ** A shutdown overtakes an admission

    The thread that admits the upload has registered its control and has not
    sent its command yet when the supervisor is closed. *)
Definition y_closing : Sys := with_sup (exec begin_close_phase (sy_sup y_sending)) y_sending.
Definition y_root : Sys := y_closing <| sy_sup ::= λ s, s <| sv_root := true |> |>.
Definition y_shutting_down : Sys := with_sup (exec arm_root (sy_sup y_root)) y_root.

Lemma y_closing_reachable : reachable y_closing.
Proof. apply reach_close, y_sending_reachable. Qed.
Lemma y_root_reachable : reachable y_root.
Proof. apply reach_root; [apply y_closing_reachable | evaluate]. Qed.
Lemma y_shutting_down_reachable : reachable y_shutting_down.
Proof. apply reach_arm_root; [apply y_root_reachable | evaluate..]. Qed.

(** ** Controls *)
Definition demo_control : OperationControl := control_new 100 None 10.
Definition quiet : StepEnv := mkEnv 0 false false.

(** A cancellation and an execution that starts race: the exchange of the stop
    reason, then the clock and the token of [begin_execution], then the rest of
    the cancellation, then the rest of [begin_execution]. *)
Definition race_schedule : list (nat * StepEnv) :=
  (λ i, (i, quiet)) <$> [0; 1; 1; 0; 0; 1; 1]%nat.
Definition race_start : Config := (demo_control, [CallCancel; CallBegin]).
Definition race_end : Config := default race_start (run_schedule race_schedule race_start).

Lemma run_schedule_rtc schedule s s' : run_schedule schedule s = Some s' → rtc control_step s s'.
Proof.
  revert s. induction schedule as [|[i e] schedule IH]; intros s; simpl; [by intros [= ->]|].
  destruct (step_config i e s) as [s1|] eqn:E; [|done]. simpl. intros Hr.
  eapply rtc_l; [by exists i, e | by apply IH].
Qed.

Lemma race_initial : initial_config race_start.
Proof. split; [by exists 100, None, 10|]. by repeat constructor. Qed.
Lemma race_run : rtc control_step race_start race_end.
Proof. apply (run_schedule_rtc race_schedule). vm_compute. reflexivity. Qed.

Lemma execution_starts_once_or_never_witness :
  race_end.2 = [Returned ReturnedUnit; Returned (ReturnedNotStarted StopCancelRequested)]
  ∧ Returned ReturnedStarted ∉ race_end.2.
Proof.
  assert (E : race_end.2 !! 1%nat = Some (Returned (ReturnedNotStarted StopCancelRequested)))
    by (vm_compute; reflexivity).
  split; [vm_compute; reflexivity|].
  exact (proj1 (proj2 (execution_starts_once_or_never race_start race_end race_end race_initial race_run
    (rtc_refl _ _))) 1%nat StopCancelRequested E).
Defined.

Lemma calls_return_in_bounded_steps_witness :
  run_schedule race_schedule race_start = Some race_end ∧ (length race_schedule ≤ 9 * 2 + 0)%nat.
Proof.
  assert (E : run_schedule race_schedule race_start = Some race_end) by (vm_compute; reflexivity).
  split; [exact E|].
  exact (proj1 (calls_return_in_bounded_steps race_schedule race_start race_end race_initial E)).
Defined.

(** ** Executions *)
Definition silent (now : Instant) (c : OperationControl) : Observation () := mkObservation now false c None.
Definition stopped_polls : list (Observation ()) :=
  [silent 0 demo_control; silent 50 (request_cancel demo_control); silent 55 (request_cancel demo_control);
   silent 60 (request_cancel demo_control)].

Lemma execution_cut_off_only_after_grace_witness :
  polls stopped_polls Racing = Ended (inr (local_only_interruption StopCancelRequested))
  ∧ ∃ before o after reason until, stopped_polls = before ++ o :: after
    ∧ began_handshake before reason until
    ∧ local_only_interruption StopCancelRequested = local_only_interruption reason
    ∧ until ≤ ob_now o ∧ ob_ready o = None ∧ oc_commit_active (ob_control o) = false.
Proof.
  assert (E : polls stopped_polls Racing = Ended (inr (local_only_interruption StopCancelRequested)))
    by (vm_compute; reflexivity).
  split; [exact E|]. exact (execution_cut_off_only_after_grace stopped_polls _ E).
Defined.

Lemma stopped_execution_returns_witness : ended (polls stopped_polls Racing) = true.
Proof.
  refine (stopped_execution_returns 10 [silent 0 demo_control] (silent 50 (request_cancel demo_control))
    [silent 55 (request_cancel demo_control); silent 60 (request_cancel demo_control)]
    (silent 60 (request_cancel demo_control)) _ _ _ _ _).
  - repeat constructor.
  - repeat constructor; vm_compute; discriminate.
  - reflexivity.
  - right. left.
  - vm_compute. discriminate.
Defined.

(** ** The supervised system *)
Lemma bookkeeping_never_fails_witness :
  sv_commands (sy_sup y_queued) ≠ [] ∧ outcome arm_command (sy_sup y_queued) = Ok ().
Proof.
  assert (Hne : sv_commands (sy_sup y_queued) ≠ []) by (vm_compute; discriminate).
  split; [exact Hne|].
  exact (proj1 (proj2 (proj2 (bookkeeping_never_fails y_queued y_queued_reachable)))
    world0 _ _ _ Hne (exec_run arm_command (sy_sup y_queued))).
Defined.

Definition up_task : SupervisedTask DemoRequest := ExecutionTask "up-1" 0%nat upload.
Definition up_descriptor : TaskDescriptor :=
  mkDescriptor "up-1" 0%nat [0%nat] KindExecution WaitOperationDeadline None.
Definition up_joined : JoinedTask :=
  JoinedExit 0%nat (ExitExecution "up-1"
    (TaskInterrupted (interrupted_confirmed StopCancelRequested "upload canceled"))).

Example joined_run :
  outcome (arm_joined no_file up_joined) (sy_sup y_cancelled) = Ok ()
  ∧ (op_status ∘ rec_operation <$>
       rg_records (sv_registry (exec (arm_joined no_file up_joined) (sy_sup y_cancelled))) !! "up-1")
    = Some StCanceled
  ∧ sv_permits (exec (arm_joined no_file up_joined) (sy_sup y_cancelled)) = 64.
Proof. vm_compute. done. Qed.

(** The reducer joins the upload, whose cancellation is unconfirmed, and works
    on it step by step.  It has seen that the record waits for the completion
    when the record is settled from outside; it starts the wait all the same. *)
Definition stopped_locally : OperationTaskExit :=
  ExitExecution "up-1" (TaskInterrupted (local_only_interruption StopCancelRequested)).
Definition up_stopped : JoinedTask := JoinedExit 0%nat stopped_locally.
Definition waiting_descriptor : TaskDescriptor :=
  up_descriptor <| td_cleanup_uncertainty := Some (oi_message (local_only_interruption StopCancelRequested)) |>.
Definition up_unconfirmed : RuntimeOperationTransition :=
  CancellationUnconfirmed (oi_message (local_only_interruption StopCancelRequested)).

Definition in_up (h : Hand DemoRequest) (s : Supervisor DemoRequest) (y : Sys) : Sys :=
  moved "up-1" (Some (0%nat, InHand h)) s y.
Definition leave_task (y : Sys) : Supervisor DemoRequest :=
  exec (unregister_operation_task "up-1" 0%nat)
    ((sy_sup y) <| sv_tasks ::= delete 0%nat |> <| sv_descriptors ::= delete 0%nat |>).
Definition stop_workers (y : Sys) : Supervisor DemoRequest :=
  exec (on_control 0%nat (λ c, c <| oc_blocking_work ::= stop_accepting |>)) (sy_sup y).
Definition tell_registry (t : RuntimeOperationTransition) (y : Sys) : Supervisor DemoRequest :=
  exec (on_registry (transition "up-1" t)) (sy_sup y).
Definition start_wait : M (Supervisor DemoRequest) () :=
  task_id ← spawn_operation_task (ExternalTask "up-1" (td_control waiting_descriptor) (td_external_wait_policy waiting_descriptor));
  insert_descriptor task_id (waiting_descriptor <| td_kind := KindExternal |> <| td_cleanup := [] |>).

Definition y_joined : Sys := in_up (HandJoined up_descriptor up_stopped) (leave_task y_cancelled) y_cancelled.
Definition y_draining : Sys := in_up (HandDraining up_descriptor up_stopped) (stop_workers y_joined) y_joined.
Definition y_idle : Sys := in_up (HandIdle up_descriptor up_stopped) (sy_sup y_draining) y_draining.
Definition y_reduced : Sys :=
  in_up (HandExit waiting_descriptor (Some up_unconfirmed) true) (exec (reduce_exit stopped_locally up_descriptor) (sy_sup y_idle)) y_idle.
Definition y_told : Sys := in_up (HandStatus waiting_descriptor true) (tell_registry up_unconfirmed y_reduced) y_reduced.
Definition y_looked : Sys := in_up (HandKeep waiting_descriptor) (exec (operation_status "up-1") (sy_sup y_told)) y_told.
Definition y_overtaken : Sys :=
  with_registry (exec (transition "up-1" (CancellationConfirmed None)) (sv_registry (sy_sup y_looked))) y_looked.
Definition y_waiting : Sys := move_up start_wait (Supervised 1%nat) y_overtaken.

Lemma reach_hand y h p s' :
  reachable y → sy_ledger y !! "up-1" = Some (0%nat, InHand h) → hand_step y "up-1" 0%nat h p s' →
  reachable (moved "up-1" (Some (0%nat, p)) s' y).
Proof. intros Hr Hl Hs. eapply reachable_step; [done|]. by eapply step_hand. Qed.

Lemma y_joined_reachable : reachable y_joined.
Proof.
  eapply reachable_step; [apply y_cancelled_reachable|].
  refine (step_join 0%nat up_task up_descriptor up_stopped world0 (leave_task y_cancelled) _ y_cancelled
    _ eq_refl _ _ _ (exec_ok _ _ _ _)); [evaluate..| |evaluate].
  exists 0. split_and!; [done|..].
  - intros t [= <-]. vm_compute. discriminate.
  - intros i _ _. vm_compute. reflexivity.
Qed.
Lemma y_draining_reachable : reachable y_draining.
Proof.
  apply (reach_hand y_joined (HandJoined up_descriptor up_stopped)); [apply y_joined_reachable | evaluate|].
  refine (hand_stop_accepting _ _ _ _ _ world0 _ _ (exec_ok _ _ _ _)). evaluate.
Qed.
Lemma y_idle_reachable : reachable y_idle.
Proof.
  apply (reach_hand y_draining (HandDraining up_descriptor up_stopped)); [apply y_draining_reachable | evaluate|].
  eapply hand_idle; evaluate.
Qed.
Lemma y_reduced_reachable : reachable y_reduced.
Proof.
  apply (reach_hand y_idle (HandIdle up_descriptor up_stopped)); [apply y_idle_reachable | evaluate|].
  assert (Hc : ∀ remove_file, run_cleanup remove_file (sv_heap (sy_sup y_idle)) [0%nat] = Ok ())
    by (intros; vm_compute; reflexivity).
  refine (hand_reduce _ _ _ _ _ _ no_file "up-1" _ _ _ world0 (sy_sup y_idle) world0 _ _ _ _ (exec_ok _ _ _ _)).
  - split; [vm_compute; discriminate|]. intros remove_file e He.
    pose proof (eq_trans (eq_sym He) (Hc remove_file)) as Hb. discriminate Hb.
  - unfold cleanup_run. change (td_cleanup up_descriptor) with [0%nat].
    transitivity (Ok (run_cleanup no_file (sv_heap (sy_sup y_idle)) [0%nat]), sy_sup y_idle, world0); [done|].
    by rewrite Hc.
  - evaluate.
Qed.
Lemma y_told_reachable : reachable y_told.
Proof.
  apply (reach_hand y_reduced (HandExit waiting_descriptor (Some up_unconfirmed) true));
    [apply y_reduced_reachable | evaluate|].
  refine (hand_transition _ _ _ _ _ _ EvidenceOnly world0 _ _ (exec_ok _ _ _ _)). evaluate.
Qed.
Lemma y_looked_reachable : reachable y_looked.
Proof.
  apply (reach_hand y_told (HandStatus waiting_descriptor true) (InHand (HandKeep waiting_descriptor)));
    [apply y_told_reachable | evaluate|].
  refine (hand_status _ _ _ waiting_descriptor true StCanceling world0 _ _ (exec_ok _ _ _ _)). evaluate.
Qed.
Lemma y_overtaken_reachable : reachable y_overtaken.
Proof.
  eapply reachable_step; [apply y_looked_reachable|]. apply step_registry.
  eapply (call_transition "up-1" (CancellationConfirmed None) world0); [done|vm_compute; discriminate|apply exec_run].
Qed.

Lemma y_waiting_step : system_step y_overtaken y_waiting.
Proof.
  eapply (step_hand "up-1" 0%nat (HandKeep waiting_descriptor)); [evaluate|].
  refine (hand_keep _ _ _ waiting_descriptor world0 _ _ (exec_ok _ _ _ _)). evaluate.
Qed.

(** While the reducer waits for the workers of the upload, the upload has
    neither task nor descriptor, but its control and its permit. *)
Lemma supervisor_books_balance_witness :
  sv_permits (sy_sup y_draining) = 63 ∧ sv_tasks (sy_sup y_draining) !! 0%nat = None
  ∧ sv_live_tasks (sy_sup y_draining) !! "up-1" = None ∧ sv_controls (sy_sup y_draining) !! "up-1" = Some 0%nat
  ∧ ledger_wf (sy_sup y_draining) (sy_ledger y_draining).
Proof.
  split; [vm_compute; reflexivity|]. split; [vm_compute; reflexivity|]. split; [vm_compute; reflexivity|].
  split; [vm_compute; reflexivity|].
  exact (proj1 (supervisor_books_balance y_draining y_draining_reachable)).
Defined.

Lemma taken_operation_never_forgotten_witness :
  (op_status ∘ rec_operation <$> rg_records (sv_registry (sy_sup y_looked)) !! "up-1") = Some StCanceling
  ∧ sv_controls (sy_sup y_looked) !! "up-1" = Some 0%nat
  ∧ (op_status ∘ rec_operation <$> rg_records (sv_registry (sy_sup y_waiting)) !! "up-1") = Some StCanceled
  ∧ ((∃ p', sy_ledger y_waiting !! "up-1" = Some (0%nat, p') ∧ taken p' = true)
     ∨ (let_go y_waiting "up-1" ∧ not_before 3 (sv_registry (sy_sup y_waiting)) "up-1")).
Proof.
  assert (Hl : sy_ledger y_looked !! "up-1" = Some (0%nat, InHand (HandKeep waiting_descriptor)))
    by (vm_compute; reflexivity).
  assert (Hl' : sy_ledger y_overtaken !! "up-1" = Some (0%nat, InHand (HandKeep waiting_descriptor)))
    by (vm_compute; reflexivity).
  destruct (rg_records (sv_registry (sy_sup y_looked)) !! "up-1") as [r|] eqn:Er; [|vm_compute in Er; discriminate Er].
  assert (Es : Some (op_status (rec_operation r)) = Some StCanceling).
  { change (op_status ∘ rec_operation <$> Some r = Some StCanceling). rewrite <- Er. vm_compute. reflexivity. }
  split; [exact Es|]. split; [|split; [vm_compute; reflexivity|]].
  - refine (proj1 (proj1 (taken_operation_never_forgotten y_looked "up-1" 0%nat _ y_looked_reachable Hl eq_refl) r Er _)).
    injection Es as ->. reflexivity.
  - exact (proj2 (taken_operation_never_forgotten y_overtaken "up-1" 0%nat _ y_overtaken_reachable Hl' eq_refl)
      y_waiting y_waiting_step).
Defined.

Definition up_control : OperationControl := default demo_control (sv_heap (sy_sup y_cancelled) !! 0%nat).

Lemma acknowledged_cancellation_not_lost_witness :
  "up-1" ∈ sy_acknowledged y_cancelled
  ∧ (not_before 3 (sv_registry (sy_sup y_cancelled)) "up-1"
     ∨ (stop_reason up_control ≠ None
        ∧ ∀ now, (begin_execution now (sv_root (sy_sup y_cancelled)) up_control).1 ≠ None)).
Proof.
  assert (Ha : "up-1" ∈ sy_acknowledged y_cancelled) by (vm_compute; reflexivity).
  assert (Hl : sy_ledger y_cancelled !! "up-1" = Some (0%nat, Supervised 0%nat)) by (vm_compute; reflexivity).
  assert (Hh : sv_heap (sy_sup y_cancelled) !! 0%nat = Some up_control) by (vm_compute; reflexivity).
  split; [exact Ha|].
  exact (acknowledged_cancellation_not_lost y_cancelled "up-1" 0%nat (Supervised 0%nat) up_control
    y_cancelled_reachable Ha Hl eq_refl Hh).
Defined.

(** The reducer leaves its loop while the upload is still being admitted, and
    ends with an error. *)
Lemma drained_reducer_leaves_only_admissions_witness :
  outcome loop_head (sy_sup y_shutting_down) = Ok true
  ∧ outcome reducer_epilogue (exec loop_head (sy_sup y_shutting_down))
    = Err ["runtime operation supervisor exited with 1 retained operation(s) and 0 live task(s)"]
  ∧ sv_live_tasks (exec loop_head (sy_sup y_shutting_down)) = ∅.
Proof.
  assert (E : outcome loop_head (sy_sup y_shutting_down) = Ok true) by (vm_compute; reflexivity).
  split; [exact E|]. split; [vm_compute; reflexivity|].
  exact (proj1 (proj2 (proj2 (proj2 (drained_reducer_leaves_only_admissions y_shutting_down world0 _ _
    y_shutting_down_reachable eq_refl (exec_ok _ _ _ E)))))).
Defined.

Definition panic_text : string := "runtime operation supervisor stopped unexpectedly".

Lemma running_cleanups_fit : cleanups_fit no_file (sv_heap (sy_sup y_running)).
Proof. intros [|ref] e He; vm_compute in He; discriminate He. Qed.

Lemma recovery_leaves_nothing_supervised_witness :
  let s' := exec (recover_after_failure no_file panic_text) (sy_sup y_running) in
  outcome (recover_after_failure no_file panic_text) (sy_sup y_running) = Err [panic_text]
  ∧ sv_phase s' = PhaseClosed
  ∧ (op_status ∘ rec_operation <$> rg_records (sv_registry s') !! "up-1") = Some StFailed.
Proof.
  assert (Hf : text_fits panic_text) by (vm_compute; discriminate).
  split; [vm_compute; reflexivity|]. split; [|vm_compute; reflexivity].
  exact (proj1 (recovery_leaves_nothing_supervised no_file panic_text (sy_sup y_running) world0 _ _ _
    (sw_registry _ (reachable_wf _ y_running_reachable)) Hf running_cleanups_fit (exec_run _ _))).
Defined.
