(* ===== verification/RequestWitnesses.v ===== *)
(** * The theorems on requests, starts and imports, instantiated *)

From S2P Require Import Prelude Json Bytes ModuleEvents OperationRecord Transition OperationViews.
From S2P Require Import OperationControl RecordInvariants Registry Supervisor.
From S2P Require Import RegistryInvariant RegistryTheorems StatusRanks SupervisorSystem.
From S2P Require Import OperationSpec SourceModes NodeRequests TextLemmas ImportOptions InstructionTarget.
From S2P Require Import RuntimeRequest RequestTheorems RuntimeOperations StartTheorems.
From S2P Require Import LocalState BackupImport BackupImportTheorems ImportSafety Witnesses.

(** A file system with one directory, no request ids, a resolver that knows no
    target. *)
#[export] Instance demo_files : FileSystem :=
  {| metadata_is_dir := λ path, if String.eqb path "/tmp" then Some true else None;
     path_exists := λ path, String.eqb path "/tmp/file" |}.
#[export] Instance demo_request_ids : StoreRequestIds := {| new_delivery_store_request_id := Ok "request-1" |}.
#[export] Instance demo_resolver : InstructionTargetResolver :=
  {| resolve_target := λ _ _, bail "Active Zone target could not be verified" |}.

Lemma demo_resolver_sound : resolver_sound.
Proof. by intros ctx revision t [=]. Qed.

(** ** Requests *)
Definition upload_value : Value :=
  json_object [("method", VString "storageUploadUrl");
               ("adapter", json_object [("source_mode", VString "logoscore_cli")]);
               ("payload", json_object [("path", VString "/tmp/file")])].
Definition rejected_request : RuntimeOperationRequest :=
  mkRequest (operation_definition_new (CmdStorage Storage_Manifests) "" "" Mutating) None None None VNull "".
Definition upload_request : RuntimeOperationRequest :=
  Eval lazy in match runtime_operation_request_from_value upload_value with
               | Ok r => r
               | Err _ => rejected_request
               end.

Lemma upload_accepted : runtime_operation_request_from_value upload_value = Ok upload_request.
Proof. lazy. reflexivity. Qed.
Lemma upload_bound : bind_instruction_target upload_request = Ok upload_request.
Proof. lazy. reflexivity. Qed.

Lemma accepted_request_has_record_witness :
  ∃ record, running_runtime_operation_record "storage-1" upload_request 5 = Ok record ∧
    Forall (λ field, cf_presence field = Required →
              ∃ value, mkAffectedInput (context_key_str (cf_key field)) value
                         ∈ pol_affected_inputs (op_policy (rec_operation record)) ∧ is_empty value = false)
      (pd_affected_context_fields (od_policy (rq_definition upload_request))).
Proof.
  exact (accepted_request_has_record upload_request upload_request "storage-1" 5 demo_resolver_sound
    (or_introl (ex_intro _ upload_value upload_accepted)) upload_bound).
Defined.

Lemma requested_source_is_executed_witness :
  ∃ transport, planned_transport upload_request = Ok transport
    ∧ requested_module_transport upload_request = Ok transport
    ∧ (od_exclusive_group (rq_definition upload_request) = Some GUpload
       ∨ od_exclusive_group (rq_definition upload_request) = Some GRemove →
       (is_Some (request_exclusive_group upload_request) ↔ transport = Some TransportLogoscoreCli)).
Proof.
  refine (requested_source_is_executed upload_request (or_introl (ex_intro _ upload_value upload_accepted)) _).
  lazy. reflexivity.
Defined.

(** ** A start *)
Definition demo_world : World := mkWorld (λ n, Z.of_nat n) (λ n, Z.of_nat n) 0.
Definition start_run : Result Value * RuntimeOperations * World :=
  start_admitted upload_request operations_new demo_world.

Lemma fresh_system_unused : unused_ids 1 system_new.
Proof. intros domain method k _ id. split_and!; [apply lookup_empty|unfold ids; simpl; set_solver|apply lookup_empty]. Qed.

Lemma start_all_or_nothing_witness :
  is_ok start_run.1.1 = true
  ∧ ∃ y', rtc system_step system_new y' ∧ sy_sup y' = ro_supervisor start_run.1.2
      ∧ unused_ids (ro_next_operation_id start_run.1.2) y'
      ∧ ((y' = system_new ∧ start_run.1.2 = operations_new ∧ is_ok start_run.1.1 = false)
         ∨ ∃ bound, bind_instruction_target upload_request = Ok bound
             ∧ ro_next_operation_id start_run.1.2 = ro_next_operation_id operations_new + 1
             ∧ start_post bound (ro_next_operation_id operations_new) system_new start_run.1.1 y').
Proof.
  split; [vm_compute; reflexivity|].
  refine (start_all_or_nothing operations_new system_new upload_request demo_world start_run.1.1 start_run.1.2
    start_run.2 (rtc_refl _ _) eq_refl _ fresh_system_unused _).
  - simpl. lia.
  - unfold start_run. by destruct (start_admitted upload_request operations_new demo_world) as [[out s'] w'].
Defined.

(** ** An import *)
#[export] Instance demo_lowercase : UnicodeLowercase := {| to_lowercase := to_ascii_lowercase; to_lowercase_ascii _ _ := eq_refl |}.

Definition demo_options_object : Map :=
  [("favorites", VString "merge"); ("items", json_object [("favorites", VArray [VString "a"])]);
   ("settings", VString " Replace ")].
Definition demo_selection : BackupImportSelection := mkSelection ModeReplace ModeMerge ModeSkip ModeSkip.
Definition demo_options : BackupImportOptions :=
  mkOptions demo_selection [(AreaFavorites, {["a"]})] [].

Lemma demo_options_parsed : options_parse (Some (VObject demo_options_object)) = Ok demo_options.
Proof. vm_compute. reflexivity. Qed.

Lemma accepted_options_agree_witness :
  parse_import_mode "settings" (VString " Replace ") = Ok (options_mode demo_options AreaSettings)
  ∧ options_mode demo_options AreaWalletProfile = ModeSkip.
Proof.
  split.
  - exact (proj1 (accepted_options_agree demo_options_object demo_options demo_options_parsed)
      AreaSettings "settings" (VString " Replace ") (list_elem_of_here _ _) eq_refl).
  - refine (proj1 (proj2 (accepted_options_agree demo_options_object demo_options demo_options_parsed))
      AreaWalletProfile _). intros key Hkey. apply elem_of_cons in Hkey as [->|Hkey]; [reflexivity|].
    apply list_elem_of_singleton in Hkey as ->. reflexivity.
Defined.

#[export] Instance demo_store : BackupImportStore () :=
  {| store_preview := λ _ _ _ _, Ok (json_object [("restored", VBool false)]);
     store_restore := λ id _ options cancellation files,
       (inl (mkReceipt id (bo_selection options) [AreaSettings]
               (CommitApplied "00" DurabilityVerified) []), CancellationDurable, files) |}.
#[export] Instance demo_others : OtherThreads () := {| others := λ _ s, s |}.

Lemma demo_others_run n (s : ImportShared ()) : rtc other_step s (others n s).
Proof. apply rtc_refl. Qed.

Definition demo_shared : ImportShared () := mkShared GateIdle 1 () operations_new.
Lemma demo_known : known (registry_of demo_shared).
Proof. split; [apply registry_new_wf|]. intros id r Hr. simpl in Hr. by rewrite lookup_empty in Hr. Qed.

Definition acquired : ImportShared () := demo_shared <| sh_gate := GateActive demo_selection CancellationOpen false |>.
Definition demo_plan : BackupImportPlan := plan_preparing "backup-1" "" demo_selection VNull.
Definition reached : Result (Flow ()) * ApplyState () * World :=
  reach_commit "backup-1" None demo_options (mkApply acquired (mkLease true None) demo_plan [] false) demo_world.

Lemma import_commits_quietly_witness :
  reached.1.1 = Ok (Continue ())
  ∧ is_ok (gate_permits (sh_gate (ap_shared reached.1.2)) upload_request) = false.
Proof.
  assert (E : reached.1.1 = Ok (Continue ())) by (vm_compute; reflexivity). split; [exact E|].
  refine (proj2 (import_commits_quietly demo_others_run "backup-1" None demo_options demo_plan demo_shared acquired
    demo_world demo_world reached.1.2 reached.2 demo_known eq_refl _) upload_request _).
  - rewrite <- E. unfold reached. by destruct (reach_commit _ _ _ _ _) as [[out s'] w'].
  - vm_compute. reflexivity.
Defined.

Definition import_run : Result Value * ImportShared () * World :=
  import_apply "backup-1" None (Some (VObject demo_options_object)) demo_shared demo_world.

Lemma import_gate_follows_outcome_witness :
  is_ok import_run.1.1 = true
  ∧ ((import_run.1.2 = demo_shared ∧ is_ok import_run.1.1 = false)
     ∨ (sh_gate demo_shared = GateIdle ∧ gate_after demo_selection import_run.1.1 (sh_gate import_run.1.2))).
Proof.
  split; [vm_compute; reflexivity|].
  refine (import_gate_follows_outcome demo_others_run "backup-1" None (Some (VObject demo_options_object)) demo_options
    demo_shared demo_world import_run.1.1 import_run.1.2 import_run.2 demo_known demo_options_parsed _).
  unfold import_run. by destruct (import_apply _ _ _ _ _) as [[out s'] w'].
Defined.
