(* ===== verification/ChannelConfig.v ===== *)
(** * Channel source configurations

    [src/src/source_routing/channel_sources/config.rs]: which Sequencers and
    which Indexer a channel is read from, how a configuration is normalized, and
    its JSON.  URLs are parsed and printed by the [url] crate, the class
    [UrlCrate]. *)

From S2P Require Import Prelude Json Bytes OperationSpec SourceModes NodeRequests.
From S2P Require Import CatalogModel InstructionTarget LocalState.

(** ** URLs *)
Inductive UrlHost : Type := HostDomain (domain : string) | HostIpv4 (address : Z) | HostIpv6 (address : Z).

Class UrlCrate : Type := {
  Url : Type;
  url_parse : string → option Url;
  url_to_string : Url → string;
  url_cannot_be_a_base : Url → bool;
  url_scheme : Url → string;
  url_host : Url → option UrlHost;
  url_username : Url → string;
  url_password : Url → option string;
  url_query : Url → option string;
  url_fragment : Url → option string;
  url_port : Url → option Z;
  (** [set_port(None)] *)
  url_without_port : Url → option Url;
}.

(** ** Data *)
Definition SOURCE_ID_PREFIX : string := "src_".
Definition SOURCE_ID_RANDOM_BYTES : Z := 16.

Inductive ChannelSourceTarget : Type := TargetRpc (endpoint : string) | TargetModule (module_id : string).
#[export] Instance ChannelSourceTarget_eq_dec : EqDecision ChannelSourceTarget.
Proof. solve_decision. Defined.

Record FinalizedL1EvidenceBasis : Type := mkEvidenceBasis {
  eb_network_scope : NetworkScope;
  eb_catalog_source_fingerprint : string;
  eb_l1_slot : Z;
  eb_l1_block_id : string;
  eb_transaction_hash : string;
  eb_operation_index : Z;
  eb_l2_block_id : Z;
  eb_l2_header_hash : string;
  eb_l2_signature : string;
}.
#[export] Instance FinalizedL1EvidenceBasis_eq_dec : EqDecision FinalizedL1EvidenceBasis.
Proof. solve_decision. Defined.
#[export] Instance FinalizedL1EvidenceBasis_eta : Eta FinalizedL1EvidenceBasis :=
  λ e, mkEvidenceBasis (eb_network_scope e) (eb_catalog_source_fingerprint e) (eb_l1_slot e) (eb_l1_block_id e)
         (eb_transaction_hash e) (eb_operation_index e) (eb_l2_block_id e) (eb_l2_header_hash e) (eb_l2_signature e).

Inductive PersistedSequencerAttestation : Type :=
  | AttestationPending
  | PersistedAttested (channel_id target_fingerprint : string) (attested_at_unix : Z)
  | PersistedEvidenceMatched (channel_id target_fingerprint : string) (matched_at_unix : Z)
      (evidence : FinalizedL1EvidenceBasis).
#[export] Instance PersistedSequencerAttestation_eq_dec : EqDecision PersistedSequencerAttestation.
Proof. solve_decision. Defined.

Record ConfiguredSequencerSource : Type := mkSequencerSource {
  sq_source_id : string;
  sq_label : option string;
  sq_target : ChannelSourceTarget;
  sq_channel_attestation : PersistedSequencerAttestation;
}.
#[export] Instance ConfiguredSequencerSource_eq_dec : EqDecision ConfiguredSequencerSource.
Proof. solve_decision. Defined.
#[export] Instance ConfiguredSequencerSource_eta : Eta ConfiguredSequencerSource :=
  λ s, mkSequencerSource (sq_source_id s) (sq_label s) (sq_target s) (sq_channel_attestation s).

Record ConfiguredIndexerSource : Type := mkIndexerSource {
  ix_source_id : string;
  ix_label : option string;
  ix_target : ChannelSourceTarget;
}.
#[export] Instance ConfiguredIndexerSource_eq_dec : EqDecision ConfiguredIndexerSource.
Proof. solve_decision. Defined.
#[export] Instance ConfiguredIndexerSource_eta : Eta ConfiguredIndexerSource :=
  λ s, mkIndexerSource (ix_source_id s) (ix_label s) (ix_target s).

Record ChannelSourceConfig : Type := mkChannelConfig {
  cc_network_scope : NetworkScope;
  cc_channel_id : string;
  cc_config_revision : Z;
  cc_sequencer_sources : list ConfiguredSequencerSource;
  cc_selected_sequencer_source_id : option string;
  cc_indexer_source : option ConfiguredIndexerSource;
}.
#[export] Instance ChannelSourceConfig_eq_dec : EqDecision ChannelSourceConfig.
Proof. solve_decision. Defined.
#[export] Instance ChannelSourceConfig_eta : Eta ChannelSourceConfig :=
  λ c, mkChannelConfig (cc_network_scope c) (cc_channel_id c) (cc_config_revision c) (cc_sequencer_sources c)
         (cc_selected_sequencer_source_id c) (cc_indexer_source c).

Inductive SequencerAttestationBasis : Type :=
  | RpcReported
  | UserTrustedFinalizedL1Evidence (evidence : FinalizedL1EvidenceBasis).

Record SequencerAttestationReceipt : Type := mkAttestationReceipt {
  ar_channel_id : string;
  ar_target_fingerprint : string;
  ar_attested_at_unix : Z;
  ar_basis : SequencerAttestationBasis;
}.

Inductive ChannelSourceConfigMutation : Type :=
  | AddSequencer (label : option string) (target : ChannelSourceTarget) (allow_insecure_http : bool)
  | UpdateSequencer (source_id : string) (label : option string) (target : ChannelSourceTarget)
      (allow_insecure_http : bool)
  | RemoveSequencer (source_id : string)
  | SelectSequencer (source_id : option string)
  | RetryAttestation (source_id : string)
  | SetIndexer (label : option string) (target : ChannelSourceTarget) (allow_insecure_http : bool)
  | RemoveIndexer.

Record ChannelSourceConfigApplyRequest : Type := mkApplyRequest {
  rq_network_scope : NetworkScope;
  rq_channel_id : string;
  rq_expected_config_revision : Z;
  rq_mutation : ChannelSourceConfigMutation;
}.

Inductive ChannelSourceRole : Type := RoleSequencer | RoleIndexer.

Definition module_id_for_role (role : ChannelSourceRole) : string :=
  match role with RoleSequencer => SEQUENCER_MODULE_ID | RoleIndexer => INDEXER_MODULE_ID end.

(** ** Text *)
Definition normalize_hex_width (value : string) (width : Z) (label : string) : Result string :=
  let value := trim value in
  if negb (str_len value =? width) || negb (all_hexdigits value)
  then bail (label +:+ " must contain " +:+ pretty width +:+ " hexadecimal characters")
  else Ok (to_ascii_lowercase value).

Definition normalize_sha256_fingerprint (value : string) : Result string :=
  match strip_prefix "sha256:" (trim value) with
  | None => bail "catalog source fingerprint must use sha256"
  | Some hex =>
      digits ← normalize_hex_width hex 64 "catalog source fingerprint";
      Ok ("sha256:" +:+ digits)
  end.

Definition normalize_hex_identity (value label : string) : Result string :=
  let value := trim value in
  let value := default value (strip_any ["0x"; "0X"] value) in
  if negb (str_len value =? 64) || negb (all_hexdigits value)
  then bail (label +:+ " must be 32-byte hexadecimal text")
  else Ok (to_ascii_lowercase value).

Definition normalize_channel_id (value : string) : Result string := normalize_hex_identity value "Channel id".

Definition normalize_network_scope (scope : NetworkScope) : Result NetworkScope :=
  match scope with
  | GenesisId genesis_id =>
      genesis_id ← normalize_hex_identity genesis_id "genesis id"; Ok (GenesisId genesis_id)
  | FinalizedAnchor genesis_time block_slot block_id parent_id =>
      let genesis_time := trim genesis_time in
      if is_empty genesis_time || has_control genesis_time
      then bail "finalized-anchor genesis time is invalid"
      else
        block_id ← normalize_hex_identity block_id "finalized-anchor block id";
        parent_id ← normalize_hex_identity parent_id "finalized-anchor parent id";
        Ok (FinalizedAnchor genesis_time block_slot block_id parent_id)
  end.

Definition normalize_label (value : option string) : Result (option string) :=
  match value with
  | None => Ok None
  | Some value =>
      let value := trim value in
      if is_empty value then Ok None
      else if has_control value then bail "Channel source label cannot contain control characters"
      else Ok (Some value)
  end.

Definition validate_source_id (value : string) : Result string :=
  match strip_prefix SOURCE_ID_PREFIX value with
  | None => bail ("Channel source id `" +:+ value +:+ "` is invalid")
  | Some random =>
      if negb (str_len random =? SOURCE_ID_RANDOM_BYTES * 2) || negb (forallb lower_hexdigit (as_bytes random))
      then bail ("Channel source id `" +:+ value +:+ "` is invalid")
      else Ok value
  end.

(** [str::split_once] *)
Fixpoint split_once (separator s : string) : option (string * string) :=
  match strip_prefix separator s with
  | Some rest => Some ("", rest)
  | None =>
      match s with
      | EmptyString => None
      | String a s' => '(before, rest) ← split_once separator s'; Some (String a before, rest)
      end
  end.

(** ** Targets *)
Section targets.
Context `{UrlCrate}.

Definition endpoint_is_loopback (endpoint : Url) : bool :=
  match url_host endpoint with
  | Some (HostDomain domain) =>
      let domain := to_ascii_lowercase domain in
      String.eqb domain "localhost" || ends_with ".localhost" domain
  | Some (HostIpv4 address) => Z.shiftr address 24 =? 127
  | Some (HostIpv6 address) => address =? 1
  | None => false
  end.

(** What is checked of a parsed endpoint before its port. *)
Definition check_endpoint (endpoint : Url) : Result () :=
  if url_cannot_be_a_base endpoint then bail "RPC endpoint must be a hierarchical URL"
  else if negb (bool_decide (url_scheme endpoint ∈ ["http"; "https"]))
  then bail "RPC endpoint scheme must be http or https"
  else if bool_decide (is_Some (url_host endpoint)) then
    if negb (is_empty (url_username endpoint)) || bool_decide (is_Some (url_password endpoint))
    then bail "RPC endpoint cannot contain authentication"
    else if bool_decide (is_Some (url_query endpoint)) || bool_decide (is_Some (url_fragment endpoint))
    then bail "RPC endpoint cannot contain a query or fragment"
    else Ok ()
  else bail "RPC endpoint must include a host".

Definition default_port (scheme : string) : option Z :=
  if String.eqb scheme "http" then Some 80 else if String.eqb scheme "https" then Some 443 else None.

Definition normalized_rpc_endpoint (value : string) (allow_insecure_http : bool) : Result string :=
  if has_control value then bail "RPC endpoint cannot contain control characters"
  else
    let value := trim value in
    if is_empty value then bail "RPC endpoint is required"
    else
      '(_, authority_and_path) ← ok_or "RPC endpoint must include a URL authority" (split_once "://" value);
      if starts_with "/" authority_and_path then bail "RPC endpoint must include a host"
      else
        endpoint ← ok_or "RPC endpoint is not a valid URL" (url_parse value);
        _ ← check_endpoint endpoint;
        endpoint ← (if bool_decide (url_port endpoint = default_port (url_scheme endpoint))
                    then ok_or "RPC endpoint port is invalid" (url_without_port endpoint)
                    else Ok endpoint);
        if String.eqb (url_scheme endpoint) "http" && negb (endpoint_is_loopback endpoint)
           && negb allow_insecure_http
        then bail "non-loopback HTTP RPC endpoint requires allow_insecure_http"
        else Ok (url_to_string endpoint).

Definition normalized_module_id (value : string) (role : ChannelSourceRole) : Result string :=
  if has_control value then bail "module id cannot contain control characters"
  else
    let value := trim value in
    if negb (String.eqb value (module_id_for_role role))
    then bail ("module id `" +:+ value +:+ "` is not valid for this Channel source role")
    else Ok value.

Definition target_normalized (target : ChannelSourceTarget) (role : ChannelSourceRole)
    (allow_insecure_http : bool) : Result ChannelSourceTarget :=
  match target with
  | TargetRpc endpoint =>
      endpoint ← normalized_rpc_endpoint endpoint allow_insecure_http; Ok (TargetRpc endpoint)
  | TargetModule module_id =>
      module_id ← normalized_module_id module_id role; Ok (TargetModule module_id)
  end.
End targets.

(** ** Attestations and configurations *)
Section configs.
Context `{UrlCrate} `{HexCrate} `{Sha2Crate}.

Definition fingerprint (target : ChannelSourceTarget) : string :=
  let text := match target with
              | TargetRpc endpoint => as_bytes "rpc" ++ [0] ++ as_bytes endpoint
              | TargetModule module_id => as_bytes "module" ++ [0] ++ as_bytes module_id
              end in
  "sha256:" +:+ hex_encode (sha256 text).

Definition is_insecure_http (target : ChannelSourceTarget) : bool :=
  match target with TargetRpc endpoint => starts_with "http://" endpoint | TargetModule _ => false end.

Definition normalized_finalized_l1_evidence (evidence : FinalizedL1EvidenceBasis) (owner_network_scope : NetworkScope)
    : Result FinalizedL1EvidenceBasis :=
  network_scope ← normalize_network_scope (eb_network_scope evidence);
  if negb (bool_decide (network_scope = owner_network_scope))
  then bail "Sequencer evidence network scope does not match its owner"
  else
    catalog_source_fingerprint ← normalize_sha256_fingerprint (eb_catalog_source_fingerprint evidence);
    l1_block_id ← normalize_hex_identity (eb_l1_block_id evidence) "L1 block id";
    transaction_hash ← normalize_hex_identity (eb_transaction_hash evidence) "L1 transaction hash";
    l2_header_hash ← normalize_hex_identity (eb_l2_header_hash evidence) "L2 header hash";
    l2_signature ← normalize_hex_width (eb_l2_signature evidence) 128 "L2 signature";
    Ok (mkEvidenceBasis network_scope catalog_source_fingerprint (eb_l1_slot evidence) l1_block_id
          transaction_hash (eb_operation_index evidence) (eb_l2_block_id evidence) l2_header_hash l2_signature).

Definition normalized_attestation (attestation : PersistedSequencerAttestation) (owner_network_scope : NetworkScope)
    (owner_channel_id : string) (target : ChannelSourceTarget) : Result PersistedSequencerAttestation :=
  match attestation with
  | AttestationPending => Ok AttestationPending
  | PersistedAttested channel_id target_fingerprint attested_at_unix =>
      channel_id ← normalize_channel_id channel_id;
      if negb (String.eqb channel_id owner_channel_id)
      then bail "Sequencer attestation Channel does not match its owner"
      else if negb (String.eqb target_fingerprint (fingerprint target))
      then bail "Sequencer attestation target fingerprint is stale"
      else Ok (PersistedAttested channel_id target_fingerprint attested_at_unix)
  | PersistedEvidenceMatched channel_id target_fingerprint matched_at_unix evidence =>
      channel_id ← normalize_channel_id channel_id;
      if negb (String.eqb channel_id owner_channel_id)
      then bail "Sequencer evidence Channel does not match its owner"
      else if negb (String.eqb target_fingerprint (fingerprint target))
      then bail "Sequencer evidence target fingerprint is stale"
      else
        evidence ← normalized_finalized_l1_evidence evidence owner_network_scope;
        Ok (PersistedEvidenceMatched channel_id target_fingerprint matched_at_unix evidence)
  end.

Definition duplicate_source {A} (source_id : string) : Result A :=
  bail ("duplicate Channel source id `" +:+ source_id +:+ "`").

Definition normalized_sequencer (scope : NetworkScope) (channel_id : string) (seen : list string)
    (source : ConfiguredSequencerSource) : Result ConfiguredSequencerSource :=
  source_id ← validate_source_id (sq_source_id source);
  if bool_decide (source_id ∈ seen) then duplicate_source source_id
  else
    label ← normalize_label (sq_label source);
    target ← target_normalized (sq_target source) RoleSequencer true;
    attestation ← normalized_attestation (sq_channel_attestation source) scope channel_id target;
    Ok (mkSequencerSource source_id label target attestation).

(** The sources in order; [seen] are the ids before them. *)
Fixpoint normalized_sequencers (scope : NetworkScope) (channel_id : string) (seen : list string)
    (sources : list ConfiguredSequencerSource) : Result (list ConfiguredSequencerSource) :=
  match sources with
  | [] => Ok []
  | source :: sources' =>
      source ← normalized_sequencer scope channel_id seen source;
      rest ← normalized_sequencers scope channel_id (sq_source_id source :: seen) sources';
      Ok (source :: rest)
  end.

Definition normalized_indexer (seen : list string) (indexer : ConfiguredIndexerSource)
    : Result ConfiguredIndexerSource :=
  source_id ← validate_source_id (ix_source_id indexer);
  if bool_decide (source_id ∈ seen) then duplicate_source source_id
  else
    label ← normalize_label (ix_label indexer);
    target ← target_normalized (ix_target indexer) RoleIndexer true;
    Ok (mkIndexerSource source_id label target).

Definition transpose {A B} (f : A → Result B) (o : option A) : Result (option B) :=
  match o with None => Ok None | Some a => b ← f a; Ok (Some b) end.

Definition check_selected (sources : list ConfiguredSequencerSource) (selected : string) : Result string :=
  selected ← validate_source_id selected;
  if existsb (λ source, String.eqb (sq_source_id source) selected) sources then Ok selected
  else bail ("selected Sequencer source `" +:+ selected +:+ "` is not configured").

Definition config_normalized (config : ChannelSourceConfig) : Result ChannelSourceConfig :=
  network_scope ← normalize_network_scope (cc_network_scope config);
  channel_id ← normalize_channel_id (cc_channel_id config);
  if cc_config_revision config =? 0 then bail "Channel source configuration revision must be positive"
  else
    sequencers ← normalized_sequencers network_scope channel_id [] (cc_sequencer_sources config);
    indexer ← transpose (normalized_indexer (map sq_source_id sequencers)) (cc_indexer_source config);
    selected ← transpose (check_selected sequencers) (cc_selected_sequencer_source_id config);
    Ok (mkChannelConfig network_scope channel_id (cc_config_revision config) sequencers selected indexer).

Definition config_key (config : ChannelSourceConfig) : NetworkScope * string :=
  (cc_network_scope config, cc_channel_id config).
Definition config_source_ids (config : ChannelSourceConfig) : list string :=
  map sq_source_id (cc_sequencer_sources config) ++ map ix_source_id (option_list (cc_indexer_source config)).

Fixpoint insert_source_ids (ids seen : list string) : Result (list string) :=
  match ids with
  | [] => Ok seen
  | id :: ids' => if bool_decide (id ∈ seen) then duplicate_source id else insert_source_ids ids' (id :: seen)
  end.

(** [keys] and [seen] come from the configurations before. *)
Fixpoint normalize_configs_from (keys : list (NetworkScope * string)) (seen : list string)
    (configs : list ChannelSourceConfig) : Result (list ChannelSourceConfig) :=
  match configs with
  | [] => Ok []
  | config :: configs' =>
      config ← config_normalized config;
      if bool_decide (config_key config ∈ keys)
      then bail ("duplicate Channel source configuration for `" +:+ cc_channel_id config +:+ "`")
      else
        seen ← insert_source_ids (config_source_ids config) seen;
        rest ← normalize_configs_from (config_key config :: keys) seen configs';
        Ok (config :: rest)
  end.
Definition normalize_channel_source_configs : list ChannelSourceConfig → Result (list ChannelSourceConfig) :=
  normalize_configs_from [] [].
End configs.

(** ** JSON *)
Definition option_str (o : option string) : Value := json_option VString o.

(** [#[serde(tag = ...)]] with any tag. *)
Definition tagged_content_at (tag : string) (value : Value) : option (string * Value) :=
  match value with
  | VObject entries =>
      name ← map_get tag entries; name ← as_str name;
      Some (name, VObject (List.filter (λ entry, negb (String.eqb entry.1 tag)) entries))
  | VArray (name :: items) => name ← as_str name; Some (name, VArray items)
  | _ => None
  end.

Definition as_u32 (value : Value) : option Z :=
  n ← as_u64 value; if n <? 2 ^ 32 then Some n else None.

Definition target_value (target : ChannelSourceTarget) : Value :=
  match target with
  | TargetRpc endpoint => json_object [("kind", VString "rpc"); ("endpoint", VString endpoint)]
  | TargetModule module_id => json_object [("kind", VString "module"); ("module_id", VString module_id)]
  end.
Definition de_target (value : Value) : option ChannelSourceTarget :=
  '(tag, content) ← tagged_content value;
  if String.eqb tag "rpc" then
    match struct_fields ["endpoint"] content with Some [endpoint] => TargetRpc <$> de_field as_str endpoint | _ => None end
  else if String.eqb tag "module" then
    match struct_fields ["module_id"] content with Some [module_id] => TargetModule <$> de_field as_str module_id | _ => None end
  else None.

Definition evidence_basis_value (e : FinalizedL1EvidenceBasis) : Value :=
  json_object [("network_scope", network_scope_value (eb_network_scope e));
               ("catalog_source_fingerprint", VString (eb_catalog_source_fingerprint e));
               ("l1_slot", json_u64 (eb_l1_slot e)); ("l1_block_id", VString (eb_l1_block_id e));
               ("transaction_hash", VString (eb_transaction_hash e));
               ("operation_index", json_u64 (eb_operation_index e));
               ("l2_block_id", json_u64 (eb_l2_block_id e));
               ("l2_header_hash", VString (eb_l2_header_hash e)); ("l2_signature", VString (eb_l2_signature e))].
Definition de_evidence_basis (value : Value) : option FinalizedL1EvidenceBasis :=
  match struct_fields_strict
          ["network_scope"; "catalog_source_fingerprint"; "l1_slot"; "l1_block_id"; "transaction_hash";
           "operation_index"; "l2_block_id"; "l2_header_hash"; "l2_signature"] value with
  | Some [scope; source; l1_slot; l1_block; transaction; index; l2_block; l2_header; l2_signature] =>
      scope ← de_field de_network_scope scope;
      source ← de_field as_str source;
      l1_slot ← de_field as_u64 l1_slot;
      l1_block ← de_field as_str l1_block;
      transaction ← de_field as_str transaction;
      index ← de_field as_u32 index;
      l2_block ← de_field as_u64 l2_block;
      l2_header ← de_field as_str l2_header;
      l2_signature ← de_field as_str l2_signature;
      Some (mkEvidenceBasis scope source l1_slot l1_block transaction index l2_block l2_header l2_signature)
  | _ => None
  end.

Definition attestation_value (attestation : PersistedSequencerAttestation) : Value :=
  match attestation with
  | AttestationPending => json_object [("state", VString "pending")]
  | PersistedAttested channel_id target_fingerprint attested_at_unix =>
      json_object [("state", VString "persisted_attested"); ("channel_id", VString channel_id);
                   ("target_fingerprint", VString target_fingerprint);
                   ("attested_at_unix", json_u64 attested_at_unix)]
  | PersistedEvidenceMatched channel_id target_fingerprint matched_at_unix evidence =>
      json_object [("state", VString "persisted_evidence_matched"); ("channel_id", VString channel_id);
                   ("target_fingerprint", VString target_fingerprint);
                   ("matched_at_unix", json_u64 matched_at_unix); ("evidence", evidence_basis_value evidence)]
  end.
Definition de_attestation (value : Value) : option PersistedSequencerAttestation :=
  '(tag, content) ← tagged_content_at "state" value;
  if String.eqb tag "pending" then Some AttestationPending
  else if String.eqb tag "persisted_attested" then
    match struct_fields ["channel_id"; "target_fingerprint"; "attested_at_unix"] content with
    | Some [channel_id; target_fingerprint; attested_at_unix] =>
        channel_id ← de_field as_str channel_id;
        target_fingerprint ← de_field as_str target_fingerprint;
        attested_at_unix ← de_field as_u64 attested_at_unix;
        Some (PersistedAttested channel_id target_fingerprint attested_at_unix)
    | _ => None
    end
  else if String.eqb tag "persisted_evidence_matched" then
    match struct_fields ["channel_id"; "target_fingerprint"; "matched_at_unix"; "evidence"] content with
    | Some [channel_id; target_fingerprint; matched_at_unix; evidence] =>
        channel_id ← de_field as_str channel_id;
        target_fingerprint ← de_field as_str target_fingerprint;
        matched_at_unix ← de_field as_u64 matched_at_unix;
        evidence ← de_field de_evidence_basis evidence;
        Some (PersistedEvidenceMatched channel_id target_fingerprint matched_at_unix evidence)
    | _ => None
    end
  else None.

Definition sequencer_source_value (s : ConfiguredSequencerSource) : Value :=
  json_object [("source_id", VString (sq_source_id s)); ("label", option_str (sq_label s));
               ("target", target_value (sq_target s));
               ("channel_attestation", attestation_value (sq_channel_attestation s))].
Definition de_sequencer_source (value : Value) : option ConfiguredSequencerSource :=
  match struct_fields ["source_id"; "label"; "target"; "channel_attestation"] value with
  | Some [source_id; label; target; attestation] =>
      source_id ← de_field as_str source_id;
      label ← de_option_field (is_object value) as_str label;
      target ← de_field de_target target;
      attestation ← de_field de_attestation attestation;
      Some (mkSequencerSource source_id label target attestation)
  | _ => None
  end.

Definition indexer_source_value (s : ConfiguredIndexerSource) : Value :=
  json_object [("source_id", VString (ix_source_id s)); ("label", option_str (ix_label s));
               ("target", target_value (ix_target s))].
Definition de_indexer_source (value : Value) : option ConfiguredIndexerSource :=
  match struct_fields ["source_id"; "label"; "target"] value with
  | Some [source_id; label; target] =>
      source_id ← de_field as_str source_id;
      label ← de_option_field (is_object value) as_str label;
      target ← de_field de_target target;
      Some (mkIndexerSource source_id label target)
  | _ => None
  end.

Definition channel_config_value (c : ChannelSourceConfig) : Value :=
  json_object [("network_scope", network_scope_value (cc_network_scope c));
               ("channel_id", VString (cc_channel_id c)); ("config_revision", json_u64 (cc_config_revision c));
               ("sequencer_sources", VArray (map sequencer_source_value (cc_sequencer_sources c)));
               ("selected_sequencer_source_id", option_str (cc_selected_sequencer_source_id c));
               ("indexer_source", json_option indexer_source_value (cc_indexer_source c))].
Definition de_channel_config (value : Value) : option ChannelSourceConfig :=
  match struct_fields ["network_scope"; "channel_id"; "config_revision"; "sequencer_sources";
                       "selected_sequencer_source_id"; "indexer_source"] value with
  | Some [scope; channel_id; revision; sequencers; selected; indexer] =>
      scope ← de_field de_network_scope scope;
      channel_id ← de_field as_str channel_id;
      revision ← de_field as_u64 revision;
      sequencers ← de_field (λ value, items ← as_array value; mapM de_sequencer_source items) sequencers;
      selected ← de_option_field (is_object value) as_str selected;
      indexer ← de_option_field (is_object value) de_indexer_source indexer;
      Some (mkChannelConfig scope channel_id revision sequencers selected indexer)
  | _ => None
  end.

Definition configs_value (configs : list ChannelSourceConfig) : Value := VArray (map channel_config_value configs).
Definition de_configs (value : Value) : option (list ChannelSourceConfig) :=
  items ← as_array value; mapM de_channel_config items.

(** Requests are only read. *)
Definition de_mutation (value : Value) : option ChannelSourceConfigMutation :=
  '(tag, content) ← tagged_content value;
  let from_object := is_object content in
  let de_insecure := de_field_or false as_bool in
  if String.eqb tag "add_sequencer" then
    match struct_fields_strict ["label"; "target"; "allow_insecure_http"] content with
    | Some [label; target; insecure] =>
        label ← de_option_field from_object as_str label;
        target ← de_field de_target target;
        AddSequencer label target <$> de_insecure insecure
    | _ => None
    end
  else if String.eqb tag "update_sequencer" then
    match struct_fields_strict ["source_id"; "label"; "target"; "allow_insecure_http"] content with
    | Some [source_id; label; target; insecure] =>
        source_id ← de_field as_str source_id;
        label ← de_option_field from_object as_str label;
        target ← de_field de_target target;
        UpdateSequencer source_id label target <$> de_insecure insecure
    | _ => None
    end
  else if String.eqb tag "remove_sequencer" then
    match struct_fields_strict ["source_id"] content with
    | Some [source_id] => RemoveSequencer <$> de_field as_str source_id
    | _ => None
    end
  else if String.eqb tag "select_sequencer" then
    match struct_fields_strict ["source_id"] content with
    | Some [source_id] => SelectSequencer <$> de_option_field from_object as_str source_id
    | _ => None
    end
  else if String.eqb tag "retry_attestation" then
    match struct_fields_strict ["source_id"] content with
    | Some [source_id] => RetryAttestation <$> de_field as_str source_id
    | _ => None
    end
  else if String.eqb tag "set_indexer" then
    match struct_fields_strict ["label"; "target"; "allow_insecure_http"] content with
    | Some [label; target; insecure] =>
        label ← de_option_field from_object as_str label;
        target ← de_field de_target target;
        SetIndexer label target <$> de_insecure insecure
    | _ => None
    end
  else if String.eqb tag "remove_indexer" then Some RemoveIndexer
  else None.

Definition de_apply_request (value : Value) : option ChannelSourceConfigApplyRequest :=
  match struct_fields_strict ["network_scope"; "channel_id"; "expected_config_revision"; "mutation"] value with
  | Some [scope; channel_id; revision; mutation] =>
      scope ← de_field de_network_scope scope;
      channel_id ← de_field as_str channel_id;
      revision ← de_field as_u64 revision;
      mutation ← de_field de_mutation mutation;
      Some (mkApplyRequest scope channel_id revision mutation)
  | _ => None
  end.
