(* ===== verification/ChannelConfigTheorems.v ===== *)
(** * Channel source configurations are stable

    Normalization is idempotent, so that what is stored is read back as it is,
    and the JSON of a configuration is read back as that configuration. *)

From S2P Require Import Prelude Json Bytes OperationSpec SourceModes NodeRequests.
From S2P Require Import CatalogModel InstructionTarget LocalState EntityIds TextLemmas ChannelConfig.

(** ** What the [url] crate promises

    A parsed URL, also without its port, prints as a text of printable ASCII that
    parses to it again; an http URL with a host prints its scheme, [://] and a
    rest that starts with the host. *)
Class UrlLaws `{UrlCrate} : Prop := {
  url_reparse s u : url_parse s = Some u → url_parse (url_to_string u) = Some u;
  url_without_port_spec s u u' :
    url_parse s = Some u → url_without_port u = Some u' →
    url_parse (url_to_string u') = Some u' ∧ url_port u' = None
    ∧ url_cannot_be_a_base u' = url_cannot_be_a_base u ∧ url_scheme u' = url_scheme u ∧ url_host u' = url_host u
    ∧ url_username u' = url_username u ∧ url_password u' = url_password u
    ∧ url_query u' = url_query u ∧ url_fragment u' = url_fragment u;
  url_text s u :
    url_parse s = Some u → url_scheme u ∈ ["http"; "https"] → is_Some (url_host u) →
    all_plain (url_to_string u)
    ∧ ∃ rest, url_to_string u = url_scheme u +:+ "://" +:+ rest ∧ starts_with "/" rest = false;
}.

(** ** Text *)
Lemma normalize_hex_width_fixed value width label text :
  normalize_hex_width value width label = Ok text → normalize_hex_width text width label = Ok text.
Proof.
  unfold normalize_hex_width. destruct (Z.eqb_spec (str_len (trim value)) width) as [Hl|]; [|done].
  destruct (all_hexdigits (trim value)) eqn:Hd; [|done]. simpl. intros [= <-].
  pose proof (lower_hexdigits _ Hd) as Hd'. rewrite (trim_hex _ Hd'), length_lower, Hl, Z.eqb_refl, Hd'. simpl.
  by rewrite lower_idemp.
Qed.

Lemma normalize_hex_identity_fixed value label text :
  normalize_hex_identity value label = Ok text → normalize_hex_identity text label = Ok text.
Proof.
  unfold normalize_hex_identity. cbv zeta. set (stripped := default (trim value) _).
  destruct (Z.eqb_spec (str_len stripped) 64) as [Hl|]; [|done].
  destruct (all_hexdigits stripped) eqn:Hd; [|done]. cbn [negb orb]. intros [= <-].
  pose proof (lower_hexdigits _ Hd) as Hd'. rewrite (trim_hex _ Hd'), (hex_no_prefix _ Hd'). cbn [default].
  unfold default, from_option, id. rewrite length_lower, Hl, Z.eqb_refl, Hd'. simpl. by rewrite lower_idemp.
Qed.

Lemma normalize_sha256_fixed value text :
  normalize_sha256_fingerprint value = Ok text → normalize_sha256_fingerprint text = Ok text.
Proof.
  unfold normalize_sha256_fingerprint. destruct (strip_prefix "sha256:" (trim value)) as [hex|]; [|done].
  intros (digits & Hn & [= <-])%bind_Ok. pose proof (normalize_hex_width_fixed _ _ _ _ Hn) as Hf.
  assert (Hd : all_hexdigits digits = true).
  { unfold normalize_hex_width in Hn. destruct (all_hexdigits (trim hex)) eqn:Hd; [|by rewrite orb_true_r in Hn].
    destruct (negb _ || _); [done|]. injection Hn as <-. by apply lower_hexdigits. }
  assert (Hp : all_plain ("sha256:" +:+ digits)).
  { apply plain_append; [by repeat constructor|]. eapply forallb_plain; [apply hexdigit_plain|done]. }
  by rewrite (trim_plain _ Hp), strip_prefix_app, Hf.
Qed.

Lemma normalize_network_scope_fixed scope scope' :
  normalize_network_scope scope = Ok scope' → normalize_network_scope scope' = Ok scope'.
Proof.
  destruct scope as [genesis|time slot block parent]; simpl.
  - intros (g & Hg & [= <-])%bind_Ok. simpl. by rewrite (normalize_hex_identity_fixed _ _ _ Hg).
  - destruct (is_empty (trim time) || has_control (trim time)) eqn:Ht; [done|].
    intros (b & Hb & (p & Hp & [= <-])%bind_Ok)%bind_Ok. simpl.
    rewrite trim_idemp, Ht, (normalize_hex_identity_fixed _ _ _ Hb). simpl.
    by rewrite (normalize_hex_identity_fixed _ _ _ Hp).
Qed.

Lemma normalize_label_fixed label label' : normalize_label label = Ok label' → normalize_label label' = Ok label'.
Proof.
  destruct label as [label|]; simpl; [|by intros [= <-]].
  destruct (is_empty (trim label)) eqn:He; [by intros [= <-]|].
  destruct (has_control (trim label)) eqn:Hc; [done|]. intros [= <-]. simpl. by rewrite trim_idemp, He, Hc.
Qed.

Lemma validate_source_id_same value id : validate_source_id value = Ok id → id = value.
Proof.
  unfold validate_source_id. destruct (strip_prefix _ value); [|done]. destruct (_ || _); [done|]. by intros [= <-].
Qed.

Lemma plain_no_control s : all_plain s → has_control s = false.
Proof.
  unfold all_plain, has_control, as_bytes. induction 1 as [|a l Ha _ IH]; [done|]. simpl.
  unfold plain in Ha. apply in_range_spec in Ha. rewrite IH, orb_false_r.
  destruct (map _ l) as [|y bs]; unfold in_range in *; repeat match goal with |- context [?a <=? ?b] => destruct (Z.leb_spec a b) end;
    repeat match goal with |- context [?a =? ?b] => destruct (Z.eqb_spec a b) end; simpl; try done; lia.
Qed.

(** ** Targets *)
Section targets.
Context `{UrlLaws}.
#[local] Set Default Proof Using "Type*".

Lemma normalized_rpc_endpoint_parts value insecure text :
  normalized_rpc_endpoint value insecure = Ok text →
  ∃ u, url_parse text = Some u ∧ check_endpoint u = Ok () ∧ url_port u ≠ default_port (url_scheme u)
       ∧ text = url_to_string u ∧ ∃ s, url_parse s = Some u.
Proof.
  unfold normalized_rpc_endpoint. destruct (has_control value); [done|]. cbv zeta.
  destruct (is_empty (trim value)); [done|].
  intros ([before rest] & _ & He)%bind_Ok. destruct (starts_with "/" rest); [done|].
  apply bind_Ok in He as (u & Hu%ok_or_Ok & ([] & Hc & (u' & Hp & He)%bind_Ok)%bind_Ok).
  destruct (_ && _ && _); [done|]. injection He as <-. exists u'.
  case_bool_decide as Hport.
  2:{ injection Hp as ->. split_and!; [by eapply url_reparse|done..|by eauto]. }
  apply ok_or_Ok in Hp. destruct (url_without_port_spec _ _ _ Hu Hp) as (Hr & Hnone & Hbase & Hs & Hh & Hus & Hpw & Hq & Hf).
  split_and!; [done| | |done|by eauto].
  - unfold check_endpoint. rewrite Hbase, Hs, Hh, Hus, Hpw, Hq, Hf. exact Hc.
  - rewrite Hnone. unfold check_endpoint in Hc. unfold default_port. rewrite Hs.
    destruct (url_cannot_be_a_base u); [done|]. case_bool_decide as Hin; [|done].
    apply elem_of_cons in Hin as [->|Hin%list_elem_of_singleton]; [done|]. by rewrite Hin.
Qed.

Lemma check_endpoint_facts u :
  check_endpoint u = Ok () → url_scheme u ∈ ["http"; "https"] ∧ is_Some (url_host u).
Proof.
  unfold check_endpoint. destruct (url_cannot_be_a_base u); [done|]. case_bool_decide; [|done]. simpl.
  by case_bool_decide.
Qed.

Lemma normalized_rpc_endpoint_fixed value insecure text :
  normalized_rpc_endpoint value insecure = Ok text → normalized_rpc_endpoint text true = Ok text.
Proof.
  intros (u & Hu & Hc & Hport & -> & s & Hs)%normalized_rpc_endpoint_parts.
  destruct (check_endpoint_facts u Hc) as [Hscheme Hhost].
  destruct (url_text _ _ Hs Hscheme Hhost) as (Hplain & rest & Htext & Hrest).
  assert (Hsplit : split_once "://" (url_to_string u) = Some (url_scheme u, rest)).
  { rewrite Htext. apply elem_of_cons in Hscheme as [->|Hin%list_elem_of_singleton]; [done|]. by rewrite Hin. }
  assert (Hne : is_empty (url_to_string u) = false).
  { rewrite Htext. apply elem_of_cons in Hscheme as [->|Hin%list_elem_of_singleton]; [done|]. by rewrite Hin. }
  unfold normalized_rpc_endpoint. rewrite (plain_no_control _ Hplain), (trim_plain _ Hplain). cbv zeta.
  rewrite Hne, Hsplit. cbn [ok_or mbind]. rewrite !Ok_bind, Hrest, Hu. cbn [ok_or]. rewrite Ok_bind, Hc, Ok_bind.
  rewrite bool_decide_false by done. by rewrite Ok_bind, !andb_false_r.
Qed.

Lemma target_normalized_fixed target role insecure target' :
  target_normalized target role insecure = Ok target' → target_normalized target' role true = Ok target'.
Proof.
  destruct target as [endpoint|module_id]; simpl.
  - intros (e & He & [= <-])%bind_Ok. simpl. by rewrite (normalized_rpc_endpoint_fixed _ _ _ He).
  - intros (m & Hm & [= <-])%bind_Ok. simpl. unfold normalized_module_id in *. destruct (has_control module_id); [done|].
    destruct (String.eqb_spec (trim module_id) (module_id_for_role role)) as [He|]; [|done]. injection Hm as <-.
    rewrite He. by destruct role.
Qed.
End targets.

(** ** Configurations *)
Lemma insert_source_ids_spec ids seen seen' :
  insert_source_ids ids seen = Ok seen' →
  NoDup ids ∧ (∀ id, id ∈ ids → id ∉ seen) ∧ (∀ id, id ∈ seen' ↔ id ∈ ids ∨ id ∈ seen).
Proof.
  revert seen. induction ids as [|id ids IH]; intros seen; simpl.
  { intros [= <-]. split_and!; [constructor|by intros id ?%elem_of_nil|set_solver]. }
  case_bool_decide as Hin; [done|]. intros (Hnd & Hdis & Hiff)%IH. split_and!.
  - constructor; [|done]. intros Hid. apply (Hdis id Hid). by left.
  - intros id' [->|Hid]%elem_of_cons; [done|]. intros Hs. apply (Hdis id' Hid). by right.
  - intros id'. rewrite Hiff, !elem_of_cons. naive_solver.
Qed.

Lemma insert_source_ids_enough ids seen :
  NoDup ids → (∀ id, id ∈ ids → id ∉ seen) → insert_source_ids ids seen = Ok (rev ids ++ seen).
Proof.
  revert seen. induction ids as [|id ids IH]; intros seen Hnd Hdis; simpl; [done|].
  inversion Hnd; subst. rewrite bool_decide_false by (apply Hdis; by left).
  rewrite <- (assoc_L (++)). apply IH; [done|]. intros id' Hid [->|Hs]%elem_of_cons; [done|].
  apply (Hdis id'); [by right|done].
Qed.

Section configs.
Context `{UrlLaws} `{HexCrate} `{Sha2Crate}.
#[local] Set Default Proof Using "Type*".

Lemma normalized_evidence_fixed evidence scope evidence' :
  normalized_finalized_l1_evidence evidence scope = Ok evidence' →
  normalized_finalized_l1_evidence evidence' scope = Ok evidence'.
Proof.
  unfold normalized_finalized_l1_evidence. intros (sc & Hsc & He)%bind_Ok.
  case_bool_decide as Heq; [subst sc|done]. simpl in He.
  apply bind_Ok in He as (src & Hsrc & (blk & Hblk & (tx & Htx & (hd & Hhd & (sg & Hsg & [= <-])%bind_Ok)%bind_Ok)%bind_Ok)%bind_Ok).
  cbn. rewrite (normalize_network_scope_fixed _ _ Hsc). simpl. rewrite bool_decide_true by done. simpl.
  rewrite (normalize_sha256_fixed _ _ Hsrc). cbn.
  rewrite (normalize_hex_identity_fixed _ _ _ Hblk). cbn. rewrite (normalize_hex_identity_fixed _ _ _ Htx). cbn.
  rewrite (normalize_hex_identity_fixed _ _ _ Hhd). cbn. by rewrite (normalize_hex_width_fixed _ _ _ _ Hsg).
Qed.

(** An attestation names its owner and the target it was made for. *)
Definition attestation_for (channel_id : string) (target : ChannelSourceTarget)
    (attestation : PersistedSequencerAttestation) : Prop :=
  match attestation with
  | AttestationPending => True
  | PersistedAttested ch fp _ | PersistedEvidenceMatched ch fp _ _ => ch = channel_id ∧ fp = fingerprint target
  end.

Lemma normalized_attestation_spec attestation scope channel_id target attestation' :
  normalized_attestation attestation scope channel_id target = Ok attestation' →
  normalized_attestation attestation' scope channel_id target = Ok attestation'
  ∧ attestation_for channel_id target attestation'.
Proof.
  destruct attestation as [|ch fp at_|ch fp at_ evidence]; cbn [normalized_attestation]; [by intros [= <-]|..].
  - intros (ch' & Hch & Ha)%bind_Ok. destruct (String.eqb_spec ch' channel_id) as [->|]; [|done].
    destruct (String.eqb_spec fp (fingerprint target)) as [->|]; [|done]. injection Ha as <-.
    cbn [normalized_attestation]. unfold normalize_channel_id in *. rewrite (normalize_hex_identity_fixed _ _ _ Hch).
    by rewrite Ok_bind, !String.eqb_refl.
  - intros (ch' & Hch & Ha)%bind_Ok. destruct (String.eqb_spec ch' channel_id) as [->|]; [|done].
    destruct (String.eqb_spec fp (fingerprint target)) as [->|]; [|done]. cbn [negb] in Ha.
    apply bind_Ok in Ha as (ev & Hev & [= <-]).
    cbn [normalized_attestation]. unfold normalize_channel_id in *. rewrite (normalize_hex_identity_fixed _ _ _ Hch).
    rewrite Ok_bind, !String.eqb_refl. cbn [negb]. by rewrite (normalized_evidence_fixed _ _ _ Hev).
Qed.

Lemma normalized_sequencer_spec scope channel_id seen source source' :
  normalized_sequencer scope channel_id seen source = Ok source' →
  normalized_sequencer scope channel_id seen source' = Ok source'
  ∧ sq_source_id source' = sq_source_id source ∧ (sq_source_id source' ∉ seen)
  ∧ attestation_for channel_id (sq_target source') (sq_channel_attestation source').
Proof.
  unfold normalized_sequencer. intros (id & Hid & Hs)%bind_Ok.
  pose proof (validate_source_id_same _ _ Hid) as ->. case_bool_decide as Hin; [done|].
  apply bind_Ok in Hs as (label & Hl & (target & Ht & (att & Ha & [= <-])%bind_Ok)%bind_Ok).
  destruct (normalized_attestation_spec _ _ _ _ _ Ha) as [Ha' Hfor]. cbn. rewrite Hid, Ok_bind.
  rewrite bool_decide_false by done. rewrite (normalize_label_fixed _ _ Hl), Ok_bind.
  by rewrite (target_normalized_fixed _ _ _ _ Ht), Ok_bind, Ha'.
Qed.

Lemma normalized_sequencers_spec scope channel_id seen sources sources' :
  normalized_sequencers scope channel_id seen sources = Ok sources' →
  normalized_sequencers scope channel_id seen sources' = Ok sources'
  ∧ map sq_source_id sources' = map sq_source_id sources ∧ NoDup (map sq_source_id sources')
  ∧ (∀ id, id ∈ map sq_source_id sources' → id ∉ seen)
  ∧ Forall (λ s, attestation_for channel_id (sq_target s) (sq_channel_attestation s)) sources'.
Proof.
  revert seen sources'. induction sources as [|source sources IH]; intros seen sources'; simpl.
  { intros [= <-]. split_and!; [done|done|constructor|by intros id ?%elem_of_nil|constructor]. }
  intros (s & Hs & (rest & Hr & [= <-])%bind_Ok)%bind_Ok.
  destruct (normalized_sequencer_spec _ _ _ _ _ Hs) as (Hs' & Hid & Hseen & Hatt).
  destruct (IH _ _ Hr) as (Hr' & Hids & Hnd & Hdis & Hall). simpl. rewrite Hs', Ok_bind, Hr', Ok_bind.
  split_and!; [done|by rewrite Hid, Hids| | |by constructor].
  - constructor; [|done]. intros Hin. apply (Hdis _ Hin). by left.
  - intros id [->|Hin]%elem_of_cons; [done|]. intros Hs0. apply (Hdis _ Hin). by right.
Qed.

Lemma normalized_indexer_spec seen indexer indexer' :
  normalized_indexer seen indexer = Ok indexer' →
  normalized_indexer seen indexer' = Ok indexer' ∧ ix_source_id indexer' = ix_source_id indexer
  ∧ ix_source_id indexer' ∉ seen.
Proof.
  unfold normalized_indexer. intros (id & Hid & Hs)%bind_Ok.
  pose proof (validate_source_id_same _ _ Hid) as ->. case_bool_decide as Hin; [done|].
  apply bind_Ok in Hs as (label & Hl & (target & Ht & [= <-])%bind_Ok). cbn. rewrite Hid, Ok_bind.
  rewrite bool_decide_false by done. rewrite (normalize_label_fixed _ _ Hl), Ok_bind.
  by rewrite (target_normalized_fixed _ _ _ _ Ht).
Qed.

Lemma transpose_fixed {A} (f : A → Result A) o o' :
  (∀ a a', f a = Ok a' → f a' = Ok a') → transpose f o = Ok o' → transpose f o' = Ok o'.
Proof.
  intros Hf. destruct o as [a|]; simpl; [|by intros [= <-]].
  intros (a' & Ha & [= <-])%bind_Ok. simpl. by rewrite (Hf _ _ Ha).
Qed.

Lemma check_selected_same sources id id' : check_selected sources id = Ok id' → id' = id.
Proof.
  unfold check_selected. intros (i & Hi & Hs)%bind_Ok. apply validate_source_id_same in Hi as ->.
  destruct (existsb _ _); [|done]. by injection Hs.
Qed.

(** What a normalized configuration is. *)
Record config_ok (c : ChannelSourceConfig) : Prop := {
  ok_fixed : config_normalized c = Ok c;
  ok_revision : cc_config_revision c ≠ 0;
  ok_source_ids : NoDup (config_source_ids c);
  ok_attestations : Forall (λ s, attestation_for (cc_channel_id c) (sq_target s) (sq_channel_attestation s))
                      (cc_sequencer_sources c);
}.

Lemma config_normalized_spec c c' :
  config_normalized c = Ok c' →
  config_ok c' ∧ cc_config_revision c' = cc_config_revision c
  ∧ normalize_network_scope (cc_network_scope c) = Ok (cc_network_scope c')
  ∧ normalize_channel_id (cc_channel_id c) = Ok (cc_channel_id c').
Proof.
  unfold config_normalized. intros (scope & Hscope & (channel & Hch & Hc)%bind_Ok)%bind_Ok.
  destruct (Z.eqb_spec (cc_config_revision c) 0) as [|Hrev]; [done|].
  apply bind_Ok in Hc as (sequencers & Hseq & (indexer & Hix & (selected & Hsel & [= <-])%bind_Ok)%bind_Ok).
  destruct (normalized_sequencers_spec _ _ _ _ _ Hseq) as (Hseq' & Hids & Hnd & _ & Hatt).
  assert (Hix' : transpose (normalized_indexer (map sq_source_id sequencers)) indexer = Ok indexer).
  { eapply transpose_fixed, Hix. intros a a' Ha. by apply normalized_indexer_spec in Ha as (? & _). }
  assert (Hsel' : transpose (check_selected sequencers) selected = Ok selected).
  { eapply transpose_fixed, Hsel. intros a a' Ha. by pose proof (check_selected_same _ _ _ Ha) as ->. }
  split; [|done]. split; cbn.
  - unfold config_normalized. cbn. rewrite (normalize_network_scope_fixed _ _ Hscope), Ok_bind.
    unfold normalize_channel_id in *. rewrite (normalize_hex_identity_fixed _ _ _ Hch), Ok_bind.
    destruct (Z.eqb_spec (cc_config_revision c) 0); [done|]. by rewrite Hseq', Ok_bind, Hix', Ok_bind, Hsel'.
  - done.
  - unfold config_source_ids. cbn. destruct indexer as [indexer|]; simpl; [|by rewrite app_nil_r].
    apply NoDup_app. split_and!; [done| |apply NoDup_singleton].
    intros id Hin Hsing%list_elem_of_singleton. simpl in Hix'. apply bind_Ok in Hix' as (a & Ha & [= ->]).
    apply normalized_indexer_spec in Ha as (_ & _ & Hout). by rewrite Hsing in Hin.
  - done.
Qed.

(** What a normalized list of configurations is. *)
Record configs_ok (configs : list ChannelSourceConfig) : Prop := {
  oks_each : Forall config_ok configs;
  oks_keys : NoDup (map config_key configs);
  oks_source_ids : NoDup (concat (map config_source_ids configs));
}.

Lemma normalize_configs_from_spec keys seen configs configs' :
  normalize_configs_from keys seen configs = Ok configs' →
  Forall config_ok configs' ∧ NoDup (map config_key configs') ∧ NoDup (concat (map config_source_ids configs'))
  ∧ (∀ key, key ∈ map config_key configs' → key ∉ keys)
  ∧ (∀ id, id ∈ concat (map config_source_ids configs') → id ∉ seen).
Proof.
  revert keys seen configs'. induction configs as [|c configs IH]; intros keys seen configs'; simpl.
  { intros [= <-]. simpl. split_and!; try constructor; by intros ? ?%elem_of_nil. }
  intros (c' & Hc & Hrest)%bind_Ok. case_bool_decide as Hkey; [done|].
  apply bind_Ok in Hrest as (seen' & Hs & (rest & Hr & [= <-])%bind_Ok). simpl.
  destruct (config_normalized_spec _ _ Hc) as (Hok & _).
  destruct (insert_source_ids_spec _ _ _ Hs) as (_ & Hdis & Hiff).
  destruct (IH _ _ _ Hr) as (Hall & Hkeys & Hids & Hkd & Hid). split_and!.
  - by constructor.
  - constructor; [|done]. intros Hin. apply (Hkd _ Hin). by left.
  - apply NoDup_app. split_and!; [apply Hok|by intros id Hin Hrest; apply (Hid id Hrest), Hiff; left|done].
  - intros key [->|Hin]%elem_of_cons; [done|]. intros Hk. apply (Hkd _ Hin). by right.
  - intros id [Hin|Hin]%elem_of_app; [by apply Hdis|]. intros Hse. apply (Hid id Hin), Hiff. by right.
Qed.

Lemma normalize_configs_from_ok keys seen configs :
  Forall config_ok configs → NoDup (map config_key configs) → NoDup (concat (map config_source_ids configs)) →
  (∀ key, key ∈ map config_key configs → key ∉ keys) →
  (∀ id, id ∈ concat (map config_source_ids configs) → id ∉ seen) →
  normalize_configs_from keys seen configs = Ok configs.
Proof.
  revert keys seen. induction configs as [|c configs IH]; intros keys seen Hall Hkeys Hids Hkd Hid; simpl; [done|].
  inversion Hall as [|? ? Hc Hall']; subst. inversion Hkeys as [|? ? Hck Hkeys']; subst. simpl in Hids, Hid.
  apply NoDup_app in Hids as (Hnd & Hdis & Hids'). rewrite (ok_fixed _ Hc), Ok_bind.
  rewrite bool_decide_false by (apply Hkd; by left).
  rewrite insert_source_ids_enough; [|done|intros id Hin; apply Hid; set_solver]. rewrite Ok_bind.
  rewrite IH; [done|done|done|done| |].
  - intros key Hin [->|Hk]%elem_of_cons; [done|]. apply (Hkd key); [by right|done].
  - intros id Hin [Hr|Hs]%elem_of_app; [|apply (Hid id); set_solver].
    apply (Hdis id); [|done]. by rewrite list_elem_of_In, in_rev, <- list_elem_of_In.
Qed.

Lemma normalize_configs_spec configs configs' :
  normalize_channel_source_configs configs = Ok configs' → configs_ok configs'.
Proof. intros (H1' & H2' & H3' & _)%normalize_configs_from_spec. by split. Qed.

Lemma normalize_configs_ok configs :
  configs_ok configs → normalize_channel_source_configs configs = Ok configs.
Proof. intros [H1' H2' H3']. apply normalize_configs_from_ok; [done..| |]; by intros ? _ ?%elem_of_nil. Qed.
End configs.

(** ** JSON *)
Definition scope_ranges (scope : NetworkScope) : Prop :=
  match scope with GenesisId _ => True | FinalizedAnchor _ slot _ _ => in_u64 slot end.
Definition evidence_ranges (e : FinalizedL1EvidenceBasis) : Prop :=
  scope_ranges (eb_network_scope e) ∧ in_u64 (eb_l1_slot e) ∧ 0 ≤ eb_operation_index e < 2 ^ 32
  ∧ in_u64 (eb_l2_block_id e).
Definition attestation_ranges (attestation : PersistedSequencerAttestation) : Prop :=
  match attestation with
  | AttestationPending => True
  | PersistedAttested _ _ at_unix => in_u64 at_unix
  | PersistedEvidenceMatched _ _ at_unix evidence => in_u64 at_unix ∧ evidence_ranges evidence
  end.
Definition config_ranges (c : ChannelSourceConfig) : Prop :=
  scope_ranges (cc_network_scope c) ∧ in_u64 (cc_config_revision c)
  ∧ Forall (λ s, attestation_ranges (sq_channel_attestation s)) (cc_sequencer_sources c).

Lemma as_u32_json n : 0 ≤ n < 2 ^ 32 → as_u32 (json_u64 n) = Some n.
Proof.
  intros Hn. unfold as_u32. rewrite as_u64_json by (unfold in_u64, u64_max; lia). simpl.
  destruct (Z.ltb_spec n (2 ^ 32)); [done|lia].
Qed.

Lemma target_read target : de_target (target_value target) = Some target.
Proof. by destruct target. Qed.

Lemma scope_read scope : scope_ranges scope → de_network_scope (network_scope_value scope) = Some scope.
Proof. intros Hs. apply network_scope_roundtrip. by destruct scope. Qed.

Lemma evidence_read e : evidence_ranges e → de_evidence_basis (evidence_basis_value e) = Some e.
Proof.
  destruct e as [scope source l1 block tx index l2 header signature]. intros (Hs & H1 & H2 & H3).
  cbn in Hs, H1, H2, H3. unfold evidence_basis_value. cbn [eb_network_scope eb_catalog_source_fingerprint eb_l1_slot
    eb_l1_block_id eb_transaction_hash eb_operation_index eb_l2_block_id eb_l2_header_hash eb_l2_signature].
  pose proof (scope_read _ Hs) as Hscope. revert Hscope. generalize (network_scope_value scope). intros sv Hscope.
  lazy -[as_u64 as_u32 json_u64 de_network_scope]. rewrite Hscope.
  rewrite (as_u64_json _ H1), (as_u32_json _ H2), (as_u64_json _ H3). done.
Qed.

Lemma attestation_read attestation :
  attestation_ranges attestation → de_attestation (attestation_value attestation) = Some attestation.
Proof.
  destruct attestation as [|ch fp t|ch fp t e]; [done|..].
  - intros Ht. lazy -[as_u64 json_u64]. by rewrite (as_u64_json _ Ht).
  - intros [Ht He]. pose proof (evidence_read _ He) as Hev. unfold attestation_value. revert Hev.
    generalize (evidence_basis_value e). intros ev Hev. lazy -[as_u64 json_u64 de_evidence_basis].
    by rewrite (as_u64_json _ Ht), Hev.
Qed.

Lemma sequencer_source_read s :
  attestation_ranges (sq_channel_attestation s) → de_sequencer_source (sequencer_source_value s) = Some s.
Proof.
  destruct s as [id label target att]. intros Ha. unfold sequencer_source_value. cbn [sq_source_id sq_label sq_target
    sq_channel_attestation] in *. pose proof (attestation_read _ Ha) as Har. pose proof (target_read target) as Htr.
  revert Har Htr. generalize (attestation_value att), (target_value target). intros av tv Har Htr.
  destruct label as [label|]; lazy -[de_attestation de_target]; by rewrite Har, Htr.
Qed.

Lemma indexer_source_read s : de_indexer_source (indexer_source_value s) = Some s.
Proof.
  destruct s as [id label target]. unfold indexer_source_value. cbn [ix_source_id ix_label ix_target].
  pose proof (target_read target) as Htr. revert Htr. generalize (target_value target). intros tv Htr.
  destruct label as [label|]; lazy -[de_target]; by rewrite Htr.
Qed.

Lemma mapM_read {A} (print : A → Value) (read : Value → option A) xs :
  Forall (λ x, read (print x) = Some x) xs → mapM read (map print xs) = Some xs.
Proof. induction 1 as [|x xs Hx _ IH]; [done|]. simpl. by rewrite Hx, IH. Qed.

Lemma channel_config_read c : config_ranges c → de_channel_config (channel_config_value c) = Some c.
Proof.
  destruct c as [scope channel revision sequencers selected indexer]. intros (Hs & Hrev & Hseq).
  cbn in Hs, Hrev, Hseq. unfold channel_config_value. cbn [cc_network_scope cc_channel_id cc_config_revision
    cc_sequencer_sources cc_selected_sequencer_source_id cc_indexer_source].
  pose proof (scope_read _ Hs) as Hsr.
  assert (Hqr : mapM de_sequencer_source (map sequencer_source_value sequencers) = Some sequencers).
  { apply mapM_read. eapply Forall_impl; [exact Hseq|]. intros s. apply sequencer_source_read. }
  assert (Hir : de_option de_indexer_source (json_option indexer_source_value indexer) = Some indexer).
  { destruct indexer as [indexer|]; [|done]. unfold json_option. pose proof (indexer_source_read indexer) as Hr.
    unfold de_option. destruct (indexer_source_value indexer) eqn:E; rewrite ?Hr; done. }
  revert Hsr Hqr Hir. generalize (network_scope_value scope), (map sequencer_source_value sequencers),
    (json_option indexer_source_value indexer). intros sv qv iv Hsr Hqr Hir.
  unfold de_channel_config. simpl struct_fields. cbv iota beta. unfold de_field, de_option_field.
  cbn [mbind option_bind as_array as_str]. rewrite Hsr. cbn [mbind option_bind]. rewrite (as_u64_json _ Hrev).
  cbn [mbind option_bind]. rewrite Hqr. cbn [mbind option_bind].
  destruct selected as [selected|]; cbn; by rewrite Hir.
Qed.

Lemma configs_read configs : Forall config_ranges configs → de_configs (configs_value configs) = Some configs.
Proof.
  intros Hc. unfold de_configs, configs_value. cbn. apply mapM_read. eapply Forall_impl; [exact Hc|].
  apply channel_config_read.
Qed.
