(* ===== verification/ChannelStore.v ===== *)
(** * The store of channel source configurations

    [src/src/source_routing/channel_sources/store.rs]: the settings document, in
    which the configurations are kept beside the settings of the user, the
    mutations of one configuration, and the operations that read and replace the
    settings file under the lock of the local state.  The attestor of a Sequencer
    target is a trait, and its answer an argument. *)

From S2P Require Import Prelude Json Bytes OperationSpec SourceModes NodeRequests.
From S2P Require Import CatalogModel InstructionTarget LocalState ChannelConfig.

Definition SETTINGS_VERSION : Z := 2.
Definition CHANNEL_SOURCE_CONFIGS_KEY : string := "channel_source_configs".
Definition TESTNET_DEFAULT_SCOPES_KEY : string := "testnet_default_scopes".
Definition SOURCE_ID_GENERATION_ATTEMPTS : nat := 8.

Definition LOGOS_TESTNET_PRESET : string := "logos.test".
Definition LOGOS_TESTNET_CHANNEL_ID : string := "0101010101010101010101010101010101010101010101010101010101010101".
Definition LOCAL_BEDROCK_ENDPOINT : string := "http://127.0.0.1:8080/".
Definition LOCAL_INDEXER_ENDPOINT : string := "http://127.0.0.1:8779/".
Definition LEZ_TESTNET_SEQUENCER_ENDPOINT : string := "https://testnet.lez.logos.co/".

(** ** The settings document *)
Record SettingsDocument : Type := mkDocument {
  sd_fields : Map;
  sd_configs : list ChannelSourceConfig;
}.
#[export] Instance SettingsDocument_eta : Eta SettingsDocument := λ d, mkDocument (sd_fields d) (sd_configs d).

Definition settings_version (value : option Value) : Result Z :=
  match value with
  | None => Ok 1
  | Some value =>
      version ← ok_or "settings state version must be an unsigned integer" (as_u64 value);
      if SETTINGS_VERSION <? version
      then bail ("settings state version " +:+ pretty version +:+ " is not supported")
      else Ok version
  end.

Definition from_user_value (value : Value) : Result SettingsDocument :=
  fields ← ok_or "settings state must be an object" (as_object value);
  _ ← settings_version (map_get "version" fields);
  let fields := map_remove "version" fields in
  let fields := map_remove CHANNEL_SOURCE_CONFIGS_KEY fields in
  Ok (mkDocument (map_remove TESTNET_DEFAULT_SCOPES_KEY fields) []).

Definition connector (id : string) : Value :=
  json_object [("connector_id", VString id); ("provenance", VString "testnet_default")].

Definition default_fields : list (string * Value) :=
  [("network_profile", VString "default");
   ("node_url", VString LOCAL_BEDROCK_ENDPOINT);
   ("network_connector_config",
      json_object [("scopes", json_object [("l1", connector "direct_l1_rpc");
                                           ("delivery", connector "direct_delivery_rest");
                                           ("storage", connector "logoscore_cli_storage_module")])]);
   ("messaging_rest_url", VString "http://127.0.0.1:8645");
   ("messaging_metrics_url", VString "http://127.0.0.1:8008/metrics");
   ("messaging_network_preset", VString LOGOS_TESTNET_PRESET);
   ("messaging_rolling_window", json_u64 120);
   ("messaging_admin_rest_enabled", VBool false);
   ("storage_rest_url", VString "http://127.0.0.1:8080/api/storage/v1");
   ("storage_metrics_url", VString "http://127.0.0.1:8008/metrics");
   ("storage_network_preset", VString LOGOS_TESTNET_PRESET);
   ("storage_cid_probe", VString "");
   ("storage_rolling_window", json_u64 120);
   ("storage_local_diagnostics_enabled", VBool false);
   ("storage_privileged_debug_enabled", VBool false);
   ("local_nodes_enabled", VBool true);
   ("local_devnet_enabled", VBool false);
   ("settings_backup_encrypted", VBool false);
   ("blockchain_refresh_rate", json_u64 30);
   ("messaging_refresh_rate", json_u64 30);
   ("storage_refresh_rate", json_u64 30);
   ("social_identities", VArray []);
   ("social_identity_default_mode", VString "perConversation");
   ("social_selected_identity_key", VString "");
   ("social_conversation_identity_keys", json_object []);
   ("shared_idl_policy", VString "suggestion");
   ("shared_idl_auto_share", VBool false);
   ("social_auto_shared_idls", json_object []);
   ("favorites", VArray []);
   ("footer_fields", json_object []);
   ("dashboard_graphs", json_object []);
   ("zone_navigation", json_object []);
   ("testnet_default_scopes", VArray [])].
Definition document_default : SettingsDocument :=
  mkDocument (default [] (as_object (json_object default_fields))) [].

Section documents.
Context `{UrlCrate} `{HexCrate} `{Sha2Crate}.

Definition document_from_value (value : Value) : Result SettingsDocument :=
  fields ← ok_or "settings state must be an object" (as_object value);
  version ← settings_version (map_get "version" fields);
  let configs := default (VArray []) (map_get CHANNEL_SOURCE_CONFIGS_KEY fields) in
  let fields := map_remove "version" (map_remove CHANNEL_SOURCE_CONFIGS_KEY fields) in
  configs ← (if version =? SETTINGS_VERSION
             then
               configs ← ok_or "Channel source configuration list is invalid" (de_configs configs);
               normalize_channel_source_configs configs
             else Ok []);
  Ok (mkDocument fields configs).

Definition document_into_value (document : SettingsDocument) : Result Value :=
  configs ← normalize_channel_source_configs (sd_configs document);
  Ok (VObject (map_insert CHANNEL_SOURCE_CONFIGS_KEY (configs_value configs)
                 (map_insert "version" (json_u64 SETTINGS_VERSION) (sd_fields document)))).

(** The scopes in order, without repetitions. *)
Fixpoint normalize_scopes (normalized stored : list NetworkScope) : Result (list NetworkScope) :=
  match stored with
  | [] => Ok normalized
  | scope :: stored' =>
      scope ← normalize_network_scope scope;
      normalize_scopes (if bool_decide (scope ∈ normalized) then normalized else normalized ++ [scope]) stored'
  end.
Definition testnet_default_scopes (fields : Map) : Result (list NetworkScope) :=
  let raw := default (VArray []) (map_get TESTNET_DEFAULT_SCOPES_KEY fields) in
  stored ← ok_or "Testnet default scope list is invalid" (items ← as_array raw; mapM de_network_scope items);
  normalize_scopes [] stored.

(** ** Imported configurations *)
Definition find_config (key : NetworkScope * string) (configs : list ChannelSourceConfig)
    : option ChannelSourceConfig :=
  List.find (λ config, bool_decide (config_key config = key)) configs.

Definition same_config_semantics (left right : ChannelSourceConfig) : bool :=
  bool_decide (left <| cc_config_revision := 1 |> = right <| cc_config_revision := 1 |>).

Fixpoint rebase_imported_config_revisions (incoming current : list ChannelSourceConfig)
    : Result (list ChannelSourceConfig) :=
  match incoming with
  | [] => Ok []
  | config :: incoming' =>
      revision ← match find_config (config_key config) current with
                 | None => Ok 1
                 | Some existing =>
                     if same_config_semantics existing config then Ok (cc_config_revision existing)
                     else ok_or "Channel source configuration revision overflow during backup import"
                            (checked_add (cc_config_revision existing) 1)
                 end;
      rest ← rebase_imported_config_revisions incoming' current;
      Ok (config <| cc_config_revision := revision |> :: rest)
  end.

Definition source_matches_current (current_config : option ChannelSourceConfig) (source : ConfiguredSequencerSource)
    : bool :=
  match current_config ≫= λ config,
          List.find (λ candidate, String.eqb (sq_source_id candidate) (sq_source_id source))
            (cc_sequencer_sources config) with
  | Some current_source =>
      bool_decide (sq_target current_source = sq_target source)
      && bool_decide (sq_channel_attestation current_source = sq_channel_attestation source)
  | None => false
  end.
Definition reverify_source (current_config : option ChannelSourceConfig) (source : ConfiguredSequencerSource)
    : ConfiguredSequencerSource :=
  if bool_decide (sq_channel_attestation source = AttestationPending) then source
  else if source_matches_current current_config source then source
  else source <| sq_channel_attestation := AttestationPending |>.
Definition require_imported_source_reverification (incoming current : list ChannelSourceConfig)
    : list ChannelSourceConfig :=
  map (λ config, config <| cc_sequencer_sources ::= map (reverify_source (find_config (config_key config) current)) |>)
    incoming.

Definition normalized_settings_state_from_backup (state current_state : Value) : Result Value :=
  incoming ← document_from_value state;
  current ← document_from_value current_state;
  let configs := require_imported_source_reverification (sd_configs incoming) (sd_configs current) in
  configs ← rebase_imported_config_revisions configs (sd_configs current);
  document_into_value (incoming <| sd_configs := configs |>).
End documents.

(** ** Mutations *)
Record SequencerAttestationPlan : Type := mkAttestationPlan { ap_plan_target : ChannelSourceTarget; ap_allow_pending : bool }.

Record PreparedChannelSourceMutation : Type := mkPrepared {
  pm_network_scope : NetworkScope;
  pm_channel_id : string;
  pm_expected_config_revision : Z;
  pm_mutation : ChannelSourceConfigMutation;
  pm_base_config : option ChannelSourceConfig;
  pm_attestation : option SequencerAttestationPlan;
}.

Inductive ChannelSourceAttestationOutcome : Type :=
  | OutcomeNotRequired | OutcomePersisted | OutcomeEvidenceMatched | OutcomePending.

Record ChannelSourceConfigApplyOutcome : Type := mkApplyOutcome {
  ao_config : ChannelSourceConfig;
  ao_attestation : ChannelSourceAttestationOutcome;
}.

(** [probe.rs]: what an attestor answers. *)
Inductive ChannelSourceFailureKind : Type :=
  | FailureTimeout | FailureUnavailable | FailureProtocol | FailureIncomplete | FailureUnsupported.
Record ChannelSourceProbeFailure : Type := mkProbeFailure { pf_kind : ChannelSourceFailureKind; pf_diagnostic : string }.
Record SequencerTargetAttestation : Type := mkTargetAttestation {
  ta_channel_id : string;
  ta_basis : SequencerAttestationBasis;
}.

Definition is_source (source_id : string) (source : ConfiguredSequencerSource) : bool :=
  String.eqb (sq_source_id source) source_id.
Definition missing_source (source_id : string) : string :=
  "Sequencer source `" +:+ source_id +:+ "` does not exist".

Definition required_sequencer_source (config : option ChannelSourceConfig) (source_id : string)
    : Result ConfiguredSequencerSource :=
  ok_or (missing_source source_id) (config ≫= λ config, List.find (is_source source_id) (cc_sequencer_sources config)).

Definition configured_source_ids (configs : list ChannelSourceConfig) : list string :=
  concat (map config_source_ids configs).

(** [iter_mut().find(..)]: the first that matches is replaced. *)
Fixpoint update_first {A} (p : A → bool) (new : A) (l : list A) : list A :=
  match l with
  | [] => []
  | a :: l' => if p a then new :: l' else a :: update_first p new l'
  end.

Definition reject_unused_attestation (receipt : option SequencerAttestationReceipt) : Result () :=
  match receipt with
  | Some _ => bail "Sequencer attestation does not apply to this mutation"
  | None => Ok ()
  end.

Section mutations.
Context `{UrlCrate} `{HexCrate} `{Sha2Crate}.

Definition normalized_mutation_plan (mutation : ChannelSourceConfigMutation) (config : option ChannelSourceConfig)
    : Result (ChannelSourceConfigMutation * option SequencerAttestationPlan) :=
  match mutation with
  | AddSequencer label target allow_insecure_http =>
      label ← normalize_label label;
      target ← target_normalized target RoleSequencer allow_insecure_http;
      Ok (AddSequencer label target allow_insecure_http, Some (mkAttestationPlan target true))
  | UpdateSequencer source_id label target allow_insecure_http =>
      source_id ← validate_source_id source_id;
      label ← normalize_label label;
      target ← target_normalized target RoleSequencer allow_insecure_http;
      source ← required_sequencer_source config source_id;
      Ok (UpdateSequencer source_id label target allow_insecure_http,
          if bool_decide (sq_target source = target) then None else Some (mkAttestationPlan target true))
  | RemoveSequencer source_id =>
      source_id ← validate_source_id source_id;
      _ ← required_sequencer_source config source_id;
      Ok (RemoveSequencer source_id, None)
  | SelectSequencer source_id =>
      source_id ← transpose validate_source_id source_id;
      _ ← transpose (required_sequencer_source config) source_id;
      Ok (SelectSequencer source_id, None)
  | RetryAttestation source_id =>
      source_id ← validate_source_id source_id;
      source ← required_sequencer_source config source_id;
      Ok (RetryAttestation source_id, Some (mkAttestationPlan (sq_target source) false))
  | SetIndexer label target allow_insecure_http =>
      label ← normalize_label label;
      target ← target_normalized target RoleIndexer allow_insecure_http;
      Ok (SetIndexer label target allow_insecure_http, None)
  | RemoveIndexer =>
      match config ≫= cc_indexer_source with
      | None => bail "Indexer source does not exist"
      | Some _ => Ok (RemoveIndexer, None)
      end
  end.

Definition sequencer_attestation (owner_channel_id : string) (target : ChannelSourceTarget)
    (receipt : option SequencerAttestationReceipt) : Result PersistedSequencerAttestation :=
  match receipt with
  | None => Ok AttestationPending
  | Some receipt =>
      verified_channel_id ← normalize_channel_id (ar_channel_id receipt);
      if negb (String.eqb verified_channel_id owner_channel_id)
      then bail "Sequencer source verification resolved to another Channel"
      else
        let target_fingerprint := fingerprint target in
        if negb (String.eqb (ar_target_fingerprint receipt) target_fingerprint)
        then bail "Sequencer source verification target fingerprint is stale"
        else
          match ar_basis receipt with
          | RpcReported => Ok (PersistedAttested verified_channel_id target_fingerprint (ar_attested_at_unix receipt))
          | UserTrustedFinalizedL1Evidence evidence =>
              Ok (PersistedEvidenceMatched verified_channel_id target_fingerprint (ar_attested_at_unix receipt) evidence)
          end
  end.

(** The attestor is asked about the target of the plan; [now] is the time in
    milliseconds. *)
Definition attest (prepared : PreparedChannelSourceMutation)
    (attestor : ChannelSourceTarget → Res ChannelSourceProbeFailure SequencerTargetAttestation) (now : Z)
    : Result (option SequencerAttestationReceipt * ChannelSourceAttestationOutcome) :=
  match pm_attestation prepared with
  | None => Ok (None, OutcomeNotRequired)
  | Some plan =>
      match attestor (ap_plan_target plan) with
      | ROk attestation =>
          channel_id ← normalize_channel_id (ta_channel_id attestation);
          if negb (String.eqb channel_id (pm_channel_id prepared))
          then bail "Sequencer source verification resolved to another Channel"
          else
            Ok (Some (mkAttestationReceipt channel_id (fingerprint (ap_plan_target plan)) (now / 1000)
                        (ta_basis attestation)),
                match ta_basis attestation with
                | RpcReported => OutcomePersisted
                | UserTrustedFinalizedL1Evidence _ => OutcomeEvidenceMatched
                end)
      | RErr failure =>
          if ap_allow_pending plan
             && match pf_kind failure with FailureTimeout | FailureUnavailable => true | _ => false end
          then Ok (None, OutcomePending)
          else Err ["Sequencer source verification failed"; pf_diagnostic failure]
      end
  end.
End mutations.

(** ** Operations of the store *)
Section store.
Context `{env : Environment} `{UrlCrate} `{HexCrate} `{Sha2Crate} `{Base64Crate} `{SerdeJsonBytes}.
Context (settings_path : string).

Definition generate_source_id : IO string :=
  io_do "failed to generate Channel source id" ;;
  s ← io_get;
  mret (SOURCE_ID_PREFIX +:+ hex_encode (random_bytes (ls_steps s))).

Fixpoint fresh_source_id_in (attempts : nat) (source_ids : list string) : IO (string * list string) :=
  match attempts with
  | O => io_bail "failed to generate a unique Channel source id"
  | S attempts =>
      source_id ← generate_source_id;
      if bool_decide (source_id ∈ source_ids) then fresh_source_id_in attempts source_ids
      else mret (source_id, source_id :: source_ids)
  end.
Definition fresh_source_id (source_ids : list string) : IO (string * list string) :=
  fresh_source_id_in SOURCE_ID_GENERATION_ATTEMPTS source_ids.

Definition apply_mutation (config : ChannelSourceConfig) (mutation : ChannelSourceConfigMutation)
    (source_ids : list string) (attestation : option SequencerAttestationReceipt) : IO ChannelSourceConfig :=
  match mutation with
  | AddSequencer label target allow_insecure_http =>
      '(source_id, _) ← fresh_source_id source_ids;
      target ← io_lift (target_normalized target RoleSequencer allow_insecure_http);
      channel_attestation ← io_lift (sequencer_attestation (cc_channel_id config) target attestation);
      label ← io_lift (normalize_label label);
      mret (config <| cc_sequencer_sources ::=
              (λ sources, sources ++ [mkSequencerSource source_id label target channel_attestation]) |>)
  | UpdateSequencer source_id label target allow_insecure_http =>
      source_id ← io_lift (validate_source_id source_id);
      target ← io_lift (target_normalized target RoleSequencer allow_insecure_http);
      source ← io_lift (required_sequencer_source (Some config) source_id);
      channel_attestation ←
        (if negb (bool_decide (sq_target source = target)) || bool_decide (is_Some attestation)
         then io_lift (sequencer_attestation (cc_channel_id config) target attestation)
         else mret (sq_channel_attestation source));
      label ← io_lift (normalize_label label);
      mret (config <| cc_sequencer_sources ::=
              update_first (is_source source_id)
                (mkSequencerSource (sq_source_id source) label target channel_attestation) |>)
  | RemoveSequencer source_id =>
      io_lift (reject_unused_attestation attestation) ;;
      source_id ← io_lift (validate_source_id source_id);
      let sources := List.filter (λ source, negb (is_source source_id source)) (cc_sequencer_sources config) in
      if zlen sources =? zlen (cc_sequencer_sources config) then io_bail (missing_source source_id)
      else
        mret (config <| cc_sequencer_sources := sources |>
                     <| cc_selected_sequencer_source_id ::=
                          (λ selected, if bool_decide (selected = Some source_id) then None else selected) |>)
  | SelectSequencer source_id =>
      io_lift (reject_unused_attestation attestation) ;;
      source_id ← io_lift (transpose validate_source_id source_id);
      io_lift (match source_id with
               | Some source_id =>
                   if existsb (is_source source_id) (cc_sequencer_sources config) then Ok ()
                   else bail (missing_source source_id)
               | None => Ok ()
               end) ;;
      mret (config <| cc_selected_sequencer_source_id := source_id |>)
  | RetryAttestation source_id =>
      source_id ← io_lift (validate_source_id source_id);
      receipt ← io_lift (ok_or "Sequencer attestation retry has no receipt" attestation);
      source ← io_lift (required_sequencer_source (Some config) source_id);
      channel_attestation ← io_lift (sequencer_attestation (cc_channel_id config) (sq_target source) (Some receipt));
      mret (config <| cc_sequencer_sources ::=
              update_first (is_source source_id) (source <| sq_channel_attestation := channel_attestation |>) |>)
  | SetIndexer label target allow_insecure_http =>
      io_lift (reject_unused_attestation attestation) ;;
      label ← io_lift (normalize_label label);
      target ← io_lift (target_normalized target RoleIndexer allow_insecure_http);
      match cc_indexer_source config with
      | Some indexer =>
          mret (config <| cc_indexer_source := Some (indexer <| ix_label := label |> <| ix_target := target |>) |>)
      | None =>
          '(source_id, _) ← fresh_source_id source_ids;
          mret (config <| cc_indexer_source := Some (mkIndexerSource source_id label target) |>)
      end
  | RemoveIndexer =>
      io_lift (reject_unused_attestation attestation) ;;
      match cc_indexer_source config with
      | None => io_bail "Indexer source does not exist"
      | Some _ => mret (config <| cc_indexer_source := None |>)
      end
  end.

(** *** The settings file *)
Definition settings_state_from_stored (stored : StoredBytes) : Result Value :=
  document ← match stored with
             | StoredMissing => Ok document_default
             | StoredPresent bytes =>
                 value ← ok_or "failed to parse settings state" (from_slice bytes);
                 document_from_value value
             end;
  document_into_value document.

Definition load_document_locked : IO SettingsDocument :=
  stored ← read_file FileSettings;
  match stored with
  | StoredMissing => mret document_default
  | StoredPresent bytes =>
      value ← io_lift (ok_or ("failed to parse settings state from " +:+ settings_path) (from_slice bytes));
      io_lift (document_from_value value)
  end.

Definition write_document_locked (document : SettingsDocument) : IO DirectoryDurability :=
  value ← io_lift (document_into_value document);
  atomic_replace FileSettings (to_vec_pretty value).

(** The lock, with the recovery that comes with it. *)
Definition settings_guard : IO () := acquire.

Definition saved_report (durability : DirectoryDurability) : Value :=
  json_object [("saved", VBool true); ("path", VString settings_path); ("version", json_u64 SETTINGS_VERSION);
               ("directory_durability", VString (durability_str durability))].

Definition load : IO Value :=
  settings_guard ;;
  document ← load_document_locked;
  io_lift (document_into_value document).

Definition load_channel_source_configs : IO (list ChannelSourceConfig) :=
  settings_guard ;; document ← load_document_locked; mret (sd_configs document).

Definition save_user_settings (state : Value) : IO Value :=
  settings_guard ;;
  current ← load_document_locked;
  incoming ← io_lift (from_user_value state);
  let fields := match map_get TESTNET_DEFAULT_SCOPES_KEY (sd_fields current) with
                | Some scopes => map_insert TESTNET_DEFAULT_SCOPES_KEY scopes (sd_fields incoming)
                | None => sd_fields incoming
                end in
  durability ← write_document_locked (mkDocument fields (sd_configs current));
  mret (saved_report durability).

Definition restore_defaults : IO Value :=
  settings_guard ;;
  write_document_locked document_default ;;
  io_lift (document_into_value document_default).

Definition testnet_config (network_scope : NetworkScope) (channel_id sequencer_id indexer_id : string)
    : ChannelSourceConfig :=
  mkChannelConfig network_scope channel_id 1
    [mkSequencerSource sequencer_id (Some "Logos Execution Zone Testnet")
       (TargetRpc LEZ_TESTNET_SEQUENCER_ENDPOINT) AttestationPending]
    (Some sequencer_id)
    (Some (mkIndexerSource indexer_id (Some "Local Testnet Indexer") (TargetRpc LOCAL_INDEXER_ENDPOINT))).

Definition add_testnet_config (network_scope : NetworkScope) (channel_id : string)
    (configs : list ChannelSourceConfig) : IO (list ChannelSourceConfig) :=
  '(sequencer_id, source_ids) ← fresh_source_id (configured_source_ids configs);
  '(indexer_id, _) ← fresh_source_id source_ids;
  config ← io_lift (config_normalized (testnet_config network_scope channel_id sequencer_id indexer_id));
  mret (configs ++ [config]).

Definition ensure_testnet_defaults (network_scope : NetworkScope) : IO (list ChannelSourceConfig) :=
  settings_guard ;;
  document ← load_document_locked;
  network_scope ← io_lift (normalize_network_scope network_scope);
  applied_scopes ← io_lift (testnet_default_scopes (sd_fields document));
  if bool_decide (network_scope ∈ applied_scopes) then mret (sd_configs document)
  else
    channel_id ← io_lift (normalize_channel_id LOGOS_TESTNET_CHANNEL_ID);
    configs ← (if bool_decide (is_Some (find_config (network_scope, channel_id) (sd_configs document)))
               then mret (sd_configs document)
               else add_testnet_config network_scope channel_id (sd_configs document));
    let fields := map_insert TESTNET_DEFAULT_SCOPES_KEY
                    (VArray (map network_scope_value (applied_scopes ++ [network_scope]))) (sd_fields document) in
    write_document_locked (mkDocument fields configs) ;;
    mret configs.

Definition config_revision_of (config : option ChannelSourceConfig) : Z := from_option cc_config_revision 0 config.

Definition prepare_mutation (request : ChannelSourceConfigApplyRequest) : IO PreparedChannelSourceMutation :=
  settings_guard ;;
  document ← load_document_locked;
  network_scope ← io_lift (normalize_network_scope (rq_network_scope request));
  channel_id ← io_lift (normalize_channel_id (rq_channel_id request));
  let base_config := find_config (network_scope, channel_id) (sd_configs document) in
  let current_revision := config_revision_of base_config in
  if negb (current_revision =? rq_expected_config_revision request)
  then io_bail ("Channel source configuration revision conflict: expected "
                +:+ pretty (rq_expected_config_revision request) +:+ ", current " +:+ pretty current_revision)
  else
    '(mutation, attestation) ← io_lift (normalized_mutation_plan (rq_mutation request) base_config);
    mret (mkPrepared network_scope channel_id (rq_expected_config_revision request) mutation base_config attestation).

Definition prepared_key (prepared : PreparedChannelSourceMutation) : NetworkScope * string :=
  (pm_network_scope prepared, pm_channel_id prepared).

(** The configuration of the key is replaced, or added at the end. *)
Definition put_config (key : NetworkScope * string) (config : ChannelSourceConfig) (configs : list ChannelSourceConfig)
    : list ChannelSourceConfig :=
  match find_config key configs with
  | Some _ => update_first (λ current, bool_decide (config_key current = key)) config configs
  | None => configs ++ [config]
  end.

Definition commit_prepared_mutation (prepared : PreparedChannelSourceMutation)
    (attestation : option SequencerAttestationReceipt) : IO ChannelSourceConfig :=
  settings_guard ;;
  document ← load_document_locked;
  let current := find_config (prepared_key prepared) (sd_configs document) in
  if negb (bool_decide (current = pm_base_config prepared))
  then io_bail ("Channel source configuration revision conflict: exact target changed after revision "
                +:+ pretty (pm_expected_config_revision prepared) +:+ " was read, current "
                +:+ pretty (config_revision_of current))
  else
    let config := default (mkChannelConfig (pm_network_scope prepared) (pm_channel_id prepared) 0 [] None None)
                    current in
    config ← apply_mutation config (pm_mutation prepared) (configured_source_ids (sd_configs document)) attestation;
    revision ← io_lift (ok_or "Channel source configuration revision overflow"
                          (checked_add (pm_expected_config_revision prepared) 1));
    config ← io_lift (config_normalized (config <| cc_config_revision := revision |>));
    write_document_locked
      (document <| sd_configs := put_config (prepared_key prepared) config (sd_configs document) |>) ;;
    mret config.

Definition apply_request (request : ChannelSourceConfigApplyRequest)
    (attestor : ChannelSourceTarget → Res ChannelSourceProbeFailure SequencerTargetAttestation) (now : Z)
    : IO ChannelSourceConfigApplyOutcome :=
  prepared ← prepare_mutation request;
  '(receipt, attestation) ← io_lift (attest prepared attestor now);
  config ← commit_prepared_mutation prepared receipt;
  mret (mkApplyOutcome config attestation).

(** *** Promotion of a network identity *)
Definition rebind_source (new_scope : NetworkScope) (source : ConfiguredSequencerSource) : ConfiguredSequencerSource :=
  match sq_channel_attestation source with
  | PersistedEvidenceMatched channel_id target_fingerprint matched_at_unix evidence =>
      source <| sq_channel_attestation :=
        PersistedEvidenceMatched channel_id target_fingerprint matched_at_unix
          (evidence <| eb_network_scope := new_scope |>) |>
  | _ => source
  end.
Definition rebind_config (new_scope : NetworkScope) (config : ChannelSourceConfig) : ChannelSourceConfig :=
  config <| cc_network_scope := new_scope |> <| cc_sequencer_sources ::= map (rebind_source new_scope) |>.

Fixpoint merge_moved (new_scope : NetworkScope) (moved retained : list ChannelSourceConfig)
    : Result (list ChannelSourceConfig) :=
  match moved with
  | [] => Ok retained
  | config :: moved' =>
      match find_config (new_scope, cc_channel_id config) retained with
      | Some existing =>
          if bool_decide (existing = config) then merge_moved new_scope moved' retained
          else bail ("Channel source configuration conflicts at promoted network scope for `"
                     +:+ cc_channel_id config +:+ "`")
      | None => merge_moved new_scope moved' (retained ++ [config])
      end
  end.

Definition rebind_network_scope (old_scope new_scope : NetworkScope) : IO () :=
  settings_guard ;;
  old_scope ← io_lift (normalize_network_scope old_scope);
  new_scope ← io_lift (normalize_network_scope new_scope);
  if bool_decide (old_scope = new_scope) then mret ()
  else if is_genesis old_scope || negb (is_genesis new_scope)
  then io_bail "Channel source network scope can only follow verified identity promotion"
  else
    document ← load_document_locked;
    let is_old config := bool_decide (cc_network_scope config = old_scope) in
    let retained := List.filter (λ config, negb (is_old config)) (sd_configs document) in
    let moved := map (rebind_config new_scope) (List.filter is_old (sd_configs document)) in
    if bool_decide (moved = []) then mret ()
    else
      configs ← io_lift (merge_moved new_scope moved retained);
      write_document_locked (document <| sd_configs := configs |>) ;;
      mret ().
End store.
