(* ===== verification/ChannelStoreTheorems.v ===== *)
(** * The store keeps what it is given

    A settings document is read back as it was written; a mutation is committed
    to exactly the configuration it was prepared for; and no source counts as
    attested unless an attestor said so of its target. *)

From S2P Require Import Prelude Json Bytes OperationSpec SourceModes NodeRequests.
From S2P Require Import CatalogModel InstructionTarget LocalState DiskLogic LocalStateTheorems LocalStateAtomic.
From S2P Require Import EntityIds TextLemmas ChannelConfig ChannelConfigTheorems ChannelStore.

(** ** Ranges of what was read *)
Lemma de_field_Some {A} (decode : Value → option A) field a :
  de_field decode field = Some a → ∃ value, field = Some value ∧ decode value = Some a.
Proof. destruct field as [value|]; [by eauto|done]. Qed.

Ltac read_fields :=
  repeat match goal with
  | H : match struct_fields ?n ?v with _ => _ end = Some _ |- _ =>
      destruct (struct_fields n v) as [[|? fields]|]; [done| |done]
  | H : match struct_fields_strict ?n ?v with _ => _ end = Some _ |- _ =>
      destruct (struct_fields_strict n v) as [[|? fields]|]; [done| |done]
  | H : match ?fs with [] => _ | _ :: _ => _ end = Some _ |- _ => destruct fs; try done
  | H : (_ ≫= _) = Some _ |- _ => apply bind_Some in H as (? & ? & H)
  | H : (_ <$> _) = Some _ |- _ => apply fmap_Some in H as (? & ? & H)
  | H : de_field _ _ = Some _ |- _ => apply de_field_Some in H as (? & ? & H)
  | H : as_u64 _ = Some _ |- _ => apply as_u64_range in H
  end; simplify_eq/=.

Lemma as_u32_range value n : as_u32 value = Some n → 0 ≤ n < 2 ^ 32.
Proof.
  unfold as_u32. intros (m & Hm%as_u64_range & Hn)%bind_Some. destruct (Z.ltb_spec m (2 ^ 32)); [|done].
  injection Hn as <-. unfold in_u64 in Hm. lia.
Qed.

Lemma de_network_scope_ranges value scope : de_network_scope value = Some scope → scope_ranges scope.
Proof.
  unfold de_network_scope. intros ([tag content] & _ & Hs)%bind_Some.
  destruct (String.eqb tag "genesis_id"); [read_fields; done|].
  destruct (String.eqb tag "finalized_anchor"); [|done]. read_fields. done.
Qed.

Lemma de_evidence_ranges value e : de_evidence_basis value = Some e → evidence_ranges e.
Proof.
  unfold de_evidence_basis. intros He. read_fields. unfold evidence_ranges. simpl.
  split; [by eapply de_network_scope_ranges|]. split; [done|]. split; [by eapply as_u32_range|done].
Qed.

Lemma de_attestation_ranges value a : de_attestation value = Some a → attestation_ranges a.
Proof.
  unfold de_attestation. intros ([tag content] & _ & Hs)%bind_Some.
  destruct (String.eqb tag "pending"); [by simplify_eq|].
  destruct (String.eqb tag "persisted_attested"); [read_fields; done|].
  destruct (String.eqb tag "persisted_evidence_matched"); [|done]. read_fields.
  split; [done|]. by eapply de_evidence_ranges.
Qed.

Lemma de_sequencer_ranges value s : de_sequencer_source value = Some s → attestation_ranges (sq_channel_attestation s).
Proof. unfold de_sequencer_source. intros Hs. read_fields. by eapply de_attestation_ranges. Qed.

Lemma mapM_Forall {A} (P : A → Prop) (read : Value → option A) values xs :
  (∀ v x, read v = Some x → P x) → mapM read values = Some xs → Forall P xs.
Proof.
  intros Hread. revert xs. induction values as [|v values IH]; intros xs; simpl; [by intros [= <-]|].
  intros (x & Hx & (xs' & Hxs & [= <-])%bind_Some)%bind_Some. constructor; eauto.
Qed.

Lemma de_config_ranges value c : de_channel_config value = Some c → config_ranges c.
Proof.
  unfold de_channel_config. intros Hc. read_fields. unfold config_ranges. simpl.
  split_and!; [by eapply de_network_scope_ranges|done|]. eapply mapM_Forall; [|done]. apply de_sequencer_ranges.
Qed.

Lemma de_configs_ranges value configs : de_configs value = Some configs → Forall config_ranges configs.
Proof.
  unfold de_configs. intros (items & _ & Hm)%bind_Some. eapply mapM_Forall; [|done]. apply de_config_ranges.
Qed.

(** ** Objects *)
Lemma map_remove_insert k v m : map_get k m = None → map_remove k (map_insert k v m) = m.
Proof.
  induction m as [|[k' v'] m IH]; simpl; [by rewrite String.eqb_refl|].
  destruct (String.eqb_spec k k') as [->|Hne]; [done|]. intros Hm.
  destruct (String.compare k k') eqn:E; simpl; rewrite ?String.eqb_refl; try done.
  - by apply String.compare_eq_iff in E.
  - rewrite IH by done. by destruct (String.eqb_spec k k').
Qed.

Lemma map_get_None k (m : Map) : map_get k m = None ↔ k ∉ map fst m.
Proof.
  induction m as [|[k' v'] m IH]; simpl; [set_solver|]. destruct (String.eqb_spec k k') as [->|Hne]; set_solver.
Qed.

Lemma map_remove_sub k (m : Map) : sublist (map fst (map_remove k m)) (map fst m).
Proof.
  induction m as [|[k' v'] m IH]; simpl; [constructor|].
  destruct (String.eqb_spec k k'); [by apply sublist_cons|by apply sublist_skip].
Qed.

Lemma map_remove_gone k (m : Map) : NoDup (map fst m) → map_get k (map_remove k m) = None.
Proof.
  induction m as [|[k' v'] m IH]; simpl; [done|]. inversion 1 as [|? ? Hk Hnd]; subst.
  destruct (String.eqb_spec k k') as [->|Hne]; [by apply map_get_None|]. simpl.
  destruct (String.eqb_spec k k'); [done|by apply IH].
Qed.

Lemma map_remove_absent k k' (m : Map) : map_get k m = None → map_get k (map_remove k' m) = None.
Proof.
  rewrite !map_get_None. intros Hk Hin. apply Hk. eapply elem_of_sublist; [exact Hin|apply map_remove_sub].
Qed.

(** ** The settings document *)
Section documents.
Context `{UrlLaws} `{HexCrate} `{Sha2Crate}.
#[local] Set Default Proof Using "Type*".

Lemma normalize_scope_ranges scope scope' :
  scope_ranges scope → normalize_network_scope scope = Ok scope' → scope_ranges scope'.
Proof.
  destruct scope as [g|time slot block parent]; simpl; intros Hs.
  - by intros (g' & _ & [= <-])%bind_Ok.
  - destruct (_ || _); [done|]. by intros (b & _ & (p & _ & [= <-])%bind_Ok)%bind_Ok.
Qed.

Lemma normalized_attestation_ranges a scope channel_id target a' :
  attestation_ranges a → normalized_attestation a scope channel_id target = Ok a' → attestation_ranges a'.
Proof.
  destruct a as [|ch fp t|ch fp t e]; cbn [normalized_attestation attestation_ranges]; [by intros _ [= <-]|..].
  - intros Ht (c & _ & Ha)%bind_Ok. destruct (negb _); [done|]. destruct (negb _); [done|]. by injection Ha as <-.
  - intros [Ht He] (c & _ & Ha)%bind_Ok. destruct (negb _); [done|]. destruct (negb _); [done|].
    apply bind_Ok in Ha as (e' & Hev & [= <-]). split; [done|]. unfold normalized_finalized_l1_evidence in Hev.
    apply bind_Ok in Hev as (sc & Hsc & Hev). destruct (negb _); [done|].
    apply bind_Ok in Hev as (? & _ & (? & _ & (? & _ & (? & _ & (? & _ & [= <-])%bind_Ok)%bind_Ok)%bind_Ok)%bind_Ok).
    destruct He as (Hes & He). split; [by eapply normalize_scope_ranges|done].
Qed.

Lemma normalized_sequencers_ranges scope channel_id seen sources sources' :
  Forall (λ s, attestation_ranges (sq_channel_attestation s)) sources →
  normalized_sequencers scope channel_id seen sources = Ok sources' →
  Forall (λ s, attestation_ranges (sq_channel_attestation s)) sources'.
Proof.
  intros Hall. revert seen sources'. induction Hall as [|s sources Hs _ IH]; intros seen sources'; simpl.
  { by intros [= <-]. }
  intros (s' & Hs' & (rest & Hr & [= <-])%bind_Ok)%bind_Ok. constructor; [|by eapply IH].
  unfold normalized_sequencer in Hs'. apply bind_Ok in Hs' as (id & _ & Hs'). destruct (bool_decide _); [done|].
  apply bind_Ok in Hs' as (l & _ & (t & _ & (a & Ha & [= <-])%bind_Ok)%bind_Ok). simpl.
  by eapply normalized_attestation_ranges.
Qed.

Lemma config_normalized_ranges c c' : config_ranges c → config_normalized c = Ok c' → config_ranges c'.
Proof.
  intros (Hs & Hr & Hq). unfold config_normalized. intros (sc & Hsc & (ch & _ & Hc)%bind_Ok)%bind_Ok.
  destruct (_ =? 0); [done|]. apply bind_Ok in Hc as (sq & Hsq & (ix & _ & (sel & _ & [= <-])%bind_Ok)%bind_Ok).
  split; [by eapply normalize_scope_ranges|]. split; [done|]. by eapply normalized_sequencers_ranges.
Qed.

Lemma normalize_configs_ranges keys seen configs configs' :
  Forall config_ranges configs → normalize_configs_from keys seen configs = Ok configs' → Forall config_ranges configs'.
Proof.
  intros Hall. revert keys seen configs'. induction Hall as [|c configs Hc _ IH]; intros keys seen configs'; simpl.
  { by intros [= <-]. }
  intros (c' & Hc' & Hrest)%bind_Ok. destruct (bool_decide _); [done|].
  apply bind_Ok in Hrest as (seen' & _ & (rest & Hr & [= <-])%bind_Ok). constructor; [|by eapply IH].
  by eapply config_normalized_ranges.
Qed.

(** What [document_from_value] makes of an object whose keys are distinct. *)
Record document_ok (doc : SettingsDocument) : Prop := {
  do_version : map_get "version" (sd_fields doc) = None;
  do_configs_key : map_get CHANNEL_SOURCE_CONFIGS_KEY (sd_fields doc) = None;
  do_configs : configs_ok (sd_configs doc);
  do_ranges : Forall config_ranges (sd_configs doc);
}.

Lemma document_from_value_ok fields doc :
  NoDup (map fst fields) → document_from_value (VObject fields) = Ok doc → document_ok doc.
Proof.
  intros Hnd. unfold document_from_value. cbn [as_object ok_or]. rewrite Ok_bind.
  intros (version & _ & (configs & Hconfigs & [= <-])%bind_Ok)%bind_Ok.
  assert (Hcs : configs_ok configs ∧ Forall config_ranges configs).
  { destruct (version =? SETTINGS_VERSION); [|injection Hconfigs as <-; repeat constructor].
    apply bind_Ok in Hconfigs as (cs & Hcs%ok_or_Ok & Hn). split; [by eapply normalize_configs_spec|].
    by eapply normalize_configs_ranges; [eapply de_configs_ranges|]. }
  destruct Hcs. split; cbn; [| |done|done].
  - apply map_remove_gone. eapply sublist_NoDup; [done|apply map_remove_sub].
  - by apply map_remove_absent, map_remove_gone.
Qed.

Lemma document_read_back doc :
  document_ok doc → ∃ v, document_into_value doc = Ok v ∧ document_from_value v = Ok doc.
Proof.
  intros [Hv Hk Hc Hr]. unfold document_into_value. rewrite (normalize_configs_ok _ Hc), Ok_bind. eexists. split; [done|].
  assert (Hne : "version" ≠ CHANNEL_SOURCE_CONFIGS_KEY) by (unfold CHANNEL_SOURCE_CONFIGS_KEY; discriminate).
  assert (Hversion : settings_version (Some (json_u64 SETTINGS_VERSION)) = Ok SETTINGS_VERSION) by done.
  unfold document_from_value. cbn [as_object ok_or]. rewrite Ok_bind.
  rewrite (map_get_insert_ne "version") by done. rewrite !map_get_insert_eq, Hversion, Ok_bind.
  cbn [default]. unfold default, from_option, id.
  rewrite (map_remove_insert CHANNEL_SOURCE_CONFIGS_KEY) by (rewrite map_get_insert_ne by congruence; done).
  rewrite (map_remove_insert "version") by done.
  change (SETTINGS_VERSION =? SETTINGS_VERSION) with true. rewrite (configs_read _ Hr). cbn [ok_or].
  rewrite Ok_bind, (normalize_configs_ok _ Hc), Ok_bind. by destruct doc.
Qed.

(** Settings are stable: an object that is accepted as the settings state
    (its keys are distinct, as those of a map are) has configurations whose
    sources and channels are distinct, and whose attestations are of the target
    and the channel they are stored with; and writing the document and reading
    it again gives the same document. *)
Theorem settings_document_roundtrip fields doc :
  NoDup (map fst fields) → document_from_value (VObject fields) = Ok doc →
  configs_ok (sd_configs doc)
  ∧ ∃ v, document_into_value doc = Ok v ∧ document_from_value v = Ok doc.
Proof.
  intros Hnd Hd. pose proof (document_from_value_ok _ _ Hnd Hd) as Hok. split; [apply Hok|by apply document_read_back].
Qed.
End documents.

(** ** Where attestations come from *)
Lemma elem_update_first {A} (p : A → bool) new l a : a ∈ update_first p new l → a = new ∨ a ∈ l.
Proof.
  induction l as [|b l IH]; simpl; [by intros ?%elem_of_nil|].
  destruct (p b); intros [->|Hin]%elem_of_cons; rewrite ?elem_of_cons; auto. destruct (IH Hin); auto.
Qed.

Lemma find_elem_spec {A} (p : A → bool) l a : List.find p l = Some a → a ∈ l ∧ p a = true.
Proof. intros [Hin Hp]%find_some. by rewrite list_elem_of_In. Qed.

Section origins.
Context `{env : Environment} `{UrlLaws} `{HexCrate} `{Sha2Crate}.
#[local] Set Default Proof Using "Type*".

(** A source that keeps its target and its attestation. *)
Definition kept_source (config : ChannelSourceConfig) (s : ConfiguredSequencerSource) : Prop :=
  ∃ s0, s0 ∈ cc_sequencer_sources config ∧ sq_source_id s0 = sq_source_id s ∧ sq_target s0 = sq_target s
        ∧ sq_channel_attestation s0 = sq_channel_attestation s.

(** A source whose attestation the mutation sets, with the target it is of. *)
Definition set_source (config : ChannelSourceConfig) (mutation : ChannelSourceConfigMutation)
    (receipt : option SequencerAttestationReceipt) (s : ConfiguredSequencerSource) : Prop :=
  sequencer_attestation (cc_channel_id config) (sq_target s) receipt = Ok (sq_channel_attestation s)
  ∧ match mutation with
    | AddSequencer _ target insecure | UpdateSequencer _ _ target insecure =>
        target_normalized target RoleSequencer insecure = Ok (sq_target s)
    | RetryAttestation source_id =>
        ∃ s0, required_sequencer_source (Some config) source_id = Ok s0 ∧ sq_target s0 = sq_target s
    | _ => False
    end.

Definition sources_from (config : ChannelSourceConfig) (mutation : ChannelSourceConfigMutation)
    (receipt : option SequencerAttestationReceipt) (c : ChannelSourceConfig) : Prop :=
  config_key c = config_key config
  ∧ ∀ s, s ∈ cc_sequencer_sources c → kept_source config s ∨ set_source config mutation receipt s.

Lemma kept_self config s : s ∈ cc_sequencer_sources config → kept_source config s.
Proof. intros Hs. by exists s. Qed.

Lemma dwp_lift_ok {A} (r : Result A) (Q : A → Disk → Prop) (E : StateError → Disk → Prop) d :
  (∀ a, r = Ok a → Q a d) → (∀ e, E e d) → dwp (io_lift r) Q E d.
Proof. intros HQ HE. apply dwp_lift; auto. Qed.

Lemma generate_source_id_spec Q E d : (∀ id, Q id d) → (∀ e : StateError, E e d) → dwp generate_source_id Q E d.
Proof. intros HQ HE. apply dwp_bind, dwp_do; [|done]. apply dwp_bind, dwp_get. intros s _. by apply dwp_ret. Qed.

Lemma fresh_source_id_spec ids Q E d :
  (∀ id, id ∉ ids → Q (id, id :: ids) d) → (∀ e : StateError, E e d) → dwp (fresh_source_id ids) Q E d.
Proof.
  intros HQ HE. unfold fresh_source_id. induction SOURCE_ID_GENERATION_ATTEMPTS as [|n IH]; simpl; [by apply dwp_bail|].
  apply dwp_bind, generate_source_id_spec; [|done]. intros id. case_bool_decide; [done|]. by apply dwp_ret, HQ.
Qed.

Lemma required_source_Some config id s :
  required_sequencer_source (Some config) id = Ok s → s ∈ cc_sequencer_sources config ∧ sq_source_id s = id.
Proof. intros Hs%ok_or_Ok. apply find_elem_spec in Hs as [Hin Hid]. split; [done|by apply String.eqb_eq]. Qed.

Lemma sources_unchanged config mutation receipt c :
  config_key c = config_key config → (∀ s, s ∈ cc_sequencer_sources c → s ∈ cc_sequencer_sources config) →
  sources_from config mutation receipt c.
Proof. intros Hk Hs. split; [done|]. intros s Hin. left. by apply kept_self, Hs. Qed.

Lemma update_sequencer_spec config id label target insecure receipt source d target' att :
  source ∈ cc_sequencer_sources config → target_normalized target RoleSequencer insecure = Ok target' →
  (att = sq_channel_attestation source ∧ sq_target source = target')
  ∨ sequencer_attestation (cc_channel_id config) target' receipt = Ok att →
  dwp (label' ← io_lift (normalize_label label);
       mret (config <| cc_sequencer_sources ::= update_first (is_source id)
         (mkSequencerSource (sq_source_id source) label' target' att) |>))
    (λ c d', d' = d ∧ sources_from config (UpdateSequencer id label target insecure) receipt c) (λ _ d', d' = d) d.
Proof.
  intros Hs Ht Hatt. apply dwp_bind, dwp_lift_ok; [|done]. intros label' _. apply dwp_ret.
  split; [done|]. split; [done|]. cbn. intros s [->|Hin]%elem_update_first; [|left; by apply kept_self].
  destruct Hatt as [[-> <-]|Hatt]; [left; by exists source|right; by split].
Qed.

Lemma apply_mutation_spec config mutation ids receipt d :
  dwp (apply_mutation config mutation ids receipt) (λ c d', d' = d ∧ sources_from config mutation receipt c)
    (λ _ d', d' = d) d.
Proof.
  destruct mutation as [label target insecure|id label target insecure|id|id|id|label target insecure|];
    cbn [apply_mutation].
  - apply dwp_bind, fresh_source_id_spec; [|done]. intros id _. apply dwp_bind, dwp_lift_ok; [|done].
    intros target' Ht. apply dwp_bind, dwp_lift_ok; [|done]. intros att Ha. apply dwp_bind, dwp_lift_ok; [|done].
    intros label' _. apply dwp_ret. split; [done|]. split; [done|]. cbn.
    intros s [Hs|Hs]%elem_of_app; [left; by apply kept_self|].
    apply list_elem_of_singleton in Hs as ->. right. by split.
  - apply dwp_bind, dwp_lift_ok; [|done]. intros id' Hid. apply dwp_bind, dwp_lift_ok; [|done]. intros target' Ht.
    rewrite (validate_source_id_same _ _ Hid). apply dwp_bind, dwp_lift_ok; [|done].
    intros source [Hs _]%required_source_Some. apply dwp_bind. destruct (negb _ || _) eqn:Hc.
    { apply dwp_lift_ok; [|done]. intros att Ha. apply update_sequencer_spec; auto. }
    apply dwp_ret, update_sequencer_spec; [done..|]. left. split; [done|]. apply orb_false_iff in Hc as [Hc _].
    by apply negb_false_iff, bool_decide_eq_true in Hc.
  - apply dwp_bind, dwp_lift_ok; [intros _ _|done]. apply dwp_bind, dwp_lift_ok; [|done]. intros id' _. cbv zeta.
    destruct (_ =? _); [by apply dwp_bail|]. apply dwp_ret. split; [done|]. apply sources_unchanged; [done|]. cbn.
    intros s [Hs _]%list_elem_of_In%filter_In. by apply list_elem_of_In.
  - apply dwp_bind, dwp_lift_ok; [intros _ _|done]. apply dwp_bind, dwp_lift_ok; [|done]. intros id' _.
    apply dwp_bind, dwp_lift_ok; [intros _ _|done]. apply dwp_ret. split; [done|]. by apply sources_unchanged.
  - apply dwp_bind, dwp_lift_ok; [|done]. intros id' Hid. apply dwp_bind, dwp_lift_ok; [|done].
    intros receipt' Hr%ok_or_Ok. apply dwp_bind, dwp_lift_ok; [|done]. intros source Hs.
    apply dwp_bind, dwp_lift_ok; [|done]. intros att Ha. apply dwp_ret. split; [done|]. split; [done|]. cbn.
    intros s [->|Hin]%elem_update_first; [right|left; by apply kept_self]. rewrite Hr. split; [done|].
    exists source. split; [|done]. by rewrite <- (validate_source_id_same _ _ Hid).
  - apply dwp_bind, dwp_lift_ok; [intros _ _|done]. apply dwp_bind, dwp_lift_ok; [|done]. intros label' _.
    apply dwp_bind, dwp_lift_ok; [|done]. intros target' _. destruct (cc_indexer_source config) as [indexer|].
    + apply dwp_ret. split; [done|]. by apply sources_unchanged.
    + apply dwp_bind, fresh_source_id_spec; [|done]. intros id _. apply dwp_ret. split; [done|]. by apply sources_unchanged.
  - apply dwp_bind, dwp_lift_ok; [intros _ _|done]. destruct (cc_indexer_source config); [|by apply dwp_bail].
    apply dwp_ret. split; [done|]. by apply sources_unchanged.
Qed.
End origins.

(** *** Through the normalization *)
Section normalization.
Context `{UrlLaws} `{HexCrate} `{Sha2Crate}.
#[local] Set Default Proof Using "Type*".

Lemma endpoint_flag value insecure text :
  normalized_rpc_endpoint value insecure = Ok text → normalized_rpc_endpoint value true = Ok text.
Proof.
  unfold normalized_rpc_endpoint. destruct (has_control value); [done|]. cbv zeta. destruct (is_empty (trim value)); [done|].
  destruct (ok_or _ (split_once _ _)) as [[before rest]|]; [|done]. rewrite !Ok_bind.
  destruct (starts_with "/" rest); [done|]. destruct (ok_or _ (url_parse _)) as [u|]; [|done]. rewrite !Ok_bind.
  destruct (check_endpoint u); [|done]. rewrite !Ok_bind.
  destruct (if bool_decide _ then _ else _) as [u'|]; [|done]. rewrite !Ok_bind, !andb_false_r.
  by destruct (_ && _ && _).
Qed.

Lemma target_flag target role insecure target' :
  target_normalized target role insecure = Ok target' → target_normalized target role true = Ok target'.
Proof.
  destruct target as [endpoint|module_id]; simpl; [|done].
  intros (e & He & [= <-])%bind_Ok. by rewrite (endpoint_flag _ _ _ He).
Qed.

(** A target that was normalized stays the same. *)
Lemma target_same target role insecure target' insecure' target'' :
  target_normalized target role insecure = Ok target' → target_normalized target' role insecure' = Ok target'' →
  target'' = target'.
Proof.
  intros Hf%target_normalized_fixed Hs%target_flag. rewrite Hf in Hs. by injection Hs.
Qed.

(** The source [s] after normalization. *)
Definition normalizes (scope : NetworkScope) (channel_id : string) (s s' : ConfiguredSequencerSource) : Prop :=
  sq_source_id s' = sq_source_id s ∧ target_normalized (sq_target s) RoleSequencer true = Ok (sq_target s')
  ∧ normalized_attestation (sq_channel_attestation s) scope channel_id (sq_target s') = Ok (sq_channel_attestation s').

Lemma normalized_sequencers_each scope channel_id seen sources sources' :
  normalized_sequencers scope channel_id seen sources = Ok sources' → Forall2 (normalizes scope channel_id) sources sources'.
Proof.
  revert seen sources'. induction sources as [|s sources IH]; intros seen sources'; simpl; [by intros [= <-]|].
  intros (s' & Hs & (rest & Hr & [= <-])%bind_Ok)%bind_Ok. constructor; [|by eapply IH].
  unfold normalized_sequencer in Hs. apply bind_Ok in Hs as (id & Hid & Hs). destruct (bool_decide _); [done|].
  apply bind_Ok in Hs as (l & _ & (t & Ht & (a & Ha & [= <-])%bind_Ok)%bind_Ok).
  split_and!; [by apply validate_source_id_same|done..].
Qed.

Lemma config_normalized_each c c' :
  config_normalized c = Ok c' →
  Forall2 (normalizes (cc_network_scope c') (cc_channel_id c')) (cc_sequencer_sources c) (cc_sequencer_sources c').
Proof.
  unfold config_normalized. intros (sc & Hsc & (ch & _ & Hc)%bind_Ok)%bind_Ok. destruct (_ =? 0); [done|].
  apply bind_Ok in Hc as (sq & Hsq & (ix & _ & (sel & _ & [= <-])%bind_Ok)%bind_Ok). cbn.
  by eapply normalized_sequencers_each.
Qed.

(** The sources of a normalized configuration stay as they are. *)
Lemma normalizes_self c s :
  config_ok c → s ∈ cc_sequencer_sources c → normalizes (cc_network_scope c) (cc_channel_id c) s s.
Proof.
  intros Hok Hin. pose proof (config_normalized_each _ _ (ok_fixed _ Hok)) as Hall.
  apply list_elem_of_lookup in Hin as [i Hi]. by destruct (Forall2_lookup_l _ _ _ _ _ Hall Hi) as (s' & Hi' & Hs); simplify_eq.
Qed.

Lemma normalizes_kept base s s' :
  config_ok base → kept_source base s → normalizes (cc_network_scope base) (cc_channel_id base) s s' →
  kept_source base s'.
Proof.
  intros Hok (s0 & Hin & Hid & Ht & Ha) (Hid' & Ht' & Ha').
  destruct (normalizes_self _ _ Hok Hin) as (_ & Hts & Has). exists s0. rewrite Ht in Hts. rewrite Hts in Ht'.
  injection Ht' as Ht'. rewrite Ht, Ht', Ha in Has. rewrite Has in Ha'. injection Ha' as Ha'.
  split_and!; [done|congruence..].
Qed.
End normalization.

(** ** Preparing and attesting *)
Section attesting.
Context `{UrlLaws} `{HexCrate} `{Sha2Crate}.
#[local] Set Default Proof Using "Type*".
Context (attestor : ChannelSourceTarget → Res ChannelSourceProbeFailure SequencerTargetAttestation).

(** The attestor, asked about the target of this source, named this channel,
    and its answer is what is stored. *)
Definition answered (scope : NetworkScope) (channel_id : string) (s : ConfiguredSequencerSource) : Prop :=
  ∃ a, attestor (sq_target s) = ROk a ∧ normalize_channel_id (ta_channel_id a) = Ok channel_id
    ∧ match sq_channel_attestation s with
      | AttestationPending => False
      | PersistedAttested _ _ _ => ta_basis a = RpcReported
      | PersistedEvidenceMatched _ _ _ e =>
          ∃ e0, ta_basis a = UserTrustedFinalizedL1Evidence e0 ∧ normalized_finalized_l1_evidence e0 scope = Ok e
      end.

(** The target of a plan is the one the mutation sets or keeps. *)
Definition plan_target_of (base : option ChannelSourceConfig) (mutation : ChannelSourceConfigMutation)
    (target : ChannelSourceTarget) : Prop :=
  match mutation with
  | AddSequencer _ t _ | UpdateSequencer _ _ t _ =>
      t = target ∧ ∃ t0 insecure, target_normalized t0 RoleSequencer insecure = Ok t
  | RetryAttestation source_id => ∃ s, required_sequencer_source base source_id = Ok s ∧ sq_target s = target
  | _ => False
  end.

Lemma mutation_plan_target mutation base mutation' plan :
  normalized_mutation_plan mutation base = Ok (mutation', Some plan) →
  plan_target_of base mutation' (ap_plan_target plan).
Proof.
  destruct mutation as [label target insecure|id label target insecure|id|id|id|label target insecure|];
    cbn [normalized_mutation_plan].
  - intros (l & _ & (t & Ht & [= <- <-])%bind_Ok)%bind_Ok. split; [done|by eauto].
  - intros (i & _ & (l & _ & (t & Ht & (s & _ & Hm)%bind_Ok)%bind_Ok)%bind_Ok)%bind_Ok.
    case_bool_decide; [done|]. injection Hm as <- <-. split; [done|by eauto].
  - by intros (i & _ & (s & _ & [= ])%bind_Ok)%bind_Ok.
  - by intros (i & _ & (s & _ & [= ])%bind_Ok)%bind_Ok.
  - intros (i & _ & (s & Hs & [= <- <-])%bind_Ok)%bind_Ok. by exists s.
  - by intros (l & _ & (t & _ & [= ])%bind_Ok)%bind_Ok.
  - by destruct (base ≫= cc_indexer_source).
Qed.

Lemma attest_receipt prepared now receipt outcome :
  attest prepared attestor now = Ok (Some receipt, outcome) →
  ∃ plan a, pm_attestation prepared = Some plan ∧ attestor (ap_plan_target plan) = ROk a
    ∧ normalize_channel_id (ta_channel_id a) = Ok (pm_channel_id prepared)
    ∧ ar_channel_id receipt = pm_channel_id prepared ∧ ar_basis receipt = ta_basis a.
Proof.
  unfold attest. destruct (pm_attestation prepared) as [plan|]; [|done].
  destruct (attestor (ap_plan_target plan)) as [a|failure] eqn:Ha; [|by destruct (_ && _)].
  intros (ch & Hch & Hr)%bind_Ok. destruct (String.eqb_spec ch (pm_channel_id prepared)) as [->|]; [|done].
  injection Hr as <- _. by eauto 10.
Qed.

(** Normalization keeps the kind of an attestation and normalizes its evidence. *)
Lemma normalized_receipt scope channel_id target receipt att att' :
  sequencer_attestation channel_id target (Some receipt) = Ok att →
  normalized_attestation att scope channel_id target = Ok att' →
  match att' with
  | AttestationPending => False
  | PersistedAttested _ _ _ => ar_basis receipt = RpcReported
  | PersistedEvidenceMatched _ _ _ e =>
      ∃ e0, ar_basis receipt = UserTrustedFinalizedL1Evidence e0 ∧ normalized_finalized_l1_evidence e0 scope = Ok e
  end.
Proof.
  cbn [sequencer_attestation]. intros (ch & _ & Ha)%bind_Ok. destruct (negb _); [done|]. cbv zeta in Ha.
  destruct (negb _); [done|]. destruct (ar_basis receipt) as [|e0]; injection Ha as <-; cbn [normalized_attestation].
  - intros (ch' & _ & Ha)%bind_Ok. destruct (negb _); [done|]. destruct (negb _); [done|]. by injection Ha as <-.
  - intros (ch' & _ & Ha)%bind_Ok. destruct (negb _); [done|]. destruct (negb _); [done|].
    apply bind_Ok in Ha as (e & He & [= <-]). by eauto.
Qed.

(** The configuration that a mutation starts from. *)
Definition starts_from (base : option ChannelSourceConfig) (config : ChannelSourceConfig) : Prop :=
  match base with Some c => c = config ∧ config_ok config | None => cc_sequencer_sources config = [] end.

Lemma set_target_planned base config mutation receipt target s s' scope channel_id :
  starts_from base config → plan_target_of base mutation target → set_source config mutation receipt s →
  config_key config = (scope, channel_id) → normalizes scope channel_id s s' →
  sq_target s = target ∧ sq_target s' = target.
Proof.
  intros Hbase Hplan [_ Hset] [= <- <-] (_ & Ht' & _).
  assert (Hfixed : ∀ t0 insecure t insecure', target_normalized t0 RoleSequencer insecure = Ok t →
    target_normalized t RoleSequencer insecure' = Ok (sq_target s) → sq_target s = t ∧ sq_target s' = t).
  { intros t0 insecure t insecure' Ht0 Ht. pose proof (target_same _ _ _ _ _ _ Ht0 Ht) as Hs. rewrite Hs in Ht'.
    split; [done|]. by apply (target_same _ _ _ _ _ _ Ht0 Ht'). }
  destruct mutation as [l t i|i l t ins|i|i|i|l t i|]; try done.
  - destruct Hplan as [<- (t0 & insecure & Ht0)]. by eapply Hfixed.
  - destruct Hplan as [<- (t0 & insecure & Ht0)]. by eapply Hfixed.
  - destruct Hplan as (s1 & Hs1 & <-), Hset as (s0 & Hs0 & Hts). destruct base as [c|]; [|done].
    destruct Hbase as [-> Hok]. rewrite Hs0 in Hs1. injection Hs1 as ->. split; [done|].
    apply required_source_Some in Hs0 as [Hin _]. destruct (normalizes_self _ _ Hok Hin) as (_ & Hself & _).
    rewrite <- Hts, Hself in Ht'. by injection Ht'.
Qed.

(** What the mutation sets is pending or answered. *)
Lemma set_source_answered prepared config now receipt outcome s s' :
  starts_from (pm_base_config prepared) config → config_key config = (pm_network_scope prepared, pm_channel_id prepared) →
  (∀ plan, pm_attestation prepared = Some plan →
    plan_target_of (pm_base_config prepared) (pm_mutation prepared) (ap_plan_target plan)) →
  attest prepared attestor now = Ok (receipt, outcome) →
  set_source config (pm_mutation prepared) receipt s →
  normalizes (pm_network_scope prepared) (pm_channel_id prepared) s s' →
  sq_channel_attestation s' = AttestationPending ∨ answered (pm_network_scope prepared) (pm_channel_id prepared) s'.
Proof.
  intros Hbase Hkey Hplan Hatt Hset Hn. destruct receipt as [receipt|].
  2:{ left. destruct Hset as [Hset _], Hn as (_ & _ & Ha). injection Hset as Hset. rewrite <- Hset in Ha.
      by injection Ha. }
  right. destruct (attest_receipt _ _ _ _ Hatt) as (plan & a & Hp & Ha & Hch & _ & Hb).
  destruct (set_target_planned _ _ _ _ _ _ _ _ _ Hbase (Hplan plan Hp) Hset Hkey Hn) as [Hs Hs'].
  exists a. rewrite Hs'. split_and!; [done..|]. rewrite <- Hb. injection Hkey as _ Hchannel.
  destruct Hset as [Hset _], Hn as (_ & _ & Hna). rewrite Hchannel, Hs in Hset. rewrite Hs' in Hna.
  by eapply normalized_receipt.
Qed.
End attesting.

(** ** Committing *)
Lemma find_update_first key c configs key' :
  config_key c = key → is_Some (find_config key configs) →
  find_config key' (update_first (λ current, bool_decide (config_key current = key)) c configs)
  = if decide (key' = key) then Some c else find_config key' configs.
Proof.
  intros Hc. unfold find_config. induction configs as [|c0 configs IH]; simpl; [by intros []|].
  destruct (bool_decide (config_key c0 = key)) eqn:E; simpl.
  - apply bool_decide_eq_true in E. intros _. rewrite Hc. destruct (decide (key' = key)) as [->|Hne].
    + by rewrite bool_decide_true.
    + rewrite bool_decide_false by congruence. by rewrite (bool_decide_false (config_key c0 = key')) by congruence.
  - apply bool_decide_eq_false in E. intros Hs. rewrite IH by done. destruct (decide (key' = key)) as [->|Hne]; [|done].
    by rewrite bool_decide_false.
Qed.

Lemma find_put_config key c configs key' :
  config_key c = key →
  find_config key' (put_config key c configs) = if decide (key' = key) then Some c else find_config key' configs.
Proof.
  intros Hc. unfold put_config. destruct (find_config key configs) as [c0|] eqn:Hf.
  { apply find_update_first; [done|]. by rewrite Hf. }
  unfold find_config in *. induction configs as [|c1 configs IH]; simpl in *.
  - rewrite Hc. destruct (decide (key' = key)) as [->|Hne]; [by rewrite bool_decide_true|by rewrite bool_decide_false by congruence].
  - destruct (bool_decide (config_key c1 = key)) eqn:E; [done|]. apply bool_decide_eq_false in E.
    destruct (bool_decide (config_key c1 = key')) eqn:E'; [|by apply IH]. apply bool_decide_eq_true in E'.
    destruct (decide (key' = key)) as [->|]; [done|done].
Qed.

Lemma put_config_elem key c configs c' : c' ∈ put_config key c configs → c' = c ∨ c' ∈ configs.
Proof.
  unfold put_config. destruct (find_config key configs); [apply elem_update_first|].
  rewrite elem_of_app, list_elem_of_singleton. naive_solver.
Qed.

Section commit.
Context `{UrlLaws} `{HexCrate} `{Sha2Crate} `{Base64Crate} `{SerdeJsonBytes}.
#[local] Set Default Proof Using "Type*".

(** What the settings file holds. *)
Definition settings_doc (node : Node) (doc : SettingsDocument) : Prop :=
  match node with
  | NodeMissing => doc = document_default
  | NodeFile bytes => ∃ value, from_slice bytes = Some value ∧ document_from_value value = Ok doc
  | NodeSymlink => False
  end.

Lemma settings_doc_ok node doc : settings_doc node doc → configs_ok (sd_configs doc).
Proof.
  destruct node as [|bytes|]; simpl; [intros ->; repeat constructor| |done].
  intros (value & _ & Hd). unfold document_from_value in Hd.
  apply bind_Ok in Hd as (fields & _ & (version & _ & (configs & Hc & [= <-])%bind_Ok)%bind_Ok). cbn.
  destruct (version =? _); [|injection Hc as <-; repeat constructor].
  apply bind_Ok in Hc as (cs & _ & Hn). by eapply normalize_configs_spec.
Qed.

Lemma normalize_configs_same keys seen configs configs' :
  Forall config_ok configs → normalize_configs_from keys seen configs = Ok configs' → configs' = configs.
Proof.
  intros Hall. revert keys seen configs'. induction Hall as [|c configs Hc _ IH]; intros keys seen configs'; simpl.
  { by intros [= <-]. }
  rewrite (ok_fixed _ Hc), Ok_bind. destruct (bool_decide _); [done|].
  intros (seen' & _ & (rest & Hr & [= <-])%bind_Ok)%bind_Ok. by rewrite (IH _ _ _ Hr).
Qed.

(** A file replaced by itself. *)
Definition replaced (v : StateFile → Node) (bytes : list Z) (file : StateFile) : Node :=
  if decide (file = FileSettings) then NodeFile bytes else v file.
Definition replacing (v : StateFile → Node) (bytes : list Z) (d : Disk) : Prop :=
  lock_ok d ∧ journal_is NodeMissing d
  ∧ ∀ file, slot_all (λ n, n = v file ∨ n = replaced v bytes file) (d (TargetName file)).

Section disk.
Context `{env : Environment} (settings_path : string).

Lemma load_document_spec v d :
  settled v d →
  dwp (load_document_locked settings_path) (λ doc d', d' = d ∧ settings_doc (v FileSettings) doc) (λ _ d', d' = d) d.
Proof.
  intros (_ & Ht & _). pose proof (slot_all_latest _ d (TargetName FileSettings) (Ht FileSettings)) as Hn. simpl in Hn.
  apply dwp_bind, dwp_read_file; [|done]. intros stored Hs. rewrite Hn in Hs.
  destruct (v FileSettings) as [|bytes|]; simplify_eq/=; [by apply dwp_ret|].
  apply dwp_bind, dwp_lift_ok; [|done]. intros value Hv%ok_or_Ok. apply dwp_lift_ok; [|done]. intros doc Hd. by eauto.
Qed.

Lemma atomic_replace_spec v bytes d :
  settled v d →
  dwp (atomic_replace FileSettings bytes) (λ _ d', settled (replaced v bytes) d') (λ _ d', replacing v bytes d') d.
Proof.
  intros Hd. pose proof Hd as (Hl & Ht & Hj).
  assert (H0' : replacing v bytes d).
  { split_and!; [done..|]. intros file. eapply slot_all_mono, Ht. auto. }
  set (d1 := disk_put (TargetName FileSettings) (NodeFile bytes) d).
  assert (H1' : replacing v bytes d1).
  { unfold d1, replacing, lock_ok, journal_is. rewrite !put_other by done. split_and!; [done..|]. intros file.
    destruct (decide (file = FileSettings)) as [->|Hne]; [apply put_same; split; [by right|apply H0']|].
    rewrite put_other by congruence. apply H0'. }
  assert (H2' : replacing v bytes (disk_sync d1)).
  { destruct H1' as (? & ? & Hall). split_and!; [by apply sync_all..|]. intros file. apply sync_all, Hall. }
  apply dwp_bind, dwp_stage_target; [|done]. apply dwp_bind, dwp_lift; [simpl; intros temporary [= <-]|done].
  apply dwp_bind, dwp_reject_symlink; [intros _|done]. apply dwp_bind, dwp_call; [|done..].
  apply dwp_bind, dwp_sync; [|done..]. apply dwp_bind, dwp_verify_checksum; [|done]. apply dwp_ret.
  destruct H2' as (Hl2 & Hj2 & _). split_and!; [done| |done]. intros file. apply sync_only. unfold replaced.
  destruct (decide (file = FileSettings)) as [->|Hne]; [apply put_node|].
  unfold d1, disk_node. rewrite put_other by congruence. exact (slot_all_latest _ d _ (Ht file)).
Qed.

Lemma write_document_spec v document d :
  settled v d →
  dwp (write_document_locked document)
    (λ _ d', ∃ value, document_into_value document = Ok value ∧ settled (replaced v (to_vec_pretty value)) d')
    (λ _ d', settled v d'
             ∨ ∃ value, document_into_value document = Ok value ∧ replacing v (to_vec_pretty value) d') d.
Proof.
  intros Hd. apply dwp_bind, dwp_lift_ok; [|by left]. intros value Hv.
  eapply dwp_mono; [by apply (atomic_replace_spec v)|by eauto..].
Qed.

(** *** Prepared mutations *)
Record prepared_ok (prepared : PreparedChannelSourceMutation) : Prop := {
  po_scope : normalize_network_scope (pm_network_scope prepared) = Ok (pm_network_scope prepared);
  po_channel : normalize_channel_id (pm_channel_id prepared) = Ok (pm_channel_id prepared);
  po_revision : config_revision_of (pm_base_config prepared) = pm_expected_config_revision prepared;
  po_plan plan : pm_attestation prepared = Some plan →
    plan_target_of (pm_base_config prepared) (pm_mutation prepared) (ap_plan_target plan);
}.

Lemma prepare_mutation_spec v request d :
  settled v d →
  dwp (prepare_mutation settings_path request) (λ prepared d', settled v d' ∧ prepared_ok prepared) (λ _ d', settled v d') d.
Proof.
  intros Hd. apply dwp_bind. eapply dwp_mono; [by apply (recover_settled v)| |done]. intros u d1 Hd1.
  apply dwp_bind. eapply dwp_mono; [by apply (load_document_spec v)| |by intros e d' ->].
  intros doc d2 [-> _]. apply dwp_bind, dwp_lift_ok; [|done]. intros scope Hs.
  apply dwp_bind, dwp_lift_ok; [|done]. intros channel Hc. cbv zeta.
  destruct (Z.eqb_spec (config_revision_of (find_config (scope, channel) (sd_configs doc)))
    (rq_expected_config_revision request)) as [Hrev|]; [|by apply dwp_bail]. simpl.
  apply dwp_bind, dwp_lift_ok; [|done]. intros [mutation plan] Hplan. apply dwp_ret. split; [done|]. split; cbn.
  - by eapply normalize_network_scope_fixed.
  - by eapply normalize_hex_identity_fixed.
  - done.
  - intros p ->. by eapply mutation_plan_target.
Qed.

(** *** Their commit *)
Record committed (prepared : PreparedChannelSourceMutation) (receipt : option SequencerAttestationReceipt)
    (doc doc' : SettingsDocument) (config : ChannelSourceConfig) : Prop := {
  cm_base : find_config (prepared_key prepared) (sd_configs doc) = pm_base_config prepared;
  cm_fields : sd_fields doc' = sd_fields doc;
  cm_configs key : find_config key (sd_configs doc')
                   = if decide (key = prepared_key prepared) then Some config else find_config key (sd_configs doc);
  cm_revision : cc_config_revision config = pm_expected_config_revision prepared + 1;
  cm_ok : configs_ok (sd_configs doc');
  cm_sources : ∃ start, starts_from (pm_base_config prepared) start ∧ config_key start = prepared_key prepared
    ∧ Forall (λ s', ∃ s, (kept_source start s ∨ set_source start (pm_mutation prepared) receipt s)
                         ∧ normalizes (pm_network_scope prepared) (pm_channel_id prepared) s s')
        (cc_sequencer_sources config);
}.

Lemma put_config_ok doc key config value :
  configs_ok (sd_configs doc) → config_ok config →
  document_into_value (doc <| sd_configs := put_config key config (sd_configs doc) |>) = Ok value →
  configs_ok (put_config key config (sd_configs doc)).
Proof.
  intros Hdoc Hc. unfold document_into_value. intros (configs & Hn & _)%bind_Ok.
  assert (Hall : Forall config_ok (put_config key config (sd_configs doc))).
  { rewrite Forall_forall. intros c [->|Hin]%put_config_elem; [done|]. pose proof (oks_each _ Hdoc) as Hall.
    rewrite Forall_forall in Hall. by apply Hall. }
  pose proof (normalize_configs_same _ _ _ _ Hall Hn) as ->. by eapply normalize_configs_spec.
Qed.

(** The configuration a commit starts from. *)
Lemma commit_start prepared doc :
  configs_ok (sd_configs doc) → find_config (prepared_key prepared) (sd_configs doc) = pm_base_config prepared →
  let start := default (mkChannelConfig (pm_network_scope prepared) (pm_channel_id prepared) 0 [] None None)
                 (pm_base_config prepared) in
  starts_from (pm_base_config prepared) start ∧ config_key start = prepared_key prepared.
Proof.
  intros Hdoc Hbase. destruct (pm_base_config prepared) as [base|]; [|done]. simpl.
  apply find_elem_spec in Hbase as [Hin Hkey%bool_decide_eq_true]. split_and!; [done| |done].
  pose proof (oks_each _ Hdoc) as Hall. rewrite Forall_forall in Hall. by apply Hall.
Qed.

Lemma mutated_committed prepared receipt doc start mutated config revision value :
  prepared_ok prepared → configs_ok (sd_configs doc) →
  find_config (prepared_key prepared) (sd_configs doc) = pm_base_config prepared →
  starts_from (pm_base_config prepared) start → config_key start = prepared_key prepared →
  sources_from start (pm_mutation prepared) receipt mutated →
  revision = pm_expected_config_revision prepared + 1 →
  config_normalized (mutated <| cc_config_revision := revision |>) = Ok config →
  let doc' := doc <| sd_configs := put_config (prepared_key prepared) config (sd_configs doc) |> in
  document_into_value doc' = Ok value → committed prepared receipt doc doc' config.
Proof.
  intros Hp Hdoc Hbase Hstart Hkey [Hmk Hsources] Hrev Hn doc' Hvalue.
  destruct (config_normalized_spec _ _ Hn) as (Hok & Hr & Hscope & Hchannel). cbn in Hr, Hscope, Hchannel.
  rewrite Hkey in Hmk. injection Hmk as Hms Hmc. rewrite Hms, (po_scope _ Hp) in Hscope.
  rewrite Hmc, (po_channel _ Hp) in Hchannel. injection Hscope as Hscope. injection Hchannel as Hchannel.
  assert (Hck : config_key config = prepared_key prepared) by (unfold config_key; by rewrite <- Hscope, <- Hchannel).
  split; [done|done| |by rewrite Hr|by eapply put_config_ok|].
  - intros key. by apply find_put_config.
  - exists start. split_and!; [done..|]. apply config_normalized_each in Hn. cbn in Hn.
    rewrite <- Hscope, <- Hchannel in Hn. apply Forall_forall. intros s' Hin.
    apply list_elem_of_lookup in Hin as [i Hi]. destruct (Forall2_lookup_r _ _ _ _ _ Hn Hi) as (s & Hi' & Hs).
    exists s. split; [|done]. apply Hsources. by eapply list_elem_of_lookup_2.
Qed.

Lemma commit_prepared_spec v prepared receipt d :
  prepared_ok prepared → settled v d →
  dwp (commit_prepared_mutation settings_path prepared receipt)
    (λ config d', ∃ doc doc' value, settings_doc (v FileSettings) doc ∧ committed prepared receipt doc doc' config
       ∧ document_into_value doc' = Ok value ∧ settled (replaced v (to_vec_pretty value)) d')
    (λ _ d', settled v d' ∨ ∃ doc doc' config value, settings_doc (v FileSettings) doc
       ∧ committed prepared receipt doc doc' config ∧ document_into_value doc' = Ok value
       ∧ replacing v (to_vec_pretty value) d') d.
Proof.
  intros Hp Hd. apply dwp_bind. eapply dwp_mono; [by apply (recover_settled v)| |by left]. intros u d1 Hd1.
  apply dwp_bind. eapply dwp_mono; [by apply (load_document_spec v)| |by intros e d' ->; left].
  intros doc d2 [-> Hdoc]. cbv zeta. pose proof (settings_doc_ok _ _ Hdoc) as Hcs.
  case_bool_decide as Hbase; [|apply dwp_bail; by left]. simpl. rewrite Hbase.
  destruct (commit_start prepared doc Hcs Hbase) as [Hstart Hkey].
  apply dwp_bind. eapply dwp_mono; [apply apply_mutation_spec| |by intros e d' ->; left].
  intros mutated d2 [-> Hsources]. apply dwp_bind, dwp_lift_ok; [|by left]. intros revision [Hrev _]%ok_or_Ok%checked_add_Some.
  apply dwp_bind, dwp_lift_ok; [|by left]. intros config Hn. apply dwp_bind.
  eapply dwp_mono; [by apply (write_document_spec v)| |].
  - intros durability d' (value & Hv & Hset). apply dwp_ret. eexists doc, _, value.
    split_and!; [done| |done|done]. by eapply mutated_committed.
  - intros e d' [Hset|(value & Hv & Hset)]; [by left|right]. eexists doc, _, config, value.
    split_and!; [done| |done|done]. by eapply mutated_committed.
Qed.
End disk.
End commit.

Section theorems.
Context `{UrlLaws} `{HexCrate} `{Sha2Crate} `{Base64Crate} `{SerdeJsonBytes}.
#[local] Set Default Proof Using "Type*".
Context (settings_path : string).

Lemma prepared_run (env : Environment) v request s prepared s' :
  settled v (ls_disk s) → prepare_mutation (env := env) settings_path request s = (ROk prepared, s') →
  prepared_ok prepared.
Proof. intros Hd Hr. by destruct (dwp_run _ _ _ _ _ _ (prepare_mutation_spec settings_path v request _ Hd) Hr). Qed.

(** C25. A mutation of a channel's sources is committed to exactly the
    configuration it was prepared for.  Between the two, the attestor was asked
    and other processes may have changed the settings.  When the commit succeeds,
    the settings file durably holds the document it held before, with the same
    fields and the same configurations of all other channels; the configuration
    of this channel was the one the mutation was prepared for, and is now the
    committed one, with the next revision, among configurations whose channels and
    source ids are distinct.  When the commit fails, the settings are as before,
    or the file was replaced by such a document without becoming durable. *)
Theorem mutation_commits_exactly (env1 env2 : Environment) v1 request s1 prepared s2 v receipt s3 r s4 :
  settled v1 (ls_disk s1) → prepare_mutation (env := env1) settings_path request s1 = (ROk prepared, s2) →
  settled v (ls_disk s3) →
  commit_prepared_mutation (env := env2) settings_path prepared receipt s3 = (r, s4) →
  match r with
  | ROk config =>
      ∃ doc doc' value, settings_doc (v FileSettings) doc ∧ committed prepared receipt doc doc' config
        ∧ document_into_value doc' = Ok value ∧ settled (replaced v (to_vec_pretty value)) (ls_disk s4)
  | RErr _ =>
      settled v (ls_disk s4)
      ∨ ∃ doc doc' config value, settings_doc (v FileSettings) doc ∧ committed prepared receipt doc doc' config
          ∧ document_into_value doc' = Ok value ∧ replacing v (to_vec_pretty value) (ls_disk s4)
  end.
Proof.
  intros H1' Hp H3' Hc. pose proof (prepared_run _ _ _ _ _ _ H1' Hp) as Hok.
  exact (dwp_run _ _ _ _ _ _ (commit_prepared_spec settings_path v prepared receipt _ Hok H3') Hc).
Qed.

(** C26. No Sequencer source counts as attested unless the attestor said so.
    After a mutation was prepared, the attestor was asked as the plan says and the
    mutation was committed, every attestation in the committed configuration
    names its channel and the fingerprint of the target it is stored with; and it
    is pending, or was stored with the same source and target before, or the
    attestor, asked about exactly this target, answered with exactly this channel
    and on this basis. *)
Theorem no_attestation_without_attestor (env1 env2 : Environment) attestor v1 request s1 prepared s2
    now receipt outcome v s3 config s4 :
  settled v1 (ls_disk s1) → prepare_mutation (env := env1) settings_path request s1 = (ROk prepared, s2) →
  attest prepared attestor now = Ok (receipt, outcome) → settled v (ls_disk s3) →
  commit_prepared_mutation (env := env2) settings_path prepared receipt s3 = (ROk config, s4) →
  Forall (λ s, attestation_for (cc_channel_id config) (sq_target s) (sq_channel_attestation s)
               ∧ (sq_channel_attestation s = AttestationPending
                  ∨ (∃ base, pm_base_config prepared = Some base ∧ kept_source base s)
                  ∨ answered attestor (cc_network_scope config) (cc_channel_id config) s))
    (cc_sequencer_sources config).
Proof.
  intros H1' Hp Ha H3' Hc. pose proof (prepared_run _ _ _ _ _ _ H1' Hp) as Hok.
  destruct (dwp_run _ _ _ _ _ _ (commit_prepared_spec settings_path v prepared receipt _ Hok H3') Hc)
    as (doc & doc' & value & _ & Hcm & _).
  destruct (cm_sources _ _ _ _ _ Hcm) as (start & Hstart & Hkey & Hall).
  pose proof (cm_configs _ _ _ _ _ Hcm (prepared_key prepared)) as Hfind. rewrite decide_True in Hfind by done.
  apply find_elem_spec in Hfind as [Hin Hck%bool_decide_eq_true]. injection Hck as Hscope Hchannel.
  pose proof (oks_each _ (cm_ok _ _ _ _ _ Hcm)) as Hoks. rewrite Forall_forall in Hoks.
  pose proof (ok_attestations _ (Hoks _ Hin)) as Hfor. rewrite Forall_forall in Hall, Hfor. apply Forall_forall.
  intros s' Hs'. split; [by apply Hfor|]. destruct (Hall s' Hs') as (s & [Hkept|Hset] & Hn); rewrite Hscope, Hchannel.
  - right. left. destruct (pm_base_config prepared) as [base|]; [|destruct Hkept as (? & Hin' & _); rewrite Hstart in Hin'; by apply elem_of_nil in Hin'].
    destruct Hstart as [-> Hstart]. exists start. split; [done|]. injection Hkey as Hks Hkc.
    eapply normalizes_kept; [done..|]. by rewrite Hks, Hkc.
  - destruct (set_source_answered attestor prepared start now receipt outcome s s' Hstart Hkey (po_plan _ Hok) Ha Hset Hn);
      auto.
Qed.
End theorems.
