(* ===== verification/BackupPlan.v ===== *)
(** * The plan of a settings import

    [src/src/support/settings_backup/import_plan.rs] and
    [import_plan/merge_engine.rs]: what an import would write, made from the state
    in a backup, the current state and the options of the import.  The file system
    that warnings look at is the class [HostFiles]. *)

From S2P Require Import Prelude Json Bytes ImportOptions OperationSpec SourceModes NodeRequests.
From S2P Require Import CatalogModel InstructionTarget LocalState ChannelConfig ChannelStore.
Open Scope Z_scope.

(** What the program asks the host about paths. *)
Class HostFiles : Type := {
  host_is_dir : string → bool;
  host_is_file : string → bool;
  host_read : string → option (list Z);
  host_env : string → option string;
}.

(** ** Equality of JSON values

    Numbers are equal when they are of the same kind and equal, so that the two
    zeros among the floating-point numbers are. *)
Definition number_eqb (m n : Number) : bool :=
  match m, n with
  | PosInt a, PosInt b | NegInt a, NegInt b => Z.eqb a b
  | Float x, Float y => SFeqb x y
  | _, _ => false
  end.

Fixpoint value_eqb (v w : Value) : bool :=
  match v, w with
  | VNull, VNull => true
  | VBool a, VBool b => Bool.eqb a b
  | VNumber a, VNumber b => number_eqb a b
  | VString a, VString b => String.eqb a b
  | VArray a, VArray b =>
      (fix all a b := match a, b with
                      | [], [] => true
                      | x :: a', y :: b' => value_eqb x y && all a' b'
                      | _, _ => false
                      end) a b
  | VObject a, VObject b =>
      (fix all a b := match a, b with
                      | [], [] => true
                      | (k, x) :: a', (l, y) :: b' => String.eqb k l && value_eqb x y && all a' b'
                      | _, _ => false
                      end) a b
  | _, _ => false
  end.

(** ** Keys and labels *)
Definition json_array (v : option Value) : list Value := default [] (v ≫= as_array).

Fixpoint first_str (keys : list string) (value : Value) : option string :=
  match keys with
  | [] => None
  | key :: keys' =>
      match value_get key value ≫= as_str with Some text => Some text | None => first_str keys' value end
  end.
Definition value_string (value : Value) (keys : list string) : string := default "" (trim <$> first_str keys value).

Section keys.
Context `{UnicodeLowercase} `{SerdeJson}.

Definition json_value_key (prefix : string) (value : Value) : string := prefix +:+ ":" +:+ to_string value.

Definition favorite_entry_key (value : Value) : string :=
  let kind := to_lowercase (value_string value ["kind"]) in
  let layer := to_lowercase (value_string value ["layer"]) in
  let open_kind := to_lowercase (value_string value ["open_kind"; "openKind"]) in
  let item_value := to_lowercase (value_string value ["value"]) in
  if is_empty kind || is_empty item_value then json_value_key "favorite" value
  else kind +:+ ":" +:+ layer +:+ ":" +:+ open_kind +:+ ":" +:+ item_value.
Definition favorite_entry_label (value : Value) : string := value_string value ["label"; "title"; "name"; "value"].

Fixpoint first_key (groups : list (list string)) (value : Value) : option string :=
  match groups with
  | [] => None
  | keys :: groups' =>
      let key := value_string value keys in
      if is_empty key then first_key groups' value else Some (to_lowercase key)
  end.
Definition idl_entry_key (value : Value) : string :=
  default (json_value_key "idl" value)
    (first_key [["key"; "id"]; ["programIdHex"; "program_id_hex"]; ["programId"; "program_id"];
                ["name"; "programName"]] value).
Definition idl_entry_label (value : Value) : string :=
  value_string value ["name"; "programName"; "program_id_hex"; "programIdHex"; "key"].

Definition normalized_account_idl_selection_key (selection : Value) : option string :=
  text ← match as_str selection with
         | Some text => Some text
         | None => object ← as_object selection; text ← map_get "idlKey" object; as_str text
         end;
  let text := trim text in
  if is_empty text then None else Some (to_lowercase text).
End keys.

(** ** Merging *)
Record ItemAreaReport : Type := mkItemReport { ir_items : list Value; ir_conflicts : list Value }.
#[export] Instance ItemAreaReport_eta : Eta ItemAreaReport := λ r, mkItemReport (ir_items r) (ir_conflicts r).
Definition item_report_default : ItemAreaReport := mkItemReport [] [].

Definition shown_label (key label : string) : string := if is_empty (trim label) then key else label.

Definition item_identity (area : BackupImportArea) (key label : string) (selected exists_ conflict : bool)
    (decision : string) : Value :=
  json_object [("area", VString (area_str area)); ("key", VString key); ("label", VString (shown_label key label));
               ("selected", VBool selected); ("exists", VBool exists_); ("conflict", VBool conflict);
               ("decision", VString decision)].
Definition conflict_identity (area : BackupImportArea) (key label decision : string) : Value :=
  json_object [("area", VString (area_str area)); ("key", VString key); ("label", VString (shown_label key label));
               ("decision", VString decision); ("reason", VString "same_key_different_value")].

Definition push_item (item : Value) (report : ItemAreaReport) : ItemAreaReport :=
  report <| ir_items ::= (λ items, items ++ [item]) |>.
Definition push_conflict (conflict : Value) (report : ItemAreaReport) : ItemAreaReport :=
  report <| ir_conflicts ::= (λ conflicts, conflicts ++ [conflict]) |>.

Definition decision_required {A} (area : BackupImportArea) (key : string) : Result A :=
  bail ("backup import conflict decision is required for " +:+ area_str area +:+ " item `" +:+ key +:+ "`").

(** The rows so far, where each key is, and the report. *)
Record MergeState : Type := mkMerge {
  ms_rows : list Value;
  ms_index : gmap string nat;
  ms_report : ItemAreaReport;
}.
#[export] Instance MergeState_eta : Eta MergeState := λ m, mkMerge (ms_rows m) (ms_index m) (ms_report m).

Section merging.
Context (key_fn label_fn : Value → string) (area : BackupImportArea) (options : BackupImportOptions)
  (require_conflict_decisions : bool).

Definition index_current (state : MergeState) (value : Value) : MergeState :=
  let key := key_fn value in
  let index := if is_empty key then ms_index state
               else match ms_index state !! key with
                    | Some _ => ms_index state
                    | None => <[key := length (ms_rows state)]> (ms_index state)
                    end in
  state <| ms_rows ::= (λ rows, rows ++ [value]) |> <| ms_index := index |>.

Definition merge_item (state : MergeState) (value : Value) : Result MergeState :=
  let key := key_fn value in
  if is_empty key then Ok state
  else
    let selected := item_is_selected options area key in
    let label := label_fn value in
    let report selected exists_ conflict decision :=
      state <| ms_report ::= push_item (item_identity area key label selected exists_ conflict decision) |> in
    match ms_index state !! key with
    | None =>
        let state' := report selected false false (if selected then "import" else "skip_backup_item") in
        Ok (if selected
            then state' <| ms_index ::= <[key := length (ms_rows state)]> |> <| ms_rows ::= (λ rows, rows ++ [value]) |>
            else state')
    | Some index =>
        let conflict := match ms_rows state !! index with Some current => negb (value_eqb current value) | None => false end in
        if negb conflict
        then Ok (report selected true false (if selected then "keep_existing" else "skip_backup_item"))
        else if negb selected then Ok (report false true true "skip_backup_item")
        else
          let decided decision := (report true true true decision)
            <| ms_report ::= push_conflict (conflict_identity area key label decision) |> in
          match conflict_decision options area key with
          | Some ReplaceExisting => Ok ((decided "replace_existing") <| ms_rows ::= <[index := value]> |>)
          | Some SkipBackupItem => Ok (decided "skip_backup_item")
          | None => if require_conflict_decisions then decision_required area key else Ok (decided "required")
          end
    end.

Fixpoint merge_items (state : MergeState) (incoming : list Value) : Result MergeState :=
  match incoming with
  | [] => Ok state
  | value :: incoming' => state ← merge_item state value; merge_items state incoming'
  end.

Definition merge_array_by_key (current incoming : option Value) : Result (list Value * ItemAreaReport) :=
  let state := foldl index_current (mkMerge [] ∅ item_report_default) (json_array current) in
  state ← merge_items state (json_array incoming);
  Ok (ms_rows state, ms_report state).

Definition item_report_for_array (incoming : option Value) : ItemAreaReport :=
  mkItemReport
    (omap (λ value, let key := key_fn value in
                    if is_empty key then None
                    else Some (item_identity area key (label_fn value) true false false "import"))
       (json_array incoming)) [].

(** The entries of the incoming object, into the current one. *)
Context `{UnicodeLowercase}.
Fixpoint merge_entries (result : Map) (report : ItemAreaReport) (incoming : Map) : Result (Map * ItemAreaReport) :=
  match incoming with
  | [] => Ok (result, report)
  | (key, value) :: incoming' =>
      let selected_item_key := default (to_lowercase key) (normalized_account_idl_selection_key value) in
      let label := "Account selection " +:+ key in
      let conflict := match map_get key result with Some current => negb (value_eqb current value) | None => false end in
      if negb (item_is_selected options area selected_item_key) then merge_entries result report incoming'
      else if conflict then
        match conflict_decision options area key with
        | Some ReplaceExisting =>
            merge_entries (map_insert key value result)
              (push_conflict (conflict_identity area key label "replace_existing") report) incoming'
        | Some SkipBackupItem =>
            merge_entries result (push_conflict (conflict_identity area key label "skip_backup_item") report) incoming'
        | None =>
            if require_conflict_decisions then decision_required area key
            else merge_entries result (push_conflict (conflict_identity area key label "required") report) incoming'
        end
      else merge_entries (map_insert key value result) report incoming'
  end.

Definition merge_object_field (current : option Value) (incoming : Value) (report : ItemAreaReport)
    : Result (Value * ItemAreaReport) :=
  match default (VObject []) current with
  | VObject result =>
      match incoming with
      | VObject entries => '(result, report) ← merge_entries result report entries; Ok (VObject result, report)
      | _ => Ok (VObject result, report)
      end
  | _ => Ok (incoming, report)
  end.
End merging.

(** ** The plan *)
Record RestoreSummary : Type := mkRestoreSummary {
  rs_settings_restored : bool;
  rs_idl_restored : bool;
  rs_wallet_restored : bool;
  rs_favorites_count : nat;
  rs_idl_count : nat;
  rs_encrypted : bool;
}.
Record RestoredState : Type := mkRestored {
  re_settings : option Value;
  re_idl : option Value;
  re_wallet : option Value;
  re_summary : RestoreSummary;
}.
Record ImportPlan : Type := mkPlan {
  ip_settings : option Value;
  ip_idl : option Value;
  ip_wallet : option Value;
  ip_applied_areas : list BackupImportArea;
  ip_summary : Value;
}.
Record ImportCurrentRequirements : Type := mkRequirements { cr_settings : bool; cr_idl : bool }.
Record PlannedState : Type := mkPlanned { pl_state : option Value; pl_report : ItemAreaReport }.

(** The target becomes an object when it is none, so that the field can be set. *)
Definition set_object_field (key : string) (value target : Value) : Value :=
  VObject (map_insert key value (default [] (as_object target))).

Definition array_count (key : string) (value : option Value) : option nat :=
  match value with
  | None => None
  | Some value => length <$> (value_get key value ≫= as_array)
  end.

Definition warning_value (area key message : string) : Value :=
  json_object [("area", VString area); ("key", VString key); ("severity", VString "warning"); ("message", VString message)].

Definition wallet_profile_payload (wallet : Value) : option Value :=
  match value_get "profile" wallet with
  | Some (VObject _ as profile) => Some profile
  | _ => match wallet with VObject _ => Some wallet | _ => None end
  end.

Fixpoint first_non_empty_string (value : Value) (keys : list string) : option string :=
  match keys with
  | [] => None
  | key :: keys' =>
      match trim <$> (value_get key value ≫= as_str) with
      | Some text => if is_empty text then first_non_empty_string value keys' else Some text
      | None => first_non_empty_string value keys'
      end
  end.

Section warnings.
Context `{HostFiles}.

Definition wallet_path_warning (profile : Value) (keys : list string) (key label : string) (expect_directory : bool)
    : list Value :=
  match first_non_empty_string profile keys with
  | None => []
  | Some path =>
      if negb (path_is_absolute path)
      then [warning_value "wallet_profile" key (label +:+ " is relative and may resolve differently.")]
      else if (if expect_directory then host_is_dir path else host_is_file path) then []
      else [warning_value "wallet_profile" key (label +:+ " does not exist locally.")]
  end.

Definition wallet_import_warnings (wallet : option Value) (mode : BackupImportMode) : list Value :=
  if decide (mode = ModeSkip) then []
  else match wallet with
       | None => [warning_value "wallet_profile" "profile" "Backup does not contain a wallet profile."]
       | Some wallet =>
           match wallet_profile_payload wallet with
           | None => [warning_value "wallet_profile" "profile" "Backup wallet profile is not an object."]
           | Some profile =>
               wallet_path_warning profile ["wallet_home"; "walletHome"] "wallet_home" "Wallet home path from backup" true ++
               wallet_path_warning profile ["wallet_binary"; "walletBinary"] "wallet_binary"
                 "Wallet binary path from backup" false
           end
       end.
End warnings.

Section planning.
Context `{UnicodeLowercase} `{SerdeJson}.
Context (options : BackupImportOptions) (require_conflict_decisions : bool).

Definition merge_settings (current : option Value) (backup : Value) : Value :=
  foldl (λ value entry, if String.eqb entry.1 "favorites" then value else set_object_field entry.1 entry.2 value)
    (default (VObject []) current) (default [] (as_object backup)).

Definition remove_favorites (value : Value) : Result Value :=
  object ← ok_or "backup settings state must be an object" (as_object value);
  Ok (VObject (map_remove "favorites" object)).

Definition planned_settings_state (backup_settings current_settings : option Value) : Result PlannedState :=
  match backup_settings with
  | None => Ok (mkPlanned None item_report_default)
  | Some backup_settings =>
      let target := match options_mode options AreaSettings with
                    | ModeReplace => Some backup_settings
                    | ModeMerge => Some (merge_settings current_settings backup_settings)
                    | ModeSkip => None
                    end in
      let backup_favorites := value_get "favorites" backup_settings in
      let current_favorites := current_settings ≫= value_get "favorites" in
      match options_mode options AreaFavorites with
      | ModeReplace =>
          let report := item_report_for_array favorite_entry_key favorite_entry_label AreaFavorites backup_favorites in
          let target := if decide (options_mode options AreaSettings = ModeSkip)
                        then Some (set_object_field "favorites" (default (VArray []) backup_favorites)
                                     (default (VObject []) current_settings))
                        else target in
          Ok (mkPlanned target report)
      | ModeMerge =>
          '(rows, report) ← merge_array_by_key favorite_entry_key favorite_entry_label AreaFavorites options
                              require_conflict_decisions current_favorites backup_favorites;
          let value := match target with Some value => value | None => default (VObject []) current_settings end in
          Ok (mkPlanned (Some (set_object_field "favorites" (VArray rows) value)) report)
      | ModeSkip =>
          target ← transpose (λ value, match current_favorites with
                                       | Some favorites => Ok (set_object_field "favorites" favorites value)
                                       | None => remove_favorites value
                                       end) target;
          Ok (mkPlanned target item_report_default)
      end
  end.

Definition merged_idl_state (backup_idl : Value) (current_idl : option Value) : Result (Value * ItemAreaReport) :=
  '(rows, report) ← merge_array_by_key idl_entry_key idl_entry_label AreaIdlRegistry options
                      require_conflict_decisions (current_idl ≫= value_get "idls") (value_get "idls" backup_idl);
  let value := set_object_field "idls" (VArray rows) (default (VObject []) current_idl) in
  match value_get "account_idl_selections" backup_idl with
  | None => Ok (value, report)
  | Some backup_selections =>
      '(merged, report) ← merge_object_field AreaIdlRegistry options require_conflict_decisions
                            (current_idl ≫= value_get "account_idl_selections") backup_selections report;
      Ok (set_object_field "account_idl_selections" merged value, report)
  end.

Definition planned_idl_state (backup_idl current_idl : option Value) : Result PlannedState :=
  match backup_idl with
  | None => Ok (mkPlanned None item_report_default)
  | Some backup_idl =>
      match options_mode options AreaIdlRegistry with
      | ModeReplace =>
          Ok (mkPlanned (Some backup_idl)
                (item_report_for_array idl_entry_key idl_entry_label AreaIdlRegistry (value_get "idls" backup_idl)))
      | ModeMerge => '(value, report) ← merged_idl_state backup_idl current_idl; Ok (mkPlanned (Some value) report)
      | ModeSkip => Ok (mkPlanned None item_report_default)
      end
  end.
End planning.

Definition needs_current_settings (selection : BackupImportSelection) (state : RestoredState) : bool :=
  bool_decide (is_Some (re_settings state)) &&
  (is_selected (selection_mode selection AreaSettings) || is_selected (selection_mode selection AreaFavorites)).

Definition current_state_requirements (state : RestoredState) (options : BackupImportOptions)
    : ImportCurrentRequirements :=
  mkRequirements (needs_current_settings (bo_selection options) state)
    (bool_decide (selection_mode (bo_selection options) AreaIdlRegistry = ModeMerge)).

Definition planned_favorites_count (settings : option Value) (fallback_count : nat) (mode : BackupImportMode) : nat :=
  if decide (mode = ModeSkip) then 0%nat else default fallback_count (array_count "favorites" settings).
Definition planned_idl_count (idl : option Value) (fallback_count : nat) (mode : BackupImportMode) : nat :=
  if decide (mode = ModeSkip) then 0%nat else default fallback_count (array_count "idls" idl).

Definition json_strings (texts : list string) : Value := VArray (VString <$> texts).

Definition operation_policy_value : Value :=
  json_object [("restart_policy", VString "safe_read_poll_only");
               ("auto_restart_classes", json_strings ["read"; "poll"; "probe"]);
               ("manual_restart_classes",
                json_strings ["mutating"; "signing"; "submission"; "lifecycle"; "destructive"; "backup"])].

Section plan.
Context `{UnicodeLowercase} `{SerdeJson} `{UrlCrate} `{HexCrate} `{Sha2Crate} `{HostFiles}.

Definition plan_summary (state : RestoredState) (selection : BackupImportSelection) (settings idl wallet : option Value)
    (favorites idl_registry : ItemAreaReport) (warnings : list Value) (applied : list BackupImportArea) : Value :=
  let present (o : option Value) := bool_decide (is_Some o) in
  let mode area := VString (import_mode_str (selection_mode selection area)) in
  json_object
    [("restored", VBool (present settings || present idl || present wallet));
     ("encrypted", VBool (rs_encrypted (re_summary state)));
     ("settings", VBool (present settings)); ("idls", VBool (present idl)); ("wallet", VBool (present wallet));
     ("favorites", json_u64 (Z.of_nat (planned_favorites_count settings (rs_favorites_count (re_summary state))
                                         (selection_mode selection AreaFavorites))));
     ("idl_count", json_u64 (Z.of_nat (planned_idl_count idl (rs_idl_count (re_summary state))
                                         (selection_mode selection AreaIdlRegistry))));
     ("modes", json_object [("settings", mode AreaSettings); ("favorites", mode AreaFavorites);
                            ("idl_registry", mode AreaIdlRegistry); ("wallet_profile", mode AreaWalletProfile)]);
     ("items", json_object [("favorites", VArray (ir_items favorites)); ("idl_registry", VArray (ir_items idl_registry))]);
     ("conflicts", json_object [("favorites", VArray (ir_conflicts favorites));
                                ("idl_registry", VArray (ir_conflicts idl_registry))]);
     ("warnings", VArray warnings); ("applied_areas", json_strings (area_str <$> applied));
     ("operation_policy", operation_policy_value)].

Definition build_import_plan_with_current (state : RestoredState) (options : BackupImportOptions)
    (require_conflict_decisions : bool) (current_settings current_idl : option Value) : Result ImportPlan :=
  let selection := bo_selection options in
  planned_settings ← planned_settings_state options require_conflict_decisions (re_settings state) current_settings;
  planned_idl ← planned_idl_state options require_conflict_decisions (re_idl state) current_idl;
  let wallet := if decide (selection_mode selection AreaWalletProfile = ModeSkip) then None else re_wallet state in
  let warnings := wallet_import_warnings (re_wallet state) (selection_mode selection AreaWalletProfile) in
  settings ← transpose (λ settings,
      current ← ok_or "current settings are required to rebase Channel source configuration revisions" current_settings;
      normalized_settings_state_from_backup settings current) (pl_state planned_settings);
  let idl := pl_state planned_idl in
  let has_settings := bool_decide (is_Some (re_settings state)) in
  let applied := applied_areas selection
    (has_settings && is_selected (selection_mode selection AreaSettings))
    (has_settings && is_selected (selection_mode selection AreaFavorites))
    (bool_decide (is_Some idl)) (bool_decide (is_Some wallet)) in
  Ok (mkPlan settings idl wallet applied
        (plan_summary state selection settings idl wallet (pl_report planned_settings) (pl_report planned_idl)
           warnings applied)).
End plan.
