(* ===== verification/SettingsBackup.v ===== *)
(** * Settings backups

    [src/src/support/settings_backup.rs] and [src/src/support/state_store.rs]:
    the IDL and wallet states, the export of the local state to a backup, plain
    or encrypted, and the preview and the restoration of a backup within a
    session of the local state.  The cipher and the derivation of its key are the
    class [BackupCrates], the clock and the random numbers the class
    [BackupHost]. *)

From Stdlib Require Import Ascii.
From S2P Require Import Prelude Json Bytes ImportOptions EntityIds CatalogEngine LocalState ChannelConfig ChannelStore.
From S2P Require Import BackupPlan.
Open Scope Z_scope.

Definition BACKUP_KIND : string := "logos-inspector-settings-backup".
Definition BACKUP_VERSION : Z := 1.
Definition ENCRYPTION_SCHEME : string := "xchacha20poly1305-wallet-config-v1".
Definition ENCRYPTION_TAG_BYTES : Z := 16.
Definition WALLET_CONFIG_FILE : string := "wallet_config.json".
Definition SETTINGS_BACKUP_MAX_BYTES : Z := 16 * 1024 * 1024.
Definition LOCAL_WALLET_HOME_ENV : string := "LEE_WALLET_HOME_DIR".

(** [Hkdf::<Sha256>] and [XChaCha20Poly1305] with a nonce, a message and
    additional data. *)
Class BackupCrates : Type := {
  hkdf_sha256 : list Z → list Z → list Z → option (list Z);
  aead_encrypt : list Z → list Z → list Z → list Z → option (list Z);
  aead_decrypt : list Z → list Z → list Z → list Z → option (list Z);
}.

(** [getrandom::fill] of an array of a length, and [unix_time_text], at a moment. *)
Class BackupHost : Type := {
  random_fill : nat → nat → list Z;
  unix_time_text : nat → string;
}.

(** [error.context]: the errors of a transaction keep their facts. *)
Definition io_context {A} (message : string) (m : IO A) : IO A :=
  io_map_error (λ error, match error with OtherError e => OtherError (message :: e) | _ => error end) m.
Definition io_when {A} (wanted : bool) (m : IO A) : IO (option A) :=
  if wanted then a ← m; mret (Some a) else mret None.

(** ** The IDL and the wallet state *)
Definition default_idl_state : Value :=
  json_object [("version", json_u64 1); ("idls", VArray []); ("account_idl_selections", VObject [])].
Definition default_wallet_state : Value :=
  json_object
    [("version", json_u64 1);
     ("profile", json_object [("label", VString "Local wallet"); ("wallet_binary", VString ""); ("wallet_home", VString "");
                              ("network_profile", VString ""); ("public_key_probe", VString "")]);
     ("operations", VArray [])].

Section state_store.
Context `{env : Environment} `{HexCrate} `{Sha2Crate} `{Base64Crate} `{SerdeJsonBytes}.

Definition json_state_from_stored (stored : StoredBytes) (default_value : Value) (label : string) : Result Value :=
  match stored with
  | StoredMissing => Ok default_value
  | StoredPresent bytes => ok_or ("failed to parse " +:+ label +:+ " state") (from_slice bytes)
  end.
Definition idl_state_from_stored (stored : StoredBytes) : Result Value :=
  json_state_from_stored stored default_idl_state "IDL".
Definition wallet_state_from_stored (stored : StoredBytes) : Result Value :=
  json_state_from_stored stored default_wallet_state "wallet".

Definition load_idl_state_locked : IO Value := stored ← read_file FileIdl; io_lift (idl_state_from_stored stored).
Definition load_wallet_state_locked : IO Value :=
  stored ← read_file FileWallet; io_lift (wallet_state_from_stored stored).
Definition load_idl_state : IO Value := with_local_state_in load_idl_state_locked.
Definition load_wallet_state : IO Value := with_local_state_in load_wallet_state_locked.

Definition write_state (path_text : string) (file : StateFile) (state : Value) : IO Value :=
  durability ← atomic_replace file (to_vec_pretty state);
  mret (json_object [("saved", VBool true); ("path", VString path_text);
                     ("directory_durability", VString (durability_str durability))]).
Definition save_idl_state (path_text : string) (state : Value) : IO Value :=
  with_local_state_in (write_state path_text FileIdl state).
Definition save_wallet_state (path_text : string) (state : Value) : IO Value :=
  with_local_state_in (write_state path_text FileWallet state).
End state_store.

(** *** Registered IDLs *)
Record RegisteredIdlEntry : Type := mkRegistered {
  rg_key : string;
  rg_name : string;
  rg_program_id_hex : string;
  rg_source : string;
  rg_json : string;
}.

Definition registered_idl_source_order (source : string) : Z := if String.eqb source "shared" then 1 else 0.
Definition registered_idl_entry_order (left right : RegisteredIdlEntry) : comparison :=
  then_compare (Z.compare (registered_idl_source_order (rg_source left)) (registered_idl_source_order (rg_source right)))
   (then_compare (String.compare (rg_name left) (rg_name right))
    (then_compare (String.compare (rg_key left) (rg_key right)) (String.compare (rg_json left) (rg_json right)))).

(** [Vec::sort_by] is stable: an entry goes before the entries equal to it that
    came after it. *)
Fixpoint insert_registered (entry : RegisteredIdlEntry) (entries : list RegisteredIdlEntry) : list RegisteredIdlEntry :=
  match entries with
  | [] => [entry]
  | other :: entries' =>
      match registered_idl_entry_order entry other with
      | Gt => other :: insert_registered entry entries'
      | _ => entry :: entries
      end
  end.

Definition text_field (key : string) (entry : Value) : string := default "" (value_get key entry ≫= as_str).

Section registered.
Context `{HexCrate} `{LeeAccounts}.

Definition normalized_program_id_hex_text (value : string) : option string :=
  match normalize_program_id_hex value with
  | Ok text => if is_empty text then None else Some text
  | Err _ => None
  end.

Definition first_value (keys : list string) (entry : Value) : option Value := get_first keys (default [] (as_object entry)).
Definition registered_idl_program_id_hex (entry : Value) : string :=
  let read keys := text ← (value ← first_value keys entry; as_str value); normalized_program_id_hex_text text in
  match read ["programIdHex"; "program_id_hex"] with
  | Some text => text
  | None => default "" (read ["programId"; "program_id"])
  end.

Definition registered_idl_entry (entry : Value) : option RegisteredIdlEntry :=
  json ← trim <$> (value_get "json" entry ≫= as_str);
  let program_id_hex := registered_idl_program_id_hex entry in
  if is_empty json || is_empty program_id_hex then None
  else Some (mkRegistered (text_field "key" entry) (text_field "name" entry) program_id_hex
               (text_field "source" entry) json).
Definition registered_idl_entries_from_state (state : Value) : list RegisteredIdlEntry :=
  foldr insert_registered [] (omap registered_idl_entry (json_array (value_get "idls" state))).
End registered.

(** ** What a backup holds *)
Record BackupContentsSelection : Type := mkContents {
  bc_settings : bool;
  bc_favorites : bool;
  bc_idl_registry : bool;
  bc_wallet_profile : bool;
}.
#[export] Instance BackupContentsSelection_eta : Eta BackupContentsSelection :=
  λ c, mkContents (bc_settings c) (bc_favorites c) (bc_idl_registry c) (bc_wallet_profile c).
Definition contents_all : BackupContentsSelection := mkContents true true true true.
Definition contents_none : BackupContentsSelection := mkContents false false false false.
Definition contents_any (c : BackupContentsSelection) : bool :=
  bc_settings c || bc_favorites c || bc_idl_registry c || bc_wallet_profile c.

Section contents.
Context `{UnicodeLowercase}.

Definition normalized_area_name (area : string) : string :=
  let name := str_replace "-" "_" (to_lowercase (trim area)) in
  if bool_decide (name ∈ ["idl"; "idls"]) then "idl_registry"
  else if String.eqb name "wallet" then "wallet_profile" else name.

Definition enable_area (area : string) (c : BackupContentsSelection) : Result BackupContentsSelection :=
  let name := normalized_area_name area in
  if String.eqb name "settings" then Ok (c <| bc_settings := true |>)
  else if String.eqb name "favorites" then Ok (c <| bc_favorites := true |>)
  else if String.eqb name "idl_registry" then Ok (c <| bc_idl_registry := true |>)
  else if String.eqb name "wallet_profile" then Ok (c <| bc_wallet_profile := true |>)
  else bail ("unsupported backup content area `" +:+ area +:+ "`").

Fixpoint contents_from_area_array (c : BackupContentsSelection) (items : list Value) : Result BackupContentsSelection :=
  match items with
  | [] => Ok c
  | item :: items' =>
      match trim <$> as_str item with
      | Some area =>
          if is_empty area then bail "backup content area must be a string"
          else c ← enable_area area c; contents_from_area_array c items'
      | None => bail "backup content area must be a string"
      end
  end.

Definition content_area_enabled (value : option Value) (key : string) : Result bool :=
  match value with
  | None => Ok false
  | Some (VBool enabled) => Ok enabled
  | Some (VString text) =>
      let text := to_lowercase (trim text) in
      if bool_decide (text ∈ ["true"; "include"; "selected"; "yes"; "on"]) then Ok true
      else if bool_decide (text ∈ ["false"; "skip"; "none"; "no"; "off"; ""]) then Ok false
      else bail ("unsupported backup content value `" +:+ text +:+ "` for `" +:+ key +:+ "`")
  | Some _ => bail ("backup content value for `" +:+ key +:+ "` must be boolean or string")
  end.

Definition contents_from_value (value : option Value) : Result BackupContentsSelection :=
  match value with
  | None => Ok contents_all
  | Some value =>
      selection ← match default value (value_get "contents" value) with
                  | VArray items => contents_from_area_array contents_none items
                  | VObject object =>
                      settings ← content_area_enabled (map_get "settings" object) "settings";
                      favorites ← content_area_enabled (map_get "favorites" object) "favorites";
                      idl_registry ← content_area_enabled (get_first ["idl_registry"; "idls"; "idl"] object) "idl_registry";
                      wallet_profile ← content_area_enabled (get_first ["wallet_profile"; "wallet"] object) "wallet_profile";
                      Ok (mkContents settings favorites idl_registry wallet_profile)
                  | _ => bail "backup content selection must be an object or array"
                  end;
      if contents_any selection then Ok selection else bail "backup content selection is empty"
  end.
End contents.

Definition selected_settings_state (settings : option Value) (contents : BackupContentsSelection) : option Value :=
  if negb (bc_settings contents) && negb (bc_favorites contents) then None
  else
    let source := default (VObject []) settings in
    let selected := if bc_settings contents then default [] (as_object source) else [] in
    if bc_favorites contents
    then Some (set_object_field "favorites" (default (VArray []) (value_get "favorites" source)) (VObject selected))
    else Some (VObject (map_remove "favorites" selected)).

Definition backup_state_value (settings idl wallet : option Value) : Value :=
  let put key (value : option Value) (m : Map) := match value with Some value => map_insert key value m | None => m end in
  VObject (put "wallet" wallet (put "idls" idl (put "settings" settings []))).

(** ** The envelope *)
Definition ensure_settings_backup_size (byte_len : Z) : Result () :=
  if SETTINGS_BACKUP_MAX_BYTES <? byte_len
  then bail ("settings backup payload exceeded " +:+ pretty SETTINGS_BACKUP_MAX_BYTES +:+ " byte limit")
  else Ok ().

Definition is_encrypted (payload : Value) : bool := default false (value_get "encrypted" payload ≫= as_bool).

Definition validate_backup_identity (payload : Value) : Result () :=
  if negb (bool_decide (value_get "kind" payload ≫= as_str = Some BACKUP_KIND))
  then bail "backup payload kind is not supported"
  else if negb (bool_decide (value_get "version" payload ≫= as_u64 = Some BACKUP_VERSION))
  then bail "backup payload version is not supported"
  else Ok ().

Definition restorable_backup_state (payload : Value) : Result Map :=
  state ← ok_or "backup payload state is missing" (value_get "state" payload ≫= as_object);
  if existsb (λ key, map_contains_key key state) ["settings"; "idls"; "idl"; "wallet"] then Ok state
  else bail "backup payload does not contain restorable state".

Definition backup_encryption_aad : string :=
  BACKUP_KIND +:+ ":" +:+ pretty BACKUP_VERSION +:+ ":" +:+ ENCRYPTION_SCHEME.

Section envelope.
Context `{Base64Crate}.

Definition decode_fixed_base64 (n : Z) (value : option string) (label : string) : Result (list Z) :=
  text ← ok_or (label +:+ " is missing") value;
  decoded ← ok_or (label +:+ " is not valid base64") (base64_decode text);
  if zlen decoded =? n then Ok decoded else bail (label +:+ " has invalid length").

Definition encrypted_backup_material (payload : Value) : Result (list Z * list Z * list Z) :=
  encryption ← ok_or "encrypted backup metadata is missing" (value_get "encryption" payload ≫= as_object);
  let text key := map_get key encryption ≫= as_str in
  if negb (bool_decide (text "scheme" = Some ENCRYPTION_SCHEME)) then bail "backup encryption scheme is not supported"
  else
    salt ← decode_fixed_base64 16 (text "salt") "backup encryption salt";
    nonce ← decode_fixed_base64 24 (text "nonce") "backup encryption nonce";
    encoded ← ok_or "encrypted backup ciphertext is missing" (value_get "ciphertext" payload ≫= as_str);
    ciphertext ← ok_or "encrypted backup ciphertext is not valid base64" (base64_decode encoded);
    if zlen ciphertext <? ENCRYPTION_TAG_BYTES then bail "encrypted backup ciphertext has invalid length"
    else Ok (salt, nonce, ciphertext).

Definition validate_app_settings_backup_envelope (payload : Value) : Result () :=
  validate_backup_identity payload ;;
  if is_encrypted payload then encrypted_backup_material payload ;; Ok ()
  else restorable_backup_state payload ;; Ok ().
End envelope.

(** ** The key of a wallet *)
Definition path_join (home file : string) : string :=
  if is_empty home || ends_with "/" home then home +:+ file else home +:+ "/" +:+ file.

Section keys.
Context `{HostFiles} `{BackupCrates}.

Definition non_empty_text (text : option string) : option string :=
  text ← trim <$> text; if is_empty text then None else Some text.

Definition wallet_home_from_profile (wallet_profile : option Value) : Result string :=
  let profile := match (λ value, default value (value_get "profile" value)) <$> wallet_profile with
                 | Some (VObject object) => object
                 | _ => []
                 end in
  value ← match non_empty_text (value ← get_first ["wallet_home"; "walletHome"] profile; as_str value) with
          | Some value => Ok value
          | None => ok_or "wallet home is required for encrypted backups" (non_empty_text (host_env LOCAL_WALLET_HOME_ENV))
          end;
  if host_is_dir value then Ok value else bail "wallet home directory is not reachable".

Definition wallet_backup_material (wallet_profile : option Value) : Result (list Z) :=
  home ← wallet_home_from_profile wallet_profile;
  let config_path := path_join home WALLET_CONFIG_FILE in
  config ← ok_or ("failed to read wallet config " +:+ config_path) (host_read config_path);
  match config with
  | [] => bail "wallet config is empty"
  | _ => Ok (as_bytes BACKUP_KIND ++ [0] ++ config)
  end.

Definition wallet_backup_key (wallet_profile : option Value) (salt : list Z) : Result (list Z) :=
  material ← wallet_backup_material wallet_profile;
  ok_or "failed to derive wallet backup key"
    (hkdf_sha256 salt material (as_bytes "logos inspector settings backup wallet key")).

Context `{Base64Crate} `{SerdeJsonBytes}.

Definition decrypt_backup_payload (payload : Value) (wallet_profile : option Value) : Result Value :=
  '(salt, nonce, ciphertext) ← encrypted_backup_material payload;
  key ← wallet_backup_key wallet_profile salt;
  plaintext ← ok_or "failed to decrypt backup payload with the configured wallet"
                (aead_decrypt key nonce (as_bytes backup_encryption_aad) ciphertext);
  ok_or "decrypted backup payload is not valid JSON" (from_slice plaintext).

Definition restored_state_from_payload (payload : Value) (wallet_profile : option Value) : Result RestoredState :=
  let encrypted := is_encrypted payload in
  plain ← if encrypted then decrypt_backup_payload payload wallet_profile else Ok payload;
  validate_backup_identity plain ;;
  state ← restorable_backup_state plain;
  let settings := map_get "settings" state in
  let idl := get_first ["idls"; "idl"] state in
  let wallet := map_get "wallet" state in
  let present (o : option Value) := bool_decide (is_Some o) in
  Ok (mkRestored settings idl wallet
        (mkRestoreSummary (present settings) (present idl) (present wallet)
           (default 0%nat (array_count "favorites" settings)) (default 0%nat (array_count "idls" idl)) encrypted)).
End keys.

(** ** Export *)
Section export.
Context `{env : Environment} `{BackupHost} `{HostFiles} `{BackupCrates} `{UnicodeLowercase} `{SerdeJson}.
Context `{UrlCrate} `{HexCrate} `{Sha2Crate} `{Base64Crate} `{SerdeJsonBytes}.

Definition created_at : IO Value := s ← io_get; mret (VString (unix_time_text (ls_steps s))).
Definition fill_random (length : nat) (message : string) : IO (list Z) :=
  io_do message ;; s ← io_get; mret (random_fill (ls_steps s) length).

Definition plain_payload (created_at state : Value) : Value :=
  json_object [("kind", VString BACKUP_KIND); ("version", json_u64 BACKUP_VERSION); ("created_at", created_at);
               ("encrypted", VBool false); ("state", state)].
Definition encrypted_payload (created_at : Value) (salt nonce ciphertext : list Z) : Value :=
  json_object [("kind", VString BACKUP_KIND); ("version", json_u64 BACKUP_VERSION); ("created_at", created_at);
               ("encrypted", VBool true);
               ("encryption", json_object [("scheme", VString ENCRYPTION_SCHEME);
                                           ("salt", VString (base64_encode salt));
                                           ("nonce", VString (base64_encode nonce));
                                           ("key_source", VString "wallet_config")]);
               ("ciphertext", VString (base64_encode ciphertext))].

(** [serde_json::to_vec] gives the bytes of [to_string]. *)
Definition backup_payload_from_optional_states (settings idl wallet : option Value) (encrypted : bool)
    (wallet_profile : option Value) (contents : BackupContentsSelection) : IO Value :=
  let settings := selected_settings_state settings contents in
  let idl := if bc_idl_registry contents then idl else None in
  let wallet := if bc_wallet_profile contents then wallet else None in
  match settings, idl, wallet with
  | None, None, None => io_bail "backup content selection is empty"
  | _, _, _ =>
      now ← created_at;
      let plain := plain_payload now (backup_state_value settings idl wallet) in
      if negb encrypted then mret plain
      else
        salt ← fill_random 16 "failed to generate backup encryption salt";
        nonce ← fill_random 24 "failed to generate backup encryption nonce";
        key ← io_lift (wallet_backup_key wallet_profile salt);
        ciphertext ← io_lift (ok_or "failed to encrypt backup payload"
                                (aead_encrypt key nonce (as_bytes backup_encryption_aad) (as_bytes (to_string plain))));
        now ← created_at;
        mret (encrypted_payload now salt nonce ciphertext)
  end.

Definition stored_settings (message : string) : IO Value :=
  stored ← read_file FileSettings; io_context message (io_lift (settings_state_from_stored stored)).
Definition stored_idl (message : string) : IO Value :=
  stored ← read_file FileIdl; io_context message (io_lift (idl_state_from_stored stored)).
Definition stored_wallet (message : string) : IO Value :=
  stored ← read_file FileWallet; io_context message (io_lift (wallet_state_from_stored stored)).

Definition export_app_settings_backup_in_dir (encrypted : bool) (wallet_profile content_options : option Value)
    : IO Value :=
  contents ← io_lift (contents_from_value content_options);
  io_context "failed to load selected local state for backup"
    (with_local_state_in (
       settings ← io_when (bc_settings contents || bc_favorites contents)
                    (stored_settings "failed to load settings state for backup");
       idl ← io_when (bc_idl_registry contents) (stored_idl "failed to load IDL state for backup");
       wallet ← io_when (bc_wallet_profile contents) (stored_wallet "failed to load wallet state for backup");
       backup_payload_from_optional_states settings idl wallet encrypted wallet_profile contents)).
End export.

(** ** Import *)
Fixpoint check_objects (message : nat → string) (index : nat) (items : list Value) : Result () :=
  match items with
  | [] => Ok ()
  | VObject _ :: items' => check_objects message (S index) items'
  | _ => bail (message index)
  end.

Definition validate_import_settings_state (settings : Value) (options : BackupImportOptions) : Result () :=
  object ← ok_or "backup settings state must be an object" (as_object settings);
  match map_get "favorites" object with
  | Some favorites =>
      if is_selected (options_mode options AreaFavorites) then
        favorites ← ok_or "backup favorites must be an array" (as_array favorites);
        check_objects (λ index, "backup favorite at index " +:+ pretty index +:+ " must be an object") 0 favorites
      else Ok ()
  | None => Ok ()
  end.

Fixpoint check_selection_fields (account : string) (fields : list string) (selection : Map) : Result () :=
  match fields with
  | [] => Ok ()
  | field :: fields' =>
      match map_get field selection with
      | Some (VString _) | None => check_selection_fields account fields' selection
      | Some _ =>
          bail ("backup IDL account selection field `" +:+ field +:+ "` for `" +:+ account +:+ "` must be a string")
      end
  end.

Section import.
Context `{UnicodeLowercase}.

Fixpoint check_selections (selections : Map) : Result () :=
  match selections with
  | [] => Ok ()
  | (account, selection) :: selections' =>
      match normalized_account_idl_selection_key selection with
      | None => bail ("backup IDL account selection for `" +:+ account
                      +:+ "` must be a non-empty IDL key string or object")
      | Some _ =>
          match as_object selection with
          | Some fields => check_selection_fields account ["accountType"; "ownerProgram"; "network"] fields
          | None => Ok ()
          end ;;
          check_selections selections'
      end
  end.

Definition validate_import_idl_state (idl : Value) : Result () :=
  object ← ok_or "backup IDL registry must be an object" (as_object idl);
  entries ← ok_or "backup IDL registry must contain an `idls` array" (map_get "idls" object ≫= as_array);
  check_objects (λ index, "backup IDL registry item at index " +:+ pretty index +:+ " must be an object") 0 entries ;;
  match map_get "account_idl_selections" object with
  | Some selections =>
      selections ← ok_or "backup IDL account selections must be an object" (as_object selections);
      check_selections selections
  | None => Ok ()
  end.

Definition validate_import_wallet_state (wallet : Value) : Result () :=
  object ← ok_or "backup wallet state must be an object" (as_object wallet);
  match map_get "profile" object with
  | Some (VObject _) | None => Ok ()
  | Some _ => bail "backup wallet profile must be an object"
  end ;;
  match map_get "operations" object with
  | Some (VArray _) | None => Ok ()
  | Some _ => bail "backup wallet operations must be an array"
  end.

Definition validate_if (wanted : bool) (check : Value → Result ()) (state : option Value) : Result () :=
  match state with Some value => if wanted then check value else Ok () | None => Ok () end.

Definition validate_selected_import_state (state : RestoredState) (options : BackupImportOptions) : Result () :=
  let selected area := is_selected (options_mode options area) in
  validate_if (selected AreaSettings || selected AreaFavorites)
    (λ settings, validate_import_settings_state settings options) (re_settings state) ;;
  validate_if (selected AreaIdlRegistry) validate_import_idl_state (re_idl state) ;;
  validate_if (selected AreaWalletProfile) validate_import_wallet_state (re_wallet state).
End import.

Inductive SettingsBackupCommitResult : Type := BackupNoOp | BackupApplied (report : LocalStateCommitReport).
Record SettingsBackupRestoreReceipt : Type := mkRestoreReceipt {
  rr_summary : Map;
  rr_applied_areas : list BackupImportArea;
  rr_commit : SettingsBackupCommitResult;
}.

Definition plan_writes `{SerdeJsonBytes} (plan : ImportPlan) : LocalStateWriteSet :=
  mkWriteSet (to_vec_pretty <$> ip_settings plan) (to_vec_pretty <$> ip_idl plan) (to_vec_pretty <$> ip_wallet plan).

Section restore.
Context `{env : Environment} `{HostFiles} `{BackupCrates} `{UnicodeLowercase} `{SerdeJson}.
Context `{UrlCrate} `{HexCrate} `{Sha2Crate} `{Base64Crate} `{SerdeJsonBytes}.
(** [config_dir()]. *)
Context (config_dir : Result string).

Definition current_import_state (state : RestoredState) (options : BackupImportOptions)
    : IO (option Value * option Value) :=
  let requirements := current_state_requirements state options in
  settings ← io_when (cr_settings requirements) (stored_settings "failed to load current settings for backup import");
  idl ← io_when (cr_idl requirements) (stored_idl "failed to load current IDL state for backup import");
  mret (settings, idl).

Definition preview_app_settings_backup_import_in_dir (state : RestoredState) (options : BackupImportOptions) : IO Value :=
  io_lift (validate_selected_import_state state options) ;;
  io_context "failed to load selected current local state for backup import preview"
    (with_local_state_in (
       '(current_settings, current_idl) ← current_import_state state options;
       plan ← io_lift (build_import_plan_with_current state options false current_settings current_idl);
       mret (ip_summary plan))).

Definition preview_app_settings_backup_import (payload : Value) (wallet_profile : option Value)
    (options : BackupImportOptions) : IO Value :=
  state ← io_lift (restored_state_from_payload payload wallet_profile);
  io_lift config_dir ;;
  preview_app_settings_backup_import_in_dir state options.

Definition restore_app_settings_backup_in_dir (state : RestoredState) (options : BackupImportOptions)
    : IO SettingsBackupRestoreReceipt :=
  io_lift (validate_selected_import_state state options) ;;
  with_local_state_in (
    '(current_settings, current_idl) ←
      io_context "failed to rebuild backup import plan from current local state" (current_import_state state options);
    plan ← io_lift (build_import_plan_with_current state options true current_settings current_idl);
    let writes := plan_writes plan in
    summary ← io_lift (ok_or "backup import summary must be a JSON object" (as_object (ip_summary plan)));
    commit ←
      (if write_set_is_empty writes then
         match ip_applied_areas plan with
         | [] => mret BackupNoOp
         | _ => io_bail "backup import plan applied areas without a local write set"
         end
       else
         match ip_applied_areas plan with
         | [] => io_bail "backup import plan produced a local write set without applied areas"
         | _ => report ← local_state_commit writes; mret (BackupApplied report)
         end);
    mret (mkRestoreReceipt summary (ip_applied_areas plan) commit)).

Definition restore_app_settings_backup_with_options (payload : Value) (wallet_profile : option Value)
    (options : BackupImportOptions) : IO SettingsBackupRestoreReceipt :=
  state ← io_lift (restored_state_from_payload payload wallet_profile);
  io_lift config_dir ;;
  restore_app_settings_backup_in_dir state options.
End restore.
