(* ===== verification/BackupCatalog.v ===== *)
(** * The catalog of backups

    [src/src/support/backup_catalog.rs]: backups are files in a directory of
    payloads, and a catalog file lists them with the digest of each payload.  A
    transaction installs a payload before the catalog that lists it; payloads that
    no catalog lists are removed by the next transaction.  The directory of the
    catalog and the one of the payloads are synchronized separately, and the entry
    of the second is in the first. *)

From Stdlib Require Import Ascii.
From S2P Require Import Prelude Json Bytes CatalogModel NodeRequests SourceModes ImportOptions BackupImport.
From S2P Require Import InstructionTarget LocalState ChannelConfig ChannelStore BackupPlan SettingsBackup.
Open Scope Z_scope.

Definition CATALOG_VERSION : Z := 1.
Definition BACKUP_PAYLOAD_DIR : string := "backup-payloads".
Definition CATALOG_LOCK_FILE : string := ".backup-catalog.lock".
Definition BACKUP_CID_MAX_BYTES : Z := 256.

Record RemoteBackupMetadata : Type := mkRemote { rm_cid : string; rm_provider : string; rm_uploaded_at : string }.
#[export] Instance RemoteBackupMetadata_eq_dec : EqDecision RemoteBackupMetadata.
Proof. solve_decision. Defined.

Record BackupCatalogEntry : Type := mkCatalogEntry {
  ce_backup_catalog_id : string;
  ce_payload_id : string;
  ce_backup_version_label : string;
  ce_created_at : string;
  ce_contents : list string;
  ce_encrypted : bool;
  ce_local_payload_path : string;
  ce_remote : option RemoteBackupMetadata;
}.
#[export] Instance BackupCatalogEntry_eq_dec : EqDecision BackupCatalogEntry.
Proof. solve_decision. Defined.
#[export] Instance BackupCatalogEntry_eta : Eta BackupCatalogEntry :=
  λ e, mkCatalogEntry (ce_backup_catalog_id e) (ce_payload_id e) (ce_backup_version_label e) (ce_created_at e)
         (ce_contents e) (ce_encrypted e) (ce_local_payload_path e) (ce_remote e).

Record BackupCatalog : Type := mkBackupCatalog { bk_version : Z; bk_entries : list BackupCatalogEntry }.
#[export] Instance BackupCatalog_eq_dec : EqDecision BackupCatalog.
Proof. solve_decision. Defined.
#[export] Instance BackupCatalog_eta : Eta BackupCatalog := λ c, mkBackupCatalog (bk_version c) (bk_entries c).
Definition catalog_default : BackupCatalog := mkBackupCatalog CATALOG_VERSION [].

(** ** JSON *)
Definition remote_value (remote : RemoteBackupMetadata) : Value :=
  json_object [("cid", VString (rm_cid remote)); ("provider", VString (rm_provider remote));
               ("uploaded_at", VString (rm_uploaded_at remote))].
Definition de_remote (value : Value) : option RemoteBackupMetadata :=
  match struct_fields ["cid"; "provider"; "uploaded_at"] value with
  | Some [cid; provider; uploaded_at] =>
      cid ← de_field as_str cid; provider ← de_field as_str provider; uploaded_at ← de_field as_str uploaded_at;
      Some (mkRemote cid provider uploaded_at)
  | _ => None
  end.

Definition catalog_entry_value (e : BackupCatalogEntry) : Value :=
  json_object [("backup_catalog_id", VString (ce_backup_catalog_id e)); ("payload_id", VString (ce_payload_id e));
               ("backup_version_label", VString (ce_backup_version_label e)); ("created_at", VString (ce_created_at e));
               ("contents", VArray (map VString (ce_contents e))); ("encrypted", VBool (ce_encrypted e));
               ("local_payload_path", VString (ce_local_payload_path e));
               ("remote", match ce_remote e with Some remote => remote_value remote | None => VNull end)].
Definition de_catalog_entry (value : Value) : option BackupCatalogEntry :=
  match struct_fields ["backup_catalog_id"; "payload_id"; "backup_version_label"; "created_at"; "contents"; "encrypted";
                       "local_payload_path"; "remote"] value with
  | Some [id; payload_id; label; created_at; contents; encrypted; path; remote] =>
      id ← de_field as_str id; payload_id ← de_field as_str payload_id; label ← de_field as_str label;
      created_at ← de_field as_str created_at;
      contents ← de_field (λ v, items ← as_array v; mapM as_str items) contents;
      encrypted ← de_field as_bool encrypted; path ← de_field as_str path;
      remote ← de_option_field (is_object value) de_remote remote;
      Some (mkCatalogEntry id payload_id label created_at contents encrypted path remote)
  | _ => None
  end.

Definition backup_catalog_value (c : BackupCatalog) : Value :=
  json_object [("version", json_u64 (bk_version c)); ("entries", VArray (map catalog_entry_value (bk_entries c)))].
Definition de_backup_catalog (value : Value) : option BackupCatalog :=
  match struct_fields ["version"; "entries"] value with
  | Some [version; entries] =>
      version ← de_field as_u64 version;
      entries ← de_field (λ v, items ← as_array v; mapM de_catalog_entry items) entries;
      Some (mkBackupCatalog version entries)
  | _ => None
  end.

(** ** Paths and identities *)
Definition catalog_path_for_dir (base_dir : string) : string := path_join base_dir "backup_catalog.json".
Definition payload_dir (base_dir : string) : string := path_join base_dir BACKUP_PAYLOAD_DIR.
Definition payload_name (backup_catalog_id : string) : string := backup_catalog_id +:+ ".json".
Definition payload_path (base_dir backup_catalog_id : string) : string :=
  path_join (payload_dir base_dir) (payload_name backup_catalog_id).

(** [Path] compares components: repeated separators and [.] do not count, except
    at the start of a relative path. *)
Definition path_components (path : string) : bool * bool * list string :=
  let parts := str_split "/"%char path in
  let absolute := path_is_absolute path in
  (absolute, negb absolute && bool_decide (head parts = Some "."),
   List.filter (λ part, negb (is_empty part || String.eqb part ".")) parts).
Definition path_eqb (left right : string) : bool := bool_decide (path_components left = path_components right).

Section identities.
Context `{HexCrate} `{Sha2Crate}.

Definition payload_identity (payload_text : list Z) : string := "sha256:" +:+ hex_encode (sha256 payload_text).

Definition catalog_id (created_at payload_id : string) : string :=
  let short_hash := match strip_prefix "sha256:" payload_id with
                    | Some value => if is_empty (String.substring 0 12 value) then "unknown" else String.substring 0 12 value
                    | None => "unknown"
                    end in
  "backup_" +:+ created_at +:+ "_" +:+ short_hash.
End identities.

Definition has_id (id : string) (catalog : BackupCatalog) : bool :=
  existsb (λ entry, String.eqb (ce_backup_catalog_id entry) id) (bk_entries catalog).

Definition unique_catalog_id (catalog : BackupCatalog) (created_at payload_id : string) : Result string :=
  let base := catalog_id created_at payload_id in
  if negb (has_id base catalog) then Ok base
  else ok_or "backup catalog id space is exhausted"
         (List.find (λ candidate, negb (has_id candidate catalog))
            (map (λ suffix : nat, base +:+ "_" +:+ pretty suffix) (seq 2 (length (bk_entries catalog) + 1)))).

(** ** Validation *)
Definition is_lower_hex (a : Ascii.ascii) : bool :=
  is_ascii_hexdigit a && negb (in_range 65 90 (Z.of_nat (Ascii.nat_of_ascii a))).
Definition validate_payload_identity (value : string) : Result () :=
  match strip_prefix "sha256:" value with
  | None => bail "backup payload identity must use sha256"
  | Some digest =>
      if negb (str_len digest =? 64) || negb (forallb is_lower_hex (String.list_ascii_of_string digest))
      then bail "backup payload identity has an invalid sha256 digest" else Ok ()
  end.

Definition is_cid_char (a : Ascii.ascii) : bool :=
  let x := Z.of_nat (Ascii.nat_of_ascii a) in
  in_range 48 57 x || in_range 65 90 x || in_range 97 122 x || (x =? 45) || (x =? 95).
Definition validate_remote_cid (value : string) : Result () :=
  if is_empty value then bail "remote backup CID is required"
  else if BACKUP_CID_MAX_BYTES <? str_len value
  then bail ("remote backup CID exceeds " +:+ pretty BACKUP_CID_MAX_BYTES +:+ " byte limit")
  else if negb (forallb is_cid_char (String.list_ascii_of_string value))
  then bail "remote backup CID contains unsupported characters" else Ok ().

Section validation.
Context (base_dir : string).

Definition validate_catalog_entry (index : nat) (catalog_ids remote_cids : list string) (entry : BackupCatalogEntry)
    : Result (list string * list string) :=
  let at_entry text := "backup catalog entry " +:+ pretty index +:+ " has " +:+ text in
  catalog_id ← context (at_entry "an invalid id") (BackupCatalogId_parse (ce_backup_catalog_id entry));
  if negb (String.eqb catalog_id (ce_backup_catalog_id entry)) then bail (at_entry "a noncanonical id")
  else if bool_decide (catalog_id ∈ catalog_ids)
  then bail ("backup catalog contains duplicate id `" +:+ ce_backup_catalog_id entry +:+ "`")
  else
    context (at_entry "an invalid payload id") (validate_payload_identity (ce_payload_id entry)) ;;
    if negb (path_eqb (ce_local_payload_path entry) (payload_path base_dir catalog_id))
    then bail (at_entry "a noncanonical local payload path")
    else
      match ce_remote entry with
      | None => Ok (catalog_id :: catalog_ids, remote_cids)
      | Some remote =>
          context (at_entry "an invalid remote CID") (validate_remote_cid (rm_cid remote)) ;;
          if bool_decide (rm_cid remote ∈ remote_cids)
          then bail ("backup catalog contains duplicate remote CID `" +:+ rm_cid remote +:+ "`")
          else Ok (catalog_id :: catalog_ids, rm_cid remote :: remote_cids)
      end.

Fixpoint validate_catalog_entries (index : nat) (catalog_ids remote_cids : list string)
    (entries : list BackupCatalogEntry) : Result () :=
  match entries with
  | [] => Ok ()
  | entry :: entries' =>
      '(catalog_ids, remote_cids) ← validate_catalog_entry index catalog_ids remote_cids entry;
      validate_catalog_entries (S index) catalog_ids remote_cids entries'
  end.
Definition validate_loaded_catalog (catalog : BackupCatalog) : Result () :=
  validate_catalog_entries 0 [] [] (bk_entries catalog).
End validation.

(** ** The disk

    A name has the node that is seen and those that a loss of power may bring
    back.  The directory of the payloads may be absent, or created and not yet
    durable.  A symbolic link, which the code never makes, leads nowhere. *)
Inductive PayloadDir : Type := DirAbsent | DirPending | DirDurable.
#[export] Instance PayloadDir_eq_dec : EqDecision PayloadDir.
Proof. solve_decision. Defined.

Record CatalogDisk : Type := mkCatalogDisk {
  kd_catalog : Slot;
  kd_payloads : gmap string Slot;
  kd_dir : PayloadDir;
}.
#[export] Instance CatalogDisk_eta : Eta CatalogDisk := λ d, mkCatalogDisk (kd_catalog d) (kd_payloads d) (kd_dir d).

Definition missing_slot : Slot := mkSlot NodeMissing [].
Definition payload_slot (d : CatalogDisk) (name : string) : Slot := default missing_slot (kd_payloads d !! name).
Definition payload_node (d : CatalogDisk) (name : string) : Node := sl_latest (payload_slot d name).

Definition slot_put (node : Node) (slot : Slot) : Slot := mkSlot node (slot_possible slot).
Definition slot_sync (slot : Slot) : Slot := mkSlot (sl_latest slot) [].

Definition put_catalog (bytes : list Z) (d : CatalogDisk) : CatalogDisk :=
  d <| kd_catalog ::= slot_put (NodeFile bytes) |>.
Definition put_payload (name : string) (node : Node) (d : CatalogDisk) : CatalogDisk :=
  d <| kd_payloads ::= <[name := slot_put node (payload_slot d name)]> |>.
Definition sync_payload_entries (d : CatalogDisk) : CatalogDisk := d <| kd_payloads ::= fmap slot_sync |>.
Definition sync_base_entries (d : CatalogDisk) : CatalogDisk :=
  d <| kd_catalog ::= slot_sync |> <| kd_dir ::= (λ dir, match dir with DirPending => DirDurable | _ => dir end) |>.
Definition create_payload_dir (d : CatalogDisk) : CatalogDisk :=
  d <| kd_dir ::= (λ dir, match dir with DirAbsent => DirPending | _ => dir end) |>.

(** ** Calls of the system *)
Record CatalogState : Type := mkCatalogState { ks_disk : CatalogDisk; ks_steps : nat }.
#[export] Instance CatalogState_eta : Eta CatalogState := λ s, mkCatalogState (ks_disk s) (ks_steps s).

(** [Path::is_file] takes an error for [false]: [stat_fails] says when.
    [staged_files] are the names of staged files that a listing shows. *)
Class CatalogHost : Type := {
  stat_fails : nat → bool;
  staged_files : nat → list string;
}.

Definition KIO (A : Type) : Type := CatalogState → Result A * CatalogState.
#[export] Instance KIO_ret : MRet KIO := λ A a s, (Ok a, s).
#[export] Instance KIO_bind : MBind KIO := λ A B k m s,
  match m s with
  | (Ok a, s') => k a s'
  | (Err e, s') => (Err e, s')
  end.
Definition k_lift {A} (r : Result A) : KIO A := λ s, (r, s).
Definition k_fail {A} (e : Error) : KIO A := λ s, (Err e, s).
Definition k_attempt {A} (m : KIO A) : KIO (Result A) := λ s, match m s with (r, s') => (Ok r, s') end.
Definition k_steps : KIO nat := λ s, (Ok (ks_steps s), s).

Section calls.
Context `{Environment} `{CatalogHost}.

Definition k_call {A} (effect : CatalogDisk → CatalogDisk) (result : CatalogDisk → A) (message : string) : KIO A := λ s,
  let s' := s <| ks_steps ::= S |> in
  match io_answer (ks_steps s) with
  | IoWorks => (Ok (result (ks_disk s)), s' <| ks_disk ::= effect |>)
  | IoFails => (bail message, s')
  | IoFailsAfterEffect => (bail message, s' <| ks_disk ::= effect |>)
  end.
Definition k_do (message : string) : KIO () := k_call id (λ _, ()) message.
Definition k_look {A} (result : CatalogDisk → A) (message : string) : KIO A := k_call id result message.

(** [path.is_file()] of the catalog. *)
Definition catalog_is_file : KIO bool := λ s,
  let file := match sl_latest (kd_catalog (ks_disk s)) with NodeFile _ => true | _ => false end in
  (Ok (negb (stat_fails (ks_steps s)) && file), s <| ks_steps ::= S |>).

(** The effect is that of the directory. *)
Definition sync_directory (effect : CatalogDisk → CatalogDisk) (directory label : string) : KIO () :=
  k_do ("failed to open " +:+ label +:+ " directory " +:+ directory) ;;
  k_call effect (λ _, ()) ("failed to sync " +:+ label +:+ " directory " +:+ directory).
Definition sync_payload_dir (base_dir label : string) : KIO () :=
  sync_directory sync_payload_entries (payload_dir base_dir) label.
Definition sync_base_dir (base_dir label : string) : KIO () := sync_directory sync_base_entries base_dir label.
End calls.

(** ** Transactions

    A payload is prepared for the file of its name in the directory of the
    payloads. *)
Record PreparedPayload : Type := mkPreparedPayload { pp_name : string; pp_bytes : list Z }.
Record BackupCatalogTransaction : Type := mkCatalogTransaction {
  tx_original_catalog : BackupCatalog;
  tx_catalog : BackupCatalog;
}.
#[export] Instance BackupCatalogTransaction_eta : Eta BackupCatalogTransaction :=
  λ t, mkCatalogTransaction (tx_original_catalog t) (tx_catalog t).
Inductive BackupCatalogCommitReceipt : Type := CommitDurable | CommitVisibleDurabilityUnconfirmed (error : string).

Fixpoint error_chain (e : Error) : string :=
  match e with [] => "" | [m] => m | m :: e' => m +:+ ": " +:+ error_chain e' end.

Definition is_payload_name (name : string) : bool := starts_with "backup_" name && ends_with ".json" name.

Section transactions.
Context `{Environment} `{CatalogHost} `{BackupHost} `{HexCrate} `{Sha2Crate} `{SerdeJsonBytes}.
Context (base_dir : string).

(** [fs::read_to_string] and [serde_json::from_str]. *)
Definition parse_catalog (bytes : list Z) : Result BackupCatalog :=
  if negb (utf8_valid bytes) then bail ("failed to read backup catalog from " +:+ catalog_path_for_dir base_dir)
  else
    catalog ← ok_or ("failed to parse backup catalog from " +:+ catalog_path_for_dir base_dir)
                (value ← from_slice bytes; de_backup_catalog value);
    if negb (bk_version catalog =? CATALOG_VERSION) then bail "backup catalog version is not supported"
    else validate_loaded_catalog base_dir catalog ;; Ok catalog.

Definition load_catalog_from_path : KIO BackupCatalog :=
  is_file ← catalog_is_file;
  if negb is_file then mret catalog_default
  else
    node ← k_look (λ d, sl_latest (kd_catalog d))
             ("failed to read backup catalog from " +:+ catalog_path_for_dir base_dir);
    match node with
    | NodeFile bytes => k_lift (parse_catalog bytes)
    | _ => k_fail ["failed to read backup catalog from " +:+ catalog_path_for_dir base_dir]
    end.

Fixpoint remove_staged (directory : string) (names : list string) : KIO () :=
  match names with
  | [] => mret ()
  | name :: names' =>
      k_do "failed to inspect backup transaction entry type" ;;
      k_do ("failed to remove stale backup transaction file " +:+ path_join directory name) ;;
      remove_staged directory names'
  end.

(** What it removes is not in the model of the disk; a directory it removed
    something from is synchronized. *)
Definition cleanup_staged_files (exists_ : CatalogDisk → bool) (directory : string) (sync : KIO ()) : KIO () :=
  found ← k_look exists_ ("failed to inspect backup transaction directory " +:+ directory);
  if negb found then mret ()
  else
    steps ← k_steps;
    let names := staged_files steps in
    remove_staged directory names ;;
    if bool_decide (names = []) then mret () else sync.

Definition is_referenced (catalog : BackupCatalog) (name : string) : bool :=
  existsb (λ entry, String.eqb (payload_name (ce_backup_catalog_id entry)) name) (bk_entries catalog).

Definition remove_payload (name message : string) : KIO () :=
  k_call (put_payload name NodeMissing) (λ _, ()) message.

Fixpoint remove_orphans (catalog : BackupCatalog) (names : list (string * bool)) (removed : bool) : KIO bool :=
  match names with
  | [] => mret removed
  | (name, is_file) :: names' =>
      k_do "failed to inspect backup payload entry type" ;;
      if negb (is_file && is_payload_name name) || is_referenced catalog name then remove_orphans catalog names' removed
      else
        remove_payload name ("failed to remove orphaned backup payload " +:+ path_join (payload_dir base_dir) name) ;;
        remove_orphans catalog names' true
  end.

(** The names that are seen in the directory of the payloads, and whether they are
    those of files. *)
Definition payload_names (d : CatalogDisk) : list (string * bool) :=
  omap (λ entry : string * Slot, match sl_latest entry.2 with
                                 | NodeMissing => None
                                 | NodeFile _ => Some (entry.1, true)
                                 | NodeSymlink => Some (entry.1, false)
                                 end)
    (map_to_list (kd_payloads d)).

Definition payload_dir_exists (d : CatalogDisk) : bool := negb (bool_decide (kd_dir d = DirAbsent)).

Definition cleanup_orphan_payloads (catalog : BackupCatalog) : KIO () :=
  listing ← k_look (λ d, if payload_dir_exists d then Some (payload_names d) else None)
              ("failed to inspect backup payload directory " +:+ payload_dir base_dir);
  match listing with
  | None => mret ()
  | Some names =>
      removed ← remove_orphans catalog names false;
      if removed : bool then sync_payload_dir base_dir "backup payload" ;; sync_base_dir base_dir "backup catalog" else mret ()
  end.

Definition transaction_begin : KIO BackupCatalogTransaction :=
  k_do ("failed to create backup catalog directory " +:+ base_dir) ;;
  k_do ("failed to open backup catalog lock " +:+ path_join base_dir CATALOG_LOCK_FILE) ;;
  k_do ("failed to lock backup catalog at " +:+ path_join base_dir CATALOG_LOCK_FILE) ;;
  cleanup_staged_files (λ _, true) base_dir (sync_base_dir base_dir "backup transaction") ;;
  cleanup_staged_files payload_dir_exists (payload_dir base_dir) (sync_payload_dir base_dir "backup transaction") ;;
  catalog ← load_catalog_from_path;
  cleanup_orphan_payloads catalog ;;
  mret (mkCatalogTransaction catalog catalog).

(** [tempfile_in], [write_all] and [sync_all] in the directory of the target. *)
Definition stage_replacement (create : CatalogDisk → CatalogDisk) (parent label : string) : KIO () :=
  k_call create (λ _, ()) ("failed to create " +:+ label +:+ " directory " +:+ parent) ;;
  k_do ("failed to stage " +:+ label +:+ " in " +:+ parent) ;;
  k_do ("failed to write staged " +:+ label) ;;
  k_do ("failed to sync staged " +:+ label).

(** Whether the replacement is installed, and how the rest of it went. *)
Definition install_payload (prepared : PreparedPayload) : KIO (bool * Result ()) :=
  r ← k_attempt (k_call (put_payload (pp_name prepared) (NodeFile (pp_bytes prepared))) (λ _, ())
                   ("failed to atomically replace backup payload at " +:+ path_join (payload_dir base_dir) (pp_name prepared)));
  match r with
  | Err e => mret (false, Err e)
  | Ok _ => r ← k_attempt (sync_payload_dir base_dir "backup payload" ;; sync_base_dir base_dir "backup catalog"); mret (true, r)
  end.
Definition install_catalog (bytes : list Z) : KIO (bool * Result ()) :=
  r ← k_attempt (k_call (put_catalog bytes) (λ _, ()) ("failed to atomically replace backup catalog at " +:+ catalog_path_for_dir base_dir));
  match r with
  | Err e => mret (false, Err e)
  | Ok _ => r ← k_attempt (sync_base_dir base_dir "backup catalog"); mret (true, r)
  end.

Definition remove_uncommitted_payload (name : string) : KIO () :=
  removed ← k_call (λ d, if bool_decide (payload_node d name = NodeMissing) then d else put_payload name NodeMissing d)
              (λ d, negb (bool_decide (payload_node d name = NodeMissing)))
              ("failed to remove uncommitted backup payload " +:+ path_join (payload_dir base_dir) name);
  if removed : bool then sync_payload_dir base_dir "backup payload" ;; sync_base_dir base_dir "backup catalog" else mret ().

Definition transaction_commit (transaction : BackupCatalogTransaction) (prepared_payload : option PreparedPayload)
    : KIO BackupCatalogCommitReceipt :=
  let catalog_changed := negb (bool_decide (tx_catalog transaction = tx_original_catalog transaction)) in
  if bool_decide (prepared_payload = None) && negb catalog_changed then mret CommitDurable
  else
    let payload_referenced_before :=
      match prepared_payload with
      | Some prepared => is_referenced (tx_original_catalog transaction) (pp_name prepared)
      | None => false
      end in
    payload_existed_before ← match prepared_payload with
                             | Some prepared =>
                                 k_look (λ d, negb (bool_decide (payload_node d (pp_name prepared) = NodeMissing)))
                                   ("failed to inspect backup path " +:+ path_join (payload_dir base_dir) (pp_name prepared))
                             | None => mret false
                             end;
    match prepared_payload with
    | Some _ => stage_replacement create_payload_dir (payload_dir base_dir) "backup payload"
    | None => mret ()
    end ;;
    (if catalog_changed then stage_replacement id base_dir "backup catalog" else mret ()) ;;
    '(payload_installed, result) ← match prepared_payload with
                                   | Some prepared => install_payload prepared
                                   | None => mret (false, Ok ())
                                   end;
    '(catalog_installed, result) ←
      match result with
      | Ok _ => if catalog_changed then install_catalog (to_vec_pretty (backup_catalog_value (tx_catalog transaction)))
                else mret (false, Ok ())
      | Err e => mret (false, Err e)
      end;
    match result with
    | Ok _ => mret CommitDurable
    | Err error =>
        if catalog_installed || (payload_installed && payload_referenced_before && negb catalog_changed)
        then mret (CommitVisibleDurabilityUnconfirmed (error_chain error))
        else
          match prepared_payload with
          | Some prepared =>
              if payload_installed && negb payload_referenced_before && negb payload_existed_before then
                r ← k_attempt (remove_uncommitted_payload (pp_name prepared));
                match r with
                | Ok _ => k_fail error
                | Err rollback_error =>
                    k_fail [error_chain error +:+ "; failed to remove uncommitted backup payload: "
                            +:+ error_chain rollback_error]
                end
              else k_fail error
          | None => k_fail error
          end
    end.

(** ** Operations *)
Definition backup_contents (payload : Value) : list string :=
  if is_encrypted payload then ["encrypted_payload"]
  else
    let state := value_get "state" payload ≫= as_object in
    let get key := state ≫= map_get key in
    match get "settings" with
    | Some settings =>
        (if match as_object settings with
            | Some object => existsb (λ entry : string * Value, negb (String.eqb entry.1 "favorites")) object
            | None => true
            end then ["settings"] else []) ++
        (if bool_decide (is_Some (value_get "favorites" settings)) then ["favorites"] else [])
    | None => []
    end ++
    (if bool_decide (is_Some (get "idls")) then ["idl_registry"] else []) ++
    (if bool_decide (is_Some (get "wallet")) then ["wallet_profile"] else []).

Definition remote_backup_provider (provider : option string) : string := default "logos_storage" (non_empty_text provider).

Definition now_text : KIO string := steps ← k_steps; mret (unix_time_text steps).

Definition create_entry_from_payload (catalog : BackupCatalog) (label : option string) (payload : Value)
    (encrypted : bool) (payload_text : list Z) (payload_id : string)
    : KIO (BackupCatalog * BackupCatalogEntry * PreparedPayload) :=
  k_lift (ensure_settings_backup_size (zlen payload_text)) ;;
  created_at ← now_text;
  backup_catalog_id ← k_lift (unique_catalog_id catalog created_at payload_id);
  let entry := mkCatalogEntry backup_catalog_id payload_id (default created_at (non_empty_text label)) created_at
                 (backup_contents payload) encrypted (payload_path base_dir backup_catalog_id) None in
  mret (catalog <| bk_entries ::= (λ entries, entries ++ [entry]) |>, entry,
        mkPreparedPayload (payload_name backup_catalog_id) payload_text).

Definition record_payload_in_dir (label : option string) (payload : Value) : KIO BackupCatalogEntry :=
  let payload_text := to_vec_pretty payload in
  k_lift (ensure_settings_backup_size (zlen payload_text)) ;;
  transaction ← transaction_begin;
  '(catalog, entry, prepared) ← create_entry_from_payload (tx_catalog transaction) label payload (is_encrypted payload)
                                  payload_text (payload_identity payload_text);
  transaction_commit (transaction <| tx_catalog := catalog |>) (Some prepared) ;;
  mret entry.

Definition read_backup_payload_file (name : string) : KIO (list Z) :=
  let message verb := "failed to " +:+ verb +:+ " backup payload from " +:+ path_join (payload_dir base_dir) name in
  node ← k_look (λ d, payload_node d name) (message "open");
  match node with
  | NodeFile bytes =>
      k_do (message "inspect") ;;
      (if SETTINGS_BACKUP_MAX_BYTES <? zlen bytes
       then k_lift (ensure_settings_backup_size (SETTINGS_BACKUP_MAX_BYTES + 1)) else mret ()) ;;
      k_do (message "read") ;;
      let read := take (Z.to_nat (SETTINGS_BACKUP_MAX_BYTES + 1)) bytes in
      k_lift (ensure_settings_backup_size (zlen read)) ;;
      mret read
  | _ => k_fail [message "open"]
  end.

Definition has_cid (cid : string) (entry : BackupCatalogEntry) : bool :=
  match ce_remote entry with Some remote => String.eqb (rm_cid remote) cid | None => false end.
Definition of_id (id : string) (entry : BackupCatalogEntry) : bool := String.eqb (ce_backup_catalog_id entry) id.

(** An entry that has the CID already: its payload is written again if it cannot be
    read as it should be, its path if it is not the expected one. *)
Definition repair_remote_entry (transaction : BackupCatalogTransaction) (existing : BackupCatalogEntry)
    (payload_text : list Z) (payload_id : string) : KIO BackupCatalogEntry :=
  let name := payload_name (ce_backup_catalog_id existing) in
  stored ← k_attempt (read_backup_payload_file name);
  let stored_payload_is_current := match stored with Ok bytes => String.eqb (payload_identity bytes) payload_id | Err _ => false end in
  let prepared_payload := if stored_payload_is_current then None else Some (mkPreparedPayload name payload_text) in
  let expected_payload_path := payload_path base_dir (ce_backup_catalog_id existing) in
  let catalog := tx_catalog transaction in
  '(catalog, result) ←
    (if path_eqb (ce_local_payload_path existing) expected_payload_path then mret (catalog, existing)
     else
       found ← k_lift (ok_or "accepted remote backup entry disappeared during repair"
                         (List.find (of_id (ce_backup_catalog_id existing)) (bk_entries catalog)));
       let stored := found <| ce_local_payload_path := expected_payload_path |> in
       mret (catalog <| bk_entries ::= update_first (of_id (ce_backup_catalog_id existing)) stored |>, stored));
  transaction_commit (transaction <| tx_catalog := catalog |>) prepared_payload ;;
  mret result.

Definition record_remote_payload_in_dir (label : option string) (payload : Value) (cid : string)
    (provider : option string) : KIO BackupCatalogEntry :=
  let cid := trim cid in
  k_lift (validate_remote_cid cid) ;;
  let payload_text := to_vec_pretty payload in
  k_lift (ensure_settings_backup_size (zlen payload_text)) ;;
  let payload_id := payload_identity payload_text in
  transaction ← transaction_begin;
  let catalog := tx_catalog transaction in
  match List.find (has_cid cid) (bk_entries catalog) with
  | Some existing =>
      if negb (String.eqb (ce_payload_id existing) payload_id)
      then k_fail ["remote backup CID `" +:+ cid +:+ "` conflicts with existing payload identity"]
      else repair_remote_entry transaction existing payload_text payload_id
  | None =>
      let encrypted := is_encrypted payload in
      uploaded_at ← now_text;
      let remote := mkRemote cid (remote_backup_provider provider) uploaded_at in
      let unsent entry := String.eqb (ce_payload_id entry) payload_id && bool_decide (ce_remote entry = None) in
      '(catalog, entry, prepared) ←
        match List.find unsent (bk_entries catalog) with
        | Some found =>
            let id := ce_backup_catalog_id found in
            let entry := found <| ce_payload_id := payload_id |> <| ce_contents := backup_contents payload |>
                           <| ce_encrypted := encrypted |> <| ce_local_payload_path := payload_path base_dir id |>
                           <| ce_backup_version_label ::= (λ old, default old (non_empty_text label)) |>
                           <| ce_remote := Some remote |> in
            mret (catalog <| bk_entries ::= update_first unsent entry |>, entry,
                  mkPreparedPayload (payload_name id) payload_text)
        | None =>
            '(catalog, entry, prepared) ← create_entry_from_payload catalog label payload encrypted payload_text payload_id;
            found ← k_lift (ok_or "new remote backup entry disappeared before commit"
                              (List.find (of_id (ce_backup_catalog_id entry)) (bk_entries catalog)));
            let stored := found <| ce_remote := Some remote |> in
            mret (catalog <| bk_entries ::= update_first (of_id (ce_backup_catalog_id entry)) stored |>, stored, prepared)
        end;
      transaction_commit (transaction <| tx_catalog := catalog |>) (Some prepared) ;;
      mret entry
  end.

Definition record_remote_settings_backup_payload_in_dir `{Base64Crate} (label : option string) (payload : Value)
    (cid : string) (provider : option string) : KIO BackupCatalogEntry :=
  k_lift (validate_app_settings_backup_envelope payload) ;;
  record_remote_payload_in_dir label payload cid provider.

(** The first entry before the target or after it that has the CID. *)
Definition other_with_cid (cid : string) (target_index : nat) (entries : list BackupCatalogEntry)
    : option BackupCatalogEntry :=
  snd <$> List.find (λ indexed : nat * BackupCatalogEntry,
                       negb (indexed.1 =? target_index)%nat && has_cid cid indexed.2)
            (combine (seq 0 (length entries)) entries).

Fixpoint position_where {A} (p : A → bool) (l : list A) : option nat :=
  match l with
  | [] => None
  | a :: l' => if p a then Some 0%nat else S <$> position_where p l'
  end.

Definition attach_remote_backup_metadata_in_dir (backup_catalog_id cid : string) (provider : option string)
    : KIO BackupCatalogEntry :=
  catalog_id ← k_lift (BackupCatalogId_parse backup_catalog_id);
  let cid := trim cid in
  k_lift (validate_remote_cid cid) ;;
  let provider := remote_backup_provider provider in
  transaction ← transaction_begin;
  let entries := bk_entries (tx_catalog transaction) in
  target_index ← k_lift (ok_or ("backup catalog entry `" +:+ catalog_id +:+ "` was not found")
                           (position_where (of_id catalog_id) entries));
  target ← k_lift (ok_or "backup catalog target disappeared before metadata validation" (entries !! target_index));
  match other_with_cid cid target_index entries with
  | Some existing =>
      if negb (String.eqb (ce_payload_id existing) (ce_payload_id target))
      then k_fail ["remote backup CID `" +:+ cid +:+ "` conflicts with existing payload identity"]
      else k_fail ["remote backup CID `" +:+ cid +:+ "` is already attached to backup catalog entry `"
                   +:+ ce_backup_catalog_id existing +:+ "`"]
  | None =>
      match ce_remote target with
      | Some remote =>
          if String.eqb (rm_cid remote) cid && String.eqb (rm_provider remote) provider then mret target
          else k_fail ["backup catalog entry `" +:+ catalog_id +:+ "` already has remote metadata for CID `"
                       +:+ rm_cid remote +:+ "` from provider `" +:+ rm_provider remote +:+ "`"]
      | None =>
          uploaded_at ← now_text;
          let result := target <| ce_remote := Some (mkRemote cid provider uploaded_at) |> in
          transaction_commit
            (transaction <| tx_catalog ::= (λ c, c <| bk_entries ::= <[target_index := result]> |>) |>) None ;;
          mret result
      end
  end.

(** ** Reading a backup *)
Definition backup_payload_bytes_in_dir (backup_catalog_id : string) : KIO (list Z) :=
  catalog_id ← k_lift (BackupCatalogId_parse backup_catalog_id);
  catalog ← load_catalog_from_path;
  entry ← k_lift (ok_or ("backup catalog entry `" +:+ catalog_id +:+ "` was not found")
                    (List.find (of_id catalog_id) (bk_entries catalog)));
  bytes ← read_backup_payload_file (payload_name catalog_id);
  if negb (String.eqb (ce_payload_id entry) (payload_identity bytes))
  then k_fail ["backup catalog entry `" +:+ catalog_id +:+ "` payload identity does not match the catalog"]
  else mret bytes.

Definition backup_payload_value_in_dir (backup_catalog_id : string) : KIO (BackupCatalogId * Value) :=
  catalog_id ← k_lift (BackupCatalogId_parse backup_catalog_id);
  bytes ← backup_payload_bytes_in_dir catalog_id;
  payload ← k_lift (ok_or ("backup catalog entry `" +:+ catalog_id +:+ "` payload does not contain JSON")
                      (from_slice bytes));
  mret (catalog_id, payload).
End transactions.
