(* ===== verification/BackupCatalogTheorems.v ===== *)
(** * Listed backups stay readable

    A catalog of [BackupCatalog] never lists a backup whose payload could be
    lost: whatever calls fail, whenever the process dies or the power is lost,
    the catalog that is found can be loaded and each of its payloads has the
    digest that it lists.  A payload is durable before a catalog that lists it
    can be seen, and what is removed is listed by no catalog that could come
    back. *)

From Stdlib Require Import Ascii.
From S2P Require Import Prelude Json Bytes TextLemmas CatalogModel NodeRequests SourceModes ImportOptions BackupImport.
From S2P Require Import RecordInvariants.
From S2P Require Import InstructionTarget LocalState DiskLogic LocalStateAtomic ChannelConfig ChannelConfigTheorems.
From S2P Require Import ChannelStore BackupPlan SettingsBackup BackupCatalog.
Open Scope Z_scope.

(** ** Weakest preconditions

    As in [DiskLogic], with one postcondition for all failures. *)
Definition kwp {A} (m : KIO A) (Q : A → CatalogDisk → Prop) (E : CatalogDisk → Prop) (d : CatalogDisk) : Prop :=
  ∀ s, ks_disk s = d →
    match m s with
    | (Ok a, s') => Q a (ks_disk s')
    | (Err _, s') => E (ks_disk s')
    end.

Section rules.
Context {A : Type}.
Implicit Types (Q : A → CatalogDisk → Prop) (E : CatalogDisk → Prop) (d : CatalogDisk).

Lemma kwp_ret a Q E d : Q a d → kwp (mret a) Q E d.
Proof. by intros HQ s <-. Qed.

Lemma kwp_bind {B} (m : KIO B) (k : B → KIO A) Q E d :
  kwp m (λ b d', kwp (k b) Q E d') E d → kwp (m ≫= k) Q E d.
Proof.
  intros Hm s Hs. specialize (Hm s Hs). unfold mbind, KIO_bind.
  destruct (m s) as [[b|e] s']; [by apply Hm|done].
Qed.

Lemma kwp_lift r Q E d : (∀ a, r = Ok a → Q a d) → E d → kwp (k_lift r) Q E d.
Proof. intros HQ HE s <-. unfold k_lift. destruct r; eauto. Qed.

Lemma kwp_fail e Q E d : E d → kwp (k_fail e) Q E d.
Proof. by intros HE s <-. Qed.

Lemma kwp_mono (m : KIO A) (Q Q' : A → CatalogDisk → Prop) (E E' : CatalogDisk → Prop) d :
  kwp m Q E d → (∀ a d', Q a d' → Q' a d') → (∀ d', E d' → E' d') → kwp m Q' E' d.
Proof. intros Hm HQ HE s Hs. specialize (Hm s Hs). destruct (m s) as [[a|e] s']; eauto. Qed.

Lemma kwp_run (m : KIO A) Q E s r s' :
  kwp m Q E (ks_disk s) → m s = (r, s') →
  match r with Ok a => Q a (ks_disk s') | Err _ => E (ks_disk s') end.
Proof. intros Hm Hr. specialize (Hm s eq_refl). rewrite Hr in Hm. by destruct r. Qed.
End rules.

Lemma kwp_attempt {A} (m : KIO A) (Q : Result A → CatalogDisk → Prop) E d :
  kwp m (λ a d', Q (Ok a) d') (λ d', ∀ e, Q (Err e) d') d → kwp (k_attempt m) Q E d.
Proof. intros Hm s Hs. specialize (Hm s Hs). unfold k_attempt. by destruct (m s) as [[a|e] s']. Qed.

Lemma kwp_steps Q E d : (∀ n, Q n d) → kwp k_steps Q E d.
Proof. intros HQ s <-. apply HQ. Qed.

Lemma kwp_now `{BackupHost} Q E d : (∀ step, Q (unix_time_text step) d) → kwp now_text Q E d.
Proof. intros HQ. apply kwp_bind, kwp_steps. intros step. by apply kwp_ret. Qed.

(** A system whose failed calls have done nothing, and whose [stat] works.  (A
    rename that fails after its effect makes the transaction remove the payload of
    an entry that is already listed, and a failing [stat] makes the catalog look
    absent: [failing_stat_loses_backups].) *)
Class Honest `{Environment} `{CatalogHost} : Prop := {
  no_late_failure n : io_answer n ≠ IoFailsAfterEffect;
  stat_works n : stat_fails n = false;
}.

Section calls.
Context `{Honest}.
#[local] Set Default Proof Using "Type*".
Implicit Types (E : CatalogDisk → Prop) (d : CatalogDisk).

Lemma kwp_call {A} effect (result : CatalogDisk → A) message Q E d :
  Q (result d) (effect d) → E d → kwp (k_call effect result message) Q E d.
Proof.
  intros HQ HE s <-. unfold k_call. pose proof (no_late_failure (ks_steps s)).
  destruct (io_answer (ks_steps s)); simpl; auto. congruence.
Qed.

Lemma kwp_do message Q E d : Q () d → E d → kwp (k_do message) Q E d.
Proof. intros. by apply kwp_call. Qed.

Lemma kwp_look {A} (result : CatalogDisk → A) message Q E d :
  Q (result d) d → E d → kwp (k_look result message) Q E d.
Proof. intros. by apply kwp_call. Qed.

Lemma kwp_is_file Q E d :
  Q (match sl_latest (kd_catalog d) with NodeFile _ => true | _ => false end) d → kwp catalog_is_file Q E d.
Proof. intros HQ s <-. unfold catalog_is_file. by rewrite stat_works. Qed.

Lemma kwp_sync_payload base_dir label Q E d :
  Q () (sync_payload_entries d) → E d → kwp (sync_payload_dir base_dir label) Q E d.
Proof. intros HQ HE. by apply kwp_bind, kwp_do, HE; apply kwp_call. Qed.

Lemma kwp_sync_base base_dir label Q E d :
  Q () (sync_base_entries d) → E d → kwp (sync_base_dir base_dir label) Q E d.
Proof. intros HQ HE. by apply kwp_bind, kwp_do, HE; apply kwp_call. Qed.

Lemma kwp_sync_both base_dir label label' Q E d :
  Q () (sync_base_entries (sync_payload_entries d)) → E d → E (sync_payload_entries d) →
  kwp (sync_payload_dir base_dir label ;; sync_base_dir base_dir label') Q E d.
Proof. intros HQ HE HE'. apply kwp_bind, kwp_sync_payload, HE. by apply kwp_sync_base. Qed.

Lemma read_file_spec base_dir name d :
  kwp (read_backup_payload_file base_dir name) (λ _ d', d' = d) (eq d) d.
Proof.
  apply kwp_bind, kwp_look; [|done]. destruct (payload_node d name); [by apply kwp_fail| |by apply kwp_fail].
  apply kwp_bind, kwp_do; [|done]. apply kwp_bind.
  apply (kwp_mono _ (λ _ d', d' = d) _ (eq d)); [destruct (_ <? _); [by apply kwp_lift|by apply kwp_ret]| |done].
  intros [] d' ->. apply kwp_bind, kwp_do; [|done]. apply kwp_bind, kwp_lift; [|done]. intros [] _. by apply kwp_ret.
Qed.
End calls.

(** ** What the disk operations do to a payload *)
Section payloads.
Implicit Types (d : CatalogDisk) (name : string).

Lemma put_payload_same name node d : payload_slot (put_payload name node d) name = slot_put node (payload_slot d name).
Proof. unfold payload_slot, put_payload. simpl. by rewrite lookup_insert_eq. Qed.
Lemma put_payload_other name name' node d :
  name' ≠ name → payload_slot (put_payload name node d) name' = payload_slot d name'.
Proof. intros Hn. unfold payload_slot, put_payload. simpl. by rewrite lookup_insert_ne. Qed.
Lemma sync_payload_slot name d : payload_slot (sync_payload_entries d) name = slot_sync (payload_slot d name).
Proof. unfold payload_slot, sync_payload_entries. simpl. rewrite lookup_fmap. by destruct (kd_payloads d !! name). Qed.
Lemma slot_all_put P node slot : slot_all P (slot_put node slot) ↔ P node ∧ slot_all P slot.
Proof. apply Forall_cons. Qed.
Lemma slot_all_sync P slot : slot_all P slot → slot_all P (slot_sync slot).
Proof. inversion 1. by repeat constructor. Qed.
Lemma slot_all_synced (P : Node → Prop) slot : P (sl_latest slot) → slot_all P (slot_sync slot).
Proof. by repeat constructor. Qed.
Lemma slot_all_now P slot : slot_all P slot → P (sl_latest slot).
Proof. by inversion 1. Qed.
End payloads.

(** ** Catalogs that can be loaded *)
Section validity.
Context (base_dir : string).

Definition cid_of (entry : BackupCatalogEntry) : option string := rm_cid <$> ce_remote entry.

Record entry_ok (entry : BackupCatalogEntry) : Prop := {
  eo_id : BackupCatalogId_parse (ce_backup_catalog_id entry) = Ok (ce_backup_catalog_id entry);
  eo_payload : validate_payload_identity (ce_payload_id entry) = Ok ();
  eo_path : path_eqb (ce_local_payload_path entry) (payload_path base_dir (ce_backup_catalog_id entry)) = true;
  eo_cid cid : cid_of entry = Some cid → validate_remote_cid cid = Ok ();
}.
Definition ids (entries : list BackupCatalogEntry) : list string := map ce_backup_catalog_id entries.
Definition cids (entries : list BackupCatalogEntry) : list string := omap cid_of entries.
Definition entries_ok (entries : list BackupCatalogEntry) : Prop :=
  Forall entry_ok entries ∧ NoDup (ids entries) ∧ NoDup (cids entries).

Lemma validate_entry_spec index seen_ids seen_cids entry out :
  (validate_catalog_entry base_dir index seen_ids seen_cids entry = Ok out ↔
  entry_ok entry ∧ (ce_backup_catalog_id entry ∉ seen_ids) ∧ (∀ cid, cid_of entry = Some cid → cid ∉ seen_cids)
  ∧ out = (ce_backup_catalog_id entry :: seen_ids, option_list (cid_of entry) ++ seen_cids)).
Proof.
  unfold validate_catalog_entry, cid_of. split.
  - intros (id & Hid%context_Ok & Hrest)%bind_Ok. revert Hrest.
    destruct (String.eqb_spec id (ce_backup_catalog_id entry)) as [->|]; [|done]. simpl.
    case_bool_decide as Hn; [done|]. intros ([] & Hp%context_Ok & Hrest)%bind_Ok. revert Hrest.
    destruct (path_eqb _ _) eqn:Hpath; [|done]. simpl.
    destruct (ce_remote entry) as [remote|] eqn:Hr.
    + intros ([] & Hc%context_Ok & Hrest)%bind_Ok. revert Hrest. case_bool_decide as Hc'; [done|]. intros [= <-].
      split_and!; try done; [|by intros cid [= <-]]. split; [done..|]. unfold cid_of. rewrite Hr. by intros cid [= <-].
    + intros [= <-]. split_and!; try done. split; [done..|]. unfold cid_of. by rewrite Hr.
  - intros ([Hid Hp Hpath Hcid] & Hn & Hc & ->). rewrite Hid. simpl. rewrite String.eqb_refl. simpl.
    rewrite bool_decide_false by done. rewrite Hp. simpl. rewrite Hpath. simpl. unfold cid_of in Hcid.
    destruct (ce_remote entry) as [remote|]; [|done]. simpl in *. rewrite (Hcid _ eq_refl). simpl.
    rewrite bool_decide_false by auto. done.
Qed.

Lemma cids_cons entry entries : cids (entry :: entries) = option_list (cid_of entry) ++ cids entries.
Proof. unfold cids. simpl. by destruct (cid_of entry). Qed.

Lemma validate_entries_spec index seen_ids seen_cids entries :
  NoDup seen_ids → NoDup seen_cids →
  validate_catalog_entries base_dir index seen_ids seen_cids entries = Ok () ↔
  Forall entry_ok entries ∧ NoDup (ids entries ++ seen_ids) ∧ NoDup (cids entries ++ seen_cids).
Proof.
  revert index seen_ids seen_cids. induction entries as [|entry entries IH]; intros index seen_ids seen_cids Hi Hc.
  { simpl. by repeat split. }
  assert (Hperm : ids (entry :: entries) ++ seen_ids ≡ₚ ids entries ++ ce_backup_catalog_id entry :: seen_ids).
  { simpl. apply Permutation_middle. }
  assert (Hcperm : cids (entry :: entries) ++ seen_cids ≡ₚ cids entries ++ option_list (cid_of entry) ++ seen_cids).
  { rewrite cids_cons, (Permutation_app_comm _ (cids entries)). by rewrite <- app_assoc. }
  rewrite Hperm, Hcperm, Forall_cons. simpl. split.
  - intros (out & (Hok & Hn & Hnc & ->)%validate_entry_spec & Hrest)%bind_Ok. simpl in Hrest.
    apply IH in Hrest; [naive_solver|by constructor|]. destruct (cid_of entry); simpl; [|done]. constructor; auto.
  - intros ((Hok & Hoks) & Hids & Hcids). pose proof (proj2 (proj2 (proj1 (NoDup_app _ _) Hids))) as Hids'.
    pose proof (proj2 (proj2 (proj1 (NoDup_app _ _) Hcids))) as Hcids'.
    eassert (Hentry : validate_catalog_entry base_dir index seen_ids seen_cids entry = Ok _).
    { apply validate_entry_spec. split_and!; [done|by apply NoDup_cons_1_1 in Hids'| |done].
      intros cid Hcid. rewrite Hcid in Hcids'. by apply NoDup_cons_1_1 in Hcids'. }
    rewrite Hentry. simpl. by apply IH.
Qed.

Lemma validate_catalog_spec catalog : validate_loaded_catalog base_dir catalog = Ok () ↔ entries_ok (bk_entries catalog).
Proof.
  unfold validate_loaded_catalog. rewrite validate_entries_spec by apply NoDup_nil_2. by rewrite !app_nil_r.
Qed.
End validity.

(** ** The text of a catalog *)
Lemma remote_read remote : de_remote (remote_value remote) = Some remote.
Proof. by destruct remote. Qed.

Lemma strings_read texts : mapM as_str (map VString texts) = Some texts.
Proof. induction texts as [|text texts IH]; [done|]. simpl. by rewrite IH. Qed.

Lemma catalog_entry_read entry : de_catalog_entry (catalog_entry_value entry) = Some entry.
Proof.
  destruct entry as [id pid label created contents encrypted path remote].
  pose proof (strings_read contents) as Hc. revert Hc. unfold catalog_entry_value. cbn [ce_contents].
  generalize (map VString contents). intros texts. destruct remote as [remote|];
    lazy -[de_remote remote_value mapM as_str]; intros Hc; rewrite Hc, ?remote_read; reflexivity.
Qed.

Lemma catalog_read catalog :
  in_u64 (bk_version catalog) → de_backup_catalog (backup_catalog_value catalog) = Some catalog.
Proof.
  destruct catalog as [version entries]. simpl. intros Hv.
  assert (He : mapM de_catalog_entry (map catalog_entry_value entries) = Some entries).
  { induction entries as [|entry entries IH]; [done|]. simpl. by rewrite catalog_entry_read, IH. }
  unfold backup_catalog_value. cbn [bk_version bk_entries]. revert He.
  generalize (map catalog_entry_value entries). intros items.
  lazy -[as_u64 json_u64 mapM de_catalog_entry in_u64]. intros He.
  rewrite (as_u64_json _ Hv). lazy -[mapM de_catalog_entry]. by rewrite He.
Qed.

Definition ascii_remote (remote : RemoteBackupMetadata) : bool :=
  ascii_text (rm_cid remote) && ascii_text (rm_provider remote) && ascii_text (rm_uploaded_at remote).
Definition entry_ascii (entry : BackupCatalogEntry) : bool :=
  ascii_text (ce_backup_catalog_id entry) && ascii_text (ce_payload_id entry)
  && ascii_text (ce_backup_version_label entry) && ascii_text (ce_created_at entry)
  && forallb ascii_text (ce_contents entry) && ascii_text (ce_local_payload_path entry)
  && from_option ascii_remote true (ce_remote entry).

Lemma catalog_entry_plain entry : entry_ascii entry = true → json_plain (catalog_entry_value entry) = true.
Proof.
  destruct entry as [id pid label created contents encrypted path remote]. unfold entry_ascii. simpl.
  rewrite !andb_true_iff. intros ((((((Hid & Hpid) & Hl) & Hc) & Hcs) & Hp) & Hr).
  assert (Hcs' : forallb json_plain (map VString contents) = true).
  { clear -Hcs. induction contents; simpl in *; [done|]. apply andb_true_iff in Hcs as [-> ?]. auto. }
  assert (Hr' : json_plain (match remote with Some remote => remote_value remote | None => VNull end) = true).
  { destruct remote as [[cid provider uploaded]|]; [|done]. unfold from_option, ascii_remote in Hr. simpl in Hr.
    rewrite !andb_true_iff in Hr. destruct Hr as ((H1 & H2) & H3). simpl. by rewrite H1, H2, H3. }
  unfold catalog_entry_value. cbn [ce_backup_catalog_id ce_payload_id ce_backup_version_label ce_created_at ce_contents
    ce_encrypted ce_local_payload_path ce_remote].
  revert Hcs' Hr'. generalize (map VString contents), (match remote with Some remote => remote_value remote | None => VNull end).
  intros texts rv Hcs' Hr'. simpl. fold json_plain. by rewrite Hid, Hpid, Hl, Hc, Hcs', Hp, Hr'.
Qed.

Lemma catalog_plain catalog :
  in_u64 (bk_version catalog) → Forall (λ e, entry_ascii e = true) (bk_entries catalog) →
  json_plain (backup_catalog_value catalog) = true.
Proof.
  destruct catalog as [version entries]. simpl. intros [Hv1 Hv2] He.
  assert (Hitems : forallb json_plain (map catalog_entry_value entries) = true).
  { apply forallb_forall. intros v (entry & <- & Hin)%in_map_iff. apply catalog_entry_plain.
    rewrite Forall_forall in He. by apply He, list_elem_of_In. }
  unfold backup_catalog_value. cbn [bk_version bk_entries]. revert Hitems. generalize (map catalog_entry_value entries).
  intros items Hitems. simpl. fold json_plain. apply Z.leb_le in Hv1, Hv2. by rewrite Hv1, Hv2, Hitems.
Qed.

Lemma catalog_depth catalog : (json_depth (backup_catalog_value catalog) ≤ JSON_DEPTH_LIMIT)%nat.
Proof.
  destruct catalog as [version entries]. unfold backup_catalog_value. cbn [bk_version bk_entries].
  assert (Hitems : (json_depth (VArray (map catalog_entry_value entries)) ≤ 4)%nat).
  { apply depth_array, Forall_forall. intros v (entry & -> & _)%list_elem_of_fmap.
    destruct entry as [id pid label created contents encrypted path remote]. unfold catalog_entry_value.
    cbn [ce_backup_catalog_id ce_payload_id ce_backup_version_label ce_created_at ce_contents ce_encrypted
      ce_local_payload_path ce_remote].
    assert (Hc : (json_depth (VArray (map VString contents)) ≤ 2)%nat).
    { apply depth_array, Forall_forall. intros v (text & -> & _)%list_elem_of_fmap. simpl. lia. }
    assert (Hr : (json_depth match remote with Some remote => remote_value remote | None => VNull end ≤ 2)%nat)
      by (destruct remote as [[? ? ?]|]; simpl; lia).
    revert Hc Hr. generalize (VArray (map VString contents)),
      (match remote with Some remote => remote_value remote | None => VNull end). intros texts rv Hc Hr.
    unfold json_object. apply (depth_object _ 2). simpl. repeat apply Forall_cons_2; try apply Forall_nil_2; simpl; lia. }
  revert Hitems. generalize (VArray (map catalog_entry_value entries)). intros items Hitems.
  transitivity 5%nat; [|unfold JSON_DEPTH_LIMIT; lia]. unfold json_object. apply (depth_object _ 4). simpl. repeat apply Forall_cons_2; try apply Forall_nil_2; simpl; lia.
Qed.

(** *** The names it gives *)
Lemma cid_char_plain a : is_cid_char a = true → plain a = true.
Proof. destruct a as [[] [] [] [] [] [] [] []]; by vm_compute. Qed.
Lemma lower_hex_cid a : is_ascii_hexdigit a = true → is_cid_char a = true.
Proof. destruct a as [[] [] [] [] [] [] [] []]; by vm_compute. Qed.

Definition cid_text (s : string) : bool := forallb is_cid_char (String.list_ascii_of_string s).

Lemma cid_text_app s t : cid_text (s +:+ t) = cid_text s && cid_text t.
Proof. unfold cid_text. induction s as [|a s IH]; simpl; [done|]. by rewrite IH, andb_assoc. Qed.

Lemma cid_text_plain s : cid_text s = true → all_plain s.
Proof. apply forallb_plain, cid_char_plain. Qed.

Lemma cid_text_ascii s : cid_text s = true → ascii_text s = true.
Proof.
  unfold cid_text, ascii_text. rewrite !forallb_forall. intros Hs a Ha. specialize (Hs a Ha). revert Hs.
  clear. destruct a as [[] [] [] [] [] [] [] []]; by vm_compute.
Qed.

Lemma cid_text_separator s : cid_text s = true → has_path_separator s = false.
Proof.
  unfold cid_text, has_path_separator, as_bytes. intros Hs. induction (String.list_ascii_of_string s) as [|a l IH]; [done|].
  simpl in *. apply andb_true_iff in Hs as [Ha Hl]. rewrite (IH Hl), orb_false_r.
  clear -Ha. revert Ha. destruct a as [[] [] [] [] [] [] [] []]; by vm_compute.
Qed.

Lemma cid_text_id s : cid_text s = true → 0 < str_len s ≤ BACKUP_CATALOG_ID_MAX_BYTES → BackupCatalogId_parse s = Ok s.
Proof.
  intros Hs [Hpos Hmax]. pose proof (cid_text_plain _ Hs) as Hp. unfold BackupCatalogId_parse.
  rewrite (trim_plain _ Hp), (cid_text_separator _ Hs), (plain_no_control _ Hp).
  destruct (is_empty s) eqn:He; [by destruct s|].
  rewrite (proj2 (Z.ltb_ge _ _) Hmax).
  destruct (String.eqb_spec s ".") as [->|]; [done|]. by destruct (String.eqb_spec s "..") as [->|].
Qed.

Lemma pretty_go_cid n s : cid_text s = true → cid_text (pretty_N_go n s) = true.
Proof.
  revert s. induction (N.lt_wf_0 n) as [n _ IH]. intros s Hs.
  destruct (decide (n = 0%N)) as [->|Hz]; [by rewrite pretty_N_go_0|].
  rewrite pretty_N_go_step by lia. apply IH; [apply N.div_lt; lia|].
  change (is_cid_char (pretty_N_char (n mod 10)) && cid_text s = true). rewrite Hs, andb_true_r.
  assert (Hlt : (n mod 10 < 10)%N) by (apply N.mod_lt; lia). revert Hlt. generalize (n mod 10)%N. clear.
  intros m Hm. destruct m as [|p]; [done|]. do 4 (destruct p as [p|p|]; try done; try lia).
Qed.

Lemma pretty_N_cid (n : N) : cid_text (pretty n) = true.
Proof. unfold pretty, pretty_N. case_decide; [done|]. by apply pretty_go_cid. Qed.

Lemma pretty_N_length (k : nat) (n : N) : (n < 10 ^ N.of_nat k)%N → (0 < k)%nat → (0 < String.length (pretty n) ≤ k)%nat.
Proof.
  intros Hn Hk. unfold pretty, pretty_N. case_decide as Hz; [simpl; lia|].
  pose proof (length_pretty_go k n "" Hn) as Hl. simpl in Hl. split; [|lia].
  rewrite pretty_N_go_step by lia. clear.
  assert (Hgo : ∀ m s, (String.length s ≤ String.length (pretty_N_go m s))%nat).
  { intros m. induction (N.lt_wf_0 m) as [m _ IH]. intros s.
    destruct (decide (m = 0%N)) as [->|Hm]; [by rewrite pretty_N_go_0|].
    rewrite pretty_N_go_step by lia. etrans; [|apply IH, N.div_lt; lia]. simpl. lia. }
  eapply Nat.lt_le_trans; [|apply Hgo]. simpl. lia.
Qed.

Lemma substring_cid n m s : cid_text s = true → cid_text (String.substring n m s) = true.
Proof.
  unfold cid_text. revert n m. induction s as [|a s IH]; intros n m; simpl; [by destruct n, m|].
  rewrite andb_true_iff. intros [Ha Hs]. destruct n, m; simpl; rewrite ?Ha; simpl; auto.
Qed.

Lemma substring_short n m s : str_len (String.substring n m s) ≤ Z.of_nat m.
Proof.
  unfold str_len. revert n m. induction s as [|a s IH]; intros n m; simpl; [destruct n, m; simpl; lia|].
  destruct n, m; simpl; try lia; [specialize (IH 0%nat m); lia|apply (IH n 0%nat)|apply (IH n (S m))].
Qed.

(** What the crates and the clock are relied on for, besides [LocalStateLaws]. *)
Class CatalogLaws `{SerdeJsonBytes} `{BackupHost} : Prop := {
  json_utf8 v : json_plain v = true → utf8_valid (to_vec_pretty v) = true;
  json_is_bytes v : is_bytes (to_vec_pretty v);
  unix_seconds step : ∃ seconds : N, (seconds < 2 ^ 64)%N ∧ unix_time_text step = pretty seconds;
}.

(** A catalog of more entries does not fit any disk. *)
Definition catalog_bound : Z := 10 ^ 16.

Section names.
Context `{LocalStateLaws} `{BackupHost} `{!CatalogLaws}.
#[local] Set Default Proof Using "Type*".

Lemma time_cid step : cid_text (unix_time_text step) = true ∧ str_len (unix_time_text step) ≤ 20.
Proof.
  destruct (unix_seconds step) as (seconds & Hs & ->). split; [apply pretty_N_cid|].
  destruct (pretty_N_length 20 seconds) as [_ Hl]; [|lia|unfold str_len; lia].
  eapply N.lt_trans; [exact Hs|]. by vm_compute.
Qed.

Lemma identity_valid bytes : is_bytes bytes → validate_payload_identity (payload_identity bytes) = Ok ().
Proof.
  intros Hb. destruct (sha256_is_digest bytes Hb) as [Hd Hl]. unfold validate_payload_identity, payload_identity.
  rewrite strip_prefix_app, hex_encode_length, Hl by done.
  assert (Hlow : forallb is_lower_hex (String.list_ascii_of_string (hex_encode (sha256 bytes))) = true); [|by rewrite Hlow].
  pose proof (hex_encode_digits _ Hd) as Hdig. pose proof (hex_encode_decode _ _ (hex_decode_encode _ Hd)) as Hlow.
  revert Hdig. rewrite Hlow. generalize (hex_encode (sha256 bytes)). unfold all_hexdigits, to_ascii_lowercase. clear.
  intros s. induction s as [|a s IH]; [done|]. simpl. rewrite !andb_true_iff. intros [Ha Hs]. split; [|by apply IH].
  clear -Ha. revert Ha. destruct a as [[] [] [] [] [] [] [] []]; by vm_compute.
Qed.

Lemma identity_cid bytes : is_bytes bytes → ascii_text (payload_identity bytes) = true.
Proof.
  intros Hb. unfold payload_identity. pose proof (sha256_hex_digits bytes Hb) as Hd.
  change (ascii_text (sha256_hex bytes) = true). by apply hexdigits_ascii.
Qed.

Lemma catalog_id_text step payload_text :
  is_bytes payload_text →
  let id := catalog_id (unix_time_text step) (payload_identity payload_text) in
  cid_text id = true ∧ 0 < str_len id ≤ 40.
Proof.
  intros Hb. destruct (time_cid step) as [Ht Htl]. unfold catalog_id, payload_identity. rewrite strip_prefix_app.
  set (short := if is_empty _ then _ else _).
  assert (Hshort : cid_text short = true ∧ str_len short ≤ 12).
  { unfold short. destruct (is_empty _); [by split|]. split; [|apply (substring_short 0 12)].
    apply substring_cid. unfold cid_text. pose proof (sha256_hex_digits _ Hb) as Hd. unfold all_hexdigits in Hd.
    rewrite forallb_forall in Hd. apply forallb_forall. intros a Ha. by apply lower_hex_cid, Hd. }
  destruct Hshort as [Hs Hsl]. rewrite !cid_text_app, !str_len_app, Ht, Hs. split; [done|].
  assert (0 ≤ str_len (unix_time_text step)) by (unfold str_len; lia). assert (0 ≤ str_len short) by (unfold str_len; lia).
  change (str_len "backup_") with 7. change (str_len "_") with 1. lia.
Qed.

Lemma unique_id_ok catalog step payload_text id :
  is_bytes payload_text → zlen (bk_entries catalog) ≤ catalog_bound →
  unique_catalog_id catalog (unix_time_text step) (payload_identity payload_text) = Ok id →
  has_id id catalog = false ∧ cid_text id = true ∧ BackupCatalogId_parse id = Ok id.
Proof.
  intros Hb Hlen. destruct (catalog_id_text step payload_text Hb) as [Hc Hl]. unfold unique_catalog_id.
  set (base := catalog_id _ _) in *. destruct (has_id base catalog) eqn:Hbase; simpl.
  - destruct (List.find _ _) as [id'|] eqn:Hf; [|done]. intros [= <-].
    apply find_some in Hf as [(n & <- & Hn)%in_map_iff Hfresh]. apply negb_true_iff in Hfresh. apply in_seq in Hn.
    change (pretty n) with (pretty (N.of_nat n)) in *.
    destruct (pretty_N_length 17 (N.of_nat n)) as [_ Hp]; [|lia|].
    { unfold catalog_bound, zlen in Hlen. change (10 ^ N.of_nat 17)%N with 100000000000000000%N. lia. }
    assert (Ht : cid_text (base +:+ "_" +:+ pretty (N.of_nat n)) = true) by (by rewrite !cid_text_app, Hc, pretty_N_cid).
    split_and!; [done..|]. apply cid_text_id; [done|]. rewrite !str_len_app. change (str_len "_") with 1.
    unfold BACKUP_CATALOG_ID_MAX_BYTES, str_len at 2 4. lia.
  - intros [= <-]. split_and!; [done..|]. apply cid_text_id; [done|]. unfold BACKUP_CATALOG_ID_MAX_BYTES. lia.
Qed.
End names.

(** ** The invariant *)
Definition pairs (catalog : BackupCatalog) : list (string * string) :=
  map (λ entry, (ce_backup_catalog_id entry, ce_payload_id entry)) (bk_entries catalog).

Lemma append_inj_l s t u : s +:+ u = t +:+ u → s = t.
Proof.
  intros E. assert (Hl : String.length s = String.length t).
  { apply (f_equal str_len) in E. rewrite !str_len_app in E. unfold str_len in E. lia. }
  revert t E Hl. induction s as [|a s IH]; intros [|b t] E Hl; try done. injection E as -> E.
  f_equal. apply IH; [done|]. by injection Hl.
Qed.

Lemma payload_name_inj id id' : payload_name id = payload_name id' → id = id'.
Proof. apply append_inj_l. Qed.

Section invariant.
Context `{LocalStateLaws} `{BackupHost} `{!CatalogLaws} (base_dir : string).
Implicit Types (c : BackupCatalog) (d : CatalogDisk).
#[local] Set Default Proof Using "Type*".

Record sound c : Prop := {
  so_version : bk_version c = CATALOG_VERSION;
  so_entries : entries_ok base_dir (bk_entries c);
  so_ascii : Forall (λ entry, entry_ascii entry = true) (bk_entries c);
}.

(** The catalog that a node is read as. *)
Definition shows (node : Node) c : Prop :=
  sound c ∧ match node with
            | NodeMissing => c = catalog_default
            | NodeFile bytes => parse_catalog base_dir bytes = Ok c
            | NodeSymlink => False
            end.

Definition payload_good (payload_id : string) (node : Node) : Prop :=
  ∃ bytes, node = NodeFile bytes ∧ payload_identity bytes = payload_id ∧ zlen bytes ≤ SETTINGS_BACKUP_MAX_BYTES.

(** No loss of power takes the payload away. *)
Definition intact d (listed : string * string) : Prop :=
  kd_dir d = DirDurable ∧ slot_all (payload_good listed.2) (payload_slot d (payload_name listed.1)).

Record keeps c d : Prop := {
  kp_catalog : shows (sl_latest (kd_catalog d)) c;
  kp_earlier : slot_all (λ node, ∃ c', shows node c' ∧ pairs c' ⊆ pairs c) (kd_catalog d);
  kp_payloads : Forall (intact d) (pairs c);
}.

Lemma written_shows c : sound c → shows (NodeFile (to_vec_pretty (backup_catalog_value c))) c.
Proof.
  intros Hs. split; [done|]. destruct Hs as [Hv He Ha].
  assert (Hu : in_u64 (bk_version c)) by (by rewrite Hv).
  pose proof (catalog_plain c Hu Ha) as Hp. unfold parse_catalog.
  rewrite (json_utf8 _ Hp), (json_roundtrip _ (conj Hp (catalog_depth c))). simpl. rewrite (catalog_read c Hu). simpl.
  rewrite Hv. simpl. by rewrite (proj2 (validate_catalog_spec base_dir c) He).
Qed.

Lemma keeps_mono c d d' :
  kd_catalog d' = kd_catalog d → (∀ listed, listed ∈ pairs c → intact d listed → intact d' listed) →
  keeps c d → keeps c d'.
Proof.
  intros Hc Hi [K1 K2 K3]. split; [by rewrite Hc..|]. rewrite Forall_forall in *. auto.
Qed.

Lemma keeps_sync_payload c d : keeps c d → keeps c (sync_payload_entries d).
Proof.
  apply keeps_mono; [done|]. intros listed _ [Hd Hs]. split; [done|]. rewrite sync_payload_slot. by apply slot_all_sync.
Qed.

Lemma keeps_sync_base c d : keeps c d → keeps c (sync_base_entries d).
Proof.
  intros [K1 K2 K3]. split; [done|by apply slot_all_sync|]. eapply Forall_impl; [exact K3|].
  intros listed [Hd Hs]. split; [|done]. unfold sync_base_entries. simpl. by rewrite Hd.
Qed.

Lemma keeps_create_dir c d : keeps c d → keeps c (create_payload_dir d).
Proof.
  apply keeps_mono; [done|]. intros listed _ [Hd Hs]. split; [|done]. unfold create_payload_dir. simpl. by rewrite Hd.
Qed.

Lemma keeps_put c d name node :
  (∀ listed, listed ∈ pairs c → payload_name listed.1 = name → payload_good listed.2 node) →
  keeps c d → keeps c (put_payload name node d).
Proof.
  intros Hn. apply keeps_mono; [done|]. intros listed Hin [Hd Hs]. split; [done|].
  destruct (decide (payload_name listed.1 = name)) as [<-|Hne].
  - rewrite put_payload_same. apply slot_all_put. auto.
  - by rewrite put_payload_other.
Qed.

Lemma keeps_put_catalog c c' d :
  sound c' → pairs c ⊆ pairs c' → Forall (intact d) (pairs c') → keeps c d →
  keeps c' (put_catalog (to_vec_pretty (backup_catalog_value c')) d).
Proof.
  intros Hs Hp Hi [K1 K2 K3]. split; [by apply written_shows| |done]. simpl. apply slot_all_put. split.
  - exists c'. split; [by apply written_shows|done].
  - eapply slot_all_mono, K2. intros node (c0 & Hc0 & Hsub). exists c0. split; [done|]. by etrans.
Qed.

(** ** A transaction begins *)
Context `{!Environment} `{!CatalogHost} `{!Honest}.

Lemma load_spec c d : keeps c d → kwp (load_catalog_from_path base_dir) (λ c' d', c' = c ∧ d' = d) (keeps c) d.
Proof.
  intros Hk. destruct (kp_catalog _ _ Hk) as [_ Hn]. apply kwp_bind, kwp_is_file.
  destruct (sl_latest (kd_catalog d)) eqn:Hnode; simpl; [by apply kwp_ret| |done].
  apply kwp_bind, kwp_look, Hk. rewrite Hnode. apply kwp_lift; [|done]. intros c'. rewrite Hn. by intros [= <-].
Qed.

Lemma remove_staged_spec c d directory names : keeps c d → kwp (remove_staged directory names) (λ _, keeps c) (keeps c) d.
Proof.
  intros Hk. induction names as [|name names IH]; simpl; [by apply kwp_ret|].
  apply kwp_bind, kwp_do, Hk. by apply kwp_bind, kwp_do, Hk.
Qed.

Lemma cleanup_staged_spec c d exists_ directory sync :
  (∀ d', keeps c d' → kwp sync (λ _, keeps c) (keeps c) d') → keeps c d →
  kwp (cleanup_staged_files exists_ directory sync) (λ _, keeps c) (keeps c) d.
Proof.
  intros Hsync Hk. apply kwp_bind, kwp_look, Hk. destruct (exists_ d); simpl; [|by apply kwp_ret].
  apply kwp_bind, kwp_steps. intros n. apply kwp_bind.
  eapply kwp_mono; [by apply remove_staged_spec| |done]. intros [] d' Hk'.
  case_bool_decide; [by apply kwp_ret|by apply Hsync].
Qed.

Lemma unreferenced c name listed : is_referenced c name = false → listed ∈ pairs c → payload_name listed.1 ≠ name.
Proof.
  intros Hr (entry & -> & Hin)%list_elem_of_fmap Hn. simpl in Hn. revert Hr. apply not_false_iff_true, existsb_exists.
  exists entry. split; [by apply list_elem_of_In|by apply String.eqb_eq].
Qed.

Lemma keeps_remove_payload c d name : is_referenced c name = false → keeps c d → keeps c (put_payload name NodeMissing d).
Proof. intros Hr. apply keeps_put. intros listed Hin Hn. by destruct (unreferenced c name listed Hr Hin). Qed.

Lemma remove_orphans_spec c d names removed :
  keeps c d → kwp (remove_orphans base_dir c names removed) (λ _, keeps c) (keeps c) d.
Proof.
  revert d removed. induction names as [|[name is_file] names IH]; intros d removed Hk; simpl; [by apply kwp_ret|].
  apply kwp_bind, kwp_do, Hk. destruct (is_referenced c name) eqn:Hr; [rewrite orb_true_r; auto|]. destruct (negb _); simpl; [auto|].
  apply kwp_bind, kwp_call, Hk. by apply IH, keeps_remove_payload.
Qed.

Lemma kwp_sync_kept c d label label' :
  keeps c d → kwp (sync_payload_dir base_dir label ;; sync_base_dir base_dir label') (λ _, keeps c) (keeps c) d.
Proof.
  intros Hk. pose proof (keeps_sync_payload _ _ Hk). apply kwp_sync_both; [by apply keeps_sync_base|done..].
Qed.

Lemma begin_spec c d :
  keeps c d → kwp (transaction_begin base_dir) (λ t d', t = mkCatalogTransaction c c ∧ keeps c d') (keeps c) d.
Proof.
  intros Hk. do 3 apply kwp_bind, kwp_do, Hk. apply kwp_bind.
  eapply kwp_mono; [apply cleanup_staged_spec, Hk| |done].
  { intros d' Hk'. apply kwp_sync_base; [by apply keeps_sync_base|done]. }
  intros [] d1 Hk1. apply kwp_bind.
  eapply kwp_mono; [apply cleanup_staged_spec, Hk1| |done].
  { intros d' Hk'. apply kwp_sync_payload; [by apply keeps_sync_payload|done]. }
  intros [] d2 Hk2. apply kwp_bind. eapply kwp_mono; [by apply load_spec| |done]. intros c' d3 [-> ->].
  apply kwp_bind, kwp_bind, kwp_look, Hk2. destruct (payload_dir_exists d2); [|by apply kwp_ret, kwp_ret].
  apply kwp_bind. eapply kwp_mono; [by apply remove_orphans_spec| |done]. intros removed d4 Hk4. destruct removed.
  - eapply kwp_mono; [by apply kwp_sync_kept| |done]. intros [] d5 Hk5. by apply kwp_ret.
  - by apply kwp_ret, kwp_ret.
Qed.

(** ** A transaction commits *)
Lemma stage_spec c d create parent label :
  keeps c d → keeps c (create d) → kwp (stage_replacement create parent label) (λ _ d', d' = create d) (keeps c) d.
Proof.
  intros Hk Hc. apply kwp_bind, kwp_call, Hk. do 2 apply kwp_bind, kwp_do, Hc. by apply kwp_do.
Qed.

Definition replaceable c (prepared : PreparedPayload) : Prop :=
  ∀ listed, listed ∈ pairs c → payload_name listed.1 = pp_name prepared → payload_good listed.2 (NodeFile (pp_bytes prepared)).

Lemma install_payload_spec c d prepared E :
  keeps c d → replaceable c prepared → kd_dir d ≠ DirAbsent →
  kwp (install_payload base_dir prepared)
    (λ out d', keeps c d' ∧ (out.1 = true → payload_node d' (pp_name prepared) = NodeFile (pp_bytes prepared))
       ∧ (out.2 = Ok () → out.1 = true ∧ kd_dir d' = DirDurable
            ∧ slot_all (λ n, n = NodeFile (pp_bytes prepared)) (payload_slot d' (pp_name prepared)))) E d.
Proof.
  intros Hk Hr Hdir. pose proof (keeps_put c d (pp_name prepared) (NodeFile (pp_bytes prepared)) Hr Hk) as Hk1.
  set (d1 := put_payload _ _ d) in *.
  assert (Hn1 : payload_node d1 (pp_name prepared) = NodeFile (pp_bytes prepared)).
  { unfold payload_node, d1. by rewrite put_payload_same. }
  pose proof (keeps_sync_payload c d1 Hk1) as Hk2.
  assert (Hn2 : payload_node (sync_payload_entries d1) (pp_name prepared) = NodeFile (pp_bytes prepared)).
  { unfold payload_node. by rewrite sync_payload_slot. }
  apply kwp_bind, kwp_attempt, kwp_call; [|intros e; by apply kwp_ret].
  apply kwp_bind, kwp_attempt, kwp_sync_both; [|intros e; by apply kwp_ret..]. apply kwp_ret.
  split_and!; [by apply keeps_sync_base|done|intros _]. split_and!; [done| |].
  - unfold sync_base_entries, sync_payload_entries, d1, put_payload. simpl. by destruct (kd_dir d).
  - change (slot_all (λ n, n = NodeFile (pp_bytes prepared)) (payload_slot (sync_payload_entries d1) (pp_name prepared))).
    rewrite sync_payload_slot. by apply slot_all_synced.
Qed.

Lemma install_catalog_spec c c' d E :
  sound c' → pairs c ⊆ pairs c' → Forall (intact d) (pairs c') → keeps c d →
  kwp (install_catalog base_dir (to_vec_pretty (backup_catalog_value c')))
    (λ out d', kd_payloads d' = kd_payloads d ∧ (out.1 = true → keeps c' d')
       ∧ (out.1 = false → keeps c d' ∧ out.2 ≠ Ok ())) E d.
Proof.
  intros Hs Hp Hi Hk. pose proof (keeps_put_catalog c c' d Hs Hp Hi Hk) as Hk1.
  apply kwp_bind, kwp_attempt, kwp_call; [|intros e; by apply kwp_ret].
  apply kwp_bind, kwp_attempt, kwp_sync_base; [|intros e; by apply kwp_ret].
  apply kwp_ret. split_and!; [done|intros _; by apply keeps_sync_base|done].
Qed.

Lemma remove_uncommitted_spec c d name :
  is_referenced c name = false → keeps c d → kwp (remove_uncommitted_payload base_dir name) (λ _, keeps c) (keeps c) d.
Proof.
  intros Hr Hk. apply kwp_bind, kwp_call, Hk. case_bool_decide; simpl; [by apply kwp_ret|].
  by apply kwp_sync_kept, keeps_remove_payload.
Qed.

Lemma pair_unique c id payload_id payload_id' :
  sound c → (id, payload_id) ∈ pairs c → (id, payload_id') ∈ pairs c → payload_id = payload_id'.
Proof.
  intros [_ (_ & Hn & _) _]. unfold pairs, ids in *. induction (bk_entries c) as [|entry entries IH]; [by intros ?%not_elem_of_nil|].
  simpl in *. apply NoDup_cons in Hn as [Hid Hn].
  assert (Hout : ∀ pid, (ce_backup_catalog_id entry, pid) ∉ map (λ e, (ce_backup_catalog_id e, ce_payload_id e)) entries).
  { intros pid (e & He & Hin)%list_elem_of_fmap. injection He as He ->. apply Hid. rewrite He. by apply list_elem_of_fmap_2. }
  intros [E|Hin]%elem_of_cons [E'|Hin']%elem_of_cons; [congruence| | |by apply IH];
    [injection E as -> ->; by destruct (Hout payload_id')|injection E' as -> ->; by destruct (Hout payload_id)].
Qed.

(** What a transaction that goes from one catalog to another has to prepare. *)
Definition prepares c c' (prepared : option PreparedPayload) : Prop :=
  sound c' ∧ pairs c ⊆ pairs c' ∧
  match prepared with
  | None => pairs c' ⊆ pairs c
  | Some p => ∃ id, pp_name p = payload_name id ∧ zlen (pp_bytes p) ≤ SETTINGS_BACKUP_MAX_BYTES
                ∧ (id, payload_identity (pp_bytes p)) ∈ pairs c'
                ∧ ∀ listed, listed ∈ pairs c' → listed ∈ pairs c ∨ listed = (id, payload_identity (pp_bytes p))
  end.

Definition payload_written (prepared : option PreparedPayload) d : Prop :=
  from_option (λ p, payload_node d (pp_name p) = NodeFile (pp_bytes p)) True prepared.

Lemma commit_none_spec c c' d :
  keeps c d → prepares c c' None →
  kwp (transaction_commit base_dir (mkCatalogTransaction c c') None) (λ _, keeps c') (keeps c) d.
Proof.
  intros Hk (Hs & Hp & Hp'). unfold transaction_commit. cbn [tx_catalog tx_original_catalog].
  rewrite (bool_decide_true (None = None)) by done. case_bool_decide as Hc; simpl; [subst; by apply kwp_ret|].
  apply kwp_bind, kwp_ret, kwp_bind, kwp_ret, kwp_bind. eapply kwp_mono; [by apply stage_spec| |done].
  intros [] d1 ->. apply kwp_bind, kwp_ret, kwp_bind.
  eapply kwp_mono; [eapply (install_catalog_spec c c' d); try done| |done].
  { rewrite Forall_forall. intros listed Hin. by apply (proj1 (Forall_forall _ _) (kp_payloads _ _ Hk)), Hp'. }
  intros [installed r] d2 (_ & Hyes & Hno). simpl in *. destruct installed.
  - destruct r; by apply kwp_ret, Hyes.
  - destruct (Hno eq_refl) as [Hk2 Hr]. destruct r as [[]|e]; [done|]. by apply kwp_fail.
Qed.

Lemma prepares_replaceable c c' p : prepares c c' (Some p) → replaceable c p.
Proof.
  intros (Hs & Hp & id & Hn & Hlen & Hin' & Hnew) [id1 pid1] Hin Hn1. simpl in *.
  assert (id1 = id) as -> by (apply payload_name_inj; congruence).
  exists (pp_bytes p). split_and!; [done| |done]. eapply pair_unique; [exact Hs|done|by apply Hp].
Qed.

Lemma installed_intact c c' p d :
  keeps c d → prepares c c' (Some p) → kd_dir d = DirDurable →
  slot_all (λ n, n = NodeFile (pp_bytes p)) (payload_slot d (pp_name p)) → Forall (intact d) (pairs c').
Proof.
  intros Hk (_ & _ & id & Hn & Hlen & _ & Hnew) Hd Hslot. rewrite Forall_forall. intros listed [Hin| ->]%Hnew.
  - by apply (proj1 (Forall_forall _ _) (kp_payloads _ _ Hk)).
  - split; [done|]. simpl. rewrite <- Hn. eapply slot_all_mono, Hslot. intros n ->. by exists (pp_bytes p).
Qed.

Lemma undo_payload_spec {A} c d name (rollback : bool) error (message : Error → Error) Q :
  keeps c d → (rollback = true → is_referenced c name = false) →
  kwp (if rollback then
         r ← k_attempt (remove_uncommitted_payload base_dir name);
         match r with Ok _ => k_fail error | Err rollback_error => k_fail (message rollback_error) end
       else k_fail error : KIO A) Q (keeps c) d.
Proof.
  intros Hk Hr. destruct rollback; [|by apply kwp_fail]. apply kwp_bind, kwp_attempt.
  eapply kwp_mono; [apply remove_uncommitted_spec; [by apply Hr|exact Hk]| |].
  - intros [] d' Hk'. by apply kwp_fail.
  - intros d' Hk' e. by apply kwp_fail.
Qed.

(** The payload is installed, and the catalog may follow. *)
Lemma commit_some_spec c c' p d :
  keeps c d → prepares c c' (Some p) →
  kwp (transaction_commit base_dir (mkCatalogTransaction c c') (Some p)) (λ _ d', keeps c' d' ∧ payload_written (Some p) d') (keeps c) d.
Proof.
  intros Hk Hprep. pose proof Hprep as (Hs & Hp & _). unfold transaction_commit. cbn [tx_catalog tx_original_catalog].
  rewrite (bool_decide_false (Some p = None)) by done. simpl. apply kwp_bind, kwp_look, Hk.
  set (existed := negb (bool_decide (payload_node d (pp_name p) = NodeMissing))). clearbody existed.
  pose proof (keeps_create_dir _ _ Hk) as Hk1. apply kwp_bind.
  eapply kwp_mono; [by apply stage_spec| |done]. intros [] d1 ->. clear Hk.
  assert (Hdir : kd_dir (create_payload_dir d) ≠ DirAbsent).
  { unfold create_payload_dir. simpl. by destruct (kd_dir d). }
  revert Hk1 Hdir. generalize (create_payload_dir d). clear d. intros d Hk Hdir.
  set (referenced := is_referenced c (pp_name p)). set (changed := negb (bool_decide (c' = c))).
  assert (Hsame : changed = false → c' = c) by (unfold changed; by case_bool_decide). clearbody changed.
  apply kwp_bind, (kwp_mono _ (λ _ d', d' = d) _ (keeps c)); [| |done].
  { destruct changed; [by apply stage_spec|by apply kwp_ret]. }
  intros [] d1 ->. apply kwp_bind. eapply kwp_mono; [apply (install_payload_spec c d p (keeps c)); try done| |done].
  { by eapply prepares_replaceable. }
  intros [installed r] d1 (Hk1 & Hinst & Hok). simpl in *.
  assert (Hundo : installed && negb referenced && negb existed = true → is_referenced c (pp_name p) = false).
  { rewrite !andb_true_iff, !negb_true_iff. by intros ((_ & Href) & _). }
  apply kwp_bind. destruct r as [[]|error].
  - destruct (Hok eq_refl) as (-> & Hdur & Hslot). destruct changed; simpl.
    + eapply kwp_mono; [apply (install_catalog_spec c c' d1 (keeps c)); [done..| |done]; by eapply installed_intact| |done].
      intros [visible r] d2 (Hsame2 & Hyes & Hno). simpl in *.
      assert (Hw : payload_written (Some p) d2) by (unfold payload_written, payload_node, payload_slot; simpl; rewrite Hsame2; auto).
      destruct visible; [destruct r; apply kwp_ret; auto|]. destruct (Hno eq_refl) as [Hk2 Hr2].
      destruct r as [[]|error]; [done|]. rewrite andb_false_r. simpl. by eapply undo_payload_spec.
    + apply kwp_ret, kwp_ret. rewrite (Hsame eq_refl). auto.
  - apply kwp_ret. simpl. destruct (installed && referenced && negb changed) eqn:Hvis; [|by eapply undo_payload_spec].
    rewrite !andb_true_iff, negb_true_iff in Hvis. destruct Hvis as ((-> & _) & ->).
    apply kwp_ret. rewrite (Hsame eq_refl). auto.
Qed.

(** ** New and changed entries *)
Definition entry_good entry : Prop := entry_ok base_dir entry ∧ entry_ascii entry = true.

Lemma sound_add c entry :
  sound c → entry_good entry → has_id (ce_backup_catalog_id entry) c = false →
  (∀ cid, cid_of entry = Some cid → cid ∉ cids (bk_entries c)) →
  sound (c <| bk_entries ::= (λ entries, entries ++ [entry]) |>).
Proof.
  intros [Hv (Ho & Hi & Hc) Ha] [Heo Hea] Hid Hcid. split; simpl; [done| |by apply Forall_app; auto].
  split_and!; [by apply Forall_app; auto| |].
  - unfold ids. rewrite map_app. simpl. apply NoDup_app. split_and!; [done| |apply NoDup_singleton].
    intros id Hin ->%list_elem_of_singleton. apply list_elem_of_fmap in Hin as (e & He & Hin).
    apply not_true_iff_false in Hid. apply Hid, existsb_exists. exists e. split; [by apply list_elem_of_In|by apply String.eqb_eq].
  - unfold cids in *. rewrite omap_app. apply NoDup_app. split_and!; [done| |].
    + simpl. destruct (cid_of entry) as [cid|]; [|by intros ? _ ?%not_elem_of_nil].
      intros cid' Hin ->%list_elem_of_singleton. by apply (Hcid _ eq_refl).
    + simpl. destruct (cid_of entry); [apply NoDup_singleton|apply NoDup_nil_2].
Qed.

Lemma sound_replace c before old after new :
  sound c → bk_entries c = before ++ old :: after → entry_good new →
  ce_backup_catalog_id new = ce_backup_catalog_id old →
  (∀ cid, cid_of new = Some cid → (cid ∉ cids before) ∧ cid ∉ cids after) →
  sound (c <| bk_entries := before ++ new :: after |>).
Proof.
  intros [Hv (Ho & Hi & Hc) Ha] E [Heo Hea] Hid Hcid. rewrite E in *.
  apply Forall_app in Ho as [Ho1 [_ Ho2]%Forall_cons]. apply Forall_app in Ha as [Ha1 [_ Ha2]%Forall_cons].
  split; simpl; [done| |by apply Forall_app; auto]. split_and!; [by apply Forall_app; auto| |].
  - revert Hi. unfold ids. rewrite !map_app. simpl. by rewrite Hid.
  - revert Hc. unfold cids in *. rewrite !omap_app. simpl. intros Hc.
    assert (Hc' : NoDup (omap cid_of before ++ omap cid_of after)).
    { destruct (cid_of old); [|done]. revert Hc. rewrite <- Permutation_middle. by intros [_ ?]%NoDup_cons. }
    destruct (cid_of new) as [cid|]; [|done]. rewrite <- Permutation_middle. apply NoDup_cons.
    destruct (Hcid _ eq_refl) as [? ?]. split; [|done]. rewrite elem_of_app. tauto.
Qed.

Lemma pairs_replace c before old after new :
  bk_entries c = before ++ old :: after → ce_backup_catalog_id new = ce_backup_catalog_id old →
  ce_payload_id new = ce_payload_id old → pairs (c <| bk_entries := before ++ new :: after |>) = pairs c.
Proof. intros E Hid Hp. unfold pairs. simpl. rewrite E, !map_app. simpl. by rewrite Hid, Hp. Qed.

Lemma entry_is_good c d entry : keeps c d → entry ∈ bk_entries c → entry_good entry.
Proof.
  intros [[[_ (Ho & _) Ha] _] _ _] Hin. rewrite Forall_forall in Ho, Ha. split; auto.
Qed.
End invariant.

Lemma find_fresh c entry new :
  has_id (ce_backup_catalog_id entry) c = false →
  let p := of_id (ce_backup_catalog_id entry) in
  List.find p (bk_entries c ++ [entry]) = Some entry
  ∧ update_first p new (bk_entries c ++ [entry]) = bk_entries c ++ [new].
Proof.
  intros Hn p. unfold has_id in Hn. revert Hn. induction (bk_entries c) as [|e entries IH]; intros Hn; simpl in *.
  - unfold p, of_id. by rewrite String.eqb_refl.
  - apply orb_false_iff in Hn as [He Hn]. destruct (IH Hn) as [-> ->]. unfold p, of_id. by rewrite He.
Qed.

Lemma find_split {A} (p : A → bool) new l old :
  List.find p l = Some old →
  p old = true ∧ ∃ before after, l = before ++ old :: after ∧ update_first p new l = before ++ new :: after.
Proof.
  induction l as [|a l IH]; simpl; [done|]. destruct (p a) eqn:Ha.
  - intros [= ->]. split; [done|]. by exists [], l.
  - intros (Hp & before & after & -> & ->)%IH. split; [done|]. by exists (a :: before), after.
Qed.

Lemma ascii_append s t : ascii_text (s +:+ t) = ascii_text s && ascii_text t.
Proof. unfold ascii_text. induction s as [|a s IH]; simpl; [done|]. by rewrite IH, andb_assoc. Qed.

Lemma ascii_join s t : ascii_text s = true → ascii_text t = true → ascii_text (path_join s t) = true.
Proof. intros Hs Ht. unfold path_join. destruct (_ || _); rewrite !ascii_append, Hs, Ht; done. Qed.

Lemma contents_ascii payload : forallb ascii_text (backup_contents payload) = true.
Proof.
  unfold backup_contents. destruct (is_encrypted payload); [done|]. rewrite !forallb_app, !andb_true_iff.
  split_and!; [destruct (_ ≫= map_get "settings"); [rewrite forallb_app, andb_true_iff; split|done]|..];
    repeat case_match; reflexivity.
Qed.

Lemma backup_size_Ok n : ensure_settings_backup_size n = Ok () → n ≤ SETTINGS_BACKUP_MAX_BYTES.
Proof. unfold ensure_settings_backup_size. by destruct (Z.ltb_spec SETTINGS_BACKUP_MAX_BYTES n). Qed.

Lemma no_cid cid entries : List.find (has_cid cid) entries = None → cid ∉ cids entries.
Proof.
  intros Hf (entry & Hin & Hc)%list_elem_of_omap. apply list_elem_of_In in Hin. pose proof (find_none _ _ Hf _ Hin) as Hn.
  revert Hn. unfold has_cid. unfold cid_of in Hc. destruct (ce_remote entry); [|done]. injection Hc as <-.
  by rewrite String.eqb_refl.
Qed.

Lemma remote_cid_text cid : validate_remote_cid cid = Ok () → cid_text cid = true.
Proof.
  unfold validate_remote_cid, cid_text. destruct (is_empty cid); [done|]. destruct (_ <? _); [done|].
  by destruct (forallb _ _).
Qed.

Lemma indexed_in {A} (l : list A) k n a : l !! n = Some a → In ((k + n)%nat, a) (combine (seq k (length l)) l).
Proof.
  revert k n. induction l as [|b l IH]; intros k [|n]; simpl; [done..|intros [= ->]; rewrite Nat.add_0_r; auto|].
  intros Hn. right. specialize (IH (S k) n Hn). by replace (k + S n)%nat with (S k + n)%nat by lia.
Qed.

Lemma others_without_cid cid before target after :
  other_with_cid cid (length before) (before ++ target :: after) = None → (cid ∉ cids before) ∧ cid ∉ cids after.
Proof.
  unfold other_with_cid. destruct (List.find _ _) eqn:Hf; [done|]. intros _.
  assert (Hno : ∀ n e, (before ++ target :: after) !! n = Some e → n ≠ length before → cid_of e ≠ Some cid).
  { intros n e Hl Hn Hc. pose proof (find_none _ _ Hf _ (indexed_in _ 0 n e Hl)) as Hnone. simpl in Hnone.
    rewrite (proj2 (Nat.eqb_neq _ _) Hn) in Hnone. revert Hnone. simpl. unfold has_cid. unfold cid_of in Hc.
    destruct (ce_remote e); [|done]. injection Hc as <-. by rewrite String.eqb_refl. }
  split; intros (e & (n & Hn)%list_elem_of_lookup & Hc)%list_elem_of_omap.
  - apply (Hno n e); [by apply lookup_app_l_Some| |done]. apply lookup_lt_Some in Hn. lia.
  - apply (Hno (length before + S n)%nat e); [|lia|done]. by rewrite lookup_app_r, Nat.add_sub' by lia.
Qed.

(** ** The operations *)
Section operations.
Context `{LocalStateLaws} `{BackupHost} `{!CatalogLaws} (base_dir : string) (Hbase : ascii_text base_dir = true).
Context `{!Environment} `{!CatalogHost} `{!Honest}.
Implicit Types (c : BackupCatalog) (d : CatalogDisk).
#[local] Set Default Proof Using "Type*".

(** The text of a label or a provider that a catalog will hold. *)
Definition text_ascii (text : option string) : Prop := from_option (λ text, ascii_text text = true) True (non_empty_text text).

Lemma create_entry_spec c label payload encrypted payload_text d :
  sound base_dir c → zlen (bk_entries c) ≤ catalog_bound → text_ascii label → is_bytes payload_text →
  kwp (create_entry_from_payload base_dir c label payload encrypted payload_text (payload_identity payload_text))
    (λ out d', d' = d ∧ out.1.1 = c <| bk_entries ::= (λ entries, entries ++ [out.1.2]) |>
       ∧ entry_good base_dir out.1.2 ∧ has_id (ce_backup_catalog_id out.1.2) c = false ∧ ce_remote out.1.2 = None
       ∧ ce_payload_id out.1.2 = payload_identity payload_text
       ∧ zlen payload_text ≤ SETTINGS_BACKUP_MAX_BYTES
       ∧ out.2 = mkPreparedPayload (payload_name (ce_backup_catalog_id out.1.2)) payload_text) (eq d) d.
Proof.
  intros Hs Hlen Hlabel Hb. apply kwp_bind, kwp_lift; [|done]. intros [] Hsize%backup_size_Ok.
  apply kwp_bind, kwp_bind, kwp_steps. intros step. apply kwp_ret. destruct (time_cid step) as [Ht _].
  apply kwp_bind, kwp_lift; [|done]. intros id (Hid & Hcid & Hparse)%unique_id_ok; [|done..].
  apply kwp_ret. simpl. split_and!; try done. pose proof (identity_cid _ Hb) as Hia.
  assert (Hpath : ascii_text (payload_path base_dir id) = true).
  { unfold payload_path, payload_name. repeat apply ascii_join; [done..|]. by rewrite ascii_append, (cid_text_ascii _ Hcid). }
  split.
  - split; simpl; [done|by apply identity_valid|by apply bool_decide_eq_true|done].
  - unfold entry_ascii. simpl. rewrite (cid_text_ascii _ Hcid), Hia, (cid_text_ascii _ Ht), contents_ascii, Hpath.
    unfold text_ascii in Hlabel. destruct (non_empty_text label); simpl in *; [by rewrite Hlabel|by rewrite (cid_text_ascii _ Ht)].
Qed.

Definition extends c (entry : BackupCatalogEntry) d : Prop :=
  ∃ c', keeps base_dir c' d ∧ pairs c ⊆ pairs c' ∧ entry ∈ bk_entries c' ∧ zlen (bk_entries c') ≤ zlen (bk_entries c) + 1.
Definition stored (entry : BackupCatalogEntry) (bytes : list Z) d : Prop :=
  ce_payload_id entry = payload_identity bytes
  ∧ payload_node d (payload_name (ce_backup_catalog_id entry)) = NodeFile bytes.

(** *** A new entry *)
Lemma commit_new_spec c entry bytes d :
  keeps base_dir c d → entry_good base_dir entry → has_id (ce_backup_catalog_id entry) c = false →
  (∀ cid, cid_of entry = Some cid → cid ∉ cids (bk_entries c)) →
  ce_payload_id entry = payload_identity bytes → zlen bytes ≤ SETTINGS_BACKUP_MAX_BYTES →
  kwp (transaction_commit base_dir (mkCatalogTransaction c (c <| bk_entries ::= (λ entries, entries ++ [entry]) |>))
         (Some (mkPreparedPayload (payload_name (ce_backup_catalog_id entry)) bytes)))
    (λ _ d', extends c entry d' ∧ stored entry bytes d') (keeps base_dir c) d.
Proof.
  intros Hk Hgood Hid Hcid Hpid Hlen. pose proof (kp_catalog _ _ _ Hk) as [Hs _].
  assert (Hpairs : pairs (c <| bk_entries ::= (λ entries, entries ++ [entry]) |>)
                   = pairs c ++ [(ce_backup_catalog_id entry, payload_identity bytes)]).
  { unfold pairs. simpl. rewrite map_app. simpl. by rewrite Hpid. }
  eapply kwp_mono; [apply (commit_some_spec base_dir c); [exact Hk|]| |done].
  - split_and!; [by apply sound_add|rewrite Hpairs; set_solver|]. exists (ce_backup_catalog_id entry).
    rewrite Hpairs. split_and!; [done..|set_solver|set_solver].
  - intros receipt d' [Hk' Hw]. split; [|done]. eexists. split_and!; [exact Hk'|rewrite Hpairs; set_solver|set_solver|].
    simpl. unfold zlen. rewrite length_app. simpl. lia.
Qed.

Lemma record_payload_spec c label payload d :
  keeps base_dir c d → zlen (bk_entries c) ≤ catalog_bound → text_ascii label →
  kwp (record_payload_in_dir base_dir label payload)
    (λ entry d', extends c entry d' ∧ stored entry (to_vec_pretty payload) d') (keeps base_dir c) d.
Proof.
  intros Hk Hlen Hlabel. pose proof (kp_catalog _ _ _ Hk) as [Hs _].
  apply kwp_bind, kwp_lift; [|done]. intros [] _. apply kwp_bind. eapply kwp_mono; [by apply begin_spec| |done].
  intros t d1 [-> Hk1]. apply kwp_bind. cbn [tx_catalog].
  eapply kwp_mono; [apply create_entry_spec; try done; apply json_is_bytes| |by intros d' <-].
  intros [[catalog entry] prepared] d2 (-> & Hc & Hgood & Hid & Hr & Hpid & Hsize & Hprep). simpl in *. subst.
  apply kwp_bind. eapply kwp_mono; [eapply commit_new_spec; try done| |done].
  - unfold cid_of. by rewrite Hr.
  - intros receipt d' Hpost. by apply kwp_ret.
Qed.

(** *** A changed entry *)
Lemma commit_changed_spec c before old after entry bytes d :
  keeps base_dir c d → bk_entries c = before ++ old :: after → entry_good base_dir entry →
  ce_backup_catalog_id entry = ce_backup_catalog_id old → ce_payload_id entry = ce_payload_id old →
  (∀ cid, cid_of entry = Some cid → (cid ∉ cids before) ∧ cid ∉ cids after) →
  ce_payload_id entry = payload_identity bytes → zlen bytes ≤ SETTINGS_BACKUP_MAX_BYTES →
  kwp (transaction_commit base_dir (mkCatalogTransaction c (c <| bk_entries := before ++ entry :: after |>))
         (Some (mkPreparedPayload (payload_name (ce_backup_catalog_id entry)) bytes)))
    (λ _ d', extends c entry d' ∧ stored entry bytes d') (keeps base_dir c) d.
Proof.
  intros Hk E Hgood Hid Hpid Hcid Hb Hlen. pose proof (kp_catalog _ _ _ Hk) as [Hs _].
  pose proof (pairs_replace c _ _ _ _ E Hid Hpid) as Hpairs.
  eapply kwp_mono; [apply (commit_some_spec base_dir c); [exact Hk|]| |done].
  - split_and!; [by eapply sound_replace|by rewrite Hpairs|]. exists (ce_backup_catalog_id entry). rewrite Hpairs.
    split_and!; [done..| |auto]. unfold pairs. rewrite E, map_app. simpl. rewrite Hid, <- Hb, Hpid. set_solver.
  - intros receipt d' [Hk' Hw]. split; [|done]. eexists. split_and!; [exact Hk'|by rewrite Hpairs|set_solver|].
    rewrite E. simpl. unfold zlen. rewrite !length_app. simpl. lia.
Qed.

Lemma remote_ascii cid provider step :
  validate_remote_cid cid = Ok () → text_ascii provider →
  ascii_remote (mkRemote cid (remote_backup_provider provider) (unix_time_text step)) = true.
Proof.
  intros Hc%remote_cid_text%cid_text_ascii Hp. destruct (time_cid step) as [Ht%cid_text_ascii _].
  unfold ascii_remote. simpl. rewrite Hc, Ht. unfold remote_backup_provider. unfold text_ascii in Hp.
  destruct (non_empty_text provider); simpl in *; [by rewrite Hp|done].
Qed.

Lemma good_with_remote entry cid provider step :
  entry_good base_dir entry → validate_remote_cid cid = Ok () → text_ascii provider →
  entry_good base_dir (entry <| ce_remote := Some (mkRemote cid (remote_backup_provider provider) (unix_time_text step)) |>).
Proof.
  intros [[] Ha] Hc Hp. split.
  - split; simpl; [done..|]. intros cid' [= <-]. done.
  - revert Ha. unfold entry_ascii. simpl. rewrite (remote_ascii _ _ _ Hc Hp), !andb_true_iff. tauto.
Qed.

Lemma good_resent found label payload :
  entry_good base_dir found → text_ascii label →
  entry_good base_dir (found <| ce_contents := backup_contents payload |> <| ce_encrypted := is_encrypted payload |>
    <| ce_local_payload_path := payload_path base_dir (ce_backup_catalog_id found) |>
    <| ce_backup_version_label ::= (λ old, default old (non_empty_text label)) |>).
Proof.
  intros [[Hid Hp _ Hc] Ha] Hl. split; [split; simpl; [done..|by apply bool_decide_eq_true|done]|].
  revert Ha. unfold entry_ascii. simpl. rewrite contents_ascii, !andb_true_iff.
  intros ((((((Hai & Hap) & Hal) & Hac) & _) & _) & Har). split_and!; try done.
  - unfold text_ascii in Hl. by destruct (non_empty_text label).
  - unfold payload_path, payload_name. repeat apply ascii_join; [done..|]. by rewrite ascii_append, Hai.
Qed.

Definition listed_with (payload_id : string) c (entry : BackupCatalogEntry) d : Prop :=
  extends c entry d ∧ ce_payload_id entry = payload_id.

Lemma repair_spec c existing bytes d :
  keeps base_dir c d → existing ∈ bk_entries c → ce_payload_id existing = payload_identity bytes →
  zlen bytes ≤ SETTINGS_BACKUP_MAX_BYTES →
  kwp (repair_remote_entry base_dir (mkCatalogTransaction c c) existing bytes (payload_identity bytes))
    (listed_with (payload_identity bytes) c) (keeps base_dir c) d.
Proof.
  intros Hk Hin Hpid Hlen. pose proof (kp_catalog _ _ _ Hk) as [Hs _].
  destruct (entry_is_good base_dir _ _ _ Hk Hin) as [Hok _]. apply kwp_bind, kwp_attempt.
  assert (Hrest : ∀ prepared, prepares base_dir c c prepared → kwp
      (transaction_commit base_dir (mkCatalogTransaction c c) prepared ;; mret existing)
      (listed_with (payload_identity bytes) c) (keeps base_dir c) d).
  { intros prepared Hprep. apply kwp_bind. apply (kwp_mono _ (λ _, keeps base_dir c) _ (keeps base_dir c)); [| |done].
    - destruct prepared as [p|]; [|by apply (commit_none_spec base_dir c)].
      eapply kwp_mono; [by apply (commit_some_spec base_dir c)| |done]. by intros receipt d' [? _].
    - intros receipt d' Hk'. apply kwp_ret. split; [|done]. exists c. split_and!; [done..|lia]. }
  assert (Hgo : ∀ prepared, prepared = None ∨ prepared = Some (mkPreparedPayload (payload_name (ce_backup_catalog_id existing)) bytes) →
     prepares base_dir c c prepared).
  { intros prepared [->| ->]; (split_and!; [done..|]); [done|]. exists (ce_backup_catalog_id existing).
    split_and!; [done..| |auto]. simpl. rewrite <- Hpid. unfold pairs. apply list_elem_of_fmap. by exists existing. }
  eapply kwp_mono; [apply (read_file_spec base_dir _ d)| |].
  - intros bytes' d' ->. cbv beta zeta. rewrite (eo_path _ _ Hok). apply kwp_bind, kwp_ret, Hrest, Hgo. destruct (String.eqb _ _); auto.
  - intros d' <- e. cbv beta zeta. rewrite (eo_path _ _ Hok). apply kwp_bind, kwp_ret, Hrest, Hgo. auto.
Qed.

Lemma record_remote_spec c label payload cid provider d :
  keeps base_dir c d → zlen (bk_entries c) ≤ catalog_bound → text_ascii label → text_ascii provider →
  kwp (record_remote_payload_in_dir base_dir label payload cid provider)
    (listed_with (payload_identity (to_vec_pretty payload)) c) (keeps base_dir c) d.
Proof.
  intros Hk Hbound Hlabel Hprov. pose proof (kp_catalog _ _ _ Hk) as [Hs _]. unfold record_remote_payload_in_dir.
  set (bytes := to_vec_pretty payload). assert (Hb : is_bytes bytes) by apply json_is_bytes.
  apply kwp_bind, kwp_lift; [|done]. intros [] Hcid. apply kwp_bind, kwp_lift; [|done]. intros [] Hsize%backup_size_Ok.
  apply kwp_bind. eapply kwp_mono; [by apply begin_spec| |done]. intros t d1 [-> Hk1]. cbn [tx_catalog].
  destruct (List.find (has_cid (trim cid)) (bk_entries c)) as [existing|] eqn:Hf.
  { apply find_some in Hf as [Hin%list_elem_of_In _]. destruct (String.eqb_spec (ce_payload_id existing) (payload_identity bytes));
      [by apply repair_spec|by apply kwp_fail]. }
  apply no_cid in Hf. apply kwp_bind, kwp_now. intros step. apply kwp_bind.
  assert (Hdone : ∀ c' entry prepared d', kwp (transaction_commit base_dir (mkCatalogTransaction c c') (Some prepared))
      (λ _ d', extends c entry d' ∧ stored entry bytes d') (keeps base_dir c) d' →
      kwp (transaction_commit base_dir (mkCatalogTransaction c c') (Some prepared) ;; mret entry)
        (listed_with (payload_identity bytes) c) (keeps base_dir c) d').
  { intros c' entry prepared d' Hcommit. apply kwp_bind. eapply kwp_mono; [exact Hcommit| |done].
    intros receipt d2 [He [Hp _]]. by apply kwp_ret. }
  destruct (List.find _ (bk_entries c)) as [found|] eqn:Hun.
  - set (new := found <| ce_payload_id := payload_identity bytes |> <| ce_contents := backup_contents payload |>
      <| ce_encrypted := is_encrypted payload |> <| ce_local_payload_path := payload_path base_dir (ce_backup_catalog_id found) |>
      <| ce_backup_version_label ::= (λ old, default old (non_empty_text label)) |>
      <| ce_remote := Some (mkRemote (trim cid) (remote_backup_provider provider) (unix_time_text step)) |>).
    apply (find_split _ new) in Hun. destruct Hun as ([Hpid _]%andb_true_iff & before & after & Hentries & Hupd). apply String.eqb_eq in Hpid.
    apply kwp_ret. simpl.
    match goal with |- context [transaction_commit _ ?t _] =>
      replace t with (mkCatalogTransaction c (c <| bk_entries := before ++ new :: after |>)) by (rewrite <- Hupd; reflexivity) end.
    apply Hdone.
    assert (Hgood : entry_good base_dir found) by (eapply entry_is_good; [exact Hk1|rewrite Hentries; clear; set_solver]).
    assert (Hsplit : (trim cid ∉ cids before) ∧ trim cid ∉ cids after).
    { revert Hf. rewrite Hentries. unfold cids. rewrite omap_app. simpl. clear. destruct (cid_of found); set_solver. }
    apply (commit_changed_spec c before found after new); try done.
    + pose proof (good_with_remote _ (trim cid) provider step (good_resent _ label payload Hgood Hlabel) Hcid Hprov) as Hg.
      unfold new. rewrite <- Hpid. by destruct found.
    + by intros cid' [= <-].
  - apply kwp_bind. eapply kwp_mono; [by apply create_entry_spec| |by intros d' <-].
    intros [[catalog entry] prepared] d2 (-> & Hc & Hgood & Hid & Hr & Hpid & _ & Hprep). simpl in *. subst catalog prepared.
    set (new := entry <| ce_remote := Some (mkRemote (trim cid) (remote_backup_provider provider) (unix_time_text step)) |>).
    simpl. destruct (find_fresh c entry new Hid) as [Hfind Hupd]. rewrite Hfind. apply kwp_bind, kwp_lift; [|done].
    intros found [= <-]. apply kwp_ret. fold new. simpl.
    match goal with |- context [transaction_commit _ ?t _] =>
      replace t with (mkCatalogTransaction c (c <| bk_entries ::= (λ entries, entries ++ [new]) |>))
        by (unfold update_field; simpl; by rewrite Hupd) end.
    apply Hdone, (commit_new_spec c new); try done; [by apply good_with_remote|]. by intros cid' [= <-].
Qed.

(** *** Metadata for an entry *)
Lemma attach_spec c backup_catalog_id cid provider d :
  keeps base_dir c d → text_ascii provider →
  kwp (attach_remote_backup_metadata_in_dir base_dir backup_catalog_id cid provider) (extends c) (keeps base_dir c) d.
Proof.
  intros Hk Hprov. apply kwp_bind, kwp_lift; [|done]. intros id _. apply kwp_bind, kwp_lift; [|done]. intros [] Hcid.
  apply kwp_bind. eapply kwp_mono; [by apply begin_spec| |done]. intros t d1 [-> Hk1]. cbn [tx_catalog]. clear d Hk.
  apply kwp_bind, kwp_lift; [|done]. intros index _. apply kwp_bind, kwp_lift; [|done].
  intros target Htarget%ok_or_Ok. pose proof (list_elem_of_lookup_2 _ _ _ Htarget) as Hin.
  pose proof (take_drop_middle _ _ _ Htarget) as Hmid. pose proof (lookup_lt_Some _ _ _ Htarget) as Hlt.
  assert (Hself : extends c target d1) by (exists c; split_and!; [done..|lia]).
  destruct (other_with_cid _ _ _) eqn:Hother; [destruct (negb _); by apply kwp_fail|].
  destruct (ce_remote target); [destruct (_ && _); [by apply kwp_ret|by apply kwp_fail]|].
  apply kwp_bind, kwp_now. intros step. set (new := target <| ce_remote := _ |>).
  pose proof (kp_catalog _ _ _ Hk1) as [Hs _].
  rewrite <- Hmid in Hother. rewrite <- (length_take_le (bk_entries c) index) in Hother at 1 by lia.
  apply others_without_cid in Hother. symmetry in Hmid.
  assert (Hc' : c <| bk_entries ::= <[index := new]> |>
                = c <| bk_entries := take index (bk_entries c) ++ new :: drop (S index) (bk_entries c) |>).
  { unfold update_field. simpl. by rewrite insert_take_drop by done. }
  apply kwp_bind. simpl. match goal with |- kwp (transaction_commit _ ?t _) _ _ _ =>
    replace t with (mkCatalogTransaction c (c <| bk_entries := take index (bk_entries c) ++ new :: drop (S index) (bk_entries c) |>))
      by (by rewrite <- Hc') end.
  pose proof (pairs_replace c _ target _ new Hmid eq_refl eq_refl) as Hpairs.
  eapply kwp_mono; [apply (commit_none_spec base_dir c); [exact Hk1|]| |done].
  - split_and!; [|by rewrite Hpairs..]. eapply sound_replace; try done; [|by intros cid' [= <-]].
    apply good_with_remote; [by eapply entry_is_good|done..].
  - intros receipt d' Hk'. apply kwp_ret. eexists. split_and!; [exact Hk'|by rewrite Hpairs|simpl; clear; set_solver|].
    simpl. unfold zlen. rewrite length_app. simpl. rewrite length_take, length_drop. lia.
Qed.
End operations.

(** ** Reading a backup when the system works *)
Class Working `{Environment} `{CatalogHost} : Prop := {
  all_work n : io_answer n = IoWorks;
  working_stat n : stat_fails n = false;
}.

Definition never (d : CatalogDisk) : Prop := False.

Section working.
Context `{LocalStateLaws} `{BackupHost} `{!CatalogLaws} (base_dir : string).
Context `{!Environment} `{!CatalogHost} `{!Working}.
Implicit Types (c : BackupCatalog) (d : CatalogDisk).
#[local] Set Default Proof Using "Type*".

#[local] Instance working_honest : Honest.
Proof. split; intros n; [by rewrite all_work|apply working_stat]. Qed.

Lemma kwp_works {A} effect (result : CatalogDisk → A) message Q E d :
  Q (result d) (effect d) → kwp (k_call effect result message) Q E d.
Proof. intros HQ s <-. unfold k_call. by rewrite all_work. Qed.

Lemma kwp_lift_Ok {A} (r : Result A) a Q E d : r = Ok a → Q a d → kwp (k_lift r) Q E d.
Proof. by intros -> HQ s <-. Qed.

Lemma load_works c d : keeps base_dir c d → kwp (load_catalog_from_path base_dir) (λ c' d', c' = c ∧ d' = d) never d.
Proof.
  intros Hk. destruct (kp_catalog _ _ _ Hk) as [_ Hn]. apply kwp_bind, kwp_is_file.
  destruct (sl_latest (kd_catalog d)) eqn:Hnode; simpl; [by apply kwp_ret| |done].
  apply kwp_bind, kwp_works. rewrite Hnode. by eapply kwp_lift_Ok.
Qed.

Lemma find_listed c entry :
  sound base_dir c → entry ∈ bk_entries c →
  ∃ found, List.find (of_id (ce_backup_catalog_id entry)) (bk_entries c) = Some found
    ∧ ce_payload_id found = ce_payload_id entry.
Proof.
  intros Hs Hin. destruct (List.find _ _) as [found|] eqn:Hf.
  - exists found. split; [done|]. apply find_some in Hf as [Hin'%list_elem_of_In Hid%String.eqb_eq].
    eapply (pair_unique base_dir c); [done| |]; apply list_elem_of_fmap; [exists found|exists entry]; by rewrite ?Hid.
  - apply list_elem_of_In in Hin. pose proof (find_none _ _ Hf _ Hin) as Hn. unfold of_id in Hn. by rewrite String.eqb_refl in Hn.
Qed.

Lemma read_file_works name bytes d :
  payload_node d name = NodeFile bytes → zlen bytes ≤ SETTINGS_BACKUP_MAX_BYTES →
  kwp (read_backup_payload_file base_dir name) (λ bytes' d', bytes' = bytes ∧ d' = d) never d.
Proof.
  intros Hn Hl. apply kwp_bind, kwp_works. rewrite Hn. apply kwp_bind, kwp_works.
  rewrite (proj2 (Z.ltb_ge _ _) Hl). apply kwp_bind, kwp_ret, kwp_bind, kwp_works.
  rewrite take_ge by (unfold zlen in Hl; lia). apply kwp_bind. eapply kwp_lift_Ok; [|by apply kwp_ret].
  unfold ensure_settings_backup_size. by rewrite (proj2 (Z.ltb_ge _ _) Hl).
Qed.

Lemma read_bytes_works c entry d :
  keeps base_dir c d → entry ∈ bk_entries c →
  kwp (backup_payload_bytes_in_dir base_dir (ce_backup_catalog_id entry))
    (λ bytes d', payload_identity bytes = ce_payload_id entry
       ∧ payload_node d (payload_name (ce_backup_catalog_id entry)) = NodeFile bytes) never d.
Proof.
  intros Hk Hin. destruct (entry_is_good base_dir c d entry Hk Hin) as [Hok _].
  pose proof (kp_catalog _ _ _ Hk) as [Hs _].
  apply kwp_bind. eapply kwp_lift_Ok; [apply (eo_id _ _ Hok)|]. apply kwp_bind.
  eapply kwp_mono; [by apply load_works| |done]. intros c' d' [-> ->].
  destruct (find_listed c entry Hs Hin) as (found & Hf & Hpid). rewrite Hf.
  apply kwp_bind. eapply kwp_lift_Ok; [done|]. apply kwp_bind.
  assert (Hi : intact d (ce_backup_catalog_id entry, ce_payload_id entry)).
  { apply (proj1 (Forall_forall _ _) (kp_payloads _ _ _ Hk)), list_elem_of_fmap. by exists entry. }
  destruct Hi as [_ (bytes & Hn & Hpb & Hl)%slot_all_now]. simpl in *.
  eapply kwp_mono; [by apply read_file_works| |done]. intros bytes' d' [-> ->].
  rewrite Hpid, Hpb, String.eqb_refl. by apply kwp_ret.
Qed.
End working.

(** ** Losses of power

    Each name of a directory independently shows one of the nodes it may have; a
    directory that is not durable may be gone with all its names. *)
Definition slot_lost (slot slot' : Slot) : Prop := ∃ node, node ∈ slot_possible slot ∧ slot' = mkSlot node [].
Definition dir_lost (dir dir' : PayloadDir) : Prop :=
  match dir with
  | DirPending => dir' = DirAbsent ∨ dir' = DirDurable
  | DirAbsent | DirDurable => dir' = dir
  end.
Record catalog_power_loss (d d' : CatalogDisk) : Prop := {
  pl_catalog : slot_lost (kd_catalog d) (kd_catalog d');
  pl_dir : dir_lost (kd_dir d) (kd_dir d');
  pl_payloads name :
    if bool_decide (kd_dir d' = DirAbsent) then payload_slot d' name = missing_slot
    else slot_lost (payload_slot d name) (payload_slot d' name);
}.

Lemma slot_lost_all P slot slot' : slot_lost slot slot' → slot_all P slot → slot_all P slot'.
Proof.
  intros (node & Hin & ->) Hs. constructor; [|done]. unfold slot_all in Hs. rewrite Forall_forall in Hs. by apply Hs.
Qed.

(** ** Histories

    The catalog of a directory that was empty, after requests of any processes, in
    any environment whose failed calls have done nothing, and losses of power. *)
Inductive CatalogRequest : Type :=
  | RecordLocal (label : option string) (payload : Value)
  | RecordRemote (label : option string) (payload : Value) (cid : string) (provider : option string)
  | AttachRemote (backup_catalog_id cid : string) (provider : option string).

Definition request_ascii (request : CatalogRequest) : Prop :=
  match request with
  | RecordLocal label _ => text_ascii label
  | RecordRemote label _ _ provider => text_ascii label ∧ text_ascii provider
  | AttachRemote _ _ provider => text_ascii provider
  end.

Definition empty_catalog_disk : CatalogDisk := mkCatalogDisk missing_slot ∅ DirAbsent.

Section histories.
Context `{HexCrate} `{Sha2Crate} `{SerdeJsonBytes} `{BackupHost} (base_dir : string).

Definition run_request `{Environment} `{CatalogHost} (request : CatalogRequest) : KIO BackupCatalogEntry :=
  match request with
  | RecordLocal label payload => record_payload_in_dir base_dir label payload
  | RecordRemote label payload cid provider => record_remote_payload_in_dir base_dir label payload cid provider
  | AttachRemote id cid provider => attach_remote_backup_metadata_in_dir base_dir id cid provider
  end.

Inductive history : nat → CatalogDisk → Prop :=
  | history_empty : history 0 empty_catalog_disk
  | history_request n `{Honest} s request r s' :
      history n (ks_disk s) → request_ascii request → run_request request s = (r, s') → history (S n) (ks_disk s')
  | history_power n d d' : history n d → catalog_power_loss d d' → history (S n) d'.
End histories.

Section theorems.
Context `{LocalStateLaws} `{BackupHost} `{!CatalogLaws} (base_dir : string) (Hbase : ascii_text base_dir = true).
Implicit Types (c : BackupCatalog) (d : CatalogDisk).
#[local] Set Default Proof Using "Type*".

Lemma keeps_empty : keeps base_dir catalog_default empty_catalog_disk.
Proof.
  assert (Hs : sound base_dir catalog_default) by (split; [done|split_and!; [constructor|apply NoDup_nil_2..]|constructor]).
  split; [by split| |constructor]. constructor; [|done]. exists catalog_default. split; [by split|done].
Qed.

Lemma pairs_length c c' : sound base_dir c → pairs c ⊆ pairs c' → zlen (bk_entries c) ≤ zlen (bk_entries c').
Proof.
  intros [_ (_ & Hn & _) _] Hsub.
  assert (Hnd : NoDup (pairs c)).
  { unfold pairs, ids in *. apply (NoDup_fmap_1 fst). by rewrite <- list_fmap_compose. }
  pose proof (submseteq_length _ _ (NoDup_submseteq _ _ Hnd Hsub)) as Hl. unfold pairs in Hl. rewrite !length_map in Hl.
  unfold zlen. lia.
Qed.

Lemma keeps_power_loss c d d' :
  keeps base_dir c d → catalog_power_loss d d' → ∃ c', keeps base_dir c' d' ∧ pairs c' ⊆ pairs c.
Proof.
  intros [Hc He Hp] [(node & Hin & Hcat) Hdir Hpay]. pose proof (proj1 (Forall_forall _ _) He) as He'.
  destruct (He' node Hin) as (c' & Hs & Hsub). exists c'. split; [|done]. split.
  - by rewrite Hcat.
  - rewrite Hcat. constructor; [|done]. by exists c'.
  - rewrite Forall_forall in *. intros listed [Hd Hslot]%Hsub%Hp. rewrite Hd in Hdir. simpl in Hdir.
    specialize (Hpay (payload_name listed.1)). rewrite Hdir, bool_decide_false in Hpay by done.
    split; [done|]. by eapply slot_lost_all.
Qed.

Lemma record_spec {env : Environment} {host : CatalogHost} `{!Honest} c label payload d :
  keeps base_dir c d → zlen (bk_entries c) ≤ catalog_bound → text_ascii label →
  kwp (record_payload_in_dir base_dir label payload)
    (λ entry d', extends base_dir c entry d' ∧ stored entry (to_vec_pretty payload) d') (keeps base_dir c) d.
Proof. intros. by apply record_payload_spec. Qed.

Lemma request_spec {env : Environment} {host : CatalogHost} `{!Honest} c request d :
  keeps base_dir c d → zlen (bk_entries c) ≤ catalog_bound → request_ascii request →
  kwp (run_request base_dir request) (extends base_dir c) (keeps base_dir c) d.
Proof.
  intros Hk Hlen Hr. destruct request as [label payload|label payload cid provider|id cid provider]; simpl in *.
  - eapply kwp_mono; [by apply record_spec| |done]. by intros entry d' [? _].
  - destruct Hr. eapply kwp_mono; [by apply record_remote_spec| |done]. by intros entry d' [? _].
  - by apply attach_spec.
Qed.

Lemma history_keeps n d :
  history base_dir n d → Z.of_nat n ≤ catalog_bound → ∃ c, keeps base_dir c d ∧ zlen (bk_entries c) ≤ Z.of_nat n.
Proof.
  induction 1 as [|n env host Hhonest s request r s' Hh IH Ha Hrun|n d d' Hh IH Hp]; intros Hn.
  - exists catalog_default. split; [apply keeps_empty|done].
  - destruct IH as (c & Hk & Hl); [lia|].
    pose proof (kwp_run _ _ _ _ _ _ (request_spec c request _ Hk ltac:(lia) Ha) Hrun) as Hpost. destruct r as [entry|e].
    + destruct Hpost as (c' & Hk' & _ & _ & Hl'). exists c'. split; [done|lia].
    + exists c. split; [done|lia].
  - destruct IH as (c & Hk & Hl); [lia|]. destruct (keeps_power_loss _ _ _ Hk Hp) as (c' & Hk' & Hsub).
    exists c'. split; [done|]. pose proof (kp_catalog _ _ _ Hk') as [Hs _]. pose proof (pairs_length _ _ Hs Hsub). lia.
Qed.

Lemma kwp_returns {A} (m : KIO A) Q d steps :
  kwp m Q never d → ∃ a, (m (mkCatalogState d steps)).1 = Ok a ∧ Q a (ks_disk (m (mkCatalogState d steps)).2).
Proof.
  intros Hm. specialize (Hm (mkCatalogState d steps) eq_refl). destruct (m _) as [[a|e] s']; [by exists a|done].
Qed.

(** C19. Take a catalog of backups that began empty in a directory with an ASCII
    path, and at most 10^16 requests with ASCII labels and providers and losses of
    power, in any order, where a call may fail at any point (and the process then
    give up or die) but a call that fails has had no effect and a [stat] does not
    fail.  Then, with calls that work, the catalog can be loaded, and the payload of
    every backup that it lists can be read and has the digest that the catalog
    lists. *)
Theorem listed_backups_readable n d `{Working} steps :
  history base_dir n d → Z.of_nat n ≤ catalog_bound →
  ∃ c, (load_catalog_from_path base_dir (mkCatalogState d steps)).1 = Ok c
    ∧ ∀ entry, entry ∈ bk_entries c →
        ∃ bytes, (backup_payload_bytes_in_dir base_dir (ce_backup_catalog_id entry) (mkCatalogState d steps)).1 = Ok bytes
          ∧ payload_identity bytes = ce_payload_id entry.
Proof.
  intros Hh Hn. destruct (history_keeps n d Hh Hn) as (c & Hk & _). exists c. split.
  - destruct (kwp_returns _ _ _ steps (load_works base_dir c d Hk)) as (c' & -> & -> & _). done.
  - intros entry Hin. destruct (kwp_returns _ _ _ steps (read_bytes_works base_dir c entry d Hk Hin)) as (bytes & -> & Hb & _).
    by exists bytes.
Qed.

(** C20. After such a history (an ASCII path, at most 10^16 requests with ASCII
    labels and providers and losses of power, failed calls without effect and no
    failing [stat]), a further such request never takes a backup out of the catalog
    and never changes the identity of its payload, also when it fails; the entry
    that the request returns is in the catalog that is loaded afterwards with calls
    that work. *)
Theorem requests_only_add n (env : Environment) (host : CatalogHost) `{!Honest} s request r s' c :
  history base_dir n (ks_disk s) → Z.of_nat n ≤ catalog_bound → request_ascii request →
  run_request base_dir request s = (r, s') →
  ∀ (env' : Environment) (host' : CatalogHost), Working (H := env') (H0 := host') →
  (@load_catalog_from_path env' host' _ base_dir (mkCatalogState (ks_disk s) 0)).1 = Ok c →
  ∃ c', (@load_catalog_from_path env' host' _ base_dir (mkCatalogState (ks_disk s') 0)).1 = Ok c'
    ∧ (∀ entry, entry ∈ bk_entries c → ∃ entry', entry' ∈ bk_entries c'
         ∧ ce_backup_catalog_id entry' = ce_backup_catalog_id entry ∧ ce_payload_id entry' = ce_payload_id entry)
    ∧ match r with Ok entry => entry ∈ bk_entries c' | Err _ => True end.
Proof.
  intros Hh Hn Ha Hrun env' host' Hw Hload. destruct (history_keeps n _ Hh Hn) as (c0 & Hk & Hl).
  destruct (kwp_returns _ _ _ 0 (load_works base_dir c0 _ Hk)) as (c1 & Hload' & -> & _).
  rewrite Hload' in Hload. injection Hload as ->.
  pose proof (kwp_run _ _ _ _ _ _ (request_spec (env := env) (host := host) c request _ Hk ltac:(lia) Ha) Hrun) as Hpost.
  assert (Hpost' : ∃ c', keeps base_dir c' (ks_disk s') ∧ pairs c ⊆ pairs c'
                     ∧ match r with Ok entry => entry ∈ bk_entries c' | Err _ => True end).
  { destruct r; [destruct Hpost as (c' & ? & ? & ? & _); by exists c'|by exists c]. }
  destruct Hpost' as (c' & Hk' & Hsub & Hr). exists c'.
  destruct (kwp_returns _ _ _ 0 (load_works base_dir c' _ Hk')) as (c2 & -> & -> & _).
  split_and!; [done| |done]. intros entry Hin.
  assert (Hp : (ce_backup_catalog_id entry, ce_payload_id entry) ∈ pairs c') by (apply Hsub, list_elem_of_fmap; by exists entry).
  apply list_elem_of_fmap in Hp as (entry' & [= Hid Hp] & Hin'). by exists entry'.
Qed.

(** C21. After such a history (an ASCII path, at most 10^16 requests with ASCII
    labels and providers and losses of power, failed calls without effect and no
    failing [stat]), recording a payload of JSON with ASCII texts, without negative
    and floating-point numbers and with at most 127 nested arrays and objects, under
    an ASCII label, leaves a disk from which the entry it returns reads, with calls
    that work, as exactly that payload. *)
Theorem recorded_backup_reads_back n (env : Environment) (host : CatalogHost) `{!Honest} s label payload entry s' steps :
  history base_dir n (ks_disk s) → Z.of_nat n ≤ catalog_bound → text_ascii label → json_readable payload →
  record_payload_in_dir base_dir label payload s = (Ok entry, s') →
  ∀ (env' : Environment) (host' : CatalogHost), Working (H := env') (H0 := host') →
  (@backup_payload_value_in_dir env' host' _ _ _ base_dir (ce_backup_catalog_id entry)
     (mkCatalogState (ks_disk s') steps)).1
  = Ok (ce_backup_catalog_id entry, payload).
Proof.
  intros Hh Hn Ha Hplain Hrun env' host' Hw. destruct (history_keeps n _ Hh Hn) as (c & Hk & Hl).
  pose proof (kwp_run _ _ _ _ _ _ (record_spec (env := env) (host := host) c label payload _ Hk ltac:(lia) Ha) Hrun) as Hpost.
  simpl in Hpost. destruct Hpost as [(c' & Hk' & _ & Hin & _) [_ Hnode]].
  destruct (entry_is_good base_dir _ _ _ Hk' Hin) as [Hok _].
  assert (Hread : kwp (@backup_payload_value_in_dir env' host' _ _ _ base_dir (ce_backup_catalog_id entry))
    (λ out _, out = (ce_backup_catalog_id entry, payload)) never (ks_disk s')).
  { apply kwp_bind. eapply kwp_lift_Ok; [apply (eo_id _ _ Hok)|]. apply kwp_bind.
    eapply kwp_mono; [by apply (read_bytes_works base_dir c' entry)| |done]. intros bytes d' [_ Hn'].
    rewrite Hnode in Hn'. injection Hn' as <-. apply kwp_bind. eapply kwp_lift_Ok; [|by apply kwp_ret].
    by rewrite (json_roundtrip _ Hplain). }
  by destruct (kwp_returns _ _ _ steps Hread) as (out & -> & ->).
Qed.
End theorems.
