(* ===== verification/BackupPlanTheorems.v ===== *)
(** * What the plan of an import promises

    The preview of an import and its application make the same plan, and the
    application is refused exactly when the preview shows a conflict that is not
    decided; a merge keeps the rows that are there, in their places. *)

From S2P Require Import Prelude Json Bytes ImportOptions LocalState ChannelConfig ChannelStore BackupPlan.
Open Scope Z_scope.

(** ** Undecided conflicts *)
Definition conflict_required (conflict : Value) : bool :=
  bool_decide (value_get "decision" conflict ≫= as_str = Some "required").
Definition decided (report : ItemAreaReport) : Prop :=
  Forall (λ conflict, conflict_required conflict = false) (ir_conflicts report).

(** The conflicts that a summary shows. *)
Definition summary_conflicts (summary : Value) : list Value :=
  let conflicts area := json_array (conflicts ← value_get "conflicts" summary; value_get area conflicts) in
  conflicts "favorites" ++ conflicts "idl_registry".
Definition undecided_conflicts (summary : Value) : list Value :=
  List.filter conflict_required (summary_conflicts summary).

Lemma decided_push area key label decision report :
  decided (push_conflict (conflict_identity area key label decision) report)
  ↔ decided report ∧ decision ≠ "required".
Proof.
  unfold decided, push_conflict. destruct report as [items conflicts]; simpl.
  rewrite Forall_app, Forall_singleton. unfold conflict_required.
  change (value_get _ (conflict_identity area key label decision)) with (Some (VString decision)). simpl.
  rewrite bool_decide_eq_false. naive_solver.
Qed.

Lemma decided_push_item item report : decided (push_item item report) ↔ decided report.
Proof. by destruct report. Qed.

Section strict.
Context (key_fn label_fn : Value → string) (area : BackupImportArea) (options : BackupImportOptions).
Local Abbreviation item := (merge_item key_fn label_fn area options).
Local Abbreviation items := (merge_items key_fn label_fn area options).

(** With decisions required, an item is merged when it is without and no
    undecided conflict comes of it. *)
Lemma merge_item_strict state value state' :
  (item true state value = Ok state' ∧ decided (ms_report state))
  ↔ (item false state value = Ok state' ∧ decided (ms_report state')).
Proof.
  unfold merge_item. destruct (is_empty _); [naive_solver|].
  destruct (ms_index state !! _) as [index|].
  - destruct (negb _); [|destruct (negb _)]; simpl.
    + split; intros [[= <-] ?]; simpl in *; by rewrite ?decided_push_item in *.
    + split; intros [[= <-] ?]; simpl in *; by rewrite ?decided_push_item in *.
    + destruct (conflict_decision _ _ _) as [[]|].
      * split; intros [[= <-] Hd]; simpl in *; rewrite ?decided_push, ?decided_push_item in *; naive_solver.
      * split; intros [[= <-] Hd]; simpl in *; rewrite ?decided_push, ?decided_push_item in *; naive_solver.
      * split; intros [Heq Hd]; [done|]. injection Heq as <-. simpl in Hd.
        rewrite decided_push in Hd. naive_solver.
  - destruct (item_is_selected _ _ _); split; intros [[= <-] ?]; simpl in *; by rewrite ?decided_push_item in *.
Qed.

Lemma merge_items_strict values : ∀ state state',
  (items true state values = Ok state' ∧ decided (ms_report state))
  ↔ (items false state values = Ok state' ∧ decided (ms_report state')).
Proof.
  induction values as [|value values IH]; intros state state'; simpl; [naive_solver|].
  split.
  - intros [H Hd]. destruct (item true state value) as [mid|] eqn:E; [|done].
    destruct (proj1 (merge_item_strict _ _ _) (conj E Hd)) as [-> Hm]. by apply IH.
  - intros [H Hd]. destruct (item false state value) as [mid|] eqn:E; [|done].
    destruct (proj2 (IH _ _) (conj H Hd)) as [H' Hm].
    by destruct (proj2 (merge_item_strict _ _ _) (conj E Hm)) as [-> Hs].
Qed.

Lemma index_current_report values : ∀ state,
  ms_report (foldl (index_current key_fn) state values) = ms_report state.
Proof. induction values as [|value values IH]; intros state; [done|]. simpl. by rewrite IH. Qed.

Lemma merge_array_strict current incoming rows report :
  merge_array_by_key key_fn label_fn area options true current incoming = Ok (rows, report)
  ↔ merge_array_by_key key_fn label_fn area options false current incoming = Ok (rows, report) ∧ decided report.
Proof.
  unfold merge_array_by_key.
  set (start := foldl _ _ _).
  assert (Hs : decided (ms_report start)) by (subst start; rewrite index_current_report; constructor).
  split.
  - destruct (items true _ _) as [state|] eqn:E; simpl; [|done]. intros [= <- <-].
    by destruct (proj1 (merge_items_strict _ _ _) (conj E Hs)) as [-> ?].
  - destruct (items false _ _) as [state|] eqn:E; simpl; [|naive_solver]. intros [[= <- <-] Hd].
    by destruct (proj2 (merge_items_strict _ _ _) (conj E Hd)) as [-> ?].
Qed.

End strict.

Section selections.
Context `{UnicodeLowercase} (area : BackupImportArea) (options : BackupImportOptions).

Lemma merge_entries_strict incoming : ∀ result report result' report',
  (merge_entries area options true result report incoming = Ok (result', report') ∧ decided report)
  ↔ (merge_entries area options false result report incoming = Ok (result', report') ∧ decided report').
Proof.
  induction incoming as [|[key value] incoming IH]; intros result report result' report'; simpl; [naive_solver|].
  destruct (item_is_selected _ _ _); simpl; [|apply IH].
  destruct (map_get key result) as [current|]; [|apply IH].
  destruct (value_eqb current value); simpl; [apply IH|].
  destruct (conflict_decision _ _ _) as [[]|]; rewrite <- ?IH, ?decided_push; naive_solver.
Qed.

Lemma merge_object_strict current incoming report value report' :
  (merge_object_field area options true current incoming report = Ok (value, report') ∧ decided report)
  ↔ (merge_object_field area options false current incoming report = Ok (value, report') ∧ decided report').
Proof.
  unfold merge_object_field. destruct (default _ _); try naive_solver. destruct incoming; try naive_solver.
  split.
  - intros [Hm Hd]. destruct (merge_entries _ _ true _ _ _) as [[m r]|] eqn:E; [|done].
    destruct (proj1 (merge_entries_strict _ _ _ _ _) (conj E Hd)) as [-> ?]. naive_solver.
  - intros [Hm Hd]. destruct (merge_entries _ _ false _ _ _) as [[m r]|] eqn:E; [|done].
    simpl in Hm. injection Hm as <- <-.
    by destruct (proj2 (merge_entries_strict _ _ _ _ _) (conj E Hd)) as [-> ?].
Qed.
End selections.

Section plans.
Context `{UnicodeLowercase} `{SerdeJson} (options : BackupImportOptions).

Lemma item_report_decided key_fn label_fn area incoming :
  decided (item_report_for_array key_fn label_fn area incoming).
Proof. constructor. Qed.

Lemma planned_settings_strict backup current plan :
  planned_settings_state options true backup current = Ok plan
  ↔ planned_settings_state options false backup current = Ok plan ∧ decided (pl_report plan).
Proof.
  unfold planned_settings_state. destruct backup as [backup|]; [|split; [intros [= <-]|]; naive_solver constructor].
  destruct (options_mode options AreaFavorites).
  - split; [intros [= <-]|naive_solver]. split; [done|apply item_report_decided].
  - split.
    + destruct (merge_array_by_key _ _ _ _ true _ _) as [[rows report]|] eqn:E; [|done]. intros [= <-].
      apply merge_array_strict in E as [-> Hd]. done.
    + destruct (merge_array_by_key _ _ _ _ false _ _) as [[rows report]|] eqn:E; [|naive_solver].
      intros [[= <-] Hd]. by rewrite (proj2 (merge_array_strict _ _ _ _ _ _ _ _) (conj E Hd)).
  - split; [|naive_solver]. intros Hp. split; [done|].
    destruct (transpose _ _); simplify_eq/=; constructor.
Qed.

Lemma merged_idl_strict backup current value report :
  merged_idl_state options true backup current = Ok (value, report)
  ↔ merged_idl_state options false backup current = Ok (value, report) ∧ decided report.
Proof.
  unfold merged_idl_state. split.
  - destruct (merge_array_by_key _ _ _ _ true _ _) as [[rows r]|] eqn:E; [|done].
    apply merge_array_strict in E as [-> Hd]. simpl.
    destruct (value_get "account_idl_selections" backup); [|naive_solver]. intros Hm.
    destruct (merge_object_field _ _ true _ _ _) as [[m r']|] eqn:E; [|done].
    destruct (proj1 (merge_object_strict _ _ _ _ _ _ _) (conj E Hd)) as [-> ?]. naive_solver.
  - destruct (merge_array_by_key _ _ _ _ false _ _) as [[rows r]|] eqn:E; [|naive_solver]. simpl.
    destruct (value_get "account_idl_selections" backup).
    + intros [Hm Hd]. destruct (merge_object_field _ _ false _ _ _) as [[m r']|] eqn:E'; [|done].
      simpl in Hm. injection Hm as <- <-.
      destruct (proj2 (merge_object_strict _ _ _ _ _ _ _) (conj E' Hd)) as [Hm Hd'].
      by rewrite (proj2 (merge_array_strict _ _ _ _ _ _ _ _) (conj E Hd')); simpl; rewrite Hm.
    + intros [[= <- <-] Hd]. by rewrite (proj2 (merge_array_strict _ _ _ _ _ _ _ _) (conj E Hd)).
Qed.

Lemma planned_idl_strict backup current plan :
  planned_idl_state options true backup current = Ok plan
  ↔ planned_idl_state options false backup current = Ok plan ∧ decided (pl_report plan).
Proof.
  unfold planned_idl_state. destruct backup as [backup|]; [|split; [intros [= <-]|]; naive_solver constructor].
  destruct (options_mode options AreaIdlRegistry).
  - split; [intros [= <-]|naive_solver]. split; [done|apply item_report_decided].
  - split.
    + destruct (merged_idl_state _ true _ _) as [[value report]|] eqn:E; [|done]. intros [= <-].
      by apply merged_idl_strict in E as [-> Hd].
    + destruct (merged_idl_state _ false _ _) as [[value report]|] eqn:E; [|naive_solver]. intros [[= <-] Hd].
      by rewrite (proj2 (merged_idl_strict _ _ _ _) (conj E Hd)).
  - split; [intros [= <-]|naive_solver]. split; [done|constructor].
Qed.
End plans.

Lemma summary_conflicts_shown `{HostFiles} state selection settings idl wallet favorites registry warnings applied :
  summary_conflicts (plan_summary state selection settings idl wallet favorites registry warnings applied)
  = ir_conflicts favorites ++ ir_conflicts registry.
Proof. reflexivity. Qed.

Lemma undecided_nil conflicts :
  List.filter conflict_required conflicts = [] ↔ Forall (λ conflict, conflict_required conflict = false) conflicts.
Proof.
  induction conflicts as [|c l IH]; simpl; [split; [constructor|done]|].
  rewrite Forall_cons, <- IH. destruct (conflict_required c); naive_solver.
Qed.

(** C22. The plan that is applied is the plan that was previewed: with the same
    backup, options and current state, planning with the decisions required gives
    a plan exactly when planning without gives the same one and its summary shows
    no conflict that is not decided. *)
Theorem applied_plan_is_previewed `{UnicodeLowercase} `{SerdeJson} `{UrlCrate} `{HexCrate} `{Sha2Crate} `{HostFiles}
    state options current_settings current_idl plan :
  build_import_plan_with_current state options true current_settings current_idl = Ok plan
  ↔ build_import_plan_with_current state options false current_settings current_idl = Ok plan
    ∧ undecided_conflicts (ip_summary plan) = [].
Proof.
  unfold build_import_plan_with_current. split.
  - destruct (planned_settings_state _ true _ _) as [ps|] eqn:Es; [|done].
    apply planned_settings_strict in Es as [-> Hs].
    destruct (planned_idl_state _ true _ _) as [pi|] eqn:Ei; [|done].
    apply planned_idl_strict in Ei as [-> Hi]. simpl.
    destruct (transpose _ _) as [settings|]; [|done]. simpl. intros [= <-]. split; [done|]. simpl.
    unfold undecided_conflicts. rewrite summary_conflicts_shown, undecided_nil, Forall_app. done.
  - intros [Hp Hu]. destruct (planned_settings_state _ false _ _) as [ps|] eqn:Es; [|done]. simpl in Hp.
    destruct (planned_idl_state _ false _ _) as [pi|] eqn:Ei; [|done]. simpl in Hp.
    destruct (transpose _ _) as [settings|] eqn:Et; [|done]. simpl in Hp. injection Hp as <-.
    simpl in Hu. unfold undecided_conflicts in Hu.
    rewrite summary_conflicts_shown, undecided_nil, Forall_app in Hu. destruct Hu as [Hs Hi].
    rewrite (proj2 (planned_settings_strict _ _ _ _) (conj Es Hs)).
    rewrite (proj2 (planned_idl_strict _ _ _ _) (conj Ei Hi)). simpl. by rewrite Et.
Qed.

(** ** What a merge keeps and adds *)
Section kept.
Context (key_fn : Value → string).
Local Abbreviation keys := (fmap (M := list) key_fn).

(** The current rows are indexed one by one. *)
Definition indexed (state : MergeState) : Prop :=
  (∀ key index, ms_index state !! key = Some index → keys (ms_rows state) !! index = Some key ∧ key ≠ "")
  ∧ (∀ key, key ∈ keys (ms_rows state) → key ≠ "" → is_Some (ms_index state !! key)).

Lemma is_empty_spec s : is_empty s = true ↔ s = "".
Proof. by destruct s. Qed.

Lemma keys_snoc_lookup rows value key index :
  keys rows !! index = Some key → keys (rows ++ [value]) !! index = Some key.
Proof. intros H. rewrite fmap_app. by apply lookup_app_l_Some. Qed.

Lemma indexed_insert rows index value r :
  key_fn value ≠ "" → index !! key_fn value = None → indexed (mkMerge rows index r) →
  indexed (mkMerge (rows ++ [value]) (<[key_fn value := length rows]> index) r).
Proof.
  intros Hne Hnone [H1 H2]; split; simpl in *.
  - intros key i Hl. apply lookup_insert_Some in Hl as [[<- <-]|[Hk Hi]]; [|naive_solver eauto using keys_snoc_lookup].
    split; [|done]. rewrite fmap_app, lookup_app_r; rewrite length_fmap; [|lia]. by rewrite Nat.sub_diag.
  - intros key. rewrite fmap_app, elem_of_app. simpl. rewrite list_elem_of_singleton. intros Hk He.
    apply lookup_insert_is_Some'. naive_solver.
Qed.

Lemma index_current_indexed values : ∀ state, indexed state →
  let state' := foldl (index_current key_fn) state values in
  indexed state' ∧ ms_rows state' = ms_rows state ++ values.
Proof.
  induction values as [|value values IH]; intros [rows index r] Hst; simpl.
  { by rewrite app_nil_r. }
  destruct (IH (index_current key_fn (mkMerge rows index r) value)) as [H1 H2].
  - unfold index_current; simpl. destruct (is_empty (key_fn value)) eqn:Ee.
    + apply is_empty_spec in Ee. destruct Hst as [Ha Hb]. split; simpl in *.
      * naive_solver eauto using keys_snoc_lookup.
      * intros key. rewrite fmap_app, elem_of_app. simpl. rewrite list_elem_of_singleton. naive_solver.
    + assert (key_fn value ≠ "") by (intros E; rewrite E in Ee; done).
      destruct (index !! key_fn value) eqn:Ei; [|by apply indexed_insert].
      destruct Hst as [Ha Hb]. split; simpl in *.
      * naive_solver eauto using keys_snoc_lookup.
      * intros key. rewrite fmap_app, elem_of_app. simpl. rewrite list_elem_of_singleton.
        intros [Hin| -> ] He; [by apply Hb|by eauto].
  - split; [done|]. rewrite H2. by simpl; rewrite <- app_assoc.
Qed.

Context (area : BackupImportArea) (options : BackupImportOptions).
Context (current : list Value).
Local Abbreviation selected key := (item_is_selected options area key = true) (only parsing).

(** The rows so far, with the keys [added] after those of the current rows, when
    the items [seen] have been merged. *)
Record merged (seen : list Value) (added : list string) (state : MergeState) : Prop := {
  mg_keys : keys (ms_rows state) = keys current ++ added;
  mg_nodup : NoDup added;
  mg_added key : key ∈ added ↔ key ≠ "" ∧ selected key ∧ (key ∉ keys current) ∧ key ∈ keys seen;
  mg_indexed : indexed state;
  mg_rows i row : ms_rows state !! i = Some row →
    current !! i = Some row
    ∨ row ∈ seen ∧ selected (key_fn row)
      ∧ ((i < length current)%nat → conflict_decision options area (key_fn row) = Some ReplaceExisting);
}.

Lemma merged_kept seen added state state' value :
  merged seen added state → ms_rows state' = ms_rows state → ms_index state' = ms_index state →
  key_fn value = "" ∨ item_is_selected options area (key_fn value) = false ∨ key_fn value ∈ keys (ms_rows state) →
  merged (seen ++ [value]) added state'.
Proof.
  intros [Hk Hn Ha Hi Hr] E1 E2 Hv. split; [by rewrite E1|done| |by unfold indexed; rewrite E1, E2|].
  - intros key. rewrite Ha, fmap_app, elem_of_app. simpl. rewrite list_elem_of_singleton.
    split; [naive_solver|]. intros (H1 & H2 & H3 & [?| -> ]); [done|].
    destruct Hv as [?|[Hv|Hv]]; [done|congruence|].
    rewrite Hk, elem_of_app in Hv. destruct Hv as [?|Hv]; [done|]. by apply Ha in Hv.
  - intros i row. rewrite E1. intros Hrow. destruct (Hr _ _ Hrow) as [?|(? & ? & ?)]; [by left|].
    right. rewrite elem_of_app. naive_solver.
Qed.

Lemma merged_added seen added rows index r value r' :
  merged seen added (mkMerge rows index r) → key_fn value ≠ "" → index !! key_fn value = None →
  selected (key_fn value) →
  merged (seen ++ [value]) (added ++ [key_fn value])
    (mkMerge (rows ++ [value]) (<[key_fn value := length rows]> index) r').
Proof.
  intros [Hk Hn Ha Hi Hr] Hne Hnone Hs; simpl in *.
  assert (Hfresh : key_fn value ∉ keys rows).
  { intros Hin. destruct Hi as [_ Hi]. destruct (Hi _ Hin Hne). simpl in *. congruence. }
  rewrite Hk, not_elem_of_app in Hfresh. destruct Hfresh as [Hf1 Hf2]. split; simpl.
  - by rewrite fmap_app, Hk, <- app_assoc.
  - apply NoDup_app. split_and!; [done| |apply NoDup_singleton]. set_solver.
  - intros key. rewrite fmap_app, !elem_of_app, Ha. simpl. rewrite !list_elem_of_singleton. naive_solver.
  - exact (indexed_insert _ _ _ r Hne Hnone Hi).
  - intros i row. intros [Hrow|[Hlen Hrow]]%lookup_app_Some.
    + destruct (Hr _ _ Hrow) as [?|(? & ? & ?)]; [by left|]. right. rewrite elem_of_app. naive_solver.
    + apply list_lookup_singleton_Some in Hrow as [Hi0 <-]. right. rewrite elem_of_app, list_elem_of_singleton.
      split_and!; [by right|done|]. intros Hlt. exfalso.
      assert (length rows = length (keys current ++ added)) as El by (rewrite <- Hk; by rewrite length_fmap).
      rewrite length_app, length_fmap in El. lia.
Qed.

Lemma merged_replaced seen added rows index r value r' i :
  merged seen added (mkMerge rows index r) → index !! key_fn value = Some i →
  selected (key_fn value) → conflict_decision options area (key_fn value) = Some ReplaceExisting →
  merged (seen ++ [value]) added (mkMerge (<[i := value]> rows) index r').
Proof.
  intros Hm Hi Hs Hd. pose proof (proj1 (mg_indexed _ _ _ Hm) _ _ Hi) as [Hki Hne]. simpl in Hki.
  assert (Hkeys : keys (<[i := value]> rows) = keys rows) by (rewrite list_fmap_insert; by apply list_insert_id).
  assert (Hk : merged (seen ++ [value]) added (mkMerge rows index r')).
  { eapply merged_kept; [done..|]. simpl. right; right. by eapply list_elem_of_lookup_2. }
  destruct Hk as [Hk Hn Ha Hx Hr]; simpl in *. split; simpl; [by rewrite Hkeys|done..| |].
  - unfold indexed in *; simpl in *. by rewrite Hkeys.
  - intros j row Hrow. apply list_lookup_insert_Some in Hrow as [(-> & <- & _)|[_ Hrow]]; [|by apply Hr].
    right. rewrite elem_of_app, list_elem_of_singleton. naive_solver.
Qed.

Context (label_fn : Value → string).

Lemma merge_item_merged require seen added state value state' :
  merge_item key_fn label_fn area options require state value = Ok state' →
  merged seen added state → ∃ added', merged (seen ++ [value]) added' state'.
Proof.
  unfold merge_item. destruct (is_empty (key_fn value)) eqn:Ee.
  { intros [= <-] Hm. exists added. eapply merged_kept; [done..|]. left. by apply is_empty_spec. }
  assert (Hne : key_fn value ≠ "") by (intros E; by rewrite E in Ee). intros H Hm.
  destruct (ms_index state !! key_fn value) as [i|] eqn:Ei.
  - assert (Hin : key_fn value ∈ keys (ms_rows state))
      by (eapply list_elem_of_lookup_2; by apply (mg_indexed _ _ _ Hm)).
    destruct (negb _); [|destruct (item_is_selected options area (key_fn value)) eqn:Es; simpl in H].
    + injection H as <-. exists added. eapply merged_kept; [done..|]. by right; right.
    + destruct (conflict_decision _ _ _) as [[]|] eqn:Ed; [..|destruct require; [done|]]; injection H as <-;
        exists added; [|by eapply merged_kept; [done..|]; right; right..].
      destruct state. by eapply merged_replaced.
    + injection H as <-. exists added. eapply merged_kept; [done..|]. by right; right.
  - destruct (item_is_selected options area (key_fn value)) eqn:Es; injection H as <-.
    + exists (added ++ [key_fn value]). destruct state. by eapply merged_added.
    + exists added. eapply merged_kept; [done..|]. by right; left.
Qed.

Lemma merge_items_merged require values : ∀ seen added state state',
  merge_items key_fn label_fn area options require state values = Ok state' →
  merged seen added state → ∃ added', merged (seen ++ values) added' state'.
Proof.
  induction values as [|value values IH]; intros seen added state state'; simpl.
  { intros [= <-]. rewrite app_nil_r. eauto. }
  destruct (merge_item _ _ _ _ _ _ _) as [mid|] eqn:E; [|done]. simpl. intros H Hm.
  destruct (merge_item_merged _ _ _ _ _ _ E Hm) as [added' Hm'].
  destruct (IH _ _ _ _ H Hm') as [added'' ?]. exists added''. by rewrite <- app_assoc in *.
Qed.
End kept.

(** C23. Merging the items of a backup into the current ones keeps every key in its
    place and adds the keys, once each, of the selected items that are not there;
    a row differs from the current one only where the import chose to replace it by
    a selected item of the backup with the same key. *)
Theorem merge_keeps_and_adds key_fn label_fn area options require_conflict_decisions current incoming rows report :
  merge_array_by_key key_fn label_fn area options require_conflict_decisions current incoming = Ok (rows, report) →
  ∃ added,
    key_fn <$> rows = (key_fn <$> json_array current) ++ added
    ∧ NoDup added
    ∧ (∀ key, key ∈ added ↔
         key ≠ "" ∧ item_is_selected options area key = true
         ∧ (key ∉ key_fn <$> json_array current) ∧ key ∈ key_fn <$> json_array incoming)
    ∧ (∀ i row, rows !! i = Some row →
         json_array current !! i = Some row
         ∨ row ∈ json_array incoming ∧ item_is_selected options area (key_fn row) = true
           ∧ ((i < length (json_array current))%nat →
                conflict_decision options area (key_fn row) = Some ReplaceExisting)).
Proof.
  unfold merge_array_by_key. destruct (merge_items _ _ _ _ _ _ _) as [state|] eqn:E; [|done]. intros [= <- <-].
  destruct (index_current_indexed key_fn (json_array current) (mkMerge [] ∅ item_report_default)) as [Hi Hrows].
  { split; simpl; [set_solver|]. intros key Hk. by apply elem_of_nil in Hk. }
  destruct (merge_items_merged key_fn area options (json_array current) label_fn _ _ [] [] _ _ E) as [added Hm].
  { split; simpl in *; [by rewrite Hrows, app_nil_r|apply NoDup_nil_2| |done|rewrite Hrows; by left].
    intros key. rewrite !elem_of_nil. naive_solver. }
  exists added. destruct Hm as [Hk Hn Ha _ Hr]. by split_and!.
Qed.
