(* ===== verification/BackupTheorems.v ===== *)
(** * What a backup and its restoration promise

    A restoration writes the plan that the current files give, all of it or
    nothing, whatever fails and however often the power is lost; and what an export
    puts into a backup, plain or encrypted, is what a restoration with the same
    wallet finds in it. *)

From S2P Require Import Prelude Json Bytes CatalogModel ImportOptions SortedRecords LocalState DiskLogic.
From S2P Require Import LocalStateTheorems LocalStateAtomic LocalStateLive ChannelConfig ChannelStore.
From S2P Require Import BackupPlan SettingsBackup.
Open Scope Z_scope.

(** ** What a plan applies is what it writes *)
Section plan.
Context `{UnicodeLowercase} `{SerdeJson} `{UrlCrate} `{HexCrate} `{Sha2Crate} `{HostFiles} `{SerdeJsonBytes}.

Lemma transpose_some {A B} (f : A → Result B) o r : transpose f o = Ok r → is_Some r ↔ is_Some o.
Proof. destruct o as [a|]; simpl; [destruct (f a)|]; intros [= <-]; unfold is_Some; naive_solver. Qed.

Lemma some_iff {A} (a : A) (P : Prop) : P → is_Some (Some a) ↔ P.
Proof. split; [done|by eexists]. Qed.
Lemma none_iff {A} (P : Prop) : ¬ P → is_Some (@None A) ↔ P.
Proof. split; [by intros [? ?]|done]. Qed.

Lemma planned_settings_some options require backup current plan :
  planned_settings_state options require backup current = Ok plan →
  is_Some (pl_state plan) ↔
  is_Some backup ∧ (is_selected (options_mode options AreaSettings) = true
                    ∨ is_selected (options_mode options AreaFavorites) = true).
Proof.
  unfold planned_settings_state. destruct backup as [backup|].
  2:{ intros [= <-]. apply none_iff. by intros [[? ?] _]. }
  assert (Hb : is_Some (Some backup)) by (by eexists).
  destruct (options_mode options AreaFavorites).
  - destruct (options_mode options AreaSettings); case_decide; try done; intros [= <-];
      apply some_iff; auto.
  - destruct (merge_array_by_key _ _ _ _ _ _ _) as [[rows report]|]; [|done]. intros [= <-]. apply some_iff; auto.
  - destruct (transpose _ _) as [target|] eqn:Et; [|done]. intros [= <-]. cbn [pl_state].
    rewrite (transpose_some _ _ _ Et).
    destruct (options_mode options AreaSettings); [apply some_iff; auto..|apply none_iff; naive_solver].
Qed.

Lemma planned_idl_some options require backup current plan :
  planned_idl_state options require backup current = Ok plan →
  is_Some (pl_state plan) → is_selected (options_mode options AreaIdlRegistry) = true.
Proof.
  unfold planned_idl_state. destruct backup as [backup|]; [|intros [= <-]; simpl; by intros [? ?]].
  destruct (options_mode options AreaIdlRegistry); [done..|]. intros [= <-]. by intros [? ?].
Qed.

Lemma plan_writes_nothing plan :
  write_set_is_empty (plan_writes plan) = true
  ↔ ¬ is_Some (ip_settings plan) ∧ ¬ is_Some (ip_idl plan) ∧ ¬ is_Some (ip_wallet plan).
Proof.
  unfold write_set_is_empty, plan_writes. rewrite !andb_true_iff, !bool_decide_eq_true, <- !eq_None_not_Some. simpl.
  rewrite !fmap_None. tauto.
Qed.

Lemma applied_areas_nil selection a b c d :
  applied_areas selection a b c d = []
  ↔ a && is_selected (bs_settings selection) = false ∧ b && is_selected (bs_favorites selection) = false
    ∧ c && is_selected (bs_idl_registry selection) = false ∧ d && is_selected (bs_wallet_profile selection) = false.
Proof.
  unfold applied_areas; simpl. destruct (a && _), (b && _), (c && _), (d && _); simpl; split;
    try (by intros (? & ? & ? & ?)); done.
Qed.

Lemma present_selected {A} (o : option A) b :
  bool_decide (is_Some o) && b = false ↔ ¬ (is_Some o ∧ b = true).
Proof. rewrite andb_false_iff, bool_decide_eq_false. destruct b; naive_solver. Qed.

Lemma wallet_selected mode (wallet : option Value) :
  is_Some (if decide (mode = ModeSkip) then None else wallet) → is_selected mode = true.
Proof. case_decide; intros Hw; [by destruct Hw|by destruct mode]. Qed.

Lemma plan_applies_what_it_writes state options require current_settings current_idl plan :
  build_import_plan_with_current state options require current_settings current_idl = Ok plan →
  write_set_is_empty (plan_writes plan) = bool_decide (ip_applied_areas plan = []).
Proof.
  unfold build_import_plan_with_current.
  destruct (planned_settings_state _ _ _ _) as [ps|] eqn:Es; [|done].
  destruct (planned_idl_state _ _ _ _) as [pi|] eqn:Ei; [|done]. cbn [mbind Result_bind].
  destruct (transpose _ _) as [settings|] eqn:Et; [|done]. intros [= <-].
  apply transpose_some in Et. apply planned_settings_some in Es. pose proof (planned_idl_some _ _ _ _ _ Ei) as Hi.
  pose proof (wallet_selected (bs_wallet_profile (bo_selection options)) (re_wallet state)) as Hw.
  unfold options_mode in *; simpl in *.
  apply eq_true_iff_eq. rewrite plan_writes_nothing, bool_decide_eq_true, applied_areas_nil, !present_selected. simpl.
  rewrite <- !andb_assoc, !present_selected, !andb_diag. rewrite Et, Es. clear -Hi Hw.
  destruct (is_selected (bs_settings _)), (is_selected (bs_favorites _)); naive_solver.
Qed.
End plan.

(** ** Restoration *)
Section restore.
Context `{UnicodeLowercase} `{SerdeJson} `{UrlCrate} `{LocalStateLaws} `{HostFiles}.
#[local] Set Default Proof Using "Type*".

Definition read_node {A} (parse : StoredBytes → Result A) (message : string) (node : Node) : Result A :=
  stored ← ok_or message (node_stored node); context message (parse stored).
Definition when {A} (wanted : bool) (r : Result A) : Result (option A) :=
  if wanted then a ← r; Ok (Some a) else Ok None.

(** The plan of an import from the contents of the files. *)
Definition planned_import (files : StateFile → Node) (state : RestoredState) (options : BackupImportOptions)
    : Result ImportPlan :=
  let requirements := current_state_requirements state options in
  validate_selected_import_state state options ;;
  settings ← when (cr_settings requirements)
               (read_node settings_state_from_stored "failed to load current settings for backup import" (files FileSettings));
  idl ← when (cr_idl requirements)
          (read_node idl_state_from_stored "failed to load current IDL state for backup import" (files FileIdl));
  build_import_plan_with_current state options true settings idl.

Section files.
Context (old : StateFile → Node).
Context (Hold : ∀ file, plain_node (old file)) (Hbytes : ∀ v, is_bytes (to_vec_pretty v)).

Lemma plan_writes_bytes plan : writes_bytes (plan_writes plan).
Proof.
  intros file bytes. destruct plan as [s i w ? ?]. unfold plan_writes.
  destruct file; simpl; [destruct s|destruct i|destruct w]; simpl; intros [= <-]; apply Hbytes.
Qed.

Section run.
Context `{env : Environment} (state : RestoredState) (options : BackupImportOptions).

Definition restore_done (receipt : SettingsBackupRestoreReceipt) (d : Disk) : Prop :=
  ∃ plan, planned_import old state options = Ok plan ∧ settled (written (plan_writes plan) old) d
    ∧ rr_applied_areas receipt = ip_applied_areas plan ∧ ip_summary plan = VObject (rr_summary receipt)
    ∧ (rr_commit receipt = BackupNoOp ↔ ip_applied_areas plan = []).
Definition restore_failed (e : StateError) (d : Disk) : Prop :=
  settled old d ∨ ∃ plan, planned_import old state options = Ok plan ∧ session_failed old (plan_writes plan) e d.

Lemma settled_node v d file : settled v d → disk_node d (TargetName file) = v file.
Proof. intros (_ & Ht & _). specialize (Ht file). unfold disk_node. by inversion Ht. Qed.

Lemma stored_value_spec {A} (parse : StoredBytes → Result A) file message d (Q : A → Disk → Prop) E :
  settled old d → (∀ a, read_node parse message (old file) = Ok a → Q a d) → (∀ e, E e d) →
  dwp (stored ← read_file file; io_context message (io_lift (parse stored))) Q E d.
Proof.
  intros Hd HQ HE. apply dwp_bind, dwp_read_file; [|done]. intros stored. rewrite (settled_node _ _ _ Hd). intros Hs.
  apply dwp_map_error, dwp_lift; [|by eauto]. intros a Ha. apply HQ. unfold read_node. rewrite Hs. simpl. by rewrite Ha.
Qed.

Lemma io_when_spec {A} (wanted : bool) (m : IO A) (r : Result A) (Q : option A → Disk → Prop) E d :
  (∀ Q', (∀ a, r = Ok a → Q' a d) → dwp m Q' E d) →
  (∀ o, when wanted r = Ok o → Q o d) → dwp (io_when wanted m) Q E d.
Proof.
  intros Hm HQ. unfold io_when. destruct wanted; [|by apply dwp_ret, HQ].
  apply dwp_bind, Hm. intros a Ha. apply dwp_ret, HQ. simpl. by rewrite Ha.
Qed.

Lemma current_import_spec d (Q : option Value * option Value → Disk → Prop) E :
  settled old d →
  (∀ settings idl,
     when (cr_settings (current_state_requirements state options))
       (read_node settings_state_from_stored "failed to load current settings for backup import" (old FileSettings))
     = Ok settings →
     when (cr_idl (current_state_requirements state options))
       (read_node idl_state_from_stored "failed to load current IDL state for backup import" (old FileIdl)) = Ok idl →
     Q (settings, idl) d) →
  (∀ e, E e d) → dwp (current_import_state state options) Q E d.
Proof.
  intros Hd HQ HE. apply dwp_bind. eapply io_when_spec; [intros Q' HQ'; by apply stored_value_spec|].
  intros settings Hs. apply dwp_bind. eapply io_when_spec; [intros Q' HQ'; by apply stored_value_spec|].
  intros idl Hi. by apply dwp_ret, HQ.
Qed.

Lemma nothing_written plan : write_set_is_empty (plan_writes plan) = true → ∀ file, written (plan_writes plan) old file = old file.
Proof.
  unfold write_set_is_empty. intros Hw file. unfold written.
  destruct (plan_writes plan) as [s i w]. simpl in Hw.
  repeat (apply andb_true_iff in Hw as [Hw ?]). repeat case_bool_decide; simplify_eq/=; by destruct file.
Qed.

Lemma restore_spec d :
  settled old d → dwp (restore_app_settings_backup_in_dir state options) restore_done restore_failed d.
Proof using All.
  intros Hd. assert (HE : ∀ d' e, settled old d' → restore_failed e d') by (by left).
  apply dwp_bind, dwp_lift; [|by auto]. intros [] Hv. apply dwp_bind.
  eapply dwp_mono; [by apply (recover_settled old)| |by auto]. intros u d' Hd'.
  apply dwp_bind, dwp_map_error, current_import_spec; [done| |by auto]. intros settings idl Hs Hi.
  apply dwp_bind, dwp_lift; [|by auto]. intros plan Hp.
  assert (Hplan : planned_import old state options = Ok plan).
  { unfold planned_import. by rewrite Hv, Ok_bind, Hs, Ok_bind, Hi, Ok_bind. }
  apply dwp_bind, dwp_lift; [|by auto]. intros summary Hsum.
  assert (Hobj : ip_summary plan = VObject summary) by (destruct (ip_summary plan); by simplify_eq/=).
  pose proof (plan_applies_what_it_writes _ _ _ _ _ _ Hp) as Hw. apply dwp_bind.
  destruct (write_set_is_empty _) eqn:Ew; symmetry in Hw.
  - apply bool_decide_eq_true in Hw. rewrite Hw. apply dwp_ret, dwp_ret. exists plan. simpl. rewrite Hw.
    split_and!; [done| |done..]. destruct Hd' as (? & Ht & ?). split_and!; [done| |done].
    intros file. rewrite nothing_written by done. apply Ht.
  - apply bool_decide_eq_false in Hw. destruct (ip_applied_areas plan) as [|area areas] eqn:Ea; [done|].
    apply dwp_bind. eapply dwp_mono.
    + apply (local_state_commit_spec old (plan_writes plan) Hold (plan_writes_bytes plan) d' Hd').
    + intros report d'' Hd''. apply dwp_ret, dwp_ret. exists plan. simpl. rewrite Ea. by split_and!.
    + intros e d'' He. right. by exists plan.
Qed.
End run.
End files.

(** What a failed restoration leaves for the restarts. *)
Lemma restore_failed_awaits old state options e d :
  restore_failed old state options e d →
  settled old d
  ∨ ∃ plan, planned_import old state options = Ok plan ∧ awaits_recovery old (written (plan_writes plan) old) d
            ∧ ∃ transaction_id phase, e = TransactionError transaction_id FailureRecoveryRequired phase.
Proof.
  intros [Hs|(plan & Hp & [Hs|(tid & phase & journal & -> & Hd & Hr)])]; [by left..|].
  right. exists plan. split_and!; [done|by exists journal|by eauto].
Qed.

(** C17. A backup is restored atomically.  The restoration of a backup reads the
    current files, plans and commits, while any system call may fail and a
    cancellation may arrive; then processes restart after losses of power until one
    of them acquires the local state.  If the contents of the files give no plan,
    the restoration failed and the files are as they were.  If they give one, the
    files are as they were or as the plan says; as the plan says, with its summary
    and its areas reported, when the restoration succeeded, and as they were when it
    failed without asking for a recovery. *)
Theorem restore_atomic_across_restarts (env env' : Environment) old state options s0 r s1 d s2 s3 :
  (∀ file, plain_node (old file)) → (∀ v, is_bytes (to_vec_pretty v)) → settled old (ls_disk s0) →
  restore_app_settings_backup_in_dir (env := env) state options s0 = (r, s1) →
  restarts (ls_disk s1) d → restarted env' d s2 (ROk ()) s3 →
  match planned_import old state options with
  | Ok plan =>
      let new := written (plan_writes plan) old in
      (settled old (ls_disk s3) ∨ settled new (ls_disk s3))
      ∧ match r with
        | ROk receipt =>
            settled new (ls_disk s3) ∧ rr_applied_areas receipt = ip_applied_areas plan
            ∧ ip_summary plan = VObject (rr_summary receipt)
            ∧ (rr_commit receipt = BackupNoOp ↔ ip_applied_areas plan = [])
        | RErr (TransactionError _ FailureRecoveryRequired _) => True
        | RErr _ => settled old (ls_disk s3)
        end
  | Err _ => settled old (ls_disk s3) ∧ ∃ e, r = RErr e
  end.
Proof.
  intros Hold Hbytes Hd Hr Hrs Hlast.
  assert (Hkeep : ∀ v, settled v (ls_disk s1) → settled v (ls_disk s3))
    by (intros v Hv; by eapply restart_settled, restarts_settled).
  pose proof (dwp_run _ _ _ _ _ _ (restore_spec old Hold Hbytes (env := env) state options _ Hd) Hr) as Hq.
  destruct r as [receipt|e].
  { destruct Hq as (plan & -> & Hset & ? & ? & ?). apply Hkeep in Hset. simpl. by split; [right|]. }
  apply restore_failed_awaits in Hq as [Hset|(plan & -> & Hawait & tid & phase & ->)].
  { apply Hkeep in Hset. destruct (planned_import _ _ _); [|by eauto].
    split; [by left|]. by destruct e as [? [] ?|]. }
  split; [|done]. destruct (restarts_await _ _ _ _ Hrs (or_introl Hawait)) as [Ha|[Ha|Ha]].
  - apply (restart_recovers _ _ _ _ _ _ _ Hlast Ha).
  - left. by eapply restart_settled.
  - right. by eapply restart_settled.
Qed.
End restore.

(** ** Restorations that nothing disturbs *)
Section total.
Context `{UnicodeLowercase} `{SerdeJson} `{UrlCrate} `{LocalStateLaws} `{HostFiles} `{env : Environment}.
Context (Hworks : ∀ n, io_answer n = IoWorks) (Hquiet : ∀ n, close_requested n = false).
Context (old : StateFile → Node).
Context (Hold : ∀ file, plain_node (old file)) (Hbytes : ∀ v, is_bytes (to_vec_pretty v)).
#[local] Set Default Proof Using "All".

Lemma stored_value_total {A} (parse : StoredBytes → Result A) file message a (Q : A → Disk → CommitCancellation → Prop) d c :
  settled old d → read_node parse message (old file) = Ok a → Q a d c →
  twp (stored ← read_file file; io_context message (io_lift (parse stored))) Q d c.
Proof.
  intros Hd Hr HQ. unfold read_node in Hr. destruct (node_stored (old file)) as [stored|] eqn:Hs; [|done].
  cbn [ok_or] in Hr. rewrite Ok_bind in Hr. apply twp_bind, (twp_read_file Hworks _ stored).
  { by rewrite (settled_node old). }
  apply twp_map_error, (twp_lift _ a); [|done]. by destruct (parse stored).
Qed.

Lemma io_when_total {A} (wanted : bool) (m : IO A) r o (Q : option A → Disk → CommitCancellation → Prop) d c :
  when wanted r = Ok o → (∀ a Q', r = Ok a → Q' a d c → twp m Q' d c) → Q o d c → twp (io_when wanted m) Q d c.
Proof.
  unfold when, io_when. destruct wanted; [|intros [= <-] _ HQ; by apply twp_ret].
  destruct r as [a|]; [|done]. intros [= <-] Hm HQ. apply twp_bind, (Hm a); [done|]. by apply twp_ret.
Qed.

Lemma restore_total state options plan d :
  planned_import old state options = Ok plan →
  (∀ n, is_bytes (random_bytes n) ∧ zlen (random_bytes n) = TRANSACTION_ID_BYTES) → settled old d →
  twp (restore_app_settings_backup_in_dir state options) (λ _ _ _, True) d CancellationOpen.
Proof.
  unfold planned_import. intros Hp Hrandom Hd.
  destruct (validate_selected_import_state state options) as [[]|] eqn:Hv; [|done]. rewrite Ok_bind in Hp.
  destruct (when (cr_settings _) _) as [settings|] eqn:Hs; [|done]. rewrite Ok_bind in Hp.
  destruct (when (cr_idl _) _) as [idl|] eqn:Hi; [|done]. rewrite Ok_bind in Hp.
  apply twp_bind, (twp_lift _ ()); [done|]. apply twp_bind, (acquire_settled_total Hworks old); [done|]. intros d' Hd'.
  apply twp_bind, twp_map_error, twp_bind, (io_when_total _ _ _ _ _ _ _ Hs).
  { intros a Q' Ha HQ'. by eapply stored_value_total. }
  apply twp_bind, (io_when_total _ _ _ _ _ _ _ Hi); [intros a Q' Ha HQ'; by eapply stored_value_total|].
  apply twp_ret. apply twp_bind, (twp_lift _ plan); [done|].
  pose proof (plan_applies_what_it_writes _ _ _ _ _ _ Hp) as Hw.
  assert (Hobj : ∃ summary, as_object (ip_summary plan) = Some summary).
  { unfold build_import_plan_with_current in Hp.
    destruct (planned_settings_state _ _ _ _); [|done]. destruct (planned_idl_state _ _ _ _); [|done]. simpl in Hp.
    destruct (transpose _ _); [|done]. simpl in Hp. injection Hp as <-. simpl. eauto. }
  destruct Hobj as [summary Hobj]. apply twp_bind, (twp_lift _ summary); [by rewrite Hobj|]. apply twp_bind.
  destruct (write_set_is_empty _) eqn:Ew; symmetry in Hw.
  - apply bool_decide_eq_true in Hw. rewrite Hw. by apply twp_ret, twp_ret.
  - apply bool_decide_eq_false in Hw. destruct (ip_applied_areas plan) as [|area areas]; [done|].
    apply twp_bind. eapply twp_mono; [apply (local_state_commit_total Hworks Hquiet old); try done|].
    + by apply plan_writes_bytes.
    + intros Hn. revert Ew. destruct plan as [[?|] [?|] [?|] ? ?]; done.
    + intros report d'' c' _. by apply twp_ret, twp_ret.
Qed.

(** C18. A restoration that nothing disturbs applies its plan.  On a directory that
    is settled and open to the process, when every call of the system works, nobody
    asks to cancel and the random bytes have their length, and the contents of the
    files give a plan, the restoration succeeds, reports the plan and leaves the
    files durably as the plan says; it is a commit exactly when some area is
    applied. *)
Theorem undisturbed_restore_applies_plan state options plan s :
  planned_import old state options = Ok plan →
  (∀ n, is_bytes (random_bytes n) ∧ zlen (random_bytes n) = TRANSACTION_ID_BYTES) →
  settled old (ls_disk s) → ls_gated s = false → ls_cancellation s = CancellationOpen →
  ∃ receipt s', restore_app_settings_backup_in_dir state options s = (ROk receipt, s')
    ∧ settled (written (plan_writes plan) old) (ls_disk s')
    ∧ rr_applied_areas receipt = ip_applied_areas plan ∧ ip_summary plan = VObject (rr_summary receipt)
    ∧ (rr_commit receipt = BackupNoOp ↔ ip_applied_areas plan = []).
Proof.
  intros Hp Hrandom Hd Hg Hc.
  destruct (twp_run (restore_app_settings_backup_in_dir state options) (λ _ _ _, True) s) as (receipt & s' & Hrun & _);
    [rewrite Hc; by eapply restore_total|done|].
  exists receipt, s'. split; [done|].
  destruct (dwp_run _ _ _ _ _ _ (restore_spec old Hold Hbytes state options _ Hd) Hrun) as (plan' & Hp' & Hpost).
  rewrite Hp in Hp'. by injection Hp' as <-.
Qed.
End total.

(** ** Objects of plain JSON *)
Definition plain_entry (entry : string * Value) : Prop := ascii_text entry.1 = true ∧ json_plain entry.2 = true.

Lemma keys_sorted_strongly keys : keys_sorted keys = true ↔ StronglySorted str_lt keys.
Proof.
  split.
  - intros H. apply Sorted_StronglySorted; [apply _|]. induction keys as [|k keys IH]; [constructor|].
    destruct keys as [|k' keys]; [by repeat constructor|]. simpl in H.
    destruct (String.compare k k') eqn:E; try done. constructor; [by apply IH|by constructor].
  - induction 1 as [|k keys _ IH Hall]; [done|]. destruct keys as [|k' keys]; [done|].
    simpl. apply Forall_cons in Hall as [Hlt _]. unfold str_lt in Hlt. by rewrite Hlt.
Qed.

Lemma plain_object m : json_plain (VObject m) = true ↔ StronglySorted str_lt (map fst m) ∧ Forall plain_entry m.
Proof.
  simpl. rewrite andb_true_iff, keys_sorted_strongly, forallb_forall, Forall_forall. f_equiv.
  split; intros H [k v] Hin; specialize (H (k, v)); rewrite ?list_elem_of_In in *.
  - apply andb_true_iff. by apply H.
  - by apply andb_true_iff, H.
Qed.

Lemma map_insert_keys k v m k' : k' ∈ map fst (map_insert k v m) → k' = k ∨ k' ∈ map fst m.
Proof.
  induction m as [|[k0 v0] m IH]; simpl; [set_solver|]. destruct (String.compare k k0); simpl; set_solver.
Qed.

Lemma plain_insert k v m :
  ascii_text k = true → json_plain v = true → json_plain (VObject m) = true →
  json_plain (VObject (map_insert k v m)) = true.
Proof.
  rewrite !plain_object. intros Hk Hv [Hs Hf]. split.
  - induction m as [|[k' v'] m IH]; simpl; [by repeat constructor|].
    apply StronglySorted_inv in Hs as [Hs Hall]. apply Forall_cons in Hf as [_ Hf]. simpl in Hall.
    destruct (String.compare k k') eqn:E; simpl.
    + apply String.compare_eq_iff in E as ->. by constructor.
    + constructor; [by constructor|]. constructor; [done|]. eapply Forall_impl; [done|].
      intros k'' Hlt. by transitivity k'.
    + constructor; [by apply IH|]. rewrite Forall_forall in *. intros k'' Hin.
      apply map_insert_keys in Hin as [->|Hin]; [by apply str_compare_gt|by apply Hall].
  - clear Hs. induction Hf as [|[k' v'] m Hd Hf IH]; simpl; [by repeat constructor|].
    assert (plain_entry (k, v)) by done. destruct (String.compare k k'); auto.
Qed.

Lemma plain_remove k m : json_plain (VObject m) = true → json_plain (VObject (map_remove k m)) = true.
Proof.
  rewrite !plain_object. intros [Hs Hf]. induction m as [|[k' v'] m IH]; simpl; [done|].
  apply StronglySorted_inv in Hs as [Hs Hall]. apply Forall_cons in Hf as [Hd Hf].
  destruct (String.eqb k k'); [done|]. destruct (IH Hs Hf) as [Hs' Hf']. split; simpl; constructor; try done.
  clear -Hall. induction m as [|[k'' v''] m IH]; simpl in *; [done|]. apply Forall_cons in Hall as [? ?].
  destruct (String.eqb k k''); [done|]. constructor; [done|by apply IH].
Qed.

Lemma plain_get k m v : json_plain (VObject m) = true → map_get k m = Some v → json_plain v = true.
Proof.
  rewrite plain_object. intros [_ Hf]. induction Hf as [|[k' v'] m [_ Hv] Hf IH]; simpl; [done|].
  destruct (String.eqb k k'); [by intros [= <-]|done].
Qed.

(** A state an export can hold: ASCII texts, no negative or floating-point number,
    and nested so little that the payload with the state in it can be read. *)
Definition plain_option (o : option Value) : Prop :=
  from_option (λ v, json_plain v = true ∧ (json_depth v ≤ JSON_DEPTH_LIMIT - 2)%nat) True o.

Lemma depth_insert k v m n :
  (json_depth v ≤ n)%nat → (json_depth (VObject m) ≤ S n)%nat → (json_depth (VObject (map_insert k v m)) ≤ S n)%nat.
Proof.
  rewrite !depth_object. intros Hv. induction 1 as [|[k' v'] m Hd Hf IH]; simpl; [by repeat constructor|].
  destruct (String.compare k k'); by repeat constructor.
Qed.

Lemma depth_remove k m n :
  (json_depth (VObject m) ≤ S n)%nat → (json_depth (VObject (map_remove k m)) ≤ S n)%nat.
Proof.
  rewrite !depth_object. induction 1 as [|[k' v'] m Hd Hf IH]; simpl; [done|]. destruct (String.eqb k k'); [done|].
  by constructor.
Qed.

Lemma depth_get k m v n : (json_depth (VObject m) ≤ S n)%nat → map_get k m = Some v → (json_depth v ≤ n)%nat.
Proof.
  rewrite depth_object. induction 1 as [|[k' v'] m Hv Hf IH]; simpl; [done|].
  destruct (String.eqb k k'); [by intros [= <-]|done].
Qed.

Lemma selected_settings_plain settings contents :
  plain_option settings → plain_option (selected_settings_state settings contents).
Proof.
  intros Hs. unfold selected_settings_state. destruct (negb _ && negb _); [done|].
  set (source := default (VObject []) settings).
  assert (Hsource : json_plain source = true ∧ (json_depth source ≤ S 124)%nat).
  { destruct settings; [exact Hs|]. split; [reflexivity|simpl; lia]. }
  set (selected := if bc_settings contents then default [] (as_object source) else []).
  assert (Hsel : json_plain (VObject selected) = true ∧ (json_depth (VObject selected) ≤ S 124)%nat).
  { subst selected; destruct (bc_settings contents), source; (exact Hsource || (split; [reflexivity|simpl; lia])). }
  destruct Hsource as [Hsource Hdepth], Hsel as [Hsel Hsdepth].
  change (JSON_DEPTH_LIMIT - 2)%nat with (S 124). destruct (bc_favorites contents); cbn [from_option plain_option].
  - unfold set_object_field. set (favorites := default (VArray []) (value_get "favorites" source)).
    assert (Hf : json_plain favorites = true ∧ (json_depth favorites ≤ 124)%nat).
    { subst favorites. destruct source as [| | | | |m]; try (split; [reflexivity|simpl; lia]).
      simpl. destruct (map_get "favorites" m) as [v|] eqn:E; [|split; [reflexivity|simpl; lia]].
      split; [exact (plain_get _ _ _ Hsource E)|exact (depth_get _ _ _ _ Hdepth E)]. }
    destruct Hf. split; [by apply plain_insert|by apply depth_insert].
  - split; [by apply plain_remove|by apply depth_remove].
Qed.

Lemma backup_state_plain settings idl wallet :
  plain_option settings → plain_option idl → plain_option wallet →
  json_plain (backup_state_value settings idl wallet) = true
  ∧ (json_depth (backup_state_value settings idl wallet) ≤ JSON_DEPTH_LIMIT - 1)%nat.
Proof.
  intros Hs Hi Hw. unfold backup_state_value. change (JSON_DEPTH_LIMIT - 1)%nat with (S (JSON_DEPTH_LIMIT - 2)).
  destruct settings, idl, wallet; simpl in Hs, Hi, Hw; (split;
    [repeat (apply plain_insert; [apply Hs || apply Hi || apply Hw || done..|]); done
    |repeat (apply depth_insert; [apply Hs || apply Hi || apply Hw|]); simpl; lia]).
Qed.

Lemma plain_payload_plain now state :
  ascii_text now = true → json_plain state = true → (json_depth state ≤ JSON_DEPTH_LIMIT - 1)%nat →
  json_readable (plain_payload (VString now) state).
Proof.
  intros Hn Hs Hd. unfold plain_payload, json_object. cbn [foldl fst snd]. split.
  - repeat (apply plain_insert; [done..|]). done.
  - change JSON_DEPTH_LIMIT with (S (JSON_DEPTH_LIMIT - 1)).
    repeat (apply depth_insert; [done || (simpl; lia)|]). simpl. lia.
Qed.

(** ** What the packages promise *)
Class BackupLaws `{BackupCrates} `{BackupHost} `{SerdeJson} `{SerdeJsonBytes} : Prop := {
  aead_opens key nonce aad message ciphertext :
    aead_encrypt key nonce aad message = Some ciphertext → aead_decrypt key nonce aad ciphertext = Some message;
  aead_tagged key nonce aad message ciphertext :
    is_bytes message → aead_encrypt key nonce aad message = Some ciphertext →
    is_bytes ciphertext ∧ zlen ciphertext = zlen message + ENCRYPTION_TAG_BYTES;
  random_filled step length : is_bytes (random_fill step length) ∧ zlen (random_fill step length) = Z.of_nat length;
  to_vec_read v : json_readable v → from_slice (as_bytes (to_string v)) = Some v;
  unix_time_digits step : ascii_text (unix_time_text step) = true;
}.

Section export.
Context `{LocalStateLaws} `{BackupHost} `{HostFiles} `{BackupCrates} `{UnicodeLowercase} `{SerdeJson} `{UrlCrate}.
Context `{!BackupLaws} `{env : Environment}.
#[local] Set Default Proof Using "Type*".

Definition restored_from (settings idl wallet : option Value) (encrypted : bool) : RestoredState :=
  let present (o : option Value) := bool_decide (is_Some o) in
  mkRestored settings idl wallet
    (mkRestoreSummary (present settings) (present idl) (present wallet)
       (default 0%nat (array_count "favorites" settings)) (default 0%nat (array_count "idls" idl)) encrypted).

Definition something (settings idl wallet : option Value) : Prop :=
  is_Some settings ∨ is_Some idl ∨ is_Some wallet.

Lemma plain_payload_state now settings idl wallet :
  something settings idl wallet →
  let payload := plain_payload now (backup_state_value settings idl wallet) in
  ∃ state, validate_backup_identity payload = Ok () ∧ restorable_backup_state payload = Ok state
    ∧ map_get "settings" state = settings ∧ get_first ["idls"; "idl"] state = idl ∧ map_get "wallet" state = wallet.
Proof.
  intros Hsome. destruct settings as [settings|], idl as [idl|], wallet as [wallet|];
    [eexists; split_and!; reflexivity..|]. by destruct Hsome as [[? ?]|[[? ?]|[? ?]]].
Qed.

Lemma encrypted_material now salt nonce ciphertext :
  is_bytes salt → is_bytes nonce → is_bytes ciphertext →
  zlen salt = 16 → zlen nonce = 24 → ENCRYPTION_TAG_BYTES ≤ zlen ciphertext →
  encrypted_backup_material (encrypted_payload now salt nonce ciphertext) = Ok (salt, nonce, ciphertext).
Proof.
  intros Hs Hn Hc Ls Ln Lc. unfold encrypted_backup_material.
  change (value_get "encryption" (encrypted_payload now salt nonce ciphertext) ≫= as_object) with
    (Some (default [] (as_object (json_object [("scheme", VString ENCRYPTION_SCHEME);
                                           ("salt", VString (base64_encode salt));
                                           ("nonce", VString (base64_encode nonce));
                                           ("key_source", VString "wallet_config")])))).
  change (value_get "ciphertext" (encrypted_payload now salt nonce ciphertext) ≫= as_str) with
    (Some (base64_encode ciphertext)).
  unfold decode_fixed_base64. simpl. rewrite (base64_roundtrip salt) by done. simpl. rewrite Ls. simpl.
  rewrite (base64_roundtrip nonce) by done. simpl. rewrite Ln. simpl.
  rewrite (base64_roundtrip ciphertext) by done. simpl. by rewrite (proj2 (Z.ltb_ge _ _) Lc).
Qed.

Lemma io_bind_ok {A B} (m : IO A) (k : A → IO B) s b s' :
  (m ≫= k) s = (ROk b, s') → ∃ a s1, m s = (ROk a, s1) ∧ k a s1 = (ROk b, s').
Proof. unfold mbind, IO_bind. destruct (m s) as [[a|e] s1]; [by eauto|done]. Qed.

Lemma io_lift_ok {A} (r : Result A) s a s' : io_lift r s = (ROk a, s') → r = Ok a ∧ s' = s.
Proof. unfold io_lift. destruct r; by intros [= <- <-]. Qed.

Lemma fill_random_ok length message s bytes s' :
  fill_random length message s = (ROk bytes, s') → is_bytes bytes ∧ zlen bytes = Z.of_nat length.
Proof.
  intros (u & s1 & _ & Hk)%io_bind_ok. apply io_bind_ok in Hk as (s2 & s3 & _ & Hk).
  injection Hk as <- <-. apply random_filled.
Qed.

Lemma something_selected {A} (settings idl wallet : option Value) message (body : IO A) s a s' :
  (match settings, idl, wallet with None, None, None => io_bail message | _, _, _ => body end) s = (ROk a, s') →
  something settings idl wallet ∧ body s = (ROk a, s').
Proof.
  unfold something, is_Some. destruct settings, idl, wallet; try (intros Hb; split; [by eauto|exact Hb]). done.
Qed.

(** C24. What is exported can be restored: the payload that an export makes of the
    states, plain or encrypted, is accepted as the envelope of a backup, and the
    restoration with the same wallet finds in it exactly the states that were
    selected.  The states are JSON with ASCII texts, without negative and
    floating-point numbers, and nest at most 125 arrays and objects, which are 127
    in the payload: the most that [serde_json] reads back. *)
Theorem exported_backup_restores settings idl wallet encrypted wallet_profile contents s payload s' :
  plain_option settings → plain_option idl → plain_option wallet →
  backup_payload_from_optional_states settings idl wallet encrypted wallet_profile contents s = (ROk payload, s') →
  validate_app_settings_backup_envelope payload = Ok ()
  ∧ restored_state_from_payload payload wallet_profile
    = Ok (restored_from (selected_settings_state settings contents)
            (if bc_idl_registry contents then idl else None)
            (if bc_wallet_profile contents then wallet else None) encrypted).
Proof.
  intros Ps Pi Pw. unfold backup_payload_from_optional_states.
  apply (selected_settings_plain _ contents) in Ps. revert Ps. generalize (selected_settings_state settings contents).
  clear settings. intros settings Ps.
  assert (Pi' : plain_option (if bc_idl_registry contents then idl else None)) by (by destruct (bc_idl_registry _)).
  assert (Pw' : plain_option (if bc_wallet_profile contents then wallet else None))
    by (by destruct (bc_wallet_profile _)).
  revert Pi' Pw'. generalize (if bc_idl_registry contents then idl else None).
  generalize (if bc_wallet_profile contents then wallet else None). clear idl wallet Pi Pw. intros wallet idl Pi Pw.
  intros [Hsome Hrun]%something_selected. apply io_bind_ok in Hrun as (now & s1 & Hnow & Hrun).
  injection Hnow as <- <-. set (plain := plain_payload _ _) in *.
  destruct (plain_payload_state (VString (unix_time_text (ls_steps s))) _ _ _ Hsome)
    as (state & Hid & Hst & Hset & Hidl & Hwal).
  destruct encrypted; simpl in Hrun.
  - apply io_bind_ok in Hrun as (salt & s2 & [Bs Ls]%fill_random_ok & Hrun).
    apply io_bind_ok in Hrun as (nonce & s3 & [Bn Ln]%fill_random_ok & Hrun).
    apply io_bind_ok in Hrun as (key & s4 & [Hkey _]%io_lift_ok & Hrun).
    apply io_bind_ok in Hrun as (ciphertext & s5 & [Hc _]%io_lift_ok & Hrun).
    apply io_bind_ok in Hrun as (now & s6 & _ & Hrun). injection Hrun as <- <-.
    destruct (aead_encrypt _ _ _ _) as [c|] eqn:Ec; [|done]. injection Hc as ->.
    destruct (aead_tagged _ _ _ _ _ (as_bytes_wf _) Ec) as [Bc Lc]. apply aead_opens in Ec.
    assert (Hm : encrypted_backup_material (encrypted_payload now salt nonce ciphertext) = Ok (salt, nonce, ciphertext)).
    { apply encrypted_material; [done..|]. rewrite Lc, zlen_as_bytes. unfold str_len. lia. }
    split.
    + unfold validate_app_settings_backup_envelope.
      change (validate_backup_identity _) with (@Ok () ()). change (is_encrypted _) with true. simpl. by rewrite Hm.
    + unfold restored_state_from_payload, decrypt_backup_payload. change (is_encrypted _) with true. cbv iota.
      rewrite Hm, Ok_bind, Hkey, Ok_bind, Ec. cbn [ok_or]. rewrite Ok_bind, to_vec_read.
      * cbn [ok_or]. rewrite Ok_bind. subst plain. rewrite Hid, Ok_bind, Hst, Ok_bind, Hset, Hidl, Hwal. done.
      * subst plain. apply plain_payload_plain; [apply unix_time_digits|by apply backup_state_plain..].
  - injection Hrun as <- <-. subst plain. split.
    + unfold validate_app_settings_backup_envelope. rewrite Hid. change (is_encrypted _) with false. simpl. by rewrite Hst.
    + unfold restored_state_from_payload. change (is_encrypted _) with false. cbv iota.
      rewrite Ok_bind, Hid, Ok_bind, Hst, Ok_bind, Hset, Hidl, Hwal. done.
Qed.
End export.
