(* ===== verification/LocalStateWitnesses.v ===== *)
(** * The theorems on the local state at concrete inputs

    A hexadecimal alphabet stands for the one of Base64, a digest that repeats
    a checksum for SHA-256, and the bits of a stream of tags, lengths and contents
    for the text of JSON; each satisfies the laws that [LocalStateAtomic] asks for. *)

From S2P Require Import Prelude Json Bytes CatalogModel NodeRequests SourceModes InstructionTarget.
From S2P Require Import LocalState DiskLogic LocalStateTheorems LocalStateAtomic LocalStateLive DecodeWitnesses.

(** ** Values as streams *)
Definition text_tokens (s : string) : list Z := str_len s :: as_bytes s.

Fixpoint value_tokens (v : Value) : list Z :=
  match v with
  | VNull => [0; 0]
  | VBool b => [1; if b then 1 else 0]
  | VNumber (PosInt n) => [2; n]
  | VNumber _ => []
  | VString s => 3 :: text_tokens s
  | VArray items => 4 :: zlen items :: concat (map value_tokens items)
  | VObject entries =>
      5 :: zlen entries :: concat (map (λ kv, match kv with (k, v) => text_tokens k ++ value_tokens v end) entries)
  end.

Definition read_text (n : Z) (ts : list Z) : string * list Z :=
  (text_of (take (Z.to_nat n) ts), drop (Z.to_nat n) ts).

Fixpoint read_many {A} (read : list Z → option (A * list Z)) (n : nat) (ts : list Z) : option (list A * list Z) :=
  match n with
  | O => Some ([], ts)
  | S n => '(x, ts) ← read ts; '(xs, ts) ← read_many read n ts; Some (x :: xs, ts)
  end.

Definition read_entry (read : list Z → option (Value * list Z)) (ts : list Z) : option ((string * Value) * list Z) :=
  match ts with
  | n :: ts => let '(k, ts) := read_text n ts in '(v, ts) ← read ts; Some ((k, v), ts)
  | [] => None
  end.

Fixpoint read_value (fuel : nat) (ts : list Z) : option (Value * list Z) :=
  match fuel, ts with
  | S fuel, tag :: n :: ts =>
      if tag =? 0 then Some (VNull, ts)
      else if tag =? 1 then Some (VBool (n =? 1), ts)
      else if tag =? 2 then Some (VNumber (PosInt n), ts)
      else if tag =? 3 then let '(s, ts) := read_text n ts in Some (VString s, ts)
      else if tag =? 4 then '(items, ts) ← read_many (read_value fuel) (Z.to_nat n) ts; Some (VArray items, ts)
      else if tag =? 5 then
        '(entries, ts) ← read_many (read_entry (read_value fuel)) (Z.to_nat n) ts; Some (VObject entries, ts)
      else None
  | _, _ => None
  end.

(** Numbers of a stream as bytes: their bits from the least on, ended by the
    leading one. *)
Fixpoint pos_bits (p : positive) : list Z :=
  match p with xH => [2] | xO p => 0 :: pos_bits p | xI p => 1 :: pos_bits p end.
Definition number_bits (n : Z) : list Z := match n with Zpos p => pos_bits p | _ => [3] end.
Definition stream_bytes (ts : list Z) : list Z := concat (map number_bits ts).

Fixpoint bytes_stream (bs : list Z) : list Z :=
  match bs with
  | [] => []
  | b :: bs =>
      let ts := bytes_stream bs in
      if b =? 2 then 1 :: ts
      else if b =? 3 then 0 :: ts
      else match ts with t :: ts => 2 * t + b :: ts | [] => [] end
  end.

Lemma number_bits_read n rest : 0 ≤ n → bytes_stream (number_bits n ++ rest) = n :: bytes_stream rest.
Proof.
  intros Hn. destruct n as [|p|]; [done| |lia]. simpl. clear Hn.
  induction p as [p IH|p IH|]; simpl; [by rewrite IH; f_equal; lia..|done].
Qed.

Lemma stream_bytes_read ts : Forall (Z.le 0) ts → bytes_stream (stream_bytes ts) = ts.
Proof.
  unfold stream_bytes. induction 1 as [|t ts Ht _ IH]; [done|]. simpl. by rewrite number_bits_read, IH.
Qed.

Lemma stream_bytes_wf ts : is_bytes (stream_bytes ts).
Proof.
  unfold stream_bytes. induction ts as [|t ts IH]; simpl; [constructor|]. apply Forall_app. split; [|done].
  destruct t as [|p|]; simpl; [by repeat constructor; lia| |by repeat constructor; lia].
  induction p; simpl; repeat (constructor; try lia); done.
Qed.

#[export] Instance stream_json : SerdeJsonBytes :=
  {| to_vec_pretty := λ v, stream_bytes (value_tokens v);
     from_slice := λ bs, let ts := bytes_stream bs in fst <$> read_value (length ts) ts |}.

Lemma text_taken s rest : text_of (take (Z.to_nat (str_len s)) (as_bytes s ++ rest)) = s.
Proof.
  rewrite <- zlen_as_bytes. unfold zlen. by rewrite Nat2Z.id, take_app_length, text_of_as_bytes.
Qed.
Lemma text_dropped s rest : drop (Z.to_nat (str_len s)) (as_bytes s ++ rest) = rest.
Proof. rewrite <- zlen_as_bytes. unfold zlen. by rewrite Nat2Z.id, drop_app_length. Qed.

Lemma read_many_concat {A} (read : list Z → option (A * list Z)) (tokens : A → list Z) xs rest :
  (∀ x rest, x ∈ xs → read (tokens x ++ rest) = Some (x, rest)) →
  read_many read (length xs) (concat (map tokens xs) ++ rest) = Some (xs, rest).
Proof.
  revert rest. induction xs as [|x xs IH]; intros rest Hx; simpl; [done|].
  rewrite <- (assoc_L (++)), Hx by (by left). simpl. rewrite IH; [done|]. intros y ry Hy. apply Hx. by right.
Qed.

Lemma tokens_le {A} (tokens : A → list Z) xs x :
  x ∈ xs → (length (tokens x) ≤ length (concat (map tokens xs)))%nat.
Proof.
  induction xs as [|y xs IH]; [by intros ?%elem_of_nil|]. simpl. rewrite length_app.
  intros [->|Hin%IH]%elem_of_cons; lia.
Qed.

#[local] Arguments as_bytes : simpl never.

(** Values with their items and entries. *)
Section value_induction.
Context (P : Value → Prop).
Context (Hleaf : ∀ v, match v with VArray _ | VObject _ => True | _ => P v end).
Context (Harray : ∀ items, Forall P items → P (VArray items)).
Context (Hobject : ∀ entries, Forall (λ kv, P kv.2) entries → P (VObject entries)).

Fixpoint value_induction (v : Value) : P v :=
  match v with
  | VArray items =>
      Harray items ((fix go items := match items return Forall P items with
                                     | [] => Forall_nil_2 P
                                     | v :: items => Forall_cons_2 P v items (value_induction v) (go items)
                                     end) items)
  | VObject entries =>
      Hobject entries ((fix go entries := match entries return Forall (λ kv, P kv.2) entries with
                                          | [] => Forall_nil_2 _
                                          | kv :: entries => Forall_cons_2 (λ kv, P kv.2) kv entries
                                                               (value_induction kv.2) (go entries)
                                          end) entries)
  | v => Hleaf v
  end.
End value_induction.

Lemma read_value_tokens v :
  json_plain v = true → ∀ fuel rest, (length (value_tokens v) ≤ fuel)%nat →
  read_value fuel (value_tokens v ++ rest) = Some (v, rest).
Proof.
  revert v. refine (value_induction _ _ _ _); [intros v|intros items IH|intros entries IH].
  - destruct v as [|b|[n| |]|s|items|entries]; try done; intros _ fuel rest Hf;
      (destruct fuel as [|fuel]; [simpl in Hf; lia|]); simpl; [done|by destruct b|done|].
    by rewrite text_taken, text_dropped.
  - simpl. rewrite forallb_forall. intros Hp fuel rest Hf. destruct fuel as [|fuel]; [lia|]. simpl.
    unfold zlen. rewrite Nat2Z.id, (read_many_concat _ value_tokens); [done|].
    intros v rest' Hin. rewrite Forall_forall in IH. apply IH; [done|by apply Hp, list_elem_of_In|].
    pose proof (tokens_le value_tokens items v Hin). lia.
  - simpl. rewrite andb_true_iff, forallb_forall. intros [_ Hp] fuel rest Hf. destruct fuel as [|fuel]; [lia|]. simpl.
    set (tokens := λ kv, match kv with (k, v) => text_tokens k ++ value_tokens v end) in *.
    change (S (S (length (concat (map tokens entries)))) ≤ S fuel)%nat in Hf. unfold zlen. rewrite Nat2Z.id, (read_many_concat _ tokens); [done|].
    intros [k v] rest' Hin. rewrite Forall_forall in IH. pose proof (tokens_le tokens entries (k, v) Hin) as Hle.
    simpl in Hle. rewrite length_app in Hle. simpl. rewrite <- (assoc_L (++)), text_taken, text_dropped.
    assert (Hv : ascii_text k && json_plain v = true) by (by apply (Hp (k, v)), list_elem_of_In).
    apply andb_true_iff in Hv as [_ Hv]. pose proof (IH (k, v) Hin Hv) as Hread. simpl in Hread.
    by rewrite Hread by lia.
Qed.

Lemma text_tokens_nonneg s : Forall (Z.le 0) (text_tokens s).
Proof.
  constructor; [unfold str_len; lia|]. eapply Forall_impl; [apply as_bytes_wf|]. intros n Hn. by apply Hn.
Qed.

Lemma concat_nonneg {A} (f : A → list Z) l : (∀ a, a ∈ l → Forall (Z.le 0) (f a)) → Forall (Z.le 0) (concat (map f l)).
Proof.
  induction l as [|a l IH]; simpl; intros Hf; [constructor|]. apply Forall_app. split; [apply Hf; by left|].
  apply IH. intros a' Hin. apply Hf. by right.
Qed.

Lemma value_tokens_nonneg v : json_plain v = true → Forall (Z.le 0) (value_tokens v).
Proof.
  revert v. refine (value_induction _ _ _ _); [intros v|intros items IH|intros entries IH].
  - destruct v as [|b|[n| |]|s|items|entries]; try done; intros Hp; simpl in *.
    + by repeat constructor.
    + destruct b; repeat constructor; lia.
    + apply andb_true_iff in Hp as [Hn _]. apply Z.leb_le in Hn. repeat constructor; lia.
    + constructor; [lia|apply text_tokens_nonneg].
  - simpl. rewrite forallb_forall. intros Hp. constructor; [lia|]. constructor; [unfold zlen; lia|].
    apply concat_nonneg. intros v Hin. rewrite Forall_forall in IH. by apply IH, Hp, list_elem_of_In.
  - simpl. rewrite andb_true_iff, forallb_forall. intros [_ Hp]. constructor; [lia|]. constructor; [unfold zlen; lia|].
    apply concat_nonneg. intros [k v] Hin. rewrite Forall_forall in IH.
    assert (Hv : ascii_text k && json_plain v = true) by (by apply (Hp (k, v)), list_elem_of_In).
    apply andb_true_iff in Hv as [_ Hv]. apply (Forall_app_2 _ (text_tokens k)); [apply text_tokens_nonneg|by apply (IH (k, v))].
Qed.

(** ** The laws *)
#[export] Instance demo_base64 : Base64Crate := {| base64_encode := hex_encode; base64_decode := hex_decode |}.
#[export] Instance demo_sha : Sha2Crate := {| sha256 := λ bytes, replicate 32 (le_value 8 bytes mod 256) |}.

#[export] Instance demo_laws : LocalStateLaws.
Proof.
  split.
  - apply _.
  - intros bytes _. split; [|done]. simpl. repeat constructor; apply Z.mod_pos_bound; lia.
  - apply hex_decode_encode.
  - intros bytes Hb. by apply hexdigits_ascii, hex_encode_digits.
  - intros v [Hv _]. unfold from_slice. simpl. rewrite stream_bytes_read by (by apply value_tokens_nonneg). pose proof (read_value_tokens v Hv (length (value_tokens v)) [] (le_n _)) as Hr.
    rewrite app_nil_r in Hr. by rewrite Hr.
Qed.

(** ** A session *)
Definition demo_old (file : StateFile) : Node :=
  match file with FileSettings => NodeFile [1; 2; 3] | FileIdl => NodeMissing | FileWallet => NodeFile [9] end.
Definition demo_writes : LocalStateWriteSet := mkWriteSet (Some [4; 5]) (Some [6]) None.

Definition clean_disk (v : StateFile → Node) : Disk := λ name,
  match name with
  | TargetName file => mkSlot (v file) []
  | JournalName => mkSlot NodeMissing []
  | LockName => mkSlot NodeMissing []
  end.
Definition fresh (d : Disk) : LocalState := mkState d false CancellationOpen 0.

(** The calls [faults] fail without their effect, and from [death] on all do. *)
Definition faulty (faults : list nat) (death : nat) : Environment :=
  {| io_answer := λ n, if bool_decide (n ∈ faults) || (death <=? n)%nat then IoFails else IoWorks;
     close_requested := λ _, false; random_bytes := λ _, replicate 16 7 |}.
Definition working : Environment :=
  {| io_answer := λ _, IoWorks; close_requested := λ _, false; random_bytes := λ _, replicate 16 7 |}.

Lemma demo_old_plain file : plain_node (demo_old file).
Proof. destruct file; repeat constructor; by vm_compute. Qed.
Lemma demo_writes_bytes : writes_bytes demo_writes.
Proof. intros [] bytes [= <-]; repeat constructor; by vm_compute. Qed.
Lemma clean_settled v : settled v (clean_disk v).
Proof. split_and!; [|intros file|]; repeat constructor; done. Qed.

(** The power is lost after the directory was written. *)
Definition written_back (d : Disk) : Disk := λ name, mkSlot (disk_node d name) [].
Lemma written_back_loss d : power_loss d (written_back d).
Proof. intros name. exists (disk_node d name). split; [by left|done]. Qed.

Definition demo_session (env : Environment) : Res StateError LocalStateCommitReport * LocalState :=
  with_local_state_in (env := env) (local_state_commit (env := env) demo_writes) (fresh (clean_disk demo_old)).
Definition demo_restart (env : Environment) (d : Disk) : Res StateError () * LocalState :=
  acquire (env := env) (fresh (written_back d)).

(** The first process dies between the two targets, and the next one between
    the two it restores. *)
Definition half_committed : Disk := ls_disk (demo_session (faulty [] 36)).2.
Definition half_restored : Disk := ls_disk (demo_restart (faulty [] 18) half_committed).2.

Lemma demo_restarted env d : restarted env d (fresh (written_back d)) (demo_restart env d).1 (demo_restart env d).2.
Proof. split; [apply written_back_loss|apply surjective_pairing]. Qed.

Lemma half_restored_restarts : restarts half_committed half_restored.
Proof. eapply restarts_once; [apply (demo_restarted (faulty [] 18))|apply restarts_none]. Qed.

Lemma commit_atomic_across_restarts_witness :
  disk_node half_committed (TargetName FileSettings) = NodeFile [4; 5]
  ∧ disk_node half_committed (TargetName FileIdl) = NodeMissing
  ∧ (settled demo_old (ls_disk (demo_restart working half_restored).2)
     ∨ settled (written demo_writes demo_old) (ls_disk (demo_restart working half_restored).2)).
Proof.
  split_and!; [by vm_compute..|].
  refine (proj1 (commit_atomic_across_restarts (faulty [] 36) working demo_old demo_writes
    (fresh (clean_disk demo_old)) (demo_session (faulty [] 36)).1 (demo_session (faulty [] 36)).2 half_restored
    (fresh (written_back half_restored)) (demo_restart working half_restored).2
    demo_old_plain demo_writes_bytes (clean_settled demo_old) (surjective_pairing _) half_restored_restarts _)).
  split; [apply written_back_loss|by vm_compute].
Defined.

Lemma undisturbed_restart_recovers_witness :
  ∃ s3, acquire (env := working) (fresh (written_back half_restored)) = (ROk (), s3)
        ∧ (settled demo_old (ls_disk s3) ∨ settled (written demo_writes demo_old) (ls_disk s3)).
Proof.
  exact (undisturbed_restart_recovers (faulty [] 36) working demo_old demo_writes
    (fresh (clean_disk demo_old)) (demo_session (faulty [] 36)).1 (demo_session (faulty [] 36)).2 half_restored
    (fresh (written_back half_restored)) demo_old_plain demo_writes_bytes (clean_settled demo_old)
    (surjective_pairing _) half_restored_restarts (written_back_loss _) eq_refl (λ _, eq_refl)).
Defined.

Lemma undisturbed_commit_succeeds_witness :
  ∃ report s', demo_session working = (ROk report, s') ∧ cr_directory_durability report = DurabilityVerified
               ∧ settled (written demo_writes demo_old) (ls_disk s').
Proof.
  apply (undisturbed_commit_succeeds (env := working) (λ _, eq_refl) (λ _, eq_refl) demo_old demo_writes
    demo_old_plain demo_writes_bytes (fresh (clean_disk demo_old))); [done| |apply clean_settled|done|done].
  intros n. split; [|done]. repeat constructor; by vm_compute.
Defined.

(** ** A journal that is seen and not durable

    The removal of the journal and its reinstatement both fail to synchronize
    the directory, so that the process is closed to it.  A new process, with no
    loss of power in between, finds the journal and removes the first target
    before anything has made the journal durable.  When the power is lost then,
    the journal may be gone while one target is restored and the other is not,
    and nothing will ever restore it. *)
Definition unsure : Disk := ls_disk (demo_session (faulty [48; 59]%nat 100)).2.
Definition hasty : Disk := ls_disk (acquire (env := faulty [] 14) (fresh unsure)).2.
Definition hasty_lost : Disk := λ name,
  if decide (name = JournalName) then mkSlot NodeMissing [] else mkSlot (disk_node hasty name) [].

Example restart_may_trust_a_lost_journal :
  power_loss hasty hasty_lost
  ∧ ∃ s', acquire (env := working) (fresh hasty_lost) = (ROk (), s')
      ∧ disk_node (ls_disk s') (TargetName FileSettings) = written demo_writes demo_old FileSettings
      ∧ disk_node (ls_disk s') (TargetName FileIdl) = demo_old FileIdl.
Proof.
  split.
  - intros name. unfold hasty_lost. destruct (decide (name = JournalName)) as [->|Hne].
    + exists NodeMissing. split; [|done]. apply (bool_decide_unpack _). by vm_compute.
    + exists (disk_node hasty name). split; [by left|done].
  - exists (acquire (env := working) (fresh hasty_lost)).2. split; [|by vm_compute].
    rewrite (surjective_pairing (acquire _)). f_equal.
Qed.
