(* ===== verification/SettingsWitnesses.v ===== *)
(** * The theorems on channel sources and backups at concrete inputs

    A URL here is [https://] and a rest of printable ASCII that does not start with
    a slash, all of it the host; the cipher only appends a tag of 16 bytes, and the
    text of JSON is the stream of [LocalStateWitnesses]. *)

From S2P Require Import Prelude Json Bytes CatalogModel NodeRequests SourceModes InstructionTarget LocalState.
From S2P Require Import DiskLogic LocalStateTheorems LocalStateAtomic ChannelConfig ChannelConfigTheorems.
From S2P Require Import ChannelStore ChannelStoreTheorems DecodeWitnesses LocalStateWitnesses ImportOptions.
From S2P Require Import BackupPlan SettingsBackup BackupCatalog BackupCatalogTheorems BackupPlanTheorems BackupTheorems.
Open Scope Z_scope.

(** ** URLs *)
Definition plain_rest (rest : string) : bool :=
  forallb plain (String.list_ascii_of_string rest) && negb (starts_with "/" rest).

#[export] Instance demo_url : UrlCrate := {|
  Url := string;
  url_parse s := rest ← strip_prefix "https://" s; if plain_rest rest then Some rest else None;
  url_to_string rest := "https://" +:+ rest;
  url_cannot_be_a_base _ := false;
  url_scheme _ := "https";
  url_host rest := Some (HostDomain rest);
  url_username _ := "";
  url_password _ := None;
  url_query _ := None;
  url_fragment _ := None;
  url_port _ := None;
  url_without_port rest := Some rest;
|}.

Lemma demo_url_parsed s rest : url_parse s = Some rest → plain_rest rest = true.
Proof.
  unfold url_parse, demo_url. destruct (strip_prefix "https://" s) as [rest'|]; [|done].
  unfold mbind, option_bind. destruct (plain_rest rest') eqn:E; [|done]. by intros [= <-].
Qed.

Lemma demo_url_printed rest : plain_rest rest = true → url_parse (url_to_string rest) = Some rest.
Proof.
  intros Hr. transitivity (if plain_rest rest then Some rest else None); [reflexivity|by rewrite Hr].
Qed.

#[export] Instance demo_url_laws : UrlLaws.
Proof.
  split.
  - intros s u Hp. by eapply demo_url_printed, demo_url_parsed.
  - intros s u u' Hp [= <-]. split; [by eapply demo_url_printed, demo_url_parsed|done].
  - intros s u Hp _ _. apply demo_url_parsed, andb_true_iff in Hp as [Hp Hs]. split.
    + apply plain_append; [repeat constructor|]. apply Forall_forall. intros a Hin.
      rewrite forallb_forall in Hp. by apply Hp, list_elem_of_In.
    + exists u. split; [done|]. by apply negb_true_iff in Hs.
Qed.

(** ** A channel gets a Sequencer *)
Definition digits_of (c : string) : string := String.concat "" (replicate 64 c).
Definition demo_scope : NetworkScope := GenesisId (digits_of "a").
Definition demo_channel : string := digits_of "1".
Definition settings_path : string := "/state/settings.json".
Definition no_files (file : StateFile) : Node := NodeMissing.

Definition add_request : ChannelSourceConfigApplyRequest :=
  mkApplyRequest demo_scope demo_channel 0
    (AddSequencer (Some "Main") (TargetRpc " https://node.example/ ") false).
Definition honest (target : ChannelSourceTarget) : Res ChannelSourceProbeFailure SequencerTargetAttestation :=
  ROk (mkTargetAttestation demo_channel RpcReported).

Definition prepared_run : Res StateError PreparedChannelSourceMutation * LocalState :=
  prepare_mutation (env := working) settings_path add_request (fresh (clean_disk no_files)).
Definition demo_prepared : PreparedChannelSourceMutation :=
  match prepared_run.1 with
  | ROk prepared => prepared
  | RErr _ => mkPrepared demo_scope demo_channel 0 RemoveIndexer None None
  end.
Definition demo_receipt : option SequencerAttestationReceipt :=
  match attest demo_prepared honest 5000 with Ok (receipt, _) => receipt | Err _ => None end.
Definition committed_run : Res StateError ChannelSourceConfig * LocalState :=
  commit_prepared_mutation (env := working) settings_path demo_prepared demo_receipt (fresh (clean_disk no_files)).

Definition demo_source : ConfiguredSequencerSource :=
  mkSequencerSource ("src_" +:+ hex_encode (replicate 16 7)) (Some "Main") (TargetRpc "https://node.example/")
    (PersistedAttested demo_channel (fingerprint (TargetRpc "https://node.example/")) 5).
Definition demo_config : ChannelSourceConfig :=
  mkChannelConfig demo_scope demo_channel 1 [demo_source] None None.

Lemma prepared_works :
  prepare_mutation (env := working) settings_path add_request (fresh (clean_disk no_files))
  = (ROk demo_prepared, prepared_run.2).
Proof. vm_compute. reflexivity. Qed.
Lemma committed_works :
  commit_prepared_mutation (env := working) settings_path demo_prepared demo_receipt (fresh (clean_disk no_files))
  = (ROk demo_config, committed_run.2).
Proof. vm_compute. reflexivity. Qed.

Definition demo_document : SettingsDocument := mkDocument (sd_fields document_default) [demo_config].
Definition demo_fields : Map :=
  match document_into_value demo_document with Ok (VObject fields) => fields | _ => [] end.

Lemma settings_document_roundtrip_witness :
  configs_ok [demo_config] ∧ ∃ v, document_into_value demo_document = Ok v ∧ document_from_value v = Ok demo_document.
Proof.
  apply (settings_document_roundtrip demo_fields demo_document).
  - apply (bool_decide_unpack _). by vm_compute.
  - by vm_compute.
Defined.

Lemma mutation_commits_exactly_witness :
  ∃ doc doc' value, settings_doc NodeMissing doc ∧ committed demo_prepared demo_receipt doc doc' demo_config
    ∧ document_into_value doc' = Ok value ∧ settled (replaced no_files (to_vec_pretty value)) (ls_disk committed_run.2).
Proof.
  exact (mutation_commits_exactly settings_path working working no_files add_request (fresh (clean_disk no_files))
    demo_prepared prepared_run.2 no_files demo_receipt (fresh (clean_disk no_files)) (ROk demo_config) committed_run.2
    (clean_settled no_files) prepared_works (clean_settled no_files) committed_works).
Defined.

Lemma no_attestation_without_attestor_witness :
  attestation_for demo_channel (TargetRpc "https://node.example/") (sq_channel_attestation demo_source)
  ∧ (sq_channel_attestation demo_source = AttestationPending
     ∨ (∃ base, pm_base_config demo_prepared = Some base ∧ kept_source base demo_source)
     ∨ answered honest demo_scope demo_channel demo_source).
Proof.
  assert (Ha : attest demo_prepared honest 5000 = Ok (demo_receipt, OutcomePersisted)) by (vm_compute; reflexivity).
  pose proof (no_attestation_without_attestor settings_path working working honest no_files add_request
    (fresh (clean_disk no_files)) demo_prepared prepared_run.2 5000 demo_receipt OutcomePersisted no_files
    (fresh (clean_disk no_files)) demo_config committed_run.2 (clean_settled no_files) prepared_works Ha
    (clean_settled no_files) committed_works) as Hall.
  rewrite Forall_forall in Hall. apply (Hall demo_source). by left.
Defined.

(** ** The packages and the host *)
#[export] Instance demo_backup_lowercase : UnicodeLowercase :=
  {| to_lowercase := to_ascii_lowercase; to_lowercase_ascii _ _ := eq_refl |}.
#[export] Instance stream_text : SerdeJson :=
  {| to_string v := text_of (to_vec_pretty v); from_str s := from_slice (as_bytes s) |}.
#[export] Instance tag_cipher : BackupCrates := {|
  hkdf_sha256 salt material info := Some (take 32 (material ++ salt ++ info));
  aead_encrypt key nonce aad message := Some (message ++ replicate 16 0);
  aead_decrypt key nonce aad ciphertext := Some (take (length ciphertext - 16)%nat ciphertext);
|}.
#[export] Instance demo_backup_host : BackupHost :=
  {| random_fill _ n := replicate n 5; unix_time_text _ := "1700000000" |}.
#[export] Instance demo_files : HostFiles := {|
  host_is_dir path := String.eqb path "/wallet";
  host_is_file path := String.eqb path "/wallet/wallet_config.json";
  host_read path := if String.eqb path "/wallet/wallet_config.json" then Some [7; 8; 9] else None;
  host_env _ := None;
|}.

#[export] Instance demo_backup_laws : BackupLaws.
Proof.
  split.
  - intros key nonce aad message ciphertext Hc. injection Hc as <-. unfold aead_decrypt, tag_cipher. f_equal.
    change (length _ - 16)%nat with (length (message ++ replicate 16 0%Z) - 16)%nat.
    rewrite length_app, length_replicate, Nat.add_sub. apply take_app_length.
  - intros key nonce aad message ciphertext Hm [= <-]. split.
    + apply Forall_app_2; [done|]. by repeat constructor.
    + unfold zlen. rewrite length_app. unfold ENCRYPTION_TAG_BYTES. simpl. lia.
  - intros step n. split; [|unfold zlen; simpl; by rewrite length_replicate].
    apply Forall_replicate. by split; vm_compute.
  - intros v Hv. unfold to_string, stream_text. rewrite as_bytes_text_of by apply stream_bytes_wf.
    by apply (json_roundtrip (LocalStateLaws := demo_laws)).
  - done.
Qed.

(** ** A merge *)
Definition favorite (kind value label : string) : Value :=
  json_object [("kind", VString kind); ("value", VString value); ("label", VString label)].
Definition replace_block : BackupImportOptions :=
  mkOptions (mkSelection ModeSkip ModeMerge ModeSkip ModeSkip) []
    [(AreaFavorites, {[ "block:::1" := ReplaceExisting ]})].
Definition current_favorites : list Value := [favorite "account" "x" "mine"; favorite "block" "1" "first"].
Definition backup_favorites : list Value := [favorite "Block" "1" "genesis"; favorite "channel" "c" "new"].
Definition merged_favorites : list Value :=
  [favorite "account" "x" "mine"; favorite "Block" "1" "genesis"; favorite "channel" "c" "new"].

Lemma merge_keeps_and_adds_witness :
  ∃ added, favorite_entry_key <$> merged_favorites = (favorite_entry_key <$> current_favorites) ++ added ∧ NoDup added.
Proof.
  destruct (merge_keeps_and_adds favorite_entry_key favorite_entry_label AreaFavorites replace_block true
    (Some (VArray current_favorites)) (Some (VArray backup_favorites)) merged_favorites
    (match merge_array_by_key favorite_entry_key favorite_entry_label AreaFavorites replace_block true
             (Some (VArray current_favorites)) (Some (VArray backup_favorites)) with
     | Ok (_, report) => report | Err _ => item_report_default end))
    as (added & Hkeys & Hnodup & _).
  - vm_compute. reflexivity.
  - by exists added.
Defined.

(** ** An encrypted export *)
Definition run_value {A} (absent : A) (run : Res StateError A * LocalState) : A :=
  match run.1 with ROk a => a | RErr _ => absent end.
Lemma run_works {A} (absent : A) (run : Res StateError A * LocalState) :
  (if run.1 is ROk _ then true else false) = true → run = (ROk (run_value absent run), run.2).
Proof. unfold run_value. by destruct run as [[a|e] s]. Qed.

Definition wallet_state : Value :=
  json_object [("profile", json_object [("wallet_home", VString "/wallet")]); ("operations", VArray [])].
Definition small_settings : Value := json_object [("favorites", VArray [favorite "block" "1" "first"])].
Definition export_run : Res StateError Value * LocalState :=
  backup_payload_from_optional_states (env := working) (Some small_settings) (Some default_idl_state) (Some wallet_state)
    true (Some wallet_state) contents_all (fresh (clean_disk no_files)).
Definition demo_payload : Value := run_value VNull export_run.

Lemma exported_backup_restores_witness :
  validate_app_settings_backup_envelope demo_payload = Ok ()
  ∧ restored_state_from_payload demo_payload (Some wallet_state)
    = Ok (restored_from (Some small_settings) (Some default_idl_state) (Some wallet_state) true).
Proof.
  refine (exported_backup_restores (env := working) (Some small_settings) (Some default_idl_state) (Some wallet_state)
    true (Some wallet_state) contents_all (fresh (clean_disk no_files)) demo_payload export_run.2 _ _ _ _);
    [split; [vm_compute; reflexivity|vm_compute; lia]..|]. apply (run_works VNull export_run). vm_compute. reflexivity.
Defined.

(** ** A restoration

    The process dies between the files it replaces. *)
Definition replace_all : BackupImportOptions :=
  mkOptions (mkSelection ModeReplace ModeReplace ModeReplace ModeReplace) [] [].
Definition demo_restored : RestoredState :=
  restored_from (Some small_settings) (Some default_idl_state) (Some wallet_state) false.
Definition restore_plan : ImportPlan :=
  match planned_import no_files demo_restored replace_all with Ok plan => plan | Err _ => mkPlan None None None [] VNull end.
Definition restore_run (env : Environment) : Res StateError SettingsBackupRestoreReceipt * LocalState :=
  restore_app_settings_backup_in_dir (env := env) demo_restored replace_all (fresh (clean_disk no_files)).
Definition half_written : Disk := ls_disk (restore_run (faulty [] 45)).2.

Lemma restore_plan_works : planned_import no_files demo_restored replace_all = Ok restore_plan.
Proof. vm_compute. reflexivity. Qed.
Lemma no_files_plain file : plain_node (no_files file).
Proof. done. Qed.
Lemma stream_json_bytes v : is_bytes (to_vec_pretty v).
Proof. apply stream_bytes_wf. Qed.

Definition shown (d : Disk) : list bool := map (λ file, bool_decide (disk_node d (TargetName file) = NodeMissing)) STATE_FILES.

Lemma recovered_works : ∃ after, acquire (env := working) (fresh (written_back half_written)) = (ROk (), after).
Proof.
  exists (acquire (env := working) (fresh (written_back half_written))).2.
  rewrite (run_works () (acquire (env := working) (fresh (written_back half_written)))) at 1
    by (vm_compute; reflexivity).
  by destruct (run_value _ _).
Qed.

Lemma restore_atomic_across_restarts_witness :
  shown half_written = [false; true; true]
  ∧ ∃ s3, acquire (env := working) (fresh (written_back half_written)) = (ROk (), s3)
      ∧ (settled no_files (ls_disk s3) ∨ settled (written (plan_writes restore_plan) no_files) (ls_disk s3)).
Proof.
  split; [vm_compute; reflexivity|].
  destruct recovered_works as [after Hwork]. exists after. split; [exact Hwork|].
  pose proof (restore_atomic_across_restarts (faulty [] 45) working no_files demo_restored replace_all
    (fresh (clean_disk no_files)) (restore_run (faulty [] 45)).1 (restore_run (faulty [] 45)).2 half_written
    (fresh (written_back half_written)) after no_files_plain stream_json_bytes (clean_settled no_files)
    (surjective_pairing _) (restarts_none _) (conj (written_back_loss half_written) Hwork)) as Hall.
  rewrite restore_plan_works in Hall. destruct Hall as [Hall _]. exact Hall.
Defined.

Lemma undisturbed_restore_applies_plan_witness :
  ∃ receipt s', restore_run working = (ROk receipt, s')
    ∧ settled (written (plan_writes restore_plan) no_files) (ls_disk s')
    ∧ rr_applied_areas receipt = ip_applied_areas restore_plan ∧ ip_summary restore_plan = VObject (rr_summary receipt)
    ∧ (rr_commit receipt = BackupNoOp ↔ ip_applied_areas restore_plan = []).
Proof.
  refine (undisturbed_restore_applies_plan (env := working) (λ _, eq_refl) (λ _, eq_refl) no_files no_files_plain
    stream_json_bytes demo_restored replace_all restore_plan (fresh (clean_disk no_files)) restore_plan_works _
    (clean_settled no_files) eq_refl eq_refl).
  intros n. split; [|done]. repeat constructor; by vm_compute.
Defined.

(** ** A catalog of backups

    A backup is recorded.  The process that attaches the CID of its copy dies after
    it replaced the catalog and before that is durable, and the loss of power brings
    the old catalog back. *)
#[export] Instance demo_catalog_laws : CatalogLaws.
Proof.
  split.
  - intros v _. unfold to_vec_pretty, stream_json, stream_bytes.
    induction (value_tokens v) as [|t ts IH]; [done|]. simpl. destruct t as [|p|]; simpl; [done| |done].
    induction p as [p IHp|p IHp|]; simpl; [exact IHp..|exact IH].
  - apply stream_json_bytes.
  - intros step. by exists 1700000000%N.
Qed.
Definition quiet_host : CatalogHost := {| stat_fails := λ _, false; staged_files := λ _, [] |}.

Lemma faulty_honest faults death : Honest (H := faulty faults death) (H0 := quiet_host).
Proof. split; [|done]. intros n. unfold io_answer, faulty. by destruct (_ || _). Qed.
Lemma working_works : Working (H := working) (H0 := quiet_host).
Proof. by split. Qed.
Lemma working_is_honest : Honest (H := working) (H0 := quiet_host).
Proof. by split. Qed.

Definition first_backup : CatalogRequest := RecordLocal (Some "first") small_settings.
Definition demo_run (env : Environment) (request : CatalogRequest) (d : CatalogDisk) : Result BackupCatalogEntry * CatalogState :=
  @run_request _ _ _ _ "/state" env quiet_host request (mkCatalogState d 0).
Definition one_backup : CatalogDisk := ks_disk (demo_run working first_backup empty_catalog_disk).2.
Definition demo_entry : BackupCatalogEntry :=
  match (demo_run working first_backup empty_catalog_disk).1 with
  | Ok entry => entry
  | Err _ => mkCatalogEntry "" "" "" "" [] false "" None
  end.
Definition attach_copy : CatalogRequest := AttachRemote (ce_backup_catalog_id demo_entry) "bafy-copy" None.
Definition attach_run : Result BackupCatalogEntry * CatalogState := demo_run (faulty [] 15) attach_copy one_backup.
Definition half_attached : CatalogDisk := ks_disk attach_run.2.

Definition slot_oldest (slot : Slot) : Slot := mkSlot (List.last (slot_possible slot) NodeMissing) [].
Definition oldest (d : CatalogDisk) : CatalogDisk :=
  mkCatalogDisk (slot_oldest (kd_catalog d)) (slot_oldest <$> kd_payloads d) (kd_dir d).

Lemma oldest_lost slot : slot_lost slot (slot_oldest slot).
Proof.
  eexists. split; [|done]. apply list_elem_of_In. destruct (exists_last (l := slot_possible slot)) as (l & n & ->); [done|].
  rewrite last_last, in_app_iff. by right; left.
Qed.
Lemma oldest_loss d : kd_dir d = DirDurable → catalog_power_loss d (oldest d).
Proof.
  intros Hd. split; [apply oldest_lost|simpl; by rewrite Hd|]. intros name. simpl. rewrite bool_decide_false by congruence.
  unfold payload_slot, oldest. simpl. rewrite lookup_fmap. destruct (kd_payloads d !! name) as [slot|]; [apply oldest_lost|].
  exists NodeMissing. by split; [left|].
Qed.

Lemma one_backup_history : history "/state" 1 one_backup.
Proof.
  apply (@history_request _ _ _ _ "/state" 0 working quiet_host working_is_honest (mkCatalogState empty_catalog_disk 0)
    first_backup (demo_run working first_backup empty_catalog_disk).1 (demo_run working first_backup empty_catalog_disk).2);
    [apply history_empty|done|apply surjective_pairing].
Qed.

Lemma demo_history : history "/state" 3 (oldest half_attached).
Proof.
  apply history_power with half_attached; [|apply oldest_loss; vm_compute; reflexivity].
  apply (@history_request _ _ _ _ "/state" 1 (faulty [] 15) quiet_host (faulty_honest _ _) (mkCatalogState one_backup 0)
    attach_copy attach_run.1 attach_run.2); [apply one_backup_history|done|apply surjective_pairing].
Qed.

Lemma listed_backups_readable_witness :
  zlen (slot_possible (kd_catalog half_attached)) = 2
  ∧ ∃ c, (@load_catalog_from_path working quiet_host _ "/state" (mkCatalogState (oldest half_attached) 0)).1 = Ok c
    ∧ ∀ entry, entry ∈ bk_entries c →
        ∃ bytes, (@backup_payload_bytes_in_dir working quiet_host _ _ _ "/state" (ce_backup_catalog_id entry)
                    (mkCatalogState (oldest half_attached) 0)).1 = Ok bytes
          ∧ payload_identity bytes = ce_payload_id entry.
Proof.
  split; [vm_compute; reflexivity|].
  refine (listed_backups_readable (H8 := working_works) "/state" eq_refl 3 (oldest half_attached) 0 demo_history _).
  unfold catalog_bound. lia.
Defined.

Lemma requests_only_add_witness :
  ∃ c', (@load_catalog_from_path working quiet_host _ "/state" (mkCatalogState half_attached 0)).1 = Ok c'
    ∧ (∀ entry, entry ∈ [demo_entry] → ∃ entry', entry' ∈ bk_entries c'
         ∧ ce_backup_catalog_id entry' = ce_backup_catalog_id entry ∧ ce_payload_id entry' = ce_payload_id entry)
    ∧ match attach_run.1 with Ok entry => entry ∈ bk_entries c' | Err _ => True end.
Proof.
  refine (requests_only_add (H6 := faulty_honest [] 15) "/state" eq_refl 1 (faulty [] 15) quiet_host
    (mkCatalogState one_backup 0) attach_copy attach_run.1 attach_run.2 (mkBackupCatalog 1 [demo_entry])
    one_backup_history _ _ (surjective_pairing _) working quiet_host working_works _);
    [unfold catalog_bound; lia|done|vm_compute; reflexivity].
Defined.

Lemma recorded_backup_reads_back_witness :
  (@backup_payload_value_in_dir working quiet_host _ _ _ "/state" "backup_1700000000_010101010101"
     (mkCatalogState one_backup 0)).1 = Ok ("backup_1700000000_010101010101", small_settings).
Proof.
  refine (recorded_backup_reads_back (H6 := working_is_honest) "/state" eq_refl 0 working quiet_host
    (mkCatalogState empty_catalog_disk 0) (Some "first") small_settings demo_entry
    (demo_run working first_backup empty_catalog_disk).2 0 (history_empty _) _ _ _ _ working quiet_host working_works);
    [unfold catalog_bound; lia|done|split; [vm_compute; reflexivity|vm_compute; lia]|].
  assert (Hrun : (demo_run working first_backup empty_catalog_disk).1 = Ok demo_entry) by (vm_compute; reflexivity).
  rewrite <- Hrun. apply surjective_pairing.
Defined.

(** When the system cannot say whether the catalog is a file, the next transaction
    takes it for absent: it removes every payload as an orphan and replaces the
    catalog. *)
Definition blind_host : CatalogHost := {| stat_fails := λ _, true; staged_files := λ _, [] |}.
Definition blind_run : Result BackupCatalogEntry * CatalogState :=
  @run_request _ _ _ _ "/state" working blind_host (RecordLocal None VNull) (mkCatalogState one_backup 0).

Example failing_stat_loses_backups :
  payload_node one_backup "backup_1700000000_010101010101.json" = NodeFile (to_vec_pretty small_settings)
  ∧ (∃ entry, blind_run.1 = Ok entry)
  ∧ payload_slot (ks_disk blind_run.2) "backup_1700000000_010101010101.json" = mkSlot NodeMissing []
  ∧ (@backup_payload_bytes_in_dir working quiet_host _ _ _ "/state" "backup_1700000000_010101010101"
       (mkCatalogState (ks_disk blind_run.2) 0)).1
    = Err ["backup catalog entry `backup_1700000000_010101010101` was not found"].
Proof. split_and!; [vm_compute; reflexivity|eexists; vm_compute; reflexivity|vm_compute; reflexivity..]. Qed.
